(* ===== verification/_CoqProject ===== *)
-Q . S2P
Prelude.v
Wire.v
MemoryModel.v
LedgerModel.v
LedgerValidate.v
LedgerView.v
MigrationManifest.v
LedgerStorage.v
ProjectionModel.v
LedgerStore.v
LedgerQueries.v
LedgerChains.v
LedgerDurability.v
LedgerCommits.v
DocPlatform.v
LedgerGenesis.v
LedgerGuarantees.v
LedgerAccess.v
LedgerLogs.v
MigrationProps.v
ProjectionView.v
ProjectionLifecycle.v
ProjectionPlan.v
ProjectionPlanProps.v
LayeredMemory.v
LayeredProps.v
LedgerInstance.v
Scheduler.v
Messaging.v
CircuitBreaker.v
EventBus.v
EventBusProps.v
Permission.v
Text.v
Float32.v
ObjectStorage.v
ContextLoader.v
ContextProps.v
IntentCache.v
AgentAuth.v
ApiRequest.v
Security.v
SecurityProps.v
GraphModel.v
Graph.v
GraphStore.v
GraphSearch.v
GraphPaths.v
GraphInvariant.v
GraphDisk.v
GraphSync.v
KernelGraph.v
KernelGraphProps.v
KernelAgents.v
Tasks.v
CostLedger.v
Delta.v
Sessions.v
Profiles.v
SearchIndex.v
CognitivePipeline.v
SemanticFS.v
SemanticFSProps.v
KernelFS.v
KernelFSProps.v
IntentPlans.v
IntentTree.v
Prefetch.v
PrefetchProps.v
IntentExecutor.v
Relevance.v
EdgeCache.v
Embeddings.v
ProjectionController.v
ProjectionRuntime.v
KernelMemory.v
LedgerReload.v
KernelMemoryProps.v
PublicService.v
Hooks.v
