(* ===== verification/Prelude.v ===== *)
(** * Plico: a verification of the memory ledger and the tiers over it, its
      projections, the object store, the semantic file system and the knowledge
      graph over it, and the kernel's agents, permissions, sessions, intents,
      requests and events

    Plico is a kernel for software agents.  Its durable core is a
    content-addressed, append-only ledger of memory revisions; agents read and
    write it through four tiers of runtime entries; derived data (embeddings)
    hangs off the ledger through a projection manifest; agents are registered,
    scheduled and message each other through the scheduler; content-addressed
    objects are found by tags, meaning and a graph of versioned relations, and
    are read back as contexts of a chosen size; agents work in sessions, follow
    a feed of changes, declare intents whose context is prefetched, and have
    plans of steps executed for them; every request is authenticated, checked
    against the permissions of its agent and routed to a handler; the kernel
    records what happens on an event bus, caches assembled contexts, and guards
    its providers with circuit breakers.  This library translates those parts
    from their Rust sources and proves what makes them correct.

    ** The parts and the files that model them

    - [Prelude]: results with [?]-style notation, loops with early return,
      machine-width integers, byte strings, and the list and map lemmas the
      other files share (hint database [plico]).
    - [Wire]: the external services as two classes: [Platform] (SHA-256, UUID
      parsing and version-5 derivation) and [Serde] (the
      canonical JSON writer and the JSON reader of a type).
    - [MemoryModel] (src/memory/layered/mod.rs): scopes, tiers, contents,
      entries and [canonical_content_hash].
    - [LedgerModel] (src/memory/ledger/model.rs, hash.rs): revision, policy,
      relation, segment, root and view records, their domain-separated hashes
      and the migration inputs.
    - [LedgerValidate] (validate.rs), [LedgerView] (current_view.rs),
      [MigrationManifest] (migration_manifest.rs): the validators as loops
      over explicit scan states, the view rebuilt from the logs, and the
      manifests a migrated ledger must carry.
    - [LedgerStorage] (src/cas/ledger_store.rs): the object directory as a map
      from hashes to bytes, with the temporary files left beside the objects,
      and the two pointer slots.  Opening, writing and publishing take the
      outcome of their input/output (done, failed at a step, interrupted), so a
      crash at any point is a value of the model.
    - [LedgerStore] (store.rs): [load_state], [ensure_genesis],
      [commit_records] and the chain walks; [LedgerQueries] the access
      queries, conversions and projection fences of the same file.
    - [LayeredMemory] (src/memory/layered/mod.rs): the tiers and their
      operations, written against the trait of the ledger, the class
      [CanonicalLedger]; [LedgerInstance] is the store's implementation of it.
    - [ProjectionModel], [ProjectionView] (src/memory/projection/model.rs,
      hash.rs, validate.rs, current_view.rs): the replay of a projection
      manifest into the view of projections; [ProjectionPlan] (store.rs): the
      operations of the open projection store that append to the manifest.
    - [Scheduler] (src/scheduler/agent.rs, queue.rs, mod.rs) and [Messaging]
      (messaging.rs): agents, the intent queue, snapshots, mailboxes.
    - [EventBus] (src/kernel/event_bus.rs): the event ring, subscriptions and
      the rotating log file; [CircuitBreaker] (src/fs/embedding and src/llm):
      the breakers as calls and as interleaved atomic accesses.
    - [Permission] (src/api/permission.rs, src/kernel/ops/permission.rs): grants,
      the guard and its checks, the permission index; [AgentAuth]
      (src/api/agent_auth.rs): tokens, bearers, modes and the two files of the
      key store.
    - [Text], [Float32]: what the sources use of the standard library's strings
      (words, lossy UTF-8, character boundaries, paths) and of IEEE single
      and double floats, the latter on the standard library's [SpecFloat].
    - [ObjectStorage] (src/cas/object.rs, storage.rs): objects under their
      content hash and the access log; [ContextLoader]
      (src/fs/context_loader.rs, context_budget.rs, three operations of
      src/kernel/ops/fs.rs): the three layers of a context and their assembly
      within a budget; [IntentCache] (src/kernel/ops/prefetch_cache.rs): the
      cache of assembled contexts.
    - [ApiRequest] (src/api/semantic.rs, dto.rs): every request with its fields,
      the identity and action of a request, its route; [Security]
      (src/kernel/ops/security.rs, handlers/permission.rs, core_ops.rs): the
      check every request passes, the permission handler, the core verbs;
      [KernelAgents] (src/kernel/ops/agent.rs, api_dispatch.rs): registration
      and lifecycle of agents and what a request goes through before its
      handler.
    - [Tasks] (src/kernel/ops/task.rs): tasks one agent delegates to another;
      [CostLedger] (src/kernel/ops/cost_ledger.rs): tokens summed by session;
      [Hooks] (src/kernel/hook.rs): handlers that may block a tool call.
    - [GraphModel], [Graph], [GraphStore], [GraphSearch] (src/fs/graph/types.rs,
      backend.rs, mod.rs): nodes and versioned edges in two adjacency maps with
      a reverse index, the embedded database under them, and the walks;
      [KernelGraph] (src/kernel/ops/graph.rs): the checked operations on it.
    - [SearchIndex] (src/fs/search): filters, the trait of a vector index as the
      class [SemanticSearch] with its in-memory instance, and the keyword index
      over the class [Bm25Engine]; [SemanticFS] (src/fs/semantic_fs/mod.rs): the
      object store with tags, recycle bin, indexes, graph and audit log;
      [CognitivePipeline] (src/kernel/ops/cognitive_pipeline.rs): the queue of
      its background work, the worker and its progress;
      [KernelFS] (src/kernel/ops/fs.rs): the checked operations on it.
    - [Sessions] (src/kernel/ops/session.rs): sessions and their file; [Delta]
      (delta.rs): the feed of changes; [Profiles] (session.rs,
      prefetch_profile.rs): what is learnt of an agent.
    - [IntentPlans], [IntentTree] (src/kernel/ops/intent.rs): declarations, plans
      and their two orders, shared plans and progress; [IntentExecutor]
      (intent_executor.rs): the execution of a plan; [Prefetch] (prefetch.rs):
      recall, rank fusion and the assemblies with their background threads.
    - [KernelMemory] (src/kernel/ops/memory.rs): the memory operations of the
      kernel over the tiers; [Relevance] (src/memory/relevance.rs): the scores
      of memories and the choice within a budget.
    - [EdgeCache] (src/kernel/ops/cache.rs): the caches of embeddings, graph
      queries and searches over the class [Lru]; [Embeddings]
      (src/fs/embedding/types.rs, adaptive.rs, mod.rs, stub.rs): builder
      identities, the adaptive and the caching wrapper of a provider.
    - [ProjectionController] (src/memory/projection/coordinator_core.rs,
      src/kernel/ops/projection_controller/mod.rs): the cutovers of the owner,
      wakes, claims and interruptible builds over the open projection store;
      [ProjectionRuntime] (projection_runtime.rs): startup, readiness, hints, the
      owner's rebuild, the worker and the shutdown as steps of threads.
    - [PublicService] (src/api/public, src/kernel/public_service.rs,
      readiness.rs): the public protocol, its limits and validation, and the
      dispatch of every operation to the parts above.

    ** How they interact

    A commit ([LedgerStore.commit_records]) checks expectations against the
    view, appends stamped revisions and private policies, validates the new
    logs with [LedgerValidate], rebuilds the view with [LedgerView], writes
    segments, view and root to [LedgerStorage] and exchanges the pointer.
    [load_state] follows the pointer back through every root and segment,
    re-validating each.  The projection fences of [LedgerQueries] hand a
    source revision to the projection code only while it is current, and
    [ProjectionPlan] appends only manifests the replay accepts.  A tier changes
    only after the ledger returned the receipt of the commit.  A request is
    validated by [Security] with the key store of [AgentAuth] and the guard of
    [Permission]; [KernelAgents] then registers an unknown agent with the
    [Scheduler], reports to the [EventBus] and routes by [ApiRequest].
    [KernelFS] checks with [Permission], works on [SemanticFS] and reports to the
    [EventBus]; [SemanticFS] keeps [ObjectStorage], the tag index, the indexes of
    [SearchIndex] and the [Graph] together, call by call.  [Delta] reads the
    ring of the [EventBus] that [Sessions] start from.  [IntentExecutor] sorts
    with [IntentPlans], runs each step on [KernelFS] and teaches [Profiles];
    [Prefetch] recalls from [SearchIndex], [Graph] and [EventBus], fills a budget
    with [ContextLoader] and publishes to [IntentCache].  [KernelMemory] checks
    with [Permission], takes the quota from the [Scheduler], changes the tiers of
    [LayeredMemory] and reports to the [EventBus].  [ProjectionController] fences
    each build with [LedgerQueries] and publishes through [ProjectionPlan] what
    a provider of [Embeddings] answered; [ProjectionRuntime] owns the one
    controller.  [PublicService] composes [KernelFS], [KernelMemory] (whose
    commits wake the [ProjectionRuntime] on the same ledger), [Sessions] and the
    runtime, sharing one guard and one event bus.

    ** What the theorems show

    - [LedgerGuarantees]: crash safety of the ledger.  Ledgers reachable by
      commits with arbitrary input/output failures and restarts reopen, keep
      every durable revision, and equal memory unless the writer is poisoned;
      commits are durable, atomic, compare-and-set, and restricted to the
      policy's writers.  The lemmas behind them are in [LedgerChains]
      (segment chains), [LedgerDurability] (root chains and what a directory
      holds) and [LedgerCommits] (a candidate is loadable; heads after it).
      [LedgerGenesis]: an interrupted creation of a ledger is completed by the
      next opening, unless a lone pointer slot or a temporary file was left,
      which every later opening refuses.
    - [LayeredProps]: against the laws [CanonicalLedgerLaws] of the trait, a
      restart restores the durable tiers, updates and deletions move exactly
      one head, quotas bound creation.  [LedgerInstance] proves the laws of the
      ledger store, so these hold of the two components together.
      [LedgerReload] states and proves what a restart on the directory finds,
      also after a commit in doubt, and that each durable change of the memory
      asks for one commit, which does not depend on what fails.
      [KernelMemoryProps]: what the kernel remembers and recalls is exactly what
      its answers acknowledged, through failures and restarts on the directory,
      which may find a commit answered in doubt.
      [Relevance]: what a budget keeps.
    - [EdgeCache]: an embedding stays while fewer other keys than the capacity
      are used after it.  [Embeddings]: an embedding from the shared cache is the
      one the asking provider would have computed, up to a hash collision.
    - [LedgerLogs]: the validators decide an abstract notion of well-formed
      log, the rebuilt view refines it, loading is exact, history is
      append-only.
    - [LedgerAccess]: the queries answer exactly by the current policy and
      head; snapshots terminate; entries and revisions round-trip.
    - [MemoryModel]: the content hash binds the content up to a collision.
    - [ProjectionLifecycle]: the replay accepts exactly the paths of the
      projection state machine [lifecycle]; attempts complete once; ready
      artifacts are bound to their source and builder.  [ProjectionPlanProps]:
      the writer's view is the replay of its records, a claim completes once,
      reconciliation classifies by policy, due work is claimed.
      [ProjectionController]: a build reports what it did, whoever else writes,
      and a rebuild queues what it selected.  [ProjectionRuntime]: in any
      interleaving the controller in service is never replaced.
    - [PublicService]: every answer answers its request, a request without the
      authority changes nothing, and reads show only what the ledger's policy
      lets the role read; a missing and an unreadable memory look the same.
    - [MigrationProps]: an accepted migration is a bijection between imported
      records and manifest entries.
    - [Scheduler], [Messaging]: order of service, snapshots, agent
      lifecycle, name resolution, mailbox contents.  [EventBusProps]: the ring
      refines the sequence of events, polling, the log file read back.
      [CircuitBreaker]: cooldown after failures for calls one after another,
      what concurrent ones can do.
    - [Permission]: a check passes exactly by trust, default policy or a
      standing grant, and the index restores the grants.  [AgentAuth]: bearers
      resolve to the role whose live token they are, in every reachable store,
      and the owner's credential is published only once it is durable.
      [SecurityProps]: nobody grants itself authority, what the Required mode
      admits, core verbs call nothing their caller could not call.
      [KernelAgents]: lifecycle operations do what their events report,
      and the agents a registration request leaves behind.  [Tasks]: a task
      moves only forward and completes once, for its assignee.  [CostLedger]:
      the sums are exact.  [Hooks]: the first block wins.
    - [ObjectStorage]: the store is a write-once map named by content.
      [ContextProps]: assembly ends within its budget; loading a context does
      not look at the owner.  [IntentCache]: the limits of the cache, what
      a lookup returns.
    - [GraphInvariant]: both adjacency maps and the reverse index agree after any
      operations, and one version of a relation is open at most.  [GraphDisk],
      [GraphSync]: the graph is read back from its database, within stated bounds
      on its edges.  [GraphPaths]: the
      path search ends and is complete below its limit.  [KernelGraphProps]:
      writes stay in the namespace of the caller; what causal and impact queries
      find and miss.
    - [SemanticFSProps]: reading by tags gives exactly the live objects,
      whatever fails, and what a rebuild brings back.
      [KernelFSProps]: objects change only for their owner or a reader of
      everything, and the gaps in that.  [CognitivePipeline]: in every
      interleaving the completed watermark is exact and the worker can finish.
    - [Sessions]: answers are right, and the sessions in memory and on disk are
      those acknowledged, besides those whose start panicked once written;
      [Delta]: pages lose nothing; [Profiles]: predictions and hot objects.
    - [IntentPlans]: the order by dependencies exists exactly when it is
      found; the order by duration is right without chains and wrong with them.
      [IntentExecutor]: steps run once, after their dependencies.
      [IntentTree]: one owner for a step, unless claims overlap; intents do not
      disturb each other.  [PrefetchProps]: over every interleaving an intent in
      progress has a thread with what was declared, unless it died, and its end
      delivers within the declared budget or tells the failure; who may fetch,
      cancel and wait.  A registry whose lock is poisoned is not followed.

    ** Assumptions, bounds and fuel

    Code outside the repository is a parameter.  [Platform] and [Serde] carry
    no laws; where a theorem writes and reads back, the class
    [LedgerCommits.LedgerCodecLaws] states what it needs of the JSON codec: that
    revision and policy segments, roots and views whose numbers JSON carries
    exactly, and pointers, are read back, and that a pointer is not written as
    the empty string; [DocPlatform] instantiates all of it with concrete
    functions, and the witnesses run on that instance.  Collision freedom is
    never assumed: where it matters, storage refuses a differing object or the
    theorem names the collision.  The loops that follow hashes through the
    directory ([walk_segments], [walk_roots], [walk_to], [walk_ancestors])
    have no structural measure; they run on [walk_fuel], one more than the
    number of stored objects, and reject a repeated hash, so the fuel suffices:
    [load_segment_chain_exact] and [projection_snapshot_complete] are stated
    without it.  [drain] runs on the length of the queue.  The standard
    library's [BinaryHeap] is a class with its documented laws and a list
    instance.  Counters of 32 and 64 bits are integers with the wrap-around,
    checked or saturating operation the source uses.  The JSON codecs of
    grants, tokens, agents, events and cached entries are parameters; where a
    theorem reads back what was written it assumes that this codec does, and its
    witness instantiates it.  Clocks, fresh identifiers, random numbers and the
    outcome of every file operation are arguments.  [evict_loop] runs on the
    number of entries of the cache, each round removes one.  The iteration order
    of a hash map is the class [HashIter], any enumeration of it.  The embedded
    database of the graph commits a transaction or leaves it out; its codec is
    the class [GraphCodec].  The crate [lru] is the class [Lru] with
    a list instance.  Vector and keyword indexes are classes whose laws
    say what an entry, a deletion and a hit mean, with instances; embedding
    answers, timeouts and what the cognitive loop recommends are arguments.  The
    path search runs on a fuel that [find_paths_complete] shows to be enough,
    the visits of a plan on one more than its steps, which
    [topological_sort_exact] shows to be enough.  A call of the graph, the file
    system and the sessions is one step under its locks; the two halves of a
    claim in [IntentTree], the atomic accesses of [CircuitBreaker] and the
    threads of [Prefetch] interleave, and so do the two halves of a cached call in
    [Embeddings], the critical sections of [ProjectionRuntime], the senders and
    tasks of [CognitivePipeline] and the accesses of a build to the projection
    store.  The files of the projection store are
    the record [ProjectionFiles], any answers to its questions; theorems ask
    only that a store it opens is one the writer can reach ([files_ok]).  Of the
    runtime's locks only the state lock may be poisoned; a poisoned registry of
    the prefetcher ends the runs that are followed.  For the public
    service base64, [str::to_lowercase], [char::is_alphanumeric] and the ranked
    search are arguments, and so is what other threads do to the runtime during
    a rebuild; its lexical recall scores on IEEE single floats.

    ** What is not modelled

    File descriptors, directory identities, advisory locks and mutexes (each
    operation runs to completion: the sequences of operations are explicit);
    the files and artifacts of the projection store; the bodies of JSON messages
    and the bearer check at the socket of the public service; network providers and the inside of the HNSW and keyword
    engines; the ranked search of the file system, chunking, reranking and query
    rewriting; what the tasks of the cognitive pipeline do to documents and the
    graph (a task is known by its outcome), the cognitive loop and skills; the bodies of the handlers that
    only call the operations above, suspension and checkpoints of agents;
    responses and their rendering; natural-language dates and intent routing;
    command-line programs. *)

From stdpp Require Import base gmap strings list sorting.

(** ** Results

    Rust's [Result<A, E>] with the error type first, so that [result E] is a
    functor of the success type. *)

Inductive result (E A : Type) : Type :=
  | Ok (a : A)
  | Err (e : E).
Arguments Ok {E A} a.
Arguments Err {E A} e.

Definition is_ok {E A} (r : result E A) : bool :=
  match r with Ok _ => true | Err _ => false end.

Definition ok_or {E A} (o : option A) (e : E) : result E A :=
  match o with Some a => Ok a | None => Err e end.

Definition map_err {E F A} (f : E -> F) (r : result E A) : result F A :=
  match r with Ok a => Ok a | Err e => Err (f e) end.

Declare Scope plico_scope.
Delimit Scope plico_scope with plico.

(** [x <-? c; k] is [let x = c?; k]; [c ?>> k] is [c?; k]; [reject b e; k]
    is [if b { return Err(e) }] followed by [k]. *)
Notation "x <-? c ; k" :=
  (match c with Ok x => k | Err e_ => Err e_ end)
  (at level 100, c at next level, right associativity) : plico_scope.
Notation "c ?>> k" :=
  (match c with Ok _ => k | Err e_ => Err e_ end)
  (at level 100, right associativity) : plico_scope.
Notation "'reject' b 'with' e ; k" :=
  (if (b : bool) then Err e else k)
  (at level 100, b at level 99, e at level 99, right associativity) : plico_scope.

#[global] Open Scope plico_scope.

(** ** Iteration with early return

    [try_for f i s l] is [for (offset, x) in l.iter().enumerate()] with a loop
    state [s] and a body that may [return Err(..)]. *)

Section try_for.
Context {E S A : Type}.
Variable f : nat -> S -> A -> result E S.

Fixpoint try_for (i : nat) (s : S) (l : list A) : result E S :=
  match l with
  | [] => Ok s
  | x :: l' => s' <-? f i s x; try_for (1 + i) s' l'
  end.
End try_for.

(** [l.iter().map(f).collect::<Result<Vec<_>, _>>()] *)
Fixpoint try_map {E A B} (f : A -> result E B) (l : list A) : result E (list B) :=
  match l with
  | [] => Ok []
  | x :: l' => y <-? f x; ys <-? try_map f l'; Ok (y :: ys)
  end.

(** ** Fixed-width integers *)

Definition u64_modulus : Z := 2 ^ 64.
Definition u32_modulus : Z := 2 ^ 32.
Definition u64_max : Z := u64_modulus - 1.
Definition u32_max : Z := u32_modulus - 1.

(** Release-profile addition wraps. *)
Definition u64_add (a b : Z) : Z := (a + b) mod u64_modulus.
Definition u32_add (a b : Z) : Z := (a + b) mod u32_modulus.
(** [checked_add] and [checked_sub]. *)
Definition u64_checked_add (a b : Z) : option Z :=
  if (a + b <=? u64_max)%Z then Some (a + b)%Z else None.
Definition u64_checked_sub (a b : Z) : option Z :=
  if (b <=? a)%Z then Some (a - b)%Z else None.
Definition u32_checked_add (a b : Z) : option Z :=
  if (a + b <=? u32_max)%Z then Some (a + b)%Z else None.
Definition u64_saturating_sub (a b : Z) : Z := Z.max 0 (a - b).
Definition u64_sub (a b : Z) : Z := (a - b) mod u64_modulus.
Definition u64_mul (a b : Z) : Z := (a * b) mod u64_modulus.
Definition u64_saturating_add (a b : Z) : Z := Z.min u64_max (a + b).
Definition u64_saturating_mul (a b : Z) : Z := Z.min u64_max (a * b).

(** ** Byte strings

    A Rust [String] or [str] is its UTF-8 byte sequence, a Rocq [string] whose
    characters are bytes; [<] on [String] is byte-lexicographic order. *)

Definition byte_of (c : Ascii.ascii) : N := Ascii.N_of_ascii c.

(** ASCII members of Unicode [White_Space]. *)
Definition ws1 (c : Ascii.ascii) : bool :=
  let n := byte_of c in ((9 <=? n) && (n <=? 13) || (n =? 32))%N.
(** U+0085 and U+00A0 are [C2 85] and [C2 A0]. *)
Definition ws2 (c d : Ascii.ascii) : bool :=
  ((byte_of c =? 194) && ((byte_of d =? 133) || (byte_of d =? 160)))%N.
(** U+1680, U+2000-200A, U+2028, U+2029, U+202F, U+205F and U+3000. *)
Definition ws3 (c d e : Ascii.ascii) : bool :=
  let '(x, y, z) := (byte_of c, byte_of d, byte_of e) in
  ((x =? 225) && (y =? 154) && (z =? 128)
   || (x =? 226) && (y =? 128) &&
        ((128 <=? z) && (z <=? 138) || (z =? 168) || (z =? 169) || (z =? 175))
   || (x =? 226) && (y =? 129) && (z =? 159)
   || (x =? 227) && (y =? 128) && (z =? 128))%N.

(** [s.trim().is_empty()]: every character of [s] is [White_Space]. *)
Fixpoint blank (s : string) : bool :=
  match s with
  | EmptyString => true
  | String c s1 =>
      if ws1 c then blank s1 else
      match s1 with
      | EmptyString => false
      | String d s2 =>
          if ws2 c d then blank s2 else
          match s2 with
          | EmptyString => false
          | String e s3 => if ws3 c d e then blank s3 else false
          end
      end
  end.

Fixpoint all_bytes (p : N -> bool) (s : string) : bool :=
  match s with
  | EmptyString => true
  | String c s' => p (byte_of c) && all_bytes p s'
  end.

(** [b.is_ascii_digit() || (b'a'..=b'f').contains(&b)] *)
Definition lower_hex_byte (n : N) : bool :=
  ((48 <=? n) && (n <=? 57) || (97 <=? n) && (n <=? 102))%N.

(** [s.to_lowercase()] as far as a comparison with ASCII text can see: the only
    character outside ASCII whose lower case is ASCII is the Kelvin sign. *)
Fixpoint to_lowercase (s : string) : string :=
  match s with
  | EmptyString => EmptyString
  | String c rest =>
      match Ascii.nat_of_ascii c, rest with
      | 226%nat, String c1 (String c2 rest') =>
          if decide (Ascii.nat_of_ascii c1 = 132%nat /\ Ascii.nat_of_ascii c2 = 170%nat)
          then String (Ascii.ascii_of_nat 107) (to_lowercase rest')
          else String c (to_lowercase rest)
      | n, _ =>
          if (Nat.leb 65 n && Nat.leb n 90)%bool then String (Ascii.ascii_of_nat (n + 32)) (to_lowercase rest)
          else String c (to_lowercase rest)
      end
  end.

(** [values.windows(2).all(|w| r(w[0], w[1]))] *)
Fixpoint windows2_all {A} (r : A -> A -> bool) (l : list A) : bool :=
  match l with
  | x :: ((y :: _) as l') => r x y && windows2_all r l'
  | _ => true
  end.

(** [Vec::dedup]: drop an element equal to the one kept before it. *)
Fixpoint dedup {A} `{EqDecision A} (l : list A) : list A :=
  match l with
  | [] => []
  | x :: l' =>
      match dedup l' with
      | [] => [x]
      | y :: k => if decide (x = y) then y :: k else x :: y :: k
      end
  end.

(** [roles.sort()] on strings. *)
Definition sort_strings (l : list string) : list string := merge_sort String.le l.

(** [slice.contains(&x)] and [iter().any(|y| y == x)] on strings. *)
Definition str_mem (x : string) (l : list string) : bool := bool_decide (x ∈ l).

Definition str_eqb (a b : string) : bool := bool_decide (a = b).

(** [o.is_some()], [o.is_none()] *)
Definition opt_is_some {A} (o : option A) : bool :=
  match o with Some _ => true | None => false end.
Definition opt_is_none {A} (o : option A) : bool := negb (opt_is_some o).

(** A [HashMap] filled by [for x in l { m.insert(key(x), x) }]: the last
    element with a key wins. *)
Definition index_by {A} (key : A -> string) (l : list A) : gmap string A :=
  foldl (fun m x => <[key x := x]> m) ∅ l.

(** ** Proof automation *)

Lemma Ok_inj {E A} (a b : A) : @Ok E A a = Ok b -> a = b.
Proof. congruence. Qed.

(** Split every [match] of a successful computation in [H]. *)
Ltac ok_inv H :=
  repeat match type of H with
  | Err _ = Ok _ => discriminate H
  | Ok _ = Ok _ => apply Ok_inj in H
  | context [match ?c with _ => _ end] =>
      lazymatch c with
      | context [match _ with _ => _ end] => fail
      | _ => destruct c eqn:?; try discriminate H
      end
  end.

(** Turn boolean facts into propositions. *)
Ltac breflect :=
  repeat match goal with
  | H : _ && _ = true |- _ => apply andb_true_iff in H as [? ?]
  | H : _ || _ = false |- _ => apply orb_false_iff in H as [? ?]
  | H : negb _ = true |- _ => apply negb_true_iff in H
  | H : negb _ = false |- _ => apply negb_false_iff in H
  | H : bool_decide _ = true |- _ => apply bool_decide_eq_true in H
  | H : bool_decide _ = false |- _ => apply bool_decide_eq_false in H
  | H : str_eqb _ _ = true |- _ => unfold str_eqb in H
  | H : str_eqb _ _ = false |- _ => unfold str_eqb in H
  | H : str_mem _ _ = true |- _ => unfold str_mem in H
  | H : str_mem _ _ = false |- _ => unfold str_mem in H
  | H : (_ =? _)%Z = true |- _ => apply Z.eqb_eq in H
  | H : (_ =? _)%Z = false |- _ => apply Z.eqb_neq in H
  | H : (_ <=? _)%Z = true |- _ => apply Z.leb_le in H
  | H : (_ <=? _)%Z = false |- _ => apply Z.leb_gt in H
  | H : (_ <? _)%Z = true |- _ => apply Z.ltb_lt in H
  | H : (_ <? _)%Z = false |- _ => apply Z.ltb_ge in H
  end.

(** ** Lemmas on results and loops *)

Section try_for_lemmas.
Context {E S A : Type}.
Variable f : nat -> S -> A -> result E S.

Lemma try_for_app (i : nat) (s : S) (l1 l2 : list A) :
  try_for f i s (l1 ++ l2) =
  (s' <-? try_for f i s l1; try_for f (i + length l1) s' l2).
Proof.
  revert i s. induction l1 as [|x l1 IH]; intros i s; simpl.
  - by rewrite Nat.add_0_r.
  - destruct (f i s x) as [t|]; [|done]. rewrite IH.
    destruct (try_for f (Datatypes.S i) t l1); [|done].
    by rewrite Nat.add_succ_r.
Qed.

Lemma try_for_snoc_inv (l : list A) (x : A) (s s' : S) :
  try_for f 0 s (l ++ [x]) = Ok s' ->
  exists t, try_for f 0 s l = Ok t /\ f (length l) t x = Ok s'.
Proof.
  rewrite try_for_app. simpl. intros H. ok_inv H. subst. eauto.
Qed.

(** The invariant rule of a loop: [P done_so_far state]. *)
Lemma try_for_inv (P : list A -> S -> Prop) (s : S) :
  P [] s ->
  (forall pre t x t', P pre t -> f (length pre) t x = Ok t' -> P (pre ++ [x]) t') ->
  forall l s', try_for f 0 s l = Ok s' -> P l s'.
Proof.
  intros H0 Hstep l. induction l as [|x l IH] using rev_ind; intros s' H.
  - simpl in H. by simplify_eq.
  - apply try_for_snoc_inv in H as (t & Ht & Hx). eauto.
Qed.

(** The completeness rule: a loop whose body accepts every element in a state
    satisfying the invariant runs to the end. *)
Lemma try_for_complete (P : list A -> S -> Prop) (s : S) (l : list A) :
  P [] s ->
  (forall pre t x post, l = pre ++ x :: post -> P pre t ->
     exists t', f (length pre) t x = Ok t' /\ P (pre ++ [x]) t') ->
  exists s', try_for f 0 s l = Ok s' /\ P l s'.
Proof.
  intros H0. induction l as [|x l IH] using rev_ind; intros Hstep.
  - by exists s.
  - destruct IH as (t & Ht & HP).
    { intros pre t y post -> HP.
      apply (Hstep pre t y (post ++ [x])); [by rewrite <-app_assoc|done]. }
    destruct (Hstep l t x [] eq_refl HP) as (t' & Hf & HP').
    exists t'. split; [|done]. rewrite try_for_app, Ht. simpl. by rewrite Hf.
Qed.

(** [prefix_ok ok l]: every element is acceptable after the ones before it. *)
Definition prefix_ok (ok : list A -> A -> Prop) (l : list A) : Prop :=
  forall pre x post, l = pre ++ x :: post -> ok pre x.

Lemma prefix_ok_nil ok : prefix_ok ok [].
Proof. by intros []. Qed.

Lemma prefix_ok_app ok l1 l2 : prefix_ok ok (l1 ++ l2) -> prefix_ok ok l1.
Proof.
  intros Hl pre x post ->. apply (Hl pre x (post ++ l2)). by rewrite <-app_assoc.
Qed.

Lemma prefix_ok_snoc ok l x : prefix_ok ok (l ++ [x]) <-> prefix_ok ok l /\ ok l x.
Proof.
  split.
  - intros Hl. split; [by eapply prefix_ok_app|by apply (Hl l x [])].
  - intros [Hl Hx] pre y post Heq. destruct post as [|z post _] using rev_ind.
    + by apply app_inj_tail in Heq as [-> ->].
    + change (pre ++ y :: post ++ [z]) with (pre ++ (y :: post) ++ [z]) in Heq.
      rewrite app_assoc in Heq. apply app_inj_tail in Heq as [-> ->]. eauto.
Qed.

(** A loop whose state is a function [st] of the elements consumed, and whose
    body accepts exactly the elements that are [ok] there, accepts exactly the
    lists that are [prefix_ok]. *)
Lemma try_for_iff (st : list A -> S) (ok : list A -> A -> Prop) (l : list A) :
  (forall pre x post t, l = pre ++ x :: post -> prefix_ok ok pre ->
     f (length pre) (st pre) x = Ok t <-> ok pre x /\ t = st (pre ++ [x])) ->
  forall s, try_for f 0 (st []) l = Ok s <-> prefix_ok ok l /\ s = st l.
Proof.
  induction l as [|x l IH] using rev_ind; intros Hstep s.
  - simpl. split; [intros [= <-]|intros [_ ->]]; auto using prefix_ok_nil.
  - rewrite prefix_ok_snoc, try_for_app.
    assert (forall t, try_for f 0 (st []) l = Ok t <-> prefix_ok ok l /\ t = st l) as IH'.
    { apply IH. intros pre y post t ->. apply (Hstep pre y (post ++ [x])).
      by rewrite <-app_assoc. }
    split.
    + destruct (try_for f 0 (st []) l) as [t0|]; [|done]. intros H.
      destruct (proj1 (IH' t0) eq_refl) as [Hl ->]. simpl in H.
      destruct (f (length l) (st l) x) as [t|] eqn:Hx; [|done]. apply Ok_inj in H as <-.
      apply (Hstep l x []) in Hx; tauto.
    + intros [[Hl Hx] ->]. rewrite (proj2 (IH' _) (conj Hl eq_refl)). simpl.
      by rewrite (proj2 (Hstep l x [] (st (l ++ [x])) eq_refl Hl) (conj Hx eq_refl)).
Qed.
End try_for_lemmas.

(** ** Lemmas on byte strings *)

Lemma string_app_length (s t : string) :
  String.length (s +:+ t) = String.length s + String.length t.
Proof. induction s as [|c s IH]; simpl; [done|by rewrite IH]. Qed.

Lemma string_app_assoc (s t u : string) : (s +:+ t) +:+ u = s +:+ (t +:+ u).
Proof. induction s as [|c s IH]; [done|exact (f_equal (String c) IH)]. Qed.

Lemma string_app_nil_r (s : string) : s +:+ "" = s.
Proof. induction s as [|c s IH]; [done|exact (f_equal (String c) IH)]. Qed.

(** Equal concatenations with equally long first parts agree part by part. *)
Lemma string_app_inj_length (s1 s2 t1 t2 : string) :
  String.length s1 = String.length s2 ->
  s1 +:+ t1 = s2 +:+ t2 -> s1 = s2 /\ t1 = t2.
Proof.
  revert s2. induction s1 as [|c s1 IH]; intros [|d s2] Hlen Heq; simplify_eq/=; [done|].
  destruct (IH s2) as [-> ->]; auto.
Qed.

Lemma ascii_of_N_inj (a b : N) :
  (a < 256)%N -> (b < 256)%N -> Ascii.ascii_of_N a = Ascii.ascii_of_N b -> a = b.
Proof.
  intros Ha Hb Heq. apply (f_equal Ascii.N_of_ascii) in Heq.
  by rewrite !Ascii.N_ascii_embedding in Heq.
Qed.

(** ** Lemmas on last-writer-wins indexes *)

Section index_by.
Context {A : Type} (key : A -> string).

(** The elements of [l] with key [k], in order. *)
Definition with_key (k : string) (l : list A) : list A := filter (fun x => key x = k) l.

Lemma index_by_snoc l x : index_by key (l ++ [x]) = <[key x := x]> (index_by key l).
Proof. unfold index_by. by rewrite foldl_app. Qed.

Lemma with_key_snoc k l x :
  with_key k (l ++ [x]) = with_key k l ++ (if decide (key x = k) then [x] else []).
Proof.
  unfold with_key. rewrite filter_app, filter_cons, filter_nil.
  by destruct (decide (key x = k)).
Qed.

Lemma index_by_lookup l k : index_by key l !! k = last (with_key k l).
Proof.
  induction l as [|x l IH] using rev_ind; [done|].
  rewrite index_by_snoc, with_key_snoc. destruct (decide (key x = k)) as [<-|Hne].
  - by rewrite lookup_insert_eq, last_snoc.
  - by rewrite lookup_insert_ne, IH, app_nil_r.
Qed.

Lemma index_by_lookup_Some l k x :
  index_by key l !! k = Some x -> x ∈ l /\ key x = k.
Proof.
  rewrite index_by_lookup. intros Hlast%last_Some_elem_of.
  unfold with_key in Hlast. apply list_elem_of_filter in Hlast. naive_solver.
Qed.

Lemma index_by_lookup_None l k : index_by key l !! k = None <-> k ∉ key <$> l.
Proof.
  rewrite index_by_lookup, last_None. unfold with_key. split.
  - intros Hnil (x & -> & Hx)%list_elem_of_fmap.
    assert (x ∈ filter (fun y => key y = key x) l) as Hin
      by (apply list_elem_of_filter; auto).
    rewrite Hnil in Hin. by apply elem_of_nil in Hin.
  - intros Hk. destruct (filter _ l) as [|x k'] eqn:E; [done|].
    assert (x ∈ filter (fun y => key y = k) l) as [<- Hx]%list_elem_of_filter
      by (rewrite E; left).
    by destruct Hk; apply list_elem_of_fmap_2.
Qed.

Lemma index_by_is_Some l k : is_Some (index_by key l !! k) <-> k ∈ key <$> l.
Proof.
  rewrite <-not_eq_None_Some, index_by_lookup_None. split; [|tauto].
  intros Hn. destruct (decide (k ∈ key <$> l)); tauto.
Qed.

(** With unique keys the index finds every element. *)
Lemma index_by_NoDup l x :
  NoDup (key <$> l) -> x ∈ l -> index_by key l !! key x = Some x.
Proof.
  induction l as [|y l IH] using rev_ind; intros Hnd Hx; [by apply elem_of_nil in Hx|].
  rewrite fmap_app, NoDup_app in Hnd. destruct Hnd as (Hl & Hdisj & _).
  rewrite index_by_snoc. apply elem_of_app in Hx as [Hx|Hx].
  - rewrite lookup_insert_ne; [by apply IH|]. intros Heq.
    apply (Hdisj (key x)); [by apply list_elem_of_fmap_2|]. rewrite <-Heq. set_solver.
  - apply list_elem_of_singleton in Hx as ->. apply lookup_insert_eq.
Qed.
End index_by.

(** ** Lemmas on collecting results *)

Lemma try_map_Ok_Forall2 {E A B} (f : A -> result E B) l k :
  try_map f l = Ok k <-> Forall2 (fun x y => f x = Ok y) l k.
Proof.
  revert k. induction l as [|x l IH]; intros k; simpl.
  - split; [intros [= <-]; constructor|by inversion 1].
  - split.
    + intros H. ok_inv H. subst. constructor; [done|by apply IH].
    + inversion 1 as [|? y ? ys Hy Hys]; subst. rewrite Hy. by rewrite (proj2 (IH _) Hys).
Qed.

Lemma try_map_Err {E A B} (f : A -> result E B) l e :
  try_map f l = Err e -> exists x, x ∈ l /\ f x = Err e.
Proof.
  induction l as [|x l IH]; simpl; [done|]. intros H.
  destruct (f x) as [y|e'] eqn:Hx.
  - destruct (try_map f l) as [ys|e'] eqn:Hl; [done|]. simplify_eq.
    destruct IH as (z & Hz & ?); [done|]. exists z. split; [by right|done].
  - simplify_eq. exists x. split; [by left|done].
Qed.

Lemma try_map_complete {E A B} (f : A -> result E B) l :
  (forall x, x ∈ l -> exists y, f x = Ok y) -> exists k, try_map f l = Ok k.
Proof.
  intros Hf. destruct (try_map f l) as [k|e] eqn:Hm; [by exists k|].
  apply try_map_Err in Hm as (x & Hx & He). destruct (Hf x Hx). congruence.
Qed.

(** ** Lemmas on boolean filters and on loops without state *)

Lemma lfilter_none {A} (p : A -> bool) (l : list A) :
  (forall x, x ∈ l -> p x = false) -> List.filter p l = [].
Proof.
  induction l as [|x l IH]; intros Hp; simpl; [done|].
  rewrite (Hp x) by left. apply IH. intros y Hy. apply Hp. by right.
Qed.

Lemma lfilter_all {A} (f : A -> bool) l : (forall x, x ∈ l -> f x = true) -> List.filter f l = l.
Proof.
  induction l as [|x l IH]; intros Hf; cbn; [done|]. rewrite (Hf x) by left.
  f_equal. apply IH. intros y Hy. apply Hf. by right.
Qed.

Lemma lfilter_filter {A} (f g : A -> bool) (l : list A) :
  List.filter f (List.filter g l) = List.filter (fun x => g x && f x) l.
Proof.
  induction l as [|x l IH]; cbn; [done|]. destruct (g x); cbn; [|done]. by destruct (f x); rewrite IH.
Qed.

Lemma try_for_each {E A} (f : nat -> unit -> A -> result E unit) i l x :
  try_for f i tt l = Ok tt -> x ∈ l -> exists n, f n tt x = Ok tt.
Proof.
  revert i. induction l as [|y l IH]; intros i Hl Hx; [by apply not_elem_of_nil in Hx|].
  cbn in Hl. destruct (f i tt y) as [[]|] eqn:Hy; [|done].
  apply elem_of_cons in Hx as [-> |Hx]; [eauto|by eapply IH].
Qed.

Lemma try_for_all {E A} (f : nat -> unit -> A -> result E unit) i l :
  (forall n x, x ∈ l -> f n tt x = Ok tt) -> try_for f i tt l = Ok tt.
Proof.
  revert i. induction l as [|x l IH]; intros i Hf; cbn; [done|].
  rewrite Hf by left. apply IH. intros n y Hy. apply Hf. by right.
Qed.

Lemma str_mem_snoc (x : string) (ids : list string) (y : string) :
  str_mem x (ids ++ [y]) = str_mem x ids || str_eqb x y.
Proof.
  unfold str_mem, str_eqb. apply eq_true_iff_eq. rewrite orb_true_iff, !bool_decide_eq_true. set_solver.
Qed.

(** ** The last elements of a list *)

(** The last [n] elements. *)
Definition last_n {A} (n : nat) (l : list A) : list A := drop (length l - n) l.

Lemma last_n_snoc {A} n (l : list A) x :
  last_n (S n) (last_n (S n) l ++ [x]) = last_n (S n) (l ++ [x]).
Proof.
  unfold last_n. rewrite !length_app, length_drop. simpl.
  rewrite !drop_app, drop_drop, !length_drop. f_equal; f_equal; lia.
Qed.

Lemma last_n_length {A} n (l : list A) : length (last_n n l) = n `min` length l.
Proof. unfold last_n. rewrite length_drop. lia. Qed.

Lemma last_n_all {A} n (l : list A) : length l <= n -> last_n n l = l.
Proof. intros Hl. unfold last_n. by replace (length l - n) with 0 by lia. Qed.

Lemma last_n_elem {A} n (l : list A) i x :
  l !! i = Some x -> length l <= i + n -> x ∈ last_n n l.
Proof.
  intros Hi Hn. apply list_elem_of_lookup_2 with (i := i - (length l - n)). unfold last_n.
  rewrite lookup_drop. by replace (length l - n + (i - (length l - n))) with i by lia.
Qed.

(** ** The hint database of the development *)

Create HintDb plico.
#[export] Hint Resolve prefix_ok_nil : plico.
#[export] Hint Resolve last_n_all : plico.
#[export] Hint Rewrite @last_n_length @string_app_length @string_app_nil_r : plico.

(** ** Hash maps *)

(** The iteration order of a [HashMap] is not specified: an enumeration of the
    map in some order. *)
Class HashIter := {
  hash_iter : forall {A}, gmap string A -> list (string * A);
  hash_iter_perm : forall {A} (m : gmap string A), hash_iter m ≡ₚ map_to_list m;
}.

(** [map.values()] and [map.keys()] *)
Definition values `{HashIter} {A} (m : gmap string A) : list A := (hash_iter m).*2.
Definition keys `{HashIter} {A} (m : gmap string A) : list string := (hash_iter m).*1.

Lemma elem_of_values `{HashIter} {A} (m : gmap string A) x : x ∈ values m <-> exists id, m !! id = Some x.
Proof.
  unfold values. rewrite hash_iter_perm, list_elem_of_fmap. split.
  - intros ([id y] & -> & Hy%elem_of_map_to_list). by exists id.
  - intros [id Hx]. exists (id, x). split; [done | by apply elem_of_map_to_list].
Qed.

Lemma elem_of_lfilter {A} (p : A -> bool) l x : x ∈ List.filter p l <-> x ∈ l /\ p x = true.
Proof. by rewrite !list_elem_of_In, List.filter_In. Qed.

#[export] Instance list_iter : HashIter := {| hash_iter A m := map_to_list m; hash_iter_perm A m := Permutation_refl (map_to_list m) |}.

(** ** Stable sorting

    [sort_by] is stable: an element goes before the first one that does not
    come strictly before it, and equal ones keep their order. *)

Section stable_sort.
Context {A : Type} (before : A -> A -> bool).
Fixpoint insert_stable (x : A) (l : list A) : list A :=
  match l with
  | [] => [x]
  | y :: l' => if before y x then y :: insert_stable x l' else x :: l
  end.
Fixpoint stable_sort (l : list A) : list A :=
  match l with
  | [] => []
  | x :: l' => insert_stable x (stable_sort l')
  end.

Lemma insert_stable_perm x l : insert_stable x l ≡ₚ x :: l.
Proof.
  induction l as [|y l IH]; cbn; [done|]. destruct (before y x); [|done]. rewrite IH. apply perm_swap.
Qed.
Lemma stable_sort_perm l : stable_sort l ≡ₚ l.
Proof. induction l as [|x l IH]; cbn; [done|]. by rewrite insert_stable_perm, IH. Qed.

(** [a] may stand before [b]. *)
Definition in_order (a b : A) : Prop := before b a = false.

Lemma stable_sort_id l : StronglySorted in_order l -> stable_sort l = l.
Proof.
  induction 1 as [|x l _ IH Hx]; [done|]. cbn. rewrite IH. destruct l as [|y l]; [done|]. cbn.
  apply Forall_cons in Hx as [Hx _]. by rewrite Hx.
Qed.

Lemma insert_stable_sorted x l :
  (forall a b, before a b = true -> before b a = false) -> (forall a b c, in_order a b -> in_order b c -> in_order a c) ->
  StronglySorted in_order l -> StronglySorted in_order (insert_stable x l).
Proof.
  intros Hasym Htrans. induction 1 as [|y l Hl IH Hy]; cbn; [by repeat constructor|].
  destruct (before y x) eqn:E.
  - constructor; [done|]. rewrite insert_stable_perm. constructor; [by apply Hasym | done].
  - constructor; [by constructor|]. constructor; [done|]. eapply Forall_impl; [exact Hy|].
    intros z Hz. by apply (Htrans x y z).
Qed.

Lemma stable_sort_sorted l :
  (forall a b, before a b = true -> before b a = false) -> (forall a b c, in_order a b -> in_order b c -> in_order a c) ->
  StronglySorted in_order (stable_sort l).
Proof.
  intros Ha Ht. induction l as [|x l IH]; [constructor|]. by apply insert_stable_sorted.
Qed.
End stable_sort.

(** ** Text of countable data

    A concrete encoding for the instances of the serializers. *)

Fixpoint pos_text (p : positive) : string :=
  match p with xH => "" | xO p => String (Ascii.ascii_of_N 48) (pos_text p) | xI p => String (Ascii.ascii_of_N 49) (pos_text p) end.
Fixpoint text_pos (s : string) : positive :=
  match s with
  | EmptyString => xH
  | String c s => if bool_decide (c = Ascii.ascii_of_N 48) then xO (text_pos s) else xI (text_pos s)
  end.
Lemma text_pos_text p : text_pos (pos_text p) = p.
Proof. induction p as [p IH|p IH|]; cbn; [by rewrite IH | by rewrite IH | done]. Qed.

Definition text_encode `{Countable A} (x : A) : string := pos_text (encode x).
Definition text_decode `{Countable A} (s : string) : option A := decode (text_pos s).
Lemma text_decode_encode `{Countable A} (x : A) : text_decode (text_encode x) = Some x.
Proof. unfold text_decode, text_encode. by rewrite text_pos_text, decode_encode. Qed.
