(* ===== verification/Wire.v ===== *)
(** * The platform: what the sources use of third-party crates

    The [sha2], [uuid], [serde_json] and [serde_json_canonicalizer] crates are
    parameters of the model.  [bytes] is the type of a serialised document,
    compared for equality and hashed through its octets; [to_vec] is
    [serde_json_canonicalizer::to_vec] and [from_slice] is
    [serde_json::from_slice] at one type. *)

From stdpp Require Import base strings.
From S2P Require Import Prelude.

Class Platform := {
  bytes : Type;
  bytes_eq_dec :: EqDecision bytes;
  (** The octets of a document. *)
  octets : bytes -> string;
  (** [format!("{:x}", Sha256::digest(octets))]. *)
  sha256_hex : string -> string;
  (** [Uuid::parse_str], a UUID being its 128-bit value. *)
  uuid_parse : string -> option N;
  (** [uuid.hyphenated().to_string()]. *)
  uuid_hyphenated : N -> string;
  (** [Uuid::new_v5(namespace, name)]. *)
  uuid_new_v5 : N -> string -> N;
}.

Class Serde `{Platform} (A : Type) := {
  to_vec : A -> option bytes;
  from_slice : bytes -> option A;
}.

(** [uuid::Uuid::parse_str(s).is_err()] *)
Definition uuid_is_err `{Platform} (s : string) : bool :=
  match uuid_parse s with Some _ => false | None => true end.

(** The domain separators end with a NUL byte. *)
Definition nul : string := String (Ascii.ascii_of_N 0) EmptyString.
