(* ===== verification/MemoryModel.v ===== *)
(** * Memory content and its canonical hash ([src/src/memory/layered/mod.rs])

    The data types of a memory entry, and [canonical_content_hash]: SHA-256 of
    a domain separator followed by length-prefixed components.  The theorems
    show that the preimage determines the content. *)

From stdpp Require Import base gmap strings list.
From S2P Require Import Prelude Wire.

(** ** Identities: newtypes over [String]. *)
Notation MemoryId := string (only parsing).
Notation MemoryRevisionId := string (only parsing).
Notation CanonicalContentHash := string (only parsing).

Inductive MemoryScope : Type :=
  | Scope_Private
  | Scope_Shared
  | Scope_Group (g : string).

Inductive MemoryType : Type :=
  | Type_Episodic | Type_Semantic | Type_Procedural | Type_Untyped.

Inductive MemoryTier : Type :=
  | Tier_Ephemeral | Tier_Working | Tier_LongTerm | Tier_Procedural.

#[export] Instance MemoryScope_eq_dec : EqDecision MemoryScope.
Proof. solve_decision. Defined.
#[export] Instance MemoryType_eq_dec : EqDecision MemoryType.
Proof. solve_decision. Defined.
#[export] Instance MemoryTier_eq_dec : EqDecision MemoryTier.
Proof. solve_decision. Defined.

(** A [serde_json::Number] as the sources observe it: its integer views and
    the text [serde_json] prints for it. *)
Record JNumber := mkJNumber {
  as_u64 : option Z;
  as_i64 : option Z;
  number_text : string;
}.

Inductive Json : Type :=
  | JNull
  | JBool (b : bool)
  | JNum (n : JNumber)
  | JString (s : string)
  | JArray (values : list Json)
  | JObject (members : list (string * Json)).

Record ProcedureStep := mkStep {
  step_number : Z;
  step_description : string;
  step_action : string;
  step_expected_outcome : string;
}.

Record Procedure := mkProcedure {
  proc_name : string;
  proc_description : string;
  proc_steps : list ProcedureStep;
  proc_learned_from : string;
}.

(** [confidence : f32] is kept as its IEEE-754 bit pattern ([to_bits]). *)
Record KnowledgePiece := mkKnowledge {
  k_subject : string;
  k_statement : string;
  k_confidence_bits : Z;
  k_source : string;
}.

Inductive MemoryContent : Type :=
  | Text (value : string)
  | ObjectRef (cid : string)
  | Structured (value : Json)
  | ProcedureContent (p : Procedure)
  | Knowledge (k : KnowledgePiece).

Record MemoryEntry := mkEntry {
  e_id : string;
  e_memory_id : MemoryId;
  e_parent_revision_id : option MemoryRevisionId;
  e_canonical_content_hash : CanonicalContentHash;
  e_agent_id : string;
  e_tenant_id : string;
  e_tier : MemoryTier;
  e_content : MemoryContent;
  e_importance : Z;
  e_access_count : Z;
  e_last_accessed : Z;
  e_created_at : Z;
  e_tags : list string;
  e_ttl_ms : option Z;
  e_original_ttl_ms : option Z;
  e_scope : MemoryScope;
  e_memory_type : MemoryType;
  e_causal_parent : option string;
  e_supersedes : option string;
  e_superseded_by : option string;
  e_deleted_at : option Z;
}.

Definition PERSONAL_OWNER_ROLE_ID : string := "personal-owner".
Definition DEFAULT_TENANT : string := "default".
Definition MAX_JCS_SAFE_INTEGER : Z := 9007199254740991.

(** ** Big-endian integers *)

(** [n.to_be_bytes()] at [w] bytes. *)
Fixpoint be_bytes (w : nat) (n : Z) : string :=
  match w with
  | O => EmptyString
  | S w' =>
      be_bytes w' (n / 256) +:+
      String (Ascii.ascii_of_N (Z.to_N (n mod 256))) EmptyString
  end.

Definition usize_len (s : string) : Z := Z.of_nat (String.length s).

(** ** The hash preimage *)

(** [hash_component]: both the kind and the value are length-prefixed. *)
Definition hash_component (kind value : string) : string :=
  be_bytes 8 (usize_len kind) +:+ kind +:+ be_bytes 8 (usize_len value) +:+ value.

(** [ensure_jcs_safe_numbers] *)
Definition jcs_unsafe_number (n : JNumber) : bool :=
  (match as_u64 n with Some v => MAX_JCS_SAFE_INTEGER <? v | None => false end
   || match as_i64 n with Some v => MAX_JCS_SAFE_INTEGER <? Z.abs v | None => false end)%Z.

Fixpoint ensure_jcs_safe_numbers (value : Json) : result string unit :=
  match value with
  | JNum n => reject jcs_unsafe_number n with "jcs_unsafe_integer"; Ok tt
  | JArray values =>
      (fix go (l : list Json) : result string unit :=
         match l with
         | [] => Ok tt
         | v :: l' => ensure_jcs_safe_numbers v ?>> go l'
         end) values
  | JObject members =>
      (fix go (l : list (string * Json)) : result string unit :=
         match l with
         | [] => Ok tt
         | (_, v) :: l' => ensure_jcs_safe_numbers v ?>> go l'
         end) members
  | JNull | JBool _ | JString _ => Ok tt
  end.

(** [f32::is_finite] on the bit pattern: the exponent field is not all ones. *)
Definition f32_is_finite (bits : Z) : bool :=
  negb (Z.land (Z.shiftr bits 23) 255 =? 255)%Z.

Definition step_components (s : ProcedureStep) : string :=
  hash_component "step_number" (be_bytes 4 (step_number s)) +:+
  hash_component "step_description" (step_description s) +:+
  hash_component "step_action" (step_action s) +:+
  hash_component "step_outcome" (step_expected_outcome s).

Definition CONTENT_DOMAIN : string := "plico.memory.content.v1" +:+ nul.

Section content_hash.
Context `{Platform} `{!Serde Json}.

(** The octets fed to the hasher after the domain separator. *)
Definition content_components (c : MemoryContent) : result string string :=
  match c with
  | Text value => Ok (hash_component "text" value)
  | ObjectRef value => Ok (hash_component "object_ref" value)
  | Structured value =>
      ensure_jcs_safe_numbers value ?>>
      (encoded <-? ok_or (to_vec value) "jcs_canonicalization_failed";
       Ok (hash_component "structured_json" (octets encoded)))
  | ProcedureContent p =>
      Ok (hash_component "procedure_name" (proc_name p) +:+
          hash_component "procedure_description" (proc_description p) +:+
          hash_component "procedure_learned_from" (proc_learned_from p) +:+
          String.concat "" (step_components <$> proc_steps p))
  | Knowledge k =>
      reject negb (f32_is_finite (k_confidence_bits k))
        with "non_finite_knowledge_confidence";
      Ok (hash_component "knowledge_subject" (k_subject k) +:+
          hash_component "knowledge_statement" (k_statement k) +:+
          hash_component "knowledge_confidence" (be_bytes 4 (k_confidence_bits k)) +:+
          hash_component "knowledge_source" (k_source k))
  end.

Definition canonical_content_hash (c : MemoryContent) : result string CanonicalContentHash :=
  components <-? content_components c;
  Ok (sha256_hex (CONTENT_DOMAIN +:+ components)).
End content_hash.

(** ** The preimage determines the content *)

Lemma be_bytes_length w n : String.length (be_bytes w n) = w.
Proof.
  revert n. induction w as [|w IH]; intros n; simpl; [done|].
  rewrite string_app_length, IH. simpl. lia.
Qed.

Lemma be_bytes_inj w n m :
  (0 <= n < 256 ^ Z.of_nat w)%Z -> (0 <= m < 256 ^ Z.of_nat w)%Z ->
  be_bytes w n = be_bytes w m -> n = m.
Proof.
  revert n m. induction w as [|w IH]; intros n m Hn Hm Heq; [simpl in *; lia|].
  rewrite Nat2Z.inj_succ, Z.pow_succ_r in Hn, Hm by lia.
  apply string_app_inj_length in Heq as [Hdiv Hmod]; [|by rewrite !be_bytes_length].
  pose proof (Z.mod_pos_bound n 256). pose proof (Z.mod_pos_bound m 256).
  injection Hmod as Hmod%ascii_of_N_inj; [|lia..].
  apply IH in Hdiv; [|split; [apply Z.div_pos|apply Z.div_lt_upper_bound]; lia..].
  rewrite (Z.div_mod n 256), (Z.div_mod m 256) by lia. lia.
Qed.

#[global] Arguments be_bytes : simpl never.
#[global] Arguments f32_is_finite : simpl never.
#[global] Arguments hash_component : simpl never.

(** A length the hasher's 8-byte prefix can hold; every Rust string has one. *)
Definition addressable (s : string) : Prop := (usize_len s < 2 ^ 64)%Z.

Lemma len_prefix_inj s1 s2 t1 t2 :
  addressable s1 -> addressable s2 ->
  be_bytes 8 (usize_len s1) +:+ s1 +:+ t1 = be_bytes 8 (usize_len s2) +:+ s2 +:+ t2 ->
  s1 = s2 /\ t1 = t2.
Proof.
  unfold addressable, usize_len. intros H1 H2 Heq.
  apply string_app_inj_length in Heq as [Hlen Heq]; [|by rewrite !be_bytes_length].
  apply be_bytes_inj in Hlen; [|change (256 ^ Z.of_nat 8)%Z with (2 ^ 64)%Z; lia..].
  apply string_app_inj_length in Heq; [done|lia].
Qed.

Lemma hash_component_app_inj k1 k2 v1 v2 r1 r2 :
  addressable k1 -> addressable k2 -> addressable v1 -> addressable v2 ->
  hash_component k1 v1 +:+ r1 = hash_component k2 v2 +:+ r2 ->
  k1 = k2 /\ v1 = v2 /\ r1 = r2.
Proof.
  unfold hash_component. rewrite !string_app_assoc. intros Hk1 Hk2 Hv1 Hv2 Heq.
  apply len_prefix_inj in Heq as [-> Heq]; [|done..].
  by apply len_prefix_inj in Heq as [-> ->].
Qed.

Lemma hash_component_inj k1 k2 v1 v2 :
  addressable k1 -> addressable k2 -> addressable v1 -> addressable v2 ->
  hash_component k1 v1 = hash_component k2 v2 -> k1 = k2 /\ v1 = v2.
Proof.
  intros ???? Heq. rewrite <-(string_app_nil_r (hash_component k1 _)) in Heq.
  rewrite <-(string_app_nil_r (hash_component k2 _)) in Heq.
  by apply hash_component_app_inj in Heq as (-> & -> & _).
Qed.

Definition step_wf (s : ProcedureStep) : Prop :=
  (0 <= step_number s < 2 ^ 32)%Z /\ addressable (step_description s) /\
  addressable (step_action s) /\ addressable (step_expected_outcome s).

Lemma short_addressable s : String.length s < 2 ^ 8 -> addressable s.
Proof.
  unfold addressable, usize_len. intros H. apply Nat2Z.inj_lt in H.
  change (Z.of_nat (2 ^ 8)) with 256%Z in H. lia.
Qed.

Ltac addressable_tac :=
  solve [ assumption
        | apply short_addressable; rewrite ?be_bytes_length; apply Nat.ltb_lt; reflexivity ].

Lemma step_components_inj s1 s2 r1 r2 :
  step_wf s1 -> step_wf s2 ->
  step_components s1 +:+ r1 = step_components s2 +:+ r2 -> s1 = s2 /\ r1 = r2.
Proof.
  destruct s1 as [n1 d1 a1 o1], s2 as [n2 d2 a2 o2]; unfold step_wf, step_components; simpl.
  intros (Hn1 & ? & ? & ?) (Hn2 & ? & ? & ?). rewrite !string_app_assoc. intros Heq.
  apply hash_component_app_inj in Heq as (_ & Hn & Heq); [|addressable_tac..].
  apply be_bytes_inj in Hn; [|change (256 ^ Z.of_nat 4)%Z with (2 ^ 32)%Z; lia..].
  apply hash_component_app_inj in Heq as (_ & -> & Heq); [|addressable_tac..].
  apply hash_component_app_inj in Heq as (_ & -> & Heq); [|addressable_tac..].
  apply hash_component_app_inj in Heq as (_ & -> & ->); [|addressable_tac..].
  by subst.
Qed.

Lemma concat_empty_cons (s : string) (l : list string) :
  String.concat "" (s :: l) = s +:+ String.concat "" l.
Proof. destruct l; simpl; [by rewrite string_app_nil_r|done]. Qed.

Lemma steps_components_inj l1 l2 :
  Forall step_wf l1 -> Forall step_wf l2 ->
  String.concat "" (step_components <$> l1) = String.concat "" (step_components <$> l2) ->
  l1 = l2.
Proof.
  intros H1. revert l2. induction H1 as [|s1 l1 Hs1 _ IH]; intros [|s2 l2] H2 Heq.
  - done.
  - rewrite fmap_cons, concat_empty_cons in Heq.
    apply (f_equal String.length) in Heq. unfold step_components, hash_component in Heq.
    rewrite !string_app_length, !be_bytes_length in Heq. simpl in Heq. lia.
  - rewrite fmap_cons, concat_empty_cons in Heq.
    apply (f_equal String.length) in Heq. unfold step_components, hash_component in Heq.
    rewrite !string_app_length, !be_bytes_length in Heq. simpl in Heq. lia.
  - inv H2. rewrite !fmap_cons, !concat_empty_cons in Heq.
    apply step_components_inj in Heq as [-> Heq]; [|done..]. f_equal; auto.
Qed.

#[local] Opaque hash_component be_bytes.

Section content_hash_theorems.
Context `{Platform} `{!Serde Json}.

(** The width and length bounds every Rust value of the type satisfies. *)
Definition content_wf (c : MemoryContent) : Prop :=
  match c with
  | Text value | ObjectRef value => addressable value
  | Structured value => forall e, to_vec value = Some e -> addressable (octets e)
  | ProcedureContent p =>
      addressable (proc_name p) /\ addressable (proc_description p) /\
      addressable (proc_learned_from p) /\ Forall step_wf (proc_steps p)
  | Knowledge k =>
      addressable (k_subject k) /\ addressable (k_statement k) /\
      (0 <= k_confidence_bits k < 2 ^ 32)%Z /\ addressable (k_source k)
  end.

(** Same content; structured values are compared by their canonical octets. *)
Definition same_content (c1 c2 : MemoryContent) : Prop :=
  match c1, c2 with
  | Structured v1, Structured v2 =>
      exists e1 e2, to_vec v1 = Some e1 /\ to_vec v2 = Some e2 /\ octets e1 = octets e2
  | _, _ => c1 = c2
  end.

(** The first component of a preimage names the variant. *)
Definition content_tag (c : MemoryContent) : string :=
  match c with
  | Text _ => "text"
  | ObjectRef _ => "object_ref"
  | Structured _ => "structured_json"
  | ProcedureContent _ => "procedure_name"
  | Knowledge _ => "knowledge_subject"
  end.

Lemma content_components_head c s :
  content_wf c -> content_components c = Ok s ->
  exists v r, addressable v /\ s = hash_component (content_tag c) v +:+ r.
Proof.
  intros Hwf Hc. destruct c as [v|v|v|p|k]; cbn [content_components content_wf content_tag] in *.
  - apply Ok_inj in Hc as <-. exists v, "". rewrite string_app_nil_r. auto.
  - apply Ok_inj in Hc as <-. exists v, "". rewrite string_app_nil_r. auto.
  - unfold ok_or in Hc. ok_inv Hc. subst.
    eexists _, "". rewrite string_app_nil_r. split; [|reflexivity]. auto.
  - apply Ok_inj in Hc as <-. destruct_and!. eauto.
  - ok_inv Hc. subst. destruct_and!. eauto.
Qed.

Lemma content_tag_addressable c : addressable (content_tag c).
Proof. destruct c; unfold addressable; vm_compute; reflexivity. Qed.

Lemma components_same_content c1 c2 s :
  content_wf c1 -> content_wf c2 ->
  content_components c1 = Ok s -> content_components c2 = Ok s -> same_content c1 c2.
Proof.
  intros Hw1 Hw2 H1 H2.
  assert (content_tag c1 = content_tag c2) as Htag.
  { destruct (content_components_head _ _ Hw1 H1) as (v1 & r1 & ? & ->).
    destruct (content_components_head _ _ Hw2 H2) as (v2 & r2 & ? & Heq).
    by apply hash_component_app_inj in Heq as (-> & _);
      auto using content_tag_addressable. }
  destruct c1, c2; try discriminate Htag; clear Htag;
    cbn [content_components content_wf same_content] in *.
  - apply Ok_inj in H1 as <-. apply Ok_inj in H2 as Heq.
    apply hash_component_inj in Heq as [_ ->]; [done|addressable_tac..].
  - apply Ok_inj in H1 as <-. apply Ok_inj in H2 as Heq.
    apply hash_component_inj in Heq as [_ ->]; [done|addressable_tac..].
  - unfold ok_or in *. ok_inv H1. ok_inv H2. subst s.
    apply hash_component_inj in H2 as [_ ?]; [eauto 10|(eauto || addressable_tac)..].
  - destruct p, p0; cbn in Hw1, Hw2, H1, H2. destruct_and!.
    apply Ok_inj in H1 as <-. apply Ok_inj in H2 as Heq.
    apply hash_component_app_inj in Heq as (_ & -> & Heq); [|addressable_tac..].
    apply hash_component_app_inj in Heq as (_ & -> & Heq); [|addressable_tac..].
    apply hash_component_app_inj in Heq as (_ & -> & Heq); [|addressable_tac..].
    apply steps_components_inj in Heq as ->; auto.
  - destruct k, k0; cbn [k_subject k_statement k_confidence_bits k_source] in *.
    destruct_and!. ok_inv H1. ok_inv H2. subst s. rename H2 into Heq.
    apply hash_component_app_inj in Heq as (_ & -> & Heq); [|addressable_tac..].
    apply hash_component_app_inj in Heq as (_ & -> & Heq); [|addressable_tac..].
    apply hash_component_app_inj in Heq as (_ & Hn & Heq); [|addressable_tac..].
    apply be_bytes_inj in Hn; [|change (256 ^ Z.of_nat 4)%Z with (2 ^ 32)%Z; lia..].
    apply hash_component_inj in Heq as [_ ->]; [|addressable_tac..]. by subst.
Qed.
End content_hash_theorems.

(** A platform whose documents are strings and whose digest is the identity,
    for evaluating the definitions of this file on concrete contents. *)
Definition echo_platform : Platform := {|
  bytes := string;
  octets := fun b => b;
  sha256_hex := fun s => s;
  uuid_parse := fun s => if String.eqb s "" then None else Some (N.of_nat (String.length s));
  uuid_hyphenated := fun n => "";
  uuid_new_v5 := fun n s => n;
|}.

Definition echo_json : @Serde echo_platform Json :=
  @Build_Serde echo_platform Json
    (fun v => match v with JString s => Some s | _ => None end) (fun b => Some (JString b)).

Section content_hash_claims.
Context `{Platform} `{!Serde Json}.

(** The canonical content hash binds the content.  Two contents with the
    same [canonical_content_hash] are the same content (structured values up
    to their canonical JSON octets), unless their two preimages are a SHA-256
    collision: the length-prefixed preimage has no ambiguity across variants,
    fields or procedure steps. *)
Lemma content_hash_binds_content (c1 c2 : MemoryContent) (h : string) :
  content_wf c1 -> content_wf c2 ->
  canonical_content_hash c1 = Ok h -> canonical_content_hash c2 = Ok h ->
  same_content c1 c2 \/
  (exists s1 s2, content_components c1 = Ok s1 /\ content_components c2 = Ok s2 /\ s1 <> s2 /\
     sha256_hex (CONTENT_DOMAIN +:+ s1) = sha256_hex (CONTENT_DOMAIN +:+ s2)).
Proof.
  unfold canonical_content_hash. intros Hw1 Hw2 H1 H2.
  destruct (content_components c1) as [s1|] eqn:E1; [|discriminate].
  destruct (content_components c2) as [s2|] eqn:E2; [|discriminate].
  apply Ok_inj in H1 as <-. apply Ok_inj in H2.
  destruct (decide (s1 = s2)) as [->|Hne].
  - left. by eapply components_same_content.
  - right. by exists s1, s2.
Qed.
End content_hash_claims.

Lemma content_hash_binds_content_witness :
  @same_content echo_platform echo_json (Text "note") (Text "note").
Proof.
  destruct (@content_hash_binds_content echo_platform echo_json (Text "note") (Text "note")
           (CONTENT_DOMAIN +:+ hash_component "text" "note")) as [Hs|(s1 & s2 & H1 & H2 & Hne & _)];
    [unfold content_wf, addressable; reflexivity..|reflexivity|reflexivity|exact Hs|].
  destruct Hne. rewrite H1 in H2. by apply Ok_inj in H2.
Defined.
