(* ===== verification/LedgerModel.v ===== *)
(** * The canonical revision ledger: records and hashing
    ([src/src/memory/ledger/model.rs], [hash.rs])

    The immutable records of the ledger, the error type, the domain-separated
    hashes of its objects, and the constructors of migrated records. *)

From stdpp Require Import base gmap strings list.
From S2P Require Import Prelude Wire MemoryModel.

Definition REVISION_SCHEMA : string := "plico.memory.revision/v1".
Definition POLICY_SCHEMA : string := "plico.memory.policy/v1".
Definition RELATION_SCHEMA : string := "plico.memory.relation/v1".
Definition REVISION_SEGMENT_SCHEMA : string := "plico.memory.revision-segment/v1".
Definition POLICY_SEGMENT_SCHEMA : string := "plico.memory.policy-segment/v1".
Definition RELATION_SEGMENT_SCHEMA : string := "plico.memory.relation-segment/v1".
Definition ROOT_SCHEMA : string := "plico.memory.root/v1".
Definition CURRENT_VIEW_SCHEMA : string := "plico.memory.current-view/v1".
Definition ROOT_POINTER_SCHEMA : string := "plico.memory.root-pointer/v1".

Record CanonicalRevision := mkRevision {
  r_schema : string;
  r_sequence : Z;
  r_memory_id : MemoryId;
  r_revision_id : MemoryRevisionId;
  r_parent_revision_id : option MemoryRevisionId;
  r_content : MemoryContent;
  r_content_hash : CanonicalContentHash;
  r_tags : list string;
  r_memory_type : MemoryType;
  r_cognitive_tier : MemoryTier;
  r_deleted_at : option Z;
  r_committed_at : Z;
  r_committed_by_role : string;
}.

Inductive PolicyMode : Type := Mode_Private | Mode_ExplicitRoleSet.

#[export] Instance PolicyMode_eq_dec : EqDecision PolicyMode.
Proof. solve_decision. Defined.

Record PolicyRecord := mkPolicy {
  p_schema : string;
  p_sequence : Z;
  p_policy_id : string;
  p_memory_id : MemoryId;
  p_effective_from_revision_id : MemoryRevisionId;
  p_origin_role_id : string;
  p_mode : PolicyMode;
  p_reader_roles : list string;
  p_writer_roles : list string;
  p_committed_at : Z;
  p_committed_by_role : string;
}.

Record RelationRecord := mkRelation {
  rel_schema : string;
  rel_sequence : Z;
  rel_relation_id : string;
  rel_subject_revision_id : MemoryRevisionId;
  rel_predicate : string;
  rel_object_revision_id : MemoryRevisionId;
  rel_epistemic_state : string;
  rel_provenance_manifest_id : string;
  rel_committed_at : Z;
  rel_committed_by_role : string;
}.

Inductive LogKind : Type := Log_Revision | Log_Policy | Log_Relation.

Record Segment (T : Type) := mkSegment {
  seg_schema : string;
  seg_first_sequence : Z;
  seg_last_sequence : Z;
  seg_previous_segment_hash : option string;
  seg_records : list T;
}.
Arguments mkSegment {T} _ _ _ _ _.
Arguments seg_schema {T} _.
Arguments seg_first_sequence {T} _.
Arguments seg_last_sequence {T} _.
Arguments seg_previous_segment_hash {T} _.
Arguments seg_records {T} _.

Record LedgerRoot := mkRoot {
  root_schema : string;
  root_generation : Z;
  root_previous_root_hash : option string;
  root_revision_head : option string;
  root_revision_watermark : Z;
  root_policy_head : option string;
  root_policy_watermark : Z;
  root_relation_head : option string;
  root_relation_watermark : Z;
  root_current_view_hash : string;
  root_migration_manifest_hash : option string;
  root_committed_at : Z;
  root_committed_by_role : string;
}.

Record CurrentStream := mkStream {
  cs_memory_id : MemoryId;
  cs_head_revision_id : MemoryRevisionId;
  cs_deleted : bool;
  cs_policy_id : string;
}.

Record CurrentView := mkView {
  v_schema : string;
  v_generation : Z;
  v_revision_watermark : Z;
  v_policy_watermark : Z;
  v_relation_watermark : Z;
  v_streams : list CurrentStream;
}.

Inductive ExpectedHead : Type :=
  | Absent
  | ExpectedRevision (id : MemoryRevisionId).

Record LedgerCommit := mkCommit {
  c_generation : Z;
  c_revision_sequence : Z;
  c_revision_id : MemoryRevisionId;
  c_committed_at : Z;
}.

(** [std::io::Error], by the kinds the storage layer produces. *)
Inductive IoError : Type := IoNotFound | IoInvalidData | IoInvalidInput | IoOther.

Inductive LedgerError : Type :=
  | Io (e : IoError)
  | Serialization
  | Cas (message : string)
  | Invalid (category : string)
  | UnsupportedPolicy (category : string)
  | HeadConflict (memory_id : MemoryId) (expected : ExpectedHead)
                 (actual : option MemoryRevisionId)
  | CommitIndeterminate
  | WriterPoisoned
  | VaultLocked.

(** [LedgerError::category] *)
Definition category (e : LedgerError) : string :=
  match e with
  | Io _ => "ledger_io"
  | Serialization => "ledger_serialization"
  | Cas _ => "ledger_cas"
  | Invalid c | UnsupportedPolicy c => c
  | HeadConflict _ _ _ => "head_conflict"
  | CommitIndeterminate => "commit_indeterminate"
  | WriterPoisoned => "writer_poisoned"
  | VaultLocked => "vault_locked"
  end.

Record ActivePointer := mkPointer {
  ptr_schema : string;
  ptr_root_hash : string;
}.

#[export] Instance CurrentStream_eq_dec : EqDecision CurrentStream.
Proof. solve_decision. Defined.
#[export] Instance CurrentView_eq_dec : EqDecision CurrentView.
Proof. solve_decision. Defined.
#[export] Instance PolicyRecord_eq_dec : EqDecision PolicyRecord.
Proof. solve_decision. Defined.
#[export] Instance LedgerRoot_eq_dec : EqDecision LedgerRoot.
Proof. solve_decision. Defined.
#[export] Instance ActivePointer_eq_dec : EqDecision ActivePointer.
Proof. solve_decision. Defined.
#[export] Instance ExpectedHead_eq_dec : EqDecision ExpectedHead.
Proof. solve_decision. Defined.

(** ** Hashing *)

Definition SEGMENT_DOMAIN : string := "plico.memory.segment.v1" +:+ nul.
Definition ROOT_DOMAIN : string := "plico.memory.root.v1" +:+ nul.
Definition VIEW_DOMAIN : string := "plico.memory.current-view.v1" +:+ nul.

Section hashing.
Context `{Platform} {T : Type} `{!Serde T}.

Definition jcs (value : T) : result LedgerError bytes :=
  ok_or (to_vec value) (Invalid "jcs_canonicalization_failed").

Definition canonical_bytes_and_hash (domain : string) (value : T)
    : result LedgerError (bytes * string) :=
  b <-? jcs value;
  Ok (b, sha256_hex (domain +:+ octets b)).

Definition verify (domain : string) (value : T) (expected : string) (cat : string)
    : result LedgerError unit :=
  actual <-? canonical_bytes_and_hash domain value;
  if str_eqb (snd actual) expected then Ok tt else Err (Invalid cat).

Definition segment_bytes_and_hash := canonical_bytes_and_hash SEGMENT_DOMAIN.
Definition root_bytes_and_hash := canonical_bytes_and_hash ROOT_DOMAIN.
Definition view_bytes_and_hash := canonical_bytes_and_hash VIEW_DOMAIN.

Definition verify_segment_hash (value : T) (expected : string) :=
  verify SEGMENT_DOMAIN value expected "segment_hash_mismatch".
Definition verify_root_hash (value : T) (expected : string) :=
  verify ROOT_DOMAIN value expected "root_hash_mismatch".
Definition verify_view_hash (value : T) (expected : string) :=
  verify VIEW_DOMAIN value expected "current_view_hash_mismatch".
End hashing.

(** ** Records imported by the offline migration *)

Record MigrationRevisionInput := mkMigrationRevisionInput {
  mri_sequence : Z;
  mri_memory_id : MemoryId;
  mri_revision_id : MemoryRevisionId;
  mri_parent_revision_id : option MemoryRevisionId;
  mri_content : MemoryContent;
  mri_tags : list string;
  mri_memory_type : MemoryType;
  mri_cognitive_tier : MemoryTier;
  mri_deleted_at : option Z;
  mri_committed_at : Z;
  mri_actor : string;
}.

Record MigrationPolicyInput := mkMigrationPolicyInput {
  mpi_sequence : Z;
  mpi_policy_id : string;
  mpi_memory_id : MemoryId;
  mpi_effective_from_revision_id : MemoryRevisionId;
  mpi_source_role : string;
  mpi_committed_at : Z;
  mpi_actor : string;
}.

Definition migration_import `{Platform} `{!Serde Json} (input : MigrationRevisionInput)
    : result LedgerError CanonicalRevision :=
  content_hash <-? map_err Invalid (canonical_content_hash (mri_content input));
  Ok {| r_schema := REVISION_SCHEMA;
        r_sequence := mri_sequence input;
        r_memory_id := mri_memory_id input;
        r_revision_id := mri_revision_id input;
        r_parent_revision_id := mri_parent_revision_id input;
        r_content := mri_content input;
        r_content_hash := content_hash;
        r_tags := mri_tags input;
        r_memory_type := mri_memory_type input;
        r_cognitive_tier := mri_cognitive_tier input;
        r_deleted_at := mri_deleted_at input;
        r_committed_at := mri_committed_at input;
        r_committed_by_role := mri_actor input |}.

Definition sorted_roles (roles : list string) : list string := dedup (sort_strings roles).

Definition validate_role (role : string) : result LedgerError unit :=
  if blank role then Err (Invalid "empty_migration_role") else Ok tt.

Definition strict_sorted_roles (roles : list string) : bool :=
  forallb (fun role => negb (blank role)) roles && windows2_all String.ltb roles.

Definition migration_private (input : MigrationPolicyInput) : result LedgerError PolicyRecord :=
  validate_role (mpi_source_role input) ?>>
  validate_role (mpi_actor input) ?>>
  let roles := sorted_roles [mpi_source_role input; PERSONAL_OWNER_ROLE_ID] in
  Ok {| p_schema := POLICY_SCHEMA;
        p_sequence := mpi_sequence input;
        p_policy_id := mpi_policy_id input;
        p_memory_id := mpi_memory_id input;
        p_effective_from_revision_id := mpi_effective_from_revision_id input;
        p_origin_role_id := mpi_source_role input;
        p_mode := Mode_Private;
        p_reader_roles := roles;
        p_writer_roles := roles;
        p_committed_at := mpi_committed_at input;
        p_committed_by_role := mpi_actor input |}.

Definition migration_explicit_role_set (input : MigrationPolicyInput)
    (reader_roles : list string) : result LedgerError PolicyRecord :=
  validate_role (mpi_source_role input) ?>>
  validate_role (mpi_actor input) ?>>
  reject bool_decide (reader_roles = [])
         || negb (strict_sorted_roles reader_roles)
         || negb (str_mem (mpi_source_role input) reader_roles)
         || negb (str_mem PERSONAL_OWNER_ROLE_ID reader_roles)
    with Invalid "invalid_migration_audience";
  let writers := sorted_roles [mpi_source_role input; PERSONAL_OWNER_ROLE_ID] in
  Ok {| p_schema := POLICY_SCHEMA;
        p_sequence := mpi_sequence input;
        p_policy_id := mpi_policy_id input;
        p_memory_id := mpi_memory_id input;
        p_effective_from_revision_id := mpi_effective_from_revision_id input;
        p_origin_role_id := mpi_source_role input;
        p_mode := Mode_ExplicitRoleSet;
        p_reader_roles := reader_roles;
        p_writer_roles := writers;
        p_committed_at := mpi_committed_at input;
        p_committed_by_role := mpi_actor input |}.
