(* ===== verification/LedgerValidate.v ===== *)
(** * Ledger validation ([src/src/memory/ledger/validate.rs])

    [validate_revisions] and [validate_policies], the two passes every ledger
    snapshot goes through before it is trusted, and what their acceptance
    means: an abstract well-formedness of the logs, proved equivalent to
    acceptance for revisions and implied by it for policies. *)

From stdpp Require Import base gmap strings list sorting.
From S2P Require Import Prelude Wire MemoryModel LedgerModel.

Section validate.
Context `{Platform} `{!Serde Json} `{!Serde MemoryContent}.

(** ** Revisions *)

(** The loop state: [by_revision] and [heads]. *)
Record RevisionScan := mkRevisionScan {
  by_revision : gmap string CanonicalRevision;
  heads : gmap string MemoryRevisionId;
}.

Definition content_hash_of (r : CanonicalRevision) : result LedgerError string :=
  map_err Invalid (canonical_content_hash (r_content r)).

(** The tombstone comparison; [||] short-circuits, [?] returns. *)
Definition tombstone_payload_changed (record parent : CanonicalRevision)
    : result LedgerError bool :=
  a <-? jcs (r_content record);
  b <-? jcs (r_content parent);
  if negb (bool_decide (a = b)) then Ok true else
  if negb (str_eqb (r_content_hash record) (r_content_hash parent)) then Ok true else
  if negb (bool_decide (r_tags record = r_tags parent)) then Ok true else
  if negb (bool_decide (r_memory_type record = r_memory_type parent)) then Ok true else
  h <-? content_hash_of record;
  Ok (negb (str_eqb h (r_content_hash parent))).

Definition is_deleted (r : CanonicalRevision) : bool := bool_decide (is_Some (r_deleted_at r)).

(** One iteration of the loop of [validate_revisions]. *)
Definition validate_revision_step (offset : nat) (st : RevisionScan)
    (record : CanonicalRevision) : result LedgerError RevisionScan :=
  reject negb (str_eqb (r_schema record) REVISION_SCHEMA)
         || negb (r_sequence record =? Z.of_nat offset + 1)%Z
    with Invalid "invalid_revision_sequence";
  reject uuid_is_err (r_revision_id record) || uuid_is_err (r_memory_id record)
         || blank (r_committed_by_role record)
    with Invalid "empty_revision_identity";
  (h <-? content_hash_of record;
   reject negb (str_eqb (r_content_hash record) h)
     with Invalid "canonical_content_hash_mismatch";
   reject bool_decide (is_Some (by_revision st !! r_revision_id record))
     with Invalid "duplicate_revision_id";
   let by_revision' := <[r_revision_id record := record]> (by_revision st) in
   let heads' := <[r_memory_id record := r_revision_id record]> (heads st) in
   match r_parent_revision_id record with
   | None =>
       reject negb (str_eqb (r_memory_id record) (r_revision_id record)) || is_deleted record
         with Invalid "invalid_root_revision";
       reject bool_decide (is_Some (heads st !! r_memory_id record))
         with Invalid "duplicate_memory_root";
       Ok {| by_revision := by_revision'; heads := heads' |}
   | Some parent_id =>
       parent <-? ok_or (by_revision' !! parent_id) (Invalid "missing_parent_revision");
       reject negb (str_eqb (r_memory_id parent) (r_memory_id record))
              || negb (bool_decide (r_cognitive_tier parent = r_cognitive_tier record))
              || is_deleted parent
              || negb (bool_decide (heads st !! r_memory_id record = Some parent_id))
         with Invalid "invalid_parent_revision";
       (changed <-? (if is_deleted record then tombstone_payload_changed record parent
                     else Ok false);
        reject changed with Invalid "tombstone_payload_changed";
        Ok {| by_revision := by_revision'; heads := heads' |})
   end).

Definition empty_scan : RevisionScan := {| by_revision := ∅; heads := ∅ |}.

Definition validate_revisions (records : list CanonicalRevision) : result LedgerError unit :=
  try_for validate_revision_step 0 empty_scan records ?>> Ok tt.

(** ** Policies *)

Definition is_sorted_unique (values : list string) : bool := windows2_all String.ltb values.

(** [[origin, owner]] sorted and deduplicated. *)
Definition origin_roles_of (origin : string) : list string :=
  sorted_roles [origin; PERSONAL_OWNER_ROLE_ID].

(** The checks of the first loop on one record, after the identity checks. *)
Definition validate_policy_audience (record : PolicyRecord) : result LedgerError unit :=
  reject bool_decide (p_reader_roles record = [])
         || bool_decide (p_writer_roles record = [])
         || negb (is_sorted_unique (p_reader_roles record))
         || negb (is_sorted_unique (p_writer_roles record))
         || negb (str_mem PERSONAL_OWNER_ROLE_ID (p_reader_roles record))
         || negb (str_mem PERSONAL_OWNER_ROLE_ID (p_writer_roles record))
    with UnsupportedPolicy "policy_log_mode_not_implemented";
  let origin_roles := origin_roles_of (p_origin_role_id record) in
  reject negb (bool_decide (p_writer_roles record = origin_roles))
         || bool_decide (p_mode record = Mode_Private)
            && negb (bool_decide (p_reader_roles record = origin_roles))
         || bool_decide (p_mode record = Mode_ExplicitRoleSet)
            && negb (forallb (fun role => str_mem role (p_reader_roles record)) origin_roles)
    with Invalid "invalid_policy_audience";
  Ok tt.

(** One iteration of the first loop; the state is [policy_ids]. *)
Definition validate_policy_step (revisions : list CanonicalRevision) (offset : nat)
    (policy_ids : gset string) (record : PolicyRecord) : result LedgerError (gset string) :=
  reject negb (str_eqb (p_schema record) POLICY_SCHEMA)
         || negb (p_sequence record =? Z.of_nat offset + 1)%Z
         || uuid_is_err (p_policy_id record)
         || blank (p_origin_role_id record)
         || blank (p_committed_by_role record)
         || bool_decide (p_policy_id record ∈ policy_ids)
         || negb (str_mem (p_effective_from_revision_id record) (r_revision_id <$> revisions))
    with Invalid "invalid_policy_record";
  validate_policy_audience record ?>>
  (revision <-? ok_or (List.find (fun r => str_eqb (r_revision_id r)
                                     (p_effective_from_revision_id record)) revisions)
                  (Invalid "missing_policy_revision");
   reject negb (str_eqb (r_memory_id revision) (p_memory_id record))
     with Invalid "policy_boundary_mismatch";
   Ok ({[p_policy_id record]} ∪ policy_ids)).

Definition is_root (r : CanonicalRevision) : bool :=
  bool_decide (r_parent_revision_id r = None).

(** [sequence_by_revision] and [root_by_memory]. *)
Definition sequence_by_revision (revisions : list CanonicalRevision) : gmap string Z :=
  r_sequence <$> index_by r_revision_id revisions.
Definition root_by_memory (revisions : list CanonicalRevision) : gmap string MemoryRevisionId :=
  r_revision_id <$> index_by r_memory_id (List.filter is_root revisions).

(** One iteration of the second loop; the state is [latest_policy]. *)
Definition policy_history_step (revisions : list CanonicalRevision) (offset : nat)
    (latest_policy : gmap string (PolicyRecord * Z)) (policy : PolicyRecord)
    : result LedgerError (gmap string (PolicyRecord * Z)) :=
  effective_sequence <-?
    ok_or (sequence_by_revision revisions !! p_effective_from_revision_id policy)
          (Invalid "missing_policy_revision");
  (match latest_policy !! p_memory_id policy with
   | Some (previous, previous_effective_sequence) =>
       reject negb (str_eqb (p_origin_role_id policy) (p_origin_role_id previous))
         with Invalid "policy_origin_changed";
       reject (effective_sequence <? previous_effective_sequence)%Z
         with Invalid "policy_effective_revision_rollback";
       reject negb (str_mem (p_committed_by_role policy) (p_writer_roles previous))
         with Invalid "policy_writer_unauthorized";
       Ok tt
   | None =>
       reject negb (bool_decide (root_by_memory revisions !! p_memory_id policy
                                 = Some (p_effective_from_revision_id policy)))
         with Invalid "initial_policy_not_effective_from_root";
       Ok tt
   end) ?>>
  Ok (<[p_memory_id policy := (policy, effective_sequence)]> latest_policy).

Definition validate_policies (records : list PolicyRecord) (revisions : list CanonicalRevision)
    : result LedgerError unit :=
  try_for (validate_policy_step revisions) 0 ∅ records ?>>
  (latest_policy <-? try_for (policy_history_step revisions) 0 ∅ records;
   reject negb (bool_decide (dom (root_by_memory revisions) ⊆ dom latest_policy))
     with Invalid "memory_stream_without_policy";
   Ok tt).

Definition validate_migration_record_sets (revisions : list CanonicalRevision)
    (policies : list PolicyRecord) : result LedgerError unit :=
  validate_revisions revisions ?>> validate_policies policies revisions.
End validate.

(** ** The abstract revision log *)

Section revision_log.
Context `{Platform} `{!Serde Json} `{!Serde MemoryContent}.

(** The revisions of one memory, oldest first. *)
Definition stream (m : MemoryId) (log : list CanonicalRevision) : list CanonicalRevision :=
  with_key r_memory_id m log.

(** A tombstone repeats its parent's payload. *)
Definition same_payload (r q : CanonicalRevision) : Prop :=
  (exists b, to_vec (r_content r) = Some b /\ to_vec (r_content q) = Some b) /\
  r_content_hash r = r_content_hash q /\ r_tags r = r_tags q /\
  r_memory_type r = r_memory_type q.

(** How [r] continues the log [pre]: it opens a stream named after itself, or
    extends the live head of its stream. *)
Definition revision_link (pre : list CanonicalRevision) (r : CanonicalRevision) : Prop :=
  match r_parent_revision_id r with
  | None =>
      r_memory_id r = r_revision_id r /\ r_deleted_at r = None /\
      stream (r_memory_id r) pre = []
  | Some p =>
      exists q, last (stream (r_memory_id r) pre) = Some q /\ r_revision_id q = p /\
        r_cognitive_tier q = r_cognitive_tier r /\ r_deleted_at q = None /\
        (is_Some (r_deleted_at r) -> same_payload r q)
  end.

Record revision_ok (pre : list CanonicalRevision) (r : CanonicalRevision) : Prop := {
  rok_schema : r_schema r = REVISION_SCHEMA;
  rok_sequence : r_sequence r = (Z.of_nat (length pre) + 1)%Z;
  rok_ids : uuid_is_err (r_revision_id r) = false /\ uuid_is_err (r_memory_id r) = false;
  rok_role : blank (r_committed_by_role r) = false;
  rok_hash : content_hash_of r = Ok (r_content_hash r);
  rok_fresh : r_revision_id r ∉ r_revision_id <$> pre;
  rok_link : revision_link pre r;
}.

(** Every revision is acceptable after the ones before it. *)
Definition revision_log (log : list CanonicalRevision) : Prop :=
  prefix_ok revision_ok log.

(** The loop state after a prefix. *)
Definition scan_of (pre : list CanonicalRevision) : RevisionScan := {|
  by_revision := index_by r_revision_id pre;
  heads := r_revision_id <$> index_by r_memory_id pre |}.

Lemma scan_of_snoc pre r :
  scan_of (pre ++ [r]) =
  {| by_revision := <[r_revision_id r := r]> (by_revision (scan_of pre));
     heads := <[r_memory_id r := r_revision_id r]> (heads (scan_of pre)) |}.
Proof. unfold scan_of. by rewrite !index_by_snoc, fmap_insert. Qed.

Lemma tombstone_check_spec r q :
  content_hash_of r = Ok (r_content_hash r) ->
  tombstone_payload_changed r q = Ok false <-> same_payload r q.
Proof.
  intros Hh. unfold tombstone_payload_changed, same_payload, jcs, ok_or. rewrite Hh. split.
  - intros Hf. ok_inv Hf. breflect. simplify_eq. eauto 10.
  - intros ((b & -> & ->) & -> & -> & ->). unfold str_eqb.
    by rewrite !bool_decide_eq_true_2 by done.
Qed.

Lemma heads_lookup pre m :
  heads (scan_of pre) !! m = r_revision_id <$> last (stream m pre).
Proof. unfold scan_of; simpl. by rewrite lookup_fmap, index_by_lookup. Qed.

Lemma by_revision_is_Some pre k :
  is_Some (by_revision (scan_of pre) !! k) <-> k ∈ r_revision_id <$> pre.
Proof. apply index_by_is_Some. Qed.

Lemma by_revision_NoDup pre q :
  NoDup (r_revision_id <$> pre) -> q ∈ pre ->
  by_revision (scan_of pre) !! r_revision_id q = Some q.
Proof. apply index_by_NoDup. Qed.

Lemma last_stream_elem m pre q :
  last (stream m pre) = Some q -> q ∈ pre /\ r_memory_id q = m.
Proof. intros Hl%last_Some_elem_of%list_elem_of_filter. tauto. Qed.

Lemma is_deleted_false r : is_deleted r = false <-> r_deleted_at r = None.
Proof.
  unfold is_deleted. rewrite bool_decide_eq_false, <-not_eq_None_Some.
  destruct (r_deleted_at r); naive_solver.
Qed.

(** The parent found by id is the head of the stream. *)
Lemma parent_is_head pre r p q :
  NoDup (r_revision_id <$> pre) -> r_revision_id r ∉ r_revision_id <$> pre ->
  heads (scan_of pre) !! r_memory_id r = Some p ->
  <[r_revision_id r := r]> (by_revision (scan_of pre)) !! p = Some q ->
  last (stream (r_memory_id r) pre) = Some q /\ r_revision_id q = p.
Proof.
  rewrite heads_lookup. intros Hnd Hfresh Hh Hq.
  destruct (last _) as [q'|] eqn:Hl; [|discriminate]. injection Hh as <-.
  apply last_stream_elem in Hl as Hin. destruct Hin as [Hin _].
  rewrite lookup_insert_ne in Hq.
  - rewrite by_revision_NoDup in Hq by done. by simplify_eq.
  - intros Heq. apply Hfresh. rewrite Heq. by apply list_elem_of_fmap_2.
Qed.

Lemma revision_step_sound pre r t :
  NoDup (r_revision_id <$> pre) ->
  validate_revision_step (length pre) (scan_of pre) r = Ok t ->
  revision_ok pre r /\ t = scan_of (pre ++ [r]).
Proof.
  intros Hnd Hs. rewrite scan_of_snoc. unfold validate_revision_step in Hs.
  destruct (content_hash_of r) as [h|] eqn:Hh; [|by ok_inv Hs].
  ok_inv Hs; subst; (split; [|done]); breflect; subst h;
    rewrite by_revision_is_Some in Heqb2;
    constructor; try done; unfold revision_link; rewrite Heqo.
  1, 2: unfold ok_or in *; case_match; simplify_eq;
    destruct (parent_is_head pre r s a) as [Hl <-]; [done..|];
    exists a; split_and!; try done; [by apply is_deleted_false|].
  - intros _. by apply tombstone_check_spec.
  - intros Hd%not_eq_None_Some. by apply is_deleted_false in Heqb4.
  - split_and!; [done|by apply is_deleted_false|].
    apply last_None. rewrite heads_lookup, <-not_eq_None_Some in *.
    destruct (last _); naive_solver.
Qed.

Lemma revision_step_complete pre r :
  NoDup (r_revision_id <$> pre) -> revision_ok pre r ->
  validate_revision_step (length pre) (scan_of pre) r = Ok (scan_of (pre ++ [r])).
Proof.
  intros Hnd [Hsch Hseq [Hu1 Hu2] Hrole Hhash Hfresh Hlink]. rewrite scan_of_snoc.
  unfold validate_revision_step. rewrite Hsch, Hseq, Hu1, Hu2, Hrole, Hhash.
  rewrite Z.eqb_refl. unfold str_eqb. rewrite !(bool_decide_eq_true_2 (_ = _)) by done.
  rewrite bool_decide_eq_false_2 by (by rewrite by_revision_is_Some).
  cbn [negb orb andb].
  unfold revision_link in Hlink. destruct (r_parent_revision_id r) as [p|].
  - destruct Hlink as (q & Hl & <- & Ht & Hd & Hp).
    apply last_stream_elem in Hl as Hin. destruct Hin as [Hin Hm].
    rewrite lookup_insert_ne
      by (intros Heq; apply Hfresh; rewrite Heq; by apply list_elem_of_fmap_2).
    rewrite by_revision_NoDup by done. cbn [ok_or]. rewrite Hm, Ht.
    apply is_deleted_false in Hd. rewrite Hd.
    rewrite !bool_decide_eq_true_2; [|by rewrite heads_lookup, Hl|done..].
    cbn [negb orb andb].
    destruct (is_deleted r) eqn:Hdr; [|done].
    rewrite (proj2 (tombstone_check_spec r q Hhash)); [done|].
    apply Hp, not_eq_None_Some. intros Hn. by apply is_deleted_false in Hn; congruence.
  - destruct Hlink as (Hm & Hd & Hnil). apply is_deleted_false in Hd. rewrite Hd, Hm.
    rewrite bool_decide_eq_true_2 by done. cbn [negb orb andb]. rewrite <-Hm, heads_lookup, Hnil.
    by rewrite bool_decide_eq_false_2 by (by intros [? [=]]).
Qed.

Lemma revision_log_NoDup log : revision_log log -> NoDup (r_revision_id <$> log).
Proof.
  induction log as [|r log IH] using rev_ind; [constructor|].
  intros [Hl Hr]%prefix_ok_snoc. rewrite fmap_app. apply NoDup_app. split_and!.
  - by apply IH.
  - intros x Hx Hx'. apply list_elem_of_singleton in Hx' as ->. by apply (rok_fresh _ _ Hr).
  - apply NoDup_singleton.
Qed.

Lemma scan_iff log s :
  try_for validate_revision_step 0 empty_scan log = Ok s <->
  revision_log log /\ s = scan_of log.
Proof.
  change empty_scan with (scan_of []). apply try_for_iff.
  intros pre r post t _ Hpre%revision_log_NoDup. split.
  - by apply revision_step_sound.
  - intros [Hr ->]. by apply revision_step_complete.
Qed.

Lemma validate_revisions_iff log : validate_revisions log = Ok tt <-> revision_log log.
Proof.
  unfold validate_revisions. split.
  - intros Hv. ok_inv Hv. by apply scan_iff in Heqr as [? _].
  - intros Hl. by rewrite (proj2 (scan_iff log _) (conj Hl eq_refl)).
Qed.

(** ** Consequences *)

Lemma stream_snoc m pre r :
  stream m (pre ++ [r]) = stream m pre ++ (if decide (r_memory_id r = m) then [r] else []).
Proof. apply with_key_snoc. Qed.

(** A stream as a chain of revisions: the first is the root named after the
    memory, each next one has the previous one, still live, as its parent, in
    the same tier. *)
Definition stream_chain (m : MemoryId) (l : list CanonicalRevision) : Prop :=
  (forall r, head l = Some r ->
     r_parent_revision_id r = None /\ r_revision_id r = m /\ r_deleted_at r = None) /\
  (forall i a b, l !! i = Some a -> l !! S i = Some b ->
     r_parent_revision_id b = Some (r_revision_id a) /\ r_deleted_at a = None /\
     r_cognitive_tier a = r_cognitive_tier b /\
     (is_Some (r_deleted_at b) -> same_payload b a)).

Lemma stream_chain_snoc m l r :
  stream_chain m l ->
  (l = [] -> r_parent_revision_id r = None /\ r_revision_id r = m /\ r_deleted_at r = None) ->
  (forall a, last l = Some a ->
     r_parent_revision_id r = Some (r_revision_id a) /\ r_deleted_at a = None /\
     r_cognitive_tier a = r_cognitive_tier r /\
     (is_Some (r_deleted_at r) -> same_payload r a)) ->
  stream_chain m (l ++ [r]).
Proof.
  intros [Hhd Hnext] Hnil Hlast. split.
  - intros x Hx. destruct l as [|y l]; simplify_eq/=; auto.
  - intros i a b Ha Hb. apply lookup_app_Some in Hb as [Hb|[Hi Hb]].
    + apply (Hnext i); [|done]. rewrite lookup_app_l in Ha; [done|].
      apply lookup_lt_Some in Hb. lia.
    + apply list_lookup_singleton_Some in Hb as [Hi' <-].
      apply Hlast. rewrite last_lookup. rewrite lookup_app_l in Ha by lia.
      by replace (pred (length l)) with i by lia.
Qed.

Lemma revision_log_stream_chain log m : revision_log log -> stream_chain m (stream m log).
Proof.
  induction log as [|r log IH] using rev_ind.
  - intros _. split; [by intros r Hr|by intros i a b Ha].
  - intros [Hl Hr]%prefix_ok_snoc. rewrite stream_snoc.
    destruct (decide (r_memory_id r = m)) as [<-|]; [|rewrite app_nil_r; by apply IH].
    pose proof (rok_link _ _ Hr) as Hlink. unfold revision_link in Hlink.
    apply stream_chain_snoc; [by apply IH|..]; destruct (r_parent_revision_id r).
    + intros Hnil. destruct Hlink as (q & Hq & _). by rewrite Hnil in Hq.
    + intros _. naive_solver.
    + intros a Ha. destruct Hlink as (q & Hq & <- & ?). naive_solver.
    + intros a Ha. destruct Hlink as (_ & _ & Hn). by rewrite Hn in Ha.
Qed.
End revision_log.

(** ** The abstract policy log *)

Section policy_log.
Context `{Platform} `{!Serde Json} `{!Serde MemoryContent}.

(** The roles every audience must contain are exactly the origin and the owner. *)
Lemma origin_roles_cases o :
  (o = PERSONAL_OWNER_ROLE_ID /\ origin_roles_of o = [o]) \/
  (String.ltb o PERSONAL_OWNER_ROLE_ID = true /\
     origin_roles_of o = [o; PERSONAL_OWNER_ROLE_ID]) \/
  (String.ltb PERSONAL_OWNER_ROLE_ID o = true /\
     origin_roles_of o = [PERSONAL_OWNER_ROLE_ID; o]).
Proof.
  destruct (decide (o = PERSONAL_OWNER_ROLE_ID)) as [->|Hne]; [left; by split|right].
  unfold origin_roles_of, sorted_roles, sort_strings, merge_sort. cbn.
  destruct (decide (String.le o PERSONAL_OWNER_ROLE_ID)) as [Hle|Hgt]; cbn.
  - left. rewrite decide_False by done. split; [|done].
    revert Hle. unfold String.le, String.leb, String.ltb.
    pose proof (String.compare_eq_iff o PERSONAL_OWNER_ROLE_ID).
    destruct (String.compare o PERSONAL_OWNER_ROLE_ID); naive_solver.
  - right. rewrite decide_False by done. split; [|done].
    revert Hgt. unfold String.le, String.leb, String.ltb.
    rewrite (String.compare_antisym PERSONAL_OWNER_ROLE_ID o).
    pose proof (String.compare_eq_iff o PERSONAL_OWNER_ROLE_ID).
    destruct (String.compare o PERSONAL_OWNER_ROLE_ID); simpl; naive_solver.
Qed.

Lemma origin_roles_elem o x :
  x ∈ origin_roles_of o <-> x = o \/ x = PERSONAL_OWNER_ROLE_ID.
Proof.
  destruct (origin_roles_cases o) as [(? & ->)|[(_ & ->)|(_ & ->)]]; set_solver.
Qed.

Lemma origin_roles_sorted o : is_sorted_unique (origin_roles_of o) = true.
Proof.
  unfold is_sorted_unique.
  by destruct (origin_roles_cases o) as [(_ & ->)|[(Hlt & ->)|(Hlt & ->)]]; simpl;
    rewrite ?Hlt.
Qed.

(** What a policy record grants. *)
Record audience_ok (p : PolicyRecord) : Prop := {
  aud_writers : p_writer_roles p = origin_roles_of (p_origin_role_id p);
  aud_sorted : is_sorted_unique (p_reader_roles p) = true;
  aud_private : p_mode p = Mode_Private ->
    p_reader_roles p = origin_roles_of (p_origin_role_id p);
  aud_readers : forall role, role = p_origin_role_id p \/ role = PERSONAL_OWNER_ROLE_ID ->
    role ∈ p_reader_roles p;
}.

Lemma audience_iff p : validate_policy_audience p = Ok tt <-> audience_ok p.
Proof.
  unfold validate_policy_audience. split.
  - intros Hv. ok_inv Hv. breflect.
    assert (p_mode p = Mode_Private ->
              p_reader_roles p = origin_roles_of (p_origin_role_id p)) as Hp.
    { intros Hm. rewrite Hm in *. by simpl in *; breflect. }
    constructor; [done..|]. intros role Hrole%origin_roles_elem.
    destruct (p_mode p); [by rewrite Hp|]. simpl in *. breflect.
    match goal with Hf : forallb _ _ = true |- _ => rewrite forallb_forall in Hf;
      specialize (Hf role (proj1 (list_elem_of_In _ _) Hrole)) end.
    by breflect.
  - intros [Hw Hs Hp Hr]. rewrite Hw, Hs, origin_roles_sorted.
    assert (PERSONAL_OWNER_ROLE_ID ∈ p_reader_roles p) as Ho by auto.
    assert (p_reader_roles p <> []) as Hne by (intros Hn; rewrite Hn in Ho; set_solver).
    assert (PERSONAL_OWNER_ROLE_ID ∈ origin_roles_of (p_origin_role_id p)) as Ho'
      by (apply origin_roles_elem; auto).
    assert (origin_roles_of (p_origin_role_id p) <> []) as Hne'
      by (intros Hn; rewrite Hn in Ho'; set_solver).
    unfold str_mem. rewrite !(bool_decide_eq_true_2 (_ ∈ _)) by done.
    rewrite !(bool_decide_eq_false_2 (_ = [])) by done. simpl.
    rewrite (bool_decide_eq_true_2 (origin_roles_of _ = _)) by done. simpl.
    destruct (p_mode p); simpl.
    + rewrite Hp by done. by rewrite bool_decide_eq_true_2.
    + replace (forallb _ _) with true; [done|]. symmetry. apply forallb_forall.
      intros role Hrole%list_elem_of_In. apply bool_decide_eq_true_2.
      by apply Hr, origin_roles_elem.
Qed.

(** The revision a policy takes effect from. *)
Definition effective_at (revs : list CanonicalRevision) (p : PolicyRecord)
    (r : CanonicalRevision) : Prop :=
  r ∈ revs /\ r_revision_id r = p_effective_from_revision_id p /\
  r_memory_id r = p_memory_id p.

(** The policies of one memory, oldest first. *)
Definition policies_of (m : MemoryId) (log : list PolicyRecord) : list PolicyRecord :=
  with_key p_memory_id m log.

(** How [p] continues the policy history [pre] of its memory: the first policy
    takes effect at the stream's root; a later one keeps the origin, never takes
    effect earlier than its predecessor, and is committed by one of its writers. *)
Definition policy_link (revs : list CanonicalRevision) (pre : list PolicyRecord)
    (p : PolicyRecord) : Prop :=
  match last (policies_of (p_memory_id p) pre) with
  | None => exists r, effective_at revs p r /\ r_parent_revision_id r = None
  | Some q =>
      p_origin_role_id p = p_origin_role_id q /\
      p_committed_by_role p ∈ p_writer_roles q /\
      (forall r r', effective_at revs p r -> effective_at revs q r' ->
         (r_sequence r' <= r_sequence r)%Z)
  end.

Record policy_ok (revs : list CanonicalRevision) (pre : list PolicyRecord)
    (p : PolicyRecord) : Prop := {
  pok_schema : p_schema p = POLICY_SCHEMA;
  pok_sequence : p_sequence p = (Z.of_nat (length pre) + 1)%Z;
  pok_id : uuid_is_err (p_policy_id p) = false;
  pok_roles : blank (p_origin_role_id p) = false /\ blank (p_committed_by_role p) = false;
  pok_fresh : p_policy_id p ∉ p_policy_id <$> pre;
  pok_audience : audience_ok p;
  pok_effective : exists r, effective_at revs p r;
  pok_link : policy_link revs pre p;
}.

Record policy_log (revs : list CanonicalRevision) (log : list PolicyRecord) : Prop := {
  plog_ok : prefix_ok (policy_ok revs) log;
  plog_cover : forall r, r ∈ revs -> exists p, p ∈ log /\ p_memory_id p = r_memory_id r;
}.

(** *** The first loop *)

Lemma find_by_id (revs : list CanonicalRevision) k r :
  NoDup (r_revision_id <$> revs) ->
  List.find (fun r => str_eqb (r_revision_id r) k) revs = Some r <->
  r ∈ revs /\ r_revision_id r = k.
Proof.
  intros Hnd. split.
  - intros [Hin Heq]%find_some. breflect. by rewrite list_elem_of_In.
  - intros [Hin <-]. destruct (List.find _ revs) as [r'|] eqn:Hf.
    + apply find_some in Hf as [Hin' Heq]. breflect. apply list_elem_of_In in Hin'.
      f_equal. apply (index_by_NoDup r_revision_id) in Hin, Hin'; [|done..].
      rewrite Heq in Hin'. congruence.
    + apply list_elem_of_In in Hin. eapply find_none in Hf; [|done]. by breflect.
Qed.

(** The part of [policy_ok] the first loop checks. *)
Definition policy_local (revs : list CanonicalRevision) (pre : list PolicyRecord)
    (p : PolicyRecord) : Prop :=
  p_schema p = POLICY_SCHEMA /\ p_sequence p = (Z.of_nat (length pre) + 1)%Z /\
  uuid_is_err (p_policy_id p) = false /\
  (blank (p_origin_role_id p) = false /\ blank (p_committed_by_role p) = false) /\
  p_policy_id p ∉ p_policy_id <$> pre /\ audience_ok p /\
  exists r, effective_at revs p r.

Definition ids_of (pre : list PolicyRecord) : gset string :=
  list_to_set (p_policy_id <$> pre).

Lemma ids_of_snoc pre p : ids_of (pre ++ [p]) = {[p_policy_id p]} ∪ ids_of pre.
Proof. unfold ids_of. rewrite fmap_app, list_to_set_app_L. simpl. set_solver. Qed.

Lemma policy_step_iff revs pre p t :
  NoDup (r_revision_id <$> revs) ->
  validate_policy_step revs (length pre) (ids_of pre) p = Ok t <->
  policy_local revs pre p /\ t = ids_of (pre ++ [p]).
Proof.
  intros Hnd. rewrite ids_of_snoc. unfold validate_policy_step, policy_local. split.
  - intros Hv. destruct (validate_policy_audience p) as [[]|] eqn:Ha; [|by ok_inv Hv].
    apply audience_iff in Ha. unfold ok_or in Hv. ok_inv Hv. breflect.
    apply find_by_id in Heqo as [Hin Hid]; [|done].
    unfold ids_of in *. rewrite elem_of_list_to_set in *. unfold effective_at. eauto 15.
  - intros [(-> & -> & -> & [-> ->] & Hf & ->%audience_iff & r & Hin & Hid & Hm) ->].
    rewrite Z.eqb_refl. unfold str_eqb, str_mem.
    rewrite (bool_decide_eq_true_2 (POLICY_SCHEMA = _)) by done.
    rewrite (bool_decide_eq_false_2 (_ ∈ ids_of pre))
      by (unfold ids_of; by rewrite elem_of_list_to_set).
    rewrite (bool_decide_eq_true_2 (_ ∈ r_revision_id <$> revs))
      by (rewrite <-Hid; by apply list_elem_of_fmap_2). simpl.
    assert (List.find (fun r => str_eqb (r_revision_id r)
              (p_effective_from_revision_id p)) revs = Some r) as Hfind
      by (by apply find_by_id).
    unfold str_eqb in Hfind. rewrite Hfind. simpl. by rewrite bool_decide_eq_true_2.
Qed.

(** *** The second loop *)

Definition effective_sequence (revs : list CanonicalRevision) (p : PolicyRecord) : Z :=
  default 0%Z (sequence_by_revision revs !! p_effective_from_revision_id p).

Definition latest_of (revs : list CanonicalRevision) (pre : list PolicyRecord)
    : gmap string (PolicyRecord * Z) :=
  (fun p => (p, effective_sequence revs p)) <$> index_by p_memory_id pre.

Lemma latest_of_snoc revs pre p :
  latest_of revs (pre ++ [p]) =
  <[p_memory_id p := (p, effective_sequence revs p)]> (latest_of revs pre).
Proof. unfold latest_of. by rewrite index_by_snoc, fmap_insert. Qed.

Lemma latest_of_lookup revs pre m :
  latest_of revs pre !! m =
  (fun p => (p, effective_sequence revs p)) <$> last (policies_of m pre).
Proof. unfold latest_of. by rewrite lookup_fmap, index_by_lookup. Qed.

Lemma effective_sequence_at revs p r :
  NoDup (r_revision_id <$> revs) -> effective_at revs p r ->
  sequence_by_revision revs !! p_effective_from_revision_id p = Some (r_sequence r).
Proof.
  intros Hnd (Hin & <- & _). unfold sequence_by_revision.
  by rewrite lookup_fmap, index_by_NoDup.
Qed.

Lemma effective_at_unique revs p r r' :
  NoDup (r_revision_id <$> revs) -> effective_at revs p r -> effective_at revs p r' -> r = r'.
Proof.
  intros Hnd (Hin & Hid & _) (Hin' & Hid' & _).
  apply (index_by_NoDup r_revision_id) in Hin, Hin'; [|done..]. congruence.
Qed.

(** In a well-formed log a stream has one root, its first revision. *)
Lemma root_lookup revs m k :
  revision_log revs ->
  root_by_memory revs !! m = Some k <->
  exists r, r ∈ revs /\ r_memory_id r = m /\ r_revision_id r = k /\
            r_parent_revision_id r = None.
Proof.
  intros Hlog. unfold root_by_memory. rewrite lookup_fmap, fmap_Some. split.
  - intros (r & Hr & ->). apply index_by_lookup_Some in Hr as [Hin <-].
    apply list_elem_of_In, filter_In in Hin as [Hin Hroot]. unfold is_root in Hroot.
    breflect. apply list_elem_of_In in Hin. eauto.
  - intros (r & Hin & <- & <- & Hp).
    destruct (index_by r_memory_id (List.filter is_root revs) !! r_memory_id r)
      as [r'|] eqn:Hr.
    + exists r'. split; [done|]. apply index_by_lookup_Some in Hr as [Hin' Hm].
      apply list_elem_of_In, filter_In in Hin' as [Hin' Hroot]. unfold is_root in Hroot.
      breflect. apply list_elem_of_In in Hin'.
      apply list_elem_of_split in Hin as (l1 & l2 & ->).
      pose proof (rok_link _ _ (Hlog _ _ _ eq_refl)) as Hl1. unfold revision_link in Hl1.
      rewrite Hp in Hl1. destruct Hl1 as (<- & _).
      apply list_elem_of_split in Hin' as (k1 & k2 & Heq).
      pose proof (rok_link _ _ (Hlog _ _ _ Heq)) as Hl2. unfold revision_link in Hl2.
      rewrite Hroot in Hl2. destruct Hl2 as (<- & _). done.
    + apply index_by_lookup_None in Hr. destruct Hr. apply list_elem_of_fmap_2.
      apply list_elem_of_In, filter_In. rewrite <-list_elem_of_In. unfold is_root.
      by rewrite bool_decide_eq_true_2.
Qed.

Lemma history_step_iff revs pre p t :
  revision_log revs ->
  (forall q, q ∈ pre -> exists r, effective_at revs q r) ->
  (exists r, effective_at revs p r) ->
  policy_history_step revs (length pre) (latest_of revs pre) p = Ok t <->
  policy_link revs pre p /\ t = latest_of revs (pre ++ [p]).
Proof.
  intros Hlog Hpre [r Hr]. pose proof (revision_log_NoDup _ Hlog) as Hnd.
  unfold policy_history_step, policy_link. rewrite latest_of_snoc, latest_of_lookup.
  assert (effective_sequence revs p = r_sequence r) as Heff
    by (unfold effective_sequence; by rewrite (effective_sequence_at _ _ r)).
  rewrite (effective_sequence_at revs p r Hnd Hr). cbn [ok_or]. rewrite Heff.
  destruct (last (policies_of (p_memory_id p) pre)) as [q|] eqn:Hq; cbn [fmap option_fmap option_map].
  - assert (q ∈ pre) as Hin by (apply last_Some_elem_of, list_elem_of_filter in Hq; tauto).
    destruct (Hpre q Hin) as [r' Hr'].
    replace (effective_sequence revs q) with (r_sequence r')
      by (unfold effective_sequence; by rewrite (effective_sequence_at _ _ r')).
    unfold str_eqb, str_mem. split.
    + intros Hv. ok_inv Hv. breflect. split_and!; [done..| |by subst].
      intros x x' Hx Hx'. rewrite (effective_at_unique revs p x r), (effective_at_unique revs q x' r'); auto.
    + intros [(-> & Hc & Hseq) ->]. rewrite !bool_decide_eq_true_2 by done. simpl.
      by rewrite (proj2 (Z.ltb_ge _ _) (Hseq _ _ Hr Hr')).
  - split.
    + intros Hv. ok_inv Hv. breflect. split; [|by subst].
      apply root_lookup in Heqb as (x & Hx & Hm & Hid & Hp); [|done].
      exists x. by split.
    + intros [(x & Hx & Hp) ->]. rewrite bool_decide_eq_true_2; [done|].
      apply root_lookup; [done|]. destruct Hx as (? & ? & ?). eauto.
Qed.

Lemma stream_has_root revs r :
  revision_log revs -> r ∈ revs ->
  exists r0, r0 ∈ revs /\ r_memory_id r0 = r_memory_id r /\ r_parent_revision_id r0 = None.
Proof.
  intros Hlog Hin.
  assert (r ∈ stream (r_memory_id r) revs) as Hs by (apply list_elem_of_filter; auto).
  destruct (stream (r_memory_id r) revs) as [|r0 l] eqn:E; [by apply elem_of_nil in Hs|].
  destruct (revision_log_stream_chain revs (r_memory_id r) Hlog) as [Hhd _].
  rewrite E in Hhd. destruct (Hhd r0 eq_refl) as [Hp _].
  assert (r0 ∈ stream (r_memory_id r) revs) as [Hm Hin0]%list_elem_of_filter
    by (rewrite E; left).
  eauto.
Qed.

Lemma policy_ok_split revs log :
  prefix_ok (policy_ok revs) log <->
  prefix_ok (policy_local revs) log /\ prefix_ok (policy_link revs) log.
Proof.
  unfold prefix_ok, policy_local. split.
  - intros Hl. split; intros pre p post Heq; destruct (Hl _ _ _ Heq); auto 10.
  - intros [H1 H2] pre p post Heq. specialize (H1 _ _ _ Heq). specialize (H2 _ _ _ Heq).
    destruct_and!. by constructor.
Qed.

Lemma policy_local_effective revs log q :
  prefix_ok (policy_local revs) log -> q ∈ log -> exists r, effective_at revs q r.
Proof. intros Hl (l1 & l2 & ->)%list_elem_of_split. by apply (Hl l1 q l2). Qed.

Lemma policy_cover_iff revs log :
  revision_log revs ->
  dom (root_by_memory revs) ⊆ dom (latest_of revs log) <->
  (forall r, r ∈ revs -> exists p, p ∈ log /\ p_memory_id p = r_memory_id r).
Proof.
  intros Hlog. split.
  - intros Hsub r Hr. destruct (stream_has_root revs r Hlog Hr) as (r0 & Hr0 & Hm & Hp).
    assert (r_memory_id r ∈ dom (root_by_memory revs)) as Hd%Hsub.
    { apply elem_of_dom. exists (r_revision_id r0). apply root_lookup; eauto. }
    apply elem_of_dom in Hd as [[q z] Hq]. unfold latest_of in Hq.
    rewrite lookup_fmap, fmap_Some in Hq. destruct Hq as (x & Hx & [= -> ->]).
    apply index_by_lookup_Some in Hx. eauto.
  - intros Hc m [k Hk]%elem_of_dom. apply root_lookup in Hk as (r & Hr & <- & _); [|done].
    destruct (Hc r Hr) as (p & Hp & <-). unfold latest_of. rewrite dom_fmap.
    apply elem_of_dom, index_by_is_Some. by apply list_elem_of_fmap_2.
Qed.

Lemma first_loop_iff revs log s :
  revision_log revs ->
  try_for (validate_policy_step revs) 0 ∅ log = Ok s <->
  prefix_ok (policy_local revs) log /\ s = ids_of log.
Proof.
  intros Hlog%revision_log_NoDup. change ∅ with (ids_of []). apply try_for_iff.
  intros. by apply policy_step_iff.
Qed.

Lemma second_loop_iff revs log s :
  revision_log revs -> prefix_ok (policy_local revs) log ->
  try_for (policy_history_step revs) 0 ∅ log = Ok s <->
  prefix_ok (policy_link revs) log /\ s = latest_of revs log.
Proof.
  intros Hlog Hl. change ∅ with (latest_of revs []). apply try_for_iff.
  intros pre p post t -> Hpre. apply history_step_iff; [done| |].
  - intros q Hq. eapply policy_local_effective; [done|set_solver].
  - eapply policy_local_effective; [done|set_solver].
Qed.

Lemma validate_policies_iff revs log :
  revision_log revs -> validate_policies log revs = Ok tt <-> policy_log revs log.
Proof.
  intros Hlog. unfold validate_policies. split.
  - intros Hv. ok_inv Hv. apply first_loop_iff in Heqr as [Hl ->]; [|done].
    apply second_loop_iff in Heqr0 as [Hh ->]; [|done..]. breflect. constructor.
    + by apply policy_ok_split.
    + by apply policy_cover_iff.
  - intros [[Hl Hh]%policy_ok_split Hc].
    rewrite (proj2 (first_loop_iff _ _ _ Hlog) (conj Hl eq_refl)).
    rewrite (proj2 (second_loop_iff _ _ _ Hlog Hl) (conj Hh eq_refl)).
    by rewrite bool_decide_eq_true_2 by (by apply policy_cover_iff).
Qed.
End policy_log.
