(* ===== verification/LedgerView.v ===== *)
(** * The current view ([src/src/memory/ledger/current_view.rs])

    The materialised view of a ledger snapshot: one stream per memory with its
    head revision and policy.  The theorems relate the view to the logs it is
    rebuilt from. *)

From stdpp Require Import base gmap strings list sorting.
From S2P Require Import Prelude Wire MemoryModel LedgerModel LedgerValidate.

(** [streams.sort_by(|l, r| l.memory_id.cmp(r.memory_id))] *)
Definition stream_le (a b : CurrentStream) : Prop :=
  String.le (cs_memory_id a) (cs_memory_id b).

#[export] Instance stream_le_dec : RelDecision stream_le.
Proof. intros a b. unfold stream_le. apply _. Defined.

(** The body of the loop over [head_by_memory]. *)
Definition current_stream (policy_by_memory : gmap string PolicyRecord)
    (entry : string * CanonicalRevision) : result LedgerError CurrentStream :=
  let '(memory_id, head) := entry in
  policy <-? ok_or (policy_by_memory !! memory_id) (Invalid "missing_stream_policy");
  Ok {| cs_memory_id := memory_id;
        cs_head_revision_id := r_revision_id head;
        cs_deleted := is_deleted head;
        cs_policy_id := p_policy_id policy |}.

(** The streams, from the entries of [head_by_memory] in some iteration order. *)
Definition streams_of_entries (policies : list PolicyRecord)
    (entries : list (string * CanonicalRevision)) : result LedgerError (list CurrentStream) :=
  streams <-? try_map (current_stream (index_by p_memory_id policies)) entries;
  Ok (merge_sort stream_le streams).

Definition head_by_memory (revisions : list CanonicalRevision) : gmap string CanonicalRevision :=
  index_by r_memory_id revisions.

Definition rebuild_current_view (generation : Z) (revisions : list CanonicalRevision)
    (policies : list PolicyRecord) (relation_watermark : Z) : result LedgerError CurrentView :=
  streams <-? streams_of_entries policies (map_to_list (head_by_memory revisions));
  Ok {| v_schema := CURRENT_VIEW_SCHEMA;
        v_generation := generation;
        v_revision_watermark := from_option r_sequence 0%Z (last revisions);
        v_policy_watermark := from_option p_sequence 0%Z (last policies);
        v_relation_watermark := relation_watermark;
        v_streams := streams |}.

Definition stream_for (view : CurrentView) (memory_id : MemoryId) : option CurrentStream :=
  List.find (fun s => str_eqb (cs_memory_id s) memory_id) (v_streams view).

Definition head_for (view : CurrentView) (memory_id : MemoryId) : option MemoryRevisionId :=
  cs_head_revision_id <$> stream_for view memory_id.

(** ** What the view says of the logs *)

#[export] Instance stream_le_trans : Transitive stream_le.
Proof. intros a b c. unfold stream_le. apply transitivity. Qed.

#[export] Instance stream_le_total : Total stream_le.
Proof. intros a b. unfold stream_le. apply (total String.le). Qed.

(** The stream the logs determine for a memory. *)
Definition stream_spec (revs : list CanonicalRevision) (pols : list PolicyRecord)
    (m : MemoryId) : option CurrentStream :=
  head ← last (stream m revs);
  p ← last (policies_of m pols);
  Some {| cs_memory_id := m;
          cs_head_revision_id := r_revision_id head;
          cs_deleted := is_deleted head;
          cs_policy_id := p_policy_id p |}.

Lemma stream_spec_memory revs pols m s :
  stream_spec revs pols m = Some s -> cs_memory_id s = m.
Proof.
  unfold stream_spec. destruct (last (stream m revs)), (last (policies_of m pols));
    simpl; naive_solver.
Qed.

Lemma current_stream_spec revs pols m head s :
  head_by_memory revs !! m = Some head ->
  current_stream (index_by p_memory_id pols) (m, head) = Ok s <->
  stream_spec revs pols m = Some s.
Proof.
  unfold head_by_memory, current_stream, stream_spec, stream, policies_of.
  rewrite !index_by_lookup. intros ->. simpl.
  destruct (last (with_key p_memory_id m pols)); simpl; split; congruence.
Qed.

Section view.
Context (revs : list CanonicalRevision) (pols : list PolicyRecord).

Let heads_list := map_to_list (head_by_memory revs).

Lemma streams_memories ss :
  Forall2 (fun x y => current_stream (index_by p_memory_id pols) x = Ok y) heads_list ss ->
  cs_memory_id <$> ss = heads_list.*1.
Proof.
  induction 1 as [|[m h] s l k Hs _ IH]; [done|]. rewrite !fmap_cons, IH. f_equal.
  unfold current_stream, ok_or in Hs. by ok_inv Hs; subst.
Qed.

Lemma streams_elem ss s :
  Forall2 (fun x y => current_stream (index_by p_memory_id pols) x = Ok y) heads_list ss ->
  s ∈ ss <-> stream_spec revs pols (cs_memory_id s) = Some s.
Proof.
  intros Hss. split.
  - intros Hs. destruct (list_elem_of_lookup_1 _ _ Hs) as [i Hi].
    destruct (Forall2_lookup_r _ _ _ _ _ Hss Hi) as ([m h] & Hm & Hc).
    apply list_elem_of_lookup_2, elem_of_map_to_list in Hm.
    apply (current_stream_spec revs pols m h) in Hc; [|done].
    by rewrite (stream_spec_memory _ _ _ _ Hc).
  - intros Hs. assert (exists h, head_by_memory revs !! cs_memory_id s = Some h) as [h Hh].
    { unfold stream_spec, stream in Hs. unfold head_by_memory. rewrite index_by_lookup.
      destruct (last (with_key r_memory_id _ revs)); [by eauto|done]. }
    apply elem_of_map_to_list in Hh as Hin. destruct (list_elem_of_lookup_1 _ _ Hin) as [i Hi].
    destruct (Forall2_lookup_l _ _ _ _ _ Hss Hi) as (s' & Hs' & Hc).
    apply (current_stream_spec revs pols _ h) in Hc; [|done]. rewrite Hs in Hc. simplify_eq.
    by apply list_elem_of_lookup_2 in Hs'.
Qed.

Lemma rebuild_streams g rw v :
  rebuild_current_view g revs pols rw = Ok v ->
  (forall s, s ∈ v_streams v <-> stream_spec revs pols (cs_memory_id s) = Some s) /\
  NoDup (cs_memory_id <$> v_streams v) /\
  StronglySorted stream_le (v_streams v).
Proof.
  unfold rebuild_current_view, streams_of_entries. intros Hv.
  destruct (try_map _ _) as [ss|] eqn:Hss; [|done]. apply Ok_inj in Hv as <-.
  apply try_map_Ok_Forall2 in Hss. simpl. split_and!.
  - intros s. rewrite merge_sort_Permutation. by apply streams_elem.
  - rewrite merge_sort_Permutation, (streams_memories _ Hss).
    apply NoDup_fst_map_to_list.
  - apply (StronglySorted_merge_sort stream_le).
Qed.

Lemma rebuild_total g rw :
  (forall r, r ∈ revs -> exists p, p ∈ pols /\ p_memory_id p = r_memory_id r) ->
  exists v, rebuild_current_view g revs pols rw = Ok v.
Proof.
  intros Hc. unfold rebuild_current_view, streams_of_entries.
  destruct (try_map_complete (current_stream (index_by p_memory_id pols)) heads_list)
    as [ss Hss]; [|subst heads_list; rewrite Hss; eauto].
  intros [m h] Hm%elem_of_map_to_list. unfold head_by_memory in Hm.
  apply index_by_lookup_Some in Hm as [Hin <-]. destruct (Hc h Hin) as (p & Hp & Hpm).
  unfold current_stream. assert (is_Some (index_by p_memory_id pols !! r_memory_id h)) as [q ->].
  { apply index_by_is_Some. rewrite <-Hpm. by apply list_elem_of_fmap_2. }
  simpl. eauto.
Qed.

Lemma find_stream_spec (ss : list CurrentStream) m s :
  NoDup (cs_memory_id <$> ss) ->
  List.find (fun s => str_eqb (cs_memory_id s) m) ss = Some s <->
  s ∈ ss /\ cs_memory_id s = m.
Proof.
  intros Hnd. split.
  - intros [Hin Heq]%find_some. breflect. by rewrite list_elem_of_In.
  - intros [Hin <-]. destruct (List.find _ ss) as [s'|] eqn:Hf.
    + apply find_some in Hf as [Hin' Heq]. breflect. apply list_elem_of_In in Hin'.
      apply (index_by_NoDup cs_memory_id) in Hin, Hin'; [|done..]. congruence.
    + apply list_elem_of_In in Hin. eapply find_none in Hf; [|done]. by breflect.
Qed.

Lemma rebuild_stream_for g rw v m :
  rebuild_current_view g revs pols rw = Ok v -> stream_for v m = stream_spec revs pols m.
Proof.
  intros (Hel & Hnd & _)%rebuild_streams. unfold stream_for.
  destruct (stream_spec revs pols m) as [s|] eqn:Hs.
  - apply find_stream_spec; [done|]. pose proof (stream_spec_memory _ _ _ _ Hs) as <-.
    split; [by apply Hel|done].
  - destruct (List.find _ _) as [s|] eqn:Hf; [|done].
    apply find_stream_spec in Hf as [Hin%Hel <-]; [|done]. congruence.
Qed.

Lemma rebuild_head_for g rw v m :
  (forall r, r ∈ revs -> exists p, p ∈ pols /\ p_memory_id p = r_memory_id r) ->
  rebuild_current_view g revs pols rw = Ok v ->
  head_for v m = r_revision_id <$> last (stream m revs).
Proof.
  intros Hc Hv. unfold head_for. rewrite (rebuild_stream_for g rw v m Hv).
  unfold stream_spec. destruct (last (stream m revs)) as [h|] eqn:Hh; simpl; [|done].
  apply last_stream_elem in Hh as [Hin <-]. destruct (Hc h Hin) as (p & Hp & Hpm).
  destruct (last (policies_of (r_memory_id h) pols)) eqn:Hl; [done|].
  apply last_None in Hl. assert (p ∈ policies_of (r_memory_id h) pols) as Hx
    by (apply list_elem_of_filter; auto).
  rewrite Hl in Hx. by apply elem_of_nil in Hx.
Qed.
End view.

(** ** The order of a [HashMap] iteration is irrelevant *)

Lemma try_map_current_stream_Err pols l e :
  try_map (current_stream (index_by p_memory_id pols)) l = Err e ->
  e = Invalid "missing_stream_policy".
Proof.
  intros ([m h] & _ & He)%try_map_Err. unfold current_stream, ok_or in He.
  destruct (_ !! m); simpl in He; congruence.
Qed.

Lemma try_map_Permutation {E A B} (f : A -> result E B) l1 l2 k1 :
  l1 ≡ₚ l2 -> try_map f l1 = Ok k1 -> exists k2, try_map f l2 = Ok k2 /\ k1 ≡ₚ k2.
Proof.
  intros Hp Hk. apply try_map_Ok_Forall2 in Hk.
  destruct (Permutation_Forall2 Hp Hk) as (k2 & Hk12 & Hf).
  exists k2. split; [by apply try_map_Ok_Forall2|done].
Qed.

Lemma streams_permutation revs pols entries ss :
  entries ≡ₚ map_to_list (head_by_memory revs) ->
  streams_of_entries pols (map_to_list (head_by_memory revs)) = Ok ss ->
  streams_of_entries pols entries = Ok ss.
Proof.
  unfold streams_of_entries. intros Hp Hs.
  destruct (try_map _ (map_to_list _)) as [k|] eqn:Hk; [|done]. apply Ok_inj in Hs as <-.
  destruct (try_map_Permutation _ _ entries k (symmetry Hp) Hk) as (k' & -> & Hkk).
  f_equal. apply (StronglySorted_unique_strong stream_le).
  - intros a b Ha Hb Hab Hba. rewrite merge_sort_Permutation in Ha, Hb.
    rewrite <-Hkk in Ha. apply try_map_Ok_Forall2 in Hk.
    apply (streams_elem revs pols k) in Ha, Hb; [|done..].
    unfold stream_le in *. assert (cs_memory_id a = cs_memory_id b) by (by apply (anti_symm String.le)).
    congruence.
  - apply (StronglySorted_merge_sort stream_le).
  - apply (StronglySorted_merge_sort stream_le).
  - by rewrite !merge_sort_Permutation.
Qed.
