(* ===== verification/MigrationManifest.v ===== *)
(** * Migration evidence manifests ([src/src/memory/ledger/migration_manifest.rs])

    The two manifests an offline migration leaves in the ledger, their shape
    checks, and [validate_target_records], which compares the imported logs
    with the manifest.  The loader calls these for every root that carries a
    manifest. *)

From stdpp Require Import base gmap strings list.
From S2P Require Import Prelude Wire MemoryModel LedgerModel LedgerValidate.

Definition SOURCE_SCHEMA : string := "plico.memory.migration-source-manifest/v1".
Definition SOURCE_DOMAIN : string := "plico.memory.migration-source-manifest.v1" +:+ nul.
Definition TARGET_SCHEMA : string := "plico.memory.migration-target-manifest/v1".
Definition TARGET_DOMAIN : string := "plico.memory.migration-target-manifest.v1" +:+ nul.

Record SourceSnapshot := mkSourceSnapshot {
  ss_legacy_agent_id : string;
  ss_legacy_tier : string;
  ss_cid : string;
  ss_object_envelope_hash : string;
  ss_entry_count : Z;
}.

Record RoleMapping := mkRoleMapping {
  rm_legacy_agent_id : string;
  rm_target_role_id : string;
}.

Record GroupMapping := mkGroupMapping {
  gm_legacy_group_id : string;
  gm_target_role_ids : list string;
}.

Record SourceManifest := mkSourceManifest {
  sm_schema : string;
  sm_source_index_hash : string;
  sm_credential_role_cutoff_hash : string;
  sm_lock_created : bool;
  sm_legacy_namespace : option string;
  sm_source_snapshots : list SourceSnapshot;
  sm_source_entry_count : Z;
  sm_source_stream_count : Z;
  sm_source_ttl_field_count : Z;
  sm_source_embedded_vector_count : Z;
  sm_authorized_role_ids_at_cutoff : list string;
  sm_role_mappings : list RoleMapping;
  sm_group_mappings : list GroupMapping;
}.

Inductive ManifestSourceScope : Type :=
  | Source_Private
  | Source_Shared
  | Source_Group (legacy_group_id : string).

Inductive ManifestTargetMode : Type := Target_Private | Target_ExplicitRoleSet.

Record PolicyMapping := mkPolicyMapping {
  pm_effective_from_revision_id : string;
  pm_source_scope : ManifestSourceScope;
  pm_target_mode : ManifestTargetMode;
  pm_audience_cutoff_roles : list string;
}.

Record LegacyCreatedAtMapping := mkLegacyCreatedAt {
  lc_revision_id : string;
  lc_legacy_created_at : Z;
}.

Record StreamMapping := mkStreamMapping {
  sp_legacy_agent_id : string;
  sp_memory_id : string;
  sp_legacy_revision_ids : list string;
  sp_legacy_created_at_by_revision : list LegacyCreatedAtMapping;
  sp_target_head_revision_id : string;
  sp_tombstone_revision_id : option string;
  sp_legacy_deleted_at : option Z;
  sp_policy_mappings : list PolicyMapping;
}.

Record MigrationDispositionCounters := mkDispositions {
  d_importance_values_discarded : Z;
  d_access_statistic_fields_discarded : Z;
  d_ttl_fields_discarded : Z;
  d_embedded_vectors_discarded : Z;
  d_projection_rebuilds_required : Z;
  d_legacy_created_at_fields_discarded : Z;
  d_deleted_heads_converted_to_tombstones : Z;
}.

Record MigrationManifest := mkMigrationManifest {
  mm_schema : string;
  mm_source_manifest_hash : string;
  mm_stream_mappings : list StreamMapping;
  mm_dispositions : MigrationDispositionCounters;
  mm_target_revision_count : Z;
  mm_target_policy_count : Z;
  mm_target_relation_count : Z;
  mm_imported_at : Z;
  mm_imported_by_role : string;
}.

(** ** Helpers *)

Definition is_lower_hash (value : string) : bool :=
  Nat.eqb (String.length value) 64 && all_bytes lower_hex_byte value.

Definition strict_roles (values : list string) : bool :=
  negb (bool_decide (values = [])) && forallb (fun v => negb (blank v)) values &&
  windows2_all String.ltb values.

(** [iter().all(|v| !v.trim().is_empty() && unique.insert(v))] *)
Definition unique_nonempty (values : list string) : bool :=
  forallb (fun v => negb (blank v)) values && bool_decide (NoDup values).

(** [iter().any(|v| !set.insert(v))]: [None] when some insertion fails. *)
Fixpoint insert_all_fresh (set : gset string) (values : list string) : option (gset string) :=
  match values with
  | [] => Some set
  | v :: vs => if decide (v ∈ set) then None else insert_all_fresh ({[v]} ∪ set) vs
  end.

(** Lexicographic [<] on triples of strings. *)
Definition triple_ltb (a b : string * string * string) : bool :=
  let '(a1, a2, a3) := a in
  let '(b1, b2, b3) := b in
  String.ltb a1 b1 ||
  str_eqb a1 b1 && (String.ltb a2 b2 || str_eqb a2 b2 && String.ltb a3 b3).

Definition u64_sum (l : list Z) : Z := foldl u64_add 0%Z l.
Definition opt_any {A} (p : A -> bool) (o : option A) : bool :=
  match o with Some x => p x | None => false end.

(** [iter().max_by_key(key)]: the last element with the largest key. *)
Fixpoint max_by_key {A} (key : A -> Z) (l : list A) : option A :=
  match l with
  | [] => None
  | x :: l' =>
      match max_by_key key l' with
      | None => Some x
      | Some y => if (key x <=? key y)%Z then Some y else Some x
      end
  end.

Section manifest.
Context `{Platform} `{!Serde SourceManifest} `{!Serde MigrationManifest}.

(** ** The source manifest *)

Definition snapshot_bad (snapshot : SourceSnapshot) : bool :=
  blank (ss_legacy_agent_id snapshot)
  || negb (str_mem (ss_legacy_tier snapshot) ["ephemeral"; "working"; "long_term"; "procedural"])
  || negb (is_lower_hash (ss_cid snapshot))
  || negb (is_lower_hash (ss_object_envelope_hash snapshot)).

Definition snapshot_key (s : SourceSnapshot) : string * string * string :=
  (ss_legacy_agent_id s, ss_legacy_tier s, ss_cid s).

Definition source_validate (m : SourceManifest) : result LedgerError unit :=
  reject negb (str_eqb (sm_schema m) SOURCE_SCHEMA)
    || negb (is_lower_hash (sm_source_index_hash m))
    || negb (is_lower_hash (sm_credential_role_cutoff_hash m))
    || negb (strict_roles (sm_authorized_role_ids_at_cutoff m))
    || negb (str_mem PERSONAL_OWNER_ROLE_ID (sm_authorized_role_ids_at_cutoff m))
    || opt_any blank (sm_legacy_namespace m)
    || existsb snapshot_bad (sm_source_snapshots m)
    || negb (windows2_all (fun a b => triple_ltb (snapshot_key a) (snapshot_key b))
               (sm_source_snapshots m))
    || negb (windows2_all (fun a b => String.ltb (rm_legacy_agent_id a) (rm_legacy_agent_id b))
               (sm_role_mappings m))
    || existsb (fun mapping =>
         blank (rm_legacy_agent_id mapping) || blank (rm_target_role_id mapping)
         || negb (str_mem (rm_target_role_id mapping) (sm_authorized_role_ids_at_cutoff m)))
         (sm_role_mappings m)
    || negb (windows2_all (fun a b => String.ltb (gm_legacy_group_id a) (gm_legacy_group_id b))
               (sm_group_mappings m))
    || existsb (fun mapping =>
         blank (gm_legacy_group_id mapping) || negb (strict_roles (gm_target_role_ids mapping))
         || existsb (fun role => negb (str_mem role (sm_authorized_role_ids_at_cutoff m)))
              (gm_target_role_ids mapping))
         (sm_group_mappings m)
    || negb (u64_sum (ss_entry_count <$> sm_source_snapshots m) =? sm_source_entry_count m)%Z
    || (sm_source_entry_count m <? sm_source_stream_count m)%Z
    || negb (Bool.eqb (sm_source_stream_count m =? 0)%Z (sm_source_entry_count m =? 0)%Z)
    || (u64_saturating_mul (sm_source_entry_count m) 2 <? sm_source_ttl_field_count m)%Z
    || (sm_source_entry_count m <? sm_source_embedded_vector_count m)%Z
    || negb (bool_decide
         ((list_to_set (ss_legacy_agent_id <$> sm_source_snapshots m) : gset string) =
          list_to_set (rm_legacy_agent_id <$> sm_role_mappings m)))
    with Invalid "invalid_source_manifest";
  Ok tt.

Definition source_canonical_bytes_and_hash (m : SourceManifest)
    : result LedgerError (bytes * string) :=
  source_validate m ?>> canonical_bytes_and_hash SOURCE_DOMAIN m.

Definition source_verify_hash (m : SourceManifest) (expected : string)
    : result LedgerError unit :=
  actual <-? source_canonical_bytes_and_hash m;
  if str_eqb (snd actual) expected then Ok tt
  else Err (Invalid "source_manifest_hash_mismatch").

(** ** The migration manifest *)

Definition stream_shape_bad (memory_ids : gset string) (s : StreamMapping) : bool :=
  blank (sp_legacy_agent_id s)
  || uuid_is_err (sp_memory_id s)
  || bool_decide (sp_memory_id s ∈ memory_ids)
  || bool_decide (sp_legacy_revision_ids s = [])
  || negb (unique_nonempty (sp_legacy_revision_ids s))
  || uuid_is_err (sp_target_head_revision_id s)
  || opt_any uuid_is_err (sp_tombstone_revision_id s)
  || bool_decide (length (sp_policy_mappings s) = 0)
  || existsb (fun mapping => uuid_is_err (pm_effective_from_revision_id mapping)
                || negb (strict_roles (pm_audience_cutoff_roles mapping)))
       (sp_policy_mappings s).

Definition validate_shape (m : MigrationManifest) : result LedgerError unit :=
  reject negb (str_eqb (mm_schema m) TARGET_SCHEMA)
    || negb (is_lower_hash (mm_source_manifest_hash m))
    || negb (str_eqb (mm_imported_by_role m) PERSONAL_OWNER_ROLE_ID)
    || (mm_imported_at m =? 0)%Z
    || negb (mm_target_relation_count m =? 0)%Z
    with Invalid "invalid_migration_manifest";
  try_for (fun _ memory_ids s =>
             reject stream_shape_bad memory_ids s with Invalid "invalid_migration_manifest";
             Ok ({[sp_memory_id s]} ∪ memory_ids))
    0 (∅ : gset string) (mm_stream_mappings m) ?>> Ok tt.

Definition manifest_canonical_bytes_and_hash (m : MigrationManifest)
    : result LedgerError (bytes * string) :=
  validate_shape m ?>> canonical_bytes_and_hash TARGET_DOMAIN m.

Definition manifest_verify_hash (m : MigrationManifest) (expected : string)
    : result LedgerError unit :=
  actual <-? manifest_canonical_bytes_and_hash m;
  if str_eqb (snd actual) expected then Ok tt
  else Err (Invalid "migration_manifest_hash_mismatch").

(** ** The imported records against the manifest *)

(** The sets and counter the loop over the stream mappings maintains. *)
Record TargetScan := mkTargetScan {
  covered_revisions : gset string;
  covered_policies : gset string;
  legacy_revision_ids : gset string;
  deleted_streams : Z;
}.

(** The loop over [stream.legacy_revision_ids]. *)
Definition legacy_revision_step (m : MigrationManifest) (s : StreamMapping)
    (revisions_by_id : gmap string CanonicalRevision) (position : nat) (_ : unit)
    (legacy_revision_id : string) : result LedgerError unit :=
  revision <-? ok_or (revisions_by_id !! legacy_revision_id)
                 (Invalid "migration_manifest_missing_legacy_revision");
  let expected_parent :=
    match position with
    | O => None
    | S previous => sp_legacy_revision_ids s !! previous
    end in
  reject negb (str_eqb (r_memory_id revision) (sp_memory_id s))
         || is_deleted revision
         || negb (bool_decide (r_parent_revision_id revision = expected_parent))
         || negb (r_committed_at revision =? mm_imported_at m)%Z
         || negb (str_eqb (r_committed_by_role revision) (mm_imported_by_role m))
    with Invalid "migration_manifest_legacy_revision_mismatch";
  Ok tt.

Definition tombstone_check (m : MigrationManifest) (s : StreamMapping)
    (revisions_by_id : gmap string CanonicalRevision) : result LedgerError unit :=
  match sp_tombstone_revision_id s with
  | None => Ok tt
  | Some tombstone_id =>
      tombstone <-? ok_or (revisions_by_id !! tombstone_id)
                      (Invalid "migration_manifest_missing_tombstone");
      reject negb (bool_decide (r_parent_revision_id tombstone = last (sp_legacy_revision_ids s)))
             || negb (r_committed_at tombstone =? mm_imported_at m)%Z
             || negb (str_eqb (r_committed_by_role tombstone) (mm_imported_by_role m))
        with Invalid "migration_manifest_tombstone_mismatch";
      Ok tt
  end.

Definition head_check (s : StreamMapping) (revisions_by_id : gmap string CanonicalRevision)
    (stream_revisions : list CanonicalRevision) : result LedgerError unit :=
  head <-? ok_or (revisions_by_id !! sp_target_head_revision_id s)
             (Invalid "migration_manifest_missing_head");
  actual_head <-? ok_or (max_by_key r_sequence stream_revisions)
                    (Invalid "migration_manifest_empty_stream");
  reject negb (str_eqb (r_memory_id head) (sp_memory_id s))
    with Invalid "migration_manifest_stream_mismatch";
  reject negb (str_eqb (r_revision_id actual_head) (r_revision_id head))
         || negb (Bool.eqb (bool_decide (is_Some (sp_tombstone_revision_id s))) (is_deleted head))
         || opt_any (fun id => negb (str_eqb id (r_revision_id head))) (sp_tombstone_revision_id s)
         || negb (Nat.eqb (length (sp_legacy_created_at_by_revision s))
                          (length (sp_legacy_revision_ids s)))
         || existsb (fun '(created, revision_id) => negb (str_eqb (lc_revision_id created) revision_id))
              (zip (sp_legacy_created_at_by_revision s) (sp_legacy_revision_ids s))
    with Invalid "migration_manifest_disposition_mismatch";
  Ok tt.

Definition expected_mode (t : ManifestTargetMode) : PolicyMode :=
  match t with
  | Target_Private => Mode_Private
  | Target_ExplicitRoleSet => Mode_ExplicitRoleSet
  end.

Definition scope_mode_matches (scope : ManifestSourceScope) (mode : ManifestTargetMode) : bool :=
  match scope, mode with
  | Source_Private, Target_Private => true
  | (Source_Shared | Source_Group _), Target_ExplicitRoleSet => true
  | _, _ => false
  end.

Definition expected_readers (source : SourceManifest) (private_roles : list string)
    (scope : ManifestSourceScope) : result LedgerError (list string) :=
  match scope with
  | Source_Private => Ok private_roles
  | Source_Shared => Ok (sm_authorized_role_ids_at_cutoff source)
  | Source_Group legacy_group_id =>
      group <-? ok_or (List.find (fun g => str_eqb (gm_legacy_group_id g) legacy_group_id)
                         (sm_group_mappings source))
                  (Invalid "migration_manifest_unknown_group");
      Ok (sorted_roles (gm_target_role_ids group ++ private_roles))
  end.

(** The loop over [stream.policy_mappings]; the state is [covered_policies]. *)
Definition policy_mapping_step (m : MigrationManifest) (source : SourceManifest)
    (policies : list PolicyRecord) (s : StreamMapping) (mapped_origin_role : string)
    (_ : nat) (covered : gset string) (mapping : PolicyMapping)
    : result LedgerError (gset string) :=
  policy <-? ok_or (List.find (fun p => str_eqb (p_memory_id p) (sp_memory_id s)
                       && str_eqb (p_effective_from_revision_id p)
                                  (pm_effective_from_revision_id mapping)) policies)
               (Invalid "migration_manifest_missing_policy");
  reject bool_decide (p_policy_id policy ∈ covered)
    with Invalid "migration_manifest_policy_bijection_mismatch";
  let private_roles := origin_roles_of (p_origin_role_id policy) in
  (readers <-? expected_readers source private_roles (pm_source_scope mapping);
   reject negb (scope_mode_matches (pm_source_scope mapping) (pm_target_mode mapping))
          || negb (str_eqb (p_origin_role_id policy) mapped_origin_role)
          || negb (bool_decide (p_mode policy = expected_mode (pm_target_mode mapping)))
          || negb (bool_decide (p_reader_roles policy = pm_audience_cutoff_roles mapping))
          || negb (bool_decide (pm_audience_cutoff_roles mapping = readers))
          || negb (bool_decide (p_writer_roles policy = private_roles))
     with Invalid "migration_manifest_policy_mismatch";
   reject negb (p_committed_at policy =? mm_imported_at m)%Z
          || negb (str_eqb (p_committed_by_role policy) (mm_imported_by_role m))
     with Invalid "migration_manifest_policy_commit_mismatch";
   Ok ({[p_policy_id policy]} ∪ covered)).

(** One iteration of the loop over [self.stream_mappings]. *)
Definition stream_mapping_step (m : MigrationManifest) (source : SourceManifest)
    (revisions : list CanonicalRevision) (policies : list PolicyRecord)
    (_ : nat) (st : TargetScan) (s : StreamMapping) : result LedgerError TargetScan :=
  let revisions_by_id := index_by r_revision_id revisions in
  reject negb (existsb (fun snapshot => str_eqb (ss_legacy_agent_id snapshot)
                                          (sp_legacy_agent_id s)) (sm_source_snapshots source))
    with Invalid "migration_manifest_unknown_legacy_agent";
  (mapping <-? ok_or (List.find (fun mp => str_eqb (rm_legacy_agent_id mp)
                                             (sp_legacy_agent_id s)) (sm_role_mappings source))
                 (Invalid "migration_manifest_missing_origin_mapping");
   legacy <-? ok_or (insert_all_fresh (legacy_revision_ids st) (sp_legacy_revision_ids s))
                (Invalid "migration_manifest_duplicate_legacy_revision");
   let stream_revisions :=
     List.filter (fun r => str_eqb (r_memory_id r) (sp_memory_id s)) revisions in
   reject negb (Nat.eqb (length stream_revisions)
                 (length (sp_legacy_revision_ids s)
                  + (if bool_decide (is_Some (sp_tombstone_revision_id s)) then 1 else 0)))
     with Invalid "migration_manifest_revision_bijection_mismatch";
   (covered <-? ok_or (insert_all_fresh (covered_revisions st) (r_revision_id <$> stream_revisions))
                  (Invalid "migration_manifest_revision_bijection_mismatch");
    try_for (legacy_revision_step m s revisions_by_id) 0 tt (sp_legacy_revision_ids s) ?>>
    tombstone_check m s revisions_by_id ?>>
    head_check s revisions_by_id stream_revisions ?>>
    reject negb (Nat.eqb
             (length (List.filter (fun p => str_eqb (p_memory_id p) (sp_memory_id s)) policies))
             (length (sp_policy_mappings s)))
      with Invalid "migration_manifest_policy_bijection_mismatch";
    (covered_p <-? try_for (policy_mapping_step m source policies s (rm_target_role_id mapping))
                     0 (covered_policies st) (sp_policy_mappings s);
     Ok {| covered_revisions := covered;
           covered_policies := covered_p;
           legacy_revision_ids := legacy;
           deleted_streams := deleted_streams st
             + (if bool_decide (is_Some (sp_tombstone_revision_id s)) then 1 else 0) |}))).

Definition empty_target_scan : TargetScan := {|
  covered_revisions := ∅; covered_policies := ∅; legacy_revision_ids := ∅;
  deleted_streams := 0 |}.

Definition dispositions_bad (m : MigrationManifest) (source : SourceManifest)
    (revisions : list CanonicalRevision) (policies : list PolicyRecord) (st : TargetScan) : bool :=
  let d := mm_dispositions m in
  let entries := sm_source_entry_count source in
  negb (Nat.eqb (size (covered_revisions st)) (length revisions))
  || negb (Nat.eqb (size (covered_policies st)) (length policies))
  || negb (Z.of_nat (size (legacy_revision_ids st)) =? entries)%Z
  || negb (d_importance_values_discarded d =? entries)%Z
  || negb (d_access_statistic_fields_discarded d =? u64_saturating_mul entries 2)%Z
  || negb (d_legacy_created_at_fields_discarded d =? entries)%Z
  || negb (d_deleted_heads_converted_to_tombstones d =? deleted_streams st)%Z
  || negb (d_projection_rebuilds_required d
           =? u64_saturating_sub (sm_source_stream_count source) (deleted_streams st))%Z
  || negb (d_ttl_fields_discarded d =? sm_source_ttl_field_count source)%Z
  || negb (d_embedded_vectors_discarded d =? sm_source_embedded_vector_count source)%Z
  || negb (mm_target_revision_count m =? u64_saturating_add entries (deleted_streams st))%Z
  || negb (mm_target_policy_count m
           =? u64_sum ((fun s => Z.of_nat (length (sp_policy_mappings s))) <$> mm_stream_mappings m))%Z
  || negb (bool_decide ((list_to_set (r_memory_id <$> revisions) : gset string) =
                        list_to_set (sp_memory_id <$> mm_stream_mappings m))).

Definition validate_target_records (m : MigrationManifest) (source : SourceManifest)
    (revisions : list CanonicalRevision) (policies : list PolicyRecord) (relation_count : nat)
    : result LedgerError unit :=
  reject negb (Z.of_nat (length (mm_stream_mappings m)) =? sm_source_stream_count source)%Z
         || negb (mm_target_revision_count m =? Z.of_nat (length revisions))%Z
         || negb (mm_target_policy_count m =? Z.of_nat (length policies))%Z
         || negb (mm_target_relation_count m =? Z.of_nat relation_count)%Z
    with Invalid "migration_manifest_count_mismatch";
  (st <-? try_for (stream_mapping_step m source revisions policies) 0 empty_target_scan
            (mm_stream_mappings m);
   reject dispositions_bad m source revisions policies st
     with Invalid "migration_manifest_disposition_count_mismatch";
   Ok tt).
End manifest.
