(* ===== verification/LedgerStorage.v ===== *)
(** * The immutable object storage of a ledger ([src/src/cas/ledger_store.rs])

    A ledger directory holds content-named object files and two pointer slots,
    [active] and [candidate], exchanged by an atomic rename.  Every write may
    fail, and the process may end in the middle of it; the outcome is an argument
    of the operation. *)

From stdpp Require Import base gmap strings list sorting.
From S2P Require Import Prelude Wire MemoryModel LedgerModel.

Section storage.
Context `{Platform}.

(** The files of [roots/], created one after the other; a slot is [None] while
    its file is still empty. *)
Inductive Slots : Type :=
  | Slots_None
  | Slots_ActiveOnly
  | Slots_Both (active candidate : option bytes).

(** [objects] maps the files of [objects/] that are in place to their contents;
    [temporaries] are the temporary files left beside them. *)
Record ImmutableLedgerStorage := mkStorage {
  objects : gmap string bytes;
  temporaries : list string;
  slots : Slots;
}.

Definition active (st : ImmutableLedgerStorage) : option bytes :=
  match slots st with Slots_Both a _ => a | _ => None end.
Definition candidate (st : ImmutableLedgerStorage) : option bytes :=
  match slots st with Slots_Both _ c => c | _ => None end.

(** How creating the slots ends: both are there, or an operation fails, or the
    process ends, before the first, between them, or after the second. *)
Inductive OpenOutcome : Type :=
  | Open_Done
  | Open_FailsBefore (e : IoError)
  | Open_FailsBetween (e : IoError)
  | Open_FailsAfter (e : IoError).

(** [open_immutable_ledger] of a namespace no one has claimed; both slots or
    none must be there. *)
Definition open_immutable_ledger (o : OpenOutcome) (st : ImmutableLedgerStorage)
    : result IoError unit * ImmutableLedgerStorage :=
  let created := mkStorage (objects st) (temporaries st) in
  match slots st with
  | Slots_None =>
      match o with
      | Open_Done => (Ok tt, created (Slots_Both None None))
      | Open_FailsBefore e => (Err e, st)
      | Open_FailsBetween e => (Err e, created Slots_ActiveOnly)
      | Open_FailsAfter e => (Err e, created (Slots_Both None None))
      end
  | Slots_Both _ _ => (Ok tt, st)
  | Slots_ActiveOnly => (Err IoInvalidData, st)
  end.

(** How the file operations of one [put_immutable] end: all succeed, one fails
    before the object file is in place, or one fails after it is; or the process
    ends before the temporary file, whose name is random, gets its final name. *)
Inductive PutOutcome : Type :=
  | Put_Done
  | Put_FailsBefore (e : IoError)
  | Put_FailsAfter (e : IoError)
  | Put_Interrupted (random : string).

(** The same for [publish_active]: the candidate slot is replaced, then the two
    slots are exchanged, then the directory is synced. *)
Inductive PublishOutcome : Type :=
  | Publish_Done
  | Publish_FailsBeforeCandidate (e : IoError)
  | Publish_FailsBeforeExchange (e : IoError)
  | Publish_FailsAfterExchange (e : IoError).

Inductive LedgerStorageError : Type :=
  | StorageIo (e : IoError)
  | PublishedButUnsynced (e : IoError).

Definition validate_hash (hash : string) : result IoError unit :=
  if Nat.eqb (String.length hash) 64 && all_bytes lower_hex_byte hash
  then Ok tt else Err IoInvalidInput.

Definition put_immutable (o : PutOutcome) (st : ImmutableLedgerStorage)
    (hash : string) (b : bytes) : result IoError unit * ImmutableLedgerStorage :=
  match validate_hash hash with
  | Err e => (Err e, st)
  | Ok _ =>
      match objects st !! hash with
      | Some b' =>
          match o with
          | Put_FailsBefore e => (Err e, st)
          | _ => if decide (b' = b) then (Ok tt, st) else (Err IoInvalidData, st)
          end
      | None =>
          let st' := mkStorage (<[hash := b]> (objects st)) (temporaries st) (slots st) in
          match o with
          | Put_Done => (Ok tt, st')
          | Put_FailsBefore e => (Err e, st)
          | Put_FailsAfter e => (Err e, st')
          | Put_Interrupted random =>
              (Err IoOther, mkStorage (objects st) ((".tmp" +:+ random) :: temporaries st) (slots st))
          end
      end
  end.

Definition get_immutable (st : ImmutableLedgerStorage) (hash : string) : result IoError bytes :=
  validate_hash hash ?>> ok_or (objects st !! hash) IoNotFound.

(** [(!bytes.is_empty()).then_some(bytes)] *)
Definition read_active (st : ImmutableLedgerStorage) : option bytes :=
  match active st with
  | Some b => if str_eqb (octets b) "" then None else Some b
  | None => None
  end.

Definition list_immutable_hashes (st : ImmutableLedgerStorage) : result IoError (list string) :=
  let hashes := temporaries st ++ (map_to_list (objects st)).*1 in
  try_map validate_hash hashes ?>> Ok (sort_strings hashes).

Definition publish_active (o : PublishOutcome) (st : ImmutableLedgerStorage) (b : bytes)
    : result LedgerStorageError unit * ImmutableLedgerStorage :=
  match slots st with
  | Slots_Both active _ =>
      let written := mkStorage (objects st) (temporaries st) (Slots_Both active (Some b)) in
      let exchanged := mkStorage (objects st) (temporaries st) (Slots_Both (Some b) active) in
      match o with
      | Publish_Done => (Ok tt, exchanged)
      | Publish_FailsBeforeCandidate e => (Err (StorageIo e), st)
      | Publish_FailsBeforeExchange e => (Err (StorageIo e), written)
      | Publish_FailsAfterExchange e => (Err (PublishedButUnsynced e), exchanged)
      end
  | _ => (Err (StorageIo IoNotFound), st)
  end.

(** A run of [put_immutable] calls chained by [?]; missing outcomes succeed. *)
Fixpoint put_all (os : list PutOutcome) (st : ImmutableLedgerStorage)
    (objs : list (string * bytes)) : result IoError unit * ImmutableLedgerStorage :=
  match objs with
  | [] => (Ok tt, st)
  | (hash, b) :: objs' =>
      match put_immutable (default Put_Done (head os)) st hash b with
      | (Err e, st') => (Err e, st')
      | (Ok _, st') => put_all (tail os) st' objs'
      end
  end.

(** ** Growth of the object store *)

(** [st'] keeps every object of [st]. *)
Definition grows (st st' : ImmutableLedgerStorage) : Prop := objects st ⊆ objects st'.

#[export] Instance grows_preorder : PreOrder grows.
Proof. split; unfold grows; [intros st|intros a b c]; [done|apply transitivity]. Qed.

Lemma put_immutable_grows o st h b r st' :
  put_immutable o st h b = (r, st') -> grows st st' /\ slots st' = slots st.
Proof.
  unfold put_immutable, grows. intros Hp.
  repeat case_match; simplify_eq/=; split; try done; by apply insert_subseteq.
Qed.

Lemma put_immutable_effect o st h b r st' :
  put_immutable o st h b = (r, st') ->
  (objects st' = objects st \/ objects st' = <[h := b]> (objects st)) /\
  (temporaries st' = temporaries st \/ exists random, temporaries st' = (".tmp" +:+ random) :: temporaries st).
Proof.
  unfold put_immutable. intros Hp. destruct (validate_hash h); [|by simplify_eq; auto].
  destruct (objects st !! h), o; repeat case_match; simplify_eq/=; eauto.
Qed.

Lemma put_immutable_stored o st h b st' :
  put_immutable o st h b = (Ok tt, st') ->
  validate_hash h = Ok tt /\ objects st' !! h = Some b.
Proof.
  unfold put_immutable. intros Hp.
  destruct (validate_hash h) as [[]|]; [|done].
  repeat case_match; simplify_eq/=; by rewrite ?lookup_insert_eq.
Qed.

Lemma put_all_slots os st objs r st' :
  put_all os st objs = (r, st') -> grows st st' /\ slots st' = slots st.
Proof.
  revert os st. induction objs as [|[h b] objs IH]; intros os st Hp; simplify_eq/=; [done|].
  destruct (put_immutable _ st h b) as [[]  st1] eqn:Hput;
    apply put_immutable_grows in Hput as [Hg Ha]; [|by simplify_eq].
  apply IH in Hp as [Hg' Ha']. split; [by etrans|congruence].
Qed.
Lemma put_all_grows os st objs r st' :
  put_all os st objs = (r, st') -> grows st st' /\ active st' = active st.
Proof. intros [Hg Hs]%put_all_slots. split; [done|]. unfold active. by rewrite Hs. Qed.

Lemma get_immutable_grows st st' h b :
  grows st st' -> get_immutable st h = Ok b -> get_immutable st' h = Ok b.
Proof.
  unfold get_immutable, ok_or. intros Hg Hb. ok_inv Hb. subst.
  by rewrite (lookup_weaken _ _ _ _ Heqo Hg).
Qed.

(** After a successful run every object is stored under its hash. *)
Lemma put_all_stored os st objs st' h b :
  put_all os st objs = (Ok tt, st') -> (h, b) ∈ objs -> get_immutable st' h = Ok b.
Proof.
  revert os st. induction objs as [|[h0 b0] objs IH]; intros os st Hp Hin;
    [by apply elem_of_nil in Hin|]. simpl in Hp.
  destruct (put_immutable _ st h0 b0) as [[[]|] st1] eqn:Hput; [|done].
  apply elem_of_cons in Hin as [[= -> ->]|Hin]; [|by eapply IH].
  apply put_immutable_stored in Hput as [Hv Hl].
  apply put_all_grows in Hp as [Hg _]. apply (get_immutable_grows st1); [done|].
  unfold get_immutable. by rewrite Hv, Hl.
Qed.

(** A pointer publication changes only the slots, and the active slot only when
    the exchange took place. *)
Lemma publish_active_spec o st b r st' :
  publish_active o st b = (r, st') ->
  objects st' = objects st /\ temporaries st' = temporaries st /\
  match r with
  | Ok _ | Err (PublishedButUnsynced _) => active st' = Some b
  | Err (StorageIo _) => active st' = active st
  end.
Proof.
  unfold publish_active, active. intros Hp. destruct (slots st) as [| |a ca] eqn:Hs; [|by simplify_eq/=; rewrite Hs..|].
  all: destruct o; simplify_eq/=; rewrite ?Hs; done.
Qed.

(** A name that is not a hash makes the listing fail. *)
Lemma listing_refuses_temporary st name :
  name ∈ temporaries st -> validate_hash name = Err IoInvalidInput -> list_immutable_hashes st = Err IoInvalidInput.
Proof.
  intros Hin Hn. unfold list_immutable_hashes. destruct (try_map validate_hash _) as [us|e] eqn:Ht.
  - apply try_map_Ok_Forall2 in Ht. exfalso.
    assert (name ∈ temporaries st ++ (map_to_list (objects st)).*1) as (i & Hi)%list_elem_of_lookup by set_solver.
    destruct (Forall2_lookup_l _ _ _ _ _ Ht Hi) as (u & _ & Hu). congruence.
  - apply try_map_Err in Ht as (x & _ & Hx). cbn. unfold validate_hash in Hx. by destruct (_ && _); simplify_eq.
Qed.
Lemma temporary_not_hash random : validate_hash (".tmp" +:+ random) = Err IoInvalidInput.
Proof. unfold validate_hash. cbn. by rewrite andb_false_r. Qed.
End storage.
