(* ===== verification/ProjectionModel.v ===== *)
(** * Projection manifest records ([src/src/memory/projection/model.rs])

    The data types of the embedding-projection manifest: builder
    specifications, artifact descriptors, the projection state machine, the
    manifest events and the materialised view. *)

From stdpp Require Import base gmap strings list.
From S2P Require Import Prelude Wire MemoryModel LedgerModel.

Definition BUILDER_SPEC_SCHEMA : string := "plico.projection.builder-spec/v1".
Definition MANIFEST_RECORD_SCHEMA : string := "plico.projection.manifest-record/v1".
Definition MANIFEST_SEGMENT_SCHEMA : string := "plico.projection.manifest-segment/v1".
Definition MANIFEST_ROOT_SCHEMA : string := "plico.projection.manifest-root/v1".
Definition PROJECTION_VIEW_SCHEMA : string := "plico.projection.current-view/v1".
Definition EMBEDDING_ARTIFACT_SCHEMA : string := "plico.projection.embedding-artifact/v1".
Definition MAX_EMBEDDING_DIMENSION : Z := 65536.
Definition MAX_EMBEDDING_ARTIFACT_BYTES : Z := 8 * 1024 * 1024.

Inductive ProjectionKind : Type := MemoryEmbedding.
Inductive EmbeddingInputContract : Type := MemoryTextUtf8V1.
Inductive EmbeddingOperationContract : Type := DocumentV1.
Inductive EmbeddingNormalization : Type := ProviderNative | L2AfterMatryoshkaTruncationV1.

Record CanonicalSourceIdentity := mkSource {
  src_canonical_kind : string;
  src_memory_id : MemoryId;
  src_revision_id : MemoryRevisionId;
  src_revision_sequence : Z;
  src_content_hash : CanonicalContentHash;
}.

Record CanonicalWatermark := mkWatermark {
  wm_root_hash : string;
  wm_generation : Z;
  wm_revision_watermark : Z;
  wm_policy_watermark : Z;
  wm_relation_watermark : Z;
}.

Record BuilderSpec := mkBuilderSpec {
  bs_schema : string;
  bs_projection_kind : ProjectionKind;
  bs_builder_id : string;
  bs_builder_version : string;
  bs_provider_family : string;
  bs_provider_compatibility_id : string;
  bs_model_id : string;
  bs_raw_dimension : Z;
  bs_dimension : Z;
  bs_input_contract : EmbeddingInputContract;
  bs_operation_contract : EmbeddingOperationContract;
  bs_normalization : EmbeddingNormalization;
  bs_transform_contract_id : string;
  bs_artifact_schema : string;
}.

Record ArtifactDescriptor := mkDescriptor {
  ad_artifact_hash : string;
  ad_byte_length : Z;
  ad_artifact_schema : string;
  ad_dimension : Z;
  ad_source_revision_id : MemoryRevisionId;
  ad_source_content_hash : CanonicalContentHash;
  ad_builder_spec_hash : string;
}.

Inductive AbsentReason : Type :=
  | Absent_Superseded | Absent_Deleted | Absent_UnsupportedTier
  | Absent_UnsupportedContent | Absent_BlankText.

Inductive QueueReason : Type :=
  | Queue_CanonicalCommit | Queue_Reconciliation | Queue_Retry
  | Queue_OwnerRebuild | Queue_BuilderChanged | Queue_LeaseExpired.

Inductive StaleReason : Type :=
  | Stale_BuilderSpecChanged | Stale_ArtifactMissing | Stale_ArtifactHashMismatch
  | Stale_ArtifactInvalid | Stale_OwnerRebuild.

Inductive FailureCategory : Type :=
  | Failure_ProviderUnavailable | Failure_ProviderIdentityChanged
  | Failure_InvalidProjection | Failure_ArtifactStoreUnavailable.

(** UUIDs are their 128-bit values. *)
Inductive ProjectionState : Type :=
  | AbsentByPolicy (reason : AbsentReason)
  | Queued (reason : QueueReason)
  | Building (attempt : Z) (attempt_id : N) (lease_expires_at : Z)
  | Ready (attempt : Z) (attempt_id : N) (artifact : ArtifactDescriptor)
  | Failed (attempt : Z) (attempt_id : N) (failure_category : FailureCategory)
           (retryable : bool) (retry_not_before : option Z)
  | Stale (reason : StaleReason) (artifact : ArtifactDescriptor).

Inductive ManifestEvent : Type :=
  | BuilderActivated (projection_kind : ProjectionKind) (builder_spec : BuilderSpec)
      (builder_spec_hash : string) (previous_builder_spec_hash : option string)
  | ProjectionTransition (projection_id : N) (projection_kind : ProjectionKind)
      (projection_version : Z) (previous_sequence : option Z)
      (source : CanonicalSourceIdentity) (desired_builder_spec_hash : string)
      (state : ProjectionState)
  | ReconciliationAdvanced (previous_source reconciled_source : CanonicalWatermark)
      (classified_revision_count : Z).

Record ManifestRecord := mkManifestRecord {
  mr_schema : string;
  mr_sequence : Z;
  mr_committed_at : Z;
  mr_committed_by_role : string;
  mr_event : ManifestEvent;
}.

Record ProjectionEntry := mkProjectionEntry {
  pe_projection_id : N;
  pe_projection_kind : ProjectionKind;
  pe_projection_version : Z;
  pe_last_transition_sequence : Z;
  pe_attempt_count : Z;
  pe_source : CanonicalSourceIdentity;
  pe_desired_builder_spec_hash : string;
  pe_state : ProjectionState;
}.

Record ActiveBuilderSpec := mkActiveBuilder {
  ab_projection_kind : ProjectionKind;
  ab_builder_spec_hash : string;
  ab_builder_spec : BuilderSpec;
}.

Record ProjectionCurrentView := mkProjectionView {
  pv_schema : string;
  pv_generation : Z;
  pv_event_watermark : Z;
  pv_reconciled_source : CanonicalWatermark;
  pv_active_builder_specs : list ActiveBuilderSpec;
  pv_entries : list ProjectionEntry;
}.

#[export] Instance ProjectionKind_eq_dec : EqDecision ProjectionKind.
Proof. solve_decision. Defined.
#[export] Instance EmbeddingInputContract_eq_dec : EqDecision EmbeddingInputContract.
Proof. solve_decision. Defined.
#[export] Instance EmbeddingOperationContract_eq_dec : EqDecision EmbeddingOperationContract.
Proof. solve_decision. Defined.
#[export] Instance EmbeddingNormalization_eq_dec : EqDecision EmbeddingNormalization.
Proof. solve_decision. Defined.
#[export] Instance CanonicalSourceIdentity_eq_dec : EqDecision CanonicalSourceIdentity.
Proof. solve_decision. Defined.
#[export] Instance CanonicalWatermark_eq_dec : EqDecision CanonicalWatermark.
Proof. solve_decision. Defined.
#[export] Instance ArtifactDescriptor_eq_dec : EqDecision ArtifactDescriptor.
Proof. solve_decision. Defined.
#[export] Instance QueueReason_eq_dec : EqDecision QueueReason.
Proof. solve_decision. Defined.

Inductive ProjectionError : Type :=
  (** [ErrorKind::PermissionDenied], or another kind. *)
  | P_Io (permission_denied : bool)
  | P_Serialization
  | P_Invalid (category : string)
  | P_UnsupportedFormat (component : string)
  | P_AllEligibleRequired
  | P_HeadConflict
  | P_CommitIndeterminate
  | P_WriterPoisoned
  | P_ArtifactRepairRequired (count : nat)
  | P_ArtifactMaintenanceRequired
  | P_ProjectionMaintenanceRequired
  | P_ResetPending
  | P_ManualInterventionRequired
  | P_ArtifactStoreUnavailable.

Definition invalid (category : string) : ProjectionError := P_Invalid category.
