(* ===== verification/LedgerStore.v ===== *)
(** * The canonical ledger store ([src/src/memory/ledger/store.rs])

    Loading a ledger from its storage with every historical root re-validated,
    committing revisions under expected heads, and the read operations.  Locks
    serialise the operations, so each is a function of the ledger state; the
    clock, the fresh policy identifiers and the outcome of each file operation
    are arguments. *)

From stdpp Require Import base gmap strings list sorting.
From S2P Require Import Prelude Wire MemoryModel LedgerModel LedgerValidate LedgerView.
From S2P Require Import MigrationManifest LedgerStorage ProjectionModel.

(** The document types of the ledger. *)
Class LedgerCodec `{Platform} := {
  lc_json :: Serde Json;
  lc_content :: Serde MemoryContent;
  lc_revision_segment :: Serde (Segment CanonicalRevision);
  lc_policy_segment :: Serde (Segment PolicyRecord);
  lc_relation_segment :: Serde (Segment RelationRecord);
  lc_root :: Serde LedgerRoot;
  lc_view :: Serde CurrentView;
  lc_pointer :: Serde ActivePointer;
  lc_source_manifest :: Serde SourceManifest;
  lc_migration_manifest :: Serde MigrationManifest;
}.

Record LedgerState := mkState {
  ls_poisoned : bool;
  ls_root_hash : option string;
  ls_root : option LedgerRoot;
  ls_view : option CurrentView;
  ls_revisions : list CanonicalRevision;
  ls_policies : list PolicyRecord;
  ls_relations : list RelationRecord;
}.

Definition LOCAL_OWNER_ROLE : string := "personal-owner".

Definition segment_schema (kind : LogKind) : string :=
  match kind with
  | Log_Revision => REVISION_SEGMENT_SCHEMA
  | Log_Policy => POLICY_SEGMENT_SCHEMA
  | Log_Relation => RELATION_SEGMENT_SCHEMA
  end.

Definition private_roles (role_id : string) : list string :=
  if str_eqb role_id LOCAL_OWNER_ROLE then [role_id]
  else sort_strings [role_id; LOCAL_OWNER_ROLE].

Section store.
Context `{LedgerCodec}.

(** ** Reading objects *)

Definition io_err {A} (r : result IoError A) : result LedgerError A := map_err Io r.

Definition read_hashed_object {T} `{!Serde T} (st : ImmutableLedgerStorage) (hash : string)
    : result LedgerError T :=
  b <-? io_err (get_immutable st hash);
  value <-? ok_or (from_slice b) Serialization;
  canonical <-? jcs value;
  reject negb (bool_decide (b = canonical)) with Invalid "non_canonical_object_bytes";
  Ok value.

(** Upper bound on the number of distinct objects a walk can visit. *)
Definition walk_fuel (st : ImmutableLedgerStorage) : nat := S (size (objects st)).

(** [while let Some(hash) = next { .. }] of [load_segment_chain]; [acc] is the
    vector of segments already reversed. *)
Fixpoint walk_segments {T} `{!Serde (Segment T)} (fuel : nat) (st : ImmutableLedgerStorage)
    (schema : string) (next : option string) (seen : gset string) (acc : list (Segment T))
    : result LedgerError (list (Segment T)) :=
  match next with
  | None => Ok acc
  | Some hash =>
      match fuel with
      | O => Err (Invalid "segment_cycle")
      | S fuel' =>
          reject bool_decide (hash ∈ seen) with Invalid "segment_cycle";
          (segment <-? read_hashed_object st hash;
           verify_segment_hash segment hash ?>>
           reject negb (str_eqb (seg_schema segment) schema)
                  || Nat.eqb (length (seg_records segment)) 0
             with Invalid "invalid_segment";
           walk_segments fuel' st schema (seg_previous_segment_hash segment)
             ({[hash]} ∪ seen) (segment :: acc))
      end
  end.

(** [for segment in segments { .. }]: the records and the next sequence. *)
Definition concat_segment_step {T} (_ : nat) (s : list T * Z) (segment : Segment T)
    : result LedgerError (list T * Z) :=
  let '(records, expected_sequence) := s in
  reject negb (seg_first_sequence segment =? expected_sequence)%Z
         || negb (seg_last_sequence segment
                  =? seg_first_sequence segment + Z.of_nat (length (seg_records segment)) - 1)%Z
    with Invalid "non_contiguous_segment_sequence";
  Ok (records ++ seg_records segment, seg_last_sequence segment + 1)%Z.

Definition load_segment_chain {T} `{!Serde (Segment T)} (st : ImmutableLedgerStorage)
    (kind : LogKind) (head : option string) (watermark : Z) : result LedgerError (list T) :=
  if (watermark =? 0)%Z then
    reject opt_is_some head with Invalid "empty_log_has_segment"; Ok []
  else
    segments <-? walk_segments (walk_fuel st) st (segment_schema kind) head ∅ [];
    s <-? try_for concat_segment_step 0 ([], 1%Z) segments;
    reject negb (Z.of_nat (length (fst s)) =? watermark)%Z
      with Invalid "log_head_sequence_mismatch";
    Ok (fst s).

Definition load_revisions (st : ImmutableLedgerStorage) (root : LedgerRoot)
    : result LedgerError (list CanonicalRevision) :=
  load_segment_chain st Log_Revision (root_revision_head root) (root_revision_watermark root).
Definition load_policies (st : ImmutableLedgerStorage) (root : LedgerRoot)
    : result LedgerError (list PolicyRecord) :=
  load_segment_chain st Log_Policy (root_policy_head root) (root_policy_watermark root).
Definition load_relations (st : ImmutableLedgerStorage) (root : LedgerRoot)
    : result LedgerError (list RelationRecord) :=
  load_segment_chain st Log_Relation (root_relation_head root) (root_relation_watermark root).

Definition relation_bad (revisions : list CanonicalRevision) (offset : nat)
    (record : RelationRecord) : bool :=
  negb (str_eqb (rel_schema record) RELATION_SCHEMA)
  || negb (rel_sequence record =? Z.of_nat offset + 1)%Z
  || uuid_is_err (rel_relation_id record)
  || negb (str_mem (rel_subject_revision_id record) (r_revision_id <$> revisions))
  || negb (str_mem (rel_object_revision_id record) (r_revision_id <$> revisions))
  || str_eqb (rel_subject_revision_id record) (rel_object_revision_id record)
  || negb (str_eqb (rel_predicate record) "caused_by")
  || negb (str_eqb (rel_epistemic_state record) "imported_unverified")
  || blank (rel_provenance_manifest_id record).

Definition validate_relations (records : list RelationRecord)
    (revisions : list CanonicalRevision) : result LedgerError unit :=
  try_for (fun offset (_ : unit) record =>
             reject relation_bad revisions offset record with Invalid "invalid_relation_record";
             Ok tt) 0 tt records.

Definition verify_migration_manifest_objects (st : ImmutableLedgerStorage)
    (manifest_hash : option string) : result LedgerError unit :=
  match manifest_hash with
  | None => Ok tt
  | Some manifest_hash =>
      manifest <-? read_hashed_object st manifest_hash;
      manifest_verify_hash manifest manifest_hash ?>>
      (source <-? read_hashed_object st (mm_source_manifest_hash manifest);
       source_verify_hash source (mm_source_manifest_hash manifest))
  end.

(** The comparison of a stored view with the rebuilt one. *)
Definition view_matches (view rebuilt : CurrentView) (root : LedgerRoot) (cat : string)
    : result LedgerError unit :=
  view_bytes <-? jcs view;
  rebuilt_bytes <-? jcs rebuilt;
  reject negb (str_eqb (v_schema view) CURRENT_VIEW_SCHEMA)
         || negb (v_generation view =? root_generation root)%Z
         || negb (v_revision_watermark view =? root_revision_watermark root)%Z
         || negb (v_policy_watermark view =? root_policy_watermark root)%Z
         || negb (v_relation_watermark view =? root_relation_watermark root)%Z
         || negb (bool_decide (view_bytes = rebuilt_bytes))
    with Invalid cat;
  Ok tt.

Definition validate_root_snapshot (st : ImmutableLedgerStorage) (root : LedgerRoot)
    : result LedgerError unit :=
  view <-? read_hashed_object st (root_current_view_hash root);
  verify_view_hash view (root_current_view_hash root) ?>>
  (revisions <-? load_revisions st root;
   policies <-? load_policies st root;
   relations <-? load_relations st root;
   validate_revisions revisions ?>>
   validate_policies policies revisions ?>>
   validate_relations relations revisions ?>>
   verify_migration_manifest_objects st (root_migration_manifest_hash root) ?>>
   (rebuilt <-? rebuild_current_view (root_generation root) revisions policies
                  (root_relation_watermark root);
    view_matches view rebuilt root "historical_root_view_mismatch")).

Definition validate_migration_boundary (st : ImmutableLedgerStorage) (root : LedgerRoot)
    : result LedgerError unit :=
  manifest_hash <-? ok_or (root_migration_manifest_hash root) (Invalid "missing_migration_manifest");
  manifest <-? read_hashed_object st manifest_hash;
  manifest_verify_hash manifest manifest_hash ?>>
  (source <-? read_hashed_object st (mm_source_manifest_hash manifest);
   source_verify_hash source (mm_source_manifest_hash manifest) ?>>
   reject negb (mm_imported_at manifest =? root_committed_at root)%Z
          || negb (str_eqb (mm_imported_by_role manifest) (root_committed_by_role root))
     with Invalid "migration_manifest_commit_boundary_mismatch";
   (revisions <-? load_revisions st root;
    policies <-? load_policies st root;
    relations <-? load_relations st root;
    validate_target_records manifest source revisions policies (length relations))).

Definition previous_of {T} `{!Serde (Segment T)} (st : ImmutableLedgerStorage)
    (kind : LogKind) (hash : string) : result LedgerError (option string) :=
  segment <-? read_hashed_object (T := Segment T) st hash;
  verify_segment_hash segment hash ?>>
  reject negb (str_eqb (seg_schema segment) (segment_schema kind))
         || Nat.eqb (length (seg_records segment)) 0
    with Invalid "invalid_segment";
  Ok (seg_previous_segment_hash segment).

Definition verified_previous_segment (st : ImmutableLedgerStorage) (kind : LogKind)
    (hash : string) : result LedgerError (option string) :=
  match kind with
  | Log_Revision => previous_of (T := CanonicalRevision) st kind hash
  | Log_Policy => previous_of (T := PolicyRecord) st kind hash
  | Log_Relation => previous_of (T := RelationRecord) st kind hash
  end.

(** The loop of [head_extends]. *)
Fixpoint walk_to (fuel : nat) (st : ImmutableLedgerStorage) (kind : LogKind)
    (previous : string) (next : option string) (seen : gset string) : result LedgerError bool :=
  match next with
  | None => Ok false
  | Some hash =>
      if str_eqb hash previous then Ok true else
      if bool_decide (hash ∈ seen) then Ok false else
      match fuel with
      | O => Ok false
      | S fuel' =>
          next' <-? verified_previous_segment st kind hash;
          walk_to fuel' st kind previous next' ({[hash]} ∪ seen)
      end
  end.

Definition head_extends (st : ImmutableLedgerStorage) (kind : LogKind)
    (current previous : option string) : result LedgerError bool :=
  match previous with
  | None => Ok true
  | Some previous => walk_to (walk_fuel st) st kind previous current ∅
  end.

(** [a || b?]: short-circuit disjunction of fallible conditions. *)
Definition or_else_try (a : bool) (b : result LedgerError bool) : result LedgerError bool :=
  if a then Ok true else b.

(** The condition that rejects [root] as a successor of [previous]. *)
Definition not_prefix (st : ImmutableLedgerStorage) (root previous : LedgerRoot)
    : result LedgerError bool :=
  if (root_revision_watermark root <? root_revision_watermark previous)%Z
     || (root_policy_watermark root <? root_policy_watermark previous)%Z
     || (root_relation_watermark root <? root_relation_watermark previous)%Z
  then Ok true else
  (r <-? head_extends st Log_Revision (root_revision_head root) (root_revision_head previous);
   or_else_try (negb r)
     (p <-? head_extends st Log_Policy (root_policy_head root) (root_policy_head previous);
      or_else_try (negb p)
        (l <-? head_extends st Log_Relation (root_relation_head root) (root_relation_head previous);
         Ok (negb l
             || opt_is_some (root_migration_manifest_hash previous)
                && negb (bool_decide (root_migration_manifest_hash root
                                      = root_migration_manifest_hash previous))
             || opt_is_none (root_migration_manifest_hash previous)
                && opt_is_some (root_migration_manifest_hash root)
                && negb (root_generation previous =? 0)%Z)))).

(** The genesis conditions on the oldest root. *)
Definition genesis_root (root : LedgerRoot) : bool :=
  opt_is_none (root_revision_head root) && (root_revision_watermark root =? 0)%Z
  && opt_is_none (root_policy_head root) && (root_policy_watermark root =? 0)%Z
  && opt_is_none (root_relation_head root) && (root_relation_watermark root =? 0)%Z
  && opt_is_none (root_migration_manifest_hash root) && (root_committed_at root =? 0)%Z
  && str_eqb (root_committed_by_role root) PERSONAL_OWNER_ROLE_ID.

(** The loop of [validate_root_chain]. *)
Fixpoint walk_roots (fuel : nat) (st : ImmutableLedgerStorage) (expected_generation : Z)
    (hash : string) (root : LedgerRoot) (seen : gset string) : result LedgerError unit :=
  match fuel with
  | O => Err (Invalid "invalid_root_chain")
  | S fuel' =>
      reject bool_decide (hash ∈ seen)
             || negb (str_eqb (root_schema root) ROOT_SCHEMA)
             || negb (root_generation root =? expected_generation)%Z
        with Invalid "invalid_root_chain";
      validate_root_snapshot st root ?>>
      match root_previous_root_hash root with
      | Some previous_hash =>
          expected_generation' <-? ok_or (u64_checked_sub expected_generation 1)
                                     (Invalid "invalid_root_generation");
          previous <-? read_hashed_object st previous_hash;
          verify_root_hash previous previous_hash ?>>
          (if opt_is_some (root_migration_manifest_hash root)
              && opt_is_none (root_migration_manifest_hash previous)
           then validate_migration_boundary st root else Ok tt) ?>>
          (bad <-? not_prefix st root previous;
           reject bad with Invalid "historical_root_not_prefix";
           walk_roots fuel' st expected_generation' previous_hash previous ({[hash]} ∪ seen))
      | None =>
          if (expected_generation =? 0)%Z && genesis_root root then Ok tt
          else Err (Invalid "truncated_root_chain")
      end
  end.

Definition validate_root_chain (st : ImmutableLedgerStorage) (active_hash : string)
    (active_root : LedgerRoot) : result LedgerError unit :=
  walk_roots (walk_fuel st) st (root_generation active_root) active_hash active_root ∅.

(** ** Loading *)

(** The final comparison of [load_state]; [||] short-circuits before the
    documents are serialised. *)
Definition loaded_view_check (view rebuilt : CurrentView) (root : LedgerRoot)
    : result LedgerError unit :=
  reject negb (str_eqb (v_schema view) CURRENT_VIEW_SCHEMA)
         || negb (v_generation view =? root_generation root)%Z
         || negb (v_revision_watermark view =? root_revision_watermark root)%Z
         || negb (v_policy_watermark view =? root_policy_watermark root)%Z
         || negb (v_relation_watermark view =? root_relation_watermark root)%Z
    with Invalid "current_view_rebuild_mismatch";
  (view_bytes <-? jcs view;
   rebuilt_bytes <-? jcs rebuilt;
   reject negb (bool_decide (view_bytes = rebuilt_bytes))
     with Invalid "current_view_rebuild_mismatch";
   Ok tt).

(** The active pointer, parsed and checked to be canonical. *)
Definition load_pointer (st : ImmutableLedgerStorage) : result LedgerError ActivePointer :=
  pointer_bytes <-? ok_or (read_active st) (Invalid "missing_active_pointer");
  pointer <-? ok_or (from_slice pointer_bytes) Serialization;
  canonical <-? jcs pointer;
  reject negb (bool_decide (canonical = pointer_bytes)) with Invalid "non_canonical_active_pointer";
  reject negb (str_eqb (ptr_schema pointer) ROOT_POINTER_SCHEMA)
    with Invalid "unsupported_active_pointer_schema";
  Ok pointer.

(** The part of [load_state] after the pointer. *)
Definition load_root (st : ImmutableLedgerStorage) (root_hash : string)
    : result LedgerError LedgerState :=
  root <-? read_hashed_object st root_hash;
  verify_root_hash root root_hash ?>>
  reject negb (str_eqb (root_schema root) ROOT_SCHEMA) with Invalid "invalid_ledger_root";
  validate_root_chain st root_hash root ?>>
  (view <-? read_hashed_object st (root_current_view_hash root);
   verify_view_hash view (root_current_view_hash root) ?>>
   (revisions <-? load_revisions st root;
    policies <-? load_policies st root;
    relations <-? load_relations st root;
    validate_revisions revisions ?>>
    validate_policies policies revisions ?>>
    validate_relations relations revisions ?>>
    (rebuilt <-? rebuild_current_view (root_generation root) revisions policies
                   (root_relation_watermark root);
     loaded_view_check view rebuilt root ?>>
     Ok {| ls_poisoned := false;
           ls_root_hash := Some root_hash;
           ls_root := Some root;
           ls_view := Some view;
           ls_revisions := revisions;
           ls_policies := policies;
           ls_relations := relations |}))).

Definition load_state (st : ImmutableLedgerStorage) : result LedgerError LedgerState :=
  pointer <-? load_pointer st;
  load_root st (ptr_root_hash pointer).

(** ** Genesis *)

Definition genesis_view : CurrentView := {|
  v_schema := CURRENT_VIEW_SCHEMA; v_generation := 0; v_revision_watermark := 0;
  v_policy_watermark := 0; v_relation_watermark := 0; v_streams := [] |}.

Definition make_genesis_root (view_hash : string) : LedgerRoot := {|
  root_schema := ROOT_SCHEMA; root_generation := 0; root_previous_root_hash := None;
  root_revision_head := None; root_revision_watermark := 0;
  root_policy_head := None; root_policy_watermark := 0;
  root_relation_head := None; root_relation_watermark := 0;
  root_current_view_hash := view_hash; root_migration_manifest_hash := None;
  root_committed_at := 0; root_committed_by_role := PERSONAL_OWNER_ROLE_ID |}.

(** The outcomes of the file operations of one opening or commit. *)
Record IoPlan := mkIoPlan {
  put_outcomes : list PutOutcome;
  publish_outcome : PublishOutcome;
  open_outcome : OpenOutcome;
}.

Definition ensure_genesis (io : IoPlan) (st : ImmutableLedgerStorage)
    : result LedgerError unit * ImmutableLedgerStorage :=
  match read_active st with
  | Some _ => (Ok tt, st)
  | None =>
      match view_bytes_and_hash genesis_view with
      | Err e => (Err e, st)
      | Ok (view_bytes, view_hash) =>
      match root_bytes_and_hash (make_genesis_root view_hash) with
      | Err e => (Err e, st)
      | Ok (root_bytes, root_hash) =>
      match list_immutable_hashes st with
      | Err e => (Err (Io e), st)
      | Ok hashes =>
          if existsb (fun hash => negb (str_mem hash [view_hash; root_hash])) hashes
          then (Err (Invalid "missing_active_pointer"), st) else
          match put_all (put_outcomes io) st [(view_hash, view_bytes); (root_hash, root_bytes)] with
          | (Err e, st1) => (Err (Io e), st1)
          | (Ok _, st1) =>
              match jcs {| ptr_schema := ROOT_POINTER_SCHEMA; ptr_root_hash := root_hash |} with
              | Err e => (Err e, st1)
              | Ok pointer =>
                  match publish_active (publish_outcome io) st1 pointer with
                  | (Ok _, st2) => (Ok tt, st2)
                  | (Err (StorageIo e | PublishedButUnsynced e), st2) => (Err (Io e), st2)
                  end
              end
          end
      end end end
  end.

(** [CASCanonicalLedger::new] *)
Definition ledger_new (io : IoPlan) (st : ImmutableLedgerStorage)
    : result LedgerError LedgerState * ImmutableLedgerStorage :=
  match open_immutable_ledger (open_outcome io) st with
  | (Err e, st0) => (Err (Io e), st0)
  | (Ok _, st0) =>
      match ensure_genesis io st0 with
      | (Err e, st') => (Err e, st')
      | (Ok _, st') => (load_state st', st')
      end
  end.

(** ** Committing *)

Definition expects_absent (e : ExpectedHead) : bool :=
  match e with Absent => true | ExpectedRevision _ => false end.

(** The first loop of [commit_records]; the state is [batch_memory_ids]. *)
Definition check_expected_step (role_id : string) (tier : MemoryTier) (view : CurrentView)
    (_ : nat) (batch : gset string) (x : CanonicalRevision * ExpectedHead)
    : result LedgerError (gset string) :=
  let '(revision, expected) := x in
  reject negb (bool_decide (r_cognitive_tier revision = tier))
         || expects_absent expected && negb (str_eqb (r_committed_by_role revision) role_id)
    with Invalid "commit_boundary_mismatch";
  reject bool_decide (r_memory_id revision ∈ batch) with Invalid "duplicate_memory_in_batch";
  let actual := head_for view (r_memory_id revision) in
  let matches :=
    match expected with
    | Absent => opt_is_none actual && opt_is_none (r_parent_revision_id revision)
    | ExpectedRevision id =>
        bool_decide (actual = Some id) && bool_decide (r_parent_revision_id revision = Some id)
    end in
  reject negb matches with HeadConflict (r_memory_id revision) expected actual;
  Ok ({[r_memory_id revision]} ∪ batch).

(** The second loop: the committing role must be a writer of each stream. *)
Definition check_writer_step (role_id : string) (view : CurrentView)
    (policies : list PolicyRecord) (_ : nat) (_ : unit) (revision : CanonicalRevision)
    : result LedgerError unit :=
  match head_for view (r_memory_id revision) with
  | None => Ok tt
  | Some _ =>
      s <-? ok_or (stream_for view (r_memory_id revision)) (Invalid "missing_current_policy");
      policy <-? ok_or (List.find (fun p => str_eqb (p_policy_id p) (cs_policy_id s)) policies)
                   (Invalid "missing_current_policy");
      reject negb (str_mem role_id (p_writer_roles policy))
        with UnsupportedPolicy "role_not_policy_writer";
      Ok tt
  end.

(** The third loop stamps the revisions. *)
Definition stamp (role_id : string) (now first_sequence : Z) (offset : nat)
    (r : CanonicalRevision) : CanonicalRevision := {|
  r_schema := REVISION_SCHEMA;
  r_sequence := first_sequence + Z.of_nat offset;
  r_memory_id := r_memory_id r;
  r_revision_id := r_revision_id r;
  r_parent_revision_id := r_parent_revision_id r;
  r_content := r_content r;
  r_content_hash := r_content_hash r;
  r_tags := r_tags r;
  r_memory_type := r_memory_type r;
  r_cognitive_tier := r_cognitive_tier r;
  r_deleted_at := match r_deleted_at r with Some _ => Some now | None => None end;
  r_committed_at := now;
  r_committed_by_role := role_id |}.

Definition private_policy (role_id : string) (now : Z) (sequence : Z) (policy_id : string)
    (r : CanonicalRevision) : PolicyRecord := {|
  p_schema := POLICY_SCHEMA;
  p_sequence := sequence;
  p_policy_id := policy_id;
  p_memory_id := r_memory_id r;
  p_effective_from_revision_id := r_revision_id r;
  p_origin_role_id := role_id;
  p_mode := Mode_Private;
  p_reader_roles := private_roles role_id;
  p_writer_roles := private_roles role_id;
  p_committed_at := now;
  p_committed_by_role := role_id |}.

(** The fourth loop: one private policy per new memory; [new_v4 k] is the k-th
    identifier drawn by this commit. *)
Fixpoint new_policies (role_id : string) (now first_sequence : Z) (new_v4 : nat -> string)
    (drawn : nat) (xs : list (CanonicalRevision * ExpectedHead)) : list PolicyRecord :=
  match xs with
  | [] => []
  | (r, expected) :: xs' =>
      if expects_absent expected then
        private_policy role_id now (first_sequence + Z.of_nat drawn) (new_v4 drawn) r
          :: new_policies role_id now first_sequence new_v4 (S drawn) xs'
      else new_policies role_id now first_sequence new_v4 drawn xs'
  end.

(** Everything a commit computes before it touches the storage. *)
Record Candidate := mkCandidate {
  cd_revisions : list CanonicalRevision;
  cd_policies : list PolicyRecord;
  cd_all_revisions : list CanonicalRevision;
  cd_all_policies : list PolicyRecord;
  cd_generation : Z;
  cd_objects : list (string * bytes);
  cd_view : CurrentView;
  cd_root : LedgerRoot;
  cd_root_hash : string;
  cd_pointer : result LedgerError bytes;
}.

Definition policy_segment_of (state : LedgerState) (policies : list PolicyRecord)
    : Segment PolicyRecord :=
  let first := (Z.of_nat (length (ls_policies state)) + 1)%Z in
  {| seg_schema := POLICY_SEGMENT_SCHEMA;
     seg_first_sequence := first;
     seg_last_sequence := first + Z.of_nat (length policies) - 1;
     seg_previous_segment_hash := ls_root state ≫= root_policy_head;
     seg_records := policies |}.

Definition revision_segment_of (state : LedgerState) (revisions : list CanonicalRevision)
    : Segment CanonicalRevision :=
  let first := (Z.of_nat (length (ls_revisions state)) + 1)%Z in
  {| seg_schema := REVISION_SEGMENT_SCHEMA;
     seg_first_sequence := first;
     seg_last_sequence := first + Z.of_nat (length revisions) - 1;
     seg_previous_segment_hash := ls_root state ≫= root_revision_head;
     seg_records := revisions |}.

(** [state.root.as_ref().map_or(1, |root| root.generation + 1)] *)
Definition next_generation (state : LedgerState) : Z :=
  match ls_root state with None => 1 | Some root => u64_add (root_generation root) 1 end.

Definition root_of (state : LedgerState) (role_id : string) (now : Z)
    (revision_segment : Segment CanonicalRevision) (revision_hash : string)
    (policy_object : option (Z * bytes * string)) (view_hash : string) : LedgerRoot := {|
  root_schema := ROOT_SCHEMA;
  root_generation := next_generation state;
  root_previous_root_hash := ls_root_hash state;
  root_revision_head := Some revision_hash;
  root_revision_watermark := seg_last_sequence revision_segment;
  root_policy_head :=
    match policy_object with
    | Some (_, _, hash) => Some hash
    | None => ls_root state ≫= root_policy_head
    end;
  root_policy_watermark :=
    match policy_object with
    | Some (sequence, _, _) => sequence
    | None => Z.of_nat (length (ls_policies state))
    end;
  root_relation_head := ls_root state ≫= root_relation_head;
  root_relation_watermark :=
    match ls_root state with None => 0 | Some root => root_relation_watermark root end;
  root_current_view_hash := view_hash;
  root_migration_manifest_hash := ls_root state ≫= root_migration_manifest_hash;
  root_committed_at := now;
  root_committed_by_role := role_id |}.

Definition policy_object_of (state : LedgerState) (policies : list PolicyRecord)
    : result LedgerError (option (Z * bytes * string)) :=
  match policies with
  | [] => Ok None
  | _ =>
      let segment := policy_segment_of state policies in
      x <-? segment_bytes_and_hash segment;
      Ok (Some (seg_last_sequence segment, fst x, snd x))
  end.

Definition prepare_commit (now : Z) (new_v4 : nat -> string) (state : LedgerState)
    (role_id : string) (tier : MemoryTier) (revisions : list CanonicalRevision)
    (expected_heads : list ExpectedHead) : result LedgerError Candidate :=
  reject negb (Nat.eqb (length revisions) (length expected_heads))
         || Nat.eqb (length revisions) 0
    with Invalid "invalid_commit_batch";
  reject bool_decide (tier = Tier_Ephemeral) with Invalid "ephemeral_revision_not_durable";
  reject ls_poisoned state with WriterPoisoned;
  let current_view := default genesis_view (ls_view state) in
  let batch := zip revisions expected_heads in
  try_for (check_expected_step role_id tier current_view) 0 (∅ : gset string) batch ?>>
  try_for (check_writer_step role_id current_view (ls_policies state)) 0 tt revisions ?>>
  let stamped := imap (stamp role_id now (Z.of_nat (length (ls_revisions state)) + 1)) revisions in
  let policies := new_policies role_id now (Z.of_nat (length (ls_policies state)) + 1)
                    new_v4 0 (zip stamped expected_heads) in
  let all_revisions := ls_revisions state ++ stamped in
  let all_policies := ls_policies state ++ policies in
  validate_revisions all_revisions ?>>
  validate_policies all_policies all_revisions ?>>
  (let revision_segment := revision_segment_of state stamped in
   rs <-? segment_bytes_and_hash revision_segment;
   policy_object <-? policy_object_of state policies;
   view <-? rebuild_current_view (next_generation state) all_revisions all_policies
              (Z.of_nat (length (ls_relations state)));
   vs <-? view_bytes_and_hash view;
   let root := root_of state role_id now revision_segment (snd rs) policy_object (snd vs) in
   rt <-? root_bytes_and_hash root;
   Ok {| cd_revisions := stamped;
         cd_policies := policies;
         cd_all_revisions := all_revisions;
         cd_all_policies := all_policies;
         cd_generation := next_generation state;
         cd_objects := (snd rs, fst rs)
           :: match policy_object with Some (_, b, hash) => [(hash, b)] | None => [] end
           ++ [(snd vs, fst vs); (snd rt, fst rt)];
         cd_view := view;
         cd_root := root;
         cd_root_hash := snd rt;
         cd_pointer := jcs {| ptr_schema := ROOT_POINTER_SCHEMA; ptr_root_hash := snd rt |} |}).

Definition receipts (c : Candidate) (now : Z) : list LedgerCommit :=
  (fun r => {| c_generation := cd_generation c;
               c_revision_sequence := r_sequence r;
               c_revision_id := r_revision_id r;
               c_committed_at := now |}) <$> cd_revisions c.

Definition committed_state (state : LedgerState) (c : Candidate) : LedgerState := {|
  ls_poisoned := ls_poisoned state;
  ls_root_hash := Some (cd_root_hash c);
  ls_root := Some (cd_root c);
  ls_view := Some (cd_view c);
  ls_revisions := cd_all_revisions c;
  ls_policies := cd_all_policies c;
  ls_relations := ls_relations state |}.

Definition poison (state : LedgerState) : LedgerState := {|
  ls_poisoned := true;
  ls_root_hash := ls_root_hash state;
  ls_root := ls_root state;
  ls_view := ls_view state;
  ls_revisions := ls_revisions state;
  ls_policies := ls_policies state;
  ls_relations := ls_relations state |}.

(** [commit_records]: prepare, write the objects, publish the pointer, then
    update the in-memory state. *)
Definition commit_records (io : IoPlan) (now : Z) (new_v4 : nat -> string)
    (st : ImmutableLedgerStorage) (state : LedgerState) (role_id : string) (tier : MemoryTier)
    (revisions : list CanonicalRevision) (expected_heads : list ExpectedHead)
    : result LedgerError (list LedgerCommit) * LedgerState * ImmutableLedgerStorage :=
  match prepare_commit now new_v4 state role_id tier revisions expected_heads with
  | Err e => (Err e, state, st)
  | Ok c =>
      match put_all (put_outcomes io) st (cd_objects c) with
      | (Err e, st1) => (Err (Io e), state, st1)
      | (Ok _, st1) =>
          match cd_pointer c with
          | Err e => (Err e, state, st1)
          | Ok pointer =>
              match publish_active (publish_outcome io) st1 pointer with
              | (Ok _, st2) => (Ok (receipts c now), committed_state state c, st2)
              | (Err (StorageIo e), st2) => (Err (Io e), state, st2)
              | (Err (PublishedButUnsynced _), st2) =>
                  (Err CommitIndeterminate, poison state, st2)
              end
          end
      end
  end.

Definition commit_expected (io : IoPlan) (now : Z) (new_v4 : nat -> string)
    (st : ImmutableLedgerStorage) (state : LedgerState) (role_id : string) (tier : MemoryTier)
    (expected_head : ExpectedHead) (revision : CanonicalRevision)
    : result LedgerError LedgerCommit * LedgerState * ImmutableLedgerStorage :=
  match commit_records io now new_v4 st state role_id tier [revision] [expected_head] with
  | (r, state', st') =>
      (commits <-? r; ok_or (last commits) (Invalid "missing_commit_receipt"), state', st')
  end.

Definition commit_roots (io : IoPlan) (now : Z) (new_v4 : nat -> string)
    (st : ImmutableLedgerStorage) (state : LedgerState) (role_id : string) (tier : MemoryTier)
    (revisions : list CanonicalRevision)
    : result LedgerError (list LedgerCommit) * LedgerState * ImmutableLedgerStorage :=
  commit_records io now new_v4 st state role_id tier revisions
    (replicate (length revisions) Absent).
End store.
