(* ===== verification/LedgerQueries.v ===== *)
(** * Reading the ledger ([src/src/memory/ledger/store.rs], the read operations)

    The operations that hand out canonical revisions: the projection snapshot,
    the guarded accesses and the role queries.  Each runs under the state lock;
    a closure run under the lock is a function of what it is given.  The loop of
    [projection_snapshot_from_state] has no cycle check, so its model returns
    [None] when the fuel is spent before the chain ends. *)

From stdpp Require Import base gmap strings list sorting.
From S2P Require Import Prelude Wire MemoryModel LedgerModel LedgerValidate LedgerView.
From S2P Require Import LedgerStorage ProjectionModel LedgerStore.

Record CanonicalProjectionSnapshot := mkSnapshot {
  cps_genesis_root_hash : string;
  cps_genesis_root : LedgerRoot;
  cps_root_hash : string;
  cps_root : LedgerRoot;
  cps_root_chain : list (string * LedgerRoot);
  cps_revisions : list CanonicalRevision;
}.

Record AuthorizedCurrentRevisionProof := mkRevisionProof {
  acr_source : CanonicalSourceIdentity;
  acr_canonical_ancestry : list CanonicalWatermark;
}.

Definition watermark_of (x : string * LedgerRoot) : CanonicalWatermark := {|
  wm_root_hash := fst x;
  wm_generation := root_generation (snd x);
  wm_revision_watermark := root_revision_watermark (snd x);
  wm_policy_watermark := root_policy_watermark (snd x);
  wm_relation_watermark := root_relation_watermark (snd x) |}.

Definition source_of (r : CanonicalRevision) : CanonicalSourceIdentity := {|
  src_canonical_kind := "memory_revision";
  src_memory_id := r_memory_id r;
  src_revision_id := r_revision_id r;
  src_revision_sequence := r_sequence r;
  src_content_hash := r_content_hash r |}.

Definition find_revision (state : LedgerState) (id : string) : option CanonicalRevision :=
  List.find (fun r => str_eqb (r_revision_id r) id) (ls_revisions state).

(** [state.view.as_ref().and_then(|view| view.streams.iter().find(..))] *)
Definition find_stream (state : LedgerState) (memory_id : MemoryId) : option CurrentStream :=
  view ← ls_view state; stream_for view memory_id.

(** [state.policies.iter().any(..)]: the stream's policy lets [role] read. *)
Definition policy_reads (state : LedgerState) (s : CurrentStream) (memory_id : MemoryId)
    (role : string) : bool :=
  existsb (fun p => str_eqb (p_policy_id p) (cs_policy_id s)
                    && str_eqb (p_memory_id p) memory_id
                    && str_mem role (p_reader_roles p)) (ls_policies state).

(** [MemoryContent::Text(text) if !text.trim().is_empty()] *)
Definition nonblank_text (c : MemoryContent) : option string :=
  match c with
  | Text text => if blank text then None else Some text
  | _ => None
  end.

Definition current_projection_revision (state : LedgerState)
    (expected : CanonicalSourceIdentity) : option CanonicalRevision :=
  actual ← find_revision state (src_revision_id expected);
  if negb (str_eqb (r_memory_id actual) (src_memory_id expected))
     || negb (r_sequence actual =? src_revision_sequence expected)%Z
     || negb (str_eqb (r_content_hash actual) (src_content_hash expected))
  then None else
  s ← find_stream state (r_memory_id actual);
  if cs_deleted s
     || negb (str_eqb (cs_head_revision_id s) (r_revision_id actual))
     || is_deleted actual
     || negb (bool_decide (r_cognitive_tier actual = Tier_Working)
              || bool_decide (r_cognitive_tier actual = Tier_LongTerm))
  then None else
  if negb (policy_reads state s (r_memory_id actual) PERSONAL_OWNER_ROLE_ID) then None else
  match nonblank_text (r_content actual) with
  | Some _ => Some actual
  | None => None
  end.

Definition guarded_projection_document (state : LedgerState)
    (expected : CanonicalSourceIdentity) : result LedgerError (option string) :=
  reject ls_poisoned state with WriterPoisoned;
  Ok (actual ← current_projection_revision state expected; nonblank_text (r_content actual)).

(** [.then(|| policy.origin_role_id.clone())] on the roles of the stream's
    current policy. *)
Definition origin_for_revision (state : LedgerState) (role_id revision_id : string)
    (write : bool) : result LedgerError (option string) :=
  match find_revision state revision_id with
  | None => Ok None
  | Some revision =>
      match find_stream state (r_memory_id revision) with
      | None => Ok None
      | Some s =>
          policy <-? ok_or (List.find (fun p => str_eqb (p_policy_id p) (cs_policy_id s))
                              (ls_policies state)) (Invalid "missing_current_policy");
          let roles := if write then p_writer_roles policy else p_reader_roles policy in
          Ok (if str_mem role_id roles then Some (p_origin_role_id policy) else None)
      end
  end.

Definition readable_head (state : LedgerState) (role_id : string) (s : CurrentStream)
    : option MemoryRevisionId :=
  policy ← List.find (fun p => str_eqb (p_policy_id p) (cs_policy_id s)) (ls_policies state);
  if str_mem role_id (p_reader_roles policy) then Some (cs_head_revision_id s) else None.

Definition readable_active_revision_ids (state : LedgerState) (role_id : string)
    : result LedgerError (list MemoryRevisionId) :=
  view <-? ok_or (ls_view state) (Invalid "missing_current_view");
  Ok (sort_strings (omap (readable_head state role_id)
        (List.filter (fun s => negb (cs_deleted s)) (v_streams view)))).

(** The sorted elements of a [HashSet] of the origins. *)
Definition list_origin_roles (state : LedgerState) : result LedgerError (list string) :=
  Ok (sort_strings (elements (list_to_set (p_origin_role_id <$> ls_policies state) : gset string))).

Definition origin_memories (state : LedgerState) (role_id : string) : gset string :=
  list_to_set (p_memory_id <$>
    List.filter (fun p => str_eqb (p_origin_role_id p) role_id) (ls_policies state)).

(** [by_tier.remove(&tier)] of the revisions grouped by tier. *)
Definition tier_records (tier : MemoryTier) (revisions : list CanonicalRevision)
    : option (MemoryTier * list CanonicalRevision) :=
  match List.filter (fun r => bool_decide (r_cognitive_tier r = tier)) revisions with
  | [] => None
  | records => Some (tier, records)
  end.

Definition rebuild_origin_role (state : LedgerState) (role_id : string)
    : result LedgerError (list (MemoryTier * list CanonicalRevision)) :=
  let revisions := List.filter
    (fun r => bool_decide (r_memory_id r ∈ origin_memories state role_id)) (ls_revisions state) in
  Ok (omap (fun tier => tier_records tier revisions)
        [Tier_Working; Tier_LongTerm; Tier_Procedural]).

(** ** Revisions and runtime entries *)

Definition entry_to_revision (entry : MemoryEntry) : result LedgerError CanonicalRevision :=
  reject negb (str_eqb (e_tenant_id entry) DEFAULT_TENANT)
    with UnsupportedPolicy "non_default_namespace";
  reject negb (bool_decide (e_scope entry = Scope_Private))
    with UnsupportedPolicy "non_private_scope";
  reject opt_is_some (e_ttl_ms entry) || opt_is_some (e_original_ttl_ms entry)
    with UnsupportedPolicy "ttl_policy_not_implemented";
  reject opt_is_some (e_causal_parent entry)
    with UnsupportedPolicy "relation_log_write_not_implemented";
  reject opt_is_some (e_supersedes entry) || opt_is_some (e_superseded_by entry)
    with Invalid "legacy_supersession_state";
  Ok {| r_schema := REVISION_SCHEMA;
        r_sequence := 0;
        r_memory_id := e_memory_id entry;
        r_revision_id := e_id entry;
        r_parent_revision_id := e_parent_revision_id entry;
        r_content := e_content entry;
        r_content_hash := e_canonical_content_hash entry;
        r_tags := e_tags entry;
        r_memory_type := e_memory_type entry;
        r_cognitive_tier := e_tier entry;
        r_deleted_at := e_deleted_at entry;
        r_committed_at := e_created_at entry;
        r_committed_by_role := e_agent_id entry |}.

Definition into_runtime_entry (r : CanonicalRevision) (origin_role : string) : MemoryEntry := {|
  e_id := r_revision_id r;
  e_memory_id := r_memory_id r;
  e_parent_revision_id := r_parent_revision_id r;
  e_canonical_content_hash := r_content_hash r;
  e_agent_id := origin_role;
  e_tenant_id := DEFAULT_TENANT;
  e_tier := r_cognitive_tier r;
  e_content := r_content r;
  e_importance := 50;
  e_access_count := 0;
  e_last_accessed := r_committed_at r;
  e_created_at := r_committed_at r;
  e_tags := r_tags r;
  e_ttl_ms := None;
  e_original_ttl_ms := None;
  e_scope := Scope_Private;
  e_memory_type := r_memory_type r;
  e_causal_parent := None;
  e_supersedes := None;
  e_superseded_by := None;
  e_deleted_at := r_deleted_at r |}.

(** ** Snapshots for the projection controllers *)

Section snapshots.
Context `{LedgerCodec}.

(** [while let Some(previous_hash) = cursor.previous_root_hash]; [chain] is
    already reversed, oldest root first. *)
Fixpoint walk_ancestors (fuel : nat) (st : ImmutableLedgerStorage) (cursor : LedgerRoot)
    (chain : list (string * LedgerRoot)) : option (result LedgerError (list (string * LedgerRoot))) :=
  match root_previous_root_hash cursor with
  | None => Some (Ok chain)
  | Some previous_hash =>
      match fuel with
      | O => None
      | S fuel' =>
          match read_hashed_object st previous_hash with
          | Err e => Some (Err e)
          | Ok previous =>
              match verify_root_hash previous previous_hash with
              | Err e => Some (Err e)
              | Ok _ => walk_ancestors fuel' st previous ((previous_hash, previous) :: chain)
              end
          end
      end
  end.

Definition snapshot_of_chain (state : LedgerState) (root_hash : string) (root : LedgerRoot)
    (root_chain : list (string * LedgerRoot)) : result LedgerError CanonicalProjectionSnapshot :=
  genesis <-? ok_or (head root_chain) (Invalid "missing_genesis_root");
  Ok {| cps_genesis_root_hash := fst genesis;
        cps_genesis_root := snd genesis;
        cps_root_hash := root_hash;
        cps_root := root;
        cps_root_chain := root_chain;
        cps_revisions := ls_revisions state |}.

Definition projection_snapshot_from_state (st : ImmutableLedgerStorage) (state : LedgerState)
    : option (result LedgerError CanonicalProjectionSnapshot) :=
  match ls_root_hash state, ls_root state with
  | Some root_hash, Some root =>
      r ← walk_ancestors (walk_fuel st) st root [(root_hash, root)];
      Some (chain <-? r; snapshot_of_chain state root_hash root chain)
  | _, _ => Some (Err (Invalid "missing_active_root"))
  end.

Definition projection_snapshot (st : ImmutableLedgerStorage) (state : LedgerState)
    : option (result LedgerError CanonicalProjectionSnapshot) :=
  if ls_poisoned state then Some (Err WriterPoisoned)
  else projection_snapshot_from_state st state.

Definition with_current_projection_source {R} (st : ImmutableLedgerStorage) (state : LedgerState)
    (expected : CanonicalSourceIdentity)
    (complete : CanonicalSourceIdentity -> CanonicalProjectionSnapshot -> R)
    : option (result LedgerError (option R)) :=
  if ls_poisoned state then Some (Err WriterPoisoned) else
  match current_projection_revision state expected with
  | None => Some (Ok None)
  | Some _ =>
      r ← projection_snapshot_from_state st state;
      Some (snapshot <-? r; Ok (Some (complete expected snapshot)))
  end.

Definition with_authorized_current_revision {R} (st : ImmutableLedgerStorage)
    (state : LedgerState) (trusted_role : string) (revision_id : MemoryRevisionId)
    (observe : AuthorizedCurrentRevisionProof -> R) : option (result LedgerError (option R)) :=
  if ls_poisoned state then Some (Err WriterPoisoned) else
  match find_revision state revision_id with
  | None => Some (Ok None)
  | Some actual =>
      match find_stream state (r_memory_id actual) with
      | None => Some (Ok None)
      | Some s =>
          if cs_deleted s || negb (str_eqb (cs_head_revision_id s) (r_revision_id actual))
             || is_deleted actual then Some (Ok None) else
          if negb (policy_reads state s (r_memory_id actual) trusted_role)
          then Some (Ok None) else
          r ← projection_snapshot_from_state st state;
          Some (snapshot <-? r;
                Ok (Some (observe {|
                  acr_source := source_of actual;
                  acr_canonical_ancestry := watermark_of <$> cps_root_chain snapshot |})))
      end
  end.

Definition with_owner_projection_maintenance {R} (st : ImmutableLedgerStorage)
    (state : LedgerState) (trusted_role : string)
    (maintain : CanonicalProjectionSnapshot -> R) : option (result LedgerError (option R)) :=
  if negb (str_eqb trusted_role PERSONAL_OWNER_ROLE_ID) then Some (Ok None) else
  if ls_poisoned state then Some (Err WriterPoisoned) else
  r ← projection_snapshot_from_state st state;
  Some (snapshot <-? r; Ok (Some (maintain snapshot))).
End snapshots.

Definition reconciled_source_is_ancestor (proof : AuthorizedCurrentRevisionProof)
    (candidate : CanonicalWatermark) : bool :=
  existsb (fun w => bool_decide (w = candidate)) (acr_canonical_ancestry proof).
