(* ===== verification/LedgerChains.v ===== *)
(** * The logs a storage holds

    The segment chains of the ledger, read without fuel or cycle check: an
    inductive relation between a head hash and the records below it.
    [load_segment_chain] is proved to compute exactly this relation, so its fuel
    is always enough, and the relation grows with the storage. *)

From stdpp Require Import base gmap strings list sorting.
From S2P Require Import Prelude Wire MemoryModel LedgerModel LedgerValidate LedgerView.
From S2P Require Import LedgerStorage LedgerStore.

Section chains.
Context `{LedgerCodec}.

Lemma read_hashed_object_grows {T} `{!Serde T} st st' h (v : T) :
  grows st st' -> read_hashed_object st h = Ok v -> read_hashed_object st' h = Ok v.
Proof.
  unfold read_hashed_object, io_err. intros Hg Hr.
  destruct (get_immutable st h) as [b|] eqn:Hb; [|done].
  by rewrite (get_immutable_grows _ _ _ _ Hg Hb).
Qed.

Lemma read_hashed_object_dom {T} `{!Serde T} st h (v : T) :
  read_hashed_object st h = Ok v -> h ∈ dom (objects st).
Proof.
  unfold read_hashed_object, io_err, get_immutable, ok_or. intros Hr.
  destruct (validate_hash h); [|done]. destruct (objects st !! h) eqn:Hh; [|done].
  by apply elem_of_dom.
Qed.

Lemma dom_grows st st' : grows st st' -> dom (objects st) ⊆ dom (objects st').
Proof. apply subseteq_dom. Qed.

Lemma size_grows st st' : grows st st' -> size (objects st) <= size (objects st').
Proof. intros Hg. rewrite <-!size_dom. by apply subseteq_size, dom_grows. Qed.

Section log.
Context {T : Type} `{!Serde (Segment T)}.
Variables (st : ImmutableLedgerStorage) (schema : string).

(** [seg] is the verified segment stored under [h]. *)
Record segment_at (h : string) (seg : Segment T) : Prop := {
  sat_read : read_hashed_object st h = Ok seg;
  sat_hash : verify_segment_hash seg h = Ok tt;
  sat_schema : seg_schema seg = schema;
  sat_records : seg_records seg <> [];
}.

(** The segments below a head, newest first. *)
Inductive segment_chain : option string -> list (string * Segment T) -> Prop :=
  | chain_nil : segment_chain None []
  | chain_cons h seg l :
      segment_at h seg -> segment_chain (seg_previous_segment_hash seg) l ->
      segment_chain (Some h) ((h, seg) :: l).

(** The records below a head, with contiguous sequence numbers. *)
Inductive log_chain : option string -> list T -> Prop :=
  | log_nil : log_chain None []
  | log_app h seg recs :
      segment_at h seg -> log_chain (seg_previous_segment_hash seg) recs ->
      seg_first_sequence seg = (Z.of_nat (length recs) + 1)%Z ->
      seg_last_sequence seg = Z.of_nat (length recs + length (seg_records seg)) ->
      log_chain (Some h) (recs ++ seg_records seg).

Lemma log_chain_functional head l1 l2 : log_chain head l1 -> log_chain head l2 -> l1 = l2.
Proof.
  intros H1. revert l2. induction H1 as [|h seg recs Hat _ IH _ _]; intros l2 H2;
    inversion H2 as [|h' seg' recs' Hat' Hl' _ _]; subst; [done|].
  pose proof (sat_read _ _ Hat) as Hr. rewrite (sat_read _ _ Hat') in Hr.
  apply Ok_inj in Hr as ->. f_equal. by apply IH.
Qed.

Lemma log_chain_empty head : log_chain head [] -> head = None.
Proof.
  inversion 1 as [|h seg recs Hat Hl Hf Hs Hh Hnil]; [done|].
  apply app_eq_nil in Hnil as [_ Hnil]. by destruct (sat_records _ _ Hat).
Qed.

(** ** The walk *)

Lemma segment_check (seg : Segment T) :
  negb (str_eqb (seg_schema seg) schema) || Nat.eqb (length (seg_records seg)) 0 = false <->
  seg_schema seg = schema /\ seg_records seg <> [].
Proof.
  rewrite orb_false_iff, negb_false_iff, Nat.eqb_neq. unfold str_eqb.
  rewrite bool_decide_eq_true. destruct (seg_records seg); naive_solver.
Qed.

Lemma walk_segments_sound fuel next seen acc out :
  walk_segments fuel st schema next seen acc = Ok out ->
  exists l, segment_chain next l /\ out = rev l.*2 ++ acc.
Proof.
  revert next seen acc. induction fuel as [|fuel IH]; intros next seen acc Hw;
    (destruct next as [h|]; simpl in Hw; [|apply Ok_inj in Hw as <-; exists []; by split; [constructor|]]).
  - done.
  - destruct (bool_decide (h ∈ seen)); [done|].
    destruct (read_hashed_object st h) as [seg|] eqn:Hr; [|done].
    destruct (verify_segment_hash seg h) as [[]|] eqn:Hv; [|done].
    destruct (negb _ || _) eqn:Hc; [done|]. apply segment_check in Hc as [Hs Hn].
    apply IH in Hw as (l & Hl & ->). exists ((h, seg) :: l).
    split; [by repeat constructor|]. cbn. by rewrite <-app_assoc.
Qed.

Lemma walk_segments_complete next l :
  segment_chain next l -> forall fuel seen acc,
  length l <= fuel -> NoDup l.*1 -> (forall h, h ∈ l.*1 -> h ∉ seen) ->
  walk_segments fuel st schema next seen acc = Ok (rev l.*2 ++ acc).
Proof.
  induction 1 as [|h seg l Hat _ IH]; intros fuel seen acc Hf Hnd Hseen.
  - by destruct fuel.
  - destruct fuel as [|fuel]; [simpl in Hf; lia|]. cbn in Hf, Hnd, Hseen |- *.
    apply NoDup_cons in Hnd as [Hnin Hnd].
    rewrite bool_decide_eq_false_2 by set_solver.
    rewrite (sat_read _ _ Hat), (sat_hash _ _ Hat).
    rewrite (proj2 (segment_check seg) (conj (sat_schema _ _ Hat) (sat_records _ _ Hat))).
    rewrite IH; [by rewrite <-app_assoc|lia|done|set_solver].
Qed.

Lemma segment_chain_reads next l h seg :
  segment_chain next l -> (h, seg) ∈ l -> read_hashed_object st h = Ok seg.
Proof.
  induction 1 as [|h' seg' l Hat _ IH]; [by intros ?%elem_of_nil|].
  intros [[= -> ->]|Hin]%elem_of_cons; [by apply sat_read|auto].
Qed.

Lemma segment_chain_length next l :
  segment_chain next l -> NoDup l.*1 -> length l <= size (objects st).
Proof.
  intros Hl Hnd. rewrite <-size_dom, <-(length_fmap fst l).
  rewrite <-(size_list_to_set (C := gset string)) by done. apply subseteq_size.
  intros h Hh. apply elem_of_list_to_set, list_elem_of_fmap in Hh as ([h' seg] & -> & Hin).
  by eapply read_hashed_object_dom, segment_chain_reads.
Qed.

(** ** Contiguous sequences *)

Lemma concat_sound next l recs n :
  segment_chain next l ->
  try_for concat_segment_step 0 ([], 1%Z) (rev l.*2) = Ok (recs, n) ->
  log_chain next recs /\ n = (Z.of_nat (length recs) + 1)%Z.
Proof.
  intros Hl. revert recs n. induction Hl as [|h seg l Hat _ IH]; intros recs n Hc; cbn in Hc.
  - simplify_eq. split; [constructor|done].
  - apply try_for_snoc_inv in Hc as ([recs' n'] & Ht & Hs).
    apply IH in Ht as [Hlog ->]. unfold concat_segment_step in Hs. ok_inv Hs. breflect.
    simplify_eq. split; [constructor; try done; lia|rewrite length_app; lia].
Qed.

Lemma concat_complete next recs :
  log_chain next recs ->
  exists l, segment_chain next l /\ NoDup l.*1 /\
    (forall h seg, (h, seg) ∈ l -> (seg_first_sequence seg <= Z.of_nat (length recs))%Z) /\
    try_for concat_segment_step 0 ([], 1%Z) (rev l.*2)
      = Ok (recs, Z.of_nat (length recs) + 1)%Z.
Proof.
  induction 1 as [|h seg recs Hat _ (l & Hl & Hnd & Hle & Ht) Hf Hs].
  - exists []. split_and!; [constructor..| |done]. by intros ? ? ?%elem_of_nil.
  - pose proof (sat_records _ _ Hat) as Hne.
    assert (0 < length (seg_records seg)) by (destruct (seg_records seg); [done|simpl; lia]).
    exists ((h, seg) :: l). rewrite length_app. split_and!.
    + by constructor.
    + constructor; [|done]. intros ([h' seg'] & Heq & Hin)%list_elem_of_fmap. cbn in Heq.
      subst h'. pose proof (segment_chain_reads _ _ _ _ Hl Hin) as Hr.
      rewrite (sat_read _ _ Hat) in Hr.
      apply Ok_inj in Hr as <-. specialize (Hle _ _ Hin). lia.
    + intros h' seg' [[= -> ->]|Hin]%elem_of_cons; [lia|]. specialize (Hle _ _ Hin). lia.
    + cbn. rewrite try_for_app, Ht. cbn. rewrite Hf, Hs.
      rewrite (proj2 (Z.eqb_eq _ _)) by lia. rewrite (proj2 (Z.eqb_eq _ _)) by lia.
      cbn [negb orb]. by rewrite Z.add_comm.
Qed.
End log.

(** ** Loading a log *)

(** [load_segment_chain] loads exactly the log below the head. *)
Lemma load_segment_chain_iff {T} `{!Serde (Segment T)} st kind head wm (recs : list T) :
  load_segment_chain st kind head wm = Ok recs <->
  log_chain st (segment_schema kind) head recs /\ wm = Z.of_nat (length recs).
Proof.
  unfold load_segment_chain. split.
  - intros Hl. destruct (wm =? 0)%Z eqn:Hw; breflect; subst.
    + destruct head; [done|]. apply Ok_inj in Hl as <-. split; [constructor|done].
    + destruct (walk_segments _ _ _ _ _ _) as [segs|] eqn:Hs; [|done].
      apply walk_segments_sound in Hs as (l & Hl' & ->). rewrite app_nil_r in Hl.
      destruct (try_for _ _ _ _) as [[recs' n]|] eqn:Ht; [|done]. cbn in Hl.
      ok_inv Hl. breflect. subst. by destruct (concat_sound _ _ _ _ _ _ Hl' Ht).
  - intros [Hlog ->]. destruct (Z.of_nat (length recs) =? 0)%Z eqn:Hw; breflect.
    + destruct recs; [|done]. apply log_chain_empty in Hlog as ->. done.
    + apply concat_complete in Hlog as (l & Hl & Hnd & _ & Ht).
      rewrite (walk_segments_complete _ _ _ _ Hl), app_nil_r, Ht; [cbn|..].
      * by rewrite Z.eqb_refl.
      * pose proof (segment_chain_length _ _ _ _ Hl Hnd). unfold walk_fuel. lia.
      * done.
      * set_solver.
Qed.

Lemma segment_at_grows {T} `{!Serde (Segment T)} st st' schema h (seg : Segment T) :
  grows st st' -> segment_at st schema h seg -> segment_at st' schema h seg.
Proof. intros Hg [Hr ? ? ?]. constructor; [by eapply read_hashed_object_grows|done..]. Qed.

Lemma log_chain_grows {T} `{!Serde (Segment T)} st st' schema head (recs : list T) :
  grows st st' -> log_chain st schema head recs -> log_chain st' schema head recs.
Proof. intros Hg. induction 1; constructor; eauto using segment_at_grows. Qed.

Lemma load_segment_chain_grows {T} `{!Serde (Segment T)} st st' kind head wm (recs : list T) :
  grows st st' -> load_segment_chain st kind head wm = Ok recs ->
  load_segment_chain st' kind head wm = Ok recs.
Proof. rewrite !load_segment_chain_iff. intros Hg [? ?]. eauto using log_chain_grows. Qed.
End chains.
