(* ===== verification/LedgerDurability.v ===== *)
(** * Durability of the ledger

    What a storage that loads keeps loading under growth, what a commit leaves
    behind for every outcome of its file operations, and the invariant of every
    reachable ledger. *)

From stdpp Require Import base gmap strings list sorting.
From S2P Require Import Prelude Wire MemoryModel LedgerModel LedgerValidate LedgerView.
From S2P Require Import MigrationManifest LedgerStorage LedgerStore LedgerChains.

(** Carry the successful reads of [H], made on a smaller storage, to the goal. *)
Ltac carry_reads Hg H :=
  repeat match type of H with
  | context [match read_hashed_object ?st ?h with _ => _ end] =>
      let Hr := fresh "Hr" in
      destruct (read_hashed_object st h) eqn:Hr; [|discriminate H];
      rewrite (read_hashed_object_grows _ _ _ _ Hg Hr)
  | context [match load_segment_chain ?st ?k ?h ?w with _ => _ end] =>
      let Hr := fresh "Hr" in
      destruct (load_segment_chain st k h w) eqn:Hr; [|discriminate H];
      rewrite (load_segment_chain_grows _ _ _ _ _ _ Hg Hr)
  | context [match ?c with _ => _ end] =>
      lazymatch c with
      | context [match _ with _ => _ end] => fail
      | _ => destruct c eqn:?; try discriminate H
      end
  end; try done.

Section durability.
Context `{LedgerCodec}.
Implicit Types (st : ImmutableLedgerStorage).

(** ** Growth *)

Lemma manifest_objects_grows st st' m :
  grows st st' -> verify_migration_manifest_objects st m = Ok tt ->
  verify_migration_manifest_objects st' m = Ok tt.
Proof.
  unfold verify_migration_manifest_objects. intros Hg Hv. carry_reads Hg Hv.
Qed.

Lemma snapshot_grows st st' root :
  grows st st' -> validate_root_snapshot st root = Ok tt ->
  validate_root_snapshot st' root = Ok tt.
Proof.
  unfold validate_root_snapshot, load_revisions, load_policies, load_relations.
  intros Hg Hv. destruct (verify_migration_manifest_objects st _) as [[]|] eqn:Hm.
  - rewrite (manifest_objects_grows _ _ _ Hg Hm). carry_reads Hg Hv.
  - carry_reads Hg Hv.
Qed.

Lemma boundary_grows st st' root :
  grows st st' -> validate_migration_boundary st root = Ok tt ->
  validate_migration_boundary st' root = Ok tt.
Proof.
  unfold validate_migration_boundary, load_revisions, load_policies, load_relations.
  intros Hg Hv. carry_reads Hg Hv.
Qed.

Lemma previous_segment_grows st st' kind h o :
  grows st st' -> verified_previous_segment st kind h = Ok o ->
  verified_previous_segment st' kind h = Ok o.
Proof.
  unfold verified_previous_segment, previous_of.
  intros Hg Hv. destruct kind; carry_reads Hg Hv.
Qed.

Lemma walk_to_grows st st' kind previous fuel fuel' next seen :
  grows st st' -> fuel <= fuel' -> walk_to fuel st kind previous next seen = Ok true ->
  walk_to fuel' st' kind previous next seen = Ok true.
Proof.
  intros Hg. revert fuel' next seen. induction fuel as [|fuel IH];
    intros fuel' [h|] seen Hf Hw; try done; destruct fuel' as [|fuel']; try lia;
    cbn in Hw |- *; destruct (str_eqb h previous); try done;
    destruct (bool_decide (h ∈ seen)); try done.
  destruct (verified_previous_segment st kind h) as [o|] eqn:Ho; [|done].
  rewrite (previous_segment_grows _ _ _ _ _ Hg Ho). apply IH; [lia|done].
Qed.

Lemma head_extends_grows st st' kind current previous :
  grows st st' -> head_extends st kind current previous = Ok true ->
  head_extends st' kind current previous = Ok true.
Proof.
  unfold head_extends. destruct previous; [|done]. intros Hg. apply walk_to_grows; [done|].
  unfold walk_fuel. apply size_grows in Hg. lia.
Qed.

(** [root] may follow [previous]. *)
Record root_extends st (root previous : LedgerRoot) : Prop := {
  rex_watermarks : (root_revision_watermark previous <= root_revision_watermark root)%Z /\
    (root_policy_watermark previous <= root_policy_watermark root)%Z /\
    (root_relation_watermark previous <= root_relation_watermark root)%Z;
  rex_revisions :
    head_extends st Log_Revision (root_revision_head root) (root_revision_head previous) = Ok true;
  rex_policies :
    head_extends st Log_Policy (root_policy_head root) (root_policy_head previous) = Ok true;
  rex_relations :
    head_extends st Log_Relation (root_relation_head root) (root_relation_head previous) = Ok true;
  rex_migration : root_migration_manifest_hash root = root_migration_manifest_hash previous \/
    root_migration_manifest_hash previous = None /\ root_generation previous = 0%Z;
}.

Lemma not_prefix_iff st root previous :
  not_prefix st root previous = Ok false <-> root_extends st root previous.
Proof.
  unfold not_prefix, or_else_try. split.
  - intros Hn. ok_inv Hn. breflect. subst. simpl in *. breflect. subst.
    constructor; [lia|done..|].
    destruct (root_migration_manifest_hash previous) as [m|]; simpl in *; breflect; [by left|].
    destruct (root_migration_manifest_hash root); simpl in *; breflect; auto.
  - intros [(H1 & H2 & H3) -> -> -> Hm].
    rewrite (proj2 (Z.ltb_ge _ _) H1), (proj2 (Z.ltb_ge _ _) H2), (proj2 (Z.ltb_ge _ _) H3).
    simpl. destruct Hm as [->|[-> ->]]; simpl.
    + rewrite bool_decide_eq_true_2 by done.
      by destruct (root_migration_manifest_hash previous).
    + by destruct (root_migration_manifest_hash root).
Qed.

Lemma root_extends_grows st st' root previous :
  grows st st' -> root_extends st root previous -> root_extends st' root previous.
Proof. intros Hg []. constructor; eauto using head_extends_grows. Qed.

(** ** The history of roots *)

(** The checks on a root and its predecessor. *)
Record root_follows st (root previous : LedgerRoot) (previous_hash : string) : Prop := {
  rf_link : root_previous_root_hash root = Some previous_hash;
  rf_generation : root_generation root = (root_generation previous + 1)%Z;
  rf_hash : verify_root_hash previous previous_hash = Ok tt;
  rf_boundary : is_Some (root_migration_manifest_hash root) ->
    root_migration_manifest_hash previous = None -> validate_migration_boundary st root = Ok tt;
  rf_extends : root_extends st root previous;
}.

(** The roots from [h] down to the genesis, newest first. *)
Inductive root_history st : string -> LedgerRoot -> list (string * LedgerRoot) -> Prop :=
  | history_genesis h root :
      root_schema root = ROOT_SCHEMA -> root_generation root = 0%Z ->
      root_previous_root_hash root = None -> genesis_root root = true ->
      validate_root_snapshot st root = Ok tt ->
      root_history st h root [(h, root)]
  | history_next h root previous_hash previous l :
      root_schema root = ROOT_SCHEMA -> validate_root_snapshot st root = Ok tt ->
      read_hashed_object st previous_hash = Ok previous ->
      root_follows st root previous previous_hash ->
      root_history st previous_hash previous l ->
      root_history st h root ((h, root) :: l).

Lemma root_history_generation st h root l :
  root_history st h root l -> root_generation root = (Z.of_nat (length l) - 1)%Z.
Proof.
  induction 1 as [? ? ? Hgen|h root ph p l _ _ _ Hf Hl IH]; simpl; [lia|].
  rewrite (rf_generation _ _ _ _ Hf), IH. destruct l; [inversion Hl|]. simpl. lia.
Qed.

Lemma root_follows_grows st st' root previous ph :
  grows st st' -> root_follows st root previous ph -> root_follows st' root previous ph.
Proof. intros Hg []. constructor; eauto using root_extends_grows, boundary_grows. Qed.

Lemma root_history_grows st st' h root l :
  grows st st' -> root_history st h root l -> root_history st' h root l.
Proof.
  intros Hg. induction 1; econstructor;
    eauto using root_follows_grows, snapshot_grows, read_hashed_object_grows.
Qed.

Lemma root_history_below st h root l h' r' :
  root_history st h root l -> (h', r') ∈ l ->
  (h', r') = (h, root) \/
  read_hashed_object st h' = Ok r' /\ (root_generation r' < root_generation root)%Z.
Proof.
  induction 1 as [|h root ph p l _ _ Hr Hf _ IH]; intros [Heq|Hin]%elem_of_cons; auto.
  - by apply elem_of_nil in Hin.
  - right. pose proof (rf_generation _ _ _ _ Hf).
    destruct (IH Hin) as [Heq|[? ?]]; [injection Heq as -> ->|]; (split; [done|lia]).
Qed.

Lemma root_history_NoDup st h root l :
  read_hashed_object st h = Ok root -> root_history st h root l -> NoDup l.*1.
Proof.
  intros Hr Hl. induction Hl as [|h root ph p l _ _ Hp Hf Hl IH].
  - simpl. constructor; [set_solver|constructor].
  - rewrite fmap_cons. constructor; [|auto].
    intros ([h' r'] & Heq & Hin)%list_elem_of_fmap. cbn in Heq. subst h'.
    pose proof (rf_generation _ _ _ _ Hf).
    destruct (root_history_below _ _ _ _ _ _ Hl Hin) as [Heq|[Hr' ?]].
    + injection Heq as <- <-. rewrite Hr in Hp. apply Ok_inj in Hp as ->. lia.
    + rewrite Hr in Hr'. apply Ok_inj in Hr' as ->. lia.
Qed.

Lemma root_history_length st h root l :
  read_hashed_object st h = Ok root -> root_history st h root l ->
  length l <= size (objects st).
Proof.
  intros Hr Hl. rewrite <-size_dom, <-(length_fmap fst l).
  rewrite <-(size_list_to_set (C := gset string)) by (by eapply root_history_NoDup).
  apply subseteq_size. intros h' ([h2 r'] & -> & Hin)%elem_of_list_to_set%list_elem_of_fmap.
  destruct (root_history_below _ _ _ _ _ _ Hl Hin) as [Heq|[Hr' _]].
  - injection Heq as -> ->. by apply read_hashed_object_dom in Hr.
  - by apply read_hashed_object_dom in Hr'.
Qed.

Lemma walk_roots_sound st fuel g h root seen :
  walk_roots fuel st g h root seen = Ok tt ->
  root_generation root = g /\ exists l, root_history st h root l.
Proof.
  revert g h root seen. induction fuel as [|fuel IH]; intros g h root seen Hw; [done|].
  cbn [walk_roots] in Hw. destruct (bool_decide _ || _ || _) eqn:Hc; [done|]. breflect.
  destruct (validate_root_snapshot st root) as [[]|] eqn:Hs; [|done]. split; [done|].
  destruct (root_previous_root_hash root) as [ph|] eqn:Hp.
  - unfold u64_checked_sub in Hw. destruct (1 <=? g)%Z eqn:Hg; [|done]. cbn [ok_or] in Hw.
    destruct (read_hashed_object st ph) as [p|] eqn:Hr; [|done].
    destruct (verify_root_hash p ph) as [[]|] eqn:Hv; [|done].
    destruct (if _ && _ then _ else _) as [[]|] eqn:Hb; [|done].
    destruct (not_prefix st root p) as [[]|] eqn:Hn; [done| |done].
    apply not_prefix_iff in Hn. apply IH in Hw as [Hgen [l Hl]].
    exists ((h, root) :: l). eapply history_next; eauto. constructor; auto; [lia|].
    intros [m Hm] Hnone. by rewrite Hm, Hnone in Hb.
  - destruct (_ && _) eqn:Hgen; [|done]. breflect.
    exists [(h, root)]. constructor; auto; congruence.
Qed.

Lemma walk_roots_complete st h root l :
  root_history st h root l -> read_hashed_object st h = Ok root -> forall fuel seen,
  length l <= fuel -> (forall h', h' ∈ l.*1 -> h' ∉ seen) ->
  walk_roots fuel st (root_generation root) h root seen = Ok tt.
Proof.
  induction 1 as [h root Hsch Hgen Hp Hg Hs|h root ph p l Hsch Hs Hr Hf Hl IH];
    intros Hroot fuel seen Hfuel Hseen; (destruct fuel as [|fuel]; [simpl in Hfuel; lia|]);
    cbn [walk_roots]; rewrite bool_decide_eq_false_2 by set_solver;
    unfold str_eqb; rewrite (bool_decide_eq_true_2 (root_schema root = _)) by done;
    rewrite Z.eqb_refl, Hs; cbn [negb orb].
  - by rewrite Hp, Hgen, Hg.
  - pose proof (history_next _ h root ph p l Hsch Hs Hr Hf Hl) as Hall.
    destruct Hf as [-> Hgen Hv Hb He]. pose proof (root_history_generation _ _ _ _ Hl) as Hpg.
    pose proof (root_history_length _ _ _ _ Hr Hl).
    assert (0 < length l) by (destruct l; [inversion Hl|simpl; lia]).
    unfold u64_checked_sub. rewrite Hgen, (proj2 (Z.leb_le _ _)) by lia. cbn [ok_or].
    rewrite Hr, Hv. replace (if _ && _ then _ else _) with (@Ok LedgerError unit tt).
    2:{ destruct (root_migration_manifest_hash root), (root_migration_manifest_hash p);
          simpl in *; try done. symmetry. apply Hb; [by eexists|done]. }
    rewrite (proj2 (not_prefix_iff _ _ _) He), Z.add_simpl_r. apply IH; [done|simpl in *; lia|].
    assert (h ∉ l.*1).
    { pose proof (root_history_NoDup _ _ _ _ Hroot Hall) as Hnd.
      rewrite fmap_cons, NoDup_cons in Hnd. apply Hnd. }
    intros h' Hh'. rewrite fmap_cons in Hseen. cbn [fst] in Hseen. set_solver.
Qed.

(** [validate_root_chain] accepts exactly the roots with a valid history. *)
Lemma validate_root_chain_iff st h root :
  read_hashed_object st h = Ok root ->
  validate_root_chain st h root = Ok tt <-> exists l, root_history st h root l.
Proof.
  intros Hr. unfold validate_root_chain. split.
  - by intros [_ ?]%walk_roots_sound.
  - intros [l Hl]. eapply walk_roots_complete; eauto; [|set_solver].
    pose proof (root_history_length _ _ _ _ Hr Hl). unfold walk_fuel. lia.
Qed.

(** ** What a loaded ledger is *)

(** The storage holds, under the root [h], a validated ledger with these logs. *)
Record holds st (h : string) (root : LedgerRoot) (view : CurrentView)
    (revs : list CanonicalRevision) (pols : list PolicyRecord) (rels : list RelationRecord)
    : Prop := {
  h_root : read_hashed_object st h = Ok root;
  h_root_hash : verify_root_hash root h = Ok tt;
  h_schema : root_schema root = ROOT_SCHEMA;
  h_history : exists l, root_history st h root l;
  h_view : read_hashed_object st (root_current_view_hash root) = Ok view;
  h_view_hash : verify_view_hash view (root_current_view_hash root) = Ok tt;
  h_revisions : load_revisions st root = Ok revs;
  h_policies : load_policies st root = Ok pols;
  h_relations : load_relations st root = Ok rels;
  h_revision_log : revision_log revs;
  h_policy_log : policy_log revs pols;
  h_relation_log : validate_relations rels revs = Ok tt;
  h_rebuilt : exists v, loaded_view_check view v root = Ok tt /\
    rebuild_current_view (root_generation root) revs pols (root_relation_watermark root) = Ok v;
}.

Definition loaded_state (h : string) (root : LedgerRoot) (view : CurrentView)
    (revs : list CanonicalRevision) (pols : list PolicyRecord) (rels : list RelationRecord)
    : LedgerState := {|
  ls_poisoned := false; ls_root_hash := Some h; ls_root := Some root; ls_view := Some view;
  ls_revisions := revs; ls_policies := pols; ls_relations := rels |}.

Lemma load_root_sound st h S :
  load_root st h = Ok S ->
  exists root view revs pols rels,
    holds st h root view revs pols rels /\ S = loaded_state h root view revs pols rels.
Proof.
  unfold load_root. intros Hl.
  destruct (read_hashed_object st h) as [root|] eqn:Hr; [|done].
  destruct (verify_root_hash root h) as [[]|] eqn:Hv; [|done].
  destruct (negb _) eqn:Hs; [done|]. breflect.
  destruct (validate_root_chain st h root) as [[]|] eqn:Hc; [|done].
  apply validate_root_chain_iff in Hc; [|done].
  destruct (read_hashed_object st (root_current_view_hash root)) as [view|] eqn:Hview; [|done].
  destruct (verify_view_hash view _) as [[]|] eqn:Hvv; [|done].
  destruct (load_revisions st root) as [revs|] eqn:Hrevs; [|done].
  destruct (load_policies st root) as [pols|] eqn:Hpols; [|done].
  destruct (load_relations st root) as [rels|] eqn:Hrels; [|done].
  destruct (validate_revisions revs) as [[]|] eqn:Hvr; [|done].
  apply validate_revisions_iff in Hvr.
  destruct (validate_policies pols revs) as [[]|] eqn:Hvp; [|done].
  apply validate_policies_iff in Hvp; [|done].
  destruct (validate_relations rels revs) as [[]|] eqn:Hvl; [|done].
  destruct (rebuild_current_view _ _ _ _) as [v|] eqn:Hb; [|done].
  destruct (loaded_view_check view v root) as [[]|] eqn:Hchk; [|done].
  apply Ok_inj in Hl as <-. exists root, view, revs, pols, rels. split; [|done].
  constructor; eauto.
Qed.

Lemma load_root_complete st h root view revs pols rels :
  holds st h root view revs pols rels ->
  load_root st h = Ok (loaded_state h root view revs pols rels).
Proof.
  intros [Hr Hv Hs Hc Hview Hvv Hrevs Hpols Hrels Hvr Hvp Hvl (v & Hchk & Hb)].
  unfold load_root. rewrite Hr, Hv, Hs. unfold str_eqb. rewrite bool_decide_eq_true_2 by done.
  cbn [negb]. rewrite (proj2 (validate_root_chain_iff _ _ _ Hr) Hc), Hview, Hvv, Hrevs, Hpols, Hrels.
  rewrite (proj2 (validate_revisions_iff _) Hvr), (proj2 (validate_policies_iff _ _ Hvr) Hvp), Hvl.
  by rewrite Hb, Hchk.
Qed.

Lemma holds_grows st st' h root view revs pols rels :
  grows st st' -> holds st h root view revs pols rels -> holds st' h root view revs pols rels.
Proof.
  intros Hg []. constructor; try done.
  - by eapply read_hashed_object_grows.
  - destruct h_history0 as [l ?]. exists l. by eapply root_history_grows.
  - by eapply read_hashed_object_grows.
  - by eapply load_segment_chain_grows.
  - by eapply load_segment_chain_grows.
  - by eapply load_segment_chain_grows.
Qed.

(** A storage that loads still loads to the same state after it grows. *)
Lemma load_state_grows st st' S :
  grows st st' -> active st' = active st -> load_state st = Ok S -> load_state st' = Ok S.
Proof.
  intros Hg Ha. unfold load_state. replace (load_pointer st') with (load_pointer st)
    by (unfold load_pointer, read_active; by rewrite Ha).
  destruct (load_pointer st) as [p|]; [|done].
  intros (root & view & revs & pols & rels & Hh & ->)%load_root_sound.
  by apply load_root_complete, (holds_grows st).
Qed.

(** ** Histories are append-only *)

Lemma walk_to_prefix {T} `{!Serde (Segment T)} st kind fuel previous next seen (recs : list T) :
  (forall h, verified_previous_segment st kind h = previous_of (T := T) st kind h) ->
  walk_to fuel st kind previous next seen = Ok true ->
  log_chain st (segment_schema kind) next recs ->
  exists recs', log_chain st (segment_schema kind) (Some previous) recs' /\ recs' `prefix_of` recs.
Proof.
  intros Hk. revert next seen recs. induction fuel as [|fuel IH];
    intros [h|] seen recs Hw Hl; try done; cbn in Hw;
    (destruct (str_eqb h previous) eqn:Hh; [breflect; subst h; eauto|]);
    (destruct (bool_decide (h ∈ seen)); [done|]); [done|].
  inversion Hl as [|h' seg recs0 Hat Hl0 Hf Hs]; subst. rewrite Hk in Hw. unfold previous_of in Hw.
  rewrite (sat_read _ _ _ _ Hat), (sat_hash _ _ _ _ Hat) in Hw.
  rewrite (proj2 (segment_check _ seg) (conj (sat_schema _ _ _ _ Hat) (sat_records _ _ _ _ Hat))) in Hw.
  destruct (IH _ _ _ Hw Hl0) as (recs' & Hl' & Hp). exists recs'.
  split; [done|]. by apply prefix_app_r.
Qed.

Lemma head_extends_prefix {T} `{!Serde (Segment T)} st kind current previous wc wp
    (recs recs' : list T) :
  (forall h, verified_previous_segment st kind h = previous_of (T := T) st kind h) ->
  head_extends st kind current previous = Ok true ->
  load_segment_chain st kind current wc = Ok recs ->
  load_segment_chain st kind previous wp = Ok recs' -> recs' `prefix_of` recs.
Proof.
  intros Hk He [Hc _]%load_segment_chain_iff [Hp _]%load_segment_chain_iff.
  destruct previous as [p|]; [|inversion Hp; apply prefix_nil].
  unfold head_extends in He. destruct (walk_to_prefix _ _ _ _ _ _ _ Hk He Hc) as (l & Hl & ?).
  by rewrite (log_chain_functional _ _ _ _ _ Hp Hl).
Qed.

Lemma snapshot_logs st root :
  validate_root_snapshot st root = Ok tt ->
  exists revs pols rels, load_revisions st root = Ok revs /\ load_policies st root = Ok pols /\
    load_relations st root = Ok rels.
Proof.
  unfold validate_root_snapshot. intros Hs.
  destruct (read_hashed_object st (root_current_view_hash root)) as [v|]; [|done].
  destruct (verify_view_hash v _); [|done].
  destruct (load_revisions st root) as [revs|]; [|done].
  destruct (load_policies st root) as [pols|]; [|done].
  destruct (load_relations st root) as [rels|]; [|done].
  by exists revs, pols, rels.
Qed.

Lemma root_history_snapshot st h root l h' r' :
  root_history st h root l -> (h', r') ∈ l -> validate_root_snapshot st r' = Ok tt.
Proof.
  induction 1 as [| ????? _ Hs _ _ _ IH]; intros [Heq|Hin]%elem_of_cons; simplify_eq; auto.
  by apply elem_of_nil in Hin.
Qed.

(** The logs of every root of a history are prefixes of the newest ones. *)
Lemma root_history_prefix st h root l h' r' revs pols rels revs' pols' rels' :
  root_history st h root l -> (h', r') ∈ l ->
  load_revisions st root = Ok revs -> load_policies st root = Ok pols ->
  load_relations st root = Ok rels ->
  load_revisions st r' = Ok revs' -> load_policies st r' = Ok pols' ->
  load_relations st r' = Ok rels' ->
  revs' `prefix_of` revs /\ pols' `prefix_of` pols /\ rels' `prefix_of` rels.
Proof.
  intros Hl. revert revs pols rels. induction Hl as [|h root ph p l _ Hs Hr Hf Hl IH];
    intros revs pols rels [Heq|Hin]%elem_of_cons Hr1 Hp1 Hl1 Hr2 Hp2 Hl2;
    try (by apply elem_of_nil in Hin);
    try (injection Heq as -> ->; rewrite Hr1 in Hr2; rewrite Hp1 in Hp2; rewrite Hl1 in Hl2;
         apply Ok_inj in Hr2 as ->, Hp2 as ->, Hl2 as ->; by split_and!).
  assert (validate_root_snapshot st p = Ok tt) as Hsp by (by inversion Hl).
  apply snapshot_logs in Hsp as (revs0 & pols0 & rels0 & Hr0 & Hp0 & Hl0).
  destruct (IH _ _ _ Hin Hr0 Hp0 Hl0 Hr2 Hp2 Hl2) as (? & ? & ?).
  destruct (rf_extends _ _ _ _ Hf) as [_ He1 He2 He3 _].
  pose proof (head_extends_prefix (T := CanonicalRevision) st Log_Revision _ _ _ _ _ _
    (fun _ => eq_refl) He1 Hr1 Hr0).
  pose proof (head_extends_prefix (T := PolicyRecord) st Log_Policy _ _ _ _ _ _
    (fun _ => eq_refl) He2 Hp1 Hp0).
  pose proof (head_extends_prefix (T := RelationRecord) st Log_Relation _ _ _ _ _ _
    (fun _ => eq_refl) He3 Hl1 Hl0).
  split_and!; by etrans.
Qed.
End durability.

Arguments h_root {_ _ _ _ _ _ _ _ _} _.
Arguments h_root_hash {_ _ _ _ _ _ _ _ _} _.
Arguments h_schema {_ _ _ _ _ _ _ _ _} _.
Arguments h_history {_ _ _ _ _ _ _ _ _} _.
Arguments h_view {_ _ _ _ _ _ _ _ _} _.
Arguments h_view_hash {_ _ _ _ _ _ _ _ _} _.
Arguments h_revisions {_ _ _ _ _ _ _ _ _} _.
Arguments h_policies {_ _ _ _ _ _ _ _ _} _.
Arguments h_relations {_ _ _ _ _ _ _ _ _} _.
Arguments h_revision_log {_ _ _ _ _ _ _ _ _} _.
Arguments h_policy_log {_ _ _ _ _ _ _ _ _} _.
Arguments h_relation_log {_ _ _ _ _ _ _ _ _} _.
Arguments h_rebuilt {_ _ _ _ _ _ _ _ _} _.
