(* ===== verification/LedgerCommits.v ===== *)
(** * Commits of the ledger

    The in-memory invariant of a ledger and its preservation, what a commit
    checks, what it appends, and that a published commit is what a later load
    returns. *)

From stdpp Require Import base gmap strings list sorting.
From S2P Require Import Prelude Wire MemoryModel LedgerModel LedgerValidate LedgerView LedgerStorage LedgerStore LedgerChains LedgerDurability.

(** ** Documents that JSON represents exactly

    Canonical JSON writes numbers as IEEE-754 doubles, so a document is read
    back unchanged when its integers stay below 2^53 and its floats are finite
    and not the negative zero.  Free-form JSON is excluded: a float without
    fractional part comes back as an integer. *)

Definition safe_int (z : Z) : Prop := (0 <= z <= MAX_JCS_SAFE_INTEGER)%Z.

Definition content_exact (c : MemoryContent) : Prop :=
  match c with
  | Text _ | ObjectRef _ => True
  | Structured _ => False
  | ProcedureContent p => Forall (fun s => safe_int (step_number s)) (proc_steps p)
  | Knowledge k =>
      (0 <= k_confidence_bits k < u32_modulus)%Z /\
      f32_is_finite (k_confidence_bits k) = true /\
      k_confidence_bits k <> (2 ^ 31)%Z
  end.

Record revision_exact (r : CanonicalRevision) : Prop := {
  re_sequence : safe_int (r_sequence r);
  re_content : content_exact (r_content r);
  re_deleted_at : forall t, r_deleted_at r = Some t -> safe_int t;
  re_committed_at : safe_int (r_committed_at r);
}.

Record policy_exact (p : PolicyRecord) : Prop := {
  pe_sequence : safe_int (p_sequence p);
  pe_committed_at : safe_int (p_committed_at p);
}.

Record segment_exact {T} (exact : T -> Prop) (s : Segment T) : Prop := {
  se_first : safe_int (seg_first_sequence s);
  se_last : safe_int (seg_last_sequence s);
  se_records : Forall exact (seg_records s);
}.

Record root_exact (r : LedgerRoot) : Prop := {
  rte_generation : safe_int (root_generation r);
  rte_revisions : safe_int (root_revision_watermark r);
  rte_policies : safe_int (root_policy_watermark r);
  rte_relations : safe_int (root_relation_watermark r);
  rte_committed_at : safe_int (root_committed_at r);
}.

Record view_exact (v : CurrentView) : Prop := {
  ve_generation : safe_int (v_generation v);
  ve_revisions : safe_int (v_revision_watermark v);
  ve_policies : safe_int (v_policy_watermark v);
  ve_relations : safe_int (v_relation_watermark v);
}.

(** [value] is read back from its canonical bytes. *)
Definition read_back `{Platform} {T} `{!Serde T} (value : T) : Prop :=
  forall b, to_vec value = Some b -> from_slice b = Some value.

(** What the ledger relies on of [serde_json] and [serde_json_canonicalizer]. *)
Class LedgerCodecLaws `{LedgerCodec} : Prop := {
  read_back_revisions (s : Segment CanonicalRevision) :
    segment_exact revision_exact s -> read_back s;
  read_back_policies (s : Segment PolicyRecord) : segment_exact policy_exact s -> read_back s;
  read_back_root (r : LedgerRoot) : root_exact r -> read_back r;
  read_back_view (v : CurrentView) : view_exact v -> read_back v;
  read_back_pointer (p : ActivePointer) : read_back p;
  pointer_not_empty (p : ActivePointer) b : to_vec p = Some b -> octets b <> "";
}.

(** ** The in-memory invariant *)

Record state_ok `{LedgerCodec} (S : LedgerState) : Prop := {
  so_revisions : revision_log (ls_revisions S);
  so_policies : policy_log (ls_revisions S) (ls_policies S);
  so_root : exists root view, ls_root S = Some root /\ ls_view S = Some view /\
    root_revision_watermark root = Z.of_nat (length (ls_revisions S)) /\
    root_policy_watermark root = Z.of_nat (length (ls_policies S)) /\
    root_relation_watermark root = Z.of_nat (length (ls_relations S)) /\
    rebuild_current_view (root_generation root) (ls_revisions S) (ls_policies S)
      (root_relation_watermark root) = Ok view;
}.

Section prepare.
Context `{LedgerCodec}.
Implicit Types (S : LedgerState).

(** What a successful preparation computed and checked. *)
Record prepared (now : Z) (new_v4 : nat -> string) (S : LedgerState) (role_id : string)
    (tier : MemoryTier) (revisions : list CanonicalRevision) (expected : list ExpectedHead)
    (stamped : list CanonicalRevision) (policies : list PolicyRecord)
    (rs vs rt : bytes * string) (po : option (Z * bytes * string)) (view : CurrentView)
    : Prop := {
  pr_length : length revisions = length expected;
  pr_nonempty : revisions <> [];
  pr_tier : tier <> Tier_Ephemeral;
  pr_writable : ls_poisoned S = false;
  pr_expected : exists batch,
    try_for (check_expected_step role_id tier (default genesis_view (ls_view S))) 0
      (∅ : gset string) (zip revisions expected) = Ok batch;
  pr_writers :
    try_for (check_writer_step role_id (default genesis_view (ls_view S)) (ls_policies S))
      0 tt revisions = Ok tt;
  pr_stamped : stamped =
    imap (stamp role_id now (Z.of_nat (length (ls_revisions S)) + 1)) revisions;
  pr_policies : policies =
    new_policies role_id now (Z.of_nat (length (ls_policies S)) + 1) new_v4 0
      (zip stamped expected);
  pr_revision_log : revision_log (ls_revisions S ++ stamped);
  pr_policy_log : policy_log (ls_revisions S ++ stamped) (ls_policies S ++ policies);
  pr_segment : segment_bytes_and_hash (revision_segment_of S stamped) = Ok rs;
  pr_policy_object : policy_object_of S policies = Ok po;
  pr_view : rebuild_current_view (next_generation S) (ls_revisions S ++ stamped)
    (ls_policies S ++ policies) (Z.of_nat (length (ls_relations S))) = Ok view;
  pr_view_bytes : view_bytes_and_hash view = Ok vs;
  pr_root : root_bytes_and_hash
    (root_of S role_id now (revision_segment_of S stamped) (snd rs) po (snd vs)) = Ok rt;
}.

(** The candidate those ingredients make. *)
Definition candidate_of (now : Z) (S : LedgerState) (role_id : string)
    (stamped : list CanonicalRevision) (policies : list PolicyRecord)
    (rs vs rt : bytes * string) (po : option (Z * bytes * string)) (view : CurrentView)
    : Candidate := {|
  cd_revisions := stamped;
  cd_policies := policies;
  cd_all_revisions := ls_revisions S ++ stamped;
  cd_all_policies := ls_policies S ++ policies;
  cd_generation := next_generation S;
  cd_objects := (snd rs, fst rs)
    :: match po with Some (_, b, hash) => [(hash, b)] | None => [] end
    ++ [(snd vs, fst vs); (snd rt, fst rt)];
  cd_view := view;
  cd_root := root_of S role_id now (revision_segment_of S stamped) (snd rs) po (snd vs);
  cd_root_hash := snd rt;
  cd_pointer := jcs {| ptr_schema := ROOT_POINTER_SCHEMA; ptr_root_hash := snd rt |} |}.

Lemma prepare_commit_inv now v4 S role tier revs exps c :
  prepare_commit now v4 S role tier revs exps = Ok c ->
  exists stamped pols rs vs rt po view,
    prepared now v4 S role tier revs exps stamped pols rs vs rt po view /\
    c = candidate_of now S role stamped pols rs vs rt po view.
Proof.
  unfold prepare_commit. intros Hp.
  destruct (negb _ || _) eqn:Hc1; [done|]. breflect.
  destruct (bool_decide (tier = _)) eqn:Hc2; [done|]. breflect.
  destruct (ls_poisoned S) eqn:Hc3; [done|].
  destruct (try_for _ _ ∅ _) as [batch|] eqn:Hc4; [|done].
  destruct (try_for _ _ tt _) as [[]|] eqn:Hc5; [|done].
  destruct (validate_revisions _) as [[]|] eqn:Hc6; [|done].
  apply validate_revisions_iff in Hc6.
  destruct (validate_policies _ _) as [[]|] eqn:Hc7; [|done].
  apply validate_policies_iff in Hc7; [|done].
  destruct (segment_bytes_and_hash _) as [rs|] eqn:Hc8; [|done].
  destruct (policy_object_of _ _) as [po|] eqn:Hc9; [|done].
  destruct (rebuild_current_view _ _ _ _) as [view|] eqn:Hc10; [|done].
  destruct (view_bytes_and_hash _) as [vs|] eqn:Hc11; [|done].
  destruct (root_bytes_and_hash _) as [rt|] eqn:Hc12; [|done].
  apply Ok_inj in Hp as <-. do 7 eexists. split; [|reflexivity].
  constructor; eauto.
  - by apply Nat.eqb_eq.
  - by destruct revs.
Qed.
End prepare.

Arguments pr_length {_ _ _ _ _ _ _ _ _ _ _ _ _ _ _ _} _.
Arguments pr_nonempty {_ _ _ _ _ _ _ _ _ _ _ _ _ _ _ _} _.
Arguments pr_tier {_ _ _ _ _ _ _ _ _ _ _ _ _ _ _ _} _.
Arguments pr_writable {_ _ _ _ _ _ _ _ _ _ _ _ _ _ _ _} _.
Arguments pr_expected {_ _ _ _ _ _ _ _ _ _ _ _ _ _ _ _} _.
Arguments pr_writers {_ _ _ _ _ _ _ _ _ _ _ _ _ _ _ _} _.
Arguments pr_stamped {_ _ _ _ _ _ _ _ _ _ _ _ _ _ _ _} _.
Arguments pr_policies {_ _ _ _ _ _ _ _ _ _ _ _ _ _ _ _} _.
Arguments pr_revision_log {_ _ _ _ _ _ _ _ _ _ _ _ _ _ _ _} _.
Arguments pr_policy_log {_ _ _ _ _ _ _ _ _ _ _ _ _ _ _ _} _.
Arguments pr_segment {_ _ _ _ _ _ _ _ _ _ _ _ _ _ _ _} _.
Arguments pr_policy_object {_ _ _ _ _ _ _ _ _ _ _ _ _ _ _ _} _.
Arguments pr_view {_ _ _ _ _ _ _ _ _ _ _ _ _ _ _ _} _.
Arguments pr_view_bytes {_ _ _ _ _ _ _ _ _ _ _ _ _ _ _ _} _.
Arguments pr_root {_ _ _ _ _ _ _ _ _ _ _ _ _ _ _ _} _.

(** ** Sequence numbers and lengths *)

Section sequences.
Context `{LedgerCodec}.

Lemma revision_watermark (log : list CanonicalRevision) :
  revision_log log -> from_option r_sequence 0%Z (last log) = Z.of_nat (length log).
Proof.
  destruct log as [|r log _] using rev_ind; [done|]. intros Hl.
  rewrite last_snoc, length_app. simpl. rewrite (rok_sequence log r); [lia|].
  by apply prefix_ok_snoc in Hl as [_ ?].
Qed.

Lemma policy_watermark revs (log : list PolicyRecord) :
  policy_log revs log -> from_option p_sequence 0%Z (last log) = Z.of_nat (length log).
Proof.
  intros [Hl _]. destruct log as [|p log _] using rev_ind; [done|].
  rewrite last_snoc, length_app. simpl. rewrite (pok_sequence revs log p); [lia|].
  by apply prefix_ok_snoc in Hl as [_ ?].
Qed.

Lemma stamp_length role now first (revs : list CanonicalRevision) :
  length (imap (stamp role now first) revs) = length revs.
Proof. apply length_imap. Qed.

Lemma new_policies_length role now first v4 k xs :
  length (new_policies role now first v4 k xs) <= length xs.
Proof.
  revert k. induction xs as [|[r e] xs IH]; intros k; simpl; [lia|].
  destruct (expects_absent e); simpl; [specialize (IH (S k))|specialize (IH k)]; lia.
Qed.

Lemma new_policies_exact role now first v4 k xs :
  safe_int now -> (0 <= first)%Z ->
  (first + Z.of_nat k + Z.of_nat (length xs) <= MAX_JCS_SAFE_INTEGER)%Z ->
  Forall policy_exact (new_policies role now first v4 k xs).
Proof.
  intros Hn Hf. revert k. induction xs as [|[r e] xs IH]; intros k Hk; cbn in *; [constructor|].
  destruct (expects_absent e); [constructor|]; [|apply IH; lia..].
  constructor; cbn; [unfold safe_int in *; lia|done].
Qed.

Lemma stamped_exact role now first (revs : list CanonicalRevision) :
  safe_int now -> (0 <= first)%Z ->
  (first + Z.of_nat (length revs) <= MAX_JCS_SAFE_INTEGER)%Z ->
  Forall (fun r => content_exact (r_content r)) revs ->
  Forall revision_exact (imap (stamp role now first) revs).
Proof.
  intros Hn Hf Hl Hc. apply Forall_lookup. intros i r Hr.
  rewrite list_lookup_imap, fmap_Some in Hr. destruct Hr as (r0 & Hr0 & ->).
  apply lookup_lt_Some in Hr0 as Hi. rewrite Forall_lookup in Hc. specialize (Hc _ _ Hr0).
  constructor; cbn; [unfold safe_int in *; lia|done| |done].
  intros t Ht. destruct (r_deleted_at r0); simplify_eq. done.
Qed.

Lemma relation_bad_app revs revs' i x :
  relation_bad revs i x = false -> relation_bad (revs ++ revs') i x = false.
Proof.
  unfold relation_bad, str_mem. rewrite !orb_false_iff, !negb_false_iff, !bool_decide_eq_true.
  rewrite fmap_app, !elem_of_app. naive_solver.
Qed.

Lemma validate_relations_app rels revs revs' :
  validate_relations rels revs = Ok tt -> validate_relations rels (revs ++ revs') = Ok tt.
Proof.
  unfold validate_relations. generalize 0. induction rels as [|x rels IH]; intros i Hv; [done|].
  cbn [try_for] in *. destruct (relation_bad revs i x) eqn:Hx; [done|].
  rewrite (relation_bad_app _ _ _ _ Hx). auto.
Qed.
End sequences.

(** ** A published commit is what the next load returns *)

(** The numbers of the commit stay exactly representable. *)
Record commit_exact (now : Z) (S : LedgerState) (revs : list CanonicalRevision) : Prop := {
  ce_now : safe_int now;
  ce_generation : forall root, ls_root S = Some root ->
    (0 <= root_generation root < MAX_JCS_SAFE_INTEGER)%Z;
  ce_revisions : (Z.of_nat (length (ls_revisions S) + length revs) < MAX_JCS_SAFE_INTEGER)%Z;
  ce_policies : (Z.of_nat (length (ls_policies S) + length revs) < MAX_JCS_SAFE_INTEGER)%Z;
  ce_relations : (Z.of_nat (length (ls_relations S)) <= MAX_JCS_SAFE_INTEGER)%Z;
  ce_contents : Forall (fun r => content_exact (r_content r)) revs;
}.

Arguments ce_now {_ _ _} _.
Arguments ce_generation {_ _ _} _.
Arguments ce_revisions {_ _ _} _.
Arguments ce_policies {_ _ _} _.
Arguments ce_relations {_ _ _} _.
Arguments ce_contents {_ _ _} _.

Section published.
Context `{LedgerCodecLaws}.

Lemma canonical_stored {T} `{!Serde T} st domain cat (v : T) x :
  canonical_bytes_and_hash domain v = Ok x -> get_immutable st (snd x) = Ok (fst x) ->
  read_back v ->
  read_hashed_object st (snd x) = Ok v /\ verify domain v (snd x) cat = Ok tt.
Proof.
  unfold canonical_bytes_and_hash, verify, read_hashed_object, io_err, jcs, ok_or, read_back.
  intros Hx Hg Hb. destruct (to_vec v) as [b|] eqn:Hv; [|done]. apply Ok_inj in Hx as <-.
  cbn in Hg |- *. rewrite Hg. cbn. rewrite (Hb b eq_refl), Hv.
  unfold canonical_bytes_and_hash, jcs, ok_or. rewrite Hv. cbn. unfold str_eqb.
  by rewrite !bool_decide_eq_true_2.
Qed.

Lemma walk_to_next st kind h p :
  verified_previous_segment st kind h = Ok (Some p) -> 2 <= walk_fuel st ->
  head_extends st kind (Some h) (Some p) = Ok true.
Proof.
  intros Hv Hf. unfold head_extends. destruct (walk_fuel st) as [|[|n]]; try lia.
  cbn. destruct (str_eqb h p); [done|]. rewrite bool_decide_eq_false_2 by set_solver.
  rewrite Hv. unfold str_eqb. by rewrite bool_decide_eq_true_2.
Qed.

Lemma head_extends_refl st kind o : head_extends st kind o o = Ok true.
Proof.
  destruct o as [h|]; [|done]. unfold head_extends, walk_fuel. cbn. unfold str_eqb.
  by rewrite bool_decide_eq_true_2.
Qed.

Lemma walk_fuel_stored st h b : get_immutable st h = Ok b -> 2 <= walk_fuel st.
Proof.
  unfold get_immutable, ok_or, walk_fuel. intros Hg. ok_inv Hg. subst.
  destruct (decide (objects st = ∅)) as [He|He]; [by rewrite He, lookup_empty in Heqo|].
  pose proof (map_size_non_empty_iff (objects st)) as Hs. apply Hs in He. lia.
Qed.

(** A new segment above the old head of its log. *)
Lemma new_segment_extends {T} `{!Serde (Segment T)} st kind (seg : Segment T) h b p :
  segment_at st (segment_schema kind) h seg -> seg_previous_segment_hash seg = p ->
  (forall h, verified_previous_segment st kind h = previous_of (T := T) st kind h) ->
  get_immutable st h = Ok b -> head_extends st kind (Some h) p = Ok true.
Proof.
  intros [Hr Hv Hs Hn] Hp Hk Hg. destruct p as [p|]; [|done]. apply walk_to_next.
  - rewrite Hk. unfold previous_of. rewrite Hr, Hv.
    rewrite (proj2 (segment_check _ seg) (conj Hs Hn)). by rewrite Hp.
  - by eapply walk_fuel_stored.
Qed.

(** *** One commit over a loaded ledger *)

Section commit.
Variables (st st' : ImmutableLedgerStorage) (h : string) (root : LedgerRoot)
  (view : CurrentView) (revs : list CanonicalRevision) (pols : list PolicyRecord)
  (rels : list RelationRecord).
Hypothesis Hholds : holds st h root view revs pols rels.
Let S := loaded_state h root view revs pols rels.

Variables (now : Z) (v4 : nat -> string) (role : string) (tier : MemoryTier)
  (input : list CanonicalRevision) (exps : list ExpectedHead)
  (stamped : list CanonicalRevision) (news : list PolicyRecord)
  (rs vs rt : bytes * string) (po : option (Z * bytes * string)) (view' : CurrentView).
Hypothesis Hprep : prepared now v4 S role tier input exps stamped news rs vs rt po view'.
Hypothesis Hexact : commit_exact now S input.
Hypothesis Hgrows : grows st st'.

Let c := candidate_of now S role stamped news rs vs rt po view'.
Let root' := root_of S role now (revision_segment_of S stamped) (snd rs) po (snd vs).
Hypothesis Hstored : forall k b, (k, b) ∈ cd_objects c -> get_immutable st' k = Ok b.

Lemma old_watermarks :
  root_revision_watermark root = Z.of_nat (length revs) /\
  root_policy_watermark root = Z.of_nat (length pols) /\
  root_relation_watermark root = Z.of_nat (length rels).
Proof.
  destruct Hholds as [_ _ _ _ _ _ Hr Hp Hl _ _ _ _].
  apply load_segment_chain_iff in Hr as [_ ?], Hp as [_ ?], Hl as [_ ?]. done.
Qed.

Lemma generation_succ : next_generation S = (root_generation root + 1)%Z.
Proof.
  cbn. unfold u64_add. apply Z.mod_small.
  destruct (ce_generation Hexact root eq_refl) as [? Hlt].
  split; [lia|]. etrans; [apply Z.add_lt_mono_r, Hlt|]. done.
Qed.

Lemma stamped_len : length stamped = length input.
Proof. rewrite (pr_stamped Hprep). apply stamp_length. Qed.

Lemma news_len : length news <= length input.
Proof.
  rewrite (pr_policies Hprep).
  etrans; [apply new_policies_length|]. rewrite length_zip, stamped_len. lia.
Qed.

Lemma stamped_nonempty : stamped <> [].
Proof.
  intros Hn. pose proof stamped_len as Hl. rewrite Hn in Hl.
  destruct input eqn:Hi; [by apply (pr_nonempty Hprep)|done].
Qed.

Lemma new_revision_segment :
  segment_at st' (segment_schema Log_Revision) (snd rs) (revision_segment_of S stamped).
Proof.
  destruct (canonical_stored st' SEGMENT_DOMAIN "segment_hash_mismatch" _ rs
    (pr_segment Hprep)) as [Hr Hv].
  - apply Hstored. left.
  - apply read_back_revisions. pose proof stamped_len. pose proof (ce_revisions Hexact).
    constructor; cbn in *; [unfold safe_int; lia..|].
    rewrite (pr_stamped Hprep). cbn.
    apply stamped_exact; [apply Hexact|lia..|apply Hexact].
  - constructor; [done..|apply stamped_nonempty].
Qed.

Lemma new_revisions : load_revisions st' root' = Ok (revs ++ stamped).
Proof.
  apply load_segment_chain_iff. split.
  - apply (log_app _ _ (snd rs) (revision_segment_of S stamped)); [apply new_revision_segment| |..].
    + cbn. pose proof (h_revisions Hholds) as Hr.
      apply load_segment_chain_iff in Hr as [Hr _]. by apply (log_chain_grows st).
    + done.
    + cbn. lia.
  - cbn. rewrite length_app. lia.
Qed.

Lemma policy_object_cases :
  po = None /\ news = [] \/
  exists x, segment_bytes_and_hash (policy_segment_of S news) = Ok x /\ news <> [] /\
    po = Some (seg_last_sequence (policy_segment_of S news), fst x, snd x).
Proof.
  pose proof (pr_policy_object Hprep) as Hp.
  unfold policy_object_of in Hp. destruct news as [|p l]; [left; split; [congruence|done]|].
  destruct (segment_bytes_and_hash _) as [x|] eqn:Hx; [|done]. apply Ok_inj in Hp as <-.
  right. by exists x.
Qed.

Lemma new_policy_segment x :
  segment_bytes_and_hash (policy_segment_of S news) = Ok x -> news <> [] ->
  po = Some (seg_last_sequence (policy_segment_of S news), fst x, snd x) ->
  segment_at st' (segment_schema Log_Policy) (snd x) (policy_segment_of S news).
Proof.
  intros Hx Hne Hpo.
  destruct (canonical_stored st' SEGMENT_DOMAIN "segment_hash_mismatch" _ x Hx) as [Hr Hv].
  - apply Hstored. cbn. rewrite Hpo. right. left.
  - apply read_back_policies. pose proof news_len. pose proof (ce_policies Hexact).
    constructor; cbn in *; [unfold safe_int; lia..|].
    rewrite (pr_policies Hprep). cbn.
    apply new_policies_exact; [apply Hexact|lia|].
    rewrite length_zip, stamped_len. lia.
  - by constructor.
Qed.

Lemma new_policies_loaded : load_policies st' root' = Ok (pols ++ news).
Proof.
  pose proof (h_policies Hholds) as Hp. apply load_segment_chain_iff in Hp as [Hp Hw].
  apply (log_chain_grows st st') in Hp; [|done]. apply load_segment_chain_iff.
  destruct policy_object_cases as [[Hpo Hn]|(x & Hx & Hne & Hpo)]; unfold root', root_of; rewrite Hpo.
  - rewrite Hn, app_nil_r. cbn. done.
  - split.
    + apply (log_app _ _ (snd x) (policy_segment_of S news)); [by apply new_policy_segment|done..|].
      cbn. lia.
    + cbn. rewrite length_app. lia.
Qed.

Lemma new_relations : load_relations st' root' = Ok rels.
Proof.
  eapply load_segment_chain_grows; [exact Hgrows|]. apply (h_relations Hholds).
Qed.

Lemma new_view_fields :
  v_schema view' = CURRENT_VIEW_SCHEMA /\ v_generation view' = root_generation root' /\
  v_revision_watermark view' = root_revision_watermark root' /\
  v_policy_watermark view' = root_policy_watermark root' /\
  v_relation_watermark view' = root_relation_watermark root'.
Proof.
  pose proof (pr_view Hprep) as Hv.
  unfold rebuild_current_view in Hv. destruct (streams_of_entries _ _) as [ss|]; [|done].
  apply Ok_inj in Hv. rewrite <-Hv. cbn [v_schema v_generation v_revision_watermark v_policy_watermark
    v_relation_watermark].
  rewrite (revision_watermark _ (pr_revision_log Hprep)).
  rewrite (policy_watermark _ _ (pr_policy_log Hprep)).
  destruct old_watermarks as (_ & _ & Hrel). rewrite !length_app. split_and!; [done..| | |].
  - cbn. lia.
  - destruct policy_object_cases as [[Hpo Hn]|(x & Hx & Hne & Hpo)];
      unfold root', root_of; rewrite Hpo; cbn; [rewrite Hn; simpl|]; lia.
  - cbn. by rewrite Hrel.
Qed.

Lemma new_view_exact : view_exact view'.
Proof.
  destruct new_view_fields as (_ & Hg & Hr & Hp & Hl), old_watermarks as (_ & _ & Hrel).
  pose proof stamped_len. pose proof news_len. pose proof Hexact as [_ Hgen Hcr Hcp Hcl _].
  specialize (Hgen root eq_refl). pose proof generation_succ as Hsucc. cbn in Hcr, Hcp, Hcl.
  constructor; [rewrite Hg|rewrite Hr|rewrite Hp|rewrite Hl]; unfold safe_int.
  - change (root_generation root') with (next_generation S). lia.
  - cbn. lia.
  - destruct policy_object_cases as [[Hpo Hn]|(x & Hx & Hne & Hpo)];
      unfold root', root_of; rewrite Hpo; cbn; lia.
  - cbn. lia.
Qed.

Lemma new_root_exact : root_exact root'.
Proof.
  pose proof new_view_exact as [Hg Hr Hp Hl].
  destruct new_view_fields as (_ & Eg & Er & Ep & El).
  rewrite Eg in Hg. rewrite Er in Hr. rewrite Ep in Hp. rewrite El in Hl.
  constructor; try done. apply (ce_now Hexact).
Qed.

Lemma new_view_stored :
  read_hashed_object st' (root_current_view_hash root') = Ok view' /\
  verify_view_hash view' (root_current_view_hash root') = Ok tt.
Proof.
  apply (canonical_stored st' VIEW_DOMAIN "current_view_hash_mismatch" _ vs (pr_view_bytes Hprep)).
  - apply Hstored. cbn. right. apply elem_of_app. right. left.
  - apply read_back_view, new_view_exact.
Qed.

Lemma new_root_stored :
  read_hashed_object st' (snd rt) = Ok root' /\ verify_root_hash root' (snd rt) = Ok tt.
Proof.
  apply (canonical_stored st' ROOT_DOMAIN "root_hash_mismatch" _ rt (pr_root Hprep)).
  - apply Hstored. cbn. right. apply elem_of_app. right. right. left.
  - apply read_back_root, new_root_exact.
Qed.

Lemma new_rebuilt :
  rebuild_current_view (root_generation root') (revs ++ stamped) (pols ++ news)
    (root_relation_watermark root') = Ok view'.
Proof.
  rewrite <-(pr_view Hprep). f_equal. cbn. by destruct old_watermarks as (_ & _ & ->).
Qed.

Lemma view_jcs : exists b, jcs view' = Ok b.
Proof.
  pose proof (pr_view_bytes Hprep) as Hv. unfold view_bytes_and_hash, canonical_bytes_and_hash in Hv.
  destruct (jcs view') as [b|]; [by eexists|done].
Qed.

Lemma new_manifest :
  verify_migration_manifest_objects st' (root_migration_manifest_hash root') = Ok tt.
Proof.
  apply (manifest_objects_grows st); [done|]. destruct (h_history Hholds) as [l Hl].
  assert (validate_root_snapshot st root = Ok tt) as Hs by (by inversion Hl).
  unfold validate_root_snapshot in Hs. cbn.
  destruct (verify_migration_manifest_objects st _) as [[]|]; [done|]. by ok_inv Hs.
Qed.

Lemma new_revision_log : revision_log (revs ++ stamped).
Proof. exact (pr_revision_log Hprep). Qed.

Lemma new_policy_log : policy_log (revs ++ stamped) (pols ++ news).
Proof. exact (pr_policy_log Hprep). Qed.

Lemma new_snapshot : validate_root_snapshot st' root' = Ok tt.
Proof.
  unfold validate_root_snapshot. destruct new_view_stored as [-> ->].
  rewrite new_revisions, new_policies_loaded, new_relations.
  rewrite (proj2 (validate_revisions_iff _) new_revision_log).
  rewrite (proj2 (validate_policies_iff _ _ new_revision_log) new_policy_log).
  rewrite (validate_relations_app _ _ _ (h_relation_log Hholds)), new_manifest, new_rebuilt.
  unfold view_matches. destruct view_jcs as [b ->].
  destruct new_view_fields as (-> & -> & -> & -> & ->). unfold str_eqb.
  by rewrite !Z.eqb_refl, !bool_decide_eq_true_2.
Qed.

Lemma new_extends : root_extends st' root' root.
Proof.
  destruct old_watermarks as (Hr & Hp & Hl). constructor.
  - rewrite Hr, Hp, Hl. destruct policy_object_cases as [[Hpo Hn]|(x & Hx & Hne & Hpo)];
      unfold root', root_of; rewrite Hpo; cbn; lia.
  - eapply (new_segment_extends (T := CanonicalRevision)); [apply new_revision_segment|done|done|].
    apply Hstored. left.
  - destruct policy_object_cases as [[Hpo Hn]|(x & Hx & Hne & Hpo)];
      unfold root', root_of; rewrite Hpo; [apply head_extends_refl|].
    eapply (new_segment_extends (T := PolicyRecord)); [by apply new_policy_segment|done|done|].
    apply Hstored. cbn. rewrite Hpo. right. left.
  - apply head_extends_refl.
  - by left.
Qed.

Lemma new_history : exists l, root_history st' (snd rt) root' l.
Proof.
  destruct (h_history Hholds) as [l Hl]. exists ((snd rt, root') :: l).
  apply (history_next _ _ _ h root).
  - done.
  - apply new_snapshot.
  - eapply read_hashed_object_grows; [exact Hgrows|apply (h_root Hholds)].
  - constructor; [done|apply generation_succ|apply (h_root_hash Hholds)| |apply new_extends].
    cbn. by intros [m ->] ?.
  - by eapply root_history_grows.
Qed.

Lemma holds_commit : holds st' (snd rt) root' view' (revs ++ stamped) (pols ++ news) rels.
Proof.
  destruct new_root_stored, new_view_stored. constructor; try done.
  - apply new_history.
  - apply new_revisions.
  - apply new_policies_loaded.
  - apply new_relations.
  - apply new_revision_log.
  - apply new_policy_log.
  - apply validate_relations_app, (h_relation_log Hholds).
  - exists view'. split; [|apply new_rebuilt]. unfold loaded_view_check.
    destruct view_jcs as [b ->]. destruct new_view_fields as (-> & -> & -> & -> & ->).
    unfold str_eqb. by rewrite !Z.eqb_refl, !bool_decide_eq_true_2.
Qed.
End commit.
End published.

(** ** The outcomes of a commit *)

Section outcomes.
Context `{LedgerCodec}.

(** Either nothing was published and the state is kept, or the prepared
    candidate is stored and the pointer names it. *)
Lemma commit_records_cases io now v4 st S role tier revs exps r S' st' :
  commit_records io now v4 st S role tier revs exps = (r, S', st') ->
  (exists e, r = Err e) /\ S' = S /\ grows st st' /\ active st' = active st \/
  exists c b, prepare_commit now v4 S role tier revs exps = Ok c /\ cd_pointer c = Ok b /\
    grows st st' /\ active st' = Some b /\
    (forall k o, (k, o) ∈ cd_objects c -> get_immutable st' k = Ok o) /\
    (r = Ok (receipts c now) /\ S' = committed_state S c \/
     r = Err CommitIndeterminate /\ S' = poison S).
Proof.
  unfold commit_records. intros Hc.
  destruct (prepare_commit _ _ _ _ _ _ _) as [c|e] eqn:Hp; 
    [|simplify_eq; left; split_and!; [by eauto|done|reflexivity|done]].
  destruct (put_all _ _ _) as [[[]|e] st1] eqn:Hput; pose proof (put_all_grows _ _ _ _ _ Hput) as [Hg Ha].
  2: { simplify_eq. left. split_and!; [by eauto|done..]. }
  destruct (cd_pointer c) as [b|e] eqn:Hb; 
    [|simplify_eq; left; split_and!; [by eauto|done..]].
  destruct (publish_active _ _ _) as [r0 st2] eqn:Hpub.
  apply publish_active_spec in Hpub as (Ho & _ & Hact).
  assert (grows st st2) as Hg2 by (unfold grows; by rewrite Ho).
  assert (forall k o, (k, o) ∈ cd_objects c -> get_immutable st2 k = Ok o) as Hst.
  { intros k o Hin. unfold get_immutable. rewrite Ho. by apply (put_all_stored _ _ _ _ _ _ Hput). }
  destruct r0 as [|[e|e]]; simplify_eq.
  - right. exists c, b. by eauto 10.
  - left. split; [by eauto|]. split_and!; [done..|congruence].
  - right. exists c, b. by eauto 10.
Qed.
End outcomes.

Section reload.
Context `{LedgerCodecLaws}.

Lemma load_state_inv st S :
  load_state st = Ok S ->
  exists h root view revs pols rels,
    holds st h root view revs pols rels /\ S = loaded_state h root view revs pols rels.
Proof.
  unfold load_state. destruct (load_pointer st); [|done].
  intros (root & view & revs & pols & rels & Hh & ->)%load_root_sound. eauto 10.
Qed.

Lemma load_pointer_published st h b :
  jcs {| ptr_schema := ROOT_POINTER_SCHEMA; ptr_root_hash := h |} = Ok b ->
  active st = Some b ->
  load_pointer st = Ok {| ptr_schema := ROOT_POINTER_SCHEMA; ptr_root_hash := h |}.
Proof.
  unfold load_pointer, read_active, jcs, ok_or. intros Hj Ha. rewrite Ha.
  destruct (to_vec _) as [b'|] eqn:Hv; [|done]. apply Ok_inj in Hj as ->.
  unfold str_eqb. rewrite bool_decide_eq_false_2 by (by eapply pointer_not_empty).
  rewrite (read_back_pointer _ _ Hv). rewrite Hv.
  by rewrite !bool_decide_eq_true_2.
Qed.

(** Once the pointer is published, loading returns the committed state. *)
Lemma published_loads now v4 st st' S role tier revs exps c b :
  load_state st = Ok S -> commit_exact now S revs ->
  prepare_commit now v4 S role tier revs exps = Ok c -> cd_pointer c = Ok b ->
  grows st st' -> active st' = Some b ->
  (forall k o, (k, o) ∈ cd_objects c -> get_immutable st' k = Ok o) ->
  load_state st' = Ok (committed_state S c).
Proof.
  intros (h & root & view & rs & ps & ls & Hh & ->)%load_state_inv Hex Hp Hb Hg Ha Hst.
  apply prepare_commit_inv in Hp as (stamped & news & x & vs & rt & po & view' & Hp & ->).
  unfold load_state. rewrite (load_pointer_published _ _ _ Hb Ha).
  cbn [ptr_root_hash]. rewrite (load_root_complete _ _ _ _ _ _ _
    (holds_commit _ _ _ _ _ _ _ _ Hh _ _ _ _ _ _ _ _ _ _ _ _ _ Hp Hex Hg Hst)).
  done.
Qed.

(** A load re-establishes the in-memory invariant. *)
Lemma load_state_ok st S :
  load_state st = Ok S ->
  (forall root, ls_root S = Some root -> safe_int (root_generation root)) ->
  (Z.of_nat (length (ls_revisions S)) <= MAX_JCS_SAFE_INTEGER)%Z ->
  (Z.of_nat (length (ls_policies S)) <= MAX_JCS_SAFE_INTEGER)%Z ->
  (Z.of_nat (length (ls_relations S)) <= MAX_JCS_SAFE_INTEGER)%Z ->
  state_ok S.
Proof.
  intros (h & root & view & rs & ps & ls & Hh & ->)%load_state_inv Hg H1' H2' H3'.
  cbn in H1', H2', H3'. specialize (Hg root eq_refl).
  destruct (old_watermarks _ _ _ _ _ _ _ Hh) as (Hr & Hp & Hl).
  constructor; [apply (h_revision_log Hh)|apply (h_policy_log Hh)|].
  exists root, view. split_and!; try done.
  destruct (h_rebuilt Hh) as (v & Hchk & Hv). cbn [loaded_state ls_revisions ls_policies].
  rewrite Hv. f_equal. unfold loaded_view_check in Hchk.
  destruct (negb _ || _ || _ || _ || _) eqn:Hf in Hchk; [done|]. breflect.
  destruct (jcs view) as [a|] eqn:Ha; [|done]. destruct (jcs v) as [b|] eqn:Hb; [|done].
  destruct (negb _) eqn:Hab in Hchk; [done|]. breflect. subst b.
  assert (view_exact v) as Hex.
  { pose proof (revision_watermark _ (h_revision_log Hh)) as W1.
    pose proof (policy_watermark _ _ (h_policy_log Hh)) as W2.
    unfold rebuild_current_view in Hv. destruct (streams_of_entries _ _); [|done].
    apply Ok_inj in Hv as <-. rewrite W1, W2, Hl. unfold safe_int in *.
    constructor; cbn; unfold safe_int; lia. }
  pose proof (h_view Hh) as Hread. unfold read_hashed_object in Hread.
  destruct (io_err _) as [b|] eqn:Hio; [|done]. destruct (from_slice b) as [w|] eqn:Hw; [|done].
  cbn [ok_or] in Hread. destruct (jcs w) as [cb|] eqn:Hcb; [|done].
  destruct (negb _) eqn:Hbc in Hread; [done|]. breflect. apply Ok_inj in Hread. subst w b.
  rewrite Ha in Hcb. apply Ok_inj in Hcb as <-. unfold jcs, ok_or in Hb.
  destruct (to_vec v) as [bv|] eqn:Hbv; [|done]. apply Ok_inj in Hb as ->.
  pose proof (read_back_view v Hex _ Hbv). congruence.
Qed.
End reload.

(** * Heads and authority under commits

    A commit is a compare-and-set on the heads of its memories, by a role the
    current policies let write.  These lemmas relate the loops of
    [commit_records] to the heads before and after. *)

(** The expectation [e] on the memory of [r] holds in [view]. *)
Definition head_matches (view : CurrentView) (r : CanonicalRevision) (e : ExpectedHead) : Prop :=
  match e with
  | Absent => head_for view (r_memory_id r) = None /\ r_parent_revision_id r = None
  | ExpectedRevision id =>
      head_for view (r_memory_id r) = Some id /\ r_parent_revision_id r = Some id
  end.

Lemma expected_inv role tier view l batch :
  try_for (check_expected_step role tier view) 0 (∅ : gset string) l = Ok batch ->
  batch = list_to_set (r_memory_id <$> l.*1) /\ NoDup (r_memory_id <$> l.*1) /\
  (forall r e, (r, e) ∈ l -> r_cognitive_tier r = tier /\ head_matches view r e).
Proof.
  apply (try_for_inv _ (fun l batch =>
    batch = list_to_set (r_memory_id <$> l.*1) /\ NoDup (r_memory_id <$> l.*1) /\
    (forall r e, (r, e) ∈ l -> r_cognitive_tier r = tier /\ head_matches view r e))).
  - split_and!; [done|constructor|]. by intros ? ? ?%elem_of_nil.
  - intros pre t [r e] t' (-> & Hnd & Hall) Hs. unfold check_expected_step in Hs.
    destruct (negb _ || _) eqn:Hc1 in Hs; [done|].
    destruct (bool_decide (_ ∈ _)) eqn:Hc2 in Hs; [done|].
    destruct (negb _) eqn:Hc3 in Hs; [done|]. apply Ok_inj in Hs as <-. breflect.
    rewrite elem_of_list_to_set in Hc2. rewrite !fmap_app. cbn. split_and!.
    + rewrite list_to_set_app_L. cbn. set_solver.
    + apply NoDup_app. split_and!; [done| |apply NoDup_singleton].
      intros m Hm Heq%list_elem_of_singleton. by subst.
    + intros r' e' [Hin|Heq%list_elem_of_singleton]%elem_of_app; [by apply Hall|].
      simplify_eq. split; [done|]. unfold head_matches. destruct e; cbn in Hc3; breflect.
      * unfold opt_is_none in *. breflect. by destruct (head_for _ _), (r_parent_revision_id r).
      * done.
Qed.

Lemma writers_inv role view pols l r id :
  try_for (check_writer_step role view pols) 0 tt l = Ok tt -> r ∈ l ->
  head_for view (r_memory_id r) = Some id ->
  exists s p, stream_for view (r_memory_id r) = Some s /\
    List.find (fun p => str_eqb (p_policy_id p) (cs_policy_id s)) pols = Some p /\
    role ∈ p_writer_roles p.
Proof.
  intros Ht Hin Hh. apply list_elem_of_split in Hin as (l1 & l2 & ->).
  rewrite try_for_app in Ht. destruct (try_for _ _ _ l1) as [[]|]; [|done].
  cbn [try_for] in Ht. destruct (check_writer_step _ _ _ _ _ r) as [[]|] eqn:Hs; [|done].
  unfold check_writer_step in Hs. rewrite Hh in Hs.
  destruct (stream_for _ _) as [s|] eqn:Hst; [|done]. cbn [ok_or] in Hs.
  destruct (List.find _ _) as [p|] eqn:Hf; [|done]. cbn [ok_or] in Hs.
  destruct (str_mem role _) eqn:Hm; [|done]. breflect. eauto.
Qed.

Section heads.
Context `{LedgerCodec}.

Lemma stream_app m (l1 l2 : list CanonicalRevision) :
  stream m (l1 ++ l2) = stream m l1 ++ stream m l2.
Proof. apply filter_app. Qed.

Lemma policies_of_app m (l1 l2 : list PolicyRecord) :
  policies_of m (l1 ++ l2) = policies_of m l1 ++ policies_of m l2.
Proof. apply filter_app. Qed.

Lemma stamped_ids role now first (revs : list CanonicalRevision) :
  (fun r => (r_memory_id r, r_revision_id r)) <$> imap (stamp role now first) revs =
  (fun r => (r_memory_id r, r_revision_id r)) <$> revs.
Proof.
  apply list_eq. intros i. rewrite !list_lookup_fmap, list_lookup_imap.
  by destruct (revs !! i).
Qed.

Lemma stamped_memories role now first (revs : list CanonicalRevision) :
  r_memory_id <$> imap (stamp role now first) revs = r_memory_id <$> revs.
Proof.
  pose proof (f_equal (fmap fst) (stamped_ids role now first revs)) as Hids.
  by rewrite <-!list_fmap_compose in Hids.
Qed.

(** The streams of the stamped batch: one revision per memory. *)
Lemma stream_ids_cons m ids (l : list CanonicalRevision) :
  (fun r => (r_memory_id r, r_revision_id r)) <$> l = ids ->
  r_revision_id <$> stream m l = (filter (fun x => x.1 = m) ids).*2.
Proof.
  intros <-. induction l as [|r l IH]; [done|]. unfold stream, with_key in *.
  rewrite fmap_cons, !filter_cons. cbn [fst].
  destruct (decide (r_memory_id r = m)); rewrite ?fmap_cons; by rewrite IH.
Qed.

Lemma filter_unique {A} (m : string) (ids : list (string * A)) x :
  NoDup ids.*1 -> (m, x) ∈ ids -> filter (fun y => y.1 = m) ids = [(m, x)].
Proof.
  induction ids as [|[k y] ids IH]; [by intros _ ?%elem_of_nil|].
  rewrite fmap_cons, NoDup_cons. intros [Hk Hnd] Hin. rewrite filter_cons. cbn [fst] in *.
  apply elem_of_cons in Hin as [[= -> ->]|Hin].
  - rewrite decide_True by done. f_equal. apply elem_of_nil_inv. intros z [Hz Hin]%list_elem_of_filter.
    destruct z as [k' z]. cbn in Hz. subst k'. apply Hk. by apply (list_elem_of_fmap_2 fst) in Hin.
  - rewrite decide_False; [by apply IH|]. intros ->. apply Hk.
    by apply (list_elem_of_fmap_2 fst) in Hin.
Qed.

Lemma new_policies_memory role now first v4 k xs p :
  p ∈ new_policies role now first v4 k xs -> p_memory_id p ∈ r_memory_id <$> xs.*1.
Proof.
  revert k. induction xs as [|[r e] xs IH]; intros k; cbn; [by intros ?%elem_of_nil|].
  destruct (expects_absent e); [rewrite elem_of_cons; intros [->|Hin]|intros Hin].
  - left.
  - right. by eapply IH.
  - right. by eapply IH.
Qed.

Lemma policy_ids_NoDup revs pols :
  prefix_ok (policy_ok revs) pols -> NoDup (p_policy_id <$> pols).
Proof.
  induction pols as [|x l IH] using rev_ind; [constructor|].
  intros [Hl Hx]%prefix_ok_snoc. rewrite fmap_app. apply NoDup_app.
  split_and!; [auto| |apply NoDup_singleton].
  intros y Hy Heq%list_elem_of_singleton. subst y. by apply (pok_fresh _ _ _ Hx).
Qed.

Section commit_heads.
Variables (S : LedgerState) (now : Z) (v4 : nat -> string) (role : string) (tier : MemoryTier)
  (revs : list CanonicalRevision) (exps : list ExpectedHead)
  (stamped : list CanonicalRevision) (news : list PolicyRecord)
  (rs vs rt : bytes * string) (po : option (Z * bytes * string)) (view view' : CurrentView).
Hypothesis Hprep : prepared now v4 S role tier revs exps stamped news rs vs rt po view'.
Hypothesis Hok : state_ok S.
Hypothesis Hview : ls_view S = Some view.

Let zipped := zip revs exps.

Lemma view_rebuilt :
  exists g w, rebuild_current_view g (ls_revisions S) (ls_policies S) w = Ok view.
Proof.
  destruct (so_root _ Hok) as (root & v & _ & Hv & _ & _ & _ & Hb). simplify_eq. eauto.
Qed.

Lemma zip_memories : zipped.*1 = revs.
Proof. apply fst_zip. rewrite (pr_length Hprep). lia. Qed.

Lemma expected_facts :
  NoDup (r_memory_id <$> revs) /\
  (forall r e, (r, e) ∈ zipped -> r_cognitive_tier r = tier /\ head_matches view r e).
Proof.
  destruct (pr_expected Hprep) as [batch Hb]. rewrite Hview in Hb.
  apply expected_inv in Hb as (_ & Hnd & Hall). fold zipped in Hnd.
  by rewrite zip_memories in Hnd.
Qed.

Lemma head_after m :
  head_for view' m = r_revision_id <$> last (stream m (ls_revisions S ++ stamped)).
Proof.
  eapply rebuild_head_for; [|apply (pr_view Hprep)]. apply (plog_cover _ _ (pr_policy_log Hprep)).
Qed.

Lemma head_before m : head_for view m = r_revision_id <$> last (stream m (ls_revisions S)).
Proof.
  destruct view_rebuilt as (g & w & Hb). eapply rebuild_head_for; [|exact Hb].
  apply (plog_cover _ _ (so_policies _ Hok)).
Qed.

Lemma stamped_stream m :
  r_revision_id <$> stream m stamped =
  (filter (fun x => x.1 = m) ((fun r => (r_memory_id r, r_revision_id r)) <$> revs)).*2.
Proof. apply stream_ids_cons. rewrite (pr_stamped Hprep). apply stamped_ids. Qed.

(** The committed revisions are the new heads. *)
Lemma committed_head r : r ∈ revs -> head_for view' (r_memory_id r) = Some (r_revision_id r).
Proof.
  intros Hr. rewrite head_after, stream_app, <-fmap_last, fmap_app, stamped_stream.
  rewrite (filter_unique _ _ (r_revision_id r)).
  - cbn. apply last_snoc.
  - rewrite <-list_fmap_compose. apply expected_facts.
  - apply list_elem_of_fmap. by exists r.
Qed.

Lemma untouched_stream m : m ∉ r_memory_id <$> revs -> stream_for view' m = stream_for view m.
Proof.
  intros Hm. destruct view_rebuilt as (g & w & Hb).
  rewrite (rebuild_stream_for _ _ _ _ _ m (pr_view Hprep)), (rebuild_stream_for _ _ _ _ _ m Hb).
  unfold stream_spec. rewrite stream_app, policies_of_app.
  replace (stream m stamped) with (@nil CanonicalRevision).
  - replace (policies_of m news) with (@nil PolicyRecord); [by rewrite !app_nil_r|].
    symmetry. apply elem_of_nil_inv. intros p [Hp Hin]%list_elem_of_filter.
    rewrite (pr_policies Hprep) in Hin. apply new_policies_memory in Hin.
    apply Hm. rewrite <-Hp. rewrite fst_zip in Hin
      by (rewrite (pr_stamped Hprep), stamp_length, (pr_length Hprep); lia).
    by rewrite (pr_stamped Hprep), stamped_memories in Hin.
  - symmetry. apply (fmap_nil_inv r_revision_id). rewrite stamped_stream.
    replace (filter _ _) with (@nil (string * string)); [done|]. symmetry.
    apply elem_of_nil_inv. intros x [Hx (r & -> & Hr)%list_elem_of_fmap]%list_elem_of_filter.
    cbn in Hx. apply Hm. subst m. by apply list_elem_of_fmap_2.
Qed.

(** The policy the view names for a memory is the last of its policy history. *)
Lemma current_policy m s p :
  stream_for view m = Some s ->
  List.find (fun p => str_eqb (p_policy_id p) (cs_policy_id s)) (ls_policies S) = Some p ->
  last (policies_of m (ls_policies S)) = Some p.
Proof.
  intros Hs [Hin Hid]%find_some. breflect. apply list_elem_of_In in Hin.
  destruct view_rebuilt as (g & w & Hb). rewrite (rebuild_stream_for _ _ _ _ _ m Hb) in Hs.
  unfold stream_spec in Hs. destruct (last (stream m _)) as [r|]; [|done].
  destruct (last (policies_of m _)) as [q|] eqn:Hq; [|done]. cbn in Hs. simplify_eq. cbn in Hid.
  f_equal. apply last_Some_elem_of, list_elem_of_filter in Hq as [_ Hq].
  pose proof (policy_ids_NoDup _ _ (plog_ok _ _ (so_policies _ Hok))) as Hnd.
  apply (index_by_NoDup p_policy_id) in Hin, Hq; [|done..]. congruence.
Qed.

Lemma commit_state_ok : 
  state_ok (committed_state S (candidate_of now S role stamped news rs vs rt po view')).
Proof.
  destruct (so_root _ Hok) as (root & v & Hr & Hv & Hwr & Hwp & Hwl & Hb).
  constructor; [apply (pr_revision_log Hprep)|apply (pr_policy_log Hprep)|].
  pose proof (pr_policy_object Hprep) as Hpo. unfold policy_object_of in Hpo.
  eexists _, view'. split_and!; [done..| | | |].
  - cbn. rewrite length_app. lia.
  - cbn. rewrite length_app. destruct news as [|x l].
    + simplify_eq. cbn. lia.
    + destruct (segment_bytes_and_hash _); [|done]. simplify_eq. cbn. lia.
  - cbn. by rewrite Hr.
  - cbn. rewrite Hr, Hwl. cbn. pose proof (pr_view Hprep) as Hv'.
    unfold next_generation in Hv' |- *. by rewrite Hr in Hv' |- *.
Qed.
End commit_heads.
End heads.
