(* ===== verification/DocPlatform.v ===== *)
(** * A concrete platform

    Documents are values tagged with their type, so that serialising and
    parsing are exact, and the digest of a document is a 64-digit hexadecimal
    string computed from the end of its preimage.  The laws the ledger assumes
    of its serialiser hold of this platform, and the ledger operations evaluate
    on it. *)

From Stdlib Require Import Ascii.
From stdpp Require Import base gmap strings list sorting.
From S2P Require Import Prelude Wire MemoryModel LedgerModel LedgerValidate LedgerView.
From S2P Require Import MigrationManifest LedgerStorage LedgerStore LedgerCommits.

#[export] Instance JNumber_eq_dec : EqDecision JNumber.
Proof. solve_decision. Defined.

Definition Json_eqb_list (eqb : Json -> Json -> bool) : list Json -> list Json -> bool :=
  fix go l k := match l, k with
  | [], [] => true
  | x :: l', y :: k' => eqb x y && go l' k'
  | _, _ => false
  end.

Definition Json_eqb_members (eqb : Json -> Json -> bool)
    : list (string * Json) -> list (string * Json) -> bool :=
  fix go l k := match l, k with
  | [], [] => true
  | (a, x) :: l', (b, y) :: k' => str_eqb a b && eqb x y && go l' k'
  | _, _ => false
  end.

Fixpoint Json_eqb (x y : Json) : bool :=
  match x, y with
  | JNull, JNull => true
  | JBool a, JBool b => bool_decide (a = b)
  | JNum a, JNum b => bool_decide (a = b)
  | JString a, JString b => str_eqb a b
  | JArray l, JArray k => Json_eqb_list Json_eqb l k
  | JObject l, JObject k => Json_eqb_members Json_eqb l k
  | _, _ => false
  end.

Fixpoint Json_eqb_eq (x y : Json) {struct x} : Json_eqb x y = true <-> x = y.
Proof.
  destruct x as [| | | |l|l], y as [| | | |k|k]; simpl;
    try (split; [discriminate|discriminate]); unfold str_eqb; rewrite ?bool_decide_eq_true;
    try (split; congruence).
  - revert k. induction l as [|x l IH]; intros [|y k]; simpl; try (split; done).
    rewrite andb_true_iff, (Json_eqb_eq x y), IH. clear Json_eqb_eq. naive_solver.
  - revert k. induction l as [|[a x] l IH]; intros [|[b y] k]; simpl; try (split; done).
    rewrite !andb_true_iff, (Json_eqb_eq x y), IH. unfold str_eqb.
    rewrite bool_decide_eq_true. clear Json_eqb_eq.
    naive_solver.
Qed.

#[export] Instance Json_eq_dec : EqDecision Json.
Proof.
  intros x y. destruct (Json_eqb x y) eqn:E; [left|right]; [by apply Json_eqb_eq|].
  intros Heq%Json_eqb_eq. congruence.
Defined.

#[export] Instance ProcedureStep_eq_dec : EqDecision ProcedureStep.
Proof. solve_decision. Defined.
#[export] Instance Procedure_eq_dec : EqDecision Procedure.
Proof. solve_decision. Defined.
#[export] Instance KnowledgePiece_eq_dec : EqDecision KnowledgePiece.
Proof. solve_decision. Defined.
#[export] Instance MemoryContent_eq_dec : EqDecision MemoryContent.
Proof. solve_decision. Defined.
#[export] Instance CanonicalRevision_eq_dec : EqDecision CanonicalRevision.
Proof. solve_decision. Defined.
#[export] Instance RelationRecord_eq_dec : EqDecision RelationRecord.
Proof. solve_decision. Defined.
#[export] Instance Segment_eq_dec {T} `{EqDecision T} : EqDecision (Segment T).
Proof. solve_decision. Defined.

Inductive Doc : Type :=
  | DocJson (v : Json)
  | DocContent (v : MemoryContent)
  | DocRevisions (v : Segment CanonicalRevision)
  | DocPolicies (v : Segment PolicyRecord)
  | DocRelations (v : Segment RelationRecord)
  | DocRoot (v : LedgerRoot)
  | DocView (v : CurrentView)
  | DocPointer (v : ActivePointer).

#[export] Instance Doc_eq_dec : EqDecision Doc.
Proof. solve_decision. Defined.

(** Six binary digits of a number. *)
Definition tag_digits (z : Z) : string :=
  foldr (fun i s => String (if Z.testbit z (Z.of_nat i) then "1"%char else "0"%char) s) "" (seq 0 6).

Definition doc_octets (d : Doc) : string :=
  match d with
  | DocJson _ => "a"
  | DocContent _ => "b"
  | DocRevisions s => "c" +:+ tag_digits (seg_first_sequence s)
  | DocPolicies s => "d" +:+ tag_digits (seg_first_sequence s)
  | DocRelations s => "e" +:+ tag_digits (seg_first_sequence s)
  | DocRoot r => "f" +:+ tag_digits (root_generation r)
  | DocView v => "0" +:+ tag_digits (v_generation v)
  | DocPointer _ => "1"
  end.

(** The last eight octets of the preimage as hexadecimal digits, those that
    are digits already unchanged, and padding. *)
Definition hex_char (c : Ascii.ascii) : Ascii.ascii :=
  if lower_hex_byte (byte_of c) then c else "0"%char.

Fixpoint hex_chars (s : string) : string :=
  match s with EmptyString => "" | String c s' => String (hex_char c) (hex_chars s') end.

Definition doc_digest (s : string) : string :=
  let n := String.length s in
  let t := hex_chars (String.substring (n - 8) 8 s) in
  t +:+ String.substring 0 (64 - String.length t)
          "0000000000000000000000000000000000000000000000000000000000000000".

#[export] Instance doc_platform : Platform := {|
  bytes := Doc;
  octets := doc_octets;
  sha256_hex := doc_digest;
  uuid_parse := fun s => match s with EmptyString => None | _ => Some 0%N end;
  uuid_hyphenated := fun n => "";
  uuid_new_v5 := fun n s => n |}.

#[export] Instance doc_codec : LedgerCodec := {|
  lc_json := {| to_vec := fun v => Some (DocJson v);
                from_slice := fun d => match d with DocJson v => Some v | _ => None end |};
  lc_content := {| to_vec := fun v => Some (DocContent v);
                   from_slice := fun d => match d with DocContent v => Some v | _ => None end |};
  lc_revision_segment :=
    {| to_vec := fun v => Some (DocRevisions v);
       from_slice := fun d => match d with DocRevisions v => Some v | _ => None end |};
  lc_policy_segment :=
    {| to_vec := fun v => Some (DocPolicies v);
       from_slice := fun d => match d with DocPolicies v => Some v | _ => None end |};
  lc_relation_segment :=
    {| to_vec := fun v => Some (DocRelations v);
       from_slice := fun d => match d with DocRelations v => Some v | _ => None end |};
  lc_root := {| to_vec := fun v => Some (DocRoot v);
                from_slice := fun d => match d with DocRoot v => Some v | _ => None end |};
  lc_view := {| to_vec := fun v => Some (DocView v);
                from_slice := fun d => match d with DocView v => Some v | _ => None end |};
  lc_pointer := {| to_vec := fun v => Some (DocPointer v);
                   from_slice := fun d => match d with DocPointer v => Some v | _ => None end |};
  lc_source_manifest := {| to_vec := fun _ => None; from_slice := fun _ => None |};
  lc_migration_manifest := {| to_vec := fun _ => None; from_slice := fun _ => None |} |}.

#[export] Instance doc_laws : LedgerCodecLaws.
Proof. constructor; [intros s _ b|intros s _ b|intros s _ b|intros s _ b|intros s b|intros s b];
  by intros [= <-]. Qed.

(** ** A small ledger to evaluate on *)

Definition doc_io : IoPlan := mkIoPlan [] Publish_Done Open_Done.
Definition doc_io_unsynced : IoPlan := mkIoPlan [] (Publish_FailsAfterExchange IoOther) Open_Done.
Definition doc_io_full : IoPlan := mkIoPlan [Put_Done; Put_FailsBefore IoOther] Publish_Done Open_Done.

Definition doc_empty : ImmutableLedgerStorage :=
  mkStorage ∅ [] Slots_None.

Definition no_state : LedgerState := {|
  ls_poisoned := false; ls_root_hash := None; ls_root := None; ls_view := None;
  ls_revisions := []; ls_policies := []; ls_relations := [] |}.

(** The state of a successful computation. *)
Definition ok_state (r : result LedgerError LedgerState) : LedgerState :=
  match r with Ok s => s | Err _ => no_state end.

Definition doc_open := ledger_new doc_io doc_empty.
Definition doc_store0 : ImmutableLedgerStorage := snd doc_open.
Definition doc_state0 : LedgerState := ok_state (fst doc_open).

Definition doc_revision (m id : string) (parent : option string) (text : string)
    : CanonicalRevision := {|
  r_schema := ""; r_sequence := 0; r_memory_id := m; r_revision_id := id;
  r_parent_revision_id := parent; r_content := Text text;
  r_content_hash := match canonical_content_hash (Text text) with Ok h => h | Err e => e end;
  r_tags := []; r_memory_type := Type_Semantic; r_cognitive_tier := Tier_LongTerm;
  r_deleted_at := None; r_committed_at := 0; r_committed_by_role := "alice" |}.

Definition doc_commit (io : IoPlan) (st : ImmutableLedgerStorage) (s : LedgerState)
    (r : CanonicalRevision) (e : ExpectedHead) :=
  commit_records io 7 (fun _ => "policy") st s "alice" Tier_LongTerm [r] [e].

(** The ledger after the first commit. *)
Definition doc_first := doc_commit doc_io doc_store0 doc_state0 (doc_revision "m" "m" None "one") Absent.
Definition doc_store1 : ImmutableLedgerStorage := snd doc_first.
Definition doc_state1 : LedgerState := snd (fst doc_first).
Definition doc_update : CanonicalRevision := doc_revision "m" "r2" (Some "m") "two".

(** A successful run is the [Ok] of its receipts with its final state. *)
Definition ok_value {E A} (d : A) (r : result E A) : A := match r with Ok a => a | Err _ => d end.

Lemma ok_run {A B C} (d : A) (x : result LedgerError A * B * C) :
  is_ok (fst (fst x)) = true -> x = (Ok (ok_value d (fst (fst x))), snd (fst x), snd x).
Proof. destruct x as [[[a|e] b] c]; simpl; congruence. Qed.

Lemma surjective_pairing_triple {A B C} (x : A * B * C) :
  x = (fst (fst x), snd (fst x), snd x).
Proof. by destruct x as [[]]. Qed.

Lemma doc_load0 : load_state doc_store0 = Ok doc_state0.
Proof. reflexivity. Qed.

Lemma doc_exact (s : LedgerState) (r : CanonicalRevision) :
  content_exact (r_content r) ->
  match ls_root s with
  | Some root => (0 <=? root_generation root)%Z && (root_generation root <? 100)%Z
  | None => true
  end = true ->
  (Z.of_nat (length (ls_revisions s) + 1) <? 100)%Z = true ->
  (Z.of_nat (length (ls_policies s) + 1) <? 100)%Z = true ->
  (Z.of_nat (length (ls_relations s)) <? 100)%Z = true ->
  commit_exact 7 s [r].
Proof.
  intros Hc Hg H1 H2 H3. breflect. unfold MAX_JCS_SAFE_INTEGER.
  constructor; unfold safe_int, MAX_JCS_SAFE_INTEGER; cbn [length]; try lia.
  - intros root Hroot. rewrite Hroot in Hg. breflect. lia.
  - by repeat constructor.
Qed.

Lemma doc_load1 : load_state doc_store1 = Ok doc_state1.
Proof. vm_compute. reflexivity. Qed.

Lemma doc_exact1 : commit_exact 7 doc_state1 [doc_update].
Proof. apply doc_exact; [exact I|vm_compute; reflexivity..]. Qed.

Lemma doc_ok1 : state_ok doc_state1.
Proof.
  apply (load_state_ok doc_store1); [exact doc_load1| |vm_compute; congruence..].
  intros root Hroot. assert (root_generation root = 1%Z) as ->
    by (vm_compute in Hroot; by injection Hroot as <-).
  unfold safe_int, MAX_JCS_SAFE_INTEGER. lia.
Qed.

Definition doc_view1 : CurrentView := default genesis_view (ls_view doc_state1).

Lemma doc_view1_eq : ls_view doc_state1 = Some doc_view1.
Proof. vm_compute. reflexivity. Qed.
