(* ===== verification/LedgerGenesis.v ===== *)
(** * Opening a new ledger

    A fresh directory becomes a ledger by its first opening, which may itself be
    interrupted at any point.  The next undisturbed opening then yields the empty
    ledger of generation 0, except where the interruption left one pointer slot
    alone, or a temporary file before the pointer was published: then no opening
    succeeds any more. *)

From stdpp Require Import base gmap strings list sorting.
From S2P Require Import Prelude Wire MemoryModel LedgerModel LedgerValidate LedgerView.
From S2P Require Import LedgerStorage LedgerStore LedgerChains LedgerDurability LedgerCommits.
From S2P Require Import DocPlatform.

Section genesis.
Context `{LedgerCodecLaws}.

(** The two genesis objects and the pointer, with distinct, valid hashes. *)
Record genesis_objects (vb : bytes) (vh : string) (rb : bytes) (rh : string) (pb : bytes) : Prop := {
  go_view : view_bytes_and_hash genesis_view = Ok (vb, vh);
  go_root : root_bytes_and_hash (make_genesis_root vh) = Ok (rb, rh);
  go_pointer : jcs {| ptr_schema := ROOT_POINTER_SCHEMA; ptr_root_hash := rh |} = Ok pb;
  go_view_hash : validate_hash vh = Ok tt;
  go_root_hash : validate_hash rh = Ok tt;
  go_distinct : vh <> rh;
}.

Variables (vb rb pb : bytes) (vh rh : string).
Hypothesis Hgo : genesis_objects vb vh rb rh pb.

Definition genesis_state : LedgerState :=
  loaded_state rh (make_genesis_root vh) genesis_view [] [] [].

(** A directory in which at most the genesis was ever attempted. *)
Record attempted (st : ImmutableLedgerStorage) : Prop := {
  at_temporaries : Forall (fun name => validate_hash name = Err IoInvalidInput) (temporaries st);
  at_objects : forall h b, objects st !! h = Some b -> h = vh /\ b = vb \/ h = rh /\ b = rb;
  at_active : read_active st = None \/
    active st = Some pb /\ objects st !! vh = Some vb /\ objects st !! rh = Some rb;
}.

(** An interruption left one slot alone, or a temporary file before the pointer
    was published. *)
Definition stuck (st : ImmutableLedgerStorage) : Prop :=
  slots st = Slots_ActiveOnly \/ temporaries st <> [] /\ read_active st = None.

(** One opening, disturbed or not. *)
Definition opening (st st' : ImmutableLedgerStorage) : Prop :=
  exists io r, ledger_new io st = (r, st').

Lemma genesis_stored st h b : validate_hash h = Ok tt -> objects st !! h = Some b ->
  get_immutable st h = Ok b.
Proof. unfold get_immutable. by intros -> ->. Qed.

Lemma genesis_view_stored st :
  objects st !! vh = Some vb ->
  read_hashed_object st vh = Ok genesis_view /\ verify_view_hash genesis_view vh = Ok tt.
Proof.
  intros Hv. apply (canonical_stored st VIEW_DOMAIN _ genesis_view (vb, vh)).
  - apply (go_view _ _ _ _ _ Hgo).
  - apply genesis_stored; [apply (go_view_hash _ _ _ _ _ Hgo)|done].
  - apply read_back_view. by constructor.
Qed.

Lemma genesis_root_stored st :
  objects st !! rh = Some rb ->
  read_hashed_object st rh = Ok (make_genesis_root vh) /\
  verify_root_hash (make_genesis_root vh) rh = Ok tt.
Proof.
  intros Hr. apply (canonical_stored st ROOT_DOMAIN _ (make_genesis_root vh) (rb, rh)).
  - apply (go_root _ _ _ _ _ Hgo).
  - apply genesis_stored; [apply (go_root_hash _ _ _ _ _ Hgo)|done].
  - apply read_back_root. by constructor.
Qed.

Lemma genesis_jcs : exists b, jcs genesis_view = Ok b.
Proof.
  pose proof (go_view _ _ _ _ _ Hgo) as Hv.
  unfold view_bytes_and_hash, canonical_bytes_and_hash in Hv.
  destruct (jcs genesis_view); [eauto|done].
Qed.

Lemma genesis_logs : revision_log [] /\ policy_log [] [].
Proof. split; [apply prefix_ok_nil|]. split; [apply prefix_ok_nil|set_solver]. Qed.

Lemma genesis_rebuilt : rebuild_current_view 0 [] [] 0 = Ok genesis_view.
Proof. reflexivity. Qed.

Lemma genesis_snapshot st :
  objects st !! vh = Some vb -> validate_root_snapshot st (make_genesis_root vh) = Ok tt.
Proof.
  intros Hv. destruct (genesis_view_stored _ Hv) as [Hvr Hvv]. destruct genesis_jcs as [b Hb].
  unfold validate_root_snapshot. cbn [root_current_view_hash make_genesis_root].
  rewrite Hvr, Hvv.
  cbn -[rebuild_current_view].
  rewrite genesis_rebuilt. unfold view_matches. rewrite Hb. cbn. by rewrite !bool_decide_eq_true_2.
Qed.

Lemma genesis_holds st :
  objects st !! vh = Some vb -> objects st !! rh = Some rb ->
  holds st rh (make_genesis_root vh) genesis_view [] [] [].
Proof.
  intros Hv Hr. destruct (genesis_view_stored _ Hv) as [Hvr Hvv].
  destruct (genesis_root_stored _ Hr) as [Hrr Hrv]. destruct genesis_logs as [Hl1 Hl2].
  destruct genesis_jcs as [b Hb].
  constructor; try done.
  - exists [(rh, make_genesis_root vh)]. constructor; try done. by apply genesis_snapshot.
  - exists genesis_view. split; [|exact genesis_rebuilt]. unfold loaded_view_check. cbn.
    rewrite Hb. by rewrite bool_decide_eq_true_2.
Qed.

Lemma genesis_loads st :
  active st = Some pb -> objects st !! vh = Some vb -> objects st !! rh = Some rb ->
  load_state st = Ok genesis_state.
Proof.
  intros Ha Hv Hr. unfold load_state.
  rewrite (load_pointer_published st rh pb (go_pointer _ _ _ _ _ Hgo) Ha).
  by apply load_root_complete, genesis_holds.
Qed.

(** ** Interrupted openings *)

(** Writing the genesis objects, with any outcomes, leaves only genesis
    objects and temporary files. *)
Definition only_genesis (st : ImmutableLedgerStorage) : Prop :=
  (forall h b, objects st !! h = Some b -> h = vh /\ b = vb \/ h = rh /\ b = rb) /\
  Forall (fun name => validate_hash name = Err IoInvalidInput) (temporaries st).

Lemma put_all_attempted os st l r st' :
  only_genesis st -> (forall h b, (h, b) ∈ l -> h = vh /\ b = vb \/ h = rh /\ b = rb) ->
  put_all os st l = (r, st') -> only_genesis st'.
Proof.
  revert os st. induction l as [|[h b] l IH]; intros os st Hst Hl Hp; simplify_eq/=; [done|].
  destruct (put_immutable _ st h b) as [rp st1] eqn:Hput.
  assert (only_genesis st1) as Hst1.
  { destruct Hst as [Ho Ht]. apply put_immutable_effect in Hput as [Hob Htm]. split.
    - destruct Hob as [->| ->]; [done|]. intros h' b' [[<- <-]|[_ ?]]%lookup_insert_Some; [|auto]. apply Hl. left.
    - destruct Htm as [->|[random ->]]; [done|]. constructor; [apply temporary_not_hash|done]. }
  destruct rp; [|by simplify_eq]. eapply IH; [exact Hst1| |exact Hp]. intros. apply Hl. by right.
Qed.

(** An undisturbed write of a genesis object succeeds. *)
Lemma put_all_genesis st :
  (forall h b, objects st !! h = Some b -> h = vh /\ b = vb \/ h = rh /\ b = rb) ->
  exists st1, put_all [] st [(vh, vb); (rh, rb)] = (Ok tt, st1).
Proof.
  intros Hst. pose proof (go_distinct _ _ _ _ _ Hgo) as Hne.
  cbn [put_all head tail default]. unfold put_immutable.
  rewrite (go_view_hash _ _ _ _ _ Hgo), (go_root_hash _ _ _ _ _ Hgo).
  assert (forall b, objects st !! vh = Some b -> b = vb) as Hv
    by (intros b Hb; destruct (Hst _ _ Hb) as [[_ ?]|[? _]]; [done|congruence]).
  assert (forall b, objects st !! rh = Some b -> b = rb) as Hr
    by (intros b Hb; destruct (Hst _ _ Hb) as [[? _]|[_ ?]]; [congruence|done]).
  destruct (objects st !! vh) as [b1|] eqn:E1; [rewrite (Hv b1 eq_refl), decide_True by done|];
    cbn [objects]; rewrite ?lookup_insert_ne by done;
    (destruct (objects st !! rh) as [b2|] eqn:E2;
      [rewrite (Hr b2 eq_refl), decide_True by done|]); eauto.
Qed.

Lemma attempted_hashes st :
  only_genesis st -> temporaries st = [] -> exists hashes, list_immutable_hashes st = Ok hashes /\
    existsb (fun hash => negb (str_mem hash [vh; rh])) hashes = false.
Proof.
  intros [Hobj _] Htmp. unfold list_immutable_hashes. rewrite Htmp. cbn [app].
  assert (forall h, h ∈ (map_to_list (objects st)).*1 -> h = vh \/ h = rh) as Hh.
  { intros h ([h' b] & -> & Hin)%list_elem_of_fmap. apply elem_of_map_to_list in Hin.
    destruct (Hobj _ _ Hin) as [[-> _]|[-> _]]; auto. }
  destruct (try_map_complete validate_hash (map_to_list (objects st)).*1) as [us Hus].
  { intros h [->| ->]%Hh; [exists tt; apply (go_view_hash _ _ _ _ _ Hgo)
      |exists tt; apply (go_root_hash _ _ _ _ _ Hgo)]. }
  rewrite Hus. eexists. split; [done|]. apply not_true_is_false.
  intros (h & Hin & Hneg)%existsb_exists. apply list_elem_of_In in Hin.
  unfold sort_strings in Hin. rewrite merge_sort_Permutation in Hin.
  breflect. destruct (Hh h Hin) as [->| ->]; set_solver.
Qed.

(** A temporary file fails every listing. *)
Lemma attempted_listing st : only_genesis st ->
  temporaries st = [] \/ list_immutable_hashes st = Err IoInvalidInput.
Proof.
  intros [_ Ht]. destruct (temporaries st) as [|name l] eqn:Hl; [by left|right].
  apply (listing_refuses_temporary _ name); [rewrite Hl; left|]. by apply Forall_cons in Ht as [Hn _].
Qed.

(** The slots as an opening finds or leaves them. *)
Lemma open_slots o st r st' : open_immutable_ledger o st = (r, st') ->
  objects st' = objects st /\ temporaries st' = temporaries st /\
  (read_active st' = read_active st /\ active st' = active st) /\
  (slots st = Slots_ActiveOnly -> is_ok r = false /\ st' = st).
Proof.
  unfold open_immutable_ledger, read_active, active. intros Ho.
  destruct (slots st) as [| |a c] eqn:Hs; [destruct o| |]; simplify_eq/=; rewrite ?Hs; done.
Qed.

Lemma genesis_attempted io st r st' : attempted st -> ensure_genesis io st = (r, st') -> attempted st'.
Proof.
  intros [Htmp Hobj Hact] Ho. unfold ensure_genesis in Ho.
  rewrite (go_view _ _ _ _ _ Hgo), (go_root _ _ _ _ _ Hgo), (go_pointer _ _ _ _ _ Hgo) in Ho.
  destruct (read_active st) as [p|] eqn:Hra.
  { simplify_eq. by destruct Hact; constructor; auto. }
  destruct (attempted_listing st (conj Hobj Htmp)) as [Ht0|Hlist].
  2: { rewrite Hlist in Ho. simplify_eq. constructor; auto. }
  destruct (attempted_hashes st (conj Hobj Htmp) Ht0) as (hashes & Hlist & Hex). rewrite Hlist, Hex in Ho.
  destruct (put_all _ st _) as [rp st1] eqn:Hput.
  assert (forall h b, (h, b) ∈ [(vh, vb); (rh, rb)] -> h = vh /\ b = vb \/ h = rh /\ b = rb) as Hin
    by (intros h b Hin; set_solver).
  pose proof (put_all_attempted _ _ _ _ _ (conj Hobj Htmp) Hin Hput) as [Hobj1 Htmp1]. clear Hin.
  apply put_all_grows in Hput as Hgr. destruct Hgr as [_ Ha1].
  assert (attempted st1) as Hat1
    by (constructor; [done..|left; unfold read_active; by rewrite Ha1]).
  destruct rp as [[]|]; [|by simplify_eq].
  assert (forall h b, (h, b) ∈ [(vh, vb); (rh, rb)] -> objects st1 !! h = Some b) as Hst.
  { intros h b Hin. apply (put_all_stored _ _ _ _ _ _ Hput) in Hin as Hg.
    unfold get_immutable, ok_or in Hg. by ok_inv Hg; subst. }
  destruct (publish_active (publish_outcome io) st1 pb) as [rq st2] eqn:Hpub.
  apply publish_active_spec in Hpub as (Hob & Htm & Hac).
  assert (attempted st2) as Hat2.
  { constructor; [by rewrite Htm|by rewrite Hob|]. rewrite Hob. destruct rq as [[]|[e|e]];
      [right; split_and!; try done; apply Hst; set_solver
      |left; unfold read_active; by rewrite Hac, Ha1
      |right; split_and!; try done; apply Hst; set_solver]. }
  destruct rq as [[]|[e|e]]; by simplify_eq.
Qed.

Lemma opening_attempted st st' : attempted st -> opening st st' -> attempted st'.
Proof.
  intros Hat (io & r & Ho). unfold ledger_new in Ho.
  destruct (open_immutable_ledger _ st) as [r0 st0] eqn:Hop. apply open_slots in Hop as (Hob & Htm & [Hra Ha] & _).
  assert (attempted st0) as Hat0 by (destruct Hat; constructor; by rewrite ?Hob, ?Htm, ?Hra, ?Ha).
  destruct r0 as [[]|]; [|by simplify_eq]. destruct (ensure_genesis io st0) as [r1 st1] eqn:Hen.
  pose proof (genesis_attempted _ _ _ _ Hat0 Hen). destruct r1 as [[]|]; by simplify_eq.
Qed.

(** Where an interruption left the directory stuck, every opening fails and
    leaves it so. *)
Lemma stuck_stays st st' io r : attempted st -> stuck st -> ledger_new io st = (r, st') -> is_ok r = false /\ stuck st'.
Proof.
  intros Hat Hst Hn. unfold ledger_new in Hn.
  destruct (open_immutable_ledger _ st) as [r0 st0] eqn:Hop. apply open_slots in Hop as (Hob & Htm & [Hra Ha] & Hone).
  destruct Hst as [Hst|[Htn Hrn]].
  { destruct (Hone Hst) as [He ->]. destruct r0; [done|]. simplify_eq. split; [done|by left]. }
  assert (stuck st0) as Hst0 by (right; by rewrite Htm, Hra).
  destruct r0 as [[]|]; [|by simplify_eq]. unfold ensure_genesis in Hn. rewrite Hra, Hrn in Hn.
  rewrite (go_view _ _ _ _ _ Hgo), (go_root _ _ _ _ _ Hgo) in Hn.
  destruct (attempted_listing st0) as [Ht|Hl]; [destruct Hat; split; by rewrite ?Hob, ?Htm|congruence|].
  rewrite Hl in Hn. by simplify_eq.
Qed.

(** An undisturbed opening of a directory that is not stuck. *)
Lemma opening_succeeds st : attempted st -> ~ stuck st ->
  exists st', ledger_new (mkIoPlan [] Publish_Done Open_Done) st = (Ok genesis_state, st') /\
    load_state st' = Ok genesis_state.
Proof.
  intros Hat Hns. unfold ledger_new.
  destruct (open_immutable_ledger Open_Done st) as [r0 st0] eqn:Hop.
  assert (r0 = Ok tt /\ exists a c, slots st0 = Slots_Both a c) as [-> (a & ca & Hsl)].
  { unfold open_immutable_ledger in Hop. destruct (slots st) as [| |a c] eqn:Hs; simplify_eq/=; [by eauto|by destruct Hns; left|by eauto]. }
  apply open_slots in Hop as Hos. destruct Hos as (Hob & Htm & [Hra Ha] & _). cbn [open_outcome]. rewrite Hop. clear Hop.
  destruct Hat as [Htmp Hobj Hact]. rewrite <-Hob in Hobj, Hact. rewrite <-Htm in Htmp. rewrite <-Hra, <-Ha in Hact.
  unfold ensure_genesis. destruct Hact as [Hn|(Hac & Hv & Hr)].
  - assert (temporaries st0 = []) as Ht0.
    { rewrite Htm. destruct (temporaries st) eqn:E; [done|]. destruct Hns. right. by rewrite E, <-Hra. }
    destruct (attempted_hashes st0 (conj Hobj Htmp) Ht0) as (hashes & Hlist & Hex).
    rewrite Hn, (go_view _ _ _ _ _ Hgo), (go_root _ _ _ _ _ Hgo), (go_pointer _ _ _ _ _ Hgo), Hlist, Hex.
    destruct (put_all_genesis st0 Hobj) as [st1 Hput]. cbn [put_outcomes publish_outcome]. rewrite Hput.
    apply put_all_slots in Hput as Hgs. destruct Hgs as [_ Hs1]. unfold publish_active. rewrite Hs1, Hsl.
    assert (forall h b, (h, b) ∈ [(vh, vb); (rh, rb)] -> objects st1 !! h = Some b) as Hst.
    { intros h b Hin. apply (put_all_stored _ _ _ _ _ _ Hput) in Hin as Hg.
      unfold get_immutable, ok_or in Hg. by ok_inv Hg; subst. }
    set (st2 := mkStorage (objects st1) (temporaries st1) (Slots_Both (Some pb) a)).
    assert (load_state st2 = Ok genesis_state) as Hl
      by (apply genesis_loads; [done|apply Hst; set_solver..]).
    exists st2. by rewrite Hl.
  - pose proof (genesis_loads st0 Hac Hv Hr) as Hl. exists st0.
    assert (is_Some (read_active st0)) as [b ->]; [|by rewrite Hl].
    unfold load_state, load_pointer in Hl. destruct (read_active st0); [by eexists|done].
Qed.

(** C13: the creation of a ledger is interrupted any number of times, by an
    input/output failure or the end of the process at any of its steps.  If no
    interruption left one pointer slot alone, or a temporary file before the
    pointer was published, the next undisturbed opening of the directory yields
    the empty ledger of generation 0, and from then on the directory loads to it.
    In the two remaining cases every opening fails, now and after any further
    openings. *)
Theorem interrupted_genesis_recovers st0 st :
  objects st0 = ∅ -> temporaries st0 = [] -> slots st0 = Slots_None -> rtc opening st0 st ->
  (~ stuck st -> exists st', ledger_new (mkIoPlan [] Publish_Done Open_Done) st = (Ok genesis_state, st') /\
    load_state st' = Ok genesis_state) /\
  (stuck st -> forall st' io, rtc opening st st' -> exists e, fst (ledger_new io st') = Err e).
Proof.
  intros Hob Htm Hsl Hrtc. assert (attempted st) as Hat.
  { assert (attempted st0) as Hat0.
    { constructor; [by rewrite Htm|intros h b; by rewrite Hob, lookup_empty|left].
      unfold read_active, active. by rewrite Hsl. }
    clear Hob Htm Hsl. induction Hrtc; [done|]. eauto using opening_attempted. }
  split; [by apply opening_succeeds|]. intros Hst st' io Hrtc'. clear Hrtc.
  induction Hrtc' as [st|st st1 st2 Hop _ IH].
  - destruct (ledger_new io st) as [r st1] eqn:Hn. destruct (stuck_stays _ _ _ _ Hat Hst Hn) as [He _].
    destruct r; [done|by eexists].
  - apply IH; [by eapply opening_attempted|]. destruct Hop as (io' & r & Hn). by eapply stuck_stays.
Qed.
End genesis.

(** ** On a concrete directory *)

(** A first opening fails between the two objects, a second one after the
    pointer was exchanged; in another directory the process ends while the second
    object is written. *)
Definition doc_resumed : ImmutableLedgerStorage :=
  snd (ledger_new (mkIoPlan [] (Publish_FailsAfterExchange IoOther) Open_Done) (snd (ledger_new doc_io_full doc_empty))).
Definition doc_killed : ImmutableLedgerStorage :=
  snd (ledger_new (mkIoPlan [Put_Done; Put_Interrupted "x1y2z3"] Publish_Done Open_Done) doc_empty).

Lemma not_stuck `{Platform} (st : ImmutableLedgerStorage) :
  match slots st with Slots_ActiveOnly => false | _ => opt_is_some (read_active st) end = true -> ~ stuck st.
Proof. intros Hs [He|[_ Hn]]; [by rewrite He in Hs|]. rewrite Hn in Hs. by destruct (slots st). Qed.
Lemma left_stuck `{Platform} (st : ImmutableLedgerStorage) :
  opt_is_some (read_active st) = false -> Nat.eqb (length (temporaries st)) 0 = false -> stuck st.
Proof. intros Ha Ht. right. split; [by destruct (temporaries st)|by destruct (read_active st)]. Qed.
Lemma doc_resumed_open : ~ stuck doc_resumed.
Proof. apply not_stuck. vm_compute. reflexivity. Qed.
Lemma doc_killed_stuck : stuck doc_killed.
Proof. apply left_stuck; vm_compute; reflexivity. Qed.

Lemma interrupted_genesis_recovers_witness :
  (exists S0 st', ledger_new (mkIoPlan [] Publish_Done Open_Done) doc_resumed = (Ok S0, st') /\ ls_revisions S0 = []) /\
  (exists e, fst (ledger_new doc_io doc_killed) = Err e).
Proof.
  set (v := ok_value (A := @bytes doc_platform * string) (DocJson JNull, "")
         (view_bytes_and_hash genesis_view)).
  set (r := ok_value (A := @bytes doc_platform * string) (DocJson JNull, "")
         (root_bytes_and_hash (make_genesis_root (snd v)))).
  set (p := ok_value (A := @bytes doc_platform) (DocJson JNull)
         (jcs {| ptr_schema := ROOT_POINTER_SCHEMA; ptr_root_hash := snd r |})).
  assert (genesis_objects (fst v) (snd v) (fst r) (snd r) p) as Hgo
    by (constructor; [vm_compute; reflexivity..|vm_compute; congruence]).
  split.
  - destruct (interrupted_genesis_recovers _ _ _ _ _ Hgo doc_empty doc_resumed) as [Hok _]; [reflexivity..| |].
    { eapply rtc_l; [|eapply rtc_l; [|apply rtc_refl]]; eexists _, _; apply surjective_pairing. }
    destruct (Hok doc_resumed_open) as (st' & Hst' & _).
    eexists _, st'. split; [exact Hst'|reflexivity].
  - destruct (interrupted_genesis_recovers _ _ _ _ _ Hgo doc_empty doc_killed) as [_ Hno]; [reflexivity..| |].
    { apply rtc_once. eexists _, _. apply surjective_pairing. }
    apply (Hno doc_killed_stuck doc_killed). apply rtc_refl.
Defined.
