(* ===== verification/LedgerGuarantees.v ===== *)
(** * What the ledger guarantees

    The ledger as a transition system over its storage and its in-memory state
    (commits under every outcome of the file operations, and restarts), its
    invariant, and the guarantees a client relies on. *)

From stdpp Require Import base gmap strings list sorting relations.
From S2P Require Import Prelude Wire MemoryModel LedgerModel LedgerValidate LedgerView.
From S2P Require Import LedgerStorage LedgerStore LedgerChains LedgerDurability.
From S2P Require Import LedgerCommits DocPlatform.

Section system.
Context `{LedgerCodecLaws}.

(** A running ledger: its directory and the state behind its mutex. *)
Definition Ledger : Type := ImmutableLedgerStorage * LedgerState.

Inductive ledger_step : Ledger -> Ledger -> Prop :=
  | step_commit io now v4 st S role tier revs exps r S' st' :
      commit_exact now S revs ->
      commit_records io now v4 st S role tier revs exps = (r, S', st') ->
      ledger_step (st, S) (st', S')
  | step_restart io st S S' st' :
      ledger_new io st = (Ok S', st') ->
      ledger_step (st, S) (st', S').

(** The directory always loads; unless the writer is poisoned it loads to the
    state in memory. *)
Definition recoverable (x : Ledger) (S0 : LedgerState) : Prop :=
  load_state (fst x) = Ok S0 /\ (ls_poisoned (snd x) = false -> S0 = snd x).

Lemma load_state_read_active st S0 : load_state st = Ok S0 -> is_Some (read_active st).
Proof.
  unfold load_state, load_pointer. destruct (read_active st); [by eexists|done].
Qed.

Lemma restart_loads io st S0 : load_state st = Ok S0 -> ledger_new io st = (Ok S0, st).
Proof.
  intros Hl. destruct (load_state_read_active _ _ Hl) as [b Hb].
  assert (open_immutable_ledger (open_outcome io) st = (Ok tt, st)) as Ho
    by (unfold open_immutable_ledger, read_active, active in *; by destruct (slots st)).
  unfold ledger_new, ensure_genesis. by rewrite Ho, Hb, Hl.
Qed.

Lemma commit_recoverable io now v4 st S role tier revs exps r S' st' S0 :
  commit_exact now S revs -> recoverable (st, S) S0 ->
  commit_records io now v4 st S role tier revs exps = (r, S', st') ->
  exists S0', recoverable (st', S') S0' /\ ls_revisions S0 `prefix_of` ls_revisions S0'.
Proof.
  intros Hex [Hl Hs] Hc. cbn in Hl, Hs.
  apply commit_records_cases in Hc as
    [(_ & -> & Hg & Ha)|(c & b & Hp & Hb & Hg & Ha & Hst & Hr)].
  - exists S0. split; [|done]. split; [by eapply load_state_grows|done].
  - apply prepare_commit_inv in Hp as Hinv.
    destruct Hinv as (stamped & news & x & vs & rt & po & view' & Hprep & Hceq).
    rewrite (Hs (pr_writable Hprep)) in *. exists (committed_state S c). split.
    + split; [by eapply published_loads|]. cbn. by intros; destruct Hr as [[_ ->]|[_ ->]].
    + rewrite Hceq. cbn. by apply prefix_app_r.
Qed.

Lemma step_recoverable x y S0 :
  ledger_step x y -> recoverable x S0 ->
  exists S0', recoverable y S0' /\ ls_revisions S0 `prefix_of` ls_revisions S0'.
Proof.
  intros [] Hrec; [by eapply commit_recoverable|].
  destruct Hrec as [Hl _]. rewrite (restart_loads _ _ _ Hl) in *. simplify_eq.
  exists S'. by repeat split.
Qed.

(** C1: every ledger reached from a loaded one by commits, with any
    input/output failure at any point, and restarts, can be reopened; reopening
    writes nothing and yields every revision that was ever durable, in order,
    and exactly the in-memory state when the writer is not poisoned. *)
Theorem reachable_ledgers_recover x y S0 :
  recoverable x S0 -> rtc ledger_step x y ->
  exists S0', (forall io, ledger_new io (fst y) = (Ok S0', fst y)) /\
    (ls_poisoned (snd y) = false -> S0' = snd y) /\
    ls_revisions S0 `prefix_of` ls_revisions S0'.
Proof.
  intros Hrec Hsteps. revert S0 Hrec. induction Hsteps as [x|x y z Hxy _ IH]; intros S0 Hrec.
  - exists S0. destruct Hrec as [Hl Hs]. split_and!; [|done..]. intros io. by apply restart_loads.
  - destruct (step_recoverable _ _ _ Hxy Hrec) as (S1 & Hrec1 & Hp1).
    destruct (IH _ Hrec1) as (S2 & Hopen & Hs & Hp2). exists S2. split_and!; [done..|by etrans].
Qed.

(** A successful commit is durable: the directory then loads to exactly
    the state the commit left in memory. *)
Lemma commit_durable io now v4 st S role tier revs exps rc S' st' :
  load_state st = Ok S -> commit_exact now S revs ->
  commit_records io now v4 st S role tier revs exps = (Ok rc, S', st') ->
  load_state st' = Ok S'.
Proof.
  intros Hl Hex Hc. apply commit_records_cases in Hc as
    [([e He] & _)|(c & b & Hp & Hb & Hg & Ha & Hst & [[_ ->]|[Hr _]])]; [done| |done].
  by eapply published_loads.
Qed.

(** C2: a failed commit is atomic.  Either nothing was published: memory and
    directory still hold the previous ledger; or the pointer was exchanged but
    not synced: the error is [CommitIndeterminate], the writer is poisoned, and
    the directory holds exactly the ledger a successful commit would have
    produced. *)
Theorem commit_failure_atomic io now v4 st S role tier revs exps e S' st' :
  load_state st = Ok S -> commit_exact now S revs ->
  commit_records io now v4 st S role tier revs exps = (Err e, S', st') ->
  S' = S /\ load_state st' = Ok S \/
  e = CommitIndeterminate /\ S' = poison S /\
  exists c, prepare_commit now v4 S role tier revs exps = Ok c /\
    load_state st' = Ok (committed_state S c).
Proof.
  intros Hl Hex Hc. apply commit_records_cases in Hc as
    [(_ & -> & Hg & Ha)|(c & b & Hp & Hb & Hg & Ha & Hst & [[Hr _]|[Hr ->]])]; [|done|].
  - left. split; [done|]. by eapply load_state_grows.
  - right. injection Hr as ->. split_and!; [done..|]. exists c. split; [done|].
    by eapply published_loads.
Qed.
End system.

Section authority.
Context `{LedgerCodec}.

(** C3: a successful commit is a compare-and-set.  Every expectation held on
    the heads before, every committed revision is the head of its memory
    afterwards, every other memory keeps its stream, and the in-memory
    invariant is kept. *)
Theorem commit_compares_and_sets io now v4 st S role tier revs exps rc S' st' view :
  state_ok S -> ls_view S = Some view ->
  commit_records io now v4 st S role tier revs exps = (Ok rc, S', st') ->
  state_ok S' /\
  (forall r e, (r, e) ∈ zip revs exps -> head_matches view r e) /\
  exists view', ls_view S' = Some view' /\
    (forall r, r ∈ revs -> head_for view' (r_memory_id r) = Some (r_revision_id r)) /\
    (forall m, m ∉ r_memory_id <$> revs -> stream_for view' m = stream_for view m).
Proof.
  intros Hok Hv Hc. apply commit_records_cases in Hc as
    [([e He] & _)|(c & b & Hp & Hb & Hg & Ha & Hst & [[_ ->]|[Hr _]])]; [done| |done].
  apply prepare_commit_inv in Hp as (stamped & news & x & vs & rt & po & view' & Hprep & ->).
  split; [by eapply commit_state_ok|]. split.
  - intros r e Hin. by eapply (expected_facts _ _ _ _ _ _ _ _ _ _ _ _ _ _ _ Hprep Hv).
  - exists view'. split; [done|]. split; intros.
    + by eapply committed_head.
    + by eapply untouched_stream.
Qed.

(** C4: only a role the current policy of a memory lets write can extend its
    stream, and those are exactly the memory's origin and the personal owner. *)
Theorem commit_needs_writer io now v4 st S role tier revs exps rc S' st' r id :
  state_ok S ->
  commit_records io now v4 st S role tier revs exps = (Ok rc, S', st') ->
  (r, ExpectedRevision id) ∈ zip revs exps ->
  exists p, last (policies_of (r_memory_id r) (ls_policies S)) = Some p /\
    role ∈ p_writer_roles p /\
    (role = p_origin_role_id p \/ role = PERSONAL_OWNER_ROLE_ID).
Proof.
  intros Hok Hc Hin. apply commit_records_cases in Hc as
    [([e He] & _)|(c & b & Hp & Hb & Hg & Ha & Hst & [[_ ->]|[Hr _]])]; [done| |done].
  apply prepare_commit_inv in Hp as (stamped & news & x & vs & rt & po & view' & Hprep & ->).
  destruct (so_root _ Hok) as (root & view & _ & Hv & _).
  destruct (expected_facts _ _ _ _ _ _ _ _ _ _ _ _ _ _ _ Hprep Hv) as [_ Hexp].
  destruct (Hexp _ _ Hin) as [_ [Hhead _]].
  pose proof (pr_writers Hprep) as Hw. rewrite Hv in Hw. cbn in Hw.
  destruct (writers_inv _ _ _ _ r id Hw) as (s & p & Hs & Hf & Hrole); [|done|].
  { apply elem_of_zip_l in Hin. done. }
  pose proof (current_policy _ _ Hok Hv _ _ _ Hs Hf) as Hlast.
  exists p. split_and!; [done..|]. apply last_Some_elem_of, list_elem_of_filter in Hlast as [_ Hpin].
  apply list_elem_of_split in Hpin as (l1 & l2 & Heq).
  pose proof (pok_audience _ _ _ (plog_ok _ _ (so_policies _ Hok) _ _ _ Heq)) as Haud.
  rewrite (aud_writers _ Haud) in Hrole. by apply origin_roles_elem.
Qed.

(** A stale expectation is refused with the actual head, and neither the
    state nor the directory changes. *)
Lemma stale_head_is_refused io now v4 st S role tier r id view :
  ls_poisoned S = false -> tier <> Tier_Ephemeral -> ls_view S = Some view ->
  r_cognitive_tier r = tier -> head_for view (r_memory_id r) <> Some id ->
  commit_expected io now v4 st S role tier (ExpectedRevision id) r =
  (Err (HeadConflict (r_memory_id r) (ExpectedRevision id) (head_for view (r_memory_id r))), S, st).
Proof.
  intros Hpo Ht Hv Htier Hne. unfold commit_expected, commit_records, prepare_commit. cbn [length].
  rewrite Nat.eqb_refl, Hpo, Hv. cbn [negb orb Nat.eqb].
  rewrite (bool_decide_eq_false_2 (tier = _)) by done. cbn [zip zip_with try_for default].
  unfold check_expected_step at 1. rewrite (bool_decide_eq_true_2 (_ = tier)) by done.
  cbn [negb orb andb expects_absent]. rewrite bool_decide_eq_false_2 by set_solver.
  by rewrite (bool_decide_eq_false_2 (head_for _ _ = _)) by done.
Qed.
End authority.

(** ** The guarantees on a concrete ledger *)

Lemma reachable_ledgers_recover_witness :
  let crashed := doc_commit doc_io_unsynced doc_store1 doc_state1 doc_update (ExpectedRevision "m") in
  exists S0', ledger_new doc_io (snd crashed) = (Ok S0', snd crashed) /\
    ls_revisions doc_state1 `prefix_of` ls_revisions S0'.
Proof.
  intros crashed.
  destruct (reachable_ledgers_recover (doc_store1, doc_state1) (snd crashed, snd (fst crashed))
              doc_state1) as (S0' & Hopen & _ & Hp).
  - split; [exact doc_load1|done].
  - apply rtc_once.
    apply (step_commit doc_io_unsynced 7 (fun _ => "policy") doc_store1 doc_state1 "alice"
             Tier_LongTerm [doc_update] [ExpectedRevision "m"] (fst (fst crashed))).
    + exact doc_exact1.
    + apply surjective_pairing_triple.
  - exists S0'. split; [apply Hopen|exact Hp].
Defined.

(** The second commit, and the same commit under two failures. *)
Definition doc_second := doc_commit doc_io doc_store1 doc_state1 doc_update (ExpectedRevision "m").
Definition doc_unsynced :=
  doc_commit doc_io_unsynced doc_store1 doc_state1 doc_update (ExpectedRevision "m").

Lemma doc_second_ok : doc_second =
  (Ok (ok_value [] (fst (fst doc_second))), snd (fst doc_second), snd doc_second).
Proof. apply ok_run. vm_compute. reflexivity. Qed.

Lemma commit_durable_witness : load_state (snd doc_second) = Ok (snd (fst doc_second)).
Proof. exact (commit_durable _ _ _ _ _ _ _ _ _ _ _ _ doc_load1 doc_exact1 doc_second_ok). Defined.

Lemma doc_unsynced_err :
  doc_unsynced = (Err CommitIndeterminate, snd (fst doc_unsynced), snd doc_unsynced).
Proof.
  assert (fst (fst doc_unsynced) = Err CommitIndeterminate) as <- by (vm_compute; reflexivity).
  apply surjective_pairing_triple.
Qed.

Lemma commit_failure_atomic_witness :
  snd (fst doc_unsynced) = doc_state1 /\ load_state (snd doc_unsynced) = Ok doc_state1 \/
  CommitIndeterminate = CommitIndeterminate /\ snd (fst doc_unsynced) = poison doc_state1 /\
  exists c, prepare_commit 7 (fun _ => "policy") doc_state1 "alice" Tier_LongTerm [doc_update]
              [ExpectedRevision "m"] = Ok c /\
    load_state (snd doc_unsynced) = Ok (committed_state doc_state1 c).
Proof.
  exact (commit_failure_atomic _ _ _ _ _ _ _ _ _ _ _ _ doc_load1 doc_exact1 doc_unsynced_err).
Defined.

Lemma commit_compares_and_sets_witness :
  exists view', ls_view (snd (fst doc_second)) = Some view' /\ head_for view' "m" = Some "r2".
Proof.
  destruct (commit_compares_and_sets _ _ _ _ _ _ _ _ _ _ _ _ _ doc_ok1 doc_view1_eq doc_second_ok)
    as (_ & _ & view' & Hv & Hh & _).
  exists view'. split; [exact Hv|]. apply (Hh doc_update). left.
Defined.

Lemma commit_needs_writer_witness :
  exists p, last (policies_of "m" (ls_policies doc_state1)) = Some p /\
    "alice" ∈ p_writer_roles p /\ ("alice" = p_origin_role_id p \/ "alice" = PERSONAL_OWNER_ROLE_ID).
Proof.
  apply (commit_needs_writer _ _ _ _ _ _ _ _ _ _ _ _ doc_update "m" doc_ok1 doc_second_ok). left.
Defined.

Lemma stale_head_is_refused_witness :
  commit_expected doc_io 7 (fun _ => "policy") doc_store1 doc_state1 "alice" Tier_LongTerm
    (ExpectedRevision "r0") doc_update =
  (Err (HeadConflict "m" (ExpectedRevision "r0") (head_for doc_view1 "m")), doc_state1, doc_store1).
Proof.
  apply (stale_head_is_refused _ _ _ _ _ _ _ doc_update "r0" doc_view1);
    [reflexivity|discriminate|exact doc_view1_eq|reflexivity|vm_compute; discriminate].
Defined.
