(* ===== verification/LedgerAccess.v ===== *)
(** * What the ledger hands out

    The read operations of the ledger under the in-memory invariant: exactly the
    live heads a role's policy admits, exactly the current eligible source, and
    the whole chain of roots. *)

From stdpp Require Import base gmap strings list sorting.
From S2P Require Import Prelude Wire MemoryModel LedgerModel LedgerValidate LedgerView.
From S2P Require Import LedgerStorage ProjectionModel LedgerStore LedgerQueries LedgerChains.
From S2P Require Import LedgerDurability LedgerCommits DocPlatform.

Section access.
Context `{LedgerCodec}.
Implicit Types (S : LedgerState).

(** The live head [r] of a memory with its current policy [p]. *)
Record live_head S (r : CanonicalRevision) (p : PolicyRecord) : Prop := {
  lh_head : last (stream (r_memory_id r) (ls_revisions S)) = Some r;
  lh_live : r_deleted_at r = None;
  lh_policy : last (policies_of (r_memory_id r) (ls_policies S)) = Some p;
}.

Lemma find_policy_id pols k p :
  NoDup (p_policy_id <$> pols) ->
  List.find (fun p => str_eqb (p_policy_id p) k) pols = Some p <-> p ∈ pols /\ p_policy_id p = k.
Proof.
  intros Hnd. split.
  - intros [Hin Heq]%find_some. breflect. by rewrite list_elem_of_In.
  - intros [Hin <-]. destruct (List.find _ pols) as [q|] eqn:Hf.
    + apply find_some in Hf as [Hin' Heq]. breflect. apply list_elem_of_In in Hin'.
      apply (index_by_NoDup p_policy_id) in Hin, Hin'; [|done..]. congruence.
    + apply list_elem_of_In in Hin. eapply find_none in Hf; [|done]. by breflect.
Qed.

(** The streams of the view are those the logs determine. *)
Lemma find_stream_ok S m : state_ok S ->
  find_stream S m = stream_spec (ls_revisions S) (ls_policies S) m.
Proof.
  intros Hok. destruct (so_root _ Hok) as (root & view & _ & Hv & _ & _ & _ & Hb).
  unfold find_stream. rewrite Hv. cbn. by eapply rebuild_stream_for.
Qed.

Lemma find_revision_ok S id r : state_ok S ->
  find_revision S id = Some r <-> r ∈ ls_revisions S /\ r_revision_id r = id.
Proof. intros Hok. by apply find_by_id, revision_log_NoDup, (so_revisions _ Hok). Qed.

(** The policy a stream names is the last one of its memory. *)
Lemma stream_policy S m s : state_ok S ->
  stream_spec (ls_revisions S) (ls_policies S) m = Some s ->
  exists r p, last (stream m (ls_revisions S)) = Some r /\
    last (policies_of m (ls_policies S)) = Some p /\
    s = {| cs_memory_id := m; cs_head_revision_id := r_revision_id r;
           cs_deleted := is_deleted r; cs_policy_id := p_policy_id p |} /\
    forall q, List.find (fun p => str_eqb (p_policy_id p) (cs_policy_id s)) (ls_policies S) = Some q
              <-> q = p.
Proof.
  intros Hok. unfold stream_spec. destruct (last (stream m _)) as [r|]; [|done].
  destruct (last (policies_of m _)) as [p|] eqn:Hp; [|done]. cbn. intros [= <-].
  exists r, p. split_and!; [done..|]. intros q. cbn.
  pose proof (policy_ids_NoDup _ _ (plog_ok _ _ (so_policies _ Hok))) as Hnd.
  rewrite find_policy_id by done. apply last_Some_elem_of, list_elem_of_filter in Hp as [_ Hin].
  split; [|by intros ->]. intros [Hq Heq].
  apply (index_by_NoDup p_policy_id) in Hin, Hq; [|done..]. congruence.
Qed.

Lemma readable_head_spec S role m s id : state_ok S ->
  stream_spec (ls_revisions S) (ls_policies S) m = Some s ->
  readable_head S role s = Some id <->
  exists r p, last (stream m (ls_revisions S)) = Some r /\ r_revision_id r = id /\
    last (policies_of m (ls_policies S)) = Some p /\ role ∈ p_reader_roles p.
Proof.
  intros Hok Hs. apply stream_policy in Hs as (r & p & Hr & Hp & Hs & Hf); [|done].
  unfold readable_head. rewrite (proj2 (Hf p) eq_refl). cbn. rewrite Hr, Hp, Hs. unfold str_mem. cbn.
  case_bool_decide; split; naive_solver.
Qed.

(** The ids a role may read are exactly those of the live heads whose
    current policy lists the role among its readers. *)
Lemma readable_ids_exact S role ids id :
  state_ok S -> readable_active_revision_ids S role = Ok ids ->
  id ∈ ids <->
  exists r p, live_head S r p /\ r_revision_id r = id /\ role ∈ p_reader_roles p.
Proof.
  intros Hok Hids. destruct (so_root _ Hok) as (root & view & _ & Hv & _ & _ & _ & Hb).
  unfold readable_active_revision_ids in Hids. rewrite Hv in Hids. cbn [ok_or] in Hids.
  apply Ok_inj in Hids as <-. unfold sort_strings. rewrite merge_sort_Permutation.
  rewrite list_elem_of_omap. apply rebuild_streams in Hb as (Hel & _ & _). split.
  - intros (s & Hin & Hs). apply list_elem_of_In, filter_In in Hin as [Hin Hd].
    apply list_elem_of_In, Hel in Hin. breflect.
    apply stream_policy in Hin as Hin2; [|done]. destruct Hin2 as (r & p & Hr & Hp & Hse & _).
    apply (readable_head_spec _ _ _ _ _ Hok Hin) in Hs as (r' & p' & Hr' & Hid & Hp' & Hrole).
    assert (is_deleted r = false) as Hdel by (by rewrite Hse in Hd).
    rewrite Hr in Hr'. injection Hr' as <-. rewrite Hp in Hp'. injection Hp' as <-.
    apply last_stream_elem in Hr as Hm. destruct Hm as [_ Hm]. exists r, p.
    split; [|done]. constructor; [by rewrite Hm|by apply is_deleted_false|by rewrite Hm].
  - intros (r & p & [Hh Hd Hp] & <- & Hrole).
    set (m := r_memory_id r) in *.
    destruct (stream_spec (ls_revisions S) (ls_policies S) m) as [s|] eqn:Hs.
    2:{ unfold stream_spec in Hs. rewrite Hh in Hs. cbn in Hs. by rewrite Hp in Hs. }
    pose proof (stream_spec_memory _ _ _ _ Hs) as Hm. exists s. split.
    + apply list_elem_of_In, filter_In. rewrite <-list_elem_of_In. split; [apply Hel; by rewrite Hm|].
      apply stream_policy in Hs as (r' & p' & Hr' & Hp' & -> & _); [|done]. cbn. simplify_eq.
      apply negb_true_iff. by apply is_deleted_false.
    + eapply readable_head_spec; [done..|]. eauto 10.
Qed.

(** The policies of one memory share their origin. *)
Lemma policies_origin revs pols m p q :
  prefix_ok (policy_ok revs) pols -> p ∈ policies_of m pols -> q ∈ policies_of m pols ->
  p_origin_role_id p = p_origin_role_id q.
Proof.
  intros Hl. cut (forall x y, last (policies_of m pols) = Some y -> x ∈ policies_of m pols ->
    p_origin_role_id x = p_origin_role_id y).
  { intros Hc Hp Hq. destruct (last (policies_of m pols)) as [y|] eqn:Hy.
    - by rewrite (Hc p y), (Hc q y).
    - apply last_None in Hy. rewrite Hy in Hp. by apply elem_of_nil in Hp. }
  induction pols as [|z l IH] using rev_ind; intros x y Hy Hx; [by apply elem_of_nil in Hx|].
  apply prefix_ok_snoc in Hl as [Hl Hz]. rewrite policies_of_app in Hy, Hx.
  destruct (decide (p_memory_id z = m)) as [Hm|Hm].
  - assert (policies_of m [z] = [z]) as Hzz by (unfold policies_of, with_key; by rewrite filter_cons_True).
    rewrite Hzz in Hy, Hx. rewrite last_snoc in Hy. injection Hy as <-.
    apply elem_of_app in Hx as [Hx| ->%list_elem_of_singleton]; [|done].
    pose proof (pok_link _ _ _ Hz) as Hlink. unfold policy_link in Hlink. rewrite Hm in Hlink.
    destruct (last (policies_of m l)) as [w|] eqn:Hw.
    + destruct Hlink as [-> _]. by apply IH.
    + apply last_None in Hw. rewrite Hw in Hx. by apply elem_of_nil in Hx.
  - assert (policies_of m [z] = []) as Hzz by (unfold policies_of, with_key; by rewrite filter_cons_False).
    rewrite Hzz, app_nil_r in Hy, Hx. by apply IH.
Qed.

(** The origin of a revision is revealed exactly to the roles its memory's
    current policy lists as readers, or as writers when writing is asked, and
    it is the origin of every policy the memory ever had. *)
Lemma origin_for_revision_exact S role id (write : bool) o :
  state_ok S ->
  origin_for_revision S role id write = Ok (Some o) <->
  exists r p, r ∈ ls_revisions S /\ r_revision_id r = id /\
    last (policies_of (r_memory_id r) (ls_policies S)) = Some p /\
    role ∈ (if write then p_writer_roles p else p_reader_roles p) /\
    forall q, q ∈ policies_of (r_memory_id r) (ls_policies S) -> p_origin_role_id q = o.
Proof.
  intros Hok. unfold origin_for_revision. split.
  - intros Ho. destruct (find_revision S id) as [r|] eqn:Hr; [|done].
    apply find_revision_ok in Hr as [Hin Hid]; [|done].
    rewrite find_stream_ok in Ho by done. destruct (stream_spec _ _ _) as [s|] eqn:Hs; [|done].
    apply stream_policy in Hs as (h & p & Hh & Hp & _ & Hf); [|done].
    rewrite (proj2 (Hf p) eq_refl) in Ho. cbn [ok_or] in Ho. unfold str_mem in Ho.
    case_bool_decide; [|done]. simplify_eq. exists r, p. split_and!; try done.
    intros q Hq. eapply policies_origin; [apply (so_policies _ Hok)|done|by apply last_Some_elem_of].
  - intros (r & p & Hin & Hid & Hp & Hrole & Ho).
    rewrite (proj2 (find_revision_ok S id r Hok) (conj Hin Hid)), find_stream_ok by done.
    destruct (stream_spec _ _ (r_memory_id r)) as [s|] eqn:Hs.
    + apply stream_policy in Hs as (h & p' & Hh & Hp' & _ & Hf); [|done].
      rewrite Hp in Hp'. injection Hp' as <-. rewrite (proj2 (Hf p) eq_refl). cbn [ok_or].
      unfold str_mem. rewrite bool_decide_eq_true_2 by done.
      do 2 f_equal. apply Ho. by apply last_Some_elem_of.
    + unfold stream_spec in Hs. rewrite Hp in Hs. destruct (last (stream _ _)) eqn:Hl; [done|].
      apply last_None in Hl. assert (r ∈ stream (r_memory_id r) (ls_revisions S)) as Hx
        by (apply list_elem_of_filter; auto). rewrite Hl in Hx. by apply elem_of_nil in Hx.
Qed.

(** [r] is the source [e] names, as a text the embedding projection may read. *)
Record projectable (e : CanonicalSourceIdentity) (r : CanonicalRevision) (text : string) : Prop := {
  pj_memory : r_memory_id r = src_memory_id e;
  pj_revision : r_revision_id r = src_revision_id e;
  pj_sequence : r_sequence r = src_revision_sequence e;
  pj_hash : r_content_hash r = src_content_hash e;
  pj_tier : r_cognitive_tier r = Tier_Working \/ r_cognitive_tier r = Tier_LongTerm;
  pj_content : r_content r = Text text;
  pj_text : blank text = false;
}.

Lemma owner_reads S m s p : state_ok S ->
  last (policies_of m (ls_policies S)) = Some p -> cs_policy_id s = p_policy_id p ->
  policy_reads S s m PERSONAL_OWNER_ROLE_ID = true.
Proof.
  intros Hok [Hm Hin]%last_Some_elem_of%list_elem_of_filter Hs. apply existsb_exists.
  exists p. split; [by apply list_elem_of_In|]. rewrite Hs, Hm. unfold str_eqb, str_mem.
  rewrite !(bool_decide_eq_true_2 (_ = _)) by done. cbn. apply bool_decide_eq_true_2.
  apply list_elem_of_split in Hin as (l1 & l2 & Heq).
  apply (aud_readers p); [|auto].
  apply (pok_audience _ _ _ (plog_ok _ _ (so_policies _ Hok) _ _ _ Heq)).
Qed.

(** A projection worker is given a text exactly while the revision it
    names, with the same sequence and content hash, is the live head of its
    memory, in a projected tier, with a non-blank text. *)
Lemma guarded_document_exact S e text :
  state_ok S -> ls_poisoned S = false ->
  guarded_projection_document S e = Ok (Some text) <->
  exists r p, live_head S r p /\ projectable e r text.
Proof.
  intros Hok Hpo. unfold guarded_projection_document, current_projection_revision.
  rewrite Hpo. split.
  - intros Hg. apply Ok_inj in Hg. destruct (find_revision S _) as [r|] eqn:Hr; [|done].
    apply find_revision_ok in Hr as [Hin Hid]; [|done]. cbn in Hg.
    destruct (negb _ || _ || _) eqn:Hc1; [done|]. breflect.
    rewrite find_stream_ok in Hg by done. destruct (stream_spec _ _ _) as [s|] eqn:Hs; [|done].
    cbn in Hg. destruct (cs_deleted s || _ || _ || _) eqn:Hc2; [done|]. breflect.
    destruct (policy_reads _ _ _ _); [|done]. cbn in Hg.
    destruct (nonblank_text (r_content r)) as [t|] eqn:Ht; [|done]. cbn in Hg.
    rewrite Ht in Hg. injection Hg as ->.
    apply stream_policy in Hs as (h & p & Hh & Hp & -> & _); [|done]. cbn in *.
    apply last_stream_elem in Hh as Hhin. destruct Hhin as [Hhin _].
    pose proof (revision_log_NoDup _ (so_revisions _ Hok)) as Hnd.
    assert (h = r) as ->.
    { apply (index_by_NoDup r_revision_id) in Hin, Hhin; [|done..]. congruence. }
    exists r, p. split; [constructor; [done|by apply is_deleted_false|done]|].
    unfold nonblank_text in Ht. destruct (r_content r) as [t| | | |] eqn:Hcont; try done.
    destruct (blank t) eqn:Hb; [done|]. injection Ht as ->.
    constructor; try done. case_bool_decide; [by left|]. cbn in *. breflect. by right.
  - intros (r & p & [Hh Hd Hp] & [Hm Hid Hseq Hhash Htier Hcont Htext]).
    apply last_stream_elem in Hh as Hin. destruct Hin as [Hin _].
    rewrite (proj2 (find_revision_ok S _ r Hok) (conj Hin Hid)). cbn.
    rewrite Hm, Hseq, Hhash. unfold str_eqb. rewrite Z.eqb_refl, !(bool_decide_eq_true_2 (_ = _)) by done.
    cbn. rewrite find_stream_ok, <-Hm by done.
    destruct (stream_spec _ _ (r_memory_id r)) as [s|] eqn:Hs.
    2:{ unfold stream_spec in Hs. rewrite Hh in Hs. cbn in Hs. by rewrite Hp in Hs. }
    apply stream_policy in Hs as (h & q & Hh' & Hq & Hse & _); [|done].
    rewrite Hh in Hh'. injection Hh' as <-. rewrite Hp in Hq. injection Hq as <-.
    cbn [mbind option_bind]. rewrite (owner_reads S _ s p) by (done || by rewrite Hse).
    rewrite Hse. cbn.
    apply is_deleted_false in Hd. rewrite Hd, bool_decide_eq_true_2 by done. cbn.
    assert (bool_decide (r_cognitive_tier r = Tier_Working)
            || bool_decide (r_cognitive_tier r = Tier_LongTerm) = true) as ->
      by (by destruct Htier as [->| ->]).
    cbn. rewrite Hcont. cbn. rewrite Htext. cbn. rewrite Hcont. cbn. by rewrite Htext.
Qed.
End access.

Section snapshots.
Context `{LedgerCodec}.

Lemma walk_ancestors_history st h root l :
  root_history st h root l -> forall fuel acc, length l <= fuel ->
  walk_ancestors fuel st root acc = Some (Ok (rev (tail l) ++ acc)).
Proof.
  induction 1 as [h root _ _ Hp _ _|h root ph p l _ _ Hr Hf Hl IH]; intros fuel acc Hfuel.
  - destruct fuel; simpl; by rewrite Hp.
  - destruct fuel as [|fuel]; [simpl in Hfuel; lia|]. cbn [walk_ancestors].
    rewrite (rf_link _ _ _ _ Hf), Hr, (rf_hash _ _ _ _ Hf).
    rewrite IH by (simpl in Hfuel; lia). cbn [tail]. do 2 f_equal.
    assert (l = (ph, p) :: tail l) as Heq by (by inversion Hl). rewrite Heq at 2. cbn.
    by rewrite <-app_assoc.
Qed.

Lemma root_history_cons st h root l : root_history st h root l -> l = (h, root) :: tail l.
Proof. by inversion 1. Qed.

Lemma root_history_lookup st h root l i h' r' :
  root_history st h root l -> rev l !! i = Some (h', r') -> root_generation r' = Z.of_nat i.
Proof.
  intros Hl. revert i. induction Hl as [h root _ Hgen _ _ _|h root ph p l _ _ Hr Hf Hl IH];
    intros i Hi; cbn in Hi.
  - destruct i as [|i]; cbn in Hi; [|done]. by simplify_eq.
  - apply lookup_app_Some in Hi as [Hi|[Hlen Hi]]; [by apply IH|].
    rewrite length_rev in Hlen, Hi. pose proof (rf_generation _ _ _ _ Hf).
    pose proof (root_history_generation _ _ _ _ Hl) as Hg.
    destruct (i - length l) as [|j] eqn:Hj; cbn in Hi; [|done].
    injection Hi as <- <-. lia.
Qed.

Lemma root_history_genesis st h root l :
  root_history st h root l -> exists gh g, last l = Some (gh, g) /\ genesis_root g = true.
Proof.
  induction 1 as [h root|h root ph p l _ _ _ _ Hl (gh & g & Hlast & Hg)]; [by eauto|].
  exists gh, g. split; [|done]. rewrite (root_history_cons _ _ _ _ Hl) in Hlast |- *.
  by rewrite last_cons_cons.
Qed.

(** A projection snapshot of a loaded ledger terminates and succeeds: it
    holds the loaded revisions and the whole chain of roots, generation [i] at
    position [i], from the genesis to the active root. *)
Lemma projection_snapshot_complete st S :
  load_state st = Ok S ->
  exists snap, projection_snapshot st S = Some (Ok snap) /\
    cps_revisions snap = ls_revisions S /\
    (forall i h r, cps_root_chain snap !! i = Some (h, r) -> root_generation r = Z.of_nat i) /\
    last (cps_root_chain snap) = Some (cps_root_hash snap, cps_root snap) /\
    ls_root_hash S = Some (cps_root_hash snap) /\
    genesis_root (cps_genesis_root snap) = true.
Proof.
  unfold load_state. destruct (load_pointer st) as [ptr|]; [|done].
  intros (root & view & revs & pols & rels & Hh & ->)%load_root_sound.
  set (h := ptr_root_hash ptr) in *. destruct (h_history Hh) as [l Hl].
  pose proof (root_history_length _ _ _ _ (h_root Hh) Hl) as Hlen.
  pose proof (root_history_cons _ _ _ _ Hl) as Hcons.
  destruct (root_history_genesis _ _ _ _ Hl) as (gh & g & Hlast & Hg).
  assert (rev l = rev (tail l) ++ [(h, root)]) as Hrev by (rewrite Hcons at 1; done).
  unfold projection_snapshot, projection_snapshot_from_state. cbn [ls_poisoned loaded_state ls_root_hash ls_root].
  rewrite (walk_ancestors_history _ _ _ _ Hl) by (unfold walk_fuel; lia). rewrite <-Hrev.
  cbn [mbind option_bind]. unfold snapshot_of_chain.
  assert (head (rev l) = Some (gh, g)) as ->.
  { destruct l as [|x l' _] using rev_ind; [done|]. rewrite last_snoc in Hlast. simplify_eq.
    by rewrite rev_unit. }
  eexists. split; [reflexivity|]. cbn. split_and!; try done.
  - intros i h' r' Hi. by eapply root_history_lookup.
  - by rewrite Hrev, last_snoc.
Qed.
End snapshots.

(** What [stamp] makes of a revision that already carries the boundary values
    of an entry. *)
Definition as_entry_revision (r : CanonicalRevision) (origin_role : string)
    : CanonicalRevision := {|
  r_schema := REVISION_SCHEMA; r_sequence := 0; r_memory_id := r_memory_id r;
  r_revision_id := r_revision_id r; r_parent_revision_id := r_parent_revision_id r;
  r_content := r_content r; r_content_hash := r_content_hash r; r_tags := r_tags r;
  r_memory_type := r_memory_type r; r_cognitive_tier := r_cognitive_tier r;
  r_deleted_at := r_deleted_at r; r_committed_at := r_committed_at r;
  r_committed_by_role := origin_role |}.

(** A revision replayed into the runtime can always be turned back into a
    revision, with the same identity, content, parent, tier and deletion mark;
    and conversely an entry the ledger accepts comes back with the same durable
    fields, its runtime counters reset. *)
Lemma entry_revision_roundtrip (r : CanonicalRevision) (origin_role : string)
    (entry : MemoryEntry) :
  entry_to_revision (into_runtime_entry r origin_role) = Ok (as_entry_revision r origin_role) /\
  (entry_to_revision entry = Ok r ->
   into_runtime_entry r (e_agent_id entry) =
   {| e_id := e_id entry; e_memory_id := e_memory_id entry;
      e_parent_revision_id := e_parent_revision_id entry;
      e_canonical_content_hash := e_canonical_content_hash entry;
      e_agent_id := e_agent_id entry; e_tenant_id := e_tenant_id entry; e_tier := e_tier entry;
      e_content := e_content entry; e_importance := 50; e_access_count := 0;
      e_last_accessed := e_created_at entry; e_created_at := e_created_at entry;
      e_tags := e_tags entry; e_ttl_ms := e_ttl_ms entry;
      e_original_ttl_ms := e_original_ttl_ms entry; e_scope := e_scope entry;
      e_memory_type := e_memory_type entry; e_causal_parent := e_causal_parent entry;
      e_supersedes := e_supersedes entry; e_superseded_by := e_superseded_by entry;
      e_deleted_at := e_deleted_at entry |}).
Proof.
  split; [done|]. unfold entry_to_revision, into_runtime_entry. intros He.
  destruct (negb _) eqn:H1 in He; [done|]. destruct (negb _) eqn:H2 in He; [done|].
  destruct (opt_is_some _ || _) eqn:H3 in He; [done|].
  destruct (opt_is_some _) eqn:H4 in He; [done|].
  destruct (opt_is_some _ || _) eqn:H5 in He; [done|].
  apply Ok_inj in He as <-. breflect. cbn. destruct entry; cbn in *; subst.
  by repeat match goal with H : opt_is_some ?x = false |- _ => destruct x; [done|]; clear H end.
Qed.

(** ** On a concrete ledger *)

Lemma readable_ids_exact_witness : "m" ∈ ["m"] <->
  exists r p, live_head doc_state1 r p /\ r_revision_id r = "m" /\ "alice" ∈ p_reader_roles p.
Proof. apply (readable_ids_exact doc_state1 "alice" ["m"] "m" doc_ok1). vm_compute. reflexivity. Defined.

Lemma origin_for_revision_exact_witness :
  origin_for_revision doc_state1 "alice" "m" true = Ok (Some "alice") <->
  exists r p, r ∈ ls_revisions doc_state1 /\ r_revision_id r = "m" /\
    last (policies_of (r_memory_id r) (ls_policies doc_state1)) = Some p /\
    "alice" ∈ p_writer_roles p /\
    forall q, q ∈ policies_of (r_memory_id r) (ls_policies doc_state1) -> p_origin_role_id q = "alice".
Proof. exact (origin_for_revision_exact doc_state1 "alice" "m" true "alice" doc_ok1). Defined.

Definition doc_source : CanonicalSourceIdentity := {|
  src_canonical_kind := "memory_revision"; src_memory_id := "m"; src_revision_id := "m";
  src_revision_sequence := 1;
  src_content_hash := r_content_hash (doc_revision "m" "m" None "one") |}.

Lemma guarded_document_exact_witness :
  exists r p, live_head doc_state1 r p /\ projectable doc_source r "one".
Proof.
  apply (guarded_document_exact doc_state1 doc_source "one" doc_ok1); vm_compute; reflexivity.
Defined.

Lemma projection_snapshot_complete_witness :
  exists snap, projection_snapshot doc_store1 doc_state1 = Some (Ok snap) /\
    genesis_root (cps_genesis_root snap) = true.
Proof.
  destruct (projection_snapshot_complete _ _ doc_load1) as (snap & Hs & _ & _ & _ & _ & Hg).
  exists snap. split; [exact Hs|exact Hg].
Defined.

Lemma entry_revision_roundtrip_witness :
  r_memory_id (doc_revision "m" "m" None "one") = e_memory_id
    (into_runtime_entry (doc_revision "m" "m" None "one") "alice").
Proof.
  destruct (entry_revision_roundtrip (as_entry_revision (doc_revision "m" "m" None "one") "alice")
    "alice" (into_runtime_entry (doc_revision "m" "m" None "one") "alice")) as [_ Hback].
  specialize (Hback eq_refl). apply (f_equal e_memory_id) in Hback. exact Hback.
Defined.
