(* ===== verification/LedgerLogs.v ===== *)
(** * What the validators and the loader accept

    The validation passes accept exactly the well-formed logs; accepted streams
    are linear; the view is determined by the logs; the loader returns exactly
    the log below a head; the logs only ever grow. *)

From stdpp Require Import base gmap strings list sorting.
From S2P Require Import Prelude Wire MemoryModel LedgerModel LedgerValidate LedgerView.
From S2P Require Import LedgerStorage LedgerStore LedgerChains LedgerDurability.
From S2P Require Import LedgerCommits DocPlatform LedgerAccess.

Section logs.
Context `{LedgerCodec}.

(** C7: the validators accept exactly the well-formed logs: revisions with
    fresh identities, contiguous sequences and correct content hashes, each
    opening a stream or extending its live head; policies whose audience is
    legal, whose first of a memory starts at its root and whose later ones keep
    the origin, never roll back and are committed by an authorised writer; and
    every memory has one. *)
Theorem record_sets_exact (revs : list CanonicalRevision) (pols : list PolicyRecord) :
  validate_migration_record_sets revs pols = Ok tt <-> revision_log revs /\ policy_log revs pols.
Proof.
  unfold validate_migration_record_sets. split.
  - destruct (validate_revisions revs) as [[]|] eqn:Hr; [|done].
    apply validate_revisions_iff in Hr. intros Hp. by apply validate_policies_iff in Hp.
  - intros [Hr Hp]. rewrite (proj2 (validate_revisions_iff _) Hr).
    by apply validate_policies_iff.
Qed.

(** In an accepted revision log every memory is one linear history: its
    first revision is the parentless root named after the memory, every other
    one has exactly the previous one as its parent and stays in its tier, and a
    deletion is last and repeats the payload it deletes. *)
Lemma accepted_streams_linear (log : list CanonicalRevision) (m : MemoryId) :
  validate_revisions log = Ok tt ->
  stream_chain m (stream m log) /\
  (forall i r, stream m log !! i = Some r -> is_Some (r_deleted_at r) ->
     S i = length (stream m log)).
Proof.
  intros Hl%validate_revisions_iff. pose proof (revision_log_stream_chain _ m Hl) as Hc.
  split; [done|]. intros i r Hi Hd. destruct Hc as [_ Hnext].
  apply lookup_lt_Some in Hi as Hlt. destruct (stream m log !! S i) as [b|] eqn:Hb.
  - destruct (Hnext _ _ _ Hi Hb) as (_ & Hn & _). rewrite Hn in Hd. by destruct Hd.
  - apply lookup_ge_None in Hb. lia.
Qed.

(** C8: the rebuilt view of an accepted ledger holds one stream per memory,
    sorted by memory, naming the memory's last revision, its deletion mark and
    its last policy; and it does not depend on the iteration order of the hash
    map of heads. *)
Theorem rebuilt_view_exact g w (revs : list CanonicalRevision) (pols : list PolicyRecord) :
  validate_migration_record_sets revs pols = Ok tt ->
  exists v, rebuild_current_view g revs pols w = Ok v /\
    (forall m, stream_for v m = stream_spec revs pols m) /\
    NoDup (cs_memory_id <$> v_streams v) /\ StronglySorted stream_le (v_streams v) /\
    (forall m, head_for v m = r_revision_id <$> last (stream m revs)) /\
    (forall entries, entries ≡ₚ map_to_list (head_by_memory revs) ->
       streams_of_entries pols entries = Ok (v_streams v)).
Proof.
  unfold validate_migration_record_sets.
  destruct (validate_revisions revs) as [[]|] eqn:Hr; [|done].
  apply validate_revisions_iff in Hr. intros Hp. apply validate_policies_iff in Hp; [|done].
  destruct (rebuild_total revs pols g w (plog_cover _ _ Hp)) as [v Hv]. exists v.
  destruct (rebuild_streams _ _ _ _ _ Hv) as (_ & Hnd & Hsort). split_and!; try done.
  - intros m. by eapply rebuild_stream_for.
  - intros m. eapply rebuild_head_for; [apply (plog_cover _ _ Hp)|done].
  - intros entries He. eapply streams_permutation; [done|].
    unfold rebuild_current_view in Hv. destruct (streams_of_entries _ _); [|done].
    by apply Ok_inj in Hv as <-.
Qed.

(** [load_segment_chain] returns a log exactly when the head's segments
    are stored under their hashes, linked, non-empty and numbered contiguously
    from 1 to the watermark; the log is then their concatenation.  In
    particular the bounded walk never runs out. *)
Lemma load_segment_chain_exact st kind head wm (recs : list CanonicalRevision) :
  load_segment_chain st kind head wm = Ok recs <->
  log_chain st (segment_schema kind) head recs /\ wm = Z.of_nat (length recs).
Proof. apply load_segment_chain_iff. Qed.

(** C9: the ledger never rewrites history: in a loaded ledger the revisions,
    policies and relations of every root of the chain are prefixes of the
    current ones. *)
Theorem history_is_append_only st S h r revs pols rels :
  load_state st = Ok S ->
  (exists l hash root, ls_root_hash S = Some hash /\ ls_root S = Some root /\
     root_history st hash root l /\ (h, r) ∈ l) ->
  load_revisions st r = Ok revs -> load_policies st r = Ok pols -> load_relations st r = Ok rels ->
  revs `prefix_of` ls_revisions S /\ pols `prefix_of` ls_policies S /\
  rels `prefix_of` ls_relations S.
Proof.
  unfold load_state. destruct (load_pointer st); [|done].
  intros (root & view & rs & ps & ls & Hh & ->)%load_root_sound.
  intros (l & hash & root' & [= <-] & [= <-] & Hl & Hin) Hr Hp Hrel. cbn.
  eapply root_history_prefix; eauto; [apply (h_revisions Hh)|apply (h_policies Hh)|apply (h_relations Hh)].
Qed.
End logs.

(** ** On a concrete ledger *)

Lemma doc_logs1 :
  validate_migration_record_sets (ls_revisions doc_state1) (ls_policies doc_state1) = Ok tt.
Proof. vm_compute. reflexivity. Qed.

Lemma accepted_streams_linear_witness :
  stream_chain "m" (stream "m" (ls_revisions doc_state1)) /\
  (forall i r, stream "m" (ls_revisions doc_state1) !! i = Some r -> is_Some (r_deleted_at r) ->
     S i = length (stream "m" (ls_revisions doc_state1))).
Proof. apply (accepted_streams_linear (ls_revisions doc_state1) "m"). vm_compute. reflexivity. Defined.

Lemma rebuilt_view_exact_witness :
  exists v, rebuild_current_view 1 (ls_revisions doc_state1) (ls_policies doc_state1) 0 = Ok v /\
    forall m, stream_for v m = stream_spec (ls_revisions doc_state1) (ls_policies doc_state1) m.
Proof.
  destruct (rebuilt_view_exact 1 0 (ls_revisions doc_state1) (ls_policies doc_state1) doc_logs1)
    as (v & Hv & Hs & _). exists v. split; [exact Hv|exact Hs].
Defined.

(** The genesis root, below the first commit. *)
Lemma history_is_append_only_witness :
  exists revs, load_revisions doc_store1 (default (make_genesis_root "") (ls_root doc_state0))
               = Ok revs /\ revs `prefix_of` ls_revisions doc_state1.
Proof.
  exists []. split; [vm_compute; reflexivity|].
  destruct (load_state_inv _ _ doc_load1) as (h & root & view & revs & pols & rels & Hh & Hs).
  destruct (h_history Hh) as [l Hl].
  destruct (root_history_genesis _ _ _ _ Hl) as (gh & g & Hlast & Hg).
  destruct (history_is_append_only doc_store1 doc_state1 gh g [] [] []) as [Hp _].
  - exact doc_load1.
  - exists l, h, root. rewrite Hs. split_and!; [reflexivity..|exact Hl|by apply last_Some_elem_of].
  - unfold genesis_root in Hg. breflect. unfold load_revisions.
    match goal with Hw : root_revision_watermark g = 0%Z |- _ => rewrite Hw end.
    by destruct (root_revision_head g).
  - unfold genesis_root in Hg. breflect. unfold load_policies.
    match goal with Hw : root_policy_watermark g = 0%Z |- _ => rewrite Hw end.
    by destruct (root_policy_head g).
  - unfold genesis_root in Hg. breflect. unfold load_relations.
    match goal with Hw : root_relation_watermark g = 0%Z |- _ => rewrite Hw end.
    by destruct (root_relation_head g).
  - exact Hp.
Defined.
