(* ===== verification/MigrationProps.v ===== *)
(** * What an accepted migration attests

    [validate_target_records] is a chain of local comparisons between the
    imported logs and the manifest.  Together with the log validators they
    amount to a bijection: every imported revision and policy is accounted for
    by exactly one entry of the manifest, in the order the manifest gives. *)

From stdpp Require Import base gmap strings list sorting.
From S2P Require Import Prelude Wire MemoryModel LedgerModel LedgerValidate MigrationManifest.
From S2P Require Import LedgerStore DocPlatform.

(** ** Generic facts *)

Lemma insert_all_fresh_iff set l set' :
  insert_all_fresh set l = Some set' <->
  NoDup l /\ (forall x, x ∈ l -> x ∉ set) /\ set' = list_to_set l ∪ set.
Proof.
  revert set. induction l as [|v l IH]; intros set; simpl.
  - split; [intros [= <-]|intros (_ & _ & ->)].
    + split_and!; [constructor|set_solver|set_solver].
    + f_equal. set_solver.
  - rewrite NoDup_cons. destruct (decide (v ∈ set)) as [Hv|Hv].
    + split; [done|]. intros (_ & Hf & _). exfalso. apply (Hf v); [left|done].
    + rewrite IH. split.
      * intros (Hnd & Hf & ->). split_and!; [|done| |set_solver].
        -- intros Hin. apply (Hf v); set_solver.
        -- intros x [->|Hx]%elem_of_cons; [done|]. specialize (Hf x Hx). set_solver.
      * intros ([Hv' Hnd] & Hf & ->). split_and!; [done| |set_solver].
        intros x Hx. specialize (Hf x). set_solver.
Qed.

Lemma filter_with_key {A} (key : A -> string) k (l : list A) :
  List.filter (fun x => str_eqb (key x) k) l = with_key key k l.
Proof.
  unfold with_key, str_eqb. induction l as [|x l IH]; [done|].
  rewrite filter_cons. simpl. rewrite IH. by case_bool_decide; case_decide.
Qed.

Lemma with_key_elem {A} (key : A -> string) k l x :
  x ∈ with_key key k l <-> key x = k /\ x ∈ l.
Proof. unfold with_key. by rewrite list_elem_of_filter. Qed.

Lemma with_key_NoDup {A B} (key : A -> string) (f : A -> B) k l :
  NoDup (f <$> l) -> NoDup (f <$> with_key key k l).
Proof.
  intros Hnd. eapply sublist_NoDup; [exact Hnd|]. apply fmap_sublist, sublist_filter.
Qed.

Lemma max_by_key_last {A} (key : A -> Z) l :
  StronglySorted (fun a b => (key a <= key b)%Z) l -> max_by_key key l = last l.
Proof.
  induction 1 as [|x l Hs IH Hx]; [done|]. simpl. rewrite IH, last_cons.
  destruct (last l) as [y|] eqn:Hl; [|done].
  apply last_Some_elem_of in Hl. rewrite Forall_forall in Hx.
  by rewrite (proj2 (Z.leb_le _ _) (Hx y Hl)).
Qed.

Lemma StronglySorted_with_key {A} (R : relation A) (key : A -> string) k l :
  StronglySorted R l -> StronglySorted R (with_key key k l).
Proof.
  unfold with_key. induction 1 as [|x l Hs IH Hx]; [constructor|].
  rewrite filter_cons. case_decide; [|done]. constructor; [done|].
  apply Forall_forall. intros y [_ Hy]%list_elem_of_filter. rewrite Forall_forall in Hx. auto.
Qed.

(** Permutations of a list that is covered without repetition. *)
Lemma cover_Permutation {A} (l k : list A) :
  NoDup l -> (forall x, x ∈ l -> x ∈ k) -> length k = length l -> l ≡ₚ k.
Proof.
  intros Hnd Hin Hlen. apply submseteq_length_Permutation; [by apply NoDup_submseteq|lia].
Qed.

Section attest.
Context `{Platform} `{!Serde SourceManifest} `{!Serde MigrationManifest}.
Context `{!Serde MemoryContent} `{!Serde Json}.

(** ** Sequences in a log *)

Lemma revision_log_sequences log :
  revision_log log -> StronglySorted (fun a b => (r_sequence a <= r_sequence b)%Z) log.
Proof.
  intros Hl. assert (forall i r, log !! i = Some r -> r_sequence r = (Z.of_nat i + 1)%Z) as Hseq.
  { intros i r Hi. pose proof (take_drop_middle _ _ _ Hi) as Heq. symmetry in Heq.
    rewrite (rok_sequence _ _ (Hl _ _ _ Heq)), length_take_le; [done|].
    apply lookup_lt_Some in Hi. lia. }
  clear Hl. cut (forall n, (forall i r, log !! i = Some r -> r_sequence r = (Z.of_nat (n + i) + 1)%Z) ->
    StronglySorted (fun a b => (r_sequence a <= r_sequence b)%Z) log).
  { intros Hc. by apply (Hc 0). }
  clear Hseq. induction log as [|x log IH]; intros n Hseq; constructor.
  - apply (IH (S n)). intros i r Hi. rewrite (Hseq (S i) r Hi). lia.
  - apply Forall_forall. intros y [i Hi]%list_elem_of_lookup_1.
    rewrite (Hseq 0 x eq_refl), (Hseq (S i) y Hi). lia.
Qed.

(** ** The specification *)

(** The policy record [p] is the one the manifest's [mapping] announces. *)
Record policy_attested (m : MigrationManifest) (source : SourceManifest) (s : StreamMapping)
    (role : string) (mapping : PolicyMapping) (p : PolicyRecord) : Prop := {
  pa_memory : p_memory_id p = sp_memory_id s;
  pa_effective : p_effective_from_revision_id p = pm_effective_from_revision_id mapping;
  pa_origin : p_origin_role_id p = role;
  pa_scope : scope_mode_matches (pm_source_scope mapping) (pm_target_mode mapping) = true;
  pa_mode : p_mode p = expected_mode (pm_target_mode mapping);
  pa_readers :
    expected_readers source (origin_roles_of role) (pm_source_scope mapping) = Ok (p_reader_roles p);
  pa_audience : p_reader_roles p = pm_audience_cutoff_roles mapping;
  pa_writers : p_writer_roles p = origin_roles_of role;
  pa_imported : p_committed_at p = mm_imported_at m /\ p_committed_by_role p = mm_imported_by_role m;
}.

(** The stream of [s] holds the legacy revisions in the manifest's order, then
    the tombstone if the stream was deleted, and nothing else; its policies are
    those of the manifest. *)
Record stream_attested (m : MigrationManifest) (source : SourceManifest)
    (revs : list CanonicalRevision) (pols : list PolicyRecord) (s : StreamMapping) : Prop := {
  sa_revisions : r_revision_id <$> stream (sp_memory_id s) revs
    = sp_legacy_revision_ids s ++ option_list (sp_tombstone_revision_id s);
  sa_head : r_revision_id <$> last (stream (sp_memory_id s) revs)
    = Some (sp_target_head_revision_id s);
  sa_deleted : forall r, r ∈ stream (sp_memory_id s) revs ->
    is_Some (r_deleted_at r) <-> sp_tombstone_revision_id s = Some (r_revision_id r);
  sa_imported : forall r, r ∈ stream (sp_memory_id s) revs ->
    r_committed_at r = mm_imported_at m /\ r_committed_by_role r = mm_imported_by_role m;
  sa_policies : exists rm ps, rm ∈ sm_role_mappings source /\
    rm_legacy_agent_id rm = sp_legacy_agent_id s /\
    ps ≡ₚ policies_of (sp_memory_id s) pols /\
    Forall2 (policy_attested m source s (rm_target_role_id rm)) (sp_policy_mappings s) ps;
}.

(** ** One stream *)

Lemma policy_step_attested m source pols s role i cov mapping cov' :
  policy_mapping_step m source pols s role i cov mapping = Ok cov' ->
  exists p, p ∈ pols /\ policy_attested m source s role mapping p /\
    p_policy_id p ∉ cov /\ cov' = {[p_policy_id p]} ∪ cov.
Proof.
  unfold policy_mapping_step, ok_or. intros Hs.
  destruct (List.find _ pols) as [p|] eqn:Hf; [|done].
  apply find_some in Hf as [Hin Hp]. breflect.
  destruct (expected_readers _ _ _) as [readers|] eqn:Hr; [|by ok_inv Hs].
  ok_inv Hs. breflect. subst. exists p. split_and!; [by apply list_elem_of_In| |done|done].
  constructor; try done; congruence.
Qed.

Lemma policy_loop_attested m source pols s role cov l cov' :
  try_for (policy_mapping_step m source pols s role) 0 cov l = Ok cov' ->
  exists ps, Forall2 (policy_attested m source s role) l ps /\
    (forall p, p ∈ ps -> p ∈ pols) /\ NoDup (p_policy_id <$> ps) /\
    (forall p, p ∈ ps -> p_policy_id p ∉ cov) /\
    cov' = list_to_set (p_policy_id <$> ps) ∪ cov.
Proof.
  revert l cov'. refine (try_for_inv _ (fun l cov' => exists ps, _) cov _ _).
  - exists []. split_and!; [constructor|set_solver|constructor|set_solver|set_solver].
  - intros pre t x t' (ps & HF & Hin & Hnd & Hdj & ->) Hx.
    apply policy_step_attested in Hx as (p & Hp & Ha & Hfr & ->).
    exists (ps ++ [p]). rewrite fmap_app, list_to_set_app_L, NoDup_app.
    split_and!; [apply Forall2_app; [done|constructor; [done|constructor]]|set_solver|done
      |set_solver|apply NoDup_singleton| |set_solver].
    intros q [Hq|Hq]%elem_of_app; [auto|]. apply list_elem_of_singleton in Hq as ->. set_solver.
Qed.

(** A list of identifiers in which every one names a revision of the stream
    whose parent is the one before it is an initial part of the stream. *)
Lemma chained_ids_are_stream revs m (ids : list string) :
  revision_log revs ->
  (forall i id, ids !! i = Some id -> exists r, r ∈ stream m revs /\ r_revision_id r = id /\
     r_parent_revision_id r = match i with 0 => None | S j => ids !! j end) ->
  forall i id, ids !! i = Some id -> r_revision_id <$> (stream m revs !! i) = Some id.
Proof.
  intros Hlog Hids. destruct (revision_log_stream_chain _ m Hlog) as [Hroot Hnext].
  pose proof (with_key_NoDup r_memory_id _ m _ (revision_log_NoDup _ Hlog)) as Hnd.
  assert (forall j r, stream m revs !! j = Some r ->
    r_parent_revision_id r = match j with 0 => None
      | S k => r_revision_id <$> (stream m revs !! k) end) as Hpar.
  { intros [|k] r Hj.
    - apply Hroot. by rewrite head_lookup.
    - destruct (stream m revs !! k) as [a|] eqn:Ha; [by apply (Hnext k a r)|].
      apply lookup_ge_None in Ha. apply lookup_lt_Some in Hj. lia. }
  induction i as [|i IH]; intros id Hi; destruct (Hids _ _ Hi) as (r & [j Hj]%list_elem_of_lookup_1 & <- & Hp).
  - pose proof (Hpar _ _ Hj) as Hp'. destruct j as [|k]; [by rewrite Hj|].
    destruct (lookup_lt_is_Some_2 (stream m revs) k) as [a Ha];
      [apply lookup_lt_Some in Hj; lia|]. rewrite Ha in Hp'. simpl in Hp'. congruence.
  - destruct (lookup_lt_is_Some_2 ids i) as [id' Hi']; [apply lookup_lt_Some in Hi; lia|].
    rewrite Hi' in Hp. pose proof (Hpar _ _ Hj) as Hp'. destruct j as [|k]; [congruence|].
    pose proof (IH _ Hi') as Hi2. rewrite Hp in Hp'.
    assert (k = i) as ->; [|by rewrite Hj].
    eapply (NoDup_lookup (r_revision_id <$> stream m revs)); [exact Hnd| |];
      rewrite list_lookup_fmap; [by symmetry|exact Hi2].
Qed.

Lemma legacy_loop_spec m s revs (l : list string) :
  revision_log revs ->
  try_for (legacy_revision_step m s (index_by r_revision_id revs)) 0 tt l = Ok tt ->
  l = sp_legacy_revision_ids s ->
  forall i id, l !! i = Some id -> exists r, r ∈ stream (sp_memory_id s) revs /\
    r_revision_id r = id /\ r_deleted_at r = None /\
    r_parent_revision_id r = match i with 0 => None | S j => l !! j end /\
    r_committed_at r = mm_imported_at m /\ r_committed_by_role r = mm_imported_by_role m.
Proof.
  intros Hlog Ht Hl. rewrite Hl in *. clear Hl l. intros i id Hi.
  pose proof (take_drop_middle _ _ _ Hi) as Heq. rewrite <-Heq in Ht.
  rewrite try_for_app in Ht. destruct (try_for _ 0 tt (take i _)) as [[]|]; [|done].
  simpl in Ht. rewrite length_take_le in Ht by (apply lookup_lt_Some in Hi; lia).
  destruct (legacy_revision_step _ _ _ i _ id) as [[]|] eqn:Hs; [|done]. clear Ht Heq.
  unfold legacy_revision_step, ok_or in Hs.
  destruct (_ !! id) as [r|] eqn:Hr; [|done]. apply index_by_lookup_Some in Hr as [Hin Hid].
  exists r. rewrite <-is_deleted_false.
  ok_inv Hs; breflect; split_and!; try done; by apply with_key_elem.
Qed.

Lemma ids_eq_by_lookup (l : list CanonicalRevision) (ids : list string) (t : option string) :
  length l = length ids + (if bool_decide (is_Some t) then 1 else 0) ->
  (forall i id, ids !! i = Some id -> r_revision_id <$> (l !! i) = Some id) ->
  (forall x, t = Some x -> r_revision_id <$> last l = Some x) ->
  r_revision_id <$> l = ids ++ option_list t.
Proof.
  intros Hlen Hids Ht. apply list_eq_same_length with (n := length l);
    [|by rewrite length_fmap|].
  { rewrite length_app, Hlen. by destruct t. }
  intros i x y Hi Hx Hy. rewrite list_lookup_fmap in Hx.
  apply lookup_app_Some in Hy as [Hy|[Hge Hy]].
  - rewrite (Hids _ _ Hy) in Hx. by simplify_eq.
  - destruct t as [z|]; [|by simpl in Hy; rewrite lookup_nil in Hy]. simpl in *.
    assert (i = length ids) as -> by lia. rewrite Nat.sub_diag in Hy. simplify_eq/=.
    specialize (Ht _ eq_refl). rewrite last_lookup, Hlen in Ht.
    replace (Nat.pred (length ids + 1)) with (length ids) in Ht by lia. congruence.
Qed.

Lemma head_check_spec revs s :
  revision_log revs ->
  head_check s (index_by r_revision_id revs) (stream (sp_memory_id s) revs) = Ok tt ->
  exists h, last (stream (sp_memory_id s) revs) = Some h /\
    r_revision_id h = sp_target_head_revision_id s /\
    (is_Some (sp_tombstone_revision_id s) <-> is_Some (r_deleted_at h)) /\
    (forall t, sp_tombstone_revision_id s = Some t -> r_revision_id h = t).
Proof.
  intros Hlog. unfold head_check, ok_or. rewrite max_by_key_last
    by apply StronglySorted_with_key, revision_log_sequences, Hlog.
  intros Hh. destruct (_ !! sp_target_head_revision_id s) as [h|] eqn:Hf; [|done].
  apply index_by_lookup_Some in Hf as [Hin Hid].
  destruct (last _) as [h'|] eqn:Hl; [|by ok_inv Hh]. ok_inv Hh.
  destruct (_ || _) eqn:Hc in Hh; [done|]. breflect.
  assert (h' = h) as ->.
  { destruct (last_stream_elem _ _ _ Hl) as [Hin' _].
    apply (index_by_NoDup r_revision_id) in Hin, Hin'; [|by apply revision_log_NoDup..].
    congruence. }
  exists h. split_and!; [done..| |].
  - match goal with H : eqb _ _ = true |- _ => apply eqb_prop in H; unfold is_deleted in H end.
    by do 2 case_bool_decide.
  - intros t Ht. rewrite Ht in *. simpl in *. by breflect.
Qed.

Lemma tombstone_check_imported m s revs t :
  tombstone_check m s (index_by r_revision_id revs) = Ok tt ->
  sp_tombstone_revision_id s = Some t ->
  exists r, r ∈ revs /\ r_revision_id r = t /\
    r_committed_at r = mm_imported_at m /\ r_committed_by_role r = mm_imported_by_role m.
Proof.
  unfold tombstone_check, ok_or. intros Hc Ht. rewrite Ht in Hc.
  destruct (_ !! t) as [r|] eqn:Hr; [|done]. apply index_by_lookup_Some in Hr as [Hin Hid].
  ok_inv Hc. breflect. by exists r.
Qed.

(** The revision half of a stream. *)
Lemma stream_revisions_attested m s revs :
  revision_log revs ->
  length (stream (sp_memory_id s) revs) = length (sp_legacy_revision_ids s)
    + (if bool_decide (is_Some (sp_tombstone_revision_id s)) then 1 else 0) ->
  try_for (legacy_revision_step m s (index_by r_revision_id revs)) 0 tt (sp_legacy_revision_ids s) = Ok tt ->
  tombstone_check m s (index_by r_revision_id revs) = Ok tt ->
  head_check s (index_by r_revision_id revs) (stream (sp_memory_id s) revs) = Ok tt ->
  r_revision_id <$> stream (sp_memory_id s) revs
    = sp_legacy_revision_ids s ++ option_list (sp_tombstone_revision_id s) /\
  r_revision_id <$> last (stream (sp_memory_id s) revs) = Some (sp_target_head_revision_id s) /\
  (forall r, r ∈ stream (sp_memory_id s) revs ->
    (is_Some (r_deleted_at r) <-> sp_tombstone_revision_id s = Some (r_revision_id r)) /\
    r_committed_at r = mm_imported_at m /\ r_committed_by_role r = mm_imported_by_role m).
Proof.
  intros Hlog Hlen Hl Htomb Hhead.
  pose proof (legacy_loop_spec _ _ _ _ Hlog Hl eq_refl) as Hleg.
  destruct (head_check_spec _ _ Hlog Hhead) as (h & Hh & Hid & Hdel & Ht).
  assert (r_revision_id <$> stream (sp_memory_id s) revs
    = sp_legacy_revision_ids s ++ option_list (sp_tombstone_revision_id s)) as Hids.
  { apply ids_eq_by_lookup; [done| |intros t Ht'; by rewrite Hh, <-(Ht _ Ht')].
    apply chained_ids_are_stream; [done|]. intros i id Hi.
    destruct (Hleg _ _ Hi) as (r & ? & ? & ? & ? & ?). eauto. }
  split_and!; [done|by rewrite Hh, <-Hid|]. intros r Hr.
  assert (forall q, q ∈ revs -> r_revision_id q = r_revision_id r -> q = r) as Huniq.
  { intros q Hq Heq. apply with_key_elem in Hr as [_ Hr].
    apply (index_by_NoDup r_revision_id) in Hq, Hr; [|by apply revision_log_NoDup..]. congruence. }
  assert (r_revision_id r ∈ r_revision_id <$> stream (sp_memory_id s) revs) as Hel
    by by apply list_elem_of_fmap_2.
  pose proof (with_key_NoDup r_memory_id _ (sp_memory_id s) _ (revision_log_NoDup _ Hlog)) as Hnd.
  fold (stream (sp_memory_id s) revs) in Hnd. rewrite Hids in Hel, Hnd.
  apply NoDup_app in Hnd as (_ & Hdj & _).
  apply elem_of_app in Hel as [Hel|Hel].
  - apply list_elem_of_lookup_1 in Hel as [i Hi]. specialize (Hdj _ (list_elem_of_lookup_2 _ _ _ Hi)).
    destruct (Hleg _ _ Hi) as (q & Hq & Hqid & Hqd & _ & Hqc).
    apply with_key_elem in Hq as [_ Hq]. rewrite (Huniq q Hq Hqid) in *. rewrite Hqd.
    split; [|done]. split; [by intros []|]. intros Hs. rewrite Hs in Hdj. set_solver.
  - destruct (sp_tombstone_revision_id s) as [t|] eqn:Es; [|set_solver].
    apply list_elem_of_singleton in Hel as Hrt.
    destruct (tombstone_check_imported _ _ _ t Htomb Es) as (q & Hq & Hqid & Hqc).
    rewrite (Huniq q Hq) in * by congruence. split; [|done]. rewrite <-Hrt. split; [done|]. intros _.
    destruct (last_stream_elem _ _ _ Hh) as [Hin _].
    rewrite <-(Huniq h Hin) by (rewrite Hrt; by apply Ht). by apply Hdel.
Qed.

Lemma stream_step_attested m source revs pols i st s st' :
  revision_log revs ->
  stream_mapping_step m source revs pols i st s = Ok st' ->
  stream_attested m source revs pols s /\
  insert_all_fresh (legacy_revision_ids st) (sp_legacy_revision_ids s) = Some (legacy_revision_ids st') /\
  insert_all_fresh (covered_revisions st) (r_revision_id <$> stream (sp_memory_id s) revs)
    = Some (covered_revisions st').
Proof.
  intros Hlog Hs. unfold stream_mapping_step, ok_or in Hs. rewrite !filter_with_key in Hs.
  change (with_key r_memory_id (sp_memory_id s) revs) with (stream (sp_memory_id s) revs) in Hs.
  destruct (negb _) in Hs; [done|].
  destruct (List.find _ (sm_role_mappings source)) as [rm|] eqn:Hrm; [|done].
  apply find_some in Hrm as [Hrm Hag]. apply list_elem_of_In in Hrm. breflect.
  destruct (insert_all_fresh (legacy_revision_ids st) _) as [leg|] eqn:Hleg; [|done].
  destruct (negb (Nat.eqb (length (stream _ _)) _)) eqn:Hlen in Hs; [done|].
  apply negb_false_iff, Nat.eqb_eq in Hlen.
  destruct (insert_all_fresh (covered_revisions st) _) as [cov|] eqn:Hcov; [|done].
  destruct (try_for (legacy_revision_step _ _ _) _ _ _) as [[]|] eqn:Hl; [|done].
  destruct (tombstone_check _ _ _) as [[]|] eqn:Htomb; [|done].
  destruct (head_check _ _ _) as [[]|] eqn:Hhead; [|done].
  destruct (negb (Nat.eqb _ _)) eqn:Hplen in Hs; [done|].
  apply negb_false_iff, Nat.eqb_eq in Hplen.
  destruct (try_for (policy_mapping_step _ _ _ _ _) _ _ _) as [covp|] eqn:Hp; [|done].
  apply Ok_inj in Hs as <-. split; [|done].
  destruct (stream_revisions_attested m s revs) as (Hids & Hh & Hr); [done..|].
  apply policy_loop_attested in Hp as (ps & HF & Hin & Hnd & _ & _).
  constructor; [done..|intros r Hr'; by apply Hr|intros r Hr'; by apply Hr|].
  exists rm, ps. split_and!; [done..| |done]. apply cover_Permutation.
  - by apply (NoDup_fmap_1 p_policy_id).
  - intros p Hp. apply with_key_elem. split; [|by apply Hin].
    apply list_elem_of_lookup_1 in Hp as [k Hk].
    destruct (Forall2_lookup_r _ _ _ _ _ HF Hk) as (mp & _ & Hpa). apply Hpa.
  - by rewrite <-(Forall2_length _ _ _ HF).
Qed.

(** ** The whole manifest *)

Lemma streams_loop_attested m source revs pols l st :
  revision_log revs ->
  try_for (stream_mapping_step m source revs pols) 0 empty_target_scan l = Ok st ->
  Forall (stream_attested m source revs pols) l /\
  NoDup (l ≫= sp_legacy_revision_ids) /\ NoDup (sp_memory_id <$> l) /\
  legacy_revision_ids st = list_to_set (l ≫= sp_legacy_revision_ids) /\
  covered_revisions st = list_to_set (l ≫= fun s => r_revision_id <$> stream (sp_memory_id s) revs).
Proof.
  intros Hlog. revert l st. refine (try_for_inv _ (fun l st => _) _ _ _).
  - split_and!; try constructor.
  - intros pre t s t' (HF & Hnd & Hmem & Hleg & Hcov) Hs.
    apply stream_step_attested in Hs as (Ha & Hl & Hc); [|done].
    apply insert_all_fresh_iff in Hl as (Hnd1 & Hdj1 & ->), Hc as (_ & Hdj2 & ->).
    rewrite Hleg in *. rewrite Hcov in *. rewrite fmap_app, !bind_app, !list_to_set_app_L.
    simpl. rewrite !app_nil_r. split_and!; [| | |set_solver|set_solver].
    + apply Forall_app. by rewrite Forall_singleton.
    + apply NoDup_app. split_and!; [done| |done]. intros x Hx Hx'. apply (Hdj1 x); set_solver.
    + apply NoDup_app. split_and!; [done| |apply NoDup_singleton].
      intros x (s0 & -> & Hs0)%list_elem_of_fmap Hx. apply list_elem_of_singleton in Hx as Heq.
      pose proof (sa_head _ _ _ _ _ Ha) as Hhead. apply fmap_Some in Hhead as (h & Hh%last_Some_elem_of & _).
      apply (Hdj2 (r_revision_id h)); [by apply list_elem_of_fmap_2|].
      apply elem_of_list_to_set, list_elem_of_bind. exists s0. rewrite Heq.
      split; [by apply list_elem_of_fmap_2|done].
Qed.

(** C12: an accepted migration is a bijection with its manifest.  Every imported
    revision belongs to exactly one stream of the manifest; each stream is its
    legacy revisions in order, followed by its tombstone if it was deleted, all
    committed by the import; each of its policies is the one a mapping
    announces, with the audience computed from the source; and no legacy entry
    is dropped or imported twice. *)
Theorem migration_records_attested m source revs pols n :
  validate_migration_record_sets revs pols = Ok tt ->
  validate_target_records m source revs pols n = Ok tt ->
  Forall (stream_attested m source revs pols) (mm_stream_mappings m) /\
  NoDup (sp_memory_id <$> mm_stream_mappings m) /\
  (forall r, r ∈ revs -> r_memory_id r ∈ sp_memory_id <$> mm_stream_mappings m) /\
  NoDup (mm_stream_mappings m ≫= sp_legacy_revision_ids) /\
  sm_source_entry_count source = Z.of_nat (length (mm_stream_mappings m ≫= sp_legacy_revision_ids)) /\
  sm_source_stream_count source = Z.of_nat (length (mm_stream_mappings m)).
Proof.
  unfold validate_migration_record_sets, validate_target_records. intros Hv Ht.
  destruct (validate_revisions revs) as [[]|] eqn:Hr; [|done]. clear Hv.
  apply validate_revisions_iff in Hr.
  destruct (_ || _) eqn:Hcount in Ht; [done|].
  destruct (try_for _ _ _ _) as [st|] eqn:Hl; [|done].
  destruct (dispositions_bad _ _ _ _ _) eqn:Hd; [done|]. unfold dispositions_bad in Hd.
  apply streams_loop_attested in Hl as (HF & Hnd & Hmem & Hleg & _); [|done].
  breflect. split_and!; [done..| |done| |done].
  - intros r Hr'. apply (elem_of_list_to_set (C := gset string)).
    match goal with H : list_to_set _ = list_to_set _ |- _ => rewrite <-H end.
    by apply elem_of_list_to_set, list_elem_of_fmap_2.
  - match goal with H : Z.of_nat (size _) = _ |- _ => rewrite <-H end.
    by rewrite Hleg, size_list_to_set.
Qed.
End attest.

(** ** A concrete migration

    One legacy memory, shared with every role of the cutoff and then deleted. *)

Definition mig_revision (sequence : Z) (id : string) (parent : option string) (deleted : option Z)
    : CanonicalRevision := {|
  r_schema := REVISION_SCHEMA; r_sequence := sequence; r_memory_id := "m"; r_revision_id := id;
  r_parent_revision_id := parent; r_content := Text "one";
  r_content_hash := match canonical_content_hash (Text "one") with Ok h => h | Err e => e end;
  r_tags := []; r_memory_type := Type_Semantic; r_cognitive_tier := Tier_LongTerm;
  r_deleted_at := deleted; r_committed_at := 7; r_committed_by_role := PERSONAL_OWNER_ROLE_ID |}.

Definition mig_revisions : list CanonicalRevision :=
  [mig_revision 1 "m" None None; mig_revision 2 "t" (Some "m") (Some 7%Z)].

Definition mig_roles : list string := sorted_roles ["alice"; "bob"; PERSONAL_OWNER_ROLE_ID].

Definition mig_policies : list PolicyRecord := [{|
  p_schema := POLICY_SCHEMA; p_sequence := 1; p_policy_id := "p"; p_memory_id := "m";
  p_effective_from_revision_id := "m"; p_mode := Mode_ExplicitRoleSet;
  p_origin_role_id := "alice"; p_reader_roles := mig_roles;
  p_writer_roles := origin_roles_of "alice";
  p_committed_at := 7; p_committed_by_role := PERSONAL_OWNER_ROLE_ID |}].

Definition mig_source : SourceManifest := {|
  sm_schema := SOURCE_SCHEMA; sm_source_index_hash := ""; sm_credential_role_cutoff_hash := "";
  sm_lock_created := false; sm_legacy_namespace := None;
  sm_source_snapshots := [mkSourceSnapshot "alice" "long_term" "" "" 1];
  sm_source_entry_count := 1; sm_source_stream_count := 1; sm_source_ttl_field_count := 0;
  sm_source_embedded_vector_count := 0; sm_authorized_role_ids_at_cutoff := mig_roles;
  sm_role_mappings := [mkRoleMapping "alice" "alice"]; sm_group_mappings := [] |}.

Definition mig_manifest : MigrationManifest := {|
  mm_schema := TARGET_SCHEMA; mm_source_manifest_hash := "";
  mm_stream_mappings := [mkStreamMapping "alice" "m" ["m"] [mkLegacyCreatedAt "m" 3] "t" (Some "t")
    (Some 5%Z) [mkPolicyMapping "m" Source_Shared Target_ExplicitRoleSet mig_roles]];
  mm_dispositions := mkDispositions 1 2 0 0 0 1 1;
  mm_target_revision_count := 2; mm_target_policy_count := 1; mm_target_relation_count := 0;
  mm_imported_at := 7; mm_imported_by_role := PERSONAL_OWNER_ROLE_ID |}.

Lemma migration_records_attested_witness :
  Forall (stream_attested mig_manifest mig_source mig_revisions mig_policies)
    (mm_stream_mappings mig_manifest) /\
  sm_source_entry_count mig_source = 1%Z.
Proof.
  destruct (migration_records_attested mig_manifest mig_source mig_revisions mig_policies 0)
    as (Hs & _ & _ & _ & Hn & _); [vm_compute; reflexivity..|]. split; [exact Hs|reflexivity].
Defined.
