(* ===== verification/ProjectionView.v ===== *)
(** * The projection manifest ([src/src/memory/projection/validate.rs],
    [hash.rs], [current_view.rs])

    The manifest is a log of events; [rebuild_current_view] replays it through
    the projection state machine and rejects any log with an illegal step.  The
    replay is a [try_for] over the events, one definition per kind of event. *)

From stdpp Require Import base gmap strings list sorting.
From S2P Require Import Prelude Wire MemoryModel LedgerModel LedgerStorage ProjectionModel.

(** ** Identifiers and numbers *)

(** A graphic ASCII byte other than the two quotes and the backslash. *)
Definition safe_byte (n : N) : bool :=
  ((33 <=? n) && (n <=? 126) && negb (n =? 34) && negb (n =? 39) && negb (n =? 92))%N.

(** [value.contains(sub)] *)
Fixpoint str_contains (sub s : string) : bool :=
  String.prefix sub s ||
  match s with EmptyString => false | String _ s' => str_contains sub s' end.

Definition safe_identifier (value : string) : bool :=
  negb (str_eqb value "") && (Nat.leb (String.length value) 256)
  && negb (str_contains "://" value) && all_bytes safe_byte value.

Definition NAMESPACE_URL : N := 0x6ba7b8119dad11d180b400c04fd430c8.
Definition PROJECTION_WORKER_ROLE : string := "projection-worker".

#[export] Instance ProjectionKind_countable : Countable ProjectionKind.
Proof.
  refine (inj_countable' (fun _ => tt) (fun _ => MemoryEmbedding) _). by intros [].
Defined.

Definition pvalidate_hash (value : string) : result ProjectionError unit :=
  if Nat.eqb (String.length value) 64 && all_bytes lower_hex_byte value
  then Ok tt else Err (invalid "invalid_projection_hash").

Definition validate_watermark (value : CanonicalWatermark) : result ProjectionError unit :=
  pvalidate_hash (wm_root_hash value) ?>>
  reject existsb (fun number => (MAX_JCS_SAFE_INTEGER <? number)%Z)
           [wm_generation value; wm_revision_watermark value;
            wm_policy_watermark value; wm_relation_watermark value]
         || (wm_revision_watermark value =? 0)%Z
            && (negb (wm_policy_watermark value =? 0)%Z || negb (wm_relation_watermark value =? 0)%Z)
    with invalid "invalid_canonical_watermark";
  Ok tt.

Definition valid_transform (value : BuilderSpec) : bool :=
  match bs_normalization value with
  | ProviderNative =>
      (bs_raw_dimension value =? bs_dimension value)%Z
      && str_eqb (bs_transform_contract_id value) "provider-native-document-v1"
  | L2AfterMatryoshkaTruncationV1 =>
      (bs_dimension value <? bs_raw_dimension value)%Z
      && str_eqb (bs_transform_contract_id value) "plico-matryoshka-truncate-l2-v1"
  end.

Definition validate_builder_spec (value : BuilderSpec) : result ProjectionError unit :=
  reject negb (str_eqb (bs_schema value) BUILDER_SPEC_SCHEMA)
         || negb (bool_decide (bs_projection_kind value = MemoryEmbedding))
         || negb (safe_identifier (bs_builder_id value))
         || negb (safe_identifier (bs_builder_version value))
         || negb (safe_identifier (bs_provider_family value))
         || negb (safe_identifier (bs_provider_compatibility_id value))
         || negb (safe_identifier (bs_model_id value))
         || (bs_raw_dimension value =? 0)%Z
         || (MAX_EMBEDDING_DIMENSION <? bs_raw_dimension value)%Z
         || (bs_dimension value =? 0)%Z
         || (MAX_EMBEDDING_DIMENSION <? bs_dimension value)%Z
         || (bs_raw_dimension value <? bs_dimension value)%Z
         || negb (bool_decide (bs_input_contract value = MemoryTextUtf8V1))
         || negb (bool_decide (bs_operation_contract value = DocumentV1))
         || negb (valid_transform value)
         || negb (str_eqb (bs_artifact_schema value) EMBEDDING_ARTIFACT_SCHEMA)
    with invalid "invalid_builder_spec";
  Ok tt.

Section validate.
Context `{Platform} `{!Serde BuilderSpec}.

Definition BUILDER_SPEC_DOMAIN : string := "plico.projection.builder-spec.v1" +:+ nul.

Definition builder_spec_bytes_and_hash (value : BuilderSpec)
    : result ProjectionError (bytes * string) :=
  b <-? ok_or (to_vec value) (invalid "projection_jcs_canonicalization_failed");
  Ok (b, sha256_hex (BUILDER_SPEC_DOMAIN +:+ octets b)).

Definition validate_builder_hash (value : BuilderSpec) (expected : string)
    : result ProjectionError unit :=
  validate_builder_spec value ?>>
  pvalidate_hash expected ?>>
  (x <-? builder_spec_bytes_and_hash value;
   reject negb (str_eqb (snd x) expected) with invalid "builder_spec_hash_mismatch";
   Ok tt).

Definition projection_id (revision_id : MemoryRevisionId) : result ProjectionError N :=
  revision <-? ok_or (uuid_parse revision_id) (invalid "invalid_projection_revision_id");
  reject (revision =? 0)%N || negb (str_eqb (uuid_hyphenated revision) revision_id)
    with invalid "non_canonical_projection_revision_id";
  let namespace := uuid_new_v5 NAMESPACE_URL "https://plico.ai/schema/projection/v1" in
  Ok (uuid_new_v5 namespace ("memory_embedding" +:+ nul +:+ uuid_hyphenated revision)).

Definition canonical_uuid (value : string) : result ProjectionError N :=
  parsed <-? ok_or (uuid_parse value) (invalid "invalid_projection_uuid");
  reject negb (str_eqb (uuid_hyphenated parsed) value)
    with invalid "non_canonical_projection_uuid";
  Ok parsed.

Definition validate_source (value : CanonicalSourceIdentity) : result ProjectionError unit :=
  reject negb (str_eqb (src_canonical_kind value) "memory_revision")
         || str_eqb (src_memory_id value) ""
         || str_eqb (src_revision_id value) ""
         || (src_revision_sequence value =? 0)%Z
         || (MAX_JCS_SAFE_INTEGER <? src_revision_sequence value)%Z
    with invalid "invalid_projection_source";
  (memory_id <-? canonical_uuid (src_memory_id value);
   revision_id <-? canonical_uuid (src_revision_id value);
   reject (memory_id =? 0)%N || (revision_id =? 0)%N with invalid "invalid_projection_source";
   (id <-? projection_id (src_revision_id value);
    reject (id =? 0)%N with invalid "invalid_projection_source";
    pvalidate_hash (src_content_hash value))).

Definition validate_descriptor (value : ArtifactDescriptor) : result ProjectionError unit :=
  pvalidate_hash (ad_artifact_hash value) ?>>
  pvalidate_hash (ad_source_content_hash value) ?>>
  pvalidate_hash (ad_builder_spec_hash value) ?>>
  reject (ad_byte_length value =? 0)%Z
         || (MAX_EMBEDDING_ARTIFACT_BYTES <? ad_byte_length value)%Z
         || (MAX_JCS_SAFE_INTEGER <? ad_byte_length value)%Z
         || negb (str_eqb (ad_artifact_schema value) EMBEDDING_ARTIFACT_SCHEMA)
         || (ad_dimension value =? 0)%Z
         || (MAX_EMBEDDING_DIMENSION <? ad_dimension value)%Z
         || uuid_is_err (ad_source_revision_id value)
    with invalid "invalid_artifact_descriptor";
  Ok tt.

Definition validate_state_shape (state : ProjectionState) (committed_at : Z)
    : result ProjectionError unit :=
  match state with
  | Building attempt attempt_id lease_expires_at =>
      reject (attempt =? 0)%Z || (attempt_id =? 0)%N
             || (lease_expires_at <=? committed_at)%Z
             || (MAX_JCS_SAFE_INTEGER <? lease_expires_at)%Z
        with invalid "invalid_building_state";
      Ok tt
  | Ready attempt attempt_id artifact =>
      reject (attempt =? 0)%Z || (attempt_id =? 0)%N with invalid "invalid_ready_state";
      validate_descriptor artifact
  | Failed attempt attempt_id _ retryable retry_not_before =>
      reject (attempt =? 0)%Z || (attempt_id =? 0)%N
             || retryable && match retry_not_before with
                             | None => true
                             | Some retry_at => (retry_at <=? committed_at)%Z
                             end
             || match retry_not_before with
                | None => false
                | Some retry_at => (MAX_JCS_SAFE_INTEGER <? retry_at)%Z
                end
             || negb retryable && match retry_not_before with None => false | Some _ => true end
        with invalid "invalid_failed_state";
      Ok tt
  | Stale _ artifact => validate_descriptor artifact
  | AbsentByPolicy _ | Queued _ => Ok tt
  end.
End validate.

(** ** The state machine *)

Definition transition_allowed (previous : option ProjectionState) (next : ProjectionState) : bool :=
  match previous, next with
  | None, (AbsentByPolicy _ | Queued _) => true
  | Some (AbsentByPolicy _), Queued _ => true
  | Some (Queued _),
    (Queued (Queue_BuilderChanged | Queue_OwnerRebuild) | Building _ _ _ | AbsentByPolicy _) => true
  | Some (Building _ _ _), (Ready _ _ _ | Failed _ _ _ _ _ | Queued _ | AbsentByPolicy _) => true
  | Some (Ready _ _ _), (Stale _ _ | AbsentByPolicy _) => true
  | Some (Failed _ _ _ _ _), (Queued _ | AbsentByPolicy _) => true
  | Some (Stale _ _), (Queued _ | AbsentByPolicy _) => true
  | _, _ => false
  end.

Definition owner_action (next : ProjectionState) : bool :=
  match next with
  | Queued (Queue_OwnerRebuild | Queue_BuilderChanged) => true
  | Stale (Stale_OwnerRebuild | Stale_BuilderSpecChanged) _ => true
  | _ => false
  end.

(** The attempt a completion reports. *)
Definition completed_attempt (s : ProjectionState) : option (Z * N) :=
  match s with
  | Ready attempt attempt_id _ | Failed attempt attempt_id _ _ _ => Some (attempt, attempt_id)
  | _ => None
  end.

Definition validate_actor_and_transition (previous : option ProjectionEntry)
    (next : ProjectionState) (record : ManifestRecord) : result ProjectionError unit :=
  let expected_actor :=
    if owner_action next then PERSONAL_OWNER_ROLE_ID else PROJECTION_WORKER_ROLE in
  let previous_state := pe_state <$> previous in
  reject negb (str_eqb (mr_committed_by_role record) expected_actor)
         || negb (transition_allowed previous_state next)
    with invalid "illegal_projection_transition";
  match previous_state, completed_attempt next with
  | Some (Building expected_attempt expected_id _), Some (attempt, attempt_id) =>
      reject negb ((expected_attempt =? attempt)%Z && (expected_id =? attempt_id)%N)
        with invalid "projection_attempt_mismatch";
      Ok tt
  | Some _, Some _ => Err (invalid "projection_attempt_mismatch")
  | _, _ => Ok tt
  end ?>>
  match previous_state, next with
  | Some (AbsentByPolicy _), Queued Queue_OwnerRebuild =>
      Err (invalid "owner_rebuild_cannot_revive_absent_projection")
  | Some (Building _ _ _), Queued (Queue_BuilderChanged | Queue_OwnerRebuild) => Ok tt
  | Some (Building _ _ lease_expires_at), Queued reason =>
      reject negb (bool_decide (reason = Queue_LeaseExpired)
                   && (lease_expires_at <=? mr_committed_at record)%Z)
        with invalid "invalid_projection_retry_transition";
      Ok tt
  | Some (Failed _ _ _ _ _), Queued (Queue_BuilderChanged | Queue_OwnerRebuild) => Ok tt
  | Some (Failed _ _ _ retryable retry_not_before), Queued reason =>
      reject negb (bool_decide (reason = Queue_Retry) && retryable
                   && match retry_not_before with
                      | Some retry_at => (retry_at <=? mr_committed_at record)%Z
                      | None => false
                      end)
        with invalid "invalid_projection_retry_transition";
      Ok tt
  | _, _ => Ok tt
  end.

Definition validate_state_binding (previous : option ProjectionEntry) (next : ProjectionState)
    (source : CanonicalSourceIdentity) (desired_builder_spec_hash : string)
    (active_builder : ActiveBuilderSpec) : result ProjectionError unit :=
  match next with
  | Ready _ _ artifact =>
      reject negb (str_eqb (ad_source_revision_id artifact) (src_revision_id source))
             || negb (str_eqb (ad_source_content_hash artifact) (src_content_hash source))
             || negb (str_eqb (ad_builder_spec_hash artifact) desired_builder_spec_hash)
             || negb (ad_dimension artifact =? bs_dimension (ab_builder_spec active_builder))%Z
        with invalid "ready_artifact_binding_mismatch";
      Ok tt
  | Stale _ artifact =>
      match pe_state <$> previous with
      | Some (Ready _ _ previous_artifact) =>
          reject negb (bool_decide (artifact = previous_artifact))
                 || negb (str_eqb (ad_source_revision_id artifact) (src_revision_id source))
                 || negb (str_eqb (ad_source_content_hash artifact) (src_content_hash source))
            with invalid "stale_artifact_binding_mismatch";
          Ok tt
      | _ => Err (invalid "stale_artifact_has_no_ready_source")
      end
  | _ => Ok tt
  end.

Definition next_attempt_count (previous : option ProjectionEntry) (next : ProjectionState)
    : result ProjectionError Z :=
  let current := match previous with None => 0%Z | Some entry => pe_attempt_count entry end in
  match next with
  | Building attempt _ _ =>
      if bool_decide (u32_checked_add current 1 = Some attempt) then Ok attempt
      else Err (invalid "non_monotonic_projection_attempt")
  | Ready attempt _ _ | Failed attempt _ _ _ _ =>
      if (attempt =? current)%Z then Ok current else Err (invalid "projection_attempt_mismatch")
  | _ => Ok current
  end.

(** ** Replaying the manifest *)

(** The loop state of [rebuild_current_view]. *)
Record ManifestScan := mkManifestScan {
  active_builders : gmap ProjectionKind ActiveBuilderSpec;
  entries : gmap N ProjectionEntry;
  reconciled : CanonicalWatermark;
}.

Section replay.
Context `{Platform} `{!Serde BuilderSpec}.

Definition builder_activated (st : ManifestScan) (record : ManifestRecord)
    (kind : ProjectionKind) (spec : BuilderSpec) (hash : string) (previous : option string)
    : result ProjectionError ManifestScan :=
  reject negb (bool_decide (kind = MemoryEmbedding))
         || negb (bool_decide (bs_projection_kind spec = kind))
         || negb (str_eqb (mr_committed_by_role record) PERSONAL_OWNER_ROLE_ID)
         || bool_decide (previous = Some hash)
         || negb (bool_decide (ab_builder_spec_hash <$> active_builders st !! kind = previous))
    with invalid "invalid_builder_activation";
  validate_builder_hash spec hash ?>>
  Ok {| active_builders := <[kind := {| ab_projection_kind := kind;
                                        ab_builder_spec_hash := hash;
                                        ab_builder_spec := spec |}]> (active_builders st);
        entries := entries st;
        reconciled := reconciled st |}.

(** [projection_id(&source.revision_id)? != *event_projection_id || ..] *)
Definition transition_header_bad (st : ManifestScan) (id : N) (kind : ProjectionKind)
    (version : Z) (source : CanonicalSourceIdentity) (desired : string)
    : result ProjectionError bool :=
  if negb (bool_decide (kind = MemoryEmbedding)) || (MAX_JCS_SAFE_INTEGER <? version)%Z
  then Ok true else
  (pid <-? projection_id (src_revision_id source);
   Ok (negb (pid =? id)%N
       || negb (bool_decide (ab_builder_spec_hash <$> active_builders st !! kind = Some desired)))).

Definition chain_broken (previous : option ProjectionEntry) (kind : ProjectionKind) (version : Z)
    (previous_sequence : option Z) (source : CanonicalSourceIdentity) : bool :=
  negb (bool_decide (pe_last_transition_sequence <$> previous = previous_sequence))
  || match previous with
     | None => negb (version =? 1)%Z
     | Some entry =>
         negb (bool_decide (u64_checked_add (pe_projection_version entry) 1 = Some version))
         || negb (bool_decide (pe_projection_kind entry = kind))
         || negb (bool_decide (pe_source entry = source))
     end.

Definition projection_transition (st : ManifestScan) (record : ManifestRecord) (id : N)
    (kind : ProjectionKind) (version : Z) (previous_sequence : option Z)
    (source : CanonicalSourceIdentity) (desired : string) (state : ProjectionState)
    : result ProjectionError ManifestScan :=
  validate_source source ?>>
  validate_state_shape state (mr_committed_at record) ?>>
  (bad <-? transition_header_bad st id kind version source desired;
   reject bad with invalid "invalid_projection_transition";
   let previous := entries st !! id in
   reject chain_broken previous kind version previous_sequence source
     with invalid "broken_projection_transition_chain";
   (active_builder <-? ok_or (active_builders st !! kind) (invalid "missing_active_builder");
    validate_state_binding previous state source desired active_builder ?>>
    validate_actor_and_transition previous state record ?>>
    (attempt_count <-? next_attempt_count previous state;
     Ok {| active_builders := active_builders st;
           entries := <[id := {| pe_projection_id := id;
                                 pe_projection_kind := kind;
                                 pe_projection_version := version;
                                 pe_last_transition_sequence := mr_sequence record;
                                 pe_attempt_count := attempt_count;
                                 pe_source := source;
                                 pe_desired_builder_spec_hash := desired;
                                 pe_state := state |}]> (entries st);
           reconciled := reconciled st |}))).

Definition reconciliation_advanced (st : ManifestScan) (record : ManifestRecord)
    (previous_source next_source : CanonicalWatermark) (classified : Z)
    : result ProjectionError ManifestScan :=
  reject negb (str_eqb (mr_committed_by_role record) PROJECTION_WORKER_ROLE)
         || negb (bool_decide (previous_source = reconciled st))
         || bool_decide (next_source = previous_source)
         || negb (classified =? wm_revision_watermark next_source)%Z
         || (wm_generation next_source <? wm_generation previous_source)%Z
         || (wm_revision_watermark next_source <? wm_revision_watermark previous_source)%Z
         || (wm_policy_watermark next_source <? wm_policy_watermark previous_source)%Z
         || (wm_relation_watermark next_source <? wm_relation_watermark previous_source)%Z
    with invalid "invalid_reconciliation_advance";
  validate_watermark next_source ?>>
  Ok {| active_builders := active_builders st; entries := entries st; reconciled := next_source |}.

Definition manifest_step (offset : nat) (st : ManifestScan) (record : ManifestRecord)
    : result ProjectionError ManifestScan :=
  reject negb (str_eqb (mr_schema record) MANIFEST_RECORD_SCHEMA)
         || negb (mr_sequence record =? Z.of_nat offset + 1)%Z
         || (mr_committed_at record =? 0)%Z
         || (MAX_JCS_SAFE_INTEGER <? mr_committed_at record)%Z
         || blank (mr_committed_by_role record)
    with invalid "invalid_manifest_record";
  match mr_event record with
  | BuilderActivated kind spec hash previous => builder_activated st record kind spec hash previous
  | ProjectionTransition id kind version previous_sequence source desired state =>
      projection_transition st record id kind version previous_sequence source desired state
  | ReconciliationAdvanced previous_source next_source classified =>
      reconciliation_advanced st record previous_source next_source classified
  end.

Definition genesis_scan (genesis_source : CanonicalWatermark) : ManifestScan :=
  {| active_builders := ∅; entries := ∅; reconciled := genesis_source |}.

(** The order of the entries: there is one projection kind, and distinct
    entries have distinct revisions. *)
Definition entry_le (a b : ProjectionEntry) : Prop :=
  String.le (src_revision_id (pe_source a)) (src_revision_id (pe_source b)).

#[export] Instance entry_le_dec : RelDecision entry_le.
Proof. intros a b. unfold entry_le. apply _. Defined.

Definition is_absent (s : ProjectionState) : bool :=
  match s with AbsentByPolicy _ => true | _ => false end.

Definition entry_inactive (builders : gmap ProjectionKind ActiveBuilderSpec)
    (e : ProjectionEntry) : bool :=
  negb (is_absent (pe_state e))
  && match builders !! pe_projection_kind e with
     | None => true
     | Some b => negb (str_eqb (ab_builder_spec_hash b) (pe_desired_builder_spec_hash e))
     end.

Definition rebuild_projection_view (generation : Z) (genesis_source : CanonicalWatermark)
    (records : list ManifestRecord) : result ProjectionError ProjectionCurrentView :=
  validate_watermark genesis_source ?>>
  (st <-? try_for manifest_step 0 (genesis_scan genesis_source) records;
   let builders := (map_to_list (active_builders st)).*2 in
   reject (0 <? generation)%Z
          && negb (Nat.eqb (length builders) 1
                   && forallb (fun b => bool_decide (ab_projection_kind b = MemoryEmbedding)) builders)
     with invalid "missing_active_memory_embedding_builder";
   let sorted := merge_sort entry_le (map_to_list (entries st)).*2 in
   reject existsb (entry_inactive (active_builders st)) sorted
     with invalid "projection_entry_uses_inactive_builder";
   Ok {| pv_schema := PROJECTION_VIEW_SCHEMA;
         pv_generation := generation;
         pv_event_watermark := Z.of_nat (length records);
         pv_reconciled_source := reconciled st;
         pv_active_builder_specs := builders;
         pv_entries := sorted |}).
End replay.
