(* ===== verification/ProjectionLifecycle.v ===== *)
(** * The life of a projection

    The projection state machine as a relation, the checks of the code proved
    equal to it, and what an accepted manifest guarantees of every projection:
    its transitions form a path of the machine, its attempts are numbered by the
    claims made, each attempt completes at most once, and a ready artifact is
    bound to its source and builder. *)

From stdpp Require Import base gmap strings list sorting.
From S2P Require Import Prelude Wire MemoryModel LedgerModel LedgerStorage.
From S2P Require Import ProjectionModel ProjectionView.

(** The only actor of a queueing or staleness reason. *)
Definition queue_actor (q : QueueReason) : string :=
  match q with
  | Queue_OwnerRebuild | Queue_BuilderChanged => PERSONAL_OWNER_ROLE_ID
  | _ => PROJECTION_WORKER_ROLE
  end.

Definition stale_actor (r : StaleReason) : string :=
  match r with
  | Stale_OwnerRebuild | Stale_BuilderSpecChanged => PERSONAL_OWNER_ROLE_ID
  | _ => PROJECTION_WORKER_ROLE
  end.

(** The reasons with which the owner may preempt a projection. *)
Definition preempting (q : QueueReason) : Prop :=
  q = Queue_BuilderChanged \/ q = Queue_OwnerRebuild.

(** One legal step, made by [role] at time [now]. *)
Inductive lifecycle (role : string) (now : Z)
    : option ProjectionState -> ProjectionState -> Prop :=
  | lc_first_absent r :
      role = PROJECTION_WORKER_ROLE -> lifecycle role now None (AbsentByPolicy r)
  | lc_first_queued q : role = queue_actor q -> lifecycle role now None (Queued q)
  | lc_revive r q :
      q <> Queue_OwnerRebuild -> role = queue_actor q ->
      lifecycle role now (Some (AbsentByPolicy r)) (Queued q)
  | lc_requeue q q' :
      preempting q' -> role = PERSONAL_OWNER_ROLE_ID ->
      lifecycle role now (Some (Queued q)) (Queued q')
  | lc_claim q a id lease :
      role = PROJECTION_WORKER_ROLE -> lifecycle role now (Some (Queued q)) (Building a id lease)
  | lc_ready a id lease artifact :
      role = PROJECTION_WORKER_ROLE ->
      lifecycle role now (Some (Building a id lease)) (Ready a id artifact)
  | lc_failed a id lease cat retryable at_ :
      role = PROJECTION_WORKER_ROLE ->
      lifecycle role now (Some (Building a id lease)) (Failed a id cat retryable at_)
  | lc_lease_expired a id lease :
      role = PROJECTION_WORKER_ROLE -> (lease <= now)%Z ->
      lifecycle role now (Some (Building a id lease)) (Queued Queue_LeaseExpired)
  | lc_preempt a id lease q :
      preempting q -> role = PERSONAL_OWNER_ROLE_ID ->
      lifecycle role now (Some (Building a id lease)) (Queued q)
  | lc_stale a id artifact r artifact' :
      role = stale_actor r ->
      lifecycle role now (Some (Ready a id artifact)) (Stale r artifact')
  | lc_retry a id cat retry_at :
      role = PROJECTION_WORKER_ROLE -> (retry_at <= now)%Z ->
      lifecycle role now (Some (Failed a id cat true (Some retry_at))) (Queued Queue_Retry)
  | lc_reset a id cat retryable at_ q :
      preempting q -> role = PERSONAL_OWNER_ROLE_ID ->
      lifecycle role now (Some (Failed a id cat retryable at_)) (Queued q)
  | lc_rebuild r artifact q :
      role = queue_actor q -> lifecycle role now (Some (Stale r artifact)) (Queued q)
  | lc_withdraw s r :
      is_absent s = false -> role = PROJECTION_WORKER_ROLE ->
      lifecycle role now (Some s) (AbsentByPolicy r).

#[export] Hint Constructors lifecycle : lifecycle.

Lemma owner_ne_worker : PERSONAL_OWNER_ROLE_ID <> PROJECTION_WORKER_ROLE.
Proof. done. Qed.

Lemma transition_sound prev next record :
  validate_actor_and_transition prev next record = Ok tt ->
  lifecycle (mr_committed_by_role record) (mr_committed_at record) (pe_state <$> prev) next.
Proof.
  unfold validate_actor_and_transition. intros Hv.
  destruct (negb _ || _) eqn:Hc; [done|]. breflect.
  destruct (pe_state <$> prev) as [[| | | | |]|], next as [|[]| | | |[]]; cbn in *; try discriminate;
    ok_inv Hv; breflect; subst; try discriminate;
    repeat match goal with H : (_ =? _)%N = true |- _ => apply N.eqb_eq in H; subst end;
    constructor; try unfold preempting; cbn; auto; discriminate.
Qed.

Lemma transition_complete prev next record :
  lifecycle (mr_committed_by_role record) (mr_committed_at record) (pe_state <$> prev) next ->
  validate_actor_and_transition prev next record = Ok tt.
Proof.
  unfold validate_actor_and_transition. remember (pe_state <$> prev) as s eqn:Hs. clear Hs.
  intros Hl. unfold str_eqb.
  inversion Hl; subst; try (destruct H as [-> | ->]); cbn;
    repeat match goal with
    | H : mr_committed_by_role record = _ |- _ => rewrite H; clear H
    end; rewrite ?Z.eqb_refl, ?N.eqb_refl; cbn; try done.
  all: try by destruct q.
  all: try by destruct r.
  all: try by rewrite (proj2 (Z.leb_le _ _)).
  by destruct s0.
Qed.

(** ** The transitions of one projection *)

Definition transition_of (id : N) (record : ManifestRecord) : option ProjectionState :=
  match mr_event record with
  | ProjectionTransition id' _ _ _ _ _ state => if decide (id' = id) then Some state else None
  | _ => None
  end.

Definition transitions_of (id : N) (records : list ManifestRecord) : list ProjectionState :=
  omap (transition_of id) records.

Definition is_building (s : ProjectionState) : bool :=
  match s with Building _ _ _ => true | _ => false end.

(** The number of claims. *)
Definition claims (ts : list ProjectionState) : nat := length (List.filter is_building ts).

Lemma claims_snoc ts s : claims (ts ++ [s]) = claims ts + (if is_building s then 1 else 0).
Proof. unfold claims. rewrite List.filter_app, length_app. simpl. by destruct (is_building s). Qed.

Lemma claims_mono ts ts' : claims ts <= claims (ts ++ ts').
Proof. unfold claims. rewrite List.filter_app, length_app. lia. Qed.

(** A state may follow the transitions [pre]. *)
Record transition_ok (pre : list ProjectionState) (s : ProjectionState) : Prop := {
  tok_step : exists role now, lifecycle role now (last pre) s;
  tok_claim : forall a id lease, s = Building a id lease -> a = Z.of_nat (claims pre + 1);
  tok_completion : forall a id, completed_attempt s = Some (a, id) ->
    a = Z.of_nat (claims pre) /\ exists lease, last pre = Some (Building a id lease);
}.

(** The artifact is bound to the entry's source. *)
Definition bound_artifact (e : ProjectionEntry) (d : ArtifactDescriptor) : Prop :=
  ad_source_revision_id d = src_revision_id (pe_source e) /\
  ad_source_content_hash d = src_content_hash (pe_source e).

Section manifest.
Context `{Platform} `{!Serde BuilderSpec}.

(** What the replay knows of an entry after the records [pre]. *)
Record entry_ok (pre : list ManifestRecord) (id : N) (e : ProjectionEntry) : Prop := {
  eok_id : pe_projection_id e = id;
  eok_source : projection_id (src_revision_id (pe_source e)) = Ok id;
  eok_state : last (transitions_of id pre) = Some (pe_state e);
  eok_version : pe_projection_version e = Z.of_nat (length (transitions_of id pre));
  eok_attempts : pe_attempt_count e = Z.of_nat (claims (transitions_of id pre));
  eok_path : prefix_ok transition_ok (transitions_of id pre);
  eok_sequence : (0 < pe_last_transition_sequence e <= Z.of_nat (length pre))%Z;
  eok_ready : forall a aid d, pe_state e = Ready a aid d ->
    bound_artifact e d /\ ad_builder_spec_hash d = pe_desired_builder_spec_hash e;
  eok_stale : forall r d, pe_state e = Stale r d -> bound_artifact e d;
}.

Record scan_ok (genesis : CanonicalWatermark) (pre : list ManifestRecord) (st : ManifestScan)
    : Prop := {
  sok_some : forall id e, entries st !! id = Some e -> entry_ok pre id e;
  sok_none : forall id, entries st !! id = None -> transitions_of id pre = [];
  sok_reconciled :
    (wm_generation genesis <= wm_generation (reconciled st))%Z /\
    (wm_revision_watermark genesis <= wm_revision_watermark (reconciled st))%Z /\
    (wm_policy_watermark genesis <= wm_policy_watermark (reconciled st))%Z /\
    (wm_relation_watermark genesis <= wm_relation_watermark (reconciled st))%Z;
}.

Lemma transitions_of_snoc id pre r :
  transitions_of id (pre ++ [r]) =
  transitions_of id pre ++ match transition_of id r with Some s => [s] | None => [] end.
Proof. unfold transitions_of. rewrite omap_app. simpl. by destruct (transition_of id r). Qed.

Lemma entry_ok_other pre id e r :
  transition_of id r = None -> entry_ok pre id e -> entry_ok (pre ++ [r]) id e.
Proof.
  intros Hr []. assert (transitions_of id (pre ++ [r]) = transitions_of id pre) as Heq
    by (rewrite transitions_of_snoc, Hr; apply app_nil_r).
  constructor; rewrite ?Heq; try done. rewrite length_app. simpl. lia.
Qed.

Lemma scan_ok_other genesis pre st st' r :
  (forall id, transition_of id r = None) -> entries st' = entries st ->
  (wm_generation (reconciled st) <= wm_generation (reconciled st'))%Z ->
  (wm_revision_watermark (reconciled st) <= wm_revision_watermark (reconciled st'))%Z ->
  (wm_policy_watermark (reconciled st) <= wm_policy_watermark (reconciled st'))%Z ->
  (wm_relation_watermark (reconciled st) <= wm_relation_watermark (reconciled st'))%Z ->
  scan_ok genesis pre st -> scan_ok genesis (pre ++ [r]) st'.
Proof.
  intros Hr He H1 H2 H3 H4 [Hs Hn (?&?&?&?)]. constructor.
  - intros id e Hid. rewrite He in Hid. by apply entry_ok_other, Hs.
  - intros id Hid. rewrite He in Hid. rewrite transitions_of_snoc, Hr, app_nil_r. by apply Hn.
  - split_and!; lia.
Qed.

(** The previous entry and its transitions. *)
Lemma scan_ok_previous genesis pre st id :
  scan_ok genesis pre st ->
  (pe_state <$> entries st !! id) = last (transitions_of id pre) /\
  match entries st !! id with
  | Some e => pe_attempt_count e
  | None => 0%Z
  end = Z.of_nat (claims (transitions_of id pre)) /\
  prefix_ok transition_ok (transitions_of id pre).
Proof.
  intros [Hs Hn _]. destruct (entries st !! id) as [e|] eqn:He.
  - destruct (Hs _ _ He). by rewrite eok_state0.
  - rewrite (Hn _ He). split_and!; [done..|apply prefix_ok_nil].
Qed.

Lemma u32_checked_succ a b : u32_checked_add a 1 = Some b -> b = (a + 1)%Z.
Proof. unfold u32_checked_add. case_match; congruence. Qed.

Lemma u64_checked_succ a b : u64_checked_add a 1 = Some b -> b = (a + 1)%Z.
Proof. unfold u64_checked_add. case_match; congruence. Qed.

Lemma next_attempt_spec previous next n :
  next_attempt_count previous next = Ok n ->
  let current := match previous with None => 0%Z | Some e => pe_attempt_count e end in
  n = (current + if is_building next then 1 else 0)%Z /\
  (forall a id lease, next = Building a id lease -> a = (current + 1)%Z) /\
  (forall a id, completed_attempt next = Some (a, id) -> a = current).
Proof.
  unfold next_attempt_count. intros Hn. cbn.
  destruct next; cbn in *; ok_inv Hn; breflect; subst; split_and!; try done; try lia;
    intros; simplify_eq; try done;
    match goal with H : u32_checked_add _ _ = _ |- _ => apply u32_checked_succ in H; lia end.
Qed.

Lemma completion_from_building role now previous next a id :
  lifecycle role now previous next -> completed_attempt next = Some (a, id) ->
  exists lease, previous = Some (Building a id lease).
Proof. intros []; cbn; intros; simplify_eq; eauto. Qed.

Lemma binding_spec previous next source desired active :
  validate_state_binding previous next source desired active = Ok tt ->
  (forall a aid d, next = Ready a aid d ->
     ad_source_revision_id d = src_revision_id source /\
     ad_source_content_hash d = src_content_hash source /\ ad_builder_spec_hash d = desired) /\
  (forall r d, next = Stale r d ->
     ad_source_revision_id d = src_revision_id source /\
     ad_source_content_hash d = src_content_hash source).
Proof.
  unfold validate_state_binding. intros Hb.
  split; intros; subst next; ok_inv Hb; by breflect.
Qed.

Lemma transition_step_ok genesis pre st r id kind version pseq source desired state st' :
  mr_event r = ProjectionTransition id kind version pseq source desired state ->
  mr_sequence r = (Z.of_nat (length pre) + 1)%Z ->
  scan_ok genesis pre st ->
  projection_transition st r id kind version pseq source desired state = Ok st' ->
  scan_ok genesis (pre ++ [r]) st'.
Proof.
  intros Hev Hseq Hok Ht. unfold projection_transition in Ht.
  destruct (validate_source source) as [[]|]; [|done].
  destruct (validate_state_shape _ _) as [[]|]; [|done].
  destruct (transition_header_bad _ _ _ _ _ _) as [[]|] eqn:Hh; [done| |done].
  destruct (chain_broken _ _ _ _ _) eqn:Hc; [done|].
  destruct (ok_or (active_builders st !! kind) _) as [ab|]; [|done].
  destruct (validate_state_binding _ _ _ _ _) as [[]|] eqn:Hb; [|done].
  destruct (validate_actor_and_transition _ _ _) as [[]|] eqn:Hv; [|done].
  destruct (next_attempt_count _ _) as [n|] eqn:Hn; [|done]. apply Ok_inj in Ht as <-.
  assert (projection_id (src_revision_id source) = Ok id) as Hpid.
  { unfold transition_header_bad in Hh. destruct (_ || _); [done|].
    destruct (projection_id _) as [pid|]; [|done]. apply Ok_inj in Hh. breflect.
    match goal with H : (_ =? _)%N = true |- _ => apply N.eqb_eq in H; by subst end. }
  apply transition_sound in Hv. apply next_attempt_spec in Hn as (Hn & Hclaim & Hcomp).
  apply binding_spec in Hb as [Hready Hstale].
  destruct (scan_ok_previous _ _ _ id Hok) as (Hlast & Hcur & Hpath). rewrite Hcur in Hn, Hclaim, Hcomp.
  assert (transition_of id r = Some state) as Htr
    by (unfold transition_of; rewrite Hev; by rewrite decide_True).
  assert (transitions_of id (pre ++ [r]) = transitions_of id pre ++ [state]) as Hts
    by (by rewrite transitions_of_snoc, Htr).
  destruct Hok as [Hs Hnone Hrec]. constructor; [| |done].
  - intros id' e He. cbn in He. destruct (decide (id' = id)) as [->|Hne].
    + rewrite lookup_insert_eq in He. injection He as <-.
      assert (version = Z.of_nat (length (transitions_of id pre ++ [state]))) as Hver.
      { unfold chain_broken in Hc. rewrite length_app. simpl.
        destruct (entries st !! id) as [e|] eqn:He; breflect.
        - apply u64_checked_succ in H1. rewrite (eok_version _ _ _ (Hs _ _ He)) in H1. lia.
        - rewrite (Hnone _ He). simpl. lia. }
      constructor; cbn; rewrite ?Hts; try done.
      * by rewrite last_snoc.
      * rewrite claims_snoc, Hn. destruct (is_building state); lia.
      * apply prefix_ok_snoc. split; [done|]. constructor.
        -- rewrite <-Hlast. eauto.
        -- intros a aid lease ->. rewrite (Hclaim _ _ _ eq_refl). lia.
        -- intros a aid Ha. split; [by eapply Hcomp|]. rewrite <-Hlast.
           by eapply completion_from_building.
      * rewrite length_app. simpl. lia.
      * intros a aid d ->. destruct (Hready _ _ _ eq_refl) as (? & ? & ?). by repeat split.
    + rewrite lookup_insert_ne in He by done. apply entry_ok_other; [|by apply Hs].
      unfold transition_of. rewrite Hev. by rewrite decide_False.
  - intros id' He. cbn in He. destruct (decide (id' = id)) as [->|Hne];
      [by rewrite lookup_insert_eq in He|]. rewrite lookup_insert_ne in He by done.
    rewrite transitions_of_snoc. unfold transition_of. rewrite Hev, decide_False by done.
    rewrite app_nil_r. by apply Hnone.
Qed.

Lemma manifest_step_ok genesis pre st r st' :
  scan_ok genesis pre st -> manifest_step (length pre) st r = Ok st' ->
  scan_ok genesis (pre ++ [r]) st'.
Proof.
  unfold manifest_step. intros Hok Hm.
  destruct (negb _ || _ || _ || _ || _) eqn:Hhead; [done|]. breflect.
  destruct (mr_event r) eqn:Hev.
  - unfold builder_activated in Hm. ok_inv Hm. subst st'.
    apply (scan_ok_other genesis pre st); cbn; [|done|lia..|done].
    intros id. unfold transition_of. by rewrite Hev.
  - by eapply transition_step_ok.
  - unfold reconciliation_advanced in Hm. ok_inv Hm. breflect. subst.
    apply (scan_ok_other genesis pre st); cbn; [|done|lia..|done].
    intros id. unfold transition_of. by rewrite Hev.
Qed.

Lemma replay_ok genesis records st :
  try_for manifest_step 0 (genesis_scan genesis) records = Ok st -> scan_ok genesis records st.
Proof.
  apply (try_for_inv _ (scan_ok genesis)).
  - constructor; cbn; [|done|lia]. intros id e He. by rewrite lookup_empty in He.
  - intros pre t r t' Hok Hs. by eapply manifest_step_ok.
Qed.

Lemma view_scan g genesis records v :
  rebuild_projection_view g genesis records = Ok v ->
  exists st, try_for manifest_step 0 (genesis_scan genesis) records = Ok st /\
    reconciled st = pv_reconciled_source v /\
    (forall e, e ∈ pv_entries v <-> exists id, entries st !! id = Some e) /\
    forall e, e ∈ pv_entries v -> entry_inactive (active_builders st) e = false.
Proof.
  unfold rebuild_projection_view. intros Hv. destruct (validate_watermark genesis); [|done].
  destruct (try_for _ _ _ _) as [st|] eqn:Hst; [|done]. exists st.
  destruct (_ && _) in Hv; [done|]. destruct (existsb _ _) eqn:Hex; [done|].
  apply Ok_inj in Hv as <-. cbn.
  assert (forall e, e ∈ merge_sort entry_le (map_to_list (entries st)).*2 <->
            exists id, entries st !! id = Some e) as Hel.
  { intros e. rewrite merge_sort_Permutation, list_elem_of_fmap. split.
    - intros ([id e'] & -> & Hin). exists id. by apply elem_of_map_to_list.
    - intros [id Hid]. exists (id, e). split; [done|]. by apply elem_of_map_to_list. }
  split_and!; [done..|]. intros e He. destruct (entry_inactive _ e) eqn:Hi; [|done].
  rewrite <-Hex. symmetry. apply existsb_exists. exists e. by rewrite <-list_elem_of_In.
Qed.

(** Completions of one projection report increasing attempts. *)
Lemma completions_increase ts i j s1 s2 a1 a2 id1 id2 :
  prefix_ok transition_ok ts -> i < j ->
  ts !! i = Some s1 -> completed_attempt s1 = Some (a1, id1) ->
  ts !! j = Some s2 -> completed_attempt s2 = Some (a2, id2) -> (a1 < a2)%Z.
Proof.
  intros Hok Hij Hi Hc1 Hj Hc2.
  pose proof (take_drop_middle ts i s1 Hi) as E1. pose proof (take_drop_middle ts j s2 Hj) as E2.
  destruct (tok_completion _ _ (Hok _ _ _ (eq_sym E1)) _ _ Hc1) as [-> _].
  destruct (tok_completion _ _ (Hok _ _ _ (eq_sym E2)) _ _ Hc2) as [Ha2 [lease Hl]].
  assert (i < length ts /\ j < length ts) as [? ?] by (split; by eapply lookup_lt_Some).
  assert (ts !! (j - 1) = Some (Building a2 id2 lease)) as Hb.
  { rewrite last_lookup, length_take, lookup_take_lt in Hl by lia.
    by replace (pred (j `min` length ts)) with (j - 1) in Hl by lia. }
  assert (i < j - 1) as Hlt.
  { destruct (decide (i = j - 1)) as [->|]; [|lia]. rewrite Hi in Hb. by simplify_eq. }
  assert (take j ts = take i ts ++ drop i (take j ts)) as Hsplit.
  { rewrite <-(take_drop i (take j ts)) at 1. by rewrite take_take, Nat.min_l by lia. }
  assert (0 < claims (drop i (take j ts))) as Hpos.
  { unfold claims. destruct (List.filter is_building (drop i (take j ts))) eqn:Hf; [|simpl; lia].
    assert (Building a2 id2 lease ∈ drop i (take j ts)) as Hin.
    { apply (list_elem_of_lookup_2 _ (j - 1 - i)). rewrite lookup_drop, lookup_take_lt by lia.
      by replace (i + (j - 1 - i)) with (j - 1) by lia. }
    apply list_elem_of_In in Hin. assert (In (Building a2 id2 lease) []) as Hn
      by (rewrite <-Hf; by apply filter_In). done. }
  rewrite Ha2. unfold claims in *. rewrite Hsplit, List.filter_app, length_app. lia.
Qed.

(** The checks the replay makes on the actor and the step of a transition
    accept exactly the steps of the projection state machine. *)
Lemma lifecycle_exact prev next record :
  validate_actor_and_transition prev next record = Ok tt <->
  lifecycle (mr_committed_by_role record) (mr_committed_at record) (pe_state <$> prev) next.
Proof. split; [apply transition_sound|apply transition_complete]. Qed.

(** C10: in an accepted manifest the transitions of every projection form a
    path of the state machine, ending in the state the view shows, counted by
    its version; its attempt counter is the number of claims. *)
Theorem projection_paths g genesis records v e :
  rebuild_projection_view g genesis records = Ok v -> e ∈ pv_entries v ->
  let ts := transitions_of (pe_projection_id e) records in
  prefix_ok transition_ok ts /\ last ts = Some (pe_state e) /\
  pe_projection_version e = Z.of_nat (length ts) /\
  pe_attempt_count e = Z.of_nat (claims ts) /\
  (0 < pe_last_transition_sequence e <= pv_event_watermark v)%Z.
Proof.
  intros Hv He. assert (pv_event_watermark v = Z.of_nat (length records)) as Hw.
  { unfold rebuild_projection_view in Hv. ok_inv Hv. by subst v. }
  apply view_scan in Hv as (st & Hst & _ & Hel & _). apply Hel in He as [id Hid].
  pose proof (sok_some _ _ _ (replay_ok _ _ _ Hst) _ _ Hid)
    as [Heid _ Hlast Hver Hatt Hpath Hseq _ _].
  cbn. rewrite Heid, Hw. split_and!; try done; lia.
Qed.

(** Every attempt completes at most once: two completions of one
    projection in an accepted manifest, ready or failed, report increasing
    attempt numbers, and each one directly follows the claim of its attempt. *)
Lemma attempts_complete_once g genesis records v e i j s1 s2 a1 a2 id1 id2 :
  rebuild_projection_view g genesis records = Ok v -> e ∈ pv_entries v ->
  let ts := transitions_of (pe_projection_id e) records in
  ts !! i = Some s1 -> completed_attempt s1 = Some (a1, id1) ->
  ts !! j = Some s2 -> completed_attempt s2 = Some (a2, id2) -> i < j ->
  (a1 < a2)%Z /\ exists lease, ts !! (j - 1) = Some (Building a2 id2 lease).
Proof.
  intros Hv He ts Hi Hc1 Hj Hc2 Hij.
  apply view_scan in Hv as (st & Hst & _ & Hel & _). apply Hel in He as [id Hid].
  pose proof (sok_some _ _ _ (replay_ok _ _ _ Hst) _ _ Hid) as [Heid ? ? ? ? Hpath ? ? ?].
  subst ts. rewrite Heid in *. split; [by eapply completions_increase|].
  pose proof (take_drop_middle _ j s2 Hj) as E2.
  destruct (tok_completion _ _ (Hpath _ _ _ (eq_sym E2)) _ _ Hc2) as [_ [lease Hl]].
  assert (j < length (transitions_of id records)) by (by eapply lookup_lt_Some). exists lease.
  rewrite last_lookup, length_take, lookup_take_lt in Hl by lia.
  by replace (pred (j `min` length (transitions_of id records))) with (j - 1) in Hl by lia.
Qed.

(** An entry the view shows as ready carries an artifact of exactly its
    source revision and content, made by the builder specification that is
    active; a stale one still carries an artifact of its source; every entry
    is filed under the identifier derived from its revision. *)
Lemma ready_artifacts_bound g genesis records v e :
  rebuild_projection_view g genesis records = Ok v -> e ∈ pv_entries v ->
  projection_id (src_revision_id (pe_source e)) = Ok (pe_projection_id e) /\
  (forall a aid d, pe_state e = Ready a aid d ->
     bound_artifact e d /\
     exists b, b ∈ pv_active_builder_specs v /\ ad_builder_spec_hash d = ab_builder_spec_hash b) /\
  (forall r d, pe_state e = Stale r d -> bound_artifact e d).
Proof.
  intros Hv He. pose proof Hv as Hview. apply view_scan in Hv as (st & Hst & _ & Hel & Hact).
  pose proof (Hact _ He) as Hactive. apply Hel in He as [id Hid].
  pose proof (sok_some _ _ _ (replay_ok _ _ _ Hst) _ _ Hid) as [Heid Hpid ? ? ? ? ? Hr Hs].
  split_and!; [by rewrite Heid| |done]. intros a aid d Hd.
  destruct (Hr _ _ _ Hd) as [Hbound Hb]. split; [done|].
  unfold entry_inactive in Hactive. rewrite Hd in Hactive. cbn in Hactive.
  destruct (active_builders st !! pe_projection_kind e) as [b|] eqn:Hbl; [|done]. breflect.
  exists b. split; [|congruence]. unfold rebuild_projection_view in Hview.
  destruct (validate_watermark genesis); [|done]. rewrite Hst in Hview.
  destruct (_ && _) in Hview; [done|]. destruct (existsb _ _) in Hview; [done|].
  apply Ok_inj in Hview as <-. cbn. apply list_elem_of_fmap.
  exists (pe_projection_kind e, b). split; [done|]. by apply elem_of_map_to_list.
Qed.

(** Reconciliation only advances: the source the view is reconciled with
    is never behind the genesis source in any of its four watermarks. *)
Lemma reconciliation_advances g genesis records v :
  rebuild_projection_view g genesis records = Ok v ->
  let w := pv_reconciled_source v in
  (wm_generation genesis <= wm_generation w)%Z /\
  (wm_revision_watermark genesis <= wm_revision_watermark w)%Z /\
  (wm_policy_watermark genesis <= wm_policy_watermark w)%Z /\
  (wm_relation_watermark genesis <= wm_relation_watermark w)%Z.
Proof.
  intros Hv. apply view_scan in Hv as (st & Hst & <- & _). apply (sok_reconciled _ _ _ (replay_ok _ _ _ Hst)).
Qed.
End manifest.

(** ** A concrete manifest

    One projection is queued, claimed, fails, is retried and becomes ready.
    Documents are strings, every digest is the same, and a UUID is written as
    one character. *)

Definition a_hash : string := "aaaaaaaaaaaaaaaaaaaaaaaaaaaaaaaaaaaaaaaaaaaaaaaaaaaaaaaaaaaaaaaa".

Definition toy_platform : Platform := {|
  bytes := string;
  octets := fun b => b;
  sha256_hex := fun _ => a_hash;
  uuid_parse := fun s => match s with EmptyString => None | String c _ => Some (byte_of c) end;
  uuid_hyphenated := fun n => String (Ascii.ascii_of_N n) EmptyString;
  uuid_new_v5 := fun _ name => N.of_nat (String.length name) |}.

Definition toy_specs : @Serde toy_platform BuilderSpec :=
  @Build_Serde toy_platform BuilderSpec (fun b => Some (bs_model_id b)) (fun _ => None).

Definition toy_spec : BuilderSpec := {|
  bs_schema := BUILDER_SPEC_SCHEMA; bs_projection_kind := MemoryEmbedding;
  bs_builder_id := "b"; bs_builder_version := "1"; bs_provider_family := "p";
  bs_provider_compatibility_id := "c"; bs_model_id := "m"; bs_raw_dimension := 4;
  bs_dimension := 4; bs_input_contract := MemoryTextUtf8V1; bs_operation_contract := DocumentV1;
  bs_normalization := ProviderNative; bs_transform_contract_id := "provider-native-document-v1";
  bs_artifact_schema := EMBEDDING_ARTIFACT_SCHEMA |}.

Definition toy_source : CanonicalSourceIdentity := {|
  src_canonical_kind := "memory_revision"; src_memory_id := "m"; src_revision_id := "r";
  src_revision_sequence := 1; src_content_hash := a_hash |}.

Definition toy_artifact : ArtifactDescriptor := {|
  ad_artifact_hash := a_hash; ad_byte_length := 10;
  ad_artifact_schema := EMBEDDING_ARTIFACT_SCHEMA; ad_dimension := 4;
  ad_source_revision_id := "r"; ad_source_content_hash := a_hash; ad_builder_spec_hash := a_hash |}.

Definition toy_watermark : CanonicalWatermark := {|
  wm_root_hash := a_hash; wm_generation := 1; wm_revision_watermark := 1;
  wm_policy_watermark := 1; wm_relation_watermark := 0 |}.

Definition toy_record (sequence : Z) (role : string) (event : ManifestEvent) : ManifestRecord := {|
  mr_schema := MANIFEST_RECORD_SCHEMA; mr_sequence := sequence; mr_committed_at := 10 * sequence;
  mr_committed_by_role := role; mr_event := event |}.

(** The [n]-th transition is record [n + 1]. *)
Definition toy_step (n : Z) (state : ProjectionState) : ManifestRecord :=
  toy_record (n + 1) PROJECTION_WORKER_ROLE
    (ProjectionTransition 18 MemoryEmbedding n (if (n =? 1)%Z then None else Some n)
       toy_source a_hash state).

Definition toy_manifest : list ManifestRecord :=
  toy_record 1 PERSONAL_OWNER_ROLE_ID (BuilderActivated MemoryEmbedding toy_spec a_hash None)
  :: imap (fun i => toy_step (Z.of_nat i + 1))
       [Queued Queue_CanonicalCommit; Building 1 5 99;
        Failed 1 5 Failure_ProviderUnavailable true (Some 45%Z); Queued Queue_Retry;
        Building 2 6 99; Ready 2 6 toy_artifact].

Definition toy_view : result ProjectionError ProjectionCurrentView :=
  @rebuild_projection_view toy_platform toy_specs 1 toy_watermark toy_manifest.

Definition toy_entry : ProjectionEntry := {|
  pe_projection_id := 18; pe_projection_kind := MemoryEmbedding; pe_projection_version := 6;
  pe_last_transition_sequence := 7; pe_attempt_count := 2; pe_source := toy_source;
  pe_desired_builder_spec_hash := a_hash; pe_state := Ready 2 6 toy_artifact |}.

Definition toy_result : ProjectionCurrentView := {|
  pv_schema := PROJECTION_VIEW_SCHEMA; pv_generation := 1; pv_event_watermark := 7;
  pv_reconciled_source := toy_watermark;
  pv_active_builder_specs := [{| ab_projection_kind := MemoryEmbedding;
    ab_builder_spec_hash := a_hash; ab_builder_spec := toy_spec |}];
  pv_entries := [toy_entry] |}.

Lemma toy_rebuilt : toy_view = Ok toy_result.
Proof. vm_compute. reflexivity. Qed.

Lemma projection_paths_witness :
  let ts := transitions_of 18 toy_manifest in
  prefix_ok transition_ok ts /\ last ts = Some (Ready 2 6 toy_artifact) /\
  6%Z = Z.of_nat (length ts) /\ 2%Z = Z.of_nat (claims ts) /\ (0 < 7 <= 7)%Z.
Proof.
  apply (@projection_paths toy_platform toy_specs 1 toy_watermark toy_manifest toy_result toy_entry
    toy_rebuilt). left.
Defined.

Lemma attempts_complete_once_witness :
  (1 < 2)%Z /\ exists lease, transitions_of 18 toy_manifest !! 4 = Some (Building 2 6 lease).
Proof.
  apply (@attempts_complete_once toy_platform toy_specs 1 toy_watermark toy_manifest toy_result
    toy_entry 2 5 (Failed 1 5 Failure_ProviderUnavailable true (Some 45%Z)) (Ready 2 6 toy_artifact)
    1 2 5 6 toy_rebuilt); [left|reflexivity..|lia].
Defined.

Lemma ready_artifacts_bound_witness : bound_artifact toy_entry toy_artifact.
Proof.
  destruct (@ready_artifacts_bound toy_platform toy_specs 1 toy_watermark toy_manifest toy_result
    toy_entry toy_rebuilt) as (_ & Hr & _); [left|]. apply (Hr 2%Z 6%N toy_artifact eq_refl).
Defined.

Lemma reconciliation_advances_witness : (1 <= wm_generation (pv_reconciled_source toy_result))%Z.
Proof.
  apply (@reconciliation_advances toy_platform toy_specs 1 toy_watermark toy_manifest toy_result
    toy_rebuilt).
Defined.
