(* ===== verification/ProjectionPlan.v ===== *)
(** * The writer of the projection manifest ([src/src/memory/projection/store.rs])

    The operations of [ProjectionManifestStore] on its in-memory state: each
    plans events from the current view and hands them to [commit], which stamps
    them, replays the whole manifest, checks the result against the canonical
    ledger, stores it and replaces the state.  The object and artifact files of
    the second half of [commit] are summarised by their outcome. *)

From stdpp Require Import base gmap strings list sorting.
From S2P Require Import Prelude Wire MemoryModel LedgerModel LedgerStorage.
From S2P Require Import ProjectionModel LedgerStore LedgerQueries ProjectionView.

Record ProjectionRoot := mkProjectionRoot {
  pr_schema : string;
  pr_generation : Z;
  pr_previous_root_hash : option string;
  pr_manifest_head : option string;
  pr_event_watermark : Z;
  pr_current_view_hash : string;
  pr_reconciled_source : CanonicalWatermark;
  pr_committed_at : Z;
  pr_committed_by_role : string;
}.

Record ArtifactIssue := mkIssue { ai_projection_id : N; ai_reason : StaleReason }.

Record ProjectionStoreState := mkStoreState {
  ps_poisoned : bool;
  ps_root_hash : string;
  ps_root : ProjectionRoot;
  ps_view : ProjectionCurrentView;
  ps_records : list ManifestRecord;
  ps_genesis_source : CanonicalWatermark;
  ps_artifact_issues : list ArtifactIssue;
}.

Inductive ProjectionCommitActor : Type := Actor_PersonalOwner | Actor_Worker.

Definition role_id (actor : ProjectionCommitActor) : string :=
  match actor with
  | Actor_PersonalOwner => PERSONAL_OWNER_ROLE_ID
  | Actor_Worker => PROJECTION_WORKER_ROLE
  end.

Record ProjectionBuildGuard := mkGuard {
  g_entry : ProjectionEntry;
  g_attempt : Z;
  g_attempt_id : N;
  g_claim_event_watermark : Z;
  g_canonical_watermark : CanonicalWatermark;
}.

Record ProjectionOwnerRebuildReceipt := mkReceipt {
  rr_manifest_generation : Z;
  rr_event_watermark : Z;
  rr_reconciled_source : CanonicalWatermark;
}.

(** [vector] as the bits of its components. *)
Record EmbeddingArtifact := mkArtifact {
  ea_schema : string;
  ea_projection_id : N;
  ea_source_revision_id : MemoryRevisionId;
  ea_source_content_hash : CanonicalContentHash;
  ea_builder_spec_hash : string;
  ea_dimension : Z;
  ea_encoding : string;
  ea_vector : list Z;
}.

(** How the file operations of a commit end: the new root is published under
    its hash, something fails before the pointer is exchanged, or the exchange
    is not synced. *)
Inductive StoreOutcome : Type :=
  | Store_Published (segment_hash view_hash root_hash : string)
  | Store_Fails (e : ProjectionError)
  | Store_Unsynced.

#[export] Instance AbsentReason_eq_dec : EqDecision AbsentReason.
Proof. solve_decision. Defined.

(** ** Against the canonical ledger *)

Definition watermark (hash : string) (root : LedgerRoot) : CanonicalWatermark :=
  watermark_of (hash, root).

Definition canonical_source (revision : CanonicalRevision) : CanonicalSourceIdentity :=
  source_of revision.

Definition validate_source_against_canonical (source : CanonicalSourceIdentity)
    (snapshot : CanonicalProjectionSnapshot) : result ProjectionError unit :=
  revision <-? ok_or (List.find (fun r => str_eqb (r_revision_id r) (src_revision_id source))
                        (cps_revisions snapshot)) (invalid "projection_source_not_canonical");
  reject negb (str_eqb (r_memory_id revision) (src_memory_id source))
         || negb (r_sequence revision =? src_revision_sequence source)%Z
         || negb (str_eqb (r_content_hash revision) (src_content_hash source))
    with invalid "projection_source_identity_mismatch";
  Ok tt.

Definition expected_absent_reason (revision : CanonicalRevision) (revisions : list CanonicalRevision)
    : option AbsentReason :=
  if existsb (fun c => bool_decide (r_parent_revision_id c = Some (r_revision_id revision))) revisions
  then Some Absent_Superseded
  else match r_deleted_at revision with
  | Some _ => Some Absent_Deleted
  | None =>
      if negb (bool_decide (r_cognitive_tier revision = Tier_Working)
               || bool_decide (r_cognitive_tier revision = Tier_LongTerm))
      then Some Absent_UnsupportedTier
      else match r_content revision with
      | Text text => if blank text then Some Absent_BlankText else None
      | _ => Some Absent_UnsupportedContent
      end
  end.

(** The check of one entry of the view in [validate_candidate]. *)
Definition candidate_entry_check (source : CanonicalWatermark) (canonical : CanonicalProjectionSnapshot)
    (_ : nat) (_ : unit) (entry : ProjectionEntry) : result ProjectionError unit :=
  if (wm_revision_watermark source <? src_revision_sequence (pe_source entry))%Z then
    match pe_state entry with
    | Queued Queue_CanonicalCommit => Ok tt
    | _ => Err (invalid "invalid_write_through_projection_state")
    end
  else
    revision <-? ok_or (List.find (fun r => str_eqb (r_revision_id r) (src_revision_id (pe_source entry)))
                          (cps_revisions canonical)) (invalid "projection_source_not_canonical");
    match pe_state entry,
          expected_absent_reason revision
            (List.filter (fun c => r_sequence c <=? wm_revision_watermark source)%Z
               (cps_revisions canonical)) with
    | AbsentByPolicy reason, Some expected =>
        if bool_decide (reason = expected) then Ok tt
        else Err (invalid "ineligible_revision_has_projection_state")
    | AbsentByPolicy _, None => Err (invalid "eligible_revision_marked_absent")
    | _, Some _ => Err (invalid "ineligible_revision_has_projection_state")
    | _, None => Ok tt
    end.

Section plan.
Context `{Platform} `{!Serde BuilderSpec} `{!Serde EmbeddingArtifact}.

Definition validate_reconciled_coverage (w : CanonicalWatermark)
    (snapshot : CanonicalProjectionSnapshot) : result ProjectionError unit :=
  validate_watermark w ?>>
  (reject negb (bool_decide (w = watermark (cps_root_hash snapshot) (cps_root snapshot)))
     with invalid "canonical_watermark_mismatch";
   Ok tt).

Definition validate_candidate (view : ProjectionCurrentView) (records : list ManifestRecord)
    (canonical : CanonicalProjectionSnapshot) : result ProjectionError unit :=
  try_for (fun _ _ record =>
             match mr_event record with
             | ProjectionTransition _ _ _ _ source _ _ => validate_source_against_canonical source canonical
             | _ => Ok tt
             end) 0 tt records ?>>
  (let source := pv_reconciled_source view in
   reject negb (existsb (fun x => bool_decide (source = watermark (fst x) (snd x))) (cps_root_chain canonical))
     with invalid "projection_reconciliation_not_canonical_ancestor";
   let covered := List.filter (fun r => r_sequence r <=? wm_revision_watermark source)%Z
                    (cps_revisions canonical) in
   reject negb (Z.of_nat (length covered) =? wm_revision_watermark source)%Z
          || existsb (fun r => negb (existsb (fun e => str_eqb (src_revision_id (pe_source e))
                                                          (r_revision_id r)) (pv_entries view))) covered
     with invalid "projection_reconciliation_incomplete";
   (try_for (candidate_entry_check source canonical) 0 tt (pv_entries view) ?>>
    if str_eqb (wm_root_hash source) (cps_root_hash canonical)
    then validate_reconciled_coverage source canonical else Ok tt)).

(** ** Committing *)

(** [events.into_iter().enumerate().map(..).collect()] *)
Fixpoint stamp_events (first_sequence : Z) (committed_at : Z) (role : string) (offset : nat)
    (events : list ManifestEvent) : result ProjectionError (list ManifestRecord) :=
  match events with
  | [] => Ok []
  | event :: events' =>
      sequence <-? ok_or (u64_checked_add first_sequence (Z.of_nat offset))
                     (invalid "projection_sequence_overflow");
      records <-? stamp_events first_sequence committed_at role (S offset) events';
      Ok ({| mr_schema := MANIFEST_RECORD_SCHEMA; mr_sequence := sequence;
             mr_committed_at := committed_at; mr_committed_by_role := role;
             mr_event := event |} :: records)
  end.

(** The first half of [commit]: the candidate records, their view, the
    generation and the commit time. *)
Definition commit_candidate (now : Z) (s : ProjectionStoreState) (expected_root_hash : string)
    (actor : ProjectionCommitActor) (events : list ManifestEvent)
    (canonical : CanonicalProjectionSnapshot) (repairing : bool)
    : result ProjectionError (list ManifestRecord * ProjectionCurrentView * Z * Z) :=
  reject ps_poisoned s with P_WriterPoisoned;
  reject negb (bool_decide (length (ps_artifact_issues s) = 0)) && negb repairing
    with P_ArtifactRepairRequired (length (ps_artifact_issues s));
  reject negb (str_eqb (ps_root_hash s) expected_root_hash) with P_HeadConflict;
  reject bool_decide (length events = 0) with invalid "invalid_projection_commit_boundary";
  (floor <-? ok_or (u64_checked_add (pr_committed_at (ps_root s)) 1)
               (invalid "projection_commit_time_overflow");
   let committed_at := Z.max now floor in
   reject (MAX_JCS_SAFE_INTEGER <? committed_at)%Z with invalid "projection_commit_time_overflow";
   (first_sequence <-? ok_or (u64_checked_add (Z.of_nat (length (ps_records s))) 1)
                         (invalid "projection_sequence_overflow");
    records <-? stamp_events first_sequence committed_at (role_id actor) 0 events;
    generation <-? ok_or (u64_checked_add (pr_generation (ps_root s)) 1)
                     (invalid "projection_generation_overflow");
    let candidate_records := ps_records s ++ records in
    view <-? rebuild_projection_view generation (ps_genesis_source s) candidate_records;
    validate_candidate view candidate_records canonical ?>>
    Ok (candidate_records, view, generation, committed_at))).

Definition commit (out : StoreOutcome) (now : Z) (s : ProjectionStoreState)
    (expected_root_hash : string) (actor : ProjectionCommitActor) (events : list ManifestEvent)
    (canonical : CanonicalProjectionSnapshot) (repairing : bool)
    : result ProjectionError string * ProjectionStoreState :=
  match commit_candidate now s expected_root_hash actor events canonical repairing with
  | Err e => (Err e, s)
  | Ok (candidate_records, view, generation, committed_at) =>
      match out with
      | Store_Fails e => (Err e, s)
      | Store_Unsynced =>
          (Err P_CommitIndeterminate,
           {| ps_poisoned := true; ps_root_hash := ps_root_hash s; ps_root := ps_root s;
              ps_view := ps_view s; ps_records := ps_records s;
              ps_genesis_source := ps_genesis_source s; ps_artifact_issues := ps_artifact_issues s |})
      | Store_Published segment_hash view_hash root_hash =>
          (Ok root_hash,
           {| ps_poisoned := ps_poisoned s;
              ps_root_hash := root_hash;
              ps_root := {| pr_schema := MANIFEST_ROOT_SCHEMA;
                            pr_generation := generation;
                            pr_previous_root_hash := Some (ps_root_hash s);
                            pr_manifest_head := Some segment_hash;
                            pr_event_watermark := Z.of_nat (length candidate_records);
                            pr_current_view_hash := view_hash;
                            pr_reconciled_source := pv_reconciled_source view;
                            pr_committed_at := committed_at;
                            pr_committed_by_role := role_id actor |};
              ps_view := view;
              ps_records := candidate_records;
              ps_genesis_source := ps_genesis_source s;
              ps_artifact_issues := ps_artifact_issues s |})
      end
  end.

Definition commit_expected (out : StoreOutcome) (now : Z) (s : ProjectionStoreState)
    (expected_root_hash : string) (actor : ProjectionCommitActor) (events : list ManifestEvent)
    (canonical : CanonicalProjectionSnapshot) : result ProjectionError string * ProjectionStoreState :=
  commit out now s expected_root_hash actor events canonical false.

(** ** Reading *)

Definition readable (s : ProjectionStoreState) : result ProjectionError unit :=
  reject ps_poisoned s with P_WriterPoisoned;
  reject negb (bool_decide (length (ps_artifact_issues s) = 0))
    with P_ArtifactRepairRequired (length (ps_artifact_issues s));
  Ok tt.

Definition current_view (s : ProjectionStoreState) : result ProjectionError ProjectionCurrentView :=
  readable s ?>> Ok (ps_view s).
Definition root_hash (s : ProjectionStoreState) : result ProjectionError string :=
  readable s ?>> Ok (ps_root_hash s).

Definition find_entry (view : ProjectionCurrentView) (id : N) : option ProjectionEntry :=
  List.find (fun e => (pe_projection_id e =? id)%N) (pv_entries view).

Definition embedding_builder (view : ProjectionCurrentView) : option ActiveBuilderSpec :=
  List.find (fun b => bool_decide (ab_projection_kind b = MemoryEmbedding)) (pv_active_builder_specs view).

(** ** Planning *)

Definition transition_event (entry : ProjectionEntry) (desired : string) (state : ProjectionState)
    : result ProjectionError ManifestEvent :=
  version <-? ok_or (u64_checked_add (pe_projection_version entry) 1)
                (invalid "projection_version_overflow");
  Ok (ProjectionTransition (pe_projection_id entry) (pe_projection_kind entry) version
        (Some (pe_last_transition_sequence entry)) (pe_source entry) desired state).

(** The transition a builder change makes, if any. *)
Definition builder_change_state (s : ProjectionState) : option ProjectionState :=
  match s with
  | AbsentByPolicy _ => None
  | Ready _ _ artifact => Some (Stale Stale_BuilderSpecChanged artifact)
  | _ => Some (Queued Queue_BuilderChanged)
  end.

Definition builder_change_events (hash : string) (entries : list ProjectionEntry)
    : result ProjectionError (list ManifestEvent) :=
  events <-? try_map (fun e => match builder_change_state (pe_state e) with
                               | None => Ok []
                               | Some state => ev <-? transition_event e hash state; Ok [ev]
                               end) entries;
  Ok (concat events).

Definition activate_builder (out : StoreOutcome) (now : Z) (s : ProjectionStoreState)
    (spec : BuilderSpec) (canonical : CanonicalProjectionSnapshot)
    : result ProjectionError string * ProjectionStoreState :=
  match
    hashed <-? builder_spec_bytes_and_hash spec;
    let hash := snd hashed in
    validate_builder_hash spec hash ?>>
    (view <-? current_view s;
     root <-? root_hash s;
     let previous := embedding_builder view in
     if bool_decide (ab_builder_spec_hash <$> previous = Some hash) then Ok (inl root)
     else
       changes <-? (if opt_is_some previous then builder_change_events hash (pv_entries view) else Ok []);
       Ok (inr (root, BuilderActivated MemoryEmbedding spec hash (ab_builder_spec_hash <$> previous)
                      :: changes)))
  with
  | Err e => (Err e, s)
  | Ok (inl root) => (Ok root, s)
  | Ok (inr (root, events)) => commit_expected out now s root Actor_PersonalOwner events canonical
  end.

(** The classification of one revision: the state reconciliation moves its
    projection to, if any. *)
Definition reconcile_state (now : Z) (existing : option ProjectionState) (absent : option AbsentReason)
    : option ProjectionState :=
  match existing, absent with
  | Some (AbsentByPolicy reason), Some expected =>
      if bool_decide (reason = expected) then None else Some (AbsentByPolicy expected)
  | _, Some expected => Some (AbsentByPolicy expected)
  | None, None | Some (AbsentByPolicy _), None => Some (Queued Queue_Reconciliation)
  | Some (Building _ _ lease_expires_at), None =>
      if (lease_expires_at <=? now)%Z then Some (Queued Queue_LeaseExpired) else None
  | Some (Failed _ _ _ true (Some retry_at)), None =>
      if (retry_at <=? now)%Z then Some (Queued Queue_Retry) else None
  | Some (Stale _ _), None => Some (Queued Queue_BuilderChanged)
  | Some _, None => None
  end.

(** One iteration of the loop over the canonical revisions. *)
Definition reconcile_revision (now : Z) (view : ProjectionCurrentView) (builder_hash : string)
    (revisions : list CanonicalRevision) (revision : CanonicalRevision)
    : result ProjectionError (list ManifestEvent) :=
  id <-? projection_id (r_revision_id revision);
  let existing := find_entry view id in
  match reconcile_state now (pe_state <$> existing) (expected_absent_reason revision revisions) with
  | None => Ok []
  | Some state =>
      event <-? match existing with
                | Some entry => transition_event entry builder_hash state
                | None => Ok (ProjectionTransition id MemoryEmbedding 1 None
                                (canonical_source revision) builder_hash state)
                end;
      Ok [event]
  end.

Definition reconcile_events (now : Z) (view : ProjectionCurrentView)
    (canonical : CanonicalProjectionSnapshot) : result ProjectionError (list ManifestEvent) :=
  builder <-? ok_or (embedding_builder view) (invalid "missing_active_memory_embedding_builder");
  events <-? try_map (reconcile_revision now view (ab_builder_spec_hash builder) (cps_revisions canonical))
               (cps_revisions canonical);
  let target := watermark (cps_root_hash canonical) (cps_root canonical) in
  Ok (concat events ++
      if bool_decide (pv_reconciled_source view = target) then []
      else [ReconciliationAdvanced (pv_reconciled_source view) target
              (root_revision_watermark (cps_root canonical))]).

(** The receipt of a commit of [n] events planned on [view]. *)
Definition planned_receipt (view : ProjectionCurrentView) (n : nat) (reconciled : CanonicalWatermark)
    : result ProjectionError ProjectionOwnerRebuildReceipt :=
  generation <-? ok_or (u64_checked_add (pv_generation view) 1) (invalid "projection_generation_overflow");
  event_watermark <-? ok_or (u64_checked_add (pv_event_watermark view) (Z.of_nat n))
                        (invalid "projection_sequence_overflow");
  Ok (mkReceipt generation event_watermark reconciled).

Definition reconcile_with_receipt (out : StoreOutcome) (plan_now now : Z) (s : ProjectionStoreState)
    (canonical : CanonicalProjectionSnapshot)
    : result ProjectionError (string * ProjectionOwnerRebuildReceipt) * ProjectionStoreState :=
  match
    view <-? current_view s;
    root <-? root_hash s;
    events <-? reconcile_events plan_now view canonical;
    match events with
    | [] => Ok (inl (root, mkReceipt (pv_generation view) (pv_event_watermark view)
                             (pv_reconciled_source view)))
    | _ => receipt <-? planned_receipt view (length events)
                         (watermark (cps_root_hash canonical) (cps_root canonical));
           Ok (inr (root, events, receipt))
    end
  with
  | Err e => (Err e, s)
  | Ok (inl r) => (Ok r, s)
  | Ok (inr (root, events, receipt)) =>
      match commit_expected out now s root Actor_Worker events canonical with
      | (Err e, s') => (Err e, s')
      | (Ok published, s') => (Ok (published, receipt), s')
      end
  end.

Definition reconcile (out : StoreOutcome) (plan_now now : Z) (s : ProjectionStoreState)
    (canonical : CanonicalProjectionSnapshot) : result ProjectionError string * ProjectionStoreState :=
  match reconcile_with_receipt out plan_now now s canonical with
  | (Err e, s') => (Err e, s')
  | (Ok (root, _), s') => (Ok root, s')
  end.

(** [find], then the eligibility check, for each selected revision. *)
Definition rebuild_target (view : ProjectionCurrentView) (id : MemoryRevisionId)
    : result ProjectionError ProjectionEntry :=
  entry <-? ok_or (List.find (fun e => str_eqb (src_revision_id (pe_source e)) id) (pv_entries view))
              (invalid "projection_rebuild_target_unreconciled");
  reject is_absent (pe_state entry) with invalid "projection_rebuild_target_not_eligible";
  Ok entry.

Definition sequence_le (a b : ProjectionEntry) : Prop :=
  (src_revision_sequence (pe_source a) <= src_revision_sequence (pe_source b))%Z.
#[export] Instance sequence_le_dec : RelDecision sequence_le.
Proof. intros a b. unfold sequence_le. apply _. Defined.

(** The events of one entry, [n] events having been planned before it. *)
Definition rebuild_entry (view : ProjectionCurrentView) (_ : nat) (events : list ManifestEvent)
    (entry : ProjectionEntry) : result ProjectionError (list ManifestEvent) :=
  match pe_state entry with
  | Ready _ _ artifact =>
      stale_sequence <-? ok_or (n ← u64_checked_add (pv_event_watermark view) (Z.of_nat (length events));
                                u64_checked_add n 1) (invalid "projection_sequence_overflow");
      stale <-? transition_event entry (pe_desired_builder_spec_hash entry)
                  (Stale Stale_OwnerRebuild artifact);
      version <-? ok_or (u64_checked_add (pe_projection_version entry) 2)
                    (invalid "projection_version_overflow");
      Ok (events ++ [stale;
            ProjectionTransition (pe_projection_id entry) (pe_projection_kind entry) version
              (Some stale_sequence) (pe_source entry) (pe_desired_builder_spec_hash entry)
              (Queued Queue_OwnerRebuild)])
  | _ =>
      event <-? transition_event entry (pe_desired_builder_spec_hash entry) (Queued Queue_OwnerRebuild);
      Ok (events ++ [event])
  end.

Definition owner_rebuild (out : StoreOutcome) (now : Z) (s : ProjectionStoreState)
    (selected : list MemoryRevisionId) (canonical : CanonicalProjectionSnapshot)
    : result ProjectionError ProjectionOwnerRebuildReceipt * ProjectionStoreState :=
  match
    reject bool_decide (selected = []) with invalid "projection_rebuild_requires_target";
    (view <-? current_view s;
     root <-? root_hash s;
     reject negb (bool_decide (NoDup selected)) with invalid "duplicate_projection_rebuild_target";
     (targets <-? try_map (rebuild_target view) selected;
      events <-? try_for (rebuild_entry view) 0 [] (merge_sort sequence_le targets);
      receipt <-? planned_receipt view (length events) (pv_reconciled_source view);
      Ok (root, events, receipt)))
  with
  | Err e => (Err e, s)
  | Ok (root, events, receipt) =>
      match commit_expected out now s root Actor_PersonalOwner events canonical with
      | (Err e, s') => (Err e, s')
      | (Ok _, s') => (Ok receipt, s')
      end
  end.

Definition is_queued (s : ProjectionState) : bool := match s with Queued _ => true | _ => false end.

(** The claim of [entry]. *)
Definition claim_event (s : ProjectionStoreState) (plan_now : Z) (attempt_id : N) (entry : ProjectionEntry)
    : result ProjectionError (Z * ManifestEvent) :=
  attempt <-? ok_or (u32_checked_add (pe_attempt_count entry) 1) (invalid "projection_attempt_overflow");
  floor <-? ok_or (u64_checked_add (pr_committed_at (ps_root s)) 1)
              (invalid "projection_commit_time_overflow");
  lease <-? ok_or (u64_checked_add (Z.max plan_now floor) 60000) (invalid "projection_lease_overflow");
  event <-? transition_event entry (pe_desired_builder_spec_hash entry) (Building attempt attempt_id lease);
  Ok (attempt, event).

Definition claim_next (out : StoreOutcome) (plan_now now : Z) (attempt_id : N)
    (s : ProjectionStoreState) (canonical : CanonicalProjectionSnapshot)
    : result ProjectionError (option ProjectionBuildGuard) * ProjectionStoreState :=
  match current_view s with
  | Err e => (Err e, s)
  | Ok view =>
      match List.find (fun e => is_queued (pe_state e)) (pv_entries view) with
      | None => (Ok None, s)
      | Some entry =>
          match root <-? root_hash s; x <-? claim_event s plan_now attempt_id entry; Ok (root, x) with
          | Err e => (Err e, s)
          | Ok (root, (attempt, event)) =>
              match commit_expected out now s root Actor_Worker [event] canonical with
              | (Err e, s') => (Err e, s')
              | (Ok _, s') =>
                  (claimed <-? current_view s';
                   claimed_entry <-? ok_or (find_entry claimed (pe_projection_id entry))
                                       (invalid "claimed_projection_missing");
                   Ok (Some {| g_entry := claimed_entry; g_attempt := attempt; g_attempt_id := attempt_id;
                               g_claim_event_watermark := pv_event_watermark claimed;
                               g_canonical_watermark :=
                                 watermark (cps_root_hash canonical) (cps_root canonical) |}),
                   s')
              end
          end
      end
  end.

Definition guard_matches (guard : ProjectionBuildGuard) (entry : ProjectionEntry) : bool :=
  (pe_projection_version entry =? pe_projection_version (g_entry guard))%Z
  && (pe_last_transition_sequence entry =? pe_last_transition_sequence (g_entry guard))%Z
  && bool_decide (pe_source entry = pe_source (g_entry guard))
  && str_eqb (pe_desired_builder_spec_hash entry) (pe_desired_builder_spec_hash (g_entry guard))
  && match pe_state entry with
     | Building attempt attempt_id _ =>
         (attempt =? g_attempt guard)%Z && (attempt_id =? g_attempt_id guard)%N
     | _ => false
     end.

Definition guard_is_current (s : ProjectionStoreState) (guard : ProjectionBuildGuard)
    : result ProjectionError bool :=
  reject ps_poisoned s with P_WriterPoisoned;
  Ok (match find_entry (ps_view s) (pe_projection_id (g_entry guard)) with
      | None => false
      | Some entry => guard_matches guard entry
      end).

Definition current_guarded_builder (s : ProjectionStoreState) (guard : ProjectionBuildGuard)
    : result ProjectionError (string * ActiveBuilderSpec) :=
  reject ps_poisoned s with P_WriterPoisoned;
  (entry <-? ok_or (find_entry (ps_view s) (pe_projection_id (g_entry guard))) P_HeadConflict;
   reject negb (guard_matches guard entry) with P_HeadConflict;
   match embedding_builder (ps_view s) with
   | Some active =>
       if str_eqb (ab_builder_spec_hash active) (pe_desired_builder_spec_hash (g_entry guard))
       then Ok (ps_root_hash s, active) else Err P_HeadConflict
   | None => Err P_HeadConflict
   end).

Definition ARTIFACT_DOMAIN : string := "plico.projection.embedding-artifact.v1" +:+ nul.

Definition artifact_bytes_and_hash (value : EmbeddingArtifact)
    : result ProjectionError (bytes * string) :=
  b <-? ok_or (to_vec value) (invalid "projection_jcs_canonicalization_failed");
  Ok (b, sha256_hex (ARTIFACT_DOMAIN +:+ octets b)).

(** The [Ready] transition of a worker's vector. *)
Definition ready_event (guard : ProjectionBuildGuard) (active : ActiveBuilderSpec) (vector : list Z)
    : result ProjectionError ManifestEvent :=
  let entry := g_entry guard in
  let artifact := {|
    ea_schema := EMBEDDING_ARTIFACT_SCHEMA; ea_projection_id := pe_projection_id entry;
    ea_source_revision_id := src_revision_id (pe_source entry);
    ea_source_content_hash := src_content_hash (pe_source entry);
    ea_builder_spec_hash := pe_desired_builder_spec_hash entry;
    ea_dimension := bs_dimension (ab_builder_spec active); ea_encoding := "f32-json/v1";
    ea_vector := vector |} in
  hashed <-? artifact_bytes_and_hash artifact;
  transition_event entry (pe_desired_builder_spec_hash entry)
    (Ready (g_attempt guard) (g_attempt_id guard)
       {| ad_artifact_hash := snd hashed;
          ad_byte_length := Z.of_nat (String.length (octets (fst hashed)));
          ad_artifact_schema := EMBEDDING_ARTIFACT_SCHEMA;
          ad_dimension := bs_dimension (ab_builder_spec active);
          ad_source_revision_id := src_revision_id (pe_source entry);
          ad_source_content_hash := src_content_hash (pe_source entry);
          ad_builder_spec_hash := pe_desired_builder_spec_hash entry |}).

(** [authorized] is the source and [snapshot] the snapshot the canonical guard
    was handed out for. *)
Definition complete_ready (out : StoreOutcome) (now : Z) (s : ProjectionStoreState)
    (guard : ProjectionBuildGuard) (vector : list Z) (authorized : CanonicalSourceIdentity)
    (snapshot : CanonicalProjectionSnapshot) : result ProjectionError string * ProjectionStoreState :=
  match
    reject negb (bool_decide (authorized = pe_source (g_entry guard))) with P_HeadConflict;
    (x <-? current_guarded_builder s guard;
     event <-? ready_event guard (snd x) vector;
     Ok (fst x, event))
  with
  | Err e => (Err e, s)
  | Ok (root, event) => commit out now s root Actor_Worker [event] snapshot false
  end.

Definition retryable (c : FailureCategory) : bool :=
  match c with Failure_InvalidProjection | Failure_ProviderIdentityChanged => false | _ => true end.

(** [1_000_u64.checked_shl(attempt.min(8)).unwrap_or(256_000).min(300_000)]; the
    shift is by at most 8, so it is never [None]. *)
Definition retry_delay_ms (attempt : Z) : Z :=
  Z.min (Z.shiftl 1000 (Z.min attempt 8) mod u64_modulus) 300000.

Definition failed_event (s : ProjectionStoreState) (plan_now : Z) (guard : ProjectionBuildGuard)
    (category : FailureCategory) : result ProjectionError ManifestEvent :=
  retry_not_before <-?
    (if retryable category then
       t <-? ok_or (u64_checked_add (Z.max (pr_committed_at (ps_root s)) plan_now)
                      (Z.max (retry_delay_ms (g_attempt guard)) 1))
               (invalid "projection_retry_time_overflow");
       Ok (Some t)
     else Ok None);
  transition_event (g_entry guard) (pe_desired_builder_spec_hash (g_entry guard))
    (Failed (g_attempt guard) (g_attempt_id guard) category (retryable category) retry_not_before).

Definition complete_failed (out : StoreOutcome) (plan_now now : Z) (s : ProjectionStoreState)
    (guard : ProjectionBuildGuard) (category : FailureCategory) (authorized : CanonicalSourceIdentity)
    (snapshot : CanonicalProjectionSnapshot) : result ProjectionError string * ProjectionStoreState :=
  match
    reject negb (bool_decide (authorized = pe_source (g_entry guard))) with P_HeadConflict;
    (x <-? current_guarded_builder s guard;
     event <-? failed_event s plan_now guard category;
     Ok (fst x, event))
  with
  | Err e => (Err e, s)
  | Ok (root, event) => commit out now s root Actor_Worker [event] snapshot false
  end.
End plan.
