(* ===== verification/ProjectionPlanProps.v ===== *)
(** * What the projection writer guarantees

    The in-memory view is always the replay of the records, which only grow;
    a successful reconciliation classifies every canonical revision; a build
    guard is current exactly until its projection moves on, and completes at
    most once.  Two plans of the reconciliation are never accepted by the
    replay. *)

From stdpp Require Import base gmap strings list sorting.
From S2P Require Import Prelude Wire MemoryModel LedgerModel LedgerValidate LedgerStorage ProjectionModel LedgerStore LedgerQueries LedgerChains LedgerDurability LedgerCommits LedgerAccess ProjectionView ProjectionLifecycle ProjectionPlan.

Section props.
Context `{Platform} `{!Serde BuilderSpec} `{!Serde EmbeddingArtifact}.

(** ** The writer's state *)

(** The view is the replay of the records. *)
Definition store_ok (s : ProjectionStoreState) : Prop :=
  rebuild_projection_view (pr_generation (ps_root s)) (ps_genesis_source s) (ps_records s)
  = Ok (ps_view s).

(** What a commit may do to the state: nothing, poison it, or replace view and
    records by an extension that the replay and the canonical checks accept. *)
Record committed (s s' : ProjectionStoreState) (root : string) (actor : ProjectionCommitActor)
    (events : list ManifestEvent) (canonical : CanonicalProjectionSnapshot) (now : Z) : Prop := {
  cm_root : ps_root_hash s' = root;
  cm_genesis : ps_genesis_source s' = ps_genesis_source s;
  cm_poisoned : ps_poisoned s' = ps_poisoned s;
  cm_issues : ps_artifact_issues s' = ps_artifact_issues s;
  cm_ok : store_ok s';
  cm_records : exists records, ps_records s' = ps_records s ++ records /\
    stamp_events (Z.of_nat (length (ps_records s)) + 1) (pr_committed_at (ps_root s')) (role_id actor) 0
      events = Ok records;
  cm_valid : validate_candidate (ps_view s') (ps_records s') canonical = Ok tt;
}.

Lemma commit_cases out now s expected actor events canonical repairing r s' :
  commit out now s expected actor events canonical repairing = (r, s') ->
  match r with
  | Ok root => committed s s' root actor events canonical now
  | Err _ => s' = s \/ ps_poisoned s' = true /\ ps_view s' = ps_view s /\ ps_records s' = ps_records s /\
      ps_genesis_source s' = ps_genesis_source s /\ ps_root s' = ps_root s
  end.
Proof.
  unfold commit. intros Hc.
  destruct (commit_candidate _ _ _ _ _ _ _) as [[[[recs view] gen] at_]|e] eqn:Hcand;
    [|simplify_eq; by left].
  destruct out as [sh vh rh|e|]; simplify_eq; [|by left|by right].
  unfold commit_candidate, ok_or in Hcand.
  destruct (ps_poisoned s) eqn:Hp; [done|].
  destruct (_ && _); [done|]. destruct (negb _); [done|]. destruct (bool_decide _); [done|].
  destruct (u64_checked_add (pr_committed_at _) 1) as [floor|]; [|done].
  destruct (_ <? _)%Z; [done|].
  destruct (u64_checked_add (Z.of_nat _) 1) as [first|] eqn:Hfirst; [|done].
  destruct (stamp_events _ _ _ _ _) as [records|] eqn:Hst; [|done].
  destruct (u64_checked_add (pr_generation _) 1) as [g|]; [|done].
  destruct (rebuild_projection_view _ _ _) as [v|] eqn:Hreb; [|done].
  destruct (validate_candidate _ _ _) as [[]|] eqn:Hval; [|done].
  injection Hcand as <- <- <- <-. apply u64_checked_succ in Hfirst as ->.
  constructor; cbn; try done. by exists records.
Qed.

(** ** Replaying further events *)

Lemma transition_inv st r id kind version pseq source desired state st' :
  projection_transition st r id kind version pseq source desired state = Ok st' ->
  pe_last_transition_sequence <$> entries st !! id = pseq /\
  lifecycle (mr_committed_by_role r) (mr_committed_at r) (pe_state <$> entries st !! id) state /\
  exists n, entries st' = <[id := mkProjectionEntry id kind version (mr_sequence r) n source desired state]> (entries st).
Proof.
  intros Ht. unfold projection_transition in Ht.
  destruct (validate_source source) as [[]|]; [|done].
  destruct (validate_state_shape _ _) as [[]|]; [|done].
  destruct (transition_header_bad _ _ _ _ _ _) as [[]|]; [done| |done].
  destruct (chain_broken _ _ _ _ _) eqn:Hc; [done|].
  destruct (ok_or (active_builders st !! kind) _) as [ab|]; [|done].
  destruct (validate_state_binding _ _ _ _ _) as [[]|]; [|done].
  destruct (validate_actor_and_transition _ _ _) as [[]|] eqn:Hv; [|done].
  destruct (next_attempt_count _ _) as [n|]; [|done]. apply Ok_inj in Ht as <-.
  apply transition_sound in Hv. unfold chain_broken in Hc. apply orb_false_iff in Hc as [Hc _].
  breflect. split_and!; [done..|]. by exists n.
Qed.

(** What one event does to the entry [id]. *)
Lemma entry_step n st r st' id :
  manifest_step n st r = Ok st' ->
  entries st' !! id = entries st !! id \/
  exists e, entries st' !! id = Some e /\ pe_last_transition_sequence e = (Z.of_nat n + 1)%Z /\
    exists kind version pseq,
      mr_event r = ProjectionTransition id kind version pseq (pe_source e)
                     (pe_desired_builder_spec_hash e) (pe_state e).
Proof.
  unfold manifest_step. intros Hm.
  destruct (negb _ || _ || _ || _ || _) eqn:Hhead; [done|]. breflect.
  destruct (mr_event r) as [|id' ? ? ? ? ? ?|] eqn:Hev.
  - unfold builder_activated in Hm. ok_inv Hm. subst st'. by left.
  - apply transition_inv in Hm as (_ & _ & n' & ->). cbn.
    destruct (decide (id = id')) as [->|]; [|left; by rewrite lookup_insert_ne].
    right. rewrite lookup_insert_eq. eexists. split; [done|]. split; [done|]. eauto.
  - unfold reconciliation_advanced in Hm. ok_inv Hm. subst st'. by left.
Qed.

(** Replaying events on top of [st] leaves an entry as it is or moves it. *)
Lemma entry_moves rs n st st' id :
  try_for manifest_step n st rs = Ok st' ->
  entries st' !! id = entries st !! id \/
  exists e, entries st' !! id = Some e /\ (Z.of_nat n < pe_last_transition_sequence e)%Z.
Proof.
  revert n st. induction rs as [|r rs IH]; intros n st Hr; cbn in Hr; [simplify_eq; by left|].
  destruct (manifest_step n st r) as [st1|] eqn:Hs; [|done]. apply entry_step with (id := id) in Hs.
  destruct (IH _ _ Hr) as [Heq|(e & He & Hlt)]; [|right; exists e; split; [done|lia]].
  rewrite Heq. destruct Hs as [|(e & He & Hq & _)]; [by left|]. right. exists e. split; [done|lia].
Qed.

(** The entries of a view, by identifier. *)
Lemma view_find g genesis records v :
  rebuild_projection_view g genesis records = Ok v ->
  exists st, try_for manifest_step 0 (genesis_scan genesis) records = Ok st /\
    reconciled st = pv_reconciled_source v /\
    (forall id, find_entry v id = entries st !! id) /\
    forall e, e ∈ pv_entries v -> find_entry v (pe_projection_id e) = Some e.
Proof.
  intros Hv. apply view_scan in Hv as (st & Hst & Hrec & Hel & _).
  pose proof (replay_ok _ _ _ Hst) as Hok.
  assert (forall id, find_entry v id = entries st !! id) as Hfind.
  { intros id. unfold find_entry. destruct (List.find _ _) as [e|] eqn:Hf.
    - apply find_some in Hf as [Hin Hid]. apply N.eqb_eq in Hid. apply list_elem_of_In in Hin.
      apply Hel in Hin as [id' He]. by rewrite <-Hid, (eok_id _ _ _ (sok_some _ _ _ Hok _ _ He)).
    - destruct (entries st !! id) as [e|] eqn:He; [|done]. exfalso.
      assert (e ∈ pv_entries v) as Hin by (apply Hel; eauto). apply list_elem_of_In in Hin.
      pose proof (find_none _ _ Hf _ Hin) as Hn. apply N.eqb_neq in Hn.
      by rewrite (eok_id _ _ _ (sok_some _ _ _ Hok _ _ He)) in Hn. }
  exists st. split_and!; [done..|]. intros e He. rewrite Hfind. apply Hel in He as [id He].
  by rewrite (eok_id _ _ _ (sok_some _ _ _ Hok _ _ He)).
Qed.

Lemma stamp_events_spec first at_ role events offset records :
  stamp_events first at_ role offset events = Ok records ->
  mr_event <$> records = events /\
  Forall (fun r => mr_committed_by_role r = role /\ mr_committed_at r = at_) records.
Proof.
  revert offset records. induction events as [|ev events IH]; intros o records Hs; cbn in Hs.
  - by simplify_eq.
  - unfold ok_or in Hs. destruct (u64_checked_add _ _); [|done].
    destruct (stamp_events _ _ _ _ _) as [rs|] eqn:Hr; [|done]. apply Ok_inj in Hs as <-.
    apply IH in Hr as [<- Hf]. by repeat constructor.
Qed.

(** A successful commit replays its events on top of the old entries. *)
Lemma committed_replay s s' root actor events canonical now :
  store_ok s -> committed s s' root actor events canonical now ->
  exists st st' records,
    try_for manifest_step (length (ps_records s)) st records = Ok st' /\
    mr_event <$> records = events /\
    Forall (fun r => mr_committed_by_role r = role_id actor) records /\
    (forall id, find_entry (ps_view s) id = entries st !! id) /\
    (forall id, find_entry (ps_view s') id = entries st' !! id) /\
    reconciled st = pv_reconciled_source (ps_view s) /\
    reconciled st' = pv_reconciled_source (ps_view s') /\
    ps_records s' = ps_records s ++ records.
Proof.
  intros Hok Hc. destruct (cm_records _ _ _ _ _ _ _ Hc) as (records & Hrec & Hst).
  pose proof (cm_ok _ _ _ _ _ _ _ Hc) as Hok'. unfold store_ok in *.
  apply view_find in Hok as (st & Hscan & Hr & Hfind & _).
  apply view_find in Hok' as (st' & Hscan' & Hr' & Hfind' & _).
  rewrite (cm_genesis _ _ _ _ _ _ _ Hc), Hrec, try_for_app, Hscan in Hscan'. cbn in Hscan'.
  apply stamp_events_spec in Hst as [Hev Hrole].
  exists st, st', records. split_and!; try done. eapply Forall_impl; [done|]. by intros r [].
Qed.

(** Entries carry the sequence of an event of the manifest. *)
Lemma store_sequence s id e :
  store_ok s -> find_entry (ps_view s) id = Some e ->
  (pe_last_transition_sequence e <= Z.of_nat (length (ps_records s)))%Z.
Proof.
  unfold store_ok. intros Hv He. apply view_find in Hv as (st & Hscan & _ & Hf & _).
  rewrite Hf in He. apply (eok_sequence _ _ _ (sok_some _ _ _ (replay_ok _ _ _ Hscan) _ _ He)).
Qed.

(** ** The operations as steps of the writer *)

Inductive WriterOp : Type :=
  | Do_activate (spec : BuilderSpec)
  | Do_reconcile
  | Do_rebuild (selected : list MemoryRevisionId)
  | Do_claim (attempt_id : N)
  | Do_ready (guard : ProjectionBuildGuard) (vector : list Z) (authorized : CanonicalSourceIdentity)
  | Do_failed (guard : ProjectionBuildGuard) (category : FailureCategory)
      (authorized : CanonicalSourceIdentity).

(** What an operation meets: the outcome of its commit, the clock when it plans
    and when it commits, and the canonical snapshot. *)
Record WriterEnv := mkEnv {
  we_out : StoreOutcome;
  we_plan_now : Z;
  we_now : Z;
  we_canonical : CanonicalProjectionSnapshot;
}.

Definition run (op : WriterOp) (env : WriterEnv) (s : ProjectionStoreState)
    : result ProjectionError unit * ProjectionStoreState :=
  let quiet {A} (x : result ProjectionError A * ProjectionStoreState) :=
    (_ <-? fst x; Ok tt, snd x) in
  let (out, plan_now, now, canonical) := env in
  match op with
  | Do_activate spec => quiet (activate_builder out now s spec canonical)
  | Do_reconcile => quiet (reconcile out plan_now now s canonical)
  | Do_rebuild selected => quiet (owner_rebuild out now s selected canonical)
  | Do_claim attempt_id => quiet (claim_next out plan_now now attempt_id s canonical)
  | Do_ready guard vector authorized =>
      quiet (complete_ready out now s guard vector authorized canonical)
  | Do_failed guard category authorized =>
      quiet (complete_failed out plan_now now s guard category authorized canonical)
  end.

(** Any operations, one after the other. *)
Definition writer_step (s s' : ProjectionStoreState) : Prop :=
  exists op env, snd (run op env s) = s'.

(** Nothing happened, or the writer is poisoned and otherwise as it was. *)
Definition unmoved (s s' : ProjectionStoreState) : Prop :=
  s' = s \/ ps_poisoned s' = true /\ ps_view s' = ps_view s /\ ps_records s' = ps_records s /\
    ps_genesis_source s' = ps_genesis_source s /\ ps_root s' = ps_root s.

Definition op_cases {A} (canonical : CanonicalProjectionSnapshot) (s : ProjectionStoreState)
    (x : result ProjectionError A * ProjectionStoreState) : Prop :=
  match fst x with
  | Ok _ => snd x = s \/ exists root actor events now,
      committed s (snd x) root actor events canonical now
  | Err _ => unmoved s (snd x)
  end.

Lemma commit_op_cases out now s expected actor events canonical repairing :
  op_cases canonical s (commit out now s expected actor events canonical repairing).
Proof.
  destruct (commit _ _ _ _ _ _ _ _) as [r s'] eqn:Hc. apply commit_cases in Hc.
  unfold op_cases. destruct r; cbn; [right; eauto 10|done].
Qed.

(** A commit the operation goes on from keeps its cases. *)
Lemma commit_then_cases {A} out now s expected actor events canonical (f : string -> A) :
  op_cases canonical s (match commit_expected out now s expected actor events canonical with
              | (Err e, s') => (Err e, s')
              | (Ok root, s') => (Ok (f root), s')
              end).
Proof.
  pose proof (commit_op_cases out now s expected actor events canonical false) as Hc.
  unfold commit_expected. by destruct (commit _ _ _ _ _ _ _ _) as [[] s'].
Qed.

Lemma readable_committed s s' root actor events canonical now :
  committed s s' root actor events canonical now -> readable s' = readable s.
Proof. intros []. unfold readable. by rewrite cm_poisoned0, cm_issues0. Qed.

(** The single event of a commit, once replayed, is the entry's state. *)
Lemma committed_transition s s' root actor canonical now id kind version pseq source desired state :
  store_ok s ->
  committed s s' root actor [ProjectionTransition id kind version pseq source desired state] canonical now ->
  exists n, find_entry (ps_view s') id =
    Some (mkProjectionEntry id kind version (Z.of_nat (length (ps_records s)) + 1) n source desired state).
Proof.
  intros Hok Hc. destruct (committed_replay _ _ _ _ _ _ _ Hok Hc)
    as (st & st' & records & Hr & Hev & _ & _ & Hf' & _).
  destruct records as [|r [|]]; [done| |done]. injection Hev as Hev. cbn in Hr.
  destruct (manifest_step _ _ _) as [st1|] eqn:Hm; [|done]. simplify_eq.
  unfold manifest_step in Hm. destruct (negb _ || _ || _ || _ || _) eqn:Hhead; [done|]. breflect.
  rewrite Hev in Hm. apply transition_inv in Hm as (_ & _ & n & He). exists n.
  rewrite Hf', He, lookup_insert_eq. repeat f_equal. lia.
Qed.

Lemma transition_event_inv e desired state event :
  transition_event e desired state = Ok event ->
  event = ProjectionTransition (pe_projection_id e) (pe_projection_kind e) (pe_projection_version e + 1)
            (Some (pe_last_transition_sequence e)) (pe_source e) desired state.
Proof.
  unfold transition_event, ok_or. intros He.
  destruct (u64_checked_add _ _) as [v|] eqn:Hv; [|done]. apply u64_checked_succ in Hv as ->.
  by apply Ok_inj in He as <-.
Qed.

(** What a claim does: nothing, or it moves the first queued entry of the view
    to building and hands out the guard of that attempt. *)
Definition claimed (s s' : ProjectionStoreState) (attempt_id : N) (g : ProjectionBuildGuard) : Prop :=
  exists entry lease,
    List.find (fun e => is_queued (pe_state e)) (pv_entries (ps_view s)) = Some entry /\
    pe_projection_id (g_entry g) = pe_projection_id entry /\
    pe_source (g_entry g) = pe_source entry /\
    pe_state (g_entry g) = Building (pe_attempt_count entry + 1) attempt_id lease /\
    g_attempt g = (pe_attempt_count entry + 1)%Z /\ g_attempt_id g = attempt_id /\
    find_entry (ps_view s') (pe_projection_id (g_entry g)) = Some (g_entry g) /\ ps_poisoned s' = false.

Lemma claim_cases out plan_now now attempt_id s canonical :
  store_ok s ->
  match claim_next out plan_now now attempt_id s canonical with
  | (Ok None, s') => s' = s
  | (Ok (Some g), s') => claimed s s' attempt_id g /\
      exists root actor events, committed s s' root actor events canonical now
  | (Err _, s') => unmoved s s'
  end.
Proof.
  intros Hok. unfold claim_next, current_view, root_hash.
  destruct (readable s) as [[]|] eqn:Hread; [|by left].
  destruct (List.find _ _) as [entry|] eqn:Hfind; [|done].
  destruct (claim_event s plan_now attempt_id entry) as [[attempt event]|] eqn:Hcl; [|by left].
  unfold claim_event, ok_or in Hcl. destruct (u32_checked_add _ _) as [a|] eqn:Ha; [|done].
  destruct (u64_checked_add _ 1); [|done]. destruct (u64_checked_add _ 60000) as [lease|]; [|done].
  destruct (transition_event _ _ _) as [ev|] eqn:Hev; [|done]. apply Ok_inj in Hcl. injection Hcl as <- <-.
  apply transition_event_inv in Hev as ->. apply u32_checked_succ in Ha as ->. unfold commit_expected.
  destruct (commit _ _ _ _ _ _ _ _) as [r s'] eqn:Hc. apply commit_cases in Hc.
  destruct r as [root|e]; [|done]. rewrite (readable_committed _ _ _ _ _ _ _ Hc), Hread. cbn.
  destruct (committed_transition _ _ _ _ _ _ _ _ _ _ _ _ _ Hok Hc) as [n He]. rewrite He. cbn.
  split; [|eauto]. exists entry, lease. cbn. split_and!; try done.
  rewrite (cm_poisoned _ _ _ _ _ _ _ Hc). unfold readable in Hread. by destruct (ps_poisoned s).
Qed.

(** The plan of an operation, before its commit. *)
Tactic Notation "plan" simple_intropattern(pat) :=
  match goal with |- op_cases _ _ (match ?p with _ => _ end) => destruct p as pat end.

Lemma run_cases op env s : store_ok s -> op_cases (we_canonical env) s (run op env s).
Proof.
  intros Hok. destruct env as [out plan_now now canonical].
  assert (forall A (x : result ProjectionError A * ProjectionStoreState),
    op_cases canonical s x -> op_cases canonical s (_ <-? fst x; Ok tt, snd x)) as Hq by (by intros A [[] s']).
  destruct op; cbn [run]; apply Hq.
  - unfold activate_builder. plan [[root|[root events]]|e]; [by left| |by left].
    apply commit_op_cases.
  - unfold reconcile. assert (op_cases canonical s (reconcile_with_receipt out plan_now now s canonical)) as Hc;
      [|by destruct (reconcile_with_receipt _ _ _ _ _) as [[[]|] s']].
    unfold reconcile_with_receipt. plan [[[root rc]|[[root events] rc]]|e]; [by left| |by left].
    apply commit_then_cases with (f := fun root => (root, rc)).
  - unfold owner_rebuild. plan [[[root events] rc]|e]; [|by left].
    apply commit_then_cases with (f := fun _ => rc).
  - pose proof (claim_cases out plan_now now attempt_id s canonical Hok) as Hc.
    destruct (claim_next _ _ _ _ _ _) as [[[g|]|] s']; [|by left|done].
    destruct Hc as (_ & root & actor & events & Hc). right. eauto 10.
  - unfold complete_ready. plan [[root event]|e]; [|by left].
    apply commit_op_cases.
  - unfold complete_failed. plan [[root event]|e]; [|by left].
    apply commit_op_cases.
Qed.

Lemma unmoved_same s s' :
  unmoved s s' -> ps_view s' = ps_view s /\ ps_records s' = ps_records s /\ (store_ok s -> store_ok s').
Proof. intros [-> | (_ & Hv & Hr & Hg & Hroot)]; [done|]. unfold store_ok. by rewrite Hv, Hr, Hg, Hroot. Qed.

(** Every operation keeps the view the replay of the records, which it only
    extends, and leaves each entry as it is or moves it. *)
Lemma run_preserves op env s :
  store_ok s ->
  let s' := snd (run op env s) in
  store_ok s' /\ ps_records s `prefix_of` ps_records s' /\
  forall id e, find_entry (ps_view s) id = Some e ->
    exists e', find_entry (ps_view s') id = Some e' /\
      (e' = e \/ (Z.of_nat (length (ps_records s)) < pe_last_transition_sequence e')%Z).
Proof.
  intros Hok s'. pose proof (run_cases op env s Hok) as Hc. unfold op_cases in Hc. fold s' in Hc.
  assert (unmoved s s' \/ exists root actor events now,
    committed s s' root actor events (we_canonical env) now) as [Hu|(root & actor & events & now & Hm)].
  { destruct (fst _); [destruct Hc as [-> |]; [left; by left|by right]|by left]. }
  - apply unmoved_same in Hu as (-> & -> & Hok'). split_and!; [by apply Hok'|done|]. eauto.
  - destruct (committed_replay _ _ _ _ _ _ _ Hok Hm)
      as (st & st' & records & Hr & _ & _ & Hf & Hf' & _ & _ & Hrec).
    split_and!; [apply Hm|rewrite Hrec; by apply prefix_app_r|].
    intros id e He. rewrite Hf in He. setoid_rewrite Hf'.
    destruct (entry_moves _ _ _ _ id Hr) as [Heq|(e' & He' & Hlt)]; [rewrite Heq; eauto|eauto].
Qed.

(** Along any operations an entry is as it was or was moved by a later event. *)
Lemma steps_preserve s s' :
  store_ok s -> rtc writer_step s s' ->
  store_ok s' /\ ps_records s `prefix_of` ps_records s' /\
  forall id e, find_entry (ps_view s) id = Some e ->
    exists e', find_entry (ps_view s') id = Some e' /\
      (e' = e \/ (Z.of_nat (length (ps_records s)) < pe_last_transition_sequence e')%Z).
Proof.
  intros Hok Hr. induction Hr as [s|s s1 s2 (op & env & <-) Hr IH].
  - split_and!; [done..|]. eauto.
  - destruct (run_preserves op env s Hok) as (Hok1 & Hp1 & He1).
    destruct (IH Hok1) as (Hok2 & Hp2 & He2). split_and!; [done|by etrans|].
    intros id e He. destruct (He1 id e He) as (e1 & Hf1 & Hm1).
    destruct (He2 id e1 Hf1) as (e2 & Hf2 & Hm2). exists e2. split; [done|].
    destruct Hm2 as [-> |Hlt]; [done|]. right. apply prefix_length in Hp1. lia.
Qed.

(** ** Guards *)

(** The operation reports the attempt of the guard [g]. *)
Definition completes (op : WriterOp) (g : ProjectionBuildGuard) : Prop :=
  match op with Do_ready g' _ _ | Do_failed g' _ _ => g' = g | _ => False end.

Lemma guard_matches_sequence g e :
  guard_matches g e = true -> pe_last_transition_sequence e = pe_last_transition_sequence (g_entry g).
Proof. unfold guard_matches. intros Hm. breflect. lia. Qed.

Lemma guarded_builder_inv s g x :
  current_guarded_builder s g = Ok x ->
  guard_is_current s g = Ok true /\ ps_poisoned s = false /\
  exists e, find_entry (ps_view s) (pe_projection_id (g_entry g)) = Some e /\ guard_matches g e = true.
Proof.
  unfold current_guarded_builder, guard_is_current, ok_or.
  destruct (ps_poisoned s); [done|]. destruct (find_entry _ _) as [e|]; [|done].
  destruct (guard_matches g e) eqn:Hm; [|done]. intros _. eauto.
Qed.

(** A completion commits one transition of the guard's entry, or nothing. *)
Lemma completion_cases op env s g :
  completes op g ->
  (exists e, run op env s = (Err e, s)) \/
  exists x root kind version pseq source desired state,
    current_guarded_builder s g = Ok x /\
    run op env s =
      (let c := commit (we_out env) (we_now env) s root Actor_Worker
         [ProjectionTransition (pe_projection_id (g_entry g)) kind version pseq source desired state]
         (we_canonical env) false in (_ <-? fst c; Ok tt, snd c)).
Proof.
  destruct env as [out plan_now now canonical].
  destruct op; intros Hg; try done; cbn in Hg; subst guard; cbn [run we_out we_now we_canonical].
  - unfold complete_ready. destruct (negb _); [left; eauto|].
    destruct (current_guarded_builder s g) as [x|] eqn:Hx; [|left; eauto].
    destruct (ready_event _ _ _) as [ev|] eqn:Hev; [|left; eauto]. unfold ready_event in Hev.
    destruct (artifact_bytes_and_hash _); [|done]. apply transition_event_inv in Hev as ->. right.
    do 8 eexists. done.
  - unfold complete_failed. destruct (negb _); [left; eauto|].
    destruct (current_guarded_builder s g) as [x|] eqn:Hx; [|left; eauto].
    destruct (failed_event _ _ _ _) as [ev|] eqn:Hev; [|left; eauto]. unfold failed_event in Hev.
    destruct (if retryable _ then _ else _); [|done]. apply transition_event_inv in Hev as ->. right.
    do 8 eexists. done.
Qed.

(** Once the guard's entry has moved, the guard is good for nothing. *)
Lemma moved_guard op env s g e :
  find_entry (ps_view s) (pe_projection_id (g_entry g)) = Some e ->
  (pe_last_transition_sequence (g_entry g) < pe_last_transition_sequence e)%Z ->
  guard_is_current s g <> Ok true /\ (completes op g -> exists err, run op env s = (Err err, s)).
Proof.
  intros He Hlt. assert (guard_is_current s g <> Ok true) as Hg.
  { unfold guard_is_current. rewrite He. destruct (ps_poisoned s); [done|]. intros Heq.
    apply Ok_inj, guard_matches_sequence in Heq. lia. }
  split; [done|]. intros Hc. destruct (completion_cases op env s g Hc) as [|(x&?&?&?&?&?&?&?&Hx&_)];
    [done|]. by destruct (guarded_builder_inv _ _ _ Hx).
Qed.

(** A completion succeeds only with a current guard, which it uses up. *)
Lemma completion_uses_guard op env s g s' :
  store_ok s -> completes op g -> run op env s = (Ok tt, s') ->
  guard_is_current s g = Ok true /\ guard_is_current s' g = Ok false.
Proof.
  intros Hok Hc Hr. destruct (completion_cases op env s g Hc)
    as [[e He]|(x&root&?&?&?&?&?&?&Hx&Hrun)]; [by rewrite He in Hr|]. rewrite Hr in Hrun.
  apply guarded_builder_inv in Hx as (Hcur & Hp & e & He & Hm). split; [done|].
  destruct (commit _ _ _ _ _ _ _ _) as [[r|] s1] eqn:Hcm; [|done]. injection Hrun as ->.
  apply commit_cases in Hcm. destruct (committed_transition _ _ _ _ _ _ _ _ _ _ _ _ _ Hok Hcm) as [n He'].
  unfold guard_is_current. rewrite (cm_poisoned _ _ _ _ _ _ _ Hcm), Hp, He'. f_equal.
  apply not_true_iff_false. intros Hm'. apply guard_matches_sequence in Hm, Hm'. cbn in Hm'.
  pose proof (store_sequence _ _ _ Hok He). lia.
Qed.

(** C16: after any operations on the projection writer, the view is the replay
    of its records, and an operation only appends to them; one that fails
    leaves view and records as they were, and one that changes them has
    published a view the canonical ledger accepts. *)
Theorem writer_invariant s s1 op env r s' :
  store_ok s -> rtc writer_step s s1 -> run op env s1 = (r, s') ->
  store_ok s' /\ ps_records s `prefix_of` ps_records s1 /\ ps_records s1 `prefix_of` ps_records s' /\
  match r with
  | Err _ => ps_view s' = ps_view s1 /\ ps_records s' = ps_records s1
  | Ok _ => s' = s1 \/ validate_candidate (ps_view s') (ps_records s') (we_canonical env) = Ok tt
  end.
Proof.
  intros Hok Hs Hr. destruct (steps_preserve _ _ Hok Hs) as (Hok1 & Hp1 & _).
  destruct (run_preserves op env s1 Hok1) as (Hok2 & Hp2 & _).
  pose proof (run_cases op env s1 Hok1) as Hc. unfold op_cases in Hc. rewrite Hr in *. cbn in *.
  split_and!; [done..|]. destruct r as [[]|e].
  - destruct Hc as [-> |(root & actor & events & now & Hm)]; [by left|right; apply Hm].
  - by apply unmoved_same in Hc as (? & ? & _).
Qed.

(** The guard a claim hands out is current; a completion succeeds only
    while it is, and uses it up; once it is not current, whatever made it so, it
    never completes anything again, and the refused completion changes nothing. *)
Lemma claim_completes_once out plan_now now attempt_id s canonical g s1 :
  store_ok s -> claim_next out plan_now now attempt_id s canonical = (Ok (Some g), s1) ->
  guard_is_current s1 g = Ok true /\
  (forall s2 op env s3, rtc writer_step s1 s2 -> completes op g -> run op env s2 = (Ok tt, s3) ->
     guard_is_current s2 g = Ok true /\ guard_is_current s3 g = Ok false) /\
  (forall s2 s3 op env, rtc writer_step s1 s2 -> guard_is_current s2 g = Ok false ->
     rtc writer_step s2 s3 -> completes op g -> exists e, run op env s3 = (Err e, s3)).
Proof.
  intros Hok Hcl. pose proof (claim_cases out plan_now now attempt_id s canonical Hok) as Hc.
  rewrite Hcl in Hc. destruct Hc as [(entry & lease & _ & _ & _ & Hst & Ha & Haid & Hf & Hp) Hcm].
  destruct Hcm as (root & actor & events & Hcm). pose proof (cm_ok _ _ _ _ _ _ _ Hcm) as Hok1.
  assert (guard_matches g (g_entry g) = true) as Hm.
  { unfold guard_matches, str_eqb. rewrite Hst, Ha, Haid. rewrite !Z.eqb_refl, N.eqb_refl.
    by rewrite !bool_decide_true. }
  split_and!.
  - unfold guard_is_current. by rewrite Hp, Hf, Hm.
  - intros s2 op env s3 Hr Hco Hrun. destruct (steps_preserve _ _ Hok1 Hr) as (Hok2 & _).
    by apply (completion_uses_guard op env).
  - intros s2 s3 op env Hr Hcur Hr' Hco.
    destruct (steps_preserve _ _ Hok1 Hr) as (Hok2 & _ & He2). destruct (He2 _ _ Hf) as (e2 & Hf2 & Hmv).
    assert (pe_last_transition_sequence (g_entry g) < pe_last_transition_sequence e2)%Z as Hlt.
    { destruct Hmv as [-> |Hlt].
      - unfold guard_is_current in Hcur. rewrite Hf2, Hm in Hcur. by destruct (ps_poisoned s2).
      - pose proof (store_sequence _ _ _ Hok1 Hf). lia. }
    destruct (steps_preserve _ _ Hok2 Hr') as (Hok3 & _ & He3).
    destruct (He3 _ _ Hf2) as (e3 & Hf3 & Hmv3). apply (moved_guard op env s3 g e3 Hf3); [|done].
    destruct Hmv3 as [-> |]; [done|]. pose proof (store_sequence _ _ _ Hok2 Hf2). lia.
Qed.

(** ** Reconciliation *)

(** An event planned on the view is a step of the machine from the state the
    view shows, whatever is committed with it. *)
Lemma committed_event s s' root actor events canonical now id kind version source desired state e :
  store_ok s -> committed s s' root actor events canonical now ->
  find_entry (ps_view s) id = Some e ->
  ProjectionTransition id kind version (Some (pe_last_transition_sequence e)) source desired state ∈ events ->
  exists t, lifecycle (role_id actor) t (Some (pe_state e)) state.
Proof.
  intros Hok Hc He Hin. pose proof (store_sequence _ _ _ Hok He) as Hseq.
  destruct (committed_replay _ _ _ _ _ _ _ Hok Hc) as (st & st' & records & Hr & <- & Hrole & Hf & _).
  apply list_elem_of_fmap in Hin as (r & Hev & Hin). apply list_elem_of_split in Hin as (l1 & l2 & ->).
  rewrite Hf in He. rewrite try_for_app in Hr.
  destruct (try_for _ _ st l1) as [st1|] eqn:Hl1; [|done]. cbn in Hr.
  destruct (manifest_step _ st1 r) as [st2|] eqn:Hm; [|done].
  unfold manifest_step in Hm. destruct (negb _ || _ || _ || _ || _) eqn:Hhead; [done|].
  rewrite <-Hev in Hm. apply transition_inv in Hm as (Hlast & Hlc & _). exists (mr_committed_at r).
  apply Forall_app in Hrole as [_ Hrole]. apply Forall_cons in Hrole as [Hrole _]. rewrite Hrole in Hlc.
  destruct (entry_moves _ _ _ _ id Hl1) as [Heq|(e1 & He1 & Hlt)].
  - by rewrite Heq, He in Hlc.
  - rewrite He1 in Hlast. cbn in Hlast. simplify_eq. lia.
Qed.

(** Reconciliation has no step for this entry that the replay accepts. *)
Definition stuck (e : ProjectionEntry) (expected : option AbsentReason) : Prop :=
  match pe_state e, expected with
  | AbsentByPolicy reason, Some reason' => reason <> reason'
  | Stale _ _, None => True
  | _, _ => False
  end.

Lemma stuck_state plan_now e expected :
  stuck e expected ->
  exists state, reconcile_state plan_now (Some (pe_state e)) expected = Some state /\
    forall t, ~ lifecycle PROJECTION_WORKER_ROLE t (Some (pe_state e)) state.
Proof.
  unfold stuck, reconcile_state. destruct (pe_state e) as [r| | | | |r d], expected as [x|]; try done.
  - intros Hne. rewrite bool_decide_false by done. eexists. split; [done|]. intros t Hl.
    inversion Hl; simplify_eq/=.
  - intros _. eexists. split; [done|]. intros t Hl. inversion Hl; simplify_eq/=.
Qed.

(** The transition reconciliation plans for a known projection. *)
Lemma reconcile_plans plan_now view canonical events revision id e state :
  reconcile_events plan_now view canonical = Ok events -> revision ∈ cps_revisions canonical ->
  projection_id (r_revision_id revision) = Ok id -> find_entry view id = Some e ->
  reconcile_state plan_now (Some (pe_state e))
    (expected_absent_reason revision (cps_revisions canonical)) = Some state ->
  exists kind version source desired,
    ProjectionTransition id kind version (Some (pe_last_transition_sequence e)) source desired state ∈ events.
Proof.
  intros Hev Hin Hid He Hnext. unfold reconcile_events, ok_or in Hev.
  destruct (embedding_builder _) as [b|]; [|done].
  destruct (try_map _ _) as [evs|] eqn:Hmap; [|done]. apply Ok_inj in Hev as <-.
  apply try_map_Ok_Forall2 in Hmap. apply list_elem_of_lookup_1 in Hin as [i Hi].
  destruct (Forall2_lookup_l _ _ _ _ _ Hmap Hi) as (l & Hl & Hr). unfold reconcile_revision in Hr.
  rewrite Hid, He in Hr. change (pe_state <$> Some e) with (Some (pe_state e)) in Hr.
  rewrite Hnext in Hr. destruct (transition_event _ _ _) as [ev|] eqn:Hte; [|done].
  apply Ok_inj in Hr as <-. apply transition_event_inv in Hte.
  apply find_some in He as [_ He]. apply N.eqb_eq in He. rewrite He in Hte.
  do 4 eexists. rewrite <-Hte. apply elem_of_app. left. apply list_elem_of_In, in_concat. exists [ev].
  split; [by apply list_elem_of_In, (list_elem_of_lookup_2 _ i)|by left].
Qed.

(** A revision whose projection is absent for a reason that has changed, or
    stale while it is eligible, blocks the reconciliation of the whole store:
    the transition planned for it is one the replay refuses, so the operation
    fails and changes nothing. *)
Lemma reconcile_blocked out plan_now now s canonical revision id e :
  store_ok s -> revision ∈ cps_revisions canonical ->
  projection_id (r_revision_id revision) = Ok id -> find_entry (ps_view s) id = Some e ->
  stuck e (expected_absent_reason revision (cps_revisions canonical)) ->
  exists err, reconcile out plan_now now s canonical = (Err err, s).
Proof.
  intros Hok Hin Hid He Hst. destruct (stuck_state plan_now _ _ Hst) as (state & Hnext & Hno).
  unfold reconcile, reconcile_with_receipt, current_view, root_hash.
  destruct (readable s) as [[]|]; [|eauto].
  destruct (reconcile_events plan_now (ps_view s) canonical) as [events|] eqn:Hev; [|eauto].
  destruct (reconcile_plans _ _ _ _ _ _ _ _ Hev Hin Hid He Hnext)
    as (kind & version & source & desired & Hmem).
  destruct events as [|ev events]; [by apply not_elem_of_nil in Hmem|].
  destruct (planned_receipt _ _ _) as [receipt|]; [|eauto]. unfold commit_expected.
  destruct (commit_candidate now s (ps_root_hash s) Actor_Worker (ev :: events) canonical false)
    as [[[[recs v] gen] at_]|err] eqn:Hcand; [|unfold commit; rewrite Hcand; eauto].
  exfalso. destruct (commit (Store_Published "" "" "") now s (ps_root_hash s) Actor_Worker (ev :: events)
    canonical false) as [r s'] eqn:Hc.
  assert (exists root, r = Ok root) as [root ->]
    by (unfold commit in Hc; rewrite Hcand in Hc; simplify_eq; eauto).
  apply commit_cases in Hc.
  destruct (committed_event _ _ _ _ _ _ _ _ _ _ _ _ _ _ Hok Hc He Hmem) as [t Hl]. by apply (Hno t).
Qed.

(** The state reconciliation wants for a revision. *)
Definition classified (e : ProjectionEntry) (expected : option AbsentReason) : Prop :=
  match expected with
  | Some reason => pe_state e = AbsentByPolicy reason
  | None => is_absent (pe_state e) = false
  end.

Lemma find_unique {A} (key : A -> string) l x :
  NoDup (key <$> l) -> x ∈ l -> List.find (fun y => str_eqb (key y) (key x)) l = Some x.
Proof.
  induction l as [|y l IH]; intros Hnd Hx; [by apply not_elem_of_nil in Hx|].
  cbn in *. apply NoDup_cons in Hnd as [Hy Hnd]. unfold str_eqb at 1. case_bool_decide as Heq.
  - apply elem_of_cons in Hx as [-> |Hx]; [done|]. destruct Hy. rewrite Heq.
    by apply list_elem_of_fmap_2.
  - apply elem_of_cons in Hx as [-> |Hx]; [done|by apply IH].
Qed.

(** What the check of a candidate asks of the snapshot. *)
Lemma candidate_inv view records canonical :
  validate_candidate view records canonical = Ok tt ->
  (forall r id kind version pseq source desired state, r ∈ records ->
     mr_event r = ProjectionTransition id kind version pseq source desired state ->
     validate_source_against_canonical source canonical = Ok tt) /\
  (forall r, r ∈ cps_revisions canonical ->
     (r_sequence r <= wm_revision_watermark (pv_reconciled_source view))%Z ->
     exists e, e ∈ pv_entries view /\ src_revision_id (pe_source e) = r_revision_id r) /\
  (forall e, e ∈ pv_entries view ->
     exists n, candidate_entry_check (pv_reconciled_source view) canonical n tt e = Ok tt).
Proof.
  unfold validate_candidate. intros Hv.
  destruct (try_for _ 0 tt records) as [[]|] eqn:Hrec; [|done].
  destruct (negb (existsb _ _)) in Hv; [done|]. destruct (_ || _) eqn:Hcov in Hv; [done|].
  destruct (try_for _ 0 tt (pv_entries view)) as [[]|] eqn:Hent; [|done].
  apply orb_false_iff in Hcov as [_ Hcov]. split_and!.
  - intros r id kind version pseq source desired state Hr Hev.
    destruct (try_for_each _ _ _ _ Hrec Hr) as [n Hn]. by rewrite Hev in Hn.
  - intros r Hr Hle. destruct (existsb (fun e => str_eqb (src_revision_id (pe_source e))
      (r_revision_id r)) (pv_entries view)) eqn:Hex.
    + apply existsb_exists in Hex as (e & He & Heq). breflect. exists e. by rewrite list_elem_of_In.
    + exfalso. apply not_true_iff_false in Hcov. apply Hcov, existsb_exists. exists r.
      rewrite Hex. split; [|done]. apply filter_In. split; [by apply list_elem_of_In|].
      by apply Z.leb_le.
  - intros e He. by eapply try_for_each.
Qed.

(** Every entry's source was recorded. *)
Lemma entry_recorded genesis records st id e :
  try_for manifest_step 0 (genesis_scan genesis) records = Ok st -> entries st !! id = Some e ->
  exists r kind version pseq, r ∈ records /\
    mr_event r = ProjectionTransition id kind version pseq (pe_source e)
                   (pe_desired_builder_spec_hash e) (pe_state e).
Proof.
  intros Hs. revert id e. refine (try_for_inv _ (fun pre st => forall id e, entries st !! id = Some e ->
    exists r kind version pseq, r ∈ pre /\ mr_event r = ProjectionTransition id kind version pseq
      (pe_source e) (pe_desired_builder_spec_hash e) (pe_state e)) _ _ _ _ _ Hs).
  - intros id e He. cbn in He. by rewrite lookup_empty in He.
  - intros pre t r t' IH Hstep id e He. destruct (entry_step _ _ _ _ id Hstep) as [Heq|(e' & He' & _ & Hev)].
    + rewrite Heq in He. destruct (IH _ _ He) as (r' & k & v & q & Hr' & Hev).
      exists r', k, v, q. split; [set_solver|done].
    + rewrite He in He'. injection He' as ->. destruct Hev as (k & v & q & Hev).
      exists r, k, v, q. split; [set_solver|done].
Qed.

Section snapshot.
Context (canonical : CanonicalProjectionSnapshot).
Let target := watermark (cps_root_hash canonical) (cps_root canonical).

(** What a snapshot of the ledger satisfies: revisions have distinct
    identifiers and lie below the root's watermark. *)
Definition snapshot_ok : Prop :=
  NoDup (r_revision_id <$> cps_revisions canonical) /\
  forall r, r ∈ cps_revisions canonical ->
    (r_sequence r <= root_revision_watermark (cps_root canonical))%Z.

(** The checks of a commit that is reconciled with the snapshot classify all
    its revisions. *)
Lemma candidate_classifies s revision :
  store_ok s -> snapshot_ok -> pv_reconciled_source (ps_view s) = target ->
  validate_candidate (ps_view s) (ps_records s) canonical = Ok tt ->
  revision ∈ cps_revisions canonical ->
  exists id e, projection_id (r_revision_id revision) = Ok id /\
    find_entry (ps_view s) id = Some e /\
    classified e (expected_absent_reason revision (cps_revisions canonical)).
Proof.
  intros Hok [Hnd Hseq] Ht Hv Hin. destruct (candidate_inv _ _ _ Hv) as (Hsrc & Hcov & Hent).
  rewrite Ht in Hcov, Hent. destruct (Hcov revision Hin (Hseq _ Hin)) as (e & He & Hid).
  destruct (view_find _ _ _ _ Hok) as (st & Hst & _ & Hf & Hfe). pose proof (Hfe e He) as Hfind.
  pose proof Hfind as Hst_e. rewrite Hf in Hst_e.
  exists (pe_projection_id e), e. split_and!; [|done|].
  { rewrite <-Hid. apply (eok_source _ _ _ (sok_some _ _ _ (replay_ok _ _ _ Hst) _ _ Hst_e)). }
  destruct (entry_recorded _ _ _ _ _ Hst Hst_e) as (r & k & v & q & Hr & Hev).
  specialize (Hsrc _ _ _ _ _ _ _ _ Hr Hev). pose proof (find_unique _ _ _ Hnd Hin) as Hu.
  unfold validate_source_against_canonical in Hsrc. rewrite Hid, Hu in Hsrc. cbn in Hsrc.
  destruct (_ || _) eqn:Hb in Hsrc; [done|]. breflect.
  destruct (Hent _ He) as [n Hn]. unfold candidate_entry_check in Hn. rewrite Hid, Hu in Hn. cbn in Hn.
  rewrite (lfilter_all (fun c => r_sequence c <=? root_revision_watermark (cps_root canonical))%Z) in Hn
    by (intros x Hx; by apply Z.leb_le, Hseq).
  pose proof (Hseq _ Hin). destruct (_ <? _)%Z eqn:Hlt in Hn; [breflect; lia|].
  unfold classified. destruct (expected_absent_reason _ _) as [x|], (pe_state e); cbn in *; try done.
  destruct (bool_decide _) eqn:Hx in Hn; [|done]. by breflect; subst.
Qed.

(** An empty plan means everything is classified already. *)
Lemma empty_plan_classifies plan_now view revision :
  reconcile_events plan_now view canonical = Ok [] -> revision ∈ cps_revisions canonical ->
  pv_reconciled_source view = target /\
  exists id e, projection_id (r_revision_id revision) = Ok id /\ find_entry view id = Some e /\
    classified e (expected_absent_reason revision (cps_revisions canonical)).
Proof.
  unfold reconcile_events, ok_or. intros Hev Hin. destruct (embedding_builder _) as [b|]; [|done].
  destruct (try_map _ _) as [evs|] eqn:Hmap; [|done]. apply Ok_inj, app_nil in Hev as [Hc Ht].
  split; [destruct (bool_decide _) eqn:Hb in Ht; [by breflect|done]|].
  apply try_map_Ok_Forall2 in Hmap. apply list_elem_of_lookup_1 in Hin as [i Hi].
  destruct (Forall2_lookup_l _ _ _ _ _ Hmap Hi) as (l & Hl & Hr).
  assert (l = []) as ->.
  { destruct l as [|x l]; [done|]. exfalso. apply (in_nil (a := x)). rewrite <-Hc.
    apply in_concat. exists (x :: l). split; [by apply list_elem_of_In, (list_elem_of_lookup_2 _ i)|by left]. }
  unfold reconcile_revision in Hr. destruct (projection_id _) as [id|]; [|done]. exists id.
  destruct (reconcile_state _ _ _) as [state|] eqn:Hs.
  { destruct (match find_entry view id with Some _ => _ | None => _ end) in Hr; done. }
  destruct (find_entry view id) as [e|]; cbn in Hs;
    [|by destruct (expected_absent_reason _ _)]. exists e. split_and!; [done..|]. unfold classified.
  destruct (pe_state e) as [| | | |? ? ? [] []|], (expected_absent_reason _ _); try done. cbn in Hs.
  destruct (bool_decide _) eqn:Hb in Hs; [|done]. by breflect; subst.
Qed.

Definition is_transition (ev : ManifestEvent) : Prop :=
  match ev with ProjectionTransition _ _ _ _ _ _ _ => True | _ => False end.

Lemma transitions_keep_source rs n st st' :
  try_for manifest_step n st rs = Ok st' -> Forall (fun r => is_transition (mr_event r)) rs ->
  reconciled st' = reconciled st.
Proof.
  revert n st. induction rs as [|r rs IH]; intros n st Hr Hall; cbn in Hr; [by simplify_eq|].
  apply Forall_cons in Hall as [Hr0 Hall]. destruct (manifest_step n st r) as [st1|] eqn:Hm; [|done].
  rewrite (IH _ _ Hr Hall). unfold manifest_step in Hm. destruct (_ || _) in Hm; [done|].
  destruct (mr_event r); try done. unfold projection_transition in Hm. ok_inv Hm. by subst st1.
Qed.

(** The events of a reconciliation, replayed, advance it to the snapshot. *)
Lemma plan_advances plan_now view events records n st st' :
  reconcile_events plan_now view canonical = Ok events -> mr_event <$> records = events ->
  try_for manifest_step n st records = Ok st' -> reconciled st = pv_reconciled_source view ->
  reconciled st' = target.
Proof.
  unfold reconcile_events, ok_or. intros Hev Hrec Hr Hst. destruct (embedding_builder _) as [b|]; [|done].
  destruct (try_map _ _) as [evs|] eqn:Hmap; [|done]. apply Ok_inj in Hev. rewrite <-Hrec in Hev.
  assert (Forall is_transition (concat evs)) as Hall.
  { apply Forall_concat, Forall_forall. intros l Hl. apply list_elem_of_lookup_1 in Hl as [i Hi].
    apply try_map_Ok_Forall2 in Hmap. destruct (Forall2_lookup_r _ _ _ _ _ Hmap Hi) as (x & _ & Hx).
    unfold reconcile_revision in Hx. destruct (projection_id _) as [id|]; [|done].
    destruct (reconcile_state _ _ _); [|by apply Ok_inj in Hx as <-].
    destruct (find_entry view id) as [e|]; [|apply Ok_inj in Hx as <-; by repeat constructor].
    destruct (transition_event _ _ _) as [ev|] eqn:Hte; [|done]. apply transition_event_inv in Hte as ->.
    apply Ok_inj in Hx as <-. by repeat constructor. }
  symmetry in Hev. apply fmap_app_inv in Hev as (l1 & l2 & H1 & H2 & ->). rewrite H1 in Hall.
  rewrite Forall_fmap in Hall. rewrite try_for_app in Hr.
  destruct (try_for _ n st l1) as [st1|] eqn:Hl1; [|done].
  apply transitions_keep_source in Hl1; [|by eapply Forall_impl]. destruct (bool_decide _) eqn:Hb in H2; breflect.
  - destruct l2; [|done]. cbn in Hr. apply Ok_inj in Hr as <-. by rewrite Hl1, Hst.
  - destruct l2 as [|r [|]]; [done| |done]. injection H2 as H2. cbn in Hr.
    destruct (manifest_step _ st1 r) as [st2|] eqn:Hm; [|done]. apply Ok_inj in Hr as <-.
    unfold manifest_step in Hm. destruct (_ || _) in Hm; [done|]. rewrite <-H2 in Hm.
    unfold reconciliation_advanced in Hm. ok_inv Hm. by subst st2.
Qed.
End snapshot.

(** A reconciliation that succeeds leaves every revision of the canonical
    snapshot classified: its projection is in the view, absent exactly when the
    policy says so and for the reason it gives, and the view records the
    snapshot as reconciled. *)
Lemma reconcile_classifies out plan_now now s canonical root s' revision :
  store_ok s -> snapshot_ok canonical -> reconcile out plan_now now s canonical = (Ok root, s') ->
  revision ∈ cps_revisions canonical ->
  pv_reconciled_source (ps_view s') = watermark (cps_root_hash canonical) (cps_root canonical) /\
  exists id e, projection_id (r_revision_id revision) = Ok id /\ find_entry (ps_view s') id = Some e /\
    classified e (expected_absent_reason revision (cps_revisions canonical)).
Proof.
  intros Hok Hsnap Hr Hin. unfold reconcile, reconcile_with_receipt, current_view, root_hash in Hr.
  destruct (readable s) as [[]|]; [|done].
  destruct (reconcile_events plan_now (ps_view s) canonical) as [events|] eqn:Hev; [|done].
  destruct events as [|ev events]; [injection Hr as <- <-; by eapply empty_plan_classifies|].
  destruct (planned_receipt _ _ _) as [receipt|]; [|done]. unfold commit_expected in Hr.
  destruct (commit _ _ _ _ _ _ _ _) as [[r|] s1] eqn:Hc; [|done]. injection Hr as <- <-.
  apply commit_cases in Hc. destruct (committed_replay _ _ _ _ _ _ _ Hok Hc)
    as (st & st' & records & Hrep & Hrec & _ & _ & _ & Hsrc & Hsrc' & _).
  rewrite (plan_advances _ _ _ _ _ _ _ _ Hev Hrec Hrep Hsrc) in Hsrc'. symmetry in Hsrc'.
  split; [done|]. apply candidate_classifies; try done; apply Hc.
Qed.
End props.

(** ** The ledger's side *)

(** Every snapshot a loaded ledger hands out is one reconciliation can rely
    on. *)
Lemma ledger_snapshot_ok `{LedgerCodec} st S snap :
  load_state st = Ok S -> projection_snapshot st S = Some (Ok snap) -> snapshot_ok snap.
Proof.
  unfold load_state. destruct (load_pointer st) as [ptr|]; [|done].
  intros (root & view & revs & pols & rels & Hh & ->)%load_root_sound Hs.
  unfold projection_snapshot, projection_snapshot_from_state in Hs.
  cbn [ls_poisoned loaded_state ls_root_hash ls_root] in Hs.
  destruct (walk_ancestors _ _ _ _) as [[chain|]|]; [|done..]. cbn [mbind option_bind] in Hs.
  unfold snapshot_of_chain, ok_or in Hs. destruct (head chain) as [x|]; [|done]. simplify_eq.
  pose proof (h_revision_log Hh) as Hlog. split; cbn; [by apply revision_log_NoDup|].
  intros r Hr. apply list_elem_of_lookup_1 in Hr as [i Hi].
  pose proof (h_revisions Hh) as Hl. apply load_segment_chain_iff in Hl as [_ ->].
  pose proof (take_drop_middle _ _ _ Hi) as Hsplit.
  rewrite (rok_sequence _ _ (Hlog _ _ _ (eq_sym Hsplit))), length_take.
  apply lookup_lt_Some in Hi. lia.
Qed.

(** ** A concrete writer

    A builder is activated on an empty manifest, two revisions are reconciled,
    one eligible and one of an unsupported tier, and the eligible one is claimed
    and fails. *)

Definition plan_platform : Platform := {|
  bytes := string;
  octets := fun b => b;
  sha256_hex := fun _ => a_hash;
  uuid_parse := fun s => match s with EmptyString => None | String c _ => Some (byte_of c) end;
  uuid_hyphenated := fun n => String (Ascii.ascii_of_N n) EmptyString;
  uuid_new_v5 := fun _ name =>
    match String.get (String.length name - 1) name with Some c => byte_of c | None => 1%N end |}.

#[local] Existing Instance plan_platform.
#[local] Instance plan_specs : Serde BuilderSpec := {|
  to_vec := fun b => Some (bs_model_id b); from_slice := fun _ => None |}.
#[local] Instance plan_artifacts : Serde EmbeddingArtifact := {|
  to_vec := fun a => Some (ea_schema a); from_slice := fun _ => None |}.

Definition plan_root (n : Z) : LedgerRoot := {|
  root_schema := ROOT_SCHEMA; root_generation := n; root_previous_root_hash := None;
  root_revision_head := None; root_revision_watermark := n; root_policy_head := None;
  root_policy_watermark := 0; root_relation_head := None; root_relation_watermark := 0;
  root_current_view_hash := a_hash; root_migration_manifest_hash := None; root_committed_at := 1;
  root_committed_by_role := "alice" |}.

Definition plan_revision (n : Z) (id : string) (parent : option string) (tier : MemoryTier)
    : CanonicalRevision := {|
  r_schema := REVISION_SCHEMA; r_sequence := n; r_memory_id := "m"; r_revision_id := id;
  r_parent_revision_id := parent; r_content := Text "t"; r_content_hash := a_hash; r_tags := [];
  r_memory_type := Type_Semantic; r_cognitive_tier := tier; r_deleted_at := None; r_committed_at := 1;
  r_committed_by_role := "alice" |}.

Definition plan_snapshot (revisions : list CanonicalRevision) : CanonicalProjectionSnapshot :=
  let n := Z.of_nat (length revisions) in {|
  cps_genesis_root_hash := a_hash; cps_genesis_root := plan_root 0; cps_root_hash := a_hash;
  cps_root := plan_root n;
  cps_root_chain := (fun i => (a_hash, plan_root (Z.of_nat i))) <$> seq 0 (S (length revisions));
  cps_revisions := revisions |}.

(** The second revision of [plan_two] is of a tier without embeddings; it is
    updated in [plan_three]. *)
Definition plan_two : list CanonicalRevision :=
  [plan_revision 1 "q" None Tier_Working; plan_revision 2 "r" None Tier_Procedural].
Definition plan_three : list CanonicalRevision :=
  plan_two ++ [plan_revision 3 "s" (Some "r") Tier_Procedural].

Definition plan_env (revisions : list CanonicalRevision) (now : Z) : WriterEnv :=
  mkEnv (Store_Published a_hash a_hash a_hash) now now (plan_snapshot revisions).

Definition plan_start : ProjectionStoreState :=
  let source := watermark a_hash (plan_root 0) in {|
  ps_poisoned := false; ps_root_hash := a_hash;
  ps_root := {| pr_schema := MANIFEST_ROOT_SCHEMA; pr_generation := 0; pr_previous_root_hash := None;
                pr_manifest_head := None; pr_event_watermark := 0; pr_current_view_hash := a_hash;
                pr_reconciled_source := source; pr_committed_at := 1; pr_committed_by_role := "alice" |};
  ps_view := {| pv_schema := PROJECTION_VIEW_SCHEMA; pv_generation := 0; pv_event_watermark := 0;
                pv_reconciled_source := source; pv_active_builder_specs := []; pv_entries := [] |};
  ps_records := []; ps_genesis_source := source; ps_artifact_issues := [] |}.

Definition plan_after (ops : list (WriterOp * WriterEnv)) (s : ProjectionStoreState)
    : ProjectionStoreState := foldl (fun s x => snd (run (fst x) (snd x) s)) s ops.

Definition plan_prepared : ProjectionStoreState :=
  plan_after [(Do_activate toy_spec, plan_env [] 10)] plan_start.
Definition plan_reconciled : ProjectionStoreState :=
  plan_after [(Do_reconcile, plan_env plan_two 20)] plan_prepared.

Lemma plan_ran ops s : rtc writer_step s (plan_after ops s).
Proof.
  revert s. induction ops as [|[op env] ops IH]; intros s; [done|]. cbn. etrans; [|apply IH].
  apply rtc_once. by exists op, env.
Qed.

Lemma plan_start_ok : store_ok plan_start.
Proof. vm_compute. reflexivity. Qed.

Lemma plan_two_ok : snapshot_ok (plan_snapshot plan_two).
Proof.
  split; [|by apply Forall_forall; repeat constructor].
  apply (bool_decide_unpack _). vm_compute. exact I.
Qed.

Lemma plan_reconciled_ran : rtc writer_step plan_start plan_reconciled.
Proof. etrans; apply plan_ran. Qed.

Lemma plan_reconciled_ok : store_ok plan_reconciled.
Proof. by destruct (steps_preserve _ _ plan_start_ok plan_reconciled_ran). Qed.

Definition plan_claim := claim_next (Store_Published a_hash a_hash a_hash) 30 30 7 plan_reconciled
  (plan_snapshot plan_two).
Definition plan_claimed : ProjectionStoreState := snd plan_claim.

Definition plan_guard : ProjectionBuildGuard := {|
  g_entry := {| pe_projection_id := 113; pe_projection_kind := MemoryEmbedding;
                pe_projection_version := 2; pe_last_transition_sequence := 5; pe_attempt_count := 1;
                pe_source := canonical_source (plan_revision 1 "q" None Tier_Working);
                pe_desired_builder_spec_hash := a_hash; pe_state := Building 1 7 60030 |};
  g_attempt := 1; g_attempt_id := 7; g_claim_event_watermark := 5;
  g_canonical_watermark := watermark a_hash (plan_root 2) |}.

Lemma plan_claim_ok : plan_claim = (Ok (Some plan_guard), plan_claimed).
Proof.
  assert (fst plan_claim = Ok (Some plan_guard)) as <- by (vm_compute; reflexivity).
  apply surjective_pairing.
Qed.

(** The failure of the claimed attempt. *)
Definition plan_failure : WriterOp :=
  Do_failed plan_guard Failure_ProviderUnavailable (pe_source (g_entry plan_guard)).
Definition plan_failed : ProjectionStoreState := snd (run plan_failure (plan_env plan_two 40) plan_claimed).

Lemma writer_invariant_witness :
  store_ok (snd (run Do_reconcile (plan_env plan_three 40) plan_reconciled)) /\
  ps_records plan_start `prefix_of` ps_records plan_reconciled.
Proof.
  destruct (writer_invariant plan_start plan_reconciled Do_reconcile (plan_env plan_three 40) _ _
    plan_start_ok plan_reconciled_ran (surjective_pairing _)) as (H1 & H2 & _). by split.
Defined.

Lemma claim_completes_once_witness :
  guard_is_current plan_claimed plan_guard = Ok true /\
  exists e, run plan_failure (plan_env plan_two 50) plan_failed = (Err e, plan_failed).
Proof.
  destruct (claim_completes_once (Store_Published a_hash a_hash a_hash) 30 30 7 plan_reconciled
    (plan_snapshot plan_two) plan_guard plan_claimed plan_reconciled_ok plan_claim_ok) as (H1 & H2 & H3).
  split; [done|]. assert (run plan_failure (plan_env plan_two 40) plan_claimed = (Ok tt, plan_failed)) as Hr.
  { assert (fst (run plan_failure (plan_env plan_two 40) plan_claimed) = Ok tt) as <-
      by (vm_compute; reflexivity). apply surjective_pairing. }
  apply (H3 plan_failed); [|by apply (H2 plan_claimed plan_failure (plan_env plan_two 40))|done..].
  apply rtc_once. by exists plan_failure, (plan_env plan_two 40).
Defined.

Lemma reconcile_blocked_witness :
  exists err, reconcile (Store_Published a_hash a_hash a_hash) 40 40 plan_reconciled
    (plan_snapshot plan_three) = (Err err, plan_reconciled).
Proof.
  apply (reconcile_blocked _ _ _ _ _ (plan_revision 2 "r" None Tier_Procedural) 114
    {| pe_projection_id := 114; pe_projection_kind := MemoryEmbedding; pe_projection_version := 1;
       pe_last_transition_sequence := 3; pe_attempt_count := 0;
       pe_source := canonical_source (plan_revision 2 "r" None Tier_Procedural);
       pe_desired_builder_spec_hash := a_hash; pe_state := AbsentByPolicy Absent_UnsupportedTier |}).
  - apply plan_reconciled_ok.
  - right. left.
  - reflexivity.
  - vm_compute. reflexivity.
  - discriminate.
Defined.

Lemma reconcile_classifies_witness :
  exists id e, projection_id "q" = Ok id /\ find_entry (ps_view plan_reconciled) id = Some e /\
    classified e None.
Proof.
  pose proof (steps_preserve _ _ plan_start_ok (plan_ran [(Do_activate toy_spec, plan_env [] 10)] plan_start))
    as [Hok _].
  destruct (reconcile_classifies (Store_Published a_hash a_hash a_hash) 20 20 plan_prepared
    (plan_snapshot plan_two) a_hash plan_reconciled (plan_revision 1 "q" None Tier_Working) Hok) as [_ Hc].
  - exact plan_two_ok.
  - assert (fst (reconcile (Store_Published a_hash a_hash a_hash) 20 20 plan_prepared
      (plan_snapshot plan_two)) = Ok a_hash) as <- by (vm_compute; reflexivity).
    apply surjective_pairing.
  - left.
  - exact Hc.
Defined.

(** * Queued projections can be claimed

    The planning of [claim_next] and the checks of [commit] fit: while the
    writer is readable, its view agrees with the canonical ledger and the first
    queued entry belongs to a reconciled revision, a claim that gets its objects
    published succeeds. *)

(** Sums in the exact range of JSON numbers do not overflow. *)
Lemma u64_safe_add a b : (a + b <= MAX_JCS_SAFE_INTEGER)%Z -> u64_checked_add a b = Some (a + b)%Z.
Proof.
  intros Hle. unfold u64_checked_add. rewrite (proj2 (Z.leb_le _ _)); [done|].
  unfold u64_max, u64_modulus, MAX_JCS_SAFE_INTEGER in *. lia.
Qed.

Section claims.
Context `{Platform} `{!Serde BuilderSpec} `{!Serde EmbeddingArtifact}.

(** ** What the replay has checked of the sources it accepted *)

Lemma entry_source_valid genesis records st id e :
  try_for manifest_step 0 (genesis_scan genesis) records = Ok st -> entries st !! id = Some e ->
  validate_source (pe_source e) = Ok tt.
Proof.
  intros Hs. revert id e. refine (try_for_inv _ (fun _ st => forall id e, entries st !! id = Some e ->
    validate_source (pe_source e) = Ok tt) _ _ _ _ _ Hs).
  - intros id e He. cbn in He. by rewrite lookup_empty in He.
  - intros pre t r t' IH Hstep id e He.
    destruct (entry_step _ _ _ _ id Hstep) as [Heq|(e' & He' & _ & k & v & q & Hev)].
    + rewrite Heq in He. by eapply IH.
    + rewrite He in He'. injection He' as <-. unfold manifest_step in Hstep.
      destruct (_ || _) in Hstep; [done|]. rewrite Hev in Hstep. unfold projection_transition in Hstep.
      by destruct (validate_source (pe_source e)) as [[]|].
Qed.

(** There is one kind of builder. *)
Lemma builders_single (m : gmap ProjectionKind ActiveBuilderSpec) b :
  m !! MemoryEmbedding = Some b -> (map_to_list m).*2 = [b].
Proof.
  intros Hm. assert (m = {[MemoryEmbedding := b]}) as ->; [|by rewrite map_to_list_singleton].
  apply map_eq. intros []. by rewrite lookup_singleton_eq.
Qed.

(** ** One accepted event *)

Lemma claim_accepted n st r id e b attempt_id lease :
  mr_schema r = MANIFEST_RECORD_SCHEMA -> mr_sequence r = (Z.of_nat n + 1)%Z ->
  (0 < mr_committed_at r <= MAX_JCS_SAFE_INTEGER)%Z -> mr_committed_by_role r = PROJECTION_WORKER_ROLE ->
  (mr_committed_at r < lease <= MAX_JCS_SAFE_INTEGER)%Z -> attempt_id <> 0%N ->
  (0 <= pe_attempt_count e)%Z -> u32_checked_add (pe_attempt_count e) 1 = Some (pe_attempt_count e + 1)%Z ->
  (0 <= pe_projection_version e < MAX_JCS_SAFE_INTEGER)%Z ->
  entries st !! id = Some e -> validate_source (pe_source e) = Ok tt ->
  projection_id (src_revision_id (pe_source e)) = Ok id ->
  active_builders st !! MemoryEmbedding = Some b ->
  ab_builder_spec_hash b = pe_desired_builder_spec_hash e ->
  is_queued (pe_state e) = true ->
  mr_event r = ProjectionTransition id (pe_projection_kind e) (pe_projection_version e + 1)
    (Some (pe_last_transition_sequence e)) (pe_source e) (pe_desired_builder_spec_hash e)
    (Building (pe_attempt_count e + 1) attempt_id lease) ->
  manifest_step n st r = Ok {|
    active_builders := active_builders st;
    entries := <[id := mkProjectionEntry id (pe_projection_kind e) (pe_projection_version e + 1)
                         (mr_sequence r) (pe_attempt_count e + 1) (pe_source e)
                         (pe_desired_builder_spec_hash e)
                         (Building (pe_attempt_count e + 1) attempt_id lease)]> (entries st);
    reconciled := reconciled st |}.
Proof.
  intros Hsch Hseq Hat Hrole Hlease Haid Hatt0 Hatt Hver He Hsrc Hpid Hb Hhash Hq Hev.
  assert ((mr_committed_at r =? 0)%Z = false /\ (MAX_JCS_SAFE_INTEGER <? mr_committed_at r)%Z = false /\
    (pe_attempt_count e + 1 =? 0)%Z = false /\ (lease <=? mr_committed_at r)%Z = false /\
    (MAX_JCS_SAFE_INTEGER <? lease)%Z = false /\
    (MAX_JCS_SAFE_INTEGER <? pe_projection_version e + 1)%Z = false) as (E1 & E2 & E3 & E4 & E5 & E6).
  { rewrite !Z.eqb_neq, !Z.ltb_ge, Z.leb_gt. lia. }
  unfold manifest_step. rewrite Hsch, Hseq, Hrole, Hev, Z.eqb_refl, E1, E2.
  unfold str_eqb at 1. rewrite bool_decide_true by done. cbn [negb orb].
  change (blank PROJECTION_WORKER_ROLE) with false. cbn iota.
  unfold projection_transition. rewrite Hsrc. cbn [validate_state_shape].
  rewrite E3, (proj2 (N.eqb_neq _ _) Haid), E4, E5. cbn [orb].
  unfold transition_header_bad. destruct (pe_projection_kind e) eqn:Hkind.
  rewrite E6, bool_decide_true by done. cbn [orb negb]. rewrite Hpid, N.eqb_refl, Hb. cbn [negb orb].
  rewrite (bool_decide_true (ab_builder_spec_hash <$> Some b = _)) by (cbn; by rewrite Hhash).
  cbn [negb]. rewrite He. unfold chain_broken. rewrite Hkind, u64_safe_add by lia.
  rewrite !bool_decide_true by done. cbn [negb orb]. cbn [ok_or validate_state_binding].
  rewrite transition_complete; [|rewrite Hrole; cbn; destruct (pe_state e); try done; by constructor].
  cbn [next_attempt_count]. by rewrite Hatt, bool_decide_true, Hseq by done.
Qed.

(** The replay of an extension by one event that only moves one entry. *)
Lemma rebuild_extends g g' genesis records v st r st' b :
  rebuild_projection_view g genesis records = Ok v ->
  try_for manifest_step 0 (genesis_scan genesis) records = Ok st ->
  manifest_step (length records) st r = Ok st' ->
  active_builders st' = active_builders st -> active_builders st !! MemoryEmbedding = Some b ->
  (forall id e, entries st' !! id = Some e -> entry_inactive (active_builders st) e = false) ->
  exists v', rebuild_projection_view g' genesis (records ++ [r]) = Ok v' /\
    pv_reconciled_source v' = reconciled st' /\
    forall e, e ∈ pv_entries v' <-> exists id, entries st' !! id = Some e.
Proof.
  intros Hv Hst Hstep Hact Hb Hin. unfold rebuild_projection_view in *.
  destruct (validate_watermark genesis); [|done]. rewrite try_for_app, Hst. cbn [try_for].
  rewrite Nat.add_0_l, Hstep. cbv beta iota zeta. rewrite Hact, (builders_single _ _ Hb).
  cbn [forallb length Nat.eqb andb].
  rewrite bool_decide_true by (by destruct (ab_projection_kind b)). cbn [negb andb]. rewrite andb_false_r.
  set (sorted := merge_sort entry_le (map_to_list (entries st')).*2).
  assert (forall e, e ∈ sorted <-> exists id, entries st' !! id = Some e) as Hel.
  { intros e. unfold sorted. rewrite merge_sort_Permutation, list_elem_of_fmap. split.
    - intros ([id e'] & -> & Hmem). exists id. by apply elem_of_map_to_list.
    - intros [id Hid]. exists (id, e). split; [done|]. by apply elem_of_map_to_list. }
  destruct (existsb _ sorted) eqn:Hex; [|eauto].
  apply existsb_exists in Hex as (e & He & Hi). apply list_elem_of_In, Hel in He as [id He].
  by rewrite (Hin _ _ He) in Hi.
Qed.

(** The checks against the ledger carry over when one entry changes its state
    and its source was accepted before. *)
Lemma candidate_carries view view' records r canonical e' id kind version pseq source desired state :
  validate_candidate view records canonical = Ok tt ->
  pv_reconciled_source view' = pv_reconciled_source view ->
  (forall x, x ∈ pv_entries view -> exists x', x' ∈ pv_entries view' /\ pe_source x' = pe_source x) ->
  (forall x, x ∈ pv_entries view' -> x = e' \/ x ∈ pv_entries view) ->
  validate_source_against_canonical source canonical = Ok tt ->
  (forall n, candidate_entry_check (pv_reconciled_source view) canonical n tt e' = Ok tt) ->
  mr_event r = ProjectionTransition id kind version pseq source desired state ->
  validate_candidate view' (records ++ [r]) canonical = Ok tt.
Proof.
  intros Hv Hrec Hkeep Hel Hcan Hchk Hev. pose proof (candidate_inv _ _ _ Hv) as (H1 & H2 & H3).
  unfold validate_candidate in *. rewrite try_for_app.
  destruct (try_for _ 0 tt records) as [[]|]; [|done]. cbn [try_for]. rewrite Hev, Hcan, Hrec.
  destruct (negb (existsb _ _)) in Hv |- *; [done|]. destruct (_ || _) eqn:Hcov in Hv; [done|].
  apply orb_false_iff in Hcov as [-> Hcov]. rewrite orb_false_l.
  assert (existsb (fun x => negb (existsb (fun y => str_eqb (src_revision_id (pe_source y))
    (r_revision_id x)) (pv_entries view'))) (List.filter (fun x => (r_sequence x <=?
      wm_revision_watermark (pv_reconciled_source view))%Z) (cps_revisions canonical)) = false) as ->.
  { apply not_true_iff_false. intros (x & Hx & Hn)%existsb_exists. apply filter_In in Hx as [Hx Hle].
    breflect. destruct (H2 x) as (y & Hy & Heq); [by apply list_elem_of_In|lia|].
    apply not_true_iff_false in Hn. apply Hn, existsb_exists. unfold str_eqb.
    destruct (Hkeep y Hy) as (y' & Hy' & Hsame). exists y'. rewrite Hsame.
    split; [by apply list_elem_of_In|by apply bool_decide_eq_true]. }
  rewrite try_for_all; [by destruct (try_for _ 0 tt (pv_entries view)) as [[]|]|].
  intros n x [-> |Hx]%Hel; [done|]. destruct (H3 x Hx) as [m Hm]. exact Hm.
Qed.

(** ** Claims *)

(** When a claim is due: the writer is readable and in agreement with the
    ledger, the first queued entry belongs to a reconciled revision, the clock
    moves by less than the lease between plan and commit, and no counter leaves
    its exact range. *)
Record claimable (s : ProjectionStoreState) (canonical : CanonicalProjectionSnapshot)
    (plan_now now : Z) (attempt_id : N) (entry : ProjectionEntry) : Prop := {
  cl_readable : readable s = Ok tt;
  cl_valid : validate_candidate (ps_view s) (ps_records s) canonical = Ok tt;
  cl_first : List.find (fun e => is_queued (pe_state e)) (pv_entries (ps_view s)) = Some entry;
  cl_reconciled : (src_revision_sequence (pe_source entry)
                   <= wm_revision_watermark (pv_reconciled_source (ps_view s)))%Z;
  cl_attempt_id : attempt_id <> 0%N;
  cl_clock : (now < plan_now + 60000)%Z;
  cl_time : (0 <= pr_committed_at (ps_root s))%Z /\
    (now <= MAX_JCS_SAFE_INTEGER)%Z /\
    (Z.max plan_now (pr_committed_at (ps_root s) + 1) + 60000 <= MAX_JCS_SAFE_INTEGER)%Z;
  cl_counters : (pe_attempt_count entry < u32_max)%Z /\
    (pe_projection_version entry < MAX_JCS_SAFE_INTEGER)%Z /\
    (pr_generation (ps_root s) < MAX_JCS_SAFE_INTEGER)%Z /\
    (Z.of_nat (length (ps_records s)) < MAX_JCS_SAFE_INTEGER)%Z;
}.

Section claim.
Context (s : ProjectionStoreState) (canonical : CanonicalProjectionSnapshot).
Context (plan_now now : Z) (attempt_id : N) (entry : ProjectionEntry).
Context (Hok : store_ok s) (Hcl : claimable s canonical plan_now now attempt_id entry).
Let lease := (Z.max plan_now (pr_committed_at (ps_root s) + 1) + 60000)%Z.
Let event := ProjectionTransition (pe_projection_id entry) (pe_projection_kind entry)
  (pe_projection_version entry + 1) (Some (pe_last_transition_sequence entry)) (pe_source entry)
  (pe_desired_builder_spec_hash entry) (Building (pe_attempt_count entry + 1) attempt_id lease).

Lemma attempt_fits : u32_checked_add (pe_attempt_count entry) 1 = Some (pe_attempt_count entry + 1)%Z.
Proof.
  pose proof (cl_counters _ _ _ _ _ _ Hcl) as (Ha & _). unfold u32_checked_add.
  by rewrite (proj2 (Z.leb_le _ _)) by lia.
Qed.

Lemma claim_planned : claim_event s plan_now attempt_id entry = Ok ((pe_attempt_count entry + 1)%Z, event).
Proof.
  pose proof (cl_counters _ _ _ _ _ _ Hcl) as (_ & Hv & _). pose proof (cl_time _ _ _ _ _ _ Hcl) as (_ & _ & Ht).
  unfold claim_event. rewrite attempt_fits. cbn [ok_or].
  rewrite (u64_safe_add (pr_committed_at (ps_root s))) by lia. cbn [ok_or].
  rewrite (u64_safe_add (Z.max _ _)) by lia. cbn [ok_or].
  unfold transition_event. by rewrite u64_safe_add by lia.
Qed.

(** The record of the claim. *)
Definition claim_record (r : ManifestRecord) : Prop :=
  mr_schema r = MANIFEST_RECORD_SCHEMA /\
  mr_sequence r = (Z.of_nat (length (ps_records s)) + 1)%Z /\
  mr_committed_at r = Z.max now (pr_committed_at (ps_root s) + 1) /\
  mr_committed_by_role r = PROJECTION_WORKER_ROLE /\ mr_event r = event.

(** The replay accepts it and the ledger's checks still hold. *)
Lemma claim_replayed r g :
  claim_record r ->
  exists v, rebuild_projection_view g (ps_genesis_source s) (ps_records s ++ [r]) = Ok v /\
    validate_candidate v (ps_records s ++ [r]) canonical = Ok tt.
Proof.
  intros (Hsch & Hseq & Hat & Hrole & Hev). pose proof Hcl as [_ Hval Hfirst Hle Haid Hck Ht Hcnt].
  pose proof (view_scan _ _ _ _ Hok) as (st & Hst & Hrec & Hel & Hact).
  pose proof (find_some _ _ Hfirst) as [Hin Hq]. apply list_elem_of_In in Hin.
  pose proof (Hact _ Hin) as Hi. pose proof (proj1 (Hel entry) Hin) as [id Hid].
  pose proof (sok_some _ _ _ (replay_ok _ _ _ Hst) _ _ Hid) as [Hpid Hsrc _ Hver Hatt _ _ _ _].
  pose proof (entry_source_valid _ _ _ _ _ Hst Hid) as Hvs.
  unfold entry_inactive in Hi. destruct (is_absent (pe_state entry)) eqn:Habs; [by destruct (pe_state entry)|].
  destruct (pe_projection_kind entry) eqn:Hk. cbn [negb andb] in Hi.
  destruct (active_builders st !! MemoryEmbedding) as [b|] eqn:Hb; [|done]. breflect.
  unfold event in Hev. rewrite Hpid in Hev. rewrite <-Hk in Hev.
  pose proof (claim_accepted (length (ps_records s)) st r id entry b attempt_id lease) as Hstep.
  rewrite Hat in Hstep. specialize (Hstep Hsch Hseq ltac:(lia) Hrole ltac:(unfold lease; lia) Haid
    ltac:(lia) attempt_fits ltac:(lia) Hid Hvs Hsrc Hb Hi Hq Hev).
  set (e' := mkProjectionEntry _ _ _ _ _ _ _ _) in Hstep.
  destruct (rebuild_extends _ g _ _ _ _ _ _ b Hok Hst Hstep eq_refl Hb) as (v & Hv & Hrs & Hent).
  { intros id' x Hx. cbn in Hx. destruct (decide (id' = id)) as [-> |Hne].
    - rewrite lookup_insert_eq in Hx. injection Hx as <-. unfold entry_inactive. cbn.
      rewrite Hk, Hb. by unfold str_eqb; rewrite bool_decide_true.
    - rewrite lookup_insert_ne in Hx by done. apply Hact, Hel. eauto. }
  exists v. split; [done|]. destruct (candidate_inv _ _ _ Hval) as (Hc1 & _ & Hc3).
  eapply (candidate_carries (ps_view s) v _ _ _ e'); [done|by rewrite Hrs| | | | |done].
  - intros x Hx. apply Hel in Hx as [id' Hx]. destruct (decide (id' = id)) as [-> |Hne].
    + exists e'. split; [apply Hent; exists id; apply lookup_insert_eq|]. by simplify_eq.
    + exists x. split; [|done]. apply Hent. exists id'. cbn. by rewrite lookup_insert_ne.
  - intros x Hx. apply Hent in Hx as [id' Hx]. cbn in Hx. destruct (decide (id' = id)) as [-> |Hne].
    + rewrite lookup_insert_eq in Hx. left. by injection Hx.
    + rewrite lookup_insert_ne in Hx by done. right. apply Hel. eauto.
  - destruct (entry_recorded _ _ _ _ _ Hst Hid) as (r0 & k & ver & q & Hr0 & Hev0). by eapply Hc1.
  - intros n. destruct (Hc3 _ Hin) as [m Hm]. unfold candidate_entry_check in *. cbn [e' pe_source pe_state].
    rewrite (proj2 (Z.ltb_ge _ _)) in Hm |- * by done.
    destruct (ok_or _ _) as [rev|]; [|done]. destruct (pe_state entry); by destruct (expected_absent_reason _ _).
Qed.

(** The candidate of the claim passes all the checks. *)
Lemma claim_candidate :
  exists x, commit_candidate now s (ps_root_hash s) Actor_Worker [event] canonical false = Ok x.
Proof.
  pose proof Hcl as [Hread _ _ _ _ Hck (Ht0 & Hnow & Ht) (Ha & Hv & Hg & Hl)]. unfold readable in Hread.
  unfold commit_candidate. destruct (ps_poisoned s); [done|].
  destruct (negb (bool_decide (length (ps_artifact_issues s) = 0))); [done|]. cbn [andb].
  unfold str_eqb at 1. rewrite bool_decide_true, bool_decide_false by done. cbn [negb].
  rewrite (u64_safe_add (pr_committed_at _)) by lia. cbn [ok_or].
  rewrite (proj2 (Z.ltb_ge _ _)) by lia. rewrite (u64_safe_add (Z.of_nat _)) by lia.
  cbn [ok_or stamp_events]. rewrite (u64_safe_add (Z.of_nat _ + 1)) by (cbn; lia). cbn [ok_or].
  rewrite (u64_safe_add (pr_generation _)) by lia. cbn [ok_or].
  set (r := mkManifestRecord _ _ _ _ _).
  destruct (claim_replayed r (pr_generation (ps_root s) + 1)) as (v & -> & ->); [|eauto].
  unfold claim_record, r. cbn. split_and!; try done. lia.
Qed.
End claim.

(** Work that is due is never refused: while the writer is readable and its
    view agrees with the ledger, the first queued projection of a reconciled
    revision is claimed, its attempt numbered one up, and the guard handed out
    is for it. *)
Lemma due_work_is_claimed sh vh rh plan_now now attempt_id s canonical entry :
  store_ok s -> claimable s canonical plan_now now attempt_id entry ->
  exists g s', claim_next (Store_Published sh vh rh) plan_now now attempt_id s canonical = (Ok (Some g), s') /\
    pe_projection_id (g_entry g) = pe_projection_id entry /\
    g_attempt g = (pe_attempt_count entry + 1)%Z /\
    pe_state (g_entry g) = Building (pe_attempt_count entry + 1) attempt_id
      (Z.max plan_now (pr_committed_at (ps_root s) + 1) + 60000).
Proof.
  intros Hok Hcl. pose proof Hcl as [Hread _ Hfirst _ _ _ _ _].
  destruct (claim_candidate _ _ _ _ _ _ Hok Hcl) as [[[[recs v] gen] at_] Hc].
  unfold claim_next, current_view, root_hash. rewrite Hread, Hfirst, (claim_planned _ _ _ _ _ _ Hcl).
  unfold commit_expected. destruct (commit _ _ _ _ _ _ _ _) as [r s'] eqn:Hcm.
  assert (exists root, r = Ok root) as [root ->]
    by (unfold commit in Hcm; rewrite Hc in Hcm; simplify_eq; eauto).
  apply commit_cases in Hcm. rewrite (readable_committed _ _ _ _ _ _ _ Hcm), Hread.
  destruct (committed_transition _ _ _ _ _ _ _ _ _ _ _ _ _ Hok Hcm) as [n He]. rewrite He. cbn.
  do 2 eexists. split_and!; [reflexivity|done..].
Qed.
End claims.

#[local] Existing Instance plan_platform.
#[local] Existing Instance plan_specs.
#[local] Existing Instance plan_artifacts.

(** The eligible revision of the concrete writer, queued by its
    reconciliation. *)
Definition plan_queued : ProjectionEntry := {|
  pe_projection_id := 113; pe_projection_kind := MemoryEmbedding;
  pe_projection_version := 1; pe_last_transition_sequence := 2; pe_attempt_count := 0;
  pe_source := canonical_source (plan_revision 1 "q" None Tier_Working);
  pe_desired_builder_spec_hash := a_hash; pe_state := Queued Queue_Reconciliation |}.

Lemma due_work_is_claimed_witness :
  exists g s', claim_next (Store_Published a_hash a_hash a_hash) 30 31 7 plan_reconciled
    (plan_snapshot plan_two) = (Ok (Some g), s') /\ g_attempt g = 1%Z.
Proof.
  destruct (due_work_is_claimed a_hash a_hash a_hash 30 31 7 plan_reconciled (plan_snapshot plan_two)
    plan_queued plan_reconciled_ok) as (g & s' & Hc & _ & Ha & _);
    [|exact (ex_intro _ g (ex_intro _ s' (conj Hc Ha)))].
  constructor.
  1, 2, 3, 6: vm_compute; reflexivity.
  1, 2: vm_compute; discriminate.
  all: vm_compute; split_and!; congruence.
Defined.
