(* ===== verification/LayeredMemory.v ===== *)
(** * Layered memory ([src/src/memory/layered/mod.rs])

    The runtime view of the memories: four tiers of entries per agent over a
    canonical ledger.  The ledger is used only through the operations of its
    trait, the class [CanonicalLedger] here; durable operations commit to it
    before they change a tier.  Each operation runs under the locks the source
    takes and is one step of an explicit state. *)

From stdpp Require Import base gmap strings list.
From S2P Require Import Prelude Wire MemoryModel LedgerModel LedgerStore LedgerQueries.

(** ** The ledger as the tiers see it *)

(** [trait CanonicalLedger].  [LedgerInput] is what a call draws from outside:
    clock, identifiers and the outcomes of its input and output. *)
Class CanonicalLedger := {
  Ledger : Type;
  LedgerInput : Type;
  lg_commit_expected : LedgerInput -> Ledger -> string -> MemoryTier -> ExpectedHead ->
    CanonicalRevision -> result LedgerError LedgerCommit * Ledger;
  lg_commit_roots : LedgerInput -> Ledger -> string -> MemoryTier -> list CanonicalRevision ->
    result LedgerError (list LedgerCommit) * Ledger;
  lg_rebuild_origin_role : Ledger -> string ->
    result LedgerError (list (MemoryTier * list CanonicalRevision));
  lg_list_origin_roles : Ledger -> result LedgerError (list string);
  lg_readable_active_revision_ids : Ledger -> string -> result LedgerError (list MemoryRevisionId);
  lg_origin_for_revision : Ledger -> string -> string -> bool -> result LedgerError (option string);
  lg_flush : LedgerInput -> Ledger -> result LedgerError unit;
}.

(** ** Errors *)

Inductive MemoryError : Type :=
  | M_NotFound (id : string)
  | M_Serialization
  | M_TierCapacityExceeded (tier : MemoryTier) (agent : string)
  | M_QuotaExceeded (agent_id : string) (current : nat) (limit : Z)
  | M_InvalidCanonicalContent (category : string)
  | M_Ledger (e : LedgerError).

Inductive DurableMemoryMutationError : Type :=
  | D_NotFound (entry_id : string)
  | D_Inactive (entry_id : string)
  | D_NamespaceMismatch (entry_id : string)
  | D_EmptyContent
  | D_InvalidCanonicalContent (category : string)
  | D_QuotaExceeded (current : nat) (limit : Z)
  | D_PermissionDenied
  | D_PersistenceUnavailable
  | D_Ledger (e : LedgerError).

Definition durable_category (e : DurableMemoryMutationError) : string :=
  match e with
  | D_NotFound _ => "not_found"
  | D_Inactive _ => "inactive"
  | D_NamespaceMismatch _ => "namespace_mismatch"
  | D_EmptyContent => "empty_content"
  | D_InvalidCanonicalContent c => c
  | D_QuotaExceeded _ _ => "quota_exceeded"
  | D_PermissionDenied => "permission_denied"
  | D_PersistenceUnavailable => "persistence_unavailable"
  | D_Ledger e => category e
  end.

(** ** Entries *)

(** [entry.created_at = t; entry.last_accessed = t] *)
Definition published_at (t : Z) (e : MemoryEntry) : MemoryEntry := {|
  e_id := e_id e; e_memory_id := e_memory_id e; e_parent_revision_id := e_parent_revision_id e;
  e_canonical_content_hash := e_canonical_content_hash e; e_agent_id := e_agent_id e;
  e_tenant_id := e_tenant_id e; e_tier := e_tier e; e_content := e_content e;
  e_importance := e_importance e; e_access_count := e_access_count e; e_last_accessed := t;
  e_created_at := t; e_tags := e_tags e; e_ttl_ms := e_ttl_ms e;
  e_original_ttl_ms := e_original_ttl_ms e; e_scope := e_scope e; e_memory_type := e_memory_type e;
  e_causal_parent := e_causal_parent e; e_supersedes := e_supersedes e;
  e_superseded_by := e_superseded_by e; e_deleted_at := e_deleted_at e |}.

(** An access at [now]: the counter, the time and the time to live. *)
Definition accessed (count now : Z) (ttl : option Z) (e : MemoryEntry) : MemoryEntry := {|
  e_id := e_id e; e_memory_id := e_memory_id e; e_parent_revision_id := e_parent_revision_id e;
  e_canonical_content_hash := e_canonical_content_hash e; e_agent_id := e_agent_id e;
  e_tenant_id := e_tenant_id e; e_tier := e_tier e; e_content := e_content e;
  e_importance := e_importance e; e_access_count := count; e_last_accessed := now;
  e_created_at := e_created_at e; e_tags := e_tags e; e_ttl_ms := ttl;
  e_original_ttl_ms := e_original_ttl_ms e; e_scope := e_scope e; e_memory_type := e_memory_type e;
  e_causal_parent := e_causal_parent e; e_supersedes := e_supersedes e;
  e_superseded_by := e_superseded_by e; e_deleted_at := e_deleted_at e |}.

Definition on_memory_access (now : Z) (e : MemoryEntry) : MemoryEntry :=
  let count := u32_add (e_access_count e) 1 in
  accessed count now
    (match e_original_ttl_ms e with
     | Some original => Some (u64_saturating_mul original (Z.min count 5))
     | None => e_ttl_ms e
     end) e.

(** The fields [ephemeral] and [long_term] share. *)
Definition new_entry (now : Z) (id hash agent_id : string) (tier : MemoryTier)
    (content : MemoryContent) (tags : list string) : MemoryEntry := {|
  e_id := id; e_memory_id := id; e_parent_revision_id := None; e_canonical_content_hash := hash;
  e_agent_id := agent_id; e_tenant_id := DEFAULT_TENANT; e_tier := tier; e_content := content;
  e_importance := 50; e_access_count := 0; e_last_accessed := now; e_created_at := now;
  e_tags := tags; e_ttl_ms := None; e_original_ttl_ms := None; e_scope := Scope_Private;
  e_memory_type := Type_Untyped; e_causal_parent := None; e_supersedes := None;
  e_superseded_by := None; e_deleted_at := None |}.

(** The revision [update_working_durable] appends after [previous]. *)
Definition updated_entry (now : Z) (id hash : string) (content : string) (previous : MemoryEntry)
    : MemoryEntry := {|
  e_id := id; e_memory_id := e_memory_id previous; e_parent_revision_id := Some (e_id previous);
  e_canonical_content_hash := hash; e_agent_id := e_agent_id previous;
  e_tenant_id := e_tenant_id previous; e_tier := Tier_Working; e_content := Text content;
  e_importance := e_importance previous; e_access_count := 0; e_last_accessed := now;
  e_created_at := now; e_tags := e_tags previous; e_ttl_ms := e_ttl_ms previous;
  e_original_ttl_ms := e_original_ttl_ms previous; e_scope := e_scope previous;
  e_memory_type := e_memory_type previous; e_causal_parent := e_causal_parent previous;
  e_supersedes := None; e_superseded_by := None; e_deleted_at := None |}.

(** The tombstone [delete_working_durable] appends after [e]. *)
Definition tombstone_entry (now : Z) (id : string) (e : MemoryEntry) : MemoryEntry := {|
  e_id := id; e_memory_id := e_memory_id e; e_parent_revision_id := Some (e_id e);
  e_canonical_content_hash := e_canonical_content_hash e; e_agent_id := e_agent_id e;
  e_tenant_id := e_tenant_id e; e_tier := e_tier e; e_content := e_content e;
  e_importance := e_importance e; e_access_count := 0; e_last_accessed := now; e_created_at := now;
  e_tags := e_tags e; e_ttl_ms := e_ttl_ms e; e_original_ttl_ms := e_original_ttl_ms e;
  e_scope := e_scope e; e_memory_type := e_memory_type e; e_causal_parent := e_causal_parent e;
  e_supersedes := e_supersedes e; e_superseded_by := None; e_deleted_at := Some now |}.

(** ** The tiers *)

Definition DEFAULT_PERSIST_OP_COUNT : Z := 50.

Section layered.
Context `{Platform} `{!Serde Json} `{!CanonicalLedger}.

Record LayeredMemory := mkLayered {
  lm_ephemeral : gmap string (list MemoryEntry);
  lm_working : gmap string (list MemoryEntry);
  lm_long_term : gmap string (list MemoryEntry);
  lm_procedural : gmap string (list MemoryEntry);
  lm_ledger : option Ledger;
  lm_op_count : Z;
}.

Definition layered_new : LayeredMemory := mkLayered ∅ ∅ ∅ ∅ None 0.

Definition with_ledger (l : option Ledger) (m : LayeredMemory) : LayeredMemory :=
  mkLayered (lm_ephemeral m) (lm_working m) (lm_long_term m) (lm_procedural m) l (lm_op_count m).

Definition set_ledger (m : LayeredMemory) (l : Ledger) : LayeredMemory := with_ledger (Some l) m.

Definition tier_map (m : LayeredMemory) (t : MemoryTier) : gmap string (list MemoryEntry) :=
  match t with
  | Tier_Ephemeral => lm_ephemeral m
  | Tier_Working => lm_working m
  | Tier_LongTerm => lm_long_term m
  | Tier_Procedural => lm_procedural m
  end.

Definition set_tier_map (t : MemoryTier) (x : gmap string (list MemoryEntry)) (m : LayeredMemory)
    : LayeredMemory :=
  match t with
  | Tier_Ephemeral => mkLayered x (lm_working m) (lm_long_term m) (lm_procedural m) (lm_ledger m) (lm_op_count m)
  | Tier_Working => mkLayered (lm_ephemeral m) x (lm_long_term m) (lm_procedural m) (lm_ledger m) (lm_op_count m)
  | Tier_LongTerm => mkLayered (lm_ephemeral m) (lm_working m) x (lm_procedural m) (lm_ledger m) (lm_op_count m)
  | Tier_Procedural => mkLayered (lm_ephemeral m) (lm_working m) (lm_long_term m) x (lm_ledger m) (lm_op_count m)
  end.

(** [map.entry(agent_id).or_default()], written back as [entries]. *)
Definition put_tier (m : LayeredMemory) (t : MemoryTier) (agent_id : string)
    (entries : list MemoryEntry) : LayeredMemory :=
  set_tier_map t (<[agent_id := entries]> (tier_map m t)) m.

Definition get_tier (m : LayeredMemory) (agent_id : string) (t : MemoryTier) : list MemoryEntry :=
  default [] (tier_map m t !! agent_id).

Definition ALL_TIERS : list MemoryTier := [Tier_Ephemeral; Tier_Working; Tier_LongTerm; Tier_Procedural].

Definition get_all (m : LayeredMemory) (agent_id : string) : list MemoryEntry :=
  concat (get_tier m agent_id <$> ALL_TIERS).

Definition count_for_agent (m : LayeredMemory) (agent_id : string) : nat :=
  length (get_tier m agent_id Tier_Ephemeral) + length (get_tier m agent_id Tier_Working)
  + length (get_tier m agent_id Tier_LongTerm) + length (get_tier m agent_id Tier_Procedural).

Definition store_inner (m : LayeredMemory) (e : MemoryEntry) : LayeredMemory :=
  put_tier m (e_tier e) (e_agent_id e) (get_tier m (e_agent_id e) (e_tier e) ++ [e]).

(** ** Reading *)

Definition active_revisions (entries : list MemoryEntry) : list MemoryEntry :=
  let parent_ids := omap e_parent_revision_id entries in
  List.filter (fun e => negb (str_mem (e_id e) parent_ids) && negb (opt_is_some (e_deleted_at e))
                        && negb (opt_is_some (e_superseded_by e))) entries.

Definition get_active_tier (m : LayeredMemory) (agent_id : string) (t : MemoryTier) : list MemoryEntry :=
  active_revisions (get_tier m agent_id t).
Definition get_active (m : LayeredMemory) (agent_id : string) : list MemoryEntry :=
  active_revisions (get_all m agent_id).

Definition find_active_entry (m : LayeredMemory) (agent_id : string) (t : MemoryTier)
    (revision_id : string) : option MemoryEntry :=
  List.find (fun e => str_eqb (e_id e) revision_id) (get_active_tier m agent_id t).

Definition find_active_authorized (m : LayeredMemory) (role_id : string) (t : MemoryTier)
    (revision_id : string) : result LedgerError (option MemoryEntry) :=
  ledger <-? ok_or (lm_ledger m) (Invalid "canonical_ledger_unavailable");
  origin <-? lg_origin_for_revision ledger role_id revision_id false;
  Ok (o ← origin; find_active_entry m o t revision_id).

Definition get_by_tags (m : LayeredMemory) (agent_id : string) (t : MemoryTier) (tags : list string)
    : list MemoryEntry :=
  List.filter (fun e => existsb (fun tag => str_mem tag (e_tags e)) tags) (get_tier m agent_id t).

Definition get_by_type (m : LayeredMemory) (agent_id : string) (t : MemoryTier) (ty : MemoryType)
    : list MemoryEntry :=
  List.filter (fun e => bool_decide (e_memory_type e = ty)) (get_tier m agent_id t).

Definition refers_to (cid : string) (e : MemoryEntry) : bool :=
  match e_content e with ObjectRef c => str_eqb c cid | _ => false end.

Definition is_cid_referenced (m : LayeredMemory) (cid : string) : bool :=
  existsb (fun t => existsb (fun kv => existsb (refers_to cid) (snd kv)) (map_to_list (tier_map m t)))
    ALL_TIERS.

(** Ephemeral entries are not searched. *)
Definition find_entry (m : LayeredMemory) (agent_id entry_id : string) : option MemoryEntry :=
  head (omap (fun t => List.find (fun e => str_eqb (e_id e) entry_id) (get_tier m agent_id t))
          [Tier_Working; Tier_LongTerm; Tier_Procedural]).

(** ** Runtime-only changes *)

(** A present vector of the tier, mapped. *)
Definition map_tier (f : MemoryEntry -> MemoryEntry) (agent_id : string) (t : MemoryTier)
    (m : LayeredMemory) : LayeredMemory :=
  match tier_map m t !! agent_id with
  | None => m
  | Some entries => put_tier m t agent_id (f <$> entries)
  end.

Definition recall_with_tracking (now : Z) (m : LayeredMemory) (agent_id : string)
    : list MemoryEntry * LayeredMemory :=
  let m' := foldl (fun m t => map_tier (on_memory_access now) agent_id t m) m ALL_TIERS in
  (get_all m' agent_id, m').

(** [iter_mut().find(..)]: the first entry with the identifier is changed. *)
Fixpoint touch_first (now : Z) (entry_id : string) (entries : list MemoryEntry)
    : option (list MemoryEntry) :=
  match entries with
  | [] => None
  | e :: rest =>
      if str_eqb (e_id e) entry_id
      then Some (accessed (u32_add (e_access_count e) 1) now (e_ttl_ms e) e :: rest)
      else rest' ← touch_first now entry_id rest; Some (e :: rest')
  end.

Fixpoint touch_tiers (now : Z) (agent_id entry_id : string) (tiers : list MemoryTier)
    (m : LayeredMemory) : bool * LayeredMemory :=
  match tiers with
  | [] => (false, m)
  | t :: tiers' =>
      match entries ← tier_map m t !! agent_id; touch_first now entry_id entries with
      | Some entries' => (true, put_tier m t agent_id entries')
      | None => touch_tiers now agent_id entry_id tiers' m
      end
  end.

Definition touch_entry (now : Z) (m : LayeredMemory) (agent_id entry_id : string) : bool * LayeredMemory :=
  touch_tiers now agent_id entry_id ALL_TIERS m.

Definition evict_ephemeral (m : LayeredMemory) (agent_id : string) : list MemoryEntry * LayeredMemory :=
  (get_tier m agent_id Tier_Ephemeral,
   set_tier_map Tier_Ephemeral (delete agent_id (lm_ephemeral m)) m).

Definition clear_ephemeral (m : LayeredMemory) (agent_id : string) : nat * LayeredMemory :=
  (length (get_tier m agent_id Tier_Ephemeral),
   set_tier_map Tier_Ephemeral (delete agent_id (lm_ephemeral m)) m).

(** The constructors draw [id]; an [Err] is the panic of [expect]. *)
Definition ephemeral (now : Z) (id agent_id content : string) : result string MemoryEntry :=
  hash <-? canonical_content_hash (Text content);
  Ok (new_entry now id hash agent_id Tier_Ephemeral (Text content) []).

Definition long_term (now : Z) (id agent_id : string) (content : MemoryContent) (tags : list string)
    : result string MemoryEntry :=
  hash <-? canonical_content_hash content;
  Ok (new_entry now id hash agent_id Tier_LongTerm content tags).

Definition seal_root_identity (e : MemoryEntry) : result string MemoryEntry :=
  let memory_id := if str_eqb (e_memory_id e) "" then e_id e else e_memory_id e in
  hash <-? (if str_eqb (e_canonical_content_hash e) "" then canonical_content_hash (e_content e)
            else Ok (e_canonical_content_hash e));
  Ok {| e_id := e_id e; e_memory_id := memory_id; e_parent_revision_id := e_parent_revision_id e;
        e_canonical_content_hash := hash; e_agent_id := e_agent_id e;
        e_tenant_id := e_tenant_id e; e_tier := e_tier e; e_content := e_content e;
        e_importance := e_importance e; e_access_count := e_access_count e;
        e_last_accessed := e_last_accessed e; e_created_at := e_created_at e; e_tags := e_tags e;
        e_ttl_ms := e_ttl_ms e; e_original_ttl_ms := e_original_ttl_ms e; e_scope := e_scope e;
        e_memory_type := e_memory_type e; e_causal_parent := e_causal_parent e;
        e_supersedes := e_supersedes e; e_superseded_by := e_superseded_by e;
        e_deleted_at := e_deleted_at e |}.

Definition flush_ledger (i : LedgerInput) (m : LayeredMemory) : result LedgerError bool :=
  match lm_ledger m with
  | None => Ok false
  | Some l => lg_flush i l ?>> Ok true
  end.

Definition with_op_count (n : Z) (m : LayeredMemory) : LayeredMemory :=
  mkLayered (lm_ephemeral m) (lm_working m) (lm_long_term m) (lm_procedural m) (lm_ledger m) n.

(** A failing flush is only logged. *)
Definition tick (m : LayeredMemory) : bool * LayeredMemory :=
  let cnt := u64_add (lm_op_count m) 1 in
  if (DEFAULT_PERSIST_OP_COUNT <=? cnt)%Z then (true, with_op_count 0 m)
  else (false, with_op_count cnt m).

Definition store (m : LayeredMemory) (e : MemoryEntry) : result MemoryError unit * LayeredMemory :=
  match map_err M_InvalidCanonicalContent (seal_root_identity e) with
  | Err err => (Err err, m)
  | Ok e =>
      if negb (bool_decide (e_tier e = Tier_Ephemeral))
      then (Err (M_Ledger (Invalid "durable_entry_requires_create_durable")), m)
      else (Ok tt, store_inner (snd (tick m)) e)
  end.

Definition store_checked (m : LayeredMemory) (e : MemoryEntry) (quota : Z)
    : result MemoryError unit * LayeredMemory :=
  let current := count_for_agent m (e_agent_id e) in
  if (0 <? quota)%Z && (quota <=? Z.of_nat current)%Z
  then (Err (M_QuotaExceeded (e_agent_id e) current quota), m)
  else store m e.

(** ** Durable changes *)

Definition sealed (e : MemoryEntry) : result DurableMemoryMutationError MemoryEntry :=
  map_err D_InvalidCanonicalContent (seal_root_identity e).

Definition from_entry (e : MemoryEntry) : result DurableMemoryMutationError CanonicalRevision :=
  map_err D_Ledger (entry_to_revision e).

(** The working vector of an agent is created when it is missing. *)
Definition touch_working (m : LayeredMemory) (agent_id : string) : LayeredMemory :=
  put_tier m Tier_Working agent_id (get_tier m agent_id Tier_Working).

Definition create_working_durable (i : LedgerInput) (m : LayeredMemory) (entry : MemoryEntry) (quota : Z)
    : result DurableMemoryMutationError MemoryEntry * LayeredMemory :=
  match sealed entry with
  | Err err => (Err err, m)
  | Ok e =>
      let agent_id := e_agent_id e in
      match lm_ledger m with
      | None => (Err D_PersistenceUnavailable, m)
      | Some ledger =>
          let current := length (get_tier m agent_id Tier_Ephemeral)
                         + length (get_tier m agent_id Tier_LongTerm)
                         + length (get_tier m agent_id Tier_Procedural)
                         + length (get_tier m agent_id Tier_Working) in
          let m := touch_working m agent_id in
          if (0 <? quota)%Z && (quota <=? Z.of_nat current)%Z
          then (Err (D_QuotaExceeded current quota), m) else
          match from_entry e with
          | Err err => (Err err, m)
          | Ok revision =>
              match lg_commit_expected i ledger agent_id Tier_Working Absent revision with
              | (Err err, l') => (Err (D_Ledger err), with_ledger (Some l') m)
              | (Ok receipt, l') =>
                  let e := published_at (c_committed_at receipt) e in
                  (Ok e, put_tier (with_ledger (Some l') m) Tier_Working agent_id
                           (get_tier m agent_id Tier_Working ++ [e]))
              end
          end
      end
  end.

Definition create_durable (i : LedgerInput) (m : LayeredMemory) (entry : MemoryEntry) (quota : Z)
    : result DurableMemoryMutationError MemoryEntry * LayeredMemory :=
  if bool_decide (e_tier entry = Tier_Working) then create_working_durable i m entry quota else
  if bool_decide (e_tier entry = Tier_Ephemeral)
  then (Err (D_InvalidCanonicalContent "ephemeral_revision_not_durable"), m) else
  match sealed entry with
  | Err err => (Err err, m)
  | Ok e =>
      match lm_ledger m with
      | None => (Err D_PersistenceUnavailable, m)
      | Some ledger =>
          let current := count_for_agent m (e_agent_id e) in
          if (0 <? quota)%Z && (quota <=? Z.of_nat current)%Z
          then (Err (D_QuotaExceeded current quota), m) else
          match from_entry e with
          | Err err => (Err err, m)
          | Ok revision =>
              match lg_commit_expected i ledger (e_agent_id e) (e_tier e) Absent revision with
              | (Err err, l') => (Err (D_Ledger err), with_ledger (Some l') m)
              | (Ok receipt, l') =>
                  let e := published_at (c_committed_at receipt) e in
                  (Ok e, store_inner (with_ledger (Some l') m) e)
              end
          end
      end
  end.

(** The loop over a batch: same agent, same tier, identities sealed. *)
Definition seal_batch (category agent_id : string) (tier : MemoryTier) (entries : list MemoryEntry)
    : result DurableMemoryMutationError (list MemoryEntry) :=
  try_map (fun e =>
    reject negb (str_eqb (e_agent_id e) agent_id) || negb (bool_decide (e_tier e = tier))
      with D_InvalidCanonicalContent category;
    sealed e) entries.

(** [for (entry, receipt) in entries.iter_mut().zip(receipts)] *)
Fixpoint publish_batch (entries : list MemoryEntry) (receipts : list LedgerCommit) : list MemoryEntry :=
  match entries, receipts with
  | e :: entries', r :: receipts' => published_at (c_committed_at r) e :: publish_batch entries' receipts'
  | _, _ => entries
  end.

(** [quota > 0 && current.saturating_add(n) as u64 > quota] *)
Definition over_quota (quota : Z) (current n : nat) : bool :=
  (0 <? quota)%Z && (quota <? Z.min u64_max (Z.of_nat current + Z.of_nat n))%Z.

Definition create_batch_durable (i : LedgerInput) (m : LayeredMemory) (entries : list MemoryEntry)
    (quota : Z) : result DurableMemoryMutationError (list MemoryEntry) * LayeredMemory :=
  match entries with
  | [] => (Ok [], m)
  | first :: _ =>
      let agent_id := e_agent_id first in
      let tier := e_tier first in
      if bool_decide (tier = Tier_Ephemeral)
      then (Err (D_InvalidCanonicalContent "ephemeral_revision_not_durable"), m) else
      match seal_batch "invalid_batch_boundary" agent_id tier entries with
      | Err err => (Err err, m)
      | Ok es =>
          let current := count_for_agent m agent_id in
          if over_quota quota current (length es) then (Err (D_QuotaExceeded current quota), m) else
          match lm_ledger m with
          | None => (Err D_PersistenceUnavailable, m)
          | Some ledger =>
              match try_map from_entry es with
              | Err err => (Err err, m)
              | Ok revisions =>
                  match lg_commit_roots i ledger agent_id tier revisions with
                  | (Err err, l') => (Err (D_Ledger err), with_ledger (Some l') m)
                  | (Ok receipts, l') =>
                      let es := publish_batch es receipts in
                      (Ok es, put_tier (with_ledger (Some l') m) tier agent_id
                                (get_tier m agent_id tier ++ es))
                  end
              end
          end
      end
  end.

Definition create_working_batch_durable (i : LedgerInput) (m : LayeredMemory)
    (entries : list MemoryEntry) (quota : Z)
    : result DurableMemoryMutationError (list MemoryEntry) * LayeredMemory :=
  match entries with
  | [] => (Ok [], m)
  | first :: _ =>
      let agent_id := e_agent_id first in
      match seal_batch "invalid_batch_identity" agent_id Tier_Working entries with
      | Err err => (Err err, m)
      | Ok es =>
          match lm_ledger m with
          | None => (Err D_PersistenceUnavailable, m)
          | Some ledger =>
              let current := length (get_tier m agent_id Tier_Ephemeral)
                             + length (get_tier m agent_id Tier_LongTerm)
                             + length (get_tier m agent_id Tier_Procedural)
                             + length (get_tier m agent_id Tier_Working) in
              let m := touch_working m agent_id in
              if over_quota quota current (length es) then (Err (D_QuotaExceeded current quota), m) else
              match try_map from_entry es with
              | Err err => (Err err, m)
              | Ok revisions =>
                  match lg_commit_roots i ledger agent_id Tier_Working revisions with
                  | (Err err, l') => (Err (D_Ledger err), with_ledger (Some l') m)
                  | (Ok receipts, l') =>
                      let es := publish_batch es receipts in
                      (Ok es, put_tier (with_ledger (Some l') m) Tier_Working agent_id
                                (get_tier m agent_id Tier_Working ++ es))
                  end
              end
          end
      end
  end.

(** [mutate] returns an existing entry, or the candidate vector. *)
Definition commit_working_mutation (i : LedgerInput) (m : LayeredMemory) (caller_role_id entry_id : string)
    (mutate : list MemoryEntry -> result DurableMemoryMutationError (MemoryEntry + list MemoryEntry))
    : result DurableMemoryMutationError MemoryEntry * LayeredMemory :=
  match lm_ledger m with
  | None => (Err D_PersistenceUnavailable, m)
  | Some ledger =>
      match map_err D_Ledger (lg_origin_for_revision ledger caller_role_id entry_id true) with
      | Err err => (Err err, m)
      | Ok None => (Err (D_NotFound entry_id), m)
      | Ok (Some origin_role) =>
          match lm_working m !! origin_role with
          | None => (Err (D_NotFound entry_id), m)
          | Some live =>
              match mutate live with
              | Err err => (Err err, m)
              | Ok (inl existing) => (Ok existing, m)
              | Ok (inr candidate) =>
                  match committed_entry ← last candidate;
                        if str_eqb (e_id committed_entry) entry_id then None else Some committed_entry with
                  | None => (Err (D_InvalidCanonicalContent "mutation_did_not_append_revision"), m)
                  | Some committed_entry =>
                      match from_entry committed_entry with
                      | Err err => (Err err, m)
                      | Ok revision =>
                          match lg_commit_expected i ledger caller_role_id Tier_Working
                                  (ExpectedRevision entry_id) revision with
                          | (Err err, l') => (Err (D_Ledger err), with_ledger (Some l') m)
                          | (Ok receipt, l') =>
                              let published := published_at (c_committed_at receipt) committed_entry in
                              (Ok published,
                               put_tier (with_ledger (Some l') m) Tier_Working origin_role
                                 (removelast candidate ++ [published]))
                          end
                      end
                  end
              end
          end
      end
  end.

Definition update_mutation (now : Z) (new_id namespace entry_id new_content : string)
    (candidate : list MemoryEntry)
    : result DurableMemoryMutationError (MemoryEntry + list MemoryEntry) :=
  previous <-? ok_or (List.find (fun e => str_eqb (e_id e) entry_id) candidate) (D_NotFound entry_id);
  reject negb (str_eqb (e_tenant_id previous) namespace) with D_NamespaceMismatch entry_id;
  reject opt_is_some (e_deleted_at previous) || opt_is_some (e_superseded_by previous)
    with D_Inactive entry_id;
  (hash <-? map_err D_InvalidCanonicalContent (canonical_content_hash (Text new_content));
   Ok (inr (candidate ++ [updated_entry now new_id hash new_content previous]))).

Definition update_working_durable (i : LedgerInput) (now : Z) (new_id : string) (m : LayeredMemory)
    (agent_id namespace entry_id new_content : string)
    : result DurableMemoryMutationError MemoryEntry * LayeredMemory :=
  if blank new_content then (Err D_EmptyContent, m) else
  commit_working_mutation i m agent_id entry_id (update_mutation now new_id namespace entry_id new_content).

Definition delete_mutation (now : Z) (new_id namespace entry_id : string) (candidate : list MemoryEntry)
    : result DurableMemoryMutationError (MemoryEntry + list MemoryEntry) :=
  entry <-? ok_or (List.find (fun e => str_eqb (e_id e) entry_id) candidate) (D_NotFound entry_id);
  reject negb (str_eqb (e_tenant_id entry) namespace) with D_NamespaceMismatch entry_id;
  reject opt_is_some (e_deleted_at entry)
    with D_Ledger (HeadConflict (e_memory_id entry) (ExpectedRevision entry_id) (Some (e_id entry)));
  match List.find (fun c => bool_decide (e_parent_revision_id c = Some entry_id)) candidate with
  | Some child =>
      if opt_is_some (e_deleted_at child) then Ok (inl child)
      else Err (D_Ledger (HeadConflict (e_memory_id entry) (ExpectedRevision entry_id) (Some (e_id child))))
  | None => Ok (inr (candidate ++ [tombstone_entry now new_id entry]))
  end.

Definition delete_working_durable (i : LedgerInput) (now : Z) (new_id : string) (m : LayeredMemory)
    (agent_id namespace entry_id : string)
    : result DurableMemoryMutationError MemoryEntry * LayeredMemory :=
  commit_working_mutation i m agent_id entry_id (delete_mutation now new_id namespace entry_id).

(** ** Restoring *)

(** [restored_by_tier]: a later group of a tier replaces an earlier one. *)
Definition restored_tier (agent_id : string) (restored : list (MemoryTier * list CanonicalRevision))
    (t : MemoryTier) : option (list MemoryEntry) :=
  last (omap (fun g : MemoryTier * list CanonicalRevision =>
                if decide (fst g = t) then Some ((fun r => into_runtime_entry r agent_id) <$> snd g) else None) restored).

Definition restore_tier (agent_id : string) (restored : list (MemoryTier * list CanonicalRevision))
    (m : LayeredMemory) (t : MemoryTier) : LayeredMemory :=
  set_tier_map t (match restored_tier agent_id restored t with
                  | Some entries => <[agent_id := entries]> (tier_map m t)
                  | None => delete agent_id (tier_map m t)
                  end) m.

Definition DURABLE_TIERS : list MemoryTier := [Tier_Working; Tier_LongTerm; Tier_Procedural].

Definition restore_agent (m : LayeredMemory) (agent_id : string)
    : result LedgerError unit * LayeredMemory :=
  match lm_ledger m with
  | None => (Ok tt, m)
  | Some ledger =>
      match lg_rebuild_origin_role ledger agent_id with
      | Err e => (Err e, m)
      | Ok restored => (Ok tt, foldl (restore_tier agent_id restored) m DURABLE_TIERS)
      end
  end.

(** [AIKernel::restore_memories]; the kernel holds the same ledger. *)
Fixpoint restore_roles (m : LayeredMemory) (roles : list string) : result LedgerError unit * LayeredMemory :=
  match roles with
  | [] => (Ok tt, m)
  | id :: roles' =>
      match restore_agent m id with
      | (Err e, m') => (Err e, m')
      | (Ok _, m') => restore_roles m' roles'
      end
  end.

Definition restore_memories (canonical : Ledger) (m : LayeredMemory)
    : result LedgerError unit * LayeredMemory :=
  match lg_list_origin_roles canonical with
  | Err e => (Err e, m)
  | Ok roles => restore_roles m roles
  end.
End layered.
