(* ===== verification/LayeredProps.v ===== *)
(** * The runtime tiers and the ledger agree

    What the tiers rely on of the ledger is the class [CanonicalLedgerLaws].
    Against it: every operation keeps the durable part of the tiers equal to what
    the ledger would rebuild, so a restart loses nothing but runtime counters;
    an update replaces exactly one active head and a deletion removes exactly
    one; quotas bound what creation stores. *)

From stdpp Require Import base gmap strings list.
From S2P Require Import Prelude Wire MemoryModel LedgerModel LedgerStore LedgerQueries LayeredMemory.

(** ** The durable part of an entry *)

(** Importance, access statistics and the exact deletion time are runtime-only:
    a rebuild resets them. *)
Definition durable (e : MemoryEntry) : MemoryEntry := {|
  e_id := e_id e; e_memory_id := e_memory_id e; e_parent_revision_id := e_parent_revision_id e;
  e_canonical_content_hash := e_canonical_content_hash e; e_agent_id := e_agent_id e;
  e_tenant_id := e_tenant_id e; e_tier := e_tier e; e_content := e_content e;
  e_importance := 0; e_access_count := 0; e_last_accessed := 0;
  e_created_at := e_created_at e; e_tags := e_tags e; e_ttl_ms := e_ttl_ms e;
  e_original_ttl_ms := e_original_ttl_ms e; e_scope := e_scope e; e_memory_type := e_memory_type e;
  e_causal_parent := e_causal_parent e; e_supersedes := e_supersedes e;
  e_superseded_by := e_superseded_by e; e_deleted_at := (fun _ => 0%Z) <$> e_deleted_at e |}.

(** The revision [r'] is [r] as the commit with receipt [c] recorded it. *)
Record recorded (r : CanonicalRevision) (c : LedgerCommit) (r' : CanonicalRevision) : Prop := {
  rec_memory : r_memory_id r' = r_memory_id r;
  rec_id : r_revision_id r' = r_revision_id r;
  rec_parent : r_parent_revision_id r' = r_parent_revision_id r;
  rec_content : r_content r' = r_content r;
  rec_hash : r_content_hash r' = r_content_hash r;
  rec_tags : r_tags r' = r_tags r;
  rec_type : r_memory_type r' = r_memory_type r;
  rec_tier : r_cognitive_tier r' = r_cognitive_tier r;
  rec_deleted : (fun _ => tt) <$> r_deleted_at r' = (fun _ => tt) <$> r_deleted_at r;
  rec_time : r_committed_at r' = c_committed_at c;
}.

(** ** What the tiers rely on of the ledger *)

(** The invariant of a ledger, and its revisions by origin and tier. *)
Class LedgerContract `{CanonicalLedger} := {
  lg_ok : Ledger -> Prop;
  lg_records : Ledger -> string -> MemoryTier -> list CanonicalRevision;
}.

(** A commit appends its revisions under the origin and changes nothing else;
    the new identifiers are fresh. *)
Record lg_appends `{LedgerContract} (l l' : Ledger) (origin : string) (tier : MemoryTier)
    (rs : list CanonicalRevision) (cs : list LedgerCommit) : Prop := {
  la_ok : lg_ok l';
  la_durable : tier <> Tier_Ephemeral;
  la_records : exists rs', Forall3 recorded rs cs rs' /\ forall role t,
    lg_records l' role t =
    lg_records l role t ++ if decide (role = origin /\ t = tier) then rs' else [];
  la_tier : forall r, r ∈ rs -> r_cognitive_tier r = tier;
  la_fresh : forall r r0 role t, r ∈ rs -> r0 ∈ lg_records l role t ->
    r_revision_id r0 <> r_revision_id r /\ r_parent_revision_id r0 <> Some (r_revision_id r);
  la_distinct : NoDup (r_revision_id <$> rs);
}.

(** A failed commit leaves the revisions as they were. *)
Definition lg_keeps `{LedgerContract} (l l' : Ledger) : Prop :=
  lg_ok l' /\ forall role t, lg_records l' role t = lg_records l role t.

Class CanonicalLedgerLaws `{LedgerContract} : Prop := {
  lg_rebuilds l role : lg_ok l -> exists gs, lg_rebuild_origin_role l role = Ok gs /\
    forall t, t <> Tier_Ephemeral ->
      default [] (snd <$> last (filter (fun g => fst g = t) gs)) = lg_records l role t;
  lg_lists l : lg_ok l -> exists roles, lg_list_origin_roles l = Ok roles /\
    forall role t, lg_records l role t <> [] -> role ∈ roles;
  lg_root i l role tier r c l' : lg_ok l ->
    lg_commit_expected i l role tier Absent r = (Ok c, l') -> lg_appends l l' role tier [r] [c];
  lg_roots i l role tier rs cs l' : lg_ok l ->
    lg_commit_roots i l role tier rs = (Ok cs, l') -> lg_appends l l' role tier rs cs;
  lg_revision i l role tier id origin r c l' : lg_ok l ->
    lg_origin_for_revision l role id true = Ok (Some origin) ->
    lg_commit_expected i l role tier (ExpectedRevision id) r = (Ok c, l') ->
    lg_appends l l' origin tier [r] [c];
  lg_head i l role tier id r c l' : lg_ok l ->
    lg_commit_expected i l role tier (ExpectedRevision id) r = (Ok c, l') ->
    forall r0 role' t, r0 ∈ lg_records l role' t -> r_parent_revision_id r0 <> Some id;
  lg_failed i l role tier exp r e l' : lg_ok l ->
    lg_commit_expected i l role tier exp r = (Err e, l') -> lg_keeps l l';
  lg_roots_failed i l role tier rs e l' : lg_ok l ->
    lg_commit_roots i l role tier rs = (Err e, l') -> lg_keeps l l';
}.

Section coherence.
Context `{Platform} `{!Serde Json} `{CanonicalLedgerLaws}.
Implicit Types (m : LayeredMemory) (l : Ledger).

(** ** Tiers *)

Lemma get_tier_put m t a es role t' :
  get_tier (put_tier m t a es) role t' =
  if decide (role = a /\ t' = t) then es else get_tier m role t'.
Proof.
  unfold get_tier, put_tier. destruct (decide (role = a)) as [-> |Hne].
  - destruct t, t'; cbn; rewrite ?lookup_insert_eq; case_decide; naive_solver.
  - destruct t, t'; cbn; rewrite ?lookup_insert_ne by done; by rewrite decide_False by naive_solver.
Qed.

Lemma get_tier_ledger m o role t : get_tier (with_ledger o m) role t = get_tier m role t.
Proof. by destruct t. Qed.

Lemma put_tier_ledger m t a es : lm_ledger (put_tier m t a es) = lm_ledger m.
Proof. by destruct t. Qed.

Lemma touch_working_same m a role t : get_tier (touch_working m a) role t = get_tier m role t.
Proof. unfold touch_working. rewrite get_tier_put. by case_decide; destruct_and?; subst. Qed.

(** ** Coherence *)

(** The durable tiers are what the ledger would rebuild. *)
Definition coherent m : Prop :=
  forall l, lm_ledger m = Some l -> lg_ok l /\ forall role t, t <> Tier_Ephemeral ->
    durable <$> get_tier m role t =
    durable <$> ((fun r => into_runtime_entry r role) <$> lg_records l role t).

Lemma durable_published e r c r' :
  from_entry e = Ok r -> recorded r c r' ->
  durable (published_at (c_committed_at c) e) = durable (into_runtime_entry r' (e_agent_id e)).
Proof.
  unfold from_entry, entry_to_revision, map_err. intros He [].
  destruct (negb (str_eqb _ _)) eqn:E1; [done|]. destruct (negb (bool_decide _)) eqn:E2; [done|].
  destruct (_ || _) eqn:E3 in He; [done|]. destruct (opt_is_some (e_causal_parent e)) eqn:E4; [done|].
  destruct (_ || _) eqn:E5 in He; [done|]. apply Ok_inj in He as <-. breflect. cbn in *.
  unfold durable, into_runtime_entry. cbn.
  assert (forall A (o : option A), opt_is_some o = false -> o = None) as Ho by (by intros A []).
  repeat match goal with H : opt_is_some _ = false |- _ => apply Ho in H; rewrite H; clear H end.
  rewrite rec_memory0, rec_id0, rec_parent0, rec_content0, rec_hash0, rec_tags0, rec_type0, rec_tier0,
    rec_time0, E1, E2. f_equal. destruct (r_deleted_at r'), (e_deleted_at e); done.
Qed.

(** Entries appended after a commit of their revisions. *)
Lemma coherent_append m l l' origin tier es rs cs :
  coherent m -> lm_ledger m = Some l -> lg_appends l l' origin tier rs cs ->
  Forall2 (fun e r => from_entry e = Ok r /\ e_agent_id e = origin) es rs ->
  coherent (put_tier (with_ledger (Some l') m) tier origin (get_tier m origin tier ++ publish_batch es cs)).
Proof.
  intros Hco Hl [Hok Hdur (rs' & Hrs' & Hrec) _ _ _] Hes x Hx.
  rewrite put_tier_ledger in Hx. cbn in Hx. injection Hx as <-. split; [done|]. intros role t Ht.
  destruct (Hco _ Hl) as [_ Hc]. rewrite get_tier_put, Hrec, get_tier_ledger.
  case_decide as Hd; [|by rewrite app_nil_r; apply Hc]. destruct Hd as [-> ->].
  rewrite !fmap_app, Hc by done. f_equal. clear -Hrs' Hes.
  revert es Hes. induction Hrs' as [|r c r' rs cs rs' Hr Hrs IH]; intros es Hes.
  - by inversion Hes.
  - inversion Hes as [|e ? es' ? [He <-] Hes']; subst. cbn. f_equal; [by eapply durable_published|].
    by apply IH.
Qed.

Lemma coherent_failed m l l' : coherent m -> lm_ledger m = Some l -> lg_keeps l l' ->
  coherent (with_ledger (Some l') m).
Proof.
  intros Hco Hl [Hok Hk] x Hx. cbn in Hx. injection Hx as <-. split; [done|].
  destruct (Hco _ Hl) as [_ Hc]. intros role t Ht. rewrite get_tier_ledger, Hk. by apply Hc.
Qed.

(** Changes that leave the durable tiers and the ledger alone. *)
Lemma coherent_same m m' :
  lm_ledger m' = lm_ledger m ->
  (forall role t, t <> Tier_Ephemeral -> durable <$> get_tier m' role t = durable <$> get_tier m role t) ->
  coherent m -> coherent m'.
Proof.
  intros Hl Hg Hco l Hx. rewrite Hl in Hx. destruct (Hco _ Hx) as [Hok Hc]. split; [done|].
  intros role t Ht. rewrite Hg by done. by apply Hc.
Qed.

(** ** Every operation *)

Inductive LayeredOp : Type :=
  | Op_store (e : MemoryEntry)
  | Op_store_checked (e : MemoryEntry) (quota : Z)
  | Op_create (i : LedgerInput) (e : MemoryEntry) (quota : Z)
  | Op_create_batch (i : LedgerInput) (es : list MemoryEntry) (quota : Z)
  | Op_create_working_batch (i : LedgerInput) (es : list MemoryEntry) (quota : Z)
  | Op_update (i : LedgerInput) (now : Z) (new_id agent namespace entry content : string)
  | Op_delete (i : LedgerInput) (now : Z) (new_id agent namespace entry : string)
  | Op_recall (now : Z) (agent : string)
  | Op_touch (now : Z) (agent entry : string)
  | Op_evict (agent : string)
  | Op_clear (agent : string)
  | Op_restore (agent : string).

Definition layered_run (op : LayeredOp) m : LayeredMemory :=
  match op with
  | Op_store e => snd (store m e)
  | Op_store_checked e quota => snd (store_checked m e quota)
  | Op_create i e quota => snd (create_durable i m e quota)
  | Op_create_batch i es quota => snd (create_batch_durable i m es quota)
  | Op_create_working_batch i es quota => snd (create_working_batch_durable i m es quota)
  | Op_update i now id agent ns entry content =>
      snd (update_working_durable i now id m agent ns entry content)
  | Op_delete i now id agent ns entry => snd (delete_working_durable i now id m agent ns entry)
  | Op_recall now agent => snd (recall_with_tracking now m agent)
  | Op_touch now agent entry => snd (touch_entry now m agent entry)
  | Op_evict agent => snd (evict_ephemeral m agent)
  | Op_clear agent => snd (clear_ephemeral m agent)
  | Op_restore agent => snd (restore_agent m agent)
  end.

Definition layered_step m m' : Prop := exists op, layered_run op m = m'.

Lemma store_inner_coherent m e : e_tier e = Tier_Ephemeral -> coherent m -> coherent (store_inner m e).
Proof.
  intros He. apply coherent_same; [by apply put_tier_ledger|]. intros role t Ht.
  unfold store_inner. rewrite get_tier_put, He. case_decide as Hd; [by destruct Hd|done].
Qed.

Lemma store_coherent m e : coherent m -> coherent (snd (store m e)).
Proof.
  intros Hco. unfold store, map_err. destruct (seal_root_identity e) as [e'|]; [|done].
  destruct (negb _) eqn:Ht; [done|]. breflect. cbn. apply store_inner_coherent; [done|].
  unfold tick. destruct (_ <=? _)%Z; by apply (coherent_same m).
Qed.

Lemma sealed_agent e e' : sealed e = Ok e' -> e_agent_id e' = e_agent_id e /\ e_tier e' = e_tier e.
Proof.
  unfold sealed, seal_root_identity, map_err. intros Hs.
  destruct (if str_eqb (e_canonical_content_hash e) "" then _ else _); [|done].
  by apply Ok_inj in Hs as <-.
Qed.

Lemma touch_working_coherent m a : coherent m -> coherent (touch_working m a).
Proof.
  apply coherent_same; [by apply put_tier_ledger|]. intros role t _. by rewrite touch_working_same.
Qed.

Lemma touch_working_ledger m a : lm_ledger (touch_working m a) = lm_ledger m.
Proof. apply put_tier_ledger. Qed.

(** A single root: the commit and the publication that follows it. *)
Lemma root_coherent i m l role tier e r c l' :
  coherent m -> lm_ledger m = Some l -> from_entry e = Ok r -> e_agent_id e = role ->
  lg_commit_expected i l role tier Absent r = (Ok c, l') ->
  coherent (put_tier (with_ledger (Some l') m) tier role
    (get_tier m role tier ++ [published_at (c_committed_at c) e])).
Proof.
  intros Hco Hl Hr Hrole Hc. destruct (Hco _ Hl) as [Hok _].
  apply (coherent_append m l l' role tier [e] [r] [c]); [done|done|by eapply lg_root|].
  by repeat constructor.
Qed.

Lemma create_working_coherent i m e quota :
  coherent m -> coherent (snd (create_working_durable i m e quota)).
Proof.
  intros Hco. unfold create_working_durable. destruct (sealed e) as [e'|]; [|done].
  destruct (lm_ledger m) as [l|] eqn:Hl; [|done]. cbn zeta.
  pose proof (touch_working_coherent m (e_agent_id e') Hco) as Hco'.
  destruct (_ && _); [done|]. destruct (from_entry e') as [r|] eqn:Hr; [|done].
  destruct (lg_commit_expected _ _ _ _ _ _) as [[c|] l'] eqn:Hc; cbn [snd].
  - eapply root_coherent; try done.
  - eapply coherent_failed; [done|by rewrite touch_working_ledger|]. eapply lg_failed; [|done].
    by destruct (Hco _ Hl).
Qed.

Lemma create_coherent i m e quota : coherent m -> coherent (snd (create_durable i m e quota)).
Proof.
  intros Hco. unfold create_durable. destruct (bool_decide _); [by apply create_working_coherent|].
  destruct (bool_decide _); [done|]. destruct (sealed e) as [e'|]; [|done].
  destruct (lm_ledger m) as [l|] eqn:Hl; [|done]. destruct (_ && _); [done|].
  destruct (from_entry e') as [r|] eqn:Hr; [|done].
  destruct (lg_commit_expected _ _ _ _ _ _) as [[c|] l'] eqn:Hc; cbn [snd].
  - unfold store_inner. cbn [published_at e_tier e_agent_id]. rewrite get_tier_ledger. by eapply root_coherent.
  - eapply coherent_failed; [done..|]. eapply lg_failed; [|done]. by destruct (Hco _ Hl).
Qed.

Lemma seal_batch_agent category agent tier es es' :
  seal_batch category agent tier es = Ok es' -> Forall (fun e => e_agent_id e = agent) es'.
Proof.
  unfold seal_batch. intros Hs%try_map_Ok_Forall2. apply Forall_forall. intros e He.
  apply list_elem_of_lookup_1 in He as [i Hi].
  destruct (Forall2_lookup_r _ _ _ _ _ Hs Hi) as (e0 & _ & He0). cbn in He0.
  destruct (_ || _) eqn:Hb in He0; [done|]. breflect.
  apply sealed_agent in He0 as [-> _]. done.
Qed.

(** A batch: the commit and the publication that follows it. *)
Lemma batch_coherent i m l role tier es rs cs l' :
  coherent m -> lm_ledger m = Some l -> try_map from_entry es = Ok rs ->
  Forall (fun e => e_agent_id e = role) es -> lg_commit_roots i l role tier rs = (Ok cs, l') ->
  coherent (put_tier (with_ledger (Some l') m) tier role (get_tier m role tier ++ publish_batch es cs)).
Proof.
  intros Hco Hl Hrs Hag Hc. destruct (Hco _ Hl) as [Hok _].
  eapply coherent_append; [done..|by eapply lg_roots|].
  apply try_map_Ok_Forall2 in Hrs. clear -Hrs Hag.
  induction Hrs; [constructor|]. apply Forall_cons in Hag as [? ?]. by constructor; auto.
Qed.

Lemma create_batch_coherent i m es quota : coherent m -> coherent (snd (create_batch_durable i m es quota)).
Proof.
  intros Hco. unfold create_batch_durable. destruct es as [|e0 es]; [done|]. cbn zeta.
  destruct (bool_decide _); [done|]. destruct (seal_batch _ _ _ _) as [es'|] eqn:Hs; [|done].
  destruct (over_quota _ _ _); [done|]. destruct (lm_ledger m) as [l|] eqn:Hl; [|done].
  destruct (try_map from_entry es') as [rs|] eqn:Hrs; [|done].
  destruct (lg_commit_roots _ _ _ _ _) as [[cs|] l'] eqn:Hc; cbn [snd].
  - eapply batch_coherent; [done..|by eapply seal_batch_agent|done].
  - eapply coherent_failed; [done..|]. eapply lg_roots_failed; [|done]. by destruct (Hco _ Hl).
Qed.

Lemma create_working_batch_coherent i m es quota :
  coherent m -> coherent (snd (create_working_batch_durable i m es quota)).
Proof.
  intros Hco. unfold create_working_batch_durable. destruct es as [|e0 es]; [done|]. cbn zeta.
  destruct (seal_batch _ _ _ _) as [es'|] eqn:Hs; [|done].
  destruct (lm_ledger m) as [l|] eqn:Hl; [|done].
  pose proof (touch_working_coherent m (e_agent_id e0) Hco) as Hco'.
  destruct (over_quota _ _ _); [done|].
  destruct (try_map from_entry es') as [rs|] eqn:Hrs; [|done].
  destruct (lg_commit_roots _ _ _ _ _) as [[cs|] l'] eqn:Hc; cbn [snd].
  - eapply batch_coherent; [done|by rewrite touch_working_ledger|done|by eapply seal_batch_agent|done].
  - eapply coherent_failed; [done|by rewrite touch_working_ledger|]. eapply lg_roots_failed; [|done].
    by destruct (Hco _ Hl).
Qed.

(** Durable entries of a coherent memory belong to the role they are kept
    under. *)
Lemma coherent_agent m l role t e :
  coherent m -> lm_ledger m = Some l -> t <> Tier_Ephemeral -> e ∈ get_tier m role t ->
  e_agent_id e = role /\ exists r, r ∈ lg_records l role t /\ durable e = durable (into_runtime_entry r role).
Proof.
  intros Hco Hl Ht He. destruct (Hco _ Hl) as [_ Hc]. specialize (Hc role t Ht).
  assert (durable e ∈ durable <$> get_tier m role t) as Hin by (by apply list_elem_of_fmap_2).
  rewrite Hc in Hin. apply list_elem_of_fmap in Hin as (x & Hx & (r & -> & Hr)%list_elem_of_fmap).
  split; [exact (f_equal e_agent_id Hx)|eauto].
Qed.

(** A mutation that appends one revision after an entry of the vector. *)
Definition appending
    (mutate : list MemoryEntry -> result DurableMemoryMutationError (MemoryEntry + list MemoryEntry))
    (next : MemoryEntry -> MemoryEntry) (entry_id : string) : Prop :=
  forall live c, mutate live = Ok (inr c) ->
    exists previous, previous ∈ live /\ e_id previous = entry_id /\ c = live ++ [next previous] /\
      e_agent_id (next previous) = e_agent_id previous /\ opt_is_some (e_deleted_at previous) = false.

(** What a mutation does: nothing to the tiers, or it appends the published
    revision under its origin. *)
Lemma mutation_cases i m role entry_id mutate next l :
  lm_ledger m = Some l -> appending mutate next entry_id ->
  match commit_working_mutation i m role entry_id mutate with
  | (Err _, m') => m' = m \/ exists exp r e l', lg_commit_expected i l role Tier_Working exp r = (Err e, l') /\
      m' = with_ledger (Some l') m
  | (Ok e, m') => (m' = m /\ exists origin, mutate (get_tier m origin Tier_Working) = Ok (inl e)) \/
      exists origin previous r c l',
      lg_origin_for_revision l role entry_id true = Ok (Some origin) /\
      previous ∈ get_tier m origin Tier_Working /\ e_id previous = entry_id /\
      e_agent_id (next previous) = e_agent_id previous /\ opt_is_some (e_deleted_at previous) = false /\
      from_entry (next previous) = Ok r /\
      lg_commit_expected i l role Tier_Working (ExpectedRevision entry_id) r = (Ok c, l') /\
      e = published_at (c_committed_at c) (next previous) /\
      m' = put_tier (with_ledger (Some l') m) Tier_Working origin (get_tier m origin Tier_Working ++ [e])
  end.
Proof.
  intros Hl Happ. unfold commit_working_mutation, map_err. rewrite Hl.
  destruct (lg_origin_for_revision _ _ _ _) as [[origin|]|]; [|by left..].
  destruct (lm_working m !! origin) as [live|] eqn:Hlive; [|by left].
  assert (get_tier m origin Tier_Working = live) as Hg by (unfold get_tier; cbn; by rewrite Hlive).
  destruct (mutate live) as [[e|c]|] eqn:Hm; [left; split; [done|]; exists origin; by rewrite Hg| |by left].
  apply Happ in Hm as (previous & Hin & Hid & -> & Hag & Hd). rewrite last_snoc. cbn [mbind option_bind].
  destruct (str_eqb _ _); [by left|]. destruct (from_entry _) as [r|] eqn:Hr; [|by left].
  destruct (lg_commit_expected _ _ _ _ _ _) as [[c|err] l'] eqn:Hc; right; [|eauto 10].
  exists origin, previous, r, c, l'. rewrite removelast_last, Hg. by split_and!.
Qed.

Lemma mutation_coherent i m role entry_id mutate next :
  appending mutate next entry_id -> coherent m ->
  coherent (snd (commit_working_mutation i m role entry_id mutate)).
Proof.
  intros Happ Hco. destruct (lm_ledger m) as [l|] eqn:Hl;
    [|unfold commit_working_mutation; by rewrite Hl].
  destruct (Hco _ Hl) as [Hok _]. pose proof (mutation_cases i m role entry_id mutate next l Hl Happ) as Hc.
  destruct (commit_working_mutation _ _ _ _ _) as [[e|] m']; cbn [snd].
  - destruct Hc as [[-> _]|(origin & previous & r & c & l' & Ho & Hp & Hid & Hag & _ & Hr & Hc & -> & ->)]; [done|].
    apply (coherent_append m l l' origin Tier_Working [next previous] [r] [c]); [done..| |].
    + by eapply lg_revision.
    + constructor; [|constructor]. split; [done|]. rewrite Hag.
      by destruct (coherent_agent m l origin Tier_Working previous Hco Hl ltac:(discriminate) Hp).
  - destruct Hc as [-> |(exp & r & e & l' & Hc & ->)]; [done|].
    eapply coherent_failed; [done..|by eapply lg_failed].
Qed.

(** The entries of a list found by identifier. *)
Lemma find_entry_id (entry_id : string) (l : list MemoryEntry) e :
  List.find (fun x => str_eqb (e_id x) entry_id) l = Some e -> e ∈ l /\ e_id e = entry_id.
Proof. intros [Hin Hid]%find_some. breflect. by rewrite list_elem_of_In. Qed.

Lemma update_appends now id ns entry_id content :
  appending (update_mutation now id ns entry_id content)
    (fun p => updated_entry now id (match canonical_content_hash (Text content) with Ok h => h | Err _ => "" end)
                content p) entry_id.
Proof.
  intros live c Hm. unfold update_mutation, ok_or, map_err in Hm.
  destruct (List.find _ _) as [p|] eqn:Hp; [|done]. apply find_entry_id in Hp as [Hin Hid].
  destruct (negb _); [done|]. destruct (_ || _) eqn:Hd in Hm; [done|]. apply orb_false_iff in Hd as [Hd _].
  destruct (canonical_content_hash _) as [h|]; [|done]. exists p. by simplify_eq.
Qed.

Lemma delete_appends now id ns entry_id :
  appending (delete_mutation now id ns entry_id) (tombstone_entry now id) entry_id.
Proof.
  intros live c Hm. unfold delete_mutation, ok_or in Hm.
  destruct (List.find (fun e => str_eqb (e_id e) entry_id) live) as [p|] eqn:Hp; [|done].
  apply find_entry_id in Hp as [Hin Hid].
  destruct (negb _); [done|]. destruct (opt_is_some (e_deleted_at p)) eqn:Hd; [done|].
  destruct (List.find _ _) as [child|]; [by destruct (opt_is_some (e_deleted_at child))|]. exists p. by simplify_eq.
Qed.

(** ** Runtime-only operations *)

(** Entries restored from or committed to the ledger have no time to live, so
    an access changes none of their durable fields. *)
Lemma map_tier_coherent f m agent t :
  (forall e, e_original_ttl_ms e = None -> durable (f e) = durable e) ->
  coherent m -> coherent (map_tier f agent t m).
Proof.
  intros Hf Hco. unfold map_tier. destruct (tier_map m t !! agent) as [es|] eqn:He; [|done].
  intros l Hl. rewrite put_tier_ledger in Hl. destruct (Hco _ Hl) as [Hok Hc]. split; [done|].
  intros role t' Ht'. rewrite get_tier_put. case_decide as Hd; [|by apply Hc]. destruct Hd as [-> ->].
  rewrite <-Hc by done.
  assert (get_tier m agent t = es) as Hes by (unfold get_tier; by rewrite He). rewrite Hes.
  rewrite <-list_fmap_compose. apply list_fmap_ext. intros i e Hi. apply Hf.
  destruct (coherent_agent m l agent t e Hco Hl Ht') as [_ (r & _ & Hr)].
  - rewrite Hes. by eapply list_elem_of_lookup_2.
  - exact (f_equal e_original_ttl_ms Hr).
Qed.

Lemma accessed_durable count now e : durable (accessed count now (e_ttl_ms e) e) = durable e.
Proof. done. Qed.

Lemma on_access_durable now e : e_original_ttl_ms e = None -> durable (on_memory_access now e) = durable e.
Proof. intros He. unfold on_memory_access. by rewrite He. Qed.

Lemma recall_coherent now m agent : coherent m -> coherent (snd (recall_with_tracking now m agent)).
Proof.
  intros Hco. cbn [recall_with_tracking snd]. unfold ALL_TIERS. cbn [foldl].
  by repeat (apply map_tier_coherent; [apply on_access_durable|]).
Qed.

Lemma touch_first_durable now id es es' :
  touch_first now id es = Some es' -> durable <$> es' = durable <$> es.
Proof.
  revert es'. induction es as [|e es IH]; intros es' Ht; [done|]. cbn in Ht.
  destruct (str_eqb _ _); [by injection Ht as <-|].
  destruct (touch_first now id es) as [rest|] eqn:Hr; [|done]. injection Ht as <-.
  cbn. f_equal. by apply IH.
Qed.

Lemma touch_coherent now m agent id tiers :
  coherent m -> coherent (snd (touch_tiers now agent id tiers m)).
Proof.
  intros Hco. induction tiers as [|t tiers IH]; [done|]. cbn [touch_tiers].
  destruct (tier_map m t !! agent) as [es|] eqn:He; cbn [mbind option_bind]; [|done].
  destruct (touch_first now id es) as [es'|] eqn:Ht; [|done]. cbn [snd].
  apply (coherent_same m); [by apply put_tier_ledger| |done]. intros role t' _. rewrite get_tier_put.
  case_decide as Hd; [|done]. destruct Hd as [-> ->]. unfold get_tier. rewrite He. cbn.
  by eapply touch_first_durable.
Qed.

Lemma drop_ephemeral_coherent m x : coherent m -> coherent (set_tier_map Tier_Ephemeral x m).
Proof. apply coherent_same; [done|]. by intros role []. Qed.

(** ** Restoring *)

Lemma restored_tier_records l role gs t :
  (forall t, t <> Tier_Ephemeral ->
     default [] (snd <$> last (filter (fun g => fst g = t) gs)) = lg_records l role t) ->
  t <> Tier_Ephemeral ->
  default [] (restored_tier role gs t) = (fun r => into_runtime_entry r role) <$> lg_records l role t.
Proof.
  intros Hgs Ht. rewrite <-Hgs by done. unfold restored_tier. clear Hgs.
  induction gs as [|g gs IH] using rev_ind; [done|].
  rewrite omap_app, filter_app, filter_cons, filter_nil. cbn [omap list_omap].
  destruct (decide (fst g = t)) as [Hg|Hg]; cbn; [by rewrite !last_snoc|by rewrite !app_nil_r].
Qed.

(** A restored role holds exactly what the ledger has under it. *)
Lemma restore_agent_spec m l role :
  lm_ledger m = Some l -> lg_ok l ->
  exists m', restore_agent m role = (Ok tt, m') /\ lm_ledger m' = Some l /\
    forall role' t, get_tier m' role' t =
      if decide (role' = role /\ t <> Tier_Ephemeral)
      then (fun r => into_runtime_entry r role) <$> lg_records l role t else get_tier m role' t.
Proof.
  intros Hl Hok. unfold restore_agent. rewrite Hl. destruct (lg_rebuilds l role Hok) as (gs & -> & Hgs).
  eexists. split; [reflexivity|]. split; [done|]. intros role' t.
  assert (forall t0, t0 <> Tier_Ephemeral -> forall x : gmap string (list MemoryEntry),
    default [] (match restored_tier role gs t0 with
                | Some es => <[role := es]> x | None => delete role x end !! role') =
    if decide (role' = role) then (fun r => into_runtime_entry r role) <$> lg_records l role t0
    else default [] (x !! role')) as Hx.
  { intros t0 Ht0 x. rewrite <-(restored_tier_records l role gs t0 Hgs Ht0).
    destruct (decide (role' = role)) as [-> |Hne], (restored_tier role gs t0);
      by rewrite ?lookup_insert_eq, ?lookup_delete_eq, ?lookup_insert_ne, ?lookup_delete_ne by done. }
  unfold get_tier. destruct t; cbn.
  - rewrite decide_False by naive_solver. done.
  - rewrite Hx by done. destruct (decide (role' = role)); [rewrite decide_True by done|rewrite decide_False by naive_solver]; done.
  - rewrite Hx by done. destruct (decide (role' = role)); [rewrite decide_True by done|rewrite decide_False by naive_solver]; done.
  - rewrite Hx by done. destruct (decide (role' = role)); [rewrite decide_True by done|rewrite decide_False by naive_solver]; done.
Qed.

Lemma restore_coherent m role : coherent m -> coherent (snd (restore_agent m role)).
Proof.
  intros Hco. destruct (lm_ledger m) as [l|] eqn:Hl; [|unfold restore_agent; by rewrite Hl].
  destruct (Hco _ Hl) as [Hok Hc]. destruct (restore_agent_spec m l role Hl Hok) as (m' & -> & Hl' & Hg).
  cbn. apply (coherent_same m); [congruence| |done]. intros role' t Ht. rewrite Hg.
  case_decide as Hd; [|done]. destruct Hd as [-> _]. symmetry. by apply Hc.
Qed.

Lemma run_coherent op m : coherent m -> coherent (layered_run op m).
Proof.
  intros Hco. destruct op; cbn [layered_run].
  - by apply store_coherent.
  - unfold store_checked. destruct (_ && _); [done|by apply store_coherent].
  - by apply create_coherent.
  - by apply create_batch_coherent.
  - by apply create_working_batch_coherent.
  - unfold update_working_durable. destruct (blank _); [done|].
    eapply mutation_coherent; [apply update_appends|done].
  - eapply mutation_coherent; [apply delete_appends|done].
  - by apply recall_coherent.
  - by apply touch_coherent.
  - by apply drop_ephemeral_coherent.
  - by apply drop_ephemeral_coherent.
  - by apply restore_coherent.
Qed.

(** ** Restarts *)

Lemma restore_roles_spec m l roles :
  lm_ledger m = Some l -> lg_ok l ->
  exists m', restore_roles m roles = (Ok tt, m') /\ lm_ledger m' = Some l /\
    forall role t, t <> Tier_Ephemeral -> get_tier m' role t =
      if decide (role ∈ roles) then (fun r => into_runtime_entry r role) <$> lg_records l role t
      else get_tier m role t.
Proof.
  intros Hl Hok. revert m Hl. induction roles as [|x roles IH]; intros m Hl.
  - exists m. split_and!; [done..|]. intros role t _. by rewrite decide_False by set_solver.
  - cbn [restore_roles]. destruct (restore_agent_spec m l x Hl Hok) as (m1 & -> & Hl1 & Hg1).
    destruct (IH m1 Hl1) as (m2 & -> & Hl2 & Hg2). exists m2. split_and!; [done..|].
    intros role t Ht. rewrite Hg2, Hg1 by done. destruct (decide (role ∈ roles)) as [Hin|Hin].
    + by rewrite decide_True by set_solver.
    + destruct (decide (role = x)) as [-> |Hne].
      * rewrite !decide_True; [done|set_solver|done].
      * rewrite !decide_False; [done|set_solver|naive_solver].
Qed.

(** Opening the kernel on a ledger gives a memory that agrees with it. *)
Lemma restore_memories_spec l :
  lg_ok l -> exists m, restore_memories l (set_ledger layered_new l) = (Ok tt, m) /\
    coherent m /\ lm_ledger m = Some l.
Proof.
  intros Hok. unfold restore_memories. destruct (lg_lists l Hok) as (roles & -> & Hroles).
  destruct (restore_roles_spec (set_ledger layered_new l) l roles eq_refl Hok) as (m & -> & Hl & Hg).
  exists m. split_and!; [done| |done]. intros l' Hl'. assert (l' = l) as -> by congruence. split; [done|].
  intros role t Ht. rewrite Hg by done. case_decide as Hd; [done|].
  destruct (lg_records l role t) as [|r rs] eqn:Hr.
  - unfold get_tier. by destruct t.
  - destruct Hd. apply (Hroles role t). by rewrite Hr.
Qed.

(** A kernel opens without ephemeral memories. *)
Lemma restore_memories_ephemeral l m role :
  lg_ok l -> restore_memories l (set_ledger layered_new l) = (Ok tt, m) -> get_tier m role Tier_Ephemeral = [].
Proof.
  intros Hok. unfold restore_memories. destruct (lg_lists l Hok) as (roles & -> & _).
  assert (get_tier (set_ledger layered_new l) role Tier_Ephemeral = []) as Hnew by done.
  assert (lm_ledger (set_ledger layered_new l) = Some l) as Hl by done. revert Hnew Hl.
  generalize (set_ledger layered_new l). intros m0. revert m0.
  induction roles as [|x roles IH]; intros m0 Hm0 Hl Hr; cbn [restore_roles] in Hr; [congruence|].
  destruct (restore_agent_spec m0 l x Hl Hok) as (m1 & Hm1 & Hl1 & Hg). rewrite Hm1 in Hr.
  apply (IH m1); [|done..]. rewrite Hg, decide_False by naive_solver. done.
Qed.

(** A memory some kernel reached after it was opened on a ledger. *)
Definition reachable m : Prop :=
  exists l m0, lg_ok l /\ restore_memories l (set_ledger layered_new l) = (Ok tt, m0) /\
    rtc layered_step m0 m.

Lemma reachable_coherent m : reachable m -> coherent m.
Proof.
  intros (l & m0 & Hok & Hm0 & Hs). destruct (restore_memories_spec l Hok) as (m1 & Hm1 & Hco & _).
  assert (m0 = m1) as -> by congruence. clear Hm0 Hm1.
  induction Hs as [m|m m' m'' [op <-] _ IH]; [done|]. by apply IH, run_coherent.
Qed.

(** ** Heads *)

(** The active heads after a child of [id] is appended. *)
Lemma active_snoc live e id :
  e_parent_revision_id e = Some id -> e_id e <> id -> e_id e ∉ omap e_parent_revision_id live ->
  active_revisions (live ++ [e]) =
  List.filter (fun x => negb (str_eqb (e_id x) id)) (active_revisions live)
  ++ if opt_is_some (e_deleted_at e) || opt_is_some (e_superseded_by e) then [] else [e].
Proof.
  intros Hp Hne Hfresh. unfold active_revisions. rewrite omap_app. cbn. rewrite Hp.
  rewrite List.filter_app, lfilter_filter. f_equal.
  - apply filter_ext. intros x. rewrite str_mem_snoc. by destruct (str_mem _ _), (str_eqb _ _), (opt_is_some _), (opt_is_some _).
  - cbn. rewrite str_mem_snoc. unfold str_mem, str_eqb.
    rewrite !bool_decide_false by done. cbn. by destruct (opt_is_some _), (opt_is_some _).
Qed.

(** The new identifier is fresh in the vector it is appended to. *)
Lemma appended_fresh m l l' origin r c previous e :
  coherent m -> lm_ledger m = Some l -> lg_appends l l' origin Tier_Working [r] [c] ->
  previous ∈ get_tier m origin Tier_Working -> r_revision_id r = e_id e ->
  e_id e <> e_id previous /\ e_id e ∉ omap e_parent_revision_id (get_tier m origin Tier_Working).
Proof.
  intros Hco Hl [_ _ _ _ Hf _] Hp Hid.
  assert (forall x, x ∈ get_tier m origin Tier_Working ->
    e_id x <> e_id e /\ e_parent_revision_id x <> Some (e_id e)) as Hall.
  { intros x Hx. destruct (coherent_agent m l origin Tier_Working x Hco Hl ltac:(discriminate) Hx)
      as [_ (r0 & Hr0 & Hd)].
    destruct (Hf r r0 origin Tier_Working) as [H1' H2']; [left|done|].
    rewrite Hid in H1', H2'. split.
    - intros Heq. apply H1'. rewrite <-Heq. symmetry. exact (f_equal e_id Hd).
    - intros Heq. apply H2'. rewrite <-Heq. symmetry. exact (f_equal e_parent_revision_id Hd). }
  split; [destruct (Hall previous Hp); congruence|].
  intros (x & Hx & Heq)%list_elem_of_omap. by apply (Hall x Hx).
Qed.

Lemma from_entry_id e r : from_entry e = Ok r -> r_revision_id r = e_id e.
Proof.
  unfold from_entry, entry_to_revision, map_err. intros He.
  repeat match type of He with context [if ?b then _ else _] => destruct b; [done|] end.
  by apply Ok_inj in He as <-.
Qed.

(** A successful mutation moves one head of its origin. *)
Lemma mutation_moves_head i m role entry_id mutate next e m' :
  coherent m -> appending mutate next entry_id ->
  (forall p, e_parent_revision_id (next p) = Some (e_id p)) ->
  (forall p, opt_is_some (e_superseded_by (next p)) = false) ->
  commit_working_mutation i m role entry_id mutate = (Ok e, m') ->
  (m' = m /\ exists live, mutate live = Ok (inl e)) \/
  exists origin p t, e = published_at t (next p) /\ e_id p = entry_id /\
    p ∈ get_tier m origin Tier_Working /\
    get_active_tier m' origin Tier_Working =
      List.filter (fun x => negb (str_eqb (e_id x) entry_id)) (get_active_tier m origin Tier_Working)
      ++ (if opt_is_some (e_deleted_at e) then [] else [e]) /\
    forall role t, ~ (role = origin /\ t = Tier_Working) -> get_tier m' role t = get_tier m role t.
Proof.
  intros Hco Happ Hpar Hsup Hc. destruct (lm_ledger m) as [l|] eqn:Hl;
    [|unfold commit_working_mutation in Hc; by rewrite Hl in Hc].
  pose proof (mutation_cases i m role entry_id mutate next l Hl Happ) as Hm. rewrite Hc in Hm.
  destruct Hm as [|(origin & p & r & c & l' & Ho & Hp & Hid & Hag & _ & Hr & Hcm & -> & ->)]; [left; naive_solver|].
  right. exists origin, p, (c_committed_at c). destruct (Hco _ Hl) as [Hok _].
  pose proof (lg_revision _ _ _ _ _ _ _ _ _ Hok Ho Hcm) as Happd.
  destruct (appended_fresh m l l' origin r c p (next p) Hco Hl Happd Hp (from_entry_id _ _ Hr)) as [Hne Hfr].
  split_and!; [done..| |].
  - unfold get_active_tier. rewrite get_tier_put, decide_True by done.
    rewrite (active_snoc _ _ entry_id); cbn [published_at e_parent_revision_id e_id e_deleted_at e_superseded_by];
      [|by rewrite Hpar, Hid|congruence|done].
    rewrite Hsup, orb_false_r. done.
  - intros role' t Hn. by rewrite get_tier_put, decide_False, get_tier_ledger.
Qed.

(** ** Quotas *)

Lemma count_put m t a es :
  count_for_agent (put_tier m t a (get_tier m a t ++ es)) a = count_for_agent m a + length es.
Proof.
  unfold count_for_agent. rewrite !get_tier_put.
  destruct t; repeat case_decide; destruct_and?; try discriminate;
    rewrite ?length_app; try lia; exfalso; naive_solver.
Qed.

Lemma count_commit m o t a es :
  count_for_agent (put_tier (with_ledger o m) t a (get_tier m a t ++ es)) a =
  count_for_agent m a + length es.
Proof. rewrite <-(get_tier_ledger m o a t). etrans; [apply count_put|done]. Qed.

Lemma count_touch m a : count_for_agent (touch_working m a) a = count_for_agent m a.
Proof. unfold count_for_agent. by rewrite !touch_working_same. Qed.

Lemma publish_batch_length es cs : length (publish_batch es cs) = length es.
Proof. revert cs. induction es as [|e es IH]; intros [|c cs]; cbn; auto. Qed.

Lemma seal_batch_length category agent tier es es' :
  seal_batch category agent tier es = Ok es' -> length es' = length es.
Proof. unfold seal_batch. intros Hs%try_map_Ok_Forall2. by apply Forall2_length in Hs. Qed.

Lemma below_quota quota n : (0 <? quota)%Z && (quota <=? Z.of_nat n)%Z = false ->
  (0 < quota)%Z -> (Z.of_nat (n + 1) <= quota)%Z.
Proof. intros Hb Hq. apply andb_false_iff in Hb as [Hb|Hb]; breflect; lia. Qed.

Lemma batch_below_quota quota n k : over_quota quota n k = false ->
  (0 < quota <= u64_max)%Z -> (Z.of_nat (n + k) <= quota \/ quota = u64_max)%Z.
Proof. unfold over_quota. intros Hb Hq. apply andb_false_iff in Hb as [Hb|Hb]; breflect; lia. Qed.

Lemma create_within_quota i m e quota e' m' :
  (0 < quota)%Z -> create_durable i m e quota = (Ok e', m') ->
  (Z.of_nat (count_for_agent m' (e_agent_id e)) <= quota)%Z.
Proof.
  intros Hq Hc. unfold create_durable in Hc. destruct (bool_decide (e_tier e = Tier_Working)).
  - unfold create_working_durable in Hc. destruct (sealed e) as [x|] eqn:Hs; [|done].
    apply sealed_agent in Hs as [<- _]. destruct (lm_ledger m); [|done]. cbn zeta in Hc.
    destruct (_ && _) eqn:Hb in Hc; [done|]. destruct (from_entry x); [|done].
    destruct (lg_commit_expected _ _ _ _ _ _) as [[c|] l']; [|done]. apply (f_equal snd) in Hc. cbn [snd] in Hc. subst m'.
    rewrite count_commit, count_touch.
    eapply below_quota in Hb; [|done]. unfold count_for_agent. cbn [length]. lia.
  - destruct (bool_decide _); [done|]. destruct (sealed e) as [x|] eqn:Hs; [|done].
    apply sealed_agent in Hs as [<- _]. destruct (lm_ledger m); [|done].
    destruct (_ && _) eqn:Hb in Hc; [done|]. destruct (from_entry x); [|done].
    destruct (lg_commit_expected _ _ _ _ _ _) as [[c|] l']; [|done]. apply (f_equal snd) in Hc. cbn [snd] in Hc. subst m'.
    unfold store_inner. cbn [published_at e_agent_id e_tier]. rewrite get_tier_ledger, count_commit.
    by eapply below_quota in Hb.
Qed.

Lemma batch_within_quota i m e es quota es' m' :
  (0 < quota < u64_max)%Z ->
  create_batch_durable i m (e :: es) quota = (Ok es', m') \/
  create_working_batch_durable i m (e :: es) quota = (Ok es', m') ->
  (Z.of_nat (count_for_agent m' (e_agent_id e)) <= quota)%Z.
Proof.
  intros Hq [Hc|Hc]; [unfold create_batch_durable in Hc|unfold create_working_batch_durable in Hc];
    cbn zeta in Hc.
  - destruct (bool_decide _); [done|]. destruct (seal_batch _ _ _ _) as [xs|] eqn:Hs; [|done].
    destruct (over_quota _ _ _) eqn:Hb; [done|]. destruct (lm_ledger m); [|done].
    destruct (try_map _ _); [|done]. destruct (lg_commit_roots _ _ _ _ _) as [[cs|] l']; [|done].
    apply (f_equal snd) in Hc. cbn [snd] in Hc. subst m'. rewrite count_commit, publish_batch_length.
    apply batch_below_quota in Hb; lia.
  - destruct (seal_batch _ _ _ _) as [xs|] eqn:Hs; [|done]. destruct (lm_ledger m); [|done].
    destruct (over_quota _ _ _) eqn:Hb; [done|].
    destruct (try_map _ _); [|done]. destruct (lg_commit_roots _ _ _ _ _) as [[cs|] l']; [|done].
    apply (f_equal snd) in Hc. cbn [snd] in Hc. subst m'. rewrite count_commit, count_touch,
      publish_batch_length. apply batch_below_quota in Hb; [|lia]. unfold count_for_agent. lia.
Qed.

Lemma store_within_quota m e quota m' :
  (0 < quota)%Z -> store_checked m e quota = (Ok tt, m') ->
  (Z.of_nat (count_for_agent m' (e_agent_id e)) <= quota)%Z.
Proof.
  intros Hq Hc. unfold store_checked in Hc. destruct (_ && _) eqn:Hb in Hc; [done|].
  unfold store, map_err in Hc. destruct (seal_root_identity e) as [x|] eqn:Hs; [|done].
  assert (sealed e = Ok x) as [Hag _]%sealed_agent by (unfold sealed; by rewrite Hs).
  destruct (negb _); [done|]. injection Hc as <-. unfold store_inner. rewrite <-Hag, count_put, Hag.
  assert (count_for_agent (snd (tick m)) (e_agent_id e) = count_for_agent m (e_agent_id e)) as ->
    by (unfold tick; destruct (DEFAULT_PERSIST_OP_COUNT <=? _)%Z; reflexivity).
  eapply below_quota in Hb; [|done]. exact Hb.
Qed.

(** C5: a restart loses nothing durable.  After any operations on a memory the
    kernel opened on a ledger, a kernel opened on the ledger as it is then shows
    every agent the same entries in every durable tier, in the same order, up to
    the counters that are runtime-only. *)
Theorem restart_loses_nothing m l :
  reachable m -> lm_ledger m = Some l ->
  exists m', restore_memories l (set_ledger layered_new l) = (Ok tt, m') /\
    forall role t, t <> Tier_Ephemeral ->
      durable <$> get_tier m' role t = durable <$> get_tier m role t.
Proof.
  intros Hr Hl. destruct (reachable_coherent m Hr l Hl) as [Hok Hc].
  destruct (restore_memories_spec l Hok) as (m' & Hm' & Hco' & Hl'). exists m'. split; [done|].
  intros role t Ht. destruct (Hco' _ Hl') as [_ Hc']. by rewrite Hc, Hc'.
Qed.

(** A successful update of a working memory appends one revision under the
    memory's origin: the updated revision stops being an active head, the new
    one with the new content becomes one, and no other head, tier or agent
    changes. *)
Lemma update_replaces_head i now new_id m agent namespace entry_id content e m' :
  reachable m ->
  update_working_durable i now new_id m agent namespace entry_id content = (Ok e, m') ->
  e_content e = Text content /\ e_parent_revision_id e = Some entry_id /\ e_id e = new_id /\
  exists origin,
    get_active_tier m' origin Tier_Working =
      List.filter (fun x => negb (str_eqb (e_id x) entry_id)) (get_active_tier m origin Tier_Working)
      ++ [e] /\
    forall role t, ~ (role = origin /\ t = Tier_Working) -> get_tier m' role t = get_tier m role t.
Proof.
  intros Hr%reachable_coherent Hu. unfold update_working_durable in Hu. destruct (blank content); [done|].
  destruct (mutation_moves_head _ _ _ _ _ _ _ _ Hr (update_appends now new_id namespace entry_id content)
    ltac:(done) ltac:(done) Hu) as [[_ [live Hl]]|(origin & p & t & -> & Hid & _ & Hact & Hrest)].
  - unfold update_mutation, ok_or, map_err in Hl. by ok_inv Hl.
  - cbn in *. rewrite Hid. split_and!; [done..|]. by exists origin.
Qed.

(** A successful deletion of a working memory appends a tombstone: the
    deleted revision stops being an active head and nothing takes its place, and
    no other head, tier or agent changes; deleting again returns the tombstone
    and changes nothing. *)
Lemma delete_removes_head i now new_id m agent namespace entry_id e m' :
  reachable m ->
  delete_working_durable i now new_id m agent namespace entry_id = (Ok e, m') ->
  opt_is_some (e_deleted_at e) = true /\ e_parent_revision_id e = Some entry_id /\
  (m' = m \/ exists origin,
    get_active_tier m' origin Tier_Working =
      List.filter (fun x => negb (str_eqb (e_id x) entry_id)) (get_active_tier m origin Tier_Working) /\
    forall role t, ~ (role = origin /\ t = Tier_Working) -> get_tier m' role t = get_tier m role t).
Proof.
  intros Hr%reachable_coherent Hu. unfold delete_working_durable in Hu.
  destruct (mutation_moves_head _ _ _ _ _ _ _ _ Hr (delete_appends now new_id namespace entry_id)
    ltac:(done) ltac:(done) Hu) as [[-> [live Hl]]|(origin & p & t & -> & Hid & _ & Hact & Hrest)].
  - unfold delete_mutation, ok_or in Hl. destruct (List.find _ live); [|done].
    destruct (negb _); [done|]. destruct (opt_is_some _); [done|].
    destruct (List.find _ live) as [child|] eqn:Hf; [|done].
    destruct (opt_is_some (e_deleted_at child)) eqn:Hd; [|done]. simplify_eq.
    apply find_some in Hf as [_ Hf]. breflect. by split_and!; [..|left].
  - cbn in *. rewrite Hid, app_nil_r in *. split_and!; [done..|]. right. by exists origin.
Qed.

(** Creation respects the quota: whatever creates entries with a quota, one
    by one or in a batch, leaves the agent with at most that many entries over
    all tiers. *)
Lemma creation_within_quota m quota :
  (0 < quota < u64_max)%Z ->
  (forall e m', store_checked m e quota = (Ok tt, m') ->
     (Z.of_nat (count_for_agent m' (e_agent_id e)) <= quota)%Z) /\
  (forall i e e' m', create_durable i m e quota = (Ok e', m') ->
     (Z.of_nat (count_for_agent m' (e_agent_id e)) <= quota)%Z) /\
  (forall i e es es' m', create_batch_durable i m (e :: es) quota = (Ok es', m') \/
     create_working_batch_durable i m (e :: es) quota = (Ok es', m') ->
     (Z.of_nat (count_for_agent m' (e_agent_id e)) <= quota)%Z).
Proof.
  intros Hq. split_and!.
  - intros e m'. apply store_within_quota. lia.
  - intros i e e' m'. apply create_within_quota. lia.
  - intros i e es es' m'. by apply batch_within_quota.
Qed.
End coherence.
