(* ===== verification/LedgerInstance.v ===== *)
(** * The ledger store behind the layered memory

    The store of the canonical ledger implements the interface the layered
    memory is written against, and its commits satisfy the laws the layered
    memory's theorems assume. *)

From stdpp Require Import base gmap strings list sorting.
From S2P Require Import Prelude Wire MemoryModel LedgerModel LedgerValidate LedgerView LedgerStorage.
From S2P Require Import LedgerStore LedgerQueries LedgerChains LedgerDurability LedgerCommits.
From S2P Require Import LedgerAccess DocPlatform LayeredMemory LayeredProps.

(** ** The implementation *)

(** What a call of the ledger draws from outside. *)
Record CasInput := mkCasInput {
  ci_io : IoPlan;
  ci_now : Z;
  ci_new_v4 : nat -> string;
  ci_flush : option IoError;
}.

(** [impl CanonicalLedger for CASCanonicalLedger] *)
Definition cas_ledger `{LedgerCodec} : CanonicalLedger := {|
  Ledger := LedgerState * ImmutableLedgerStorage;
  LedgerInput := CasInput;
  lg_commit_expected i l role tier expected r :=
    let '(res, S', st') := commit_expected (ci_io i) (ci_now i) (ci_new_v4 i) (snd l) (fst l)
                             role tier expected r in (res, (S', st'));
  lg_commit_roots i l role tier rs :=
    let '(res, S', st') := commit_roots (ci_io i) (ci_now i) (ci_new_v4 i) (snd l) (fst l)
                             role tier rs in (res, (S', st'));
  lg_rebuild_origin_role l := rebuild_origin_role (fst l);
  lg_list_origin_roles l := list_origin_roles (fst l);
  lg_readable_active_revision_ids l := readable_active_revision_ids (fst l);
  lg_origin_for_revision l := origin_for_revision (fst l);
  lg_flush i _ := match ci_flush i with Some e => Err (Io e) | None => Ok tt end
|}.
#[export] Existing Instance cas_ledger.

(** ** Its contract *)

Definition tier_records_of (S : LedgerState) (role : string) (t : MemoryTier) : list CanonicalRevision :=
  List.filter (fun r => bool_decide (r_cognitive_tier r = t))
    (List.filter (fun r => bool_decide (r_memory_id r ∈ origin_memories S role)) (ls_revisions S)).

#[export] Instance cas_contract `{LedgerCodec} : LedgerContract := {|
  lg_ok := fun l : Ledger => state_ok (fst l);
  lg_records := fun l : Ledger => tier_records_of (fst l) |}.

(** The memories of an origin. *)
Lemma origin_memories_spec S role m :
  m ∈ origin_memories S role <->
  exists p, p ∈ ls_policies S /\ p_memory_id p = m /\ p_origin_role_id p = role.
Proof.
  unfold origin_memories. rewrite elem_of_list_to_set, list_elem_of_fmap. split.
  - intros (p & -> & Hp). apply list_elem_of_In, filter_In in Hp as [Hp Ho]. breflect.
    exists p. by rewrite list_elem_of_In.
  - intros (p & Hp & <- & Ho). exists p. split; [done|]. apply list_elem_of_In, filter_In.
    rewrite <-list_elem_of_In. split; [done|]. unfold str_eqb. by apply bool_decide_eq_true.
Qed.

(** Appending revisions of one origin and tier. *)
Lemma tier_records_append S S' stamped news origin tier :
  ls_revisions S' = ls_revisions S ++ stamped -> ls_policies S' = ls_policies S ++ news ->
  (forall r p, r ∈ ls_revisions S -> p ∈ news -> p_memory_id p <> r_memory_id r) ->
  (forall r role, r ∈ stamped -> r_memory_id r ∈ origin_memories S' role <-> role = origin) ->
  (forall r, r ∈ stamped -> r_cognitive_tier r = tier) ->
  forall role t, tier_records_of S' role t =
    tier_records_of S role t ++ if decide (role = origin /\ t = tier) then stamped else [].
Proof.
  intros Hr Hp Hold Hnew Htier role t. unfold tier_records_of. rewrite Hr, !List.filter_app. f_equal.
  - f_equal. apply filter_ext_in. intros r Hin. apply list_elem_of_In in Hin.
    apply bool_decide_ext. rewrite !origin_memories_spec, Hp. split.
    + intros (p & [Hq|Hq]%elem_of_app & Hm & Ho); [eauto|]. by destruct (Hold _ _ Hin Hq).
    + intros (p & Hq & Hm & Ho). exists p. split; [|done]. apply elem_of_app. by left.
  - destruct (decide (role = origin)) as [-> |Hne].
    + rewrite (lfilter_all (fun r => bool_decide (r_memory_id r ∈ origin_memories S' origin)));
        [|intros r Hin; apply bool_decide_eq_true; by apply Hnew].
      destruct (decide (t = tier)) as [-> |Hne].
      * rewrite decide_True by done. apply lfilter_all. intros r Hin. apply bool_decide_eq_true. by apply Htier.
      * rewrite decide_False by naive_solver. apply lfilter_none.
        intros r Hin. apply bool_decide_eq_false. rewrite (Htier _ Hin). congruence.
    + rewrite decide_False by naive_solver.
      rewrite (lfilter_none (fun r => bool_decide (r_memory_id r ∈ origin_memories S' role))); [done|].
      intros r Hin. apply bool_decide_eq_false. rewrite Hnew by done. done.
Qed.

Section laws.
Context `{LedgerCodec}.
Implicit Types (S : LedgerState).

(** The policies of a memory name one origin. *)
Lemma origin_unique S p q :
  state_ok S -> p ∈ ls_policies S -> q ∈ ls_policies S -> p_memory_id p = p_memory_id q ->
  p_origin_role_id p = p_origin_role_id q.
Proof.
  intros Hok Hp Hq Heq. eapply (policies_origin _ _ (p_memory_id p)); [apply (plog_ok _ _ (so_policies _ Hok))|..];
    unfold policies_of, with_key; by apply list_elem_of_filter.
Qed.

(** The identifiers a valid log refers to are its own. *)
Lemma log_fresh log stamped r r0 :
  revision_log (log ++ stamped) -> r ∈ stamped -> r0 ∈ log ->
  r_revision_id r0 <> r_revision_id r /\ r_parent_revision_id r0 <> Some (r_revision_id r).
Proof.
  intros Hl Hr Hr0. pose proof (revision_log_NoDup _ Hl) as Hnd. rewrite fmap_app in Hnd.
  apply NoDup_app in Hnd as (_ & Hdis & _).
  assert (forall x, x ∈ log -> r_revision_id x <> r_revision_id r) as Hne.
  { intros x Hx Heq. apply (Hdis (r_revision_id x)); [by apply list_elem_of_fmap_2|].
    rewrite Heq. by apply list_elem_of_fmap_2. }
  split; [by apply Hne|]. intros Hp. apply list_elem_of_split in Hr0 as (l1 & l2 & ->).
  rewrite <-app_assoc in Hl. pose proof (Hl l1 r0 (l2 ++ stamped) eq_refl) as [_ _ _ _ _ _ Hlink].
  unfold revision_link in Hlink. rewrite Hp in Hlink. destruct Hlink as (q & Hq & Hid & _).
  apply last_stream_elem in Hq as [Hq _]. apply (Hne q); [|done]. apply elem_of_app. by left.
Qed.

Lemma stamped_recorded role now first (rs : list CanonicalRevision) g k :
  Forall3 recorded rs
    ((fun r => {| c_generation := g; c_revision_sequence := r_sequence r;
                  c_revision_id := r_revision_id r; c_committed_at := now |})
       <$> imap (fun i => stamp role now first (k + i)) rs)
    (imap (fun i => stamp role now first (k + i)) rs).
Proof.
  revert k. induction rs as [|r rs IH]; intros k; cbn; constructor.
  - constructor; try done. cbn. by destruct (r_deleted_at r).
  - rewrite (imap_ext _ (fun i => stamp role now first (S k + i)));
      [|intros i x _; cbn; do 2 f_equal; lia]. apply IH.
Qed.

(** What a successful commit of [rs] appends under [origin]. *)
Lemma commit_appends io now v4 st S role tier rs exps cs S' st' origin :
  state_ok S -> commit_records io now v4 st S role tier rs exps = (Ok cs, S', st') ->
  (forall stamped news, ls_revisions S' = ls_revisions S ++ stamped -> ls_policies S' = ls_policies S ++ news ->
     stamped = imap (stamp role now (Z.of_nat (length (ls_revisions S)) + 1)) rs ->
     news = new_policies role now (Z.of_nat (length (ls_policies S)) + 1) v4 0 (zip stamped exps) ->
     state_ok S' ->
     (forall view r e, ls_view S = Some view -> (r, e) ∈ zip rs exps -> head_matches view r e) ->
     (forall r p, r ∈ ls_revisions S -> p ∈ news -> p_memory_id p <> r_memory_id r) /\
     (forall r role', r ∈ stamped -> r_memory_id r ∈ origin_memories S' role' <-> role' = origin)) ->
  lg_appends (S, st) (S', st') origin tier rs cs.
Proof.
  intros Hok Hc Hpol. apply commit_records_cases in Hc as
    [([e He] & _)|(c & b & Hp & Hb & Hg & Ha & Hst & [[Hr ->]|[Hr _]])]; [done| |done].
  apply prepare_commit_inv in Hp as (stamped & news & x & vs & rt & po & view' & Hprep & ->).
  destruct (so_root _ Hok) as (root & view & _ & Hv & _).
  assert (state_ok (committed_state S (candidate_of now S role stamped news x vs rt po view'))) as Hok' by (by eapply commit_state_ok).
  destruct (expected_facts _ _ _ _ _ _ _ _ _ _ _ _ _ _ _ Hprep Hv) as [_ Hexp].
  destruct (Hpol stamped news eq_refl eq_refl (pr_stamped Hprep) (pr_policies Hprep) Hok') as [Hold Hnew].
  { intros v r e Hv' Hin. assert (v = view) as -> by congruence. by apply Hexp. }
  assert (forall r, r ∈ rs -> r_cognitive_tier r = tier) as Htier.
  { intros r Hin. apply list_elem_of_lookup_1 in Hin as [i Hi].
    assert (exists e, exps !! i = Some e) as [e He].
    { apply lookup_lt_is_Some. rewrite <-(pr_length Hprep). by eapply lookup_lt_Some. }
    apply (Hexp r e). apply (list_elem_of_lookup_2 _ i). by rewrite lookup_zip_Some. }
  assert (forall r', r' ∈ stamped -> exists r, r ∈ rs /\ r_revision_id r' = r_revision_id r /\
    r_cognitive_tier r' = r_cognitive_tier r) as Hst'.
  { rewrite (pr_stamped Hprep). intros r' Hin. apply elem_of_lookup_imap_1 in Hin as (i & r & -> & Hi).
    exists r. split_and!; [by eapply list_elem_of_lookup_2|done..]. }
  constructor; [done|apply (pr_tier Hprep)| |done| |].
  - exists stamped. split.
    + injection Hr as ->. unfold receipts. cbn. rewrite (pr_stamped Hprep).
      apply (stamped_recorded role now _ rs (next_generation S) 0).
    + apply (tier_records_append S _ stamped news); [done..|]. intros r' Hin.
      destruct (Hst' _ Hin) as (r & Hr0 & _ & ->). by apply Htier.
  - intros r r0 role' t Hin Hr0. unfold lg_records in Hr0. cbn in Hr0.
    apply list_elem_of_In, filter_In in Hr0 as [Hr0 _]. apply filter_In in Hr0 as [Hr0 _].
    apply list_elem_of_In in Hr0.
    assert (exists r', r' ∈ stamped /\ r_revision_id r' = r_revision_id r) as (r' & Hin' & <-).
    { rewrite (pr_stamped Hprep). apply list_elem_of_lookup_1 in Hin as [i Hi].
      eexists. split; [apply elem_of_lookup_imap_2; exact Hi|done]. }
    by apply (log_fresh _ stamped _ _ (pr_revision_log Hprep)).
  - pose proof (revision_log_NoDup _ (pr_revision_log Hprep)) as Hnd.
    rewrite fmap_app in Hnd. apply NoDup_app in Hnd as (_ & _ & Hnd).
    rewrite (pr_stamped Hprep) in Hnd.
    pose proof (f_equal (fmap snd) (stamped_ids role now (Z.of_nat (length (ls_revisions S)) + 1) rs)) as Hids.
    rewrite <-!list_fmap_compose in Hids. change (snd ∘ _) with r_revision_id in Hids. by rewrite Hids in Hnd.
Qed.

(** The revision a commit expects is the head of a stream: nothing extends it. *)
Lemma expected_unextended io now v4 st S role tier id r cs S' st' r0 :
  state_ok S -> commit_records io now v4 st S role tier [r] [ExpectedRevision id] = (Ok cs, S', st') ->
  r0 ∈ ls_revisions S -> r_parent_revision_id r0 <> Some id.
Proof.
  intros Hok Hc Hr0 Hp. apply commit_records_cases in Hc as
    [([e He] & _)|(c & b & Hpc & _ & _ & _ & _ & [_|[Hr _]])]; [done| |done].
  apply prepare_commit_inv in Hpc as (stamped & news & x & vs & rt & po & view' & Hprep & _).
  destruct (so_root _ Hok) as (root & view & _ & Hv & _).
  destruct (expected_facts _ _ _ _ _ _ _ _ _ _ _ _ _ _ _ Hprep Hv) as [_ Hexp].
  destruct (Hexp r (ExpectedRevision id) ltac:(left)) as [_ [Hh _]].
  rewrite (head_before S view Hok Hv) in Hh.
  destruct (last (stream (r_memory_id r) (ls_revisions S))) as [q|] eqn:Hq; [|done].
  cbn in Hh. injection Hh as Hh. pose proof (so_revisions _ Hok) as Hlog.
  pose proof (revision_log_NoDup _ Hlog) as Hnd. apply last_stream_elem in Hq as Hin. destruct Hin as [Hin Hm].
  apply list_elem_of_split in Hr0 as (l1 & l2 & Heq). rewrite Heq in Hlog.
  pose proof (rok_link _ _ (Hlog l1 r0 l2 eq_refl)) as Hlink. unfold revision_link in Hlink. rewrite Hp in Hlink.
  destruct Hlink as (q' & Hq' & Hid & _). apply last_stream_elem in Hq' as [Hin' Hm'].
  assert (q' = q) as ->.
  { apply (index_by_NoDup r_revision_id) in Hin; [|done].
    assert (q' ∈ ls_revisions S) as Hin2 by (rewrite Heq; set_solver).
    apply (index_by_NoDup r_revision_id) in Hin2; [|done]. congruence. }
  assert (q ∈ r0 :: l2) as Hlate.
  { rewrite Heq in Hq. unfold stream, with_key in Hq. rewrite filter_app, filter_cons_True in Hq by congruence.
    rewrite last_app_cons in Hq. apply last_Some_elem_of in Hq.
    apply elem_of_cons in Hq as [-> |Hq]; [left|right]. by apply list_elem_of_filter in Hq as [_ Hq]. }
  rewrite Heq, fmap_app in Hnd. apply NoDup_app in Hnd as (_ & Hdis & _).
  apply (Hdis (r_revision_id q)); by apply list_elem_of_fmap_2.
Qed.

(** A memory without a head has no revisions. *)
Lemma headless S view m :
  state_ok S -> ls_view S = Some view -> head_for view m = None ->
  forall r, r ∈ ls_revisions S -> r_memory_id r <> m.
Proof.
  intros Hok Hv Hh r Hr Hm. rewrite (head_before S view Hok Hv) in Hh.
  destruct (last (stream m (ls_revisions S))) eqn:Hl; [done|]. apply last_None in Hl.
  assert (r ∈ stream m (ls_revisions S)) as Hx by (apply list_elem_of_filter; auto).
  rewrite Hl in Hx. by apply not_elem_of_nil in Hx.
Qed.

(** A new memory gets a policy of the committing role. *)
Lemma new_policies_origin role now first v4 k xs r :
  (r, Absent) ∈ xs -> exists p, p ∈ new_policies role now first v4 k xs /\
    p_memory_id p = r_memory_id r /\ p_origin_role_id p = role.
Proof.
  revert k. induction xs as [|[r' e] xs IH]; intros k Hin; [by apply not_elem_of_nil in Hin|].
  cbn [new_policies]. apply elem_of_cons in Hin as [[= <- <-]|Hin].
  - cbn [expects_absent]. eexists. split; [left|done].
  - destruct (expects_absent e); [|by apply IH].
    destruct (IH (Datatypes.S k) Hin) as (p & Hp & Hx). exists p. split; [by right|done].
Qed.

(** The roots of a batch belong to the role that commits them. *)
Lemma roots_append io now v4 st S role tier rs cs S' st' :
  state_ok S ->
  commit_records io now v4 st S role tier rs (replicate (length rs) Absent) = (Ok cs, S', st') ->
  lg_appends (S, st) (S', st') role tier rs cs.
Proof.
  intros Hok Hc. eapply commit_appends; [done..|].
  intros stamped news Hr Hp Hst Hnews Hok' Hexp.
  assert (length stamped = length rs) as Hlen by (rewrite Hst; apply length_imap).
  destruct (so_root _ Hok) as (root & view & _ & Hv & _).
  assert (forall r, r ∈ stamped -> head_for view (r_memory_id r) = None) as Hhead.
  { rewrite Hst. intros r Hin. apply elem_of_lookup_imap_1 in Hin as (i & r0 & -> & Hi). cbn.
    assert ((r0, Absent) ∈ zip rs (replicate (length rs) Absent)) as Hz.
    { apply (list_elem_of_lookup_2 _ i), lookup_zip_Some. split; [done|]. apply lookup_replicate.
      split; [done|]. by eapply lookup_lt_Some. }
    exact (proj1 (Hexp view r0 Absent Hv Hz)). }
  split.
  - intros r p Hin Hpin Heq. rewrite Hnews in Hpin. apply new_policies_memory in Hpin.
    rewrite fst_zip in Hpin by (rewrite length_replicate; lia).
    apply list_elem_of_fmap in Hpin as (r' & Hm & Hr').
    apply (headless S view (r_memory_id r') Hok Hv (Hhead _ Hr') r Hin). congruence.
  - intros r role' Hin.
    destruct (new_policies_origin role now (Z.of_nat (length (ls_policies S)) + 1) v4 0
      (zip stamped (replicate (length rs) Absent)) r) as (p & Hpin & Hm & Ho).
    { apply list_elem_of_lookup_1 in Hin as [i Hi]. apply (list_elem_of_lookup_2 _ i).
      rewrite lookup_zip_Some. split; [done|]. apply lookup_replicate. split; [done|].
      apply lookup_lt_Some in Hi. lia. }
    rewrite <-Hnews in Hpin. assert (p ∈ ls_policies S') as Hp' by (rewrite Hp; set_solver).
    rewrite origin_memories_spec. split.
    + intros (q & Hq & Hqm & <-). rewrite <-Ho. apply (origin_unique S'); [done..|congruence].
    + intros ->. by exists p.
Qed.

(** A revision belongs to the origin of the memory it extends. *)
Lemma revision_appends io now v4 st S role caller tier id origin r cs S' st' :
  state_ok S -> origin_for_revision S caller id true = Ok (Some origin) ->
  commit_records io now v4 st S role tier [r] [ExpectedRevision id] = (Ok cs, S', st') ->
  lg_appends (S, st) (S', st') origin tier [r] cs.
Proof.
  intros Hok Ho Hc. eapply commit_appends; [done..|].
  intros stamped news Hr Hp Hst Hnews Hok' Hexp. subst stamped. cbn in Hnews. subst news.
  rewrite app_nil_r in Hp. destruct (so_root _ Hok) as (root & view & _ & Hv & _).
  assert (head_for view (r_memory_id r) = Some id) as Hh
    by (exact (proj1 (Hexp view r (ExpectedRevision id) Hv ltac:(left)))).
  split; [intros r0 p _ Hin; by apply not_elem_of_nil in Hin|].
  unfold origin_for_revision in Ho. destruct (find_revision S id) as [r0|] eqn:Hf; [|done].
  apply find_revision_ok in Hf as [Hin0 Hid]; [|done].
  assert (r_memory_id r0 = r_memory_id r) as Hm0.
  { rewrite (head_before S view Hok Hv) in Hh.
    destruct (last (stream (r_memory_id r) (ls_revisions S))) as [q|] eqn:Hq; [|done].
    cbn in Hh. injection Hh as Hh. apply last_stream_elem in Hq as [Hq <-].
    assert (r0 = q) as ->; [|done].
    pose proof (revision_log_NoDup _ (so_revisions _ Hok)) as Hnd.
    apply (index_by_NoDup r_revision_id) in Hin0, Hq; [|done..]. congruence. }
  rewrite find_stream_ok in Ho by done. destruct (stream_spec _ _ _) as [s|] eqn:Hs; [|done].
  apply stream_policy in Hs as (h & p & _ & Hl & _ & Hfp); [|done].
  rewrite (proj2 (Hfp p) eq_refl) in Ho. cbn [ok_or] in Ho. destruct (str_mem _ _); [|done].
  injection Ho as Ho. apply last_Some_elem_of, list_elem_of_filter in Hl as [Hpm Hpin].
  intros r' role' Hr'. apply list_elem_of_singleton in Hr' as ->. cbn [stamp r_memory_id].
  rewrite origin_memories_spec, Hp. split.
  - intros (q & Hq & Hqm & <-). rewrite <-Ho. apply (origin_unique S); [done..|congruence].
  - intros ->. exists p. split_and!; [done|congruence|done].
Qed.

Lemma commit_keeps io now v4 st S role tier rs exps e S' st' :
  state_ok S -> commit_records io now v4 st S role tier rs exps = (Err e, S', st') ->
  lg_keeps (S, st) (S', st').
Proof.
  intros Hok Hc. apply commit_records_cases in Hc as
    [(_ & -> & _)|(c & b & _ & _ & _ & _ & _ & [[Hr _]|[_ ->]])]; [done|done|].
  split; [|done]. by destruct Hok.
Qed.

Lemma commit_receipts io now v4 st S role tier rs exps cs S' st' :
  commit_records io now v4 st S role tier rs exps = (Ok cs, S', st') -> length cs = length rs.
Proof.
  intros Hc. apply commit_records_cases in Hc as
    [([e He] & _)|(c & b & Hp & _ & _ & _ & _ & [[Hr _]|[Hr _]])]; [done| |done].
  apply prepare_commit_inv in Hp as (stamped & news & x & vs & rt & po & view' & Hprep & ->).
  injection Hr as ->. unfold receipts. cbn. by rewrite (pr_stamped Hprep), length_fmap, length_imap.
Qed.

Lemma rebuild_groups S role t :
  t <> Tier_Ephemeral ->
  default [] (snd <$> last (filter (fun g => fst g = t)
    (omap (fun tier => tier_records tier (List.filter
       (fun r => bool_decide (r_memory_id r ∈ origin_memories S role)) (ls_revisions S)))
       [Tier_Working; Tier_LongTerm; Tier_Procedural]))) = tier_records_of S role t.
Proof.
  intros Ht. unfold tier_records_of. set (rs := List.filter _ (ls_revisions S)).
  assert (forall x, tier_records x rs =
    match List.filter (fun r => bool_decide (r_cognitive_tier r = x)) rs with
    | [] => None | records => Some (x, records) end) as Hx by done.
  destruct t; [done|..]; cbn -[tier_records]; rewrite !Hx;
    destruct (List.filter (fun r => bool_decide (r_cognitive_tier r = Tier_Working)) rs),
      (List.filter (fun r => bool_decide (r_cognitive_tier r = Tier_LongTerm)) rs),
      (List.filter (fun r => bool_decide (r_cognitive_tier r = Tier_Procedural)) rs); reflexivity.
Qed.

#[export] Instance cas_laws : CanonicalLedgerLaws.
Proof.
  split; cbn -[commit_records origin_for_revision].
  - intros l role _. eexists. split; [reflexivity|]. intros t Ht. by apply rebuild_groups.
  - intros l _. eexists. split; [reflexivity|]. intros role t Hne.
    destruct (tier_records_of (fst l) role t) as [|r rs] eqn:Hr; [done|].
    assert (r ∈ tier_records_of (fst l) role t) as Hin by (rewrite Hr; left).
    apply list_elem_of_In, filter_In in Hin as [Hin _]. apply filter_In in Hin as [_ Hin]. breflect.
    apply origin_memories_spec in Hin as (p & Hp & _ & <-).
    unfold sort_strings. rewrite merge_sort_Permutation, elem_of_elements, elem_of_list_to_set.
    by apply list_elem_of_fmap_2.
  - intros i [S st] role tier r c l' Hok Hc. unfold commit_expected in Hc.
    destruct (commit_records _ _ _ _ _ _ _ _ _) as [[res S'] st'] eqn:Hcr. injection Hc as Hres <-.
    destruct res as [cs|]; [|done]. pose proof (roots_append _ _ _ _ _ _ _ [r] _ _ _ Hok Hcr) as Ha.
    destruct (la_records _ _ _ _ _ _ Ha) as (rs' & Hf & _). inversion Hf as [|? ? ? ? ? ? _ Hn]; subst.
    inversion Hn; subst. cbn in Hres. by injection Hres as <-.
  - intros i [S st] role tier rs cs l' Hok Hc. unfold commit_roots in Hc.
    destruct (commit_records _ _ _ _ _ _ _ _ _) as [[res S'] st'] eqn:Hcr. injection Hc as -> <-.
    by eapply roots_append.
  - intros i [S st] role tier id origin r c l' Hok Ho Hc. unfold commit_expected in Hc.
    destruct (commit_records _ _ _ _ _ _ _ _ _) as [[res S'] st'] eqn:Hcr. injection Hc as Hres <-.
    destruct res as [cs|]; [|done]. pose proof (revision_appends _ _ _ _ _ _ _ _ _ _ _ _ _ _ Hok Ho Hcr) as Ha.
    destruct (la_records _ _ _ _ _ _ Ha) as (rs' & Hf & _). inversion Hf as [|? ? ? ? ? ? _ Hn]; subst.
    inversion Hn; subst. cbn in Hres. by injection Hres as <-.
  - intros i [S st] role tier id r c l' Hok Hc r0 role' t Hr0. unfold commit_expected in Hc.
    destruct (commit_records _ _ _ _ _ _ _ _ _) as [[res S'] st'] eqn:Hcr. injection Hc as Hres <-.
    destruct res as [cs|]; [|done]. apply list_elem_of_In, filter_In in Hr0 as [Hr0 _].
    apply filter_In in Hr0 as [Hr0 _]. apply list_elem_of_In in Hr0. by eapply expected_unextended.
  - intros i [S st] role tier exp r e l' Hok Hc. unfold commit_expected in Hc.
    destruct (commit_records _ _ _ _ _ _ _ _ _) as [[res S'] st'] eqn:Hcr. injection Hc as Hres <-.
    destruct res as [cs|e']; [|by eapply commit_keeps].
    pose proof (commit_receipts _ _ _ _ _ _ _ _ _ _ _ _ Hcr) as Hlen.
    destruct cs as [|c [|]]; done.
  - intros i [S st] role tier rs e l' Hok Hc. unfold commit_roots in Hc.
    destruct (commit_records _ _ _ _ _ _ _ _ _) as [[res S'] st'] eqn:Hcr. injection Hc as -> <-.
    by eapply commit_keeps.
Qed.
End laws.

(** ** A kernel on a small ledger *)

Definition doc_ledger : Ledger := (doc_state1, doc_store1).
Definition doc_input : LedgerInput := mkCasInput doc_io 9 (fun _ => "policy2") None.
Definition doc_draft : MemoryEntry := new_entry 8 "w" "" "alice" Tier_Working (Text "draft") ["note"].

Definition doc_memory0 := snd (restore_memories doc_ledger (set_ledger layered_new doc_ledger)).
Definition doc_created := create_durable doc_input doc_memory0 doc_draft 2.
Definition doc_memory1 := snd doc_created.
Definition doc_updated := update_working_durable doc_input 10 "w2" doc_memory1 "alice" DEFAULT_TENANT "w" "final".
Definition doc_deleted := delete_working_durable doc_input 10 "w2" doc_memory1 "alice" DEFAULT_TENANT "w".

Lemma ok_pair {E A B} (d : A) (x : result E A * B) :
  is_ok (fst x) = true -> x = (Ok (ok_value d (fst x)), snd x).
Proof. destruct x as [[a|e] b]; simpl; congruence. Qed.

Lemma some_default {A} (d : A) (x : option A) : opt_is_some x = true -> x = Some (default d x).
Proof. by destruct x. Qed.

Lemma ok_unit {E B} (x : result E unit * B) : is_ok (fst x) = true -> x = (Ok tt, snd x).
Proof. destruct x as [[[]|e] b]; simpl; congruence. Qed.

Lemma doc_updated_ok : doc_updated = (Ok (ok_value doc_draft (fst doc_updated)), snd doc_updated).
Proof. apply (ok_pair doc_draft doc_updated). vm_compute. reflexivity. Qed.
Lemma doc_deleted_ok : doc_deleted = (Ok (ok_value doc_draft (fst doc_deleted)), snd doc_deleted).
Proof. apply (ok_pair doc_draft doc_deleted). vm_compute. reflexivity. Qed.

Lemma doc_reachable1 : reachable doc_memory1.
Proof.
  exists doc_ledger, doc_memory0. split; [exact doc_ok1|]. split.
  - apply (ok_unit (restore_memories doc_ledger (set_ledger layered_new doc_ledger))). vm_compute. reflexivity.
  - apply rtc_once. exact (ex_intro _ (Op_create doc_input doc_draft 2) eq_refl).
Qed.

Definition doc_ledger1 : Ledger := default doc_ledger (lm_ledger doc_memory1).

Lemma doc_ledger1_eq : lm_ledger doc_memory1 = Some doc_ledger1.
Proof. apply (some_default doc_ledger (lm_ledger doc_memory1)). vm_compute. reflexivity. Qed.

Lemma restart_loses_nothing_witness :
  length (get_tier doc_memory1 "alice" Tier_Working) = 1 /\
  exists m', restore_memories doc_ledger1 (set_ledger layered_new doc_ledger1) = (Ok tt, m') /\
    durable <$> get_tier m' "alice" Tier_Working = durable <$> get_tier doc_memory1 "alice" Tier_Working.
Proof.
  split; [vm_compute; reflexivity|].
  destruct (restart_loses_nothing doc_memory1 doc_ledger1 doc_reachable1 doc_ledger1_eq) as (m' & Hm & Hd).
  exact (ex_intro _ m' (conj Hm (Hd "alice" Tier_Working ltac:(discriminate)))).
Defined.

Lemma update_replaces_head_witness :
  e_id (ok_value doc_draft (fst doc_updated)) = "w2" /\
  exists origin, get_active_tier (snd doc_updated) origin Tier_Working =
    List.filter (fun x => negb (str_eqb (e_id x) "w")) (get_active_tier doc_memory1 origin Tier_Working)
    ++ [ok_value doc_draft (fst doc_updated)].
Proof.
  destruct (update_replaces_head doc_input 10 "w2" doc_memory1 "alice" DEFAULT_TENANT "w" "final"
    _ _ doc_reachable1 doc_updated_ok) as (_ & _ & Hid & origin & Ha & _).
  exact (conj Hid (ex_intro _ origin Ha)).
Defined.

Lemma delete_removes_head_witness :
  opt_is_some (e_deleted_at (ok_value doc_draft (fst doc_deleted))) = true /\
  e_parent_revision_id (ok_value doc_draft (fst doc_deleted)) = Some "w".
Proof.
  destruct (delete_removes_head doc_input 10 "w2" doc_memory1 "alice" DEFAULT_TENANT "w"
    _ _ doc_reachable1 doc_deleted_ok) as (Hd & Hp & _).
  exact (conj Hd Hp).
Defined.

Lemma creation_within_quota_witness :
  (Z.of_nat (count_for_agent doc_memory1 (e_agent_id doc_draft)) <= 2)%Z.
Proof.
  destruct (creation_within_quota doc_memory0 2 (conj eq_refl eq_refl)) as (_ & Hc & _).
  apply (Hc doc_input doc_draft (ok_value doc_draft (fst doc_created)) doc_memory1).
  apply (ok_pair doc_draft doc_created). vm_compute. reflexivity.
Defined.
