(* ===== verification/Scheduler.v ===== *)
(** * The agent scheduler ([src/src/scheduler/agent.rs], [queue.rs], [mod.rs])

    Agents with their lifecycle, the intent queue over [BinaryHeap], and the
    scheduler that owns them.  Each operation runs under the locks it takes, so
    it is a function of the scheduler state; fresh identifiers and the clock are
    arguments.  The heap of the standard library is an interface: the documented
    contract of [push], [pop] and [peek], which leaves the order of equal
    elements open. *)

From stdpp Require Import base gmap strings list sorting relations.
From S2P Require Import Prelude.

(** ** The interface of [std::collections::BinaryHeap] *)

Class BinaryHeap (E : Type) (cmp_le : E -> E -> Prop) := {
  heap : Type;
  heap_new : heap;
  heap_push : heap -> E -> heap;
  heap_pop : heap -> option (E * heap);
  (** The elements in arbitrary order. *)
  heap_items : heap -> list E;
  heap_new_items : heap_items heap_new = [];
  heap_push_items h x : heap_items (heap_push h x) ≡ₚ x :: heap_items h;
  heap_pop_none h : heap_pop h = None <-> heap_items h = [];
  heap_pop_some h x h' : heap_pop h = Some (x, h') ->
    heap_items h ≡ₚ x :: heap_items h' /\ forall y, y ∈ heap_items h -> cmp_le y x;
}.

(** ** Agents *)

(** The newtypes [AgentId(String)] and [IntentId(String)]. *)
Notation AgentId := string (only parsing).
Notation IntentId := string (only parsing).

Inductive AgentState : Type :=
  | Created | Waiting | Running | Suspended | Completed | Failed | Terminated.

#[export] Instance AgentState_eq_dec : EqDecision AgentState.
Proof. solve_decision. Defined.

Definition is_terminal (s : AgentState) : bool :=
  match s with Completed | Failed | Terminated => true | _ => false end.

Definition is_active (s : AgentState) : bool :=
  match s with Running | Waiting => true | _ => false end.

Definition can_transition (s to : AgentState) : bool :=
  match s, to with
  | Created, (Waiting | Running | Suspended | Terminated) => true
  | Waiting, (Running | Suspended | Completed | Failed | Terminated) => true
  | Running, (Waiting | Suspended | Completed | Failed | Terminated) => true
  | Suspended, (Waiting | Running | Terminated) => true
  | _, _ => false
  end.

Record TransitionError := mkTransitionError { te_from : AgentState; te_to : AgentState }.

Inductive IntentPriority : Type := Critical | High | Medium | Low.

(** [*self as u8] *)
Definition priority_u8 (p : IntentPriority) : Z :=
  match p with Critical => 4 | High => 3 | Medium => 2 | Low => 1 end.

Record Intent := mkIntent {
  i_id : IntentId;
  i_priority : IntentPriority;
  i_description : string;
  i_action : option string;
  i_agent_id : option AgentId;
  i_submitted_at : Z;
}.

Record AgentResources := mkResources {
  memory_quota : Z;
  cpu_time_quota : Z;
  allowed_tools : list string;
}.

Definition default_resources : AgentResources :=
  {| memory_quota := 0; cpu_time_quota := 0; allowed_tools := [] |}.

Record AgentUsage := mkUsage {
  tool_call_count : Z;
  total_tokens_consumed : Z;
  last_active_ms : Z;
}.

Definition default_usage : AgentUsage :=
  {| tool_call_count := 0; total_tokens_consumed := 0; last_active_ms := 0 |}.

Record Agent := mkAgent {
  a_id : AgentId;
  a_name : string;
  a_description : string;
  a_created_at_ms : Z;
  a_state : AgentState;
  a_current_intent : option Intent;
  a_resources : AgentResources;
}.

(** [Agent::new] and [Agent::with_description]. *)
Definition agent_with_description (new_id : AgentId) (now : Z) (name description : string)
    : Agent := {|
  a_id := new_id; a_name := name; a_description := description; a_created_at_ms := now;
  a_state := Created; a_current_intent := None; a_resources := default_resources |}.

Definition agent_new (new_id : AgentId) (now : Z) (name : string) : Agent :=
  agent_with_description new_id now name "".

Definition with_state (a : Agent) (s : AgentState) : Agent := {|
  a_id := a_id a; a_name := a_name a; a_description := a_description a;
  a_created_at_ms := a_created_at_ms a; a_state := s;
  a_current_intent := a_current_intent a; a_resources := a_resources a |}.

(** [set_state] returns the outcome and the agent after it. *)
Definition set_state (a : Agent) (s : AgentState) : result TransitionError unit * Agent :=
  if negb (can_transition (a_state a) s)
  then (Err {| te_from := a_state a; te_to := s |}, a)
  else (Ok tt, with_state a s).

Definition assign_intent (a : Agent) (intent : Intent) : Agent :=
  let a' := {| a_id := a_id a; a_name := a_name a; a_description := a_description a;
               a_created_at_ms := a_created_at_ms a; a_state := a_state a;
               a_current_intent := Some intent; a_resources := a_resources a |} in
  if bool_decide (a_state a' = Created) || bool_decide (a_state a' = Waiting)
  then snd (set_state a' Waiting) else a'.

Definition set_agent_resources (a : Agent) (r : AgentResources) : Agent := {|
  a_id := a_id a; a_name := a_name a; a_description := a_description a;
  a_created_at_ms := a_created_at_ms a; a_state := a_state a;
  a_current_intent := a_current_intent a; a_resources := r |}.

(** ** The intent queue *)

Record IntentEntry := mkIntentEntry { ie_intent : Intent; ie_timestamp : Z }.

(** [self.cmp(other)] is not [Greater]: priority, then the reversed timestamp. *)
Definition entry_cmp_le (a b : IntentEntry) : Prop :=
  (priority_u8 (i_priority (ie_intent a)) < priority_u8 (i_priority (ie_intent b)))%Z \/
  (priority_u8 (i_priority (ie_intent a)) = priority_u8 (i_priority (ie_intent b)) /\
   (ie_timestamp b <= ie_timestamp a)%Z).

Section scheduler.
Context `{BinaryHeap IntentEntry entry_cmp_le}.

Definition queue_push (q : heap) (intent : Intent) : heap :=
  heap_push q {| ie_intent := intent; ie_timestamp := i_submitted_at intent |}.

Definition queue_pop (q : heap) : option (Intent * heap) :=
  match heap_pop q with
  | None => None
  | Some (e, q') => Some (ie_intent e, q')
  end.

Definition queue_len (q : heap) : nat := length (heap_items q).
Definition queue_is_empty (q : heap) : bool := Nat.eqb (queue_len q) 0.

(** ** The scheduler *)

Record AgentScheduler := mkScheduler {
  agents : gmap string Agent;
  queue : heap;
  usage : gmap string AgentUsage;
  name_index : gmap string AgentId;
}.

Definition scheduler_new : AgentScheduler :=
  {| agents := ∅; queue := heap_new; usage := ∅; name_index := ∅ |}.

Definition with_agents (s : AgentScheduler) (m : gmap string Agent) : AgentScheduler :=
  {| agents := m; queue := queue s; usage := usage s; name_index := name_index s |}.
Definition with_queue (s : AgentScheduler) (q : heap) : AgentScheduler :=
  {| agents := agents s; queue := q; usage := usage s; name_index := name_index s |}.
Definition with_usage (s : AgentScheduler) (u : gmap string AgentUsage) : AgentScheduler :=
  {| agents := agents s; queue := queue s; usage := u; name_index := name_index s |}.

Definition index_name (index : gmap string AgentId) (a : Agent) : gmap string AgentId :=
  if str_eqb (a_name a) "" then index else <[a_name a := a_id a]> index.

Definition register (s : AgentScheduler) (a : Agent) : AgentId * AgentScheduler :=
  (a_id a,
   {| agents := <[a_id a := a]> (agents s); queue := queue s; usage := usage s;
      name_index := index_name (name_index s) a |}).

Definition register_existing (s : AgentScheduler) (a : Agent) : AgentScheduler :=
  {| agents := <[a_id a := a]> (agents s); queue := queue s; usage := usage s;
     name_index := index_name (name_index s) a |}.

Definition resolve (s : AgentScheduler) (name_or_id : string) : option AgentId :=
  if bool_decide (is_Some (agents s !! name_or_id)) then Some name_or_id
  else name_index s !! name_or_id.

Definition submit (s : AgentScheduler) (intent : Intent) : AgentScheduler :=
  with_queue s (queue_push (queue s) intent).

Definition dequeue (s : AgentScheduler) : option Intent * AgentScheduler :=
  match queue_pop (queue s) with
  | None => (None, s)
  | Some (intent, q) => (Some intent, with_queue s q)
  end.

Definition update_state (s : AgentScheduler) (id : AgentId) (st : AgentState)
    : result TransitionError unit * AgentScheduler :=
  match agents s !! id with
  | None => (Ok tt, s)
  | Some a => let '(r, a') := set_state a st in (r, with_agents s (<[id := a']> (agents s)))
  end.

Definition get (s : AgentScheduler) (id : AgentId) : option Agent := agents s !! id.
Definition has_agent (s : AgentScheduler) (id : AgentId) : bool :=
  bool_decide (is_Some (agents s !! id)).

Definition remove (s : AgentScheduler) (id : AgentId) : AgentScheduler :=
  with_agents s (delete id (agents s)).

Definition snapshot_agents (s : AgentScheduler) : list Agent := (map_to_list (agents s)).*2.

Definition restore_agents (s : AgentScheduler) (snapshot : list Agent) : AgentScheduler :=
  {| agents := foldl (fun m a => <[a_id a := a]> m) (agents s) snapshot;
     queue := queue s; usage := usage s;
     name_index := foldl index_name ∅ snapshot |}.

Definition get_resources (s : AgentScheduler) (id : AgentId) : option AgentResources :=
  a_resources <$> agents s !! id.

Definition set_resources (s : AgentScheduler) (id : AgentId) (r : AgentResources)
    : bool * AgentScheduler :=
  match agents s !! id with
  | None => (false, s)
  | Some a => (true, with_agents s (<[id := set_agent_resources a r]> (agents s)))
  end.

Definition snapshot_usage (s : AgentScheduler) : gmap string AgentUsage := usage s.

(** [for (id, u) in data { usage.insert(id, u) }] *)
Definition restore_usage (s : AgentScheduler) (data : gmap string AgentUsage) : AgentScheduler :=
  with_usage s (data ∪ usage s).

Definition get_usage (s : AgentScheduler) (id : AgentId) : AgentUsage :=
  default default_usage (usage s !! id).

Definition record_tool_call (now : Z) (s : AgentScheduler) (id : AgentId) : AgentScheduler :=
  let u := get_usage s id in
  with_usage s (<[id := {| tool_call_count := u64_add (tool_call_count u) 1;
                           total_tokens_consumed := total_tokens_consumed u;
                           last_active_ms := now |}]> (usage s)).

Definition record_token_usage (now : Z) (s : AgentScheduler) (id : AgentId) (tokens : Z)
    : AgentScheduler :=
  if (tokens =? 0)%Z then s else
  let u := get_usage s id in
  with_usage s (<[id := {| tool_call_count := tool_call_count u;
                           total_tokens_consumed := u64_add (total_tokens_consumed u) tokens;
                           last_active_ms := now |}]> (usage s)).

(** [while let Some(intent) = queue.pop() { intents.push(intent) }]: [None] when
    the fuel is spent before the queue is empty. *)
Fixpoint drain (fuel : nat) (q : heap) : option (list Intent * heap) :=
  match queue_pop q with
  | None => Some ([], q)
  | Some (intent, q') =>
      match fuel with
      | O => None
      | S fuel' =>
          match drain fuel' q' with
          | None => None
          | Some (l, q'') => Some (intent :: l, q'')
          end
      end
  end.

Definition push_all (q : heap) (intents : list Intent) : heap := foldl queue_push q intents.

Definition snapshot_intents (s : AgentScheduler) : option (list Intent * AgentScheduler) :=
  match drain (queue_len (queue s)) (queue s) with
  | None => None
  | Some (intents, q) => Some (intents, with_queue s (push_all q intents))
  end.

Definition restore_intents (s : AgentScheduler) (intents : list Intent) : AgentScheduler :=
  with_queue s (push_all (queue s) intents).

Definition pending_intent_count (s : AgentScheduler) : nat := queue_len (queue s).
End scheduler.

(** * What the scheduler guarantees

    Intents are served by priority and then by age, snapshots keep the queue,
    agents only move along the lifecycle and never leave a terminal state.  The
    theorems hold for every heap that meets the contract; a list-backed heap
    meets it. *)

(** ** A heap that meets the contract *)

Section list_heap.

#[local] Instance entry_cmp_le_dec : RelDecision entry_cmp_le.
Proof. intros a b. unfold entry_cmp_le. apply _. Defined.

Lemma entry_cmp_le_total a b : entry_cmp_le a b \/ entry_cmp_le b a.
Proof. unfold entry_cmp_le. lia. Qed.

Lemma entry_cmp_le_trans a b c : entry_cmp_le a b -> entry_cmp_le b c -> entry_cmp_le a c.
Proof. unfold entry_cmp_le. lia. Qed.

(** Take the greatest element out. *)
Fixpoint pop_max (l : list IntentEntry) : option (IntentEntry * list IntentEntry) :=
  match l with
  | [] => None
  | x :: l' =>
      match pop_max l' with
      | None => Some (x, [])
      | Some (y, k) => if decide (entry_cmp_le y x) then Some (x, l') else Some (y, x :: k)
      end
  end.

Lemma pop_max_none l : pop_max l = None <-> l = [].
Proof.
  destruct l as [|x l]; [done|]. simpl.
  destruct (pop_max l) as [[y k]|]; [destruct (decide _)|]; done.
Qed.

Lemma pop_max_some l x k :
  pop_max l = Some (x, k) -> l ≡ₚ x :: k /\ forall y, y ∈ l -> entry_cmp_le y x.
Proof.
  revert x k. induction l as [|z l IH]; intros x k Hp; [done|]. simpl in Hp.
  destruct (pop_max l) as [[y k']|] eqn:Hl.
  - destruct (IH _ _ eq_refl) as [Hperm Hmax]. destruct (decide (entry_cmp_le y z)) as [Hle|Hle];
      simplify_eq.
    + split; [done|]. intros w [->|Hw]%elem_of_cons; [unfold entry_cmp_le; lia|].
      eapply entry_cmp_le_trans; [by apply Hmax|done].
    + split; [rewrite Hperm; apply Permutation_swap|].
      intros w [->|Hw]%elem_of_cons; [|by apply Hmax].
      destruct (entry_cmp_le_total z x); [done|by destruct Hle].
  - apply pop_max_none in Hl as ->. simplify_eq. split; [done|].
    intros w ->%list_elem_of_singleton. unfold entry_cmp_le. lia.
Qed.

Definition list_heap : BinaryHeap IntentEntry entry_cmp_le.
Proof.
  refine {| heap := list IntentEntry; heap_new := []; heap_push := fun h x => x :: h;
            heap_pop := pop_max; heap_items := fun h => h |}.
  - done.
  - done.
  - apply pop_max_none.
  - apply pop_max_some.
Defined.
End list_heap.

(** ** Order of service *)

(** [a] may be served before [b]. *)
Definition served_before (a b : Intent) : Prop :=
  (priority_u8 (i_priority b) < priority_u8 (i_priority a))%Z \/
  (i_priority a = i_priority b /\ (i_submitted_at a <= i_submitted_at b)%Z).

Lemma priority_u8_inj p q : priority_u8 p = priority_u8 q -> p = q.
Proof. by destruct p, q. Qed.

Section scheduler_props.
Context `{BinaryHeap IntentEntry entry_cmp_le}.
Implicit Types (q : heap) (s : AgentScheduler).

(** The pending intents. *)
Definition pending q : list Intent := ie_intent <$> heap_items q.

(** Entries carry their intent's submission time. *)
Definition queue_wf q : Prop :=
  forall e, e ∈ heap_items q -> ie_timestamp e = i_submitted_at (ie_intent e).

Lemma new_wf : queue_wf heap_new.
Proof. intros e. rewrite heap_new_items. by intros ?%elem_of_nil. Qed.

Lemma push_wf q i : queue_wf q -> queue_wf (queue_push q i).
Proof.
  intros Hq e. unfold queue_push. rewrite heap_push_items.
  intros [->|He]%elem_of_cons; [done|by apply Hq].
Qed.

Lemma push_pending q i : pending (queue_push q i) ≡ₚ i :: pending q.
Proof. unfold pending, queue_push. by rewrite heap_push_items. Qed.

Lemma push_all_wf q l : queue_wf q -> queue_wf (push_all q l).
Proof. revert q. induction l as [|i l IH]; intros q Hq; [done|]. by apply IH, push_wf. Qed.

Lemma push_all_pending q l : pending (push_all q l) ≡ₚ l ++ pending q.
Proof.
  revert q. induction l as [|i l IH]; intros q; [done|]. cbn [push_all foldl].
  change (foldl queue_push (queue_push q i) l) with (push_all (queue_push q i) l).
  rewrite IH, push_pending. by rewrite <-Permutation_middle.
Qed.

Lemma pop_spec q i q' :
  queue_wf q -> queue_pop q = Some (i, q') ->
  pending q ≡ₚ i :: pending q' /\ queue_wf q' /\
  forall j, j ∈ pending q' -> served_before i j.
Proof.
  unfold queue_pop. intros Hwf Hp. destruct (heap_pop q) as [[e h']|] eqn:He; [|done].
  simplify_eq. apply heap_pop_some in He as [Hperm Hmax].
  assert (e ∈ heap_items q) as Hin by (rewrite Hperm; left).
  split_and!.
  - unfold pending. by rewrite Hperm.
  - intros x Hx. apply Hwf. rewrite Hperm. by right.
  - intros j (x & -> & Hx)%list_elem_of_fmap.
    assert (x ∈ heap_items q) as Hxin by (rewrite Hperm; by right).
    specialize (Hmax _ Hxin). unfold entry_cmp_le, served_before in *.
    rewrite (Hwf _ Hxin), (Hwf _ Hin) in Hmax.
    destruct Hmax as [?|[Heq ?]]; [by left|right]. by apply priority_u8_inj in Heq.
Qed.

Lemma drain_spec fuel q :
  queue_wf q -> length (pending q) <= fuel ->
  exists l q', drain fuel q = Some (l, q') /\ l ≡ₚ pending q /\
    StronglySorted served_before l /\ heap_items q' = [].
Proof.
  revert q. induction fuel as [|fuel IH]; intros q Hwf Hlen;
    cbn [drain]; destruct (queue_pop q) as [[i q']|] eqn:Hp.
  - apply pop_spec in Hp as (Hperm & _); [|done]. rewrite Hperm in Hlen. simpl in Hlen. lia.
  - exists [], q. unfold queue_pop in Hp. destruct (heap_pop q) as [[]|] eqn:He; [done|].
    apply heap_pop_none in He. unfold pending. rewrite He. split_and!; [done..|constructor|done].
  - apply pop_spec in Hp as (Hperm & Hwf' & Hord); [|done].
    destruct (IH q' Hwf') as (l & q'' & -> & Hl & Hs & Hn).
    { rewrite Hperm in Hlen. simpl in Hlen. lia. }
    exists (i :: l), q''. split_and!; [done|by rewrite Hl, Hperm| |done].
    constructor; [done|]. apply Forall_forall. intros j Hj. apply Hord. by rewrite <-Hl.
  - exists [], q. unfold queue_pop in Hp. destruct (heap_pop q) as [[]|] eqn:He; [done|].
    apply heap_pop_none in He. unfold pending. rewrite He. split_and!; [done..|constructor|done].
Qed.

(** The queue serves every submitted intent exactly once, higher
    priorities first and, within a priority, in order of submission time. *)
Lemma queue_serves_in_order (intents : list Intent) :
  exists out q, drain (length intents) (push_all heap_new intents) = Some (out, q) /\
    out ≡ₚ intents /\ StronglySorted served_before out /\ heap_items q = [].
Proof.
  assert (pending (push_all heap_new intents) ≡ₚ intents) as Hp.
  { rewrite push_all_pending. unfold pending. by rewrite heap_new_items, app_nil_r. }
  destruct (drain_spec (length intents) (push_all heap_new intents)) as (l & q & Hd & Hl & Hs & Hn).
  - apply push_all_wf, new_wf.
  - by rewrite Hp.
  - exists l, q. split_and!; [done|by rewrite Hl, Hp|done..].
Qed.

(** Snapshotting the intents always terminates, returns the pending
    intents in order of service, and leaves the same intents pending and the
    rest of the scheduler as it was; restored into another scheduler they are
    pending there. *)
Lemma snapshot_intents_keeps_queue s s0 :
  queue_wf (queue s) ->
  exists l s', snapshot_intents s = Some (l, s') /\
    l ≡ₚ pending (queue s) /\ StronglySorted served_before l /\
    pending (queue s') ≡ₚ pending (queue s) /\ queue_wf (queue s') /\
    agents s' = agents s /\ usage s' = usage s /\ name_index s' = name_index s /\
    pending (queue (restore_intents s0 l)) ≡ₚ pending (queue s) ++ pending (queue s0).
Proof.
  intros Hwf. unfold snapshot_intents.
  destruct (drain_spec (queue_len (queue s)) (queue s) Hwf) as (l & q & -> & Hl & Hs & Hn).
  { unfold pending, queue_len. by rewrite length_fmap. }
  exists l, (with_queue s (push_all q l)). split_and!; try done.
  - cbn. rewrite push_all_pending. unfold pending at 1. by rewrite Hn, app_nil_r, Hl.
  - cbn. apply push_all_wf. intros e. rewrite Hn. by intros ?%elem_of_nil.
  - cbn. by rewrite push_all_pending, Hl.
Qed.

(** ** Agent lifecycle *)

(** One step of the scheduler that does not register or restore the agent [id]. *)
Inductive scheduler_step (id : AgentId) : AgentScheduler -> AgentScheduler -> Prop :=
  | st_register s a : a_id a <> id -> scheduler_step id s (snd (register s a))
  | st_register_existing s a : a_id a <> id -> scheduler_step id s (register_existing s a)
  | st_restore s l : id ∉ a_id <$> l -> scheduler_step id s (restore_agents s l)
  | st_submit s i : scheduler_step id s (submit s i)
  | st_dequeue s : scheduler_step id s (snd (dequeue s))
  | st_update s id' st : scheduler_step id s (snd (update_state s id' st))
  | st_remove s id' : scheduler_step id s (remove s id')
  | st_resources s id' r : scheduler_step id s (snd (set_resources s id' r))
  | st_usage s u : scheduler_step id s (restore_usage s u)
  | st_tool now s id' : scheduler_step id s (record_tool_call now s id')
  | st_tokens now s id' n : scheduler_step id s (record_token_usage now s id' n)
  | st_restore_intents s l : scheduler_step id s (restore_intents s l)
  | st_snapshot s l s' : snapshot_intents s = Some (l, s') -> scheduler_step id s s'.

(** The state of [id] moves along the lifecycle, or the agent is gone. *)
Definition moves (id : AgentId) s s' : Prop :=
  forall a', agents s' !! id = Some a' ->
  exists a, agents s !! id = Some a /\
    rtc (fun x y => can_transition x y = true) (a_state a) (a_state a').

Lemma set_state_moves a st :
  rtc (fun x y => can_transition x y = true) (a_state a) (a_state (snd (set_state a st))).
Proof.
  unfold set_state. destruct (can_transition (a_state a) st) eqn:Ht; simpl; [|done].
  by apply rtc_once.
Qed.

Lemma moves_same id s s' : agents s' !! id = agents s !! id -> moves id s s'.
Proof. intros Heq a' Ha. rewrite Heq in Ha. by exists a'. Qed.

Lemma foldl_insert_other (l : list Agent) (m : gmap string Agent) id :
  id ∉ a_id <$> l -> foldl (fun m a => <[a_id a := a]> m) m l !! id = m !! id.
Proof.
  revert m. induction l as [|a l IH]; intros m Hid; [done|]. simpl.
  rewrite fmap_cons, not_elem_of_cons in Hid. rewrite IH by tauto.
  apply lookup_insert_ne. naive_solver.
Qed.

Lemma scheduler_step_moves id s s' : scheduler_step id s s' -> moves id s s'.
Proof.
  intros Hs. destruct Hs; try (apply moves_same; cbn; done).
  - apply moves_same. by apply lookup_insert_ne.
  - apply moves_same. by apply lookup_insert_ne.
  - apply moves_same. by apply foldl_insert_other.
  - apply moves_same. unfold dequeue. by destruct (queue_pop _) as [[]|].
  - intros a' Ha. unfold update_state in Ha. destruct (agents s !! id') as [a|] eqn:Hid; [|eauto using rtc_refl].
    pose proof (set_state_moves a st) as Hm. destruct (set_state a st) as [r a2]. cbn in Ha, Hm.
    apply lookup_insert_Some in Ha as [[-> ->]|[_ Ha]]; eauto using rtc_refl.
  - intros a' Ha. cbn in Ha. apply lookup_delete_Some in Ha as [_ Ha]. eauto using rtc_refl.
  - intros a' Ha. unfold set_resources in Ha. destruct (agents s !! id') as [a|] eqn:Hid; [|eauto using rtc_refl].
    cbn in Ha. apply lookup_insert_Some in Ha as [[-> <-]|[_ Ha]]; [|eauto using rtc_refl].
    exists a. split; [done|]. by apply rtc_refl.
  - apply moves_same. unfold record_token_usage. by destruct (n =? 0)%Z.
  - apply moves_same. unfold snapshot_intents in *. destruct (drain _ _) as [[]|]; [|done].
    by simplify_eq.
Qed.

Lemma terminal_stays x y :
  rtc (fun x y => can_transition x y = true) x y -> is_terminal x = true -> y = x.
Proof.
  intros Hr Hx. inversion Hr as [|? z ? Ht _]; subst; [done|]. by destruct x, z.
Qed.

(** C11: whatever operations run, as long as an agent is not registered or
    restored anew its state only moves along legal transitions, and an agent
    that has completed, failed or been terminated keeps that state as long as
    it exists. *)
Theorem agent_lifecycle id s s' a' :
  rtc (scheduler_step id) s s' -> get s' id = Some a' ->
  exists a, get s id = Some a /\
    rtc (fun x y => can_transition x y = true) (a_state a) (a_state a') /\
    (is_terminal (a_state a) = true -> a_state a' = a_state a).
Proof.
  intros Hsteps. revert a'. unfold get. induction Hsteps as [s|s s1 s' Hs _ IH]; intros a' Ha'.
  - by exists a'.
  - destruct (IH _ Ha') as (a1 & Ha1 & Hr1 & _).
    destruct (scheduler_step_moves _ _ _ Hs _ Ha1) as (a & Ha & Hr).
    exists a. split; [done|]. assert (rtc (fun x y => can_transition x y = true)
      (a_state a) (a_state a')) as Hall by (by etrans).
    split; [done|]. by apply terminal_stays.
Qed.

(** A registered agent is found under its identifier and, when its name is
    not empty and is not the identifier of another agent, under its name; but
    removing it leaves the name behind: it still resolves to an identifier no
    agent has. *)
Lemma resolve_after_register_and_remove s a :
  a_name a <> "" -> agents s !! a_name a = None -> a_name a <> a_id a ->
  let s1 := snd (register s a) in
  let s2 := remove s1 (a_id a) in
  resolve s1 (a_id a) = Some (a_id a) /\ resolve s1 (a_name a) = Some (a_id a) /\
  has_agent s2 (a_id a) = false /\ resolve s2 (a_name a) = Some (a_id a).
Proof.
  intros Hne Hno Hd s1 s2.
  assert (agents s1 !! a_name a = None /\ agents s2 !! a_name a = None) as [H1 H2].
  { cbn. rewrite lookup_delete_ne, lookup_insert_ne by done. done. }
  assert (name_index s2 !! a_name a = Some (a_id a)) as Hidx.
  { cbn. unfold index_name, str_eqb. rewrite bool_decide_eq_false_2 by done. apply lookup_insert_eq. }
  assert (agents s1 !! a_id a = Some a) as Hin by apply lookup_insert_eq.
  assert (agents s2 !! a_id a = None) as Hout by apply lookup_delete_eq.
  unfold resolve, has_agent. rewrite H1, H2, Hin, Hout.
  by rewrite bool_decide_eq_true_2, !bool_decide_eq_false_2 by (done || by intros []).
Qed.
End scheduler_props.

(** ** On a concrete scheduler *)

Definition an_intent (id : string) (p : IntentPriority) (t : Z) : Intent := {|
  i_id := id; i_priority := p; i_description := ""; i_action := None; i_agent_id := None;
  i_submitted_at := t |}.

Definition some_intents : list Intent :=
  [an_intent "a" Low 1; an_intent "b" High 9; an_intent "c" High 4; an_intent "d" Critical 7].

Lemma queue_serves_in_order_witness :
  exists out q,
    drain (H := list_heap) 4 (push_all (H := list_heap) (heap_new (BinaryHeap := list_heap)) some_intents)
      = Some (out, q) /\
    out = [an_intent "d" Critical 7; an_intent "c" High 4; an_intent "b" High 9; an_intent "a" Low 1] /\
    StronglySorted served_before out.
Proof.
  destruct (queue_serves_in_order (H := list_heap) some_intents) as (out & q & Hd & _ & Hs & _).
  exists out, q. split; [exact Hd|]. split; [|exact Hs].
  vm_compute in Hd. injection Hd as <- <-. reflexivity.
Defined.

Lemma snapshot_intents_keeps_queue_witness :
  exists l s', snapshot_intents (H := list_heap)
      (submit (H := list_heap) (scheduler_new (H := list_heap)) (an_intent "a" Low 1)) = Some (l, s') /\
    agents (H := list_heap) s' = ∅.
Proof.
  destruct (snapshot_intents_keeps_queue (H := list_heap)
    (submit (H := list_heap) (scheduler_new (H := list_heap)) (an_intent "a" Low 1))
    (scheduler_new (H := list_heap))) as (l & s' & Hs & _ & _ & _ & _ & Ha & _).
  - intros e He. cbn in He. apply list_elem_of_singleton in He. subst e. reflexivity.
  - exists l, s'. split; [exact Hs|exact Ha].
Defined.

Definition an_agent : Agent := agent_new "id-1" 5 "alice".

Definition one_agent : AgentScheduler (H := list_heap) :=
  snd (register (H := list_heap) (scheduler_new (H := list_heap)) an_agent).

Lemma agent_lifecycle_witness :
  exists a, get (H := list_heap) one_agent "id-1" = Some a /\
    rtc (fun x y => can_transition x y = true) (a_state a) Running /\
    (is_terminal (a_state a) = true -> Running = a_state a).
Proof.
  apply (agent_lifecycle (H := list_heap) "id-1" one_agent
    (snd (update_state (H := list_heap) one_agent "id-1" Running)) (with_state an_agent Running)).
  - apply rtc_once. apply (st_update (H := list_heap) "id-1" one_agent "id-1" Running).
  - reflexivity.
Defined.

Lemma resolve_after_register_and_remove_witness :
  resolve (H := list_heap) (remove (H := list_heap) one_agent "id-1") "alice" = Some "id-1" /\
  has_agent (H := list_heap) (remove (H := list_heap) one_agent "id-1") "id-1" = false.
Proof.
  destruct (resolve_after_register_and_remove (H := list_heap) (scheduler_new (H := list_heap)) an_agent)
    as (_ & _ & H1 & H2); [discriminate|reflexivity|discriminate|].
  split; [exact H2|exact H1].
Defined.
