(* ===== verification/Messaging.v ===== *)
(** * Agent messaging ([src/src/scheduler/messaging.rs])

    Bounded mailboxes: a full mailbox drops its oldest message.  The theorems
    state what a reader sees after any sequence of deliveries and
    acknowledgements. *)

From stdpp Require Import base gmap strings list.
From S2P Require Import Prelude MemoryModel.

Record AgentMessage := mkMessage {
  m_id : string;
  m_from : string;
  m_to : string;
  m_payload : Json;
  m_timestamp_ms : Z;
  m_read : bool;
}.

Record Mailbox := mkMailbox { messages : list AgentMessage; capacity : nat }.

Definition mailbox_new (capacity : nat) : Mailbox := {| messages := []; capacity := capacity |}.

(** [None] where [Vec::remove(0)] panics on an empty vector. *)
Definition mailbox_push (mb : Mailbox) (msg : AgentMessage) : option Mailbox :=
  if Nat.leb (capacity mb) (length (messages mb)) then
    match messages mb with
    | [] => None
    | _ :: kept => Some {| messages := kept ++ [msg]; capacity := capacity mb |}
    end
  else Some {| messages := messages mb ++ [msg]; capacity := capacity mb |}.

Definition read_all (mb : Mailbox) (unread_only : bool) : list AgentMessage :=
  if unread_only then List.filter (fun m => negb (m_read m)) (messages mb) else messages mb.

Definition mark_read (m : AgentMessage) : AgentMessage := {|
  m_id := m_id m; m_from := m_from m; m_to := m_to m; m_payload := m_payload m;
  m_timestamp_ms := m_timestamp_ms m; m_read := true |}.

(** The first message with the identifier is marked. *)
Fixpoint ack_first (message_id : string) (l : list AgentMessage) : option (list AgentMessage) :=
  match l with
  | [] => None
  | m :: l' =>
      if str_eqb (m_id m) message_id then Some (mark_read m :: l')
      else match ack_first message_id l' with None => None | Some k => Some (m :: k) end
  end.

Definition mailbox_ack (mb : Mailbox) (message_id : string) : bool * Mailbox :=
  match ack_first message_id (messages mb) with
  | None => (false, mb)
  | Some l => (true, {| messages := l; capacity := capacity mb |})
  end.

Record MessageBus := mkBus { mailboxes : gmap string Mailbox; default_capacity : nat }.

Definition bus_new : MessageBus := {| mailboxes := ∅; default_capacity := 100 |}.

Definition with_mailbox (bus : MessageBus) (agent : string) (mb : Mailbox) : MessageBus :=
  {| mailboxes := <[agent := mb]> (mailboxes bus); default_capacity := default_capacity bus |}.

(** [send] returns the fresh identifier; [None] when the push panics. *)
Definition send (bus : MessageBus) (new_id : string) (now : Z) (from to : string) (payload : Json)
    : option (string * MessageBus) :=
  let msg := {| m_id := new_id; m_from := from; m_to := to; m_payload := payload;
                m_timestamp_ms := now; m_read := false |} in
  let mb := default (mailbox_new (default_capacity bus)) (mailboxes bus !! to) in
  match mailbox_push mb msg with
  | None => None
  | Some mb' => Some (new_id, with_mailbox bus to mb')
  end.

Definition read (bus : MessageBus) (agent_id : string) (unread_only : bool) : list AgentMessage :=
  match mailboxes bus !! agent_id with
  | None => []
  | Some mb => read_all mb unread_only
  end.

Definition ack (bus : MessageBus) (agent_id message_id : string) : bool * MessageBus :=
  match mailboxes bus !! agent_id with
  | None => (false, bus)
  | Some mb => let '(r, mb') := mailbox_ack mb message_id in (r, with_mailbox bus agent_id mb')
  end.

Definition message_count (bus : MessageBus) (agent_id : string) : nat :=
  match mailboxes bus !! agent_id with None => 0 | Some mb => length (messages mb) end.

(** ** Deliveries *)

(** A run of the bus: deliveries and acknowledgements in some order. *)
Inductive BusOp : Type :=
  | Op_Send (new_id : string) (now : Z) (from to : string) (payload : Json)
  | Op_Ack (agent_id message_id : string).

Definition run_op (bus : MessageBus) (op : BusOp) : option MessageBus :=
  match op with
  | Op_Send new_id now from to payload => snd <$> send bus new_id now from to payload
  | Op_Ack agent_id message_id => Some (snd (ack bus agent_id message_id))
  end.

Fixpoint run_ops (bus : MessageBus) (ops : list BusOp) : option MessageBus :=
  match ops with
  | [] => Some bus
  | op :: ops' => bus' ← run_op bus op; run_ops bus' ops'
  end.

(** The identifiers delivered to an agent, oldest first. *)
Definition delivered (agent : string) (ops : list BusOp) : list string :=
  omap (fun op => match op with
                  | Op_Send new_id _ _ to _ => if str_eqb to agent then Some new_id else None
                  | Op_Ack _ _ => None
                  end) ops.

Lemma ack_first_ids id l k : ack_first id l = Some k -> m_id <$> k = m_id <$> l.
Proof.
  revert k. induction l as [|m l IH]; intros k Hk; simpl in *; [done|].
  destruct (str_eqb (m_id m) id); simplify_eq; [done|].
  destruct (ack_first id l) as [k'|]; [|done]. simplify_eq. cbn. by rewrite (IH k').
Qed.

(** A bus whose mailboxes hold the last [capacity] deliveries of each agent. *)
Definition bus_holds (cap : nat) (log : string -> list string) (bus : MessageBus) : Prop :=
  default_capacity bus = S cap /\
  forall agent,
    match mailboxes bus !! agent with
    | None => log agent = []
    | Some mb => capacity mb = S cap /\ m_id <$> messages mb = last_n (S cap) (log agent)
    end.

Lemma push_holds cap l mb msg :
  capacity mb = S cap -> m_id <$> messages mb = last_n (S cap) l ->
  exists mb', mailbox_push mb msg = Some mb' /\ capacity mb' = S cap /\
    m_id <$> messages mb' = last_n (S cap) (l ++ [m_id msg]).
Proof.
  intros Hc Hm. unfold mailbox_push. rewrite Hc.
  assert (length (messages mb) = S cap `min` length l) as Hlen
    by (rewrite <-(length_fmap m_id), Hm; apply last_n_length).
  rewrite <-last_n_snoc, <-Hm. destruct (Nat.leb _ _) eqn:Hle.
  - apply Nat.leb_le in Hle. destruct (messages mb) as [|m kept] eqn:Hms; [simpl in *; lia|].
    eexists. split; [done|]. cbn. split; [done|]. unfold last_n. rewrite fmap_app.
    cbn [length] in Hlen, Hle. assert (length kept = cap) as Hk by lia.
    rewrite length_app, fmap_cons. cbn [length]. rewrite length_fmap, Hk.
    by replace (cap + 1 - cap) with 1 by lia.
  - apply Nat.leb_gt in Hle. eexists. split; [done|]. cbn. split; [done|].
    unfold last_n. rewrite fmap_app, length_app, length_fmap. simpl.
    replace (length (messages mb) + 1 - S cap) with 0 by lia. done.
Qed.

Lemma run_op_holds cap log bus op :
  bus_holds cap log bus ->
  exists bus', run_op bus op = Some bus' /\
    bus_holds cap (fun agent => log agent ++ delivered agent [op]) bus'.
Proof.
  intros [Hd Hb]. destruct op as [id now from to payload|agent_id message_id]; cbn.
  - set (mb := default (mailbox_new (default_capacity bus)) (mailboxes bus !! to)).
    assert (capacity mb = S cap /\ m_id <$> messages mb = last_n (S cap) (log to)) as [Hc Hm].
    { subst mb. specialize (Hb to). destruct (mailboxes bus !! to); cbn; [done|].
      by rewrite Hb. }
    unfold send. fold mb. set (msg := mkMessage id from to payload now false).
    destruct (push_holds cap (log to) mb msg Hc Hm) as (mb' & -> & Hc' & Hm').
    cbn. eexists. split; [done|]. split; [done|]. intros agent. cbn. unfold str_eqb.
    destruct (decide (agent = to)) as [->|Hne].
    + rewrite lookup_insert_eq, bool_decide_eq_true_2 by done. done.
    + rewrite lookup_insert_ne, bool_decide_eq_false_2 by done. rewrite app_nil_r. apply Hb.
  - unfold ack. pose proof (Hb agent_id) as Ha. destruct (mailboxes bus !! agent_id) as [mb|] eqn:Hl.
    + destruct Ha as [Hc Hm]. eexists. split; [done|].
      assert (forall mb', capacity mb' = S cap -> m_id <$> messages mb' = m_id <$> messages mb ->
        bus_holds cap (fun agent => log agent ++ []) (with_mailbox bus agent_id mb')) as Hgen.
      { intros mb' Hc' Hm'. split; [done|]. intros agent. cbn. rewrite app_nil_r.
        destruct (decide (agent = agent_id)) as [->|Hne].
        - rewrite lookup_insert_eq. by rewrite Hm'.
        - rewrite lookup_insert_ne by done. apply Hb. }
      unfold mailbox_ack. destruct (ack_first message_id (messages mb)) as [k|] eqn:Hk; cbn.
      * apply Hgen; [done|]. cbn. by eapply ack_first_ids.
      * by apply Hgen.
    + eexists. split; [done|]. cbn. split; [done|]. intros agent. rewrite app_nil_r. apply Hb.
Qed.

Lemma delivered_cons agent op ops :
  delivered agent (op :: ops) = delivered agent [op] ++ delivered agent ops.
Proof. unfold delivered. cbn. destruct op; [|done]. by destruct (str_eqb to agent). Qed.

Lemma run_ops_holds cap log bus ops :
  bus_holds cap log bus ->
  exists bus', run_ops bus ops = Some bus' /\
    bus_holds cap (fun agent => log agent ++ delivered agent ops) bus'.
Proof.
  revert log bus. induction ops as [|op ops IH]; intros log bus Hb.
  - exists bus. split; [done|]. destruct Hb as [Hd Hb]. split; [done|].
    intros agent. rewrite app_nil_r. apply Hb.
  - destruct (run_op_holds _ _ _ op Hb) as (bus1 & H1 & Hb1).
    destruct (IH _ _ Hb1) as (bus2 & H2 & Hb2). exists bus2. cbn [run_ops]. rewrite H1.
    cbn [mbind option_bind]. split; [done|]. destruct Hb2 as [Hd2 Hb2]. split; [done|].
    intros agent. specialize (Hb2 agent). cbv beta in *. by rewrite delivered_cons, app_assoc.
Qed.

(** No run of deliveries and acknowledgements panics, and afterwards every
    agent's mailbox lists exactly its last hundred deliveries, in order:
    acknowledging removes nothing, and only a delivery to a full mailbox drops
    a message, the oldest. *)
Lemma mailbox_holds_last_deliveries (ops : list BusOp) :
  exists bus, run_ops bus_new ops = Some bus /\
    forall agent, m_id <$> read bus agent false = last_n 100 (delivered agent ops) /\
      message_count bus agent <= 100.
Proof.
  destruct (run_ops_holds 99 (fun _ => []) bus_new ops) as (bus & Hr & _ & Hb).
  - split; [done|]. intros agent. cbn. by rewrite lookup_empty.
  - exists bus. split; [done|]. intros agent. specialize (Hb agent). unfold read, message_count.
    destruct (mailboxes bus !! agent) as [mb|].
    + destruct Hb as [_ Hb]. rewrite app_nil_l in Hb. split; [done|].
      rewrite <-(length_fmap m_id), Hb, last_n_length. lia.
    + rewrite app_nil_l in Hb. rewrite Hb. split; [done|lia].
Qed.

(** Acknowledging succeeds exactly when the mailbox holds a message with
    the identifier; it then marks the oldest such message and nothing else, so
    that message leaves the unread ones. *)
Lemma ack_marks_one mb id :
  fst (mailbox_ack mb id) = true <->
  exists l m k, messages mb = l ++ m :: k /\ m_id m = id /\ id ∉ m_id <$> l /\
    messages (snd (mailbox_ack mb id)) = l ++ mark_read m :: k /\
    read_all (snd (mailbox_ack mb id)) true
      = List.filter (fun m => negb (m_read m)) l ++ List.filter (fun m => negb (m_read m)) k.
Proof.
  assert (forall l, match ack_first id l with
    | None => id ∉ m_id <$> l
    | Some l' => exists p m k, l = p ++ m :: k /\ m_id m = id /\ id ∉ m_id <$> p /\
                   l' = p ++ mark_read m :: k
    end) as Hack.
  { induction l as [|x l IH]; cbn; [apply not_elem_of_nil|]. unfold str_eqb.
    case_bool_decide as Hx.
    - exists [], x, l. split_and!; [done..|apply not_elem_of_nil|done].
    - destruct (ack_first id l) as [l'|].
      + destruct IH as (p & m & k & -> & Hm & Hp & ->). exists (x :: p), m, k.
        split_and!; [done..| |done]. cbn. rewrite not_elem_of_cons. naive_solver.
      + rewrite not_elem_of_cons. naive_solver. }
  specialize (Hack (messages mb)). unfold mailbox_ack.
  destruct (ack_first id (messages mb)) as [l'|].
  - destruct Hack as (p & m & k & Heq & Hm & Hp & ->). cbn. split; [intros _|done].
    exists p, m, k. split_and!; try done. unfold read_all. cbn.
    by rewrite List.filter_app.
  - cbn. split; [done|]. intros (l & m & k & Heq & <- & _). destruct Hack. rewrite Heq, fmap_app.
    set_solver.
Qed.
