(* ===== verification/CircuitBreaker.v ===== *)
(** * Circuit breakers around model providers
      ([src/src/fs/embedding/circuit_breaker.rs], [src/src/llm/circuit_breaker.rs])

    Both breakers keep their state in atomics.  Each is first a sequential
    function, given what the clock and the provider return; an interface states
    what one call does between calls, and the protection theorem is proved
    against it for both.  The embedding breaker, which promises a single probe,
    is then the interleaving of its atomic accesses by any number of threads. *)

From stdpp Require Import base list strings sorting.
From S2P Require Import Prelude.

(** ** The shared cells *)

Definition STATE_CLOSED : Z := 0.
Definition STATE_OPEN : Z := 1.
Definition STATE_HALF_OPEN : Z := 2.

(** [EmbeddingCircuitBreaker] and [CircuitBreakerLlmProvider] without the
    provider; [cooldown] in milliseconds. *)
Record Breaker := mkBreaker {
  b_state : Z;
  b_failure_count : Z;
  b_failure_threshold : Z;
  b_last_failure_ms : Z;
  b_cooldown : Z;
}.

Definition breaker_new (failure_threshold cooldown_ms : Z) : Breaker := {|
  b_state := STATE_CLOSED; b_failure_count := 0; b_failure_threshold := failure_threshold;
  b_last_failure_ms := 0; b_cooldown := cooldown_ms |}.

Definition breaker_status (b : Breaker) : string :=
  if (b_state b =? STATE_CLOSED)%Z then "active"
  else if (b_state b =? STATE_OPEN)%Z then "degraded"
  else if (b_state b =? STATE_HALF_OPEN)%Z then "probing"
  else "unknown".

(** The atomic stores. *)
Definition store_state (s : Z) (b : Breaker) : Breaker := {|
  b_state := s; b_failure_count := b_failure_count b; b_failure_threshold := b_failure_threshold b;
  b_last_failure_ms := b_last_failure_ms b; b_cooldown := b_cooldown b |}.
Definition store_failure_count (n : Z) (b : Breaker) : Breaker := {|
  b_state := b_state b; b_failure_count := n; b_failure_threshold := b_failure_threshold b;
  b_last_failure_ms := b_last_failure_ms b; b_cooldown := b_cooldown b |}.
Definition store_last_failure (t : Z) (b : Breaker) : Breaker := {|
  b_state := b_state b; b_failure_count := b_failure_count b;
  b_failure_threshold := b_failure_threshold b; b_last_failure_ms := t; b_cooldown := b_cooldown b |}.

(** [fetch_add(1) + 1], wrapping. *)
Definition next_count (b : Breaker) : Z := ((b_failure_count b + 1) mod u32_modulus)%Z.

(** [now_ms() - last_failure_ms], wrapping, against the cooldown. *)
Definition cooled_down (now : Z) (b : Breaker) : bool :=
  (b_cooldown b <=? (now - b_last_failure_ms b) mod u64_modulus)%Z.

(** ** The embedding breaker *)

Inductive EmbedError : Type :=
  | Http | Ollama (m : string) | Api (m : string) | ModelNotFound (m : string)
  | ServerUnavailable (m : string) | Runtime | Subprocess (m : string)
  | SubprocessUnavailable | InputTooLarge (m : string).

Definition input_too_large (e : EmbedError) : bool :=
  match e with InputTooLarge _ => true | _ => false end.

Definition circuit_open : EmbedError := ServerUnavailable "embedding circuit open".
Definition probe_in_progress : EmbedError := ServerUnavailable "embedding circuit probe in progress".

Section embed.
Context {R : Type}.

(** One call by a single thread.  [now] is the clock at the cooldown check,
    [later] at the failure, [outcome] what the provider returns if it is
    called; the flag says whether it was. *)
Definition embed_operation (now later : Z) (outcome : result EmbedError R) (b : Breaker)
    : result EmbedError R * bool * Breaker :=
  let closed_call :=
    match outcome with
    | Ok r => (Ok r, true, store_failure_count 0 b)
    | Err e =>
        if negb (input_too_large e) then
          let count := next_count b in
          let b1 := store_failure_count count b in
          if (b_failure_threshold b <=? count)%Z
          then (Err e, true, store_last_failure later (store_state STATE_OPEN b1))
          else (Err e, true, b1)
        else (Err e, true, b)
    end in
  if (b_state b =? STATE_OPEN)%Z then
    if cooled_down now b then
      let b1 := store_state STATE_HALF_OPEN b in
      match outcome with
      | Ok r => (Ok r, true, store_failure_count 0 (store_state STATE_CLOSED b1))
      | Err e => (Err e, true, store_last_failure later (store_state STATE_OPEN b1))
      end
    else (Err circuit_open, false, b)
  else if (b_state b =? STATE_HALF_OPEN)%Z then (Err probe_in_progress, false, b)
  else closed_call.

(** [texts.iter().map(|t| self.embed(t)).collect()]: calls stop at the first
    error. *)
Fixpoint embed_batch (calls : list (Z * Z * result EmbedError R)) (b : Breaker)
    : result EmbedError (list R) * Breaker :=
  match calls with
  | [] => (Ok [], b)
  | (now, later, outcome) :: calls' =>
      match embed_operation now later outcome b with
      | (Err e, _, b') => (Err e, b')
      | (Ok r, _, b') =>
          match embed_batch calls' b' with
          | (Err e, b'') => (Err e, b'')
          | (Ok rs, b'') => (Ok (r :: rs), b'')
          end
      end
  end.
End embed.

(** ** The language-model breaker *)

Inductive LlmError : Type :=
  | LlmHttp | LlmApi (m : string) | Unavailable (m : string) | LlmParse (m : string) | LlmRuntime.

Section chat.
Context {R : Type}.

(** An open breaker that has cooled down, or a half-open one, probes; any
    provider error counts, and a failed probe hides the provider's error. *)
Definition chat (now later : Z) (outcome : result LlmError R) (b : Breaker)
    : result LlmError R * bool * Breaker :=
  let probe (b1 : Breaker) :=
    match outcome with
    | Ok r => (Ok r, true, store_failure_count 0 (store_state STATE_CLOSED b1))
    | Err _ => (Err (Unavailable "LLM circuit open after probe failure"), true,
                store_last_failure later (store_state STATE_OPEN b1))
    end in
  if (b_state b =? STATE_OPEN)%Z then
    if cooled_down now b then probe (store_state STATE_HALF_OPEN b)
    else (Err (Unavailable "LLM circuit open"), false, b)
  else if (b_state b =? STATE_HALF_OPEN)%Z then probe b
  else
    match outcome with
    | Ok r => (Ok r, true, store_failure_count 0 b)
    | Err e =>
        let count := next_count b in
        let b1 := store_failure_count count b in
        if (b_failure_threshold b <=? count)%Z
        then (Err e, true, store_last_failure later (store_state STATE_OPEN b1))
        else (Err e, true, b1)
    end.
End chat.

(** ** What a breaker promises to its callers *)

(** The failure that trips the breaker; a threshold of 0 acts as 1. *)
Definition trips_at (b : Breaker) : Z := Z.max 1 (b_failure_threshold b).

(** The effect of one sequential call on a breaker at rest, and whether the
    provider is called; [counts e] are the errors a closed breaker counts. *)
Class BreakerCall (E R : Type) := {
  bc_call : Z -> Z -> result E R -> Breaker -> result E R * bool * Breaker;
  bc_counts : E -> bool;
  bc_closed now later o b :
    b_state b = STATE_CLOSED -> (0 <= b_failure_count b < trips_at b)%Z ->
    (b_failure_threshold b <= u32_max)%Z ->
    bc_call now later o b =
    (o, true,
     match o with
     | Ok _ => store_failure_count 0 b
     | Err e =>
         if negb (bc_counts e) then b
         else let b1 := store_failure_count (b_failure_count b + 1) b in
              if (b_failure_threshold b <=? b_failure_count b + 1)%Z
              then store_last_failure later (store_state STATE_OPEN b1) else b1
     end);
  bc_open_hot now later o b :
    b_state b = STATE_OPEN -> cooled_down now b = false ->
    exists e, bc_call now later o b = (Err e, false, b);
  bc_open_cool now later o b :
    b_state b = STATE_OPEN -> cooled_down now b = true ->
    exists r, bc_call now later o b =
      (r, true, match o with
                | Ok _ => store_failure_count 0 (store_state STATE_CLOSED b)
                | Err _ => store_last_failure later (store_state STATE_OPEN b)
                end);
}.

Lemma next_count_small b :
  (0 <= b_failure_count b < trips_at b)%Z -> (b_failure_threshold b <= u32_max)%Z ->
  next_count b = (b_failure_count b + 1)%Z.
Proof. intros H1 H2. unfold next_count, trips_at, u32_max, u32_modulus in *. apply Z.mod_small. lia. Qed.

#[export, refine] Instance embedding_breaker (R : Type) : BreakerCall EmbedError R := {
  bc_call := embed_operation;
  bc_counts := fun e => negb (input_too_large e) }.
Proof.
  - intros now later o b Hs Hc Ht. unfold embed_operation. rewrite Hs. cbn.
    rewrite next_count_small by done. destruct o as [r|e]; [done|].
    destruct (input_too_large e); [done|]. cbn. by destruct (_ <=? _)%Z.
  - intros now later o b Hs Hc. unfold embed_operation. rewrite Hs, Hc. by eexists.
  - intros now later o b Hs Hc. unfold embed_operation. rewrite Hs, Hc. by destruct o; eexists.
Defined.

#[export, refine] Instance llm_breaker (R : Type) : BreakerCall LlmError R := {
  bc_call := chat;
  bc_counts := fun _ => true }.
Proof.
  - intros now later o b Hs Hc Ht. unfold chat. rewrite Hs. cbn.
    rewrite next_count_small by done. destruct o as [r|e]; [done|]. cbn.
    by destruct (_ <=? _)%Z.
  - intros now later o b Hs Hc. unfold chat. rewrite Hs, Hc. by eexists.
  - intros now later o b Hs Hc. unfold chat. rewrite Hs, Hc. by destruct o; eexists.
Defined.

Section protect.
Context {E R : Type} `{!BreakerCall E R}.

(** A call as the clock and the provider see it. *)
Record Call := mkCall { c_now : Z; c_later : Z; c_outcome : result E R }.

(** The calls of a run that reached the provider, and the final breaker. *)
Fixpoint run_calls (calls : list Call) (b : Breaker) : list Call * Breaker :=
  match calls with
  | [] => ([], b)
  | c :: calls' =>
      let '(_, called, b1) := bc_call (c_now c) (c_later c) (c_outcome c) b in
      let '(reached, b2) := run_calls calls' b1 in
      (if called then c :: reached else reached, b2)
  end.

(** A failure the breaker counts. *)
Definition counted (c : Call) : bool :=
  match c_outcome c with Ok _ => false | Err e => bc_counts e end.

(** Clock readings are milliseconds that never go back. *)
Definition times (calls : list Call) : list Z := calls ≫= fun c => [c_now c; c_later c].
Definition clock_ok (calls : list Call) : Prop :=
  StronglySorted Z.le (times calls) /\ Forall (fun t => 0 <= t < u64_modulus)%Z (times calls).

(** The counted failures at the end of a list of calls that reached the
    provider. *)
Fixpoint trailing (rev_reached : list Call) : nat :=
  match rev_reached with
  | c :: l => if counted c then S (trailing l) else 0
  | [] => 0
  end.

(** What the breaker remembers of the calls that reached the provider, newest
    first. *)
Definition remembers (rev_reached : list Call) (b : Breaker) : Prop :=
  (b_state b = STATE_OPEN /\ exists c l, rev_reached = c :: l /\ b_last_failure_ms b = c_later c) \/
  (b_state b = STATE_CLOSED /\
   (Z.of_nat (trailing rev_reached) <= b_failure_count b < trips_at b)%Z).

Lemma remembers_new threshold cooldown : remembers [] (breaker_new threshold cooldown).
Proof. right. unfold trips_at. cbn. split; [done|lia]. Qed.

(** One call. *)
Lemma remembers_call c l b r (called : bool) b' :
  (b_failure_threshold b <= u32_max)%Z -> remembers l b ->
  bc_call (c_now c) (c_later c) (c_outcome c) b = (r, called, b') ->
  remembers (if called then c :: l else l) b' /\
  b_failure_threshold b' = b_failure_threshold b /\ b_cooldown b' = b_cooldown b /\
  (called = true -> b_state b = STATE_OPEN -> cooled_down (c_now c) b = true).
Proof.
  intros Hu [[Hs (c0 & l0 & -> & Hlast)]|[Hs Hc]] Hcall.
  - destruct (cooled_down (c_now c) b) eqn:Hcool.
    + destruct (bc_open_cool (c_now c) (c_later c) (c_outcome c) b Hs Hcool) as [r' Heq].
      rewrite Heq in Hcall. injection Hcall as <- <- <-. destruct (c_outcome c) as [x|e] eqn:Ho.
      * split; [right|done]. unfold trips_at. cbn. unfold counted. rewrite Ho. lia.
      * split; [left; eauto|done].
    + destruct (bc_open_hot (c_now c) (c_later c) (c_outcome c) b Hs Hcool) as [e Heq].
      rewrite Heq in Hcall. injection Hcall as <- <- <-. split; [left; eauto|done].
  - rewrite (bc_closed (c_now c) (c_later c) (c_outcome c) b) in Hcall by (done || lia).
    injection Hcall as <- <- <-. rewrite Hs.
    assert (forall b1, b_failure_threshold b1 = b_failure_threshold b /\ b_cooldown b1 = b_cooldown b ->
      remembers (c :: l) b1 -> remembers (c :: l) b1 /\ b_failure_threshold b1 = b_failure_threshold b /\
      b_cooldown b1 = b_cooldown b /\ (true = true -> STATE_CLOSED = STATE_OPEN -> cooled_down (c_now c) b = true))
      as Hdone by naive_solver.
    apply Hdone; clear Hdone.
    + destruct (c_outcome c); [done|]. destruct (negb _); [done|]. cbn. by destruct (_ <=? _)%Z.
    + unfold remembers, trips_at in *. cbn [trailing]. unfold counted.
      destruct (c_outcome c) as [x|e] eqn:Ho; [right; cbn; split; [done|lia]|].
      destruct (bc_counts e) eqn:Hcnt; cbn; [|right; split; [done|lia]].
      destruct (_ <=? _)%Z eqn:Hle; breflect; [left; eauto|]. right. cbn. split; [done|lia].
Qed.

Lemma trailing_app (l k : list Call) :
  Forall (fun c => counted c = true) l -> length l <= trailing (l ++ k).
Proof. induction 1 as [|c l Hc _ IH]; simpl; [lia|]. rewrite Hc. lia. Qed.

(** A provider call after enough counted failures waited for the cooldown. *)
Lemma reached_after_failures calls l b pre c post :
  (b_failure_threshold b <= u32_max)%Z -> remembers l b -> clock_ok calls ->
  Forall (fun f => Forall (fun t => 0 <= c_later f <= t)%Z (times calls)) l ->
  fst (run_calls calls b) = pre ++ c :: post ->
  (trips_at b <= Z.of_nat (trailing (reverse pre ++ l)))%Z ->
  exists f k, reverse pre ++ l = f :: k /\ (c_later f + b_cooldown b <= c_now c)%Z.
Proof.
  revert l b pre. induction calls as [|c0 calls IH]; intros l b pre Hthr Hrem Hclk Hl Hrun Htr.
  { by destruct pre. }
  destruct Hclk as [Hsort Hu64]. cbn in Hsort, Hu64, Hl, Hrun.
  apply StronglySorted_inv in Hsort as [Hsort Hn0].
  apply StronglySorted_inv in Hsort as [Hsort Hl0].
  apply Forall_cons in Hu64 as [Hu0 Hu64]. apply Forall_cons in Hu64 as [Hu1 Hu64].
  assert (clock_ok calls) as Hclk by done.
  assert (Forall (fun f => Forall (fun t => 0 <= c_later f <= t)%Z (times calls)) l) as Hl'.
  { eapply Forall_impl; [exact Hl|]. intros f [_ [_ Hf]%Forall_cons]%Forall_cons. done. }
  destruct (bc_call _ _ _ b) as [[r called] b1] eqn:Hcall.
  destruct (run_calls calls b1) as [reached b2] eqn:Hr.
  destruct (remembers_call c0 l b r called b1) as (Hrem1 & Ht1 & Hc1 & Hcool); [lia..|done|done|].
  unfold trips_at in Htr. rewrite <-Ht1 in Hthr, Htr. fold (trips_at b1) in Htr. rewrite <-Hc1.
  destruct called; [|eapply (IH l b1 pre); try done; by rewrite Hr].
  destruct pre as [|p0 pre]; simplify_eq/=.
  - destruct Hrem as [[Hs (f & k & -> & Hlast)]|[_ Hc]]; [|unfold trips_at in *; rewrite Ht1 in Htr; lia].
    exists f, k. split; [done|]. specialize (Hcool eq_refl Hs). unfold cooled_down in Hcool.
    apply Forall_cons in Hl as [[Hf _]%Forall_cons _]. rewrite Hlast in Hcool. breflect.
    rewrite Z.mod_small in Hcool by lia. lia.
  - rewrite reverse_cons, <-app_assoc in Htr |- *.
    apply (IH (p0 :: l) b1 pre); try done; [|by rewrite Hr].
    apply Forall_cons. split; [|done]. eapply Forall_impl; [exact Hl0|]. cbn. lia.
Qed.

(** C14: to calls made one after another, on a clock that does not go back, a
    breaker protects its provider.  Once the provider has failed as many times in
    a row as the threshold (once, for a threshold of 0), the next call that
    reaches it comes at least the cooldown after the last of these failures,
    whatever calls are made in between. *)
Theorem breaker_protects threshold cooldown calls pre fs c post :
  (0 <= threshold <= u32_max)%Z -> clock_ok calls ->
  fst (run_calls calls (breaker_new threshold cooldown)) = pre ++ fs ++ c :: post ->
  Forall (fun f => counted f = true) fs -> Z.of_nat (length fs) = Z.max 1 threshold ->
  exists f, last fs = Some f /\ (c_later f + cooldown <= c_now c)%Z.
Proof.
  intros Hthr Hclk Hrun Hfs Hlen. rewrite app_assoc in Hrun.
  destruct (reached_after_failures calls [] (breaker_new threshold cooldown) (pre ++ fs) c post)
    as (f & k & Heq & Hle).
  - cbn. lia.
  - apply remembers_new.
  - done.
  - constructor.
  - done.
  - rewrite app_nil_r, reverse_app. cbn.
    pose proof (trailing_app (reverse fs) (reverse pre)) as Ht.
    rewrite length_reverse in Ht. specialize (Ht (proj2 (Forall_reverse _ _) Hfs)). unfold trips_at. cbn. lia.
  - exists f. split; [|done]. rewrite app_nil_r, reverse_app in Heq.
    destruct fs as [|x fs _] using rev_ind; [simpl in Hlen; lia|].
    rewrite reverse_snoc in Heq. simplify_eq/=. by rewrite last_snoc.
Qed.
End protect.

(** ** The embedding breaker under concurrency

    The threads of [embed_operation], between its atomic accesses.  A step is
    one access by one thread; the clock values and the provider's outcomes are
    chosen freely. *)

Inductive Thread : Type :=
  | Idle                  (** not in a call, or returned *)
  | CheckCooldown         (** loaded [STATE_OPEN] *)
  | TryProbe              (** the cooldown has elapsed, before [compare_exchange] *)
  | Probing               (** owns the probe, the provider is running *)
  | ProbeClosed           (** stored [STATE_CLOSED], before resetting the count *)
  | ProbeFailed           (** stored [STATE_OPEN], before storing the time *)
  | Calling               (** loaded a closed state, the provider is running *)
  | Tripping              (** counted the failure that reaches the threshold *)
  | Tripped.              (** stored [STATE_OPEN], before storing the time *)

(** A trip that overwrites [STATE_HALF_OPEN] is singled out. *)
Inductive Label : Type := Access | LateTrip.

(** [access b t l b' t']: a thread at [t] makes its next access. *)
Inductive access (b : Breaker) : Thread -> Label -> Breaker -> Thread -> Prop :=
  | acc_load_open : b_state b = STATE_OPEN -> access b Idle Access b CheckCooldown
  | acc_load_half_open : b_state b = STATE_HALF_OPEN -> access b Idle Access b Idle
  | acc_load_closed : b_state b <> STATE_OPEN -> b_state b <> STATE_HALF_OPEN ->
      access b Idle Access b Calling
  | acc_hot now : cooled_down now b = false -> access b CheckCooldown Access b Idle
  | acc_cool now : cooled_down now b = true -> access b CheckCooldown Access b TryProbe
  | acc_win : b_state b = STATE_OPEN ->
      access b TryProbe Access (store_state STATE_HALF_OPEN b) Probing
  | acc_lose : b_state b <> STATE_OPEN -> access b TryProbe Access b Idle
  | acc_probe_ok : access b Probing Access (store_state STATE_CLOSED b) ProbeClosed
  | acc_probe_reset : access b ProbeClosed Access (store_failure_count 0 b) Idle
  | acc_probe_err : access b Probing Access (store_state STATE_OPEN b) ProbeFailed
  | acc_probe_time now : access b ProbeFailed Access (store_last_failure now b) Idle
  | acc_call_ok : access b Calling Access (store_failure_count 0 b) Idle
  | acc_call_uncounted : access b Calling Access b Idle
  | acc_call_err : (next_count b < b_failure_threshold b)%Z ->
      access b Calling Access (store_failure_count (next_count b) b) Idle
  | acc_call_trip : (b_failure_threshold b <= next_count b)%Z ->
      access b Calling Access (store_failure_count (next_count b) b) Tripping
  | acc_trip : b_state b <> STATE_HALF_OPEN ->
      access b Tripping Access (store_state STATE_OPEN b) Tripped
  | acc_late_trip : b_state b = STATE_HALF_OPEN ->
      access b Tripping LateTrip (store_state STATE_OPEN b) Tripped
  | acc_trip_time now : access b Tripped Access (store_last_failure now b) Idle.

(** Runs of any number of threads, with the labels of their steps. *)
Inductive interleaving : Breaker -> list Thread -> list Label -> Breaker -> list Thread -> Prop :=
  | run_none b ts : interleaving b ts [] b ts
  | run_step b ts i t l b1 t1 ls b2 ts2 :
      ts !! i = Some t -> access b t l b1 t1 ->
      interleaving b1 (<[i := t1]> ts) ls b2 ts2 ->
      interleaving b ts (l :: ls) b2 ts2.

Definition is_probing (t : Thread) : bool := match t with Probing => true | _ => false end.
Definition is_late (l : Label) : bool := match l with LateTrip => true | Access => false end.
Definition tally {A} (p : A -> bool) (l : list A) : nat := length (List.filter p l).
Definition half_open (b : Breaker) : nat := if decide (b_state b = STATE_HALF_OPEN) then 1 else 0.

Lemma tally_insert {A} (p : A -> bool) (l : list A) i x y :
  l !! i = Some x ->
  tally p (<[i := y]> l) + (if p x then 1 else 0) = tally p l + (if p y then 1 else 0).
Proof.
  unfold tally. revert i. induction l as [|z l IH]; intros [|i] Hi; simplify_eq/=.
  - destruct (p x), (p y); simpl; lia.
  - specialize (IH i Hi). destruct (p z); simpl; lia.
Qed.

(** A probe is owned only while the state is half-open, up to late trips. *)
Lemma access_probes b t l b1 t1 (ts : list Thread) i n :
  ts !! i = Some t -> access b t l b1 t1 ->
  tally is_probing ts <= n + half_open b ->
  tally is_probing (<[i := t1]> ts) <= n + (if is_late l then 1 else 0) + half_open b1.
Proof.
  intros Hi Ha Hn. pose proof (tally_insert is_probing ts i t t1 Hi) as Ht.
  unfold half_open in *. destruct Ha; cbn in *; repeat case_decide; try lia;
    unfold STATE_HALF_OPEN, STATE_OPEN in *; congruence.
Qed.

(** At most one thread owns a probe, and one more only for each failure of
    an old call that re-opened the circuit during a probe: without late trips
    the probe is exclusive. *)
Lemma probes_exclusive threshold cooldown n ls b ts :
  interleaving (breaker_new threshold cooldown) (replicate n Idle) ls b ts ->
  tally is_probing ts <= 1 + tally is_late ls.
Proof.
  assert (forall b0 ts0 k, interleaving b0 ts0 ls b ts ->
    tally is_probing ts0 <= k + half_open b0 ->
    tally is_probing ts <= k + tally is_late ls + half_open b) as Hgen.
  { intros b0 ts0 k Hrun. revert k. induction Hrun as [|b0 ts0 i t l b1 t1 ls b2 ts2 Hi Ha _ IH];
      intros k Hk; [unfold tally at 2; simpl; lia|].
    specialize (IH _ (access_probes _ _ _ _ _ _ _ _ Hi Ha Hk)).
    unfold tally at 2. unfold tally at 2 in IH. simpl. destruct (is_late l); simpl; lia. }
  intros Hrun. assert (tally is_probing (replicate n Idle) = 0) as H0.
  { clear. induction n as [|n IH]; [done|exact IH]. }
  specialize (Hgen _ _ 0 Hrun ltac:(lia)). unfold half_open in Hgen. case_decide; lia.
Qed.

(** Extend a run by one access of thread [i]. *)
Tactic Notation "access" constr(i) "by" tactic3(tac) :=
  eapply (run_step _ _ i); [reflexivity|tac|].

(** The sequential function is a run of the machine with one thread. *)
Lemma embed_operation_interleaves {R} now later (o : result EmbedError R) b r called b' :
  embed_operation now later o b = (r, called, b') ->
  exists ls, interleaving b [Idle] ls b' [Idle].
Proof.
  unfold embed_operation. intros He.
  destruct (b_state b =? STATE_OPEN)%Z eqn:Ho; breflect;
    [destruct (cooled_down now b) eqn:Hc|destruct (b_state b =? STATE_HALF_OPEN)%Z eqn:Hh; breflect].
  - destruct o as [x|e]; simplify_eq; eexists;
      access 0 by (by apply acc_load_open); access 0 by (by eapply acc_cool);
      access 0 by (by apply acc_win).
    + access 0 by apply acc_probe_ok. access 0 by apply acc_probe_reset. apply run_none.
    + access 0 by apply acc_probe_err. access 0 by apply acc_probe_time. apply run_none.
  - simplify_eq. eexists. access 0 by (by apply acc_load_open). access 0 by (by eapply acc_hot).
    apply run_none.
  - simplify_eq. eexists. access 0 by (by apply acc_load_half_open). apply run_none.
  - destruct o as [x|e]; [|destruct (negb _); [destruct (_ <=? _)%Z eqn:Hle in He|]]; breflect;
      simplify_eq; eexists; access 0 by (by apply acc_load_closed).
    + access 0 by apply acc_call_ok. apply run_none.
    + access 0 by (by apply acc_call_trip). access 0 by (by apply acc_trip).
      access 0 by apply acc_trip_time. apply run_none.
    + access 0 by (by apply acc_call_err). apply run_none.
    + access 0 by apply acc_call_uncounted. apply run_none.
Qed.

(** With threshold 1, two calls start while the circuit is closed; the first
    fails and opens it, a third thread starts the probe, and the failure of the
    second re-opens the circuit, so that a fourth starts another probe. *)
Definition four_threads : list Thread := replicate 4 Idle.

Lemma first_probe :
  exists ls b, interleaving (breaker_new 1 0) four_threads ls b [Idle; Calling; Probing; Idle] /\
    tally is_late ls = 0 /\ b_state b = STATE_HALF_OPEN /\ b_failure_threshold b = 1%Z /\
    b_failure_count b = 1%Z /\ b_cooldown b = 0%Z /\ b_last_failure_ms b = 5%Z.
Proof.
  eexists _, _. split.
  - access 0 by (by apply acc_load_closed). access 1 by (by apply acc_load_closed).
    access 0 by (by apply acc_call_trip). access 0 by (by apply acc_trip).
    access 0 by (apply (acc_trip_time _ 5)).
    access 2 by (by apply acc_load_open). access 2 by (by apply (acc_cool _ 5)).
    access 2 by (by apply acc_win). apply run_none.
  - done.
Qed.

Lemma interleaving_trans b1 ts1 l1 b2 ts2 l2 b3 ts3 :
  interleaving b1 ts1 l1 b2 ts2 -> interleaving b2 ts2 l2 b3 ts3 ->
  interleaving b1 ts1 (l1 ++ l2) b3 ts3.
Proof. induction 1; [done|]. intros. econstructor; eauto. Qed.

(** The documentation of the module promises exactly one probe. *)
Lemma second_probe_after_late_trip :
  exists ls b ts, interleaving (breaker_new 1 0) four_threads ls b ts /\ tally is_probing ts = 2.
Proof.
  destruct first_probe as (ls & b & Hrun & _ & Hs & Ht & Hn & Hc & Hl).
  eexists _, _, [Idle; Tripped; Probing; Probing]. split; [|done].
  eapply interleaving_trans; [exact Hrun|].
  access 1 by (apply acc_call_trip; unfold next_count; by rewrite Ht, Hn).
  access 1 by (by apply acc_late_trip). access 3 by (by apply acc_load_open).
  access 3 by (apply (acc_cool _ 5); unfold cooled_down; cbn; by rewrite Hc, Hl).
  access 3 by (by apply acc_win). apply run_none.
Qed.

(** The state is stored before the time of the failure: a call in between
    measures the cooldown from the failure before, or from time 0. *)
Lemma probe_before_cooldown :
  exists ls b, interleaving (breaker_new 1 1000) [Idle; Idle] ls b [Tripped; Probing] /\ b_last_failure_ms b = 0%Z.
Proof.
  eexists _, _. split; [|shelve].
  access 0 by (by apply acc_load_closed). access 0 by (by apply acc_call_trip). access 0 by (by apply acc_trip).
  access 1 by (by apply acc_load_open). access 1 by (by apply (acc_cool _ 5000)). access 1 by (by apply acc_win).
  apply run_none.
  Unshelve. done.
Qed.

(** ** On concrete runs *)

Lemma probes_exclusive_witness :
  exists ls b ts, interleaving (breaker_new 1 0) four_threads ls b ts /\
    tally is_late ls = 0 /\ tally is_probing ts = 1 /\ tally is_probing ts <= 1 + tally is_late ls.
Proof.
  destruct first_probe as (ls & b & Hrun & Hlate & _).
  exists ls, b, [Idle; Calling; Probing; Idle]. split; [exact Hrun|]. split; [exact Hlate|].
  split; [reflexivity|]. exact (probes_exclusive 1 0 4 ls b _ Hrun).
Defined.

(** Two failures open the circuit; a call within the cooldown is rejected, and
    the one after it reaches the provider. *)
Definition some_calls : list (Call (E := EmbedError) (R := unit)) :=
  [mkCall 1 2 (Err Http); mkCall 3 4 (Err Http); mkCall 5 5 (Ok tt); mkCall 104 105 (Ok tt)].

Lemma breaker_protects_witness :
  fst (run_calls some_calls (breaker_new 2 100)) =
    [mkCall 1 2 (Err Http); mkCall 3 4 (Err Http); mkCall 104 105 (Ok tt)] /\
  exists f, last [mkCall 1 2 (Err Http); mkCall (E := EmbedError) (R := unit) 3 4 (Err Http)] = Some f /\
    (c_later f + 100 <= 104)%Z.
Proof.
  split; [reflexivity|].
  apply (breaker_protects 2 100 some_calls [] [mkCall 1 2 (Err Http); mkCall 3 4 (Err Http)]
    (mkCall 104 105 (Ok tt)) []).
  - unfold u32_max, u32_modulus. lia.
  - split; cbn; repeat constructor; unfold u64_modulus; lia.
  - reflexivity.
  - repeat constructor.
  - reflexivity.
Defined.
