(* ===== verification/EventBus.v ===== *)
(** * The kernel event bus ([src/src/kernel/event_bus.rs])

    Events are numbered, kept in a bounded ring, broadcast to subscribers and
    appended to a log file that is rotated into an archive.  The broadcast
    channel and the JSON codec are third-party code and parameters. *)

From stdpp Require Import base gmap strings pretty list sorting.
From S2P Require Import Prelude.

(** ** Events *)

Inductive KernelEvent : Type :=
  | AgentStateChanged (agent_id old_state new_state : string)
  | ObjectStored (cid agent_id : string) (tags : list string)
  | MemoryStored (agent_id tier : string)
  | IntentSubmitted (intent_id : string) (agent_id : option string) (priority : string)
  | IntentCompleted (intent_id : string) (success : bool)
  | EventCreated (event_id label agent_id : string)
  | KnowledgeShared (cid agent_id scope : string) (tags : list string) (summary : string)
  | KnowledgeSuperseded (old_cid new_cid agent_id : string)
  | TaskDelegated (task_id from_agent to_agent : string)
  | TaskCompleted (task_id agent_id : string) (result_cids : list string)
  | VerificationFailed (tool_name operation reason agent_id : string)
  | CognitiveConflictDetected (conflict_id conflict_type description : string)
      (involved_cids : list string) (agent_id severity : string).

Record SequencedEvent := mkSequenced {
  se_seq : Z;
  se_timestamp_ms : Z;
  se_event : KernelEvent;
}.

Definition event_type_name (e : KernelEvent) : string :=
  match e with
  | AgentStateChanged _ _ _ => "AgentStateChanged"
  | ObjectStored _ _ _ => "ObjectStored"
  | MemoryStored _ _ => "MemoryStored"
  | IntentSubmitted _ _ _ => "IntentSubmitted"
  | IntentCompleted _ _ => "IntentCompleted"
  | EventCreated _ _ _ => "EventCreated"
  | KnowledgeShared _ _ _ _ _ => "KnowledgeShared"
  | KnowledgeSuperseded _ _ _ => "KnowledgeSuperseded"
  | TaskDelegated _ _ _ => "TaskDelegated"
  | TaskCompleted _ _ _ => "TaskCompleted"
  | VerificationFailed _ _ _ _ => "VerificationFailed"
  | CognitiveConflictDetected _ _ _ _ _ _ => "CognitiveConflictDetected"
  end.

Definition event_agent_id (e : KernelEvent) : option string :=
  match e with
  | AgentStateChanged a _ _ | ObjectStored _ a _ | MemoryStored a _ => Some a
  | IntentSubmitted _ a _ => a
  | IntentCompleted _ _ => None
  | EventCreated _ _ a | KnowledgeShared _ a _ _ _ | KnowledgeSuperseded _ _ a => Some a
  | TaskDelegated _ from_agent _ => Some from_agent
  | TaskCompleted _ a _ | VerificationFailed _ _ _ a => Some a
  | CognitiveConflictDetected _ _ _ _ a _ => Some a
  end.

Record EventFilter := mkFilter {
  f_event_types : option (list string);
  f_agent_ids : option (list string);
}.

Definition matches (f : EventFilter) (e : KernelEvent) : bool :=
  match f_event_types f with
  | Some types => existsb (fun t => str_eqb t (event_type_name e)) types
  | None => true
  end &&
  match f_agent_ids f with
  | Some agents =>
      match event_agent_id e with
      | Some aid => existsb (fun a => str_eqb a aid) agents
      | None => false
      end
  | None => true
  end.

(** ** The ring *)

Definition DEFAULT_EVENT_LOG_CAPACITY : nat := N.to_nat 65536.
Definition DEFAULT_ROTATION_INTERVAL_MS : Z := 7 * 24 * 3600 * 1000.
Definition DEFAULT_RETENTION_SEGMENTS : nat := 4.
Definition MAX_SEGMENT_BYTES : Z := 100 * 1024 * 1024.

Record RingEventLog := mkRing {
  ring_events : list SequencedEvent;
  ring_max_capacity : nat;
  ring_min_seq : Z;
}.

Definition ring_new (capacity : nat) : RingEventLog := mkRing [] capacity 0.

Definition ring_push (log : RingEventLog) (event : SequencedEvent) : RingEventLog :=
  if ring_max_capacity log <=? length (ring_events log) then
    match ring_events log with
    | evicted :: rest =>
        mkRing (rest ++ [event]) (ring_max_capacity log) (u64_add (se_seq evicted) 1)
    | [] => mkRing [event] (ring_max_capacity log) (ring_min_seq log)
    end
  else mkRing (ring_events log ++ [event]) (ring_max_capacity log) (ring_min_seq log).

Definition ring_events_since (log : RingEventLog) (since_seq : Z) : list SequencedEvent :=
  let effective_seq := Z.max since_seq (u64_saturating_sub (ring_min_seq log) 1) in
  List.filter (fun e => effective_seq <? se_seq e)%Z (ring_events log).

Definition ring_events_by_agent (log : RingEventLog) (agent_id : string) : list SequencedEvent :=
  List.filter (fun e => bool_decide (event_agent_id (se_event e) = Some agent_id)) (ring_events log).

(** [events[skip - 1]] exists, as [skip] is at least 1 there. *)
Definition ring_restore (log : RingEventLog) (events : list SequencedEvent) : RingEventLog :=
  if ring_max_capacity log <? length events then
    let skip := length events - ring_max_capacity log in
    mkRing (drop skip events) (ring_max_capacity log)
      (match events !! (skip - 1) with Some e => u64_add (se_seq e) 1 | None => 0%Z end)
  else mkRing events (ring_max_capacity log) 0.

(** ** The broadcast channel

    What the bus uses of [tokio::sync::broadcast]: [send] to every receiver and
    [try_recv].  A receiver only has finitely many events to deliver before it
    reports that it is empty, closed or has lagged behind. *)

Inductive TryRecv : Type :=
  | Received (e : KernelEvent)
  | RecvEmpty
  | RecvLagged (n : Z)
  | RecvClosed.

Class Broadcast := {
  chan : Type;
  receiver : Type;
  channel_new : chan;
  channel_send : chan -> KernelEvent -> chan;
  channel_subscribe : chan -> receiver;
  try_recv : chan -> receiver -> TryRecv * receiver;
  undelivered : chan -> receiver -> nat;
  try_recv_progress c rx e rx' :
    try_recv c rx = (Received e, rx') -> undelivered c rx' < undelivered c rx;
}.

(** ** The log file

    [lf_tail] is an unfinished last line, left by a torn write. *)

Record LogFile := mkLogFile { lf_lines : list string; lf_tail : string }.

Record EventDisk := mkDisk {
  d_current : option LogFile;
  d_archive : gmap string LogFile;
}.

Inductive AppendOutcome : Type :=
  | Append_Done
  | Append_FailsOpen
  | Append_Torn (written : string).

Inductive RotateOutcome : Type :=
  | Rotate_Done
  | Rotate_FailsBefore
  | Rotate_FailsAfterRename.

Definition file_len (f : LogFile) : Z :=
  foldr (fun l n => Z.of_nat (String.length l) + 1 + n)%Z (Z.of_nat (String.length (lf_tail f)))
    (lf_lines f).

(** [reader.lines()] *)
Definition file_lines (f : LogFile) : list string :=
  lf_lines f ++ (if str_eqb (lf_tail f) "" then [] else [lf_tail f]).

Section bus.
Context `{Broadcast}.
(** [serde_json::to_string] and [serde_json::from_str] at [SequencedEvent]. *)
Variable event_to_string : SequencedEvent -> option string.
Variable event_from_str : string -> option SequencedEvent.

Record Subscription := mkSubscription {
  sub_receiver : receiver;
  sub_filter : option EventFilter;
  sub_last_seen_seq : Z;
}.

Record EventBus := mkBus {
  bus_sender : chan;
  bus_subscriptions : gmap string Subscription;
  bus_next_sub_id : Z;
  bus_event_log : RingEventLog;
  bus_next_seq : Z;
  bus_event_log_path : bool;
  bus_segment_start_ms : Z;
  bus_rotation_interval_ms : Z;
  bus_retention_segments : nat;
}.

Definition with_rotation (path : bool) (interval : Z) (retention : nat) (now : Z) : EventBus := {|
  bus_sender := channel_new; bus_subscriptions := ∅; bus_next_sub_id := 1;
  bus_event_log := ring_new DEFAULT_EVENT_LOG_CAPACITY; bus_next_seq := 1;
  bus_event_log_path := path; bus_segment_start_ms := now; bus_rotation_interval_ms := interval;
  bus_retention_segments := retention |}.
Definition event_bus_new (now : Z) : EventBus :=
  with_rotation false DEFAULT_ROTATION_INTERVAL_MS DEFAULT_RETENTION_SEGMENTS now.
Definition with_persistence (now : Z) : EventBus :=
  with_rotation true DEFAULT_ROTATION_INTERVAL_MS DEFAULT_RETENTION_SEGMENTS now.

Definition append_to_log (o : AppendOutcome) (bus : EventBus) (disk : EventDisk)
    (entry : SequencedEvent) : bool * EventDisk :=
  if negb (bus_event_log_path bus) then (true, disk) else
  match o with
  | Append_FailsOpen => (false, disk)
  | _ =>
      let f := default (mkLogFile [] "") (d_current disk) in
      match event_to_string entry with
      | None => (false, mkDisk (Some f) (d_archive disk))
      | Some json =>
          match o with
          | Append_Torn written =>
              (false, mkDisk (Some (mkLogFile (lf_lines f) (lf_tail f +:+ written))) (d_archive disk))
          | _ =>
              (true, mkDisk (Some (mkLogFile (lf_lines f ++ [lf_tail f +:+ json]) "")) (d_archive disk))
          end
      end
  end.

Definition should_rotate (now : Z) (bus : EventBus) (disk : EventDisk) : bool :=
  let start := bus_segment_start_ms bus in
  (0 <? start)%Z && (bus_rotation_interval_ms bus <=? u64_saturating_sub now start)%Z
  || bus_event_log_path bus &&
     match d_current disk with Some f => (MAX_SEGMENT_BYTES <=? file_len f)%Z | None => false end.

Definition cleanup_old_archives (retention : nat) (archive : gmap string LogFile)
    : gmap string LogFile :=
  let archives := sort_strings (List.filter (String.prefix "events_") (map_to_list archive).*1) in
  if retention <? length archives
  then foldr delete archive (take (length archives - retention) archives)
  else archive.

(** Renaming onto an existing archive replaces it. *)
Definition rotate_segment (o : RotateOutcome) (now : Z) (bus : EventBus) (disk : EventDisk)
    : EventBus * EventDisk :=
  match bus_event_log_path bus, d_current disk with
  | true, Some f =>
      match o with
      | Rotate_FailsBefore => (bus, disk)
      | _ =>
          let name := "events_" +:+ pretty (bus_segment_start_ms bus) +:+ ".jsonl" in
          let archive := <[name := f]> (d_archive disk) in
          ({| bus_sender := bus_sender bus; bus_subscriptions := bus_subscriptions bus;
              bus_next_sub_id := bus_next_sub_id bus; bus_event_log := bus_event_log bus;
              bus_next_seq := bus_next_seq bus; bus_event_log_path := bus_event_log_path bus;
              bus_segment_start_ms := now;
              bus_rotation_interval_ms := bus_rotation_interval_ms bus;
              bus_retention_segments := bus_retention_segments bus |},
           mkDisk None
             (match o with
              | Rotate_Done => cleanup_old_archives (bus_retention_segments bus) archive
              | _ => archive
              end))
      end
  | _, _ => (bus, disk)
  end.

Definition list_archive_segments (bus : EventBus) (disk : EventDisk) : list string :=
  if bus_event_log_path bus
  then sort_strings (List.filter (String.prefix "events_") (map_to_list (d_archive disk)).*1)
  else [].

(** The clock and the input/output outcomes of one [emit]. *)
Record EmitPlan := mkEmit {
  em_now : Z; em_check : Z; em_reset : Z; em_rotate : RotateOutcome; em_append : AppendOutcome;
}.

Definition emit (io : EmitPlan) (bus : EventBus) (disk : EventDisk) (event : KernelEvent)
    : EventBus * EventDisk :=
  let sequenced := mkSequenced (bus_next_seq bus) (em_now io) event in
  let bus1 := {|
    bus_sender := channel_send (bus_sender bus) event;
    bus_subscriptions := bus_subscriptions bus; bus_next_sub_id := bus_next_sub_id bus;
    bus_event_log := ring_push (bus_event_log bus) sequenced;
    bus_next_seq := u64_add (bus_next_seq bus) 1; bus_event_log_path := bus_event_log_path bus;
    bus_segment_start_ms := bus_segment_start_ms bus;
    bus_rotation_interval_ms := bus_rotation_interval_ms bus;
    bus_retention_segments := bus_retention_segments bus |} in
  let '(bus2, disk2) :=
    if should_rotate (em_check io) bus1 disk
    then rotate_segment (em_rotate io) (em_reset io) bus1 disk else (bus1, disk) in
  (bus2, snd (append_to_log (em_append io) bus2 disk2 sequenced)).

Definition with_log (bus : EventBus) (log : RingEventLog) (next : Z) : EventBus := {|
  bus_sender := bus_sender bus; bus_subscriptions := bus_subscriptions bus;
  bus_next_sub_id := bus_next_sub_id bus; bus_event_log := log; bus_next_seq := next;
  bus_event_log_path := bus_event_log_path bus; bus_segment_start_ms := bus_segment_start_ms bus;
  bus_rotation_interval_ms := bus_rotation_interval_ms bus;
  bus_retention_segments := bus_retention_segments bus |}.

Definition with_subscriptions (bus : EventBus) (subs : gmap string Subscription) (next : Z)
    : EventBus := {|
  bus_sender := bus_sender bus; bus_subscriptions := subs; bus_next_sub_id := next;
  bus_event_log := bus_event_log bus; bus_next_seq := bus_next_seq bus;
  bus_event_log_path := bus_event_log_path bus; bus_segment_start_ms := bus_segment_start_ms bus;
  bus_rotation_interval_ms := bus_rotation_interval_ms bus;
  bus_retention_segments := bus_retention_segments bus |}.

Definition events_since (bus : EventBus) (since_seq : Z) : list SequencedEvent :=
  ring_events_since (bus_event_log bus) since_seq.
Definition events_by_agent (bus : EventBus) (agent_id : string) : list SequencedEvent :=
  ring_events_by_agent (bus_event_log bus) agent_id.
Definition event_count (bus : EventBus) : nat := length (ring_events (bus_event_log bus)).
Definition current_seq (bus : EventBus) : Z := bus_next_seq bus.
Definition oldest_seq (bus : EventBus) : Z := ring_min_seq (bus_event_log bus).
Definition snapshot_events (bus : EventBus) : list SequencedEvent := ring_events (bus_event_log bus).

(** [iter().map(|e| e.seq).max().unwrap_or(0)] *)
Definition max_seq (events : list SequencedEvent) : Z := foldr Z.max 0%Z (se_seq <$> events).

Definition restore_events (bus : EventBus) (events : list SequencedEvent) : EventBus :=
  with_log bus (ring_restore (bus_event_log bus) events) (u64_add (max_seq events) 1).

(** The lines of the file, [None] for one that cannot be read; valid events are
    indexed by their number, a later line replacing an earlier one. *)
Definition load_line (line : string) : option SequencedEvent :=
  if blank line then None else event_from_str line.

Definition seq_le (a b : SequencedEvent) : Prop := (se_seq a <= se_seq b)%Z.
#[export] Instance seq_le_dec a b : Decision (seq_le a b).
Proof. unfold seq_le. apply _. Defined.

Definition load_event_log (file : option (list (option string))) : option (list SequencedEvent) :=
  match file with
  | None => Some []
  | Some lines =>
      lines ← mapM (fun l => l) lines;
      let events := foldl (fun m e => <[se_seq e := e]> m) (∅ : gmap Z SequencedEvent)
                      (omap load_line lines) in
      Some (merge_sort seq_le (map_to_list events).*2)
  end.

Definition subscribe_filtered (bus : EventBus) (filter : option EventFilter) : string * EventBus :=
  let id := "sub-" +:+ pretty (bus_next_sub_id bus) in
  let sub := mkSubscription (channel_subscribe (bus_sender bus)) filter (bus_next_seq bus) in
  (id, with_subscriptions bus (<[id := sub]> (bus_subscriptions bus)) (u64_add (bus_next_sub_id bus) 1)).
Definition subscribe (bus : EventBus) : string * EventBus := subscribe_filtered bus None.

Definition passes (filter : option EventFilter) (e : KernelEvent) : bool :=
  match filter with None => true | Some f => matches f e end.

(** The receiving loop of [poll]: [None] when the fuel runs out. *)
Fixpoint recv_loop (fuel : nat) (c : chan) (rx : receiver) (filter : option EventFilter)
    (log : RingEventLog) (last_seen : Z) (events : list KernelEvent)
    : option (list KernelEvent * receiver) :=
  match fuel with
  | 0 => None
  | S fuel' =>
      match try_recv c rx with
      | (Received e, rx') =>
          recv_loop fuel' c rx' filter log last_seen
            (if passes filter e then events ++ [e] else events)
      | (RecvLagged _, rx') =>
          Some (events ++ List.filter (passes filter) (se_event <$> ring_events_since log last_seen), rx')
      | (RecvEmpty, rx') | (RecvClosed, rx') => Some (events, rx')
      end
  end.

(** [None] for an unknown subscription; the inner [None] would be the loop
    running out. *)
Definition poll (bus : EventBus) (subscription_id : string)
    : option (option (list KernelEvent * EventBus)) :=
  sub ← bus_subscriptions bus !! subscription_id;
  Some (
    '(events, rx) ← recv_loop (S (undelivered (bus_sender bus) (sub_receiver sub))) (bus_sender bus)
       (sub_receiver sub) (sub_filter sub) (bus_event_log bus) (sub_last_seen_seq sub) [];
    let sub' := mkSubscription rx (sub_filter sub)
      (match events with [] => sub_last_seen_seq sub | _ => bus_next_seq bus end) in
    Some (events, with_subscriptions bus (<[subscription_id := sub']> (bus_subscriptions bus))
                    (bus_next_sub_id bus))).

Definition unsubscribe (bus : EventBus) (subscription_id : string) : bool * EventBus :=
  (bool_decide (is_Some (bus_subscriptions bus !! subscription_id)),
   with_subscriptions bus (delete subscription_id (bus_subscriptions bus)) (bus_next_sub_id bus)).
Definition subscription_count (bus : EventBus) : nat := size (bus_subscriptions bus).
End bus.
