(* ===== verification/EventBusProps.v ===== *)
(** * What the event bus guarantees

    The ring holds exactly the most recent events under consecutive numbers;
    the log file is read back with one event per number; and polling delivers
    what the channel hands out, or, after a lag, what the ring still holds. *)

From stdpp Require Import base gmap strings pretty list sorting.
From S2P Require Import Prelude EventBus.

(** ** The ring *)

Definition numbered (events : list SequencedEvent) : Prop :=
  forall i e, events !! i = Some e -> se_seq e = (Z.of_nat i + 1)%Z.

(** [log] holds the last events of the whole history [all]. *)
Record ring_holds (cap : nat) (all : list SequencedEvent) (log : RingEventLog) : Prop := {
  rh_capacity : ring_max_capacity log = cap;
  rh_events : ring_events log = last_n cap all;
  rh_min_seq : ring_min_seq log =
    if Nat.ltb cap (length all) then (Z.of_nat (length all - cap) + 1)%Z else 0%Z;
  rh_numbered : numbered all;
}.

Lemma ring_new_holds cap : ring_holds cap [] (ring_new cap).
Proof. by constructor; [|unfold last_n|destruct cap|intros i e]. Qed.

Lemma numbered_snoc all e :
  numbered all -> se_seq e = (Z.of_nat (length all) + 1)%Z -> numbered (all ++ [e]).
Proof.
  intros Hn He i x [Hi|[Hge Hi]]%lookup_app_Some; [by apply Hn|].
  apply list_lookup_singleton_Some in Hi as [Hi <-]. rewrite He. lia.
Qed.

Lemma ring_push_holds cap all log e :
  0 < cap -> ring_holds cap all log -> se_seq e = (Z.of_nat (length all) + 1)%Z ->
  (Z.of_nat (length all) < u64_max)%Z -> ring_holds cap (all ++ [e]) (ring_push log e).
Proof.
  intros Hcap [Hc He Hm Hn] Hseq Hsmall. destruct cap as [|cap]; [lia|].
  pose proof (last_n_length (S cap) all) as Hlen. rewrite <-He in Hlen.
  pose proof (last_n_snoc cap all e) as Hlast. rewrite <-He in Hlast. unfold ring_push. rewrite Hc.
  destruct (Nat.leb_spec (S cap) (length (ring_events log))) as [Hle|Hlt].
  - destruct (ring_events log) as [|x rest] eqn:Hev; [cbn in Hle; lia|]. cbn [length] in Hle, Hlen.
    assert (se_seq x = Z.of_nat (length all - S cap) + 1)%Z as Hx.
    { apply Hn. unfold last_n in He.
      by rewrite <-(Nat.add_0_r (length all - S cap)), <-lookup_drop, <-He. }
    constructor; [done| | |by apply numbered_snoc].
    + rewrite <-Hlast. cbn [ring_events]. unfold last_n.
      rewrite length_app. cbn [length]. by replace (S (length rest) + 1 - S cap) with 1 by lia.
    + cbn [ring_min_seq]. rewrite length_app. simpl length.
      destruct (Nat.ltb_spec (S cap) (length all + 1)); [|lia].
      rewrite Hx. unfold u64_add. rewrite Z.mod_small by (unfold u64_max in Hsmall; lia). lia.
  - constructor; [done| | |by apply numbered_snoc].
    + cbn. rewrite <-Hlast, last_n_all; [done|]. rewrite length_app. simpl. lia.
    + cbn [ring_min_seq]. rewrite Hm, length_app. simpl length.
      destruct (Nat.ltb_spec (S cap) (length all)), (Nat.ltb_spec (S cap) (length all + 1)); lia.
Qed.

Section props.
Context `{Broadcast}.
Variable event_to_string : SequencedEvent -> option string.
Variable event_from_str : string -> option SequencedEvent.

(** ** Runs of emissions *)

Fixpoint emit_all (bus : EventBus) (disk : EventDisk) (xs : list (EmitPlan * KernelEvent))
    : EventBus * EventDisk :=
  match xs with
  | [] => (bus, disk)
  | (io, e) :: xs' =>
      let '(bus', disk') := emit event_to_string io bus disk e in emit_all bus' disk' xs'
  end.

(** The events of a run, numbered after the [n] events before it. *)
Definition history (n : nat) (xs : list (EmitPlan * KernelEvent)) : list SequencedEvent :=
  imap (fun i x => mkSequenced (Z.of_nat (n + i) + 1) (em_now (fst x)) (snd x)) xs.

Lemma history_cons n x xs :
  history n (x :: xs) = mkSequenced (Z.of_nat n + 1) (em_now (fst x)) (snd x) :: history (S n) xs.
Proof.
  unfold history. rewrite imap_cons. rewrite Nat.add_0_r. f_equal. apply imap_ext.
  intros i y _. cbn. by rewrite Nat.add_succ_r.
Qed.

(** Rotation and the log file leave the rest of the bus alone. *)
Lemma emit_bus io bus disk e :
  let bus' := fst (emit event_to_string io bus disk e) in
  bus_event_log bus' = ring_push (bus_event_log bus) (mkSequenced (bus_next_seq bus) (em_now io) e) /\
  bus_next_seq bus' = u64_add (bus_next_seq bus) 1 /\
  bus_subscriptions bus' = bus_subscriptions bus /\
  bus_sender bus' = channel_send (bus_sender bus) e.
Proof.
  unfold emit, rotate_segment. destruct (should_rotate _ _ _); [|done]. cbn.
  destruct (bus_event_log_path bus); [|done]. destruct (d_current disk); [|done].
  by destruct (em_rotate io).
Qed.

Record bus_holds (cap : nat) (all : list SequencedEvent) (bus : EventBus) : Prop := {
  bh_ring : ring_holds cap all (bus_event_log bus);
  bh_next : bus_next_seq bus = (Z.of_nat (length all) + 1)%Z;
}.

Lemma emit_all_holds cap all bus disk xs :
  0 < cap -> bus_holds cap all bus -> (Z.of_nat (length all + length xs) < u64_max)%Z ->
  bus_holds cap (all ++ history (length all) xs) (fst (emit_all bus disk xs)) /\
  bus_subscriptions (fst (emit_all bus disk xs)) = bus_subscriptions bus.
Proof.
  intros Hcap. revert all bus disk. induction xs as [|[io e] xs IH]; intros all bus disk Hb Hsmall.
  - unfold history. cbn. by rewrite app_nil_r.
  - cbn [emit_all]. pose proof (emit_bus io bus disk e) as He. cbn zeta in He.
    destruct (emit _ io bus disk e) as [bus1 disk1]. cbn [fst] in He.
    destruct He as (Hlog & Hnext & Hsub & _). destruct Hb as [Hr Hn]. cbn [length] in Hsmall.
    rewrite history_cons. cbn [fst snd].
    set (se := mkSequenced (Z.of_nat (length all) + 1) (em_now io) e).
    destruct (IH (all ++ [se]) bus1 disk1) as [IHb IHs].
    + constructor.
      * rewrite Hlog, Hn. apply ring_push_holds; [done..|lia].
      * rewrite Hnext, Hn, length_app. unfold u64_add. rewrite Z.mod_small; cbn [length];
          unfold u64_max in *; lia.
    + rewrite length_app. cbn [length]. lia.
    + rewrite length_app, <-app_assoc in IHb. cbn [length] in IHb.
      rewrite Nat.add_1_r in IHb. cbn in IHb. split; [exact IHb|congruence].
Qed.

Lemma new_bus_holds path interval retention now :
  bus_holds DEFAULT_EVENT_LOG_CAPACITY [] (with_rotation path interval retention now).
Proof. constructor; [apply ring_new_holds|done]. Qed.

Lemma capacity_positive : 0 < DEFAULT_EVENT_LOG_CAPACITY.
Proof. unfold DEFAULT_EVENT_LOG_CAPACITY. lia. Qed.
#[local] Opaque DEFAULT_EVENT_LOG_CAPACITY.

Lemma ring_since cap all log since :
  ring_holds cap all log -> (0 <= since)%Z ->
  ring_events_since log since = List.filter (fun e => since <? se_seq e)%Z (last_n cap all).
Proof.
  intros [_ He Hm Hn] Hs. unfold ring_events_since. rewrite He, Hm.
  apply List.filter_ext_in. intros e Hin%list_elem_of_In.
  unfold last_n in Hin. apply list_elem_of_lookup_1 in Hin as [i Hi]. rewrite lookup_drop in Hi.
  rewrite (Hn _ _ Hi). unfold u64_saturating_sub.
  destruct (Nat.ltb_spec cap (length all)); apply eq_bool_prop_intro; rewrite !Is_true_true, !Z.ltb_lt; lia.
Qed.

(** C15: after any emissions, whatever happens to the log file, the bus holds
    exactly its most recent 65536 events under consecutive numbers from 1;
    [events_since] returns those numbered above the request, and it misses
    none as long as the request is not below the oldest available number. *)
Theorem events_since_exact path interval retention now disk xs since :
  (Z.of_nat (length xs) < u64_max)%Z -> (0 <= since)%Z ->
  let bus := fst (emit_all (with_rotation path interval retention now) disk xs) in
  let all := history 0 xs in
  snapshot_events bus = last_n DEFAULT_EVENT_LOG_CAPACITY all /\
  current_seq bus = (Z.of_nat (length xs) + 1)%Z /\
  events_since bus since
    = List.filter (fun e => since <? se_seq e)%Z (last_n DEFAULT_EVENT_LOG_CAPACITY all) /\
  ((oldest_seq bus <= since + 1)%Z ->
   events_since bus since = List.filter (fun e => since <? se_seq e)%Z all).
Proof.
  intros Hsmall Hs bus all.
  destruct (emit_all_holds _ _ _ disk xs capacity_positive
    (new_bus_holds path interval retention now) Hsmall) as [[Hr Hn] _].
  cbn [app length] in Hr, Hn. fold bus all in Hr, Hn.
  assert (length all = length xs) as Hlen by apply length_imap.
  unfold snapshot_events, current_seq, events_since, oldest_seq.
  rewrite (ring_since _ _ _ _ Hr Hs), (rh_events _ _ _ Hr), Hn, Hlen. split_and!; [done..|].
  rewrite (rh_min_seq _ _ _ Hr). intros Hold. unfold last_n.
  rewrite <-(take_drop (length all - DEFAULT_EVENT_LOG_CAPACITY) all) at 3.
  rewrite List.filter_app. replace (List.filter _ (take _ all)) with (@nil SequencedEvent); [done|].
  symmetry. apply lfilter_none. intros e [i Hi]%list_elem_of_lookup_1.
  apply lookup_take_Some in Hi as [Hi Hlt]. rewrite (rh_numbered _ _ _ Hr _ _ Hi).
  apply Z.ltb_ge. destruct (Nat.ltb_spec DEFAULT_EVENT_LOG_CAPACITY (length all)); lia.
Qed.

(** ** The log file *)

(** The files are read back as the valid lines, one event per number, the last
    line winning, in increasing order. *)
Lemma foldl_by_seq (l : list SequencedEvent) k :
  foldl (fun m e => <[se_seq e := e]> m) (∅ : gmap Z SequencedEvent) l !! k =
  last (filter (fun e => se_seq e = k) l).
Proof.
  induction l as [|e l IH] using rev_ind; [done|].
  rewrite foldl_app, filter_app, filter_cons, filter_nil. cbn [foldl].
  destruct (decide (se_seq e = k)) as [<-|Hne].
  - by rewrite lookup_insert_eq, last_snoc.
  - by rewrite lookup_insert_ne, IH, app_nil_r.
Qed.

#[local] Instance seq_le_trans : Transitive seq_le.
Proof. unfold seq_le. intros a b c. lia. Qed.
#[local] Instance seq_le_total : Total seq_le.
Proof. unfold seq_le. intros a b. lia. Qed.

Lemma load_event_log_spec (lines : list string) :
  exists l, load_event_log event_from_str (Some (Some <$> lines)) = Some l /\
    StronglySorted seq_le l /\ NoDup (se_seq <$> l) /\
    forall e, e ∈ l <->
      last (filter (fun x => se_seq x = se_seq e) (omap (load_line event_from_str) lines)) = Some e.
Proof.
  unfold load_event_log. assert (mapM (fun l => l) (Some <$> lines) = Some lines) as ->.
  { induction lines as [|x l IH]; [done|]. cbn. cbn in IH. by rewrite IH. }
  cbn [mbind option_bind]. set (m := foldl _ _ _). eexists. split; [done|].
  assert (forall k e, m !! k = Some e -> se_seq e = k) as Hkey.
  { intros k e. unfold m. rewrite foldl_by_seq. intros Hl%last_Some_elem_of%list_elem_of_filter. tauto. }
  split_and!.
  - apply (StronglySorted_merge_sort seq_le).
  - rewrite merge_sort_Permutation, <-list_fmap_compose.
    replace ((se_seq ∘ snd) <$> map_to_list m) with (fst <$> map_to_list m);
      [apply NoDup_fst_map_to_list|].
    apply list_fmap_ext. intros i [k e] Hi%list_elem_of_lookup_2%elem_of_map_to_list.
    cbn. symmetry. by apply Hkey.
  - intros e. rewrite merge_sort_Permutation, <-foldl_by_seq. fold m. split.
    + intros ([k e'] & -> & Hin%elem_of_map_to_list)%list_elem_of_fmap. cbn.
      by rewrite (Hkey _ _ Hin).
    + intros Hl. apply list_elem_of_fmap. exists (se_seq e, e). by rewrite elem_of_map_to_list.
Qed.

(** A run in which every write of the log file succeeds and no segment is
    rotated away. *)
Fixpoint quiet (bus : EventBus) (disk : EventDisk) (xs : list (EmitPlan * KernelEvent)) : bool :=
  match xs with
  | [] => true
  | (io, e) :: xs' =>
      negb (should_rotate (em_check io) bus disk) &&
      match em_append io with Append_Done => true | _ => false end &&
      let '(bus', disk') := emit event_to_string io bus disk e in quiet bus' disk' xs'
  end.

(** The codec writes each of the events [l] as a line that is read back. *)
Definition codec_roundtrip (l : list SequencedEvent) : Prop :=
  forall e, e ∈ l -> exists s, event_to_string e = Some s /\ blank s = false /\ event_from_str s = Some e.

(** The file ends in the lines of the events [l], none of them torn. *)
Definition file_holds (l : list SequencedEvent) (disk : EventDisk) : Prop :=
  exists lines, default (mkLogFile [] "") (d_current disk) = mkLogFile lines "" /\
    omap (load_line event_from_str) lines = l /\ Forall (fun s => blank s = false) lines.

Lemma emit_quiet io bus disk e l :
  codec_roundtrip [mkSequenced (bus_next_seq bus) (em_now io) e] -> bus_event_log_path bus = true ->
  should_rotate (em_check io) bus disk = false -> em_append io = Append_Done -> file_holds l disk ->
  let '(bus', disk') := emit event_to_string io bus disk e in
  bus_event_log_path bus' = true /\ bus_next_seq bus' = u64_add (bus_next_seq bus) 1 /\
  file_holds (l ++ [mkSequenced (bus_next_seq bus) (em_now io) e]) disk' /\ is_Some (d_current disk').
Proof.
  intros Hcodec Hpath Hrot Ha (lines & Hfile & Hl & Hnb).
  destruct (Hcodec (mkSequenced (bus_next_seq bus) (em_now io) e)) as (s & Hs & Hb & Hp); [left|].
  unfold emit.
  change (should_rotate (em_check io) _ disk) with (should_rotate (em_check io) bus disk).
  rewrite Hrot. unfold append_to_log. cbn [bus_event_log_path].
  rewrite Ha, Hpath, Hs, Hfile. split_and!; [done|done| |by eexists].
  assert (load_line event_from_str s = Some (mkSequenced (bus_next_seq bus) (em_now io) e)) as Hload
    by (unfold load_line; by rewrite Hb).
  exists (lines ++ [s]). rewrite omap_app, Hl. cbn. rewrite Hload.
  split_and!; [done..|]. apply Forall_app. by rewrite Forall_singleton.
Qed.

Lemma emit_all_file bus disk xs n l :
  codec_roundtrip (history n xs) -> bus_event_log_path bus = true -> bus_next_seq bus = (Z.of_nat n + 1)%Z ->
  (Z.of_nat (n + length xs) < u64_max)%Z -> quiet bus disk xs = true -> file_holds l disk ->
  file_holds (l ++ history n xs) (snd (emit_all bus disk xs)) /\
  (xs <> [] -> is_Some (d_current (snd (emit_all bus disk xs)))).
Proof.
  revert bus disk n l. induction xs as [|[io e] xs IH];
    intros bus disk n l Hcodec Hpath Hnext Hsmall Hq Hf.
  { unfold history. cbn. by rewrite app_nil_r. }
  cbn [quiet] in Hq. apply andb_true_iff in Hq as [Hq Hq'].
  apply andb_true_iff in Hq as [Hrot Happ]. apply negb_true_iff in Hrot.
  destruct (em_append io) eqn:Ha; [|done..]. cbn [emit_all length] in *.
  rewrite history_cons in Hcodec. cbn [fst snd] in Hcodec. rewrite <-Hnext in Hcodec.
  assert (codec_roundtrip [mkSequenced (bus_next_seq bus) (em_now io) e]) as Hc0
    by (intros x ->%list_elem_of_singleton; apply Hcodec; left).
  pose proof (emit_quiet io bus disk e l Hc0 Hpath Hrot Ha Hf) as He.
  destruct (emit _ io bus disk e) as [bus1 disk1]. destruct He as (Hp1 & Hn1 & Hf1 & Hc1).
  rewrite history_cons. cbn [fst snd].
  destruct (IH bus1 disk1 (S n) (l ++ [mkSequenced (bus_next_seq bus) (em_now io) e]))
    as [IHf IHs]; [by intros x Hx; apply Hcodec; right|done| |lia|done..|].
  - rewrite Hn1, Hnext. unfold u64_add. rewrite Z.mod_small; unfold u64_max in *; lia.
  - rewrite <-app_assoc, Hnext in IHf. split; [exact IHf|]. intros _.
    destruct xs as [|x xs]; [done|by apply IHs].
Qed.

Lemma history_numbered n xs i e :
  history n xs !! i = Some e -> se_seq e = (Z.of_nat (n + i) + 1)%Z.
Proof. unfold history. rewrite list_lookup_imap. intros (x & _ & ->)%fmap_Some. done. Qed.

Lemma numbered_sorted (l : list SequencedEvent) n :
  (forall i e, l !! i = Some e -> se_seq e = (Z.of_nat (n + i) + 1)%Z) -> StronglySorted seq_le l.
Proof.
  revert n. induction l as [|x l IH]; intros n Hn; constructor.
  - apply (IH (S n)). intros i e Hi. rewrite (Hn (S i) e Hi). lia.
  - apply Forall_forall. intros y [i Hi]%list_elem_of_lookup_1. unfold seq_le.
    rewrite (Hn 0 x eq_refl), (Hn (S i) y Hi). lia.
Qed.

(** A file that holds a numbered history loads to it. *)
Lemma load_history lines xs :
  omap (load_line event_from_str) lines = history 0 xs ->
  load_event_log event_from_str (Some (Some <$> lines)) = Some (history 0 xs).
Proof.
  intros Hl. destruct (load_event_log_spec lines) as (l & -> & Hs & Hnd & Hel). rewrite Hl in Hel.
  f_equal. pose proof (history_numbered 0 xs) as Hn.
  assert (forall e e', e ∈ history 0 xs -> e' ∈ history 0 xs -> se_seq e = se_seq e' -> e = e') as Huniq.
  { intros e e' [i Hi]%list_elem_of_lookup_1 [j Hj]%list_elem_of_lookup_1 Heq.
    rewrite (Hn _ _ Hi), (Hn _ _ Hj) in Heq. replace j with i in Hj by lia. congruence. }
  assert (forall e, e ∈ l <-> e ∈ history 0 xs) as Hiff.
  { intros e. rewrite Hel. split; [intros Hlast%last_Some_elem_of%list_elem_of_filter; tauto|].
    intros He. destruct (last (filter _ _)) as [e'|] eqn:Hlast.
    - apply last_Some_elem_of, list_elem_of_filter in Hlast as [Heq Hin]. f_equal. auto.
    - apply last_None in Hlast. exfalso.
      assert (e ∈ filter (fun x => se_seq x = se_seq e) (history 0 xs)) as Hin
        by (by apply list_elem_of_filter). rewrite Hlast in Hin. by apply elem_of_nil in Hin. }
  apply (StronglySorted_unique_strong seq_le); [|done|by apply (numbered_sorted _ 0)|].
  - intros e e' He%Hiff He' H1 H2. apply Huniq; [done..|]. unfold seq_le in *. lia.
  - apply NoDup_Permutation; [by apply (NoDup_fmap_1 se_seq)| |done].
    apply NoDup_alt. intros i j e Hi Hj.
    pose proof (Hn _ _ Hi). pose proof (Hn _ _ Hj). lia.
Qed.

Lemma max_seq_history n xs :
  xs <> [] -> max_seq (history n xs) = Z.of_nat (n + length xs).
Proof.
  revert n. induction xs as [|x xs IH]; intros n Hne; [done|]. rewrite history_cons.
  unfold max_seq in *. cbn [fmap list_fmap foldr se_seq]. destruct xs as [|y xs].
  - cbn. lia.
  - rewrite IH by done. cbn [length]. lia.
Qed.

(** What was written to the log file is read back: as long as the file's
    writes succeed and it is not rotated, loading it yields exactly the emitted
    events, and a bus restored from them holds the most recent ones and goes
    on numbering where the run stopped. *)
Lemma log_file_roundtrip interval retention now archive xs :
  codec_roundtrip (history 0 xs) -> xs <> [] -> (Z.of_nat (length xs) < u64_max)%Z ->
  let bus0 := with_rotation true interval retention now in
  quiet bus0 (mkDisk None archive) xs = true ->
  exists f, d_current (snd (emit_all bus0 (mkDisk None archive) xs)) = Some f /\
    load_event_log event_from_str (Some (Some <$> file_lines f)) = Some (history 0 xs) /\
    let bus := restore_events bus0 (history 0 xs) in
    snapshot_events bus = last_n DEFAULT_EVENT_LOG_CAPACITY (history 0 xs) /\
    current_seq bus = (Z.of_nat (length xs) + 1)%Z.
Proof.
  intros Hcodec Hne Hsmall bus0 Hq.
  destruct (emit_all_file bus0 (mkDisk None archive) xs 0 []) as [Hf Hsome]; try done.
  { by exists []. }
  destruct (Hsome Hne) as [f Hcur]. exists f. split; [done|].
  destruct Hf as (lines & Hfile & Hl & _). rewrite Hcur in Hfile. cbn in Hfile. subst f.
  split.
  - unfold file_lines. cbn. rewrite app_nil_r. by apply load_history.
  - unfold restore_events, snapshot_events, current_seq, bus0, with_rotation, with_log, ring_restore.
    cbn [bus_event_log bus_next_seq ring_new ring_max_capacity].
    rewrite max_seq_history by done. split.
    + unfold last_n. destruct (Nat.ltb_spec DEFAULT_EVENT_LOG_CAPACITY (length (history 0 xs))); [done|].
      cbn. by replace (length (history 0 xs) - DEFAULT_EVENT_LOG_CAPACITY) with 0 by lia.
    + unfold u64_add. rewrite Z.mod_small; unfold u64_max in *; lia.
Qed.

(** ** Polling *)

(** The events [es] a receiver hands out before it reports [fin]. *)
Inductive receives (c : chan) : receiver -> list KernelEvent -> TryRecv -> receiver -> Prop :=
  | receives_end rx fin rx' :
      try_recv c rx = (fin, rx') -> (forall e, fin <> Received e) -> receives c rx [] fin rx'
  | receives_event rx e rx' es fin rx'' :
      try_recv c rx = (Received e, rx') -> receives c rx' es fin rx'' ->
      receives c rx (e :: es) fin rx''.

Definition lagged (t : TryRecv) : bool := match t with RecvLagged _ => true | _ => false end.

Lemma recv_loop_spec fuel c rx f log seen acc :
  undelivered c rx < fuel ->
  exists es fin rx', receives c rx es fin rx' /\
    recv_loop fuel c rx f log seen acc =
    Some (acc ++ List.filter (passes f) es ++
          (if lagged fin then List.filter (passes f) (se_event <$> ring_events_since log seen) else []),
          rx').
Proof.
  revert rx acc. induction fuel as [|fuel IH]; intros rx acc Hf; [lia|]. cbn [recv_loop].
  destruct (try_recv c rx) as [t rx'] eqn:Ht.
  destruct t as [e| |n|];
    [|exists [], RecvEmpty, rx'; split; [by constructor|by rewrite !app_nil_r]
     |exists [], (RecvLagged n), rx'; split; [by constructor|done]
     |exists [], RecvClosed, rx'; split; [by constructor|by rewrite !app_nil_r]].
  pose proof (try_recv_progress _ _ _ _ Ht).
  destruct (IH rx' (if passes f e then acc ++ [e] else acc)) as (es & fin & rx'' & Hr & ->); [lia|].
  exists (e :: es), fin, rx''. split; [by econstructor|]. cbn [List.filter].
  by destruct (passes f e); rewrite <- ?app_assoc.
Qed.

(** Polling a subscription always ends.  It delivers, in order and
    filtered, the events its receiver hands out, and after a lag also those the
    ring still holds beyond the last number seen; the log, the numbering and
    the other subscriptions do not change. *)
Lemma poll_delivers bus id sub :
  bus_subscriptions bus !! id = Some sub ->
  exists es fin rx events bus', receives (bus_sender bus) (sub_receiver sub) es fin rx /\
    poll bus id = Some (Some (events, bus')) /\
    events = List.filter (passes (sub_filter sub)) es ++
      (if lagged fin
       then List.filter (passes (sub_filter sub))
              (se_event <$> events_since bus (sub_last_seen_seq sub))
       else []) /\
    bus_event_log bus' = bus_event_log bus /\ bus_next_seq bus' = bus_next_seq bus /\
    (forall id', id' <> id -> bus_subscriptions bus' !! id' = bus_subscriptions bus !! id') /\
    (exists sub', bus_subscriptions bus' !! id = Some sub' /\
       sub_receiver sub' = rx /\ sub_filter sub' = sub_filter sub /\
       sub_last_seen_seq sub' = match events with [] => sub_last_seen_seq sub | _ => current_seq bus end).
Proof.
  intros Hsub.
  destruct (recv_loop_spec (S (undelivered (bus_sender bus) (sub_receiver sub))) (bus_sender bus)
    (sub_receiver sub) (sub_filter sub) (bus_event_log bus) (sub_last_seen_seq sub) [])
    as (es & fin & rx & Hr & Hl); [lia|].
  exists es, fin, rx. unfold poll. rewrite Hsub. cbn [mbind option_bind]. rewrite Hl. cbn [app].
  eexists _, _. split_and!; [done..|by intros; apply lookup_insert_ne|].
  eexists. split; [apply lookup_insert_eq|done].
Qed.

Lemma history_events n xs : se_event <$> history n xs = snd <$> xs.
Proof.
  revert n. induction xs as [|x xs IH]; intros n; [done|]. rewrite history_cons. cbn. by rewrite IH.
Qed.

Lemma filter_history n k xs :
  k <= n -> List.filter (fun e => Z.of_nat k <? se_seq e)%Z (history n xs) = history n xs.
Proof.
  revert n. induction xs as [|x xs IH]; intros n Hk; [done|]. rewrite history_cons. cbn.
  rewrite (proj2 (Z.ltb_lt _ _)) by lia. by rewrite IH by lia.
Qed.

Lemma filter_history_none n k xs :
  n + length xs <= k -> List.filter (fun e => Z.of_nat k <? se_seq e)%Z (history n xs) = [].
Proof.
  intros Hk. apply lfilter_none. intros e [i Hi]%list_elem_of_lookup_1.
  apply lookup_lt_Some in Hi as Hlt. unfold history in Hlt. rewrite length_imap in Hlt.
  rewrite (history_numbered _ _ _ _ Hi). apply Z.ltb_ge. lia.
Qed.

(** A subscription starts at the number of the next event, but the recovery
    after a lag asks for larger numbers: when the first poll of a subscription
    finds that it lagged, the first event emitted after subscribing is not
    delivered, although the ring still holds it. *)
Lemma lag_recovery_skips_first path interval retention now disk xs1 x xs2 n rx' :
  length xs1 + S (length xs2) <= DEFAULT_EVENT_LOG_CAPACITY ->
  (Z.of_nat (length xs1 + S (length xs2)) < u64_max)%Z ->
  let bus1 := fst (emit_all (with_rotation path interval retention now) disk xs1) in
  let bus2 := snd (subscribe bus1) in
  let bus3 := fst (emit_all bus2 disk (x :: xs2)) in
  try_recv (bus_sender bus3) (channel_subscribe (bus_sender bus1)) = (RecvLagged n, rx') ->
  snapshot_events bus3 = history 0 (xs1 ++ x :: xs2) /\
  exists bus4, poll bus3 (fst (subscribe bus1)) = Some (Some (snd <$> xs2, bus4)).
Proof.
  intros Hcap Hsmall bus1 bus2 bus3 Hlag.
  destruct (emit_all_holds _ _ _ disk xs1 capacity_positive
    (new_bus_holds path interval retention now)) as [[Hr1 Hn1] _]; [cbn; lia|].
  fold bus1 in Hr1, Hn1. cbn [app length] in Hr1, Hn1.
  assert (length (history 0 xs1) = length xs1) as Hlen by apply length_imap.
  destruct (emit_all_holds DEFAULT_EVENT_LOG_CAPACITY (history 0 xs1) bus2 disk (x :: xs2))
    as [[Hr3 Hn3] Hsub]; [apply capacity_positive|by constructor|rewrite Hlen; cbn; lia|].
  fold bus3 in Hr3, Hn3, Hsub. rewrite Hlen in *.
  assert (history 0 xs1 ++ history (length xs1) (x :: xs2) = history 0 (xs1 ++ x :: xs2)) as Happ.
  { unfold history. rewrite imap_app. f_equal. }
  rewrite Happ in *. split.
  { unfold snapshot_events. rewrite (rh_events _ _ _ Hr3), last_n_all; [done|].
    unfold history. rewrite length_imap, length_app. cbn. lia. }
  destruct (poll_delivers bus3 (fst (subscribe bus1))
    (mkSubscription (channel_subscribe (bus_sender bus1)) None (bus_next_seq bus1)))
    as (es & fin & rx & events & bus4 & Hrec & Hpoll & Hev & _).
  { rewrite Hsub. apply lookup_insert_eq. }
  exists bus4. rewrite Hpoll, Hev. do 3 f_equal. clear Hpoll Hev.
  cbn [sub_receiver sub_filter sub_last_seen_seq] in *.
  inversion Hrec as [? ? ? Ht|]; subst; [|congruence]. rewrite Hlag in Ht. injection Ht as <- <-.
  cbn [lagged app List.filter]. unfold events_since.
  rewrite (ring_since _ _ _ _ Hr3), Hn1 by lia.
  rewrite last_n_all by (unfold history; rewrite length_imap, length_app; cbn; lia).
  rewrite <-Happ, List.filter_app, history_cons.
  replace (Z.of_nat (length xs1) + 1)%Z with (Z.of_nat (S (length xs1))) by lia.
  rewrite filter_history_none by lia. cbn [app List.filter se_seq].
  rewrite (proj2 (Z.ltb_ge _ _)) by lia. rewrite filter_history by lia.
  assert (forall l, List.filter (passes None) l = l) as ->
    by (intros l; induction l as [|y l IH]; cbn; [done|by rewrite IH]).
  apply history_events.
Qed.
End props.

(** ** A concrete channel

    The channel keeps its last two events; a receiver is the number of the
    next event it wants. *)

#[export, refine] Instance short_channel : Broadcast := {
  chan := list KernelEvent;
  receiver := nat;
  channel_new := [];
  channel_send c e := c ++ [e];
  channel_subscribe c := length c;
  try_recv c rx :=
    if Nat.ltb (rx + 2) (length c) then (RecvLagged (Z.of_nat (length c - 2 - rx)), length c - 2)
    else match c !! rx with Some e => (Received e, S rx) | None => (RecvEmpty, rx) end;
  undelivered c rx := length c - rx }.
Proof.
  intros c rx e rx'. destruct (Nat.ltb _ _); [done|]. destruct (c !! rx) eqn:He; [|done].
  intros [= -> <-]. apply lookup_lt_Some in He. lia.
Defined.

Definition some_emits : list (EmitPlan * KernelEvent) :=
  (fun s => (mkEmit 1 1 1 Rotate_Done Append_Done, MemoryStored s "working")) <$> ["a"; "b"; "c"].

(** Lines are the digits of the number; only the three events are known. *)
Definition toy_print (e : SequencedEvent) : option string := Some (pretty (se_seq e)).

Lemma events_since_exact_witness :
  events_since (fst (emit_all toy_print (with_rotation true 0 4 0) (mkDisk None ∅) some_emits)) 1 =
  [mkSequenced 2 1 (MemoryStored "b" "working"); mkSequenced 3 1 (MemoryStored "c" "working")].
Proof.
  destruct (events_since_exact toy_print true 0 4 0 (mkDisk None ∅) some_emits 1)
    as (_ & _ & _ & Hs); [unfold u64_max, u64_modulus; cbn; lia|lia|].
  rewrite Hs; [reflexivity|]. vm_compute. congruence.
Defined.

Lemma poll_delivers_witness :
  let bus1 := snd (subscribe (with_rotation true 0 4 0)) in
  let bus := fst (emit_all toy_print bus1 (mkDisk None ∅) (take 2 some_emits)) in
  exists bus', poll bus "sub-1" =
    Some (Some ([MemoryStored "a" "working"; MemoryStored "b" "working"], bus')).
Proof.
  intros bus1 bus.
  destruct (poll_delivers bus "sub-1" (mkSubscription (0 : @receiver short_channel) None 1))
    as (es & fin & rx & events & bus' & Hr & Hp & Hev & _); [reflexivity|].
  exists bus'. rewrite Hp. do 3 f_equal. rewrite Hev. clear Hp Hev.
  inversion Hr as [? ? ? Ht Hne|? e1 ? ? ? ? Ht1 Hr1]; subst; [cbn in Ht; injection Ht as <- <-; by destruct (Hne (MemoryStored "a" "working"))|].
  cbn in Ht1. injection Ht1 as <- <-.
  inversion Hr1 as [? ? ? Ht Hne|? e2 ? ? ? ? Ht2 Hr2]; subst; [cbn in Ht; injection Ht as <- <-; by destruct (Hne (MemoryStored "b" "working"))|].
  cbn in Ht2. injection Ht2 as <- <-.
  inversion Hr2 as [? ? ? Ht Hne|? e3 ? ? ? ? Ht3 Hr3]; subst; cbn in *; [|done].
  by injection Ht as <- <-.
Defined.

Definition toy_parse (line : string) : option SequencedEvent :=
  List.find (fun e => str_eqb (pretty (se_seq e)) line) (history 0 some_emits).

Lemma log_file_roundtrip_witness :
  exists f,
    d_current (snd (emit_all toy_print (with_rotation true 100 4 1) (mkDisk None ∅) some_emits)) = Some f /\
    load_event_log toy_parse (Some (Some <$> file_lines f)) = Some (history 0 some_emits).
Proof.
  destruct (log_file_roundtrip toy_print toy_parse 100 4 1 ∅ some_emits)
    as (f & Hf & Hload & _).
  - intros e [->|[->|[->|[]%elem_of_nil]%elem_of_cons]%elem_of_cons]%elem_of_cons;
      eexists; (split; [reflexivity|split; reflexivity]).
  - done.
  - unfold u64_max, u64_modulus. cbn. lia.
  - vm_compute. reflexivity.
  - exists f. split; [exact Hf|exact Hload].
Defined.

(** After the recovery the receiver stands at the oldest event the channel
    retains, so the next poll delivers the recovered events again. *)
Example lag_recovery_repeats :
  let bus := fst (emit_all toy_print (snd (subscribe (with_rotation true 0 4 0))) (mkDisk None ∅) some_emits) in
  match poll bus "sub-1" with
  | Some (Some (first, bus')) =>
      match poll bus' "sub-1" with
      | Some (Some (second, _)) =>
          first = second /\ first = [MemoryStored "b" "working"; MemoryStored "c" "working"]
      | _ => False
      end
  | _ => False
  end.
Proof. vm_compute. split; reflexivity. Qed.
