(* ===== verification/Permission.v ===== *)
(** * Permissions ([src/src/api/permission.rs], [src/src/kernel/ops/permission.rs])

    Grants, the guard that decides every check, the kernel operations that
    change grants and write them to the permission index, and what they decide:
    a check passes exactly by trust, default policy or a standing grant. *)


From stdpp Require Import base gmap strings list.
From S2P Require Import Prelude MemoryModel.

Local Open Scope Z_scope.

(** ** Data *)

Inductive PermissionAction : Type :=
  | Action_Read | Action_ReadAny | Action_Write | Action_Delete | Action_Network
  | Action_Execute | Action_SendMessage | Action_ManagePermissions | Action_All.

#[export] Instance PermissionAction_eq_dec : EqDecision PermissionAction.
Proof. solve_decision. Defined.

Record PermissionGrant := mkGrant {
  pg_action : PermissionAction;
  pg_scope : option string;
  pg_expires_at : option Z;
}.

#[export] Instance PermissionGrant_eq_dec : EqDecision PermissionGrant.
Proof. solve_decision. Defined.

Record PermissionContext := mkContext {
  pc_agent_id : string;
  pc_tenant_id : string;
  pc_embedded_grants : list PermissionGrant;
}.

(** The errors a check builds, by the message they carry. *)
Inductive PermissionDenied : Type :=
  | Lacks (agent_id : string) (action : PermissionAction)
  | AllNotGranted
  | LacksScoped (agent_id : string) (action : PermissionAction) (scope : option string)
  | NotOwner (agent_id owner_id : string)
  | CrossesNamespace (agent_id from to : string).

(** ** Contexts and grants *)

Definition context_new (agent_id tenant_id : string) : PermissionContext :=
  mkContext agent_id tenant_id [].
Definition with_grants (agent_id tenant_id : string) (grants : list PermissionGrant) : PermissionContext :=
  mkContext agent_id tenant_id grants.
Definition with_inferred_tenant (agent_id : string) (token_tenant : option string) : PermissionContext :=
  mkContext agent_id (default DEFAULT_TENANT token_tenant) [].

Definition star : Ascii.ascii := Ascii.ascii_of_nat 42.

(** [s.strip_suffix('*')] *)
Fixpoint strip_star (s : string) : option string :=
  match s with
  | EmptyString => None
  | String c EmptyString => if decide (c = star) then Some "" else None
  | String c rest => String c <$> strip_star rest
  end.

Definition scope_covers (grant_scope scope_context : option string) : bool :=
  match grant_scope, scope_context with
  | None, _ => true
  | Some _, None => true
  | Some s, Some ctx =>
      if str_eqb s ctx then true else
      match strip_star s with
      | Some pre => String.prefix pre ctx
      | None => false
      end
  end.

Definition covers_scoped (now : Z) (g : PermissionGrant) (action : PermissionAction)
    (scope_context : option string) : bool :=
  if match pg_expires_at g with Some expiry => expiry <? now | None => false end then false else
  let action_ok := bool_decide (pg_action g = Action_All) || bool_decide (pg_action g = action) in
  if negb action_ok then false else scope_covers (pg_scope g) scope_context.

Definition covers (now : Z) (g : PermissionGrant) (action : PermissionAction) : bool :=
  covers_scoped now g action None.

Definition has_permission (now : Z) (ctx : PermissionContext) (action : PermissionAction) : bool :=
  existsb (fun g => covers now g action) (pc_embedded_grants ctx).

Definition grant_new (action : PermissionAction) : PermissionGrant := mkGrant action None None.
Definition with_scope (g : PermissionGrant) (scope : string) : PermissionGrant :=
  mkGrant (pg_action g) (Some scope) (pg_expires_at g).
Definition with_expiry (g : PermissionGrant) (expiry_ms : Z) : PermissionGrant :=
  mkGrant (pg_action g) (pg_scope g) (Some expiry_ms).

(** ** The guard *)

Record PermissionGuard := mkGuard {
  trusted_agents : gset string;
  guard_grants : gmap string (list PermissionGrant);
}.

Definition guard_new : PermissionGuard := mkGuard {["kernel"; "system"]} ∅.

Definition is_trusted (guard : PermissionGuard) (agent_id : string) : bool :=
  bool_decide (agent_id ∈ trusted_agents guard).

Definition list_grants (guard : PermissionGuard) (agent_id : string) : list PermissionGrant :=
  default [] (guard_grants guard !! agent_id).

Definition has_grants (guard : PermissionGuard) (agent_id : string) : bool :=
  opt_is_some (guard_grants guard !! agent_id).

Definition check (now : Z) (guard : PermissionGuard) (ctx : PermissionContext) (action : PermissionAction)
    : result PermissionDenied unit :=
  if is_trusted guard (pc_agent_id ctx) then Ok tt else
  if has_permission now ctx action then Ok tt else
  if match guard_grants guard !! pc_agent_id ctx with
     | Some grants => existsb (fun g => covers now g action) grants
     | None => false
     end then Ok tt else
  match action with
  | Action_Read | Action_Write => Ok tt
  | Action_All => Err AllNotGranted
  | _ => Err (Lacks (pc_agent_id ctx) action)
  end.

Definition check_scoped (now : Z) (guard : PermissionGuard) (ctx : PermissionContext)
    (action : PermissionAction) (scope : option string) : result PermissionDenied unit :=
  if is_trusted guard (pc_agent_id ctx) then Ok tt else
  if existsb (fun g => covers_scoped now g action scope) (pc_embedded_grants ctx) then Ok tt else
  if match guard_grants guard !! pc_agent_id ctx with
     | Some grants => existsb (fun g => covers_scoped now g action scope) grants
     | None => false
     end then Ok tt else
  match action with
  | Action_Read | Action_Write => Ok tt
  | _ => Err (LacksScoped (pc_agent_id ctx) action scope)
  end.

Definition with_guard_grants (grants : gmap string (list PermissionGrant)) (guard : PermissionGuard)
    : PermissionGuard := mkGuard (trusted_agents guard) grants.

Definition grant (guard : PermissionGuard) (agent_id : string) (g : PermissionGrant) : PermissionGuard :=
  with_guard_grants (<[agent_id := list_grants guard agent_id ++ [g]]> (guard_grants guard)) guard.

Definition grant_action (guard : PermissionGuard) (agent_id : string) (action : PermissionAction)
    : PermissionGuard := grant guard agent_id (grant_new action).

Definition revoke_all (guard : PermissionGuard) (agent_id : string) : PermissionGuard :=
  with_guard_grants (delete agent_id (guard_grants guard)) guard.

Definition revoke (guard : PermissionGuard) (agent_id : string) (action : PermissionAction)
    : PermissionGuard :=
  match guard_grants guard !! agent_id with
  | None => guard
  | Some agent_grants =>
      match List.filter (fun g => negb (bool_decide (pg_action g = action))) agent_grants with
      | [] => with_guard_grants (delete agent_id (guard_grants guard)) guard
      | kept => with_guard_grants (<[agent_id := kept]> (guard_grants guard)) guard
      end
  end.

Definition reads_any (now : Z) (grants : list PermissionGrant) : bool :=
  existsb (fun g => covers now g Action_ReadAny || covers now g Action_All) grants.

Definition can_read_any (now : Z) (guard : PermissionGuard) (agent_id : string) : bool :=
  if is_trusted guard agent_id then true else
  match guard_grants guard !! agent_id with
  | Some grants => reads_any now grants
  | None => false
  end.

Definition check_ownership (now : Z) (guard : PermissionGuard) (ctx : PermissionContext)
    (owner_id : string) : result PermissionDenied unit :=
  if str_eqb (pc_agent_id ctx) owner_id then Ok tt else
  if is_trusted guard (pc_agent_id ctx) then Ok tt else
  if match guard_grants guard !! pc_agent_id ctx with
     | Some grants => reads_any now grants
     | None => false
     end then Ok tt else
  if has_permission now ctx Action_ReadAny then Ok tt else
  Err (NotOwner (pc_agent_id ctx) owner_id).

Definition check_namespace_access (ctx : PermissionContext) (resource_namespace : string)
    : result PermissionDenied unit :=
  if str_eqb (pc_tenant_id ctx) resource_namespace then Ok tt
  else Err (CrossesNamespace (pc_agent_id ctx) (pc_tenant_id ctx) resource_namespace).

Definition snapshot (guard : PermissionGuard) : gmap string (list PermissionGrant) := guard_grants guard.

(** The order of the iteration does not matter: each agent is extended once. *)
Definition restore (guard : PermissionGuard) (grants : gmap string (list PermissionGrant))
    : PermissionGuard :=
  with_guard_grants (union_with (fun present added => Some (present ++ added))
                       (guard_grants guard) grants) guard.

Definition parse_action (s : string) : option PermissionAction :=
  let s := to_lowercase s in
  let eqs := str_eqb s in
  if eqs "read" then Some Action_Read
  else if eqs "read_any" || eqs "readany" then Some Action_ReadAny
  else if eqs "write" then Some Action_Write
  else if eqs "delete" then Some Action_Delete
  else if eqs "network" then Some Action_Network
  else if eqs "execute" then Some Action_Execute
  else if eqs "send_message" || eqs "sendmessage" then Some Action_SendMessage
  else if eqs "manage_permissions" || eqs "managepermissions" then Some Action_ManagePermissions
  else if eqs "all" then Some Action_All
  else None.

(** ** The kernel's operations on grants *)

Section kernel.
(** [serde_json] on the map of grants. *)
Variable grants_to_string : gmap string (list PermissionGrant) -> option string.
Variable grants_from_str : string -> option (gmap string (list PermissionGrant)).

(** What the file system does with a write, a rename and a removal. *)
Record PermissionIo := mkPermissionIo { io_write : bool; io_rename : bool; io_remove : bool }.

Record PermissionKernel := mkPermissionKernel {
  pk_permissions : PermissionGuard;
  pk_index : option string;
}.

(** [atomic_write_json] *)
Definition atomic_write_json (io : PermissionIo) (file : option string) (json : option string)
    : option string :=
  match json with
  | Some text => if io_write io && io_rename io then Some text else file
  | None => file
  end.

Definition persist_permissions (io : PermissionIo) (k : PermissionKernel) : PermissionKernel :=
  let grants := snapshot (pk_permissions k) in
  mkPermissionKernel (pk_permissions k)
    (if bool_decide (grants = ∅)
     then (if io_remove io then None else pk_index k)
     else atomic_write_json io (pk_index k) (grants_to_string grants)).

Definition restore_permissions (k : PermissionKernel) : PermissionKernel :=
  match text ← pk_index k; grants_from_str text with
  | Some grants => mkPermissionKernel (restore (pk_permissions k) grants) (pk_index k)
  | None => k
  end.

Definition with_permissions (guard : PermissionGuard) (k : PermissionKernel) : PermissionKernel :=
  mkPermissionKernel guard (pk_index k).

Definition permission_grant (io : PermissionIo) (k : PermissionKernel) (agent_id : string)
    (action : PermissionAction) (scope : option string) (expires_at : option Z) : PermissionKernel :=
  let g := grant_new action in
  let g := match scope with Some s => with_scope g s | None => g end in
  let g := match expires_at with Some exp => with_expiry g exp | None => g end in
  persist_permissions io (with_permissions (grant (pk_permissions k) agent_id g) k).

Definition permission_revoke (io : PermissionIo) (k : PermissionKernel) (agent_id : string)
    (action : PermissionAction) : PermissionKernel :=
  persist_permissions io (with_permissions (revoke (pk_permissions k) agent_id action) k).

Definition permission_revoke_all (io : PermissionIo) (k : PermissionKernel) (agent_id : string)
    : PermissionKernel :=
  persist_permissions io (with_permissions (revoke_all (pk_permissions k) agent_id) k).

Definition permission_list (k : PermissionKernel) (agent_id : string) : list PermissionGrant :=
  list_grants (pk_permissions k) agent_id.

Definition permission_check (now : Z) (k : PermissionKernel) (agent_id : string)
    (action : PermissionAction) : result PermissionDenied unit :=
  check now (pk_permissions k) (context_new agent_id DEFAULT_TENANT) action.

(** A kernel started on the index file. *)
Definition permission_start (index : option string) : PermissionKernel :=
  restore_permissions (mkPermissionKernel guard_new index).
End kernel.

(** ** What a scope matches *)

Definition scope_matches (grant_scope scope_context : option string) : Prop :=
  forall s ctx, grant_scope = Some s -> scope_context = Some ctx ->
    s = ctx \/ exists pre rest, s = (pre +:+ String star "") /\ ctx = (pre +:+ rest).

Lemma strip_star_spec s pre : strip_star s = Some pre <-> s = (pre +:+ String star "").
Proof.
  revert pre. induction s as [|c s IH]; intros pre; [by destruct pre|].
  assert (strip_star (String c s) = Some pre <->
    (s = "" /\ c = star /\ pre = "") \/ (s <> "" /\ exists p, strip_star s = Some p /\ pre = String c p)) as ->.
  { cbn [strip_star]. destruct s as [|c' s].
    - case_decide; split; [intros [= <-]; by left|naive_solver|done|naive_solver].
    - split.
      + intros (p & Hp & ->)%fmap_Some. right. by split; [|exists p].
      + intros [[? _]|(_ & p & Hp & ->)]; [done|]. by rewrite Hp. }
  split.
  - intros [(-> & -> & ->)|(_ & p & Hp & ->)]; [done|]. apply IH in Hp as ->. done.
  - destruct pre as [|c' pre]; cbn; intros [= -> Hs]; [by left|]. right. split; [by destruct pre; subst|].
    exists pre. split; [by apply IH|done].
Qed.

Lemma prefix_spec p s : String.prefix p s = true <-> exists rest, s = (p +:+ rest).
Proof.
  revert s. induction p as [|c p IH]; intros s; [split; [intros _; by exists s|by destruct s]|].
  destruct s as [|c' s]; cbn; [split; [done|by intros [rest ?]]|].
  destruct (Ascii.ascii_dec c c') as [-> |Hne].
  - rewrite IH. split; intros [rest Hr]; exists rest; [by rewrite Hr|by injection Hr].
  - split; [done|]. intros [rest Hr]. by injection Hr as ? _.
Qed.

Lemma scope_covers_spec gs sc : scope_covers gs sc = true <-> scope_matches gs sc.
Proof.
  unfold scope_matches. destruct gs as [s|], sc as [ctx|]; cbn; [|naive_solver..].
  unfold str_eqb. case_bool_decide as Heq; [naive_solver|]. destruct (strip_star s) as [pre|] eqn:Hs.
  - apply strip_star_spec in Hs as ->. rewrite prefix_spec. split.
    + intros [rest ->] ? ? [= <-] [= <-]. right. by exists pre, rest.
    + intros Hm. destruct (Hm _ _ eq_refl eq_refl) as [|(p & rest & Hp & ->)]; [done|].
      exists rest. apply strip_star_spec in Hp.
      rewrite (proj2 (strip_star_spec (pre +:+ String star "") pre) eq_refl) in Hp. by injection Hp as <-.
  - split; [done|]. intros Hm. destruct (Hm _ _ eq_refl eq_refl) as [|(p & rest & Hp & ->)]; [done|].
    apply strip_star_spec in Hp. congruence.
Qed.

(** ** What is permitted *)

(** A history of changes to the grants. *)
Inductive PermissionOp : Type :=
  | P_Grant (agent_id : string) (g : PermissionGrant)
  | P_Revoke (agent_id : string) (action : PermissionAction)
  | P_RevokeAll (agent_id : string).

Definition permission_step (guard : PermissionGuard) (op : PermissionOp) : PermissionGuard :=
  match op with
  | P_Grant agent_id g => grant guard agent_id g
  | P_Revoke agent_id action => revoke guard agent_id action
  | P_RevokeAll agent_id => revoke_all guard agent_id
  end.

(** Granted and not revoked since. *)
Definition stands (ops : list PermissionOp) (agent_id : string) (g : PermissionGrant) : Prop :=
  exists before since, ops = before ++ P_Grant agent_id g :: since /\
    P_RevokeAll agent_id ∉ since /\ P_Revoke agent_id (pg_action g) ∉ since.

(** The grant allows the action in the scope and has not expired. *)
Definition allows (now : Z) (g : PermissionGrant) (action : PermissionAction) (scope : option string) : Prop :=
  (forall expiry, pg_expires_at g = Some expiry -> now <= expiry) /\
  (pg_action g = Action_All \/ pg_action g = action) /\ scope_matches (pg_scope g) scope.

Lemma covers_scoped_spec now g action scope : covers_scoped now g action scope = true <-> allows now g action scope.
Proof.
  unfold covers_scoped, allows. rewrite <-scope_covers_spec.
  destruct (pg_expires_at g) as [e|]; [destruct (Z.ltb_spec e now)|].
  - split; [done|]. intros [He _]. specialize (He e eq_refl). lia.
  - repeat case_bool_decide; cbn; (split; [naive_solver lia|naive_solver]).
  - repeat case_bool_decide; cbn; naive_solver.
Qed.

Lemma existsb_spec {A} (f : A -> bool) l : existsb f l = true <-> exists x, x ∈ l /\ f x = true.
Proof. rewrite existsb_exists. by setoid_rewrite list_elem_of_In. Qed.

Lemma list_grants_put trusted m a l agent :
  list_grants (mkGuard trusted (<[a := l]> m)) agent = if decide (agent = a) then l else default [] (m !! agent).
Proof.
  unfold list_grants. cbn. case_decide as Hd; [by subst; rewrite lookup_insert_eq|by rewrite lookup_insert_ne].
Qed.

Lemma list_grants_delete trusted m a agent :
  list_grants (mkGuard trusted (delete a m)) agent = if decide (agent = a) then [] else default [] (m !! agent).
Proof.
  unfold list_grants. cbn. case_decide as Hd; [by subst; rewrite lookup_delete_eq|by rewrite lookup_delete_ne].
Qed.

(** What one change does to the grants of an agent. *)
Lemma permission_step_spec guard op agent :
  list_grants (permission_step guard op) agent =
  match op with
  | P_Grant a g => if decide (agent = a) then list_grants guard agent ++ [g] else list_grants guard agent
  | P_Revoke a action =>
      if decide (agent = a)
      then List.filter (fun g => negb (bool_decide (pg_action g = action))) (list_grants guard agent)
      else list_grants guard agent
  | P_RevokeAll a => if decide (agent = a) then [] else list_grants guard agent
  end.
Proof.
  destruct op as [a g|a action|a]; cbn.
  - unfold grant, with_guard_grants. rewrite list_grants_put. by case_decide; subst.
  - unfold revoke. destruct (guard_grants guard !! a) as [gs|] eqn:Hg.
    + assert (list_grants guard a = gs) as Hl by (unfold list_grants; by rewrite Hg).
      destruct (List.filter _ gs) as [|k kept] eqn:Hk; unfold with_guard_grants;
        rewrite ?list_grants_delete, ?list_grants_put; case_decide; subst; rewrite ?Hk; done.
    + case_decide; [|done]. subst. unfold list_grants. by rewrite Hg.
  - unfold revoke_all, with_guard_grants. by rewrite list_grants_delete.
Qed.

Lemma permission_run_trusted ops guard :
  trusted_agents (foldl permission_step guard ops) = trusted_agents guard.
Proof.
  revert guard. induction ops as [|op ops IH]; intros guard; [done|]. cbn. rewrite IH.
  destruct op; cbn; try done. unfold revoke. by repeat case_match.
Qed.

Lemma stands_snoc ops op agent g :
  stands (ops ++ [op]) agent g <->
  op = P_Grant agent g \/
  (stands ops agent g /\ op <> P_RevokeAll agent /\ op <> P_Revoke agent (pg_action g)).
Proof.
  split.
  - intros (before & since & Heq & Hall & Hact). destruct since as [|x since _] using rev_ind.
    + apply app_inj_tail in Heq as [_ ->]. by left.
    + rewrite app_comm_cons, app_assoc in Heq. apply app_inj_tail in Heq as [-> ->].
      right. split_and!; [exists before, since; set_solver|set_solver..].
  - intros [-> |((before & since & -> & Hall & Hact) & H1 & H2)].
    + exists ops, []. set_solver.
    + exists before, (since ++ [op]). rewrite <-app_assoc. set_solver.
Qed.

(** The registered grants are the standing ones. *)
Lemma grants_stand ops agent g :
  g ∈ list_grants (foldl permission_step guard_new ops) agent <-> stands ops agent g.
Proof.
  induction ops as [|op ops IH] using rev_ind.
  - split; [intros H%elem_of_nil; done|]. intros (before & since & Heq & _). by destruct before.
  - rewrite foldl_snoc, permission_step_spec, stands_snoc, <-IH.
    destruct op as [a g'|a action|a]; case_decide as Hd; subst.
    + rewrite elem_of_app, list_elem_of_singleton. naive_solver.
    + naive_solver.
    + rewrite !list_elem_of_In, filter_In, negb_true_iff, bool_decide_eq_false. naive_solver.
    + naive_solver.
    + split; [intros H%elem_of_nil; done|naive_solver].
    + naive_solver.
Qed.

Definition permitted (now : Z) (ops : list PermissionOp) (ctx : PermissionContext)
    (action : PermissionAction) (scope : option string) : Prop :=
  pc_agent_id ctx = "kernel" \/ pc_agent_id ctx = "system" \/ action = Action_Read \/ action = Action_Write \/
  exists g, (g ∈ pc_embedded_grants ctx \/ stands ops (pc_agent_id ctx) g) /\ allows now g action scope.

(** The registry passes a check that some standing grant passes. *)
Lemma registry_spec (f : PermissionGrant -> bool) ops agent :
  match guard_grants (foldl permission_step guard_new ops) !! agent with
  | Some grants => existsb f grants
  | None => false
  end = true <-> exists g, stands ops agent g /\ f g = true.
Proof.
  setoid_rewrite <-grants_stand. unfold list_grants.
  destruct (guard_grants _ !! agent) as [gs|]; cbn; [apply existsb_spec|].
  split; [done|]. by intros (g & ?%elem_of_nil & _).
Qed.

Lemma trusted_spec ops agent :
  is_trusted (foldl permission_step guard_new ops) agent = true <-> agent = "kernel" \/ agent = "system".
Proof. unfold is_trusted. rewrite bool_decide_eq_true, permission_run_trusted. cbn. set_solver. Qed.

Lemma if_ok {E} (b : bool) (r : result E unit) : (if b then Ok tt else r) = Ok tt <-> b = true \/ r = Ok tt.
Proof. destruct b; naive_solver. Qed.

(** Who may read what another agent owns. *)
Definition reads_others (now : Z) (ops : list PermissionOp) (ctx : PermissionContext) : Prop :=
  pc_agent_id ctx = "kernel" \/ pc_agent_id ctx = "system" \/
  exists g, (g ∈ pc_embedded_grants ctx \/ stands ops (pc_agent_id ctx) g) /\ allows now g Action_ReadAny None.

(** A grant that allows everything allows reading. *)
Lemma allows_all now g scope : allows now g Action_All scope -> allows now g Action_ReadAny scope.
Proof. unfold allows. naive_solver. Qed.

Lemma check_policy now ops ctx action :
  check now (foldl permission_step guard_new ops) ctx action = Ok tt <-> permitted now ops ctx action None.
Proof.
  unfold check, has_permission, covers, permitted. rewrite !if_ok, trusted_spec, registry_spec, existsb_spec.
  setoid_rewrite covers_scoped_spec. destruct action; naive_solver.
Qed.

(** A grant restricted to a scope passes a check that names none. *)
Lemma scoped_grant_passes_unscoped now agent tenant action scope :
  check now (grant guard_new agent (with_scope (grant_new action) scope)) (context_new agent tenant) action = Ok tt.
Proof.
  apply (check_policy now [P_Grant agent (with_scope (grant_new action) scope)]).
  do 4 right. exists (with_scope (grant_new action) scope).
  split; [right; exists [], []; set_solver|]. by split_and!; [|right|].
Qed.

(** C17: what the permission guard decides.  After any history of grants and
    revocations an action is allowed, in a scope or without one, exactly when the
    agent is the kernel or the system, the action is a plain read or write, or
    some grant carried by the request or granted and not revoked since allows it;
    and an object of another agent may be read exactly by the owner, the trusted
    agents and those with such a grant to read any.  A scope restricts a grant
    only against a check that names a scope: against a check without one, as all
    checks of actions and of ownership are, a grant counts whatever its scope.
    The comment of [covers_scoped] says the opposite. *)
Theorem check_decides_policy now ops ctx action scope owner :
  let guard := foldl permission_step guard_new ops in
  (check_scoped now guard ctx action scope = Ok tt <-> permitted now ops ctx action scope) /\
  (check now guard ctx action = Ok tt <-> permitted now ops ctx action None) /\
  (check_ownership now guard ctx owner = Ok tt <-> pc_agent_id ctx = owner \/ reads_others now ops ctx) /\
  (forall g, g ∈ pc_embedded_grants ctx \/ stands ops (pc_agent_id ctx) g ->
     pg_action g = Action_All \/ pg_action g = action -> (forall expiry, pg_expires_at g = Some expiry -> now <= expiry) ->
     check now guard ctx action = Ok tt).
Proof.
  intros guard. unfold reads_others. split_and!.
  - unfold check_scoped, permitted. rewrite !if_ok. unfold guard. rewrite trusted_spec, registry_spec, existsb_spec.
    setoid_rewrite covers_scoped_spec. destruct action; naive_solver.
  - apply check_policy.
  - unfold check_ownership, has_permission, reads_any. rewrite !if_ok. unfold guard.
    rewrite trusted_spec, (registry_spec (fun g => covers now g Action_ReadAny || covers now g Action_All)),
      existsb_spec. unfold covers. setoid_rewrite orb_true_iff. setoid_rewrite covers_scoped_spec.
    unfold str_eqb. rewrite bool_decide_eq_true. pose proof allows_all. naive_solver.
  - intros g Hg Ha He. apply check_policy. do 4 right. exists g. split; [done|]. by split_and!.
Qed.

(** A grant to delete for one tool allows deleting anything. *)
Lemma check_decides_policy_witness :
  check 5 (grant guard_new "bob" (with_scope (grant_new Action_Delete) "tool:tidy")) (context_new "bob" DEFAULT_TENANT)
    Action_Delete = Ok tt.
Proof.
  destruct (check_decides_policy 5 [P_Grant "bob" (with_scope (grant_new Action_Delete) "tool:tidy")]
    (context_new "bob" DEFAULT_TENANT) Action_Delete None "") as (_ & _ & _ & Hg).
  apply (Hg (with_scope (grant_new Action_Delete) "tool:tidy")); [|by right|done].
  right. exists [], []. set_solver.
Defined.

(** ** Grants on disk *)

Section persistence.
Variable grants_to_string : gmap string (list PermissionGrant) -> option string.
Variable grants_from_str : string -> option (gmap string (list PermissionGrant)).

Inductive KernelPermissionOp : Type :=
  | K_Grant (agent_id : string) (action : PermissionAction) (scope : option string) (expires_at : option Z)
  | K_Revoke (agent_id : string) (action : PermissionAction)
  | K_RevokeAll (agent_id : string).

Definition kernel_permission (io : PermissionIo) (k : PermissionKernel) (op : KernelPermissionOp)
    : PermissionKernel :=
  match op with
  | K_Grant a action scope exp => permission_grant grants_to_string io k a action scope exp
  | K_Revoke a action => permission_revoke grants_to_string io k a action
  | K_RevokeAll a => permission_revoke_all grants_to_string io k a
  end.

(** The change of the guard an operation asks for. *)
Definition requested (op : KernelPermissionOp) : PermissionOp :=
  match op with
  | K_Grant a action scope exp => P_Grant a (mkGrant action scope exp)
  | K_Revoke a action => P_Revoke a action
  | K_RevokeAll a => P_RevokeAll a
  end.

Lemma kernel_permission_spec io k op :
  kernel_permission io k op =
  persist_permissions grants_to_string io (with_permissions (permission_step (pk_permissions k) (requested op)) k).
Proof. destruct op as [a action [s|] [e|]|a action|a]; reflexivity. Qed.

(** The kernel after a run of operations with the outcomes of their writes. *)
Definition permission_runs (index : option string) (xs : list (PermissionIo * KernelPermissionOp))
    : PermissionKernel :=
  foldl (fun k x => kernel_permission (fst x) k (snd x)) (permission_start grants_from_str index) xs.

Lemma start_trusted index :
  trusted_agents (pk_permissions (permission_start grants_from_str index)) = trusted_agents guard_new.
Proof. unfold permission_start, restore_permissions. by case_match. Qed.

Lemma permission_runs_trusted index xs :
  trusted_agents (pk_permissions (permission_runs index xs)) = trusted_agents guard_new.
Proof.
  induction xs as [|[io op] xs IH] using rev_ind; [apply start_trusted|].
  unfold permission_runs in *. rewrite foldl_snoc, kernel_permission_spec.
  etrans; [exact (permission_run_trusted [requested op] _)|exact IH].
Qed.

Lemma restore_new grants : restore guard_new grants = mkGuard (trusted_agents guard_new) grants.
Proof.
  unfold restore, with_guard_grants. f_equal. apply map_eq. intros a. cbn [guard_new guard_grants].
  rewrite lookup_union_with, lookup_empty. by destruct (grants !! a).
Qed.

(** Grants survive a restart.  When the file system does what it is asked
    and the grants can be written as text, a kernel started on the permission
    index after any operation has exactly the permissions of the running one,
    whatever happened to earlier writes; when the writes of the operation fail,
    the restart goes back to the index as it was, and the operation says
    nothing. *)
Lemma permissions_survive_restart index xs io op :
  (forall g text, grants_to_string g = Some text -> grants_from_str text = Some g) ->
  let k := permission_runs index xs in
  let k' := kernel_permission io k op in
  (io = mkPermissionIo true true true ->
   is_Some (grants_to_string (guard_grants (pk_permissions k'))) ->
   pk_permissions (permission_start grants_from_str (pk_index k')) = pk_permissions k') /\
  (io = mkPermissionIo false false false ->
   permission_start grants_from_str (pk_index k') = permission_start grants_from_str (pk_index k)).
Proof.
  intros Hcodec k k'. pose proof (permission_runs_trusted index (xs ++ [(io, op)])) as Ht.
  unfold permission_runs in Ht. rewrite foldl_snoc in Ht. cbn [fst snd] in Ht.
  change (trusted_agents (pk_permissions k') = trusted_agents guard_new) in Ht.
  unfold k' in *. rewrite kernel_permission_spec in *. clear k'. set (guard := permission_step _ _) in *.
  destruct guard as [trusted grants]. cbn in Ht. subst trusted.
  split; intros ->; unfold persist_permissions, snapshot, atomic_write_json; cbn.
  - intros [text Htext]. case_bool_decide as Hempty; cbn.
    + subst grants. reflexivity.
    + rewrite Htext. unfold permission_start, restore_permissions. cbn. rewrite (Hcodec _ _ Htext). cbn.
      apply restore_new.
  - case_bool_decide; [done|]. by destruct (grants_to_string grants).
Qed.
End persistence.

(** A codec of two maps, and an agent that loses the second of its grants. *)
Definition toy_grant : PermissionGrant := mkGrant Action_Execute (Some "tool:*") None.
Definition toy_maps : list (gmap string (list PermissionGrant)) :=
  [{["a" := [toy_grant]]}; {["a" := [toy_grant; grant_new Action_Delete]]}].
Definition toy_to_string (g : gmap string (list PermissionGrant)) : option string :=
  if decide (Some g = toy_maps !! 0%nat) then Some "one" else
  if decide (Some g = toy_maps !! 1%nat) then Some "two" else None.
Definition toy_from_str (text : string) : option (gmap string (list PermissionGrant)) :=
  if str_eqb text "one" then toy_maps !! 0%nat else if str_eqb text "two" then toy_maps !! 1%nat else None.

Lemma toy_codec g text : toy_to_string g = Some text -> toy_from_str text = Some g.
Proof. unfold toy_to_string. repeat case_decide; intros [= <-]; by cbn in *. Qed.

Definition toy_run := [(mkPermissionIo true true true, K_Grant "a" Action_Execute (Some "tool:*") None);
                       (mkPermissionIo false true true, K_Grant "a" Action_Delete None None)].

Lemma permissions_survive_restart_witness :
  let k := kernel_permission toy_to_string (mkPermissionIo true true true)
             (permission_runs toy_to_string toy_from_str None toy_run) (K_Revoke "a" Action_Delete) in
  pk_permissions (permission_start toy_from_str (pk_index k)) = pk_permissions k.
Proof.
  apply (permissions_survive_restart toy_to_string toy_from_str None toy_run (mkPermissionIo true true true)
    (K_Revoke "a" Action_Delete) toy_codec); [reflexivity|]. exists "one". vm_compute. reflexivity.
Defined.
