(* ===== verification/Text.v ===== *)
(** * Text: the standard library's string operations the loaders use

    Rust strings are byte strings in UTF-8.  Words are split at Unicode
    [White_Space] as in [Prelude.blank]; bytes are decoded with replacement as
    [String::from_utf8_lossy] does; a slice at an index inside a character
    panics; paths are joined as [std::path::Path::join] does on Unix. *)

From stdpp Require Import base strings list.
From S2P Require Import Prelude.

(** ** Words *)

Definition flush_word (word : string) (words : list string) : list string :=
  match word with EmptyString => words | _ => word :: words end.

Fixpoint words_from (word s : string) : list string :=
  match s with
  | EmptyString => flush_word word []
  | String c s1 =>
      if ws1 c then flush_word word (words_from "" s1) else
      match s1 with
      | EmptyString => [word +:+ String c ""]
      | String d s2 =>
          if ws2 c d then flush_word word (words_from "" s2) else
          match s2 with
          | EmptyString => words_from (word +:+ String c "") s1
          | String e s3 =>
              if ws3 c d e then flush_word word (words_from "" s3)
              else words_from (word +:+ String c "") s1
          end
      end
  end.

(** [s.split_whitespace().collect::<Vec<_>>()] *)
Definition split_whitespace (s : string) : list string := words_from "" s.

(** [words.join(sep)] *)
Fixpoint join_with (sep : string) (words : list string) : string :=
  match words with
  | [] => ""
  | [w] => w
  | w :: rest => w +:+ sep +:+ join_with sep rest
  end.

(** ** UTF-8 *)

Definition byte_in (lo hi : N) (c : Ascii.ascii) : bool := ((lo <=? byte_of c) && (byte_of c <=? hi))%N.

(** A continuation byte. *)
Definition is_continuation (c : Ascii.ascii) : bool := byte_in 128 191 c.

(** The second byte a leading byte of three or four allows. *)
Definition second_of_three (a b : Ascii.ascii) : bool :=
  byte_in 224 224 a && byte_in 160 191 b || byte_in 225 236 a && byte_in 128 191 b
  || byte_in 237 237 a && byte_in 128 159 b || byte_in 238 239 a && byte_in 128 191 b.
Definition second_of_four (a b : Ascii.ascii) : bool :=
  byte_in 240 240 a && byte_in 144 191 b || byte_in 241 243 a && byte_in 128 191 b
  || byte_in 244 244 a && byte_in 128 143 b.

(** U+FFFD *)
Definition replacement (rest : string) : string :=
  String (Ascii.ascii_of_N 239) (String (Ascii.ascii_of_N 191) (String (Ascii.ascii_of_N 189) rest)).

(** [String::from_utf8_lossy]: one replacement per maximal invalid prefix. *)
Fixpoint from_utf8_lossy (s : string) : string :=
  match s with
  | EmptyString => ""
  | String a s1 =>
      if byte_in 0 127 a then String a (from_utf8_lossy s1)
      else if byte_in 194 223 a then
        match s1 with
        | String b s2 => if is_continuation b then String a (String b (from_utf8_lossy s2))
                         else replacement (from_utf8_lossy s1)
        | EmptyString => replacement ""
        end
      else if byte_in 224 239 a then
        match s1 with
        | String b s2 =>
            if second_of_three a b then
              match s2 with
              | String c s3 => if is_continuation c then String a (String b (String c (from_utf8_lossy s3)))
                               else replacement (from_utf8_lossy s2)
              | EmptyString => replacement ""
              end
            else replacement (from_utf8_lossy s1)
        | EmptyString => replacement ""
        end
      else if byte_in 240 244 a then
        match s1 with
        | String b s2 =>
            if second_of_four a b then
              match s2 with
              | String c s3 =>
                  if is_continuation c then
                    match s3 with
                    | String d s4 =>
                        if is_continuation d
                        then String a (String b (String c (String d (from_utf8_lossy s4))))
                        else replacement (from_utf8_lossy s3)
                    | EmptyString => replacement ""
                    end
                  else replacement (from_utf8_lossy s2)
              | EmptyString => replacement ""
              end
            else replacement (from_utf8_lossy s1)
        | EmptyString => replacement ""
        end
      else replacement (from_utf8_lossy s1)
  end.

(** [s.is_char_boundary(i)] *)
Definition is_char_boundary (s : string) (i : nat) : bool :=
  match String.get i s with
  | Some c => negb (is_continuation c)
  | None => Nat.eqb i (String.length s)
  end.

(** [s.split_at(i)]; [None] is the panic. *)
Definition split_at (s : string) (i : nat) : option (string * string) :=
  if is_char_boundary s i
  then Some (String.substring 0 i s, String.substring i (String.length s - i) s) else None.

(** [s.chars().take(n).collect()], and [s.chars().count()] *)
Fixpoint chars_take (n : nat) (s : string) : string :=
  match s with
  | EmptyString => EmptyString
  | String c s' =>
      if is_continuation c then String c (chars_take n s')
      else match n with O => EmptyString | S n' => String c (chars_take n' s') end
  end.
Definition chars_count (s : string) : nat :=
  length (List.filter (fun c => negb (is_continuation c)) (String.list_ascii_of_string s)).

(** [std::str::from_utf8(data).is_ok()]: nothing is replaced. *)
Definition utf8_ok (data : string) : bool := str_eqb (from_utf8_lossy data) data.

(** ** Paths *)

Definition slash : Ascii.ascii := Ascii.ascii_of_N 47.

Definition is_absolute (p : string) : bool :=
  match p with String c _ => bool_decide (c = slash) | EmptyString => false end.

Fixpoint ends_with_slash (p : string) : bool :=
  match p with
  | EmptyString => false
  | String c EmptyString => bool_decide (c = slash)
  | String _ rest => ends_with_slash rest
  end.

(** [Path::new(a).join(b)]: an absolute path replaces what it is joined to. *)
Definition path_join (a b : string) : string :=
  if is_absolute b then b
  else if bool_decide (a = "") || ends_with_slash a then a +:+ b
  else a +:+ String slash b.
