(* ===== verification/Float32.v ===== *)
(** * Floats

    [f32] and [f64] as IEEE 754 binary32 and binary64 with rounding to nearest,
    by the executable specification of the standard library. *)

From Stdlib Require Import ZArith SpecFloat Lia.

Definition f32 : Set := spec_float.

Definition f32_prec : Z := 24.
Definition f32_emax : Z := 128.

Definition f32_add (x y : f32) : f32 := SFadd f32_prec f32_emax x y.
Definition f32_mul (x y : f32) : f32 := SFmul f32_prec f32_emax x y.
Definition f32_div (x y : f32) : f32 := SFdiv f32_prec f32_emax x y.
Definition f32_sqrt (x : f32) : f32 := SFsqrt f32_prec f32_emax x.
(** [x > y] and [x == y]; both are false on NaN. *)
Definition f32_gt (x y : f32) : bool := SFltb y x.
Definition f32_eqb (x y : f32) : bool := SFeqb x y.

(** [+0.0] *)
Definition f32_zero : f32 := S754_zero false.

(** [0.85], the nearest single to it. *)
Definition f32_0_85 : f32 := S754_finite false 14260634 (-24).

(** [-0.0] and [0.3] *)
Definition f32_neg_zero : f32 := S754_zero true.
Definition f32_0_3 : f32 := f32_div (S754_finite false (3 * 2 ^ 22) (-22)) (S754_finite false (10 * 2 ^ 20) (-20)).

(** [n as f32] *)
Definition f32_of_Z (n : Z) : f32 := binary_normalize f32_prec f32_emax n 0 false.

(** ** Double precision *)

Definition f64 : Set := spec_float.
Definition f64_prec : Z := 53.
Definition f64_emax : Z := 1024.

Definition f64_mul (x y : f64) : f64 := SFmul f64_prec f64_emax x y.
Definition f64_div (x y : f64) : f64 := SFdiv f64_prec f64_emax x y.
Definition f64_opp (x : f64) : f64 := SFopp x.
Definition f64_eqb (x y : f64) : bool := SFeqb x y.
Definition f64_zero : f64 := S754_zero false.
(** [n as f64] *)
Definition f64_of_Z (n : Z) : f64 := binary_normalize f64_prec f64_emax n 0 false.
Definition f64_add (x y : f64) : f64 := SFadd f64_prec f64_emax x y.
Definition f64_sub (x y : f64) : f64 := SFsub f64_prec f64_emax x y.
Definition f64_sqrt (x : f64) : f64 := SFsqrt f64_prec f64_emax x.
Definition f64_abs (x : f64) : f64 := SFabs x.
Definition f64_gt (x y : f64) : bool := SFltb y x.
(** [f64::is_finite] and [f32::is_finite] *)
Definition float_is_finite (x : spec_float) : bool :=
  match x with S754_finite _ _ _ | S754_zero _ => true | _ => false end.
(** [f64::from] a single: the same number. *)
Definition f64_of_f32 (x : f32) : f64 := x.
(** [1e-4], which is one divided by ten thousand, rounded. *)
Definition f64_1e_4 : f64 := f64_div (f64_of_Z 1) (f64_of_Z 10000).

(** [f32::to_bits]: sign, exponent and fraction; a subnormal has exponent field 0. *)
Definition f32_to_bits (x : f32) : Z :=
  let sign (s : bool) := if s then Z.shiftl 1 31 else 0%Z in
  match x with
  | S754_zero s => sign s
  | S754_infinity s => sign s + Z.shiftl 255 23
  | S754_nan => Z.shiftl 255 23 + Z.shiftl 1 22
  | S754_finite s m e =>
      if (Zpos m <? Z.shiftl 1 23) then sign s + Zpos m
      else sign s + Z.shiftl (e + 150) 23 + (Zpos m - Z.shiftl 1 23)
  end%Z.

(** [x as f32] *)
Definition f64_to_f32 (x : f64) : f32 :=
  match x with
  | S754_finite s m e => binary_normalize f32_prec f32_emax (cond_Zopp s (Zpos m)) e s
  | x => x
  end.

Lemma f32_gt_trans x y z : f32_gt x y = true -> f32_gt y z = true -> f32_gt x z = true.
Proof.
  unfold f32_gt, SFltb.
  destruct x as [[]|[]| |[] mx ex], y as [[]|[]| |[] my ey], z as [[]|[]| |[] mz ez]; cbn; try congruence;
  change (Pos.compare_cont Eq) with Pos.compare;
  destruct (Z.compare_spec ez ey), (Z.compare_spec ey ex), (Z.compare_spec ez ex); try congruence; try lia;
  destruct (Pos.compare_spec mz my), (Pos.compare_spec my mx), (Pos.compare_spec mz mx); cbn; try congruence; lia.
Qed.

Definition f32_is_nan (x : f32) : bool := match x with SpecFloat.S754_nan => true | _ => false end.
(** [x.min(y)]: a NaN yields the other. *)
Definition f32_min (x y : f32) : f32 := if (f32_gt x y || f32_is_nan x)%bool then y else x.
