(* ===== verification/ObjectStorage.v ===== *)
(** * Content-addressed objects ([src/src/cas/object.rs], [src/src/cas/storage.rs])

    Objects named by the SHA-256 of their content, one file each, and the log of
    accesses.  The directory is the set of its shards and a map from content
    identifiers to file contents: [object_path] is injective on valid
    identifiers, but an identifier of two digits names its shard itself. *)

From stdpp Require Import base gmap strings list sorting.
From S2P Require Import Prelude Wire MemoryModel LedgerModel.

Local Open Scope Z_scope.

(** ** Objects *)

Inductive ObjectScope : Type := ObjectScope_Private | ObjectScope_Shared.

Inductive ContentType : Type :=
  | Content_Text | Content_Image | Content_Audio | Content_Video
  | Content_Structured | Content_Binary | Content_Unknown.

Record AIObjectMeta := mkMeta {
  om_content_type : ContentType;
  om_tags : list string;
  om_created_by : string;
  om_created_at : Z;
  om_intent : option string;
  om_tenant_id : string;
  om_scope : ObjectScope;
}.

Record AIObject := mkObject {
  ob_cid : string;
  ob_data : string;
  ob_meta : AIObjectMeta;
}.

Definition meta_text (now : Z) (tags : list string) : AIObjectMeta :=
  mkMeta Content_Text tags "" now None DEFAULT_TENANT ObjectScope_Shared.

Definition from_extension (ext : string) : ContentType :=
  let s := to_lowercase ext in
  if str_mem s ["txt"; "md"; "rst"; "log"] then Content_Text
  else if str_mem s ["json"; "toml"; "yaml"; "yml"; "csv"; "xml"] then Content_Structured
  else if str_mem s ["png"; "jpg"; "jpeg"; "webp"; "gif"; "svg"; "bmp"] then Content_Image
  else if str_mem s ["mp3"; "wav"; "flac"; "ogg"; "aac"] then Content_Audio
  else if str_mem s ["mp4"; "mkv"; "webm"; "avi"; "mov"] then Content_Video
  else if str_mem s ["exe"; "bin"; "so"; "dll"; "a"] then Content_Binary
  else Content_Unknown.

Definition content_is_text (c : ContentType) : bool :=
  match c with Content_Text | Content_Structured => true | _ => false end.
Definition is_multimedia (c : ContentType) : bool :=
  match c with Content_Image | Content_Audio | Content_Video => true | _ => false end.

Section objects.
Context `{Platform}.

Definition compute_cid (data : string) : string := sha256_hex data.
Definition object_new (data : string) (meta : AIObjectMeta) : AIObject :=
  mkObject (compute_cid data) data meta.
Definition verify_integrity (o : AIObject) : bool := str_eqb (ob_cid o) (compute_cid (ob_data o)).
End objects.

(** ** The store *)

Record AccessEntry := mkAccess {
  first_accessed_at : Z;
  last_accessed_at : Z;
  access_count : Z;
}.

Inductive CASError : Type :=
  | CAS_Io (e : IoError)
  | CAS_Serialization
  | CAS_NotFound (cid : string)
  | CAS_IntegrityFailed (cid : string)
  | CAS_InvalidCid (cid : string).

(** [impl From<CASError> for io::Error], by the kind of the error. *)
Definition io_error_of (e : CASError) : IoError :=
  match e with
  | CAS_Io e => e
  | CAS_NotFound _ => IoNotFound
  | CAS_InvalidCid _ => IoInvalidInput
  | CAS_IntegrityFailed _ | CAS_Serialization => IoInvalidData
  end.

Definition ACCESS_PERSIST_BATCH_SIZE : Z := 100.
Definition ACCESS_PERSIST_INTERVAL_MS : Z := 60000.
Definition MAX_ACCESS_LOG_ENTRIES : Z := 100000.

(** [c.is_ascii_hexdigit()] *)
Definition hex_byte (n : N) : bool := lower_hex_byte n || ((65 <=? n) && (n <=? 70))%N.

Definition validate_cid (cid : string) : result CASError unit :=
  reject (Nat.ltb (String.length cid) 2) with CAS_InvalidCid cid;
  reject negb (all_bytes hex_byte cid) with CAS_InvalidCid cid;
  Ok tt.

Section storage.
Context `{Platform} `{!Serde AIObject} `{!Serde (gmap string AccessEntry)}.

Record CASStorage := mkCAS {
  cas_objects : gmap string bytes;
  cas_shards : gset string;
  cas_access_file : option bytes;
  cas_access_log : gmap string AccessEntry;
  access_count_total : Z;
  last_persist_ms : Z;
}.

(** What an access draws from outside: the clock and the order in which the
    entries of the full log come out of the unstable sort, and how the write of
    the log ends. *)
Record AccessIo := mkAccessIo {
  ac_now : Z;
  ac_sorted : list (string * Z) -> list (string * Z);
  ac_write : option IoError;
}.

Definition load_access_log (file : option bytes) (read : option IoError)
    : result IoError (gmap string AccessEntry) :=
  match file with
  | None => Ok ∅
  | Some json =>
      match read with
      | Some e => Err e
      | None => ok_or (from_slice json) IoInvalidData
      end
  end.

(** [CASStorage::new] on an existing directory. *)
Definition cas_open (now : Z) (objects : gmap string bytes) (shards : gset string) (file : option bytes) (read : option IoError)
    : CASStorage :=
  let log := match load_access_log file read with Ok log => log | Err _ => ∅ end in
  mkCAS objects shards file log
    (foldr (fun e n => u64_add (access_count (snd e)) n) 0 (map_to_list log)) now.

(** [cid.split_at(2)] *)
Definition shard_of (cid : string) : string := String.substring 0 2 cid.
(** The path of an identifier of two digits is that of its shard. *)
Definition is_shard (st : CASStorage) (cid : string) : bool :=
  Nat.eqb (String.length cid) 2 && bool_decide (cid ∈ cas_shards st).
(** [obj_path.exists()], of a file or a directory; reading a directory fails. *)
Definition path_exists (st : CASStorage) (cid : string) : bool :=
  opt_is_some (cas_objects st !! cid) || is_shard st cid.

Definition get_raw (st : CASStorage) (read : option IoError) (cid : string) : result CASError AIObject :=
  validate_cid cid ?>>
  if negb (path_exists st cid) then Err (CAS_NotFound cid) else
  match cas_objects st !! cid with
  | None => Err (CAS_Io IoOther)
  | Some json =>
      match read with
      | Some e => Err (CAS_Io e)
      | None =>
          obj <-? ok_or (from_slice json) CAS_Serialization;
          if negb (str_eqb (ob_cid obj) cid) || negb (verify_integrity obj)
          then Err (CAS_IntegrityFailed cid) else Ok obj
      end
  end.

Definition exists_cid (st : CASStorage) (cid : string) : bool :=
  match validate_cid cid with Ok _ => path_exists st cid | Err _ => false end.

Definition list_cids (st : CASStorage) : list string := (map_to_list (cas_objects st)).*1.
Definition cas_len (st : CASStorage) : nat := length (list_cids st).
Definition cas_is_empty (st : CASStorage) : bool := Nat.eqb (cas_len st) 0.
Definition total_bytes (st : CASStorage) : Z :=
  foldr (fun kv n => u64_add (Z.of_nat (String.length (octets (snd kv)))) n) 0 (map_to_list (cas_objects st)).
Definition object_usage (st : CASStorage) (cid : string) : option AccessEntry := cas_access_log st !! cid.

Definition with_objects (objects : gmap string bytes) (st : CASStorage) : CASStorage :=
  mkCAS objects (cas_shards st) (cas_access_file st) (cas_access_log st) (access_count_total st) (last_persist_ms st).

Definition with_shard (shard : string) (st : CASStorage) : CASStorage :=
  mkCAS (cas_objects st) ({[shard]} ∪ cas_shards st) (cas_access_file st) (cas_access_log st) (access_count_total st) (last_persist_ms st).

(** How creating the shard directory ends, and writing and renaming the file. *)
Record PutIo := mkPutIo { pi_create_dir : option IoError; pi_write : option IoError }.

(** The identifier of an object that passes [verify_integrity] is a digest of 64
    digits, so its path is never that of a shard. *)
Definition put (st : CASStorage) (io : PutIo) (obj : AIObject)
    : result IoError string * CASStorage :=
  if negb (verify_integrity obj) then (Err IoInvalidData, st) else
  match validate_cid (ob_cid obj) with
  | Err e => (Err (io_error_of e), st)
  | Ok _ =>
      if opt_is_some (cas_objects st !! ob_cid obj) then (Ok (ob_cid obj), st) else
      match pi_create_dir io with
      | Some e => (Err e, st)
      | None =>
          let st := with_shard (shard_of (ob_cid obj)) st in
          match to_vec obj, pi_write io with
          | None, _ => (Err IoInvalidData, st)
          | Some json, Some e => (Err e, st)
          | Some json, None => (Ok (ob_cid obj), with_objects (<[ob_cid obj := json]> (cas_objects st)) st)
          end
      end
  end.

Definition persist_access_log (write : option IoError) (st : CASStorage)
    : result IoError unit * CASStorage :=
  match to_vec (cas_access_log st) with
  | None => (Err IoInvalidData, st)
  | Some json =>
      match write with
      | Some e => (Err e, st)
      | None => (Ok tt, mkCAS (cas_objects st) (cas_shards st) (Some json) (cas_access_log st)
                          (access_count_total st) (last_persist_ms st))
      end
  end.

Definition accessed_entry (now : Z) (e : option AccessEntry) : AccessEntry :=
  match e with
  | Some e => mkAccess (first_accessed_at e) now (u64_add (access_count e) 1)
  | None => mkAccess now now 1
  end.

(** The oldest tenth goes when the log is over its limit. *)
Definition evict_log (sorted : list (string * Z) -> list (string * Z)) (log : gmap string AccessEntry)
    : gmap string AccessEntry :=
  if (MAX_ACCESS_LOG_ENTRIES <? Z.of_nat (size log)) then
    let entries := sorted ((fun kv => (fst kv, last_accessed_at (snd kv))) <$> map_to_list log) in
    foldl (fun log e => delete (fst e) log) log (take (length entries / 10) entries)
  else log.

Definition record_access (io : AccessIo) (st : CASStorage) (cid : string) : CASStorage :=
  let log := evict_log (ac_sorted io)
    (<[cid := accessed_entry (ac_now io) (cas_access_log st !! cid)]> (cas_access_log st)) in
  let new_total := u64_add (access_count_total st) 1 in
  let st := mkCAS (cas_objects st) (cas_shards st) (cas_access_file st) log new_total (last_persist_ms st) in
  if (new_total mod ACCESS_PERSIST_BATCH_SIZE =? 0) then snd (persist_access_log (ac_write io) st) else st.

Definition get (io : AccessIo) (st : CASStorage) (read : option IoError) (cid : string)
    : result CASError AIObject * CASStorage :=
  match get_raw st read cid with
  | Err e => (Err e, st)
  | Ok obj => (Ok obj, record_access io st cid)
  end.

Definition maybe_persist_access_log (now now' : Z) (write : option IoError) (st : CASStorage) : CASStorage :=
  if (ACCESS_PERSIST_INTERVAL_MS <=? Z.max 0 (now - last_persist_ms st)) then
    match persist_access_log write st with
    | (Ok _, st) => mkCAS (cas_objects st) (cas_shards st) (cas_access_file st) (cas_access_log st)
                      (access_count_total st) now'
    | (Err _, st) => st
    end
  else st.
End storage.

(** ** What the store holds *)

Section guarantees.
Context `{Platform} `{!Serde AIObject} `{!Serde (gmap string AccessEntry)}.
Implicit Types (st : CASStorage) (o : AIObject).

Inductive CasOp : Type :=
  | Cas_put (io : PutIo) (o : AIObject)
  | Cas_get (io : AccessIo) (read : option IoError) (cid : string)
  | Cas_persist (write : option IoError)
  | Cas_maybe_persist (now now' : Z) (write : option IoError).

Definition cas_step st (op : CasOp) : CASStorage :=
  match op with
  | Cas_put io o => snd (put st io o)
  | Cas_get io read cid => snd (get io st read cid)
  | Cas_persist write => snd (persist_access_log write st)
  | Cas_maybe_persist now now' write => maybe_persist_access_log now now' write st
  end.

(** A store opened on an empty directory, after some operations. *)
Definition cas_run (now : Z) (ops : list CasOp) : CASStorage :=
  foldl cas_step (cas_open now ∅ ∅ None None) ops.

Lemma persist_objects write st : cas_objects (snd (persist_access_log write st)) = cas_objects st /\
  cas_shards (snd (persist_access_log write st)) = cas_shards st.
Proof. unfold persist_access_log. by repeat case_match. Qed.

(** Only a [put] changes what is stored. *)
Lemma step_files st op :
  (forall io o, op <> Cas_put io o) ->
  cas_objects (cas_step st op) = cas_objects st /\ cas_shards (cas_step st op) = cas_shards st.
Proof.
  intros Hn. destruct op as [io o|io read cid|write|now now' write]; cbn.
  - by destruct (Hn io o).
  - unfold get. destruct (get_raw st read cid); [|done]. unfold record_access.
    case_match; [|done]. apply (persist_objects (ac_write io) (mkCAS _ _ _ _ _ _)).
  - apply persist_objects.
  - unfold maybe_persist_access_log. case_match; [|done].
    pose proof (persist_objects write st) as Hp.
    destruct (persist_access_log write st) as [[[]|e] st']; done.
Qed.

Lemma step_objects st op :
  (forall io o, op <> Cas_put io o) -> cas_objects (cas_step st op) = cas_objects st.
Proof. apply step_files. Qed.

(** What a [put] does. *)
Lemma put_cases st io o r st' :
  put st io o = (r, st') ->
  (r = Ok (ob_cid o) /\ st' = st /\ is_Some (cas_objects st !! ob_cid o) /\ validate_cid (ob_cid o) = Ok tt /\
   verify_integrity o = true) \/
  (exists b, r = Ok (ob_cid o) /\ cas_objects st !! ob_cid o = None /\ to_vec o = Some b /\
     validate_cid (ob_cid o) = Ok tt /\ verify_integrity o = true /\
     cas_objects st' = <[ob_cid o := b]> (cas_objects st)) \/
  (is_ok r = false /\ cas_objects st' = cas_objects st).
Proof.
  unfold put. intros Hp. destruct (verify_integrity o) eqn:Hi; cbn in Hp; [|simplify_eq; auto].
  destruct (validate_cid (ob_cid o)) as [[]|e] eqn:Hv; [|simplify_eq; auto].
  destruct (cas_objects st !! ob_cid o) eqn:Ho; cbn in Hp; [simplify_eq; left; by split_and!|].
  destruct (pi_create_dir io); [simplify_eq; auto|].
  destruct (to_vec o) as [b|] eqn:Hb; [|simplify_eq; auto].
  destruct (pi_write io); simplify_eq; [auto|]. right; left. by exists b.
Qed.

(** Every file holds the object it is named after. *)
Definition store_ok st : Prop :=
  forall cid b, cas_objects st !! cid = Some b ->
    exists o, to_vec o = Some b /\ ob_cid o = cid /\ verify_integrity o = true /\ validate_cid cid = Ok tt.

Lemma store_ok_step st op : store_ok st -> store_ok (cas_step st op).
Proof.
  intros Hok. destruct op as [io o|io read cid|write|now now' write];
    [|intros cid' b; rewrite step_objects by done; apply Hok..].
  cbn. destruct (put st io o) as [r st'] eqn:Hp.
  apply put_cases in Hp as [(_ & -> & _)|[(b & _ & _ & Hb & Hv & Hi & Heq)|[_ Heq]]]; [done| |].
  - intros cid b'. cbn. rewrite Heq, lookup_insert_Some.
    intros [[<- <-]|[_ Hl]]; [by exists o|by apply Hok].
  - intros cid b'. cbn. rewrite Heq. apply Hok.
Qed.

Lemma cas_run_ok now ops : store_ok (cas_run now ops).
Proof.
  unfold cas_run. induction ops as [|op ops IH] using rev_ind; [done|].
  rewrite foldl_snoc. by apply store_ok_step.
Qed.

(** Reading looks only at the stored files. *)
Lemma get_raw_objects (a b : CASStorage) read cid :
  cas_objects a = cas_objects b ->
  match get_raw a read cid with Ok o => get_raw b read cid = Ok o | Err _ => is_ok (get_raw b read cid) = false end.
Proof.
  unfold get_raw, path_exists. intros ->. destruct (validate_cid cid); [|done]. cbn.
  destruct (cas_objects b !! cid); cbn; [|by repeat case_match].
  destruct read; [done|]. destruct (from_slice _); [|done]. cbn. by destruct (_ || _).
Qed.

Hypothesis objects_read_back : forall o b, to_vec o = Some b -> from_slice b = Some o.

(** Reading is looking the file up. *)
Lemma get_raw_spec st cid :
  store_ok st ->
  match get_raw st None cid with
  | Ok o => validate_cid cid = Ok tt /\ exists b, cas_objects st !! cid = Some b /\ to_vec o = Some b /\ ob_cid o = cid
  | Err e => validate_cid cid = Ok tt ->
      e = (if is_shard st cid then CAS_Io IoOther else CAS_NotFound cid) /\ cas_objects st !! cid = None
  end.
Proof.
  intros Hok. unfold get_raw. destruct (validate_cid cid) as [[]|e]; cbn; [|done].
  unfold path_exists. destruct (cas_objects st !! cid) as [b|] eqn:Hb; cbn.
  - destruct (Hok _ _ Hb) as (o & Ho & Hc & Hi & _). rewrite (objects_read_back _ _ Ho). cbn.
    rewrite Hi, Hc. unfold str_eqb. rewrite bool_decide_true by done. cbn. split; [done|]. by exists b.
  - by destruct (is_shard st cid).
Qed.

Lemma step_keeps st op cid b : cas_objects st !! cid = Some b -> cas_objects (cas_step st op) !! cid = Some b.
Proof.
  intros Hb. destruct op as [io o|io read c|write|now now' write]; [|rewrite step_objects; done..].
  cbn. destruct (put st io o) as [r st'] eqn:Hp. cbn [snd].
  apply put_cases in Hp as [(_ & -> & _)|[(b' & _ & Hn & _ & _ & _ & ->)|[_ ->]]]; [done| |done].
  rewrite lookup_insert_ne; [done|]. congruence.
Qed.

Lemma run_keeps st ops cid b : cas_objects st !! cid = Some b -> cas_objects (foldl cas_step st ops) !! cid = Some b.
Proof. revert st. induction ops as [|op ops IH]; intros st Hb; [done|]. by apply IH, step_keeps. Qed.

(** The put that stored [o]. *)
Definition stored_by (now : Z) (ops : list CasOp) o : Prop :=
  exists before io after, ops = before ++ Cas_put io o :: after /\
    fst (put (cas_run now before) io o) = Ok (ob_cid o) /\
    is_ok (get_raw (cas_run now before) None (ob_cid o)) = false.

Lemma stored_by_snoc now ops op o : stored_by now ops o -> stored_by now (ops ++ [op]) o.
Proof.
  intros (before & io & after & -> & Hp). exists before, io, (after ++ [op]). split; [|done].
  by rewrite <-app_assoc.
Qed.

Lemma file_stored now ops cid b :
  cas_objects (cas_run now ops) !! cid = Some b ->
  exists o, to_vec o = Some b /\ ob_cid o = cid /\ stored_by now ops o.
Proof.
  induction ops as [|op ops IH] using rev_ind; [done|]. unfold cas_run. rewrite foldl_snoc. fold (cas_run now ops).
  destruct (cas_objects (cas_run now ops) !! cid) as [b'|] eqn:Hb'.
  - rewrite (step_keeps _ _ _ _ Hb'). intros [= <-]. destruct (IH eq_refl) as (o & Ho & Hc & Hs).
    exists o. by eauto using stored_by_snoc.
  - destruct op as [io o|io read c|write|t t' write]; [|rewrite step_objects by done; congruence..].
    cbn. destruct (put (cas_run now ops) io o) as [r st'] eqn:Hp. cbn [snd]. pose proof Hp as Hp'.
    apply put_cases in Hp as [(_ & -> & _)|[(b0 & Hr & Hn & Hto & Hv & Hi & Heq)|[_ ->]]]; [congruence| |congruence].
    rewrite Heq. intros [[Hcid Hb0]|[_ ?]]%lookup_insert_Some; [|congruence].
    exists o. split; [congruence|]. split; [done|]. exists ops, io, []. split_and!; [done|by rewrite Hp'|].
    pose proof (get_raw_spec (cas_run now ops) (ob_cid o) (cas_run_ok now ops)) as Hg.
    destruct (get_raw _ _ _) as [o'|e]; [destruct Hg as (_ & ? & ? & _); congruence|done].
Qed.

Lemma stored_read now ops o : stored_by now ops o -> get_raw (cas_run now ops) None (ob_cid o) = Ok o.
Proof.
  intros (before & io & after & -> & Hp & Hbefore).
  destruct (put (cas_run now before) io o) as [r st'] eqn:Hput. cbn in Hp. subst r.
  assert (exists b, to_vec o = Some b /\ validate_cid (ob_cid o) = Ok tt /\
    cas_objects st' !! ob_cid o = Some b) as (b & Hb & Hv & Hl).
  { pose proof (get_raw_spec _ (ob_cid o) (cas_run_ok now before)) as Hg0.
    destruct (get_raw (cas_run now before) None (ob_cid o)) as [o'|e]; [done|].
    apply put_cases in Hput as [(_ & _ & [b Hb] & Hv & _)|[(b & _ & _ & Hb & Hv & _ & ->)|[? _]]]; [| |done].
    - destruct (Hg0 Hv) as [_ ?]. congruence.
    - exists b. by rewrite lookup_insert_eq. }
  assert (cas_objects (cas_run now (before ++ Cas_put io o :: after)) !! ob_cid o = Some b) as Hfile.
  { unfold cas_run. rewrite foldl_app. cbn. apply run_keeps. fold (cas_run now before). by rewrite Hput. }
  pose proof (get_raw_spec _ (ob_cid o) (cas_run_ok now (before ++ Cas_put io o :: after))) as Hg.
  destruct (get_raw (cas_run now (before ++ Cas_put io o :: after)) None (ob_cid o)) as [o'|e].
  - destruct Hg as (_ & b' & Hb' & Ho' & _). f_equal. rewrite Hfile in Hb'. injection Hb' as <-.
    apply objects_read_back in Hb, Ho'. congruence.
  - destruct (Hg Hv) as [_ ?]. congruence.
Qed.

(** A put that comes as far as making its shard. *)
Definition makes_shard (now : Z) (ops : list CasOp) (shard : string) : Prop :=
  exists before io o after, ops = before ++ Cas_put io o :: after /\ shard_of (ob_cid o) = shard /\
    verify_integrity o = true /\ validate_cid (ob_cid o) = Ok tt /\ pi_create_dir io = None /\
    cas_objects (cas_run now before) !! ob_cid o = None.

Lemma put_shards st io o : cas_shards (snd (put st io o)) =
  if verify_integrity o && is_ok (validate_cid (ob_cid o)) && negb (opt_is_some (cas_objects st !! ob_cid o)) && negb (opt_is_some (pi_create_dir io))
  then {[shard_of (ob_cid o)]} ∪ cas_shards st else cas_shards st.
Proof.
  unfold put. destruct (verify_integrity o); [|done]. cbn. destruct (validate_cid (ob_cid o)); [|done]. cbn.
  destruct (cas_objects st !! ob_cid o); [done|]. cbn. destruct (pi_create_dir io); [done|]. cbn.
  destruct (to_vec o); [|done]. by destruct (pi_write io).
Qed.

Lemma makes_shard_snoc now ops op shard : makes_shard now (ops ++ [op]) shard <->
  makes_shard now ops shard \/ exists io o, op = Cas_put io o /\ shard_of (ob_cid o) = shard /\
    verify_integrity o = true /\ validate_cid (ob_cid o) = Ok tt /\ pi_create_dir io = None /\
    cas_objects (cas_run now ops) !! ob_cid o = None.
Proof.
  split.
  - intros (before & io & o & after & Heq & Hm). destruct after as [|x after _] using rev_ind.
    + apply app_inj_tail in Heq as [-> ->]. right. eauto.
    + rewrite app_comm_cons, app_assoc in Heq. apply app_inj_tail in Heq as [-> _]. left. by exists before, io, o, after.
  - intros [(before & io & o & after & -> & Hm)|(io & o & -> & Hm)].
    + exists before, io, o, (after ++ [op]). by rewrite <-app_assoc.
    + by exists ops, io, o, [].
Qed.

(** The shards are what the puts made. *)
Lemma run_shards now ops shard : shard ∈ cas_shards (cas_run now ops) <-> makes_shard now ops shard.
Proof.
  induction ops as [|op ops IH] using rev_ind.
  { split; [set_solver|]. by intros ([|] & io & o & after & Heq & _). }
  rewrite makes_shard_snoc, <-IH. unfold cas_run. rewrite foldl_snoc. fold (cas_run now ops).
  destruct op as [io o|io read c|write|t t' write]; 
    [|match goal with |- context [cas_step ?st ?op] => rewrite (proj2 (step_files st op ltac:(done))) end; naive_solver..].
  cbn [cas_step]. rewrite put_shards. split.
  - destruct (_ && _) eqn:Hb; [|auto]. rewrite !andb_true_iff, !negb_true_iff in Hb. destruct Hb as [[[Hi Hv] Hp] Hc].
    intros [Hin%elem_of_singleton|Hin]%elem_of_union; [|auto]. right. exists io, o. split_and!; try done.
    + by destruct (validate_cid (ob_cid o)) as [[]|].
    + by destruct (pi_create_dir io).
    + by destruct (cas_objects _ !! _).
  - intros [Hin|(io' & o' & [= <- <-] & <- & Hi & Hv & Hc & Hp)]; [destruct (_ && _); set_solver|].
    rewrite Hi, Hv, Hc, Hp. cbn. set_solver.
Qed.

(** C18: the object store is a write-once map named by content.  Whatever a read
    returns has the content the identifier is the hash of, even on a damaged
    directory.  After any operations with any failures on a new store, a read
    returns exactly the object of the first put that succeeded under its
    identifier, and later puts of the same content change nothing.  An identifier
    nothing was put under is reported missing, except one of two digits once a put
    has made the shard of that name, whose read fails as an input/output error. *)
Theorem first_put_is_read now ops cid :
  (forall st read o, get_raw st read cid = Ok o -> ob_cid o = cid /\ compute_cid (ob_data o) = cid) /\
  (forall o, get_raw (cas_run now ops) None cid = Ok o <-> ob_cid o = cid /\ stored_by now ops o) /\
  (validate_cid cid = Ok tt -> (forall o, ob_cid o = cid -> ~ stored_by now ops o) ->
   (String.length cid <> 2%nat \/ ~ makes_shard now ops cid -> get_raw (cas_run now ops) None cid = Err (CAS_NotFound cid)) /\
   (String.length cid = 2%nat -> makes_shard now ops cid -> get_raw (cas_run now ops) None cid = Err (CAS_Io IoOther))).
Proof.
  split_and!.
  - intros st read o Hg. unfold get_raw in Hg. destruct (validate_cid cid); [|done]. cbn in Hg.
    destruct (negb (path_exists st cid)); [done|].
    destruct (cas_objects st !! cid); [|done]. destruct read; [done|]. destruct (from_slice _) as [o'|]; [|done].
    cbn in Hg. destruct (negb _ || _) eqn:Hb in Hg; [done|]. apply Ok_inj in Hg as ->.
    unfold verify_integrity in Hb. breflect. split; [done|congruence].
  - intros o. pose proof (get_raw_spec _ cid (cas_run_ok now ops)) as Hg. split.
    + intros Hr. rewrite Hr in Hg. destruct Hg as (_ & b & Hb & Ho & Hc). split; [done|].
      apply file_stored in Hb as (o' & Ho' & _ & Hs).
      assert (o' = o) as <-; [|done]. apply objects_read_back in Ho, Ho'. congruence.
    + intros [<- Hs]. by apply stored_read.
  - intros Hv Hn. pose proof (get_raw_spec _ cid (cas_run_ok now ops)) as Hg.
    destruct (get_raw _ _ _) as [o|e].
    { destruct Hg as (_ & b & Hb & _). apply file_stored in Hb as (o' & _ & Hc & Hs). by destruct (Hn o'). }
    destruct (Hg Hv) as [-> _]. unfold is_shard. split.
    + intros [Hl|Hm]; [by rewrite (proj2 (Nat.eqb_neq _ _) Hl)|].
      rewrite bool_decide_eq_false_2 by by rewrite run_shards. by rewrite andb_false_r.
    + intros -> Hm. cbn. by rewrite bool_decide_eq_true_2 by by rewrite run_shards.
Qed.
End guarantees.

(** ** A concrete store *)

#[export] Instance ContentType_eq_dec : EqDecision ContentType.
Proof. solve_decision. Defined.
#[export] Instance ObjectScope_eq_dec : EqDecision ObjectScope.
Proof. solve_decision. Defined.
#[export] Instance AIObjectMeta_eq_dec : EqDecision AIObjectMeta.
Proof. solve_decision. Defined.
#[export] Instance AIObject_eq_dec : EqDecision AIObject.
Proof. solve_decision. Defined.
#[export] Instance AccessEntry_eq_dec : EqDecision AccessEntry.
Proof. solve_decision. Defined.

(** Files are the values themselves; the digest pads its input. *)
Definition plain_platform : Platform := {|
  bytes := AIObject + gmap string AccessEntry;
  octets := fun b => match b with inl o => ob_data o | inr _ => "" end;
  sha256_hex := fun s => s +:+ "00";
  uuid_parse := fun _ => None;
  uuid_hyphenated := fun _ => "";
  uuid_new_v5 := fun n _ => n |}.

Definition plain_objects : @Serde plain_platform AIObject :=
  @Build_Serde plain_platform AIObject (fun o => Some (inl o))
    (fun b => match b with inl o => Some o | inr _ => None end).
Definition plain_log : @Serde plain_platform (gmap string AccessEntry) :=
  @Build_Serde plain_platform (gmap string AccessEntry) (fun l => Some (inr l))
    (fun b => match b with inr l => Some l | inl _ => None end).

Section plain.
#[local] Existing Instances plain_platform plain_objects plain_log.

Definition plain_io : PutIo := mkPutIo None None.
Definition plain_object : AIObject := object_new "beef" (meta_text 1 ["note"]).
Definition plain_again : AIObject := object_new "beef" (meta_text 2 ["other"]).
Definition plain_ops : list CasOp :=
  [Cas_put (mkPutIo None (Some IoOther)) plain_again; Cas_put plain_io plain_object;
   Cas_put plain_io plain_again].

Lemma plain_read_back (o : AIObject) (b : bytes) : to_vec o = Some b -> from_slice b = Some o.
Proof. by intros [= <-]. Qed.

Lemma first_put_is_read_witness : get_raw (cas_run 0 plain_ops) None "beef00" = Ok plain_object.
Proof.
  apply (proj1 (proj2 (first_put_is_read plain_read_back 0 plain_ops "beef00")) plain_object).
  split; [reflexivity|]. exists [Cas_put (mkPutIo None (Some IoOther)) plain_again], plain_io,
    [Cas_put plain_io plain_again]. split; [reflexivity|]. split; vm_compute; reflexivity.
Defined.
End plain.
