(* ===== verification/ContextLoader.v ===== *)
(** * Layered context and token budgets
      ([src/src/fs/context_loader.rs], [src/src/fs/context_budget.rs])

    An object is loaded as a summary (L0), its key sections (L1) or in full
    (L2); a budget of tokens is filled greedily from ranked candidates.  The
    file system is a map from paths to text.  [None] is a panic. *)

From stdpp Require Import base gmap strings list.
From S2P Require Import Prelude Wire MemoryModel LedgerModel Text Float32 ObjectStorage Permission.

Local Open Scope Z_scope.

(** ** Data *)

Inductive ContextLayer : Type := L0 | L1 | L2.

#[export] Instance ContextLayer_eq_dec : EqDecision ContextLayer.
Proof. solve_decision. Defined.

Definition tokens_approx (l : ContextLayer) : Z :=
  match l with L0 => 100 | L1 => 2000 | L2 => u64_max end.

Definition layer_name (l : ContextLayer) : string :=
  match l with L0 => "L0" | L1 => "L1" | L2 => "L2" end.

(** [s.to_uppercase()] meets these names only for an upper or lower case [l]. *)
Definition parse_layer (s : string) : option ContextLayer :=
  if str_mem s ["L0"; "l0"] then Some L0
  else if str_mem s ["L1"; "l1"] then Some L1
  else if str_mem s ["L2"; "l2"] then Some L2
  else None.

Record LoadedContext := mkLoaded {
  lc_cid : string;
  lc_layer : ContextLayer;
  lc_content : string;
  lc_tokens_estimate : Z;
  lc_actual_layer : option ContextLayer;
  lc_degraded : bool;
  lc_degradation_reason : option string;
}.

Record ContextCandidate := mkCandidate { cc_cid : string; cc_relevance : f32 }.

Record BudgetAllocation := mkAllocation {
  ba_items : list LoadedContext;
  ba_total_tokens : Z;
  ba_budget : Z;
  ba_candidates_considered : nat;
  ba_candidates_included : nat;
}.

Inductive SummaryLayer : Type := Summary_L0 | Summary_L1.

(** [content.split_whitespace().count() * 3 / 4] *)
Definition estimate_tokens (content : string) : Z := Z.of_nat (length (split_whitespace content)) * 3 / 4.

Definition heuristic_summary (content : string) : string :=
  let words := split_whitespace content in
  if Nat.leb (length words) 20 then content
  else join_with " " (take 10 words) +:+ " ... " +:+ join_with " " (drop (length words - 10) words).

Definition prefix_truncate (raw : string) (limit : nat) : option string :=
  if Nat.leb (String.length raw) limit then Some raw else fst <$> split_at raw limit.

Definition L1_CHAR_LIMIT : nat := N.to_nat 8000.
#[global] Arguments L1_CHAR_LIMIT : simpl never.
#[global] Arguments prefix_truncate : simpl never.

(** ** The loader *)

Section loader.
Context `{Platform} `{!Serde AIObject} `{!Serde (gmap string AccessEntry)}.

Record ContextLoader := mkLoader {
  cl_root : string;
  cl_l0_cache : gmap string string;
  cl_summarizer : bool;
  cl_cas : CASStorage;
  cl_files : gmap string string;
}.

(** What one load meets outside: the object read and its access, whether an
    existing file can be read, the summariser's answer, the write of a file, and
    whether a subscriber takes warnings, whose arguments are computed only then. *)
Record LoadEnv := mkLoadEnv {
  le_access : AccessIo;
  le_read_object : option IoError;
  le_read_file : bool;
  le_summarize : string -> SummaryLayer -> result string string;
  le_write : option IoError;
  le_warn : bool;
}.

Definition with_cache (cache : gmap string string) (l : ContextLoader) : ContextLoader :=
  mkLoader (cl_root l) cache (cl_summarizer l) (cl_cas l) (cl_files l).
Definition with_cas (cas : CASStorage) (l : ContextLoader) : ContextLoader :=
  mkLoader (cl_root l) (cl_l0_cache l) (cl_summarizer l) cas (cl_files l).
Definition with_files (files : gmap string string) (l : ContextLoader) : ContextLoader :=
  mkLoader (cl_root l) (cl_l0_cache l) (cl_summarizer l) (cl_cas l) files.

Definition layer_path (dir : string) (l : ContextLoader) (cid : string) : option string :=
  '(pre, rest) ← split_at cid 2;
  Some (path_join (path_join (path_join (cl_root l) dir) pre) rest).
Definition l0_path : ContextLoader -> string -> option string := layer_path "l0".
Definition l1_path : ContextLoader -> string -> option string := layer_path "l1".

(** [fs::read_to_string(path)] *)
Definition read_file (env : LoadEnv) (l : ContextLoader) (path : string) : option string :=
  if le_read_file env then cl_files l !! path else None.

(** [create_dir_all] and [fs::write] *)
Definition write_file (env : LoadEnv) (path content : string) (l : ContextLoader)
    : result IoError unit * ContextLoader :=
  match le_write env with
  | Some e => (Err e, l)
  | None => (Ok tt, with_files (<[path := content]> (cl_files l)) l)
  end.

Definition store_l0 (env : LoadEnv) (l : ContextLoader) (cid summary : string)
    : option (result IoError unit * ContextLoader) :=
  let l := with_cache (<[cid := summary]> (cl_l0_cache l)) l in
  path ← l0_path l cid;
  Some (write_file env path summary l).

Definition store_l1 (env : LoadEnv) (l : ContextLoader) (cid content : string)
    : option (result IoError unit * ContextLoader) :=
  path ← l1_path l cid;
  Some (write_file env path content l).

Definition compute_l0 (env : LoadEnv) (l : ContextLoader) (content : string) : string :=
  match cl_summarizer l, le_summarize env content Summary_L0 with
  | true, Ok summary => summary
  | _, _ => heuristic_summary content
  end.

(** [self.cas.get(cid).map(..).unwrap_or_default()] *)
Definition raw_content (env : LoadEnv) (l : ContextLoader) (cid : string) : string * ContextLoader :=
  let '(r, cas) := get (le_access env) (cl_cas l) (le_read_object env) cid in
  (match r with Ok obj => from_utf8_lossy (ob_data obj) | Err _ => "" end, with_cas cas l).

Definition SHORT_REASON : string := "Content too short for summarization; returning full text".
Definition HEURISTIC_REASON : string :=
  "No LLM summarizer available; using heuristic (first+last 10 words)".
Definition failed_reason (e : string) : string :=
  "LLM summarizer failed: " +:+ e +:+ "; using heuristic".

(** The summary of the full content: text, layer, degradation. *)
Definition summary_l0 (env : LoadEnv) (l : ContextLoader) (raw : string)
    : string * ContextLayer * bool * option string :=
  if Nat.leb (length (split_whitespace raw)) 20 then (raw, L2, true, Some SHORT_REASON)
  else if cl_summarizer l then
    match le_summarize env raw Summary_L0 with
    | Ok summary => (summary, L0, false, None)
    | Err e => (heuristic_summary raw, L0, true, Some (failed_reason e))
    end
  else (heuristic_summary raw, L0, true, Some HEURISTIC_REASON).

Definition load_l0 (env : LoadEnv) (l : ContextLoader) (cid : string)
    : option (result IoError LoadedContext * ContextLoader) :=
  match cl_l0_cache l !! cid with
  | Some content =>
      Some (Ok (mkLoaded cid L0 content (estimate_tokens content) (Some L0) false None), l)
  | None =>
      path ← l0_path l cid;
      let '(content, actual_layer, degraded, reason, l) :=
        match read_file env l path with
        | Some s => (s, L0, false, None, l)
        | None => let '(raw, l) := raw_content env l cid in (summary_l0 env l raw, l)
        end in
      let l := with_cache (<[cid := content]> (cl_l0_cache l)) l in
      Some (Ok (mkLoaded cid L0 content (estimate_tokens content) (Some actual_layer) degraded reason), l)
  end.

(** A warning names the identifier by its first eight octets, [&cid[..8.min(cid.len())]]. *)
Definition warn_cid (env : LoadEnv) (cid : string) : option unit :=
  if le_warn env then _ ← split_at cid (Nat.min 8 (String.length cid)); Some tt else Some tt.

Definition load_l1 (env : LoadEnv) (l : ContextLoader) (cid : string)
    : option (result IoError LoadedContext * ContextLoader) :=
  path ← l1_path l cid;
  '(content, l) ←
    match read_file env l path with
    | Some s => Some (s, l)
    | None =>
        let '(raw, l) := raw_content env l cid in
        if cl_summarizer l then
          match le_summarize env raw Summary_L1 with
          | Ok summary =>
              '(r, l) ← store_l1 env l cid summary;
              _ ← (if is_ok r then Some tt else warn_cid env cid);
              Some (summary, l)
          | Err _ =>
              _ ← warn_cid env cid;
              content ← prefix_truncate raw L1_CHAR_LIMIT; Some (content, l)
          end
        else content ← prefix_truncate raw L1_CHAR_LIMIT; Some (content, l)
    end;
  Some (Ok (mkLoaded cid L1 content (estimate_tokens content) (Some L1) false None), l).

Definition load_l2 (env : LoadEnv) (l : ContextLoader) (cid : string)
    : option (result IoError LoadedContext * ContextLoader) :=
  let '(r, cas) := get (le_access env) (cl_cas l) (le_read_object env) cid in
  let l := with_cas cas l in
  match r with
  | Err _ => Some (Err IoNotFound, l)
  | Ok obj =>
      let content := from_utf8_lossy (ob_data obj) in
      Some (Ok (mkLoaded cid L2 content (estimate_tokens content) (Some L2) false None), l)
  end.

Definition load (env : LoadEnv) (l : ContextLoader) (cid : string) (layer : ContextLayer)
    : option (result IoError LoadedContext * ContextLoader) :=
  match layer with
  | L0 => load_l0 env l cid
  | L1 => load_l1 env l cid
  | L2 => load_l2 env l cid
  end.

(** ** Budgets *)

(** Loads draw their environment in turn. *)
Record LoaderState := mkLoaderState { ls_loader : ContextLoader; ls_loads : nat }.

Definition load_next (env : nat -> LoadEnv) (cid : string) (layer : ContextLayer) (s : LoaderState)
    : option (result IoError LoadedContext * LoaderState) :=
  '(r, l) ← load (env (ls_loads s)) (ls_loader s) cid layer;
  Some (r, mkLoaderState l (S (ls_loads s))).

(** A layer whose content is not empty and fits. *)
Definition layer_fits (env : nat -> LoadEnv) (cid : string) (layer : ContextLayer) (remaining : Z)
    (s : LoaderState) : option (bool * LoaderState) :=
  '(r, s) ← load_next env cid layer s;
  Some (match r with
        | Ok c => (0 <? lc_tokens_estimate c) && (lc_tokens_estimate c <=? remaining)
        | Err _ => false
        end, s).

Definition pick_layer (env : nat -> LoadEnv) (cid : string) (remaining : Z) (s : LoaderState)
    : option (option ContextLayer * LoaderState) :=
  if (tokens_approx L2 <=? remaining) then Some (Some L2, s) else
  '(l2, s) ← layer_fits env cid L2 remaining s;
  if (l2 : bool) then Some (Some L2, s) else
  if (tokens_approx L1 <=? remaining) then Some (Some L1, s) else
  '(l1, s) ← layer_fits env cid L1 remaining s;
  if (l1 : bool) then Some (Some L1, s) else
  '(l0, s) ← layer_fits env cid L0 remaining s;
  Some (if (l0 : bool) then Some L0 else None, s).

(** What a candidate adds: an item, if any. *)
Definition assemble_one (env : nat -> LoadEnv) (cid : string) (remaining : Z) (s : LoaderState)
    : option (option LoadedContext * LoaderState) :=
  '(layer, s) ← pick_layer env cid remaining s;
  match layer with
  | None => Some (None, s)
  | Some layer =>
      '(r, s) ← load_next env cid layer s;
      match r with
      | Err _ => Some (None, s)
      | Ok loaded =>
          if (lc_tokens_estimate loaded <=? remaining) then Some (Some loaded, s)
          else if bool_decide (layer = L0) then Some (None, s)
          else
            '(r0, s) ← load_next env cid L0 s;
            match r0 with
            | Ok c => Some (if (lc_tokens_estimate c <=? remaining) then Some c else None, s)
            | Err _ => Some (None, s)
            end
      end
  end.

Fixpoint assemble_loop (env : nat -> LoadEnv) (candidates : list ContextCandidate) (remaining : Z)
    (items : list LoadedContext) (s : LoaderState) : option (list LoadedContext * LoaderState) :=
  match candidates with
  | [] => Some (items, s)
  | c :: candidates' =>
      if (remaining =? 0) then Some (items, s) else
      '(item, s) ← assemble_one env (cc_cid c) remaining s;
      match item with
      | Some loaded =>
          assemble_loop env candidates' (Z.max 0 (remaining - lc_tokens_estimate loaded))
            (items ++ [loaded]) s
      | None => assemble_loop env candidates' remaining items s
      end
  end.

Definition total_tokens (items : list LoadedContext) : Z :=
  foldr (fun i n => u64_add (lc_tokens_estimate i) n) 0 items.

Definition assemble (env : nat -> LoadEnv) (candidates : list ContextCandidate) (budget_tokens : Z)
    (s : LoaderState) : option (BudgetAllocation * LoaderState) :=
  '(items, s) ← assemble_loop env candidates budget_tokens [] s;
  Some (mkAllocation items (total_tokens items) budget_tokens (length candidates) (length items), s).

(** ** The kernel's operations ([src/src/kernel/ops/fs.rs]) *)

Inductive FsError : Type := Fs_Denied (e : PermissionDenied) | Fs_Io (e : IoError).

Definition get_object (now : Z) (io : AccessIo) (read : option IoError) (guard : PermissionGuard)
    (cas : CASStorage) (cid agent_id tenant_id : string) : result FsError AIObject * CASStorage :=
  let ctx := context_new agent_id tenant_id in
  match check now guard ctx Action_Read with
  | Err e => (Err (Fs_Denied e), cas)
  | Ok _ =>
      match get io cas read cid with
      | (Err _, cas) => (Err (Fs_Io IoNotFound), cas)
      | (Ok obj, cas) =>
          (map_err Fs_Denied (check_namespace_access ctx (om_tenant_id (ob_meta obj))) ?>>
           map_err Fs_Denied (check_ownership now guard ctx (om_created_by (ob_meta obj))) ?>>
           Ok obj, cas)
      end
  end.

Definition context_load (now : Z) (env : LoadEnv) (guard : PermissionGuard) (l : ContextLoader)
    (cid : string) (layer : ContextLayer) (agent_id : string)
    : option (result FsError LoadedContext * ContextLoader) :=
  match check now guard (context_new agent_id DEFAULT_TENANT) Action_Read with
  | Err e => Some (Err (Fs_Denied e), l)
  | Ok _ => '(r, l) ← load env l cid layer; Some (map_err Fs_Io r, l)
  end.

Definition context_assemble (now : Z) (env : nat -> LoadEnv) (guard : PermissionGuard)
    (candidates : list ContextCandidate) (budget_tokens : Z) (agent_id : string) (s : LoaderState)
    : option (result FsError BudgetAllocation * LoaderState) :=
  match check now guard (context_new agent_id DEFAULT_TENANT) Action_Read with
  | Err e => Some (Err (Fs_Denied e), s)
  | Ok _ => '(a, s) ← assemble env candidates budget_tokens s; Some (Ok a, s)
  end.
End loader.
