(* ===== verification/ContextProps.v ===== *)
(** * What loading and budgeting guarantee

    An assembly never exceeds its budget and returns whenever the candidates
    can be loaded at all; and what the kernel's loading operation reveals. *)

From stdpp Require Import base gmap strings list.
From S2P Require Import Prelude Wire MemoryModel LedgerModel Text Float32 ObjectStorage Permission ContextLoader.

Local Open Scope Z_scope.

Section context.
Context `{Platform} `{!Serde AIObject} `{!Serde (gmap string AccessEntry)}.
Implicit Types (l : ContextLoader) (s : LoaderState).

(** ** Loading *)

Lemma get_objects io (st : CASStorage) read cid : cas_objects (snd (get io st read cid)) = cas_objects st.
Proof. exact (step_objects st (Cas_get io read cid) ltac:(done)). Qed.

Lemma estimate_nonneg content : 0 <= estimate_tokens content.
Proof. unfold estimate_tokens. apply Z.div_pos; lia. Qed.

(** A candidate whose loads cannot panic: the identifier splits after two octets
    and, for the warnings, after eight, and the content, when it is cut, is cut
    between characters. *)
Definition loadable (objects : gmap string bytes) (cid : string) : Prop :=
  is_Some (split_at cid 2) /\ is_Some (split_at cid (Nat.min 8 (String.length cid))) /\
  forall (st : CASStorage) read o, cas_objects st = objects -> get_raw st read cid = Ok o ->
    is_Some (prefix_truncate (from_utf8_lossy (ob_data o)) L1_CHAR_LIMIT).

Lemma raw_content_objects env l cid : cas_objects (cl_cas (snd (raw_content env l cid))) = cas_objects (cl_cas l).
Proof.
  unfold raw_content. pose proof (get_objects (le_access env) (cl_cas l) (le_read_object env) cid) as Hg.
  destruct (get _ _ _ _) as [r cas]. exact Hg.
Qed.

Lemma raw_content_cut env l cid : loadable (cas_objects (cl_cas l)) cid ->
  is_Some (prefix_truncate (fst (raw_content env l cid)) L1_CHAR_LIMIT).
Proof.
  intros (_ & _ & Hcut). unfold raw_content, get.
  destruct (get_raw (cl_cas l) (le_read_object env) cid) as [o|e] eqn:Hg; cbn; [by eapply Hcut|by eexists].
Qed.

Lemma layer_path_some dir l cid : is_Some (split_at cid 2) -> is_Some (layer_path dir l cid).
Proof. intros [[pre rest] Hs]. unfold layer_path. rewrite Hs. by eexists. Qed.

(** A load that returns: for the object asked for, with the store unchanged. *)
Definition load_returns l cid (x : option (result IoError LoadedContext * ContextLoader)) : Prop :=
  exists r l', x = Some (r, l') /\ cas_objects (cl_cas l') = cas_objects (cl_cas l) /\
    forall c, r = Ok c -> lc_cid c = cid /\ 0 <= lc_tokens_estimate c.

Lemma load_l0_returns env l cid : is_Some (split_at cid 2) -> load_returns l cid (load_l0 env l cid).
Proof.
  intros Hs. unfold load_l0. destruct (cl_l0_cache l !! cid) as [content|].
  - eexists _, _. split_and!; [done..|]. intros c [= <-]. split; [done|apply estimate_nonneg].
  - destruct (layer_path_some "l0" l cid Hs) as [path Hp]. unfold l0_path. rewrite Hp. cbn.
    destruct (read_file env l path) as [text|].
    + eexists _, _. split_and!; [done..|]. intros c [= <-]. split; [done|apply estimate_nonneg].
    + pose proof (raw_content_objects env l cid) as Hr. destruct (raw_content env l cid) as [raw l'].
      destruct (summary_l0 env l' raw) as [[[content layer] degraded] reason].
      eexists _, _. split_and!; [done|exact Hr|]. intros c [= <-]. split; [done|apply estimate_nonneg].
Qed.

Lemma store_l1_returns env l cid content : is_Some (split_at cid 2) ->
  exists r l', store_l1 env l cid content = Some (r, l') /\ cl_cas l' = cl_cas l.
Proof.
  intros Hs. destruct (layer_path_some "l1" l cid Hs) as [path Hp]. unfold store_l1, l1_path. rewrite Hp. cbn.
  unfold write_file. destruct (le_write env); eauto.
Qed.

Lemma load_l1_returns env l cid : loadable (cas_objects (cl_cas l)) cid -> load_returns l cid (load_l1 env l cid).
Proof.
  intros Hl. pose proof Hl as (Hs & H8 & _). unfold load_l1, l1_path.
  destruct (layer_path_some "l1" l cid Hs) as [path ->]. cbn.
  destruct (read_file env l path) as [text|]; cbn.
  { eexists _, _. split_and!; [done..|]. intros c [= <-]. split; [done|apply estimate_nonneg]. }
  pose proof (raw_content_objects env l cid) as Hr. pose proof (raw_content_cut env l cid Hl) as [cut Hcut].
  destruct (raw_content env l cid) as [raw l']. cbn in Hr, Hcut.
  assert (warn_cid env cid = Some tt) as Hw by (unfold warn_cid; destruct H8 as [? ->]; by destruct (le_warn env)).
  assert (load_returns l cid ('(content, l) ← (content ← prefix_truncate raw L1_CHAR_LIMIT; Some (content, l'));
    Some (Ok (mkLoaded cid L1 content (estimate_tokens content) (Some L1) false None), l))) as Hprefix.
  { rewrite Hcut. cbn. eexists _, _. split_and!; [done|exact Hr|]. intros c [= <-]. split; [done|apply estimate_nonneg]. }
  destruct (cl_summarizer l'); [|exact Hprefix].
  destruct (le_summarize env raw Summary_L1) as [summary|e]; [|rewrite Hw; exact Hprefix].
  destruct (store_l1_returns env l' cid summary Hs) as (r & l'' & -> & Hcas). cbn. rewrite Hw.
  assert ((if is_ok r then Some tt else Some tt) = Some tt) as -> by by destruct (is_ok r).
  cbn. eexists _, _. split_and!; [done|by rewrite Hcas|]. intros c [= <-]. split; [done|apply estimate_nonneg].
Qed.

Lemma load_l2_returns env l cid : load_returns l cid (load_l2 env l cid).
Proof.
  unfold load_l2. pose proof (get_objects (le_access env) (cl_cas l) (le_read_object env) cid) as Hg.
  destruct (get _ _ _ _) as [[o|e] cas]; eexists _, _; split_and!; try done; try exact Hg.
  intros c [= <-]. split; [done|apply estimate_nonneg].
Qed.

Lemma load_ok env l cid layer : loadable (cas_objects (cl_cas l)) cid -> load_returns l cid (load env l cid layer).
Proof.
  intros Hl. destruct layer; cbn; [by apply load_l0_returns, Hl|by apply load_l1_returns|apply load_l2_returns].
Qed.

(** ** Assembling *)

Definition stored s : gmap string bytes := cas_objects (cl_cas (ls_loader s)).

Lemma load_next_ok env s cid layer : loadable (stored s) cid ->
  exists r s', load_next env cid layer s = Some (r, s') /\ stored s' = stored s /\
    forall c, r = Ok c -> lc_cid c = cid /\ 0 <= lc_tokens_estimate c.
Proof.
  intros Hl. destruct (load_ok (env (ls_loads s)) (ls_loader s) cid layer Hl) as (r & l' & Hr & Hs & Hc).
  unfold load_next. rewrite Hr. cbn. eauto.
Qed.

Lemma layer_fits_ok env s cid layer remaining : loadable (stored s) cid ->
  exists b s', layer_fits env cid layer remaining s = Some (b, s') /\ stored s' = stored s.
Proof.
  intros Hl. destruct (load_next_ok env s cid layer Hl) as (r & s' & Hr & Hs & _).
  unfold layer_fits. rewrite Hr. cbn. eauto.
Qed.

Lemma pick_layer_ok env s cid remaining : loadable (stored s) cid ->
  exists o s', pick_layer env cid remaining s = Some (o, s') /\ stored s' = stored s.
Proof.
  intros Hl. unfold pick_layer. destruct (_ <=? _); [eauto|].
  destruct (layer_fits_ok env s cid L2 remaining Hl) as (b2 & s2 & -> & Hs2). cbn [mbind option_bind]. destruct b2; [eauto|].
  destruct (_ <=? _); [eauto|].
  destruct (layer_fits_ok env s2 cid L1 remaining) as (b1 & s1 & -> & Hs1); [by rewrite Hs2|]. cbn [mbind option_bind].
  destruct b1; [rewrite <-Hs2, <-Hs1; eauto|].
  destruct (layer_fits_ok env s1 cid L0 remaining) as (b0 & s0 & -> & Hs0); [by rewrite Hs1, Hs2|]. cbn [mbind option_bind].
  eexists _, _. split; [done|congruence].
Qed.

(** One candidate adds at most one item, its own and within what remains. *)
Lemma assemble_one_ok env s cid remaining : loadable (stored s) cid ->
  exists o s', assemble_one env cid remaining s = Some (o, s') /\ stored s' = stored s /\
    forall c, o = Some c -> lc_cid c = cid /\ 0 <= lc_tokens_estimate c <= remaining.
Proof.
  intros Hl. unfold assemble_one. destruct (pick_layer_ok env s cid remaining Hl) as (o & s1 & -> & Hs1). cbn [mbind option_bind].
  destruct o as [layer|]; [|by eexists _, _; split_and!].
  destruct (load_next_ok env s1 cid layer) as (r & s2 & -> & Hs2 & Hc); [by rewrite Hs1|]. cbn [mbind option_bind].
  destruct r as [loaded|e]; [|eexists _, _; split_and!; [done|congruence|done]].
  destruct (Hc _ eq_refl) as [Hcid Hpos]. destruct (Z.leb_spec (lc_tokens_estimate loaded) remaining).
  { eexists _, _. split_and!; [done|congruence|]. intros c [= <-]. split; [done|lia]. }
  destruct (bool_decide _); [eexists _, _; split_and!; [done|congruence|done]|].
  destruct (load_next_ok env s2 cid L0) as (r0 & s3 & -> & Hs3 & Hc0); [by rewrite Hs2, Hs1|]. cbn [mbind option_bind].
  destruct r0 as [c0|e0]; eexists _, _; (split_and!; [done|congruence|]); [|done].
  intros c. destruct (Z.leb_spec (lc_tokens_estimate c0) remaining); [|done]. intros [= <-].
  destruct (Hc0 _ eq_refl). split; [done|lia].
Qed.

Definition sum_tokens (items : list LoadedContext) : Z := foldr (fun i n => lc_tokens_estimate i + n) 0 items.

Lemma sum_cons i items : sum_tokens (i :: items) = lc_tokens_estimate i + sum_tokens items.
Proof. done. Qed.

Lemma assemble_loop_ok env candidates remaining items s :
  0 <= remaining -> (forall c, c ∈ candidates -> loadable (stored s) (cc_cid c)) ->
  exists news s', assemble_loop env candidates remaining items s = Some (items ++ news, s') /\
    lc_cid <$> news `sublist_of` cc_cid <$> candidates /\
    Forall (fun i => 0 <= lc_tokens_estimate i) news /\ sum_tokens news <= remaining.
Proof.
  revert remaining items s. induction candidates as [|c cs IH]; intros remaining items s Hr Hl; cbn.
  { exists [], s. rewrite app_nil_r. split_and!; [done|constructor..|done]. }
  destruct (Z.eqb_spec remaining 0).
  { exists [], s. rewrite app_nil_r. split_and!; [done|apply sublist_nil_l|constructor|done]. }
  destruct (assemble_one_ok env s (cc_cid c) remaining) as (o & s1 & -> & Hs1 & Hc); [apply Hl; left|]. cbn.
  assert (forall c', c' ∈ cs -> loadable (stored s1) (cc_cid c')) as Hl1
    by (intros c' Hin; rewrite Hs1; apply Hl; by right).
  destruct o as [loaded|].
  - destruct (Hc _ eq_refl) as [Hcid [Hpos Hle]].
    destruct (IH (Z.max 0 (remaining - lc_tokens_estimate loaded)) (items ++ [loaded]) s1)
      as (news & s' & -> & Hsub & Hall & Hsum); [lia|done|].
    exists (loaded :: news), s'. rewrite <-app_assoc. split_and!; [done| |by constructor|rewrite sum_cons; lia].
    cbn. rewrite Hcid. by apply sublist_skip.
  - destruct (IH remaining items s1) as (news & s' & -> & Hsub & Hall & Hsum); [done..|].
    exists news, s'. split_and!; [done|by apply sublist_cons|done..].
Qed.

Lemma sum_nonneg items : Forall (fun i => 0 <= lc_tokens_estimate i) items -> 0 <= sum_tokens items.
Proof. induction 1; rewrite ?sum_cons; [done|lia]. Qed.

Lemma total_tokens_sum items :
  Forall (fun i => 0 <= lc_tokens_estimate i) items -> sum_tokens items <= u64_max ->
  total_tokens items = sum_tokens items.
Proof.
  induction 1 as [|i items Hi Hall IH]; [done|]. rewrite sum_cons. intros Hs. pose proof (sum_nonneg _ Hall).
  cbn [total_tokens foldr]. fold (total_tokens items). rewrite IH by lia. unfold u64_add. rewrite Z.mod_small; [done|]. unfold u64_max, u64_modulus in *. lia.
Qed.

(** C19: a context assembly returns and keeps its budget.  When every candidate
    can be loaded without a panic, the assembly ends with items of some of the
    candidates, in their order and each at most once per candidate, and the
    token total it reports is the true sum and at most the budget, whatever the
    files, the summariser and the object store answer. *)
Theorem assemble_within_budget env candidates budget s :
  0 <= budget <= u64_max -> (forall c, c ∈ candidates -> loadable (stored s) (cc_cid c)) ->
  exists a s', assemble env candidates budget s = Some (a, s') /\
    lc_cid <$> ba_items a `sublist_of` cc_cid <$> candidates /\
    ba_total_tokens a = sum_tokens (ba_items a) /\ 0 <= ba_total_tokens a <= budget /\
    ba_candidates_considered a = length candidates /\ ba_candidates_included a = length (ba_items a).
Proof.
  intros Hb Hl. destruct (assemble_loop_ok env candidates budget [] s) as (items & s' & He & Hsub & Hall & Hsum);
    [lia|done|].
  unfold assemble. rewrite He. eexists _, _. split; [done|]. cbn [ba_items ba_total_tokens app].
  rewrite total_tokens_sum by (done || lia). pose proof (sum_nonneg _ Hall). split_and!; try done; lia.
Qed.

(** ** What loading reveals *)

Lemma read_allowed now guard agent tenant : check now guard (context_new agent tenant) Action_Read = Ok tt.
Proof. unfold check. by repeat case_match. Qed.

(** Loading a context in full ignores who owns it.  Whatever object is
    stored, every agent gets its whole content by loading it in full, with no
    grant at all; reading the same object as an object is refused to an agent
    that neither owns it nor may read any. *)
Lemma context_load_ignores_owner now env guard l cid o agent :
  le_read_object env = None -> get_raw (cl_cas l) None cid = Ok o ->
  (exists c l', context_load now env guard l cid L2 agent = Some (Ok c, l') /\
     lc_content c = from_utf8_lossy (ob_data o)) /\
  (forall io e, check_ownership now guard (context_new agent DEFAULT_TENANT) (om_created_by (ob_meta o)) = Err e ->
     om_tenant_id (ob_meta o) = DEFAULT_TENANT ->
     fst (get_object now io None guard (cl_cas l) cid agent DEFAULT_TENANT) = Err (Fs_Denied e)).
Proof.
  intros Henv Ho. split.
  - unfold context_load. rewrite read_allowed. cbn. unfold load_l2, get. rewrite Henv, Ho. cbn. by eexists _, _.
  - intros io e Hown Hns. unfold get_object, get. rewrite read_allowed, Ho. cbn -[check_ownership].
    unfold check_namespace_access, str_eqb. cbn -[check_ownership]. rewrite Hns, bool_decide_true by done.
    cbn -[check_ownership]. by rewrite Hown.
Qed.

Lemma substring_all (t : string) : String.substring 0 (String.length t) t = t.
Proof. induction t as [|c t IH]; cbn; [done|by rewrite IH]. Qed.

(** An identifier with an absolute path after two characters reads that file. *)
Lemma load_leaves_root env l a b path text :
  is_continuation a = false -> is_continuation b = false -> is_absolute path = true ->
  le_read_file env = true -> cl_files l !! path = Some text ->
  load env l (String a (String b path)) L1 =
  Some (Ok (mkLoaded (String a (String b path)) L1 text (estimate_tokens text) (Some L1) false None), l).
Proof.
  intros Ha Hb Habs Henv Hf. assert (split_at (String a (String b path)) 2 = Some (String a (String b ""), path)) as Hs.
  { destruct path as [|c path]; [done|]. cbn in Habs. breflect. subst c. unfold split_at, is_char_boundary. cbn.
    by rewrite substring_all. }
  cbn [load]. unfold load_l1, l1_path, layer_path. rewrite Hs. cbn. unfold path_join at 1. rewrite Habs.
  unfold read_file. by rewrite Henv, Hf.
Qed.

(** A content that is cut inside a character panics. *)
Lemma truncation_panics env l cid path o :
  l1_path l cid = Some path -> cl_files l !! path = None -> cl_summarizer l = false ->
  get_raw (cl_cas l) (le_read_object env) cid = Ok o ->
  prefix_truncate (from_utf8_lossy (ob_data o)) L1_CHAR_LIMIT = None -> load env l cid L1 = None.
Proof.
  intros Hp Hf Hsum Ho Hcut. cbn [load]. unfold load_l1. rewrite Hp. cbn [mbind option_bind].
  assert (read_file env l path = None) as -> by (unfold read_file; rewrite Hf; by destruct (le_read_file env)).
  unfold raw_content, get. rewrite Ho. cbn -[from_utf8_lossy record_access]. by rewrite Hsum, Hcut.
Qed.

(** A candidate that is not stored is included with an empty content when the
    budget allows key sections. *)
Lemma missing_candidate_included env s cid path remaining e :
  l1_path (ls_loader s) cid = Some path -> cl_files (ls_loader s) !! path = None ->
  cl_summarizer (ls_loader s) = false -> 2000 <= remaining < u64_max ->
  (forall read, get_raw (cl_cas (ls_loader s)) read cid = Err e) ->
  exists s', assemble_one env cid remaining s = Some (Some (mkLoaded cid L1 "" 0 (Some L1) false None), s').
Proof.
  intros Hp Hf Hsum Hr He. unfold assemble_one, pick_layer. cbn [tokens_approx].
  destruct (Z.leb_spec u64_max remaining); [lia|]. unfold layer_fits, load_next. cbn [load mbind option_bind].
  unfold load_l2, get. rewrite He. cbn [mbind option_bind].
  destruct (Z.leb_spec 2000 remaining); [|lia]. cbn [mbind option_bind ls_loader ls_loads load].
  unfold load_l1, l1_path in *. unfold layer_path in *. cbn [with_cas cl_root] in *. rewrite Hp. cbn [mbind option_bind].
  unfold read_file, raw_content, get. cbn [with_cas cl_files cl_cas cl_summarizer]. rewrite Hf, He.
  assert (prefix_truncate "" L1_CHAR_LIMIT = Some "") as Hcut by reflexivity.
  destruct (le_read_file _); cbn; rewrite Hsum; cbn; rewrite Hcut; cbn; change (estimate_tokens "") with 0;
    (destruct (Z.leb_spec 0 remaining); [by eexists|lia]).
Qed.
End context.

(** ** A loader over a small store *)

Section plain.
#[local] Existing Instances plain_platform plain_objects plain_log.

Definition plain_env : LoadEnv :=
  mkLoadEnv (mkAccessIo 5 (fun l => l) None) None true (fun _ _ => Err "offline") None true.
Definition plain_loader : ContextLoader := mkLoader "/vault/context" ∅ false (cas_run 0 plain_ops) ∅.
Definition plain_state : LoaderState := mkLoaderState plain_loader 0.

Lemma plain_stored : get_raw (cl_cas plain_loader) None "beef00" = Ok plain_object.
Proof. vm_compute. reflexivity. Qed.

Lemma plain_loadable : loadable (stored plain_state) "beef00".
Proof.
  split_and!; [by eexists..|]. intros st read o Hs. intros Ho. pose proof (get_raw_objects st (cl_cas plain_loader) read "beef00" Hs) as Hg. rewrite Ho in Hg.
  destruct read as [e|].
  { assert (get_raw (cl_cas plain_loader) (Some e) "beef00" = Err (CAS_Io e)) as Hr by (vm_compute; reflexivity). by rewrite Hr in Hg. }
  rewrite plain_stored in Hg. apply Ok_inj in Hg as <-.
  exists "beef". vm_compute. reflexivity.
Qed.

Lemma assemble_within_budget_witness :
  exists a s', assemble (fun _ => plain_env) [mkCandidate "beef00" f32_zero] 50 plain_state = Some (a, s') /\
    0 <= ba_total_tokens a <= 50.
Proof.
  destruct (assemble_within_budget (fun _ => plain_env) [mkCandidate "beef00" f32_zero] 50 plain_state)
    as (a & s' & Ha & _ & _ & Ht & _).
  - unfold u64_max, u64_modulus. lia.
  - intros c Hc. apply list_elem_of_singleton in Hc as ->. exact plain_loadable.
  - exact (ex_intro _ a (ex_intro _ s' (conj Ha Ht))).
Defined.

Lemma context_load_ignores_owner_witness :
  exists c l', context_load 5 plain_env guard_new plain_loader "beef00" L2 "mallory" = Some (Ok c, l') /\
    lc_content c = from_utf8_lossy "beef".
Proof.
  exact (proj1 (context_load_ignores_owner 5 plain_env guard_new plain_loader "beef00" plain_object "mallory"
    eq_refl plain_stored)).
Defined.
End plain.
