(* ===== verification/IntentCache.v ===== *)
(** * The intent assembly cache ([src/src/kernel/ops/prefetch_cache.rs])

    Assembled contexts by the intent they were assembled for: an exact match of
    the text, or the closest embedding above a threshold; entries expire, and
    the oldest are evicted to keep two limits.  The clock is an argument, read
    once where the source reads it again for every entry; an operation holds the
    lock of the entries throughout. *)

From stdpp Require Import base gmap strings list.
From S2P Require Import Prelude LedgerModel Float32 ContextLoader.

Local Open Scope Z_scope.

Definition DEFAULT_MAX_CACHE_ENTRIES : nat := 64.
Definition DEFAULT_MAX_CACHE_MEMORY_BYTES : Z := 32 * 1024 * 1024.
Definition DEFAULT_SIMILARITY_THRESHOLD : f32 := f32_0_85.
Definition DEFAULT_CACHE_TTL_MS : Z := 24 * 60 * 60 * 1000.

Record CachedAssembly := mkCached {
  ca_intent_text : string;
  ca_intent_embedding : option (list f32);
  ca_assembly : BudgetAllocation;
  ca_created_at_ms : Z;
  ca_hit_count : Z;
  ca_estimated_size_bytes : Z;
  ca_dependency_cids : list string;
}.

Definition usize_sum (l : list Z) : Z := foldr u64_add 0 l.
Definition byte_len (s : string) : Z := Z.of_nat (String.length s).

Definition estimate_size (intent_text : string) (intent_embedding : option (list f32))
    (assembly : BudgetAllocation) : Z :=
  let embedding_size := match intent_embedding with Some e => u64_mul (Z.of_nat (length e)) 4 | None => 0 end in
  let items_size := usize_sum ((fun i => byte_len (lc_content i)) <$> ba_items assembly) in
  let cids_size := usize_sum ((fun i => byte_len (lc_cid i)) <$> ba_items assembly) in
  u64_add (u64_add (u64_add (byte_len intent_text) embedding_size) items_size) cids_size.

Definition cached_new (now : Z) (intent_text : string) (intent_embedding : option (list f32))
    (assembly : BudgetAllocation) (dependency_cids : list string) : CachedAssembly :=
  mkCached intent_text intent_embedding assembly now 0
    (estimate_size intent_text intent_embedding assembly) dependency_cids.

(** [now_ms() - self.created_at_ms > ttl_ms] *)
Definition is_expired (now ttl_ms : Z) (e : CachedAssembly) : bool :=
  ttl_ms <? u64_sub now (ca_created_at_ms e).

Record IntentAssemblyCache := mkIntentCache {
  ic_entries : list CachedAssembly;
  ic_max_entries : nat;
  ic_max_memory_bytes : Z;
  ic_current_memory_bytes : Z;
  ic_similarity_threshold : f32;
  ic_ttl_ms : Z;
  ic_total_lookups : Z;
}.

Definition intent_cache_new (max_entries : nat) (max_memory_bytes : Z) (threshold : f32) (ttl_ms : Z)
    : IntentAssemblyCache := mkIntentCache [] max_entries max_memory_bytes 0 threshold ttl_ms 0.

Definition intent_cache_default : IntentAssemblyCache :=
  intent_cache_new DEFAULT_MAX_CACHE_ENTRIES DEFAULT_MAX_CACHE_MEMORY_BYTES
    DEFAULT_SIMILARITY_THRESHOLD DEFAULT_CACHE_TTL_MS.

(** The entries and the memory counter change together. *)
Definition with_entries (entries : list CachedAssembly) (memory : Z) (c : IntentAssemblyCache)
    : IntentAssemblyCache :=
  mkIntentCache entries (ic_max_entries c) (ic_max_memory_bytes c) memory (ic_similarity_threshold c)
    (ic_ttl_ms c) (ic_total_lookups c).

Definition with_lookups (n : Z) (c : IntentAssemblyCache) : IntentAssemblyCache :=
  mkIntentCache (ic_entries c) (ic_max_entries c) (ic_max_memory_bytes c) (ic_current_memory_bytes c)
    (ic_similarity_threshold c) (ic_ttl_ms c) n.

(** ** Lookup *)

(** [iter().sum::<f32>()] *)
Definition f32_sum (l : list f32) : f32 := foldl f32_add f32_neg_zero l.

Definition cosine_similarity (a b : list f32) : f32 :=
  if negb (Nat.eqb (length a) (length b)) then f32_zero else
  let dot_product := f32_sum (zip_with f32_mul a b) in
  let norm_a := f32_sqrt (f32_sum ((fun x => f32_mul x x) <$> a)) in
  let norm_b := f32_sqrt (f32_sum ((fun x => f32_mul x x) <$> b)) in
  if f32_eqb norm_a f32_zero || f32_eqb norm_b f32_zero then f32_zero
  else f32_div dot_product (f32_mul norm_a norm_b).

(** The best so far: its position, if any, and its score. *)
Definition better (intent_emb : list f32) (best : option nat * f32) (ie : nat * CachedAssembly)
    : option nat * f32 :=
  match ca_intent_embedding (snd ie) with
  | Some entry_emb =>
      let score := cosine_similarity intent_emb entry_emb in
      if f32_gt score (snd best) then (Some (fst ie), score) else best
  | None => best
  end.

Definition find_best_similarity (c : IntentAssemblyCache) (intent_emb : list f32) : option nat :=
  fst (foldl (better intent_emb) (None, ic_similarity_threshold c)
         (zip (seq 0 (length (ic_entries c))) (ic_entries c))).

(** [iter().position(p)] *)
Fixpoint position {A} (p : A -> bool) (l : list A) : option nat :=
  match l with
  | [] => None
  | x :: l' => if p x then Some 0%nat else S <$> position p l'
  end.

Definition hit (e : CachedAssembly) : CachedAssembly :=
  mkCached (ca_intent_text e) (ca_intent_embedding e) (ca_assembly e) (ca_created_at_ms e)
    (u64_add (ca_hit_count e) 1) (ca_estimated_size_bytes e) (ca_dependency_cids e).

(** The entry at a matched position: removed when expired, else counted. *)
Definition take_match (now : Z) (c : IntentAssemblyCache) (pos : nat)
    : option BudgetAllocation * IntentAssemblyCache :=
  match ic_entries c !! pos with
  | None => (None, c)
  | Some e =>
      if is_expired now (ic_ttl_ms c) e then
        (None, with_entries (delete pos (ic_entries c))
                 (u64_sub (ic_current_memory_bytes c) (ca_estimated_size_bytes e)) c)
      else
        (Some (ca_assembly e), with_entries (<[pos := hit e]> (ic_entries c)) (ic_current_memory_bytes c) c)
  end.

Definition lookup (now : Z) (c : IntentAssemblyCache) (intent : string) (embedding : option (list f32))
    : option BudgetAllocation * IntentAssemblyCache :=
  let c := with_lookups (u64_add (ic_total_lookups c) 1) c in
  match position (fun e => str_eqb (ca_intent_text e) intent) (ic_entries c) with
  | Some pos => take_match now c pos
  | None =>
      match emb ← embedding; find_best_similarity c emb with
      | Some pos => take_match now c pos
      | None => (None, c)
      end
  end.

(** ** Storing and evicting *)

Definition over_budget_memory (c : IntentAssemblyCache) (additional : Z) : bool :=
  ic_max_memory_bytes c <? u64_add (ic_current_memory_bytes c) additional.

(** [enumerate().min_by_key(created_at)]: the first of the oldest. *)
Fixpoint oldest_from (i : nat) (best : nat * Z) (l : list CachedAssembly) : nat :=
  match l with
  | [] => fst best
  | e :: l' => oldest_from (S i) (if ca_created_at_ms e <? snd best then (i, ca_created_at_ms e) else best) l'
  end.

Definition oldest (l : list CachedAssembly) : option nat :=
  match l with
  | [] => None
  | e :: l' => Some (oldest_from 1 (0%nat, ca_created_at_ms e) l')
  end.

(** The [while] loop; each turn removes an entry. *)
Fixpoint evict_loop (fuel : nat) (new_entry_size : Z) (c : IntentAssemblyCache) : IntentAssemblyCache :=
  if Nat.leb (ic_max_entries c) (length (ic_entries c))
     || (ic_max_memory_bytes c <? u64_add (ic_current_memory_bytes c) new_entry_size)
     || over_budget_memory c new_entry_size
  then
    match fuel, oldest (ic_entries c) with
    | S fuel', Some pos =>
        match ic_entries c !! pos with
        | Some removed =>
            evict_loop fuel' new_entry_size
              (with_entries (delete pos (ic_entries c))
                 (u64_sub (ic_current_memory_bytes c) (ca_estimated_size_bytes removed)) c)
        | None => c
        end
    | _, _ => c
    end
  else c.

(** Expired entries go first; the memory counter is not adjusted for them. *)
Definition evict_if_needed_locked (now new_entry_size : Z) (c : IntentAssemblyCache) : IntentAssemblyCache :=
  let c := with_entries (List.filter (fun e => negb (is_expired now (ic_ttl_ms c) e)) (ic_entries c))
             (ic_current_memory_bytes c) c in
  evict_loop (length (ic_entries c)) new_entry_size c.

Definition store_entry (now : Z) (entry : CachedAssembly) (c : IntentAssemblyCache) : IntentAssemblyCache :=
  let entry_size := ca_estimated_size_bytes entry in
  let c := evict_if_needed_locked now entry_size c in
  with_entries (ic_entries c ++ [entry]) (u64_add (ic_current_memory_bytes c) entry_size) c.

(** [created] and [now] are the two readings of the clock. *)
Definition cache_store (created now : Z) (c : IntentAssemblyCache) (intent_text : string)
    (intent_embedding : option (list f32)) (assembly : BudgetAllocation) (dependency_cids : list string)
    : IntentAssemblyCache :=
  store_entry now (cached_new created intent_text intent_embedding assembly dependency_cids) c.

Definition has_dependency (modified_cids : list string) (e : CachedAssembly) : bool :=
  existsb (fun cid => str_mem cid modified_cids) (ca_dependency_cids e).

Definition invalidate_by_cids (c : IntentAssemblyCache) (modified_cids : list string) : IntentAssemblyCache :=
  match modified_cids with
  | [] => c
  | _ =>
      let removed := List.filter (has_dependency modified_cids) (ic_entries c) in
      let total_removed := foldl (fun n e => u64_saturating_add n (ca_estimated_size_bytes e)) 0 removed in
      with_entries (List.filter (fun e => negb (has_dependency modified_cids e)) (ic_entries c))
        (u64_sub (ic_current_memory_bytes c) total_removed) c
  end.

Definition cache_clear (c : IntentAssemblyCache) : IntentAssemblyCache := with_entries [] 0 c.

Record IntentCacheStats := mkIntentStats {
  is_entries : nat; is_memory_bytes : Z; is_hits : Z; is_total_lookups : Z }.

Definition cache_stats (c : IntentAssemblyCache) : IntentCacheStats :=
  mkIntentStats (length (ic_entries c)) (ic_current_memory_bytes c)
    (usize_sum (ca_hit_count <$> ic_entries c)) (ic_total_lookups c).

(** ** Files *)

Section files.
(** [serde_json] on the list of entries. *)
Variable entries_to_string : list CachedAssembly -> option string.
Variable entries_from_str : string -> option (list CachedAssembly).

(** [dir/intent_cache.json] *)
Definition persist_to_dir (write : option IoError) (c : IntentAssemblyCache) (file : option string)
    : result IoError unit * option string :=
  match entries_to_string (ic_entries c) with
  | None => (Err IoInvalidData, file)
  | Some json => match write with Some e => (Err e, file) | None => (Ok tt, Some json) end
  end.

Definition restore_from_dir (now : Z) (read : option IoError) (file : option string) (c : IntentAssemblyCache)
    : result IoError nat * IntentAssemblyCache :=
  match file with
  | None => (Ok 0%nat, c)
  | Some json =>
      match read with
      | Some e => (Err e, c)
      | None =>
          match entries_from_str json with
          | None => (Err IoInvalidData, c)
          | Some entries =>
              let final := List.filter (fun e => negb (is_expired now (ic_ttl_ms c) e)) entries in
              (Ok (length final),
               with_entries final (foldl (fun n e => u64_add n (ca_estimated_size_bytes e)) 0 final) c)
          end
      end
  end.
End files.

(** ** Warming from a profile *)

(** What the cache reads of [AgentProfile]: the transitions in the order the
    hash map yields them, and the hot objects. *)
Record ProfileView := mkProfileView {
  pf_transitions : list (string * list (string * Z));
  pf_hot_objects : list (string * Z);
}.

Definition arrow : string :=
  String (Ascii.ascii_of_N 226) (String (Ascii.ascii_of_N 134) (String (Ascii.ascii_of_N 146) "")).

Definition predictions (p : ProfileView) : list (string * f32) :=
  concat (map (fun kv : string * list (string * Z) =>
    map (fun succ : string * Z => (kv.1 +:+ " " +:+ arrow +:+ " " +:+ succ.1, f32_of_Z succ.2)) kv.2)
    (pf_transitions p)).

(** A stable sort by descending confidence. *)
Fixpoint insert_prediction (x : string * f32) (l : list (string * f32)) : list (string * f32) :=
  match l with
  | [] => [x]
  | y :: l' => if f32_gt x.2 y.2 then x :: l else y :: insert_prediction x l'
  end.

Definition sort_predictions (l : list (string * f32)) : list (string * f32) :=
  foldl (fun acc x => insert_prediction x acc) [] l.

Definition hot_assembly (cid : string) : BudgetAllocation :=
  mkAllocation [mkLoaded cid L1 ("hot object: " +:+ cid) 50 None false None] 50 100 1 1.

Definition warm_prediction (now : Z) (assembler : string -> option BudgetAllocation)
    (state : nat * IntentAssemblyCache) (x : string * f32) : nat * IntentAssemblyCache :=
  let '(warmed, c) := state in
  if f32_gt f32_0_3 x.2 then (warmed, c) else
  match lookup now c x.1 None with
  | (Some _, c) => (warmed, c)
  | (None, c) =>
      match assembler x.1 with
      | Some assembly => (S warmed, cache_store now now c x.1 None assembly [])
      | None => (warmed, c)
      end
  end.

Definition warm_hot (now : Z) (state : nat * IntentAssemblyCache) (h : string * Z) : nat * IntentAssemblyCache :=
  let '(warmed, c) := state in
  if (h.2 <? 2) then (warmed, c) else
  let intent := "[hot:" +:+ h.1 +:+ "]" in
  match lookup now c intent None with
  | (Some _, c) => (warmed, c)
  | (None, c) => (S warmed, cache_store now now c intent None (hot_assembly h.1) [h.1])
  end.

Definition warm_from_profile (now : Z) (p : ProfileView) (assembler : string -> option BudgetAllocation)
    (c : IntentAssemblyCache) : nat * IntentAssemblyCache :=
  foldl (warm_hot now)
    (foldl (warm_prediction now assembler) (0%nat, c) (take 3 (sort_predictions (predictions p))))
    (take 5 (pf_hot_objects p)).

(** * What the intent cache guarantees

    The memory counter is the size of the entries plus that of the entries that
    expired unnoticed; the limits hold after every store; a lookup returns only
    what was stored for the intent or for one close to it. *)

Local Open Scope Z_scope.

(** ** Sizes *)

Definition sizes (es : list CachedAssembly) : Z := foldr (fun e n => ca_estimated_size_bytes e + n) 0 es.

Definition sized (es : list CachedAssembly) : Prop := Forall (fun e => 0 <= ca_estimated_size_bytes e) es.

Lemma sizes_cons e es : sizes (e :: es) = ca_estimated_size_bytes e + sizes es.
Proof. done. Qed.

Lemma sizes_app es es' : sizes (es ++ es') = sizes es + sizes es'.
Proof. induction es as [|e es IH]; [done|]. cbn [app]. rewrite !sizes_cons, IH. lia. Qed.

Lemma sizes_nonneg es : sized es -> 0 <= sizes es.
Proof. induction 1; rewrite ?sizes_cons; [done|lia]. Qed.

Lemma sizes_filter p es :
  sizes es = sizes (List.filter p es) + sizes (List.filter (fun e => negb (p e)) es).
Proof.
  induction es as [|e es IH]; [done|]. cbn [List.filter]. rewrite sizes_cons, IH.
  destruct (p e); cbn [negb]; rewrite sizes_cons; lia.
Qed.

Lemma sized_filter p es : sized es -> sized (List.filter p es).
Proof. unfold sized. rewrite !Forall_forall. intros Hs e [He _]%list_elem_of_In%filter_In. by apply Hs, list_elem_of_In. Qed.

Lemma sizes_delete pos es e : es !! pos = Some e -> sizes (delete pos es) = sizes es - ca_estimated_size_bytes e.
Proof.
  revert pos. induction es as [|x es IH]; intros [|pos] He; [done..| |].
  - injection He as ->. change (delete 0%nat (e :: es)) with es. rewrite sizes_cons. lia.
  - change (delete (S pos) (x :: es)) with (x :: delete pos es). rewrite !sizes_cons, (IH pos He). lia.
Qed.

Lemma sized_delete pos es : sized es -> sized (delete pos es).
Proof. apply Forall_delete. Qed.

Lemma sizes_hit pos es e : es !! pos = Some e -> sizes (<[pos := hit e]> es) = sizes es.
Proof.
  revert pos. induction es as [|x es IH]; intros [|pos] He; [done..| |].
  - by injection He as ->.
  - change (<[S pos := hit e]> (x :: es)) with (x :: <[pos := hit e]> es). by rewrite !sizes_cons, (IH pos He).
Qed.

Lemma u64_small n : 0 <= n <= u64_max -> n mod u64_modulus = n.
Proof. unfold u64_max. intros ?. apply Z.mod_small. lia. Qed.

(** ** The memory counter *)

(** The counter is the size of the entries and [leak] bytes more. *)
Definition accounted (c : IntentAssemblyCache) (leak : Z) : Prop :=
  sized (ic_entries c) /\ 0 <= leak /\ ic_current_memory_bytes c = sizes (ic_entries c) + leak /\
  sizes (ic_entries c) + leak <= u64_max.

Lemma accounted_delete c leak pos e :
  accounted c leak -> ic_entries c !! pos = Some e ->
  accounted (with_entries (delete pos (ic_entries c))
    (u64_sub (ic_current_memory_bytes c) (ca_estimated_size_bytes e)) c) leak.
Proof.
  intros (Hs & Hl & Hc & Hm) He. pose proof (sizes_delete _ _ _ He) as Hd.
  pose proof (sizes_nonneg _ (sized_delete pos _ Hs)). pose proof (proj1 (Forall_lookup _ _) Hs _ _ He) as He0. cbn in He0.
  split_and!; cbn [with_entries ic_entries ic_current_memory_bytes]; [by apply sized_delete|done| |lia].
  unfold u64_sub. rewrite u64_small; lia.
Qed.

Lemma take_match_accounted now c pos leak : accounted c leak -> accounted (snd (take_match now c pos)) leak.
Proof.
  intros Ha. unfold take_match. destruct (ic_entries c !! pos) as [e|] eqn:He; [|done].
  destruct (is_expired _ _ _); cbn [snd]; [by apply accounted_delete|].
  destruct Ha as (Hs & Hl & Hc & Hm). 
  split_and!; cbn [with_entries ic_entries ic_current_memory_bytes]; rewrite ?(sizes_hit _ _ _ He); [|done..].
  apply Forall_insert; [done|]. exact (proj1 (Forall_lookup _ _) Hs _ _ He).
Qed.

Lemma lookup_accounted now c intent emb leak : accounted c leak -> accounted (snd (lookup now c intent emb)) leak.
Proof.
  intros Ha. unfold lookup. repeat case_match; try apply take_match_accounted; exact Ha.
Qed.

(** The loop ends with room for the new entry, or with nothing. *)
Definition room (new_size : Z) (c : IntentAssemblyCache) : Prop :=
  (length (ic_entries c) < ic_max_entries c)%nat /\
  u64_add (ic_current_memory_bytes c) new_size <= ic_max_memory_bytes c.

Definition limits_of (c c' : IntentAssemblyCache) : Prop :=
  ic_max_entries c' = ic_max_entries c /\ ic_max_memory_bytes c' = ic_max_memory_bytes c /\
  ic_ttl_ms c' = ic_ttl_ms c.

Lemma oldest_from_bound i best l : (fst best < i -> oldest_from i best l < i + length l)%nat.
Proof.
  revert i best. induction l as [|e l IH]; intros i best Hb; cbn; [lia|].
  specialize (IH (S i) (if ca_created_at_ms e <? snd best then (i, ca_created_at_ms e) else best)).
  destruct (_ <? _); cbn in *; lia.
Qed.

Lemma oldest_lookup l : l <> [] -> exists pos e, oldest l = Some pos /\ l !! pos = Some e.
Proof.
  destruct l as [|x l]; [done|]. intros _. cbn [oldest]. eexists.
  assert (is_Some ((x :: l) !! oldest_from 1 (0%nat, ca_created_at_ms x) l)) as [e He].
  { apply lookup_lt_is_Some. cbn [length]. pose proof (oldest_from_bound 1 (0%nat, ca_created_at_ms x) l). cbn in *. lia. }
  by exists e.
Qed.

Lemma evict_loop_spec fuel size c leak :
  accounted c leak -> (length (ic_entries c) <= fuel)%nat ->
  let c' := evict_loop fuel size c in
  accounted c' leak /\ sizes (ic_entries c') <= sizes (ic_entries c) /\ limits_of c c' /\
  (room size c' \/ ic_entries c' = []).
Proof.
  revert c. induction fuel as [|fuel IH]; intros c Ha Hlen; cbn [evict_loop].
  - assert (ic_entries c = []) as He by (destruct (ic_entries c); [done|cbn in Hlen; lia]).
    case_match; (split_and!; [done..|by right]).
  - destruct (_ || _) eqn:Hb.
    + destruct (ic_entries c) as [|x es] eqn:He; cbn [oldest].
      { split_and!; [done|by rewrite He|done|by right]. }
      destruct (oldest_lookup (x :: es)) as (pos & e & Hp & Hl); [done|]. cbn [oldest] in Hp. injection Hp as Hp.
      rewrite Hp, Hl, <-He. destruct (IH (with_entries (delete pos (ic_entries c))
        (u64_sub (ic_current_memory_bytes c) (ca_estimated_size_bytes e)) c)) as (Ha' & Hle & Hlim & Hend).
      * apply accounted_delete; [done|by rewrite He].
      * cbn [with_entries ic_entries]. rewrite length_delete by (rewrite He; by eexists). rewrite He in *. cbn in *. lia.
      * cbn [with_entries ic_entries] in Hle. rewrite (sizes_delete pos _ e) in Hle by (by rewrite He).
        pose proof (proj1 (Forall_lookup _ _) (proj1 Ha) pos e ltac:(by rewrite He)) as He0. cbn in He0.
        split_and!; [done|lia| |done]. destruct Hlim as (H1 & H2 & H3). by split_and!.
    + split_and!; [done..|left]. apply orb_false_iff in Hb as [Hb _].
      apply orb_false_iff in Hb as [Hn Hm]. apply Nat.leb_gt in Hn. apply Z.ltb_ge in Hm. by split.
Qed.

Lemma evict_loop_limits fuel size c : limits_of c (evict_loop fuel size c).
Proof.
  revert c. induction fuel as [|fuel IH]; intros c; cbn [evict_loop]; [by case_match|].
  case_match; [|done]. destruct (oldest _) as [pos|]; [|done]. destruct (ic_entries c !! pos) as [e|]; [|done].
  destruct (IH (with_entries (delete pos (ic_entries c))
    (u64_sub (ic_current_memory_bytes c) (ca_estimated_size_bytes e)) c)) as (H1 & H2 & H3). by split_and!.
Qed.

Lemma estimate_size_nonneg text emb a : 0 <= estimate_size text emb a.
Proof. unfold estimate_size, u64_add. by apply Z.mod_pos_bound. Qed.

(** What a store keeps of what was there. *)
Definition unexpired (now : Z) (c : IntentAssemblyCache) : list CachedAssembly :=
  List.filter (fun e => negb (is_expired now (ic_ttl_ms c) e)) (ic_entries c).
Definition expired (now : Z) (c : IntentAssemblyCache) : list CachedAssembly :=
  List.filter (is_expired now (ic_ttl_ms c)) (ic_entries c).

(** A store: the counter, the limits, and when the cache holds nothing else. *)
Lemma store_spec now e c leak :
  accounted c leak -> 0 <= ca_estimated_size_bytes e ->
  sizes (ic_entries c) + leak + ca_estimated_size_bytes e <= u64_max ->
  let leak' := leak + sizes (expired now c) in
  let c' := store_entry now e c in
  accounted c' leak' /\
  sizes (ic_entries c') + leak' <= sizes (ic_entries c) + leak + ca_estimated_size_bytes e /\
  limits_of c c' /\
  ((length (ic_entries c') <= ic_max_entries c)%nat /\
   sizes (ic_entries c') + leak' <= ic_max_memory_bytes c \/ ic_entries c' = [e]).
Proof.
  intros (Hs & Hl & Hc & Hm) He Htot leak' c'. unfold c', store_entry, evict_if_needed_locked.
  set (c1 := with_entries _ _ c). pose proof (sizes_filter (is_expired now (ic_ttl_ms c)) (ic_entries c)) as Hf.
  pose proof (sizes_nonneg _ (sized_filter (is_expired now (ic_ttl_ms c)) _ Hs)) as Hx.
  assert (accounted c1 leak') as Ha1.
  { unfold leak', expired, c1, accounted. cbn [with_entries ic_entries ic_current_memory_bytes].
    split_and!; [by apply sized_filter|lia..]. }
  destruct (evict_loop_spec _ (ca_estimated_size_bytes e) c1 leak' Ha1 (le_n _)) as ((Hs2 & _ & Hc2 & _) & Hle & Hlim & Hend).
  set (c2 := evict_loop _ _ c1) in *. cbn [c1 with_entries ic_entries] in Hle.
  pose proof (sizes_nonneg _ Hs2) as Hp2.
  assert (sizes (ic_entries c2) + leak' + ca_estimated_size_bytes e <= u64_max) as Hsmall by (unfold leak', expired; lia).
  assert (u64_add (ic_current_memory_bytes c2) (ca_estimated_size_bytes e) =
    sizes (ic_entries c2) + leak' + ca_estimated_size_bytes e) as Hadd.
  { unfold u64_add. rewrite Hc2. apply u64_small. unfold leak', expired in *. lia. }
  assert (sizes (ic_entries c2 ++ [e]) = sizes (ic_entries c2) + ca_estimated_size_bytes e) as Hsum
    by (rewrite sizes_app; cbn; lia).
  cbn [with_entries ic_entries ic_current_memory_bytes]. unfold accounted.
  cbn [with_entries ic_entries ic_current_memory_bytes]. rewrite Hadd, Hsum. split_and!.
  - apply Forall_app. split; [done|]. by constructor.
  - unfold leak', expired. lia.
  - lia.
  - lia.
  - unfold leak', expired in *. lia.
  - destruct Hlim as (H1 & H2 & H3). by split_and!.
  - destruct Hlim as (H1 & H2 & _). destruct Hend as [[Hn Hr]|Hnil]; [left|right; by rewrite Hnil].
    rewrite Hadd, H2 in Hr. rewrite H1 in Hn. rewrite length_app. cbn in *. split; lia.
Qed.

Lemma saturating_sizes es n : sized es -> 0 <= n -> n + sizes es <= u64_max ->
  foldl (fun n e => u64_saturating_add n (ca_estimated_size_bytes e)) n es = n + sizes es.
Proof.
  intros Hs. revert n. induction Hs as [|e es He Hes IH]; intros n Hn Hm; [cbn; lia|].
  rewrite sizes_cons in *. pose proof (sizes_nonneg _ Hes). cbn [foldl].
  assert (u64_saturating_add n (ca_estimated_size_bytes e) = n + ca_estimated_size_bytes e) as ->
    by (unfold u64_saturating_add; lia).
  rewrite IH; lia.
Qed.

Lemma wrapping_sizes es n : sized es -> 0 <= n -> n + sizes es <= u64_max ->
  foldl (fun n e => u64_add n (ca_estimated_size_bytes e)) n es = n + sizes es.
Proof.
  intros Hs. revert n. induction Hs as [|e es He Hes IH]; intros n Hn Hm; [cbn; lia|].
  rewrite sizes_cons in *. pose proof (sizes_nonneg _ Hes). cbn [foldl]. unfold u64_add at 2.
  rewrite u64_small by lia. rewrite IH; lia.
Qed.

Lemma invalidate_accounted c cids leak : accounted c leak ->
  accounted (invalidate_by_cids c cids) leak /\
  sizes (ic_entries (invalidate_by_cids c cids)) <= sizes (ic_entries c).
Proof.
  intros (Hs & Hl & Hc & Hm). unfold invalidate_by_cids. destruct cids as [|cid cids]; [by split|].
  set (dep := has_dependency (cid :: cids)). pose proof (sizes_filter dep (ic_entries c)) as Hf.
  pose proof (sizes_nonneg _ (sized_filter dep _ Hs)). pose proof (sizes_nonneg _ (sized_filter (fun e => negb (dep e)) _ Hs)).
  rewrite saturating_sizes by (try apply sized_filter; done || lia).
  unfold accounted. cbn [with_entries ic_entries ic_current_memory_bytes]. unfold u64_sub.
  rewrite u64_small by lia. split_and!; [by apply sized_filter|lia..].
Qed.

(** ** Runs *)

Section runs.
Variable entries_from_str : string -> option (list CachedAssembly).

Inductive CacheOp : Type :=
  | C_store (created now : Z) (text : string) (emb : option (list f32)) (a : BudgetAllocation) (deps : list string)
  | C_lookup (now : Z) (text : string) (emb : option (list f32))
  | C_invalidate (cids : list string)
  | C_clear
  | C_restore (now : Z) (read : option IoError) (file : option string).

Definition cache_step (c : IntentAssemblyCache) (op : CacheOp) : IntentAssemblyCache :=
  match op with
  | C_store created now text emb a deps => cache_store created now c text emb a deps
  | C_lookup now text emb => snd (lookup now c text emb)
  | C_invalidate cids => invalidate_by_cids c cids
  | C_clear => cache_clear c
  | C_restore now read file => snd (restore_from_dir entries_from_str now read file c)
  end.

(** The entries a restore reads, when it succeeds. *)
Definition restored (read : option IoError) (file : option string) : option (list CachedAssembly) :=
  match read with Some _ => None | None => text ← file; entries_from_str text end.

(** Bytes an operation may bring in. *)
Definition op_bytes (op : CacheOp) : Z :=
  match op with
  | C_store _ _ text emb a _ => estimate_size text emb a
  | C_restore _ read file => match restored read file with Some es => sizes es | None => 0 end
  | _ => 0
  end.

Definition run_bytes (ops : list CacheOp) : Z := foldr (fun op n => op_bytes op + n) 0 ops.

(** Bytes of the entries dropped as expired by the stores since the last time
    the counter was set anew. *)
Definition op_leak (c : IntentAssemblyCache) (leak : Z) (op : CacheOp) : Z :=
  match op with
  | C_store _ now _ _ _ _ => leak + sizes (expired now c)
  | C_clear => 0
  | C_restore _ read file => match restored read file with Some _ => 0 | None => leak end
  | _ => leak
  end.

Fixpoint cache_run (c : IntentAssemblyCache) (leak : Z) (ops : list CacheOp) : IntentAssemblyCache * Z :=
  match ops with
  | [] => (c, leak)
  | op :: ops' => cache_run (cache_step c op) (op_leak c leak op) ops'
  end.

(** A [usize] is not negative. *)
Hypothesis decoded_sized : forall text es, entries_from_str text = Some es -> sized es.

Lemma op_bytes_nonneg op : 0 <= op_bytes op.
Proof.
  destruct op as [?? text emb a deps|?????|?|?|? read file]; cbn; try done; [apply estimate_size_nonneg|].
  unfold restored. destruct read; [done|]. destruct file as [text|]; [|done]. cbn.
  destruct (entries_from_str text) eqn:He; [|done]. eapply sizes_nonneg, decoded_sized, He.
Qed.

Lemma take_match_sizes now c pos : sized (ic_entries c) ->
  sizes (ic_entries (snd (take_match now c pos))) <= sizes (ic_entries c).
Proof.
  intros Hs. unfold take_match. destruct (ic_entries c !! pos) as [e|] eqn:He; [|done].
  destruct (is_expired _ _ _); cbn [snd with_entries ic_entries].
  - rewrite (sizes_delete _ _ _ He). pose proof (proj1 (Forall_lookup _ _) Hs _ _ He) as He0. cbn in He0. lia.
  - by rewrite (sizes_hit _ _ _ He).
Qed.

Lemma lookup_sizes now c text emb : sized (ic_entries c) ->
  sizes (ic_entries (snd (lookup now c text emb))) <= sizes (ic_entries c).
Proof.
  intros Hs. unfold lookup. repeat case_match; try (by apply (take_match_sizes now (with_lookups _ c)));
    done.
Qed.

Lemma cache_step_accounted c leak op :
  accounted c leak -> sizes (ic_entries c) + leak + op_bytes op <= u64_max ->
  accounted (cache_step c op) (op_leak c leak op) /\
  sizes (ic_entries (cache_step c op)) + op_leak c leak op <= sizes (ic_entries c) + leak + op_bytes op.
Proof.
  intros Ha Hm. pose proof Ha as (Hs & Hl & _). pose proof (sizes_nonneg _ Hs).
  destruct op as [created now text emb a deps|now text emb|cids| |now read file]; cbn [cache_step op_leak op_bytes] in *.
  - destruct (store_spec now (cached_new created text emb a deps) c leak Ha (estimate_size_nonneg _ _ _) Hm)
      as (? & ? & _). done.
  - split; [by apply lookup_accounted|]. pose proof (lookup_sizes now c text emb Hs). lia.
  - destruct (invalidate_accounted c cids leak Ha). split; [done|lia].
  - change (sizes (ic_entries (cache_clear c))) with 0. split; [|lia].
    split_and!; [constructor|done..].
  - unfold restore_from_dir, restored in *. destruct file as [text|]; [|destruct read; (split; [done|cbn in *; lia])].
    destruct read; cbn [snd mbind option_bind] in *; [split; [done|lia]|].
    destruct (entries_from_str text) as [es|] eqn:He; cbn [snd]; [|split; [done|lia]]. apply decoded_sized in He.
    set (p := fun e => negb (is_expired now (ic_ttl_ms c) e)) in *.
    pose proof (sizes_filter p es). pose proof (sizes_nonneg _ (sized_filter p _ He)).
    pose proof (sizes_nonneg _ (sized_filter (fun e => negb (p e)) _ He)).
    rewrite wrapping_sizes by (try apply sized_filter; done || lia). unfold accounted.
    cbn [with_entries ic_entries ic_current_memory_bytes]. split_and!; [by apply sized_filter|lia..].
Qed.

Lemma run_bytes_nonneg ops : 0 <= run_bytes ops.
Proof. induction ops as [|op ops IH]; cbn; [done|]. pose proof (op_bytes_nonneg op). unfold run_bytes in IH. lia. Qed.

Lemma cache_run_accounted ops c leak :
  accounted c leak -> sizes (ic_entries c) + leak + run_bytes ops <= u64_max ->
  accounted (fst (cache_run c leak ops)) (snd (cache_run c leak ops)) /\
  sizes (ic_entries (fst (cache_run c leak ops))) + snd (cache_run c leak ops) <=
    sizes (ic_entries c) + leak + run_bytes ops.
Proof.
  revert c leak. induction ops as [|op ops IH]; intros c leak Ha Hm; cbn [cache_run run_bytes foldr] in *.
  { split; [done|cbn; lia]. }
  fold (run_bytes ops) in *. pose proof (run_bytes_nonneg ops). pose proof (op_bytes_nonneg op). destruct (cache_step_accounted c leak op Ha) as [Ha' Hle]; [lia|].
  destruct (IH _ _ Ha') as [? ?]; [lia|]. split; [done|lia].
Qed.

Lemma cache_run_limits ops c leak : limits_of c (fst (cache_run c leak ops)).
Proof.
  unfold limits_of. revert c leak. induction ops as [|op ops IH]; intros c leak; [done|]. cbn [cache_run].
  destruct (IH (cache_step c op) (op_leak c leak op)) as (-> & -> & ->). clear IH.
  destruct op as [created now text emb a deps|now text emb|cids| |now read file]; cbn [cache_step].
  - unfold cache_store, store_entry. cbn [with_entries ic_max_entries ic_max_memory_bytes ic_ttl_ms].
    exact (evict_loop_limits _ _ _).
  - unfold lookup, take_match. by repeat case_match.
  - by destruct cids.
  - done.
  - unfold restore_from_dir. by repeat case_match.
Qed.

(** C20: the intent cache keeps its limits, and its memory counter drifts.
    After any operations of a new cache that bring in fewer than 2^64 bytes and
    a store, the counter is the size of the entries plus that of the entries
    the stores dropped as expired since it was last set; the cache holds at
    most the configured number of entries, of at most the configured size
    unless it holds only the new one; and once the drift alone exceeds the
    configured size, a store leaves the cache with nothing but its entry. *)
Theorem cache_limits max_entries max_memory threshold ttl ops created now text emb a deps :
  (0 < max_entries)%nat -> run_bytes ops + estimate_size text emb a <= u64_max ->
  let '(c, leak) := cache_run (intent_cache_new max_entries max_memory threshold ttl) 0 ops in
  let c' := cache_store created now c text emb a deps in
  let drift := leak + sizes (expired now c) in
  ic_current_memory_bytes c' = sizes (ic_entries c') + drift /\
  (length (ic_entries c') <= max_entries)%nat /\
  (sizes (ic_entries c') <= max_memory \/ ic_entries c' = [cached_new created text emb a deps]) /\
  (max_memory < drift -> ic_entries c' = [cached_new created text emb a deps]).
Proof.
  intros Hn Hb. set (c0 := intent_cache_new max_entries max_memory threshold ttl).
  assert (accounted c0 0) as Ha0 by (split_and!; [constructor|done..]).
  pose proof (estimate_size_nonneg text emb a). change (run_bytes ops) with (sizes (ic_entries c0) + 0 + run_bytes ops) in Hb.
  pose proof (cache_run_accounted ops c0 0 Ha0 ltac:(lia)) as [Ha Hle]. pose proof (cache_run_limits ops c0 0) as (Hmax & Hmem & _).
  destruct (cache_run c0 0 ops) as [c leak]. cbn [fst snd] in *.
  destruct (store_spec now (cached_new created text emb a deps) c leak Ha) as ((Hs & Hd & Hc & _) & _ & _ & Hend);
    [done|cbn [cached_new ca_estimated_size_bytes]; lia|]. fold (cache_store created now c text emb a deps) in *.
  pose proof (sizes_nonneg _ Hs). rewrite Hmax, Hmem in Hend. cbn [c0 intent_cache_new ic_max_entries ic_max_memory_bytes] in Hend.
  split_and!; [done|destruct Hend as [[Hlen _]|Hone]; [done|rewrite Hone; cbn; lia]|destruct Hend as [[? ?]|Hone]; [left; lia|by right]|].
  intros Hover. destruct Hend as [[_ ?]|?]; [lia|done].
Qed.
End runs.

(** ** Lookup *)

Lemma position_Some {A} (p : A -> bool) l pos :
  position p l = Some pos -> exists x, l !! pos = Some x /\ p x = true.
Proof.
  revert pos. induction l as [|y l IH]; intros pos; cbn; [done|]. destruct (p y) eqn:Hp.
  - intros [= <-]. by exists y.
  - intros (n & Hn & ->)%fmap_Some. by destruct (IH _ Hn) as (x & ? & ?); exists x.
Qed.

Lemma position_None {A} (p : A -> bool) l : position p l = None -> forall x, x ∈ l -> p x = false.
Proof.
  induction l as [|y l IH]; cbn; [by intros _ x ?%elem_of_nil|]. destruct (p y) eqn:Hp; [done|].
  intros Hn%fmap_None x [-> |Hx]%elem_of_cons; [done|by apply IH].
Qed.

(** The best match scores above the threshold. *)
Lemma best_above emb es k best threshold :
  (forall pos, fst best = Some pos -> f32_gt (snd best) threshold = true) ->
  (fst best = None -> snd best = threshold) ->
  forall pos, fst (foldl (better emb) best (zip (seq k (length es)) es)) = Some pos ->
  fst best = Some pos \/
  exists e w, es !! (pos - k)%nat = Some e /\ (k <= pos)%nat /\ ca_intent_embedding e = Some w /\
    f32_gt (cosine_similarity emb w) threshold = true.
Proof.
  revert k best. induction es as [|e es IH]; intros k best Hb Hn pos; cbn; [by left|]. intros Hf.
  assert (f32_gt (snd best) threshold = true \/ snd best = threshold) as Habove
    by (destruct (fst best) eqn:Hx; [left; by eapply Hb|right; by apply Hn]).
  set (best' := better emb best (k, e)) in *.
  assert (best' = best \/ exists w, ca_intent_embedding e = Some w /\ best' = (Some k, cosine_similarity emb w) /\
    f32_gt (cosine_similarity emb w) threshold = true) as Hcase.
  { unfold best', better. cbn [snd fst]. destruct (ca_intent_embedding e) as [w|]; [|by left].
    destruct (f32_gt (cosine_similarity emb w) (snd best)) eqn:Hgt; [right|by left]. exists w. split_and!; [done..|].
    destruct Habove as [Ha|Ha]; [by eapply f32_gt_trans|by rewrite <-Ha]. }
  destruct (IH (S k) best') with (pos := pos) as [Hpos|(x & w & Hx & Hk & Hw)]; [..|done| |].
  - destruct Hcase as [-> |(w & _ & -> & Hgt)]; [exact Hb|]. intros _ _. exact Hgt.
  - destruct Hcase as [-> |(w & _ & -> & _)]; [exact Hn|done].
  - destruct Hcase as [Heq|(w & Hw & Heq & Hgt)]; rewrite Heq in Hpos; [by left|]. injection Hpos as <-.
    right. exists e, w. by rewrite Nat.sub_diag.
  - right. exists x, w. replace (pos - k)%nat with (S (pos - S k)) by lia. split; [exact Hx|]. split; [lia|exact Hw].
Qed.

(** A lookup returns only what is there, current and asked for.  Whatever
    was invalidated before, a returned assembly is that of an entry that has
    not expired, depends on none of the invalidated objects, and was stored for
    exactly this intent or, when no entry was, for one whose embedding is
    closer than the threshold. *)
Lemma lookup_sound now c cids intent emb a c' :
  lookup now (invalidate_by_cids c cids) intent emb = (Some a, c') ->
  exists e, e ∈ ic_entries c /\ ca_assembly e = a /\ is_expired now (ic_ttl_ms c) e = false /\
    (forall cid, cid ∈ cids -> cid ∉ ca_dependency_cids e) /\
    (ca_intent_text e = intent \/
     (forall e', e' ∈ ic_entries (invalidate_by_cids c cids) -> ca_intent_text e' <> intent) /\
     exists v w, emb = Some v /\ ca_intent_embedding e = Some w /\
       f32_gt (cosine_similarity v w) (ic_similarity_threshold c) = true).
Proof.
  set (c1 := invalidate_by_cids c cids).
  assert (forall e, e ∈ ic_entries c1 -> e ∈ ic_entries c /\ forall cid, cid ∈ cids -> cid ∉ ca_dependency_cids e) as Hin.
  { intros e He. unfold c1, invalidate_by_cids in He. destruct cids as [|x cids].
    - split; [done|]. by intros cid ?%elem_of_nil.
    - cbn [with_entries ic_entries] in He. apply list_elem_of_In, filter_In in He as [He Hd].
      split; [by apply list_elem_of_In|]. intros cid Hc Hdep. apply negb_true_iff in Hd.
      assert (has_dependency (x :: cids) e = true); [|congruence].
      apply existsb_exists. exists cid. rewrite <-list_elem_of_In. split; [done|]. by apply bool_decide_eq_true. }
  assert (ic_ttl_ms c1 = ic_ttl_ms c /\ ic_similarity_threshold c1 = ic_similarity_threshold c) as [Httl Hthr]
    by (unfold c1, invalidate_by_cids; by destruct cids).
  unfold lookup. set (c2 := with_lookups _ c1). change (ic_entries c2) with (ic_entries c1).
  assert (forall pos, take_match now c2 pos = (Some a, c') -> exists e, ic_entries c1 !! pos = Some e /\
    ca_assembly e = a /\ is_expired now (ic_ttl_ms c) e = false) as Htake.
  { intros pos. unfold take_match. change (ic_entries c2) with (ic_entries c1).
    destruct (ic_entries c1 !! pos) as [e|]; [|done]. change (ic_ttl_ms c2) with (ic_ttl_ms c1). rewrite Httl.
    destruct (is_expired now (ic_ttl_ms c) e) eqn:He; [done|]. intros [= <- _]. by exists e. }
  destruct (position _ _) as [pos|] eqn:Hpos.
  - intros (e & He & Ha & Hx)%Htake. apply position_Some in Hpos as (x & Hx' & Ht). assert (x = e) as -> by congruence.
    apply list_elem_of_lookup_2 in He. destruct (Hin _ He). unfold str_eqb in Ht. apply bool_decide_eq_true in Ht.
    exists e. split_and!; auto.
  - destruct emb as [v|]; cbn [mbind option_bind]; [|done].
    destruct (find_best_similarity c2 v) as [pos|] eqn:Hbest; [|done]. intros (e & He & Ha & Hx)%Htake.
    unfold find_best_similarity in Hbest. change (ic_entries c2) with (ic_entries c1) in Hbest.
    change (ic_similarity_threshold c2) with (ic_similarity_threshold c1) in Hbest. rewrite Hthr in Hbest.
    destruct (best_above v (ic_entries c1) 0 (None, ic_similarity_threshold c) (ic_similarity_threshold c))
      with (pos := pos) as [?|(e' & w & He' & _ & Hw & Hgt)]; [done..|]. rewrite Nat.sub_0_r in He'.
    assert (e' = e) as -> by congruence. apply list_elem_of_lookup_2 in He. destruct (Hin _ He).
    exists e. split_and!; auto. right. split; [|by exists v, w]. intros e' Hin'.
    pose proof (position_None _ _ Hpos e' Hin') as Hne. unfold str_eqb in Hne. by apply bool_decide_eq_false in Hne.
Qed.

(** ** A small cache *)

Definition toy_allocation : BudgetAllocation := mkAllocation [] 0 100 0 0.
Definition toy_cache : IntentAssemblyCache := intent_cache_new 4 10 f32_0_85 100.
Definition toy_ops : list CacheOp := [C_store 0 0 "twelve bytes" None toy_allocation ["cid"]].
Definition toy_filled : IntentAssemblyCache := fst (cache_run (fun _ => None) toy_cache 0 toy_ops).

(** The counter still counts the entry that expired. *)
Lemma cache_limits_witness :
  let c' := cache_store 200 200 toy_filled "b" None toy_allocation [] in
  ic_current_memory_bytes c' = sizes (ic_entries c') + 12 /\ sizes (ic_entries c') = 1.
Proof.
  split; [|reflexivity].
  pose proof (cache_limits (fun _ => None) (fun _ _ He => match He with eq_refl => I end) 4 10 f32_0_85 100 toy_ops
    200 200 "b" None toy_allocation []) as Hc.
  exact (proj1 (Hc ltac:(lia) ltac:(vm_compute; congruence))).
Defined.

Lemma lookup_sound_witness :
  exists e, e ∈ ic_entries toy_filled /\ ca_assembly e = toy_allocation.
Proof.
  destruct (lookup_sound 50 toy_filled ["other"] "twelve bytes" None toy_allocation
    (snd (lookup 50 (invalidate_by_cids toy_filled ["other"]) "twelve bytes" None)) eq_refl) as (e & He & Ha & _).
  exact (ex_intro _ e (conj He Ha)).
Defined.
