(* ===== verification/AgentAuth.v ===== *)
(** * Agent authentication ([src/src/api/agent_auth.rs])

    The key store: tokens issued to agents, the bearer credentials a transport
    resolves to a role, the authentication mode, and the two files behind it.
    A write may fail at each of its steps, so that the files a failure leaves
    are part of the model.  HMAC, base64, constant-time comparison, the JSON
    codec and the order in which a [HashMap] yields its values are parameters;
    the clock and random numbers are arguments. *)

From stdpp Require Import base gmap strings pretty list.
From S2P Require Import Prelude MemoryModel Text.

Local Open Scope Z_scope.

(** ** Modes *)

Inductive AgentAuthMode : Type := Mode_Optional | Mode_Required.

#[export] Instance AgentAuthMode_eq_dec : EqDecision AgentAuthMode.
Proof. solve_decision. Defined.

(** [value.trim().to_ascii_lowercase()] *)
Fixpoint trim_end (s : string) : string :=
  match s with
  | EmptyString => EmptyString
  | String c rest => if blank s then EmptyString else String c (trim_end rest)
  end.

Fixpoint trim_start (s : string) : string :=
  match s with
  | EmptyString => EmptyString
  | String c s1 =>
      if ws1 c then trim_start s1 else
      match s1 with
      | EmptyString => s
      | String d s2 =>
          if ws2 c d then trim_start s2 else
          match s2 with
          | EmptyString => s
          | String e s3 => if ws3 c d e then trim_start s3 else s
          end
      end
  end.

Fixpoint to_ascii_lowercase (s : string) : string :=
  match s with
  | EmptyString => EmptyString
  | String c rest =>
      let n := Ascii.nat_of_ascii c in
      String (if (Nat.leb 65 n && Nat.leb n 90)%bool then Ascii.ascii_of_nat (n + 32) else c)
             (to_ascii_lowercase rest)
  end.

Definition from_config_value (value : string) : option AgentAuthMode :=
  let v := to_ascii_lowercase (trim_end (trim_start value)) in
  if str_mem v ["required"; "require"; "1"; "true"] then Some Mode_Required
  else if str_mem v ["optional"; "0"; "false"] then Some Mode_Optional
  else None.

(** [env] is the value of [PLICO_AGENT_AUTH_MODE]. *)
Definition from_env (env : option string) (dflt : AgentAuthMode) : AgentAuthMode :=
  match env with
  | None => dflt
  | Some value => default Mode_Required (from_config_value value)
  end.

(** ** The key store *)

Record AgentToken := mkToken {
  at_agent_id : string;
  at_token : string;
  at_issued_at : Z;
  at_expires_at : option Z;
  at_capabilities : list string;
}.

Record AgentKeyStore := mkKeyStore {
  ks_secret : string;
  ks_tokens : gmap string AgentToken;
  ks_mode : AgentAuthMode;
}.

Inductive PersonalOwnerCredentialState : Type := Credential_Created | Credential_Existing.

Inductive TokenError : Type :=
  | Token_required (agent_id : string)
  | Token_invalid (agent_id : string)
  | Bearer_invalid.

(** [agent_secret.key], [agent_tokens.json] and the temporary file a snapshot
    is written to. *)
Record AuthFiles := mkAuthFiles {
  af_secret : option string;
  af_tokens : option string;
  af_tokens_tmp : option string;
}.

(** How far [write_private_file] got: the open (which truncates), the change of
    permissions, the write of a prefix, the sync. *)
Inductive PrivateWrite : Type :=
  | Pw_open_failed
  | Pw_restrict_failed
  | Pw_write_failed (written : nat)
  | Pw_sync_failed
  | Pw_done.

Definition write_private_file (o : PrivateWrite) (file : option string) (bytes : string)
    : bool * option string :=
  match o with
  | Pw_open_failed => (false, file)
  | Pw_restrict_failed => (false, Some "")
  | Pw_write_failed n => (false, Some (String.substring 0 n bytes))
  | Pw_sync_failed => (false, Some bytes)
  | Pw_done => (true, Some bytes)
  end.

Record SnapshotIo := mkSnapshotIo {
  si_write : PrivateWrite;
  si_rename : bool;
  si_remove : bool;
  si_restrict : bool;
}.

Class AuthPlatform := {
  hmac_sha256 : string -> string -> string;
  base64_encode : string -> string;
  ct_eq : string -> string -> bool;
  tokens_to_vec : gmap string AgentToken -> option string;
  tokens_from_str : string -> option (gmap string AgentToken);
  values_order : gmap string AgentToken -> list AgentToken;
}.

Section keystore.
Context `{AuthPlatform}.

(** [AgentKeyStore::new], with the random secret. *)
Definition keystore_new (random_secret : string) : AgentKeyStore :=
  mkKeyStore random_secret ∅ Mode_Optional.

(** [readable] is the outcome of reading the file. *)
Definition load_tokens (readable : bool) (files : AuthFiles) : gmap string AgentToken :=
  match af_tokens files with
  | None => ∅
  | Some json => if readable then default ∅ (tokens_from_str json) else ∅
  end.

Record OpenIo := mkOpenIo {
  oi_random_secret : string;
  oi_secret_readable : bool;
  oi_secret_write : PrivateWrite;
  oi_tokens_readable : bool;
  oi_env : option string;
}.

Definition write_secret (io : OpenIo) (files : AuthFiles) : AuthFiles :=
  mkAuthFiles (snd (write_private_file (oi_secret_write io) (af_secret files) (oi_random_secret io)))
    (af_tokens files) (af_tokens_tmp files).

(** A failed write of the secret is ignored. *)
Definition keystore_open (io : OpenIo) (files : AuthFiles) : AgentKeyStore * AuthFiles :=
  let '(secret, files') :=
    match af_secret files with
    | Some bytes =>
        if oi_secret_readable io && Nat.eqb (String.length bytes) 32 then (bytes, files)
        else (oi_random_secret io, write_secret io files)
    | None => (oi_random_secret io, write_secret io files)
    end in
  (mkKeyStore secret (load_tokens (oi_tokens_readable io) files')
     (from_env (oi_env io) Mode_Optional), files').

Definition persist_snapshot (io : SnapshotIo) (files : AuthFiles) (tokens : gmap string AgentToken)
    : bool * AuthFiles :=
  let '(written, tmp) :=
    match tokens_to_vec tokens with
    | None => (false, af_tokens_tmp files)
    | Some json => write_private_file (si_write io) (af_tokens_tmp files) json
    end in
  if written && si_rename io
  then (si_restrict io, mkAuthFiles (af_secret files) tmp None)
  else (false, mkAuthFiles (af_secret files) (af_tokens files) (if si_remove io then None else tmp)).

Definition persist (io : SnapshotIo) (s : AgentKeyStore) (files : AuthFiles) : AuthFiles :=
  snd (persist_snapshot io files (ks_tokens s)).

Definition with_tokens (s : AgentKeyStore) (tokens : gmap string AgentToken) : AgentKeyStore :=
  mkKeyStore (ks_secret s) tokens (ks_mode s).

Definition create_token (s : AgentKeyStore) (nonce timestamp : Z) (agent_id : string) : AgentToken :=
  let input := agent_id +:+ ":" +:+ pretty nonce +:+ ":" +:+ pretty timestamp in
  mkToken agent_id (base64_encode (hmac_sha256 (ks_secret s) input)) timestamp None [].

(** The snapshot is written before the store is changed. *)
Definition ensure_personal_owner_credential (io : SnapshotIo) (nonce now : Z) (s : AgentKeyStore)
    (files : AuthFiles) : option PersonalOwnerCredentialState * AgentKeyStore * AuthFiles :=
  let '(state, candidate) :=
    match ks_tokens s !! PERSONAL_OWNER_ROLE_ID with
    | Some _ => (Credential_Existing, ks_tokens s)
    | None => (Credential_Created,
               <[PERSONAL_OWNER_ROLE_ID := create_token s nonce now PERSONAL_OWNER_ROLE_ID]> (ks_tokens s))
    end in
  let '(ok, files') := persist_snapshot io files candidate in
  if ok then (Some state, with_tokens s candidate, files') else (None, s, files').

Definition set_mode (s : AgentKeyStore) (mode : AgentAuthMode) : AgentKeyStore :=
  mkKeyStore (ks_secret s) (ks_tokens s) mode.

Definition store_token (s : AgentKeyStore) (token : AgentToken) : AgentKeyStore :=
  with_tokens s (<[at_agent_id token := token]> (ks_tokens s)).

Definition generate_token (s : AgentKeyStore) (nonce now : Z) (agent_id : string)
    : AgentToken * AgentKeyStore :=
  let token := create_token s nonce now agent_id in (token, store_token s token).

Definition token_expired (now : Z) (token : AgentToken) : bool :=
  match at_expires_at token with Some expires_at => expires_at <? now | None => false end.

Definition verify_token (now : Z) (s : AgentKeyStore) (agent_id token_str : string) : bool :=
  match ks_tokens s !! agent_id with
  | None => false
  | Some token =>
      if token_expired now token then false
      else if negb (Nat.eqb (String.length (at_token token)) (String.length token_str)) then false
      else ct_eq (at_token token) token_str
  end.

Fixpoint bearer_loop (now : Z) (token_str : string) (tokens : list AgentToken) : result TokenError string :=
  match tokens with
  | [] => Err Bearer_invalid
  | token :: rest =>
      if token_expired now token then bearer_loop now token_str rest
      else if Nat.eqb (String.length (at_token token)) (String.length token_str)
              && ct_eq (at_token token) token_str then Ok (at_agent_id token)
      else bearer_loop now token_str rest
  end.

Definition authenticate_bearer (now : Z) (s : AgentKeyStore) (token_str : string)
    : result TokenError string :=
  reject str_eqb token_str "" with Bearer_invalid;
  bearer_loop now token_str (values_order (ks_tokens s)).

Definition get_token (s : AgentKeyStore) (agent_id : string) : option AgentToken :=
  ks_tokens s !! agent_id.

Definition requires_token (s : AgentKeyStore) : bool := bool_decide (ks_mode s = Mode_Required).

Definition verify_agent_token (now : Z) (s : AgentKeyStore) (agent_id : string)
    (token_opt : option string) : result TokenError unit :=
  match ks_mode s, token_opt with
  | Mode_Required, None => Err (Token_required agent_id)
  | Mode_Required, Some token =>
      if verify_token now s agent_id token then Ok tt else Err (Token_invalid agent_id)
  | Mode_Optional, None => Ok tt
  | Mode_Optional, Some token =>
      if verify_token now s agent_id token then Ok tt else Err (Token_invalid agent_id)
  end.
End keystore.

(** ** What the parameters promise *)

Class AuthPlatformLaws `{AuthPlatform} : Prop := {
  ct_eq_exact a b : String.length a = String.length b -> ct_eq a b = str_eqb a b;
  tokens_codec m json : tokens_to_vec m = Some json -> tokens_from_str json = Some m;
  values_order_permutes m : values_order m ≡ₚ (map_to_list m).*2;
}.

(** ** Histories of the store and its files *)

Inductive AuthOp : Type :=
  | Auth_generate (nonce now : Z) (agent_id : string)
  | Auth_store (token : AgentToken)
  | Auth_ensure_owner (io : SnapshotIo) (nonce now : Z)
  | Auth_persist (io : SnapshotIo)
  | Auth_set_mode (mode : AgentAuthMode)
  | Auth_restart (io : OpenIo).

Section histories.
Context `{AuthPlatformLaws}.

Definition auth_step (op : AuthOp) (c : AgentKeyStore * AuthFiles) : AgentKeyStore * AuthFiles :=
  let '(s, files) := c in
  match op with
  | Auth_generate nonce now agent_id => (snd (generate_token s nonce now agent_id), files)
  | Auth_store token => (store_token s token, files)
  | Auth_ensure_owner io nonce now =>
      let '(_, s', files') := ensure_personal_owner_credential io nonce now s files in (s', files')
  | Auth_persist io => (s, persist io s files)
  | Auth_set_mode mode => (set_mode s mode, files)
  | Auth_restart io => keystore_open io files
  end.

(** A store opened on an empty directory and used by the operations above. *)
Inductive auth_reachable : AgentKeyStore * AuthFiles -> Prop :=
  | auth_initial io : auth_reachable (keystore_open io (mkAuthFiles None None None))
  | auth_next op c : auth_reachable c -> auth_reachable (auth_step op c).

(** ** The invariant: every token is filed under its agent *)

Definition keyed (m : gmap string AgentToken) : Prop := map_Forall (fun k t => at_agent_id t = k) m.

Definition auth_inv (c : AgentKeyStore * AuthFiles) : Prop :=
  keyed (ks_tokens (fst c)) /\ forall readable, keyed (load_tokens readable (snd c)).

Lemma keyed_insert m t : keyed m -> keyed (<[at_agent_id t := t]> m).
Proof. intros K. by apply map_Forall_insert_2. Qed.

(** A snapshot leaves the token file as it was or holding what was written. *)
Lemma persist_snapshot_file io files tokens ok files' :
  persist_snapshot io files tokens = (ok, files') ->
  (af_tokens files' = af_tokens files /\ ok = false) \/
  (exists json, tokens_to_vec tokens = Some json /\ af_tokens files' = Some json).
Proof.
  unfold persist_snapshot.
  destruct (tokens_to_vec tokens) as [json|]; [|cbn; intros [= <- <-]; by left].
  destruct (si_write io); cbn; try (intros [= <- <-]; by left).
  destruct (si_rename io); intros [= <- <-]; [right|by left].
  exists json. by split.
Qed.

Lemma load_of_file files readable json m :
  af_tokens files = Some json -> tokens_from_str json = Some m ->
  load_tokens readable files = if readable then m else ∅.
Proof. intros F D. unfold load_tokens. rewrite F. destruct readable; [by rewrite D|done]. Qed.

Lemma load_same files files' readable :
  af_tokens files' = af_tokens files -> load_tokens readable files' = load_tokens readable files.
Proof. unfold load_tokens. by intros ->. Qed.

Lemma persist_snapshot_loads io files tokens ok files' readable :
  persist_snapshot io files tokens = (ok, files') ->
  (load_tokens readable files' = load_tokens readable files /\ ok = false) \/
  load_tokens readable files' = if readable then tokens else ∅.
Proof.
  intros P. destruct (persist_snapshot_file _ _ _ _ _ P) as [[F O]|(json & V & F)].
  - left. split; [by apply load_same|done].
  - right. apply (load_of_file _ _ _ _ F). by apply tokens_codec.
Qed.

Lemma keyed_after_snapshot io files tokens ok files' :
  persist_snapshot io files tokens = (ok, files') -> keyed tokens ->
  (forall readable, keyed (load_tokens readable files)) ->
  forall readable, keyed (load_tokens readable files').
Proof.
  intros P K L readable.
  destruct (persist_snapshot_loads _ _ _ _ _ readable P) as [[-> _]| ->]; [done|].
  destruct readable; [done|apply map_Forall_empty].
Qed.

Lemma open_loads io files s files' :
  keystore_open io files = (s, files') ->
  ks_tokens s = load_tokens (oi_tokens_readable io) files /\ af_tokens files' = af_tokens files.
Proof.
  unfold keystore_open. destruct (af_secret files) as [bytes|]; [destruct (_ && _)|];
    intros [= <- <-]; by split.
Qed.

Definition candidate_tokens (s : AgentKeyStore) (nonce now : Z) : gmap string AgentToken :=
  match ks_tokens s !! PERSONAL_OWNER_ROLE_ID with
  | Some _ => ks_tokens s
  | None => <[PERSONAL_OWNER_ROLE_ID := create_token s nonce now PERSONAL_OWNER_ROLE_ID]> (ks_tokens s)
  end.

Lemma ensure_spec io nonce now s files :
  ensure_personal_owner_credential io nonce now s files =
  let '(ok, files') := persist_snapshot io files (candidate_tokens s nonce now) in
  if ok then (Some match ks_tokens s !! PERSONAL_OWNER_ROLE_ID with
                   | Some _ => Credential_Existing | None => Credential_Created end,
              with_tokens s (candidate_tokens s nonce now), files')
  else (None, s, files').
Proof.
  unfold ensure_personal_owner_credential, candidate_tokens.
  by destruct (ks_tokens s !! PERSONAL_OWNER_ROLE_ID).
Qed.

Lemma keyed_candidate s nonce now : keyed (ks_tokens s) -> keyed (candidate_tokens s nonce now).
Proof.
  intros K. unfold candidate_tokens. destruct (_ !! _); [done|].
  apply (keyed_insert _ (create_token s nonce now PERSONAL_OWNER_ROLE_ID) K).
Qed.

Lemma auth_step_inv op c : auth_inv c -> auth_inv (auth_step op c).
Proof.
  destruct c as [s files]. intros [K L]. cbn in K, L. destruct op; cbn [auth_step].
  - split; [apply keyed_insert, K|exact L].
  - split; [apply keyed_insert, K|exact L].
  - rewrite ensure_spec. destruct (persist_snapshot _ _ _) as [ok files'] eqn:P.
    pose proof (keyed_candidate s nonce now K) as KC.
    pose proof (keyed_after_snapshot _ _ _ _ _ P KC L) as L'. by destruct ok; split.
  - split; [exact K|]. cbn [snd]. unfold persist.
    destruct (persist_snapshot _ _ _) as [ok files'] eqn:P. exact (keyed_after_snapshot _ _ _ _ _ P K L).
  - by split.
  - destruct (keystore_open io files) as [s' files'] eqn:O.
    destruct (open_loads _ _ _ _ O) as [T F]. split; cbn [fst snd].
    + rewrite T. apply L.
    + intros readable. rewrite (load_same files files' readable F). apply L.
Qed.

Lemma auth_reachable_inv c : auth_reachable c -> auth_inv c.
Proof.
  induction 1 as [io|op c _ IH]; [|by apply auth_step_inv].
  destruct (keystore_open io _) as [s files] eqn:O. destruct (open_loads _ _ _ _ O) as [T F].
  split; cbn [fst snd].
  - rewrite T. apply map_Forall_empty.
  - intros readable. unfold load_tokens. rewrite F. apply map_Forall_empty.
Qed.

(** ** Tokens and bearers *)

Definition live_match (now : Z) (t : AgentToken) (token_str : string) : Prop :=
  token_expired now t = false /\ at_token t = token_str.

Lemma token_matches a b :
  (Nat.eqb (String.length a) (String.length b) && ct_eq a b) = true <-> a = b.
Proof.
  rewrite andb_true_iff, Nat.eqb_eq. split.
  - intros [L C]. rewrite (ct_eq_exact a b L) in C. by apply bool_decide_eq_true in C.
  - intros ->. split; [done|]. rewrite ct_eq_exact by done. by apply bool_decide_eq_true.
Qed.

Lemma verify_token_iff now s agent_id token_str :
  verify_token now s agent_id token_str = true <->
  exists t, ks_tokens s !! agent_id = Some t /\ live_match now t token_str.
Proof.
  unfold verify_token. destruct (ks_tokens s !! agent_id) as [t|];
    [|split; [done|by intros (? & ? & _)]].
  transitivity (live_match now t token_str).
  - unfold live_match. rewrite <- (token_matches (at_token t) token_str).
    destruct (token_expired now t); [split; [done|by intros [? _]]|].
    destruct (Nat.eqb _ _); cbn; (split; [by split|by intros [_ ?]]).
  - split; [intros L; by exists t|by intros (? & [= <-] & ?)].
Qed.

Lemma bearer_loop_spec now token_str l :
  match bearer_loop now token_str l with
  | Ok r => exists t, t ∈ l /\ at_agent_id t = r /\ live_match now t token_str
  | Err e => e = Bearer_invalid /\ forall t, t ∈ l -> ~ live_match now t token_str
  end.
Proof.
  induction l as [|t l IH]; cbn [bearer_loop].
  { split; [done|]. intros t Ht. by apply not_elem_of_nil in Ht. }
  assert (skip : ~ live_match now t token_str ->
    match bearer_loop now token_str l with
    | Ok r => exists t', t' ∈ t :: l /\ at_agent_id t' = r /\ live_match now t' token_str
    | Err e => e = Bearer_invalid /\ forall t', t' ∈ t :: l -> ~ live_match now t' token_str
    end).
  { intros N. destruct (bearer_loop now token_str l) as [r|e].
    - destruct IH as (t' & M & R). exists t'. split; [by right|exact R].
    - destruct IH as [-> N']. split; [done|]. intros t' [-> |M]%elem_of_cons; [done|by apply N']. }
  unfold live_match in *. destruct (token_expired now t) eqn:X; [apply skip; by intros [? _]|].
  destruct (_ && _) eqn:M.
  - apply token_matches in M. exists t. split; [by left|done].
  - apply skip. intros [_ E]. apply token_matches in E. congruence.
Qed.

Lemma live_values s t :
  keyed (ks_tokens s) ->
  t ∈ values_order (ks_tokens s) <-> ks_tokens s !! at_agent_id t = Some t.
Proof.
  intros K. rewrite values_order_permutes, list_elem_of_fmap. split.
  - intros ([k t'] & -> & M). apply elem_of_map_to_list in M. cbn. by rewrite (K _ _ M : at_agent_id t' = k).
  - intros L. exists (at_agent_id t, t). split; [done|]. by apply elem_of_map_to_list.
Qed.

(** C21: A bearer credential resolves to a role whose token it is.  In every
    store the operations can reach, through restarts and failed writes, and
    whatever the order in which the map yields its tokens: a bearer that
    authenticates as a role verifies as that role's token; a bearer that
    verifies for some role authenticates; and one that verifies for none, or
    the empty one, is refused with the one generic error. *)
Theorem bearer_names_verified_role (c : AgentKeyStore * AuthFiles) (now : Z) (token_str : string) :
  auth_reachable c ->
  match authenticate_bearer now (fst c) token_str with
  | Ok role => token_str <> "" /\ verify_token now (fst c) role token_str = true
  | Err e => e = Bearer_invalid /\
      (token_str = "" \/ forall role, verify_token now (fst c) role token_str = false)
  end.
Proof.
  intros R. destruct (auth_reachable_inv _ R) as [K _]. unfold authenticate_bearer.
  destruct (str_eqb token_str "") eqn:B; [apply bool_decide_eq_true in B; by split; [|left]|].
  apply bool_decide_eq_false in B.
  pose proof (bearer_loop_spec now token_str (values_order (ks_tokens (fst c)))) as S.
  destruct (bearer_loop _ _ _) as [r|e].
  - destruct S as (t & M & <- & L). split; [done|]. apply verify_token_iff. exists t.
    split; [by apply live_values|done].
  - destruct S as [-> N]. split; [done|right]. intros role. apply not_true_is_false.
    intros (t & G & L)%verify_token_iff. apply (N t); [|done].
    apply live_values; [done|]. by rewrite (K _ _ G : at_agent_id t = role).
Qed.

(** C22: The owner's credential is published only once it is durable.  When
    [ensure_personal_owner_credential] succeeds, the owner has a token, the one
    it had if it had one, every other agent's token is unchanged, and a restart
    that can read the token file restores exactly the live tokens.  When it
    fails, at whichever step, the live store is unchanged and a restart finds
    the tokens of before or the completed ones, never a damaged file. *)
Theorem owner_credential_durable io nonce now (s : AgentKeyStore) (files : AuthFiles)
    (reopen : OpenIo) :
  oi_tokens_readable reopen = true ->
  let '(r, s', files') := ensure_personal_owner_credential io nonce now s files in
  let restored := ks_tokens (fst (keystore_open reopen files')) in
  match r with
  | Some state =>
      restored = ks_tokens s' /\ is_Some (ks_tokens s' !! PERSONAL_OWNER_ROLE_ID) /\
      (forall agent t, ks_tokens s !! agent = Some t -> ks_tokens s' !! agent = Some t) /\
      (forall agent, agent <> PERSONAL_OWNER_ROLE_ID -> ks_tokens s' !! agent = ks_tokens s !! agent) /\
      (state = Credential_Created <-> ks_tokens s !! PERSONAL_OWNER_ROLE_ID = None)
  | None =>
      s' = s /\ (restored = load_tokens true files \/ restored = candidate_tokens s nonce now)
  end.
Proof.
  intros RD. rewrite ensure_spec. destruct (persist_snapshot _ _ _) as [ok files'] eqn:P.
  assert (O : ks_tokens (fst (keystore_open reopen files')) = load_tokens true files').
  { destruct (keystore_open reopen files') as [s1 f1] eqn:O1.
    destruct (open_loads _ _ _ _ O1) as [T _]. by rewrite RD in T. }
  destruct (persist_snapshot_loads _ _ _ _ _ true P) as [[L ->]|L].
  { rewrite O, L. by split; [|left]. }
  destruct ok; [|rewrite O, L; by split; [|right]].
  rewrite O, L. cbn [ks_tokens with_tokens]. unfold candidate_tokens.
  destruct (ks_tokens s !! PERSONAL_OWNER_ROLE_ID) as [t0|] eqn:E.
  - repeat split; try done.
  - repeat split; try done.
    + rewrite lookup_insert_eq. by eexists.
    + intros agent t G. rewrite lookup_insert_ne by congruence. done.
    + intros agent N. by rewrite lookup_insert_ne.
Qed.
End histories.

(** ** A concrete platform

    Tokens are their input in clear, and the codec writes the two maps the
    witnesses use; it refuses to write any other. *)

#[export] Instance AgentToken_eq_dec : EqDecision AgentToken.
Proof. solve_decision. Defined.

Definition clear_token : AgentToken :=
  mkToken PERSONAL_OWNER_ROLE_ID "personal-owner:7:1700" 1700 None [].
Definition clear_tokens : gmap string AgentToken := {[ PERSONAL_OWNER_ROLE_ID := clear_token ]}.

#[export] Instance clear_platform : AuthPlatform := {|
  hmac_sha256 _ input := input;
  base64_encode bytes := bytes;
  ct_eq := str_eqb;
  tokens_to_vec m :=
    if decide (m = clear_tokens) then Some "owner" else if decide (m = ∅) then Some "{}" else None;
  tokens_from_str s :=
    if decide (s = "owner") then Some clear_tokens else if decide (s = "{}") then Some ∅ else None;
  values_order m := (map_to_list m).*2;
|}.

#[export] Instance clear_platform_laws : AuthPlatformLaws.
Proof.
  split; [by intros a b _| |done]. intros m json. cbn [tokens_to_vec tokens_from_str clear_platform].
  destruct (decide (m = clear_tokens)) as [-> |]; [intros [= <-]; reflexivity|].
  destruct (decide (m = ∅)) as [-> |]; [intros [= <-]; reflexivity|discriminate].
Qed.

Definition quiet_open : OpenIo := mkOpenIo "secret" true Pw_done true None.
Definition quiet_snapshot : SnapshotIo := mkSnapshotIo Pw_done true true true.

Lemma bearer_names_verified_role_witness :
  exists c : AgentKeyStore * AuthFiles,
    auth_reachable c /\
    authenticate_bearer 1800 (fst c) "personal-owner:7:1700" = Ok PERSONAL_OWNER_ROLE_ID /\
    verify_token 1800 (fst c) PERSONAL_OWNER_ROLE_ID "personal-owner:7:1700" = true /\
    is_ok (authenticate_bearer 1800 (fst c) "guess") = false.
Proof.
  set (c := auth_step (Auth_ensure_owner quiet_snapshot 7 1700)
              (keystore_open quiet_open (mkAuthFiles None None None))).
  assert (R : auth_reachable c) by apply auth_next, auth_initial.
  exists c. split; [exact R|].
  pose proof (bearer_names_verified_role c 1800 "personal-owner:7:1700" R) as T.
  assert (A : authenticate_bearer 1800 (fst c) "personal-owner:7:1700" = Ok PERSONAL_OWNER_ROLE_ID)
    by reflexivity.
  rewrite A in T. split; [exact A|]. split; [exact (proj2 T)|]. reflexivity.
Defined.

(** The token file is replaced but its permissions cannot be restricted: the
    call fails, the live store has no owner, and the restart has one. *)
Lemma owner_credential_durable_witness :
  oi_tokens_readable quiet_open = true /\
  (let s := keystore_new "secret" in
   let io := mkSnapshotIo Pw_done true true false in
   fst (fst (ensure_personal_owner_credential io 7 1700 s (mkAuthFiles None None None))) = None /\
   snd (fst (ensure_personal_owner_credential io 7 1700 s (mkAuthFiles None None None))) = s).
Proof.
  split; [reflexivity|].
  pose proof (owner_credential_durable (mkSnapshotIo Pw_done true true false) 7 1700
                (keystore_new "secret") (mkAuthFiles None None None) quiet_open eq_refl) as T.
  split; [reflexivity|]. exact (proj1 T).
Defined.
