(* ===== verification/ApiRequest.v ===== *)
(** * API requests ([src/src/api/semantic.rs], [src/src/api/dto.rs])

    The request type every transport decodes to, with the data types its
    variants carry, the identity a request claims and the permission it needs
    ([src/src/kernel/ops/security.rs]), and the handler group it is routed to
    ([src/src/kernel/api_dispatch.rs]). *)

From stdpp Require Import base strings list.
From S2P Require Import Prelude MemoryModel Float32 ObjectStorage ContextLoader Permission.

(** ** Data *)

Record ApiVersion := mkApiVersion { major : Z; minor : Z; patch : Z }.

Inductive ContentEncoding : Type := Utf8 | Base64.

Inductive EventType : Type :=
  | EventType_Task | EventType_Report | EventType_Evaluation | EventType_Analysis
  | EventType_Transfer | EventType_Processing | EventType_Sync | EventType_Work
  | EventType_Agent | EventType_Custom.

Inductive EventRelation : Type :=
  | Relation_Participant | Relation_Artifact | Relation_Recording | Relation_Resolution.

Inductive KGNodeType : Type :=
  | Node_Entity | Node_Fact | Node_Document | Node_Agent | Node_Memory | Node_Event.

Inductive KGEdgeType : Type :=
  | Edge_AssociatesWith | Edge_Follows | Edge_Mentions | Edge_Causes | Edge_Reminds | Edge_PartOf
  | Edge_SimilarTo | Edge_RelatedTo | Edge_HasParticipant | Edge_HasArtifact | Edge_HasRecording
  | Edge_HasResolution | Edge_HasFact | Edge_CausedBy | Edge_DependsOn | Edge_Produces
  | Edge_Supersedes | Edge_IsAliasOf.

Record ProcedureStepDto := mkStepDto {
  psd_description : string;
  psd_action : string;
  psd_expected_outcome : option string;
}.

Record BatchCreateItem := mkBatchCreate {
  bci_content : string;
  bci_content_encoding : ContentEncoding;
  bci_tags : list string;
  bci_intent : option string;
}.

Record BatchMemoryEntry := mkBatchMemory {
  bme_content : string;
  bme_tier : string;
  bme_importance : Z;
  bme_tags : list string;
}.

Record BatchLongTermItem := mkBatchLongTerm {
  bli_content : string;
  bli_tags : list string;
  bli_importance : Z;
}.

Record IntentSpec := mkIntentSpec {
  is_description : string;
  is_priority : string;
  is_action : option string;
}.

Inductive QuerySpec : Type :=
  | Query_Read (cid : string)
  | Query_Search (query : string) (limit : option Z) (require_tags exclude_tags : list string)
  | Query_Recall.

Inductive GrowthPeriod : Type := Last7Days | Last30Days | AllTime.

(** The [cids] of [Req_ContextAssemble] are [ContextAssembleCandidate]s, which
    have the fields of [ContextCandidate]. *)
Inductive ApiRequest : Type :=
  | Req_Create (api_version : option ApiVersion) (content : string)
      (content_encoding : ContentEncoding) (tags : list string) (agent_id : string)
      (tenant_id agent_token intent : option string) (scope : option ObjectScope)
  | Req_Read (cid agent_id : string) (tenant_id agent_token : option string)
  | Req_Search (query agent_id : string) (tenant_id agent_token : option string)
      (limit offset : option Z) (require_tags exclude_tags : list string) (since until : option Z)
      (intent_context : option string)
  | Req_Update (cid content : string) (content_encoding : ContentEncoding)
      (new_tags : option (list string)) (agent_id : string) (tenant_id agent_token : option string)
  | Req_Delete (cid agent_id : string) (tenant_id agent_token : option string)
  | Req_RegisterAgent (name : string)
  | Req_ListAgents
  | Req_Remember (agent_id content : string) (tenant_id : option string)
  | Req_Recall (agent_id : string) (query : option string) (limit : option Z) (tier : option string)
  | Req_RememberLongTerm (agent_id content : string) (tags : list string) (importance : Z)
      (tenant_id : option string)
  | Req_Explore (cid : string) (edge_type : option string) (depth : option Z) (agent_id : string)
  | Req_GrantPermission (agent_id : string) (caller_agent_id agent_token : option string)
      (action : string) (scope : option string) (expires_at : option Z)
  | Req_RevokePermission (agent_id : string) (caller_agent_id agent_token : option string)
      (action : string)
  | Req_ListPermissions (agent_id : string)
  | Req_CheckPermission (agent_id action : string)
  | Req_ListDeleted (agent_id : string)
  | Req_Restore (cid agent_id : string)
  | Req_History (cid agent_id : string)
  | Req_Rollback (cid agent_id : string)
  | Req_CreateEvent (label : string) (event_type : EventType) (start_time end_time : option Z)
      (location : option string) (tags : list string) (agent_id : string)
  | Req_ListEvents (since until : option Z) (tags : list string) (event_type : option EventType)
      (agent_id : string) (limit offset : option Z)
  | Req_ListEventsText (time_expression : string) (tags : list string)
      (event_type : option EventType) (agent_id : string)
  | Req_EventAttach (event_id target_id : string) (relation : EventRelation) (agent_id : string)
  | Req_AddNode (label : string) (node_type : KGNodeType) (properties : Json) (agent_id : string)
      (tenant_id : option string)
  | Req_AddEdge (src_id dst_id : string) (edge_type : KGEdgeType) (weight : option f32)
      (agent_id : string) (tenant_id : option string)
  | Req_ListNodes (node_type : option KGNodeType) (agent_id : string) (tenant_id : option string)
      (limit offset : option Z)
  | Req_ListNodesAtTime (node_type : option KGNodeType) (agent_id : string)
      (tenant_id : option string) (t : Z)
  | Req_FindPaths (src_id dst_id : string) (max_depth : option Z) (weighted : bool)
      (agent_id : string) (tenant_id : option string)
  | Req_SubmitIntent (description priority : string) (action : option string) (agent_id : string)
  | Req_AgentStatus (agent_id : string)
  | Req_AgentSuspend (agent_id : string)
  | Req_AgentResume (agent_id : string)
  | Req_AgentTerminate (agent_id : string)
  | Req_ToolCall (tool : string) (params : Json) (agent_id : string)
  | Req_ToolList (agent_id : string)
  | Req_ToolDescribe (tool agent_id : string)
  | Req_RememberProcedural (agent_id name description : string) (steps : list ProcedureStepDto)
      (learned_from : option string) (tags : list string)
  | Req_RecallProcedural (agent_id : string) (name : option string)
  | Req_AgentSetResources (agent_id : string) (memory_quota cpu_time_quota : option Z)
      (allowed_tools : option (list string)) (caller_agent_id : string)
  | Req_AgentCheckpoint (agent_id : string)
  | Req_SendMessage (from_agent to_agent : string) (payload : Json)
  | Req_ReadMessages (agent_id : string) (unread_only : bool) (limit offset : option Z)
  | Req_AckMessage (agent_id message_id : string)
  | Req_CoreGet (id : string) (variant : option string) (agent_id : string)
  | Req_CoreList (variant : option string) (filter : option Json) (limit offset : option Z)
      (agent_id : string)
  | Req_CoreSearch (query : string) (variant : option string) (filter : option Json)
      (limit : option Z) (agent_id : string)
  | Req_CoreCreate (variant : option string) (data : Json) (tags : list string) (agent_id : string)
  | Req_CoreUpdate (id : string) (variant : option string) (data : Json) (agent_id : string)
  | Req_CoreDelete (id : string) (variant : option string) (agent_id : string)
  | Req_CoreExec (action : string) (params : Json) (agent_id : string)
  | Req_CoreObserve (variant : option string) (agent_id : string)
  | Req_CoreLink (src dst : string) (relation : option string) (weight : option f32)
      (agent_id : string)
  | Req_CoreAsk (query : string) (context_ids : list string) (agent_id : string)
  | Req_CoreState (action : option string) (agent_id : string)
  | Req_GetNode (node_id agent_id : string) (tenant_id : option string)
  | Req_ListEdges (agent_id : string) (tenant_id node_id : option string) (limit offset : option Z)
  | Req_RemoveNode (node_id agent_id : string) (tenant_id : option string)
  | Req_RemoveEdge (src_id dst_id : string) (edge_type : option KGEdgeType) (agent_id : string)
      (tenant_id : option string)
  | Req_UpdateNode (node_id : string) (label : option string) (properties : option Json)
      (agent_id : string) (tenant_id : option string)
  | Req_AgentComplete (agent_id : string)
  | Req_AgentFail (agent_id reason : string)
  | Req_MemoryDeleteEntry (agent_id entry_id : string) (tenant_id : option string)
  | Req_LoadContext (cid layer agent_id : string) (tenant_id : option string)
  | Req_EdgeHistory (src_id dst_id : string) (edge_type : option KGEdgeType) (agent_id : string)
      (tenant_id : option string)
  | Req_EventSubscribe (agent_id : string) (event_types agent_ids : option (list string))
  | Req_EventPoll (subscription_id : string)
  | Req_EventUnsubscribe (subscription_id : string)
  | Req_SystemStatus
  | Req_ContextAssemble (agent_id : string) (cids : list ContextCandidate) (budget_tokens : Z)
  | Req_AgentUsage (agent_id : string)
  | Req_CacheStats
  | Req_CacheInvalidate
  | Req_IntentCacheStats
  | Req_QueryTokenUsage (agent_id : string) (session_id : option string)
  | Req_DeltaSince (agent_id : string) (since_seq : Z) (watch_cids watch_tags : list string)
      (limit : option Z)
  | Req_StartSession (agent_id : string) (agent_token : option string) (last_seen_seq : option Z)
  | Req_EndSession (agent_id session_id : string)
  | Req_DiscoverAgents (state_filter tool_filter : option string) (agent_id : string)
  | Req_DelegateTask (task_id from_agent to_agent intent : string) (context_cids : list string)
      (deadline_ms : option Z)
  | Req_QueryTaskStatus (task_id : string)
  | Req_TaskStart (task_id agent_id : string)
  | Req_TaskComplete (task_id agent_id : string) (result_cids : list string)
  | Req_TaskFail (task_id agent_id reason : string)
  | Req_EventHistory (since_seq : option Z) (agent_id_filter : option string) (limit : option Z)
  | Req_RegisterSkill (agent_id name description : string) (tags : list string)
  | Req_DiscoverSkills (query agent_id_filter tag_filter : option string)
  | Req_DeclareIntent (agent_id intent : string) (related_cids : list string) (budget_tokens : Z)
  | Req_FetchAssembledContext (agent_id assembly_id : string)
  | Req_IntentFeedback (intent_id : string) (used_cids unused_cids : list string)
      (agent_id : string)
  | Req_BatchCreate (items : list BatchCreateItem) (agent_id : string) (tenant_id : option string)
  | Req_BatchMemoryStore (entries : list BatchMemoryEntry) (agent_id : string)
      (tenant_id : option string)
  | Req_BatchSubmitIntent (intents : list IntentSpec) (agent_id : string)
  | Req_BatchQuery (queries : list QuerySpec) (agent_id : string) (tenant_id : option string)
  | Req_KGCausalPath (source_id target_id : string) (max_depth : Z) (agent_id : string)
      (tenant_id : option string)
  | Req_KGImpactAnalysis (node_id : string) (propagation_depth : Z) (agent_id : string)
      (tenant_id : option string)
  | Req_KGTemporalChanges (from_ms to_ms : Z) (agent_id : string) (tenant_id : option string)
  | Req_SwitchLlmModel (backend model : string) (url : option string)
  | Req_CheckModelHealth (model_type : string)
  | Req_QueryGrowthReport (agent_id : string) (period : GrowthPeriod)
  | Req_MemoryStats (agent_id : string) (tier tenant_id : option string)
  | Req_ObjectUsage (cid agent_id : string)
  | Req_StorageStats (agent_id : string)
  | Req_HookList
  | Req_HookRegister (point action : string) (tool_pattern reason : option string)
      (priority : option Z)
  | Req_HealthReport
  | Req_CostSessionSummary (session_id : string)
  | Req_CostAgentTrend (agent_id : string) (last_n_sessions : Z)
  | Req_CostAnomalyCheck (agent_id : string)
  | Req_ListPrompts
  | Req_GetPromptInfo (name : string) (agent_id : option string)
  | Req_SetPromptOverride (name template : string) (variables : list string)
      (agent_id : option string)
  | Req_RemovePromptOverride (name : string) (agent_id : option string)
  | Req_RememberLongTermBatch (agent_id : string) (items : list BatchLongTermItem)
      (tenant_id : option string)
  | Req_TraceList (agent_id since until tool_name status : option string) (limit : option Z)
  | Req_TraceShow (trace_id : string)
  | Req_TraceFailures (agent_id since : option string)
  | Req_ImportFiles (paths : list string) (agent_id : string) (tags : list string)
      (chunking tenant_id : option string).

(** ** Identity and action of a request *)

Definition extract_security_info (req : ApiRequest)
    : option string * option string * option string :=
  match req with
  | Req_Create _ _ _ _ agent_id tenant_id agent_token _ _
  | Req_Read _ agent_id tenant_id agent_token
  | Req_Search _ agent_id tenant_id agent_token _ _ _ _ _ _ _
  | Req_Update _ _ _ _ agent_id tenant_id agent_token
  | Req_Delete _ agent_id tenant_id agent_token => (Some agent_id, agent_token, tenant_id)
  | Req_AddNode _ _ _ agent_id tenant_id | Req_AddEdge _ _ _ _ agent_id tenant_id
  | Req_ListNodes _ agent_id tenant_id _ _ | Req_ListNodesAtTime _ agent_id tenant_id _
  | Req_GetNode _ agent_id tenant_id | Req_ListEdges agent_id tenant_id _ _ _
  | Req_RemoveNode _ agent_id tenant_id | Req_RemoveEdge _ _ _ agent_id tenant_id
  | Req_UpdateNode _ _ _ agent_id tenant_id | Req_EdgeHistory _ _ _ agent_id tenant_id
  | Req_KGCausalPath _ _ _ agent_id tenant_id | Req_KGImpactAnalysis _ _ agent_id tenant_id
  | Req_KGTemporalChanges _ _ agent_id tenant_id | Req_MemoryDeleteEntry agent_id _ tenant_id
  | Req_LoadContext _ _ agent_id tenant_id | Req_BatchCreate _ agent_id tenant_id
  | Req_BatchMemoryStore _ agent_id tenant_id | Req_BatchQuery _ agent_id tenant_id
  | Req_MemoryStats agent_id _ tenant_id | Req_RememberLongTermBatch agent_id _ tenant_id
  | Req_Remember agent_id _ tenant_id | Req_RememberLongTerm agent_id _ _ _ tenant_id
  | Req_ImportFiles _ agent_id _ _ tenant_id => (Some agent_id, None, tenant_id)
  | Req_StartSession agent_id agent_token _ => (Some agent_id, agent_token, None)
  | Req_RegisterAgent name => (Some name, None, None)
  | Req_GrantPermission _ caller_agent_id agent_token _ _ _
  | Req_RevokePermission _ caller_agent_id agent_token _ => (caller_agent_id, agent_token, None)
  | Req_SendMessage from_agent _ _ => (Some from_agent, None, None)
  | Req_DelegateTask _ from_agent _ _ _ _ => (Some from_agent, None, None)
  | Req_AgentSetResources _ _ _ _ caller_agent_id => (Some caller_agent_id, None, None)
  | Req_Recall agent_id _ _ _ | Req_Explore _ _ _ agent_id | Req_ListDeleted agent_id
  | Req_Restore _ agent_id | Req_History _ agent_id | Req_Rollback _ agent_id
  | Req_CreateEvent _ _ _ _ _ _ agent_id | Req_ListEvents _ _ _ _ agent_id _ _
  | Req_ListEventsText _ _ _ agent_id | Req_EventAttach _ _ _ agent_id
  | Req_SubmitIntent _ _ _ agent_id | Req_AgentStatus agent_id | Req_AgentSuspend agent_id
  | Req_AgentResume agent_id | Req_AgentTerminate agent_id | Req_ReadMessages agent_id _ _ _
  | Req_AckMessage agent_id _ | Req_ToolCall _ _ agent_id
  | Req_RememberProcedural agent_id _ _ _ _ _ | Req_RecallProcedural agent_id _
  | Req_AgentCheckpoint agent_id | Req_AgentComplete agent_id | Req_AgentFail agent_id _
  | Req_ContextAssemble agent_id _ _ | Req_AgentUsage agent_id | Req_TaskStart _ agent_id
  | Req_TaskComplete _ agent_id _ | Req_TaskFail _ agent_id _ | Req_EndSession agent_id _
  | Req_RegisterSkill agent_id _ _ _ | Req_DeclareIntent agent_id _ _ _
  | Req_FetchAssembledContext agent_id _ | Req_BatchSubmitIntent _ agent_id
  | Req_QueryGrowthReport agent_id _ | Req_ObjectUsage _ agent_id | Req_StorageStats agent_id
  | Req_EventSubscribe agent_id _ _ | Req_QueryTokenUsage agent_id _
  | Req_CostAgentTrend agent_id _ | Req_CostAnomalyCheck agent_id | Req_CoreGet _ _ agent_id
  | Req_CoreList _ _ _ _ agent_id | Req_CoreSearch _ _ _ _ agent_id
  | Req_CoreCreate _ _ _ agent_id | Req_CoreUpdate _ _ _ agent_id | Req_CoreDelete _ _ agent_id
  | Req_CoreExec _ _ agent_id | Req_CoreObserve _ agent_id | Req_CoreLink _ _ _ _ agent_id
  | Req_CoreAsk _ _ agent_id | Req_CoreState _ agent_id | Req_ListPermissions agent_id
  | Req_CheckPermission agent_id _ => (Some agent_id, None, None)
  | _ => (None, None, None)
  end.

(** [value.get("tool").and_then(Value::as_str)]: only an object has members. *)
Definition json_get (key : string) (value : Json) : option Json :=
  match value with
  | JObject members => snd <$> List.find (fun m => str_eqb (fst m) key) members
  | _ => None
  end.
Definition json_as_str (value : Json) : option string :=
  match value with JString s => Some s | _ => None end.

Definition mutates_permissions (tool : string) : bool :=
  str_mem tool ["permission.grant"; "permission.revoke"].

Definition map_request_to_action (req : ApiRequest) : PermissionAction :=
  match req with
  | Req_Read _ _ _ _ | Req_Recall _ _ _ _ | Req_RecallProcedural _ _ | Req_LoadContext _ _ _ _
  | Req_Search _ _ _ _ _ _ _ _ _ _ _ | Req_History _ _ | Req_ListDeleted _
  | Req_ListEvents _ _ _ _ _ _ _ | Req_ListEventsText _ _ _ _ | Req_ListNodes _ _ _ _ _
  | Req_ListNodesAtTime _ _ _ _ | Req_ListEdges _ _ _ _ _ | Req_GetNode _ _ _
  | Req_FindPaths _ _ _ _ _ _ | Req_EdgeHistory _ _ _ _ _ | Req_KGCausalPath _ _ _ _ _
  | Req_KGImpactAnalysis _ _ _ _ | Req_KGTemporalChanges _ _ _ _ | Req_Explore _ _ _ _
  | Req_ObjectUsage _ _ | Req_StorageStats _ | Req_ReadMessages _ _ _ _ | Req_AgentStatus _
  | Req_AgentUsage _ | Req_QueryTaskStatus _ | Req_QueryTokenUsage _ _
  | Req_QueryGrowthReport _ _ | Req_MemoryStats _ _ _ | Req_FetchAssembledContext _ _
  | Req_BatchQuery _ _ _ | Req_CoreGet _ _ _ | Req_CoreList _ _ _ _ _ | Req_CoreSearch _ _ _ _ _
  | Req_CoreObserve _ _ | Req_CoreAsk _ _ _ => Action_Read
  | Req_Create _ _ _ _ _ _ _ _ _ | Req_Update _ _ _ _ _ _ _ | Req_Restore _ _ | Req_Rollback _ _
  | Req_Remember _ _ _ | Req_RememberLongTerm _ _ _ _ _ | Req_RememberProcedural _ _ _ _ _ _
  | Req_RememberLongTermBatch _ _ _ | Req_AddNode _ _ _ _ _ | Req_AddEdge _ _ _ _ _ _
  | Req_UpdateNode _ _ _ _ _ | Req_CreateEvent _ _ _ _ _ _ _ | Req_EventAttach _ _ _ _
  | Req_SubmitIntent _ _ _ _ | Req_DeclareIntent _ _ _ _ | Req_AckMessage _ _ | Req_TaskStart _ _
  | Req_TaskComplete _ _ _ | Req_BatchCreate _ _ _ | Req_BatchMemoryStore _ _ _
  | Req_BatchSubmitIntent _ _ | Req_ImportFiles _ _ _ _ _ | Req_CoreCreate _ _ _ _
  | Req_CoreUpdate _ _ _ _ | Req_CoreLink _ _ _ _ _ | Req_CoreState _ _ => Action_Write
  | Req_Delete _ _ _ _ | Req_RemoveNode _ _ _ | Req_RemoveEdge _ _ _ _ _
  | Req_MemoryDeleteEntry _ _ _ | Req_CoreDelete _ _ _ => Action_Delete
  | Req_CoreExec action params _ =>
      if str_eqb action "tool_call" &&
         match json_get "tool" params ≫= json_as_str with
         | Some tool => mutates_permissions tool
         | None => false
         end
      then Action_ManagePermissions else Action_Execute
  | Req_ToolCall tool _ _ =>
      if mutates_permissions tool then Action_ManagePermissions else Action_Execute
  | Req_SendMessage _ _ _ | Req_DelegateTask _ _ _ _ _ _ => Action_SendMessage
  | Req_RegisterAgent _ | Req_RegisterSkill _ _ _ _ | Req_StartSession _ _ _ | Req_EndSession _ _
  | Req_AgentSuspend _ | Req_AgentResume _ | Req_AgentTerminate _ | Req_AgentCheckpoint _
  | Req_AgentSetResources _ _ _ _ _ | Req_AgentComplete _ | Req_AgentFail _ _
  | Req_TaskFail _ _ _ => Action_Write
  | Req_GrantPermission _ _ _ _ _ _ | Req_RevokePermission _ _ _ _ => Action_ManagePermissions
  | Req_ListPermissions _ | Req_CheckPermission _ _ => Action_Read
  | _ => Action_Read
  end.

(** ** Routing *)

Inductive HandlerGroup : Type :=
  | Handle_cas | Handle_memory | Handle_agent | Handle_graph | Handle_intent | Handle_events
  | Handle_session | Handle_system | Handle_tools | Handle_messaging | Handle_permission | Handle_model
  | Handle_trace | Handle_storage | Handle_prompt | Handle_import | Handle_core_ops.

Definition route (req : ApiRequest) : HandlerGroup :=
  match req with
  | Req_Create _ _ _ _ _ _ _ _ _ | Req_Read _ _ _ _ | Req_Search _ _ _ _ _ _ _ _ _ _ _
  | Req_Update _ _ _ _ _ _ _ | Req_Delete _ _ _ _ | Req_ListDeleted _ | Req_Restore _ _
  | Req_History _ _ | Req_Rollback _ _ | Req_BatchCreate _ _ _ => Handle_cas
  | Req_Remember _ _ _ | Req_Recall _ _ _ _ | Req_RememberLongTerm _ _ _ _ _
  | Req_RememberProcedural _ _ _ _ _ _ | Req_RecallProcedural _ _ | Req_MemoryDeleteEntry _ _ _
  | Req_LoadContext _ _ _ _ | Req_BatchMemoryStore _ _ _ | Req_MemoryStats _ _ _
  | Req_RememberLongTermBatch _ _ _ => Handle_memory
  | Req_RegisterAgent _ | Req_ListAgents | Req_AgentStatus _ | Req_AgentSuspend _
  | Req_AgentResume _ | Req_AgentTerminate _ | Req_AgentComplete _ | Req_AgentFail _ _
  | Req_AgentSetResources _ _ _ _ _ | Req_AgentCheckpoint _ | Req_AgentUsage _ => Handle_agent
  | Req_Explore _ _ _ _ | Req_AddNode _ _ _ _ _ | Req_AddEdge _ _ _ _ _ _
  | Req_ListNodes _ _ _ _ _ | Req_ListNodesAtTime _ _ _ _ | Req_FindPaths _ _ _ _ _ _
  | Req_GetNode _ _ _ | Req_ListEdges _ _ _ _ _ | Req_RemoveNode _ _ _ | Req_RemoveEdge _ _ _ _ _
  | Req_UpdateNode _ _ _ _ _ | Req_EdgeHistory _ _ _ _ _ | Req_KGCausalPath _ _ _ _ _
  | Req_KGImpactAnalysis _ _ _ _ | Req_KGTemporalChanges _ _ _ _ => Handle_graph
  | Req_SubmitIntent _ _ _ _ | Req_ContextAssemble _ _ _ | Req_DeclareIntent _ _ _ _
  | Req_FetchAssembledContext _ _ | Req_IntentFeedback _ _ _ _ | Req_BatchSubmitIntent _ _
  | Req_BatchQuery _ _ _ => Handle_intent
  | Req_CreateEvent _ _ _ _ _ _ _ | Req_ListEvents _ _ _ _ _ _ _ | Req_ListEventsText _ _ _ _
  | Req_EventAttach _ _ _ _ | Req_EventSubscribe _ _ _ | Req_EventPoll _ | Req_EventUnsubscribe _
  | Req_EventHistory _ _ _ | Req_DeltaSince _ _ _ _ _ => Handle_events
  | Req_StartSession _ _ _ | Req_EndSession _ _ | Req_RegisterSkill _ _ _ _
  | Req_DiscoverSkills _ _ _ => Handle_session
  | Req_SystemStatus | Req_CacheStats | Req_CacheInvalidate | Req_IntentCacheStats
  | Req_QueryTokenUsage _ _ | Req_HealthReport | Req_CostSessionSummary _
  | Req_CostAgentTrend _ _ | Req_CostAnomalyCheck _ | Req_QueryGrowthReport _ _ => Handle_system
  | Req_ToolCall _ _ _ | Req_ToolList _ | Req_ToolDescribe _ _ | Req_HookList
  | Req_HookRegister _ _ _ _ _ => Handle_tools
  | Req_SendMessage _ _ _ | Req_ReadMessages _ _ _ _ | Req_AckMessage _ _
  | Req_DiscoverAgents _ _ _ | Req_DelegateTask _ _ _ _ _ _ | Req_QueryTaskStatus _
  | Req_TaskStart _ _ | Req_TaskComplete _ _ _ | Req_TaskFail _ _ _ => Handle_messaging
  | Req_GrantPermission _ _ _ _ _ _ | Req_RevokePermission _ _ _ _ | Req_ListPermissions _
  | Req_CheckPermission _ _ => Handle_permission
  | Req_SwitchLlmModel _ _ _ | Req_CheckModelHealth _ => Handle_model
  | Req_TraceList _ _ _ _ _ _ | Req_TraceShow _ | Req_TraceFailures _ _ => Handle_trace
  | Req_ObjectUsage _ _ | Req_StorageStats _ => Handle_storage
  | Req_ListPrompts | Req_GetPromptInfo _ _ | Req_SetPromptOverride _ _ _ _
  | Req_RemovePromptOverride _ _ => Handle_prompt
  | Req_ImportFiles _ _ _ _ _ => Handle_import
  | Req_CoreGet _ _ _ | Req_CoreList _ _ _ _ _ | Req_CoreSearch _ _ _ _ _
  | Req_CoreCreate _ _ _ _ | Req_CoreUpdate _ _ _ _ | Req_CoreDelete _ _ _ | Req_CoreExec _ _ _
  | Req_CoreObserve _ _ | Req_CoreLink _ _ _ _ _ | Req_CoreAsk _ _ _ | Req_CoreState _ _ =>
      Handle_core_ops
  end.

Definition api_request_tool_name (req : ApiRequest) : option string :=
  match req with
  | Req_Create _ _ _ _ _ _ _ _ _ => Some "create"
  | Req_Read _ _ _ _ => Some "read"
  | Req_Search _ _ _ _ _ _ _ _ _ _ _ => Some "search"
  | Req_Update _ _ _ _ _ _ _ => Some "update"
  | Req_Delete _ _ _ _ => Some "delete"
  | Req_Remember _ _ _ => Some "remember"
  | Req_Recall _ _ _ _ => Some "recall"
  | Req_RememberLongTerm _ _ _ _ _ => Some "remember_long_term"
  | Req_SubmitIntent _ _ _ _ => Some "submit_intent"
  | Req_ContextAssemble _ _ _ => Some "context_assemble"
  | Req_StartSession _ _ _ => Some "start_session"
  | Req_EndSession _ _ => Some "end_session"
  | Req_RegisterAgent _ => Some "register_agent"
  | Req_SendMessage _ _ _ => Some "send_message"
  | Req_ReadMessages _ _ _ _ => Some "read_messages"
  | _ => None
  end.
