(* ===== verification/Security.v ===== *)
(** * Request security ([src/src/kernel/ops/security.rs])

    Every request is validated before it is routed: the identity it claims, the
    token it carries, the permission it needs.  This file composes the key store
    of [AgentAuth] and the guard of [Permission] into that check, adds the
    permission handler behind it ([src/src/kernel/handlers/permission.rs]) and
    the core verbs ([src/src/kernel/handlers/core_ops.rs]), which rewrite a
    request into one of another handler, and shows what a validated request may
    do. *)

From stdpp Require Import base gmap strings pretty list.
From S2P Require Import Prelude MemoryModel Permission AgentAuth ApiRequest.

Local Open Scope Z_scope.

Record SecurityKernel := mkSecurityKernel {
  sk_keys : AgentKeyStore;
  sk_permissions : PermissionKernel;
}.

Inductive SecurityError : Type :=
  | Reserved_agent (agent_id : string)
  | Mutation_requires_caller
  | Mutation_requires_token (caller : string)
  | Mutation_invalid_token (caller : string)
  | Identity_error (e : TokenError)
  | Anonymous_denied
  | Capability_denied (e : PermissionDenied).

Definition is_register (req : ApiRequest) : bool :=
  match req with Req_RegisterAgent _ => true | _ => false end.

Definition is_status (req : ApiRequest) : bool :=
  match req with Req_SystemStatus | Req_HealthReport => true | _ => false end.

Section security.
Context `{AuthPlatform}.
(** The clocks of the key store (seconds) and of the guard (milliseconds). *)
Variables now_secs now_ms : Z.

Definition validate_security_for_origin (k : SecurityKernel) (req : ApiRequest)
    (trusted_internal_origin : bool) : result SecurityError unit :=
  let '(agent_id, token, tenant_id) := extract_security_info req in
  let action := map_request_to_action req in
  let guard := pk_permissions (sk_permissions k) in
  reject (match agent_id with Some aid => is_trusted guard aid | None => false end
          && negb trusted_internal_origin)
    with Reserved_agent (default "" agent_id);
  (if bool_decide (action = Action_ManagePermissions) then
     caller <-? ok_or agent_id Mutation_requires_caller;
     caller_token <-? ok_or token (Mutation_requires_token caller);
     reject negb (verify_token now_secs (sk_keys k) caller caller_token)
       with Mutation_invalid_token caller;
     Ok tt
   else Ok tt) ?>>
  match agent_id with
  | Some aid =>
      if is_register req then Ok tt
      else map_err Identity_error (verify_agent_token now_secs (sk_keys k) aid token)
  | None =>
      if requires_token (sk_keys k)
      then if is_status req then Ok tt else Err Anonymous_denied
      else Ok tt
  end ?>>
  match agent_id with
  | Some aid =>
      map_err Capability_denied
        (check now_ms guard (context_new aid (default DEFAULT_TENANT tenant_id)) action)
  | None => Ok tt
  end.

Definition validate_security (k : SecurityKernel) (req : ApiRequest) : result SecurityError unit :=
  validate_security_for_origin k req false.

(** ** The permission handler *)

(** The payload of a response; [PR_panic] is the handler's [unreachable!]. *)
Inductive PermissionResponse : Type :=
  | PR_ok
  | PR_unknown_action (action : string)
  | PR_grants (grants : list PermissionGrant)
  | PR_allowed (allowed : bool)
  | PR_refused (e : SecurityError)
  | PR_panic.

Variable grants_to_string : gmap string (list PermissionGrant) -> option string.

Definition handle_permission (io : PermissionIo) (k : PermissionKernel) (req : ApiRequest)
    : PermissionResponse * PermissionKernel :=
  match req with
  | Req_GrantPermission agent_id _ _ action scope expires_at =>
      match parse_action action with
      | Some act => (PR_ok, permission_grant grants_to_string io k agent_id act scope expires_at)
      | None => (PR_unknown_action action, k)
      end
  | Req_RevokePermission agent_id _ _ action =>
      match parse_action action with
      | Some act => (PR_ok, permission_revoke grants_to_string io k agent_id act)
      | None => (PR_unknown_action action, k)
      end
  | Req_ListPermissions agent_id => (PR_grants (permission_list k agent_id), k)
  | Req_CheckPermission agent_id action =>
      match parse_action action with
      | Some act => (PR_allowed (is_ok (permission_check now_ms k agent_id act)), k)
      | None => (PR_unknown_action action, k)
      end
  | _ => (PR_panic, k)
  end.

(** Validation, then the handler. *)
Definition permission_request (io : PermissionIo) (origin : bool) (k : SecurityKernel)
    (req : ApiRequest) : PermissionResponse * SecurityKernel :=
  match validate_security_for_origin k req origin with
  | Err e => (PR_refused e, k)
  | Ok _ =>
      let '(r, pk) := handle_permission io (sk_permissions k) req in
      (r, mkSecurityKernel (sk_keys k) pk)
  end.
End security.

(** ** Which requests a handler accepts

    The arms of each handler, before its [unreachable!]. *)

Definition cas_handles (req : ApiRequest) : bool :=
  match req with
  | Req_Create _ _ _ _ _ _ _ _ _ | Req_Read _ _ _ _ | Req_Search _ _ _ _ _ _ _ _ _ _ _
  | Req_Update _ _ _ _ _ _ _ | Req_Delete _ _ _ _ | Req_ListDeleted _ | Req_Restore _ _
  | Req_History _ _ | Req_Rollback _ _ | Req_BatchCreate _ _ _ => true
  | _ => false
  end.

Definition memory_handles (req : ApiRequest) : bool :=
  match req with
  | Req_Remember _ _ _ | Req_Recall _ _ _ _ | Req_RememberLongTerm _ _ _ _ _
  | Req_RememberLongTermBatch _ _ _ | Req_RememberProcedural _ _ _ _ _ _
  | Req_RecallProcedural _ _ | Req_MemoryDeleteEntry _ _ _ | Req_LoadContext _ _ _ _
  | Req_BatchMemoryStore _ _ _ | Req_MemoryStats _ _ _ => true
  | _ => false
  end.

Definition agent_handles (req : ApiRequest) : bool :=
  match req with
  | Req_RegisterAgent _ | Req_ListAgents | Req_AgentStatus _ | Req_AgentSuspend _
  | Req_AgentResume _ | Req_AgentTerminate _ | Req_AgentComplete _ | Req_AgentFail _ _
  | Req_AgentSetResources _ _ _ _ _ | Req_AgentCheckpoint _ | Req_AgentUsage _ => true
  | _ => false
  end.

Definition graph_handles (req : ApiRequest) : bool :=
  match req with
  | Req_Explore _ _ _ _ | Req_AddNode _ _ _ _ _ | Req_AddEdge _ _ _ _ _ _
  | Req_ListNodes _ _ _ _ _ | Req_ListNodesAtTime _ _ _ _ | Req_FindPaths _ _ _ _ _ _
  | Req_GetNode _ _ _ | Req_ListEdges _ _ _ _ _ | Req_RemoveNode _ _ _ | Req_RemoveEdge _ _ _ _ _
  | Req_UpdateNode _ _ _ _ _ | Req_EdgeHistory _ _ _ _ _ | Req_KGCausalPath _ _ _ _ _
  | Req_KGImpactAnalysis _ _ _ _ | Req_KGTemporalChanges _ _ _ _ => true
  | _ => false
  end.

Definition intent_handles (req : ApiRequest) : bool :=
  match req with
  | Req_SubmitIntent _ _ _ _ | Req_ContextAssemble _ _ _ | Req_DeclareIntent _ _ _ _
  | Req_FetchAssembledContext _ _ | Req_IntentFeedback _ _ _ _ | Req_BatchSubmitIntent _ _
  | Req_BatchQuery _ _ _ => true
  | _ => false
  end.

Definition events_handles (req : ApiRequest) : bool :=
  match req with
  | Req_CreateEvent _ _ _ _ _ _ _ | Req_ListEvents _ _ _ _ _ _ _ | Req_ListEventsText _ _ _ _
  | Req_EventAttach _ _ _ _ | Req_EventSubscribe _ _ _ | Req_EventPoll _ | Req_EventUnsubscribe _
  | Req_EventHistory _ _ _ | Req_DeltaSince _ _ _ _ _ => true
  | _ => false
  end.

Definition session_handles (req : ApiRequest) : bool :=
  match req with
  | Req_StartSession _ _ _ | Req_EndSession _ _ | Req_RegisterSkill _ _ _ _
  | Req_DiscoverSkills _ _ _ => true
  | _ => false
  end.

Definition system_handles (req : ApiRequest) : bool :=
  match req with
  | Req_SystemStatus | Req_CacheStats | Req_CacheInvalidate | Req_IntentCacheStats
  | Req_QueryTokenUsage _ _ | Req_HealthReport | Req_CostSessionSummary _
  | Req_CostAgentTrend _ _ | Req_CostAnomalyCheck _ | Req_QueryGrowthReport _ _ => true
  | _ => false
  end.

Definition tools_handles (req : ApiRequest) : bool :=
  match req with
  | Req_ToolCall _ _ _ | Req_ToolList _ | Req_ToolDescribe _ _ | Req_HookList
  | Req_HookRegister _ _ _ _ _ => true
  | _ => false
  end.

Definition messaging_handles (req : ApiRequest) : bool :=
  match req with
  | Req_SendMessage _ _ _ | Req_ReadMessages _ _ _ _ | Req_AckMessage _ _
  | Req_DiscoverAgents _ _ _ | Req_DelegateTask _ _ _ _ _ _ | Req_QueryTaskStatus _
  | Req_TaskStart _ _ | Req_TaskComplete _ _ _ | Req_TaskFail _ _ _ => true
  | _ => false
  end.

Definition permission_handles (req : ApiRequest) : bool :=
  match req with
  | Req_GrantPermission _ _ _ _ _ _ | Req_RevokePermission _ _ _ _ | Req_ListPermissions _
  | Req_CheckPermission _ _ => true
  | _ => false
  end.

Definition model_handles (req : ApiRequest) : bool :=
  match req with
  | Req_SwitchLlmModel _ _ _ | Req_CheckModelHealth _ => true
  | _ => false
  end.

Definition storage_handles (req : ApiRequest) : bool :=
  match req with
  | Req_ObjectUsage _ _ | Req_StorageStats _ => true
  | _ => false
  end.

Definition core_ops_handles (req : ApiRequest) : bool :=
  match req with
  | Req_CoreGet _ _ _ | Req_CoreList _ _ _ _ _ | Req_CoreSearch _ _ _ _ _
  | Req_CoreCreate _ _ _ _ | Req_CoreUpdate _ _ _ _ | Req_CoreDelete _ _ _ | Req_CoreExec _ _ _
  | Req_CoreObserve _ _ | Req_CoreLink _ _ _ _ _ | Req_CoreAsk _ _ _ | Req_CoreState _ _ => true
  | _ => false
  end.

(** Whether the handler has an arm for the request; [handle_import],
    [handle_trace] and [handle_prompt] answer any other request with an error. *)
Definition handles (g : HandlerGroup) (req : ApiRequest) : bool :=
  match g with
  | Handle_cas => cas_handles req
  | Handle_memory => memory_handles req
  | Handle_agent => agent_handles req
  | Handle_graph => graph_handles req
  | Handle_intent => intent_handles req
  | Handle_events => events_handles req
  | Handle_session => session_handles req
  | Handle_system => system_handles req
  | Handle_tools => tools_handles req
  | Handle_messaging => messaging_handles req
  | Handle_permission => permission_handles req
  | Handle_model => model_handles req
  | Handle_storage => storage_handles req
  | Handle_core_ops => core_ops_handles req
  | Handle_import | Handle_trace | Handle_prompt => true
  end.

(** ** The core verbs *)

(** What a core verb does: call another handler with a request of that
    handler's kind, answer itself, or refuse the variant. *)
Inductive CoreOutcome : Type :=
  | Core_call (g : HandlerGroup) (req : ApiRequest)
  | Core_answer
  | Core_unsupported (variant : string).

(** [start..end] of the listing of stored objects, whose sum wraps in a release
    build; a slice that ends before it starts panics. *)
Inductive CoreWindow : Type := Window_empty | Window_slice (start stop : Z) | Window_panic.

Definition core_list_window (offset limit : option Z) (len : Z) : CoreWindow :=
  let start := default 0 offset in
  let limit := default 100 limit in
  let stop := Z.min (u64_add start limit) len in
  if start <? len then if stop <? start then Window_panic else Window_slice start stop
  else Window_empty.

Section core.
(** [Value::to_string] *)
Variable json_to_string : Json -> string.

Definition core_get (id : string) (variant : option string) (agent_id : string) : CoreOutcome :=
  let v := default "object" variant in
  if str_mem v ["object"; "cas"] then Core_call Handle_cas (Req_Read id agent_id None None)
  else if str_mem v ["node"; "graph"] then Core_call Handle_graph (Req_GetNode id agent_id None)
  else if str_eqb v "task" then Core_call Handle_agent (Req_AgentStatus id)
  else if str_eqb v "event" then
    Core_call Handle_events (Req_ListEvents None None ["id:" +:+ id] None agent_id (Some 1) None)
  else Core_unsupported v.

Definition core_list (variant : option string) (limit offset : option Z) (agent_id : string)
    : CoreOutcome :=
  let v := default "object" variant in
  if str_mem v ["object"; "cas"] then Core_answer
  else if str_eqb v "agent" then Core_call Handle_agent Req_ListAgents
  else if str_mem v ["node"; "graph"] then
    Core_call Handle_graph (Req_ListNodes None agent_id None limit offset)
  else if str_eqb v "edge" then
    Core_call Handle_graph (Req_ListEdges agent_id None None limit offset)
  else if str_eqb v "event" then
    Core_call Handle_events (Req_ListEvents None None [] None agent_id limit offset)
  else Core_unsupported v.

Definition core_search (query : string) (variant : option string) (limit : option Z)
    (agent_id : string) : CoreOutcome :=
  let v := default "semantic" variant in
  let search ctx := Req_Search query agent_id None None limit None [] [] None None ctx in
  if str_mem v ["semantic"; "unified"] then Core_call Handle_cas (search None)
  else if str_eqb v "graph" then Core_call Handle_graph (Req_Explore query None (Some 1) agent_id)
  else if str_eqb v "keyword" then Core_call Handle_cas (search (Some "keyword"))
  else Core_unsupported v.

Definition core_text (data : Json) : string := default (json_to_string data) (json_as_str data).

Definition core_create (variant : option string) (data : Json) (tags : list string)
    (agent_id : string) : CoreOutcome :=
  let v := default "object" variant in
  if str_mem v ["object"; "cas"] then
    Core_call Handle_cas (Req_Create None (core_text data) Utf8 tags agent_id None None None None)
  else Core_unsupported v.

Definition core_update (id : string) (variant : option string) (data : Json) (agent_id : string)
    : CoreOutcome :=
  let v := default "object" variant in
  if str_mem v ["object"; "cas"] then
    Core_call Handle_cas (Req_Update id (core_text data) Utf8 None agent_id None None)
  else Core_unsupported v.

Definition core_delete (id : string) (variant : option string) (agent_id : string) : CoreOutcome :=
  let v := default "object" variant in
  if str_mem v ["object"; "cas"] then Core_call Handle_cas (Req_Delete id agent_id None None)
  else if str_mem v ["node"; "graph"] then Core_call Handle_graph (Req_RemoveNode id agent_id None)
  else Core_unsupported v.

(** The tool it calls; what it records about the call is not part of the model. *)
Definition core_exec (action : string) (params : Json) (agent_id : string) : CoreOutcome :=
  if str_eqb action "tool_call" then
    Core_call Handle_tools
      (Req_ToolCall (default "" (json_get "tool" params ≫= json_as_str))
         (default JNull (json_get "params" params)) agent_id)
  else if str_eqb action "retry_diagnostic" then Core_answer
  else Core_unsupported action.

Definition core_observe (variant : option string) (agent_id : string) : CoreOutcome :=
  let v := default "metrics" variant in
  if str_eqb v "audit" then Core_call Handle_system (Req_QueryGrowthReport agent_id Last7Days)
  else if str_eqb v "metrics" then Core_call Handle_system (Req_AgentUsage agent_id)
  else if str_eqb v "diagnostic" then Core_answer
  else if str_mem v ["storage"; "index"] then Core_answer
  else Core_unsupported v.

Definition core_edge_type (relation : option string) : KGEdgeType :=
  match relation with
  | Some r => if str_eqb r "supersedes" then Edge_Supersedes
              else if str_eqb r "caused_by" then Edge_CausedBy else Edge_RelatedTo
  | None => Edge_RelatedTo
  end.

Definition core_link (src dst : string) (relation : option string) (weight : option Float32.f32)
    (agent_id : string) : CoreOutcome :=
  Core_call Handle_graph (Req_AddEdge src dst (core_edge_type relation) weight agent_id None).

Definition core_ask (query agent_id : string) : CoreOutcome :=
  Core_call Handle_memory (Req_Recall agent_id (Some query) (Some 5) None).

Definition core_state (action : option string) (agent_id : string) : CoreOutcome :=
  let a := default "status" action in
  if str_eqb a "status" then Core_call Handle_agent (Req_AgentStatus agent_id)
  else if str_eqb a "checkpoint" then Core_call Handle_agent (Req_AgentCheckpoint agent_id)
  else if str_eqb a "suspend" then Core_call Handle_agent (Req_AgentSuspend agent_id)
  else if str_eqb a "resume" then Core_call Handle_agent (Req_AgentResume agent_id)
  else if str_mem a ["flush"; "flush_cognitive_pipeline"] then Core_answer
  else Core_unsupported a.

(** [None] is the [unreachable!] of a request that is no core verb. *)
Definition handle_core_ops (req : ApiRequest) : option CoreOutcome :=
  match req with
  | Req_CoreGet id variant agent_id => Some (core_get id variant agent_id)
  | Req_CoreList variant _ limit offset agent_id => Some (core_list variant limit offset agent_id)
  | Req_CoreSearch query variant _ limit agent_id => Some (core_search query variant limit agent_id)
  | Req_CoreCreate variant data tags agent_id => Some (core_create variant data tags agent_id)
  | Req_CoreUpdate id variant data agent_id => Some (core_update id variant data agent_id)
  | Req_CoreDelete id variant agent_id => Some (core_delete id variant agent_id)
  | Req_CoreExec action params agent_id => Some (core_exec action params agent_id)
  | Req_CoreObserve variant agent_id => Some (core_observe variant agent_id)
  | Req_CoreLink src dst relation weight agent_id => Some (core_link src dst relation weight agent_id)
  | Req_CoreAsk query _ agent_id => Some (core_ask query agent_id)
  | Req_CoreState action agent_id => Some (core_state action agent_id)
  | _ => None
  end.
End core.
