(* ===== verification/SecurityProps.v ===== *)
(** * What a validated request may do

    Theorems about [Security]: the requests the Required mode admits, who can
    change permissions, and that the core verbs call nothing their caller could
    not call directly. *)

From stdpp Require Import base gmap strings pretty list.
From S2P Require Import Prelude MemoryModel Permission AgentAuth ApiRequest Security.

Local Open Scope Z_scope.

Definition caller (req : ApiRequest) : option string := fst (fst (extract_security_info req)).
Definition carried_token (req : ApiRequest) : option string := snd (fst (extract_security_info req)).

Section security.
Context `{AuthPlatform}.
Variables now_secs now_ms : Z.

Notation validate := (validate_security_for_origin now_secs now_ms).
Notation verified k a t := (verify_token now_secs (sk_keys k) a t = true).

(** ** The four checks, in order *)

Lemma validate_identity k req origin :
  validate k req origin = Ok tt ->
  match caller req with
  | Some a =>
      (is_trusted (pk_permissions (sk_permissions k)) a = true -> origin = true) /\
      (is_register req = false ->
       match carried_token req with
       | Some t => verified k a t
       | None => ks_mode (sk_keys k) = Mode_Optional
       end)
  | None => ks_mode (sk_keys k) = Mode_Required -> is_status req = true
  end.
Proof.
  unfold validate_security_for_origin, caller, carried_token.
  destruct (extract_security_info req) as [[aid tok] ten]. cbn [fst snd].
  destruct aid as [a|]; cbn.
  - destruct (is_trusted _ a && negb origin) eqn:T; [done|]. intros V. split.
    { intros TR. rewrite TR in T. by destruct origin. }
    intros NR. rewrite NR in V.
    assert (M : map_err Identity_error (verify_agent_token now_secs (sk_keys k) a tok) = Ok tt).
    { destruct (map_err Identity_error _) as [[]|]; [done|]. exfalso. ok_inv V. }
    unfold verify_agent_token in M. destruct tok as [t|].
    + destruct (ks_mode _), (verify_token now_secs (sk_keys k) a t); done.
    + by destruct (ks_mode _).
  - intros V R. destruct (bool_decide _); [done|].
    unfold requires_token in V. rewrite R in V. by destruct (is_status req).
Qed.

Lemma validate_capability k req origin a :
  validate k req origin = Ok tt -> caller req = Some a ->
  exists ten, check now_ms (pk_permissions (sk_permissions k)) (context_new a ten)
                (map_request_to_action req) = Ok tt.
Proof.
  unfold validate_security_for_origin, caller.
  destruct (extract_security_info req) as [[aid tok] ten]. cbn [fst snd]. intros V ->.
  exists (default DEFAULT_TENANT ten). cbn in V. ok_inv V; by destruct (check _ _ _ _) as [[]|].
Qed.

Lemma validate_mutation k req origin :
  validate k req origin = Ok tt -> map_request_to_action req = Action_ManagePermissions ->
  exists a t, caller req = Some a /\ carried_token req = Some t /\ verified k a t.
Proof.
  unfold validate_security_for_origin, caller, carried_token. intros V M.
  destruct (extract_security_info req) as [[aid tok] ten]. cbn [fst snd]. rewrite M in V.
  destruct aid as [a|]; [|done]. destruct tok as [t|]; [|cbn in V; ok_inv V].
  exists a, t. split_and!; [done..|]. cbn in V. destruct (_ && _); [done|].
  by destruct (verify_token now_secs (sk_keys k) a t).
Qed.

(** ** The Required mode *)

(** In the Required mode, whatever its origin, a request is validated only
    if it belongs to one of the eight kinds that carry a token and its token
    verifies for the agent it names, or if it registers an agent or asks for
    the system's status or health.  Every other kind, the core verbs and the
    tool calls among them, is refused whoever sends it. *)
Lemma required_mode_admits (k : SecurityKernel) (req : ApiRequest) (origin : bool) :
  ks_mode (sk_keys k) = Mode_Required ->
  validate_security_for_origin now_secs now_ms k req origin = Ok tt ->
  match req with
  | Req_Create _ _ _ _ a _ tok _ _ | Req_Read _ a _ tok | Req_Search _ a _ tok _ _ _ _ _ _ _
  | Req_Update _ _ _ _ a _ tok | Req_Delete _ a _ tok | Req_StartSession a tok _ =>
      exists t, tok = Some t /\ verify_token now_secs (sk_keys k) a t = true
  | Req_GrantPermission _ c tok _ _ _ | Req_RevokePermission _ c tok _ =>
      exists a t, c = Some a /\ tok = Some t /\ verify_token now_secs (sk_keys k) a t = true
  | Req_RegisterAgent _ | Req_SystemStatus | Req_HealthReport => True
  | _ => False
  end.
Proof.
  intros R V. pose proof (validate_identity k req origin V) as I.
  assert (NM : map_request_to_action req = Action_ManagePermissions ->
    exists a t, caller req = Some a /\ carried_token req = Some t /\ verified k a t)
    by (intros M; exact (validate_mutation k req origin V M)).
  destruct req; cbn in I |- *; try done;
    try (destruct I as [_ I]; specialize (I eq_refl); congruence);
    try (specialize (I R); done);
    try (destruct agent_token as [t|]; destruct I as [_ I]; specialize (I eq_refl);
         [exists t; by split|congruence]);
    destruct (NM eq_refl) as (a & t & ? & ? & ?); by exists a, t.
Qed.

(** ** Who changes permissions *)

(** A grant of the agent allows permission changes at [now_ms]. *)
Definition manages (guard : PermissionGuard) (a : string) : Prop :=
  exists g, g ∈ list_grants guard a /\ allows now_ms g Action_ManagePermissions None.

Lemma check_manage guard a ten :
  check now_ms guard (context_new a ten) Action_ManagePermissions = Ok tt ->
  is_trusted guard a = true \/ manages guard a.
Proof.
  unfold check. cbn [pc_agent_id pc_embedded_grants context_new].
  destruct (is_trusted guard a); [by left|]. cbn.
  destruct (guard_grants guard !! a) as [gs|] eqn:G; [|done].
  destruct (existsb _ gs) eqn:E; [|done]. intros _. right.
  apply existsb_spec in E as (g & M & C). exists g. split.
  - unfold list_grants. by rewrite G.
  - by apply covers_scoped_spec.
Qed.

Variable grants_to_string : gmap string (list PermissionGrant) -> option string.

Lemma handle_permission_queries io k req :
  map_request_to_action req <> Action_ManagePermissions ->
  snd (handle_permission now_ms grants_to_string io k req) = k.
Proof. intros N. destruct req; try done; cbn. by destruct (parse_action action). Qed.

(** A request that changes the permissions carries the verified token of a
    caller that holds a grant to manage them, or of a reserved name used by the
    kernel itself. *)
Lemma permission_change_authorized io origin k req :
  sk_permissions (snd (permission_request now_secs now_ms grants_to_string io origin k req))
    = sk_permissions k \/
  exists a t, caller req = Some a /\ carried_token req = Some t /\ verified k a t /\
    (origin = true \/ manages (pk_permissions (sk_permissions k)) a).
Proof.
  unfold permission_request. destruct (validate k req origin) as [[]|e] eqn:V; [|by left].
  destruct (decide (map_request_to_action req = Action_ManagePermissions)) as [M|M].
  - right. destruct (validate_mutation k req origin V M) as (a & t & C & T & VF).
    exists a, t. split_and!; [done..|]. destruct origin; [by left|right].
    pose proof (validate_identity k req false V) as I. rewrite C in I. destruct I as [I _].
    destruct (validate_capability k req false a V C) as [ten K]. rewrite M in K.
    destruct (check_manage _ _ _ K) as [TR|MG]; [|done]. by specialize (I TR).
  - left. pose proof (handle_permission_queries io (sk_permissions k) req M) as Q.
    destruct (handle_permission _ _ _ _ req). exact Q.
Qed.

Lemma permission_request_keys io origin k req :
  sk_keys (snd (permission_request now_secs now_ms grants_to_string io origin k req)) = sk_keys k.
Proof.
  unfold permission_request. destruct (validate k req origin); [|done].
  by destruct (handle_permission _ _ _ _ req).
Qed.

(** ** The core verbs *)

Lemma validate_plain k req origin a :
  extract_security_info req = (Some a, None, None) -> is_register req = false ->
  validate k req origin = Ok tt <->
  (is_trusted (pk_permissions (sk_permissions k)) a && negb origin) = false /\
  map_request_to_action req <> Action_ManagePermissions /\
  ks_mode (sk_keys k) = Mode_Optional /\
  check now_ms (pk_permissions (sk_permissions k)) (context_new a DEFAULT_TENANT)
    (map_request_to_action req) = Ok tt.
Proof.
  intros E R. unfold validate_security_for_origin. rewrite E, R. cbn.
  destruct (is_trusted _ a && negb origin); [naive_solver|].
  case_bool_decide as M; [naive_solver|]. unfold verify_agent_token.
  destruct (ks_mode (sk_keys k)); [|naive_solver]. cbn.
  destruct (check _ _ _ _) as [[]|]; naive_solver.
Qed.

Lemma validate_plain_weaker k req req' origin a :
  extract_security_info req = (Some a, None, None) -> is_register req = false ->
  extract_security_info req' = (Some a, None, None) -> is_register req' = false ->
  map_request_to_action req' = map_request_to_action req \/ map_request_to_action req' = Action_Read ->
  validate k req origin = Ok tt -> validate k req' origin = Ok tt.
Proof.
  intros E R E' R' M V. apply (validate_plain k req origin a E R) in V as (T & N & O & C).
  apply (validate_plain k req' origin a E' R'). split_and!; [done| |done|].
  - destruct M as [-> | ->]; done.
  - destruct M as [-> | ->]; [done|]. unfold check. repeat (case_match; try done).
Qed.

Lemma validate_anonymous k req origin :
  extract_security_info req = (None, None, None) ->
  map_request_to_action req <> Action_ManagePermissions ->
  ks_mode (sk_keys k) = Mode_Optional -> validate k req origin = Ok tt.
Proof.
  intros E M O. unfold validate_security_for_origin. rewrite E. cbn.
  rewrite bool_decide_false by done. unfold requires_token. by rewrite O.
Qed.

Lemma core_exec_action action params a :
  str_eqb action "tool_call" = true ->
  map_request_to_action (Req_ToolCall (default "" (json_get "tool" params ≫= json_as_str))
                           (default JNull (json_get "params" params)) a) =
  map_request_to_action (Req_CoreExec action params a).
Proof. intros E. cbn. rewrite E. by destruct (json_get "tool" params ≫= json_as_str). Qed.

(** The verb and the call it makes, with what each needs. *)
Definition calls_within (req : ApiRequest) (g : HandlerGroup) (req' : ApiRequest) : Prop :=
  is_register req = false /\ is_register req' = false /\
  (exists a, extract_security_info req = (Some a, None, None) /\
     (extract_security_info req' = (Some a, None, None) \/ req' = Req_ListAgents \/
      exists id, req = Req_CoreGet id (Some "task") a /\ req' = Req_AgentStatus id)) /\
  (map_request_to_action req' = map_request_to_action req \/ map_request_to_action req' = Action_Read) /\
  (handles g req' = true \/
   exists v a, req = Req_CoreObserve v a /\ default "metrics" v = "metrics").

Ltac core_call_cases :=
  repeat match goal with
  | |- context [if ?b then _ else _] => destruct b eqn:?
  end; intros [= <- <-].

Ltac core_call_done :=
  unfold calls_within; split_and!; [done|done|eexists; split; [reflexivity|auto]|auto|auto].

Lemma core_get_within id variant a g req' :
  core_get id variant a = Core_call g req' -> calls_within (Req_CoreGet id variant a) g req'.
Proof.
  unfold core_get. core_call_cases; core_call_done. right. right. exists id.
  destruct variant as [v|]; [|done]. split; [|done].
  repeat f_equal. by apply (bool_decide_eq_true_1 (v = "task")).
Qed.

Lemma core_observe_within variant a g req' :
  core_observe variant a = Core_call g req' -> calls_within (Req_CoreObserve variant a) g req'.
Proof.
  unfold core_observe. core_call_cases; [core_call_done|].
  unfold calls_within. split_and!; [done|done|eexists; split; [reflexivity|auto]|auto|].
  right. exists variant, a. split; [done|]. by apply (bool_decide_eq_true_1 _).
Qed.

Lemma core_exec_within action params a g req' :
  core_exec action params a = Core_call g req' -> calls_within (Req_CoreExec action params a) g req'.
Proof.
  unfold core_exec. destruct (str_eqb action "tool_call") eqn:E;
    [|destruct (str_eqb action "retry_diagnostic"); discriminate].
  intros [= <- <-]. unfold calls_within. split_and!; [done|done|eexists; split; [reflexivity|auto]| |by left].
  left. by apply core_exec_action.
Qed.

Lemma core_call_within j2s req g req' :
  handle_core_ops j2s req = Some (Core_call g req') -> calls_within req g req'.
Proof.
  destruct req; try done; intros E; apply (inj Some) in E; revert E.
  - apply core_get_within.
  - unfold core_list. core_call_cases; core_call_done.
  - unfold core_search. core_call_cases; core_call_done.
  - unfold core_create. core_call_cases; core_call_done.
  - unfold core_update. core_call_cases; core_call_done.
  - unfold core_delete. core_call_cases; core_call_done.
  - apply core_exec_within.
  - apply core_observe_within.
  - unfold core_link. core_call_cases; core_call_done.
  - unfold core_ask. core_call_cases; core_call_done.
  - unfold core_state. core_call_cases; core_call_done.
Qed.

(** C24: The core verbs cannot be used to reach around the check.  When a
    validated request is a core verb that calls another handler, the request it
    calls that handler with is itself validated, with the same origin; the one
    exception is a status query for a named agent.  The handler it calls has an
    arm for that request, except that observing the metrics, which is what
    observing without a variant means, calls a handler that has none. *)
Theorem core_verbs_stay_within j2s (k : SecurityKernel) (req req' : ApiRequest) (g : HandlerGroup)
    (origin : bool) :
  validate_security_for_origin now_secs now_ms k req origin = Ok tt ->
  handle_core_ops j2s req = Some (Core_call g req') ->
  (validate_security_for_origin now_secs now_ms k req' origin = Ok tt \/
   exists id a, req = Req_CoreGet id (Some "task") a /\ req' = Req_AgentStatus id) /\
  (handles g req' = true <->
   forall v a, req = Req_CoreObserve v a -> default "metrics" v <> "metrics").
Proof.
  intros V C. destruct (core_call_within j2s req g req' C) as (R & R' & (a & E & E') & M & HD).
  split.
  - destruct E' as [E'|[-> |(id & -> & ->)]]; [left|left|right; by exists id, a].
    + exact (validate_plain_weaker k req req' origin a E R E' R' M V).
    + apply validate_anonymous; [done|done|].
      by apply (validate_plain k req origin a E R) in V as (_ & _ & O & _).
  - split; [|by destruct HD as [?|(v & b & -> & D)]; [|intros N; destruct (N v b eq_refl D)]].
    intros HT v b -> D. cbn in C. unfold core_observe in C. rewrite D in C. cbn in C.
    by injection C as <- <-.
Qed.
End security.

(** Every request is routed to a handler that has an arm for it. *)
Lemma routing_total req : handles (route req) req = true.
Proof. by destruct req. Qed.

(** ** Histories of external permission requests *)

Section histories.
Context `{AuthPlatform}.
Variable grants_to_string : gmap string (list PermissionGrant) -> option string.

(** A request with the clocks and the file outcomes of its handling. *)
Record ExternalCall := mkExternal {
  ec_secs : Z;
  ec_ms : Z;
  ec_io : PermissionIo;
  ec_req : ApiRequest;
}.

Definition external_call (k : SecurityKernel) (c : ExternalCall) : SecurityKernel :=
  snd (permission_request (ec_secs c) (ec_ms c) grants_to_string (ec_io c) false k (ec_req c)).

(** No agent holds a grant to manage permissions, or to do everything. *)
Definition no_manager (guard : PermissionGuard) : Prop :=
  forall a g, g ∈ list_grants guard a ->
    pg_action g <> Action_ManagePermissions /\ pg_action g <> Action_All.

Lemma no_manager_manages now guard a : no_manager guard -> ~ manages now guard a.
Proof. intros N (g & M & _ & A & _). destruct (N a g M). by destruct A. Qed.

Lemma external_call_without_manager k c :
  no_manager (pk_permissions (sk_permissions k)) -> external_call k c = k.
Proof.
  intros N. unfold external_call. destruct c as [secs ms io req]. cbn.
  pose proof (permission_request_keys secs ms grants_to_string io false k req) as K.
  destruct (permission_change_authorized secs ms grants_to_string io false k req)
    as [P|(a & t & _ & _ & _ & [O|M])]; [|done|by apply (no_manager_manages ms _ a) in N].
  destruct k as [keys perms], (snd (permission_request _ _ _ _ _ _ _)) as [keys' perms'].
  cbn in K, P. by subst.
Qed.

(** C23: Nobody grants itself authority.  While no agent holds a grant to manage
    permissions, no sequence of external requests to the permission handler
    changes the permissions or their file, whatever identities and tokens the
    requests claim, and whatever the clock and the file system do; and every
    request to grant or to revoke is refused by the check before it. *)
Theorem no_self_granted_authority (k : SecurityKernel) (calls : list ExternalCall) :
  no_manager (pk_permissions (sk_permissions k)) ->
  foldl external_call k calls = k /\
  forall secs ms req, map_request_to_action req = Action_ManagePermissions ->
    is_ok (validate_security secs ms (foldl external_call k calls) req) = false.
Proof.
  intros N. assert (R : foldl external_call k calls = k).
  { induction calls as [|c calls IH]; [done|]. cbn.
    by rewrite (external_call_without_manager k c N). }
  split; [exact R|]. rewrite R. intros secs ms req M. unfold validate_security.
  destruct (validate_security_for_origin secs ms k req false) as [[]|] eqn:V; [exfalso|done].
  destruct (validate_mutation secs ms k req false V M) as (a & _ & C & _).
  destruct (validate_capability secs ms k req false a V C) as [ten K]. rewrite M in K.
  destruct (check_manage ms _ a ten K) as [T|G]; [|by apply (no_manager_manages ms _ a) in N].
  pose proof (validate_identity secs ms k req false V) as I. rewrite C in I.
  destruct I as [I _]. by specialize (I T).
Qed.

(** Permission changes as a tool call or a core verb carry no token, so they
    are refused even of a caller that may manage permissions. *)
Lemma tool_mutation_refused secs ms k tool params a origin :
  mutates_permissions tool = true ->
  is_ok (validate_security_for_origin secs ms k (Req_ToolCall tool params a) origin) = false.
Proof.
  intros M. destruct (validate_security_for_origin _ _ _ _ _) as [[]|] eqn:V; [exfalso|done].
  destruct (validate_mutation secs ms k _ origin V) as (? & t & _ & T & _); [cbn; by rewrite M|done].
Qed.

(** Requests that name no agent are not checked in the Optional mode, those
    that switch models, change prompts, register hooks or drop caches among
    them. *)
Lemma anonymous_changes_unchecked secs ms k req :
  ks_mode (sk_keys k) = Mode_Optional ->
  match req with
  | Req_SwitchLlmModel _ _ _ | Req_SetPromptOverride _ _ _ _ | Req_RemovePromptOverride _ _
  | Req_HookRegister _ _ _ _ _ | Req_CacheInvalidate => True
  | _ => False
  end -> validate_security secs ms k req = Ok tt.
Proof. intros O R. apply validate_anonymous; [by destruct req|by destruct req|done]. Qed.
End histories.

(** Observing without a variant calls a handler that has no arm for the request. *)
Lemma observe_metrics_unreachable j2s a :
  handle_core_ops j2s (Req_CoreObserve None a) = Some (Core_call Handle_system (Req_AgentUsage a)) /\
  handles Handle_system (Req_AgentUsage a) = false.
Proof. done. Qed.

(** A limit near the top of the range wraps the end of the listing below its
    start, and slicing there panics. *)
Lemma core_list_window_spec offset limit len :
  0 <= default 0 offset < u64_modulus -> 0 <= default 100 limit < u64_modulus -> 0 <= len ->
  core_list_window offset limit len = Window_panic <->
  default 0 offset < len /\ u64_modulus <= default 0 offset + default 100 limit.
Proof.
  unfold core_list_window, u64_add. intros O L N.
  set (s := default 0 offset) in *. set (l := default 100 limit) in *.
  assert (W : (s + l) mod u64_modulus = if decide (s + l < u64_modulus) then s + l else s + l - u64_modulus).
  { case_decide; [by apply Z.mod_small; lia|].
    symmetry. apply Z.mod_unique with 1; [left|]; lia. }
  rewrite W. destruct (Z.ltb_spec s len), (Z.ltb_spec (Z.min
    (if decide (s + l < u64_modulus) then s + l else s + l - u64_modulus) len) s);
    case_decide; split; try done; try lia; intros [? ?]; try lia.
Qed.

(** ** Witnesses *)

Definition admin_keys (mode : AgentAuthMode) : AgentKeyStore := mkKeyStore "secret" clear_tokens mode.
Definition no_grants : SecurityKernel :=
  mkSecurityKernel (admin_keys Mode_Optional) (mkPermissionKernel guard_new None).

Lemma required_mode_admits_witness :
  let k := mkSecurityKernel (admin_keys Mode_Required) (mkPermissionKernel guard_new None) in
  let read := Req_Read "c" PERSONAL_OWNER_ROLE_ID None (Some "personal-owner:7:1700") in
  validate_security_for_origin 1800 1800000 k read false = Ok tt /\
  verify_token 1800 (sk_keys k) PERSONAL_OWNER_ROLE_ID "personal-owner:7:1700" = true.
Proof.
  intros k read. assert (V : validate_security_for_origin 1800 1800000 k read false = Ok tt) by reflexivity.
  split; [exact V|].
  destruct (required_mode_admits 1800 1800000 k read false eq_refl V) as (t & [= <-] & T). exact T.
Defined.

Lemma core_verbs_stay_within_witness :
  validate_security_for_origin 1800 1800000 no_grants (Req_CoreAsk "q" [] "alice") false = Ok tt /\
  validate_security_for_origin 1800 1800000 no_grants
    (Req_Recall "alice" (Some "q") (Some 5) None) false = Ok tt.
Proof.
  assert (V : validate_security_for_origin 1800 1800000 no_grants (Req_CoreAsk "q" [] "alice") false
              = Ok tt) by reflexivity.
  split; [exact V|].
  destruct (core_verbs_stay_within 1800 1800000 (fun _ => "") no_grants (Req_CoreAsk "q" [] "alice")
    (Req_Recall "alice" (Some "q") (Some 5) None) Handle_memory false V eq_refl)
    as [[W|(id & a & E & _)] _]; [exact W|discriminate E].
Defined.

Lemma no_self_granted_authority_witness :
  no_manager (pk_permissions (sk_permissions no_grants)) /\
  external_call (fun _ => Some "") no_grants
    (mkExternal 1800 1800000 (mkPermissionIo true true true)
       (Req_GrantPermission "mallory" (Some PERSONAL_OWNER_ROLE_ID)
          (Some "personal-owner:7:1700") "all" None None)) = no_grants.
Proof.
  assert (N : no_manager (pk_permissions (sk_permissions no_grants))).
  { intros a g M. unfold list_grants in M. cbn in M. rewrite lookup_empty in M.
    by apply not_elem_of_nil in M. }
  split; [exact N|].
  exact (proj1 (no_self_granted_authority (fun _ => Some "") no_grants
    [mkExternal 1800 1800000 (mkPermissionIo true true true)
       (Req_GrantPermission "mallory" (Some PERSONAL_OWNER_ROLE_ID)
          (Some "personal-owner:7:1700") "all" None None)] N)).
Defined.
