(* ===== verification/GraphModel.v ===== *)
(** * The knowledge graph: records and state ([src/src/fs/graph/types.rs],
    [src/src/fs/graph/backend.rs])

    Nodes and edges with their two time axes, the in-memory maps of the
    backend and the embedded database behind them.  The database is a pair of
    tables of octets under text keys; a write transaction either commits as a
    whole or leaves both tables alone.  The iteration order of a hash map is a
    parameter, [HashIter] of [Prelude.v]; a range scan of a table is in key order. *)

From stdpp Require Import base gmap strings pretty list sorting.
From S2P Require Import Prelude Float32 MemoryModel ApiRequest.

#[export] Instance KGNodeType_eq_dec : EqDecision KGNodeType.
Proof. solve_decision. Defined.
#[export] Instance KGEdgeType_eq_dec : EqDecision KGEdgeType.
Proof. solve_decision. Defined.

(** [format!("{:?}", edge_type)] *)
Definition edge_type_debug (t : KGEdgeType) : string :=
  match t with
  | Edge_AssociatesWith => "AssociatesWith" | Edge_Follows => "Follows" | Edge_Mentions => "Mentions"
  | Edge_Causes => "Causes" | Edge_Reminds => "Reminds" | Edge_PartOf => "PartOf"
  | Edge_SimilarTo => "SimilarTo" | Edge_RelatedTo => "RelatedTo"
  | Edge_HasParticipant => "HasParticipant" | Edge_HasArtifact => "HasArtifact"
  | Edge_HasRecording => "HasRecording" | Edge_HasResolution => "HasResolution"
  | Edge_HasFact => "HasFact" | Edge_CausedBy => "CausedBy" | Edge_DependsOn => "DependsOn"
  | Edge_Produces => "Produces" | Edge_Supersedes => "Supersedes" | Edge_IsAliasOf => "IsAliasOf"
  end.

(** [impl Display for KGNodeType] and [impl Display for KGEdgeType] *)
Definition node_type_display (t : KGNodeType) : string :=
  match t with
  | Node_Entity => "entity" | Node_Fact => "fact" | Node_Document => "document"
  | Node_Agent => "agent" | Node_Memory => "memory" | Node_Event => "event"
  end.
Definition edge_type_display (t : KGEdgeType) : string :=
  match t with
  | Edge_AssociatesWith => "associates_with" | Edge_Follows => "follows" | Edge_Mentions => "mentions"
  | Edge_Causes => "causes" | Edge_Reminds => "reminds" | Edge_PartOf => "part_of"
  | Edge_SimilarTo => "similar_to" | Edge_RelatedTo => "related_to"
  | Edge_HasParticipant => "has_participant" | Edge_HasArtifact => "has_artifact"
  | Edge_HasRecording => "has_recording" | Edge_HasResolution => "has_resolution"
  | Edge_HasFact => "has_fact" | Edge_CausedBy => "caused_by" | Edge_DependsOn => "depends_on"
  | Edge_Produces => "produces" | Edge_Supersedes => "supersedes" | Edge_IsAliasOf => "is_alias_of"
  end.

Inductive KGError : Type :=
  | KG_NodeNotFound (what : string)
  | KG_EdgeExists (src dst : string) (t : KGEdgeType)
  | KG_Io
  | KG_Json
  | KG_DatabaseError (what : string).

(** ** Nodes *)

Record KGNode := mkKGNode {
  kn_id : string;
  kn_label : string;
  kn_node_type : KGNodeType;
  kn_content_cid : option string;
  kn_properties : Json;
  kn_agent_id : string;
  kn_tenant_id : string;
  kn_created_at : Z;
  kn_valid_at : option Z;
  kn_invalid_at : option Z;
  kn_expired_at : option Z;
}.

(** [KGNode::new] and [KGNode::with_content]; [id] is the fresh identifier. *)
Definition node_new (id : string) (now : Z) (label : string) (t : KGNodeType)
    (agent_id tenant_id : string) : KGNode :=
  mkKGNode id label t None JNull agent_id tenant_id now None None None.
Definition node_with_content (id : string) (now : Z) (label : string) (t : KGNodeType)
    (content_cid agent_id tenant_id : string) : KGNode :=
  mkKGNode id label t (Some content_cid) JNull agent_id tenant_id now None None None.

(** The two axes: [Option::is_none_or]. *)
Definition none_or {A} (o : option A) (p : A -> bool) : bool :=
  match o with None => true | Some x => p x end.

Definition node_is_active (n : KGNode) : bool :=
  opt_is_none (kn_invalid_at n) && opt_is_none (kn_expired_at n).
Definition node_is_valid_at (n : KGNode) (t : Z) : bool :=
  none_or (kn_valid_at n) (fun v => v <=? t)%Z &&
  none_or (kn_invalid_at n) (fun i => t <? i)%Z &&
  none_or (kn_expired_at n) (fun e => t <? e)%Z.

(** ** Edges *)

Record KGEdge := mkKGEdge {
  ke_src : string;
  ke_dst : string;
  ke_edge_type : KGEdgeType;
  ke_weight : f32;
  ke_evidence_cid : option string;
  ke_created_at : Z;
  ke_valid_at : option Z;
  ke_invalid_at : option Z;
  ke_expired_at : option Z;
  ke_episode : option string;
}.

Definition edge_new (now : Z) (src dst : string) (t : KGEdgeType) (weight : f32) : KGEdge :=
  mkKGEdge src dst t weight None now (Some now) None None None.
Definition edge_new_with_episode (now : Z) (src dst : string) (t : KGEdgeType) (weight : f32)
    (episode : string) : KGEdge :=
  mkKGEdge src dst t weight None now (Some now) None None (Some episode).

Definition edge_is_active (e : KGEdge) : bool :=
  opt_is_none (ke_invalid_at e) && opt_is_none (ke_expired_at e).
Definition edge_is_valid_at (e : KGEdge) (t : Z) : bool :=
  none_or (ke_valid_at e) (fun v => v <=? t)%Z &&
  none_or (ke_invalid_at e) (fun i => t <? i)%Z &&
  none_or (ke_expired_at e) (fun x => t <? x)%Z.

(** [edge.invalid_at = at] and [edge.expired_at = at] *)
Definition set_invalid_at (at_ : option Z) (e : KGEdge) : KGEdge :=
  mkKGEdge (ke_src e) (ke_dst e) (ke_edge_type e) (ke_weight e) (ke_evidence_cid e) (ke_created_at e)
    (ke_valid_at e) at_ (ke_expired_at e) (ke_episode e).
Definition set_expired_at (at_ : option Z) (e : KGEdge) : KGEdge :=
  mkKGEdge (ke_src e) (ke_dst e) (ke_edge_type e) (ke_weight e) (ke_evidence_cid e) (ke_created_at e)
    (ke_valid_at e) (ke_invalid_at e) at_ (ke_episode e).

Record EdgeRecord := mkEdgeRecord { er_src : string; er_dst : string; er_edge : KGEdge }.

Record KGSearchHit := mkSearchHit {
  sh_node : KGNode;
  sh_edge_type : option KGEdgeType;
  sh_vector_score : f32;
  sh_authority_score : f32;
  sh_combined_score : f32;
}.

Record TemporalDiff := mkTemporalDiff {
  td_added : list KGEdge;
  td_removed : list KGEdge;
  td_unchanged : list KGEdge;
}.

(** ** State *)

(** [HashMap<String, Vec<(String, KGEdge)>>]: the far end of each edge with it. *)
Notation Adjacency := (gmap string (list (string * KGEdge))) (only parsing).

(** The tables [kg_nodes] and [kg_edges]. *)
Record Database := mkDatabase { KG_NODES : gmap string string; KG_EDGES : gmap string string }.

Record PetgraphBackend := mkGraph {
  g_nodes : gmap string KGNode;
  g_out_edges : Adjacency;
  g_in_edges : Adjacency;
  g_cid_refs : gmap string (gset string);
  g_db : option Database;
  g_write_count : Z;
}.

(** [PetgraphBackend::new] *)
Definition graph_new : PetgraphBackend := mkGraph ∅ ∅ ∅ ∅ None 0.

Definition with_nodes (m : gmap string KGNode) (g : PetgraphBackend) : PetgraphBackend :=
  mkGraph m (g_out_edges g) (g_in_edges g) (g_cid_refs g) (g_db g) (g_write_count g).
Definition with_edges (out inc : Adjacency) (g : PetgraphBackend) : PetgraphBackend :=
  mkGraph (g_nodes g) out inc (g_cid_refs g) (g_db g) (g_write_count g).
Definition with_cid_refs (m : gmap string (gset string)) (g : PetgraphBackend) : PetgraphBackend :=
  mkGraph (g_nodes g) (g_out_edges g) (g_in_edges g) m (g_db g) (g_write_count g).
Definition with_db (db : option Database) (g : PetgraphBackend) : PetgraphBackend :=
  mkGraph (g_nodes g) (g_out_edges g) (g_in_edges g) (g_cid_refs g) db (g_write_count g).
Definition with_write_count (n : Z) (g : PetgraphBackend) : PetgraphBackend :=
  mkGraph (g_nodes g) (g_out_edges g) (g_in_edges g) (g_cid_refs g) (g_db g) n.

(** [map.get(k)] of an adjacency map, no list counting as the empty one. *)
Definition adj (m : Adjacency) (k : string) : list (string * KGEdge) := default [] (m !! k).

(** [entry(k).or_default().push(x)] *)
Definition adj_push (k : string) (x : string * KGEdge) (m : Adjacency) : Adjacency :=
  <[k := adj m k ++ [x]]> m.

(** [if let Some(list) = map.get_mut(k)], the list replaced. *)
Definition adj_update (k : string) (f : list (string * KGEdge) -> list (string * KGEdge))
    (m : Adjacency) : Adjacency := alter f k m.

(** ** What comes from outside *)

(** [serde_json::to_vec] and [from_slice] at the stored records. *)
Class GraphCodec := {
  node_to_vec : KGNode -> option string;
  node_from_slice : string -> option KGNode;
  edge_to_vec : KGEdge -> option string;
  edge_from_slice : string -> option KGEdge;
}.

(** What one call draws: the clock, whether every call of its write transaction
    up to the commit succeeds, and which of the removals in it succeed, whose
    errors the code drops. *)
Record GraphEnv := mkGraphEnv {
  ge_now : Z;
  ge_txn : bool;
  ge_remove : string -> bool;
}.

(** A write transaction: [None] of the body is an early return before the
    commit, and the dropped transaction changes nothing. *)
Definition run_txn (env : GraphEnv) (body : Database -> option Database) (db : Database) : Database :=
  match body db with
  | Some db' => if ge_txn env then db' else db
  | None => db
  end.
