(* ===== verification/Graph.v ===== *)
(** * The knowledge graph: operations ([src/src/fs/graph/backend.rs],
    [src/src/fs/graph/mod.rs])

    Every operation of the backend as one step of the state of
    [GraphModel.v], in the order in which the source changes the maps and the
    database.  The locks of one call are taken one after the other in the
    source; here a call is one step. *)

From stdpp Require Import base gmap strings pretty list sorting.
From S2P Require Import Prelude Float32 MemoryModel Text ApiRequest GraphModel.

(** ** Keys *)

Definition bar : Ascii.ascii := Ascii.ascii_of_N 124.
Definition bar_str : string := String bar EmptyString.

(** [PetgraphBackend::edge_key] *)
Definition edge_key (src dst : string) (t : KGEdgeType) (created_at : Z) : string :=
  src +:+ bar_str +:+ dst +:+ bar_str +:+ edge_type_debug t +:+ bar_str +:+ pretty created_at.
Definition key_of (e : KGEdge) : string := edge_key (ke_src e) (ke_dst e) (ke_edge_type e) (ke_created_at e).

(** [str::split('|')] *)
Fixpoint split_bar_from (part s : string) : list string :=
  match s with
  | EmptyString => [part]
  | String c s' =>
      if bool_decide (c = bar) then part :: split_bar_from "" s'
      else split_bar_from (part +:+ String c EmptyString) s'
  end.
Definition split_bar (s : string) : list string := split_bar_from "" s.

(** A scan [table.range(..)] returns the entries in key order. *)
Definition key_le (a b : string * string) : Prop := String.le a.1 b.1.
#[export] Instance key_le_dec : RelDecision key_le.
Proof. unfold key_le. intros a b. apply _. Defined.
Definition redb_range (m : gmap string string) : list (string * string) :=
  merge_sort key_le (map_to_list m).

Section graph.
Context `{HashIter} `{GraphCodec}.

(** ** Persistence *)

(** [Database::compact] moves pages and keeps the contents. *)
Definition compact_db (g : PetgraphBackend) : PetgraphBackend := g.

Definition maybe_compact (g : PetgraphBackend) : PetgraphBackend :=
  let count := u64_add (g_write_count g) 1 in
  if (1000 <=? count)%Z then compact_db (with_write_count 0 g) else with_write_count count g.

Definition persist_node (env : GraphEnv) (node_id : string) (node : KGNode) (g : PetgraphBackend)
    : PetgraphBackend :=
  match g_db g with
  | None => g
  | Some db =>
      let body db := data ← node_to_vec node; Some (mkDatabase (<[node_id := data]> (KG_NODES db)) (KG_EDGES db)) in
      with_db (Some (run_txn env body db)) g
  end.

(** [table.insert(edge_key(..), to_vec(edge)?)?] over a slice of edges. *)
Fixpoint insert_edges (edges : list KGEdge) (db : Database) : option Database :=
  match edges with
  | [] => Some db
  | edge :: rest =>
      data ← edge_to_vec edge;
      insert_edges rest (mkDatabase (KG_NODES db) (<[key_of edge := data]> (KG_EDGES db)))
  end.

Definition persist_edges (env : GraphEnv) (edges : list KGEdge) (g : PetgraphBackend) : PetgraphBackend :=
  match g_db g with
  | None => g
  | Some db => with_db (Some (run_txn env (insert_edges edges) db)) g
  end.

Definition persist_add_edge_atomic (env : GraphEnv) (new_edge : KGEdge) (invalidated : list KGEdge)
    (g : PetgraphBackend) : PetgraphBackend :=
  persist_edges env (invalidated ++ [new_edge]) g.

(** [table.remove(key).ok()] over a slice of edges. *)
Definition delete_edges (env : GraphEnv) (edges : list KGEdge) (t : gmap string string) : gmap string string :=
  foldl (fun t e => if ge_remove env (key_of e) then delete (key_of e) t else t) t edges.

Definition remove_edges_from_db (env : GraphEnv) (edges : list KGEdge) (g : PetgraphBackend)
    : PetgraphBackend :=
  match g_db g with
  | None => g
  | Some db =>
      match edges with
      | [] => g
      | _ =>
          let body db := Some (mkDatabase (KG_NODES db) (delete_edges env edges (KG_EDGES db))) in
          with_db (Some (run_txn env body db)) g
      end
  end.

Definition remove_node_and_edges_from_db (env : GraphEnv) (node_id : string) (edges : list KGEdge)
    (g : PetgraphBackend) : PetgraphBackend :=
  match g_db g with
  | None => g
  | Some db =>
      let body db :=
        let nodes := if ge_remove env node_id then delete node_id (KG_NODES db) else KG_NODES db in
        Some (mkDatabase nodes (delete_edges env edges (KG_EDGES db))) in
      with_db (Some (run_txn env body db)) g
  end.

(** ** Closing the edges a new one replaces *)

(** The edge is closed when it is still open and [p] holds of it. *)
Definition close_if (now : Z) (p : string * KGEdge -> bool) (x : string * KGEdge) : string * KGEdge :=
  if p x && opt_is_none (ke_invalid_at x.2) then (x.1, set_invalid_at (Some now) x.2) else x.

(** The clones collected by the loop, in the order of the list. *)
Definition closed_by (now : Z) (p : string * KGEdge -> bool) (l : list (string * KGEdge)) : list KGEdge :=
  omap (fun x => if p x && opt_is_none (ke_invalid_at x.2) then Some (set_invalid_at (Some now) x.2) else None) l.

(** [*other == node && edge.edge_type == ty] *)
Definition conflicting (other : string) (t : KGEdgeType) (x : string * KGEdge) : bool :=
  str_eqb x.1 other && bool_decide (ke_edge_type x.2 = t).

Definition invalidate_conflicts_internal (env : GraphEnv) (new_edge : KGEdge) (g : PetgraphBackend)
    : list KGEdge * PetgraphBackend :=
  let now := ge_now env in
  let src := ke_src new_edge in
  let dst := ke_dst new_edge in
  let t := ke_edge_type new_edge in
  let invalidated := closed_by now (conflicting dst t) (adj (g_out_edges g) src) in
  let out := adj_update src (fmap (close_if now (conflicting dst t))) (g_out_edges g) in
  let inc := adj_update dst (fmap (close_if now (conflicting src t))) (g_in_edges g) in
  (invalidated, with_edges out inc g).

Definition invalidate_conflicts (env : GraphEnv) (new_edge : KGEdge) (g : PetgraphBackend)
    : result KGError nat * PetgraphBackend :=
  let '(invalidated, g) := invalidate_conflicts_internal env new_edge g in
  let g := match invalidated with [] => g | _ => persist_edges env invalidated g end in
  (Ok (length invalidated), g).

(** ** Writing nodes and edges *)

Definition add_node (env : GraphEnv) (node : KGNode) (g : PetgraphBackend)
    : result KGError unit * PetgraphBackend :=
  let node_id := kn_id node in
  let g := match kn_content_cid node with
           | Some cid =>
               with_cid_refs (<[cid := {[node_id]} ∪ default ∅ (g_cid_refs g !! cid)]> (g_cid_refs g)) g
           | None => g
           end in
  let g := with_nodes (<[node_id := node]> (g_nodes g)) g in
  (Ok tt, maybe_compact (persist_node env node_id node g)).

Definition add_edge (env : GraphEnv) (edge : KGEdge) (g : PetgraphBackend)
    : result KGError unit * PetgraphBackend :=
  let '(invalidated, g) := invalidate_conflicts_internal env edge g in
  let g := with_edges (adj_push (ke_src edge) (ke_dst edge, edge) (g_out_edges g))
             (adj_push (ke_dst edge) (ke_src edge, edge) (g_in_edges g)) g in
  (Ok tt, maybe_compact (persist_add_edge_atomic env edge invalidated g)).

(** [serde_json::Map::insert] into an object kept in key order. *)
Fixpoint members_insert (k : string) (v : Json) (members : list (string * Json)) : list (string * Json) :=
  match members with
  | [] => [(k, v)]
  | (k', v') :: rest =>
      match String.compare k k' with
      | Lt => (k, v) :: members
      | Eq => (k', v) :: rest
      | Gt => (k', v') :: members_insert k v rest
      end
  end.

(** New members go into an object; anything else is replaced. *)
Definition merge_properties (old new : Json) : Json :=
  match old, new with
  | JObject existing, JObject members => JObject (foldl (fun m kv => members_insert kv.1 kv.2 m) existing members)
  | _, _ => new
  end.

Definition updated_node (label : option string) (properties : option Json) (n : KGNode) : KGNode :=
  mkKGNode (kn_id n) (default (kn_label n) label) (kn_node_type n) (kn_content_cid n)
    (match properties with Some p => merge_properties (kn_properties n) p | None => kn_properties n end)
    (kn_agent_id n) (kn_tenant_id n) (kn_created_at n) (kn_valid_at n) (kn_invalid_at n) (kn_expired_at n).

Definition update_node (env : GraphEnv) (id : string) (label : option string) (properties : option Json)
    (g : PetgraphBackend) : result KGError unit * PetgraphBackend :=
  match g_nodes g !! id with
  | None => (Err (KG_NodeNotFound id), g)
  | Some n =>
      let node := updated_node label properties n in
      (Ok tt, persist_node env id node (with_nodes (<[id := node]> (g_nodes g)) g))
  end.

(** ** Removing *)

(** [list.retain(|(other, _)| other != id)] at every key of the list. *)
Definition drop_other (id : string) (keys : list string) (m : Adjacency) : Adjacency :=
  foldl (fun m k => adj_update k (List.filter (fun x => negb (str_eqb x.1 id))) m) m keys.

(** The reverse index without a removed node. *)
Definition unref (id : string) (cid : option string) (refs : gmap string (gset string))
    : gmap string (gset string) :=
  match cid with
  | None => refs
  | Some c =>
      match refs !! c with
      | None => refs
      | Some s =>
          let s' := s ∖ {[id]} in
          if bool_decide (s' = ∅) then delete c refs else <[c := s']> refs
      end
  end.

Definition remove_node (env : GraphEnv) (id : string) (g : PetgraphBackend)
    : result KGError unit * PetgraphBackend :=
  let g := match g_nodes g !! id with
           | Some removed =>
               with_cid_refs (unref id (kn_content_cid removed) (g_cid_refs g))
                 (with_nodes (delete id (g_nodes g)) g)
           | None => g
           end in
  let outgoing := adj (g_out_edges g) id in
  let out := delete id (g_out_edges g) in
  let inc := drop_other id outgoing.*1 (g_in_edges g) in
  let incoming := adj inc id in
  let inc := delete id inc in
  let out := drop_other id incoming.*1 out in
  let removed_edges := outgoing.*2 ++ incoming.*2 in
  (Ok tt, remove_node_and_edges_from_db env id removed_edges (with_edges out inc g)).

(** [edge_type.is_none_or(|et| et == edge.edge_type)] *)
Definition type_matches (edge_type : option KGEdgeType) (e : KGEdge) : bool :=
  none_or edge_type (fun et => bool_decide (et = ke_edge_type e)).
Definition between (other : string) (edge_type : option KGEdgeType) (x : string * KGEdge) : bool :=
  str_eqb x.1 other && type_matches edge_type x.2.

Definition remove_edge (env : GraphEnv) (src dst : string) (edge_type : option KGEdgeType)
    (g : PetgraphBackend) : result KGError unit * PetgraphBackend :=
  let removed_edges := (List.filter (between dst edge_type) (adj (g_out_edges g) src)).*2 in
  let out := adj_update src (List.filter (fun x => negb (between dst edge_type x))) (g_out_edges g) in
  let inc := adj_update dst (List.filter (fun x => negb (between src edge_type x))) (g_in_edges g) in
  let g := with_edges out inc g in
  match removed_edges with
  | [] => (Err (KG_NodeNotFound ("edge " +:+ src +:+ "→" +:+ dst +:+ " not found")), g)
  | _ => (Ok tt, remove_edges_from_db env removed_edges g)
  end.

(** [edge.dst == dst && edge.edge_type == edge_type] *)
Definition names_edge (dst : string) (t : KGEdgeType) (x : string * KGEdge) : bool :=
  str_eqb (ke_dst x.2) dst && bool_decide (ke_edge_type x.2 = t).

Definition invalidate_edge (env : GraphEnv) (src dst : string) (edge_type : KGEdgeType)
    (g : PetgraphBackend) : result KGError bool * PetgraphBackend :=
  let now := ge_now env in
  let invalidated := closed_by now (names_edge dst edge_type) (adj (g_out_edges g) src) in
  let out := adj_update src (fmap (close_if now (names_edge dst edge_type))) (g_out_edges g) in
  let g := with_edges out (g_in_edges g) g in
  match invalidated with
  | [] => (Ok false, g)
  | _ => (Ok true, persist_edges env invalidated g)
  end.

Definition max_age_ms : Z := 7 * 24 * 3600 * 1000.

(** [edge.invalid_at.or(edge.expired_at).filter(..).is_some()] *)
Definition long_closed (now : Z) (e : KGEdge) : bool :=
  match (match ke_invalid_at e with Some t => Some t | None => ke_expired_at e end) with
  | Some t => (max_age_ms <? u64_saturating_sub now t)%Z
  | None => false
  end.

(** [other == node && e.edge_type == .. && e.created_at == ..] *)
Definition same_version (other : string) (edge : KGEdge) (x : string * KGEdge) : bool :=
  str_eqb x.1 other && bool_decide (ke_edge_type x.2 = ke_edge_type edge)
  && (ke_created_at x.2 =? ke_created_at edge)%Z.

Definition compact_edges (env : GraphEnv) (g : PetgraphBackend) : nat * PetgraphBackend :=
  let to_remove := List.filter (long_closed (ge_now env))
                     ((hash_iter (g_out_edges g)) ≫= fun kl => kl.2.*2) in
  match to_remove with
  | [] => (0%nat, g)
  | _ =>
      let out := foldl (fun m e => adj_update (ke_src e)
                   (List.filter (fun x => negb (same_version (ke_dst e) e x))) m) (g_out_edges g) to_remove in
      let inc := foldl (fun m e => adj_update (ke_dst e)
                   (List.filter (fun x => negb (same_version (ke_src e) e x))) m) (g_in_edges g) to_remove in
      (length to_remove, compact_db (remove_edges_from_db env to_remove (with_edges out inc g)))
  end.

(** ** Reading *)

Definition get_node (g : PetgraphBackend) (id : string) : result KGError (option KGNode) := Ok (g_nodes g !! id).

(** The far ends of a list of edges that are nodes. *)
Definition neighbours (g : PetgraphBackend) (edge_type : option KGEdgeType) (l : list (string * KGEdge))
    : list (KGNode * KGEdge) :=
  omap (fun x => if type_matches edge_type x.2 then node ← g_nodes g !! x.1; Some (node, x.2) else None) l.

Definition get_neighbors (g : PetgraphBackend) (id : string) (edge_type : option KGEdgeType) (depth : Z)
    : result KGError (list (KGNode * KGEdge)) :=
  if (depth =? 0)%Z then Ok []
  else Ok (neighbours g edge_type (adj (g_out_edges g) id) ++ neighbours g edge_type (adj (g_in_edges g) id)).

Definition node_type_matches (node_type : option KGNodeType) (n : KGNode) : bool :=
  none_or node_type (fun mt => bool_decide (mt = kn_node_type n)).

Definition list_nodes (g : PetgraphBackend) (agent_id : string) (node_type : option KGNodeType)
    : result KGError (list KGNode) :=
  Ok (List.filter (fun n => str_eqb (kn_agent_id n) agent_id && opt_is_none (kn_expired_at n)
                            && node_type_matches node_type n) (values (g_nodes g))).

Definition get_valid_nodes_at (g : PetgraphBackend) (agent_id : string) (node_type : option KGNodeType) (t : Z)
    : result KGError (list KGNode) :=
  Ok (List.filter (fun n => str_eqb (kn_agent_id n) agent_id && node_is_valid_at n t
                            && node_type_matches node_type n) (values (g_nodes g))).

Definition list_edges (g : PetgraphBackend) (agent_id : string) : result KGError (list KGEdge) :=
  Ok (hash_iter (g_out_edges g) ≫= fun kl =>
        if none_or (g_nodes g !! kl.1) (fun n => negb (str_eqb (kn_agent_id n) agent_id)) then []
        else List.filter (fun e => opt_is_none (ke_expired_at e)) kl.2.*2).

Definition all_node_ids (g : PetgraphBackend) : list string := keys (g_nodes g).

Definition node_count (g : PetgraphBackend) : result KGError nat := Ok (size (g_nodes g)).
Definition edge_count (g : PetgraphBackend) : result KGError nat :=
  Ok (sum_list (length <$> values (g_out_edges g))).

(** [out.values().flat_map(..)] *)
Definition out_records (g : PetgraphBackend) : list KGEdge := values (g_out_edges g) ≫= fun l => l.*2.

Definition get_valid_edges_at (g : PetgraphBackend) (t : Z) : result KGError (list KGEdge) :=
  Ok (List.filter (fun e => edge_is_valid_at e t) (out_records g)).

(** [Option<u64>] orders [None] first. *)
Definition opt_le (a b : option Z) : bool :=
  match a, b with
  | None, _ => true
  | Some _, None => false
  | Some x, Some y => (x <=? y)%Z
  end.
(** [max_by_key]: the last of the greatest. *)
Definition max_by_valid_at (l : list KGEdge) : option KGEdge :=
  foldl (fun best e => match best with
                       | None => Some e
                       | Some b => if opt_le (ke_valid_at b) (ke_valid_at e) then Some e else Some b
                       end) None l.

Definition get_valid_edge_between (g : PetgraphBackend) (src dst : string) (_edge_type : option KGEdgeType)
    (t : Z) : result KGError (option KGEdge) :=
  Ok (l ← g_out_edges g !! src;
      max_by_valid_at (List.filter (fun x => str_eqb x.1 dst && edge_is_valid_at x.2 t) l).*2).

Definition edge_history (g : PetgraphBackend) (src dst : string) (edge_type : option KGEdgeType)
    : result KGError (list KGEdge) :=
  Ok (List.filter (between dst edge_type) (adj (g_out_edges g) src)).*2.

Definition has_node_with_cid (g : PetgraphBackend) (cid : string) : result KGError bool :=
  Ok (match g_cid_refs g !! cid with Some s => bool_decide (s ≠ ∅) | None => false end).

(** The members of a set come in the order of the hash set; [elements] stands for it. *)
Definition get_nodes_by_cid (g : PetgraphBackend) (cid : string) : result KGError (list KGNode) :=
  Ok (match g_cid_refs g !! cid with
      | Some ids => omap (fun id => g_nodes g !! id) (elements ids)
      | None => []
      end).

(** ** Authority *)

Definition neighbour_ids (g : PetgraphBackend) (id : string) : gset string :=
  list_to_set (adj (g_out_edges g) id).*1 ∪ list_to_set (adj (g_in_edges g) id).*1.
Definition degree (g : PetgraphBackend) (node_id : string) : nat := size (neighbour_ids g node_id).

(** The largest degree over the keys of both maps. *)
Definition max_degree (g : PetgraphBackend) : nat :=
  let all_ids : gset string := dom (g_out_edges g) ∪ dom (g_in_edges g) in
  if bool_decide (all_ids = ∅) then 1%nat else foldr Nat.max 0%nat (degree g <$> elements all_ids).

Section authority.
(** [f32::ln] *)
Variable f32_ln : f32 -> f32.

Definition f32_one : f32 := f32_of_Z 1.
Definition f32_clamp (lo hi x : f32) : f32 := if f32_gt lo x then lo else if f32_gt x hi then hi else x.

Definition authority_score_internal (g : PetgraphBackend) (node_id : string) : f32 :=
  let d := degree g node_id in
  if (d =? 0)%nat then f32_zero
  else
    let m := max_degree g in
    if (m <=? 1)%nat then (if (0 <? d)%nat then f32_one else f32_zero)
    else f32_clamp f32_zero f32_one
           (f32_div (f32_ln (f32_of_Z (Z.of_nat d))) (f32_ln (f32_of_Z (Z.of_nat m)))).

Definition authority_score (g : PetgraphBackend) (node_id : string) : result KGError f32 :=
  Ok (authority_score_internal g node_id).
End authority.
End graph.
