(* ===== verification/GraphStore.v ===== *)
(** * The knowledge graph: opening, saving, documents and versions
    ([src/src/fs/graph/backend.rs], [src/src/fs/graph/mod.rs])

    What rebuilds the maps from the database or from the two JSON files, the
    insertion of a document with its association edges, and the trait's default
    operations on edge versions. *)

From stdpp Require Import base gmap strings pretty list sorting.
From S2P Require Import Prelude Float32 MemoryModel Text ApiRequest GraphModel Graph.

(** [DiskGraph] *)
Definition DiskGraph : Type := gmap string KGNode * Adjacency * Adjacency.

(** Both adjacency maps, one record at a time. *)
Definition push_record (src dst : string) (e : KGEdge) (m : Adjacency * Adjacency) : Adjacency * Adjacency :=
  (adj_push src (dst, e) m.1, adj_push dst (src, e) m.2).

Section store.
Context `{HashIter} `{GraphCodec}.

(** ** The database *)

(** One row of [kg_nodes]; a value that does not parse is skipped. *)
Definition load_node (nodes : gmap string KGNode) (row : string * string) : gmap string KGNode :=
  match node_from_slice row.2 with Some node => <[row.1 := node]> nodes | None => nodes end.

(** One row of [kg_edges]: the key must have exactly four parts. *)
Definition load_edge (m : Adjacency * Adjacency) (row : string * string) : Adjacency * Adjacency :=
  match edge_from_slice row.2 with
  | None => m
  | Some edge =>
      match split_bar row.1 with
      | [src; dst; _; _] => push_record src dst edge m
      | _ => m
      end
  end.

(** What a call of [load_from_redb] meets: whether the read transaction begins,
    whether each table opens and its scan starts, and the rows that arrive. *)
Record LoadEnv := mkLoadEnv {
  le_begin : bool;
  le_nodes : bool;
  le_edges : bool;
  le_row : string -> bool;
}.

Definition load_rows (env : LoadEnv) (table : gmap string string) : list (string * string) :=
  List.filter (fun row => le_row env row.1) (redb_range table).

Definition load_from_redb (env : LoadEnv) (db : Database) : result KGError DiskGraph :=
  if negb (le_begin env) then Err (KG_DatabaseError "begin_read failed")
  else
    let nodes := if le_nodes env then foldl load_node ∅ (load_rows env (KG_NODES db)) else ∅ in
    let '(out, inc) := if le_edges env then foldl load_edge (∅, ∅) (load_rows env (KG_EDGES db)) else (∅, ∅) in
    Ok (nodes, out, inc).

(** The reverse index of the nodes, built at opening. *)
Definition index_cids (nodes : list (string * KGNode)) : gmap string (gset string) :=
  foldl (fun refs row => match kn_content_cid row.2 with
                         | Some cid => <[cid := {[row.1]} ∪ default ∅ (refs !! cid)]> refs
                         | None => refs
                         end) ∅ nodes.

(** [PetgraphBackend::open]; [db] is what opening or creating the file gave. *)
Definition open (env : LoadEnv) (db : option Database) : PetgraphBackend :=
  let '(nodes, out, inc) :=
    match db with
    | Some database => match load_from_redb env database with Ok t => t | Err _ => (∅, ∅, ∅) end
    | None => (∅, ∅, ∅)
    end in
  mkGraph nodes out inc (index_cids (hash_iter nodes)) db 0.

(** ** The JSON files *)

(** [kg_nodes.json] and [kg_edges.json] as their texts. *)
Record GraphFiles := mkGraphFiles { gf_nodes : option string; gf_edges : option string }.

(** The outcomes of one save: the directory, and the two writes and renames. *)
Record SaveEnv := mkSaveEnv {
  se_mkdir : bool;
  se_write_nodes : bool;
  se_rename_nodes : bool;
  se_write_edges : bool;
  se_rename_edges : bool;
}.

(** [serde_json] at the two file types. *)
Variable nodes_to_string : gmap string KGNode -> option string.
Variable nodes_from_str : string -> option (gmap string KGNode).
Variable records_to_string : list EdgeRecord -> option string.
Variable records_from_str : string -> option (list EdgeRecord).

Definition edge_records (g : PetgraphBackend) : list EdgeRecord :=
  hash_iter (g_out_edges g) ≫= fun kl => (fun x => mkEdgeRecord kl.1 x.1 x.2) <$> kl.2.

Definition save_to_disk (env : SaveEnv) (g : PetgraphBackend) (files : GraphFiles)
    : result KGError unit * GraphFiles :=
  if negb (se_mkdir env) then (Err KG_Io, files)
  else match nodes_to_string (g_nodes g) with
  | None => (Err KG_Json, files)
  | Some json =>
      if negb (se_write_nodes env && se_rename_nodes env) then (Err KG_Io, files)
      else
        let files := mkGraphFiles (Some json) (gf_edges files) in
        match records_to_string (edge_records g) with
        | None => (Err KG_Json, files)
        | Some json =>
            if negb (se_write_edges env && se_rename_edges env) then (Err KG_Io, files)
            else (Ok tt, mkGraphFiles (gf_nodes files) (Some json))
        end
  end.

Definition load_from_disk_internal (files : GraphFiles) : result KGError DiskGraph :=
  match gf_nodes files with
  | None => Err KG_Io
  | Some text =>
      match nodes_from_str text with
      | None => Err KG_Json
      | Some nodes =>
          match gf_edges files with
          | None => Err KG_Io
          | Some text =>
              match records_from_str text with
              | None => Err KG_Json
              | Some edges =>
                  let '(out, inc) := foldl (fun m r => push_record (er_src r) (er_dst r) (er_edge r) m) (∅, ∅) edges in
                  Ok (nodes, out, inc)
              end
          end
      end
  end.

Definition load_from_disk (files : GraphFiles) (g : PetgraphBackend) : result KGError unit * PetgraphBackend :=
  match load_from_disk_internal files with
  | Err e => (Err e, g)
  | Ok (nodes, out, inc) => (Ok tt, with_edges out inc (with_nodes nodes g))
  end.

(** ** Documents *)

Definition json_as_array (value : Json) : option (list Json) :=
  match value with JArray l => Some l | _ => None end.

Definition shared_tag_count (props : Json) (tags : list string) : nat :=
  let existing := match json_get "tags" props ≫= json_as_array with
                  | Some arr => omap json_as_str arr
                  | None => []
                  end in
  length (List.filter (fun t => str_mem t existing) tags).
Definition total_tag_count (props : Json) : nat :=
  match json_get "tags" props ≫= json_as_array with Some arr => length arr | None => 0%nat end.

(** [f32::max] on numbers. *)
Definition f32_max (x y : f32) : f32 := if f32_gt y x then y else x.
Definition f32_of_nat (n : nat) : f32 := f32_of_Z (Z.of_nat n).
Definition jaccard_weight (props : Json) (tags : list string) : f32 :=
  let shared := f32_of_nat (shared_tag_count props tags) in
  let total_a := f32_of_nat (Nat.max (total_tag_count props) 1) in
  let total_b := f32_of_nat (Nat.max (length tags) 1) in
  f32_div shared (f32_max total_a total_b).

(** A stable sort, greatest first. *)
Definition sort_desc {A} (score : A -> f32) : list A -> list A := stable_sort (fun y x => f32_gt (score y) (score x)).

Definition MAX_ASSOC_EDGES : nat := 5.
Definition MIN_JACCARD : f32 := f32_0_3.
Definition MAX_SCAN : nat := N.to_nat 500.

Definition association_candidates (g : PetgraphBackend) (cid : string) (tags : list string) (agent_id : string)
    : list (string * f32) :=
  let eligible n := str_eqb (kn_agent_id n) agent_id && bool_decide (kn_node_type n = Node_Document)
                    && negb (str_eqb (kn_id n) cid) && (2 <=? shared_tag_count (kn_properties n) tags)%nat in
  List.filter (fun x => f32_gt x.2 MIN_JACCARD || f32_eqb x.2 MIN_JACCARD)
    ((fun n => (kn_id n, jaccard_weight (kn_properties n) tags)) <$>
       take MAX_SCAN (List.filter eligible (values (g_nodes g)))).

(** Both directions of one association; the results are dropped. *)
Definition associate (env : GraphEnv) (cid : string) (g : PetgraphBackend) (c : string * f32) : PetgraphBackend :=
  let '(other_id, w) := c in
  let e1 := edge_new_with_episode (ge_now env) cid other_id Edge_AssociatesWith w cid in
  let e2 := edge_new_with_episode (ge_now env) other_id cid Edge_AssociatesWith w cid in
  let g := snd (add_edge env e1 g) in
  snd (add_edge env e2 g).

Definition document_node (now : Z) (short cid : string) (tags : list string) (agent_id : string) : KGNode :=
  mkKGNode cid ("doc:" +:+ short) Node_Document (Some cid) (JObject [("tags", JArray (JString <$> tags))])
    agent_id "default" now None None None.

(** [None] is the panic of [&cid[..8.min(cid.len())]] off a character boundary,
    before anything changes.  The clock and the transactions of the call are
    those of [env] throughout. *)
Definition upsert_document (env : GraphEnv) (cid : string) (tags : list string) (agent_id : string)
    (g : PetgraphBackend) : option (result KGError unit * PetgraphBackend) :=
  '(short, _) ← split_at cid (Nat.min 8 (String.length cid));
  let node := document_node (ge_now env) short cid tags agent_id in
  let candidates := association_candidates g cid tags agent_id in
  let '(_, g) := add_node env node g in
  Some (Ok tt, foldl (associate env cid) g (take MAX_ASSOC_EDGES (sort_desc snd candidates))).

(** ** Versions *)

(** [format!("{}|{}|{:?}", e.src, e.dst, e.edge_type)] *)
Definition diff_key (e : KGEdge) : string :=
  ke_src e +:+ bar_str +:+ ke_dst e +:+ bar_str +:+ edge_type_debug (ke_edge_type e).

Definition temporal_diff (g : PetgraphBackend) (_agent_id : string) (t1 t2 : Z) : result KGError TemporalDiff :=
  edges_t1 <-? get_valid_edges_at g t1;
  edges_t2 <-? get_valid_edges_at g t2;
  let t1_keys := diff_key <$> edges_t1 in
  let t2_keys := diff_key <$> edges_t2 in
  Ok (mkTemporalDiff (List.filter (fun e => negb (str_mem (diff_key e) t1_keys)) edges_t2)
        (List.filter (fun e => negb (str_mem (diff_key e) t2_keys)) edges_t1)
        (List.filter (fun e => str_mem (diff_key e) t1_keys) edges_t2)).

(** [sort_unstable_by_key(|edge| Reverse(edge.invalid_at.unwrap_or(0)))]; the
    order of equal keys is not specified, here it is that of the list. *)
Definition later_closed (a b : KGEdge) : Prop :=
  (default 0 (ke_invalid_at b) <= default 0 (ke_invalid_at a))%Z.
#[export] Instance later_closed_dec : RelDecision later_closed.
Proof. unfold later_closed. intros a b. apply _. Defined.

Definition consolidate_versions (env : GraphEnv) (src dst : string) (edge_type : KGEdgeType) (keep_last_n : nat)
    (g : PetgraphBackend) : result KGError nat * PetgraphBackend :=
  match edge_history g src dst (Some edge_type) with
  | Err e => (Err e, g)
  | Ok history =>
      let invalidated := List.filter (fun e => opt_is_some (ke_invalid_at e) && opt_is_none (ke_expired_at e)) history in
      if (length invalidated <=? keep_last_n)%nat then (Ok 0%nat, g)
      else
        let to_expire := drop keep_last_n (merge_sort later_closed invalidated) in
        let g := foldl (fun g e => snd (add_edge env (set_expired_at (Some (ge_now env)) e) g)) g to_expire in
        (Ok (length to_expire), g)
  end.
End store.
