(* ===== verification/GraphSearch.v ===== *)
(** * The knowledge graph: path search and ranking ([src/src/fs/graph/backend.rs])

    The two worklist searches carry fuel, one unit per state taken off the
    stack or the heap; [None] is running out of it.  [GraphPaths.v] shows that
    enough fuel always exists.  [GraphPaths.v] also says which paths the
    searches return. *)

From stdpp Require Import base gmap strings list.
From Stdlib Require Import SpecFloat.
From S2P Require Import Prelude Float32 ApiRequest GraphModel Graph GraphStore Scheduler.

(** [path.iter().filter_map(|id| nodes.get(id).cloned())] *)
Definition node_path (g : PetgraphBackend) (path : list string) : list KGNode :=
  omap (fun id => g_nodes g !! id) path.

(** ** All simple paths *)

(** One entry of the stack: the node, the path to it, and the path's nodes as a set. *)
Record Search := mkSearch { s_current : string; s_path : list string; s_visited : gset string }.

Definition MAX_RESULTS : nat := 20.

(** The entries pushed for one list of edges. *)
Definition push_unvisited (s : Search) (l : list (string * KGEdge)) : list Search :=
  omap (fun x => if bool_decide (x.1 ∈ s_visited s) then None
                 else Some (mkSearch x.1 (s_path s ++ [x.1]) (s_visited s ∪ {[x.1]}))) l.

(** What an expanded entry leaves on the stack, the top first: the edges out
    are pushed in order, then the edges in. *)
Definition successors (g : PetgraphBackend) (s : Search) : list Search :=
  reverse (push_unvisited s (adj (g_out_edges g) (s_current s)) ++
           push_unvisited s (adj (g_in_edges g) (s_current s))).

Fixpoint find_paths_loop (fuel : nat) (g : PetgraphBackend) (dst : string) (max_depth : nat)
    (stack : list Search) (results : list (list KGNode)) : option (list (list KGNode)) :=
  match fuel with
  | O => None
  | S fuel =>
      match stack with
      | [] => Some results
      | s :: stack =>
          if (MAX_RESULTS <=? length results)%nat then Some results
          else if str_eqb (s_current s) dst then
            find_paths_loop fuel g dst max_depth stack (results ++ [node_path g (s_path s)])
          else if (max_depth <=? length (s_path s))%nat then
            find_paths_loop fuel g dst max_depth stack results
          else find_paths_loop fuel g dst max_depth (successors g s ++ stack) results
      end
  end.

Definition find_paths (fuel : nat) (g : PetgraphBackend) (src dst : string) (max_depth : nat)
    : option (list (list KGNode)) :=
  find_paths_loop fuel g dst max_depth [mkSearch src [src] {[src]}] [].

(** ** One weighted path *)

Record PathState := mkPathState { ps_cost : f32; ps_node : string; ps_path : list string }.

(** [Ord for PathState]: the comparison of the costs reversed, so that the heap
    gives the least cost first; NaN compares equal to everything. *)
Definition path_state_le (a b : PathState) : Prop := f32_gt (ps_cost b) (ps_cost a) = false.

(** One edge of the state taken off the heap; [best_cost] and the new states,
    latest first. *)
Definition relax (s : PathState) (acc : gmap string f32 * list PathState) (x : string * KGEdge)
    : gmap string f32 * list PathState :=
  let '(next, edge) := x in
  if str_mem next (ps_path s) then acc
  else
    let new_cost := f32_add (ps_cost s) (ke_weight edge) in
    let improves := none_or (acc.1 !! next) (fun best => negb (f32_gt best new_cost || f32_eqb new_cost best)) in
    if improves then
      (<[next := new_cost]> acc.1, mkPathState new_cost next (ps_path s ++ [next]) :: acc.2)
    else acc.

(** The edges out by descending weight, then the edges in as they stand. *)
Definition expand (g : PetgraphBackend) (s : PathState) (best_cost : gmap string f32)
    : gmap string f32 * list PathState :=
  let acc := foldl (relax s) (best_cost, []) (sort_desc (fun x => ke_weight x.2) (adj (g_out_edges g) (ps_node s))) in
  foldl (relax s) acc (adj (g_in_edges g) (ps_node s)).

Section weighted.
Context `{BinaryHeap PathState path_state_le}.

Fixpoint weighted_loop (fuel : nat) (g : PetgraphBackend) (dst : string) (max_depth : nat)
    (h : heap) (best_cost : gmap string f32) : option (option (list KGNode)) :=
  match fuel with
  | O => None
  | S fuel =>
      match heap_pop h with
      | None => Some None
      | Some (s, h) =>
          if (max_depth <? length (ps_path s))%nat then weighted_loop fuel g dst max_depth h best_cost
          else if str_eqb (ps_node s) dst then Some (Some (node_path g (ps_path s)))
          else if negb (none_or (best_cost !! ps_node s) (fun best => negb (f32_gt best (ps_cost s)))) then
            weighted_loop fuel g dst max_depth h best_cost
          else
            let '(best_cost, pushed) := expand g s best_cost in
            weighted_loop fuel g dst max_depth (foldr (fun s h => heap_push h s) h pushed) best_cost
      end
  end.

Definition find_weighted_path (fuel : nat) (g : PetgraphBackend) (src dst : string) (max_depth : nat)
    : option (option (list KGNode)) :=
  weighted_loop fuel g dst max_depth (heap_push heap_new (mkPathState f32_zero src [src])) {[src := f32_zero]}.
End weighted.

(** ** Personalized PageRank *)

Definition f32_sub (x y : f32) : f32 := SFsub f32_prec f32_emax x y.
Definition f32_abs (x : f32) : f32 := SFabs x.

(** [1e-10], [1e-8] and [1e-6], the nearest singles. *)
Definition f32_1e_10 : f32 := f32_div (f32_of_Z 1) (f32_of_Z 10000000000).
Definition f32_1e_8 : f32 := f32_div (f32_of_Z 1) (f32_of_Z 100000000).
Definition f32_1e_6 : f32 := f32_div (f32_of_Z 1) (f32_of_Z 1000000).

Section pagerank.
Context `{HashIter}.
Variables (g : PetgraphBackend) (node_ids : list string) (seed_nodes : list string) (alpha : f32).

Definition seed_val : f32 := f32_div (f32_of_Z 1) (f32_of_nat (length seed_nodes)).

(** [scores[idx] += x], the scores under the node's identifier: [id_to_idx] is
    the position of an identifier in [node_ids], which has each once. *)
Definition score_add (x : f32) (id : string) (scores : gmap string f32) : gmap string f32 :=
  alter (fun v => f32_add v x) id scores.

Definition zero_scores : gmap string f32 := list_to_map ((fun id => (id, f32_zero)) <$> node_ids).

Definition initial_scores : gmap string f32 :=
  foldl (fun scores s => alter (fun _ => seed_val) s scores) zero_scores seed_nodes.

Definition teleport (next : gmap string f32) : gmap string f32 :=
  foldl (fun next s => score_add (f32_mul alpha seed_val) s next) next seed_nodes.

Definition walk_from (scores next : gmap string f32) (row : string * list (string * KGEdge)) : gmap string f32 :=
  match scores !! row.1 with
  | None => next
  | Some cur_score =>
      if f32_gt f32_1e_10 cur_score then next
      else
        let valid := List.filter (fun dst => opt_is_some (scores !! dst)) row.2.*1 in
        match valid with
        | [] => next
        | _ =>
            let share := f32_div (f32_mul (f32_sub (f32_of_Z 1) alpha) cur_score) (f32_of_nat (length valid)) in
            foldl (fun next dst => score_add share dst next) next valid
        end
  end.

Definition pagerank_step (scores : gmap string f32) : gmap string f32 :=
  foldl (walk_from scores) (teleport zero_scores) (hash_iter (g_out_edges g)).

(** The scores in the order of [node_ids]. *)
Definition score_vec (scores : gmap string f32) : list f32 :=
  (fun id => default f32_zero (scores !! id)) <$> node_ids.
Definition score_diff (a b : gmap string f32) : f32 :=
  foldl f32_add f32_neg_zero (zip_with (fun x y => f32_abs (f32_sub x y)) (score_vec a) (score_vec b)).

Fixpoint pagerank_iterate (max_iter : nat) (scores : gmap string f32) : gmap string f32 :=
  match max_iter with
  | O => scores
  | S n =>
      let next := pagerank_step scores in
      if f32_gt f32_1e_6 (score_diff scores next) then next else pagerank_iterate n next
  end.
End pagerank.

Definition personalized_pagerank `{HashIter} (g : PetgraphBackend) (seed_nodes : list string) (alpha : f32)
    (max_iter top_k : nat) : result KGError (list (string * f32)) :=
  if bool_decide (g_nodes g = ∅) || bool_decide (seed_nodes = []) then Ok []
  else
    let node_ids := keys (g_nodes g) in
    let scores := pagerank_iterate g node_ids seed_nodes alpha max_iter (initial_scores node_ids seed_nodes) in
    let ranked := List.filter (fun x => f32_gt x.2 f32_1e_8) (zip node_ids (score_vec node_ids scores)) in
    Ok (take top_k (sort_desc snd ranked)).
