(* ===== verification/GraphPaths.v ===== *)
(** * What the path searches return

    Both searches end, whatever the graph: a state is only pushed with a longer
    path than the one it extends, and paths longer than the bound are not
    extended.  What [find_paths] returns are the simple paths between the two
    nodes, all of them unless there are twenty; what [find_weighted_path]
    returns is one of them. *)

From stdpp Require Import base gmap strings list.
From S2P Require Import Prelude Float32 ApiRequest GraphModel Graph GraphStore GraphSearch Scheduler.

(** ** Paths *)

(** An edge in either direction. *)
Definition linked (g : PetgraphBackend) (a b : string) : Prop :=
  b ∈ (adj (g_out_edges g) a).*1 \/ b ∈ (adj (g_in_edges g) a).*1.

Definition chained (g : PetgraphBackend) (p : list string) : Prop :=
  forall i a b, p !! i = Some a -> p !! S i = Some b -> linked g a b.

(** A path without repetition that starts at [src] and follows edges. *)
Record trail (g : PetgraphBackend) (src : string) (p : list string) : Prop := {
  trail_head : head p = Some src;
  trail_nodup : NoDup p;
  trail_chained : chained g p;
}.

(** A path of at most [d] nodes between two nodes; a node alone is always one. *)
Definition simple_route (g : PetgraphBackend) (src dst : string) (d : nat) (p : list string) : Prop :=
  trail g src p /\ last p = Some dst /\ (length p <= Nat.max 1 d)%nat.

Lemma trail_single g src : trail g src [src].
Proof.
  split; [done | apply NoDup_singleton |].
  intros [|i] a b Ha Hb; cbn in *; [by inversion Hb | by destruct i].
Qed.

Lemma chained_snoc g p a b : chained g (p ++ [a]) -> linked g a b -> chained g ((p ++ [a]) ++ [b]).
Proof.
  intros Hc Hl i x y Hx Hy.
  destruct (decide (S i < length (p ++ [a]))) as [Hlt|Hge].
  - rewrite lookup_app_l in Hx by lia. rewrite lookup_app_l in Hy by lia. by eapply Hc.
  - rewrite lookup_app_r in Hy by lia.
    apply list_lookup_singleton_Some in Hy as [Hi <-].
    rewrite length_app in *. cbn in *.
    rewrite lookup_app_l in Hx by (rewrite length_app; cbn; lia).
    rewrite lookup_app_r in Hx by lia.
    apply list_lookup_singleton_Some in Hx as [_ <-]. done.
Qed.

Lemma trail_snoc g src p a b :
  trail g src p -> last p = Some a -> linked g a b -> b ∉ p -> trail g src (p ++ [b]).
Proof.
  intros [Hh Hn Hc] Hl Hlk Hb. split.
  - by destruct p.
  - apply NoDup_app. split_and!; [done | | apply NoDup_singleton].
    intros x Hx ->%list_elem_of_singleton. done.
  - apply last_Some in Hl as [p' ->]. by apply chained_snoc.
Qed.

Lemma last_nodup_prefix (p q : list string) x :
  last p = Some x -> last (p ++ q) = Some x -> NoDup (p ++ q) -> q = [].
Proof.
  intros Hp Hq Hn. destruct q as [|y q] using rev_ind; [done|]. clear IHq.
  rewrite app_assoc, last_snoc in Hq. injection Hq as ->.
  apply NoDup_app in Hn as (_ & Hn & _). exfalso.
  apply (Hn x); [by apply last_Some_elem_of | set_solver].
Qed.

(** ** The measure *)

(** The states a path of [n] more steps can still lead to, at branching [b]. *)
Fixpoint effort (b n : nat) : nat :=
  match n with
  | O => 1
  | S n => 1 + b * effort b n
  end.

Lemma effort_pos b n : (1 <= effort b n)%nat.
Proof. destruct n; cbn; lia. Qed.

Lemma length_sum_list {A} (k : string) (l : list A) (xs : list (string * list A)) :
  (k, l) ∈ xs -> (length l <= sum_list (length <$> xs.*2))%nat.
Proof.
  induction xs as [|x xs IH]; intros Hk; [by apply not_elem_of_nil in Hk|].
  apply elem_of_cons in Hk as [<-|Hk]; cbn; [lia|]. specialize (IH Hk). lia.
Qed.

Lemma omap_length_le {A B} (f : A -> option B) l : (length (omap f l) <= length l)%nat.
Proof. induction l as [|x l IH]; csimpl; [done|]. destruct (f x); cbn; lia. Qed.

Lemma adj_length (m : Adjacency) k : (length (adj m k) <= sum_list (length <$> (map_to_list m).*2))%nat.
Proof.
  unfold adj. destruct (m !! k) as [l|] eqn:Hk; cbn; [|lia].
  apply (length_sum_list k). by apply elem_of_map_to_list.
Qed.

(** A bound on the edges at any node. *)
Definition branching (g : PetgraphBackend) : nat :=
  sum_list (length <$> (map_to_list (g_out_edges g)).*2) + sum_list (length <$> (map_to_list (g_in_edges g)).*2).

Lemma branching_spec g k :
  (length (adj (g_out_edges g) k) + length (adj (g_in_edges g) k) <= branching g)%nat.
Proof. unfold branching. pose proof (adj_length (g_out_edges g) k). pose proof (adj_length (g_in_edges g) k). lia. Qed.

(** The work left in a list of paths. *)
Definition work (b d : nat) (ps : list (list string)) : nat :=
  sum_list_with (fun p => effort b (d - length p)) ps.

Lemma work_app b d ps qs : work b d (ps ++ qs) = (work b d ps + work b d qs)%nat.
Proof. apply sum_list_with_app. Qed.

Lemma work_perm b d ps qs : ps ≡ₚ qs -> work b d ps = work b d qs.
Proof. intros Hp. unfold work. by rewrite Hp. Qed.

(** Replacing a path by at most [b] paths one step longer leaves less work. *)
Lemma work_children b d (p : list string) (qs : list (list string)) :
  (length p < d)%nat -> (length qs <= b)%nat -> Forall (fun q => length q = S (length p)) qs ->
  (work b d qs < effort b (d - length p))%nat.
Proof.
  intros Hd Hb Hall. replace (d - length p)%nat with (S (d - S (length p))) by lia. cbn.
  assert (work b d qs = length qs * effort b (d - S (length p)))%nat as ->; [|nia].
  clear Hb. unfold work. induction Hall as [|q qs Hq _ IH]; cbn; [done|]. rewrite Hq, IH. done.
Qed.

(** ** The search for all paths *)

(** Both lists of edges, in the order in which they are pushed. *)
Lemma successors_paths g s :
  Forall (fun q => length q = S (length (s_path s))) (s_path <$> successors g s) /\
  (length (s_path <$> successors g s) <= branching g)%nat.
Proof.
  unfold successors. rewrite length_fmap, length_reverse, length_app. split.
  - rewrite Forall_fmap, Forall_reverse, Forall_app. split; apply Forall_forall;
      intros t ([y e] & _ & Ht)%list_elem_of_omap; case_bool_decide; simplify_eq; cbn; rewrite length_app; cbn; lia.
  - pose proof (branching_spec g (s_current s)).
    pose proof (fun l => omap_length_le (fun x : string * KGEdge => if bool_decide (x.1 ∈ s_visited s) then None
                 else Some (mkSearch x.1 (s_path s ++ [x.1]) (s_visited s ∪ {[x.1]}))) l) as Hle.
    pose proof (Hle (adj (g_out_edges g) (s_current s))). pose proof (Hle (adj (g_in_edges g) (s_current s))).
    unfold push_unvisited. lia.
Qed.

Lemma find_paths_loop_ends g dst d fuel stack results :
  (work (branching g) d (s_path <$> stack) < fuel)%nat ->
  exists r, find_paths_loop fuel g dst d stack results = Some r.
Proof.
  revert stack results. induction fuel as [|fuel IH]; intros stack results Hw; [lia|].
  destruct stack as [|s stack]; cbn [find_paths_loop]; [by eexists|].
  unfold work in Hw. cbn in Hw. fold (work (branching g) d (s_path <$> stack)) in Hw.
  pose proof (effort_pos (branching g) (d - length (s_path s))).
  repeat case_match; [by eexists | apply IH; lia | apply IH; lia |].
  apply IH. rewrite fmap_app, work_app.
  destruct (successors_paths g s) as [Hall Hlen].
  pose proof (work_children (branching g) d (s_path s) _ ltac:(apply Nat.leb_gt; done) Hlen Hall). lia.
Qed.

(** An entry of the stack. *)
Record entry_ok (g : PetgraphBackend) (src : string) (d : nat) (s : Search) : Prop := {
  eo_trail : trail g src (s_path s);
  eo_last : last (s_path s) = Some (s_current s);
  eo_visited : s_visited s = list_to_set (s_path s);
  eo_length : (length (s_path s) <= Nat.max 1 d)%nat;
}.

Lemma elem_of_successors g s t :
  t ∈ successors g s <->
  exists x, linked g (s_current s) x /\ x ∉ s_visited s /\ t = mkSearch x (s_path s ++ [x]) (s_visited s ∪ {[x]}).
Proof.
  unfold successors, linked. rewrite elem_of_reverse, elem_of_app.
  unfold push_unvisited. rewrite !list_elem_of_omap. split.
  - intros [([x e] & Hx & Ht) | ([x e] & Hx & Ht)]; case_bool_decide; simplify_eq; exists x;
      (split; [apply (list_elem_of_fmap_2 fst) in Hx; by auto | done]).
  - intros (x & [([y e] & -> & Hx)%list_elem_of_fmap | ([y e] & -> & Hx)%list_elem_of_fmap] & Hv & ->); [left|right];
      (exists (y, e); split; [done|]; by rewrite bool_decide_eq_false_2).
Qed.

Lemma successors_ok g src d s t :
  entry_ok g src d s -> (length (s_path s) < d)%nat -> t ∈ successors g s -> entry_ok g src d t.
Proof.
  intros [Ht Hl Hv _] Hd (x & Hx & Hn & ->)%elem_of_successors.
  rewrite Hv, elem_of_list_to_set in Hn. split; cbn.
  - by eapply trail_snoc.
  - by rewrite last_snoc.
  - rewrite Hv. apply set_eq. intros y. set_solver.
  - rewrite length_app. cbn. lia.
Qed.

(** What the loop keeps: the entries are trails, what was found are routes, and
    every route was found or still has a beginning on the stack. *)
Record paths_inv (g : PetgraphBackend) (src dst : string) (d : nat) (stack : list Search)
    (found : list (list string)) : Prop := {
  pi_stack : Forall (entry_ok g src d) stack;
  pi_found : Forall (simple_route g src dst d) found;
  pi_cover : forall p, simple_route g src dst d p -> p ∈ found \/ exists s, s ∈ stack /\ s_path s `prefix_of` p;
}.

Lemma paths_inv_found g src dst d s stack found :
  s_current s = dst -> paths_inv g src dst d (s :: stack) found ->
  paths_inv g src dst d stack (found ++ [s_path s]).
Proof.
  intros Hc [Hs Hf Hcov]. apply Forall_cons in Hs as [[Ht Hl _ Hlen] Hs]. split; [done| |].
  - apply Forall_app. split; [done|]. apply Forall_singleton. split_and!; [done | by rewrite Hl, Hc | done].
  - intros p Hp. rewrite elem_of_app, list_elem_of_singleton. specialize (Hcov p Hp).
    destruct Hcov as [? | (s' & [-> |Hin]%elem_of_cons & Hpre)]; [by auto | | eauto].
    destruct Hpre as [q ->]. destruct Hp as ([_ Hn _] & Hp & _).
    rewrite (last_nodup_prefix (s_path s) q dst), app_nil_r by (done || by rewrite Hl, Hc). auto.
Qed.

Lemma route_beyond g src dst d s p :
  entry_ok g src d s -> s_current s ≠ dst -> simple_route g src dst d p -> s_path s `prefix_of` p ->
  exists x q, p = (s_path s ++ [x]) ++ q /\ linked g (s_current s) x /\ x ∉ s_visited s.
Proof.
  intros [Ht Hl Hv _] Hc ([Hh Hn Hch] & Hp & _) [[|x q] ->].
  - rewrite app_nil_r in Hp. congruence.
  - exists x, q. split; [by rewrite <-app_assoc|]. split.
    + apply (Hch (pred (length (s_path s)))).
      * rewrite lookup_app_l by (destruct (s_path s); cbn in *; [done|lia]).
        by rewrite <-last_lookup.
      * rewrite lookup_app_r by (destruct (s_path s); cbn in *; [done|lia]).
        replace (S _ - _)%nat with 0%nat by (destruct (s_path s); cbn in *; [done|lia]). done.
    + rewrite Hv, elem_of_list_to_set. apply NoDup_app in Hn as (_ & Hn & _). intros Hx. apply (Hn x Hx). set_solver.
Qed.

Lemma paths_inv_cut g src dst d s stack found :
  s_current s ≠ dst -> (d <= length (s_path s))%nat -> paths_inv g src dst d (s :: stack) found ->
  paths_inv g src dst d stack found.
Proof.
  intros Hc Hd [Hs Hf Hcov]. apply Forall_cons in Hs as [Hok Hs]. split; [done..|].
  intros p Hp. destruct (Hcov p Hp) as [? | (s' & [-> |Hin]%elem_of_cons & Hpre)]; [by auto | | eauto].
  destruct (route_beyond g src dst d s p) as (x & q & -> & _); [done..|].
  destruct Hok as [[Hh _ _] _ _ _], Hp as (_ & _ & Hlen).
  rewrite !length_app in Hlen. cbn in Hlen. destruct (s_path s); cbn in *; [done|lia].
Qed.

Lemma paths_inv_expand g src dst d s stack found :
  s_current s ≠ dst -> (length (s_path s) < d)%nat -> paths_inv g src dst d (s :: stack) found ->
  paths_inv g src dst d (successors g s ++ stack) found.
Proof.
  intros Hc Hd [Hs Hf Hcov]. apply Forall_cons in Hs as [Hok Hs]. split; [|done|].
  - apply Forall_app. split; [|done]. apply Forall_forall. intros t Ht. by eapply successors_ok.
  - intros p Hp. destruct (Hcov p Hp) as [? | (s' & [-> |Hin]%elem_of_cons & Hpre)]; [by auto | | set_solver].
    destruct (route_beyond g src dst d s p) as (x & q & -> & Hx & Hv); [done..|].
    right. exists (mkSearch x (s_path s ++ [x]) (s_visited s ∪ {[x]})). split; [|by apply prefix_app_r].
    apply elem_of_app. left. apply elem_of_successors. eauto.
Qed.

Lemma find_paths_loop_exact g src dst d fuel stack found r :
  find_paths_loop fuel g dst d stack (node_path g <$> found) = Some r ->
  paths_inv g src dst d stack found -> (length found <= MAX_RESULTS)%nat ->
  exists paths, r = node_path g <$> paths /\ Forall (simple_route g src dst d) paths /\
    (length paths <= MAX_RESULTS)%nat /\
    ((length paths < MAX_RESULTS)%nat -> forall p, simple_route g src dst d p -> p ∈ paths).
Proof.
  revert stack found. induction fuel as [|fuel IH]; intros stack found; cbn [find_paths_loop]; [done|].
  destruct stack as [|s stack]; intros E Hinv Hlen.
  { injection E as <-. exists found. split_and!; [done | apply Hinv | done |].
    intros _ p Hp. destruct (pi_cover _ _ _ _ _ _ Hinv p Hp) as [? | (s & Hs & _)]; [done|].
    by apply not_elem_of_nil in Hs. }
  rewrite length_fmap in E. destruct (MAX_RESULTS <=? length found)%nat eqn:Hm.
  { apply Nat.leb_le in Hm. injection E as <-. exists found. split_and!; [done | apply Hinv | done | lia]. }
  apply Nat.leb_gt in Hm. unfold str_eqb in E. case_bool_decide as Hc.
  { change ([node_path g (s_path s)]) with (node_path g <$> [s_path s]) in E. rewrite <-fmap_app in E.
    eapply IH; [exact E | by apply paths_inv_found | rewrite length_app; cbn; lia]. }
  destruct (d <=? length (s_path s))%nat eqn:Hd.
  - apply Nat.leb_le in Hd. eapply IH; [exact E | by eapply paths_inv_cut | done].
  - apply Nat.leb_gt in Hd. eapply IH; [exact E | by eapply paths_inv_expand | done].
Qed.

(** C30: [find_paths] always ends: there is a fuel from which on it returns, and
    what it returns are the nodes of simple paths from [src] to [dst] along
    edges in either direction, of at most [max_depth] nodes (or the single node
    when both ends agree); at most twenty of them, and when fewer are returned,
    every such path of the graph is among them. *)
Theorem find_paths_complete g src dst max_depth :
  exists enough, forall fuel, (enough <= fuel)%nat ->
  exists paths, find_paths fuel g src dst max_depth = Some (node_path g <$> paths) /\
    Forall (simple_route g src dst max_depth) paths /\
    (length paths <= MAX_RESULTS)%nat /\
    ((length paths < MAX_RESULTS)%nat -> forall p, simple_route g src dst max_depth p -> p ∈ paths).
Proof.
  set (s := mkSearch src [src] {[src]}).
  exists (S (work (branching g) max_depth (s_path <$> [s]))). intros fuel Hf.
  destruct (find_paths_loop_ends g dst max_depth fuel [s] []) as [r Hr]; [lia|].
  destruct (find_paths_loop_exact g src dst max_depth fuel [s] [] r) as (paths & -> & Hp);
    [done | | cbn; lia | by exists paths].
  split; [|by apply Forall_nil|].
  - apply Forall_singleton. split; [apply trail_single | done | cbn; set_solver | cbn; lia].
  - intros p ([Hh _ _] & _ & _). right. exists s. split; [set_solver|].
    destruct p as [|x p]; [done|]. injection Hh as ->. by exists p.
Qed.

(** ** The weighted search *)

Section weighted.
Context `{BinaryHeap PathState path_state_le}.

Lemma heap_pushes_items (h : heap) pushed : heap_items (foldr (fun s h => heap_push h s) h pushed) ≡ₚ pushed ++ heap_items h.
Proof. induction pushed as [|s ps IH]; cbn; [done|]. by rewrite heap_push_items, IH. Qed.

(** A state on the heap. *)
Definition state_ok (g : PetgraphBackend) (src : string) (s : PathState) : Prop :=
  trail g src (ps_path s) /\ last (ps_path s) = Some (ps_node s).

Lemma relax_states g src s b ps l :
  state_ok g src s -> Forall (fun x => linked g (ps_node s) x.1) l ->
  exists b' qs, foldl (relax s) (b, ps) l = (b', qs ++ ps) /\ (length qs <= length l)%nat /\
    Forall (state_ok g src) qs /\ Forall (fun q => length (ps_path q) = S (length (ps_path s))) qs.
Proof.
  intros Hs Hl. revert b ps. induction Hl as [|[x e] l Hx Hl IH]; intros b ps; cbn [foldl].
  { by exists b, []. }
  unfold relax at 2. fold (relax s).
  assert (forall b ps, exists b' qs, foldl (relax s) (b, ps) l = (b', qs ++ ps) /\
    (length qs <= length ((x, e) :: l))%nat /\ Forall (state_ok g src) qs /\
    Forall (fun q => length (ps_path q) = S (length (ps_path s))) qs) as IH'.
  { intros b0 ps0. destruct (IH b0 ps0) as (b' & qs & E & Hlen & Hok). exists b', qs. split_and!; [done | cbn; lia | apply Hok..]. }
  unfold str_mem. case_bool_decide as Hin; [apply IH'|]. case_match; [|apply IH'].
  destruct (IH (<[x := f32_add (ps_cost s) (ke_weight e)]> b)
              (mkPathState (f32_add (ps_cost s) (ke_weight e)) x (ps_path s ++ [x]) :: ps)) as (b' & qs & E & Hlen & Hok & Hq).
  exists b', (qs ++ [mkPathState (f32_add (ps_cost s) (ke_weight e)) x (ps_path s ++ [x])]).
  cbn [fst snd] in *. rewrite E, <-app_assoc. split_and!; [done | rewrite length_app; cbn; lia | |].
  - apply Forall_app. split; [done|]. apply Forall_singleton. destruct Hs as [Ht Hlast].
    split; [by eapply trail_snoc | cbn; by rewrite last_snoc].
  - apply Forall_app. split; [done|]. apply Forall_singleton. cbn. rewrite length_app. cbn. lia.
Qed.

Lemma sort_desc_perm {A} (score : A -> f32) l : sort_desc score l ≡ₚ l.
Proof. apply stable_sort_perm. Qed.

Lemma expand_states g src s b :
  state_ok g src s ->
  Forall (state_ok g src) (expand g s b).2 /\
  Forall (fun p => length p = S (length (ps_path s))) (ps_path <$> (expand g s b).2) /\
  (length (ps_path <$> (expand g s b).2) <= branching g)%nat.
Proof.
  intros Hs. unfold expand. set (out := adj (g_out_edges g) (ps_node s)). set (inc := adj (g_in_edges g) (ps_node s)).
  destruct (relax_states g src s b [] (sort_desc (fun x => ke_weight x.2) out)) as (b1 & q1 & -> & L1 & O1 & P1); [done| |].
  { apply Forall_forall. intros x Hx. rewrite sort_desc_perm in Hx. left. by apply list_elem_of_fmap_2. }
  destruct (relax_states g src s b1 (q1 ++ []) inc) as (b2 & q2 & -> & L2 & O2 & P2); [done| |].
  { apply Forall_forall. intros x Hx. right. by apply list_elem_of_fmap_2. }
  rewrite sort_desc_perm in L1. cbn [snd]. rewrite app_nil_r, Forall_fmap, length_fmap, length_app, !Forall_app.
  pose proof (branching_spec g (ps_node s)). split_and!; [done..|]. unfold out, inc in *. lia.
Qed.

Lemma weighted_loop_ends g src dst d fuel h b :
  (work (branching g) (S d) (ps_path <$> heap_items h) < fuel)%nat -> Forall (state_ok g src) (heap_items h) ->
  exists r, weighted_loop fuel g dst d h b = Some r /\
    forall p, r = Some p -> exists path, p = node_path g path /\ simple_route g src dst d path.
Proof.
  revert h b. induction fuel as [|fuel IH]; intros h b Hw Hok; [lia|]. cbn [weighted_loop].
  destruct (heap_pop h) as [[s h']|] eqn:Hpop; [|by eexists].
  apply heap_pop_some in Hpop as [Hp _]. rewrite Hp in Hok. apply Forall_cons in Hok as [Hs Hok].
  rewrite (work_perm _ _ _ _ (fmap_Permutation ps_path _ _ Hp)) in Hw.
  unfold work in Hw. cbn [fmap list_fmap sum_list_with] in Hw.
  fold (work (branching g) (S d) (ps_path <$> heap_items h')) in Hw.
  pose proof (effort_pos (branching g) (S d - length (ps_path s))).
  destruct (d <? length (ps_path s))%nat eqn:Hd; [apply IH; [lia|done]|]. apply Nat.ltb_ge in Hd.
  unfold str_eqb. case_bool_decide as Hc.
  { eexists. split; [done|]. intros p [= <-]. exists (ps_path s). destruct Hs as [Ht Hl].
    split; [done|]. split_and!; [done | by rewrite Hl, Hc | lia]. }
  case_match; [apply IH; [lia|done]|].
  destruct (expand g s b) as [b' pushed] eqn:He.
  destruct (expand_states g src s b Hs) as (Ho & Hl & Hn). rewrite He in *. cbn [snd] in *.
  pose proof (work_children (branching g) (S d) (ps_path s) (ps_path <$> pushed) ltac:(lia) Hn Hl).
  apply IH.
  - rewrite (work_perm _ _ _ _ (fmap_Permutation ps_path _ _ (heap_pushes_items h' pushed))), fmap_app, work_app. lia.
  - rewrite heap_pushes_items. by apply Forall_app.
Qed.

(** [find_weighted_path] always ends, and a path it returns is a simple path of
    the graph between the two nodes, of at most [max_depth] nodes. *)
Lemma find_weighted_path_sound g src dst max_depth :
  exists enough, forall fuel, (enough <= fuel)%nat ->
  exists r, find_weighted_path fuel g src dst max_depth = Some r /\
    forall p, r = Some p -> exists path, p = node_path g path /\ simple_route g src dst max_depth path.
Proof.
  set (h := heap_push heap_new (mkPathState f32_zero src [src])).
  assert (heap_items h ≡ₚ [mkPathState f32_zero src [src]]) as Hh by (unfold h; by rewrite heap_push_items, heap_new_items).
  exists (S (work (branching g) (S max_depth) (ps_path <$> heap_items h))). intros fuel Hf.
  apply (weighted_loop_ends g src); [unfold h in *; lia|].
  fold h. rewrite Hh. apply Forall_singleton. split; [apply trail_single | done].
Qed.

(** The weight along a path of edges out. *)
Definition out_weight (g : PetgraphBackend) (a b : string) : option f32 :=
  (fun x => ke_weight x.2) <$> List.find (fun x => str_eqb x.1 b) (adj (g_out_edges g) a).

(** Three nodes: [a] to [b] directly with weight one, or through [c] with weight
    three on each edge. *)
Definition detour : PetgraphBackend :=
  let e s d w := edge_new 0 s d Edge_RelatedTo (f32_of_Z w) in
  let n id := node_new id 0 id Node_Entity "x" "default" in
  mkGraph {["a" := n "a"; "b" := n "b"; "c" := n "c"]}
    {["a" := [("b", e "a" "b" 1%Z); ("c", e "a" "c" 3%Z)]; "c" := [("b", e "c" "b" 3%Z)]]}
    {["b" := [("a", e "a" "b" 1%Z); ("c", e "c" "b" 3%Z)]; "c" := [("a", e "a" "c" 3%Z)]]} ∅ None 0.

Lemma expand_detour :
  expand detour (mkPathState f32_zero "a" ["a"]) {["a" := f32_zero]} =
  ({["b" := f32_of_Z 1; "c" := f32_of_Z 3; "a" := f32_zero]},
   [mkPathState (f32_of_Z 1) "b" ["a"; "b"]; mkPathState (f32_of_Z 3) "c" ["a"; "c"]]).
Proof. reflexivity. Qed.

Lemma pop_least (h : heap) s t : heap_items h ≡ₚ [s; t] -> f32_gt (ps_cost t) (ps_cost s) = true ->
  exists h', heap_pop h = Some (s, h').
Proof.
  intros Hh Hgt. destruct (heap_pop h) as [[x h']|] eqn:Hp.
  - apply heap_pop_some in Hp as [Hx Hle]. exists h'. assert (x ∈ [s; t]) as Hin by (rewrite <-Hh, Hx; set_solver).
    apply elem_of_cons in Hin as [-> | ->%list_elem_of_singleton]; [done|].
    specialize (Hle s). rewrite Hh in Hle. unfold path_state_le in Hle. rewrite Hle in Hgt; [done|set_solver].
  - apply heap_pop_none in Hp. rewrite Hp in Hh. by apply Permutation_nil_cons in Hh.
Qed.

(** Whatever the heap, the search returns the direct path of the three nodes,
    although the one through [c] weighs six: the heap gives the least weight
    first, so the result is not the path of the greatest weight. *)
Lemma weighted_path_takes_lightest :
  find_weighted_path 2 detour "a" "b" 5 = Some (Some (node_path detour ["a"; "b"])) /\
  simple_route detour "a" "b" 5 ["a"; "c"; "b"] /\
  out_weight detour "a" "b" = Some (f32_of_Z 1) /\
  out_weight detour "a" "c" = Some (f32_of_Z 3) /\ out_weight detour "c" "b" = Some (f32_of_Z 3).
Proof.
  split_and!; [| | done..].
  - unfold find_weighted_path. set (s := mkPathState f32_zero "a" ["a"]). set (h := heap_push heap_new s).
    assert (heap_items h ≡ₚ [s]) as Hh by (unfold h; by rewrite heap_push_items, heap_new_items).
    cbn [weighted_loop]. destruct (heap_pop h) as [[x h']|] eqn:Hp;
      [|apply heap_pop_none in Hp; rewrite Hp in Hh; by apply Permutation_nil_cons in Hh].
    apply heap_pop_some in Hp as [Hx _]. rewrite Hx in Hh.
    apply Permutation_singleton_r in Hh. injection Hh as -> Hh.
    assert ((5 <? length (ps_path s))%nat = false) as -> by done.
    assert (str_eqb (ps_node s) "b" = false) as -> by done.
    assert (negb (none_or (({["a" := f32_zero]} : gmap string f32) !! ps_node s)
              (fun best => negb (f32_gt best (ps_cost s)))) = false) as -> by done.
    unfold s. rewrite expand_detour.
    edestruct pop_least as [h2 ->]; [rewrite heap_pushes_items, Hh; by rewrite app_nil_r | done|].
    reflexivity.
  - split_and!; [|done|cbn; lia]. split; [done | by apply (bool_decide_eq_true_1 (NoDup _)) |].
    intros [|[|[|i]]] x y Hx Hy; cbn in Hx, Hy; simplify_eq; left; vm_compute; set_solver.
Qed.
End weighted.
