(* ===== verification/GraphInvariant.v ===== *)
(** * The graph along any sequence of operations

    The invariants of the adjacency maps and of the reverse index, kept by every
    operation and so by every run from an empty graph. *)

From stdpp Require Import base gmap strings pretty list sorting.
From S2P Require Import Prelude MemoryModel Text Float32 ApiRequest GraphModel Graph GraphStore.

(** * What the operations keep of the graph

    The two adjacency maps describe the same edges, every edge lies under its
    own ends, and at most one version of a relation is open; the reverse index
    of content identifiers has every node that carries one. *)

(** ** Adjacency maps *)

Lemma adj_update_eq k f m a :
  f [] = [] -> adj (adj_update k f m) a = if decide (a = k) then f (adj m a) else adj m a.
Proof.
  intros Hf. unfold adj, adj_update. destruct (decide (a = k)) as [-> |Hne].
  - rewrite lookup_alter_eq. by destruct (m !! k).
  - by rewrite lookup_alter_ne.
Qed.

Lemma adj_push_eq k x m a : adj (adj_push k x m) a = if decide (a = k) then adj m a ++ [x] else adj m a.
Proof.
  unfold adj, adj_push. destruct (decide (a = k)) as [-> |Hne]; [by rewrite lookup_insert_eq | by rewrite lookup_insert_ne].
Qed.

Lemma adj_delete_eq k (m : Adjacency) a : adj (delete k m) a = if decide (a = k) then [] else adj m a.
Proof.
  unfold adj. destruct (decide (a = k)) as [-> |Hne]; [by rewrite lookup_delete_eq | by rewrite lookup_delete_ne].
Qed.

(** The edges of one ordered pair of nodes. *)
Definition pair_edges (m : Adjacency) (a b : string) : list KGEdge :=
  (List.filter (fun x => str_eqb x.1 b) (adj m a)).*2.

(** The edge without the time it was closed. *)
Definition version (e : KGEdge) : KGEdge := set_invalid_at None e.

Definition is_open (e : KGEdge) : bool := opt_is_none (ke_invalid_at e).
Definition open_between (other : string) (t : KGEdgeType) (l : list (string * KGEdge)) : list (string * KGEdge) :=
  List.filter (fun x => conflicting other t x && is_open x.2) l.

(** One adjacency map: every edge lies under its own ends ([ends] gives the near
    and the far one), and at most one version of a relation is open. *)
Record side_wf (ends : KGEdge -> string * string) (m : Adjacency) : Prop := {
  sw_keyed : forall a x, x ∈ adj m a -> ends x.2 = (a, x.1);
  sw_open : forall a other t, (length (open_between other t (adj m a)) <= 1)%nat;
}.
Definition out_ends (e : KGEdge) : string * string := (ke_src e, ke_dst e).
Definition in_ends (e : KGEdge) : string * string := (ke_dst e, ke_src e).

(** The two maps hold the same edges in the same order, as far as [f] sees. *)
Definition mirror (f : KGEdge -> KGEdge) (out inc : Adjacency) : Prop :=
  forall a b, f <$> pair_edges out a b = f <$> pair_edges inc b a.

Record edges_wf (f : KGEdge -> KGEdge) (out inc : Adjacency) : Prop := {
  ew_out : side_wf out_ends out;
  ew_in : side_wf in_ends inc;
  ew_mirror : mirror f out inc;
}.

Lemma edges_wf_empty f : edges_wf f ∅ ∅.
Proof.
  split; [split|split|done]; unfold adj; intros a x; rewrite lookup_empty; try by intros ?%not_elem_of_nil.
  all: intros t; cbn; lia.
Qed.

(** ** Filters *)

Lemma open_between_filter_le other t p l :
  (length (open_between other t (List.filter p l)) <= length (open_between other t l))%nat.
Proof.
  induction l as [|x l IH]; [done|]. unfold open_between in *. cbn [List.filter]. destruct (p x); cbn [List.filter]; destruct (_ && _); cbn [length]; lia.
Qed.

Lemma side_wf_filter ends m m' (p : string -> string * KGEdge -> bool) :
  (forall a, adj m' a = List.filter (p a) (adj m a)) -> side_wf ends m -> side_wf ends m'.
Proof.
  intros E [Hk Ho]. split; intros a x; rewrite E.
  - intros Hx%list_elem_of_In%List.filter_In. apply Hk, list_elem_of_In, Hx.
  - intros t. etrans; [apply open_between_filter_le | apply Ho].
Qed.

Lemma pair_edges_filter m m' (p : string -> string * KGEdge -> bool) a b :
  (forall a, adj m' a = List.filter (p a) (adj m a)) ->
  pair_edges m' a b = List.filter (fun e => p a (b, e)) (pair_edges m a b).
Proof.
  intros E. unfold pair_edges. rewrite E. induction (adj m a) as [|[c e] l IH]; cbn; [done|].
  destruct (p a (c, e)) eqn:Hp; cbn; unfold str_eqb in *; case_bool_decide; subst; cbn; rewrite ?Hp; by rewrite ?IH.
Qed.

Lemma fmap_filter_respects {A B} (f : A -> B) (p q : A -> bool) l k :
  (forall x y, f x = f y -> p x = q y) -> f <$> l = f <$> k -> f <$> List.filter p l = f <$> List.filter q k.
Proof.
  intros Hp. revert k. induction l as [|x l IH]; intros [|y k] E; try done.
  cbn in E. injection E as Exy E. cbn. rewrite (Hp x y Exy). destruct (q y); cbn; [f_equal; [done|]|]; by apply IH.
Qed.

(** Dropping the same edges from both maps. *)
Lemma edges_wf_filter f (keep : string -> string -> KGEdge -> bool) out inc out' inc' :
  (forall x y a b, f x = f y -> keep a b x = keep a b y) ->
  (forall a, adj out' a = List.filter (fun x => keep a x.1 x.2) (adj out a)) ->
  (forall b, adj inc' b = List.filter (fun x => keep x.1 b x.2) (adj inc b)) ->
  edges_wf f out inc -> edges_wf f out' inc'.
Proof.
  intros Hf Ho Hi [Wo Wi Hm]. split.
  - by eapply (side_wf_filter _ out out' (fun a x => keep a x.1 x.2)).
  - by eapply (side_wf_filter _ inc inc' (fun b x => keep x.1 b x.2)).
  - intros a b. rewrite (pair_edges_filter out out' (fun a x => keep a x.1 x.2) a b Ho).
    rewrite (pair_edges_filter inc inc' (fun b x => keep x.1 b x.2) b a Hi).
    apply fmap_filter_respects; [|apply Hm]. intros x y. apply Hf.
Qed.

(** ** Closing *)

Lemma close_if_fst now p x : (close_if now p x).1 = x.1.
Proof. unfold close_if. by destruct (_ && _). Qed.

Lemma close_if_version now p x : version (close_if now p x).2 = version x.2.
Proof. unfold close_if. by destruct (_ && _). Qed.

Lemma open_between_closed now other t l : open_between other t (close_if now (conflicting other t) <$> l) = [].
Proof.
  induction l as [|x l IH]; [done|]. unfold open_between in *. cbn [fmap list_fmap List.filter]. rewrite IH.
  unfold close_if. destruct (conflicting other t x && _) eqn:Hc.
  - unfold is_open. cbn [snd set_invalid_at ke_invalid_at opt_is_none opt_is_some negb]. by rewrite andb_false_r.
  - unfold is_open. by rewrite Hc.
Qed.

Lemma open_between_close_le now p other t l :
  (length (open_between other t (close_if now p <$> l)) <= length (open_between other t l))%nat.
Proof.
  induction l as [|x l IH]; [done|]. unfold open_between in *. cbn [fmap list_fmap List.filter].
  unfold close_if at 1 2. destruct (p x && _); cbn [fst snd]; [|destruct (_ && _); cbn [length]; lia].
  unfold is_open at 1. cbn. rewrite andb_false_r. destruct (conflicting _ _ x && _); cbn [length]; lia.
Qed.

Lemma side_wf_close ends m m' now (p : string -> string * KGEdge -> bool) :
  (forall o e, ends (set_invalid_at o e) = ends e) ->
  (forall a, adj m' a = close_if now (p a) <$> adj m a) -> side_wf ends m -> side_wf ends m'.
Proof.
  intros He E [Hk Ho]. split; intros a x; rewrite E.
  - intros (y & -> & Hy)%list_elem_of_fmap. rewrite close_if_fst, <-(Hk a y Hy).
    unfold close_if. destruct (_ && _); [apply He | done].
  - intros t. etrans; [apply open_between_close_le | apply Ho].
Qed.

Lemma pair_edges_close m m' now (p : string -> string * KGEdge -> bool) a b :
  (forall a, adj m' a = close_if now (p a) <$> adj m a) ->
  pair_edges m' a b = (fun e => (close_if now (p a) (b, e)).2) <$> pair_edges m a b.
Proof.
  intros E. unfold pair_edges. rewrite E. induction (adj m a) as [|[c e] l IH]; [done|].
  cbn [fmap list_fmap List.filter]. rewrite close_if_fst. cbn [fst].
  unfold str_eqb in *. case_bool_decide; [subst; csimpl; by rewrite IH | done].
Qed.

(** Closing edges in both maps, as far as [f] sees in the same way. *)
Lemma edges_wf_close f now (p q : string -> string * KGEdge -> bool) out inc out' inc' :
  (forall a b x y, f x = f y -> f (close_if now (p a) (b, x)).2 = f (close_if now (q b) (a, y)).2) ->
  (forall a, adj out' a = close_if now (p a) <$> adj out a) ->
  (forall b, adj inc' b = close_if now (q b) <$> adj inc b) ->
  edges_wf f out inc -> edges_wf f out' inc'.
Proof.
  intros Hf Ho Hi [Wo Wi Hm]. split.
  - by eapply side_wf_close.
  - by eapply side_wf_close.
  - intros a b. rewrite (pair_edges_close out out' now p a b Ho), (pair_edges_close inc inc' now q b a Hi).
    specialize (Hm a b). revert Hm. generalize (pair_edges out a b) (pair_edges inc b a).
    intros l. induction l as [|x l IH]; intros [|y k] E; try done.
    cbn in E. injection E as Exy E. cbn. f_equal; [by apply Hf | by apply IH].
Qed.

(** ** Adding *)

Lemma side_wf_push ends m m' near far e :
  ends e = (near, far) ->
  (forall a, adj m' a = if decide (a = near) then adj m a ++ [(far, e)] else adj m a) ->
  (is_open e = true -> open_between far (ke_edge_type e) (adj m near) = []) ->
  side_wf ends m -> side_wf ends m'.
Proof.
  intros He E Hno [Hk Ho]. split; intros a x; rewrite E; destruct (decide (a = near)) as [-> |Hne]; auto.
  - intros [Hx| ->%list_elem_of_singleton]%elem_of_app; [by apply Hk | done].
  - intros t. unfold open_between. rewrite List.filter_app, length_app.
    fold (open_between x t (adj m near)). cbn [List.filter snd].
    destruct (conflicting x t (far, e) && is_open e) eqn:Hb; cbn [length]; [|pose proof (Ho near x t); lia].
    apply andb_true_iff in Hb as [Hc Hop]. unfold conflicting, str_eqb in Hc. cbn in Hc.
    apply andb_true_iff in Hc as [Hx Ht]. apply bool_decide_eq_true_1 in Hx as <-, Ht as <-.
    rewrite (Hno Hop). cbn. lia.
Qed.

Lemma pair_edges_push m m' near far e a b :
  (forall a, adj m' a = if decide (a = near) then adj m a ++ [(far, e)] else adj m a) ->
  pair_edges m' a b = if decide (a = near /\ b = far) then pair_edges m a b ++ [e] else pair_edges m a b.
Proof.
  intros E. unfold pair_edges. rewrite E. destruct (decide (a = near)) as [-> |Hne].
  - rewrite List.filter_app. cbn [List.filter fst]. unfold str_eqb at 2. case_bool_decide as Hb.
    + rewrite decide_True by done. by rewrite fmap_app.
    + rewrite decide_False by naive_solver. by rewrite app_nil_r.
  - rewrite decide_False by naive_solver. done.
Qed.

Lemma edges_wf_push f e out inc :
  (is_open e = true -> open_between (ke_dst e) (ke_edge_type e) (adj out (ke_src e)) = [] /\
                       open_between (ke_src e) (ke_edge_type e) (adj inc (ke_dst e)) = []) ->
  edges_wf f out inc ->
  edges_wf f (adj_push (ke_src e) (ke_dst e, e) out) (adj_push (ke_dst e) (ke_src e, e) inc).
Proof.
  intros Hno [Wo Wi Hm]. split.
  - eapply (side_wf_push _ out); [done | intros a; apply adj_push_eq | | done]. intros Hop. by apply Hno.
  - eapply (side_wf_push _ inc); [done | intros a; apply adj_push_eq | | done]. intros Hop. by apply Hno.
  - intros a b.
    rewrite (pair_edges_push out (adj_push (ke_src e) (ke_dst e, e) out) (ke_src e) (ke_dst e) e) by apply adj_push_eq.
    rewrite (pair_edges_push inc (adj_push (ke_dst e) (ke_src e, e) inc) (ke_dst e) (ke_src e) e) by apply adj_push_eq.
    destruct (decide (a = ke_src e /\ b = ke_dst e)) as [[-> ->]|Hne].
    + rewrite decide_True by done. by rewrite !fmap_app, Hm.
    + rewrite decide_False by naive_solver. apply Hm.
Qed.

(** ** The operations on the edges *)

Section ops.
Context `{HashIter} `{GraphCodec}.

(** The functions [f] under which the two maps may be compared: the edges
    themselves, or their versions. *)
Definition comparison (f : KGEdge -> KGEdge) : Prop := f = id \/ f = version.

Lemma comparison_fields f x y : comparison f -> f x = f y ->
  ke_edge_type x = ke_edge_type y /\ ke_created_at x = ke_created_at y.
Proof. intros [-> | ->] E; [by rewrite (E : x = y)|]. by injection E. Qed.

(** Persistence does not touch the maps. *)
Definition same_maps (g g' : PetgraphBackend) : Prop :=
  g_nodes g' = g_nodes g /\ g_out_edges g' = g_out_edges g /\ g_in_edges g' = g_in_edges g /\
  g_cid_refs g' = g_cid_refs g.

Lemma persist_edges_maps env es g : same_maps g (persist_edges env es g).
Proof. unfold persist_edges. by destruct (g_db g). Qed.
Lemma persist_node_maps env id n g : same_maps g (persist_node env id n g).
Proof. unfold persist_node. by destruct (g_db g). Qed.
Lemma maybe_compact_maps g : same_maps g (maybe_compact g).
Proof. unfold maybe_compact. by case_match. Qed.
Lemma remove_edges_maps env es g : same_maps g (remove_edges_from_db env es g).
Proof. unfold remove_edges_from_db. by destruct (g_db g), es. Qed.
Lemma remove_node_and_edges_maps env id es g : same_maps g (remove_node_and_edges_from_db env id es g).
Proof. unfold remove_node_and_edges_from_db. by destruct (g_db g). Qed.
Lemma same_maps_sym g g' : same_maps g g' -> same_maps g' g.
Proof. unfold same_maps. by intros (-> & -> & -> & ->). Qed.
Lemma same_maps_trans g g' g'' : same_maps g g' -> same_maps g' g'' -> same_maps g g''.
Proof. unfold same_maps. intros (-> & -> & -> & ->). done. Qed.

Definition graph_edges_wf (f : KGEdge -> KGEdge) (g : PetgraphBackend) : Prop :=
  edges_wf f (g_out_edges g) (g_in_edges g).

Lemma graph_edges_wf_same f g g' : same_maps g g' -> graph_edges_wf f g -> graph_edges_wf f g'.
Proof. unfold graph_edges_wf. by intros (_ & -> & -> & _). Qed.

(** [adj_update] with a closing function, at every key. *)
Lemma adj_update_close k now q m a :
  adj (adj_update k (fmap (close_if now q)) m) a = close_if now (fun x => bool_decide (a = k) && q x) <$> adj m a.
Proof.
  rewrite adj_update_eq by done. destruct (decide (a = k)) as [Hk|Hk].
  - apply list_fmap_ext. intros _ x _. unfold close_if. by rewrite bool_decide_eq_true_2.
  - rewrite <-list_fmap_id at 1. apply list_fmap_ext. intros _ x _. unfold close_if. by rewrite bool_decide_eq_false_2.
Qed.

Lemma adj_update_filter k p m a :
  adj (adj_update k (List.filter p) m) a = List.filter (fun x => negb (bool_decide (a = k)) || p x) (adj m a).
Proof.
  rewrite adj_update_eq by done. destruct (decide (a = k)) as [Hk|Hk].
  - rewrite bool_decide_eq_true_2 by done. done.
  - rewrite bool_decide_eq_false_2 by done. cbn. symmetry. by apply lfilter_all.
Qed.

Lemma invalidate_conflicts_edges f env e g : comparison f ->
  graph_edges_wf f g -> graph_edges_wf f (invalidate_conflicts_internal env e g).2.
Proof.
  intros Hf. unfold graph_edges_wf, invalidate_conflicts_internal. cbn [snd with_edges g_out_edges g_in_edges].
  apply (edges_wf_close f (ge_now env)
           (fun a x => bool_decide (a = ke_src e) && conflicting (ke_dst e) (ke_edge_type e) x)
           (fun b x => bool_decide (b = ke_dst e) && conflicting (ke_src e) (ke_edge_type e) x)).
  - intros a b x y E. destruct Hf as [-> | ->]; [|by rewrite !close_if_version].
    cbn in E. subst y. unfold id, close_if, conflicting, str_eqb. cbn [fst snd].
    repeat case_bool_decide; by destruct (opt_is_none _).
  - intros a. apply adj_update_close.
  - intros b. apply adj_update_close.
Qed.

Lemma closed_no_conflict env e g :
  let g' := (invalidate_conflicts_internal env e g).2 in
  open_between (ke_dst e) (ke_edge_type e) (adj (g_out_edges g') (ke_src e)) = [] /\
  open_between (ke_src e) (ke_edge_type e) (adj (g_in_edges g') (ke_dst e)) = [].
Proof.
  cbn. rewrite !adj_update_eq, !decide_True by done. split; apply open_between_closed.
Qed.

Lemma add_edge_edges f env e g : comparison f -> graph_edges_wf f g -> graph_edges_wf f (add_edge env e g).2.
Proof.
  intros Hf Hg. pose proof (invalidate_conflicts_edges f env e g Hf Hg) as Hc.
  pose proof (closed_no_conflict env e g) as Hn. unfold add_edge.
  destruct (invalidate_conflicts_internal env e g) as [inv g1]. cbn [snd] in *.
  eapply graph_edges_wf_same; [eapply same_maps_trans; [apply persist_edges_maps | apply maybe_compact_maps]|].
  unfold graph_edges_wf. cbn [with_edges g_out_edges g_in_edges]. by apply edges_wf_push.
Qed.

Lemma add_node_edges f env n g : graph_edges_wf f g -> graph_edges_wf f (add_node env n g).2.
Proof.
  intros Hg. unfold add_node. cbn [snd].
  eapply graph_edges_wf_same; [eapply same_maps_trans; [apply persist_node_maps | apply maybe_compact_maps]|].
  by destruct (kn_content_cid n).
Qed.

Lemma update_node_edges f env id l p g : graph_edges_wf f g -> graph_edges_wf f (update_node env id l p g).2.
Proof.
  intros Hg. unfold update_node. destruct (g_nodes g !! id); [|done]. cbn [snd].
  eapply graph_edges_wf_same; [apply persist_node_maps | done].
Qed.

Lemma invalidate_conflicts_op_edges f env e g : comparison f ->
  graph_edges_wf f g -> graph_edges_wf f (invalidate_conflicts env e g).2.
Proof.
  intros Hf Hg. pose proof (invalidate_conflicts_edges f env e g Hf Hg) as Hc. unfold invalidate_conflicts.
  destruct (invalidate_conflicts_internal env e g) as [[|] g1]; [done|].
  eapply graph_edges_wf_same; [apply persist_edges_maps | done].
Qed.

Lemma invalidate_edge_edges env src dst t g :
  graph_edges_wf version g -> graph_edges_wf version (invalidate_edge env src dst t g).2.
Proof.
  intros Hg. unfold invalidate_edge.
  set (g1 := with_edges _ _ _).
  assert (graph_edges_wf version g1) as H1.
  { apply (edges_wf_close version (ge_now env) (fun a x => bool_decide (a = src) && names_edge dst t x)
             (fun _ _ => false) (g_out_edges g) (g_in_edges g)); [| | |done].
    - intros a b x y E. by rewrite !close_if_version.
    - intros a. apply adj_update_close.
    - intros b. cbn. rewrite <-list_fmap_id at 1. by apply list_fmap_ext. }
  destruct (closed_by _ _ _); [done|]. eapply graph_edges_wf_same; [apply persist_edges_maps | done].
Qed.

Lemma remove_edge_edges f env src dst t g : comparison f ->
  graph_edges_wf f g -> graph_edges_wf f (remove_edge env src dst t g).2.
Proof.
  intros Hf Hg. unfold remove_edge. set (g1 := with_edges _ _ _).
  assert (graph_edges_wf f g1) as H1.
  { apply (edges_wf_filter f (fun a b e => negb (bool_decide (a = src) && bool_decide (b = dst) && type_matches t e))
             (g_out_edges g) (g_in_edges g)); [| | |done].
    - intros x y a b E. destruct (comparison_fields f x y Hf E) as [Ht _].
      unfold type_matches. by rewrite Ht.
    - intros a. cbn. rewrite adj_update_filter. apply List.filter_ext. intros x.
      unfold between, str_eqb. repeat case_bool_decide; by destruct (type_matches t x.2).
    - intros b. cbn. rewrite adj_update_filter. apply List.filter_ext. intros x.
      unfold between, str_eqb. repeat case_bool_decide; by destruct (type_matches t x.2). }
  case_match; [done|]. eapply graph_edges_wf_same; [apply remove_edges_maps | done].
Qed.

Lemma adj_fold_filter (near far : KGEdge -> string) es m a :
  adj (foldl (fun m e => adj_update (near e) (List.filter (fun x => negb (same_version (far e) e x))) m) m es) a =
  List.filter (fun x => forallb (fun e => negb (bool_decide (a = near e) && same_version (far e) e x)) es) (adj m a).
Proof.
  revert m. induction es as [|e es IH]; intros m; cbn [foldl forallb].
  - symmetry. by apply lfilter_all.
  - rewrite IH, adj_update_filter, lfilter_filter. apply List.filter_ext. intros x. by rewrite negb_andb.
Qed.

Lemma compact_edges_edges f env g : comparison f -> graph_edges_wf f g -> graph_edges_wf f (compact_edges env g).2.
Proof.
  intros Hf Hg. unfold compact_edges. set (es := List.filter _ _).
  assert (graph_edges_wf f (with_edges
     (foldl (fun m e => adj_update (ke_src e) (List.filter (fun x => negb (same_version (ke_dst e) e x))) m) (g_out_edges g) es)
     (foldl (fun m e => adj_update (ke_dst e) (List.filter (fun x => negb (same_version (ke_src e) e x))) m) (g_in_edges g) es) g)).
  { apply (edges_wf_filter f (fun a b x => forallb (fun e => negb (bool_decide (a = ke_src e) && same_version (ke_dst e) e (b, x))) es)
             (g_out_edges g) (g_in_edges g)); [| | |done].
    - intros x y a b E. destruct (comparison_fields f x y Hf E) as [Ht Hc].
      unfold same_version. cbn [fst snd]. by rewrite Ht, Hc.
    - intros a. cbn. rewrite adj_fold_filter. apply List.filter_ext. by intros [].
    - intros b. cbn. rewrite adj_fold_filter. apply List.filter_ext. intros x.
      induction es as [|e es IH]; [done|]. cbn [forallb]. rewrite IH. f_equal. unfold same_version, str_eqb. cbn.
      f_equal. repeat case_bool_decide; done. }
  destruct es; [done|]. eapply graph_edges_wf_same; [apply remove_edges_maps | done].
Qed.

Lemma adj_drop_other id keys m a :
  adj (drop_other id keys m) a = List.filter (fun x => negb (str_mem a keys) || negb (str_eqb x.1 id)) (adj m a).
Proof.
  unfold drop_other. revert m. induction keys as [|k keys IH]; intros m; cbn [foldl].
  - symmetry. by apply lfilter_all.
  - rewrite IH, adj_update_filter, lfilter_filter. apply List.filter_ext. intros x.
    unfold str_mem. destruct (negb (str_eqb x.1 id)); [by rewrite !orb_true_r|]. rewrite !orb_false_r.
    repeat case_bool_decide; set_solver.
Qed.

Lemma pair_edges_nil m a b : pair_edges m a b = [] <-> b ∉ (adj m a).*1.
Proof.
  unfold pair_edges. induction (adj m a) as [|[c e] l IH]; cbn; [set_solver|].
  unfold str_eqb in *. case_bool_decide; cbn; [set_solver|]. rewrite IH. set_solver.
Qed.

Lemma mirror_elem f out inc a b : mirror f out inc -> b ∈ (adj out a).*1 <-> a ∈ (adj inc b).*1.
Proof.
  intros Hm. specialize (Hm a b). pose proof (pair_edges_nil out a b) as Ho. pose proof (pair_edges_nil inc b a) as Hi.
  assert (pair_edges out a b = [] <-> pair_edges inc b a = []) as Hn.
  { destruct (pair_edges out a b), (pair_edges inc b a); done. }
  destruct (decide (b ∈ (adj out a).*1)), (decide (a ∈ (adj inc b).*1)); tauto.
Qed.

(** The edges left when a node goes: those that do not touch it. *)
Lemma remove_node_adj f env id g : mirror f (g_out_edges g) (g_in_edges g) ->
  let keep a (x : string * KGEdge) := negb (str_eqb a id) && negb (str_eqb x.1 id) in
  forall a, adj (g_out_edges (remove_node env id g).2) a = List.filter (keep a) (adj (g_out_edges g) a) /\
            adj (g_in_edges (remove_node env id g).2) a = List.filter (keep a) (adj (g_in_edges g) a).
Proof.
  intros Hm keep a. unfold remove_node.
  set (g1 := match g_nodes g !! id with Some _ => _ | None => g end).
  assert (g_out_edges g1 = g_out_edges g /\ g_in_edges g1 = g_in_edges g) as [-> ->] by (unfold g1; by case_match).
  cbn [snd]. destruct (remove_node_and_edges_maps env id
    ((adj (g_out_edges g) id).*2 ++ (adj (drop_other id (adj (g_out_edges g) id).*1 (g_in_edges g)) id).*2)
    (with_edges (drop_other id (adj (drop_other id (adj (g_out_edges g) id).*1 (g_in_edges g)) id).*1 (delete id (g_out_edges g)))
       (delete id (drop_other id (adj (g_out_edges g) id).*1 (g_in_edges g))) g1)) as (_ & -> & -> & _).
  cbn [with_edges g_out_edges g_in_edges].
  rewrite adj_drop_other, !adj_delete_eq, !adj_drop_other. unfold keep, str_eqb. destruct (decide (a = id)) as [-> |Hne].
  - rewrite bool_decide_eq_true_2 by done. cbn. by rewrite !lfilter_none.
  - rewrite (bool_decide_eq_false_2 (a = id)) by done. cbn. split.
    + apply List.filter_ext_in. intros x Hx%list_elem_of_In. unfold str_mem.
      case_bool_decide as Hin; [done|]. cbn. symmetry. apply negb_true_iff, bool_decide_eq_false_2. intros E.
      apply Hin. apply (list_elem_of_fmap_2 fst) in Hx. rewrite E, (mirror_elem f _ _ _ _ Hm) in Hx.
      apply list_elem_of_fmap in Hx as (y & -> & Hy). apply list_elem_of_fmap. exists y. split; [done|].
      apply list_elem_of_In, List.filter_In. split; [by apply list_elem_of_In|].
      rewrite (bool_decide_eq_false_2 (y.1 = id)) by done. by rewrite orb_true_r.
    + apply List.filter_ext_in. intros x Hx%list_elem_of_In. unfold str_mem.
      case_bool_decide as Hin; [done|]. cbn. symmetry. apply negb_true_iff, bool_decide_eq_false_2. intros E.
      apply Hin. apply (mirror_elem f _ _ id a Hm). rewrite <-E. by apply list_elem_of_fmap_2.
Qed.

Lemma remove_node_edges f env id g : graph_edges_wf f g -> graph_edges_wf f (remove_node env id g).2.
Proof.
  intros Hg. pose proof (remove_node_adj f env id g (ew_mirror _ _ _ Hg)) as E. unfold graph_edges_wf in *.
  apply (edges_wf_filter f (fun a b _ => negb (str_eqb a id) && negb (str_eqb b id)) (g_out_edges g) (g_in_edges g));
    [done | intros a; apply E | | done].
  intros b. rewrite (proj2 (E b)). apply List.filter_ext. intros x. apply andb_comm.
Qed.
End ops.

(** ** The reverse index *)

(** Nodes lie under their own identifiers, and every node with content is in
    the index under it. *)
Record index_wf (g : PetgraphBackend) : Prop := {
  iw_id : forall id n, g_nodes g !! id = Some n -> kn_id n = id;
  iw_refs : forall id n c, g_nodes g !! id = Some n -> kn_content_cid n = Some c ->
    exists s, g_cid_refs g !! c = Some s /\ id ∈ s;
}.

Lemma index_wf_same g g' : g_nodes g' = g_nodes g -> g_cid_refs g' = g_cid_refs g -> index_wf g -> index_wf g'.
Proof. intros E1 E2 [Hi Hr]. split; rewrite E1, ?E2; eauto. Qed.

Section index.
Context `{HashIter} `{GraphCodec}.

Lemma index_wf_maps g g' : same_maps g g' -> index_wf g -> index_wf g'.
Proof. intros (E & _ & _ & E'). by apply index_wf_same. Qed.

Lemma add_node_index env n g : index_wf g -> index_wf (add_node env n g).2.
Proof.
  intros [Hi Hr]. unfold add_node. cbn [snd].
  eapply index_wf_maps; [eapply same_maps_trans; [apply persist_node_maps | apply maybe_compact_maps]|].
  split.
  - intros id m. destruct (kn_content_cid n); cbn; intros [[<- <-]|[_ Hm]]%lookup_insert_Some; eauto.
  - intros id m c. destruct (kn_content_cid n) as [c'|] eqn:Hc; cbn; intros [[<- <-]|[Hne Hm]]%lookup_insert_Some Hmc.
    + simplify_eq. eexists. rewrite lookup_insert_eq. split; [done|set_solver].
    + destruct (Hr id m c Hm Hmc) as (s & Hs & Hin). destruct (decide (c = c')) as [-> |Hcc].
      * rewrite lookup_insert_eq, Hs. eexists. split; [done|]. cbn. set_solver.
      * rewrite lookup_insert_ne by done. eauto.
    + congruence.
    + eauto.
Qed.

Lemma add_edge_index env e g : index_wf g -> index_wf (add_edge env e g).2.
Proof.
  intros Hg. unfold add_edge, invalidate_conflicts_internal. cbn [snd].
  eapply index_wf_maps; [eapply same_maps_trans; [apply persist_edges_maps | apply maybe_compact_maps]|].
  by eapply index_wf_same; [..|done].
Qed.

Lemma update_node_index env id l p g : index_wf g -> index_wf (update_node env id l p g).2.
Proof.
  intros [Hi Hr]. unfold update_node. destruct (g_nodes g !! id) as [n|] eqn:Hn; [|done]. cbn [snd].
  eapply index_wf_maps; [apply persist_node_maps|]. split; cbn.
  - intros id' m [[<- <-]|[_ Hm]]%lookup_insert_Some; [exact (Hi id n Hn) | eauto].
  - intros id' m c [[<- <-]|[_ Hm]]%lookup_insert_Some; [exact (Hr id n c Hn) | eauto].
Qed.

Lemma remove_node_index env id g : index_wf g -> index_wf (remove_node env id g).2.
Proof.
  intros [Hi Hr]. unfold remove_node. set (g1 := match g_nodes g !! id with Some _ => _ | None => g end).
  assert (index_wf g1) as H1.
  { unfold g1. destruct (g_nodes g !! id) as [n|] eqn:Hn; [|done]. split; cbn.
    - intros id' m [_ Hm]%lookup_delete_Some. eauto.
    - intros id' m c [Hne Hm]%lookup_delete_Some Hmc. destruct (Hr id' m c Hm Hmc) as (s & Hs & Hin).
      unfold unref. destruct (kn_content_cid n) as [c'|]; [|eauto]. destruct (g_cid_refs g !! c') as [s'|] eqn:Hs'; [|eauto].
      destruct (decide (c = c')) as [-> |Hcc].
      + simplify_eq. rewrite bool_decide_eq_false_2 by set_solver. rewrite lookup_insert_eq.
        eexists. split; [done|set_solver].
      + case_bool_decide; [rewrite lookup_delete_ne by done | rewrite lookup_insert_ne by done]; eauto. }
  cbn [snd]. eapply index_wf_maps; [apply remove_node_and_edges_maps|]. by eapply index_wf_same; [..|exact H1].
Qed.

Lemma remove_edge_index env src dst t g : index_wf g -> index_wf (remove_edge env src dst t g).2.
Proof.
  intros Hg. unfold remove_edge. case_match; [by eapply index_wf_same; [..|done]|].
  eapply index_wf_maps; [apply remove_edges_maps|]. by eapply index_wf_same; [..|done].
Qed.

Lemma invalidate_edge_index env src dst t g : index_wf g -> index_wf (invalidate_edge env src dst t g).2.
Proof.
  intros Hg. unfold invalidate_edge. case_match; [by eapply index_wf_same; [..|done]|].
  eapply index_wf_maps; [apply persist_edges_maps|]. by eapply index_wf_same; [..|done].
Qed.

Lemma invalidate_conflicts_index env e g : index_wf g -> index_wf (invalidate_conflicts env e g).2.
Proof.
  intros Hg. unfold invalidate_conflicts, invalidate_conflicts_internal. cbn [snd]. case_match.
  - by eapply index_wf_same; [..|done].
  - eapply index_wf_maps; [apply persist_edges_maps|]. by eapply index_wf_same; [..|done].
Qed.

Lemma compact_edges_index env g : index_wf g -> index_wf (compact_edges env g).2.
Proof.
  intros Hg. unfold compact_edges, compact_db. case_match; [done|].
  eapply index_wf_maps; [apply remove_edges_maps|]. by eapply index_wf_same; [..|done].
Qed.

(** ** Runs *)

Inductive GraphOp : Type :=
  | Op_AddNode (n : KGNode)
  | Op_AddEdge (e : KGEdge)
  | Op_UpdateNode (id : string) (label : option string) (properties : option Json)
  | Op_RemoveNode (id : string)
  | Op_RemoveEdge (src dst : string) (t : option KGEdgeType)
  | Op_InvalidateEdge (src dst : string) (t : KGEdgeType)
  | Op_InvalidateConflicts (e : KGEdge)
  | Op_CompactEdges
  | Op_UpsertDocument (cid : string) (tags : list string) (agent_id : string)
  | Op_ConsolidateVersions (src dst : string) (t : KGEdgeType) (keep_last_n : nat).

(** A call that panics leaves the graph as it was. *)
Definition graph_step (env : GraphEnv) (op : GraphOp) (g : PetgraphBackend) : PetgraphBackend :=
  match op with
  | Op_AddNode n => (add_node env n g).2
  | Op_AddEdge e => (add_edge env e g).2
  | Op_UpdateNode id l p => (update_node env id l p g).2
  | Op_RemoveNode id => (remove_node env id g).2
  | Op_RemoveEdge src dst t => (remove_edge env src dst t g).2
  | Op_InvalidateEdge src dst t => (invalidate_edge env src dst t g).2
  | Op_InvalidateConflicts e => (invalidate_conflicts env e g).2
  | Op_CompactEdges => (compact_edges env g).2
  | Op_UpsertDocument cid tags agent_id => from_option snd g (upsert_document env cid tags agent_id g)
  | Op_ConsolidateVersions src dst t n => (consolidate_versions env src dst t n g).2
  end.

Definition run (g : PetgraphBackend) (ops : list (GraphEnv * GraphOp)) : PetgraphBackend :=
  foldl (fun g o => graph_step o.1 o.2 g) g ops.

(** What every operation keeps if adding nodes and edges keep it. *)
Section built.
Variable P : PetgraphBackend -> Prop.
Hypothesis P_node : forall env n g, P g -> P (add_node env n g).2.
Hypothesis P_edge : forall env e g, P g -> P (add_edge env e g).2.

Lemma associations_keep env cid cs g : P g -> P (foldl (associate env cid) g cs).
Proof.
  revert g. induction cs as [|[other w] cs IH]; intros g Hg; cbn [foldl]; [done|].
  apply IH. unfold associate. by apply P_edge, P_edge.
Qed.

Lemma upsert_keeps env cid tags a g : P g -> P (from_option snd g (upsert_document env cid tags a g)).
Proof.
  intros Hg. unfold upsert_document. destruct (split_at _ _) as [[short rest]|]; [|exact Hg].
  cbn [mbind option_bind]. pose proof (P_node env (document_node (ge_now env) short cid tags a) g Hg) as Hn.
  destruct (add_node env (document_node (ge_now env) short cid tags a) g) as [r g1].
  cbn [from_option snd] in *. by apply associations_keep.
Qed.

Lemma consolidate_keeps env src dst t n g : P g -> P (consolidate_versions env src dst t n g).2.
Proof.
  intros Hg. unfold consolidate_versions, edge_history. case_match; [done|]. cbn [snd].
  generalize (drop n (merge_sort later_closed (List.filter (fun e => opt_is_some (ke_invalid_at e) && opt_is_none (ke_expired_at e))
                (List.filter (between dst (Some t)) (adj (g_out_edges g) src)).*2))) as es.
  intros es. clear H1. revert g Hg. induction es as [|e es IH]; intros g Hg; cbn [foldl]; [done|]. by apply IH, P_edge.
Qed.
End built.

Lemma graph_step_index env op g : index_wf g -> index_wf (graph_step env op g).
Proof.
  destruct op; cbn [graph_step]; intros Hg.
  - by apply add_node_index.
  - by apply add_edge_index.
  - by apply update_node_index.
  - by apply remove_node_index.
  - by apply remove_edge_index.
  - by apply invalidate_edge_index.
  - by apply invalidate_conflicts_index.
  - by apply compact_edges_index.
  - apply upsert_keeps; [apply add_node_index | apply add_edge_index | done].
  - apply consolidate_keeps; [apply add_edge_index | done].
Qed.

(** The only operation that changes one of the two maps alone. *)
Definition one_sided (op : GraphOp) : bool := match op with Op_InvalidateEdge _ _ _ => true | _ => false end.

Lemma graph_step_edges f env op g : comparison f -> f = version \/ one_sided op = false ->
  graph_edges_wf f g -> graph_edges_wf f (graph_step env op g).
Proof.
  intros Hf Hop. destruct op; cbn [graph_step]; intros Hg.
  - by apply add_node_edges.
  - by apply add_edge_edges.
  - by apply update_node_edges.
  - by apply remove_node_edges.
  - by apply remove_edge_edges.
  - destruct Hop as [-> |]; [by apply invalidate_edge_edges | done].
  - by apply invalidate_conflicts_op_edges.
  - by apply compact_edges_edges.
  - apply upsert_keeps; [intros; by apply add_node_edges | intros; by apply add_edge_edges | done].
  - apply consolidate_keeps; [intros; by apply add_edge_edges | done].
Qed.

Lemma graph_run_keeps (P : PetgraphBackend -> Prop) ops g :
  (forall env op g, (env, op) ∈ ops -> P g -> P (graph_step env op g)) -> P g -> P (run g ops).
Proof.
  unfold run. revert g. induction ops as [|[env op] ops IH]; intros g Hstep Hg; cbn [foldl]; [done|].
  apply IH; [intros; apply Hstep; [set_solver|done] | apply Hstep; [set_solver|done]].
Qed.

Lemma index_wf_new : index_wf graph_new.
Proof. split; cbn; intros id n; by rewrite lookup_empty. Qed.

(** C28: After any sequence of operations on a new graph, whatever the clock and
    the outcome of the writes: the two adjacency maps hold the same versions of
    the same edges in the same order for every pair of nodes, every edge lies
    under its own ends, at most one version of a relation (two nodes and an edge
    type) is open, nodes lie under their identifiers and the reverse index has
    every node that carries content.  Unless an edge was closed by
    [invalidate_edge], the two maps agree exactly. *)
Theorem graph_stays_consistent ops :
  let g := run graph_new ops in
  edges_wf version (g_out_edges g) (g_in_edges g) /\ index_wf g /\
  (forallb (fun o => negb (one_sided o.2)) ops = true -> edges_wf id (g_out_edges g) (g_in_edges g)).
Proof.
  intros g. split_and!.
  - apply (graph_run_keeps (graph_edges_wf version)); [|apply edges_wf_empty].
    intros env op g' _. apply graph_step_edges; [by right | by left].
  - apply (graph_run_keeps index_wf); [intros env op g' _; apply graph_step_index | apply index_wf_new].
  - intros Hops. apply (graph_run_keeps (graph_edges_wf id)); [|apply edges_wf_empty].
    intros env op g' Hin. apply graph_step_edges; [by left|]. right.
    rewrite forallb_forall in Hops. apply list_elem_of_In, Hops in Hin. by apply negb_true_iff.
Qed.

(** ** The history of a relation *)

Lemma between_close o t now p x : between o t (close_if now p x) = between o t x.
Proof. unfold close_if. by destruct (_ && _). Qed.

Lemma between_conflicting dst t x : between dst (Some t) x = conflicting dst t x.
Proof.
  unfold between, conflicting, type_matches, none_or. f_equal. apply bool_decide_ext. split; congruence.
Qed.

(** [v] closed at [now] if it was open. *)
Definition closed_at (now : Z) (v : KGEdge) : KGEdge := if is_open v then set_invalid_at (Some now) v else v.

Lemma close_between now dst t l :
  (List.filter (between dst (Some t)) (close_if now (conflicting dst t) <$> l)).*2 =
  closed_at now <$> (List.filter (between dst (Some t)) l).*2.
Proof.
  induction l as [|x l IH]; [done|]. cbn [fmap list_fmap List.filter]. rewrite between_close.
  destruct (between dst (Some t) x) eqn:Hb; [|done]. cbn [fmap list_fmap]. rewrite IH. f_equal.
  unfold close_if, closed_at, is_open. rewrite between_conflicting in Hb. rewrite Hb. by destruct (opt_is_none _).
Qed.

Lemma add_edge_out env e g :
  g_out_edges (add_edge env e g).2 =
  adj_push (ke_src e) (ke_dst e, e)
    (adj_update (ke_src e) (fmap (close_if (ge_now env) (conflicting (ke_dst e) (ke_edge_type e)))) (g_out_edges g)).
Proof.
  unfold add_edge, invalidate_conflicts_internal, persist_add_edge_atomic. cbn [snd].
  match goal with |- g_out_edges (maybe_compact (persist_edges _ ?es ?g1)) = _ =>
    by destruct (same_maps_trans _ _ _ (persist_edges_maps env es g1) (maybe_compact_maps _)) as (_ & -> & _) end.
Qed.

(** The history as a list. *)
Definition history (g : PetgraphBackend) (src dst : string) (t : KGEdgeType) : list KGEdge :=
  (List.filter (between dst (Some t)) (adj (g_out_edges g) src)).*2.

(** A new edge goes to the end of the history of its relation, and whatever was
    open before it is closed at the time of the call. *)
Lemma add_edge_history env e g :
  history (add_edge env e g).2 (ke_src e) (ke_dst e) (ke_edge_type e) =
  (closed_at (ge_now env) <$> history g (ke_src e) (ke_dst e) (ke_edge_type e)) ++ [e].
Proof.
  unfold history. rewrite add_edge_out, adj_push_eq, decide_True by done.
  rewrite adj_update_eq, decide_True by done. rewrite List.filter_app, fmap_app, close_between. f_equal.
  cbn. unfold between, type_matches, none_or, str_eqb. cbn. by rewrite !bool_decide_eq_true_2.
Qed.

Lemma closed_at_idem now (l : list KGEdge) : closed_at now <$> (closed_at now <$> l) = closed_at now <$> l.
Proof.
  rewrite <-list_fmap_compose. apply list_fmap_ext. intros _ e _. cbn. unfold closed_at.
  destruct (is_open e) eqn:Ho; [done | by rewrite Ho].
Qed.

Lemma closed_at_closed now (l : list KGEdge) : Forall (fun e => is_open e = false) l -> closed_at now <$> l = l.
Proof.
  intros Hl. rewrite <-(list_fmap_id l) at 2. apply list_fmap_ext. intros i e He.
  unfold closed_at. by rewrite (Forall_lookup_1 _ _ _ _ Hl He).
Qed.

Lemma elem_of_history g src dst t e : graph_edges_wf version g -> e ∈ history g src dst t ->
  ke_src e = src /\ ke_dst e = dst /\ ke_edge_type e = t.
Proof.
  intros [[Hk _] _ _] ([o e'] & -> & [Hx Hb]%list_elem_of_In%List.filter_In)%list_elem_of_fmap.
  apply list_elem_of_In, Hk in Hx. rewrite between_conflicting in Hb. unfold conflicting in Hb. cbn in *.
  apply andb_true_iff in Hb as [Ho Ht]. apply bool_decide_eq_true_1 in Ho, Ht.
  unfold out_ends in Hx. cbn in *. split_and!; congruence.
Qed.

Lemma consolidate_fold env src dst t es g :
  es ≠ [] ->
  Forall (fun e => (ke_src e = src /\ ke_dst e = dst /\ ke_edge_type e = t) /\ is_open e = false) es ->
  history (foldl (fun g e => (add_edge env (set_expired_at (Some (ge_now env)) e) g).2) g es) src dst t =
  (closed_at (ge_now env) <$> history g src dst t) ++ (set_expired_at (Some (ge_now env)) <$> es).
Proof.
  intros Hne Hall. revert g Hne. induction Hall as [|e es [(Hs & Hd & Ht) Ho] Hall IH]; intros g Hne; [done|].
  assert (history (add_edge env (set_expired_at (Some (ge_now env)) e) g).2 src dst t =
          (closed_at (ge_now env) <$> history g src dst t) ++ [set_expired_at (Some (ge_now env)) e]) as E.
  { subst src dst t. apply (add_edge_history env (set_expired_at (Some (ge_now env)) e) g). }
  cbn [foldl fmap list_fmap]. destruct es as [|e' es]; [exact E|].
  rewrite IH, E, fmap_app, closed_at_idem by done. rewrite (closed_at_closed _ [_]); [by rewrite <-app_assoc|].
  apply Forall_singleton. by rewrite <-Ho.
Qed.

(** Consolidating a history expires nothing that is in it: the surplus versions
    stay as they are and copies of them, marked as expired, go to its end; and
    the version that was open, if there is one, is closed. *)
Lemma consolidate_versions_history env src dst t keep g n g' :
  graph_edges_wf version g -> consolidate_versions env src dst t keep g = (Ok n, g') -> (0 < n)%nat ->
  exists copies, length copies = n /\ Forall (fun e => opt_is_some (ke_expired_at e) = true) copies /\
    history g' src dst t = (closed_at (ge_now env) <$> history g src dst t) ++ copies /\
    Forall (fun e => is_open e = false) (history g' src dst t).
Proof.
  intros Hg. unfold consolidate_versions, edge_history. fold (history g src dst t).
  set (inv := List.filter _ (history g src dst t)). case_match; intros E Hn;
    apply pair_equal_spec in E as [E <-]; apply Ok_inj in E as <-; [lia|].
  set (es := drop keep (merge_sort later_closed inv)).
  assert (Forall (fun e => (ke_src e = src /\ ke_dst e = dst /\ ke_edge_type e = t) /\ is_open e = false) es) as Hes.
  { unfold es. apply Forall_drop. rewrite merge_sort_Permutation. apply Forall_forall.
    intros e [He Hb]%list_elem_of_In%List.filter_In. apply list_elem_of_In in He. split; [by eapply elem_of_history|].
    unfold is_open, opt_is_none. by destruct (opt_is_some (ke_invalid_at e)). }
  exists (set_expired_at (Some (ge_now env)) <$> es).
  rewrite consolidate_fold; [|intros E; fold es in Hn; rewrite E in Hn; cbn in Hn; lia|done].
  split_and!; [by rewrite length_fmap | by apply Forall_fmap, Forall_true | done |].
  apply Forall_app. split; apply Forall_fmap.
  - apply Forall_true. intros e. cbn. unfold closed_at. by destruct (is_open e) eqn:Ho.
  - eapply Forall_impl; [exact Hes|]. by intros e [_ Ho].
Qed.

(** ** Closing one edge *)

(** [invalidate_edge] reports whether something was open, closes it in the
    history, and leaves the edges as the far node sees them untouched. *)
Lemma invalidate_edge_one_sided env src dst t g :
  graph_edges_wf version g ->
  history (invalidate_edge env src dst t g).2 src dst t = closed_at (ge_now env) <$> history g src dst t /\
  g_in_edges (invalidate_edge env src dst t g).2 = g_in_edges g.
Proof.
  intros [[Hk _] _ _]. unfold invalidate_edge. set (g1 := with_edges _ _ _).
  assert (forall es, same_maps g1 (match es with [] => (Ok false, g1) | _ => (Ok (E := KGError) true, persist_edges env es g1) end).2)
    as Hsame by (intros [|]; [done | apply persist_edges_maps]).
  destruct (Hsame (closed_by (ge_now env) (names_edge dst t) (adj (g_out_edges g) src))) as (_ & Ho & Hi & _).
  unfold history. rewrite Ho, Hi. split; [|done]. cbn. rewrite adj_update_eq, decide_True by done.
  rewrite <-close_between. do 2 f_equal. apply list_fmap_ext. intros i x Hx. unfold close_if, names_edge, conflicting.
  apply list_elem_of_lookup_2, Hk in Hx. unfold out_ends in Hx. injection Hx as _ ->. done.
Qed.

(** ** Removed nodes *)

Lemma remove_node_maps env id g :
  g_nodes (remove_node env id g).2 = delete id (g_nodes g) /\
  g_cid_refs (remove_node env id g).2 =
    match g_nodes g !! id with Some n => unref id (kn_content_cid n) (g_cid_refs g) | None => g_cid_refs g end.
Proof.
  unfold remove_node. cbn [snd].
  match goal with |- g_nodes (remove_node_and_edges_from_db env id ?es ?g2) = _ /\ _ =>
    destruct (remove_node_and_edges_maps env id es g2) as (-> & _ & _ & ->) end.
  cbn. destruct (g_nodes g !! id) eqn:Hid; [done|]. by rewrite delete_id.
Qed.

(** A removed node is gone: it is not found, no edge in either map names it
    at either end, and it is in no index entry under the content it carried. *)
Lemma remove_node_gone env id ops :
  let g := run graph_new ops in
  let g' := (remove_node env id g).2 in
  get_node g' id = Ok None /\
  (forall a x, x ∈ adj (g_out_edges g') a \/ x ∈ adj (g_in_edges g') a ->
     a ≠ id /\ x.1 ≠ id /\ ke_src x.2 ≠ id /\ ke_dst x.2 ≠ id) /\
  (forall n c s, g_nodes g !! id = Some n -> kn_content_cid n = Some c -> g_cid_refs g' !! c = Some s -> id ∉ s).
Proof.
  intros g g'. assert (graph_edges_wf version g) as Hg.
  { apply (graph_run_keeps (graph_edges_wf version)); [|apply edges_wf_empty].
    intros env' op g1 _. apply graph_step_edges; [by right | by left]. }
  destruct (remove_node_maps env id g) as [Hn Hr]. fold g' in Hn, Hr. split_and!.
  - unfold get_node. by rewrite Hn, lookup_delete_eq.
  - intros a x Hx. pose proof (remove_node_adj version env id g (ew_mirror _ _ _ Hg) a) as [Eo Ei].
    assert (a ≠ id /\ x.1 ≠ id) as [Ha Hxid].
    { fold g' in Eo, Ei. rewrite Eo, Ei in Hx. destruct Hx as [Hx|Hx]; apply list_elem_of_In, List.filter_In in Hx as [_ Hx];
        unfold str_eqb in Hx; apply andb_true_iff in Hx as [H1 H2];
        apply negb_true_iff, bool_decide_eq_false_1 in H1, H2; done. }
    split_and!; [done..| |]; destruct (remove_node_edges version env id g Hg) as [[Ko _] [Ki _] _];
      destruct Hx as [Hx|Hx]; [apply Ko in Hx | apply Ki in Hx | apply Ko in Hx | apply Ki in Hx];
      unfold out_ends, in_ends in Hx; injection Hx as E1 E2; congruence.
  - intros n c s Hid Hc. rewrite Hr, Hid, Hc. unfold unref.
    destruct (g_cid_refs g !! c) as [s'|] eqn:Hs; [|by rewrite Hs].
    case_bool_decide as He; [by rewrite lookup_delete_eq|]. rewrite lookup_insert_eq. intros [= <-]. set_solver.
Qed.
End index.
