(* ===== verification/GraphDisk.v ===== *)
(** * The graph in its database

    The database follows the maps as long as its transactions commit, and
    opening it again gives the graph back, up to the order of parallel edges:
    for identifiers without a vertical bar and edge versions that differ in
    their ends, type or creation time. *)

From stdpp Require Import base gmap strings pretty list sorting.
From Stdlib Require Import SpecFloat.
From S2P Require Import Prelude Float32 MemoryModel Text ApiRequest GraphModel Graph GraphStore GraphInvariant.

(** ** Keys *)

Fixpoint bar_free (s : string) : bool :=
  match s with
  | EmptyString => true
  | String c s => negb (bool_decide (c = bar)) && bar_free s
  end.

Lemma bar_free_app s t : bar_free (s +:+ t) = bar_free s && bar_free t.
Proof.
  induction s as [|c s IH]; [done|]. change (String c s +:+ t) with (String c (s +:+ t)).
  cbn [bar_free]. by rewrite IH, andb_assoc.
Qed.

Lemma split_bar_free part s : bar_free s = true -> split_bar_from part s = [part +:+ s].
Proof.
  revert part. induction s as [|c s IH]; intros part; cbn; [by rewrite string_app_nil_r|].
  case_bool_decide; [done|]. intros Hs. rewrite IH by done. by rewrite string_app_assoc.
Qed.

Lemma split_bar_step part s rest :
  bar_free s = true -> split_bar_from part (s +:+ bar_str +:+ rest) = (part +:+ s) :: split_bar rest.
Proof.
  revert part. induction s as [|c s IH]; intros part; [cbn; by rewrite string_app_nil_r|].
  change (String c s +:+ bar_str +:+ rest) with (String c (s +:+ bar_str +:+ rest)). cbn [split_bar_from bar_free].
  case_bool_decide; [done|]. intros Hs. rewrite IH by done. by rewrite string_app_assoc.
Qed.

Lemma bar_free_digits n s : bar_free s = true -> bar_free (pretty_N_go n s) = true.
Proof.
  revert s. induction (N.lt_wf_0 n) as [n _ IH]; intros s Hs.
  destruct (decide (n = 0%N)) as [-> |Hn]; [done|].
  rewrite pretty_N_go_step by lia. apply IH; [apply N.div_lt; lia|]. cbn.
  rewrite Hs, bool_decide_eq_false_2; [done|]. unfold pretty_N_char, bar. repeat case_match; done.
Qed.

Lemma bar_free_pretty (z : Z) : bar_free (pretty z) = true.
Proof.
  assert (forall n : N, bar_free (pretty n) = true) as Hn.
  { intros n. unfold pretty, pretty_N. case_decide; [done | by apply bar_free_digits]. }
  destruct z as [|p|p]; [done| |].
  - exact (Hn (N.pos p)).
  - change (pretty (Z.neg p)) with ("-" +:+ pretty (N.pos p)). rewrite bar_free_app, Hn. done.
Qed.

Lemma bar_free_debug t : bar_free (edge_type_debug t) = true.
Proof. by destruct t. Qed.

Lemma split_edge_key src dst t c : bar_free src = true -> bar_free dst = true ->
  split_bar (edge_key src dst t c) = [src; dst; edge_type_debug t; pretty c].
Proof.
  intros Hs Hd. unfold split_bar, edge_key. rewrite split_bar_step by done. unfold split_bar.
  rewrite split_bar_step by done. unfold split_bar. rewrite split_bar_step by apply bar_free_debug.
  unfold split_bar. by rewrite split_bar_free by apply bar_free_pretty.
Qed.

Lemma edge_type_debug_inj t u : edge_type_debug t = edge_type_debug u -> t = u.
Proof. by destruct t, u. Qed.

(** The ends, type and creation time of an edge: what its key is made of. *)
Definition version_id (e : KGEdge) : string * string * KGEdgeType * Z :=
  (ke_src e, ke_dst e, ke_edge_type e, ke_created_at e).

Definition plain_ends (e : KGEdge) : bool := bar_free (ke_src e) && bar_free (ke_dst e).

Lemma split_key_of e : plain_ends e = true ->
  split_bar (key_of e) = [ke_src e; ke_dst e; edge_type_debug (ke_edge_type e); pretty (ke_created_at e)].
Proof. intros [Hs Hd]%andb_true_iff. by apply split_edge_key. Qed.

Lemma key_of_inj e f : plain_ends e = true -> plain_ends f = true -> key_of e = key_of f -> version_id e = version_id f.
Proof.
  intros He Hf E. apply (f_equal split_bar) in E. rewrite !split_key_of in E by done.
  injection E as E1 E2 E3%edge_type_debug_inj E4. apply (inj pretty) in E4. unfold version_id. congruence.
Qed.

Lemma key_of_version e f : version_id e = version_id f -> key_of e = key_of f.
Proof. unfold version_id, key_of. by intros [= -> -> -> ->]. Qed.

(** ** Loading *)

Section disk.
Context `{HashIter} `{GraphCodec}.

(** What one row adds to the edges out of [a], and to the edges into [b]. *)
Definition row_edge (row : string * string) : option (string * string * KGEdge) :=
  match edge_from_slice row.2, split_bar row.1 with
  | Some e, [src; dst; _; _] => Some (src, dst, e)
  | _, _ => None
  end.
Definition row_out (a : string) (row : string * string) : option (string * KGEdge) :=
  '(src, dst, e) ← row_edge row; if decide (src = a) then Some (dst, e) else None.
Definition row_in (b : string) (row : string * string) : option (string * KGEdge) :=
  '(src, dst, e) ← row_edge row; if decide (dst = b) then Some (src, e) else None.

Lemma load_edge_row m row :
  load_edge m row = match row_edge row with Some (src, dst, e) => push_record src dst e m | None => m end.
Proof.
  unfold load_edge, row_edge. destruct (edge_from_slice row.2); [|done].
  by destruct (split_bar row.1) as [|? [|? [|? [|? [|]]]]].
Qed.

Lemma load_edges_adj rows m a :
  adj (foldl load_edge m rows).1 a = adj m.1 a ++ omap (row_out a) rows /\
  adj (foldl load_edge m rows).2 a = adj m.2 a ++ omap (row_in a) rows.
Proof.
  revert m. induction rows as [|row rows IH]; intros m; cbn [foldl]; [by rewrite !app_nil_r|].
  destruct (IH (load_edge m row)) as [-> ->]. rewrite load_edge_row. cbn [omap list_omap].
  assert (row_out a row = '(src, dst, e) ← row_edge row; if decide (src = a) then Some (dst, e) else None) as -> by done.
  assert (row_in a row = '(src, dst, e) ← row_edge row; if decide (dst = a) then Some (src, e) else None) as -> by done.
  destruct (row_edge row) as [[[src dst] e]|]; cbn [mbind option_bind]; [|by split].
  unfold push_record. cbn [fst snd]. rewrite !adj_push_eq.
  split; case_decide as Hd; first [rewrite decide_True by done | rewrite decide_False by done];
    try rewrite <-app_assoc; done.
Qed.

(** A loaded graph has both maps from the same rows. *)
Lemma load_edges_mirror rows : mirror id (foldl load_edge (∅, ∅) rows).1 (foldl load_edge (∅, ∅) rows).2.
Proof.
  intros a b. unfold pair_edges. rewrite !list_fmap_id.
  destruct (load_edges_adj rows (∅, ∅) a) as [-> _]. destruct (load_edges_adj rows (∅, ∅) b) as [_ ->].
  unfold adj. cbn [fst snd]. rewrite !lookup_empty. cbn [default app from_option].
  induction rows as [|row rows IH]; [done|]. csimpl. unfold row_out at 1, row_in at 1.
  destruct (row_edge row) as [[[src dst] e]|]; cbn [mbind option_bind]; [|exact IH].
  destruct (decide (src = a)) as [-> |Ha], (decide (dst = b)) as [-> |Hb]; cbn [List.filter fst]; unfold str_eqb in *;
    repeat first [rewrite bool_decide_eq_true_2 by done | rewrite bool_decide_eq_false_2 by done];
    cbn [fmap list_fmap snd]; rewrite ?IH; done.
Qed.

Lemma load_nodes_lookup rows m id : NoDup rows.*1 ->
  foldl load_node m rows !! id =
  match (list_to_map rows : gmap string string) !! id ≫= node_from_slice with Some n => Some n | None => m !! id end.
Proof.
  revert m. induction rows as [|[k v] rows IH]; intros m Hn; cbn [foldl]; [done|].
  apply NoDup_cons in Hn as [Hk Hn]. rewrite IH by done. cbn [list_to_map foldr fst snd curry uncurry].
  unfold load_node. cbn [fst snd]. destruct (decide (id = k)) as [-> |Hne].
  - rewrite lookup_insert_eq, (proj1 (not_elem_of_list_to_map (M := gmap string) rows k) Hk). cbn [mbind option_bind].
    destruct (node_from_slice v); [by rewrite lookup_insert_eq | done].
  - rewrite lookup_insert_ne by done. destruct (node_from_slice v); [by rewrite lookup_insert_ne | done].
Qed.
End disk.

(** ** What the database must hold *)

(** JSON has no NaN and no infinities. *)
Definition finite_weight (e : KGEdge) : bool :=
  match ke_weight e with S754_zero _ | S754_finite _ _ _ => true | S754_infinity _ | S754_nan => false end.

(** The encoding of the records: [storable] nodes and edges of finite weight are
    written and read back. *)
Class GraphCodecOk `{GraphCodec} := {
  storable : KGNode -> Prop;
  node_codec n : storable n -> exists s, node_to_vec n = Some s /\ node_from_slice s = Some n;
  edge_codec e : finite_weight e = true -> exists s, edge_to_vec e = Some s /\ edge_from_slice s = Some e;
}.

(** The edge is in the graph. *)
Definition has_edge (g : PetgraphBackend) (e : KGEdge) : Prop := (ke_dst e, e) ∈ adj (g_out_edges g) (ke_src e).

Section sync.
Context `{HashIter} `{GraphCodecOk}.

(** The rows of [kg_edges] are the edges of the graph. *)
Definition edges_stored (g : PetgraphBackend) (t : gmap string string) : Prop :=
  forall k v, t !! k = Some v <-> exists e, has_edge g e /\ key_of e = k /\ edge_to_vec e = Some v.

(** Graphs the database can represent: plain identifiers, finite weights, and
    distinct versions. *)
Record representable (g : PetgraphBackend) : Prop := {
  rp_wf : graph_edges_wf version g;
  rp_plain : forall e, has_edge g e -> plain_ends e = true /\ finite_weight e = true;
  rp_distinct : forall a, NoDup ((fun x => version_id x.2) <$> adj (g_out_edges g) a);
}.

Record synced (g : PetgraphBackend) (db : Database) : Prop := {
  sy_db : g_db g = Some db;
  sy_nodes : forall id, KG_NODES db !! id = g_nodes g !! id ≫= node_to_vec;
  sy_storable : forall id n, g_nodes g !! id = Some n -> storable n;
  sy_repr : representable g;
  sy_edges : edges_stored g (KG_EDGES db);
}.

Lemma elem_of_adj g a x : graph_edges_wf version g ->
  x ∈ adj (g_out_edges g) a <-> has_edge g x.2 /\ a = ke_src x.2 /\ x.1 = ke_dst x.2.
Proof.
  intros [[Hk _] _ _]. unfold has_edge. split.
  - intros Hx. pose proof (Hk a x Hx) as E. unfold out_ends in E. injection E as -> ->. by destruct x.
  - intros (Hx & -> & E). destruct x as [o e]. cbn in *. by subst o.
Qed.

Lemma has_edge_unique g e f : representable g -> has_edge g e -> has_edge g f -> version_id e = version_id f -> e = f.
Proof.
  intros [_ _ Hd] He Hf E. unfold has_edge in *. assert (ke_src e = ke_src f) as Es by by injection E.
  rewrite Es in He. specialize (Hd (ke_src f)).
  apply list_elem_of_lookup_1 in He as [i Hi], Hf as [j Hj].
  assert (i = j) as ->; [|by simplify_eq].
  eapply (NoDup_lookup _ i j (version_id e) Hd); rewrite list_lookup_fmap; [by rewrite Hi | by rewrite Hj, E].
Qed.

Lemma key_of_has_edge g e f : representable g -> has_edge g e -> plain_ends f = true ->
  key_of e = key_of f <-> version_id e = version_id f.
Proof. intros Hr He Hf. split; [apply key_of_inj; [by apply Hr|done] | apply key_of_version]. Qed.

(** Writing rows: the listed edges replace those of the same version. *)
Lemma insert_edges_lookup es db db' k v : NoDup (key_of <$> es) -> insert_edges es db = Some db' ->
  KG_NODES db' = KG_NODES db /\
  (KG_EDGES db' !! k = Some v <-> (exists e, e ∈ es /\ key_of e = k /\ edge_to_vec e = Some v) \/
                                 (k ∉ (key_of <$> es) /\ KG_EDGES db !! k = Some v)).
Proof.
  revert db. induction es as [|e es IH]; intros db Hn E.
  { cbn in E. injection E as ->. split; [done|]. set_solver. }
  cbn [fmap list_fmap] in *. apply NoDup_cons in Hn as [He Hn]. cbn [insert_edges] in E.
  destruct (edge_to_vec e) as [data|] eqn:Hdata; [|done]. cbn [mbind option_bind] in E.
  destruct (IH _ Hn E) as [-> ->]. split; [done|]. cbn [KG_EDGES]. split.
  - intros [(f & Hf & <- & Hv)|[Hk Hv]]; [left; set_solver|].
    apply lookup_insert_Some in Hv as [[<- <-]|[Hne Hv]]; [left; exists e; set_solver|right; set_solver].
  - intros [(f & [-> |Hf]%elem_of_cons & <- & Hv)|[Hk Hv]].
    + right. split; [done|]. rewrite lookup_insert_eq. congruence.
    + left. eauto.
    + right. split; [set_solver|]. rewrite lookup_insert_ne by set_solver. done.
Qed.

Lemma edges_stored_insert g g' es db db' :
  representable g -> edges_stored g (KG_EDGES db) -> insert_edges es db = Some db' ->
  NoDup (version_id <$> es) -> Forall (fun e => plain_ends e = true) es ->
  (forall e, has_edge g' e <-> e ∈ es \/ has_edge g e /\ version_id e ∉ (version_id <$> es)) ->
  edges_stored g' (KG_EDGES db').
Proof.
  intros Hr Hs Hi Hn Hp Hg' k v.
  assert (NoDup (key_of <$> es)) as Hnk.
  { clear Hi Hg'. induction es as [|e es IH]; [constructor|]. cbn in *. apply NoDup_cons in Hn as [He Hn].
    apply Forall_cons in Hp as [Hpe Hp]. apply NoDup_cons. split; [|by apply IH].
    intros (f & Ef & Hf)%list_elem_of_fmap. apply He. rewrite Forall_forall in Hp.
    rewrite (key_of_inj e f) by auto. by apply list_elem_of_fmap_2. }
  destruct (insert_edges_lookup es db db' k v Hnk Hi) as [_ ->]. rewrite (Hs k v). setoid_rewrite Hg'.
  rewrite Forall_forall in Hp. split.
  - intros [(e & He & Hk & Hv)|[Hk (e & He & Hke & Hv)]]; [eauto|]. exists e. split; [|done]. right. split; [done|].
    intros (f & Ef & Hf)%list_elem_of_fmap. apply Hk. rewrite <-Hke, (key_of_version e f Ef). by apply list_elem_of_fmap_2.
  - intros (e & [He|[He Hid]] & Hk & Hv); [eauto|]. right. split; [|eauto].
    intros (f & Ef & Hf)%list_elem_of_fmap. apply Hid. rewrite <-Hk in Ef.
    rewrite (proj1 (key_of_has_edge g e f Hr He (Hp f Hf)) Ef). by apply list_elem_of_fmap_2.
Qed.

Lemma delete_edges_lookup env es t k v : (forall k, ge_remove env k = true) ->
  delete_edges env es t !! k = Some v <-> k ∉ (key_of <$> es) /\ t !! k = Some v.
Proof.
  intros Hok. unfold delete_edges. revert t. induction es as [|e es IH]; intros t; cbn [foldl fmap list_fmap]; [set_solver|].
  rewrite IH, Hok, lookup_delete_Some. set_solver.
Qed.

Lemma edges_stored_delete env g g' es t :
  (forall k, ge_remove env k = true) -> representable g -> edges_stored g t ->
  Forall (fun e => plain_ends e = true) es ->
  (forall e, has_edge g' e <-> has_edge g e /\ version_id e ∉ (version_id <$> es)) ->
  edges_stored g' (delete_edges env es t).
Proof.
  intros Hok Hr Hs Hp Hg' k v. rewrite delete_edges_lookup by done. rewrite (Hs k v). setoid_rewrite Hg'.
  rewrite Forall_forall in Hp. split.
  - intros [Hk (e & He & Hke & Hv)]. exists e. split; [|done]. split; [done|].
    intros (f & Ef & Hf)%list_elem_of_fmap. apply Hk. rewrite <-Hke, (key_of_version e f Ef). by apply list_elem_of_fmap_2.
  - intros (e & [He Hid] & Hk & Hv). split; [|eauto].
    intros (f & Ef & Hf)%list_elem_of_fmap. apply Hid. rewrite <-Hk in Ef.
    rewrite (proj1 (key_of_has_edge g e f Hr He (Hp f Hf)) Ef). by apply list_elem_of_fmap_2.
Qed.

(** ** Opening *)

(** Every read of the opening succeeds. *)
Definition loads (env : LoadEnv) : Prop :=
  le_begin env = true /\ le_nodes env = true /\ le_edges env = true /\ forall k, le_row env k = true.

Lemma load_rows_perm env t : loads env -> load_rows env t ≡ₚ map_to_list t.
Proof.
  intros (_ & _ & _ & Hrow). unfold load_rows, redb_range. rewrite lfilter_all by auto. apply merge_sort_Permutation.
Qed.

Lemma row_edge_stored g t k v : representable g -> edges_stored g t -> t !! k = Some v ->
  exists e, row_edge (k, v) = Some (ke_src e, ke_dst e, e) /\ has_edge g e /\ key_of e = k /\ edge_to_vec e = Some v.
Proof.
  intros Hr Hs (e & He & <- & Hv)%Hs. exists e. destruct (rp_plain g Hr e He) as [Hp Hf].
  destruct (edge_codec e Hf) as (s & Es & Ds). assert (s = v) as -> by congruence.
  unfold row_edge. cbn [fst snd]. by rewrite Ds, split_key_of.
Qed.

Lemma rows_out_perm g t a : representable g -> edges_stored g t ->
  omap (row_out a) (map_to_list t) ≡ₚ adj (g_out_edges g) a.
Proof.
  intros Hr Hs. apply NoDup_Permutation.
  - pose proof (NoDup_map_to_list t) as Hn. 
    assert (forall r, r ∈ map_to_list t -> t !! r.1 = Some r.2) as Ht.
    { intros [k v] Hin. by apply elem_of_map_to_list in Hin. }
    induction (map_to_list t) as [|[k v] rows IH]; [constructor|]. apply NoDup_cons in Hn as [Hk Hn].
    csimpl. assert (NoDup (omap (row_out a) rows)) as Hrest by (apply IH; [done | set_solver]).
    destruct (row_out a (k, v)) as [x|] eqn:Ex; [|done]. apply NoDup_cons. split; [|done].
    intros ([k' v'] & Hin & Ex')%list_elem_of_omap.
    destruct (row_edge_stored g t k v Hr Hs) as (e & Er & _ & <- & Hv); [apply (Ht (k, v)); set_solver|].
    destruct (row_edge_stored g t k' v' Hr Hs) as (e' & Er' & _ & <- & Hv'); [apply (Ht (k', v')); set_solver|].
    unfold row_out in Ex, Ex'. rewrite Er in Ex. rewrite Er' in Ex'. cbn in Ex, Ex'.
    repeat case_decide; simplify_eq; done.
  - apply (NoDup_fmap_1 (fun x => version_id x.2)), Hr.
  - intros x. rewrite list_elem_of_omap, elem_of_adj by apply Hr. split.
    + intros ([k v] & Hin%elem_of_map_to_list & Ex). destruct (row_edge_stored g t k v Hr Hs Hin) as (e & Er & He & _).
      unfold row_out in Ex. rewrite Er in Ex. cbn in Ex. case_decide; simplify_eq. done.
    + intros (He & -> & Ed). destruct (rp_plain g Hr x.2 He) as [_ Hf]. destruct (edge_codec x.2 Hf) as (s & Es & _).
      assert (t !! key_of x.2 = Some s) as Hin by (apply Hs; eauto).
      exists (key_of x.2, s). split; [by apply elem_of_map_to_list|].
      destruct (row_edge_stored g t _ _ Hr Hs Hin) as (e & Er & He' & Hk & _).
      assert (e = x.2) as ->.
      { apply (has_edge_unique g); [done..|]. apply (key_of_has_edge g e x.2 Hr He'); [by apply Hr | done]. }
      unfold row_out. rewrite Er. cbn. rewrite decide_True by done. rewrite <-Ed. by destruct x.
Qed.

Lemma index_cids_lookup rows c id :
  (exists s, index_cids rows !! c = Some s /\ id ∈ s) <-> exists n, (id, n) ∈ rows /\ kn_content_cid n = Some c.
Proof.
  unfold index_cids. set (f := fun (refs : gmap string (gset string)) (row : string * KGNode) => _).
  assert (forall refs, (exists s, foldl f refs rows !! c = Some s /\ id ∈ s) <->
    (exists s, refs !! c = Some s /\ id ∈ s) \/ exists n, (id, n) ∈ rows /\ kn_content_cid n = Some c) as Hgen.
  { induction rows as [|[i n] rows IH]; intros refs; cbn [foldl]; [set_solver|]. rewrite IH. unfold f. cbn [fst snd].
    setoid_rewrite elem_of_cons. destruct (kn_content_cid n) as [c'|] eqn:Hc; [destruct (decide (c = c')) as [-> |Hne]|].
    - rewrite lookup_insert_eq. split.
      + intros [(s & [= <-] & [->%elem_of_singleton|Hin]%elem_of_union)|(m & Hm & E)]; [right; eauto | | right; eauto].
        destruct (refs !! c'); [left; eauto | set_solver].
      + intros [(s & -> & Hin)|(m & [E|Hm] & Em)]; [left; eexists; split; [done|]; cbn; set_solver | | right; eauto].
        simplify_eq. left. eexists. split; [done|]. set_solver.
    - rewrite lookup_insert_ne by done. naive_solver.
    - naive_solver. }
  rewrite Hgen. rewrite lookup_empty. naive_solver.
Qed.

(** Opening the database of a graph it follows gives the graph back. *)
Lemma open_restores env g db : loads env -> synced g db ->
  let g' := open env (Some db) in
  g_nodes g' = g_nodes g /\ (forall a, adj (g_out_edges g') a ≡ₚ adj (g_out_edges g) a) /\
  mirror id (g_out_edges g') (g_in_edges g') /\
  (forall c id, (exists s, g_cid_refs g' !! c = Some s /\ id ∈ s) <->
                exists n, g_nodes g !! id = Some n /\ kn_content_cid n = Some c).
Proof.
  intros Hl [_ Hn Hst Hr Hs]. pose proof Hl as (Hb & Htn & Hte & _). unfold open, load_from_redb. rewrite Hb, Htn, Hte. cbn [negb].
  pose proof (load_edges_adj (load_rows env (KG_EDGES db)) (∅, ∅)) as Ha.
  pose proof (load_edges_mirror (load_rows env (KG_EDGES db))) as Hm.
  destruct (foldl load_edge (∅, ∅) (load_rows env (KG_EDGES db))) as [out inc]. cbn [fst snd] in *.
  assert (foldl load_node ∅ (load_rows env (KG_NODES db)) = g_nodes g) as ->.
  { apply map_eq. intros id. rewrite load_nodes_lookup.
    - rewrite (list_to_map_proper (M := gmap string) _ (map_to_list (KG_NODES db))).
      + rewrite list_to_map_to_list, Hn, lookup_empty. destruct (g_nodes g !! id) as [n|] eqn:E; [|done].
        destruct (node_codec n (Hst id n E)) as (s & Es & Ds). cbn. by rewrite Es; cbn; rewrite Ds.
      + rewrite load_rows_perm by done. apply NoDup_fst_map_to_list.
      + by apply load_rows_perm.
    - rewrite load_rows_perm by done. apply NoDup_fst_map_to_list. }
  cbn [g_nodes g_out_edges g_in_edges g_cid_refs]. split_and!; [done | | done |].
  - intros a. destruct (Ha a) as [-> _]. unfold adj at 1. rewrite lookup_empty. cbn [default from_option app].
    rewrite load_rows_perm by done. by apply rows_out_perm.
  - intros c id. rewrite index_cids_lookup. setoid_rewrite hash_iter_perm. by setoid_rewrite elem_of_map_to_list.
Qed.
End sync.
