(* ===== verification/GraphSync.v ===== *)
(** * The database follows the graph

    Each operation whose transaction commits leaves the database with the rows
    of the graph it leaves, so that a graph survives closing and opening. *)

From stdpp Require Import base gmap strings pretty list sorting.
From Stdlib Require Import SpecFloat.
From S2P Require Import Prelude Float32 MemoryModel Text ApiRequest GraphModel Graph GraphStore GraphInvariant GraphDisk.

Section sync.
Context `{HashIter} `{GraphCodecOk}.

(** The transaction of the call commits, and so do the removals in it. *)
Definition commits (env : GraphEnv) : Prop := ge_txn env = true /\ forall k, ge_remove env k = true.

(** ** Closing *)

Lemma set_invalid_version_id o e : version_id (set_invalid_at o e) = version_id e.
Proof. done. Qed.

Lemma elem_of_closed_by now p l e :
  e ∈ closed_by now p l <-> exists x, x ∈ l /\ p x && is_open x.2 = true /\ e = set_invalid_at (Some now) x.2.
Proof.
  unfold closed_by. rewrite list_elem_of_omap. split; intros (x & Hx & E); exists x.
  - unfold is_open. destruct (p x && _); simplify_eq; done.
  - destruct E as [Hp ->]. unfold is_open in Hp. by rewrite Hp.
Qed.

Lemma closed_by_ids now p l :
  version_id <$> closed_by now p l = (fun x => version_id x.2) <$> List.filter (fun x => p x && is_open x.2) l.
Proof.
  induction l as [|x l IH]; [done|]. unfold closed_by in *. csimpl. unfold is_open at 1.
  destruct (p x && opt_is_none (ke_invalid_at x.2)); csimpl; by rewrite IH.
Qed.

Lemma NoDup_filter_fmap {A B} (f : A -> B) (p : A -> bool) l : NoDup (f <$> l) -> NoDup (f <$> List.filter p l).
Proof.
  induction l as [|x l IH]; [done|]. cbn [fmap list_fmap List.filter]. intros [Hx Hn]%NoDup_cons.
  destruct (p x); [|by apply IH]. cbn. apply NoDup_cons. split; [|by apply IH].
  intros (y & Ey & Hy)%list_elem_of_fmap. apply list_elem_of_In, List.filter_In in Hy as [Hy _].
  apply Hx. rewrite Ey. apply list_elem_of_fmap_2. by apply list_elem_of_In.
Qed.

(** The edges out after the closing of those at [src] that satisfy [p]. *)
Definition closing (now : Z) (src : string) (p : string * KGEdge -> bool) (g : PetgraphBackend) : Adjacency :=
  adj_update src (fmap (close_if now p)) (g_out_edges g).

Section closing.
Variables (now : Z) (src : string) (p : string * KGEdge -> bool) (g g' : PetgraphBackend).
Hypothesis Hr : representable g.
Hypothesis Hwf : graph_edges_wf version g'.
Hypothesis Hout : g_out_edges g' = closing now src p g.
Let es := closed_by now p (adj (g_out_edges g) src).

Lemma closing_adj a x : x ∈ adj (g_out_edges g') a <->
  exists y, y ∈ adj (g_out_edges g) a /\ x = close_if now (fun x => bool_decide (a = src) && p x) y.
Proof. rewrite Hout. unfold closing. rewrite adj_update_close, list_elem_of_fmap. naive_solver. Qed.

Lemma closing_has_edge e :
  has_edge g' e <-> e ∈ es \/ has_edge g e /\ version_id e ∉ (version_id <$> es).
Proof.
  unfold has_edge at 1. rewrite closing_adj. split.
  - intros (y & Hy & E). unfold close_if in E. case_bool_decide as Hs; cbn in E.
    + destruct (p y && _) eqn:Hp.
      * left. apply elem_of_closed_by. exists y. rewrite <-Hs. injection E as _ ->. split_and!; [exact Hy | exact Hp | done].
      * right. subst y. split; [done|]. intros (f & Ef & (z & Hz & Hpz & ->)%elem_of_closed_by)%list_elem_of_fmap.
        apply (elem_of_adj g) in Hz as (Hez & _ & Hz1); [|apply Hr].
        assert (e = z.2) as -> by by apply (has_edge_unique g).
        rewrite <-Hz1 in Hp. destruct z as [z1 z2]. cbn in *. unfold is_open in Hpz. congruence.
    + subst y. right. split; [done|]. intros (f & Ef & (z & Hz & Hpz & ->)%elem_of_closed_by)%list_elem_of_fmap.
      apply (elem_of_adj g) in Hz as (_ & -> & _); [|apply Hr]. injection Ef as ? _ _ _. congruence.
  - intros [(x & Hx & Hp & ->)%elem_of_closed_by|[He Hid]].
    + cbn [set_invalid_at ke_src ke_dst]. pose proof Hx as (_ & Hs & Hd)%(elem_of_adj g); [|apply Hr].
      exists x. rewrite <-Hs, <-Hd. split; [done|]. unfold close_if. rewrite bool_decide_eq_true_2 by done. cbn.
      unfold is_open in Hp. by rewrite Hp.
    + exists (ke_dst e, e). split; [done|]. unfold close_if. case_bool_decide as Hs; [|done]. cbn.
      destruct (p (ke_dst e, e) && opt_is_none (ke_invalid_at e)) eqn:Hp; [|done]. exfalso. apply Hid.
      rewrite <-(set_invalid_version_id (Some now)). apply list_elem_of_fmap_2, elem_of_closed_by.
      exists (ke_dst e, e). split_and!; [rewrite <-Hs; exact He | exact Hp | done].
Qed.

Lemma closing_ids a : (fun x => version_id x.2) <$> adj (g_out_edges g') a = (fun x => version_id x.2) <$> adj (g_out_edges g) a.
Proof.
  rewrite Hout. unfold closing. rewrite adj_update_close, <-list_fmap_compose. apply list_fmap_ext.
  intros _ x _. cbn. unfold close_if. by destruct (_ && _).
Qed.

Lemma closed_ids_NoDup : NoDup (version_id <$> es).
Proof. unfold es. rewrite closed_by_ids. apply NoDup_filter_fmap, Hr. Qed.

Lemma closed_plain : Forall (fun e => plain_ends e = true /\ finite_weight e = true) es.
Proof.
  apply Forall_forall. intros e (x & Hx & _ & ->)%elem_of_closed_by.
  apply (elem_of_adj g) in Hx as (He & _); [|apply Hr]. exact (rp_plain g Hr _ He).
Qed.

Lemma closing_representable : representable g'.
Proof.
  split; [done | | intros a; rewrite closing_ids; apply Hr].
  intros e [He|[He _]]%closing_has_edge; [|by apply Hr].
  pose proof closed_plain as Hp. rewrite Forall_forall in Hp. by apply Hp.
Qed.
End closing.

(** ** Writing edges *)

Lemma insert_edges_total es db : Forall (fun e => plain_ends e = true /\ finite_weight e = true) es ->
  exists db', insert_edges es db = Some db'.
Proof.
  intros Hes. revert db. induction Hes as [|e es [_ Hf] _ IH]; intros db; [by eexists|]. cbn [insert_edges].
  destruct (edge_codec e Hf) as (s & -> & _). apply IH.
Qed.

Lemma insert_edges_nodes es db db' : insert_edges es db = Some db' -> KG_NODES db' = KG_NODES db.
Proof.
  revert db. induction es as [|e es IH]; intros db; cbn [insert_edges]; [by intros [= ->]|].
  destruct (edge_to_vec e); [|done]. by intros ->%IH.
Qed.

(** The state after a write of [es], when the maps have changed accordingly. *)
Lemma synced_persist env g g1 es db :
  commits env -> synced g db -> g_db g1 = Some db -> g_nodes g1 = g_nodes g -> representable g1 ->
  NoDup (version_id <$> es) -> Forall (fun e => plain_ends e = true /\ finite_weight e = true) es ->
  (forall e, has_edge g1 e <-> e ∈ es \/ has_edge g e /\ version_id e ∉ (version_id <$> es)) ->
  exists db', synced (persist_edges env es g1) db'.
Proof.
  intros [Ht _] [_ Hn Hst Hr Hs] Hdb Hnodes Hr1 Hnd Hes Hhas.
  destruct (insert_edges_total es db Hes) as [db' Hi]. exists db'.
  unfold persist_edges, run_txn. rewrite Hdb, Hi, Ht. split; [done | | | |]; cbn [with_db g_nodes].
  - intros id. by rewrite (insert_edges_nodes es db db' Hi), Hnodes.
  - rewrite Hnodes. done.
  - destruct Hr1. by split.
  - eapply (edges_stored_insert g); [done..| | exact Hhas]. eapply Forall_impl; [exact Hes | by intros e [? _]].
Qed.

Lemma representable_same g g' : same_maps g g' -> representable g -> representable g'.
Proof.
  intros Hm [Hw Hp Hd]. split; [by eapply graph_edges_wf_same | |]; destruct Hm as (_ & E & _).
  - unfold has_edge. by rewrite E.
  - by rewrite E.
Qed.

Lemma synced_same g g' db : same_maps g g' -> g_db g' = g_db g -> synced g db -> synced g' db.
Proof.
  intros Hm Ed [Hdb Hn Hst Hr Hs]. pose proof Hm as (En & Eo & _). split; rewrite ?En, ?Ed; try done.
  - by eapply representable_same.
  - intros k v. rewrite (Hs k v). unfold has_edge. by rewrite Eo.
Qed.

Lemma synced_compact g db : synced g db -> synced (maybe_compact g) db.
Proof. apply synced_same; [apply maybe_compact_maps | unfold maybe_compact; by case_match]. Qed.

(** The closing of edges with the write of the closed ones, which is skipped
    when there are none. *)
Lemma closing_synced env src p g g1 db :
  commits env -> synced g db -> g_db g1 = Some db -> g_nodes g1 = g_nodes g -> graph_edges_wf version g1 ->
  g_out_edges g1 = closing (ge_now env) src p g ->
  let es := closed_by (ge_now env) p (adj (g_out_edges g) src) in
  exists db', synced (match es with [] => g1 | _ => persist_edges env es g1 end) db'.
Proof.
  intros Hc Hs Hdb Hn Hw Ho es. pose proof (sy_repr _ _ Hs) as Hr.
  destruct (synced_persist env g g1 es db) as [db' Hs']; [done..| | | | |].
  - by apply (closing_representable (ge_now env) src p g).
  - by apply closed_ids_NoDup.
  - by apply closed_plain.
  - intros e. by apply (closing_has_edge (ge_now env) src p g g1).
  - destruct es as [|e es'] eqn:E; [|by exists db'].
    (* nothing was closed, and writing nothing changes nothing *)
    exists db. unfold persist_edges, run_txn in Hs'. rewrite Hdb in Hs'. cbn in Hs'.
    destruct Hc as [Ht _]. rewrite Ht in Hs'. pose proof (sy_db _ _ Hs') as E'. cbn in E'. injection E' as <-.
    eapply synced_same; [| |exact Hs']; [done | by rewrite Hdb].
Qed.

Lemma invalidate_edge_synced env src dst t g db : commits env -> synced g db ->
  exists db', synced (invalidate_edge env src dst t g).2 db'.
Proof.
  intros Hc Hs. pose proof (rp_wf _ (sy_repr _ _ Hs)) as Hw.
  destruct (closing_synced env src (names_edge dst t) g
    (with_edges (closing (ge_now env) src (names_edge dst t) g) (g_in_edges g) g) db) as [db' Hs'];
    [done | done | apply Hs | done | | done |].
  - eapply (graph_edges_wf_same version (invalidate_edge env src dst t g).2);
      [|by apply invalidate_edge_edges]. unfold invalidate_edge.
    case_match; [done|]. apply same_maps_sym, persist_edges_maps.
  - exists db'. revert Hs'. unfold invalidate_edge. by case_match.
Qed.

Lemma invalidate_conflicts_synced env e g db : commits env -> synced g db ->
  exists db', synced (invalidate_conflicts env e g).2 db'.
Proof.
  intros Hc Hs. pose proof (rp_wf _ (sy_repr _ _ Hs)) as Hw.
  destruct (closing_synced env (ke_src e) (conflicting (ke_dst e) (ke_edge_type e)) g
    (invalidate_conflicts_internal env e g).2 db) as [db' Hs'];
    [done | done | apply Hs | done | by apply invalidate_conflicts_edges; [right|] | done |].
  exists db'. revert Hs'. unfold invalidate_conflicts, invalidate_conflicts_internal. by case_match.
Qed.

(** ** Adding *)

Definition new_version (g : PetgraphBackend) (e : KGEdge) : Prop :=
  forall f, has_edge g f -> version_id f ≠ version_id e.

Lemma add_edge_synced env e g db : commits env -> synced g db ->
  plain_ends e = true -> finite_weight e = true -> new_version g e ->
  exists db', synced (add_edge env e g).2 db'.
Proof.
  intros Hc Hs Hpe Hfe Hnew. pose proof (sy_repr _ _ Hs) as Hr. pose proof (rp_wf _ Hr) as Hw.
  set (g0 := (invalidate_conflicts_internal env e g).2).
  set (p := conflicting (ke_dst e) (ke_edge_type e)).
  set (es := closed_by (ge_now env) p (adj (g_out_edges g) (ke_src e))).
  assert (graph_edges_wf version g0) as Hw0 by (apply invalidate_conflicts_edges; [by right | done]).
  assert (forall f, has_edge g0 f <-> f ∈ es \/ has_edge g f /\ version_id f ∉ (version_id <$> es)) as Hg0.
  { intros f. by apply (closing_has_edge (ge_now env) (ke_src e) p g g0). }
  assert (representable g0) as Hr0 by by apply (closing_representable (ge_now env) (ke_src e) p g).
  assert (forall f, has_edge g0 f -> version_id f ≠ version_id e) as Hnew0.
  { intros f [(x & Hx & _ & ->)%elem_of_closed_by|[Hf _]]%Hg0; [|by apply Hnew].
    rewrite set_invalid_version_id. apply (elem_of_adj g) in Hx as [Hx _]; [by apply Hnew | done]. }
  set (g1 := with_edges (adj_push (ke_src e) (ke_dst e, e) (g_out_edges g0)) (adj_push (ke_dst e) (ke_src e, e) (g_in_edges g0)) g0).
  assert (forall f, has_edge g1 f <-> f = e \/ has_edge g0 f) as Hg1.
  { intros f. unfold has_edge, g1. cbn [with_edges g_out_edges]. rewrite adj_push_eq. case_decide as Hd.
    - rewrite elem_of_app, list_elem_of_singleton. split; [intros [?|[= ? ->]]; auto|]. intros [-> |?]; auto.
    - split; [by auto|]. intros [-> |?]; [done|done]. }
  destruct (synced_persist env g g1 (es ++ [e]) db) as [db' Hs'].
  - done.
  - done.
  - apply Hs.
  - done.
  - split.
    + unfold g1, graph_edges_wf. cbn [with_edges g_out_edges g_in_edges]. apply edges_wf_push; [|done].
      intros _. apply closed_no_conflict.
    + intros f [-> |Hf]%Hg1; [done | by apply Hr0].
    + intros a. unfold g1. cbn [with_edges g_out_edges]. rewrite adj_push_eq. case_decide as Hd; [|by apply Hr0].
      rewrite fmap_app. apply NoDup_app. split_and!; [apply Hr0 | | apply NoDup_singleton].
      intros v (x & -> & Hx)%list_elem_of_fmap Hv%list_elem_of_singleton.
      apply (elem_of_adj g0) in Hx as [Hx _]; [|done]. by apply (Hnew0 _ Hx).
  - rewrite fmap_app. apply NoDup_app. split_and!; [by apply closed_ids_NoDup | | apply NoDup_singleton].
    intros v (f & -> & Hf)%list_elem_of_fmap Hv%list_elem_of_singleton. apply (Hnew0 f); [apply Hg0; by left | done].
  - apply Forall_app. split; [by apply closed_plain | by apply Forall_singleton].
  - intros f. rewrite Hg1, Hg0, elem_of_app, list_elem_of_singleton, fmap_app, elem_of_app. cbn [fmap list_fmap].
    rewrite list_elem_of_singleton. split.
    + intros [-> |[?|[Hf Hid]]]; [by auto | by auto |]. right. split; [done|]. intros [?|?]; [done | by apply (Hnew f)].
    + intros [[?| ->]|[Hf Hid]]; [by auto | by auto |]. right. right. split; [done|]. auto.
  - exists db'. unfold add_edge. fold g0.
    change (invalidate_conflicts_internal env e g) with (es, g0). cbv beta iota. cbn [snd].
    apply synced_compact. exact Hs'.
Qed.

(** A write of one node, the maps of edges being those of [g]. *)
Lemma persist_node_synced env id n g g1 db : commits env -> synced g db -> storable n ->
  g_db g1 = Some db -> g_nodes g1 = <[id := n]> (g_nodes g) ->
  g_out_edges g1 = g_out_edges g -> g_in_edges g1 = g_in_edges g ->
  exists db', synced (persist_node env id n g1) db'.
Proof.
  intros [Ht _] [_ Hn Hst Hr Hs] Hok Hdb Hnodes Eo Ei. destruct (node_codec n Hok) as (s & Es & _).
  exists (mkDatabase (<[id := s]> (KG_NODES db)) (KG_EDGES db)).
  unfold persist_node, run_txn. rewrite Hdb, Es. cbn [mbind option_bind]. rewrite Ht.
  split; [done | | | |]; cbn [with_db g_nodes KG_NODES KG_EDGES]; rewrite ?Hnodes.
  - intros id'. destruct (decide (id' = id)) as [-> |Hne].
    + by rewrite !lookup_insert_eq.
    + by rewrite !lookup_insert_ne.
  - intros id' m [[<- <-]|[_ Hm]]%lookup_insert_Some; eauto.
  - destruct Hr as [Hw Hp Hd]. split; [unfold graph_edges_wf; cbn; by rewrite Eo, Ei | unfold has_edge; cbn; by rewrite Eo | cbn; by rewrite Eo].
  - intros k v. rewrite (Hs k v). unfold has_edge. cbn. by rewrite Eo.
Qed.

Lemma add_node_synced env n g db : commits env -> synced g db -> storable n ->
  exists db', synced (add_node env n g).2 db'.
Proof.
  intros Hc Hs Hok. unfold add_node. cbn [snd].
  set (g1 := match kn_content_cid n with Some _ => _ | None => g end).
  assert (g_db g1 = g_db g /\ g_nodes g1 = g_nodes g /\ g_out_edges g1 = g_out_edges g /\ g_in_edges g1 = g_in_edges g)
    as (E1 & E2 & E3 & E4) by (unfold g1; by case_match).
  destruct (persist_node_synced env (kn_id n) n g (with_nodes (<[kn_id n := n]> (g_nodes g1)) g1) db) as [db' Hs'];
    [done | done | done | cbn; by rewrite E1; apply Hs | cbn; by rewrite E2 | done..|].
  exists db'. by apply synced_compact.
Qed.

Lemma update_node_synced env id l p g db : commits env -> synced g db ->
  (forall n, g_nodes g !! id = Some n -> storable (updated_node l p n)) ->
  exists db', synced (update_node env id l p g).2 db'.
Proof.
  intros Hc Hs Hok. unfold update_node. destruct (g_nodes g !! id) as [n|] eqn:Hn; [|by exists db].
  apply (persist_node_synced env id (updated_node l p n) g _ db); [done | done | by apply Hok | apply Hs | done..].
Qed.

(** ** Removing *)

(** Distinct versions and plain ends are kept when edges only go. *)
Lemma representable_fewer g g' (keep : string -> string * KGEdge -> bool) : representable g -> graph_edges_wf version g' ->
  (forall a, adj (g_out_edges g') a = List.filter (keep a) (adj (g_out_edges g) a)) -> representable g'.
Proof.
  intros [Hw Hp Hd] Hw' E. split; [done | |].
  - intros e. unfold has_edge. rewrite E. intros [He _]%list_elem_of_In%List.filter_In. apply Hp. by apply list_elem_of_In.
  - intros a. rewrite E. apply NoDup_filter_fmap, Hd.
Qed.

Lemma elem_of_kept g g' (keep : string -> string * KGEdge -> bool) e :
  (forall a, adj (g_out_edges g') a = List.filter (keep a) (adj (g_out_edges g) a)) ->
  has_edge g' e <-> has_edge g e /\ keep (ke_src e) (ke_dst e, e) = true.
Proof. intros E. unfold has_edge. rewrite E, list_elem_of_In, List.filter_In, <-list_elem_of_In. done. Qed.

(** The maps lose the edges of the versions in [es], the rows go with them. *)
Lemma removal_synced env g g1 es db (keep : string -> string * KGEdge -> bool) nodes :
  commits env -> synced g db -> graph_edges_wf version g1 ->
  (forall a, adj (g_out_edges g1) a = List.filter (keep a) (adj (g_out_edges g) a)) ->
  Forall (fun e => plain_ends e = true) es ->
  (forall e, has_edge g e -> keep (ke_src e) (ke_dst e, e) = true <-> version_id e ∉ (version_id <$> es)) ->
  (forall id, nodes !! id = g_nodes g1 !! id ≫= node_to_vec) ->
  (forall id n, g_nodes g1 !! id = Some n -> storable n) ->
  synced (with_db (Some (mkDatabase nodes (delete_edges env es (KG_EDGES db)))) g1)
    (mkDatabase nodes (delete_edges env es (KG_EDGES db))).
Proof.
  intros [_ Hrem] [_ Hn Hst Hr Hs] Hw E Hp Hkeep Hnodes Hst1.
  assert (representable g1) as Hr1 by by eapply representable_fewer.
  split; [done | done | done | by destruct Hr1; split |].
  eapply (edges_stored_delete env g); [done..|].
  intros e. etrans; [exact (elem_of_kept g g1 keep e E)|]. split.
  - intros [He Hk]. split; [done | by apply (Hkeep e)].
  - intros [He Hk]. split; [done | by apply (Hkeep e)].
Qed.

Lemma remove_edges_synced env g g1 es db (keep : string -> string * KGEdge -> bool) :
  commits env -> synced g db -> g_db g1 = Some db -> g_nodes g1 = g_nodes g -> graph_edges_wf version g1 ->
  (forall a, adj (g_out_edges g1) a = List.filter (keep a) (adj (g_out_edges g) a)) ->
  Forall (fun e => plain_ends e = true) es ->
  (forall e, has_edge g e -> keep (ke_src e) (ke_dst e, e) = true <-> version_id e ∉ (version_id <$> es)) ->
  exists db', synced (remove_edges_from_db env es g1) db'.
Proof.
  intros Hc Hs Hdb Hn Hw E Hp Hkeep. pose proof (removal_synced env g g1 es db keep (KG_NODES db) Hc Hs Hw E Hp Hkeep) as Hs'.
  rewrite Hn in Hs'. specialize (Hs' (sy_nodes _ _ Hs) (sy_storable _ _ Hs)).
  eexists. unfold remove_edges_from_db, run_txn. rewrite Hdb, (proj1 Hc). destruct es; [|exact Hs'].
  eapply synced_same; [| |exact Hs']; [done | rewrite Hdb; by destruct db].
Qed.

Lemma remove_edge_synced env src dst t g db : commits env -> synced g db ->
  exists db', synced (remove_edge env src dst t g).2 db'.
Proof.
  intros Hc Hs. pose proof (sy_repr _ _ Hs) as Hr. pose proof (rp_wf _ Hr) as Hw.
  set (g1 := with_edges (adj_update src (List.filter (fun x => negb (between dst t x))) (g_out_edges g))
               (adj_update dst (List.filter (fun x => negb (between src t x))) (g_in_edges g)) g).
  set (es := (List.filter (between dst t) (adj (g_out_edges g) src)).*2).
  assert (forall e, e ∈ es <-> has_edge g e /\ src = ke_src e /\ between dst t (ke_dst e, e) = true) as Hes.
  { intros e. unfold es. rewrite list_elem_of_fmap. split.
    - intros (x & -> & [Hx%list_elem_of_In Hb]%list_elem_of_In%List.filter_In).
      apply (elem_of_adj g) in Hx as (He & Hsrc & Hd); [|done]. rewrite <-Hd. by destruct x.
    - intros (He & -> & Hb). exists (ke_dst e, e). split; [done|]. apply list_elem_of_In, List.filter_In.
      split; [by apply list_elem_of_In | done]. }
  assert (same_maps g1 (remove_edge env src dst t g).2) as Hm.
  { unfold remove_edge. fold es. fold g1. destruct es; [done | apply remove_edges_maps]. }
  destruct (remove_edges_synced env g g1 es db (fun a x => negb (bool_decide (a = src)) || negb (between dst t x))) as [db' Hs'].
  - done.
  - done.
  - apply Hs.
  - done.
  - eapply graph_edges_wf_same; [by apply same_maps_sym|]. by apply (remove_edge_edges version env src dst t g); [right|].
  - intros a. unfold g1. cbn. apply adj_update_filter.
  - apply Forall_forall. intros e (He & _)%Hes. by apply Hr.
  - intros e He. rewrite <-negb_andb, negb_true_iff, <-not_true_iff_false, andb_true_iff, bool_decide_eq_true.
    split; intros Hk Hin; apply Hk.
    + apply list_elem_of_fmap in Hin as (f & Ef & (Hf & Hsrc & Hb)%Hes).
      assert (e = f) as -> by by apply (has_edge_unique g). done.
    + destruct Hin as [Hsrc Hb]. apply list_elem_of_fmap_2. by apply Hes.
  - exists db'. revert Hs'. unfold remove_edge. fold es. fold g1. destruct es; [|done].
    unfold remove_edges_from_db. by destruct (g_db g1).
Qed.

Lemma compact_edges_synced env g db : commits env -> synced g db ->
  exists db', synced (compact_edges env g).2 db'.
Proof.
  intros Hc Hs. pose proof (sy_repr _ _ Hs) as Hr. pose proof (rp_wf _ Hr) as Hw.
  pose proof (compact_edges_edges version env g ltac:(by right) Hw) as Hw1. revert Hw1.
  unfold compact_edges, compact_db. set (es := List.filter _ _).
  assert (forall e, e ∈ es -> has_edge g e) as Hes.
  { intros e [He _]%list_elem_of_In%List.filter_In. apply list_elem_of_In, list_elem_of_bind in He as ([a l] & Hl & Hin).
    rewrite hash_iter_perm in Hin. apply elem_of_map_to_list in Hin. apply list_elem_of_fmap in Hl as (x & -> & Hx).
    apply (elem_of_adj g a x Hw). unfold adj. rewrite Hin. exact Hx. }
  intros Hw1. destruct es as [|e0 es0] eqn:Ees; [by exists db|]. rewrite <-Ees in *. cbn [snd] in *.
  eapply remove_edges_synced; [done | done | apply Hs | done | | | |].
  - eapply graph_edges_wf_same; [apply same_maps_sym, remove_edges_maps | exact Hw1].
  - intros a. cbn. apply adj_fold_filter.
  - apply Forall_forall. intros e He%Hes. by apply Hr.
  - intros e He. cbn beta. rewrite forallb_forall. split.
    + intros Hk (f & Ef & Hf)%list_elem_of_fmap. apply list_elem_of_In, Hk, negb_true_iff in Hf.
      unfold same_version, str_eqb in Hf. cbn [fst snd] in Hf. injection Ef as E1 E2 E3 E4.
      rewrite E1, E2, E3, E4, Z.eqb_refl, !bool_decide_eq_true_2 in Hf by done. done.
    + intros Hid f Hf%list_elem_of_In. apply negb_true_iff, not_true_iff_false. unfold same_version, str_eqb. cbn [fst snd].
      rewrite !andb_true_iff, !bool_decide_eq_true, Z.eqb_eq. intros [E1 [[E2 E3] E4]]. apply Hid, list_elem_of_fmap.
      exists f. split; [|done]. unfold version_id. by rewrite E1, E2, E3, E4.
Qed.

Lemma incoming_version g b x : graph_edges_wf version g -> x ∈ adj (g_in_edges g) b ->
  ke_dst x.2 = b /\ ke_src x.2 = x.1 /\ exists e, has_edge g e /\ version_id e = version_id x.2.
Proof.
  intros Hg Hx. pose proof Hg as [_ [Ki _] Hm]. pose proof (Ki b x Hx) as E. unfold in_ends in E. injection E as Ed Es. split_and!; [done..|].
  assert (version x.2 ∈ version <$> pair_edges (g_out_edges g) x.1 b) as Hv.
  { rewrite Hm. apply list_elem_of_fmap_2. unfold pair_edges. apply list_elem_of_fmap_2.
    apply list_elem_of_In, List.filter_In. split; [by apply list_elem_of_In|]. by apply bool_decide_eq_true_2. }
  apply list_elem_of_fmap in Hv as (e & Ev & He). exists e.
  unfold pair_edges in He. apply list_elem_of_fmap in He as (y & -> & [Hy _]%list_elem_of_In%List.filter_In).
  apply list_elem_of_In, (elem_of_adj g) in Hy as [Hy _]; [|done]. split; [done|].
  change (version_id (version y.2) = version_id (version x.2)). by rewrite Ev.
Qed.

Lemma remove_node_synced env id g db : commits env -> synced g db ->
  exists db', synced (remove_node env id g).2 db'.
Proof.
  intros Hc Hs. pose proof (sy_repr _ _ Hs) as Hr. pose proof (rp_wf _ Hr) as Hw.
  pose proof (remove_node_adj version env id g (ew_mirror _ _ _ Hw)) as Hadj.
  pose proof (remove_node_edges version env id g Hw) as Hw1. destruct (remove_node_maps env id g) as [Hn _].
  revert Hadj Hw1 Hn. unfold remove_node. cbn [snd].
  set (g0 := match g_nodes g !! id with Some _ => _ | None => g end).
  assert (g_out_edges g0 = g_out_edges g /\ g_in_edges g0 = g_in_edges g /\ g_db g0 = Some db) as (-> & -> & Hdb0).
  { unfold g0. case_match; split_and!; try done; apply Hs. }
  set (inc := drop_other id (adj (g_out_edges g) id).*1 (g_in_edges g)).
  set (es := (adj (g_out_edges g) id).*2 ++ (adj inc id).*2).
  set (g1 := with_edges (drop_other id (adj inc id).*1 (delete id (g_out_edges g))) (delete id inc) g0).
  destruct (remove_node_and_edges_maps env id es g1) as (En & Eo & Ei & Ec). rewrite En, Eo, Ei. intros Hadj Hw1 Hn.
  assert (forall x, x ∈ adj inc id -> x ∈ adj (g_in_edges g) id) as Hinc.
  { intros x. unfold inc. rewrite adj_drop_other. intros [Hx _]%list_elem_of_In%List.filter_In. by apply list_elem_of_In. }
  assert (forall e, e ∈ es -> (ke_src e = id \/ ke_dst e = id) /\ plain_ends e = true) as Hes.
  { intros e [(x & -> & Hx)%list_elem_of_fmap|(x & -> & Hx%Hinc)%list_elem_of_fmap]%elem_of_app.
    - apply (elem_of_adj g) in Hx as (He & Hsrc & _); [|done]. split; [by left | by apply Hr].
    - apply (incoming_version g) in Hx as (Hd & _ & f & Hf & Ef); [|done]. split; [by right|].
      injection Ef as E1 E2 _ _. unfold plain_ends. rewrite <-E1, <-E2. by apply Hr. }
  pose proof (removal_synced env g g1 es db (fun a x => negb (str_eqb a id) && negb (str_eqb x.1 id)) (delete id (KG_NODES db)) Hc Hs) as Hs'.
  eexists. unfold remove_node_and_edges_from_db, run_txn. cbn [with_edges g_db g1]. rewrite Hdb0, (proj1 Hc), (proj2 Hc).
  apply Hs'.
  - eapply graph_edges_wf_same; [|exact Hw1]. unfold same_maps. by rewrite En, Eo, Ei, Ec.
  - intros a. apply Hadj.
  - apply Forall_forall. intros e He. by apply Hes.
  - intros e He. unfold str_eqb. cbn [fst]. rewrite andb_true_iff, !negb_true_iff, !bool_decide_eq_false. split.
    + intros [Hs1 Hd1] (f & Ef & Hf)%list_elem_of_fmap. destruct (Hes f Hf) as [[E|E] _]; injection Ef as E1 E2 _ _; congruence.
    + intros Hid. destruct (decide (ke_src e = id)) as [Es|Es].
      { exfalso. apply Hid, list_elem_of_fmap_2, elem_of_app. left. rewrite <-Es. by apply (list_elem_of_fmap_2 snd _ (ke_dst e, e)). }
      split; [done|]. intros Ed. apply Hid.
      assert (version e ∈ version <$> pair_edges (g_in_edges g) id (ke_src e)) as Hv.
      { rewrite <-(ew_mirror _ _ _ Hw (ke_src e) id). apply list_elem_of_fmap_2. unfold pair_edges.
        apply (list_elem_of_fmap_2 snd _ (ke_dst e, e)). apply list_elem_of_In, List.filter_In.
        split; [by apply list_elem_of_In|]. by apply bool_decide_eq_true_2. }
      apply list_elem_of_fmap in Hv as (f & Ev & (x & -> & [Hx Hx1]%list_elem_of_In%List.filter_In)%list_elem_of_fmap).
      apply list_elem_of_fmap. exists x.2. split; [change (version_id (version e) = version_id (version x.2)); by rewrite Ev|].
      apply elem_of_app. right. apply list_elem_of_fmap_2. unfold inc. rewrite adj_drop_other.
      apply list_elem_of_In, List.filter_In. split; [done|]. apply bool_decide_eq_true_1 in Hx1.
      unfold str_eqb. rewrite bool_decide_eq_false_2 by congruence. by rewrite orb_true_r.
  - intros id'. rewrite Hn. destruct (decide (id' = id)) as [-> |Hne]; [by rewrite !lookup_delete_eq|].
    rewrite !lookup_delete_ne by done. apply Hs.
  - intros id' n. rewrite Hn. intros [_ Hm]%lookup_delete_Some. by eapply sy_storable.
Qed.

(** ** Runs *)

(** An operation as the calls it makes: storing a document adds its node and then
    both directions of each association; consolidating adds the expired copies. *)
Definition association_edges (now : Z) (cid : string) (c : string * f32) : list GraphOp :=
  [Op_AddEdge (edge_new_with_episode now cid c.1 Edge_AssociatesWith c.2 cid);
   Op_AddEdge (edge_new_with_episode now c.1 cid Edge_AssociatesWith c.2 cid)].

Definition calls_of (env : GraphEnv) (op : GraphOp) (g : PetgraphBackend) : list GraphOp :=
  match op with
  | Op_UpsertDocument cid tags agent_id =>
      match split_at cid (Nat.min 8 (String.length cid)) with
      | Some (short, _) =>
          Op_AddNode (document_node (ge_now env) short cid tags agent_id) ::
          (take MAX_ASSOC_EDGES (sort_desc snd (association_candidates g cid tags agent_id)) ≫= association_edges (ge_now env) cid)
      | None => []
      end
  | Op_ConsolidateVersions src dst t keep =>
      match edge_history g src dst (Some t) with
      | Ok history =>
          let invalidated := List.filter (fun e => opt_is_some (ke_invalid_at e) && opt_is_none (ke_expired_at e)) history in
          (fun e => Op_AddEdge (set_expired_at (Some (ge_now env)) e)) <$> drop keep (merge_sort later_closed invalidated)
      | Err _ => []
      end
  | _ => [op]
  end.
Definition run_calls (env : GraphEnv) (g : PetgraphBackend) (calls : list GraphOp) : PetgraphBackend :=
  foldl (fun g op => graph_step env op g) g calls.

Lemma calls_of_step env op g : graph_step env op g = run_calls env g (calls_of env op g).
Proof.
  destruct op as [| | | | | | | |cid tags agent|src dst t keep]; try done; unfold run_calls; cbn [graph_step calls_of].
  - unfold upsert_document. destruct (split_at _ _) as [[short rest]|]; [|done]. cbn [mbind option_bind].
    cbn [foldl]. change (graph_step env (Op_AddNode ?n) g) with (add_node env n g).2.
    destruct (add_node env (document_node (ge_now env) short cid tags agent) g) as [r g1]. cbn [snd from_option].
    generalize (take MAX_ASSOC_EDGES (sort_desc snd (association_candidates g cid tags agent))). intros cs. revert g1.
    induction cs as [|[other w] cs IH]; intros g1; [done|]. cbn [foldl]. rewrite IH. done.
  - unfold consolidate_versions. destruct (edge_history g src dst (Some t)) as [history|]; [|done].
    case_match eqn:Hl; cbn [snd].
    + apply Nat.leb_le in Hl. rewrite drop_ge; [done|]. by rewrite merge_sort_Permutation.
    + generalize (drop keep (merge_sort later_closed (List.filter (fun e => opt_is_some (ke_invalid_at e) && opt_is_none (ke_expired_at e)) history))).
      intros es. clear. revert g. induction es as [|e es IH]; intros g; [done|]. cbn [foldl fmap list_fmap]. by rewrite IH.
Qed.

(** A call reaches the database in a form it is read back from: its transaction
    commits, the nodes it writes can be encoded, and a new edge has ends without
    bars, a finite weight, and ends, type and millisecond together that no edge of
    the graph has yet.  Other edges are lost or merged with another at the next
    opening, as their key is that of another edge or cannot be split. *)
Definition recorded (env : GraphEnv) (op : GraphOp) (g : PetgraphBackend) : Prop :=
  commits env /\
  match op with
  | Op_AddNode n => storable n
  | Op_AddEdge e => plain_ends e = true /\ finite_weight e = true /\ new_version g e
  | Op_UpdateNode id l p => forall n, g_nodes g !! id = Some n -> storable (updated_node l p n)
  | Op_UpsertDocument _ _ _ | Op_ConsolidateVersions _ _ _ _ => False
  | _ => True
  end.

Fixpoint recorded_calls (env : GraphEnv) (g : PetgraphBackend) (calls : list GraphOp) : Prop :=
  match calls with
  | [] => True
  | op :: calls => recorded env op g /\ recorded_calls env (graph_step env op g) calls
  end.
Fixpoint recorded_run (g : PetgraphBackend) (ops : list (GraphEnv * GraphOp)) : Prop :=
  match ops with
  | [] => True
  | (env, op) :: ops => recorded_calls env g (calls_of env op g) /\ recorded_run (graph_step env op g) ops
  end.

Lemma graph_step_synced env op g db : recorded env op g -> synced g db ->
  exists db', synced (graph_step env op g) db'.
Proof.
  intros [Hc Hop] Hs. destruct op; cbn [graph_step] in *.
  - by eapply add_node_synced.
  - destruct Hop as (? & ? & ?). by eapply add_edge_synced.
  - by eapply update_node_synced.
  - by eapply remove_node_synced.
  - by eapply remove_edge_synced.
  - by eapply invalidate_edge_synced.
  - by eapply invalidate_conflicts_synced.
  - by eapply compact_edges_synced.
  - done.
  - done.
Qed.

Lemma calls_synced env calls g db : recorded_calls env g calls -> synced g db ->
  exists db', synced (run_calls env g calls) db'.
Proof.
  revert g db. induction calls as [|op calls IH]; intros g db; [by eauto|]. intros [Hop Hrun] Hs.
  destruct (graph_step_synced env op g db Hop Hs) as [db1 Hs1]. exact (IH _ _ Hrun Hs1).
Qed.

Lemma run_synced ops g db : recorded_run g ops -> synced g db -> exists db', synced (run g ops) db'.
Proof.
  revert g db. induction ops as [|[env op] ops IH]; intros g db; [by eauto|]. intros [Hop Hrun] Hs.
  destruct (calls_synced env (calls_of env op g) g db Hop Hs) as [db1 Hs1]. rewrite <-calls_of_step in Hs1.
  exact (IH _ _ Hrun Hs1).
Qed.

Definition empty_database : Database := mkDatabase ∅ ∅.

Lemma open_empty env : synced (open env (Some empty_database)) empty_database.
Proof.
  assert (forall t, load_rows env ∅ = t -> t = []) as Hrows.
  { intros t <-. unfold load_rows, redb_range. by rewrite map_to_list_empty. }
  unfold open, load_from_redb. cbn [KG_NODES KG_EDGES empty_database]. rewrite (Hrows _ eq_refl). cbn [foldl].
  assert (forall r : result KGError DiskGraph, r = Ok (∅, ∅, ∅) \/ (exists e, r = Err e) ->
    (match r with Ok t => t | Err _ => (∅, ∅, ∅) end) = (∅, ∅, ∅)) as Hr by by intros r [-> |[e ->]].
  rewrite Hr by (destruct (le_begin env), (le_nodes env), (le_edges env); cbn; eauto).
  split; [done | | | |]; cbn [g_nodes KG_NODES KG_EDGES empty_database].
  - intros id. by rewrite !lookup_empty.
  - intros id n. by rewrite lookup_empty.
  - split; [apply edges_wf_empty | |]; unfold has_edge, adj; cbn [g_out_edges]; intros e; rewrite lookup_empty.
    + by intros ?%not_elem_of_nil.
    + constructor.
  - intros k v. rewrite lookup_empty. split; [done|]. intros (e & He & _). unfold has_edge, adj in He.
    cbn [g_out_edges] in He. rewrite lookup_empty in He. by apply not_elem_of_nil in He.
Qed.

(** C29: what of a graph survives a restart.  After any operations on a graph
    opened on an empty database, documents stored and versions consolidated among
    them, each of whose calls commits and writes nodes that can be encoded and
    edges with identifiers free of bars, finite weights and no other edge of the
    same ends, type and millisecond, opening the database again gives a graph with
    the same nodes and, for every node, the same edges out of it with their times;
    its two adjacency maps agree exactly, and its reverse index has exactly the
    nodes that carry the content.  Edges outside these bounds are not covered:
    the code loses them or merges two of them, and so a consolidation that
    expires anything is outside. *)
Theorem graph_survives_restart env env' ops :
  let g := run (open env (Some empty_database)) ops in
  recorded_run (open env (Some empty_database)) ops -> loads env' ->
  exists db, g_db g = Some db /\
    let g' := open env' (Some db) in
    g_nodes g' = g_nodes g /\ (forall a, adj (g_out_edges g') a ≡ₚ adj (g_out_edges g) a) /\
    mirror id (g_out_edges g') (g_in_edges g') /\
    (forall c id, (exists s, g_cid_refs g' !! c = Some s /\ id ∈ s) <->
                  exists n, g_nodes g !! id = Some n /\ kn_content_cid n = Some c).
Proof.
  intros g Hrun Hl. destruct (run_synced ops _ _ Hrun (open_empty env)) as [db Hs]. exists db.
  split; [apply Hs|]. by apply open_restores.
Qed.
End sync.

(** ** An instance *)

#[export] Instance spec_float_eq_dec : EqDecision spec_float.
Proof. solve_decision. Defined.
#[export] Instance spec_float_countable : Countable spec_float.
Proof.
  refine (inj_countable' (fun x => match x with
    | S754_zero b => (0%nat, b, xH, 0%Z)
    | S754_infinity b => (1%nat, b, xH, 0%Z)
    | S754_nan => (2%nat, true, xH, 0%Z)
    | S754_finite b m e => (3%nat, b, m, e)
    end) (fun '(k, b, m, e) => match k with
    | 0%nat => S754_zero b | 1%nat => S754_infinity b | 2%nat => S754_nan | _ => S754_finite b m e end) _).
  by intros [].
Defined.

Definition edge_types : list KGEdgeType :=
  [Edge_AssociatesWith; Edge_Follows; Edge_Mentions; Edge_Causes; Edge_Reminds; Edge_PartOf; Edge_SimilarTo;
   Edge_RelatedTo; Edge_HasParticipant; Edge_HasArtifact; Edge_HasRecording; Edge_HasResolution; Edge_HasFact;
   Edge_CausedBy; Edge_DependsOn; Edge_Produces; Edge_Supersedes; Edge_IsAliasOf].
#[export] Instance KGEdgeType_countable : Countable KGEdgeType.
Proof.
  refine (inj_countable edge_type_debug (fun s => List.find (fun t => str_eqb (edge_type_debug t) s) edge_types) _).
  by intros [].
Defined.

#[export] Instance KGEdge_eq_dec : EqDecision KGEdge.
Proof. unfold EqDecision, Decision. decide equality; try apply (decide (_ = _)). Defined.
#[export] Instance KGEdge_countable : Countable KGEdge.
Proof.
  refine (inj_countable' (fun e => (ke_src e, ke_dst e, ke_edge_type e, (ke_weight e : spec_float), ke_evidence_cid e, ke_created_at e,
                            ke_valid_at e, ke_invalid_at e, ke_expired_at e, ke_episode e))
    (fun '(a, b, c, d, e, f, g, h, i, j) => mkKGEdge a b c d e f g h i j) _).
  by intros [].
Defined.

Definition a_node (id : string) : KGNode := node_with_content id 7 id Node_Document id "alice" "default".

#[export] Instance bit_codec : GraphCodec := {|
  node_to_vec n := Some (kn_id n);
  node_from_slice s := Some (a_node s);
  edge_to_vec e := Some (text_encode e);
  edge_from_slice s := text_decode s;
|}.

#[export] Instance bit_codec_ok : GraphCodecOk.
Proof.
  refine {| storable n := n = a_node (kn_id n) |}.
  - intros n ->. by exists (kn_id n).
  - intros e _. eexists. split; [done|]. apply text_decode_encode.
Defined.

Definition good_env (now : Z) : GraphEnv := mkGraphEnv now true (fun _ => true).
Definition good_load : LoadEnv := mkLoadEnv true true true (fun _ => true).
Definition a_run : list (GraphEnv * GraphOp) :=
  [(good_env 7, Op_AddNode (a_node "doc")); (good_env 8, Op_AddEdge (edge_new 8 "doc" "x" Edge_Mentions (f32_of_Z 1)));
   (good_env 9, Op_InvalidateEdge "doc" "x" Edge_Mentions); (good_env 9, Op_ConsolidateVersions "doc" "x" Edge_Mentions 1)].

Lemma graph_survives_restart_witness : exists db,
  g_db (run (open good_load (Some empty_database)) a_run) = Some db /\
  mirror id (g_out_edges (open good_load (Some db))) (g_in_edges (open good_load (Some db))).
Proof.
  destruct (graph_survives_restart good_load good_load a_run) as (db & Hdb & _ & _ & Hm & _).
  - split; [split; [split; [done | by cbn]|done]|]. split; [split; [split; [done|]|done]|].
    + split_and!; [done | done |]. intros f Hf. unfold has_edge in Hf. by apply not_elem_of_nil in Hf.
    + split; [split; [by split|done]|]. split; [|done].
      match goal with |- recorded_calls ?e ?g (calls_of _ ?op _) => assert (calls_of e op g = []) as -> end; [by vm_compute|done].
  - done.
  - by exists db.
Defined.
