(* ===== verification/KernelGraph.v ===== *)
(** * Graph operations of the kernel ([src/src/kernel/ops/graph.rs])

    What the kernel puts before the backend: the permission of the caller, the
    namespace of the nodes a call names, and the filters on what it returns;
    then the walks over neighbours (causal paths and chains, impact) and the
    changes between two times.  The walks carry fuel, one unit per state taken
    off the stack, and [None] is running out of it. *)

From stdpp Require Import base gmap strings list sorting.
From S2P Require Import Prelude Float32 MemoryModel Permission ApiRequest GraphModel Graph GraphStore GraphSearch Scheduler.

Record GraphKernel := mkGraphKernel { gk_permissions : PermissionGuard; gk_graph : option PetgraphBackend }.

(** [std::io::Error] by where it comes from. *)
Inductive GraphOpError : Type :=
  | GO_denied (e : PermissionDenied)
  | GO_unavailable
  | GO_failed (e : KGError).

(** What one call draws: the clock of the permission check and of a new record,
    a fresh identifier, and what the backend draws. *)
Record KernelGraphEnv := mkKernelGraphEnv { kge_now : Z; kge_id : string; kge_backend : GraphEnv }.

Section kernel.
Context `{HashIter} `{GraphCodec}.

Definition permit (env : KernelGraphEnv) (k : GraphKernel) (ctx : PermissionContext) (action : PermissionAction)
    : result GraphOpError unit := map_err GO_denied (check (kge_now env) (gk_permissions k) ctx action).

(** [if let Ok(Some(node)) = kg.get_node(id) { check_namespace_access(..)? }] *)
Definition namespace_of_node (kg : PetgraphBackend) (ctx : PermissionContext) (id : string)
    : result GraphOpError unit :=
  match get_node kg id with
  | Ok (Some node) => map_err GO_denied (check_namespace_access ctx (kn_tenant_id node))
  | _ => Ok tt
  end.

Definition with_graph (kg : PetgraphBackend) (k : GraphKernel) : GraphKernel :=
  mkGraphKernel (gk_permissions k) (Some kg).

(** The graph of a call that needs one. *)
Definition the_graph (k : GraphKernel) : result GraphOpError PetgraphBackend := ok_or (gk_graph k) GO_unavailable.

(** A change of the backend with its result. *)
Definition apply_graph {A} (k : GraphKernel) (r : result KGError A * PetgraphBackend)
    : result GraphOpError A * GraphKernel :=
  (map_err GO_failed r.1, with_graph r.2 k).

(** ** Writing *)

Definition gk_add_node (env : KernelGraphEnv) (k : GraphKernel) (label : string) (node_type : KGNodeType)
    (properties : Json) (agent_id tenant_id : string) : result GraphOpError string * GraphKernel :=
  let ctx := context_new agent_id tenant_id in
  match (permit env k ctx Action_Write ?>> the_graph k) with
  | Err e => (Err e, k)
  | Ok kg =>
      let now := kge_now env in
      let node := mkKGNode (kge_id env) label node_type None properties agent_id tenant_id now (Some now) None None in
      let '(r, k) := apply_graph k (add_node (kge_backend env) node kg) in
      (match r with Ok _ => Ok (kge_id env) | Err e => Err e end, k)
  end.

Definition kg_add_edge (env : KernelGraphEnv) (k : GraphKernel) (src dst : string) (edge_type : KGEdgeType)
    (weight : option f32) (agent_id tenant_id : string) : result GraphOpError unit * GraphKernel :=
  let ctx := context_new agent_id tenant_id in
  match (permit env k ctx Action_Write ?>>
         kg <-? the_graph k;
         namespace_of_node kg ctx src ?>>
         namespace_of_node kg ctx dst ?>> Ok kg) with
  | Err e => (Err e, k)
  | Ok kg =>
      let now := kge_now env in
      let edge := mkKGEdge src dst edge_type (default f32_one weight) None now (Some now) None None None in
      apply_graph k (add_edge (kge_backend env) edge kg)
  end.

Definition kg_remove_edge (env : KernelGraphEnv) (k : GraphKernel) (src dst : string)
    (edge_type : option KGEdgeType) (agent_id tenant_id : string) : result GraphOpError unit * GraphKernel :=
  let ctx := context_new agent_id tenant_id in
  match (permit env k ctx Action_Delete ?>>
         kg <-? the_graph k;
         namespace_of_node kg ctx src ?>>
         namespace_of_node kg ctx dst ?>> Ok kg) with
  | Err e => (Err e, k)
  | Ok kg => apply_graph k (remove_edge (kge_backend env) src dst edge_type kg)
  end.

Definition kg_update_node (env : KernelGraphEnv) (k : GraphKernel) (node_id : string) (label : option string)
    (properties : option Json) (agent_id tenant_id : string) : result GraphOpError unit * GraphKernel :=
  let ctx := context_new agent_id tenant_id in
  match (permit env k ctx Action_Write ?>>
         kg <-? the_graph k;
         namespace_of_node kg ctx node_id ?>> Ok kg) with
  | Err e => (Err e, k)
  | Ok kg => apply_graph k (update_node (kge_backend env) node_id label properties kg)
  end.

Definition kg_remove_node (env : KernelGraphEnv) (k : GraphKernel) (node_id agent_id tenant_id : string)
    : result GraphOpError unit * GraphKernel :=
  let ctx := context_new agent_id tenant_id in
  match (permit env k ctx Action_Delete ?>>
         kg <-? the_graph k;
         namespace_of_node kg ctx node_id ?>> Ok kg) with
  | Err e => (Err e, k)
  | Ok kg => apply_graph k (remove_node (kge_backend env) node_id kg)
  end.

(** ** Reading *)

Definition in_namespace (tenant_id : string) (nodes : list KGNode) : list KGNode :=
  List.filter (fun n => str_eqb (kn_tenant_id n) tenant_id) nodes.

Definition kg_list_nodes (env : KernelGraphEnv) (k : GraphKernel) (node_type : option KGNodeType)
    (agent_id tenant_id : string) : result GraphOpError (list KGNode) :=
  permit env k (context_new agent_id tenant_id) Action_Read ?>>
  match gk_graph k with
  | None => Ok []
  | Some kg => nodes <-? map_err GO_failed (list_nodes kg agent_id node_type); Ok (in_namespace tenant_id nodes)
  end.

Definition kg_get_valid_nodes_at (env : KernelGraphEnv) (k : GraphKernel) (agent_id tenant_id : string)
    (node_type : option KGNodeType) (t : Z) : result GraphOpError (list KGNode) :=
  permit env k (context_new agent_id tenant_id) Action_Read ?>>
  match gk_graph k with
  | None => Ok []
  | Some kg =>
      nodes <-? map_err GO_failed (get_valid_nodes_at kg agent_id node_type t); Ok (in_namespace tenant_id nodes)
  end.

Definition kg_get_node (env : KernelGraphEnv) (k : GraphKernel) (node_id agent_id tenant_id : string)
    : result GraphOpError (option KGNode) :=
  let ctx := context_new agent_id tenant_id in
  permit env k ctx Action_Read ?>>
  match gk_graph k with
  | None => Ok None
  | Some kg =>
      node <-? map_err GO_failed (get_node kg node_id);
      match node with
      | Some n => map_err GO_denied (check_namespace_access ctx (kn_tenant_id n)) ?>> Ok node
      | None => Ok node
      end
  end.

(** Both ends are nodes of the namespace. *)
Definition ends_in_namespace (kg : PetgraphBackend) (tenant_id : string) (e : KGEdge) : bool :=
  match get_node kg (ke_src e), get_node kg (ke_dst e) with
  | Ok (Some s), Ok (Some d) => str_eqb (kn_tenant_id s) tenant_id && str_eqb (kn_tenant_id d) tenant_id
  | _, _ => false
  end.

Definition kg_list_edges (env : KernelGraphEnv) (k : GraphKernel) (agent_id tenant_id : string)
    (node_id : option string) : result GraphOpError (list KGEdge) :=
  permit env k (context_new agent_id tenant_id) Action_Read ?>>
  match gk_graph k with
  | None => Ok []
  | Some kg =>
      edges <-? map_err GO_failed (list_edges kg agent_id);
      let filtered := List.filter (ends_in_namespace kg tenant_id) edges in
      Ok (match node_id with
          | Some nid => List.filter (fun e => str_eqb (ke_src e) nid || str_eqb (ke_dst e) nid) filtered
          | None => filtered
          end)
  end.

Definition kg_edge_history (env : KernelGraphEnv) (k : GraphKernel) (src dst : string)
    (edge_type : option KGEdgeType) (agent_id tenant_id : string) : result GraphOpError (list KGEdge) :=
  let ctx := context_new agent_id tenant_id in
  permit env k ctx Action_Read ?>>
  match gk_graph k with
  | None => Ok []
  | Some kg =>
      namespace_of_node kg ctx src ?>>
      namespace_of_node kg ctx dst ?>>
      map_err GO_failed (edge_history kg src dst edge_type)
  end.

(** The fuel of the two searches is that of the backend's. *)
Definition kg_find_paths (fuel : nat) (k : GraphKernel) (src dst : string) (max_depth : nat)
    : option (list (list KGNode)) :=
  match gk_graph k with None => Some [] | Some kg => find_paths fuel kg src dst max_depth end.

Definition kg_find_weighted_path `{BinaryHeap PathState path_state_le} (fuel : nat) (k : GraphKernel)
    (src dst : string) (max_depth : nat) : option (option (list KGNode)) :=
  match gk_graph k with None => Some None | Some kg => find_weighted_path fuel kg src dst max_depth end.

Definition gk_is_cid_referenced (k : GraphKernel) (cid : string) : bool :=
  match gk_graph k with
  | None => false
  | Some kg => match has_node_with_cid kg cid with Ok b => b | Err _ => false end
  end.

(** ** Exploring *)

Section explore.
Variable f32_ln : f32 -> f32.

Definition graph_explore (k : GraphKernel) (cid : string) (edge_type : option KGEdgeType) (depth : Z)
    : list KGSearchHit :=
  match gk_graph k with
  | None => []
  | Some kg =>
      match get_neighbors kg cid edge_type depth with
      | Err _ => []
      | Ok neighbors =>
          (fun x => mkSearchHit x.1 (Some (ke_edge_type x.2)) f32_zero
                      (match authority_score f32_ln kg cid with Ok s => s | Err _ => f32_zero end) f32_zero)
            <$> neighbors
      end
  end.

(** [format!("{:?}", node_type)] *)
Definition node_type_debug (t : KGNodeType) : string :=
  match t with
  | Node_Entity => "Entity" | Node_Fact => "Fact" | Node_Document => "Document"
  | Node_Agent => "Agent" | Node_Memory => "Memory" | Node_Event => "Event"
  end.

(** An unknown name is no filter. *)
Definition explore_filter (s : string) : option KGEdgeType :=
  if str_eqb s "associates_with" then Some Edge_AssociatesWith
  else if str_eqb s "mentions" then Some Edge_Mentions
  else if str_eqb s "follows" then Some Edge_Follows
  else if str_eqb s "part_of" then Some Edge_PartOf
  else if str_eqb s "related_to" then Some Edge_RelatedTo
  else if str_eqb s "similar_to" then Some Edge_SimilarTo
  else if str_eqb s "causes" then Some Edge_Causes
  else if str_eqb s "reminds" then Some Edge_Reminds
  else None.

Definition graph_explore_raw (k : GraphKernel) (cid : string) (edge_type_str : option string) (depth : Z)
    : list (string * string * string * string * f32) :=
  let edge_filter := edge_type_str ≫= explore_filter in
  (fun hit => (kn_id (sh_node hit), kn_label (sh_node hit), to_lowercase (node_type_debug (kn_node_type (sh_node hit))),
               match sh_edge_type hit with Some et => to_lowercase (edge_type_debug et) | None => "" end,
               sh_authority_score hit)) <$> graph_explore k cid edge_filter depth.
End explore.

(** ** Causal paths *)

Record CausalPath := mkCausalPath { cp_nodes : list KGNode; cp_edges : list KGEdge; cp_strength : f32 }.

(** The literal [n/10], the nearest single. *)
Definition f32_tenths (n : Z) : f32 := f32_div (f32_of_Z n) (f32_of_Z 10).

Definition edge_causal_weight (e : KGEdge) : f32 :=
  f32_mul (ke_weight e)
    match ke_edge_type e with
    | Edge_Causes => f32_one
    | Edge_HasFact => f32_tenths 9
    | Edge_Follows => f32_tenths 7
    | Edge_RelatedTo => f32_tenths 5
    | Edge_AssociatesWith => f32_tenths 4
    | Edge_Mentions => f32_tenths 3
    | _ => f32_tenths 2
    end.

Record CausalSearch := mkCausalSearch {
  cs_current : string;
  cs_path : list string;
  cs_edges : list KGEdge;
  cs_strength : f32;
}.

(** The neighbours of one step, the edges out before the edges in. *)
Definition step_neighbours (kg : PetgraphBackend) (id : string) : list (KGNode * KGEdge) :=
  match get_neighbors kg id None 1 with Ok l => l | Err _ => [] end.

(** The entries left on the stack by an expanded one, the top first. *)
Definition causal_successors (kg : PetgraphBackend) (s : CausalSearch) : list CausalSearch :=
  reverse (omap (fun '(node, edge) =>
    if str_mem (kn_id node) (cs_path s) then None
    else Some (mkCausalSearch (kn_id node) (cs_path s ++ [kn_id node]) (cs_edges s ++ [edge])
                 (f32_mul (cs_strength s) (edge_causal_weight edge)))) (step_neighbours kg (cs_current s))).

Definition causal_result (kg : PetgraphBackend) (s : CausalSearch) : list CausalPath :=
  let nodes := node_path kg (cs_path s) in
  let strength := match cs_edges s with
                  | [] => f32_one
                  | es => f32_div (cs_strength s) (f32_of_nat (length es))
                  end in
  match nodes with [] => [] | _ => [mkCausalPath nodes (cs_edges s) strength] end.

Fixpoint causal_loop (fuel : nat) (kg : PetgraphBackend) (dst : string) (max_depth : nat)
    (stack : list CausalSearch) (visited : gset string) (results : list CausalPath) : option (list CausalPath) :=
  match fuel with
  | O => None
  | S fuel =>
      match stack with
      | [] => Some results
      | s :: stack =>
          if str_eqb (cs_current s) dst && negb (bool_decide (cs_path s = [])) then
            causal_loop fuel kg dst max_depth stack visited (results ++ causal_result kg s)
          else if (max_depth <=? length (cs_path s))%nat then causal_loop fuel kg dst max_depth stack visited results
          else if bool_decide (cs_current s ∈ visited) then causal_loop fuel kg dst max_depth stack visited results
          else causal_loop fuel kg dst max_depth (causal_successors kg s ++ stack) ({[cs_current s]} ∪ visited) results
      end
  end.

Definition kg_find_causal_path (fuel : nat) (k : GraphKernel) (src dst : string) (max_depth : nat)
    : option (list CausalPath) :=
  match gk_graph k with
  | None => Some []
  | Some kg => sort_desc cp_strength <$> causal_loop fuel kg dst max_depth [mkCausalSearch src [src] [] f32_one] ∅ []
  end.

(** ** Impact *)

Record ImpactResult := mkImpact { ir_affected : list string; ir_depth : Z; ir_severity : f32 }.

Definition impact_strength (e : KGEdge) : f32 :=
  match ke_edge_type e with
  | Edge_Causes => ke_weight e
  | Edge_HasFact => f32_mul (ke_weight e) (f32_tenths 9)
  | Edge_Follows => f32_mul (ke_weight e) (f32_tenths 7)
  | Edge_RelatedTo => f32_mul (ke_weight e) (f32_tenths 5)
  | Edge_AssociatesWith => f32_mul (ke_weight e) (f32_tenths 4)
  | _ => f32_mul (ke_weight e) (f32_tenths 2)
  end.

Record Impact := mkImpactState { im_affected : gset string; im_visited : gset string; im_severity : f32 }.

(** The nodes pushed by an expanded one, the top first. *)
Definition impact_successors (kg : PetgraphBackend) (visited : gset string) (current : string) (depth : nat)
    : list (string * nat) :=
  reverse (omap (fun '(node, edge) =>
    if bool_decide (kn_id node ∈ visited) then None
    else if f32_gt (impact_strength edge) (f32_tenths 1) then Some (kn_id node, S depth) else None)
    (step_neighbours kg current)).

Definition impact_visit (node_id : string) (propagation_depth : nat) (current : string) (depth : nat) (st : Impact)
    : Impact :=
  let visited := {[current]} ∪ im_visited st in
  if str_eqb current node_id then mkImpactState (im_affected st) visited (im_severity st)
  else
    let depth_factor :=
      if (0 <? propagation_depth)%nat
      then f32_sub f32_one (f32_div (f32_of_nat depth) (f32_of_nat propagation_depth)) else f32_zero in
    mkImpactState ({[current]} ∪ im_affected st) visited (f32_add (im_severity st) depth_factor).

Fixpoint impact_loop (fuel : nat) (kg : PetgraphBackend) (node_id : string) (propagation_depth : nat)
    (frontier : list (string * nat)) (st : Impact) : option Impact :=
  match fuel with
  | O => None
  | S fuel =>
      match frontier with
      | [] => Some st
      | (current, depth) :: frontier =>
          if bool_decide (current ∈ im_visited st) then impact_loop fuel kg node_id propagation_depth frontier st
          else
            let st := impact_visit node_id propagation_depth current depth st in
            if (propagation_depth <=? depth)%nat then impact_loop fuel kg node_id propagation_depth frontier st
            else impact_loop fuel kg node_id propagation_depth
                   (impact_successors kg (im_visited st) current depth ++ frontier) st
      end
  end.

(** [f32::min] with [1.0]; a NaN gives the other. *)
Definition f32_min_one (x : f32) : f32 := if f32_gt f32_one x || f32_eqb f32_one x then x else f32_one.

Definition kg_impact_analysis (fuel : nat) (k : GraphKernel) (node_id : string) (propagation_depth : nat)
    : option ImpactResult :=
  match gk_graph k with
  | None => Some (mkImpact [] 0 f32_zero)
  | Some kg =>
      st ← impact_loop fuel kg node_id propagation_depth [(node_id, 0%nat)] (mkImpactState ∅ ∅ f32_zero);
      let affected := sort_strings (elements (im_affected st)) in
      let reached := Z.of_nat (Nat.min (size (im_visited st)) propagation_depth) in
      Some (mkImpact affected reached
              (f32_min_one (f32_div (im_severity st) (f32_of_nat (Nat.max (length affected) 1)))))
  end.

(** ** Changes between two times *)

Inductive ChangeType : Type := Change_Created | Change_Modified | Change_Deleted.

Record TemporalChange := mkTemporalChange {
  tc_before : option KGNode;
  tc_after : option KGNode;
  tc_change_type : ChangeType;
  tc_timestamp_ms : Z;
}.

Definition node_changes (from_ms to_ms : Z) (node : KGNode) : list TemporalChange :=
  let within t := ((from_ms <=? t) && (t <=? to_ms))%Z in
  let valid_at := default (kn_created_at node) (kn_valid_at node) in
  (if within valid_at then [mkTemporalChange None (Some node) Change_Created valid_at] else []) ++
  (match kn_expired_at node with
   | Some exp => if within exp then [mkTemporalChange (Some node) None Change_Deleted exp] else []
   | None => []
   end) ++
  (match kn_invalid_at node with
   | Some inv => if within inv then [mkTemporalChange (Some node) None Change_Modified inv] else []
   | None => []
   end).

Definition latest_first (a b : TemporalChange) : Prop := (tc_timestamp_ms b <= tc_timestamp_ms a)%Z.
#[export] Instance latest_first_dec : RelDecision latest_first.
Proof. unfold latest_first. intros a b. apply _. Defined.

Definition kg_temporal_changes (env : KernelGraphEnv) (k : GraphKernel) (from_ms to_ms : Z)
    (agent_id tenant_id : string) : result GraphOpError (list TemporalChange) :=
  permit env k (context_new agent_id tenant_id) Action_Read ?>>
  match gk_graph k with
  | None => Ok []
  | Some kg =>
      all_nodes <-? map_err GO_failed (list_nodes kg agent_id None);
      Ok (merge_sort latest_first (in_namespace tenant_id all_nodes ≫= node_changes from_ms to_ms))
  end.

(** ** Causal chains *)

Definition is_causal_edge (t : KGEdgeType) : bool :=
  match t with Edge_Causes | Edge_HasFact | Edge_Follows => true | _ => false end.

(** The path, the edges along it and the results of the recursion. *)
Definition chain_result (kg : PetgraphBackend) (path : list string) (edges : list KGEdge) : list CausalPath :=
  if (2 <=? length edges)%nat then
    match node_path kg path with
    | [] => []
    | nodes => [mkCausalPath nodes edges (f32_div (foldl f32_add f32_neg_zero (ke_weight <$> edges)) (f32_of_nat (length edges)))]
    end
  else [].

(** The recursion [dfs]; [levels] is [max_depth - current_depth].  [visited] is
    as it was before when a call returns. *)
Fixpoint chain_dfs (levels : nat) (kg : PetgraphBackend) (current : string) (path : list string)
    (edges : list KGEdge) (visited : gset string) : list CausalPath :=
  match levels with
  | O => []
  | S levels =>
      if bool_decide (current ∈ visited) then []
      else
        step_neighbours kg current ≫= fun '(node, edge) =>
          if is_causal_edge (ke_edge_type edge) then
            let path' := path ++ [kn_id node] in
            let edges' := edges ++ [edge] in
            chain_result kg path' edges' ++
            chain_dfs levels kg (kn_id node) path' edges' ({[current]} ∪ visited)
          else []
  end.

Definition kg_detect_causal_chains (k : GraphKernel) (start_node_id : string) (max_depth : nat) : list CausalPath :=
  match gk_graph k with
  | None => []
  | Some kg => sort_desc cp_strength (chain_dfs max_depth kg start_node_id [start_node_id] [] ∅)
  end.
End kernel.
