(* ===== verification/KernelGraphProps.v ===== *)
(** * The kernel's graph operations

    Callers of one namespace do not touch or see the nodes of another; the
    walks over neighbours end and return what they say, with the exceptions
    shown on concrete graphs. *)

From stdpp Require Import base gmap strings list sorting.
From S2P Require Import Prelude Float32 MemoryModel Permission ApiRequest GraphModel Graph GraphStore GraphSearch Scheduler.
From S2P Require Import GraphPaths GraphInvariant GraphSync KernelGraph.

(** ** Writes *)

Inductive KernelGraphOp : Type :=
  | KG_AddNode (label : string) (node_type : KGNodeType) (properties : Json)
  | KG_AddEdge (src dst : string) (edge_type : KGEdgeType) (weight : option f32)
  | KG_RemoveEdge (src dst : string) (edge_type : option KGEdgeType)
  | KG_UpdateNode (node_id : string) (label : option string) (properties : option Json)
  | KG_RemoveNode (node_id : string).

Section props.
Context `{HashIter} `{GraphCodec}.

Definition kernel_graph_op (env : KernelGraphEnv) (k : GraphKernel) (op : KernelGraphOp) (agent_id tenant_id : string)
    : result GraphOpError unit * GraphKernel :=
  match op with
  | KG_AddNode label t props =>
      let '(r, k) := gk_add_node env k label t props agent_id tenant_id in
      (match r with Ok _ => Ok tt | Err e => Err e end, k)
  | KG_AddEdge src dst t w => kg_add_edge env k src dst t w agent_id tenant_id
  | KG_RemoveEdge src dst t => kg_remove_edge env k src dst t agent_id tenant_id
  | KG_UpdateNode id l p => kg_update_node env k id l p agent_id tenant_id
  | KG_RemoveNode id => kg_remove_node env k id agent_id tenant_id
  end.

(** The node belongs to a namespace other than [tenant_id]. *)
Definition foreign (g : PetgraphBackend) (tenant_id id : string) : Prop :=
  exists n, g_nodes g !! id = Some n /\ kn_tenant_id n ≠ tenant_id.

(** Nothing about the nodes of other namespaces changed: the nodes and the edges
    between them, as either end sees them. *)
Definition foreign_untouched (tenant_id : string) (g g' : PetgraphBackend) : Prop :=
  (forall a, foreign g tenant_id a -> g_nodes g' !! a = g_nodes g !! a) /\
  (forall a b, foreign g tenant_id a -> foreign g tenant_id b ->
     pair_edges (g_out_edges g') a b = pair_edges (g_out_edges g) a b /\
     pair_edges (g_in_edges g') a b = pair_edges (g_in_edges g) a b).

Lemma foreign_untouched_refl t g : foreign_untouched t g g.
Proof. done. Qed.

Lemma namespace_not_foreign kg agent_id tenant_id id :
  namespace_of_node kg (context_new agent_id tenant_id) id = Ok tt -> forall a, foreign kg tenant_id a -> a ≠ id.
Proof.
  unfold namespace_of_node, get_node, check_namespace_access. intros E a (n & Hn & Ht) ->. rewrite Hn in E.
  cbn in E. unfold str_eqb in E. case_bool_decide; [congruence | done].
Qed.

(** Edges elsewhere are as they were. *)
Lemma pair_edges_update k f m a b : f [] = [] -> a ≠ k -> pair_edges (adj_update k f m) a b = pair_edges m a b.
Proof. intros Hf Ha. unfold pair_edges. by rewrite adj_update_eq, decide_False. Qed.

Lemma pair_edges_push_other k x m a b : a ≠ k -> pair_edges (adj_push k x m) a b = pair_edges m a b.
Proof. intros Ha. unfold pair_edges. by rewrite adj_push_eq, decide_False. Qed.

Lemma add_edge_foreign env e g t :
  (forall a, foreign g t a -> a ≠ ke_src e) -> (forall a, foreign g t a -> a ≠ ke_dst e) ->
  foreign_untouched t g (add_edge env e g).2.
Proof.
  intros Hs Hd. unfold add_edge, invalidate_conflicts_internal. cbn [snd].
  match goal with |- foreign_untouched _ _ (maybe_compact (persist_add_edge_atomic _ _ ?es ?g1)) =>
    destruct (same_maps_trans _ _ _ (persist_edges_maps env (es ++ [e]) g1) (maybe_compact_maps _)) as (En & Eo & Ei & _) end.
  unfold foreign_untouched, persist_add_edge_atomic. rewrite En, Eo, Ei. split; [done|]. intros a b Ha _.
  cbn [with_edges g_out_edges g_in_edges].
  rewrite !pair_edges_push_other, !pair_edges_update by (done || auto). done.
Qed.

Lemma remove_edge_foreign env src dst et g t :
  (forall a, foreign g t a -> a ≠ src) -> (forall a, foreign g t a -> a ≠ dst) ->
  foreign_untouched t g (remove_edge env src dst et g).2.
Proof.
  intros Hs Hd. unfold remove_edge.
  set (es := (List.filter (between dst et) (adj (g_out_edges g) src)).*2). set (g1 := with_edges _ _ _).
  assert (same_maps g1 (match es with [] => (Err (KG_NodeNotFound ("edge " +:+ src +:+ "→" +:+ dst +:+ " not found")), g1)
                        | _ => (Ok tt, remove_edges_from_db env es g1) end).2) as (En & Eo & Ei & _)
    by (destruct es; [done | apply remove_edges_maps]).
  unfold foreign_untouched. rewrite En, Eo, Ei. split; [done|]. intros a b Ha _. unfold g1.
  cbn [with_edges g_out_edges g_in_edges]. rewrite !pair_edges_update by (done || auto). done.
Qed.

Lemma remove_node_foreign env id g t : graph_edges_wf version g -> (forall a, foreign g t a -> a ≠ id) ->
  foreign_untouched t g (remove_node env id g).2.
Proof.
  intros Hw Hid. split.
  - intros a Ha. rewrite (proj1 (remove_node_maps env id g)), lookup_delete_ne; [done|]. symmetry. auto.
  - intros a b Ha Hb. pose proof (remove_node_adj version env id g (ew_mirror _ _ _ Hw)) as Hadj. cbv zeta in Hadj.
    rewrite (pair_edges_filter _ _ (fun a x => negb (str_eqb a id) && negb (str_eqb x.1 id)) a b (fun a => proj1 (Hadj a))).
    rewrite (pair_edges_filter _ _ (fun a x => negb (str_eqb a id) && negb (str_eqb x.1 id)) a b (fun a => proj2 (Hadj a))).
    assert (negb (str_eqb a id) && negb (str_eqb b id) = true) as Hk.
    { unfold str_eqb. rewrite !bool_decide_eq_false_2 by auto. done. }
    split; apply lfilter_all; intros e _; exact Hk.
Qed.

Lemma update_node_foreign env id l p g t : (forall a, foreign g t a -> a ≠ id) ->
  foreign_untouched t g (update_node env id l p g).2.
Proof.
  intros Hid. unfold update_node. destruct (g_nodes g !! id); [|done]. cbn [snd].
  match goal with |- foreign_untouched _ _ (persist_node _ _ ?n ?g1) =>
    destruct (persist_node_maps env id n g1) as (En & Eo & Ei & _) end.
  unfold foreign_untouched. rewrite En, Eo, Ei. split; [|done]. intros a Ha. cbn. rewrite lookup_insert_ne; [done|].
  symmetry. auto.
Qed.

Lemma add_node_foreign env n g t : g_nodes g !! kn_id n = None -> foreign_untouched t g (add_node env n g).2.
Proof.
  intros Hn. unfold add_node. cbn [snd]. set (g0 := match kn_content_cid n with Some _ => _ | None => g end).
  assert (g_nodes g0 = g_nodes g /\ g_out_edges g0 = g_out_edges g /\ g_in_edges g0 = g_in_edges g) as (E1 & E2 & E3)
    by (unfold g0; by case_match).
  match goal with |- foreign_untouched _ _ (maybe_compact (persist_node _ _ _ ?g1)) =>
    destruct (same_maps_trans _ _ _ (persist_node_maps env (kn_id n) n g1) (maybe_compact_maps _)) as (En & Eo & Ei & _) end.
  unfold foreign_untouched. rewrite En, Eo, Ei. cbn [with_nodes g_nodes g_out_edges g_in_edges]. rewrite E1, E2, E3.
  split; [|done]. intros a (m & Hm & _). rewrite lookup_insert_ne by congruence. done.
Qed.

(** The graph of the kernel, the empty one when there is none. *)
Definition graph_of (k : GraphKernel) : PetgraphBackend := default graph_new (gk_graph k).

(** What holds of a call of namespace [t] with its outcome. *)
Definition isolated (t : string) (k : GraphKernel) (out : result GraphOpError unit * GraphKernel) : Prop :=
  foreign_untouched t (graph_of k) (graph_of out.2) /\ gk_permissions out.2 = gk_permissions k /\
  (forall e, out.1 = Err (GO_denied e) \/ out.1 = Err GO_unavailable -> out.2 = k).

Lemma guarded_isolated t k (guard : result GraphOpError PetgraphBackend) (f : PetgraphBackend -> result KGError unit * PetgraphBackend) :
  (forall kg, guard = Ok kg -> gk_graph k = Some kg /\ foreign_untouched t kg (f kg).2) ->
  isolated t k (match guard with Err e => (Err e, k) | Ok kg => apply_graph k (f kg) end).
Proof.
  intros Hg. destruct guard as [kg|e]; [|by split_and!]. destruct (Hg kg eq_refl) as [Hk Hf].
  unfold isolated, graph_of, apply_graph. rewrite Hk. split_and!; [done..|].
  intros e. cbn. by destruct (f kg).1; intros [|].
Qed.

(** The two guards of the writing calls. *)
Lemma node_guard env k a t action id kg :
  (permit env k (context_new a t) action ?>> kg <-? the_graph k; namespace_of_node kg (context_new a t) id ?>> Ok kg) = Ok kg ->
  gk_graph k = Some kg /\ forall x, foreign kg t x -> x ≠ id.
Proof.
  unfold the_graph. destruct (permit _ _ _ _); [|done]. destruct (gk_graph k) as [g|]; [|done]. cbn [ok_or].
  destruct (namespace_of_node g _ id) as [[]|] eqn:Hn; [|done]. intros ->%Ok_inj.
  split; [done | by eapply namespace_not_foreign].
Qed.

Lemma edge_guard env k a t action src dst kg :
  (permit env k (context_new a t) action ?>> kg <-? the_graph k;
   namespace_of_node kg (context_new a t) src ?>> namespace_of_node kg (context_new a t) dst ?>> Ok kg) = Ok kg ->
  gk_graph k = Some kg /\ (forall x, foreign kg t x -> x ≠ src) /\ (forall x, foreign kg t x -> x ≠ dst).
Proof.
  unfold the_graph. destruct (permit _ _ _ _); [|done]. destruct (gk_graph k) as [g|]; [|done]. cbn [ok_or].
  destruct (namespace_of_node g _ src) as [[]|] eqn:Hs; [|done].
  destruct (namespace_of_node g _ dst) as [[]|] eqn:Hd; [|done]. intros ->%Ok_inj.
  split_and!; [done | by eapply namespace_not_foreign..].
Qed.

Lemma gk_add_node_isolated env k label nt props a t :
  g_nodes (graph_of k) !! kge_id env = None -> isolated t k (kernel_graph_op env k (KG_AddNode label nt props) a t).
Proof.
  intros Hfresh. cbn [kernel_graph_op]. unfold gk_add_node, the_graph, graph_of in *.
  destruct (permit _ _ _ _); [|by split_and!]. destruct (gk_graph k) as [kg|] eqn:Hk; cbn [ok_or]; [|by split_and!].
  unfold apply_graph. cbn [fst snd map_err add_node]. unfold isolated, graph_of. rewrite Hk.
  split_and!; [|done | by intros e [|]]. cbn [default from_option snd with_graph gk_graph].
  match goal with |- foreign_untouched _ _ ?g' => change g' with
    (add_node (kge_backend env) (mkKGNode (kge_id env) label nt None props a t (kge_now env) (Some (kge_now env)) None None) kg).2 end.
  by apply add_node_foreign.
Qed.

(** C31: Namespaces are isolated for writing: whatever a caller of one namespace
    asks of the graph, the nodes of other namespaces and the edges between them
    are what they were, in both adjacency maps; and a call that is refused or
    has no graph changes nothing at all. *)
Theorem graph_writes_stay_in_namespace env k op agent_id tenant_id :
  graph_edges_wf version (graph_of k) -> g_nodes (graph_of k) !! kge_id env = None ->
  isolated tenant_id k (kernel_graph_op env k op agent_id tenant_id).
Proof.
  intros Hw Hfresh. destruct op as [label nt props|src dst et w|src dst et|nid l p|nid].
  - by apply gk_add_node_isolated.
  - apply guarded_isolated. intros kg (Hk & Hs & Hd)%edge_guard. split; [done|]. by apply add_edge_foreign.
  - apply guarded_isolated. intros kg (Hk & Hs & Hd)%edge_guard. split; [done|]. by apply remove_edge_foreign.
  - apply guarded_isolated. intros kg (Hk & Hs)%node_guard. split; [done|]. by apply update_node_foreign.
  - apply guarded_isolated. intros kg (Hk & Hs)%node_guard. split; [done|]. apply remove_node_foreign; [|done].
    unfold graph_of in Hw. by rewrite Hk in Hw.
Qed.

(** ** Reads *)

(** Namespaces are isolated for reading: the nodes a caller gets by
    identifier, by listing or at a time are exactly those of the graph that
    belong to its namespace (and, in the lists, to the agent, not deleted or
    valid at the time), and the edges it lists have both ends there. *)
Lemma graph_reads_stay_in_namespace env k agent_id tenant_id kg : gk_graph k = Some kg ->
  (forall id n, kg_get_node env k id agent_id tenant_id = Ok (Some n) ->
     g_nodes kg !! id = Some n /\ kn_tenant_id n = tenant_id) /\
  (forall nt nodes, kg_list_nodes env k nt agent_id tenant_id = Ok nodes -> forall n,
     n ∈ nodes <-> (exists id, g_nodes kg !! id = Some n) /\ kn_tenant_id n = tenant_id /\ kn_agent_id n = agent_id /\
                   kn_expired_at n = None /\ node_type_matches nt n = true) /\
  (forall nt t nodes, kg_get_valid_nodes_at env k agent_id tenant_id nt t = Ok nodes -> forall n,
     n ∈ nodes <-> (exists id, g_nodes kg !! id = Some n) /\ kn_tenant_id n = tenant_id /\ kn_agent_id n = agent_id /\
                   node_is_valid_at n t = true /\ node_type_matches nt n = true) /\
  (forall nid edges, kg_list_edges env k agent_id tenant_id nid = Ok edges -> forall e, e ∈ edges ->
     ends_in_namespace kg tenant_id e = true /\ none_or nid (fun n => str_eqb (ke_src e) n || str_eqb (ke_dst e) n) = true).
Proof.
  intros Hk. unfold kg_get_node, kg_list_nodes, kg_get_valid_nodes_at, kg_list_edges. rewrite Hk.
  destruct (permit env k _ Action_Read); [|done]. split_and!.
  - intros id n. unfold get_node. cbn [map_err]. destruct (g_nodes kg !! id) as [m|]; [|done].
    unfold check_namespace_access, str_eqb. cbn [context_new pc_tenant_id]. case_bool_decide as Ht; [|done].
    cbn [map_err]. intros E%Ok_inj. by simplify_eq.
  - intros nt nodes E%Ok_inj n. rewrite <-E. unfold in_namespace.
    rewrite !elem_of_lfilter, elem_of_values, !andb_true_iff. unfold str_eqb. rewrite !bool_decide_eq_true.
    destruct (kn_expired_at n); naive_solver.
  - intros nt t nodes E%Ok_inj n. rewrite <-E. unfold in_namespace.
    rewrite !elem_of_lfilter, elem_of_values, !andb_true_iff. unfold str_eqb. rewrite !bool_decide_eq_true. naive_solver.
  - intros nid edges E%Ok_inj e. rewrite <-E.
    destruct nid as [n|]; rewrite !elem_of_lfilter; naive_solver.
Qed.

(** ** Changes *)

(** No change is ever a deletion: the nodes looked at are those that are not
    deleted. *)
Lemma temporal_changes_miss_deletions env k from_ms to_ms agent_id tenant_id changes :
  kg_temporal_changes env k from_ms to_ms agent_id tenant_id = Ok changes ->
  Forall (fun c => tc_change_type c ≠ Change_Deleted) changes.
Proof.
  unfold kg_temporal_changes. destruct (permit _ _ _ _); [|done]. destruct (gk_graph k) as [kg|]; intros E%Ok_inj;
    rewrite <-E; [|constructor].
  rewrite merge_sort_Permutation. apply Forall_forall. intros c (n & Hc & Hn)%list_elem_of_bind.
  unfold in_namespace in Hn. rewrite !elem_of_lfilter in Hn. destruct Hn as [[_ Hf] _].
  rewrite !andb_true_iff in Hf. destruct Hf as [[_ He] _]. unfold node_changes in Hc.
  destruct (kn_expired_at n); [done|]. rewrite !elem_of_app in Hc.
  destruct Hc as [Hc|[Hc|Hc]]; repeat case_match; set_solver.
Qed.
End props.

(** ** Impact *)

(** One step of the walk: an edge in either direction, strong enough. *)
Definition strong_link (kg : PetgraphBackend) (a b : string) : Prop :=
  exists node edge, (node, edge) ∈ step_neighbours kg a /\ kn_id node = b /\
    f32_gt (impact_strength edge) (f32_tenths 1) = true.

(** [b] is at most that many steps from [a]. *)
Inductive steps_to (kg : PetgraphBackend) (a : string) : nat -> string -> Prop :=
  | steps_none : steps_to kg a 0 a
  | steps_more n b c : steps_to kg a n b -> strong_link kg b c -> steps_to kg a (S n) c.

Lemma step_neighbours_length kg id : (length (step_neighbours kg id) <= branching kg)%nat.
Proof.
  unfold step_neighbours, get_neighbors. cbn [Z.eqb]. rewrite length_app. pose proof (branching_spec kg id).
  unfold neighbours. pose proof (omap_length_le (fun x : string * KGEdge => if type_matches None x.2 then node ← g_nodes kg !! x.1; Some (node, x.2) else None)) as Hle.
  pose proof (Hle (adj (g_out_edges kg) id)). pose proof (Hle (adj (g_in_edges kg) id)). lia.
Qed.

Lemma elem_of_impact_successors kg visited current depth x d :
  (x, d) ∈ impact_successors kg visited current depth <->
  d = S depth /\ x ∉ visited /\ strong_link kg current x.
Proof.
  unfold impact_successors, strong_link. rewrite elem_of_reverse, list_elem_of_omap. split.
  - intros ([node edge] & Hin & E). case_bool_decide; [done|]. destruct (f32_gt _ _) eqn:Hg; simplify_eq. eauto 10.
  - intros (-> & Hv & node & edge & Hin & <- & Hg). exists (node, edge). split; [done|].
    rewrite bool_decide_eq_false_2 by done. by rewrite Hg.
Qed.

(** What the loop keeps. *)
Record impact_inv (kg : PetgraphBackend) (node_id : string) (depth : nat) (frontier : list (string * nat)) (st : Impact) : Prop := {
  ii_frontier : Forall (fun xd => steps_to kg node_id xd.2 xd.1 /\ (xd.2 <= depth)%nat) frontier;
  ii_visited : forall x, x ∈ im_visited st -> exists d, (d <= depth)%nat /\ steps_to kg node_id d x;
  ii_affected : im_affected st = im_visited st ∖ {[node_id]};
}.

Definition frontier_work (b depth : nat) (frontier : list (string * nat)) : nat :=
  sum_list_with (fun xd => effort b (depth - xd.2)) frontier.

Lemma frontier_work_cons b depth x d l :
  frontier_work b depth ((x, d) :: l) = (effort b (depth - d) + frontier_work b depth l)%nat.
Proof. done. Qed.
Lemma frontier_work_app b depth l k : frontier_work b depth (l ++ k) = (frontier_work b depth l + frontier_work b depth k)%nat.
Proof. apply sum_list_with_app. Qed.

Lemma impact_visit_inv kg node_id depth current d frontier st :
  impact_inv kg node_id depth ((current, d) :: frontier) st ->
  impact_inv kg node_id depth frontier (impact_visit node_id depth current d st).
Proof.
  intros [Hf Hv Ha]. apply Forall_cons in Hf as [[Hs Hd] Hf]. unfold impact_visit, str_eqb.
  split; [done | |].
  - intros x. case_bool_decide; cbn; intros [->%elem_of_singleton|Hx]%elem_of_union; eauto.
  - case_bool_decide as Hc; cbn; rewrite Ha; set_solver.
Qed.

Lemma impact_visit_visited node_id depth current d st :
  im_visited (impact_visit node_id depth current d st) = {[current]} ∪ im_visited st.
Proof. unfold impact_visit. by case_match. Qed.

Lemma successors_work kg visited current d depth : (d < depth)%nat ->
  (frontier_work (branching kg) depth (impact_successors kg visited current d) < effort (branching kg) (depth - d))%nat.
Proof.
  intros Hd. replace (depth - d)%nat with (S (depth - S d)) by lia. cbn [effort].
  assert (frontier_work (branching kg) depth (impact_successors kg visited current d) <=
          length (impact_successors kg visited current d) * effort (branching kg) (depth - S d))%nat as Hw.
  { assert (forall xd, xd ∈ impact_successors kg visited current d -> xd.2 = S d) as Hall
      by by intros [x d'] (-> & _)%elem_of_impact_successors.
    unfold frontier_work. induction (impact_successors kg visited current d) as [|xd l IH]; cbn; [lia|].
    rewrite (Hall xd) by set_solver. specialize (IH ltac:(set_solver)). lia. }
  assert (length (impact_successors kg visited current d) <= branching kg)%nat as Hl.
  { unfold impact_successors. rewrite length_reverse. etrans; [apply omap_length_le | apply step_neighbours_length]. }
  nia.
Qed.

Lemma impact_loop_spec kg node_id depth (must : gset string) fuel frontier st :
  (frontier_work (branching kg) depth frontier < fuel)%nat -> impact_inv kg node_id depth frontier st ->
  (forall x, x ∈ must -> x ∈ im_visited st \/ x ∈ frontier.*1) ->
  exists st', impact_loop fuel kg node_id depth frontier st = Some st' /\ impact_inv kg node_id depth [] st' /\
    must ⊆ im_visited st'.
Proof.
  revert frontier st. induction fuel as [|fuel IH]; intros frontier st Hw Hi Hm; [lia|]. cbn [impact_loop].
  destruct frontier as [|[current d] frontier].
  { exists st. split_and!; [done..|]. intros x [?|Hx]%Hm; [done | by apply not_elem_of_nil in Hx]. }
  rewrite frontier_work_cons in Hw.
  pose proof (effort_pos (branching kg) (depth - d)).
  case_bool_decide as Hv.
  { apply IH; [lia | destruct Hi as [[_ Hf]%Forall_cons Hi1 Hi2]; by split |].
    intros x Hx. apply Hm in Hx. cbn in Hx. set_solver. }
  pose proof (impact_visit_inv _ _ _ _ _ _ _ Hi) as Hi'.
  assert (forall x, x ∈ must -> x ∈ im_visited (impact_visit node_id depth current d st) \/ x ∈ frontier.*1) as Hm'.
  { intros x Hx. rewrite impact_visit_visited. apply Hm in Hx. cbn in Hx. set_solver. }
  destruct (depth <=? d)%nat eqn:Hd.
  { apply IH; [lia | done | done]. }
  apply Nat.leb_gt in Hd. pose proof (successors_work kg (im_visited (impact_visit node_id depth current d st)) current d depth Hd).
  apply IH.
  - rewrite frontier_work_app. lia.
  - destruct Hi' as [Hf Hi1 Hi2]. split; [|done..]. apply Forall_app. split; [|done]. apply Forall_forall.
    intros [x d'] (-> & _ & Hl)%elem_of_impact_successors. cbn. split; [|lia].
    destruct Hi as [[[Hs _] _]%Forall_cons _ _]. by eapply steps_more.
  - intros x Hx. rewrite fmap_app, elem_of_app. destruct (Hm' x Hx); auto.
Qed.

(** [kg_impact_analysis] always ends, and the nodes it reports are sorted,
    without repetition and without the node itself; each is at most
    [propagation_depth] steps away along edges stronger than a tenth, in either
    direction, and every node one such step away is reported when the depth is
    not zero. *)
Lemma impact_analysis_sound k kg node_id depth : gk_graph k = Some kg ->
  exists enough, forall fuel, (enough <= fuel)%nat -> exists r,
    kg_impact_analysis fuel k node_id depth = Some r /\
    NoDup (ir_affected r) /\ Sorted String.le (ir_affected r) /\ node_id ∉ ir_affected r /\
    (forall x, x ∈ ir_affected r -> exists d, (d <= depth)%nat /\ steps_to kg node_id d x) /\
    ((0 < depth)%nat -> forall x, strong_link kg node_id x -> x ≠ node_id -> x ∈ ir_affected r).
Proof.
  intros Hk. exists (S (S (frontier_work (branching kg) depth [(node_id, 0%nat)]))). intros fuel Hf.
  unfold kg_impact_analysis. rewrite Hk.
  set (must := if (0 <? depth)%nat then list_to_set (impact_successors kg {[node_id]} node_id 0).*1 else ∅ : gset string).
  assert (exists st, impact_loop fuel kg node_id depth [(node_id, 0%nat)] (mkImpactState ∅ ∅ f32_zero) = Some st /\
    impact_inv kg node_id depth [] st /\ must ⊆ im_visited st) as (st & -> & [_ Hv Ha] & Hm).
  { destruct fuel as [|fuel]; [lia|]. cbn [impact_loop]. rewrite bool_decide_eq_false_2 by set_solver.
    assert (impact_inv kg node_id depth [(node_id, 0%nat)] (mkImpactState ∅ ∅ f32_zero)) as Hi0.
    { split; [apply Forall_singleton; split; [constructor|cbn; lia] | set_solver | cbn; set_solver]. }
    pose proof (impact_visit_inv _ _ _ _ _ _ _ Hi0) as Hi. pose proof (impact_visit_visited node_id depth node_id 0 (mkImpactState ∅ ∅ f32_zero)) as Hvis.
    cbn in Hvis. rewrite union_empty_r_L in Hvis. unfold must. destruct (depth <=? 0)%nat eqn:Hd.
    - apply Nat.leb_le in Hd. destruct fuel as [|fuel]; [lia|]. cbn [impact_loop]. eexists. split_and!; [done..|].
      replace (0 <? depth)%nat with false by (symmetry; apply Nat.ltb_ge; lia). set_solver.
    - apply Nat.leb_gt in Hd. replace (0 <? depth)%nat with true by (symmetry; apply Nat.ltb_lt; lia). rewrite Hvis, app_nil_r.
      pose proof (successors_work kg {[node_id]} node_id 0 depth Hd) as Hw. rewrite frontier_work_cons in Hf.
      apply impact_loop_spec; [lia | | set_solver].
      destruct Hi as [_ Hi1 Hi2]. split; [|done..]. apply Forall_forall.
      intros [x d'] (-> & _ & Hl)%elem_of_impact_successors. cbn. split; [|lia]. eapply steps_more; [constructor | done]. }
  eexists. split; [done|]. cbn [ir_affected]. unfold sort_strings.
  assert (forall x, x ∈ merge_sort String.le (elements (im_affected st)) <-> x ∈ im_visited st /\ x ≠ node_id) as Hin.
  { intros x. rewrite merge_sort_Permutation, elem_of_elements, Ha. set_solver. }
  split_and!.
  - rewrite merge_sort_Permutation. apply NoDup_elements.
  - apply Sorted_merge_sort. apply _.
  - rewrite Hin. naive_solver.
  - intros x [Hx _]%Hin. by apply Hv.
  - intros Hd x Hl Hne. apply Hin. split; [|done]. apply Hm. unfold must.
    replace (0 <? depth)%nat with true by (symmetry; apply Nat.ltb_lt; lia).
    apply elem_of_list_to_set, list_elem_of_fmap. exists (x, 1%nat). split; [done|].
    apply elem_of_impact_successors. split_and!; [done | set_solver | done].
Qed.

(** A graph of [Causes] edges of weight one. *)
Definition causes_graph (ids : list string) (edges : list (string * string)) : PetgraphBackend :=
  let g := foldl (fun g id => with_nodes (<[id := node_new id 0 id Node_Entity "x" "default"]> (g_nodes g)) g) graph_new ids in
  foldl (fun g e => let edge := edge_new 0 e.1 e.2 Edge_Causes f32_one in
           with_edges (adj_push e.1 (e.2, edge) (g_out_edges g)) (adj_push e.2 (e.1, edge) (g_in_edges g)) g) g edges.

Definition shortcut : PetgraphBackend :=
  causes_graph ["s"; "a"; "b"; "c"] [("s", "a"); ("s", "b"); ("b", "a"); ("a", "c")].

(** The walk is depth first and does not come back to a node: [c] is two steps
    from [s], but [a] is reached through [b] first, at the last depth. *)
Lemma impact_analysis_misses :
  (ir_affected <$> kg_impact_analysis 20 (mkGraphKernel guard_new (Some shortcut)) "s" 2) = Some ["a"; "b"] /\
  steps_to shortcut "s" 2 "c".
Proof.
  split; [by vm_compute|].
  eapply (steps_more _ _ _ "a"); [eapply (steps_more _ _ _ "s"); [constructor|]|].
  - exists (node_new "a" 0 "a" Node_Entity "x" "default"), (edge_new 0 "s" "a" Edge_Causes f32_one).
    split_and!; [|done..]. by apply list_elem_of_lookup_2 with 0%nat.
  - exists (node_new "c" 0 "c" Node_Entity "x" "default"), (edge_new 0 "a" "c" Edge_Causes f32_one).
    split_and!; [|done..]. by apply list_elem_of_lookup_2 with 0%nat.
Qed.

(** The cause of a node counts as affected by it. *)
Lemma impact_analysis_follows_causes :
  ir_affected <$> kg_impact_analysis 20 (mkGraphKernel guard_new (Some (causes_graph ["cause"; "effect"] [("cause", "effect")]))) "effect" 1
  = Some ["cause"].
Proof. by vm_compute. Qed.

(** ** Causal paths *)

Record causal_ok (kg : PetgraphBackend) (src : string) (s : CausalSearch) : Prop := {
  co_trail : trail kg src (cs_path s);
  co_last : last (cs_path s) = Some (cs_current s);
  co_edges : length (cs_path s) = S (length (cs_edges s));
}.

Lemma step_neighbours_linked kg a node edge : index_wf kg -> (node, edge) ∈ step_neighbours kg a -> linked kg a (kn_id node).
Proof.
  intros [Hid _]. unfold step_neighbours, get_neighbors, neighbours, linked. cbn [Z.eqb]. rewrite elem_of_app, !list_elem_of_omap.
  intros [([o e] & Hx & E)|([o e] & Hx & E)]; cbn in E; destruct (g_nodes kg !! o) as [n|] eqn:Hn; simplify_eq/=;
    rewrite (Hid o node Hn); apply (list_elem_of_fmap_2 fst) in Hx; auto.
Qed.

Lemma causal_successors_ok kg src s : index_wf kg -> causal_ok kg src s ->
  Forall (causal_ok kg src) (causal_successors kg s) /\
  Forall (fun q => length q = S (length (cs_path s))) (cs_path <$> causal_successors kg s) /\
  (length (cs_path <$> causal_successors kg s) <= branching kg)%nat.
Proof.
  intros Hi [Ht Hl He]. unfold causal_successors. rewrite Forall_fmap, !Forall_reverse, length_fmap, length_reverse. split_and!.
  - apply Forall_forall. intros t ([node edge] & Hin & E)%list_elem_of_omap. unfold str_mem in E. case_bool_decide as Hm; simplify_eq.
    split; cbn.
    + eapply trail_snoc; [done | done | by eapply step_neighbours_linked | done].
    + by rewrite last_snoc.
    + rewrite !length_app. cbn. lia.
  - apply Forall_forall. intros t ([node edge] & Hin & E)%list_elem_of_omap. case_match; simplify_eq. cbn. rewrite length_app. cbn. lia.
  - etrans; [apply omap_length_le | apply step_neighbours_length].
Qed.

(** What a reported path is. *)
Definition causal_route (kg : PetgraphBackend) (src dst : string) (d : nat) (c : CausalPath) : Prop :=
  exists p, simple_route kg src dst d p /\ cp_nodes c = node_path kg p /\ length p = S (length (cp_edges c)).

Lemma causal_loop_spec kg src dst d fuel stack visited results : index_wf kg ->
  (work (branching kg) d (cs_path <$> stack) < fuel)%nat ->
  Forall (fun s => causal_ok kg src s /\ (length (cs_path s) <= Nat.max 1 d)%nat) stack ->
  Forall (causal_route kg src dst d) results ->
  exists r, causal_loop fuel kg dst d stack visited results = Some r /\ Forall (causal_route kg src dst d) r.
Proof.
  intros Hi. revert stack visited results. induction fuel as [|fuel IH]; intros stack visited results Hw Hok Hres; [lia|].
  destruct stack as [|s stack]; cbn [causal_loop]; [by eexists|].
  cbn [fmap list_fmap] in Hw. unfold work in Hw. cbn [sum_list_with] in Hw. fold (work (branching kg) d (cs_path <$> stack)) in Hw.
  pose proof (effort_pos (branching kg) (d - length (cs_path s))). apply Forall_cons in Hok as [[[Ht Hl He] Hlen] Hok].
  destruct (str_eqb (cs_current s) dst && _) eqn:Hc.
  { apply IH; [lia | done|]. apply Forall_app. split; [done|].
    apply andb_true_iff in Hc as [Hc%bool_decide_eq_true_1 _]. unfold causal_result.
    destruct (node_path kg (cs_path s)) eqn:Hn; [constructor|]. apply Forall_singleton. exists (cs_path s).
    split_and!; [split_and!; [done | by rewrite Hl, Hc | done] | by rewrite Hn | done]. }
  destruct (d <=? length (cs_path s))%nat eqn:Hd; [apply IH; [lia|done..]|]. apply Nat.leb_gt in Hd.
  destruct (bool_decide (cs_current s ∈ visited)); [apply IH; [lia|done..]|].
  destruct (causal_successors_ok kg src s Hi ltac:(by split)) as (Ho & Hq & Hn).
  pose proof (work_children (branching kg) d (cs_path s) _ Hd Hn Hq).
  apply IH; [rewrite fmap_app, work_app; lia | | done]. apply Forall_app. split; [|done].
  rewrite Forall_fmap in Hq. apply Forall_forall. intros t Htin. rewrite Forall_forall in Ho, Hq. split; [by apply Ho|].
  rewrite (Hq t Htin). lia.
Qed.

(** [kg_find_causal_path] always ends, and every path it reports is a simple
    path from [src] to [dst] with one edge per step. *)
Lemma causal_paths_sound k kg src dst d : gk_graph k = Some kg -> index_wf kg ->
  exists enough, forall fuel, (enough <= fuel)%nat -> exists r,
    kg_find_causal_path fuel k src dst d = Some r /\ Forall (causal_route kg src dst d) r.
Proof.
  intros Hk Hi. exists (S (work (branching kg) d [[src]])). intros fuel Hf.
  destruct (causal_loop_spec kg src dst d fuel [mkCausalSearch src [src] [] f32_one] ∅ [] Hi) as (r & Hr & Hall);
    [cbn [fmap list_fmap cs_path]; lia | | constructor |].
  - apply Forall_singleton. split; [split; [apply trail_single | done | done] | cbn; lia].
  - exists (sort_desc cp_strength r). unfold kg_find_causal_path. rewrite Hk, Hr. split; [done|]. by rewrite sort_desc_perm.
Qed.

Definition two_ways : PetgraphBackend :=
  causes_graph ["a"; "b"; "c"; "d"; "e"] [("a", "b"); ("a", "c"); ("b", "d"); ("c", "d"); ("d", "e")].

(** Of the two ways from [a] to [e] one is reported: [d] is not expanded twice. *)
Lemma causal_paths_miss :
  (fun r => length r) <$> kg_find_causal_path 30 (mkGraphKernel guard_new (Some two_ways)) "a" "e" 10 = Some 1%nat /\
  length <$> find_paths 30 two_ways "a" "e" 10 = Some 2%nat.
Proof. by vm_compute. Qed.

(** ** On concrete kernels *)

Definition two_vaults : GraphKernel :=
  mkGraphKernel guard_new (Some (mkGraph {["n" := node_new "n" 0 "n" Node_Entity "x" "home"; "m" := node_new "m" 0 "m" Node_Entity "x" "work"]}
    ∅ ∅ ∅ None 0)).
Definition call_env : KernelGraphEnv := mkKernelGraphEnv 5 "fresh" (good_env 5).

Lemma graph_writes_stay_in_namespace_witness :
  (kernel_graph_op call_env two_vaults (KG_UpdateNode "m" (Some "mine") None) "x" "home").2 = two_vaults /\
  isolated "home" two_vaults (kernel_graph_op call_env two_vaults (KG_UpdateNode "m" (Some "mine") None) "x" "home").
Proof.
  split; [reflexivity|].
  apply (graph_writes_stay_in_namespace call_env two_vaults (KG_UpdateNode "m" (Some "mine") None) "x" "home").
  - apply edges_wf_empty.
  - reflexivity.
Defined.

Lemma graph_reads_stay_in_namespace_witness :
  kg_get_node call_env two_vaults "n" "x" "home" = Ok (Some (node_new "n" 0 "n" Node_Entity "x" "home")) /\
  kn_tenant_id (node_new "n" 0 "n" Node_Entity "x" "home") = "home".
Proof.
  split; [reflexivity|].
  refine (proj2 (proj1 (graph_reads_stay_in_namespace call_env two_vaults "x" "home" _ eq_refl) "n" _ _)). reflexivity.
Defined.

Lemma impact_analysis_sound_witness :
  exists enough, forall fuel, (enough <= fuel)%nat -> exists r,
    kg_impact_analysis fuel (mkGraphKernel guard_new (Some shortcut)) "s" 2 = Some r /\ "s" ∉ ir_affected r.
Proof.
  destruct (impact_analysis_sound (mkGraphKernel guard_new (Some shortcut)) shortcut "s" 2 eq_refl) as [enough Hf].
  exists enough. intros fuel Hle. destruct (Hf fuel Hle) as (r & Hr & _ & _ & Hn & _). by exists r.
Defined.
