(* ===== verification/KernelAgents.v ===== *)
(** * Agents in the kernel ([src/src/kernel/ops/agent.rs],
      [src/src/kernel/api_dispatch.rs])

    The operations that register agents and move them through their lifecycle:
    each changes the scheduler, tells the event bus and writes the index files.
    Then what every request goes through before its handler: validation, the
    registration of an agent the kernel has not seen, and the count of the
    call.  The knowledge graph is a trait of the source and a class here. *)

From stdpp Require Import base gmap strings pretty list.
From S2P Require Import Prelude MemoryModel Scheduler EventBus EventBusProps Permission AgentAuth ApiRequest Security SecurityProps GraphModel.

Local Open Scope Z_scope.

(** ** The knowledge graph behind the kernel *)

(** The trait [KnowledgeGraph], as far as the operations below use it. *)
Class KnowledgeGraph := {
  graph : Type;
  trait_add_node : graph -> KGNode -> bool * graph;
}.

(** [format!("{:?}", state)] and [format!("{:?}", priority)] *)
Definition state_debug (s : AgentState) : string :=
  match s with
  | Created => "Created" | Waiting => "Waiting" | Running => "Running" | Suspended => "Suspended"
  | Completed => "Completed" | Failed => "Failed" | Terminated => "Terminated"
  end.
Definition priority_debug (p : IntentPriority) : string :=
  match p with Critical => "Critical" | High => "High" | Medium => "Medium" | Low => "Low" end.

Inductive AgentOpError : Type :=
  | Agent_not_found (name_or_id : string)
  | Agent_reserved (name : string)
  | Agent_transition (e : TransitionError)
  | Agent_terminal (agent_id : string) (s : AgentState).

Definition RESERVED_AGENT_NAMES : list string := ["kernel"; "system"; "root"; "admin"].

Section kernel.
Context `{BinaryHeap IntentEntry entry_cmp_le} `{Broadcast} `{KnowledgeGraph} `{AuthPlatform}.
(** [serde_json::to_string] at the types the indexes and the event log hold. *)
Variable event_to_string : SequencedEvent -> option string.
Variable agents_to_string : list Agent -> option string.
Variable usage_to_string : gmap string AgentUsage -> option string.
Variable intents_to_string : list Intent -> option string.

Record AgentKernel := mkAgentKernel {
  ak_scheduler : AgentScheduler;
  ak_security : SecurityKernel;
  ak_bus : EventBus;
  ak_disk : EventDisk;
  ak_graph : option graph;
  ak_agent_index : option string;
  ak_usage_index : option string;
  ak_intent_index : option string;
}.

Definition with_scheduler (s : AgentScheduler) (k : AgentKernel) : AgentKernel :=
  mkAgentKernel s (ak_security k) (ak_bus k) (ak_disk k) (ak_graph k) (ak_agent_index k)
    (ak_usage_index k) (ak_intent_index k).

Definition emit_event (plan : EmitPlan) (event : KernelEvent) (k : AgentKernel) : AgentKernel :=
  let '(bus, disk) := emit event_to_string plan (ak_bus k) (ak_disk k) event in
  mkAgentKernel (ak_scheduler k) (ak_security k) bus disk (ak_graph k) (ak_agent_index k)
    (ak_usage_index k) (ak_intent_index k).

Definition persist_usage (io : PermissionIo) (k : AgentKernel) : AgentKernel :=
  mkAgentKernel (ak_scheduler k) (ak_security k) (ak_bus k) (ak_disk k) (ak_graph k)
    (ak_agent_index k)
    (atomic_write_json io (ak_usage_index k) (usage_to_string (snapshot_usage (ak_scheduler k))))
    (ak_intent_index k).

Definition persist_agents (io usage_io : PermissionIo) (k : AgentKernel) : AgentKernel :=
  persist_usage usage_io
    (mkAgentKernel (ak_scheduler k) (ak_security k) (ak_bus k) (ak_disk k) (ak_graph k)
       (atomic_write_json io (ak_agent_index k) (agents_to_string (snapshot_agents (ak_scheduler k))))
       (ak_usage_index k) (ak_intent_index k)).

(** [persist_intents] drains the queue and puts it back to take its snapshot. *)
Definition persist_intents (io : PermissionIo) (k : AgentKernel) : option AgentKernel :=
  match snapshot_intents (ak_scheduler k) with
  | None => None
  | Some (intents, s) =>
      Some (mkAgentKernel s (ak_security k) (ak_bus k) (ak_disk k) (ak_graph k) (ak_agent_index k)
              (ak_usage_index k) (atomic_write_json io (ak_intent_index k) (intents_to_string intents)))
  end.

(** What one operation takes from its environment: a fresh agent and node
    identifier, the clocks and the outcomes of its writes. *)
Record OpEnv := mkOpEnv {
  oe_new_id : string;
  oe_new_node : string;
  oe_now : Z;
  oe_emit : EmitPlan;
  oe_agents_io : PermissionIo;
  oe_usage_io : PermissionIo;
}.

Definition kg_add_node (env : OpEnv) (k : AgentKernel) (label : string) (node_type : KGNodeType)
    (properties : Json) (agent_id tenant_id : string) : option string * AgentKernel :=
  match check (oe_now env) (pk_permissions (sk_permissions (ak_security k)))
          (context_new agent_id tenant_id) Action_Write, ak_graph k with
  | Err _, _ | _, None => (None, k)
  | Ok _, Some kg =>
      let now := oe_now env in
      let node := mkKGNode (oe_new_node env) label node_type None properties agent_id tenant_id
                    now (Some now) None None in
      let '(ok, kg') := trait_add_node kg node in
      (if ok then Some (oe_new_node env) else None,
       mkAgentKernel (ak_scheduler k) (ak_security k) (ak_bus k) (ak_disk k) (Some kg')
         (ak_agent_index k) (ak_usage_index k) (ak_intent_index k))
  end.

(** The body [register_agent] and [ensure_agent_registered] share. *)
Definition register_named (env : OpEnv) (k : AgentKernel) (name : string) : string * AgentKernel :=
  let agent := agent_new (oe_new_id env) (oe_now env) name in
  let id := a_id agent in
  let k := with_scheduler (snd (register (ak_scheduler k) agent)) k in
  let props := JObject [("kind", JString "agent"); ("name", JString name)] in
  let k := snd (kg_add_node env k id Node_Entity props id "default") in
  let k := emit_event (oe_emit env) (AgentStateChanged id "None" "Waiting") k in
  (id, persist_agents (oe_agents_io env) (oe_usage_io env) k).

Definition ensure_agent_registered (env : OpEnv) (k : AgentKernel) (agent_id : string) : AgentKernel :=
  if opt_is_some (resolve (ak_scheduler k) agent_id) then k
  else snd (register_named env k agent_id).

Definition register_agent (env : OpEnv) (k : AgentKernel) (name : string)
    : result AgentOpError string * AgentKernel :=
  if str_mem (to_lowercase name) RESERVED_AGENT_NAMES then (Err (Agent_reserved name), k)
  else let '(id, k') := register_named env k name in (Ok id, k').

(** ** Lifecycle *)

Definition state_or_created (k : AgentKernel) (id : string) : AgentState :=
  default Created (a_state <$> get (ak_scheduler k) id).

(** [update_state(..)?], the event, the index files. *)
Definition change_state (env : OpEnv) (k : AgentKernel) (id old_state : string) (st : AgentState)
    : result AgentOpError unit * AgentKernel :=
  let '(r, s) := update_state (ak_scheduler k) id st in
  match r with
  | Err e => (Err (Agent_transition e), with_scheduler s k)
  | Ok _ =>
      let k := emit_event (oe_emit env) (AgentStateChanged id old_state (state_debug st))
                 (with_scheduler s k) in
      (Ok tt, persist_agents (oe_agents_io env) (oe_usage_io env) k)
  end.

Definition agent_resume (env : OpEnv) (k : AgentKernel) (name_or_id : string)
    : result AgentOpError unit * AgentKernel :=
  match resolve (ak_scheduler k) name_or_id with
  | None => (Err (Agent_not_found name_or_id), k)
  | Some aid => change_state env k aid "Suspended" Waiting
  end.

Definition agent_terminate (env : OpEnv) (k : AgentKernel) (name_or_id : string)
    : result AgentOpError unit * AgentKernel :=
  match resolve (ak_scheduler k) name_or_id with
  | None => (Err (Agent_not_found name_or_id), k)
  | Some aid => change_state env k aid (state_debug (state_or_created k aid)) Terminated
  end.

Definition agent_complete (env : OpEnv) (k : AgentKernel) (agent_id : string)
    : result AgentOpError unit * AgentKernel :=
  match get (ak_scheduler k) agent_id with
  | None => (Err (Agent_not_found agent_id), k)
  | Some agent => change_state env k agent_id (state_debug (a_state agent)) Completed
  end.

Definition agent_fail (env : OpEnv) (k : AgentKernel) (agent_id : string)
    : result AgentOpError unit * AgentKernel :=
  match get (ak_scheduler k) agent_id with
  | None => (Err (Agent_not_found agent_id), k)
  | Some agent => change_state env k agent_id (state_debug (a_state agent)) Failed
  end.

Definition agent_set_resources (env : OpEnv) (k : AgentKernel) (agent_id : string)
    (memory cpu_time : option Z) (tools : option (list string))
    : result AgentOpError unit * AgentKernel :=
  match get_resources (ak_scheduler k) agent_id with
  | None => (Err (Agent_not_found agent_id), k)
  | Some current =>
      let resources := {| memory_quota := default (memory_quota current) memory;
                          cpu_time_quota := default (cpu_time_quota current) cpu_time;
                          allowed_tools := default (allowed_tools current) tools |} in
      let '(found, s) := set_resources (ak_scheduler k) agent_id resources in
      if found
      then (Ok tt, persist_agents (oe_agents_io env) (oe_usage_io env) (with_scheduler s k))
      else (Err (Agent_not_found ""), with_scheduler s k)
  end.

(** The agent named by the intent, if it exists, must accept it. *)
Definition submit_admit (k : AgentKernel) (agent_id : option string)
    : result AgentOpError AgentKernel :=
  match agent_id with
  | None => Ok k
  | Some aid =>
      match get (ak_scheduler k) aid with
      | None => Ok k
      | Some agent =>
          if is_terminal (a_state agent) then Err (Agent_terminal aid (a_state agent))
          else if bool_decide (a_state agent = Created)
          then Ok (with_scheduler (snd (update_state (ak_scheduler k) aid Waiting)) k)
          else Ok k
      end
  end.

(** [oe_new_id] is the intent's identifier; the queue is also written out. *)
Definition submit_intent (env : OpEnv) (k : AgentKernel) (priority : IntentPriority)
    (description : string) (action agent_id : option string)
    : result AgentOpError string * AgentKernel :=
  match submit_admit k agent_id with
  | Err e => (Err e, k)
  | Ok k =>
      let intent := {| i_id := oe_new_id env; i_priority := priority;
                       i_description := description; i_action := action;
                       i_agent_id := agent_id; i_submitted_at := oe_now env |} in
      let k := with_scheduler (submit (ak_scheduler k) intent) k in
      let k := emit_event (oe_emit env)
                 (IntentSubmitted (oe_new_id env) agent_id (priority_debug priority)) k in
      (Ok (oe_new_id env), default k (persist_intents (oe_agents_io env) k))
  end.

Definition track_cli_usage (env : OpEnv) (k : AgentKernel) (agent_name_or_id : string) : AgentKernel :=
  let k := ensure_agent_registered env k agent_name_or_id in
  let resolved := default agent_name_or_id (resolve (ak_scheduler k) agent_name_or_id) in
  with_scheduler (record_tool_call (oe_now env) (ak_scheduler k) resolved) k.

Definition track_cli_token_usage (env : OpEnv) (k : AgentKernel) (agent_name_or_id : string)
    (tokens : Z) : AgentKernel :=
  let resolved := default agent_name_or_id (resolve (ak_scheduler k) agent_name_or_id) in
  persist_usage (oe_usage_io env)
    (with_scheduler (record_token_usage (oe_now env) (ak_scheduler k) resolved tokens) k).

(** ** What every request goes through *)

Definition skip_auto_register (req : ApiRequest) : bool :=
  match req with
  | Req_AgentStatus _ | Req_AgentSuspend _ | Req_AgentResume _ | Req_AgentTerminate _
  | Req_AgentComplete _ | Req_AgentFail _ _ | Req_AgentCheckpoint _ | Req_AgentUsage _
  | Req_AgentSetResources _ _ _ _ _ => true
  | _ => false
  end.

(** Up to the [match] that routes the request. *)
Definition dispatch_prologue (now_secs : Z) (env : OpEnv) (k : AgentKernel) (req : ApiRequest)
    (trusted_internal_origin : bool) : result SecurityError AgentKernel :=
  validate_security_for_origin now_secs (oe_now env) (ak_security k) req trusted_internal_origin ?>>
  Ok match fst (fst (extract_security_info req)) with
     | None => k
     | Some aid =>
         let k := if skip_auto_register req then k else ensure_agent_registered env k aid in
         with_scheduler (record_tool_call (oe_now env) (ak_scheduler k) aid) k
     end.

(** The [RegisterAgent] arm of [handle_agent]; the token is stored twice. *)
Definition handle_register_agent (nonce now_secs : Z) (env : OpEnv) (k : AgentKernel) (name : string)
    : result AgentOpError (string * string) * AgentKernel :=
  match register_agent env k name with
  | (Err e, k') => (Err e, k')
  | (Ok id, k') =>
      let '(token, keys) := generate_token (sk_keys (ak_security k')) nonce now_secs id in
      (Ok (id, at_token token),
       mkAgentKernel (ak_scheduler k')
         (mkSecurityKernel (store_token keys token) (sk_permissions (ak_security k')))
         (ak_bus k') (ak_disk k') (ak_graph k') (ak_agent_index k') (ak_usage_index k')
         (ak_intent_index k'))
  end.

(** An external [RegisterAgent] request, with an environment for each
    registration it may make. *)
Definition register_request (nonce now_secs : Z) (env1 env2 : OpEnv) (k : AgentKernel) (name : string)
    : result SecurityError (result AgentOpError (string * string)) * AgentKernel :=
  match dispatch_prologue now_secs env1 k (Req_RegisterAgent name) false with
  | Err e => (Err e, k)
  | Ok k1 => let '(r, k2) := handle_register_agent nonce now_secs env2 k1 name in (Ok r, k2)
  end.
End kernel.

(** * What the kernel's agent operations do

    Lifecycle changes are reported by the events they emit, and the agents a
    registration request leaves behind. *)

Local Open Scope Z_scope.

Section agents.
Context `{BinaryHeap IntentEntry entry_cmp_le} `{Broadcast} `{KnowledgeGraph} `{AuthPlatform}.
Variable event_to_string : SequencedEvent -> option string.
Variable agents_to_string : list Agent -> option string.
Variable usage_to_string : gmap string AgentUsage -> option string.
Variable intents_to_string : list Intent -> option string.

Notation emit_event := (emit_event event_to_string).
Notation persist_agents := (persist_agents agents_to_string usage_to_string).
Notation change_state := (change_state event_to_string agents_to_string usage_to_string).
Notation register_named := (register_named event_to_string agents_to_string usage_to_string).

(** ** What an operation leaves alone *)

Lemma emit_event_frame plan e k :
  ak_scheduler (emit_event plan e k) = ak_scheduler k /\
  ak_security (emit_event plan e k) = ak_security k.
Proof. unfold KernelAgents.emit_event. by destruct (emit _ _ _ _ _). Qed.

Lemma kg_add_node_frame env k label ty props a t :
  ak_scheduler (snd (kg_add_node env k label ty props a t)) = ak_scheduler k /\
  ak_security (snd (kg_add_node env k label ty props a t)) = ak_security k.
Proof.
  unfold kg_add_node. destruct (check _ _ _ _), (ak_graph k) as [kg|]; try done.
  by destruct (trait_add_node kg _).
Qed.

(** The last event of the log. *)
Definition last_event (k : AgentKernel) : option KernelEvent :=
  se_event <$> last (snapshot_events (ak_bus k)).

Lemma emit_last plan bus disk e :
  se_event <$> last (snapshot_events (fst (emit event_to_string plan bus disk e))) = Some e.
Proof.
  unfold emit, snapshot_events.
  destruct (should_rotate _ _ _); [unfold rotate_segment; repeat case_match; simplify_eq|];
    cbn; unfold ring_push; repeat case_match; cbn; by rewrite ?last_snoc.
Qed.

Lemma emit_event_last plan e k : last_event (emit_event plan e k) = Some e.
Proof.
  unfold last_event, KernelAgents.emit_event.
  pose proof (emit_last plan (ak_bus k) (ak_disk k) e) as L. by destruct (emit _ _ _ _ _).
Qed.

(** ** Lifecycle *)

Lemma change_state_spec env k id old st r k' :
  change_state env k id old st = (r, k') ->
  ak_security k' = ak_security k /\
  match agents (ak_scheduler k) !! id with
  | Some a =>
      if can_transition (a_state a) st
      then r = Ok tt /\ last_event k' = Some (AgentStateChanged id old (state_debug st)) /\
           agents (ak_scheduler k') = <[id := with_state a st]> (agents (ak_scheduler k))
      else r = Err (Agent_transition (mkTransitionError (a_state a) st)) /\ ak_bus k' = ak_bus k /\
           agents (ak_scheduler k') = agents (ak_scheduler k)
  | None =>
      r = Ok tt /\ last_event k' = Some (AgentStateChanged id old (state_debug st)) /\
      agents (ak_scheduler k') = agents (ak_scheduler k)
  end.
Proof.
  unfold KernelAgents.change_state, update_state, set_state.
  assert (E : forall k0, last_event (persist_agents (oe_agents_io env) (oe_usage_io env)
      (emit_event (oe_emit env) (AgentStateChanged id old (state_debug st)) k0)) =
      Some (AgentStateChanged id old (state_debug st))).
  { intros k0. unfold KernelAgents.persist_agents, KernelAgents.persist_usage.
    exact (emit_event_last (oe_emit env) _ k0). }
  destruct (agents (ak_scheduler k) !! id) as [a|] eqn:G; [destruct (can_transition (a_state a) st)|];
    cbn; intros [= <- <-].
  - destruct (emit_event_frame (oe_emit env) (AgentStateChanged id old (state_debug st))
      (with_scheduler (with_agents (ak_scheduler k) (<[id:=with_state a st]> (agents (ak_scheduler k)))) k))
      as [S C].
    cbn. split; [by rewrite C|]. split_and!; [done|apply E|by rewrite S].
  - cbn. split_and!; [done..|]. by apply insert_id.
  - destruct (emit_event_frame (oe_emit env) (AgentStateChanged id old (state_debug st))
      (with_scheduler (ak_scheduler k) k)) as [S C].
    cbn. split; [by rewrite C|]. split_and!; [done|apply E|by rewrite S].
Qed.

Inductive LifecycleOp : Type := L_terminate | L_complete | L_fail.

Definition lifecycle_target (op : LifecycleOp) : AgentState :=
  match op with L_terminate => Terminated | L_complete => Completed | L_fail => Failed end.

Definition lifecycle_op (op : LifecycleOp) (env : OpEnv) (k : AgentKernel) (name : string)
    : result AgentOpError unit * AgentKernel :=
  match op with
  | L_terminate => agent_terminate event_to_string agents_to_string usage_to_string env k name
  | L_complete => agent_complete event_to_string agents_to_string usage_to_string env k name
  | L_fail => agent_fail event_to_string agents_to_string usage_to_string env k name
  end.

(** Which agent the name addresses: only termination accepts a name. *)
Definition addressed (op : LifecycleOp) (k : AgentKernel) (name : string) : option string :=
  match op with
  | L_terminate => resolve (ak_scheduler k) name
  | _ => if has_agent (ak_scheduler k) name then Some name else None
  end.

Lemma lifecycle_op_change op env k name id a :
  addressed op k name = Some id -> agents (ak_scheduler k) !! id = Some a ->
  lifecycle_op op env k name = change_state env k id (state_debug (a_state a)) (lifecycle_target op).
Proof.
  intros A G. destruct op; cbn in A |- *.
  - unfold agent_terminate, state_or_created, get. rewrite A. by rewrite G.
  - unfold has_agent in A. destruct (bool_decide _); [|done]. injection A as ->.
    unfold agent_complete, get. by rewrite G.
  - unfold has_agent in A. destruct (bool_decide _); [|done]. injection A as ->.
    unfold agent_fail, get. by rewrite G.
Qed.

Lemma lifecycle_op_unknown op env k name :
  addressed op k name = None -> lifecycle_op op env k name = (Err (Agent_not_found name), k).
Proof.
  intros A. destruct op; cbn in A |- *; [unfold agent_terminate; by rewrite A|..];
    unfold has_agent in A; case_bool_decide as N; try done;
    [unfold agent_complete|unfold agent_fail]; unfold get;
    destruct (agents (ak_scheduler k) !! name) as [a|] eqn:G; try done; destruct N; by exists a.
Qed.

(** Terminating, completing and failing an agent do what they report.  The
    operation succeeds exactly when the name addresses an agent whose state
    may move to the one asked for; then that agent moves, no other changes, and
    the event log ends with the state it left and the state it entered.
    Otherwise the call fails, no agent changes and no event is emitted.
    (A name whose agent has been removed is the one case left out: it still
    resolves, to nothing.) *)
Lemma lifecycle_events_truthful op env (k : AgentKernel) (name : string) :
  (forall id, addressed op k name = Some id -> is_Some (agents (ak_scheduler k) !! id)) ->
  let '(r, k') := lifecycle_op op env k name in
  match r with
  | Ok _ => exists id a, addressed op k name = Some id /\
      agents (ak_scheduler k) !! id = Some a /\
      can_transition (a_state a) (lifecycle_target op) = true /\
      agents (ak_scheduler k') = <[id := with_state a (lifecycle_target op)]> (agents (ak_scheduler k)) /\
      last_event k' = Some (AgentStateChanged id (state_debug (a_state a))
                              (state_debug (lifecycle_target op)))
  | Err _ => agents (ak_scheduler k') = agents (ak_scheduler k) /\ ak_bus k' = ak_bus k /\
      forall id a, addressed op k name = Some id -> agents (ak_scheduler k) !! id = Some a ->
        can_transition (a_state a) (lifecycle_target op) = false
  end.
Proof.
  intros LV. destruct (addressed op k name) as [id|] eqn:A;
    [|rewrite (lifecycle_op_unknown op env k name A); by split_and!].
  destruct (LV id eq_refl) as [a G]. rewrite (lifecycle_op_change op env k name id a A G).
  destruct (change_state _ _ _ _ _) as [r k'] eqn:C. apply change_state_spec in C as [_ C].
  rewrite G in C. destruct (can_transition (a_state a) (lifecycle_target op)) eqn:T.
  - destruct C as (-> & E & S). by exists id, a.
  - destruct C as (-> & E & S). split_and!; [done..|]. intros ? ? [= <-] G'. by simplify_eq.
Qed.

(** Resuming reports that the agent was suspended even if it was not. *)
Lemma resume_misreports env k name id a :
  resolve (ak_scheduler k) name = Some id -> agents (ak_scheduler k) !! id = Some a ->
  a_state a = Created ->
  last_event (snd (agent_resume event_to_string agents_to_string usage_to_string env k name)) =
  Some (AgentStateChanged id "Suspended" "Waiting").
Proof.
  intros R G S. unfold agent_resume. rewrite R.
  destruct (change_state env k id "Suspended" Waiting) as [r k'] eqn:C.
  apply change_state_spec in C as [_ C]. rewrite G, S in C. cbn in C. by destruct C as (_ & ? & _).
Qed.

(** ** Registration *)

(** The scheduler with one more agent of that name. *)
Definition registered (env : OpEnv) (name : string) (s : AgentScheduler) : AgentScheduler :=
  snd (register s (agent_new (oe_new_id env) (oe_now env) name)).

Lemma register_named_spec env k name :
  fst (register_named env k name) = oe_new_id env /\
  ak_scheduler (snd (register_named env k name)) = registered env name (ak_scheduler k) /\
  ak_security (snd (register_named env k name)) = ak_security k.
Proof.
  unfold KernelAgents.register_named. cbn.
  set (k1 := with_scheduler _ k). set (k2 := kg_add_node _ _ _ _ _ _ _).
  destruct (emit_event_frame (oe_emit env) (AgentStateChanged (oe_new_id env) "None" "Waiting") (snd k2))
    as [-> ->].
  destruct (kg_add_node_frame env k1 (oe_new_id env) Node_Entity
    (JObject [("kind", JString "agent"); ("name", JString name)]) (oe_new_id env) "default") as [S C].
  fold k2 in S, C. rewrite S, C. done.
Qed.

Definition reserved_name (name : string) : bool := str_mem (to_lowercase name) RESERVED_AGENT_NAMES.

(** The agents after the request: the one the dispatcher registers when the
    name is unknown, then the one the handler registers. *)
Definition agents_after (env1 env2 : OpEnv) (name : string) (s : AgentScheduler) : gmap string Agent :=
  let after1 := if opt_is_some (resolve s name) then agents s
                else <[oe_new_id env1 := agent_new (oe_new_id env1) (oe_now env1) name]> (agents s) in
  if reserved_name name then after1
  else <[oe_new_id env2 := agent_new (oe_new_id env2) (oe_now env2) name]> after1.

Lemma ensure_registered_spec env k name :
  let k' := ensure_agent_registered event_to_string agents_to_string usage_to_string env k name in
  ak_security k' = ak_security k /\
  agents (ak_scheduler k') =
    if opt_is_some (resolve (ak_scheduler k) name) then agents (ak_scheduler k)
    else <[oe_new_id env := agent_new (oe_new_id env) (oe_now env) name]> (agents (ak_scheduler k)).
Proof.
  unfold ensure_agent_registered. destruct (opt_is_some _); [done|]. cbv zeta.
  destruct (register_named_spec env k name) as (_ & -> & ->). done.
Qed.

Lemma register_admitted secs env k name :
  is_trusted (pk_permissions (sk_permissions (ak_security k))) name = false ->
  validate_security_for_origin secs (oe_now env) (ak_security k) (Req_RegisterAgent name) false = Ok tt.
Proof.
  intros T. unfold validate_security_for_origin. cbn. rewrite T. cbn.
  unfold check. cbn. repeat (case_match; try done).
Qed.

(** What a request to register an agent leaves behind.  A name of the
    kernel's own is refused and nothing changes.  Otherwise the dispatcher has
    already registered an agent under a name it did not know before the handler
    registers one of its own: a new name ends up with two agents, of which the
    second is the one returned and the one with a token; and a reserved name
    that is not one of the kernel's own is refused by the handler while the
    agent the dispatcher registered under it stays. *)
Lemma register_request_effect nonce secs env1 env2 (k : AgentKernel) (name : string) :
  let '(r, k') := register_request event_to_string agents_to_string usage_to_string
                    nonce secs env1 env2 k name in
  if is_trusted (pk_permissions (sk_permissions (ak_security k))) name
  then r = Err (Reserved_agent name) /\ k' = k
  else agents (ak_scheduler k') = agents_after env1 env2 name (ak_scheduler k) /\
    sk_permissions (ak_security k') = sk_permissions (ak_security k) /\
    if reserved_name name
    then r = Ok (Err (Agent_reserved name)) /\ ak_security k' = ak_security k
    else exists token, r = Ok (Ok (oe_new_id env2, at_token token)) /\
      ks_tokens (sk_keys (ak_security k')) =
        <[oe_new_id env2 := token]> (ks_tokens (sk_keys (ak_security k))).
Proof.
  unfold register_request, dispatch_prologue.
  destruct (is_trusted _ name) eqn:T.
  { unfold validate_security_for_origin. cbn. rewrite T. done. }
  rewrite (register_admitted secs env1 k name T). cbn [extract_security_info fst skip_auto_register].
  set (k1 := ensure_agent_registered _ _ _ env1 k name).
  destruct (ensure_registered_spec env1 k name) as [C S]. fold k1 in C, S. cbv zeta.
  set (k2 := with_scheduler _ k1).
  assert (S2 : agents (ak_scheduler k2) = agents (ak_scheduler k1)) by done.
  assert (C2 : ak_security k2 = ak_security k) by exact C. clearbody k2. clear C.
  unfold handle_register_agent, register_agent. fold (reserved_name name). unfold agents_after.
  rewrite <- S, <- S2. destruct (reserved_name name); [by rewrite C2|].
  destruct (register_named_spec env2 k2 name) as (I & R & C3).
  destruct (register_named env2 k2 name) as [id k3]. cbn in I, R, C3. subst id. cbn.
  rewrite R, C3, C2. split_and!; [done..|].
  exists (create_token (sk_keys (ak_security k)) nonce secs (oe_new_id env2)).
  split; [reflexivity|]. cbn. by rewrite insert_insert_eq.
Qed.
End agents.

(** ** On a concrete kernel *)

Definition unit_graph : KnowledgeGraph := {| graph := unit; trait_add_node g _ := (true, g) |}.

Definition env_of (id : string) : OpEnv :=
  mkOpEnv id (id +:+ "-node") 1800000 (mkEmit 1 1 1 Rotate_Done Append_Done)
    (mkPermissionIo true true true) (mkPermissionIo true true true).

Definition alice_kernel : AgentKernel (H := list_heap) (H1 := unit_graph) :=
  mkAgentKernel (H := list_heap) (H1 := unit_graph) one_agent no_grants (with_rotation true 0 4 0)
    (mkDisk None ∅) None None None None.

Lemma lifecycle_events_truthful_witness :
  let r := lifecycle_op (H := list_heap) (H1 := unit_graph) toy_print (fun _ => None) (fun _ => None)
             L_terminate (env_of "x") alice_kernel "alice" in
  fst r = Ok tt /\
  last_event (H := list_heap) (H1 := unit_graph) (snd r) = Some (AgentStateChanged "id-1" "Created" "Terminated").
Proof.
  intros r. split; [reflexivity|].
  pose proof (lifecycle_events_truthful (H := list_heap) (H1 := unit_graph) toy_print (fun _ => None)
    (fun _ => None) L_terminate (env_of "x") alice_kernel "alice") as T.
  change (lifecycle_op toy_print (fun _ => None) (fun _ => None) L_terminate (env_of "x") alice_kernel "alice")
    with r in T.
  destruct T as (id & a & A & G & _ & _ & E).
  - intros id [= <-]. by eexists.
  - injection A as <-. injection G as <-. exact E.
Defined.

(** A new name: the dispatcher's agent and the handler's agent. *)
Lemma new_name_registered_twice :
  let k' := snd (register_request (H := list_heap) (H1 := unit_graph) toy_print (fun _ => None)
              (fun _ => None) 7 1800 (env_of "id-2") (env_of "id-3") alice_kernel "bob") in
  a_name <$> agents (ak_scheduler k') !! "id-2" = Some "bob" /\
  a_name <$> agents (ak_scheduler k') !! "id-3" = Some "bob".
Proof. by vm_compute. Qed.
