(* ===== verification/Tasks.v ===== *)
(** * Delegated tasks ([src/src/kernel/ops/task.rs])

    The task store: one agent delegates a task to another, which starts,
    completes or fails it; deadlines fail it; the store is written to
    [tasks.json].  The task arms of [src/src/kernel/handlers/messaging.rs] are
    the requests that reach it.  The clock, the outcomes of writes and the order
    in which a map is traversed are arguments. *)

From stdpp Require Import base gmap strings list.
From S2P Require Import Prelude EventBus EventBusProps Permission ApiRequest.

Local Open Scope Z_scope.

(** ** Data *)

Inductive TaskStatus : Type := Task_Pending | Task_InProgress | Task_Completed | Task_Failed.

#[export] Instance TaskStatus_eq_dec : EqDecision TaskStatus.
Proof. solve_decision. Defined.

Record Task := mkTask {
  t_task_id : string;
  t_from_agent : string;
  t_to_agent : string;
  t_intent : string;
  t_context_cids : list string;
  t_deadline_ms : option Z;
  t_status : TaskStatus;
  t_result_cids : list string;
  t_created_at_ms : Z;
  t_updated_at_ms : Z;
  t_failure_reason : option string;
}.

Definition task_new (now : Z) (task_id from_agent to_agent intent : string)
    (context_cids : list string) (deadline_ms : option Z) : Task :=
  mkTask task_id from_agent to_agent intent context_cids deadline_ms Task_Pending [] now now None.

Definition task_start (now : Z) (t : Task) : Task :=
  mkTask (t_task_id t) (t_from_agent t) (t_to_agent t) (t_intent t) (t_context_cids t)
    (t_deadline_ms t) Task_InProgress (t_result_cids t) (t_created_at_ms t) now (t_failure_reason t).

Definition task_complete (now : Z) (result_cids : list string) (t : Task) : Task :=
  mkTask (t_task_id t) (t_from_agent t) (t_to_agent t) (t_intent t) (t_context_cids t)
    (t_deadline_ms t) Task_Completed result_cids (t_created_at_ms t) now (t_failure_reason t).

Definition task_fail (now : Z) (reason : string) (t : Task) : Task :=
  mkTask (t_task_id t) (t_from_agent t) (t_to_agent t) (t_intent t) (t_context_cids t)
    (t_deadline_ms t) Task_Failed (t_result_cids t) (t_created_at_ms t) now (Some reason).

Definition task_is_expired (now : Z) (t : Task) : bool :=
  match t_deadline_ms t with Some deadline => deadline <? now | None => false end.

Inductive TaskError : Type :=
  | Task_not_found (task_id : string)
  | Task_assigned_to (task_id to_agent agent_id : string)
  | Task_not_pending (task_id : string) (status : TaskStatus)
  | Task_not_in_progress (task_id : string) (status : TaskStatus)
  | Task_already (task_id : string) (status : TaskStatus).

(** What a request answers about a task. *)
Record TaskResult := mkTaskResult {
  tr_task_id : string;
  tr_agent_id : string;
  tr_status : TaskStatus;
  tr_result_cids : list string;
  tr_failure_reason : option string;
  tr_created_at_ms : Z;
  tr_updated_at_ms : Z;
}.

Definition task_result (t : Task) : TaskResult :=
  mkTaskResult (t_task_id t) (t_to_agent t) (t_status t) (t_result_cids t) (t_failure_reason t)
    (t_created_at_ms t) (t_updated_at_ms t).

(** ** The store *)

Section store.
Context `{Broadcast}.
Variable event_to_string : SequencedEvent -> option string.
(** [serde_json] on the map of tasks. *)
Variable tasks_to_string : gmap string Task -> option string.
Variable tasks_from_str : string -> option (gmap string Task).

Record TaskStore := mkTaskStore {
  ts_tasks : gmap string Task;
  ts_bus : EventBus;
  ts_disk : EventDisk;
  ts_file : option string;
}.

Definition with_tasks (m : gmap string Task) (s : TaskStore) : TaskStore :=
  mkTaskStore m (ts_bus s) (ts_disk s) (ts_file s).

Definition task_emit (plan : EmitPlan) (event : KernelEvent) (s : TaskStore) : TaskStore :=
  let '(bus, disk) := emit event_to_string plan (ts_bus s) (ts_disk s) event in
  mkTaskStore (ts_tasks s) bus disk (ts_file s).

(** [TaskStore::restore]; [readable] is the outcome of reading the file. *)
Definition task_store_restore (readable : bool) (file : option string) (bus : EventBus)
    (disk : EventDisk) : TaskStore :=
  let tasks := match file with
               | Some json => if readable then default ∅ (tasks_from_str json) else ∅
               | None => ∅
               end in
  mkTaskStore tasks bus disk file.

Definition task_store_persist (io : PermissionIo) (s : TaskStore) : TaskStore :=
  mkTaskStore (ts_tasks s) (ts_bus s) (ts_disk s)
    (atomic_write_json io (ts_file s) (tasks_to_string (ts_tasks s))).

(** A task under the same identifier is replaced. *)
Definition create_task (plan : EmitPlan) (now : Z) (s : TaskStore)
    (task_id from_agent to_agent intent : string) (context_cids : list string)
    (deadline_ms : option Z) : Task * TaskStore :=
  let task := task_new now task_id from_agent to_agent intent context_cids deadline_ms in
  let s := task_emit plan (TaskDelegated task_id from_agent to_agent) s in
  (task, with_tasks (<[t_task_id task := task]> (ts_tasks s)) s).

Definition task_get (s : TaskStore) (task_id : string) : option Task := ts_tasks s !! task_id.

(** The task, if the agent is the one it is assigned to. *)
Definition assigned_task (s : TaskStore) (task_id agent_id : string) : result TaskError Task :=
  task <-? ok_or (ts_tasks s !! task_id) (Task_not_found task_id);
  reject negb (str_eqb (t_to_agent task) agent_id)
    with Task_assigned_to task_id (t_to_agent task) agent_id;
  Ok task.

Definition start_task (now : Z) (s : TaskStore) (task_id agent_id : string)
    : result TaskError Task * TaskStore :=
  match assigned_task s task_id agent_id with
  | Err e => (Err e, s)
  | Ok task =>
      if negb (bool_decide (t_status task = Task_Pending))
      then (Err (Task_not_pending task_id (t_status task)), s)
      else let task := task_start now task in
           (Ok task, with_tasks (<[task_id := task]> (ts_tasks s)) s)
  end.

Definition complete_task (plan : EmitPlan) (now : Z) (s : TaskStore) (task_id agent_id : string)
    (result_cids : list string) : result TaskError Task * TaskStore :=
  match assigned_task s task_id agent_id with
  | Err e => (Err e, s)
  | Ok task =>
      if negb (bool_decide (t_status task = Task_InProgress))
      then (Err (Task_not_in_progress task_id (t_status task)), s)
      else let task := task_complete now result_cids task in
           let s := with_tasks (<[task_id := task]> (ts_tasks s)) s in
           (Ok task, task_emit plan (TaskCompleted task_id agent_id result_cids) s)
  end.

Definition fail_task (now : Z) (s : TaskStore) (task_id agent_id reason : string)
    : result TaskError Task * TaskStore :=
  match assigned_task s task_id agent_id with
  | Err e => (Err e, s)
  | Ok task =>
      if bool_decide (t_status task = Task_Completed) || bool_decide (t_status task = Task_Failed)
      then (Err (Task_already task_id (t_status task)), s)
      else let task := task_fail now reason task in
           (Ok task, with_tasks (<[task_id := task]> (ts_tasks s)) s)
  end.

(** [clock id] are the times read at the check and at the change of task [id]. *)
Definition overdue (clock : string -> Z * Z) (id : string) (t : Task) : bool :=
  task_is_expired (fst (clock id)) t && bool_decide (t_status t = Task_Pending).

Definition check_deadlines (clock : string -> Z * Z) (s : TaskStore)
    : list (string * string) * TaskStore :=
  let late := List.filter (fun p => overdue clock (fst p) (snd p)) (map_to_list (ts_tasks s)) in
  ((fun p => (fst p, t_to_agent (snd p))) <$> late,
   with_tasks (map_imap (fun id t =>
     Some (if overdue clock id t then task_fail (snd (clock id)) "Deadline expired" t else t))
     (ts_tasks s)) s).

Definition tasks_for_agent (s : TaskStore) (agent_id : string) : list Task :=
  List.filter (fun t => str_eqb (t_to_agent t) agent_id) (map_to_list (ts_tasks s)).*2.
Definition tasks_by_agent (s : TaskStore) (agent_id : string) : list Task :=
  List.filter (fun t => str_eqb (t_from_agent t) agent_id) (map_to_list (ts_tasks s)).*2.
Definition task_count (s : TaskStore) : nat := size (ts_tasks s).

(** ** Requests *)

(** The answer of a task request, or [None] when it is none. *)
Definition handle_task_request (plan : EmitPlan) (now : Z) (s : TaskStore) (req : ApiRequest)
    : option (result TaskError TaskResult) * TaskStore :=
  match req with
  | Req_DelegateTask task_id from_agent to_agent intent context_cids deadline_ms =>
      let '(task, s') := create_task plan now s task_id from_agent to_agent intent context_cids deadline_ms in
      (Some (Ok (task_result task)), s')
  | Req_QueryTaskStatus task_id =>
      (Some match task_get s task_id with
            | Some task => Ok (task_result task)
            | None => Err (Task_not_found task_id)
            end, s)
  | Req_TaskStart task_id agent_id =>
      match start_task now s task_id agent_id with
      | (Ok task, s') => (Some (Ok (task_result task)), s')
      | (Err e, s') => (Some (Err e), s')
      end
  | Req_TaskComplete task_id agent_id result_cids =>
      match complete_task plan now s task_id agent_id result_cids with
      | (Ok task, s') => (Some (Ok (task_result task)), s')
      | (Err e, s') => (Some (Err e), s')
      end
  | Req_TaskFail task_id agent_id reason =>
      match fail_task now s task_id agent_id reason with
      | (Ok task, s') => (Some (Ok (task_result task)), s')
      | (Err e, s') => (Some (Err e), s')
      end
  | _ => (None, s)
  end.
End store.

(** * The life of a delegated task

    Whatever requests, deadline checks and writes reach the store, a task moves
    only forward until it is delegated anew. *)

Local Open Scope Z_scope.

(** One move of a task. *)
Inductive task_move : Task -> Task -> Prop :=
  | move_start now t : t_status t = Task_Pending -> task_move t (task_start now t)
  | move_complete now r t : t_status t = Task_InProgress -> task_move t (task_complete now r t)
  | move_fail now reason t :
      t_status t = Task_Pending \/ t_status t = Task_InProgress -> task_move t (task_fail now reason t).

Definition task_over (t : Task) : Prop := t_status t = Task_Completed \/ t_status t = Task_Failed.

(** A failure has a reason and nothing else has one; only a completion has results. *)
Definition task_wf (t : Task) : Prop :=
  (is_Some (t_failure_reason t) <-> t_status t = Task_Failed) /\
  (t_result_cids t <> [] -> t_status t = Task_Completed).

(** What a task is about, which no move changes. *)
Definition assignment (t : Task) :=
  (t_task_id t, t_from_agent t, t_to_agent t, t_intent t, t_context_cids t, t_deadline_ms t,
   t_created_at_ms t).

Lemma move_assignment t t' : task_move t t' -> assignment t' = assignment t.
Proof. by destruct 1. Qed.

Lemma move_wf t t' : task_move t t' -> task_wf t -> task_wf t'.
Proof.
  destruct 1 as [now t S|now r t S|now reason t S]; intros [F R]; split; cbn; try done.
  - rewrite F, S. done.
  - intros N. specialize (R N). congruence.
  - rewrite F, S. done.
  - intros N. specialize (R N). destruct S; congruence.
Qed.

Lemma over_stays t t' : task_over t -> ~ task_move t t'.
Proof. intros O M. destruct M as [now t S|now r t S|now reason t S]; destruct O; naive_solver congruence. Qed.

Section tasks.
Context `{Broadcast}.
Variable event_to_string : SequencedEvent -> option string.
Variable tasks_to_string : gmap string Task -> option string.

Inductive TaskOp : Type :=
  | Op_request (plan : EmitPlan) (now : Z) (req : ApiRequest)
  | Op_deadlines (clock : string -> Z * Z)
  | Op_persist (io : PermissionIo).

Definition task_step (s : TaskStore) (op : TaskOp) : TaskStore :=
  match op with
  | Op_request plan now req => snd (handle_task_request event_to_string plan now s req)
  | Op_deadlines clock => snd (check_deadlines clock s)
  | Op_persist io => task_store_persist tasks_to_string io s
  end.

(** The operation delegates a task under [id]. *)
Definition delegates (id : string) (op : TaskOp) : Prop :=
  match op with
  | Op_request _ _ (Req_DelegateTask task_id _ _ _ _ _) => task_id = id
  | _ => False
  end.

(** The operation is a request of the agent to complete [id] that was granted. *)
Definition completes (id agent : string) (s : TaskStore) (op : TaskOp) : bool :=
  match op with
  | Op_request plan now (Req_TaskComplete task_id agent_id _ as req) =>
      str_eqb task_id id && str_eqb agent_id agent &&
      match fst (handle_task_request event_to_string plan now s req) with
      | Some (Ok _) => true
      | _ => false
      end
  | _ => false
  end.

Fixpoint completions (id agent : string) (s : TaskStore) (ops : list TaskOp) : nat :=
  match ops with
  | [] => 0
  | op :: ops => (if completes id agent s op then 1 else 0) + completions id agent (task_step s op) ops
  end.

Lemma task_emit_tasks plan e s : ts_tasks (task_emit event_to_string plan e s) = ts_tasks s.
Proof. unfold task_emit. by destruct (emit _ _ _ _ _). Qed.

Lemma assigned_ok s task_id agent t :
  assigned_task s task_id agent = Ok t -> ts_tasks s !! task_id = Some t /\ t_to_agent t = agent.
Proof.
  unfold assigned_task. destruct (ts_tasks s !! task_id) as [t0|]; [|done]. cbn.
  destruct (str_eqb (t_to_agent t0) agent) eqn:E; [|done]. intros [= <-].
  split; [done|]. by apply bool_decide_eq_true in E.
Qed.

(** What an operation may do to the tasks: nothing, or one move of one task. *)
Definition one_move (s s' : TaskStore) (task_id : string) (t t' : Task) : Prop :=
  ts_tasks s !! task_id = Some t /\ task_move t t' /\ ts_tasks s' = <[task_id := t']> (ts_tasks s).

Lemma start_task_spec now s task_id agent r s' :
  start_task now s task_id agent = (r, s') ->
  match r with
  | Ok t' => exists t, one_move s s' task_id t t' /\ t_status t' = Task_InProgress
  | Err _ => s' = s
  end.
Proof.
  unfold start_task. destruct (assigned_task s task_id agent) as [t|e] eqn:A; [|by intros [= <- <-]].
  apply assigned_ok in A as [G _]. case_bool_decide as S; cbn; intros [= <- <-]; [|done].
  exists t. by split; [split_and!; [|by constructor|]|].
Qed.

Lemma complete_task_spec plan now s task_id agent results r s' :
  complete_task event_to_string plan now s task_id agent results = (r, s') ->
  match r with
  | Ok t' => exists t, one_move s s' task_id t t' /\ t_status t' = Task_Completed /\
                       t_status t = Task_InProgress /\ t_to_agent t = agent
  | Err _ => s' = s
  end.
Proof.
  unfold complete_task. destruct (assigned_task s task_id agent) as [t|e] eqn:A; [|by intros [= <- <-]].
  apply assigned_ok in A as [G TA]. case_bool_decide as S; cbn; intros [= <- <-]; [|done].
  exists t. split; [|done]. split_and!; [done|by constructor|by rewrite task_emit_tasks].
Qed.

Lemma fail_task_spec now s task_id agent reason r s' :
  fail_task now s task_id agent reason = (r, s') ->
  match r with
  | Ok t' => exists t, one_move s s' task_id t t' /\ t_status t' = Task_Failed
  | Err _ => s' = s
  end.
Proof.
  unfold fail_task. destruct (assigned_task s task_id agent) as [t|e] eqn:A; [|by intros [= <- <-]].
  apply assigned_ok in A as [G _]. repeat case_bool_decide; cbn; intros [= <- <-]; try done.
  exists t. split; [|done]. split_and!; [done| |done]. constructor. destruct (t_status t); auto; done.
Qed.

Lemma check_deadlines_lookup clock s id :
  ts_tasks (snd (check_deadlines clock s)) !! id =
  (fun t => if overdue clock id t then task_fail (snd (clock id)) "Deadline expired" t else t)
    <$> ts_tasks s !! id.
Proof. unfold check_deadlines. cbn. rewrite map_lookup_imap. by destruct (ts_tasks s !! id). Qed.

(** ** One step *)

(** What happened to task [id], and whether its completion was granted. *)
Definition step_outcome (id : string) (s : TaskStore) (op : TaskOp) (t t' : Task) : Prop :=
  (t' = t /\ completes id (t_to_agent t) s op = false) \/
  (task_move t t' /\ completes id (t_to_agent t) s op = bool_decide (t_status t' = Task_Completed)).

Lemma moved_outcome id s op s' task_id t0 t0' t :
  one_move s s' task_id t0 t0' -> ts_tasks s !! id = Some t ->
  (task_id = id -> completes id (t_to_agent t) s op = bool_decide (t_status t0' = Task_Completed)) ->
  (task_id <> id -> completes id (t_to_agent t) s op = false) ->
  exists t', ts_tasks s' !! id = Some t' /\ step_outcome id s op t t'.
Proof.
  intros (G & M & S) T C N. rewrite S. destruct (decide (task_id = id)) as [-> |D].
  - rewrite T in G. injection G as ->. exists t0'. split; [apply lookup_insert_eq|].
    right. split; [done|by apply C].
  - exists t. split; [by rewrite lookup_insert_ne|]. left. split; [done|by apply N].
Qed.

Lemma unmoved_outcome id s op t :
  ts_tasks s !! id = Some t -> completes id (t_to_agent t) s op = false ->
  exists t', ts_tasks s !! id = Some t' /\ step_outcome id s op t t'.
Proof. intros T C. exists t. split; [done|by left]. Qed.

Lemma complete_outcome id s plan now task_id agent_id results t :
  ts_tasks s !! id = Some t ->
  let op := Op_request plan now (Req_TaskComplete task_id agent_id results) in
  exists t', ts_tasks (task_step s op) !! id = Some t' /\ step_outcome id s op t t'.
Proof.
  intros T op.
  assert (C : completes id (t_to_agent t) s op =
    str_eqb task_id id && str_eqb agent_id (t_to_agent t) &&
    match fst (complete_task event_to_string plan now s task_id agent_id results) with
    | Ok _ => true | Err _ => false end).
  { unfold op, completes. cbn. by destruct (complete_task _ _ _ _ _ _ _) as [[]]. }
  assert (S : task_step s op = snd (complete_task event_to_string plan now s task_id agent_id results)).
  { unfold op. cbn. by destruct (complete_task _ _ _ _ _ _ _) as [[]]. }
  rewrite S. destruct (complete_task _ _ _ _ _ _ _) as [[t0'|e] s'] eqn:E;
    apply complete_task_spec in E; cbn [fst snd] in *.
  - destruct E as (t0 & M & D & _ & A). apply (moved_outcome id s op s' task_id t0 t0' t M T).
    + intros ->. destruct M as (G & _). rewrite T in G. injection G as <-. rewrite C, <- A, D.
      by unfold str_eqb; rewrite !bool_decide_eq_true_2 by done.
    + intros N. rewrite C. unfold str_eqb. by rewrite (bool_decide_eq_false_2 _ N).
  - rewrite E. apply unmoved_outcome; [done|]. by rewrite C, andb_false_r.
Qed.

Lemma task_step_outcome id s op t :
  ~ delegates id op -> ts_tasks s !! id = Some t ->
  exists t', ts_tasks (task_step s op) !! id = Some t' /\ step_outcome id s op t t'.
Proof.
  intros ND T. destruct op as [plan now req|clock|io].
  - destruct req; try (by apply unmoved_outcome); cbn [task_step handle_task_request] in *.
    + cbn in ND. exists t. split; [|by left].
      unfold create_task. cbn. rewrite lookup_insert_ne by done. by rewrite task_emit_tasks.
    + destruct (start_task now s task_id agent_id) as [[t0'|e] s'] eqn:E;
        apply start_task_spec in E; cbn [snd] in *.
      * destruct E as (t0 & M & S). apply (moved_outcome id s _ s' task_id t0 t0' t M T); [|done].
        intros _. by rewrite S.
      * rewrite E. by apply unmoved_outcome.
    + apply complete_outcome. exact T.
    + destruct (fail_task now s task_id agent_id reason) as [[t0'|e] s'] eqn:E;
        apply fail_task_spec in E; cbn [snd] in *.
      * destruct E as (t0 & M & S). apply (moved_outcome id s _ s' task_id t0 t0' t M T); [|done].
        intros _. by rewrite S.
      * rewrite E. by apply unmoved_outcome.
  - cbn [task_step]. rewrite check_deadlines_lookup, T. cbn. eexists. split; [reflexivity|].
    destruct (overdue clock id t) eqn:O; [right|by left]. split; [|done].
    constructor. left. unfold overdue in O. apply andb_true_iff in O as [_ O].
    by apply bool_decide_eq_true in O.
  - exists t. split; [exact T|by left].
Qed.

(** ** A history *)

(** C25: A delegated task moves only forward.  As long as no task is delegated
    under its identifier again, whatever requests, deadline checks and writes
    reach the store: the task stays, with its parties, intent, context and
    deadline; it has a failure reason exactly when it has failed and results
    only when completed; once completed or failed it never changes; and its
    completion is granted exactly once on the way to the completed state and
    never otherwise, to the agent it is assigned to. *)
Theorem task_lifecycle id (s : TaskStore) (ops : list TaskOp) t :
  Forall (fun op => ~ delegates id op) ops -> ts_tasks s !! id = Some t -> task_wf t ->
  exists t', ts_tasks (foldl task_step s ops) !! id = Some t' /\
    assignment t' = assignment t /\ task_wf t' /\ (task_over t -> t' = t) /\
    completions id (t_to_agent t) s ops =
      if decide (t_status t <> Task_Completed /\ t_status t' = Task_Completed) then 1%nat else 0%nat.
Proof.
  intros ND. revert s t. induction ND as [|op ops N _ IH]; intros s t T W.
  { exists t. split_and!; try done. rewrite decide_False; [done|]. by intros [? ?]. }
  destruct (task_step_outcome id s op t N T) as (t1 & T1 & O). cbn [foldl completions].
  destruct O as [[-> C]|[M C]].
  { destruct (IH _ _ T1 W) as (t' & T' & A & W' & S & K). exists t'. split_and!; try done.
    by rewrite C, K. }
  destruct (IH _ _ T1 (move_wf _ _ M W)) as (t' & T' & A & W' & S & K).
  pose proof (move_assignment _ _ M) as A1. exists t'.
  split_and!; [done|congruence|done|intros O; by apply (over_stays t t1) in O|].
  assert (TA : t_to_agent t1 = t_to_agent t) by (unfold assignment in A1; congruence).
  rewrite TA in K. rewrite C, K. case_bool_decide as D.
  - rewrite decide_False by naive_solver. rewrite decide_True; [done|].
    rewrite (S (or_introl D)). split; [|done]. destruct M; naive_solver congruence.
  - assert (NC : t_status t <> Task_Completed) by (destruct M; naive_solver congruence).
    by repeat case_decide; naive_solver.
Qed.

(** Delegating under an identifier in use replaces that task, whoever delegates. *)
Lemma redelegation_replaces plan now s id from to intent cids deadline :
  task_get (snd (create_task event_to_string plan now s id from to intent cids deadline)) id =
  Some (task_new now id from to intent cids deadline).
Proof. unfold create_task, task_get. cbn. by rewrite lookup_insert_eq. Qed.
End tasks.

(** ** On a concrete store *)

Definition a_task : Task := task_new 5 "t1" "alice" "bob" "review" [] None.
Definition one_task : TaskStore :=
  mkTaskStore {[ "t1" := a_task ]} (with_rotation true 0 4 0) (mkDisk None ∅) None.
Definition quiet_emit : EmitPlan := mkEmit 1 1 1 Rotate_Done Append_Done.

Lemma task_lifecycle_witness :
  let ops := [Op_request quiet_emit 6 (Req_TaskStart "t1" "bob");
              Op_request quiet_emit 7 (Req_TaskComplete "t1" "mallory" ["x"]);
              Op_request quiet_emit 8 (Req_TaskComplete "t1" "bob" ["c"]);
              Op_request quiet_emit 9 (Req_TaskFail "t1" "bob" "late")] in
  exists t', ts_tasks (foldl (task_step toy_print (fun _ => None)) one_task ops) !! "t1" = Some t' /\
    t_status t' = Task_Completed /\
    completions toy_print (fun _ => None) "t1" "bob" one_task ops = 1%nat.
Proof.
  intros ops. destruct (task_lifecycle toy_print (fun _ => None) "t1" one_task ops a_task)
    as (t' & T & _ & _ & _ & K).
  - unfold ops. repeat (apply Forall_cons_2; [intros []|]). apply Forall_nil_2.
  - reflexivity.
  - split; [split; [by intros []|done]|done].
  - exists t'. split; [exact T|]. vm_compute in T. injection T as <-. split; [reflexivity|exact K].
Defined.
