(* ===== verification/CostLedger.v ===== *)
(** * The token cost ledger ([src/src/kernel/ops/cost_ledger.rs])

    Every model call is recorded with its tokens; sessions are summed, agents
    compared over their sessions, and the sums written to a file.  The clock, the
    JSON codec and the order in which a map yields its values are parameters. *)

From stdpp Require Import base gmap strings pretty list sorting.
From S2P Require Import Prelude Permission.

Local Open Scope Z_scope.

(** ** Data *)

Inductive CostOperation : Type := Cost_LlmCall | Cost_EmbeddingCall | Cost_Search | Cost_ToolCall.

Record CostEntry := mkCost {
  ce_timestamp_ms : Z;
  ce_session_id : string;
  ce_agent_id : string;
  ce_operation : CostOperation;
  ce_input_tokens : Z;
  ce_output_tokens : Z;
  ce_model_id : string;
  ce_duration_ms : Z;
}.

Record SessionCostSummary := mkSummary {
  cs_session_id : string;
  cs_agent_id : string;
  cs_total_input_tokens : Z;
  cs_total_output_tokens : Z;
  cs_total_cost_millicents : Z;
  cs_operations_count : Z;
  cs_cache_hits : Z;
  cs_cache_misses : Z;
  cs_timestamp_ms : Z;
}.

Record CostAnomaly := mkAnomaly {
  an_agent_id : string;
  an_severity : string;
  an_message : string;
  an_before : Z;
  an_after : Z;
}.

Definition MAX_COST_ENTRIES : nat := N.to_nat 50000.
#[global] Arguments MAX_COST_ENTRIES : simpl never.

Record TokenCostLedger := mkLedger {
  cl_entries : list CostEntry;
  cl_session_totals : gmap string SessionCostSummary;
}.

Definition cost_ledger_new : TokenCostLedger := mkLedger [] ∅.

(** ** Recording *)

(** The products of 32-bit counts stay below 64 bits. *)
Definition input_cost (e : CostEntry) : Z := ce_input_tokens e * 10000 / 1000000.
Definition output_cost (e : CostEntry) : Z := ce_output_tokens e * 30000 / 1000000.

Definition empty_summary (e : CostEntry) : SessionCostSummary :=
  mkSummary (ce_session_id e) (ce_agent_id e) 0 0 0 0 0 0 (ce_timestamp_ms e).

Definition add_cost (s : SessionCostSummary) (e : CostEntry) : SessionCostSummary :=
  mkSummary (cs_session_id s) (cs_agent_id s)
    (u64_add (cs_total_input_tokens s) (ce_input_tokens e))
    (u64_add (cs_total_output_tokens s) (ce_output_tokens e))
    (u64_add (cs_total_cost_millicents s) (input_cost e + output_cost e))
    (u32_add (cs_operations_count s) 1)
    (cs_cache_hits s) (cs_cache_misses s) (cs_timestamp_ms s).

Definition update_session_summary (l : TokenCostLedger) (e : CostEntry) : TokenCostLedger :=
  let summary := default (empty_summary e) (cl_session_totals l !! ce_session_id e) in
  mkLedger (cl_entries l) (<[ce_session_id e := add_cost summary e]> (cl_session_totals l)).

Definition record_cost (l : TokenCostLedger) (e : CostEntry) : TokenCostLedger :=
  let entries := if Nat.leb MAX_COST_ENTRIES (length (cl_entries l)) then tail (cl_entries l)
                 else cl_entries l in
  update_session_summary (mkLedger (entries ++ [e]) (cl_session_totals l)) e.

Definition record_embedding_with_tokens (now : Z) (l : TokenCostLedger) (tokens : Z)
    (model_id session_id agent_id : string) : TokenCostLedger :=
  record_cost l (mkCost now session_id agent_id Cost_EmbeddingCall tokens 0 model_id 0).

(** [(text.len() / 4).max(1) as u32] *)
Definition record_embedding (now : Z) (l : TokenCostLedger) (text model_id session_id agent_id : string)
    : TokenCostLedger :=
  let estimated := Z.max (Z.of_nat (String.length text) / 4) 1 mod u32_modulus in
  record_embedding_with_tokens now l estimated model_id session_id agent_id.

Definition record_llm (now : Z) (l : TokenCostLedger) (input_tokens output_tokens : Z)
    (model_id session_id agent_id : string) : TokenCostLedger :=
  record_cost l (mkCost now session_id agent_id Cost_LlmCall input_tokens output_tokens model_id 0).

(** ** Queries *)

Definition session_summary (l : TokenCostLedger) (session_id : string) : option SessionCostSummary :=
  cl_session_totals l !! session_id.

Definition entry_count (l : TokenCostLedger) : nat := length (cl_entries l).

(** [sort_by_key(|s| Reverse(s.timestamp_ms))] *)
Definition newer (a b : SessionCostSummary) : Prop := cs_timestamp_ms b <= cs_timestamp_ms a.
#[export] Instance newer_dec a b : Decision (newer a b).
Proof. unfold newer. apply _. Defined.
#[export] Instance newer_total : Total newer.
Proof. intros a b. unfold newer. lia. Qed.
#[export] Instance newer_trans : Transitive newer.
Proof. intros a b c. unfold newer. lia. Qed.

Section queries.
(** The order in which [values()] yields the summaries. *)
Variable summaries_order : gmap string SessionCostSummary -> list SessionCostSummary.

Definition agent_trend (l : TokenCostLedger) (agent_id : string) (last_n_sessions : nat)
    : list SessionCostSummary :=
  take last_n_sessions (merge_sort newer
    (List.filter (fun s => str_eqb (cs_agent_id s) agent_id) (summaries_order (cl_session_totals l)))).

(** [iter().map(..).sum::<u64>()] wraps. *)
Definition cost_sum (l : list SessionCostSummary) : Z :=
  foldl (fun n s => u64_add n (cs_total_cost_millicents s)) 0 l.
Definition cost_average (l : list SessionCostSummary) : Z := cost_sum l / Z.of_nat (length l).

Definition anomaly_of (agent_id : string) (avg_before avg_after : Z) : option CostAnomaly :=
  if (0 <? avg_before) && (u64_mul avg_before 15 / 10 <? avg_after) then
    Some (mkAnomaly agent_id
      (if u64_mul avg_before 2 <? avg_after then "critical" else "warning")
      ("Cost increased from " +:+ pretty avg_before +:+ " to " +:+ pretty avg_after +:+ " millicents avg")
      avg_before avg_after)
  else None.

Definition cost_anomaly_check (l : TokenCostLedger) (agent_id : string) : option CostAnomaly :=
  let summaries := agent_trend l agent_id 10 in
  if Nat.ltb (length summaries) 3 then None else
  let mid := Nat.div (length summaries) 2 in
  anomaly_of agent_id (cost_average (drop mid summaries)) (cost_average (take mid summaries)).
End queries.

(** ** The file *)

Section file.
Variable totals_to_string : gmap string SessionCostSummary -> option string.
Variable totals_from_str : string -> option (gmap string SessionCostSummary).

(** [atomic_write_bytes]: the file is replaced or as it was. *)
Definition atomic_write_bytes (io : PermissionIo) (file : option string) (data : string)
    : bool * option string :=
  if io_write io && io_rename io then (true, Some data) else (false, file).

Definition cost_persist (io : PermissionIo) (l : TokenCostLedger) (file : option string)
    : bool * option string :=
  match totals_to_string (cl_session_totals l) with
  | None => (false, file)
  | Some json => atomic_write_bytes io file json
  end.

(** [None] is an error; a missing file restores nothing. *)
Definition cost_restore (readable : bool) (file : option string) (l : TokenCostLedger)
    : option nat * TokenCostLedger :=
  match file with
  | None => (Some 0%nat, l)
  | Some json =>
      match (if readable then totals_from_str json else None) with
      | None => (None, l)
      | Some loaded =>
          let totals := loaded ∪ cl_session_totals l in
          (Some (size totals), mkLedger (cl_entries l) totals)
      end
  end.
End file.

(** ** What the sums are *)

Definition of_session (id : string) (es : list CostEntry) : list CostEntry :=
  List.filter (fun e => str_eqb (ce_session_id e) id) es.

Definition total (f : CostEntry -> Z) (es : list CostEntry) : Z := foldr (fun e n => f e + n) 0 es.

Lemma total_snoc f es e : total f (es ++ [e]) = total f es + f e.
Proof. induction es as [|x es IH]; cbn; [lia|]. unfold total in IH. rewrite IH. lia. Qed.

(** The summary of the entries of one session. *)
Definition summary_of (es : list CostEntry) : option SessionCostSummary :=
  match es with
  | [] => None
  | first :: _ =>
      Some (mkSummary (ce_session_id first) (ce_agent_id first)
        (total ce_input_tokens es mod u64_modulus) (total ce_output_tokens es mod u64_modulus)
        (total (fun e => input_cost e + output_cost e) es mod u64_modulus)
        (Z.of_nat (length es) mod u32_modulus) 0 0 (ce_timestamp_ms first))
  end.

Lemma wrap_add m a b : 0 < m -> (a mod m + b) mod m = (a + b) mod m.
Proof. intros M. apply Zplus_mod_idemp_l. Qed.

Lemma summary_of_snoc es e :
  summary_of (es ++ [e]) = Some (add_cost (default (empty_summary e) (summary_of es)) e).
Proof.
  destruct es as [|first es].
  - cbn. unfold add_cost, u64_add, u32_add. cbn. by rewrite ?Z.add_0_r.
  - change (summary_of ((first :: es) ++ [e])) with
      (Some (mkSummary (ce_session_id first) (ce_agent_id first)
        (total ce_input_tokens ((first :: es) ++ [e]) mod u64_modulus)
        (total ce_output_tokens ((first :: es) ++ [e]) mod u64_modulus)
        (total (fun e => input_cost e + output_cost e) ((first :: es) ++ [e]) mod u64_modulus)
        (Z.of_nat (length ((first :: es) ++ [e])) mod u32_modulus) 0 0 (ce_timestamp_ms first))).
    rewrite !total_snoc, length_app. cbn [length]. rewrite Nat2Z.inj_add.
    unfold summary_of, default, from_option, id, add_cost, u64_add, u32_add. cbn [cs_session_id
      cs_agent_id cs_total_input_tokens cs_total_output_tokens cs_total_cost_millicents
      cs_operations_count cs_cache_hits cs_cache_misses cs_timestamp_ms].
    by rewrite !wrap_add by done.
Qed.

Lemma of_session_snoc id es e :
  of_session id (es ++ [e]) = of_session id es ++ (if str_eqb (ce_session_id e) id then [e] else []).
Proof. unfold of_session. rewrite List.filter_app. cbn. by destruct (str_eqb _ _). Qed.

(** The sums of the cost ledger are exact.  After any sequence of recorded
    calls every session has a summary exactly when a call was recorded for it;
    its sums are those of all its calls, modulo the width of the counters, also
    of calls the ledger no longer holds; agent and time are those of its first
    call; and the ledger holds the last fifty thousand calls, in order. *)
Lemma cost_sums_exact (es : list CostEntry) :
  let l := foldl record_cost cost_ledger_new es in
  cl_entries l = last_n MAX_COST_ENTRIES es /\
  forall id, session_summary l id = summary_of (of_session id es).
Proof.
  induction es as [|e es IH] using rev_ind; [done|]. cbv zeta in *. rewrite foldl_snoc.
  destruct IH as [IE IS]. set (l := foldl record_cost cost_ledger_new es) in *. split.
  - unfold record_cost, update_session_summary. cbn [cl_entries]. rewrite IE.
    replace (MAX_COST_ENTRIES) with (S (Nat.pred MAX_COST_ENTRIES)) by reflexivity.
    set (n := Nat.pred MAX_COST_ENTRIES). rewrite <- last_n_snoc.
    set (k := last_n (S n) es). assert (L : (length k <= S n)%nat).
    { unfold k. rewrite last_n_length. lia. }
    unfold last_n at 1. rewrite length_app. cbn [length].
    destruct (Nat.leb_spec (S n) (length k)) as [F|F].
    + replace (length k + 1 - S n)%nat with 1%nat by lia.
      destruct k; [cbn in F; lia|done].
    + by replace (length k + 1 - S n)%nat with 0%nat by lia.
  - intros id. rewrite of_session_snoc. unfold session_summary, record_cost, update_session_summary.
    cbn [cl_session_totals]. unfold str_eqb. case_bool_decide as D.
    + subst id. rewrite lookup_insert_eq, summary_of_snoc. by rewrite <- IS.
    + rewrite lookup_insert_ne by done. rewrite app_nil_r. apply IS.
Qed.

(** ** Anomalies *)

Definition no_overflow (a : Z) : Prop := 0 <= a /\ a * 15 < u64_modulus.

(** The rounding of the comparison is exact: an anomaly is an average of more
    than one and a half times the one before, critical above twice. *)
Lemma anomaly_exact agent before after :
  no_overflow before ->
  is_Some (anomaly_of agent before after) <-> 0 < before /\ 15 * before < 10 * after.
Proof.
  intros [P O]. unfold anomaly_of, u64_mul. rewrite Z.mod_small by lia.
  destruct (Z.ltb_spec 0 before); cbn; [|split; [by intros []|lia]].
  destruct (Z.ltb_spec (before * 15 / 10) after) as [L|L].
  - split; [intros _; split; [done|]|by eexists].
    pose proof (Z.mod_pos_bound (before * 15) 10). pose proof (Z.div_mod (before * 15) 10). lia.
  - split; [by intros []|]. pose proof (Z.mod_pos_bound (before * 15) 10).
    pose proof (Z.div_mod (before * 15) 10). lia.
Qed.

(** A call with few tokens costs nothing, and so does any number of them. *)
Lemma small_calls_are_free es :
  Forall (fun e => 0 <= ce_input_tokens e < 100 /\ 0 <= ce_output_tokens e < 34) es ->
  total (fun e => input_cost e + output_cost e) es = 0.
Proof.
  induction 1 as [|e es [I O] _ IH]; [done|]. cbn. unfold total in IH. rewrite IH.
  unfold input_cost, output_cost. rewrite !Z.div_small by lia. done.
Qed.

(** What a restart restores. *)
Lemma cost_restart totals_to_string totals_from_str io l file file' :
  (forall m json, totals_to_string m = Some json -> totals_from_str json = Some m) ->
  cost_persist totals_to_string io l file = (true, file') ->
  snd (cost_restore totals_from_str true file' cost_ledger_new) =
  mkLedger [] (cl_session_totals l).
Proof.
  intros C. unfold cost_persist. destruct (totals_to_string _) as [json|] eqn:J; [|done].
  unfold atomic_write_bytes. destruct (_ && _); [|done]. intros [= <-]. unfold cost_restore.
  rewrite (C _ _ J). cbn. by rewrite (right_id_L ∅ (∪)).
Qed.
