(* ===== verification/Delta.v ===== *)
(** * Changes since a sequence number ([src/src/kernel/ops/delta.rs])

    A change is described from the event alone; a query filters the events of
    the bus above a number and cuts them to a limit.  [None] is the panic of a
    byte slice off a character boundary. *)

From stdpp Require Import base gmap strings pretty list sorting.
From S2P Require Import Prelude Text EventBus EventBusProps.

Record ChangeEntry := mkChange {
  ch_cid : string;
  ch_change_type : string;
  ch_summary : string;
  ch_changed_at_ms : Z;
  ch_changed_by : string;
  ch_seq : Z;
}.

Record DeltaResult := mkDelta {
  dr_changes : list ChangeEntry;
  dr_from_seq : Z;
  dr_to_seq : Z;
  dr_token_estimate : Z;
}.

(** [estimate_tokens] of [src/src/api/semantic.rs]: characters by their first octets. *)
Definition ascii_chars (s : string) : Z :=
  Z.of_nat (length (List.filter (fun c => byte_of c <? 128)%N (String.list_ascii_of_string s))).
Definition other_chars (s : string) : Z :=
  Z.of_nat (length (List.filter (fun c => 192 <=? byte_of c)%N (String.list_ascii_of_string s))).
Definition api_estimate_tokens (s : string) : Z := (ascii_chars s + 3) / 4 + (other_chars s + 1) / 2.

(** The object named by an event, the kind of change, its tags and who made it. *)
Definition change_parts (e : KernelEvent) : string * string * list string * string :=
  match e with
  | ObjectStored cid agent_id tags => (cid, "stored", tags, agent_id)
  | MemoryStored agent_id tier => ("memory:" +:+ tier, "memory_stored", [], agent_id)
  | AgentStateChanged agent_id old_state new_state =>
      ("agent:" +:+ agent_id, "state_changed:" +:+ old_state +:+ "->" +:+ new_state, [], agent_id)
  | IntentSubmitted intent_id agent_id _ =>
      ("intent:" +:+ intent_id, "intent_submitted", [], default "" agent_id)
  | IntentCompleted intent_id success =>
      ("intent:" +:+ intent_id, if success then "intent_completed" else "intent_failed", [], "system")
  | EventCreated event_id _ agent_id => ("event:" +:+ event_id, "event_created", [], agent_id)
  | KnowledgeShared cid agent_id scope tags _ => (cid, "knowledge_shared:" +:+ scope, tags, agent_id)
  | KnowledgeSuperseded old_cid new_cid agent_id => (new_cid, "knowledge_superseded:" +:+ old_cid, [], agent_id)
  | TaskDelegated task_id from_agent to_agent =>
      ("task:" +:+ task_id, "task_delegated:" +:+ from_agent +:+ "->" +:+ to_agent, [], from_agent)
  | TaskCompleted task_id agent_id result_cids =>
      ("task:" +:+ task_id, "task_completed:" +:+ pretty (N.of_nat (length result_cids)) +:+ "results", [], agent_id)
  | VerificationFailed tool_name operation reason agent_id =>
      ("verification:" +:+ tool_name, "verification_failed:" +:+ operation, [reason], agent_id)
  | CognitiveConflictDetected conflict_id conflict_type description _ agent_id _ =>
      ("conflict:" +:+ conflict_id, "conflict_detected:" +:+ conflict_type, [description], agent_id)
  end.

Definition change_entry_from_event (event : SequencedEvent) : option ChangeEntry :=
  let '(cid, change_type, tags, changed_by) := change_parts (se_event event) in
  '(short, _) ← split_at cid (Nat.min 8 (String.length cid));
  let head := event_type_name (se_event event) +:+ " " +:+ short +:+ " by " +:+ changed_by in
  let summary := match tags with [] => head | _ => head +:+ " [" +:+ join_with "," tags +:+ "]" end in
  Some (mkChange cid change_type summary (se_timestamp_ms event) changed_by (se_seq event)).

(** [a.contains(b)] *)
Definition text_contains (a b : string) : bool := opt_is_some (String.index 0 b a).

Definition event_matches_filter (event : SequencedEvent) (watch_cids watch_tags : list string) : bool :=
  match watch_cids with
  | [] => true
  | _ =>
      match se_event event with
      | ObjectStored cid _ _ => existsb (fun w => text_contains cid w || text_contains w cid) watch_cids
      | _ => false
      end
  end &&
  match watch_tags with
  | [] => true
  | _ =>
      match se_event event with
      | ObjectStored _ _ tags => existsb (fun w => existsb (fun t => str_eqb t w || text_contains t w) tags) watch_tags
      | _ => false
      end
  end.

Section delta.
Context `{Broadcast}.
Variable event_to_string : SequencedEvent -> option string.

(** The events a query selects, before they are described. *)
Definition delta_events (since_seq : Z) (watch_cids watch_tags : list string) (limit : option nat) (bus : EventBus)
    : list SequencedEvent :=
  let events := events_since bus since_seq in
  let events := match watch_cids, watch_tags with
                | [], [] => events
                | _, _ => List.filter (fun e => event_matches_filter e watch_cids watch_tags) events
                end in
  match limit with Some n => take n events | None => events end.

Definition handle_delta_since (since_seq : Z) (watch_cids watch_tags : list string) (limit : option nat)
    (bus : EventBus) : option DeltaResult :=
  let events := delta_events since_seq watch_cids watch_tags limit bus in
  changes ← mapM change_entry_from_event events;
  let token_estimate := foldr Z.add 0%Z ((fun c => api_estimate_tokens (ch_summary c)) <$> changes) in
  Some (mkDelta changes since_seq (match last events with Some e => se_seq e | None => since_seq end) token_estimate).

(** ** Following the changes *)

Lemma delta_events_filter since cids tags limit bus :
  delta_events since cids tags limit bus =
  match limit with Some n => take n | None => id end
    (List.filter (fun e => event_matches_filter e cids tags) (events_since bus since)).
Proof.
  unfold delta_events. destruct cids, tags; try by destruct limit.
  rewrite lfilter_all by done. by destruct limit.
Qed.

(** Pages of at most [n] changes, each asked for from where the last one ended. *)
Fixpoint delta_pages (pages n : nat) (since : Z) (cids tags : list string) (bus : EventBus) : option (list ChangeEntry) :=
  match pages with
  | O => Some []
  | S pages =>
      r ← handle_delta_since since cids tags (Some n) bus;
      rest ← delta_pages pages n (dr_to_seq r) cids tags bus;
      Some (dr_changes r ++ rest)
  end.

Lemma mapM_app_Some {A B} (f : A -> option B) l1 l2 k : mapM f (l1 ++ l2) = Some k ->
  exists k1 k2, mapM f l1 = Some k1 /\ mapM f l2 = Some k2 /\ k = k1 ++ k2.
Proof.
  intros (k1 & k2 & H1 & H2 & ->)%mapM_Some%Forall2_app_inv_l. exists k1, k2. split_and!; [by apply mapM_Some..|done].
Qed.

(** In a list in order of numbers, those above the last of the first [n] are
    those after them. *)
Lemma ascending_after (l : list SequencedEvent) (p : SequencedEvent -> bool) n e since :
  StronglySorted (fun a b => (se_seq a < se_seq b)%Z) l ->
  let m := List.filter (fun e => p e && (since <? se_seq e)%Z) l in
  last (take n m) = Some e ->
  List.filter (fun x => p x && (se_seq e <? se_seq x)%Z) l = drop n m.
Proof.
  intros Hs m Hl. assert (StronglySorted (fun a b => (se_seq a < se_seq b)%Z) m) as Hm.
  { unfold m. clear Hl m. induction Hs as [|x l Hl IH Hx]; cbn; [constructor|]. destruct (_ && _); [|done].
    constructor; [done|]. rewrite Forall_forall in *. intros y Hy. apply Hx.
    apply list_elem_of_In, List.filter_In in Hy as [Hy _]. by apply list_elem_of_In. }
  assert (List.filter (fun x => p x && (se_seq e <? se_seq x)%Z) l = List.filter (fun x => (se_seq e <? se_seq x)%Z) m) as ->.
  { unfold m. rewrite lfilter_filter. apply List.filter_ext_in. intros x _. destruct (p x); [|done]. cbn.
    assert ((since < se_seq e)%Z) as Hse.
    { apply last_Some_elem_of, elem_of_take in Hl as (i & Hi & _). apply list_elem_of_lookup_2, list_elem_of_In, List.filter_In in Hi as [_ Hi].
      apply andb_true_iff in Hi as [_ Hi]. by apply Z.ltb_lt. }
    destruct (se_seq e <? se_seq x)%Z eqn:Hx; [|by rewrite andb_false_r]. apply Z.ltb_lt in Hx.
    symmetry. rewrite andb_true_r. apply Z.ltb_lt. lia. }
  clearbody m. rewrite <-(take_drop n m) at 1. rewrite List.filter_app.
  apply last_Some in Hl as [k Hk]. rewrite <-(take_drop n m), Hk in Hm.
  assert (forall x, x ∈ drop n m -> (se_seq e < se_seq x)%Z) as Hafter.
  { intros x Hx. apply StronglySorted_app_1_elem_of with (x1 := e) (x2 := x) in Hm; [done | set_solver | done]. }
  assert (forall x, x ∈ k ++ [e] -> (se_seq x <= se_seq e)%Z) as Hbefore.
  { intros x [Hx| ->%list_elem_of_singleton]%elem_of_app; [|lia]. apply StronglySorted_app_1_l in Hm.
    apply StronglySorted_app_1_elem_of with (x1 := x) (x2 := e) in Hm; [lia | done | set_solver]. }
  rewrite Hk, lfilter_none, lfilter_all; [done | |].
  - intros x Hx%Hafter. by apply Z.ltb_lt.
  - intros x Hx%Hbefore. by apply Z.ltb_ge.
Qed.

(** The numbers of the events on a bus rise. *)
Lemma numbered_ascending all : numbered all -> StronglySorted (fun a b => (se_seq a < se_seq b)%Z) all.
Proof.
  unfold numbered. intros Hn.
  assert (forall k, (forall i e, all !! i = Some e -> se_seq e = (Z.of_nat (k + i) + 1)%Z) ->
    StronglySorted (fun a b => (se_seq a < se_seq b)%Z) all) as Hgen; [|by apply (Hgen 0%nat)].
  clear Hn. induction all as [|x l IH]; intros k Hk; constructor.
  - apply (IH (S k)). intros i e Hi. rewrite (Hk (S i) e Hi). lia.
  - apply Forall_forall. intros y [i Hi]%list_elem_of_lookup_1. rewrite (Hk 0%nat x eq_refl), (Hk (S i) y Hi). lia.
Qed.

Section pages.
Variables (cap : nat) (all : list SequencedEvent) (bus : EventBus) (cids tags : list string).
Hypothesis Hbus : bus_holds cap all bus.

(** The events a query without a limit selects. *)
Definition selected (since : Z) : list SequencedEvent :=
  List.filter (fun e => event_matches_filter e cids tags && (since <? se_seq e)%Z) (last_n cap all).

Lemma delta_events_selected since limit : (0 <= since)%Z ->
  delta_events since cids tags limit bus = match limit with Some n => take n | None => id end (selected since).
Proof.
  intros Hs. rewrite delta_events_filter. unfold selected, events_since.
  rewrite (ring_since cap all _ since (bh_ring _ _ _ Hbus) Hs), lfilter_filter. f_equal.
  apply List.filter_ext. intros e. apply andb_comm.
Qed.

Lemma selected_above since e : (0 <= since)%Z -> e ∈ selected since -> (0 <= se_seq e)%Z.
Proof.
  intros Hs [_ Hb]%list_elem_of_In%List.filter_In. apply andb_true_iff in Hb as [_ Hb]. apply Z.ltb_lt in Hb. lia.
Qed.

Lemma selected_next since n e : last (take n (selected since)) = Some e -> selected (se_seq e) = drop n (selected since).
Proof.
  apply ascending_after. destruct Hbus as [[_ _ _ Hn] _]. apply numbered_ascending in Hn.
  unfold last_n. rewrite <-(take_drop (length all - cap) all) in Hn. by eapply StronglySorted_app_1_r.
Qed.

Lemma delta_pages_gen n pages since entries : (0 < n)%nat -> (0 <= since)%Z ->
  mapM change_entry_from_event (selected since) = Some entries -> (length entries <= pages * n)%nat ->
  delta_pages pages n since cids tags bus = Some entries.
Proof.
  intros Hn. revert since entries. induction pages as [|pages IH]; intros since entries Hs Hm Hlen.
  { cbn. f_equal. destruct entries; [done | cbn in Hlen; lia]. }
  cbn [delta_pages]. unfold handle_delta_since. rewrite delta_events_selected by done.
  rewrite <-(take_drop n (selected since)) in Hm. apply mapM_app_Some in Hm as (k & r & Hk & Hr & ->).
  rewrite Hk. cbn [mbind option_bind dr_to_seq dr_changes].
  apply length_mapM in Hk as Hlk. apply length_mapM in Hr as Hlr. rewrite length_take in Hlk. rewrite length_drop in Hlr.
  destruct (last (take n (selected since))) as [e|] eqn:Hl.
  - rewrite (IH (se_seq e) r); [done | | by rewrite (selected_next _ _ _ Hl) |].
    + apply (selected_above since); [done|]. apply last_Some_elem_of, elem_of_take in Hl as (i & Hi & _).
      by apply list_elem_of_lookup_2 in Hi.
    + rewrite length_app in Hlen. lia.
  - apply last_None in Hl. assert (selected since = []) as Hnil.
    { destruct (selected since); [done|]. destruct n; [lia | done]. }
    rewrite Hnil in *. rewrite drop_nil in Hr. rewrite (IH since []); [|done | by rewrite Hnil | cbn; lia].
    cbn in Hr. injection Hr as <-. done.
Qed.
End pages.

(** Following the changes in pages misses and repeats none: after any
    emissions, asking for at most [n] changes at a time, each time from the
    number the last answer ended at, gives exactly the changes one query
    without a limit gives, in order, for any filter. *)
Lemma delta_pages_complete path interval retention now disk xs since cids tags n pages r :
  (Z.of_nat (length xs) < u64_max)%Z -> (0 <= since)%Z -> (0 < n)%nat ->
  let bus := fst (emit_all event_to_string (with_rotation path interval retention now) disk xs) in
  handle_delta_since since cids tags None bus = Some r -> (length (dr_changes r) <= pages * n)%nat ->
  delta_pages pages n since cids tags bus = Some (dr_changes r).
Proof.
  intros Hsmall Hs Hn bus Hr Hlen.
  destruct (emit_all_holds event_to_string _ _ _ disk xs capacity_positive (new_bus_holds path interval retention now) Hsmall) as [Hb _].
  cbn [app length] in Hb. fold bus in Hb. unfold handle_delta_since in Hr.
  rewrite (delta_events_selected _ _ _ cids tags Hb since None Hs) in Hr. cbn [id] in Hr.
  destruct (mapM change_entry_from_event _) as [entries|] eqn:Hm; [|done]. cbn in Hr. injection Hr as <-.
  by eapply delta_pages_gen.
Qed.
End delta.

Lemma delta_pages_complete_witness :
  let bus := fst (emit_all toy_print (with_rotation true 0 4 0) (mkDisk None ∅) some_emits) in
  exists r, handle_delta_since 1 [] [] None bus = Some r /\ length (dr_changes r) = 2%nat /\
    delta_pages 2 1 1 [] [] bus = Some (dr_changes r).
Proof.
  intros bus. destruct (handle_delta_since 1 [] [] None bus) as [r|] eqn:Hr; [|by vm_compute in Hr].
  assert (length (dr_changes r) = 2%nat) as Hl by (vm_compute in Hr; by injection Hr as <-).
  exists r. split_and!; [done | exact Hl |].
  apply (delta_pages_complete toy_print true 0 4 0 (mkDisk None ∅) some_emits 1 [] [] 1 2 r);
    [unfold u64_max, u64_modulus; cbn; lia | lia | lia | exact Hr | rewrite Hl; lia].
Defined.

(** The description cuts a text at its eighth octet, which can lie inside a
    character: an agent whose name starts with a letter and an accented one. *)
Lemma change_entry_panics :
  change_entry_from_event (mkSequenced 1 0 (AgentStateChanged "aé" "Created" "Waiting")) = None.
Proof. by vm_compute. Qed.
