(* ===== verification/Sessions.v ===== *)
(** * Sessions ([src/src/kernel/ops/session.rs])

    The store of active and completed sessions, the durable start and end of a
    session and the scan that ends the expired ones.  A call that reaches the
    file draws the outcome of its write from outside. *)

From stdpp Require Import base gmap strings list.
From S2P Require Import Prelude EventBus EventBusProps Permission Delta.

Definition DEFAULT_SESSION_TTL_MS : Z := 30 * 60 * 1000.

Inductive SessionError : Type :=
  | Session_NotFound (session_id : string)
  | Session_Ownership (session_id agent_id : string)
  | Session_Persistence (operation : string).

Definition session_error_category (e : SessionError) : string :=
  match e with
  | Session_NotFound _ => "not_found"
  | Session_Ownership _ _ => "ownership"
  | Session_Persistence _ => "persistence"
  end.

Record ActiveSession := mkSession {
  as_session_id : string;
  as_agent_id : string;
  as_created_at_ms : Z;
  as_last_active_ms : Z;
  as_start_seq : Z;
  as_current_intent : option string;
}.

Definition session_new (now : Z) (session_id agent_id : string) (start_seq : Z) : ActiveSession :=
  mkSession session_id agent_id now now start_seq None.
Definition session_touch (now : Z) (s : ActiveSession) : ActiveSession :=
  mkSession (as_session_id s) (as_agent_id s) (as_created_at_ms s) now (as_start_seq s) (as_current_intent s).
Definition session_with_intent (intent : option string) (s : ActiveSession) : ActiveSession :=
  mkSession (as_session_id s) (as_agent_id s) (as_created_at_ms s) (as_last_active_ms s) (as_start_seq s) intent.
(** The subtraction wraps. *)
Definition session_is_expired (now ttl_ms : Z) (s : ActiveSession) : bool :=
  (ttl_ms <? u64_sub now (as_last_active_ms s))%Z.

Record SessionSummary := mkSessionSummary {
  ss_top_tags : list string;
  ss_object_count : Z;
  ss_intent : option string;
  ss_summary_cid : option string;
}.

Record CompletedSession := mkCompleted {
  co_session_id : string;
  co_agent_id : string;
  co_created_at_ms : Z;
  co_ended_at_ms : Z;
  co_tokens_used : Z;
  co_summary : option SessionSummary;
  co_created_cids : list string;
}.

Record SessionStore := mkSessionStore {
  st_sessions : gmap string ActiveSession;
  st_completed_sessions : gmap string (list CompletedSession);
  st_ttl_ms : Z;
}.

Definition session_store_new : SessionStore := mkSessionStore ∅ ∅ DEFAULT_SESSION_TTL_MS.

Definition with_sessions (m : gmap string ActiveSession) (st : SessionStore) : SessionStore :=
  mkSessionStore m (st_completed_sessions st) (st_ttl_ms st).

(** [sessions.json] and [completed_sessions.json] *)
Record SessionFiles := mkSessionFiles { sf_sessions : option string; sf_completed : option string }.

Section sessions.
Context `{HashIter} `{Broadcast}.
(** [serde_json] at the two maps. *)
Variable sessions_to_vec : gmap string ActiveSession -> option string.
Variable sessions_from_str : string -> option (gmap string ActiveSession).
Variable completed_to_string : gmap string (list CompletedSession) -> option string.
Variable completed_from_str : string -> option (gmap string (list CompletedSession)).

(** ** Reading *)

Definition session_get (st : SessionStore) (session_id : string) : option ActiveSession := st_sessions st !! session_id.
Definition session_list (st : SessionStore) : list ActiveSession := values (st_sessions st).
Definition active_session_count (st : SessionStore) (agent_id : string) : nat :=
  length (List.filter (fun s => str_eqb (as_agent_id s) agent_id) (values (st_sessions st))).
Definition total_active_count (st : SessionStore) : nat := size (st_sessions st).
Definition get_active_sessions (st : SessionStore) (agent_id : string) (cutoff_ms : option Z) : list ActiveSession :=
  List.filter (fun s => str_eqb (as_agent_id s) agent_id &&
    match cutoff_ms with Some c => (c <=? as_created_at_ms s)%Z | None => true end) (values (st_sessions st)).
Definition expired_sessions (now : Z) (st : SessionStore) : list ActiveSession :=
  List.filter (session_is_expired now (st_ttl_ms st)) (values (st_sessions st)).

Definition completed_of (st : SessionStore) (agent_id : string) : list CompletedSession :=
  default [] (st_completed_sessions st !! agent_id).
Definition get_completed_sessions (now : Z) (st : SessionStore) (agent_id : string) (period_ms : option Z)
    : list CompletedSession :=
  match period_ms with
  | Some period => List.filter (fun s => u64_sub now period <=? co_ended_at_ms s)%Z (completed_of st agent_id)
  | None => completed_of st agent_id
  end.
Definition completed_session_count (st : SessionStore) (agent_id : string) : nat := length (completed_of st agent_id).
Definition recent_session_summaries (st : SessionStore) (agent_id : string) (max_sessions : nat) : list SessionSummary :=
  omap co_summary (take max_sessions (reverse (completed_of st agent_id))).

(** ** Changes in memory *)

Definition store_touch (now : Z) (session_id : string) (st : SessionStore) : SessionStore :=
  with_sessions (alter (session_touch now) session_id (st_sessions st)) st.
Definition set_current_intent (agent_id : string) (intent : option string) (st : SessionStore) : SessionStore :=
  with_sessions ((fun s => if str_eqb (as_agent_id s) agent_id then session_with_intent intent s else s)
                   <$> st_sessions st) st.

(** ** Files *)

(** The temporary file is written and synced, then renamed. *)
Definition persist_active_snapshot (io : PermissionIo) (sessions : gmap string ActiveSession) (file : option string)
    : bool * option string :=
  match sessions_to_vec sessions with
  | None => (false, file)
  | Some data => if io_write io && io_rename io then (true, Some data) else (false, file)
  end.

Definition begin_persisted (now : Z) (io : PermissionIo) (session_id agent_id : string) (start_seq : Z)
    (st : SessionStore) (files : SessionFiles) : result SessionError ActiveSession * SessionStore * SessionFiles :=
  let session := session_new now session_id agent_id start_seq in
  let sessions := <[session_id := session]> (st_sessions st) in
  let '(ok, file) := persist_active_snapshot io sessions (sf_sessions files) in
  let files := mkSessionFiles file (sf_completed files) in
  if ok then (Ok session, with_sessions sessions st, files)
  else (Err (Session_Persistence "start"), with_sessions (delete session_id sessions) st, files).

Definition finish_persisted (io : PermissionIo) (agent_id session_id : string) (st : SessionStore) (files : SessionFiles)
    : result SessionError ActiveSession * SessionStore * SessionFiles :=
  match st_sessions st !! session_id with
  | None => (Err (Session_NotFound session_id), st, files)
  | Some session =>
      if negb (str_eqb (as_agent_id session) agent_id) then (Err (Session_Ownership session_id agent_id), st, files)
      else
        let sessions := delete session_id (st_sessions st) in
        let '(ok, file) := persist_active_snapshot io sessions (sf_sessions files) in
        let files := mkSessionFiles file (sf_completed files) in
        if ok then (Ok session, with_sessions sessions st, files)
        else (Err (Session_Persistence "end"), with_sessions (<[session_id := session]> sessions) st, files)
  end.

(** The two writes; the second is skipped when the first fails. *)
Definition session_persist (io io' : PermissionIo) (st : SessionStore) (files : SessionFiles) : bool * SessionFiles :=
  let '(ok, file) := persist_active_snapshot io (st_sessions st) (sf_sessions files) in
  let files := mkSessionFiles file (sf_completed files) in
  if negb ok then (false, files)
  else match completed_to_string (st_completed_sessions st) with
       | None => (false, files)
       | Some data =>
           if io_write io' && io_rename io' then (true, mkSessionFiles (sf_sessions files) (Some data)) else (false, files)
       end.

(** [read] and [read'] tell whether the two files can be read; a file that cannot,
    or is not what was written, counts as empty. *)
Definition session_restore (read read' : bool) (files : SessionFiles) : SessionStore :=
  mkSessionStore (if read then default ∅ (sf_sessions files ≫= sessions_from_str) else ∅)
    (if read' then default ∅ (sf_completed files ≫= completed_from_str) else ∅) DEFAULT_SESSION_TTL_MS.

(** ** Start and end *)

Record StartSessionResult := mkStarted {
  sr_session_id : string;
  sr_changes_since_last : list ChangeEntry;
  sr_watermark : Z;
}.

(** The changes of the agent itself since it was last seen; [None] is a panic in
    the description of one, after the session is recorded. *)
Definition changes_for (agent_id : string) (last_seen_seq : option Z) (bus : EventBus) : option (list ChangeEntry) :=
  let watermark := current_seq bus in
  let since_seq := default watermark last_seen_seq in
  if (since_seq <? watermark)%Z then
    mapM change_entry_from_event
      (List.filter (fun e => bool_decide (event_agent_id (se_event e) = Some agent_id)) (events_since bus since_seq))
  else Some [].

Definition start_session (now : Z) (io : PermissionIo) (session_id agent_id : string) (last_seen_seq : option Z)
    (bus : EventBus) (st : SessionStore) (files : SessionFiles)
    : option (result SessionError StartSessionResult) * SessionStore * SessionFiles :=
  let watermark := current_seq bus in
  let '(r, st, files) := begin_persisted now io session_id agent_id watermark st files in
  match r with
  | Err e => (Some (Err e), st, files)
  | Ok _ =>
      (changes ← changes_for agent_id last_seen_seq bus; Some (Ok (mkStarted session_id changes watermark)), st, files)
  end.

(** [EndSessionResult] is the number of the bus. *)
Definition end_session (io : PermissionIo) (agent_id session_id : string) (bus : EventBus) (st : SessionStore)
    (files : SessionFiles) : result SessionError Z * SessionStore * SessionFiles :=
  let last_seq := current_seq bus in
  let '(r, st, files) := finish_persisted io agent_id session_id st files in
  (match r with Ok _ => Ok last_seq | Err e => Err e end, st, files).

(** One round of the scanner; an end that fails is logged and the next is tried.
    [ios] gives the outcome of each write, good ones once it is used up. *)
Fixpoint scan_ends (ios : list PermissionIo) (expired : list ActiveSession) (bus : EventBus) (st : SessionStore)
    (files : SessionFiles) : SessionStore * SessionFiles :=
  match expired with
  | [] => (st, files)
  | s :: expired =>
      let io := default (mkPermissionIo true true true) (head ios) in
      let '(_, st, files) := end_session io (as_agent_id s) (as_session_id s) bus st files in
      scan_ends (tail ios) expired bus st files
  end.
Definition scan_expired (now : Z) (ios : list PermissionIo) (bus : EventBus) (st : SessionStore) (files : SessionFiles)
    : SessionStore * SessionFiles := scan_ends ios (expired_sessions now st) bus st files.
End sessions.

(** * Sessions are what was acknowledged

    An abstract map of the open sessions, changed by what the answers of starts
    and ends say; the store in memory and the file both hold it after any run,
    through failed writes and restarts. *)

(** What a session keeps for its life: its agent, its start and the number then. *)
Definition core (s : ActiveSession) : string * Z * Z := (as_agent_id s, as_created_at_ms s, as_start_seq s).
Notation OpenSessions := (gmap string (string * Z * Z)).

Section props.
Context `{HashIter} `{Broadcast}.
Variable sessions_to_vec : gmap string ActiveSession -> option string.
Variable sessions_from_str : string -> option (gmap string ActiveSession).
Variable completed_to_string : gmap string (list CompletedSession) -> option string.
Variable completed_from_str : string -> option (gmap string (list CompletedSession)).
Hypothesis sessions_codec : forall m, exists s, sessions_to_vec m = Some s /\ sessions_from_str s = Some m.

Notation session_restore := (session_restore sessions_from_str completed_from_str true true).
Notation persist_active_snapshot := (persist_active_snapshot sessions_to_vec).

Inductive SessionOp : Type :=
  | So_Start (now : Z) (io : PermissionIo) (session_id agent_id : string) (last_seen : option Z) (bus : EventBus)
  | So_End (io : PermissionIo) (agent_id session_id : string) (bus : EventBus)
  | So_Touch (now : Z) (session_id : string)
  | So_Intent (agent_id : string) (intent : option string)
  | So_Persist (io io' : PermissionIo)
  | So_Restart (read read' : bool).

Inductive SessionAnswer : Type :=
  | An_Start (r : option (result SessionError StartSessionResult))
  | An_End (r : result SessionError Z)
  | An_None.

Definition session_step (sf : SessionStore * SessionFiles) (op : SessionOp)
    : SessionAnswer * (SessionStore * SessionFiles) :=
  let '(st, files) := sf in
  match op with
  | So_Start now io id agent seen bus =>
      let '(r, st, files) := start_session sessions_to_vec now io id agent seen bus st files in (An_Start r, (st, files))
  | So_End io agent id bus =>
      let '(r, st, files) := end_session sessions_to_vec io agent id bus st files in (An_End r, (st, files))
  | So_Touch now id => (An_None, (store_touch now id st, files))
  | So_Intent agent intent => (An_None, (set_current_intent agent intent st, files))
  | So_Persist io io' => (An_None, (st, (session_persist sessions_to_vec completed_to_string io io' st files).2))
  | So_Restart read read' => (An_None, (Sessions.session_restore sessions_from_str completed_from_str read read' files, files))
  end.

(** A run, with the answers it gave. *)
Fixpoint session_run (ops : list SessionOp) (sf : SessionStore * SessionFiles)
    : list (SessionOp * SessionAnswer) * (SessionStore * SessionFiles) :=
  match ops with
  | [] => ([], sf)
  | op :: ops =>
      let '(ans, sf) := session_step sf op in
      let '(trace, sf) := session_run ops sf in ((op, ans) :: trace, sf)
  end.
Definition no_sessions : SessionStore * SessionFiles := (session_store_new, mkSessionFiles None None).

(** ** The abstract map *)

(** What the caller knows from the answers.  A start that panics has answered
    nothing, but its session is open. *)
Definition spec_step (S : OpenSessions) (x : SessionOp * SessionAnswer) : OpenSessions :=
  match x with
  | (So_Start now _ _ agent _ _, An_Start (Some (Ok r))) => <[sr_session_id r := (agent, now, sr_watermark r)]> S
  | (So_Start now _ id agent _ bus, An_Start None) => <[id := (agent, now, current_seq bus)]> S
  | (So_End _ _ id _, An_End (Ok _)) => delete id S
  | _ => S
  end.

Definition writes (io : PermissionIo) : bool := io_write io && io_rename io.

(** What an answer has to say, given the open sessions [S]. *)
Definition answers_right (S : OpenSessions) (x : SessionOp * SessionAnswer) : Prop :=
  match x with
  | (So_Start _ io id agent seen bus, An_Start (Some (Ok r))) =>
      writes io = true /\ sr_session_id r = id /\ sr_watermark r = current_seq bus /\
      changes_for agent seen bus = Some (sr_changes_since_last r)
  | (So_Start _ io _ _ _ _, An_Start (Some (Err e))) => writes io = false /\ e = Session_Persistence "start"
  | (So_Start _ io _ agent seen bus, An_Start None) => writes io = true /\ changes_for agent seen bus = None
  | (So_End io agent id bus, An_End r) =>
      match S !! id with
      | None => r = Err (Session_NotFound id)
      | Some (owner, _, _) =>
          if negb (str_eqb owner agent) then r = Err (Session_Ownership id agent)
          else r = if writes io then Ok (current_seq bus) else Err (Session_Persistence "end")
      end
  | _ => True
  end.

(** Identifiers are not used twice at a time, and a restart can read the file. *)
Fixpoint well_run (S : OpenSessions) (trace : list (SessionOp * SessionAnswer)) : Prop :=
  match trace with
  | [] => True
  | x :: trace =>
      match x.1 with So_Start _ _ id _ _ _ => S !! id = None | So_Restart read _ => read = true | _ => True end /\
      well_run (spec_step S x) trace
  end.

(** ** The two copies *)

Definition keyed (m : gmap string ActiveSession) : Prop := forall id s, m !! id = Some s -> as_session_id s = id.

Record holds (S : OpenSessions) (sf : SessionStore * SessionFiles) : Prop := {
  ho_memory : core <$> st_sessions sf.1 = S;
  ho_file : core <$> st_sessions (session_restore sf.2) = S;
  ho_keyed : keyed (st_sessions sf.1);
  ho_keyed_file : keyed (st_sessions (session_restore sf.2));
}.

Lemma persist_snapshot_restore io m file completed :
  let '(ok, file') := persist_active_snapshot io m file in
  ok = writes io /\
  st_sessions (session_restore (mkSessionFiles file' completed)) =
    if writes io then m else st_sessions (session_restore (mkSessionFiles file completed)).
Proof.
  unfold Sessions.persist_active_snapshot. destruct (sessions_codec m) as (s & -> & Hs). fold (writes io).
  destruct (writes io); [|done]. split; [done|]. unfold Sessions.session_restore. cbn. by rewrite Hs.
Qed.

Lemma sessions_keyed_insert m id s : keyed m -> as_session_id s = id -> keyed (<[id := s]> m).
Proof. intros Hm Hs id' s' [[<- <-]|[_ Hl]]%lookup_insert_Some; [done | by apply Hm]. Qed.
Lemma sessions_keyed_delete m id : keyed m -> keyed (delete id m).
Proof. intros Hm id' s' [_ Hl]%lookup_delete_Some. by apply Hm. Qed.

(** One step keeps both copies, and answers right. *)
Definition step_good (S : OpenSessions) (op : SessionOp) (y : SessionAnswer * (SessionStore * SessionFiles)) : Prop :=
  holds (spec_step S (op, y.1)) y.2 /\ answers_right S (op, y.1).

Lemma start_good S st files now io id agent seen bus :
  S !! id = None -> holds S (st, files) ->
  let op := So_Start now io id agent seen bus in step_good S op (session_step (st, files) op).
Proof.
  intros Hf [Hm Hd Hk Hkf] op. unfold op, step_good. cbn [session_step]. unfold start_session, begin_persisted. cbn in Hm, Hk.
  assert (st_sessions st !! id = None) as Hn.
  { subst S. rewrite lookup_fmap in Hf. by destruct (st_sessions st !! id). }
  set (s := session_new now id agent (current_seq bus)).
  pose proof (persist_snapshot_restore io (<[id := s]> (st_sessions st)) (sf_sessions files) (sf_completed files)) as Hp.
  destruct (persist_active_snapshot io _ _) as [ok file']. destruct Hp as [-> Hr].
  replace (mkSessionFiles (sf_sessions files) (sf_completed files)) with files in Hr by by destruct files.
  destruct (writes io) eqn:Hw; cbn [fst snd].
  - assert (holds (<[id := (agent, now, current_seq bus)]> S)
      (with_sessions (<[id := s]> (st_sessions st)) st, mkSessionFiles file' (sf_completed files))) as Hh.
    { split; cbn [fst snd with_sessions st_sessions]; rewrite ?Hr.
      - by rewrite fmap_insert, Hm.
      - by rewrite fmap_insert, Hm.
      - by apply sessions_keyed_insert.
      - by apply sessions_keyed_insert. }
    destruct (changes_for agent seen bus) as [changes|] eqn:Hc; cbn [mbind option_bind spec_step answers_right sr_session_id sr_watermark sr_changes_since_last];
      by rewrite ?Hc.
  - split; [|done]. cbn [spec_step]. split; cbn [fst snd with_sessions st_sessions]; rewrite ?Hr; [by rewrite delete_insert_id|done|by rewrite delete_insert_id|done].
Qed.

Lemma end_good S st files io agent id bus : holds S (st, files) ->
  let op := So_End io agent id bus in step_good S op (session_step (st, files) op).
Proof.
  intros [Hm Hd Hk Hkf] op. unfold op, step_good. cbn [session_step]. unfold end_session, finish_persisted. cbn in Hm, Hk.
  assert (S !! id = core <$> st_sessions st !! id) as HS by by rewrite <-Hm, lookup_fmap.
  cbn [answers_right]. rewrite HS. clear HS.
  destruct (st_sessions st !! id) as [s|] eqn:Hs; cbn [fmap option_fmap option_map core]; [|by split].
  destruct (str_eqb (as_agent_id s) agent); cbn [negb]; [|by split].
  pose proof (persist_snapshot_restore io (delete id (st_sessions st)) (sf_sessions files) (sf_completed files)) as Hp.
  destruct (persist_active_snapshot io _ _) as [ok file']. destruct Hp as [-> Hr].
  replace (mkSessionFiles (sf_sessions files) (sf_completed files)) with files in Hr by by destruct files.
  destruct (writes io); cbn [fst snd spec_step]; (split; [|done]); (split; cbn [fst snd with_sessions st_sessions]; rewrite ?Hr).
  - by rewrite fmap_delete, Hm.
  - by rewrite fmap_delete, Hm.
  - by apply sessions_keyed_delete.
  - by apply sessions_keyed_delete.
  - by rewrite insert_delete_id.
  - done.
  - by rewrite insert_delete_id.
  - done.
Qed.

Lemma other_good S st files op : holds S (st, files) ->
  match op with So_Start _ _ _ _ _ _ | So_End _ _ _ _ => False | So_Restart read _ => read = true | _ => True end ->
  step_good S op (session_step (st, files) op).
Proof.
  intros Hh Hop. assert (holds S (session_step (st, files) op).2) as Hh'; [|by destruct op].
  revert Hh Hop.
  intros [Hm Hd Hk Hkf]. cbn in Hm, Hk. destruct op as [| |now id|agent intent|io io'|read read']; cbn [session_step]; try done;
    [intros _..|intros ->; by split]; split; cbn; try done.
  - rewrite <-Hm. apply map_eq. intros i. rewrite !lookup_fmap. destruct (decide (i = id)) as [-> |Hne].
    + rewrite lookup_alter_eq. by destruct (st_sessions st !! id).
    + by rewrite lookup_alter_ne.
  - intros i s [[<- (s' & Hs' & ->)]|[_ Hs']]%lookup_alter_Some; [by apply (Hk id s') | by apply Hk].
  - rewrite <-Hm. apply map_eq. intros i. rewrite !lookup_fmap. destruct (st_sessions st !! i); [|done]. cbn. by case_match.
  - intros i s. rewrite lookup_fmap. destruct (st_sessions st !! i) as [s'|] eqn:Hs'; [|done]. intros [= <-].
    apply Hk in Hs'. by case_match.
  - unfold session_persist. pose proof (persist_snapshot_restore io (st_sessions st) (sf_sessions files) (sf_completed files)) as Hp.
    destruct (persist_active_snapshot io _ _) as [ok file']. destruct Hp as [_ Hr].
    replace (mkSessionFiles (sf_sessions files) (sf_completed files)) with files in Hr by by destruct files.
    assert (forall c, core <$> st_sessions (session_restore (mkSessionFiles file' c)) = S) as Hc.
    { intros c. change (st_sessions (session_restore (mkSessionFiles file' c))) with
        (st_sessions (session_restore (mkSessionFiles file' (sf_completed files)))). rewrite Hr. by destruct (writes io). }
    repeat case_match; apply Hc.
  - unfold session_persist. pose proof (persist_snapshot_restore io (st_sessions st) (sf_sessions files) (sf_completed files)) as Hp.
    destruct (persist_active_snapshot io _ _) as [ok file']. destruct Hp as [_ Hr].
    replace (mkSessionFiles (sf_sessions files) (sf_completed files)) with files in Hr by by destruct files.
    assert (forall c, keyed (st_sessions (session_restore (mkSessionFiles file' c)))) as Hc.
    { intros c. change (st_sessions (session_restore (mkSessionFiles file' c))) with
        (st_sessions (session_restore (mkSessionFiles file' (sf_completed files)))). rewrite Hr. by destruct (writes io). }
    repeat case_match; apply Hc.
Qed.

Lemma session_step_good S sf op : holds S sf ->
  match op with So_Start _ _ id _ _ _ => S !! id = None | So_Restart read _ => read = true | _ => True end ->
  step_good S op (session_step sf op).
Proof.
  destruct sf as [st files]. intros Hh Hf. destruct op;
    [by apply start_good|by apply end_good|by apply other_good..].
Qed.

Lemma run_good ops S sf : holds S sf ->
  let '(trace, sf') := session_run ops sf in
  well_run S trace ->
  holds (foldl spec_step S trace) sf' /\
  (forall before x after, trace = before ++ x :: after -> answers_right (foldl spec_step S before) x).
Proof.
  revert S sf. induction ops as [|op ops IH]; intros S sf Hh; cbn [session_run].
  { intros _. split; [done|]. by intros []. }
  pose proof (session_step_good S sf op Hh) as Hg. destruct (session_step sf op) as [ans sf1].
  specialize (IH (spec_step S (op, ans)) sf1). destruct (session_run ops sf1) as [trace sf2].
  intros [Hop Hw]. destruct (Hg Hop) as [Hh1 Ha]. destruct (IH Hh1 Hw) as [Hh2 Hall]. split; [done|].
  intros [|x0 before] x after; cbn; [by intros [= <- ->]|]. intros [= <- Htr]. by eapply Hall.
Qed.

Lemma start_empty : holds ∅ no_sessions.
Proof. split; cbn; rewrite ?fmap_empty; try done; intros id s; by rewrite lookup_empty. Qed.

(** C32: the open sessions follow the answers.  In any run of starts, ends,
    touches, intents, saves and restarts that can read the file, with new
    identifiers for new sessions and whatever writes fail, every answer is right:
    a start answers well only after its session was written, and then with the
    identifier, the number and the changes; an end answers well only for an open
    session of its agent, once its end was written; the other answers name what
    failed.  The sessions in memory, with their agent, time and number, are those
    whose start was answered well and whose end was not, besides those whose
    start panicked after it was written, while it described a change; and a
    restart at any moment finds the same ones in the file. *)
Theorem sessions_follow_acknowledgements ops :
  let '(trace, (st, files)) := session_run ops no_sessions in
  well_run ∅ trace ->
  (forall before x after, trace = before ++ x :: after -> answers_right (foldl spec_step ∅ before) x) /\
  core <$> st_sessions st = foldl spec_step ∅ trace /\ core <$> st_sessions (session_restore files) = foldl spec_step ∅ trace.
Proof.
  pose proof (run_good ops ∅ no_sessions start_empty) as Hg. destruct (session_run ops no_sessions) as [trace [st files]].
  intros Hw. destruct (Hg Hw) as [[Hm Hd _ _] Hall]. done.
Qed.

(** A file that cannot be read at a restart counts as empty, and the next write
    makes it so. *)
Lemma unreadable_file_is_overwritten now io id agent seen bus files : writes io = true ->
  let st' := Sessions.session_restore sessions_from_str completed_from_str false true files in
  let '(_, (_, files')) := session_step (st', files) (So_Start now io id agent seen bus) in
  st_sessions (session_restore files') = {[ id := session_new now id agent (current_seq bus) ]}.
Proof.
  intros Hw st'. cbn [session_step]. unfold start_session, begin_persisted.
  pose proof (persist_snapshot_restore io (<[id := session_new now id agent (current_seq bus)]> (st_sessions st')) (sf_sessions files) (sf_completed files)) as Hp.
  destruct (persist_active_snapshot io _ _) as [ok file']. destruct Hp as [-> Hr]. rewrite Hw in *.
  cbn [fst snd]. rewrite Hr. apply insert_empty.
Qed.

(** ** The scan *)

Lemma end_session_good st files agent id bus s :
  st_sessions st !! id = Some s -> as_agent_id s = agent ->
  let '(_, st', _) := end_session sessions_to_vec (mkPermissionIo true true true) agent id bus st files in
  st_sessions st' = delete id (st_sessions st).
Proof.
  intros Hs <-. unfold end_session, finish_persisted. rewrite Hs.
  replace (str_eqb (as_agent_id s) (as_agent_id s)) with true by (symmetry; by apply bool_decide_eq_true). cbn [negb].
  pose proof (persist_snapshot_restore (mkPermissionIo true true true) (delete id (st_sessions st)) (sf_sessions files)
    (sf_completed files)) as Hp.
  destruct (persist_active_snapshot _ _ _) as [ok file']. by destruct Hp as [-> _].
Qed.

Lemma scan_ends_good bus l : forall st files, keyed (st_sessions st) ->
  NoDup (as_session_id <$> l) -> (forall s, s ∈ l -> st_sessions st !! as_session_id s = Some s) ->
  forall id, st_sessions (scan_ends sessions_to_vec [] l bus st files).1 !! id =
             if bool_decide (id ∈ as_session_id <$> l) then None else st_sessions st !! id.
Proof.
  induction l as [|s l IH]; intros st files Hk Hnd Hin id; [done|].
  cbn [scan_ends head default tail]. cbn [fmap list_fmap] in Hnd. apply NoDup_cons in Hnd as [Hni Hnd].
  pose proof (end_session_good st files (as_agent_id s) (as_session_id s) bus s (Hin s ltac:(by left)) eq_refl) as He.
  destruct (end_session sessions_to_vec _ _ _ bus st files) as [[r st'] files'].
  rewrite IH, He.
  - destruct (decide (id = as_session_id s)) as [-> |Hne].
    + rewrite lookup_delete_eq, (bool_decide_eq_true_2 (_ ∈ as_session_id <$> s :: l)) by by left. by destruct (bool_decide _).
    + rewrite lookup_delete_ne by done. rewrite (bool_decide_ext (id ∈ as_session_id <$> s :: l) (id ∈ as_session_id <$> l)); [done|].
      cbn. rewrite elem_of_cons. naive_solver.
  - rewrite He. by apply sessions_keyed_delete.
  - done.
  - intros s' Hs'. rewrite He, lookup_delete_ne; [apply Hin; by right|].
    intros Heq. apply Hni. rewrite Heq. by apply list_elem_of_fmap_2.
Qed.

Lemma keyed_ids m : keyed m -> as_session_id <$> values m = keys m.
Proof.
  intros Hk. unfold values, keys. rewrite <-list_fmap_compose. apply list_fmap_ext. intros i [id s] Hl.
  apply (Hk id s). apply elem_of_map_to_list. rewrite <-(hash_iter_perm m). by apply list_elem_of_lookup_2 in Hl.
Qed.

(** The scan ends exactly the expired sessions: when no write fails, a round
    of the scanner over a store any run of operations has reached leaves the
    sessions whose last activity is no longer ago than the limit, untouched. *)
Lemma scan_ends_exactly_expired ops now bus :
  let '(trace, (st, files)) := session_run ops no_sessions in
  well_run ∅ trace ->
  st_sessions (scan_expired sessions_to_vec now [] bus st files).1 =
    filter (fun kv => session_is_expired now (st_ttl_ms st) kv.2 = false) (st_sessions st).
Proof.
  pose proof (run_good ops ∅ no_sessions start_empty) as Hg. destruct (session_run ops no_sessions) as [trace [st files]].
  intros Hw. destruct (Hg Hw) as [[_ _ Hk _] _]. cbn [fst] in Hk.
  apply map_eq. intros id. unfold scan_expired. rewrite scan_ends_good; [|done|..].
  - rewrite map_lookup_filter. destruct (st_sessions st !! id) as [s|] eqn:Hs; cbn [mbind option_bind]; [|by destruct (bool_decide _)].
    cbn [snd]. destruct (session_is_expired now (st_ttl_ms st) s) eqn:He.
    + rewrite bool_decide_eq_true_2; [by rewrite option_guard_False|]. apply list_elem_of_fmap. exists s.
      split; [symmetry; by apply Hk|]. apply elem_of_lfilter. split; [|done]. apply elem_of_values. by exists id.
    + rewrite bool_decide_eq_false_2; [by rewrite option_guard_True|].
      intros (s' & -> & [[id' Hs']%elem_of_values He']%elem_of_lfilter)%list_elem_of_fmap.
      rewrite (Hk _ _ Hs'), Hs' in Hs. congruence.
  - assert (NoDup (as_session_id <$> values (st_sessions st))) as Hnd.
    { rewrite keyed_ids by done. unfold keys. rewrite hash_iter_perm. apply NoDup_fst_map_to_list. }
    revert Hnd. unfold expired_sessions. induction (values (st_sessions st)) as [|s l IH]; [done|].
    cbn. intros [Hni Hnd]%NoDup_cons. destruct (session_is_expired _ _ s); [|by apply IH].
    cbn. apply NoDup_cons. split; [|by apply IH]. intros (s' & Heq & [Hs' _]%elem_of_lfilter)%list_elem_of_fmap.
    apply Hni. rewrite Heq. by apply list_elem_of_fmap_2.
  - intros s [[id' Hs]%elem_of_values _]%elem_of_lfilter. by rewrite (Hk _ _ Hs).
Qed.

(** ** From an end to the next start *)

Variable event_to_string : SequencedEvent -> option string.

Lemma history_number n xs e : e ∈ history n xs -> (Z.of_nat n < se_seq e <= Z.of_nat (n + length xs))%Z.
Proof.
  intros [i Hi]%list_elem_of_lookup_1. unfold history in Hi. rewrite list_lookup_imap in Hi.
  destruct (xs !! i) as [x|] eqn:Hx; [|done]. cbn in Hi. injection Hi as <-. apply lookup_lt_Some in Hx. cbn [se_seq]. lia.
Qed.

Lemma history_after xs ys :
  List.filter (fun e => Z.of_nat (length xs) + 1 <? se_seq e)%Z (history 0 xs ++ history (length xs) ys)
  = tail (history (length xs) ys).
Proof.
  rewrite List.filter_app, lfilter_none by (intros e He%history_number; apply Z.ltb_ge; lia). cbn [app].
  destruct ys as [|y ys]; [done|]. rewrite history_cons. cbn [List.filter se_seq tail]. rewrite Z.ltb_irrefl.
  apply lfilter_all. intros e He%history_number. apply Z.ltb_lt. lia.
Qed.

(** The first event after an end is never reported: the answer of an end
    carries the number the next event will get, and a start that passes it as
    the number last seen gets the agent's own events since the end, except that
    next one. *)
Lemma next_start_misses_first_event path interval retention now disk xs ys io agent sid st files n :
  (length xs + length ys <= DEFAULT_EVENT_LOG_CAPACITY)%nat ->
  let '(bus1, disk1) := emit_all event_to_string (with_rotation path interval retention now) disk xs in
  let bus2 := (emit_all event_to_string bus1 disk1 ys).1 in
  (end_session sessions_to_vec io agent sid bus1 st files).1.1 = Ok n ->
  changes_for agent (Some n) bus2 =
    mapM change_entry_from_event
      (List.filter (fun e => bool_decide (event_agent_id (se_event e) = Some agent)) (tail (history (length xs) ys))).
Proof.
  intros Hcap. assert (Z.of_nat (length xs + length ys) < u64_max)%Z as Hsmall.
  { unfold DEFAULT_EVENT_LOG_CAPACITY in Hcap. unfold u64_max, u64_modulus. lia. }
  pose proof (emit_all_holds event_to_string _ _ _ disk xs capacity_positive (new_bus_holds path interval retention now)) as H1.
  destruct (emit_all event_to_string (with_rotation path interval retention now) disk xs) as [bus1 disk1].
  destruct H1 as [H1 _]; [cbn; lia|]. cbn [app length fst] in H1. intros bus2 Hn.
  assert (length (history 0 xs) = length xs) as Hl1 by apply length_imap.
  assert (length (history (length xs) ys) = length ys) as Hl2 by apply length_imap.
  assert (n = Z.of_nat (length xs) + 1)%Z as ->.
  { revert Hn. unfold end_session. destruct (finish_persisted sessions_to_vec io agent sid st files) as [[[s|e] st'] f']; cbn; [|done].
    intros [= <-]. unfold current_seq. by rewrite (bh_next _ _ _ H1), Hl1. }
  destruct (emit_all_holds event_to_string _ _ _ disk1 ys capacity_positive H1) as [[Hr Hn2] _]; [by rewrite Hl1|].
  fold bus2 in Hr, Hn2. rewrite Hl1 in Hr, Hn2. unfold changes_for, current_seq, events_since.
  change (default (bus_next_seq bus2) (Some (Z.of_nat (length xs) + 1)%Z)) with (Z.of_nat (length xs) + 1)%Z. cbn zeta.
  rewrite Hn2, length_app, Hl1, Hl2. rewrite (ring_since _ _ _ _ Hr) by lia.
  rewrite last_n_all by (rewrite length_app; lia). rewrite history_after.
  destruct (_ <? _)%Z eqn:Hlt; [done|]. apply Z.ltb_ge in Hlt. by destruct ys; [|cbn in Hlt; lia].
Qed.
End props.

(** ** An instance *)

#[export] Instance ActiveSession_eq_dec : EqDecision ActiveSession.
Proof. solve_decision. Defined.
#[export] Instance ActiveSession_countable : Countable ActiveSession.
Proof.
  refine (inj_countable' (fun s => (as_session_id s, as_agent_id s, as_created_at_ms s, as_last_active_ms s, as_start_seq s,
      as_current_intent s)) (fun '(a, b, c, d, e, f) => mkSession a b c d e f) _).
  by intros [].
Defined.

Definition sessions_text (m : gmap string ActiveSession) : option string := Some (text_encode m).
Definition text_sessions (s : string) : option (gmap string ActiveSession) := text_decode s.
Lemma text_codec m : exists s, sessions_text m = Some s /\ text_sessions s = Some m.
Proof. eexists. split; [done|]. apply text_decode_encode. Qed.

Definition good_io : PermissionIo := mkPermissionIo true true true.
Definition no_rename : PermissionIo := mkPermissionIo true false true.
Definition quiet_bus : EventBus := with_rotation true 0 4 0.

(** The second start and the first end are not acknowledged. *)
Definition some_session_ops : list SessionOp :=
  [So_Start 10 good_io "s1" "alice" None quiet_bus; So_Start 20 no_rename "s2" "bob" None quiet_bus;
   So_End no_rename "alice" "s1" quiet_bus; So_End good_io "bob" "s1" quiet_bus; So_Restart true true].
Definition some_session_run := session_run sessions_text text_sessions (fun _ => None) (fun _ => None) some_session_ops no_sessions.

Lemma some_sessions_well_run : well_run ∅ some_session_run.1.
Proof. by vm_compute. Qed.
Lemma some_sessions_open : foldl spec_step ∅ some_session_run.1 = {[ "s1" := ("alice", 10%Z, 1%Z) ]}.
Proof. by vm_compute. Qed.

Lemma sessions_follow_acknowledgements_witness :
  core <$> st_sessions some_session_run.2.1 = {[ "s1" := ("alice", 10%Z, 1%Z) ]} /\
  core <$> st_sessions (session_restore text_sessions (fun _ => None) true true some_session_run.2.2) = {[ "s1" := ("alice", 10%Z, 1%Z) ]}.
Proof.
  pose proof (sessions_follow_acknowledgements sessions_text text_sessions (fun _ => None) (fun _ => None) text_codec some_session_ops) as Ht.
  fold some_session_run in Ht. pose proof some_sessions_well_run as Hw. pose proof some_sessions_open as Hs.
  destruct some_session_run as [trace [st files]]. cbn [fst snd] in *. destruct (Ht Hw) as (_ & Hm & Hf).
  rewrite Hs in Hm, Hf. split; [exact Hm|exact Hf].
Defined.

Lemma scan_ends_exactly_expired_witness :
  st_sessions (scan_expired sessions_text 1800011 [] quiet_bus some_session_run.2.1 some_session_run.2.2).1 =
    filter (fun kv => session_is_expired 1800011 (st_ttl_ms some_session_run.2.1) kv.2 = false) (st_sessions some_session_run.2.1).
Proof.
  pose proof (scan_ends_exactly_expired sessions_text text_sessions (fun _ => None) (fun _ => None) text_codec some_session_ops 1800011 quiet_bus) as Ht.
  fold some_session_run in Ht. pose proof some_sessions_well_run as Hw.
  destruct some_session_run as [trace [st files]]. exact (Ht Hw).
Defined.

(** Alice ends her session, then a memory of hers is stored: her next start
    does not hear of it. *)
Lemma next_start_misses_first_event_witness :
  changes_for "alice" (Some 1%Z) (emit_all toy_print quiet_bus (mkDisk None ∅)
    [(mkEmit 1 1 1 Rotate_Done Append_Done, MemoryStored "alice" "working")]).1 = Some [].
Proof.
  exact (next_start_misses_first_event sessions_text toy_print true 0 4 0 (mkDisk None ∅) []
    [(mkEmit 1 1 1 Rotate_Done Append_Done, MemoryStored "alice" "working")] good_io "alice" "s1"
    (with_sessions {[ "s1" := session_new 10 "s1" "alice" 1 ]} session_store_new) (mkSessionFiles None None) 1
    ltac:(apply Nat.leb_le; by vm_compute) eq_refl).
Defined.
