(* ===== verification/Profiles.v ===== *)
(** * Agent profiles ([src/src/kernel/ops/session.rs],
      [src/src/kernel/ops/prefetch_profile.rs])

    What the prefetcher learns of an agent: which intent follows which, which
    objects it uses and what it prefers; the key of an intent; the store of
    profiles with its feedback and its file. *)

From stdpp Require Import base gmap strings list pretty sorting.
From S2P Require Import Prelude Permission Text Float32 CostLedger.

Definition MIN_TAG_LENGTH : nat := 2.

Record PreferenceFact := mkPreference {
  pr_category : string;
  pr_preference : string;
  pr_confidence : f32;
  pr_updated_at_ms : Z;
}.

Record AgentProfile := mkProfile {
  ap_agent_id : string;
  ap_intent_transitions : gmap string (list (string * Z));
  ap_hot_objects : list (string * Z);
  ap_updated_at_ms : Z;
  ap_last_intent : option string;
  ap_preference_facts : list PreferenceFact;
}.

Definition profile_new (now : Z) (agent_id : string) : AgentProfile := mkProfile agent_id ∅ [] now None [].

Definition with_transitions (m : gmap string (list (string * Z))) (now : Z) (p : AgentProfile) : AgentProfile :=
  mkProfile (ap_agent_id p) m (ap_hot_objects p) now (ap_last_intent p) (ap_preference_facts p).
Definition with_hot (hot : list (string * Z)) (now : Z) (p : AgentProfile) : AgentProfile :=
  mkProfile (ap_agent_id p) (ap_intent_transitions p) hot now (ap_last_intent p) (ap_preference_facts p).
Definition with_last_intent (i : option string) (p : AgentProfile) : AgentProfile :=
  mkProfile (ap_agent_id p) (ap_intent_transitions p) (ap_hot_objects p) (ap_updated_at_ms p) i (ap_preference_facts p).
Definition with_preferences (facts : list PreferenceFact) (now : Z) (p : AgentProfile) : AgentProfile :=
  mkProfile (ap_agent_id p) (ap_intent_transitions p) (ap_hot_objects p) now (ap_last_intent p) facts.
Definition with_time (now : Z) (p : AgentProfile) : AgentProfile := with_hot (ap_hot_objects p) now p.

(** ** Counting tables *)

(** [iter_mut().find(|(k, _)| k == key)] incremented, or the key pushed with 1;
    the count wraps at its width. *)
Fixpoint bump (modulus : Z) (key : string) (l : list (string * Z)) : list (string * Z) :=
  match l with
  | [] => [(key, 1%Z)]
  | (k, n) :: l' => if str_eqb k key then (k, ((n + 1) mod modulus)%Z) :: l' else (k, n) :: bump modulus key l'
  end.

(** Successors: by descending count, then by key. *)
Definition successor_before (y x : string * Z) : bool := (x.2 <? y.2)%Z || ((x.2 =? y.2)%Z && String.ltb y.1 x.1).
(** Hot objects: by descending count. *)
Definition hotter (y x : string * Z) : bool := (x.2 <? y.2)%Z.

Definition record_successor (next : string) (l : list (string * Z)) : list (string * Z) :=
  take 10 (stable_sort successor_before (bump u32_modulus next l)).

Definition record_intent (now : Z) (tag_key : string) (next_tag_key : option string) (p : AgentProfile) : AgentProfile :=
  match next_tag_key with
  | Some next =>
      with_transitions
        (<[tag_key := record_successor next (default [] (ap_intent_transitions p !! tag_key))]> (ap_intent_transitions p)) now p
  | None => with_time now p
  end.

Definition predict_next (p : AgentProfile) (tag_key : string) : option string :=
  fst <$> (ap_intent_transitions p !! tag_key ≫= head).

Definition record_cid (cid : string) (hot : list (string * Z)) : list (string * Z) :=
  take 50 (stable_sort hotter (bump u64_modulus cid hot)).
Definition record_cid_usage (now : Z) (cid : string) (p : AgentProfile) : AgentProfile :=
  with_hot (record_cid cid (ap_hot_objects p)) now p.
Definition record_cid_usages (now : Z) (cids : list string) (p : AgentProfile) : AgentProfile :=
  foldl (fun p cid => record_cid_usage now cid p) p cids.

Fixpoint lower (cid : string) (l : list (string * Z)) : list (string * Z) :=
  match l with
  | [] => []
  | (k, n) :: l' => if str_eqb k cid then (k, u64_saturating_sub n 1) :: l' else (k, n) :: lower cid l'
  end.
Definition decay (cid : string) (hot : list (string * Z)) : list (string * Z) :=
  take 50 (stable_sort hotter (List.filter (fun x => 0 <? x.2)%Z (lower cid hot))).
Definition decay_object (now : Z) (cid : string) (p : AgentProfile) : AgentProfile :=
  with_hot (decay cid (ap_hot_objects p)) now p.

(** ** Preferences *)

Definition f32_ge (x y : f32) : bool := f32_gt x y || f32_eqb x y.

Fixpoint set_preference (now : Z) (category preference : string) (confidence : f32) (l : list PreferenceFact)
    : list PreferenceFact :=
  match l with
  | [] => [mkPreference category preference confidence now]
  | fact :: l' =>
      if str_eqb (pr_category fact) category then
        (if f32_ge confidence (pr_confidence fact) then mkPreference (pr_category fact) preference confidence now else fact) :: l'
      else fact :: set_preference now category preference confidence l'
  end.
(** Confidences are numbers: with a NaN the comparison is no order and the sort is unspecified. *)
Definition add_preference (now : Z) (category preference : string) (confidence : f32) (p : AgentProfile) : AgentProfile :=
  with_preferences (take 50 (stable_sort (fun y x => f32_gt (pr_confidence y) (pr_confidence x))
    (set_preference now category preference confidence (ap_preference_facts p)))) now p.
Definition preference_keywords (min_confidence : f32) (p : AgentProfile) : list string :=
  pr_preference <$> List.filter (fun fact => f32_ge (pr_confidence fact) min_confidence) (ap_preference_facts p).

(** ** The key of an intent *)

Inductive IntentKeyStrategy : Type :=
  | TagExtraction
  | EmbeddingCluster (bucket_count : Z)
  | Strategy_Disabled.

Definition default_strategy : IntentKeyStrategy := TagExtraction.
Definition requires_embedding (s : IntentKeyStrategy) : bool := match s with EmbeddingCluster _ => true | _ => false end.
Definition strategy_is_disabled (s : IntentKeyStrategy) : bool := match s with Strategy_Disabled => true | _ => false end.

Section profiles.
Context `{HashIter}.
(** [str::to_lowercase] *)
Variable to_lowercase : string -> string.
(** [serde_json] at the map of profiles. *)
Variable profiles_to_string : gmap string AgentProfile -> option string.
Variable profiles_from_str : string -> option (gmap string AgentProfile).

Definition extract_tag_key (s : IntentKeyStrategy) (intent : string) (known_tags : list string) : option string :=
  match s with
  | TagExtraction =>
      let intent_lower := to_lowercase intent in
      let matched := List.filter (fun tag =>
        let t := to_lowercase tag in
        (MIN_TAG_LENGTH <=? String.length t)%nat && opt_is_some (String.index 0 t intent_lower)) known_tags in
      match matched with
      | [] => None
      | _ => Some (join_with "|" (take 5 (dedup (sort_strings matched))))
      end
  | EmbeddingCluster _ | Strategy_Disabled => None
  end.

(** ** The store *)

Definition PREFETCH_CONFIDENCE_THRESHOLD : f32 := f32_div (f32_of_Z 1) (f32_of_Z 2).
Definition MAX_PROFILE_HISTORY : nat := N.to_nat 100.

Record IntentFeedbackEntry := mkFeedback {
  fb_normalized_intent : string;
  fb_used_cids : list string;
  fb_unused_cids : list string;
  fb_recorded_at_ms : Z;
}.

Record AgentProfileStore := mkProfileStore {
  ps_profiles : gmap string AgentProfile;
  ps_strategy : IntentKeyStrategy;
}.
Definition profile_store_new (s : IntentKeyStrategy) : AgentProfileStore := mkProfileStore ∅ s.

(** [entry(agent_id).or_insert_with(...)] *)
Definition profile_of (now : Z) (agent_id : string) (st : AgentProfileStore) : AgentProfile :=
  default (profile_new now agent_id) (ps_profiles st !! agent_id).
Definition put_profile (agent_id : string) (p : AgentProfile) (st : AgentProfileStore) : AgentProfileStore :=
  mkProfileStore (<[agent_id := p]> (ps_profiles st)) (ps_strategy st).

Definition get_or_create (now : Z) (agent_id : string) (st : AgentProfileStore) : AgentProfile * AgentProfileStore :=
  let p := profile_of now agent_id st in (p, put_profile agent_id p st).

(** The best successor of [tag_key] when its share is high enough; the sum of the counts wraps. *)
Definition confident_next (p : AgentProfile) (tag_key : string) : option string :=
  next ← predict_next p tag_key;
  succs ← ap_intent_transitions p !! tag_key;
  '(_, count) ← head succs;
  let total := (foldl (fun a x => a + x.2) 0 succs mod u32_modulus)%Z in
  if f32_ge (f32_div (f32_of_Z count) (f32_of_Z (Z.max total 1))) PREFETCH_CONFIDENCE_THRESHOLD then Some next else None.

(** The first hundred transitions the hash map yields. *)
Definition trim_history (p : AgentProfile) : AgentProfile :=
  if (MAX_PROFILE_HISTORY <? size (ap_intent_transitions p))%nat
  then with_transitions (list_to_map (take MAX_PROFILE_HISTORY (hash_iter (ap_intent_transitions p)))) (ap_updated_at_ms p) p
  else p.

Definition record_intent_complete (now : Z) (agent_id : string) (intent_tag_key next_intent_tag_key : option string)
    (st : AgentProfileStore) : option string * AgentProfileStore :=
  let p := profile_of now agent_id st in
  let '(next, p) := match intent_tag_key with
    | Some tag_key => let p := record_intent now tag_key next_intent_tag_key p in (confident_next p tag_key, p)
    | None => (None, p)
    end in
  match next with
  | Some n => (Some n, put_profile agent_id p st)
  | None => (None, put_profile agent_id (trim_history p) st)
  end.

Definition store_record_cid_usage (now : Z) (agent_id : string) (cids : list string) (st : AgentProfileStore) : AgentProfileStore :=
  put_profile agent_id (record_cid_usages now cids (profile_of now agent_id st)) st.
Definition record_execution_time (now : Z) (agent_id : string) (st : AgentProfileStore) : AgentProfileStore :=
  put_profile agent_id (with_time now (profile_of now agent_id st)) st.

Definition feedback_profile (now : Z) (feedback : IntentFeedbackEntry) (p : AgentProfile) : AgentProfile :=
  let p := record_cid_usages now (fb_used_cids feedback) p in
  let p := match ap_last_intent p with
           | Some prev => record_intent now prev (Some (fb_normalized_intent feedback)) p
           | None => p
           end in
  let p := with_last_intent (Some (fb_normalized_intent feedback)) p in
  foldl (fun p cid => decay_object now cid p) p (fb_unused_cids feedback).
Definition apply_feedback (now : Z) (agent_id : string) (feedback : IntentFeedbackEntry) (st : AgentProfileStore)
    : AgentProfileStore := put_profile agent_id (feedback_profile now feedback (profile_of now agent_id st)) st.

Definition profiles_persist_to_dir (io : PermissionIo) (file : option string) (st : AgentProfileStore) : bool * option string :=
  match profiles_to_string (ps_profiles st) with
  | None => (false, file)
  | Some json => atomic_write_bytes io file json
  end.

(** [None] in [file] is no file; [readable] is whether it can be read. The
    result is the number of profiles, [None] an error. *)
Definition profiles_restore_from_dir (readable : bool) (file : option string) (st : AgentProfileStore)
    : option nat * AgentProfileStore :=
  match file with
  | None => (Some 0%nat, st)
  | Some json =>
      match (if readable then profiles_from_str json else None) with
      | None => (None, st)
      | Some loaded =>
          let st := mkProfileStore (loaded ∪ ps_profiles st) (ps_strategy st) in (Some (size (ps_profiles st)), st)
      end
  end.
End profiles.

(** * What a profile learns

    The successors of an intent are counted exactly while there are at most ten
    of them; a full table of hot objects admits no new one. *)

(** ** The orders *)

Lemma ltb_leb (a b : string) : String.ltb a b = negb (String.leb b a).
Proof. unfold String.ltb, String.leb. rewrite (String.compare_antisym a b). by destruct (String.compare b a). Qed.

Lemma successor_in_order (a b : string * Z) :
  in_order successor_before a b <-> (b.2 < a.2)%Z \/ (b.2 = a.2 /\ String.le a.1 b.1).
Proof.
  unfold in_order, successor_before, String.le. rewrite orb_false_iff, andb_false_iff, Z.ltb_ge, Z.eqb_neq, ltb_leb, negb_false_iff, Is_true_true.
  destruct (Z.lt_trichotomy a.2 b.2) as [?|[?|?]]; naive_solver lia.
Qed.

Lemma successors_sorted l : StronglySorted (in_order successor_before) (stable_sort successor_before l).
Proof.
  apply stable_sort_sorted.
  - intros a b. unfold successor_before. rewrite orb_true_iff, orb_false_iff, andb_true_iff, andb_false_iff.
    rewrite !Z.ltb_lt, !Z.ltb_ge, !Z.eqb_eq, !Z.eqb_neq, !ltb_leb, negb_true_iff, negb_false_iff.
    intros [?|[? Hl]]; [lia|]. split; [lia|]. right. destruct (String.leb_total a.1 b.1); congruence.
  - intros a b c. rewrite !successor_in_order. intros [?|[? H1]] [?|[? H2]]; [left; lia..|].
    right. split; [lia|]. by etrans.
Qed.

(** ** Counting *)

Section bump.
Variable modulus : Z.

Lemma bump_new key l : key ∉ l.*1 -> bump modulus key l = l ++ [(key, 1%Z)].
Proof.
  induction l as [|[k n] l IH]; intros Hn; [done|]. cbn in Hn. apply not_elem_of_cons in Hn as [Hne Hn]. cbn.
  unfold str_eqb. rewrite bool_decide_eq_false_2 by done. by rewrite IH.
Qed.

Lemma bump_keys key l x : x ∈ (bump modulus key l).*1 <-> x = key \/ x ∈ l.*1.
Proof.
  induction l as [|[k n] l IH]; cbn; [by rewrite list_elem_of_singleton, elem_of_nil; naive_solver|].
  unfold str_eqb. destruct (bool_decide_reflect (k = key)) as [-> |Hne]; cbn; rewrite !elem_of_cons; [naive_solver|].
  rewrite IH. naive_solver.
Qed.

Lemma bump_nodup key l : NoDup l.*1 -> NoDup (bump modulus key l).*1.
Proof.
  induction l as [|[k n] l IH]; cbn; [intros _; apply NoDup_singleton|].
  rewrite NoDup_cons. intros [Hk Hl]. unfold str_eqb. destruct (bool_decide_reflect (k = key)) as [-> |Hne]; cbn.
  - by apply NoDup_cons.
  - apply NoDup_cons. split; [|by apply IH]. rewrite bump_keys. naive_solver.
Qed.

Lemma bump_map key l : (1 < modulus)%Z -> NoDup l.*1 ->
  list_to_map (bump modulus key l) =
    <[key := ((default 0 ((list_to_map l : gmap string Z) !! key) + 1) mod modulus)%Z]> (list_to_map l : gmap string Z).
Proof.
  intros Hm. induction l as [|[k n] l IH]; cbn.
  - intros _. rewrite lookup_empty. cbn. by rewrite Z.mod_small by lia.
  - rewrite NoDup_cons. intros [Hk Hl]. unfold str_eqb. destruct (bool_decide_reflect (k = key)) as [-> |Hne]; cbn.
    + by rewrite lookup_insert_eq, insert_insert_eq.
    + by rewrite IH, lookup_insert_ne, insert_insert_ne by done.
Qed.
End bump.

(** ** Successors *)

(** How often each key was recorded. *)
Definition tally (h : list string) : gmap string Z :=
  foldl (fun m k => <[k := (default 0 (m !! k) + 1)%Z]> m) ∅ h.

Lemma tally_snoc h k : tally (h ++ [k]) = <[k := (default 0 (tally h !! k) + 1)%Z]> (tally h).
Proof. unfold tally. by rewrite foldl_app. Qed.

Lemma tally_nil h : tally h = ∅ -> h = [].
Proof.
  destruct h as [|x h _] using rev_ind; [done|]. rewrite tally_snoc. intros Hm. by apply (insert_non_empty (M := gmap string)) in Hm.
Qed.

Lemma tally_bound h k n : tally h !! k = Some n -> (1 <= n <= Z.of_nat (length h))%Z /\ k ∈ h.
Proof.
  revert k n. induction h as [|x h IH] using rev_ind; intros k n; [done|]. rewrite tally_snoc, length_app. cbn [length].
  intros [[<- <-]|[Hne Hl]]%lookup_insert_Some.
  - destruct (tally h !! x) as [m|] eqn:Hx; cbn; [apply IH in Hx|]; (split; [lia | set_solver]).
  - apply IH in Hl as [Hl Hk]. split; [lia | set_solver].
Qed.

Lemma tally_default h k : (0 <= default 0 (tally h !! k) <= Z.of_nat (length h))%Z.
Proof. destruct (tally h !! k) as [n|] eqn:Hk; cbn; [apply tally_bound in Hk|]; lia. Qed.

Definition distinct (h : list string) : nat := size (list_to_set h : gset string).

Lemma nodup_length_distinct l h : NoDup l -> (forall x, x ∈ l -> x ∈ h) -> (length l <= distinct h)%nat.
Proof.
  intros Hn Hi. unfold distinct. rewrite <-(size_list_to_set (C := gset string) l Hn). apply subseteq_size.
  intros x. rewrite !elem_of_list_to_set. apply Hi.
Qed.

Record counts (h : list string) (l : list (string * Z)) : Prop := {
  cn_nodup : NoDup l.*1;
  cn_map : list_to_map l = tally h;
  cn_sorted : StronglySorted (in_order successor_before) l;
}.

Lemma record_successor_counts h next l :
  (distinct (h ++ [next]) <= 10)%nat -> (Z.of_nat (length (h ++ [next])) < u32_modulus)%Z ->
  counts h l -> counts (h ++ [next]) (record_successor next l).
Proof.
  intros Hd Hlen [Hn Hm Hs]. unfold record_successor. set (s := stable_sort successor_before (bump u32_modulus next l)).
  assert (s ≡ₚ bump u32_modulus next l) as Hp by apply stable_sort_perm.
  assert (NoDup s.*1) as Hns by (rewrite Hp; by apply bump_nodup).
  assert (list_to_map s = tally (h ++ [next])) as Hms.
  { rewrite (list_to_map_proper s (bump u32_modulus next l)) by done.
    rewrite bump_map, Hm, tally_snoc by done. f_equal. apply Z.mod_small.
    pose proof (tally_default h next). rewrite length_app in Hlen. cbn in Hlen. lia. }
  assert (length s <= 10)%nat as Hl.
  { rewrite <-(length_fmap fst). etrans; [|exact Hd]. apply nodup_length_distinct; [done|].
    intros x [[k n] [-> Hx]]%list_elem_of_fmap. apply elem_of_list_to_map_1 in Hx; [|done].
    rewrite Hms in Hx. by apply tally_bound in Hx as [_ ?]. }
  rewrite take_ge by done. split; [done..|]. apply successors_sorted.
Qed.

(** The records of one key. *)
Definition record_all (now : Z) (tag : string) (h : list string) (p : AgentProfile) : AgentProfile :=
  foldl (fun p next => record_intent now tag (Some next) p) p h.

Lemma distinct_app_l h x : (distinct h <= distinct (h ++ [x]))%nat.
Proof. unfold distinct. apply (subseteq_size (C := gset string)). intros y. rewrite !elem_of_list_to_set. set_solver. Qed.

Lemma record_all_counts now tag h p :
  ap_intent_transitions p !! tag = None -> (distinct h <= 10)%nat -> (Z.of_nat (length h) < u32_modulus)%Z ->
  counts h (default [] (ap_intent_transitions (record_all now tag h p) !! tag)).
Proof.
  intros Hp. induction h as [|x h IH] using rev_ind; intros Hd Hl.
  - cbn. rewrite Hp. split; constructor.
  - unfold record_all. rewrite foldl_app. cbn [foldl]. fold (record_all now tag h p).
    cbn [record_intent with_transitions ap_intent_transitions]. rewrite lookup_insert_eq. cbn [default from_option].
    apply record_successor_counts; [done..|]. apply IH; [pose proof (distinct_app_l h x); lia|].
    rewrite length_app in Hl. cbn in Hl. lia.
Qed.

(** A prediction is the most frequent successor: an intent followed by at
    most ten different ones has each of them counted exactly, and the predicted
    next is one recorded most often, the first of those in order; there is a
    prediction as soon as one is recorded. *)
Lemma predict_next_most_frequent now tag h p :
  ap_intent_transitions p !! tag = None -> (distinct h <= 10)%nat -> (Z.of_nat (length h) < u32_modulus)%Z ->
  let p' := record_all now tag h p in
  list_to_map (default [] (ap_intent_transitions p' !! tag)) = tally h /\
  (predict_next p' tag = None <-> h = []) /\
  forall k, predict_next p' tag = Some k ->
    exists n, tally h !! k = Some n /\
      forall k' n', tally h !! k' = Some n' -> (n' < n)%Z \/ (n' = n /\ String.le k k').
Proof.
  intros Hp Hd Hl p'. destruct (record_all_counts now tag h p Hp Hd Hl) as [Hn Hm Hs]. fold p' in Hn, Hm, Hs.
  split; [done|]. unfold predict_next.
  destruct (ap_intent_transitions p' !! tag) as [[|[k n] l]|] eqn:Ht; cbn [default from_option mbind option_bind head fmap option_fmap option_map] in *.
  - split; [|done]. split; [|done]. intros _. by apply tally_nil.
  - split; [split; [done|]; intros ->; by destruct (insert_non_empty (M := gmap string) _ _ _ Hm)|].
    intros k' [= <-]. exists n. split; [rewrite <-Hm; apply lookup_insert_eq|].
    intros k' n' Hk'. rewrite <-Hm in Hk'. apply elem_of_list_to_map_2, elem_of_cons in Hk' as [[= -> ->]|Hk']; [by right|].
    inversion Hs as [|? ? _ Hall]; subst. rewrite Forall_forall in Hall. by apply Hall, successor_in_order in Hk'.
  - split; [|done]. split; [|done]. intros _. by apply tally_nil.
Qed.

(** ** Hot objects *)

Lemma record_cid_full cid hot :
  length hot = 50%nat -> StronglySorted (in_order hotter) hot -> Forall (fun x => 1 <= x.2)%Z hot -> cid ∉ hot.*1 ->
  record_cid cid hot = hot.
Proof.
  intros Hl Hs Hc Hn. unfold record_cid. rewrite bump_new, stable_sort_id by (done ||
    (apply StronglySorted_app; split_and!; [|done|by repeat constructor]; intros x y Hx ->%list_elem_of_singleton;
     rewrite Forall_forall in Hc; apply Hc in Hx; unfold in_order, hotter; cbn; apply Z.ltb_ge; lia)).
  rewrite take_app_le by lia. by rewrite take_ge by lia.
Qed.

(** A full table of hot objects is closed: once fifty objects are held,
    however often other objects are used, none of them enters it. *)
Lemma hot_objects_closed now cids p :
  length (ap_hot_objects p) = 50%nat -> StronglySorted (in_order hotter) (ap_hot_objects p) ->
  Forall (fun x => 1 <= x.2)%Z (ap_hot_objects p) -> (forall cid, cid ∈ cids -> cid ∉ (ap_hot_objects p).*1) ->
  ap_hot_objects (record_cid_usages now cids p) = ap_hot_objects p.
Proof.
  revert p. induction cids as [|cid cids IH]; intros p Hl Hs Hc Hn; [done|]. unfold record_cid_usages. cbn [foldl].
  fold (record_cid_usages now cids (record_cid_usage now cid p)).
  assert (ap_hot_objects (record_cid_usage now cid p) = ap_hot_objects p) as He
    by (apply record_cid_full; [done..|]; apply Hn; by left).
  rewrite IH; rewrite ?He; [done..|]. intros c Hcid. apply Hn. by right.
Qed.

(** ** At concrete inputs *)

Lemma predict_next_most_frequent_witness :
  predict_next (record_all 5 "auth" ["test"; "doc"; "test"; "doc"] (profile_new 0 "a")) "auth" = Some "doc" /\
  exists n, tally ["test"; "doc"; "test"; "doc"] !! "doc" = Some n /\
    forall k' n', tally ["test"; "doc"; "test"; "doc"] !! k' = Some n' -> (n' < n)%Z \/ (n' = n /\ String.le "doc" k').
Proof.
  split; [by vm_compute|].
  destruct (predict_next_most_frequent 5 "auth" ["test"; "doc"; "test"; "doc"] (profile_new 0 "a")) as (_ & _ & Hk);
    [done | by vm_compute; lia | by vm_compute | by apply Hk; vm_compute].
Defined.

(** Fifty objects, each used once. *)
Definition fifty : list (string * Z) := (fun i => ("o" +:+ pretty i, 1%Z)) <$> seq 0 50.

Lemma hot_objects_closed_witness :
  ap_hot_objects (record_cid_usages 9 ["new"; "new"; "new"] (with_hot fifty 0 (profile_new 0 "a"))) = fifty.
Proof.
  apply (hot_objects_closed 9 ["new"; "new"; "new"] (with_hot fifty 0 (profile_new 0 "a"))); cbn [with_hot ap_hot_objects].
  - by vm_compute.
  - assert (forall l, Forall (fun x => x.2 = 1%Z) l -> StronglySorted (in_order hotter) l) as Hs.
    { induction 1 as [|x l Hx Hl IH]; constructor; [done|]. eapply Forall_impl; [exact Hl|]. intros y Hy. unfold in_order, hotter.
      rewrite Hx, Hy. done. }
    apply Hs, Forall_fmap, Forall_true. done.
  - apply Forall_fmap, Forall_true. done.
  - intros cid Hc [[k n] [-> Hk]]%list_elem_of_fmap. apply list_elem_of_fmap in Hk as (i & [= -> ->] & _). cbn in Hc. set_solver.
Defined.

(** With eleven successors the last in order is dropped and counted anew each
    time: however often it follows, it is not predicted. *)
Lemma eleventh_successor_lost :
  let first := ["b"; "c"; "d"; "e"; "f"; "g"; "h"; "i"; "j"; "k"] in
  predict_next (record_all 5 "auth" (first ++ ["z"; "z"; "z"; "z"; "z"]) (profile_new 0 "a")) "auth" = Some "b".
Proof. by vm_compute. Qed.
