(* ===== verification/SearchIndex.v ===== *)
(** * Search indexes ([src/src/fs/search/mod.rs], [memory.rs], [bm25.rs])

    The filter of a search and the record of its execution; what a vector index
    promises, with the in-memory one that keeps it; the keyword index over the
    [bm25] crate's engine, a parameter. *)

From stdpp Require Import base gmap strings list sorting.
From S2P Require Import Prelude CircuitBreaker Text Float32 MemoryModel LedgerModel Wire ObjectStorage AgentAuth GraphModel Graph GraphStore GraphSearch.

(** ** Executions *)

Inductive SearchPath : Type :=
  | Path_Bm25 | Path_Vector | Path_TagFallback | Path_KnowledgeGraphTemporal | Path_KnowledgeGraphPpr
  | Path_KnowledgeGraphPathDiscovery | Path_KnowledgeGraphCausal | Path_Reranker.
#[export] Instance SearchPath_eq_dec : EqDecision SearchPath.
Proof. solve_decision. Defined.

Inductive SearchStageDegradation : Type := Degraded_ExecutionFailed.

Record SearchPathExecution := mkPathExecution {
  pe_path : SearchPath;
  pe_candidates : nat;
  pe_accepted : nat;
  pe_degradation : option SearchStageDegradation;
}.

Inductive EmbeddingDegradation : Type :=
  | Degraded_ProviderUnavailable | Degraded_ModelUnavailable | Degraded_InputRejected | Degraded_EmbeddingFailed.

Definition degradation_from (e : EmbedError) : EmbeddingDegradation :=
  match e with
  | Http | ServerUnavailable _ | SubprocessUnavailable => Degraded_ProviderUnavailable
  | ModelNotFound _ => Degraded_ModelUnavailable
  | InputTooLarge _ => Degraded_InputRejected
  | Ollama _ | Api _ | Runtime | Subprocess _ => Degraded_EmbeddingFailed
  end.

Inductive EmbeddingQueryState : Type :=
  | Query_NotProbed (provider : string)
  | Query_Succeeded (provider : string)
  | Query_Degraded (provider : string) (reason : EmbeddingDegradation).

Record SearchExecution := mkExecution { se_paths : list SearchPathExecution; se_embedding : EmbeddingQueryState }.

Definition execution_new (provider : string) : SearchExecution := mkExecution [] (Query_NotProbed provider).

(** The first entry of the path changed, or a new one at the end. *)
Fixpoint on_path (path : SearchPath) (change : SearchPathExecution -> SearchPathExecution) (new : SearchPathExecution)
    (l : list SearchPathExecution) : list SearchPathExecution :=
  match l with
  | [] => [new]
  | x :: l' => if bool_decide (pe_path x = path) then change x :: l' else x :: on_path path change new l'
  end.
Definition record_path (path : SearchPath) (candidates accepted : nat) (e : SearchExecution) : SearchExecution :=
  mkExecution (on_path path
    (fun x => mkPathExecution (pe_path x) (pe_candidates x + candidates) (pe_accepted x + accepted) (pe_degradation x))
    (mkPathExecution path candidates accepted None) (se_paths e)) (se_embedding e).
Definition record_degradation (path : SearchPath) (d : SearchStageDegradation) (e : SearchExecution) : SearchExecution :=
  mkExecution (on_path path (fun x => mkPathExecution (pe_path x) (pe_candidates x) (pe_accepted x) (Some d))
    (mkPathExecution path 0 0 (Some d)) (se_paths e)) (se_embedding e).

(** ** Filters *)

Record SearchIndexMeta := mkIndexMeta {
  im_cid : string;
  im_tags : list string;
  im_snippet : string;
  im_content_type : string;
  im_created_at : Z;
  im_owner_role : string;
  im_namespace : string;
  im_scope : ObjectScope;
  im_memory_type : option MemoryType;
}.

Record SearchHit := mkHit { hit_cid : string; hit_score : f32; hit_meta : SearchIndexMeta }.

Record SearchAccess := mkSearchAccess { sa_role_id : string; sa_namespace : string; sa_can_read_any : bool }.

Record SearchFilter := mkFilter {
  sf_require_tags : list string;
  sf_exclude_tags : list string;
  sf_content_type : option string;
  sf_since : option Z;
  sf_until : option Z;
  sf_memory_type : option MemoryType;
  sf_access : option SearchAccess;
}.

Definition default_filter : SearchFilter := mkFilter [] [] None None None None None.

#[export] Instance ObjectScope_eq_dec : EqDecision ObjectScope.
Proof. solve_decision. Defined.
#[export] Instance MemoryType_dec : EqDecision MemoryType.
Proof. solve_decision. Defined.

(** [x as i64] of an unsigned one. *)
Definition as_i64 (x : Z) : Z := if (x <? 2 ^ 63)%Z then x else (x - 2 ^ 64)%Z.

(** May the access see an entry? *)
Definition access_allows (a : SearchAccess) (meta : SearchIndexMeta) : bool :=
  str_eqb (im_namespace meta) (sa_namespace a) &&
  (sa_can_read_any a || negb (bool_decide (im_scope meta = ObjectScope_Private)) || str_eqb (im_owner_role meta) (sa_role_id a)).

Definition filter_matches (f : SearchFilter) (meta : SearchIndexMeta) : bool :=
  none_or (sf_access f) (fun a => access_allows a meta) &&
  forallb (fun t => str_mem t (im_tags meta)) (sf_require_tags f) &&
  negb (existsb (fun t => str_mem t (im_tags meta)) (sf_exclude_tags f)) &&
  none_or (sf_content_type f) (fun ct => str_eqb (im_content_type meta) ct) &&
  none_or (sf_since f) (fun s => negb (as_i64 (im_created_at meta) <? s)%Z) &&
  none_or (sf_until f) (fun u => negb (u <? as_i64 (im_created_at meta))%Z) &&
  none_or (sf_memory_type f) (fun mt => bool_decide (im_memory_type meta = Some mt)).

Definition with_filter_time (since until : Z) (f : SearchFilter) : SearchFilter :=
  mkFilter (sf_require_tags f) (sf_exclude_tags f) (sf_content_type f) (Some since) (Some until) (sf_memory_type f) (sf_access f).
Definition with_access (role_id namespace : string) (can_read_any : bool) (f : SearchFilter) : SearchFilter :=
  mkFilter (sf_require_tags f) (sf_exclude_tags f) (sf_content_type f) (sf_since f) (sf_until f) (sf_memory_type f)
    (Some (mkSearchAccess role_id namespace can_read_any)).
Definition is_cache_neutral (f : SearchFilter) : bool :=
  match f with mkFilter [] [] None None None None None => true | _ => false end.

(** ** Vector indexes *)

(** The trait, and what an index promises of the identifiers it holds. *)
Class SemanticSearch := {
  index_state : Type;
  index_upsert : string -> list f32 -> SearchIndexMeta -> index_state -> index_state;
  index_delete : string -> index_state -> index_state;
  index_search : list f32 -> nat -> SearchFilter -> index_state -> list SearchHit;
  index_list : SearchFilter -> index_state -> list string;
  index_holds : index_state -> string -> Prop;
  index_upsert_holds : forall cid v m st c, index_holds (index_upsert cid v m st) c <-> c = cid \/ index_holds st c;
  index_delete_holds : forall cid st c, index_holds (index_delete cid st) c <-> c <> cid /\ index_holds st c;
  index_search_holds : forall q k f st h, h ∈ index_search q k f st -> index_holds st (hit_cid h) /\ filter_matches f (hit_meta h) = true;
  index_list_holds : forall f st c, c ∈ index_list f st -> index_holds st c;
}.

Record IndexEntry := mkEntry { ie_cid : string; ie_embedding : list f32; ie_meta : SearchIndexMeta }.

(** The three sums of one pass. *)
Definition cosine_sums (a b : list f32) : f32 * f32 * f32 :=
  foldl (fun s xy => let '(dot, na, nb) := s in let '(x, y) := xy in
           (f32_add dot (f32_mul x y), f32_add na (f32_mul x x), f32_add nb (f32_mul y y)))
    (f32_zero, f32_zero, f32_zero) (zip a b).
Definition cosine (a b : list f32) : f32 :=
  if negb (Nat.eqb (length a) (length b)) then f32_zero else
  let '(dot, norm_a, norm_b) := cosine_sums a b in
  let norm_product := f32_mul (f32_sqrt norm_a) (f32_sqrt norm_b) in
  if f32_gt f32_1e_10 norm_product then f32_zero else f32_div dot norm_product.

Section memory.
Context `{HashIter}.
Notation InMemoryBackend := (gmap string IndexEntry).

Definition is_stub (v : list f32) : bool := forallb (fun x => f32_eqb x f32_zero) v.
(** A zero vector does not replace an entry. *)
Definition memory_upsert (cid : string) (embedding : list f32) (meta : SearchIndexMeta) (st : InMemoryBackend) : InMemoryBackend :=
  match st !! cid with
  | Some e => if is_stub embedding then st else <[cid := mkEntry (ie_cid e) embedding meta]> st
  | None => <[cid := mkEntry cid embedding meta]> st
  end.
Definition memory_delete (cid : string) (st : InMemoryBackend) : InMemoryBackend := delete cid st.
(** With a NaN score the comparison is no order and the sort is unspecified. *)
Definition memory_search (query : list f32) (k : nat) (filter : SearchFilter) (st : InMemoryBackend) : list SearchHit :=
  take k (sort_desc hit_score ((fun e => mkHit (ie_cid e) (cosine query (ie_embedding e)) (ie_meta e)) <$>
    List.filter (fun e => filter_matches filter (ie_meta e)) (values st))).
Definition memory_len (st : InMemoryBackend) : nat := size st.
Definition memory_list_by_filter (filter : SearchFilter) (st : InMemoryBackend) : list string :=
  ie_cid <$> List.filter (fun e => filter_matches filter (ie_meta e)) (values st).

(** [SearchIndexEntry] has the fields of the entry and its metadata but the memory type. *)
Record SearchIndexEntry := mkIndexEntry {
  sx_cid : string;
  sx_embedding : list f32;
  sx_tags : list string;
  sx_snippet : string;
  sx_content_type : string;
  sx_created_at : Z;
  sx_owner_role : string;
  sx_namespace : string;
  sx_scope : ObjectScope;
}.
Definition memory_snapshot (st : InMemoryBackend) : list SearchIndexEntry :=
  (fun e => mkIndexEntry (ie_cid e) (ie_embedding e) (im_tags (ie_meta e)) (im_snippet (ie_meta e)) (im_content_type (ie_meta e))
              (im_created_at (ie_meta e)) (im_owner_role (ie_meta e)) (im_namespace (ie_meta e)) (im_scope (ie_meta e))) <$> values st.
Definition memory_restore (entries : list SearchIndexEntry) (st : InMemoryBackend) : InMemoryBackend :=
  foldl (fun st e => <[sx_cid e := mkEntry (sx_cid e) (sx_embedding e)
    (mkIndexMeta (sx_cid e) (sx_tags e) (sx_snippet e) (sx_content_type e) (sx_created_at e) (sx_owner_role e)
       (sx_namespace e) (sx_scope e) None)]> st) st entries.

(** An entry is under its own identifier. *)
Definition entries_keyed (st : InMemoryBackend) : Prop := forall cid e, st !! cid = Some e -> ie_cid e = cid.

Lemma memory_upsert_keyed cid v m st : entries_keyed st -> entries_keyed (memory_upsert cid v m st).
Proof.
  intros Hk. unfold memory_upsert. destruct (st !! cid) as [e|] eqn:He.
  - destruct (is_stub v); [done|]. intros c e' [[<- <-]|[_ Hl]]%lookup_insert_Some; [by apply (Hk cid e) | by apply Hk].
  - intros c e' [[<- <-]|[_ Hl]]%lookup_insert_Some; [done | by apply Hk].
Qed.
Lemma memory_delete_keyed cid st : entries_keyed st -> entries_keyed (memory_delete cid st).
Proof. unfold memory_delete. intros Hk c e [_ Hl]%lookup_delete_Some. by apply Hk. Qed.

Lemma memory_upsert_holds cid v m st c : is_Some (memory_upsert cid v m st !! c) <-> c = cid \/ is_Some (st !! c).
Proof.
  unfold memory_upsert. destruct (st !! cid) as [e|] eqn:He; [destruct (is_stub v)|]; try rewrite lookup_insert_is_Some.
  - naive_solver.
  - destruct (decide (c = cid)); naive_solver.
  - destruct (decide (c = cid)); naive_solver.
Qed.

#[export, refine] Instance in_memory : SemanticSearch := {|
  index_state := sig entries_keyed;
  index_upsert cid v m st := exist _ (memory_upsert cid v m (`st)) (memory_upsert_keyed cid v m (`st) (proj2_sig st));
  index_delete cid st := exist _ (memory_delete cid (`st)) (memory_delete_keyed cid (`st) (proj2_sig st));
  index_search q k f st := memory_search q k f (`st);
  index_list f st := memory_list_by_filter f (`st);
  index_holds st c := is_Some (`st !! c);
|}.
Proof.
  - intros cid v m [st Hk] c. apply memory_upsert_holds.
  - intros cid [st Hk] c. cbn. unfold memory_delete. rewrite lookup_delete_is_Some. naive_solver.
  - intros q k f [st Hk] h Hh. cbn. apply elem_of_take in Hh as (i & Hi & _). apply list_elem_of_lookup_2 in Hi.
    unfold sort_desc in Hi. rewrite stable_sort_perm in Hi.
    apply list_elem_of_fmap in Hi as (e & -> & [[cid He]%elem_of_values Hm]%elem_of_lfilter). cbn.
    split; [|done]. rewrite (Hk _ _ He). by exists e.
  - intros f [st Hk] c Hc. cbn. apply list_elem_of_fmap in Hc as (e & -> & [[cid He]%elem_of_values _]%elem_of_lfilter).
    rewrite (Hk _ _ He). by exists e.
Defined.
End memory.

(** ** The keyword index *)

(** [bm25::SearchEngine]: documents under an identifier, ranked for a query. *)
Class Bm25Engine := {
  engine : Type;
  engine_new : engine;
  engine_upsert : string -> string -> engine -> engine;
  engine_remove : string -> engine -> engine;
  engine_search : string -> nat -> engine -> list (string * f32);
  engine_ids : engine -> list string;
  engine_upsert_ids : forall id text e i, i ∈ engine_ids (engine_upsert id text e) <-> i = id \/ i ∈ engine_ids e;
  engine_remove_ids : forall id e i, i ∈ engine_ids (engine_remove id e) <-> i <> id /\ i ∈ engine_ids e;
  engine_search_ids : forall q n e x, x ∈ engine_search q n e -> x.1 ∈ engine_ids e;
}.

(** [text.trim()] *)
Definition str_trim (text : string) : string := trim_end (trim_start text).

Section bm25.
Context `{Bm25Engine}.

Definition bm25_upsert (cid text : string) (e : engine) : engine :=
  match str_trim text with
  | EmptyString => e
  | clean => engine_upsert cid clean e
  end.
Definition bm25_remove (cid : string) (e : engine) : engine := engine_remove cid e.

(** [fold(0.0, f32::max)] *)
Definition max_score (results : list (string * f32)) : f32 := foldl (fun m r => f32_max m r.2) f32_zero results.
Definition bm25_search (query : string) (limit : nat) (e : engine) : list (string * f32) :=
  match str_trim query with
  | EmptyString => []
  | _ =>
      let results := engine_search query limit e in
      let normalizer := if f32_gt (max_score results) f32_zero then max_score results else f32_of_Z 1 in
      take limit ((fun r => (r.1, f32_div r.2 normalizer)) <$> results)
  end.
Definition bm25_len (e : engine) : nat := length (engine_ids e).

Lemma bm25_search_ids q n e x : x ∈ bm25_search q n e -> x.1 ∈ engine_ids e.
Proof.
  unfold bm25_search. destruct (str_trim q); [by intros ?%not_elem_of_nil|].
  intros (i & Hi & _)%elem_of_take. apply list_elem_of_lookup_2, list_elem_of_fmap in Hi as (r & -> & Hr). cbn.
  by apply engine_search_ids in Hr.
Qed.
End bm25.
