(* ===== verification/CognitivePipeline.v ===== *)
(** * The cognitive pipeline ([src/src/kernel/ops/cognitive_pipeline.rs])

    Background work in a bounded channel: callers enqueue tasks and get a
    watermark, a worker runs a bounded number of them at a time, and one progress
    record tells up to which watermark everything has ended.  Senders, the worker
    and its tasks interleave; every access to the progress record is under its
    lock and is one step. *)

From stdpp Require Import base gmap strings sets list relations.
From S2P Require Import Prelude ContextLoader.

Inductive CognitiveTask : Type :=
  | Task_Summarize (cid : string) (layer : SummaryLayer) (agent_id : string)
  | Task_KgExtract (cid agent_id : string)
  | Task_LinkSimilarity (cid agent_id : string)
  | Task_ProcessDocument (cid agent_id : string) (force_chunking : bool).

Inductive CognitivePipelineError : Type := Pipeline_QueueFull | Pipeline_QueueClosed | Pipeline_CounterExhausted.

Record CognitivePipelineSnapshot := mkPipelineSnapshot {
  cn_accepted : Z;
  cn_completed : Z;
  cn_in_flight : Z;
  cn_document_vector_succeeded_attempts : Z;
  cn_document_lexical_degraded_attempts : Z;
  cn_task_failed_attempts : Z;
  cn_other_succeeded_attempts : Z;
  cn_inline_document_attempts : Z;
}.

Inductive CognitiveTaskOutcome : Type := Outcome_VectorSucceeded | Outcome_LexicalDegraded | Outcome_OtherSucceeded | Outcome_TaskFailed.
#[export] Instance CognitiveTaskOutcome_eq_dec : EqDecision CognitiveTaskOutcome.
Proof. solve_decision. Defined.

(** ** Progress *)

Record CognitivePipelineProgressState := mkProgressState {
  cg_accepted : Z;
  cg_completed : Z;
  cg_in_flight : Z;
  cg_document_vector_succeeded_attempts : Z;
  cg_document_lexical_degraded_attempts : Z;
  cg_task_failed_attempts : Z;
  cg_other_succeeded_attempts : Z;
  cg_inline_document_attempts : Z;
  cg_completed_out_of_order : gset Z;
}.
Definition progress_default : CognitivePipelineProgressState := mkProgressState 0 0 0 0 0 0 0 0 ∅.

Definition with_counts (accepted completed in_flight : Z) (out_of_order : gset Z) (p : CognitivePipelineProgressState)
    : CognitivePipelineProgressState :=
  mkProgressState accepted completed in_flight (cg_document_vector_succeeded_attempts p) (cg_document_lexical_degraded_attempts p)
    (cg_task_failed_attempts p) (cg_other_succeeded_attempts p) (cg_inline_document_attempts p) out_of_order.

Definition accept (p : CognitivePipelineProgressState) : result CognitivePipelineError (Z * CognitivePipelineProgressState) :=
  watermark <-? ok_or (u64_checked_add (cg_accepted p) 1) Pipeline_CounterExhausted;
  in_flight <-? ok_or (u64_checked_add (cg_in_flight p) 1) Pipeline_CounterExhausted;
  Ok (watermark, with_counts watermark (cg_completed p) in_flight (cg_completed_out_of_order p) p).

Definition record_outcome (outcome : CognitiveTaskOutcome) (p : CognitivePipelineProgressState) : CognitivePipelineProgressState :=
  let bump (o : CognitiveTaskOutcome) (n : Z) := if bool_decide (outcome = o) then u64_saturating_add n 1 else n in
  mkProgressState (cg_accepted p) (cg_completed p) (cg_in_flight p)
    (bump Outcome_VectorSucceeded (cg_document_vector_succeeded_attempts p))
    (bump Outcome_LexicalDegraded (cg_document_lexical_degraded_attempts p))
    (bump Outcome_TaskFailed (cg_task_failed_attempts p))
    (bump Outcome_OtherSucceeded (cg_other_succeeded_attempts p))
    (cg_inline_document_attempts p) (cg_completed_out_of_order p).

(** The loop over what has ended early; each round removes one. *)
Fixpoint advance (rounds : nat) (completed : Z) (out_of_order : gset Z) : Z * gset Z :=
  match rounds with
  | O => (completed, out_of_order)
  | S rounds =>
      let next := u64_saturating_add completed 1 in
      if bool_decide (next ∈ out_of_order) then advance rounds next (out_of_order ∖ {[next]}) else (completed, out_of_order)
  end.

Definition complete (watermark : Z) (outcome : CognitiveTaskOutcome) (p : CognitivePipelineProgressState)
    : CognitivePipelineProgressState :=
  if (watermark <=? cg_completed p)%Z || bool_decide (watermark ∈ cg_completed_out_of_order p) then p else
  let p := with_counts (cg_accepted p) (cg_completed p) (u64_saturating_sub (cg_in_flight p) 1) (cg_completed_out_of_order p) p in
  let p := record_outcome outcome p in
  if negb (watermark =? u64_saturating_add (cg_completed p) 1)%Z
  then with_counts (cg_accepted p) (cg_completed p) (cg_in_flight p) ({[watermark]} ∪ cg_completed_out_of_order p) p
  else
    let '(completed, out_of_order) := advance (S (size (cg_completed_out_of_order p))) watermark (cg_completed_out_of_order p) in
    with_counts (cg_accepted p) completed (cg_in_flight p) out_of_order p.

Definition complete_inline_document (outcome : CognitiveTaskOutcome) (p : CognitivePipelineProgressState) : CognitivePipelineProgressState :=
  record_outcome outcome
    (mkProgressState (cg_accepted p) (cg_completed p) (cg_in_flight p) (cg_document_vector_succeeded_attempts p)
       (cg_document_lexical_degraded_attempts p) (cg_task_failed_attempts p) (cg_other_succeeded_attempts p)
       (u64_saturating_add (cg_inline_document_attempts p) 1) (cg_completed_out_of_order p)).

Definition progress_snapshot (p : CognitivePipelineProgressState) : CognitivePipelineSnapshot :=
  mkPipelineSnapshot (cg_accepted p) (cg_completed p) (cg_in_flight p) (cg_document_vector_succeeded_attempts p)
    (cg_document_lexical_degraded_attempts p) (cg_task_failed_attempts p) (cg_other_succeeded_attempts p)
    (cg_inline_document_attempts p).

(** ** The channel and the worker *)

(** A task with its [CognitiveTaskCompletion]: the watermark, and the outcome
    that is recorded when it is dropped. *)
Record QueuedCognitiveTask := mkQueued { qt_task : CognitiveTask; qt_watermark : Z; qt_outcome : CognitiveTaskOutcome }.

(** [pl_permits] are reserved, [pl_sending] hold a permit and a watermark and are
    about to send.  A slot of the worker is taken until the task is joined; it is
    [None] once the task has dropped its completion.  [pl_ended] and [pl_inline]
    record what happened, for the theorems. *)
Record Pipeline := mkPipeline {
  pl_capacity : nat;
  pl_max_in_flight : nat;
  pl_progress : CognitivePipelineProgressState;
  pl_permits : nat;
  pl_sending : list QueuedCognitiveTask;
  pl_queue : list QueuedCognitiveTask;
  pl_running : list (option QueuedCognitiveTask);
  pl_closed : bool;
  pl_ended : list (Z * CognitiveTaskOutcome);
  pl_inline : list CognitiveTaskOutcome;
}.

Definition clamp (x low high : nat) : nat := Nat.min high (Nat.max low x).
Definition start_cognitive_pipeline (buffer_size max_in_flight : nat) : Pipeline :=
  let max_in_flight := clamp max_in_flight 1 64 in
  mkPipeline (clamp buffer_size max_in_flight (N.to_nat 65536)) max_in_flight progress_default 0 [] [] [] false [] [].

Definition with_channel (permits : nat) (sending queue : list QueuedCognitiveTask) (s : Pipeline) : Pipeline :=
  mkPipeline (pl_capacity s) (pl_max_in_flight s) (pl_progress s) permits sending queue (pl_running s) (pl_closed s) (pl_ended s) (pl_inline s).
Definition with_progress (p : CognitivePipelineProgressState) (s : Pipeline) : Pipeline :=
  mkPipeline (pl_capacity s) (pl_max_in_flight s) p (pl_permits s) (pl_sending s) (pl_queue s) (pl_running s) (pl_closed s) (pl_ended s) (pl_inline s).
Definition with_running (running : list (option QueuedCognitiveTask)) (s : Pipeline) : Pipeline :=
  mkPipeline (pl_capacity s) (pl_max_in_flight s) (pl_progress s) (pl_permits s) (pl_sending s) (pl_queue s) running (pl_closed s) (pl_ended s) (pl_inline s).
Definition pipeline_close (s : Pipeline) : Pipeline :=
  mkPipeline (pl_capacity s) (pl_max_in_flight s) (pl_progress s) (pl_permits s) (pl_sending s) (pl_queue s) (pl_running s) true (pl_ended s) (pl_inline s).

(** Places of the channel in use. *)
Definition channel_used (s : Pipeline) : nat := pl_permits s + length (pl_sending s) + length (pl_queue s).

(** [try_reserve]; [reserve] waits while the queue is full. *)
Definition try_reserve (s : Pipeline) : result CognitivePipelineError Pipeline :=
  if pl_closed s then Err Pipeline_QueueClosed
  else if (pl_capacity s <=? channel_used s)%nat then Err Pipeline_QueueFull
  else Ok (with_channel (S (pl_permits s)) (pl_sending s) (pl_queue s) s).
(** [accept] under a permit, which is given back when the counter is exhausted. *)
Definition enqueue_accept (task : CognitiveTask) (s : Pipeline) : result CognitivePipelineError Z * Pipeline :=
  match accept (pl_progress s) with
  | Err e => (Err e, with_channel (Nat.pred (pl_permits s)) (pl_sending s) (pl_queue s) s)
  | Ok (watermark, p) =>
      (Ok watermark, with_progress p (with_channel (Nat.pred (pl_permits s))
                       (pl_sending s ++ [mkQueued task watermark Outcome_TaskFailed]) (pl_queue s) s))
  end.
Definition enqueue_send (i : nat) (s : Pipeline) : Pipeline :=
  match pl_sending s !! i with
  | Some q => with_channel (pl_permits s) (delete i (pl_sending s)) (pl_queue s ++ [q]) s
  | None => s
  end.

(** A sender no other interrupts. *)
Definition enqueue_sync (task : CognitiveTask) (s : Pipeline) : result CognitivePipelineError Z * Pipeline :=
  match try_reserve s with
  | Err e => (Err e, s)
  | Ok s =>
      match enqueue_accept task s with
      | (Err e, s) => (Err e, s)
      | (Ok watermark, s) => (Ok watermark, enqueue_send (Nat.pred (length (pl_sending s))) s)
      end
  end.

(** The completion of [q] is dropped: [Drop for CognitiveTaskCompletion]. *)
Definition drop_completion (q : QueuedCognitiveTask) (s : Pipeline) : Pipeline :=
  mkPipeline (pl_capacity s) (pl_max_in_flight s) (complete (qt_watermark q) (qt_outcome q) (pl_progress s)) (pl_permits s) (pl_sending s)
    (pl_queue s) (pl_running s) (pl_closed s) (pl_ended s ++ [(qt_watermark q, qt_outcome q)]) (pl_inline s).

(** The worker receives only below its limit. *)
Definition worker_receive (s : Pipeline) : option Pipeline :=
  match pl_queue s with
  | q :: queue =>
      if pl_closed s || (pl_max_in_flight s <=? length (pl_running s))%nat then None
      else Some (with_running (pl_running s ++ [Some q]) (with_channel (pl_permits s) (pl_sending s) queue s))
  | [] => None
  end.
(** A task that ends well records its outcome first; one that fails, panics, is
    aborted or finds the kernel gone does not. *)
Definition task_record (i : nat) (outcome : CognitiveTaskOutcome) (s : Pipeline) : Pipeline :=
  match pl_running s !! i with
  | Some (Some q) => with_running (<[i := Some (mkQueued (qt_task q) (qt_watermark q) outcome)]> (pl_running s)) s
  | _ => s
  end.
Definition task_end (i : nat) (s : Pipeline) : Pipeline :=
  match pl_running s !! i with
  | Some (Some q) => drop_completion q (with_running (<[i := None]> (pl_running s)) s)
  | _ => s
  end.
Definition worker_join (i : nat) (s : Pipeline) : Pipeline :=
  match pl_running s !! i with
  | Some None => with_running (delete i (pl_running s)) s
  | _ => s
  end.
(** After the receiver is gone what is in the queue, or still sent to it, is dropped. *)
Definition drop_queued (s : Pipeline) : Pipeline :=
  match pl_queue s with
  | q :: queue => if pl_closed s then drop_completion q (with_channel (pl_permits s) (pl_sending s) queue s) else s
  | [] => s
  end.
Definition inline_document (outcome : CognitiveTaskOutcome) (s : Pipeline) : Pipeline :=
  mkPipeline (pl_capacity s) (pl_max_in_flight s) (complete_inline_document outcome (pl_progress s)) (pl_permits s) (pl_sending s)
    (pl_queue s) (pl_running s) (pl_closed s) (pl_ended s) (pl_inline s ++ [outcome]).

Inductive pipeline_step : Pipeline -> Pipeline -> Prop :=
  | step_reserve s s' : try_reserve s = Ok s' -> pipeline_step s s'
  | step_accept task s : (0 < pl_permits s)%nat -> pipeline_step s (enqueue_accept task s).2
  | step_send i s : pipeline_step s (enqueue_send i s)
  | step_receive s s' : worker_receive s = Some s' -> pipeline_step s s'
  | step_record i outcome s : pipeline_step s (task_record i outcome s)
  | step_end i s : pipeline_step s (task_end i s)
  | step_join i s : pipeline_step s (worker_join i s)
  | step_inline outcome s : pipeline_step s (inline_document outcome s)
  | step_close s : pipeline_step s (pipeline_close s)
  | step_drop s : pipeline_step s (drop_queued s).

(** * What the progress tells

    Watermarks are given out without gaps, each task ends once, and the completed
    watermark is the first one all tasks up to which have ended. *)

Definition watermarks_of (l : list (option QueuedCognitiveTask)) : list Z := qt_watermark <$> omap id l.
(** The tasks that have a watermark and have not ended. *)
Definition held (s : Pipeline) : list Z :=
  (qt_watermark <$> pl_sending s) ++ (qt_watermark <$> pl_queue s) ++ watermarks_of (pl_running s).

Record counted (p : CognitivePipelineProgressState) (ended held : list Z) : Prop := {
  ct_once : NoDup (ended ++ held);
  ct_all w : w ∈ ended ++ held <-> (1 <= w <= cg_accepted p)%Z;
  ct_max : (0 <= cg_accepted p <= u64_max)%Z;
  ct_completed : (0 <= cg_completed p)%Z;
  ct_before w : (1 <= w <= cg_completed p)%Z -> w ∈ ended;
  ct_next : (cg_completed p + 1)%Z ∉ ended;
  ct_early w : w ∈ cg_completed_out_of_order p <-> w ∈ ended /\ (cg_completed p < w)%Z;
  ct_flight : cg_in_flight p = Z.of_nat (length held);
}.

Definition attempts (o : CognitiveTaskOutcome) (p : CognitivePipelineProgressState) : Z :=
  match o with
  | Outcome_VectorSucceeded => cg_document_vector_succeeded_attempts p
  | Outcome_LexicalDegraded => cg_document_lexical_degraded_attempts p
  | Outcome_OtherSucceeded => cg_other_succeeded_attempts p
  | Outcome_TaskFailed => cg_task_failed_attempts p
  end.
Definition tally (o : CognitiveTaskOutcome) (l : list CognitiveTaskOutcome) : Z := Z.of_nat (length (filter (o =.) l)).

Lemma counted_perm p ended held held' : held ≡ₚ held' -> counted p ended held -> counted p ended held'.
Proof. intros Hp [H1 H2 H3 H4 H5 H6 H7 H8]. constructor; try done; setoid_rewrite <-Hp; done. Qed.

Lemma accept_counted p ended held w p' : counted p ended held -> accept p = Ok (w, p') -> counted p' ended (w :: held).
Proof.
  intros [H1 H2 H3 H4 H5 H6 H7 H8]. unfold accept, u64_checked_add.
  destruct (_ <=? _)%Z eqn:Ha; [|done]. cbn [ok_or]. destruct (cg_in_flight p + 1 <=? _)%Z; [|done]. cbn. intros [= <- <-].
  apply Z.leb_le in Ha. set (n := (cg_accepted p + 1)%Z) in *.
  assert (n ∉ ended ++ held) as Hn by (rewrite H2; lia).
  constructor; cbn; try done.
  - rewrite <-Permutation_middle. by constructor.
  - intros x. rewrite <-Permutation_middle, elem_of_cons, H2. lia.
  - lia.
  - rewrite H8. lia.
Qed.

Lemma advance_spec rounds c out : size out < rounds -> (c <= u64_max)%Z -> (forall x, x ∈ out -> (c < x <= u64_max)%Z) ->
  let '(c', out') := advance rounds c out in
  (c <= c' <= u64_max)%Z /\ (forall x, (c < x <= c')%Z -> x ∈ out) /\ (c' + 1)%Z ∉ out /\
  (forall x, x ∈ out' <-> x ∈ out /\ (c' < x)%Z).
Proof.
  revert c out. induction rounds as [|rounds IH]; intros c out Hs Hc Hout; [lia|]. cbn [advance]. unfold u64_saturating_add.
  case_bool_decide as Hin.
  - pose proof (Hout _ Hin) as Hn. assert (Z.min u64_max (c + 1) = c + 1)%Z as Hm by lia. rewrite Hm in *.
    specialize (IH (c + 1)%Z (out ∖ {[(c + 1)%Z]})).
    destruct (advance rounds (c + 1) (out ∖ {[(c + 1)%Z]})) as [c' out']. destruct IH as (I1 & I2 & I3 & I4).
    + rewrite size_difference by set_solver. rewrite size_singleton. assert (size out <> 0); [|lia]. intros Hz%size_empty_inv. set_solver.
    + lia.
    + intros x Hx. apply elem_of_difference in Hx as [Hx Hne]. apply Hout in Hx. rewrite not_elem_of_singleton in Hne. lia.
    + split_and!; try lia.
      * intros x Hx. destruct (decide (x = c + 1)%Z) as [-> |]; [done|]. assert (x ∈ out ∖ {[(c + 1)%Z]}) by (apply I2; lia). set_solver.
      * intros Hx. apply I3, elem_of_difference. split; [done|]. rewrite not_elem_of_singleton. lia.
      * intros x. rewrite I4, elem_of_difference, not_elem_of_singleton. split; [naive_solver|]. intros [? ?]. split; [|done]. split; [done|lia].
  - split_and!; [lia|done|lia| |].
    + intros Hx. apply Hin. pose proof (Hout _ Hx). by rewrite Z.min_r by lia.
    + intros x. split; [|tauto]. intros Hx. split; [done|]. apply Hout in Hx. lia.
Qed.

Lemma record_outcome_counts o p : cg_accepted (record_outcome o p) = cg_accepted p /\ cg_completed (record_outcome o p) = cg_completed p /\
  cg_in_flight (record_outcome o p) = cg_in_flight p /\ cg_completed_out_of_order (record_outcome o p) = cg_completed_out_of_order p.
Proof. done. Qed.

Lemma complete_counted p ended held w o : counted p ended (w :: held) -> counted (complete w o p) (ended ++ [w]) held.
Proof.
  intros [H1 H2 H3 H4 H5 H6 H7 H8].
  assert (w ∉ ended) as Hw by (apply NoDup_app in H1 as (_ & Hd & _); intros Hx; apply (Hd _ Hx); by left).
  assert (1 <= w <= cg_accepted p)%Z as Hr by (apply H2; rewrite elem_of_app, elem_of_cons; auto).
  assert (cg_completed p < w)%Z as Hlt by (destruct (decide (w <= cg_completed p)%Z); [|lia]; destruct Hw; apply H5; lia).
  assert (w ∉ cg_completed_out_of_order p) as Ho by (rewrite H7; tauto).
  assert (forall x, x ∈ ended -> (1 <= x <= cg_accepted p)%Z) as He by (intros x Hx; apply H2, elem_of_app; auto).
  assert (NoDup ((ended ++ [w]) ++ held)) as Hnd by by rewrite <-app_assoc.
  assert (forall x, x ∈ (ended ++ [w]) ++ held <-> (1 <= x <= cg_accepted p)%Z) as Hall by (intros x; rewrite <-app_assoc; apply H2).
  assert (u64_saturating_sub (cg_in_flight p) 1 = Z.of_nat (length held)) as Hfl by (rewrite H8; unfold u64_saturating_sub; cbn; lia).
  unfold complete. rewrite (proj2 (Z.leb_gt _ _) Hlt), bool_decide_false by done. cbn [orb].
  cbn [cg_completed record_outcome with_counts]. unfold u64_saturating_add at 1. rewrite Z.min_r by lia.
  destruct (negb _) eqn:Hne; cbn [cg_completed_out_of_order record_outcome with_counts].
  - apply negb_true_iff, Z.eqb_neq in Hne. constructor; cbn [with_counts record_outcome cg_accepted cg_completed cg_in_flight cg_completed_out_of_order]; try done.
    + intros x Hx. apply elem_of_app. left. by apply H5.
    + rewrite elem_of_app, list_elem_of_singleton. intros [?|?]; [done|lia].
    + intros x. rewrite elem_of_union, elem_of_singleton, H7, elem_of_app, list_elem_of_singleton. split; [|tauto]. intros [-> |]; [|tauto]. auto.
  - apply negb_false_iff, Z.eqb_eq in Hne.
    pose proof (advance_spec (S (size (cg_completed_out_of_order p))) w (cg_completed_out_of_order p)) as Hadv.
    destruct (advance _ _ _) as [c out]. destruct Hadv as (A1 & A2 & A3 & A4); [lia|lia| |].
    { intros x Hx. apply H7 in Hx as Hx'. destruct Hx' as [Hx1 Hx2]. apply He in Hx1. assert (x <> w) by (intros ->; done). lia. }
    constructor; cbn [with_counts record_outcome cg_accepted cg_completed cg_in_flight cg_completed_out_of_order]; try done; try lia.
    + intros x Hx. rewrite elem_of_app, list_elem_of_singleton. destruct (decide (x = w)); [auto|]. left.
      destruct (decide (x <= cg_completed p)%Z); [apply H5; lia|]. apply H7, A2. lia.
    + rewrite elem_of_app, list_elem_of_singleton. intros [Hx|Hx]; [|lia]. apply A3, H7. split; [done|lia].
    + intros x. rewrite A4, H7, elem_of_app, list_elem_of_singleton. split; [naive_solver|]. intros [[Hx|Hx] Hc]; [|lia]. repeat split; [done|lia|done].
Qed.

Lemma attempts_record o o' p : attempts o (record_outcome o' p) =
  if bool_decide (o' = o) then u64_saturating_add (attempts o p) 1 else attempts o p.
Proof. by destruct o; cbn. Qed.

(** A completion that is dropped is not counted twice. *)
Lemma complete_tallied p ended held w o' : counted p ended (w :: held) ->
  (forall o, attempts o (complete w o' p) = attempts o (record_outcome o' p)) /\
  cg_inline_document_attempts (complete w o' p) = cg_inline_document_attempts p /\ cg_accepted (complete w o' p) = cg_accepted p.
Proof.
  intros Hc. assert (w ∉ ended) as Hw by (pose proof (ct_once _ _ _ Hc) as H1; apply NoDup_app in H1 as (_ & Hd & _); intros Hx; apply (Hd _ Hx); by left).
  assert (cg_completed p < w)%Z as Hlt.
  { destruct (decide (w <= cg_completed p)%Z); [|lia]. destruct Hw. apply (ct_before _ _ _ Hc). split; [|lia].
    apply (ct_all _ _ _ Hc). rewrite elem_of_app, elem_of_cons. auto. }
  unfold complete. rewrite (proj2 (Z.leb_gt _ _) Hlt), bool_decide_false by (rewrite (ct_early _ _ _ Hc); tauto). cbn [orb].
  destruct (negb _); [split; [by intros []|done]|]. destruct (advance _ _ _) as [c out]. split; [by intros []|done].
Qed.

Lemma tally_app o l l' : tally o (l ++ l') = (tally o l + tally o l')%Z.
Proof. unfold tally. rewrite filter_app, length_app. lia. Qed.
Lemma tally_one o o' : tally o [o'] = if bool_decide (o' = o) then 1%Z else 0%Z.
Proof. unfold tally. case_bool_decide; subst; [by rewrite filter_cons_True|]. rewrite filter_cons_False; [done|congruence]. Qed.
Lemma sat_count n : (0 <= n)%Z -> u64_saturating_add (Z.min u64_max n) 1 = Z.min u64_max (n + 1).
Proof. unfold u64_saturating_add, u64_max, u64_modulus. lia. Qed.

Record pipeline_ok (s : Pipeline) : Prop := {
  po_counted : counted (pl_progress s) (pl_ended s).*1 (held s);
  po_attempts o : attempts o (pl_progress s) = Z.min u64_max (tally o ((pl_ended s).*2 ++ pl_inline s));
  po_inline : cg_inline_document_attempts (pl_progress s) = Z.min u64_max (Z.of_nat (length (pl_inline s)));
  po_used : channel_used s <= pl_capacity s;
  po_running : length (pl_running s) <= pl_max_in_flight s;
}.

(** Steps that only move tasks. *)
Lemma pipeline_moved_ok s s' : pipeline_ok s -> pl_progress s' = pl_progress s -> pl_ended s' = pl_ended s -> pl_inline s' = pl_inline s ->
  held s ≡ₚ held s' -> channel_used s' <= pl_capacity s' -> length (pl_running s') <= pl_max_in_flight s' -> pipeline_ok s'.
Proof.
  intros [P1 P2 P3 P4 P5] Hp He Hi Hh Hu Hr. constructor; try done; rewrite ?Hp, ?He, ?Hi; [|apply P2|apply P3]. by eapply counted_perm.
Qed.

(** The end of a held task. *)
Lemma pipeline_dropped_ok s q : (forall p e, pl_progress s = p -> pl_ended s = e -> counted p e.*1 (qt_watermark q :: held s)) ->
  (forall o, attempts o (pl_progress s) = Z.min u64_max (tally o ((pl_ended s).*2 ++ pl_inline s))) ->
  cg_inline_document_attempts (pl_progress s) = Z.min u64_max (Z.of_nat (length (pl_inline s))) ->
  channel_used s <= pl_capacity s -> length (pl_running s) <= pl_max_in_flight s -> pipeline_ok (drop_completion q s).
Proof.
  intros Hc Ha Hi Hu Hr. specialize (Hc _ _ eq_refl eq_refl).
  destruct (complete_tallied _ _ _ _ (qt_outcome q) Hc) as (T1 & T2 & _).
  constructor; cbn [drop_completion pl_progress pl_ended pl_inline pl_capacity pl_max_in_flight pl_running]; try done.
  - rewrite fmap_app. by apply complete_counted.
  - intros o. rewrite T1, attempts_record, Ha, fmap_app, !tally_app. cbn [fmap list_fmap]. rewrite tally_one.
    destruct (bool_decide _); [rewrite sat_count by (unfold tally; lia)|]; f_equal; lia.
  - by rewrite T2.
Qed.

Lemma running_split (l : list (option QueuedCognitiveTask)) i q : l !! i = Some (Some q) ->
  watermarks_of l ≡ₚ qt_watermark q :: watermarks_of (<[i := None]> l) /\
  (forall q', qt_watermark q' = qt_watermark q -> watermarks_of (<[i := Some q']> l) = watermarks_of l).
Proof.
  intros Hl. pose proof (take_drop_middle _ _ _ Hl) as Hs. apply lookup_lt_Some in Hl. unfold watermarks_of. split.
  - rewrite insert_take_drop by done. rewrite <-Hs at 1. rewrite !omap_app, !fmap_app. cbn. by rewrite <-Permutation_middle.
  - intros q' Hq. rewrite insert_take_drop by done. rewrite <-Hs at 3. rewrite !omap_app, !fmap_app. cbn. by rewrite Hq.
Qed.
Lemma running_join (l : list (option QueuedCognitiveTask)) i : l !! i = Some None -> watermarks_of (delete i l) = watermarks_of l.
Proof.
  intros Hl. pose proof (take_drop_middle _ _ _ Hl) as Hs. unfold watermarks_of. rewrite delete_take_drop. rewrite <-Hs at 3.
  by rewrite !omap_app.
Qed.

Lemma pipeline_start_ok buffer limit : pipeline_ok (start_cognitive_pipeline buffer limit).
Proof.
  constructor; [|by intros []|done|apply Nat.le_0_l|apply Nat.le_0_l].
  constructor; cbn; try done; [by apply NoDup_nil_2| | |set_solver|set_solver].
  - intros w. split; [set_solver|lia].
  - lia.
Qed.

Lemma step_ok s s' : pipeline_ok s -> pipeline_step s s' -> pipeline_ok s'.
Proof.
  intros Hok Hs. pose proof Hok as [P1 P2 P3 P4 P5]. destruct Hs as [s s' Hr|task s Hp|i s|s s' Hr|i o s|i s|i s|o s|s|s].
  - unfold try_reserve in Hr. destruct (pl_closed s); [done|]. destruct (_ <=? _) eqn:Hu; [done|]. injection Hr as <-.
    apply Nat.leb_gt in Hu. eapply pipeline_moved_ok; [exact Hok|done..|]. done.
  - unfold enqueue_accept. destruct (accept (pl_progress s)) as [[w p]|e] eqn:Ha; cbn [snd].
    + constructor; cbn [pl_progress with_progress with_channel pl_ended pl_inline].
      * eapply counted_perm; [|by eapply accept_counted]. unfold held. cbn. rewrite fmap_app, <-app_assoc. cbn. by rewrite <-Permutation_middle.
      * intros o. rewrite <-P2. unfold accept in Ha. destruct (u64_checked_add _ _); [|done]. cbn in Ha. destruct (u64_checked_add _ _); [|done].
        cbn in Ha. injection Ha as _ <-. by destruct o.
      * rewrite <-P3. unfold accept in Ha. destruct (u64_checked_add _ _); [|done]. cbn in Ha. destruct (u64_checked_add _ _); [|done].
        cbn in Ha. by injection Ha as _ <-.
      * unfold channel_used in *. cbn. rewrite length_app. cbn. lia.
      * done.
    + eapply pipeline_moved_ok; [exact Hok|done..| |done]. unfold channel_used in *. cbn. lia.
  - unfold enqueue_send. destruct (pl_sending s !! i) as [q|] eqn:Hq; [|done].
    eapply pipeline_moved_ok; [exact Hok|done..| | |done].
    + unfold held. cbn. rewrite (delete_Permutation _ _ _ Hq) at 1. rewrite fmap_app. cbn. rewrite <-!app_assoc. cbn.
      rewrite <-!Permutation_middle. done.
    + unfold channel_used in *. cbn. rewrite length_app, length_delete by eauto. apply lookup_lt_Some in Hq. cbn. lia.
  - unfold worker_receive in Hr. destruct (pl_queue s) as [|q queue] eqn:Hq; [done|]. destruct (_ || _) eqn:Hb; [done|]. injection Hr as <-.
    apply orb_false_iff in Hb as [_ Hb%Nat.leb_gt].
    eapply pipeline_moved_ok; [exact Hok|done..| | |].
    + unfold held, watermarks_of. cbn. rewrite Hq, omap_app, fmap_app. cbn. apply Permutation_app_head.
      change (qt_watermark <$> q :: queue) with (qt_watermark q :: (qt_watermark <$> queue)). cbn. rewrite app_assoc.
      by rewrite <-Permutation_cons_append.
    + unfold channel_used in *. cbn. rewrite Hq in P4. cbn in P4. lia.
    + cbn. rewrite length_app. cbn. lia.
  - unfold task_record. destruct (pl_running s !! i) as [[q|]|] eqn:Hq; [|done..].
    eapply pipeline_moved_ok; [exact Hok|done..| |done|]; [|cbn; by rewrite length_insert].
    unfold held. cbn [with_running pl_sending pl_queue pl_running]. by rewrite (proj2 (running_split _ _ _ Hq)).
  - unfold task_end. destruct (pl_running s !! i) as [[q|]|] eqn:Hq; [|done..]. apply pipeline_dropped_ok; try done; [|cbn; by rewrite length_insert].
    intros ? ? <- <-. eapply counted_perm; [|exact P1]. unfold held. cbn [with_running pl_sending pl_queue pl_running]. rewrite (proj1 (running_split _ _ _ Hq)).
    by rewrite <-!Permutation_middle.
  - unfold worker_join. destruct (pl_running s !! i) as [[q|]|] eqn:Hq; [done| |done].
    eapply pipeline_moved_ok; [exact Hok|done..| |done|]; unfold held; cbn [with_running pl_sending pl_queue pl_running pl_max_in_flight]; [by rewrite (running_join _ _ Hq)|].
    rewrite length_delete by eauto. lia.
  - constructor; cbn [inline_document pl_progress pl_ended pl_inline complete_inline_document]; try done.
    + destruct P1 as [H1 H2 H3 H4 H5 H6 H7 H8]. by constructor.
    + intros o'. unfold complete_inline_document. rewrite attempts_record. assert (forall x, attempts o' (mkProgressState (cg_accepted (pl_progress s)) (cg_completed (pl_progress s)) (cg_in_flight (pl_progress s)) (cg_document_vector_succeeded_attempts (pl_progress s)) (cg_document_lexical_degraded_attempts (pl_progress s)) (cg_task_failed_attempts (pl_progress s)) (cg_other_succeeded_attempts (pl_progress s)) x (cg_completed_out_of_order (pl_progress s))) = attempts o' (pl_progress s)) as Hx by by destruct o'.
      rewrite Hx, P2, app_assoc, (tally_app o' _ [o]), tally_one. case_bool_decide; [rewrite sat_count by (unfold tally; lia)|]; f_equal; lia.
    + cbn. rewrite P3, length_app, sat_count by lia. f_equal. cbn. lia.
  - by eapply pipeline_moved_ok.
  - unfold drop_queued. destruct (pl_queue s) as [|q queue] eqn:Hq; [done|]. destruct (pl_closed s); [|done]. apply pipeline_dropped_ok; try done.
    + intros ? ? <- <-. eapply counted_perm; [|exact P1]. unfold held. cbn. rewrite Hq. cbn. by rewrite <-!Permutation_middle.
    + unfold channel_used in *. cbn. rewrite Hq in P4. cbn in P4. lia.
Qed.

Lemma reachable_ok buffer limit s : rtc pipeline_step (start_cognitive_pipeline buffer limit) s -> pipeline_ok s.
Proof. apply (rtc_ind_r pipeline_ok); [apply pipeline_start_ok|]. intros. by eapply step_ok. Qed.

Lemma slots_fixed s s' : rtc pipeline_step s s' -> pl_max_in_flight s' = pl_max_in_flight s.
Proof.
  induction 1 as [|s1 s2 s3 Hs _ IH]; [done|]. rewrite IH. destruct Hs as [s s' Hr|task s Hp|i s|s s' Hr|i o s|i s|i s|o s|s|s]; try done.
  - unfold try_reserve in Hr. destruct (pl_closed s); [done|]. destruct (_ <=? _); [done|]. by injection Hr as <-.
  - unfold enqueue_accept. by destruct (accept _) as [[]|].
  - unfold enqueue_send. by destruct (_ !! _).
  - unfold worker_receive in Hr. destruct (pl_queue s); [done|]. destruct (_ || _); [done|]. by injection Hr as <-.
  - unfold task_record. by destruct (_ !! _) as [[]|].
  - unfold task_end. by destruct (_ !! _) as [[]|].
  - unfold worker_join. by destruct (_ !! _) as [[]|].
  - unfold drop_queued. destruct (pl_queue s); [done|]. by destruct (pl_closed s).
Qed.

(** ** The worker can always finish *)

(** A run that accepts nothing. *)
Definition runs_to (s s' : Pipeline) : Prop :=
  rtc pipeline_step s s' /\ cg_accepted (pl_progress s') = cg_accepted (pl_progress s) /\ pl_max_in_flight s' = pl_max_in_flight s.
#[local] Instance runs_to_preorder : PreOrder runs_to.
Proof.
  split; [by repeat split|]. intros s1 s2 s3 (R1 & A1 & M1) (R2 & A2 & M2). split; [by etrans|]. by rewrite A2, M2.
Qed.
Lemma accepted_complete w o p : cg_accepted (complete w o p) = cg_accepted p.
Proof. unfold complete. destruct (_ || _); [done|]. destruct (negb _); [done|]. by destruct (advance _ _ _). Qed.
Lemma runs_one s s' : pipeline_step s s' -> cg_accepted (pl_progress s') = cg_accepted (pl_progress s) ->
  pl_max_in_flight s' = pl_max_in_flight s -> runs_to s s'.
Proof. intros. split; [by apply rtc_once|done]. Qed.

Lemma sends_all s : exists s', runs_to s s' /\ pl_sending s' = [].
Proof.
  remember (pl_sending s) as l eqn:Hl. revert s Hl. induction l as [|q l IH]; intros s Hl; [by exists s|].
  destruct (IH (enqueue_send 0 s)) as (s' & Hr & Hs'); [unfold enqueue_send; by rewrite <-Hl|].
  exists s'. split; [|done]. etrans; [|exact Hr]. apply runs_one; [apply step_send| |]; unfold enqueue_send; by rewrite <-Hl.
Qed.

Lemma ends_running s : exists s', runs_to s s' /\ pl_running s' = [] /\ pl_sending s' = pl_sending s /\ pl_queue s' = pl_queue s.
Proof.
  remember (pl_running s) as l eqn:Hl. revert s Hl. induction l as [|slot l IH]; intros s Hl; [by exists s|].
  assert (exists s1, runs_to s s1 /\ pl_running s1 = None :: l /\ pl_sending s1 = pl_sending s /\ pl_queue s1 = pl_queue s) as (s1 & R1 & L1 & S1 & Q1).
  { destruct slot as [q|]; [|by exists s]. exists (task_end 0 s). unfold task_end. rewrite <-Hl. cbn [lookup list_lookup]. split; [|done].
    apply runs_one; [|cbn; apply accepted_complete|done]. pose proof (step_end 0 s) as Hs. unfold task_end in Hs. by rewrite <-Hl in Hs. }
  destruct (IH (worker_join 0 s1)) as (s' & Hr & Hrun & Hs' & Hq'); [unfold worker_join; by rewrite L1|].
  assert (runs_to s1 (worker_join 0 s1)) as Hj by (apply runs_one; [apply step_join|..]; unfold worker_join; by rewrite L1).
  exists s'. split; [etrans; [exact R1|]; etrans; [exact Hj|exact Hr]|]. split; [done|]. rewrite Hs', Hq'. unfold worker_join. by rewrite L1.
Qed.

Lemma drains s : 0 < pl_max_in_flight s -> exists s', runs_to s s' /\ held s' = [].
Proof.
  intros Hmax. destruct (sends_all s) as (s1 & R1 & S1). destruct (ends_running s1) as (s2 & R2 & L2 & S2 & _).
  assert (pl_max_in_flight s2 = pl_max_in_flight s) as M2 by (destruct R1 as (_ & _ & E1), R2 as (_ & _ & E2); congruence).
  assert (pl_sending s2 = []) as S2' by congruence. rewrite <-M2 in Hmax.
  cut (exists s', runs_to s2 s' /\ held s' = []); [intros (s' & R & H); exists s'; split; [|done]; etrans; [exact R1|]; by etrans|].
  clear R1 R2 M2 S1 S2. remember (pl_queue s2) as l eqn:Hl. revert s2 Hl L2 S2' Hmax. clear. induction l as [|q l IH]; intros s Hl Hr Hs Hmax.
  { exists s. split; [done|]. unfold held, watermarks_of. by rewrite Hs, Hr, <-Hl. }
  assert (exists s1, runs_to s s1 /\ pl_queue s1 = l /\ pl_running s1 = [] /\ pl_sending s1 = []) as (s1 & R1 & Q1 & L1 & S1).
  { destruct (pl_closed s) eqn:Hc.
    - exists (drop_queued s). split; [apply runs_one; [apply step_drop|..]|]; unfold drop_queued; rewrite <-Hl, Hc; try done. cbn. apply accepted_complete.
    - destruct (worker_receive s) as [s'|] eqn:Hw.
      2: { unfold worker_receive in Hw. rewrite <-Hl, Hc, Hr in Hw. cbn in Hw. destruct (pl_max_in_flight s); [lia|done]. }
      assert (runs_to s s') as R1 by (apply runs_one; [by apply step_receive|..]; unfold worker_receive in Hw; rewrite <-Hl in Hw; destruct (_ || _); [done|by injection Hw as <-|done|by injection Hw as <-]).
      destruct (ends_running s') as (s1 & R2 & L1 & S1 & Q1). exists s1. split; [by etrans|]. rewrite S1, Q1.
      unfold worker_receive in Hw. rewrite <-Hl in Hw. destruct (_ || _); [done|]. by injection Hw as <-. }
  destruct (IH s1) as (s' & R & H); [done..| |]; [destruct R1 as (_ & _ & ->); done|]. exists s'. split; [by etrans|done].
Qed.

Lemma start_has_slots buffer limit : 0 < pl_max_in_flight (start_cognitive_pipeline buffer limit).
Proof. unfold start_cognitive_pipeline, clamp. cbn [pl_max_in_flight]. lia. Qed.

(** C40: in every interleaving of senders, the worker, its tasks, inline documents
    and the end of the receiver, the progress is exact.  Watermarks are given out
    without gaps and each task ends at most once; every task up to the completed
    watermark has ended and the next has not, so a caller that sees its watermark
    completed knows its task and all before it have ended; what is in flight is
    what has not ended, at most the places of the channel and of the worker; and
    each counter is the number of its outcomes, up to the width of the counter.
    From every state the worker can finish, and then everything accepted is
    completed. *)
Theorem watermark_is_exact buffer limit s :
  rtc pipeline_step (start_cognitive_pipeline buffer limit) s ->
  let p := pl_progress s in
  let ended := (pl_ended s).*1 in
  NoDup (ended ++ held s) /\ (forall w, w ∈ ended ++ held s <-> (1 <= w <= cg_accepted p)%Z) /\
  (forall w, (1 <= w <= cg_completed p)%Z -> w ∈ ended) /\ (cg_completed p + 1)%Z ∉ ended /\
  cg_in_flight p = Z.of_nat (length (held s)) /\ length (held s) <= pl_capacity s + pl_max_in_flight s /\
  (forall o, attempts o p = Z.min u64_max (tally o ((pl_ended s).*2 ++ pl_inline s))) /\
  exists s', rtc pipeline_step s s' /\ cg_accepted (pl_progress s') = cg_accepted p /\ cg_completed (pl_progress s') = cg_accepted p /\
    cg_in_flight (pl_progress s') = 0%Z.
Proof.
  intros Hs p ended. pose proof (reachable_ok _ _ _ Hs) as [[H1 H2 H3 H4 H5 H6 H7 H8] P2 P3 P4 P5]. split_and!; try done.
  - unfold held. rewrite !length_app, !length_fmap. unfold channel_used in P4.
    assert (length (watermarks_of (pl_running s)) <= length (pl_running s)); [|lia]. unfold watermarks_of. rewrite length_fmap.
    clear. induction (pl_running s) as [|[] l IH]; cbn; lia.
  - destruct (drains s) as (s' & (Hr & Ha & _) & Hh); [rewrite (slots_fixed _ _ Hs); apply start_has_slots|].
    exists s'. assert (rtc pipeline_step (start_cognitive_pipeline buffer limit) s') as Hs' by by etrans.
    apply reachable_ok in Hs' as [[I1 I2 I3 I4 I5 I6 I7 I8] _ _ _ _]. rewrite Hh in *. rewrite app_nil_r in I2.
    split_and!; [done|done| |done]. change (cg_accepted p) with (cg_accepted (pl_progress s)). rewrite <-Ha.
    destruct (decide (cg_completed (pl_progress s') < cg_accepted (pl_progress s'))%Z); [destruct I6; apply I2; lia|].
    destruct (decide (cg_completed (pl_progress s') = 0)%Z); [lia|].
    assert (cg_completed (pl_progress s') ∈ (pl_ended s').*1) as Hc by (apply I5; lia). apply I2 in Hc. lia.
Qed.

(** A sender no other interrupts takes these steps. *)
Lemma enqueue_sync_steps task s w s' : enqueue_sync task s = (Ok w, s') ->
  rtc pipeline_step s s' /\ w = (cg_accepted (pl_progress s) + 1)%Z /\ exists q, pl_queue s' = pl_queue s ++ [q] /\ qt_watermark q = w.
Proof.
  unfold enqueue_sync. destruct (try_reserve s) as [s1|] eqn:Hr; [|done].
  assert (pl_progress s1 = pl_progress s /\ pl_queue s1 = pl_queue s /\ 0 < pl_permits s1) as (Hp & Hq & Hpos).
  { unfold try_reserve in Hr. destruct (pl_closed s); [done|]. destruct (_ <=? _); [done|]. injection Hr as <-. cbn. split_and!; [done|done|lia]. }
  destruct (enqueue_accept task s1) as [[w1|] s2] eqn:Ha; [|done]. intros [= -> <-].
  pose proof (step_accept task s1 Hpos) as Hstep. rewrite Ha in Hstep. cbn [snd] in Hstep.
  unfold enqueue_accept in Ha. rewrite Hp in Ha. unfold accept, u64_checked_add in Ha. destruct (_ <=? _)%Z; [|done]. cbn [ok_or] in Ha.
  destruct (cg_in_flight (pl_progress s) + 1 <=? _)%Z; [|done]. cbn in Ha. injection Ha as <- <-.
  split_and!; [|done|].
  - eapply rtc_l; [by apply step_reserve|]. eapply rtc_l; [exact Hstep|]. apply rtc_once, step_send.
  - unfold enqueue_send. cbn [pl_sending with_progress with_channel]. rewrite length_app, Nat.add_1_r. cbn [Nat.pred].
    rewrite lookup_app_r, Nat.sub_diag by lia. cbn. rewrite Hq. by eexists.
Qed.

(** ** Two tasks, the second ends first *)

Definition some_task : CognitiveTask := Task_LinkSimilarity "a" "kernel".
Definition two_queued : Pipeline := (enqueue_sync some_task (enqueue_sync some_task (start_cognitive_pipeline 4 2)).2).2.
Definition received (s : Pipeline) : Pipeline := default s (worker_receive s).
Definition second_ended : Pipeline := task_end 1 (task_record 1 Outcome_OtherSucceeded (received (received two_queued))).

Lemma enqueue_reached s : (enqueue_sync some_task s).1 = Ok (cg_accepted (pl_progress s) + 1)%Z -> rtc pipeline_step s (enqueue_sync some_task s).2.
Proof.
  intros He. destruct (enqueue_sync some_task s) as [r s'] eqn:Hs. cbn in He. subst r. by apply enqueue_sync_steps in Hs as [Hr _].
Qed.
Lemma received_reached s : rtc pipeline_step s (received s).
Proof. unfold received. destruct (worker_receive s) eqn:Hr; [by apply rtc_once, step_receive | done]. Qed.
Lemma second_reached : rtc pipeline_step (start_cognitive_pipeline 4 2) second_ended.
Proof.
  unfold second_ended, two_queued. etrans; [apply (enqueue_reached (start_cognitive_pipeline 4 2)); by vm_compute|].
  etrans; [apply enqueue_reached; by vm_compute|].
  etrans; [apply received_reached|]. etrans; [apply received_reached|].
  eapply rtc_l; [apply step_record|]. apply rtc_once, step_end.
Qed.
Lemma second_held : held second_ended = [1%Z] /\ cg_completed (pl_progress second_ended) = 0%Z.
Proof. by vm_compute. Qed.

Lemma watermark_is_exact_witness : cg_completed (pl_progress second_ended) = 0%Z /\ cg_in_flight (pl_progress second_ended) = 1%Z.
Proof.
  destruct second_held as [Hh Hc]. split; [exact Hc|].
  destruct (watermark_is_exact 4 2 second_ended second_reached) as (_ & _ & _ & _ & Hf & _). rewrite Hh in Hf. exact Hf.
Defined.
