(* ===== verification/SemanticFS.v ===== *)
(** * The semantic file system ([src/src/fs/semantic_fs/mod.rs])

    Objects under content identifiers, found by tags: creation, reading,
    update, soft deletion and restoring, over the object store, the tag index,
    the recycle bin, the two search indexes, the knowledge graph and the audit
    log; the files behind the tag index and the bin; opening and rebuilding. *)

From stdpp Require Import base gmap strings list sorting.
From S2P Require Import Prelude CircuitBreaker Text Float32 MemoryModel LedgerModel Wire ObjectStorage CognitivePipeline Permission CostLedger ApiRequest GraphModel Graph GraphStore SearchIndex.

Definition MAX_SNIPPET_LEN : nat := N.to_nat 1024.
Definition MAX_AUDIT_LOG : nat := N.to_nat 10000.
Definition RECYCLE_BIN_TTL_MS : Z := 30 * 24 * 60 * 60 * 1000.
Definition SIMILARITY_THRESHOLD : f32 := f32_div (f32_of_Z 3) (f32_of_Z 4).
Definition MAX_SIMILAR_EDGES : nat := 3.

Record RecycleEntry := mkRecycle { re_cid : string; re_deleted_at : Z; re_original_meta : AIObjectMeta }.

Inductive AuditAction : Type := Audit_Create | Audit_Update (previous_cid : string) | Audit_Delete.
Record AuditEntry := mkAudit { au_timestamp : Z; au_action : AuditAction; au_cid : string; au_agent_id : string }.

Record SearchResult := mkResult { rs_cid : string; rs_relevance : f32; rs_meta : AIObjectMeta; rs_snippet : string }.

Inductive Query : Type :=
  | ByCid (cid : string)
  | ByTags (tags : list string)
  | Semantic (text : string) (filter : option SearchFilter)
  | ByType (content_type : string)
  | Hybrid (tags : list string) (semantic content_type : option string).

(** [format!("{:?}", content_type).to_lowercase()], which is also its display. *)
Definition content_type_name (c : ContentType) : string :=
  match c with
  | Content_Text => "text" | Content_Image => "image" | Content_Audio => "audio" | Content_Video => "video"
  | Content_Structured => "structured" | Content_Binary => "binary" | Content_Unknown => "unknown"
  end.

Section fs.
Context `{Platform} `{!Serde AIObject} `{!Serde (gmap string AccessEntry)}.
Context `{HashIter} `{GraphCodec} `{SemanticSearch} `{Bm25Engine}.
(** [serde_json] at the recycle bin and at the tag index. *)
Variable bin_to_vec : gmap string RecycleEntry -> option string.
Variable bin_from_slice : string -> option (gmap string RecycleEntry).
Variable tags_to_vec : gmap string (list string) -> option string.
Variable tags_from_slice : string -> option (gmap string (list string)).

Record SemanticFS := mkFS {
  fs_cas : CASStorage;
  fs_tag_index : gmap string (list string);
  fs_recycle_bin : gmap string RecycleEntry;
  fs_audit_log : list AuditEntry;
  fs_search_index : index_state;
  fs_bm25_index : engine;
  fs_knowledge_graph : option PetgraphBackend;
  (** The queue of the background pipeline, when there is one. *)
  fs_pipeline : option (list CognitiveTask);
  fs_cost_ledger : option TokenCostLedger;
  fs_tag_file : option string;
  fs_bin_file : option string;
}.

Definition with_cas (cas : CASStorage) (fs : SemanticFS) : SemanticFS :=
  mkFS cas (fs_tag_index fs) (fs_recycle_bin fs) (fs_audit_log fs) (fs_search_index fs) (fs_bm25_index fs) (fs_knowledge_graph fs)
    (fs_pipeline fs) (fs_cost_ledger fs) (fs_tag_file fs) (fs_bin_file fs).
Definition with_tag_index (m : gmap string (list string)) (fs : SemanticFS) : SemanticFS :=
  mkFS (fs_cas fs) m (fs_recycle_bin fs) (fs_audit_log fs) (fs_search_index fs) (fs_bm25_index fs) (fs_knowledge_graph fs)
    (fs_pipeline fs) (fs_cost_ledger fs) (fs_tag_file fs) (fs_bin_file fs).
Definition with_bin (m : gmap string RecycleEntry) (fs : SemanticFS) : SemanticFS :=
  mkFS (fs_cas fs) (fs_tag_index fs) m (fs_audit_log fs) (fs_search_index fs) (fs_bm25_index fs) (fs_knowledge_graph fs)
    (fs_pipeline fs) (fs_cost_ledger fs) (fs_tag_file fs) (fs_bin_file fs).
Definition with_audit (l : list AuditEntry) (fs : SemanticFS) : SemanticFS :=
  mkFS (fs_cas fs) (fs_tag_index fs) (fs_recycle_bin fs) l (fs_search_index fs) (fs_bm25_index fs) (fs_knowledge_graph fs)
    (fs_pipeline fs) (fs_cost_ledger fs) (fs_tag_file fs) (fs_bin_file fs).
Definition with_indexes (v : index_state) (b : engine) (fs : SemanticFS) : SemanticFS :=
  mkFS (fs_cas fs) (fs_tag_index fs) (fs_recycle_bin fs) (fs_audit_log fs) v b (fs_knowledge_graph fs)
    (fs_pipeline fs) (fs_cost_ledger fs) (fs_tag_file fs) (fs_bin_file fs).
Definition with_kg (g : option PetgraphBackend) (fs : SemanticFS) : SemanticFS :=
  mkFS (fs_cas fs) (fs_tag_index fs) (fs_recycle_bin fs) (fs_audit_log fs) (fs_search_index fs) (fs_bm25_index fs) g
    (fs_pipeline fs) (fs_cost_ledger fs) (fs_tag_file fs) (fs_bin_file fs).
Definition with_pipeline (q : option (list CognitiveTask)) (fs : SemanticFS) : SemanticFS :=
  mkFS (fs_cas fs) (fs_tag_index fs) (fs_recycle_bin fs) (fs_audit_log fs) (fs_search_index fs) (fs_bm25_index fs)
    (fs_knowledge_graph fs) q (fs_cost_ledger fs) (fs_tag_file fs) (fs_bin_file fs).
Definition with_ledger (l : option TokenCostLedger) (fs : SemanticFS) : SemanticFS :=
  mkFS (fs_cas fs) (fs_tag_index fs) (fs_recycle_bin fs) (fs_audit_log fs) (fs_search_index fs) (fs_bm25_index fs)
    (fs_knowledge_graph fs) (fs_pipeline fs) l (fs_tag_file fs) (fs_bin_file fs).
Definition with_fs_files (tags bin : option string) (fs : SemanticFS) : SemanticFS :=
  mkFS (fs_cas fs) (fs_tag_index fs) (fs_recycle_bin fs) (fs_audit_log fs) (fs_search_index fs) (fs_bm25_index fs)
    (fs_knowledge_graph fs) (fs_pipeline fs) (fs_cost_ledger fs) tags bin.

(** What a call draws from outside: the clock, how its accesses to the store,
    its graph transactions and its file writes end, what the embedding provider
    answers with the tokens it counts, and whether the pipeline takes the task. *)
Record FsEnv := mkFsEnv {
  fe_now : Z;
  fe_put : PutIo;
  fe_access : AccessIo;
  fe_read : string -> option IoError;
  fe_graph : GraphEnv;
  fe_embed_document : string -> result EmbedError (list f32 * Z);
  fe_embed_query : string -> result EmbedError (list f32);
  fe_dimension : nat;
  fe_model_name : string;
  fe_enqueue : bool;
  fe_files : PermissionIo;
}.

(** ** The tag index *)

Definition update_tag_index (tags : list string) (cid : string) (m : gmap string (list string)) : gmap string (list string) :=
  foldl (fun m tag => <[tag := default [] (m !! tag) ++ [cid]]> m) m tags.
Definition remove_from_tag_index (tags : list string) (cid : string) (m : gmap string (list string)) : gmap string (list string) :=
  foldl (fun m tag => alter (List.filter (fun c => negb (str_eqb c cid))) tag m) m tags.

(** Each identifier once, in the order it is first met. *)
Definition resolve_tags (m : gmap string (list string)) (tags : list string) : list string :=
  foldl (fun cids cid => if str_mem cid cids then cids else cids ++ [cid]) [] (tags ≫= fun tag => default [] (m !! tag)).

Definition list_tags (fs : SemanticFS) : list string := sort_strings (keys (fs_tag_index fs)).

(** ** The audit log *)

Definition push_audit (entry : AuditEntry) (fs : SemanticFS) : SemanticFS :=
  let log := if (MAX_AUDIT_LOG <=? length (fs_audit_log fs))%nat then tail (fs_audit_log fs) else fs_audit_log fs in
  with_audit (log ++ [entry]) fs.

(** ** Search indexes *)

(** The vector of the answer, or zeros; [true] when it is real. *)
Definition upsert_semantic_index (env : FsEnv) (cid content : string) (meta : AIObjectMeta) (fs : SemanticFS)
    : result EmbedError (option (list f32)) * SemanticFS :=
  let text := from_utf8_lossy content in
  let blank_text := match str_trim text with EmptyString => true | _ => false end in
  let snippet := if blank_text then ""
                 else if (200 <? chars_count text)%nat then chars_take 200 text +:+ "..." else text in
  let bm25 := if blank_text then fs_bm25_index fs else bm25_upsert cid text (fs_bm25_index fs) in
  let fs := with_indexes (fs_search_index fs) bm25 fs in
  let embed_text := if (6000 <? Z.of_nat (String.length text))%Z then chars_take (N.to_nat 6000) text else text in
  let zeros := replicate (fe_dimension env) f32_zero in
  let blank_embed := match str_trim embed_text with EmptyString => true | _ => false end in
  let embedded : result EmbedError (bool * list f32 * option TokenCostLedger) :=
    if blank_embed then Ok (false, zeros, fs_cost_ledger fs)
    else match fe_embed_document env embed_text with
         | Ok (v, tokens) =>
             Ok (true, v, (fun l => record_embedding_with_tokens (fe_now env) l tokens (fe_model_name env) "" (om_created_by meta))
                            <$> fs_cost_ledger fs)
         | Err e => if input_too_large e then Err e else Ok (false, zeros, fs_cost_ledger fs)
         end in
  match embedded with
  | Err e => (Err e, fs)
  | Ok (is_real_embedding, embedding, ledger) =>
      let fs := with_ledger ledger fs in
      let entry := mkIndexMeta cid (om_tags meta) snippet (content_type_name (om_content_type meta)) (om_created_at meta)
                     (om_created_by meta) (om_tenant_id meta) (om_scope meta) None in
      let fs := with_indexes (index_upsert cid embedding entry (fs_search_index fs)) (fs_bm25_index fs) fs in
      (Ok (if is_real_embedding then Some embedding else None), fs)
  end.

(** ** The knowledge graph *)

Fixpoint similar_loop (env : FsEnv) (cid : string) (hits : list SearchHit) (added : nat) (kg : PetgraphBackend) : PetgraphBackend :=
  match hits with
  | [] => kg
  | hit :: hits =>
      if str_eqb (hit_cid hit) cid || f32_gt SIMILARITY_THRESHOLD (hit_score hit) then similar_loop env cid hits added kg
      else if (MAX_SIMILAR_EDGES <=? added)%nat then kg
      else match get_valid_edge_between kg cid (hit_cid hit) (Some Edge_SimilarTo) 0 with
           | Ok (Some _) => similar_loop env cid hits added kg
           | _ =>
               let now := ge_now (fe_graph env) in
               let e1 := edge_new_with_episode now cid (hit_cid hit) Edge_SimilarTo (hit_score hit) cid in
               let e2 := edge_new_with_episode now (hit_cid hit) cid Edge_SimilarTo (hit_score hit) cid in
               let kg := (add_edge (fe_graph env) e1 kg).2 in
               let kg := (add_edge (fe_graph env) e2 kg).2 in
               similar_loop env cid hits (S added) kg
           end
  end.
Definition add_similar_to_edges (env : FsEnv) (cid : string) (embedding : option (list f32)) (fs : SemanticFS) : SemanticFS :=
  match fs_knowledge_graph fs, embedding with
  | Some kg, Some v =>
      with_kg (Some (similar_loop env cid (index_search v (S MAX_SIMILAR_EDGES) default_filter (fs_search_index fs)) 0 kg)) fs
  | _, _ => fs
  end.

(** [None] is a panic. *)
Definition kg_upsert_document (env : FsEnv) (cid : string) (tags : list string) (agent_id : string) (fs : SemanticFS)
    : option SemanticFS :=
  match fs_knowledge_graph fs with
  | None => Some fs
  | Some kg => '(_, kg) ← upsert_document (fe_graph env) cid tags agent_id kg; Some (with_kg (Some kg) fs)
  end.
Definition kg_remove (env : FsEnv) (cid : string) (fs : SemanticFS) : SemanticFS :=
  match fs_knowledge_graph fs with
  | None => fs
  | Some kg => with_kg (Some (remove_node (fe_graph env) cid kg).2) fs
  end.

(** ** The recycle bin *)

Definition persist_recycle_bin (env : FsEnv) (fs : SemanticFS) : SemanticFS :=
  let fs := with_bin (filter (fun kv => u64_saturating_sub (fe_now env) (re_deleted_at kv.2) < RECYCLE_BIN_TTL_MS)%Z
              (fs_recycle_bin fs)) fs in
  match bin_to_vec (fs_recycle_bin fs) with
  | None => fs
  | Some json => with_fs_files (fs_tag_file fs) (atomic_write_bytes (fe_files env) (fs_bin_file fs) json).2 fs
  end.
Definition flush_tag_index (env : FsEnv) (fs : SemanticFS) : SemanticFS :=
  match tags_to_vec (fs_tag_index fs) with
  | None => fs
  | Some json => with_fs_files (atomic_write_bytes (fe_files env) (fs_tag_file fs) json).2 (fs_bin_file fs) fs
  end.
Definition list_deleted (fs : SemanticFS) : list RecycleEntry :=
  stable_sort (fun y x => re_deleted_at x <? re_deleted_at y)%Z (values (fs_recycle_bin fs)).

(** ** Creating *)

Definition cas_get (env : FsEnv) (cid : string) (fs : SemanticFS) : result CASError AIObject * SemanticFS :=
  let '(r, cas) := get (fe_access env) (fs_cas fs) (fe_read env cid) cid in (r, with_cas cas fs).

Definition created_meta (env : FsEnv) (content : string) (tags : list string) (created_by : string) (intent : option string)
    (scope : ObjectScope) : AIObjectMeta :=
  mkMeta (if utf8_ok content then Content_Text else Content_Unknown) tags created_by (fe_now env) intent DEFAULT_TENANT scope.

(** Through the pipeline, or here when there is none or it does not take the task. *)
Definition process_created (env : FsEnv) (cid content : string) (meta : AIObjectMeta) (fs : SemanticFS) : SemanticFS :=
  let force_chunking := (200000 <? Z.of_nat (String.length content))%Z in
  match fs_pipeline fs, fe_enqueue env with
  | Some queue, true => with_pipeline (Some (queue ++ [Task_ProcessDocument cid (om_created_by meta) force_chunking])) fs
  | _, _ =>
      let '(r, fs) := upsert_semantic_index env cid content meta fs in
      add_similar_to_edges env cid (match r with Ok v => v | Err _ => None end) fs
  end.

Definition create (env : FsEnv) (content : string) (tags : list string) (created_by : string) (intent : option string)
    (scope : ObjectScope) (fs : SemanticFS) : option (result IoError string * SemanticFS) :=
  let meta := created_meta env content tags created_by intent scope in
  match put (fs_cas fs) (fe_put env) (object_new content meta) with
  | (Err e, cas) => Some (Err e, with_cas cas fs)
  | (Ok cid, cas) =>
      let fs := with_tag_index (update_tag_index tags cid (fs_tag_index fs)) (with_cas cas fs) in
      fs ← kg_upsert_document env cid tags created_by fs;
      let fs := process_created env cid content meta fs in
      Some (Ok cid, push_audit (mkAudit (fe_now env) Audit_Create cid created_by) fs)
  end.

Definition create_with_embedding (env : FsEnv) (content : string) (tags : list string) (created_by : string)
    (intent : option string) (scope : ObjectScope) (precomputed : list f32) (skip_kg_edges : bool) (fs : SemanticFS)
    : option (result IoError string * SemanticFS) :=
  let meta := created_meta env content tags created_by intent scope in
  match put (fs_cas fs) (fe_put env) (object_new content meta) with
  | (Err e, cas) => Some (Err e, with_cas cas fs)
  | (Ok cid, cas) =>
      let fs := with_tag_index (update_tag_index tags cid (fs_tag_index fs)) (with_cas cas fs) in
      let text := from_utf8_lossy content in
      snippet ← (if (200 <? String.length text)%nat then '(a, _) ← split_at text 200; Some (a +:+ "...") else Some text);
      let entry := mkIndexMeta cid (om_tags meta) snippet (content_type_name (om_content_type meta)) (om_created_at meta)
                     (om_created_by meta) (om_tenant_id meta) (om_scope meta) None in
      let fs := with_indexes (index_upsert cid precomputed entry (fs_search_index fs))
                  (match str_trim text with EmptyString => fs_bm25_index fs | _ => bm25_upsert cid text (fs_bm25_index fs) end) fs in
      fs ← kg_upsert_document env cid tags created_by fs;
      let fs := if negb (is_stub precomputed) && negb skip_kg_edges then add_similar_to_edges env cid (Some precomputed) fs else fs in
      Some (Ok cid, push_audit (mkAudit (fe_now env) Audit_Create cid "") fs)
  end.

(** ** Reading *)

Fixpoint get_each (env : FsEnv) (cids : list string) (fs : SemanticFS) : list AIObject * SemanticFS :=
  match cids with
  | [] => ([], fs)
  | cid :: cids =>
      let '(r, fs) := cas_get env cid fs in
      let '(objects, fs) := get_each env cids fs in
      (match r with Ok o => o :: objects | Err _ => objects end, fs)
  end.

Definition read_tags (env : FsEnv) (tags : list string) (fs : SemanticFS) : list AIObject * SemanticFS :=
  get_each env (resolve_tags (fs_tag_index fs) tags) fs.
Definition read_filtered (env : FsEnv) (filter : SearchFilter) (fs : SemanticFS) : list AIObject * SemanticFS :=
  get_each env (index_list filter (fs_search_index fs)) fs.
Definition read_similar (env : FsEnv) (query : list f32) (filter : SearchFilter) (fs : SemanticFS) : list AIObject * SemanticFS :=
  get_each env (hit_cid <$> index_search query 10 filter (fs_search_index fs)) fs.

Definition fs_read (env : FsEnv) (query : Query) (fs : SemanticFS) : result IoError (list AIObject) * SemanticFS :=
  let ok (r : list AIObject * SemanticFS) := (Ok r.1, r.2) in
  match query with
  | ByCid cid =>
      let '(r, fs) := cas_get env cid fs in
      (match r with Ok o => Ok [o] | Err _ => Err IoNotFound end, fs)
  | ByTags tags => ok (read_tags env tags fs)
  | Semantic text filter =>
      match fe_embed_query env text with
      | Ok v => ok (read_similar env v (default default_filter filter) fs)
      | Err _ => ok (read_tags env (split_whitespace text) fs)
      end
  | ByType content_type => ok (read_filtered env (mkFilter [] [] (Some content_type) None None None None) fs)
  | Hybrid tags semantic content_type =>
      let filter := mkFilter tags [] content_type None None None None in
      match semantic with
      | Some text =>
          match fe_embed_query env text with
          | Ok v => ok (read_similar env v filter fs)
          | Err _ => ok (read_filtered env filter fs)
          end
      | None => ok (read_filtered env filter fs)
      end
  end.

(** ** Updating, deleting, restoring *)

Definition supersede (env : FsEnv) (new_cid old_cid : string) (fs : SemanticFS) : SemanticFS :=
  match fs_knowledge_graph fs with
  | None => fs
  | Some kg =>
      with_kg (Some (add_edge (fe_graph env) (edge_new (ge_now (fe_graph env)) new_cid old_cid Edge_Supersedes f32_one) kg).2) fs
  end.

Definition update (env : FsEnv) (old_cid new_content : string) (new_tags : option (list string)) (agent_id : string)
    (fs : SemanticFS) : option (result IoError string * SemanticFS) :=
  match cas_get env old_cid fs with
  | (Err _, fs) => Some (Err IoNotFound, fs)
  | (Ok old_obj, fs) =>
      let old := ob_meta old_obj in
      let final_tags := default (om_tags old) new_tags in
      let new_meta := mkMeta (om_content_type old) final_tags (om_created_by old) (fe_now env) (om_intent old)
                        (om_tenant_id old) (om_scope old) in
      match put (fs_cas fs) (fe_put env) (object_new new_content new_meta) with
      | (Err e, cas) => Some (Err e, with_cas cas fs)
      | (Ok new_cid, cas) =>
          let fs := with_cas cas fs in
          let fs := with_tag_index (remove_from_tag_index (om_tags old) old_cid (fs_tag_index fs)) fs in
          let fs := with_tag_index (update_tag_index final_tags new_cid (fs_tag_index fs)) fs in
          let fs := with_indexes (index_delete old_cid (fs_search_index fs)) (fs_bm25_index fs) fs in
          let '(r, fs) := upsert_semantic_index env new_cid new_content new_meta fs in
          fs ← kg_upsert_document env new_cid final_tags (om_created_by old) fs;
          let fs := add_similar_to_edges env new_cid (match r with Ok v => v | Err _ => None end) fs in
          let fs := supersede env new_cid old_cid fs in
          Some (Ok new_cid, push_audit (mkAudit (fe_now env) (Audit_Update old_cid) new_cid agent_id) fs)
      end
  end.

Definition fs_delete (env : FsEnv) (cid agent_id : string) (fs : SemanticFS) : result IoError unit * SemanticFS :=
  match cas_get env cid fs with
  | (Err e, fs) => (Err (io_error_of e), fs)
  | (Ok obj, fs) =>
      let fs := with_bin (<[cid := mkRecycle cid (fe_now env) (ob_meta obj)]> (fs_recycle_bin fs)) fs in
      let fs := with_indexes (index_delete cid (fs_search_index fs)) (bm25_remove cid (fs_bm25_index fs)) fs in
      let fs := kg_remove env cid fs in
      let fs := with_tag_index (remove_from_tag_index (om_tags (ob_meta obj)) cid (fs_tag_index fs)) fs in
      let fs := push_audit (mkAudit (fe_now env) Audit_Delete cid agent_id) fs in
      (Ok tt, persist_recycle_bin env fs)
  end.

Definition fs_restore (env : FsEnv) (cid agent_id : string) (fs : SemanticFS) : option (result IoError unit * SemanticFS) :=
  match fs_recycle_bin fs !! cid with
  | None => Some (Err IoNotFound, fs)
  | Some entry =>
      let fs := with_bin (delete cid (fs_recycle_bin fs)) fs in
      let fs := with_tag_index (update_tag_index (om_tags (re_original_meta entry)) cid (fs_tag_index fs)) fs in
      let '(r, fs) := cas_get env cid fs in
      let fs := match r with
                | Ok obj =>
                    let '(r, fs) := upsert_semantic_index env cid (ob_data obj) (ob_meta obj) fs in
                    add_similar_to_edges env cid (match r with Ok v => v | Err _ => None end) fs
                | Err _ => fs
                end in
      fs ← kg_upsert_document env cid (om_tags (re_original_meta entry)) (om_created_by (re_original_meta entry)) fs;
      let fs := persist_recycle_bin env fs in
      Some (Ok tt, push_audit (mkAudit (fe_now env) Audit_Create cid agent_id) fs)
  end.

(** ** Searching tags *)

Definition result_snippet (data : string) : string :=
  from_utf8_lossy (String.substring 0 (Nat.min MAX_SNIPPET_LEN (String.length data)) data).

(** The loop over identifiers that stops once [limit] results are held. *)
Fixpoint collect_results (env : FsEnv) (relevance : f32) (limit : nat) (cids : list string) (results : list SearchResult)
    (fs : SemanticFS) : list SearchResult * SemanticFS :=
  match cids with
  | [] => (results, fs)
  | cid :: cids =>
      if (limit <=? length results)%nat then (results, fs)
      else
        let '(r, fs) := cas_get env cid fs in
        let results := match r with
                       | Ok obj => results ++ [mkResult cid relevance (ob_meta obj) (result_snippet (ob_data obj))]
                       | Err _ => results
                       end in
        collect_results env relevance limit cids results fs
  end.

Definition f32_0_8 : f32 := f32_div (f32_of_Z 8) (f32_of_Z 10).
Definition f32_0_9 : f32 := f32_div (f32_of_Z 9) (f32_of_Z 10).

Definition search_by_tags (env : FsEnv) (tags : list string) (limit : nat) (fs : SemanticFS) : list SearchResult * SemanticFS :=
  foldl (fun rf tag => collect_results env f32_0_8 limit (default [] (fs_tag_index fs !! tag)) rf.1 rf.2) ([], fs) tags.

(** The identifiers under every tag; [None] with no tag. *)
Fixpoint intersect_tags (m : gmap string (list string)) (tags : list string) (candidates : option (gset string))
    : option (gset string) :=
  match tags with
  | [] => candidates
  | tag :: tags =>
      match m !! tag with
      | None => Some ∅
      | Some cids =>
          let set := match candidates with Some c => c ∩ list_to_set cids | None => list_to_set cids end in
          match candidates with
          | Some _ => if bool_decide (set = ∅) then Some ∅ else intersect_tags m tags (Some set)
          | None => intersect_tags m tags (Some set)
          end
      end
  end.

(** The set comes out in the order of its hashes, [order]. *)
Definition search_by_tags_intersection (order : gset string -> list string) (env : FsEnv) (tags : list string) (limit : nat)
    (fs : SemanticFS) : list SearchResult * SemanticFS :=
  match intersect_tags (fs_tag_index fs) tags None with
  | None => ([], fs)
  | Some cids => collect_results env f32_0_9 limit (order cids) [] fs
  end.

Definition count_objects (fs : SemanticFS) : nat := length (list_cids (fs_cas fs)).

(** ** Opening *)

(** [listing] is whether the directory can be listed. *)
Definition rebuild_tag_index (env : FsEnv) (listing : bool) (cas : CASStorage) (bin : gmap string RecycleEntry)
    : gmap string (list string) :=
  if listing then
    foldl (fun m cid =>
      if opt_is_some (bin !! cid) then m
      else match get_raw cas (fe_read env cid) cid with
           | Ok obj => update_tag_index (om_tags (ob_meta obj)) cid m
           | Err _ => m
           end) ∅ (list_cids cas)
  else ∅.

(** The objects with text, that are not in the bin. *)
Definition indexable (env : FsEnv) (cas : CASStorage) (bin : gmap string RecycleEntry) : list (string * string * AIObjectMeta) :=
  omap (fun cid =>
    if opt_is_some (bin !! cid) then None
    else match get_raw cas (fe_read env cid) cid with
         | Err _ => None
         | Ok obj =>
             if is_multimedia (om_content_type (ob_meta obj)) || negb (utf8_ok (ob_data obj)) then None
             else match str_trim (ob_data obj) with
                  | EmptyString => None
                  | text => Some (cid, text, ob_meta obj)
                  end
         end) (list_cids cas).

Definition BATCH_SIZE : nat := N.to_nat 256.
Definition rebuilt_meta (cid text : string) (meta : AIObjectMeta) : SearchIndexMeta :=
  mkIndexMeta cid (om_tags meta) (chars_take (N.to_nat 256) text) (content_type_name (om_content_type meta)) (om_created_at meta)
    (om_created_by meta) (om_tenant_id meta) (om_scope meta) None.

(** Batches until one fails; [fuel] is their number. *)
Fixpoint embed_batches (embed_batch : list string -> result EmbedError (list (list f32))) (fuel : nat)
    (entries : list (string * string * AIObjectMeta)) (v : index_state) : index_state :=
  match fuel, entries with
  | S fuel, _ :: _ =>
      let chunk := take BATCH_SIZE entries in
      match embed_batch ((fun e => e.1.2) <$> chunk) with
      | Err _ => v
      | Ok results =>
          let v := foldl (fun v er => let '((cid, text, meta), r) := er in index_upsert cid r (rebuilt_meta cid text meta) v)
                     v (zip chunk results) in
          embed_batches embed_batch fuel (drop BATCH_SIZE entries) v
      end
  | _, _ => v
  end.

Definition rebuild_vector_index (env : FsEnv) (listing : bool) (embed_batch : list string -> result EmbedError (list (list f32)))
    (fs : SemanticFS) : SemanticFS :=
  if listing then
    let entries := indexable env (fs_cas fs) (fs_recycle_bin fs) in
    let bm25 := foldl (fun b e => bm25_upsert e.1.1 e.1.2 b) (fs_bm25_index fs) entries in
    with_indexes (embed_batches embed_batch (length entries) entries (fs_search_index fs)) bm25 fs
  else fs.

(** [SemanticFS::with_reranker_and_cache], whose context directory can be made;
    [readable] tells which of the two files can be read. *)
Definition fs_open (env : FsEnv) (listing readable_bin readable_tags : bool)
    (embed_batch : list string -> result EmbedError (list (list f32)))
    (cas : CASStorage) (v : index_state) (kg : option PetgraphBackend) (ledger : option TokenCostLedger)
    (tag_file bin_file : option string) : SemanticFS :=
  let bin := match bin_file with
             | Some json => if readable_bin then default ∅ (bin_from_slice json) else ∅
             | None => ∅
             end in
  let tags := match tag_file with
              | Some json => match (if readable_tags then tags_from_slice json else None) with
                             | Some m => m
                             | None => rebuild_tag_index env listing cas bin
                             end
              | None => rebuild_tag_index env listing cas bin
              end in
  rebuild_vector_index env listing embed_batch
    (mkFS cas tags bin [] v engine_new kg None ledger tag_file bin_file).
End fs.
