(* ===== verification/SemanticFSProps.v ===== *)
(** * The tag index follows the objects

    An abstract catalogue: the tags each object was first stored with, which
    objects are live, and which are deleted since when.  The tag index holds
    exactly the live objects under their tags after any run that stores each
    content once; reading by tags returns exactly those.  A tag index
    rebuilt at start holds every stored object that is not in the bin: those that
    were replaced and those whose deletion has expired come back.  Content stored
    a second time keeps its first tags, so that a deletion leaves it under the
    others. *)

From stdpp Require Import base gmap strings list sorting.
From S2P Require Import Prelude CircuitBreaker Text Float32 MemoryModel LedgerModel Wire ObjectStorage Permission CostLedger ApiRequest GraphModel Graph GraphStore GraphSync SearchIndex SemanticFS.

(** ** The tag index *)

Section index.
Implicit Types m : gmap string (list string).

Definition tagged m (tag : string) : list string := default [] (m !! tag).

Lemma elem_update_tag_index tags cid m t c :
  c ∈ tagged (update_tag_index tags cid m) t <-> c ∈ tagged m t \/ (c = cid /\ t ∈ tags).
Proof.
  revert m. induction tags as [|tag tags IH]; intros m; [cbn; rewrite elem_of_nil; naive_solver|].
  change (update_tag_index (tag :: tags) cid m) with (update_tag_index tags cid (<[tag := default [] (m !! tag) ++ [cid]]> m)).
  rewrite IH, elem_of_cons. unfold tagged at 1. destruct (decide (t = tag)) as [-> |Hne].
  - rewrite lookup_insert_eq. cbn. rewrite elem_of_app, list_elem_of_singleton. unfold tagged. naive_solver.
  - rewrite lookup_insert_ne by done. fold (tagged m t). naive_solver.
Qed.

Lemma elem_remove_from_tag_index tags cid m t c :
  c ∈ tagged (remove_from_tag_index tags cid m) t <-> c ∈ tagged m t /\ ~ (c = cid /\ t ∈ tags).
Proof.
  revert m. induction tags as [|tag tags IH]; intros m; [cbn; rewrite elem_of_nil; naive_solver|].
  change (remove_from_tag_index (tag :: tags) cid m) with
    (remove_from_tag_index tags cid (alter (List.filter (fun c => negb (str_eqb c cid))) tag m)).
  rewrite IH, elem_of_cons. unfold tagged at 1. destruct (decide (t = tag)) as [-> |Hne].
  - rewrite lookup_alter_eq. unfold tagged. destruct (m !! tag) as [l|]; cbn; [|set_solver].
    rewrite elem_of_lfilter. unfold str_eqb. rewrite negb_true_iff, bool_decide_eq_false. naive_solver.
  - rewrite lookup_alter_ne by done. fold (tagged m t). naive_solver.
Qed.

Lemma foldl_first_spec (l acc : list string) :
  NoDup acc ->
  let r := foldl (fun cids cid => if str_mem cid cids then cids else cids ++ [cid]) acc l in
  NoDup r /\ forall c, c ∈ r <-> c ∈ acc \/ c ∈ l.
Proof.
  revert acc. induction l as [|x l IH]; intros acc Hn; cbn; [split; [done|]; set_solver|].
  unfold str_mem. destruct (bool_decide_reflect (x ∈ acc)) as [Hx|Hx].
  - destruct (IH acc Hn) as [Hr He]. split; [done|]. intros c. unfold str_mem in He. rewrite He. set_solver.
  - destruct (IH (acc ++ [x])) as [Hr He]; [apply NoDup_app; split_and!; [done|set_solver|apply NoDup_singleton]|].
    split; [done|]. intros c. unfold str_mem in He. rewrite He. set_solver.
Qed.

Lemma resolve_tags_spec m tags :
  NoDup (resolve_tags m tags) /\ forall c, c ∈ resolve_tags m tags <-> exists t, t ∈ tags /\ c ∈ tagged m t.
Proof.
  unfold resolve_tags. destruct (foldl_first_spec (tags ≫= fun tag => default [] (m !! tag)) []) as [Hn He]; [constructor|].
  split; [done|]. intros c. rewrite He, list_elem_of_bind. unfold tagged. set_solver.
Qed.
End index.

Section props.
Context `{Platform} `{!Serde AIObject} `{!Serde (gmap string AccessEntry)}.
Context `{HashIter} `{GraphCodec} `{SemanticSearch} `{Bm25Engine}.
Variable bin_to_vec : gmap string RecycleEntry -> option string.
Variable tags_to_vec : gmap string (list string) -> option string.
Hypothesis objects_read_back : forall (o : AIObject) b, to_vec o = Some b -> from_slice b = Some o.
Implicit Types fs : SemanticFS.

(** ** What an operation may touch *)

(** The stored objects, the tag index and the recycle bin. *)
Definition core fs : gmap string bytes * gmap string (list string) * gmap string RecycleEntry :=
  (cas_objects (fs_cas fs), fs_tag_index fs, fs_recycle_bin fs).

Lemma upsert_core env cid content meta fs : core (upsert_semantic_index env cid content meta fs).2 = core fs.
Proof. unfold upsert_semantic_index. by repeat case_match. Qed.
Lemma similar_core env cid v fs : core (add_similar_to_edges env cid v fs) = core fs.
Proof. unfold add_similar_to_edges. by repeat case_match. Qed.
Lemma kg_upsert_core env cid tags agent fs fs' : kg_upsert_document env cid tags agent fs = Some fs' -> core fs' = core fs.
Proof.
  unfold kg_upsert_document. destruct (fs_knowledge_graph fs) as [kg|]; [|by intros [= <-]].
  destruct (upsert_document _ _ _ _ _) as [[r g]|]; [|done]. by intros [= <-].
Qed.
Lemma kg_remove_core env cid fs : core (kg_remove env cid fs) = core fs.
Proof. unfold kg_remove. by case_match. Qed.
Lemma supersede_core env a b fs : core (supersede env a b fs) = core fs.
Proof. unfold supersede. by case_match. Qed.
Lemma audit_core e fs : core (push_audit e fs) = core fs.
Proof. done. Qed.
Lemma process_core env cid content meta fs : core (process_created env cid content meta fs) = core fs.
Proof.
  unfold process_created. destruct (fs_pipeline fs) as [q|], (fe_enqueue env); try done;
    pose proof (upsert_core env cid content meta fs) as Hu; destruct (upsert_semantic_index env cid content meta fs) as [r fs1];
    by rewrite similar_core.
Qed.
Lemma cas_get_core env cid fs : core (cas_get env cid fs).2 = core fs.
Proof.
  unfold cas_get. pose proof (step_objects (fs_cas fs) (Cas_get (fe_access env) (fe_read env cid) cid)) as Ho. cbn in Ho.
  destruct (get _ _ _ _) as [r cas]. unfold core. cbn. cbn in Ho. by rewrite Ho.
Qed.

(** ** Objects *)

Definition object_at fs (cid : string) : option AIObject :=
  match get_raw (fs_cas fs) None cid with Ok o => Some o | Err _ => None end.

Lemma object_at_core fs fs' cid : cas_objects (fs_cas fs') = cas_objects (fs_cas fs) -> object_at fs' cid = object_at fs cid.
Proof.
  unfold object_at. intros Hc. pose proof (get_raw_objects (fs_cas fs') (fs_cas fs) None cid Hc) as Hg.
  destruct (get_raw (fs_cas fs') None cid); [by rewrite Hg|]. by destruct (get_raw (fs_cas fs) None cid).
Qed.

Lemma cas_get_object env cid fs :
  match (cas_get env cid fs).1 with
  | Ok o => object_at fs cid = Some o
  | Err _ => fe_read env cid = None -> object_at fs cid = None
  end.
Proof.
  unfold cas_get, get. destruct (get_raw (fs_cas fs) (fe_read env cid) cid) as [o|e] eqn:Hg; cbn.
  - unfold object_at. destruct (fe_read env cid) as [io|] eqn:Hr; [|by rewrite Hg].
    unfold get_raw in Hg. destruct (validate_cid cid); [|done]. cbn in Hg. destruct (negb _); [done|]. by destruct (cas_objects (fs_cas fs) !! cid).
  - intros Hr. unfold object_at. rewrite Hr in Hg. by rewrite Hg.
Qed.

Lemma object_at_stored fs cid o : store_ok (fs_cas fs) -> object_at fs cid = Some o -> ob_cid o = cid /\ is_Some (cas_objects (fs_cas fs) !! cid).
Proof.
  intros Hok. unfold object_at. pose proof (get_raw_spec objects_read_back (fs_cas fs) cid Hok) as Hs.
  destruct (get_raw _ _ _) as [o'|]; [|done]. intros [= <-]. destruct Hs as (_ & b & Hb & _ & Hc). by rewrite Hb.
Qed.
Lemma object_at_none fs cid : store_ok (fs_cas fs) -> cas_objects (fs_cas fs) !! cid = None -> object_at fs cid = None.
Proof.
  intros Hok Hn. destruct (object_at fs cid) as [o|] eqn:Ho; [|done]. apply object_at_stored in Ho as [_ [b Hb]]; [|done]. congruence.
Qed.

Lemma object_at_file fs cid : store_ok (fs_cas fs) ->
  object_at fs cid = match cas_objects (fs_cas fs) !! cid with Some b => from_slice b | None => None end.
Proof.
  intros Hok. unfold object_at. pose proof (get_raw_spec objects_read_back (fs_cas fs) cid Hok) as Hs.
  destruct (cas_objects (fs_cas fs) !! cid) as [b|] eqn:Hb; destruct (get_raw _ _ _) as [o|e].
  - destruct Hs as (_ & b' & [= <-] & Ho & _). by rewrite (objects_read_back _ _ Ho).
  - destruct (Hok _ _ Hb) as (? & _ & _ & _ & Hv). by destruct (Hs Hv).
  - by destruct Hs as (_ & ? & ? & _).
  - done.
Qed.

(** A stored object of new content is read back, the others as before. *)
Lemma put_fresh fs io o cid cas' :
  store_ok (fs_cas fs) -> put (fs_cas fs) io o = (Ok cid, cas') -> object_at fs (ob_cid o) = None ->
  cid = ob_cid o /\ store_ok cas' /\ forall c, object_at (with_cas cas' fs) c = if decide (c = cid) then Some o else object_at fs c.
Proof.
  intros Hok Hp Hn. pose proof (store_ok_step (fs_cas fs) (Cas_put io o) Hok) as Hok'. cbn in Hok'. rewrite Hp in Hok'. cbn in Hok'.
  apply put_cases in Hp as [(E & -> & [b Hb] & Hv & _)|[(b & E & Hnone & Hb & Hv & Hi & Hc)|[E _]]]; [| |done].
  - exfalso. destruct (Hok _ _ Hb) as (o' & Ho' & _). rewrite (object_at_file _ _ Hok), Hb in Hn. cbn in Hn.
    by rewrite (objects_read_back _ _ Ho') in Hn.
  - apply Ok_inj in E as ->. split_and!; [done..|]. intros c.
    rewrite (object_at_file (with_cas cas' fs)), (object_at_file _ _ Hok) by done. cbn [with_cas fs_cas]. rewrite Hc.
    destruct (decide (c = ob_cid o)) as [-> |Hne]; [|by rewrite lookup_insert_ne].
    rewrite lookup_insert_eq. cbn. apply (objects_read_back _ _ Hb).
Qed.

(** ** The catalogue *)

Record Catalogue := mkCatalogue {
  known : gmap string (list string);
  live : gset string;
  gone : gmap string Z;
}.

Definition purge (now : Z) (m : gmap string Z) : gmap string Z :=
  filter (fun kv => u64_saturating_sub now kv.2 < RECYCLE_BIN_TTL_MS)%Z m.

Record tracks (S : Catalogue) fs : Prop := {
  tr_ok : store_ok (fs_cas fs);
  tr_known : forall c, known S !! c = (fun o => om_tags (ob_meta o)) <$> object_at fs c;
  tr_index : forall t c, c ∈ tagged (fs_tag_index fs) t <-> c ∈ live S /\ exists tags, known S !! c = Some tags /\ t ∈ tags;
  tr_bin : re_deleted_at <$> fs_recycle_bin fs = gone S;
  tr_bin_tags : forall c e, fs_recycle_bin fs !! c = Some e -> known S !! c = Some (om_tags (re_original_meta e));
}.

Lemma tracks_core S fs fs' : core fs' = core fs -> tracks S fs -> tracks S fs'.
Proof.
  unfold core. intros [= Hc Ht Hb] [Hok Hk Hi Hg Hgt]. split.
  - intros cid b. rewrite Hc. apply Hok.
  - intros c. by rewrite (object_at_core fs fs').
  - by rewrite Ht.
  - by rewrite Hb.
  - by rewrite Hb.
Qed.

(** ** Operations and their answers *)

Inductive FsOp : Type :=
  | Fs_Create (env : FsEnv) (content : string) (tags : list string) (created_by : string) (intent : option string) (scope : ObjectScope)
  | Fs_Update (env : FsEnv) (old_cid content : string) (new_tags : option (list string)) (agent_id : string)
  | Fs_Delete (env : FsEnv) (cid agent_id : string)
  | Fs_Restore (env : FsEnv) (cid agent_id : string)
  | Fs_Read (env : FsEnv) (query : Query)
  | Fs_Flush (env : FsEnv).

(** The identifier an operation succeeded on. *)
Definition answer (r : result IoError string) : option string := match r with Ok cid => Some cid | Err _ => None end.

Definition fs_step (op : FsOp) fs : option (option string * SemanticFS) :=
  match op with
  | Fs_Create env content tags who intent scope =>
      '(r, fs) ← create env content tags who intent scope fs; Some (answer r, fs)
  | Fs_Update env old content new_tags agent =>
      '(r, fs) ← update env old content new_tags agent fs; Some (answer r, fs)
  | Fs_Delete env cid agent =>
      let '(r, fs) := fs_delete bin_to_vec env cid agent fs in Some (if is_ok r then Some cid else None, fs)
  | Fs_Restore env cid agent =>
      '(r, fs) ← fs_restore bin_to_vec env cid agent fs; Some (if is_ok r then Some cid else None, fs)
  | Fs_Read env query => Some (None, (fs_read env query fs).2)
  | Fs_Flush env => Some (None, flush_tag_index tags_to_vec env fs)
  end.

Definition catalogue_step (S : Catalogue) (op : FsOp) (ans : option string) : Catalogue :=
  match op, ans with
  | Fs_Create _ _ tags _ _ _, Some cid => mkCatalogue (<[cid := tags]> (known S)) ({[cid]} ∪ live S) (gone S)
  | Fs_Update _ old _ new_tags _, Some cid =>
      mkCatalogue (<[cid := default (default [] (known S !! old)) new_tags]> (known S)) ({[cid]} ∪ (live S ∖ {[old]})) (gone S)
  | Fs_Delete env _ _, Some cid => mkCatalogue (known S) (live S ∖ {[cid]}) (purge (fe_now env) (<[cid := fe_now env]> (gone S)))
  | Fs_Restore env _ _, Some cid => mkCatalogue (known S) ({[cid]} ∪ live S) (purge (fe_now env) (delete cid (gone S)))
  | _, _ => S
  end.

Definition stored_content (op : FsOp) : option string :=
  match op with Fs_Create _ c _ _ _ _ | Fs_Update _ _ c _ _ => Some c | _ => None end.

(** ** No panic *)

Lemma hex_split cid n : all_bytes hex_byte cid = true -> (n <= String.length cid)%nat -> is_Some (split_at cid n).
Proof.
  intros Hx Hn. unfold split_at. assert (is_char_boundary cid n = true) as ->; [|by eexists].
  unfold is_char_boundary. revert n Hn. induction cid as [|c cid IH]; intros n Hn; cbn in Hn.
  - destruct n; [done|lia].
  - cbn in Hx. apply andb_true_iff in Hx as [Hc Hx]. destruct n as [|n]; cbn.
    + apply negb_true_iff. unfold is_continuation, byte_in. destruct (_ <=? _)%N eqn:E; [|done]. apply N.leb_le in E.
      unfold hex_byte, lower_hex_byte in Hc. exfalso. revert Hc E. generalize (byte_of c). intros b. clear. intros Hc E.
      repeat (apply orb_true_iff in Hc as [Hc|Hc]); apply andb_true_iff in Hc as [_ Hc%N.leb_le]; lia.
    + apply (IH Hx n). lia.
Qed.

Lemma kg_upsert_total env cid tags agent fs :
  validate_cid cid = Ok tt -> exists fs', kg_upsert_document env cid tags agent fs = Some fs'.
Proof.
  intros Hv. unfold kg_upsert_document. destruct (fs_knowledge_graph fs) as [kg|]; [|by eexists].
  assert (all_bytes hex_byte cid = true) as Hx.
  { unfold validate_cid in Hv. destruct (Nat.ltb _ _); [done|]. cbn in Hv. by destruct (all_bytes hex_byte cid). }
  unfold upsert_document. destruct (hex_split cid (Nat.min 8 (String.length cid)) Hx ltac:(lia)) as [[a b] ->]. cbn [mbind option_bind].
  match goal with |- context [add_node ?e ?n ?g] => destruct (add_node e n g) end. by eexists.
Qed.

(** ** Each operation follows the catalogue *)

Lemma tracks_fresh S fs cid : tracks S fs -> known S !! cid = None -> object_at fs cid = None.
Proof. intros Ht. rewrite (tr_known _ _ Ht). by destruct (object_at fs cid). Qed.

(** New content under its tags. *)
Lemma store_tracks S fs io o cid cas' :
  tracks S fs -> known S !! ob_cid o = None -> put (fs_cas fs) io o = (Ok cid, cas') ->
  let tags := om_tags (ob_meta o) in
  cid = ob_cid o /\ validate_cid cid = Ok tt /\
  tracks (mkCatalogue (<[cid := tags]> (known S)) ({[cid]} ∪ live S) (gone S))
    (with_tag_index (update_tag_index tags cid (fs_tag_index fs)) (with_cas cas' fs)).
Proof.
  intros Ht Hn Hp tags. pose proof (put_cases _ _ _ _ _ Hp) as Hv.
  destruct (put_fresh fs _ o cid cas' (tr_ok _ _ Ht) Hp (tracks_fresh _ _ _ Ht Hn)) as (-> & Hok' & Hat).
  split; [done|]. split; [naive_solver|]. clear Hv Hp. destruct Ht as [Hok Hk Hi Hb Hbt]. split; cbn [known live gone].
  - done.
  - intros c. rewrite (object_at_core (with_cas cas' fs)) by done. rewrite Hat.
    destruct (decide (c = ob_cid o)) as [-> |Hne]; [by rewrite lookup_insert_eq | by rewrite lookup_insert_ne, Hk].
  - intros t c. cbn [with_tag_index fs_tag_index]. rewrite elem_update_tag_index, Hi, elem_of_union, elem_of_singleton.
    destruct (decide (c = ob_cid o)) as [-> |Hne].
    + rewrite lookup_insert_eq, Hn. naive_solver.
    + rewrite lookup_insert_ne by done. naive_solver.
  - done.
  - intros c e He. pose proof (Hbt c e He) as Hbe. rewrite lookup_insert_ne; [done | congruence].
Qed.

(** An object out of the index. *)
Lemma remove_tracks S fs cid tags : tracks S fs -> known S !! cid = Some tags ->
  tracks (mkCatalogue (known S) (live S ∖ {[cid]}) (gone S))
    (with_tag_index (remove_from_tag_index tags cid (fs_tag_index fs)) fs).
Proof.
  intros [Hok Hk Hi Hb Hbt] Hc. split; cbn [known live gone]; try done.
  intros t c. cbn [with_tag_index fs_tag_index]. rewrite elem_remove_from_tag_index, Hi, elem_of_difference, elem_of_singleton.
  naive_solver.
Qed.

(** The recycle bin after a save. *)
Lemma persist_bin_core env fs :
  core (persist_recycle_bin bin_to_vec env fs) =
  (cas_objects (fs_cas fs), fs_tag_index fs,
   filter (fun kv => u64_saturating_sub (fe_now env) (re_deleted_at kv.2) < RECYCLE_BIN_TTL_MS)%Z (fs_recycle_bin fs)).
Proof. unfold persist_recycle_bin. by case_match. Qed.

Lemma persist_tracks S fs env : tracks S fs ->
  tracks (mkCatalogue (known S) (live S) (purge (fe_now env) (gone S))) (persist_recycle_bin bin_to_vec env fs).
Proof.
  intros [Hok Hk Hi Hb Hbt]. pose proof (persist_bin_core env fs) as Hc. injection Hc as Hc Ht Hbin.
  split; cbn [known live gone].
  - intros cid b. rewrite Hc. apply Hok.
  - intros c. by rewrite (object_at_core fs).
  - by rewrite Ht.
  - rewrite Hbin, <-Hb. unfold purge. apply map_eq. intros c. rewrite map_lookup_filter, !lookup_fmap, map_lookup_filter.
    destruct (fs_recycle_bin fs !! c) as [e|]; [|done].
    cbn [fmap option_fmap option_map mbind option_bind snd]. by repeat case_guard.
  - intros c e. rewrite Hbin. intros [He _]%map_lookup_filter_Some. by apply Hbt.
Qed.

Lemma create_tracks S fs env content tags who intent scope :
  let op := Fs_Create env content tags who intent scope in
  tracks S fs -> known S !! compute_cid content = None ->
  exists ans fs', fs_step op fs = Some (ans, fs') /\ tracks (catalogue_step S op ans) fs' /\ (ans = None \/ ans = Some (compute_cid content)).
Proof.
  intros op Ht Hn. cbn [op fs_step]. unfold create.
  set (o := object_new content (created_meta env content tags who intent scope)).
  destruct (put (fs_cas fs) (fe_put env) o) as [[cid|e] cas'] eqn:Hp.
  - destruct (store_tracks S fs _ o cid cas' Ht Hn Hp) as (-> & Hval & Ht1).
    destruct (kg_upsert_total env (ob_cid o) tags who
      (with_tag_index (update_tag_index tags (ob_cid o) (fs_tag_index (with_cas cas' fs))) (with_cas cas' fs)) Hval) as [fs2 Hkg].
    cbn [with_cas fs_tag_index] in Hkg. cbn [with_cas fs_tag_index]. rewrite Hkg. cbn [mbind option_bind].
    eexists _, _. split; [done|]. cbn [answer catalogue_step]. split; [|by right].
    eapply tracks_core, Ht1. rewrite audit_core, process_core. by apply kg_upsert_core in Hkg.
  - eexists _, _. split; [done|]. cbn [answer catalogue_step]. split; [|by left].
    apply put_cases in Hp as [(? & _)|[(b & ? & _)|[_ Heq]]]; [done..|]. eapply tracks_core, Ht. unfold core. cbn. by rewrite Heq.
Qed.

Lemma update_tracks S fs env old content new_tags agent :
  let op := Fs_Update env old content new_tags agent in
  tracks S fs -> known S !! compute_cid content = None ->
  exists ans fs', fs_step op fs = Some (ans, fs') /\ tracks (catalogue_step S op ans) fs' /\ (ans = None \/ ans = Some (compute_cid content)).
Proof.
  intros op Ht Hn. cbn [op fs_step]. unfold update.
  pose proof (cas_get_core env old fs) as Hc. pose proof (cas_get_object env old fs) as Ho.
  destruct (cas_get env old fs) as [[old_obj|e] fs1]; cbn [fst snd] in Hc, Ho.
  2: { eexists _, _. split; [done|]. split; [by eapply tracks_core, Ht | by left]. }
  assert (known S !! old = Some (om_tags (ob_meta old_obj))) as Hold by by rewrite (tr_known _ _ Ht), Ho.
  apply (tracks_core _ _ _ Hc) in Ht. clear Hc Ho.
  set (tags := default (om_tags (ob_meta old_obj)) new_tags).
  set (meta := mkMeta _ tags _ _ _ _ _). set (o := object_new content meta).
  destruct (put (fs_cas fs1) (fe_put env) o) as [[cid|e] cas'] eqn:Hp.
  2: { eexists _, _. split; [done|]. split; [|by left]. cbn [answer catalogue_step].
       apply put_cases in Hp as [(? & _)|[(b & ? & _)|[_ Heq]]]; [done..|]. eapply tracks_core, Ht. unfold core. cbn. by rewrite Heq. }
  pose proof (remove_tracks S fs1 old _ Ht Hold) as Htr.
  destruct (store_tracks _ _ _ o cid cas' Htr Hn Hp) as (-> & Hval & Ht1).
  match goal with |- context [upsert_semantic_index env (ob_cid o) content meta ?f] => set (fs2 := f) end.
  pose proof (upsert_core env (ob_cid o) content meta fs2) as Hu.
  destruct (upsert_semantic_index env (ob_cid o) content meta fs2) as [r fs3]. cbn [snd] in Hu.
  destruct (kg_upsert_total env (ob_cid o) tags (om_created_by (ob_meta old_obj)) fs3 Hval) as [fs4 Hkg]. rewrite Hkg.
  cbn [mbind option_bind]. apply kg_upsert_core in Hkg.
  eexists _, _. split; [done|]. cbn [op answer catalogue_step]. rewrite Hold. cbn [default from_option]. split; [|by right].
  eapply tracks_core, Ht1. by rewrite audit_core, supersede_core, similar_core, Hkg, Hu.
Qed.

Lemma delete_tracks S fs env cid agent :
  let op := Fs_Delete env cid agent in
  tracks S fs ->
  exists ans fs', fs_step op fs = Some (ans, fs') /\ tracks (catalogue_step S op ans) fs'.
Proof.
  intros op Ht. cbn [op fs_step]. unfold fs_delete.
  pose proof (cas_get_core env cid fs) as Hc. pose proof (cas_get_object env cid fs) as Ho.
  destruct (cas_get env cid fs) as [[obj|e] fs1]; cbn [fst snd] in Hc, Ho.
  2: { eexists _, _. split; [done|]. by eapply tracks_core, Ht. }
  assert (known S !! cid = Some (om_tags (ob_meta obj))) as Hkn by by rewrite (tr_known _ _ Ht), Ho.
  apply (tracks_core _ _ _ Hc) in Ht. clear Hc Ho.
  eexists _, _. split; [done|]. cbn [op is_ok catalogue_step].
  match goal with |- tracks _ (persist_recycle_bin _ _ ?f) =>
    assert (core f = (cas_objects (fs_cas fs1), remove_from_tag_index (om_tags (ob_meta obj)) cid (fs_tag_index fs1),
      <[cid := mkRecycle cid (fe_now env) (ob_meta obj)]> (fs_recycle_bin fs1))) as Hf; [|generalize dependent f; intros fs2 Hf] end.
  { rewrite audit_core. match goal with |- context [kg_remove env cid ?f] => pose proof (kg_remove_core env cid f) as Hkr end.
    revert Hkr. unfold core. cbn. intros [= -> -> ->]. done. }
  pose proof (persist_tracks (mkCatalogue (known S) (live S ∖ {[cid]}) (<[cid := fe_now env]> (gone S))) fs2 env) as Hpt.
  cbn [known live gone] in Hpt. apply Hpt. clear Hpt.
  pose proof (remove_tracks S fs1 cid _ Ht Hkn) as [Hok Hk Hi Hb Hbt]. injection Hf as Hc Hti Hbin.
  split; cbn [known live gone] in *.
  - intros c b. rewrite Hc. apply Hok.
  - intros c. rewrite Hk. f_equal. symmetry. by apply object_at_core.
  - rewrite Hti. exact Hi.
  - rewrite Hbin, fmap_insert. cbn. f_equal. exact Hb.
  - rewrite Hbin. intros c e [[<- <-]|[_ He]]%lookup_insert_Some; [done | by apply Hbt].
Qed.

Lemma restore_tracks S fs env cid agent :
  let op := Fs_Restore env cid agent in
  tracks S fs ->
  exists ans fs', fs_step op fs = Some (ans, fs') /\ tracks (catalogue_step S op ans) fs'.
Proof.
  intros op Ht. cbn [op fs_step]. unfold fs_restore. destruct (fs_recycle_bin fs !! cid) as [entry|] eqn:He.
  2: { eexists _, _. split; [done|]. exact Ht. }
  set (tags := om_tags (re_original_meta entry)).
  pose proof (tr_bin_tags _ _ Ht cid entry He) as Hkn. fold tags in Hkn.
  match goal with |- context [cas_get env cid ?f] => set (fs1 := f) end.
  assert (tracks (mkCatalogue (known S) ({[cid]} ∪ live S) (delete cid (gone S))) fs1) as Ht1.
  { destruct Ht as [Hok Hk Hi Hb Hbt]. split; cbn [known live gone]; try done.
    - intros t c. cbn [fs1 with_tag_index with_bin fs_tag_index]. rewrite elem_update_tag_index, Hi, elem_of_union, elem_of_singleton.
      naive_solver.
    - cbn. by rewrite fmap_delete, Hb.
    - intros c e. cbn. intros [_ Hl]%lookup_delete_Some. by apply Hbt. }
  assert (validate_cid cid = Ok tt) as Hval.
  { pose proof (tr_known _ _ Ht cid) as Hk. rewrite Hkn in Hk. destruct (object_at fs cid) as [o|] eqn:Ho; [|done].
    apply (object_at_stored _ _ _ (tr_ok _ _ Ht)) in Ho as [_ [b Hb]]. destruct (tr_ok _ _ Ht _ _ Hb) as (? & _ & _ & _ & Hv). done. }
  clearbody fs1. pose proof (cas_get_core env cid fs1) as Hc. destruct (cas_get env cid fs1) as [r fs2]. cbn [snd] in Hc.
  match goal with |- context [kg_upsert_document env cid tags _ ?f] => assert (core f = core fs1) as Hf; [|generalize dependent f; intros fs3 Hf] end.
  { destruct r as [obj|e]; [|done]. pose proof (upsert_core env cid (ob_data obj) (ob_meta obj) fs2) as Hu.
    destruct (upsert_semantic_index env cid (ob_data obj) (ob_meta obj) fs2) as [r' fs3]. rewrite similar_core. cbn in Hu. congruence. }
  destruct (kg_upsert_total env cid tags (om_created_by (re_original_meta entry)) fs3 Hval) as [fs4 Hkg]. rewrite Hkg.
  apply kg_upsert_core in Hkg. cbn [mbind option_bind]. eexists _, _. split; [done|]. cbn [op is_ok catalogue_step].
  apply (tracks_core _ (persist_recycle_bin bin_to_vec env fs4)); [done|].
  pose proof (persist_tracks (mkCatalogue (known S) ({[cid]} ∪ live S) (delete cid (gone S))) fs4 env) as Hpt.
  cbn [known live gone] in Hpt. apply Hpt. eapply tracks_core, Ht1. congruence.
Qed.

Lemma get_each_core env cids fs : core (get_each env cids fs).2 = core fs.
Proof.
  revert fs. induction cids as [|cid cids IH]; intros fs; [done|]. cbn [get_each].
  pose proof (cas_get_core env cid fs) as Hc. destruct (cas_get env cid fs) as [r fs1]. cbn [snd] in Hc.
  specialize (IH fs1). destruct (get_each env cids fs1) as [objs fs2]. cbn [snd] in IH |- *. congruence.
Qed.

Lemma read_core env query fs : core (fs_read env query fs).2 = core fs.
Proof.
  destruct query as [cid|tags|text filter|ct|tags [text|] ct]; cbn [fs_read].
  - pose proof (cas_get_core env cid fs) as Hc. by destruct (cas_get env cid fs) as [r fs1].
  - apply get_each_core.
  - destruct (fe_embed_query env text); apply get_each_core.
  - apply get_each_core.
  - destruct (fe_embed_query env text); apply get_each_core.
  - apply get_each_core.
Qed.

Lemma flush_core env fs : core (flush_tag_index tags_to_vec env fs) = core fs.
Proof. unfold flush_tag_index. by case_match. Qed.

(** ** Runs *)

Fixpoint fs_exec (ops : list FsOp) (S : Catalogue) fs : option (Catalogue * SemanticFS) :=
  match ops with
  | [] => Some (S, fs)
  | op :: ops => '(ans, fs) ← fs_step op fs; fs_exec ops (catalogue_step S op ans) fs
  end.

(** The identifiers of the contents a run stores. *)
Definition stored_cids (ops : list FsOp) : list string := compute_cid <$> omap stored_content ops.

Lemma step_tracks S fs op : tracks S fs ->
  (forall c, stored_content op = Some c -> known S !! compute_cid c = None) ->
  exists ans fs', fs_step op fs = Some (ans, fs') /\ tracks (catalogue_step S op ans) fs' /\
    forall cid, is_Some (known (catalogue_step S op ans) !! cid) ->
      is_Some (known S !! cid) \/ exists c, stored_content op = Some c /\ cid = compute_cid c.
Proof.
  intros Ht Hf. destruct op as [env content tags who intent scope|env old content nt agent|env cid agent|env cid agent|env query|env].
  - destruct (create_tracks S fs env content tags who intent scope Ht) as (ans & fs' & Hs & Ht' & Ha); [by apply Hf|].
    exists ans, fs'. split_and!; [done..|]. intros cid. destruct Ha as [-> | ->]; cbn; [by left|].
    rewrite lookup_insert_is_Some. naive_solver.
  - destruct (update_tracks S fs env old content nt agent Ht) as (ans & fs' & Hs & Ht' & Ha); [by apply Hf|].
    exists ans, fs'. split_and!; [done..|]. intros cid. destruct Ha as [-> | ->]; cbn; [by left|].
    rewrite lookup_insert_is_Some. naive_solver.
  - destruct (delete_tracks S fs env cid agent Ht) as (ans & fs' & Hs & Ht'). exists ans, fs'. split_and!; [done..|].
    intros c. destruct ans; by left.
  - destruct (restore_tracks S fs env cid agent Ht) as (ans & fs' & Hs & Ht'). exists ans, fs'. split_and!; [done..|].
    intros c. destruct ans; by left.
  - eexists _, _. split; [done|]. split; [|by left]. eapply tracks_core, Ht. apply read_core.
  - eexists _, _. split; [done|]. split; [|by left]. eapply tracks_core, Ht. apply flush_core.
Qed.

Lemma exec_tracks ops : forall S fs, tracks S fs -> NoDup (stored_cids ops) ->
  (forall cid, cid ∈ stored_cids ops -> known S !! cid = None) ->
  exists S' fs', fs_exec ops S fs = Some (S', fs') /\ tracks S' fs'.
Proof.
  induction ops as [|op ops IH]; intros S fs Ht Hnd Hf; [by exists S, fs|].
  destruct (step_tracks S fs op Ht) as (ans & fs1 & Hs & Ht1 & Hk).
  { intros c Hc. apply Hf. unfold stored_cids. cbn. rewrite Hc. by left. }
  assert (NoDup (stored_cids ops) /\ forall c, stored_content op = Some c -> compute_cid c ∉ stored_cids ops) as [Hnd' Hni].
  { revert Hnd. unfold stored_cids. cbn. destruct (stored_content op) as [c|]; [|done].
    intros [? ?]%NoDup_cons. split; [done|]. by intros ? [= <-]. }
  destruct (IH (catalogue_step S op ans) fs1 Ht1 Hnd') as (S' & fs' & Hx & Ht').
  { intros cid Hin. destruct (known (catalogue_step S op ans) !! cid) eqn:Hkn; [|done]. exfalso.
    destruct (Hk cid) as [[ts Hts]|(c & Hc & ->)]; [by eexists| |by apply (Hni c)].
    rewrite Hf in Hts; [done|]. unfold stored_cids. cbn. destruct (stored_content op); [by right | done]. }
  exists S', fs'. cbn [fs_exec]. by rewrite Hs.
Qed.

Definition empty_catalogue : Catalogue := mkCatalogue ∅ ∅ ∅.
Lemma empty_tracks fs : core fs = (∅, ∅, ∅) -> tracks empty_catalogue fs.
Proof.
  unfold core. intros [= Hc Ht Hb]. split; cbn [empty_catalogue known live gone].
  - intros cid b. by rewrite Hc, lookup_empty.
  - intros c. rewrite lookup_empty, object_at_none; [done | |by rewrite Hc, lookup_empty]. intros cid b. by rewrite Hc, lookup_empty.
  - intros t c. unfold tagged. rewrite Ht, lookup_empty. set_solver.
  - by rewrite Hb, fmap_empty.
  - intros c e. by rewrite Hb, lookup_empty.
Qed.

Lemma get_each_objects env cids fs S : tracks S fs -> (forall cid, fe_read env cid = None) ->
  (forall c, c ∈ cids -> is_Some (known S !! c)) -> ob_cid <$> (get_each env cids fs).1 = cids.
Proof.
  intros Ht Hr. revert fs Ht. induction cids as [|cid cids IH]; intros fs Ht Hk; [done|]. cbn [get_each].
  pose proof (cas_get_core env cid fs) as Hc. pose proof (cas_get_object env cid fs) as Ho.
  destruct (cas_get env cid fs) as [r fs1]. cbn [fst snd] in Hc, Ho.
  specialize (IH fs1 (tracks_core _ _ _ Hc Ht) (fun c Hin => Hk c ltac:(by right))).
  destruct (get_each env cids fs1) as [objs fs2]. cbn [fst] in IH |- *.
  destruct (Hk cid ltac:(by left)) as [ts Hts]. rewrite (tr_known _ _ Ht) in Hts. destruct r as [o|e].
  - cbn. f_equal; [|done]. by apply (object_at_stored _ _ _ (tr_ok _ _ Ht)) in Ho as [? _].
  - rewrite Ho in Hts by apply Hr. done.
Qed.

(** C26: Tags find exactly the live objects: after any creations, updates,
    deletions, restorations, reads and saves that store each content once,
    whatever writes, embeddings and graph transactions fail, no operation has
    panicked and reading by tags returns each object that is live, by the
    answers given so far, and was stored with one of the tags, once, and no
    other. *)
Theorem tags_find_live_objects ops fs env tags :
  core fs = (∅, ∅, ∅) -> NoDup (stored_cids ops) -> (forall cid, fe_read env cid = None) ->
  exists S fs' objects fs'', fs_exec ops empty_catalogue fs = Some (S, fs') /\
    fs_read env (ByTags tags) fs' = (Ok objects, fs'') /\ NoDup (ob_cid <$> objects) /\
    forall c, c ∈ ob_cid <$> objects <-> c ∈ live S /\ exists ts t, known S !! c = Some ts /\ t ∈ ts /\ t ∈ tags.
Proof.
  intros Hc Hnd Hr. destruct (exec_tracks ops empty_catalogue fs (empty_tracks _ Hc) Hnd) as (S & fs' & Hx & Ht); [intros; apply lookup_empty|].
  exists S, fs'. cbn [fs_read]. destruct (resolve_tags_spec (fs_tag_index fs') tags) as [Hn Hm].
  pose proof (get_each_objects env (resolve_tags (fs_tag_index fs') tags) fs' S Ht Hr) as Hg. fold (read_tags env tags fs') in Hg.
  destruct (read_tags env tags fs') as [objects fs'']. exists objects, fs''. split; [done|]. split; [done|]. cbn [fst] in Hg.
  rewrite Hg.
  - split; [done|]. intros c. rewrite Hm. setoid_rewrite (tr_index _ _ Ht). naive_solver.
  - intros c (t & _ & Hin)%Hm. apply (tr_index _ _ Ht) in Hin as (_ & ts & Hts & _). by eexists.
Qed.
End props.

(** ** Rebuilding, and what the catalogue does not cover *)

Section rebuild.
Context `{Platform} `{!Serde AIObject} `{!Serde (gmap string AccessEntry)}.
Context `{HashIter} `{GraphCodec} `{SemanticSearch} `{Bm25Engine}.
Implicit Types (m : gmap string (list string)).

Definition rebuild_step (env : FsEnv) (cas : CASStorage) (bin : gmap string RecycleEntry) m (cid : string) : gmap string (list string) :=
  if opt_is_some (bin !! cid) then m
  else match get_raw cas (fe_read env cid) cid with
       | Ok obj => update_tag_index (om_tags (ob_meta obj)) cid m
       | Err _ => m
       end.

Lemma elem_rebuild_step env cas bin m cid t c :
  c ∈ tagged (rebuild_step env cas bin m cid) t <->
  c ∈ tagged m t \/ (c = cid /\ bin !! cid = None /\ exists o, get_raw cas (fe_read env cid) cid = Ok o /\ t ∈ om_tags (ob_meta o)).
Proof.
  unfold rebuild_step. destruct (bin !! cid) as [e|]; cbn [opt_is_some]; [naive_solver|].
  destruct (get_raw cas (fe_read env cid) cid) as [o|e]; [|naive_solver].
  rewrite elem_update_tag_index. naive_solver.
Qed.

Lemma elem_rebuild env cas bin cids m t c :
  c ∈ tagged (foldl (rebuild_step env cas bin) m cids) t <->
  c ∈ tagged m t \/ (c ∈ cids /\ bin !! c = None /\ exists o, get_raw cas (fe_read env c) c = Ok o /\ t ∈ om_tags (ob_meta o)).
Proof.
  revert m. induction cids as [|cid cids IH]; intros m; cbn [foldl]; [set_solver|].
  rewrite IH, elem_rebuild_step, elem_of_cons. naive_solver.
Qed.

(** A rebuilt tag index holds every stored object that can be read and is
    not in the recycle bin, under each of its tags, and nothing else. *)
Lemma rebuild_tag_index_exact env cas bin t c :
  c ∈ tagged (rebuild_tag_index env true cas bin) t <->
  bin !! c = None /\ exists o, get_raw cas (fe_read env c) c = Ok o /\ t ∈ om_tags (ob_meta o).
Proof.
  unfold rebuild_tag_index. fold (rebuild_step env cas bin). rewrite elem_rebuild. unfold tagged. rewrite lookup_empty.
  unfold list_cids. split; [intros [?|?]; set_solver|]. intros (Hb & o & Ho & Ht). right. split; [|eauto].
  unfold get_raw in Ho. destruct (validate_cid c); [|done]. cbn in Ho. destruct (negb _); [done|].
  destruct (cas_objects cas !! c) as [b|] eqn:Hc; [|done]. apply list_elem_of_fmap. exists (c, b).
  split; [done | by apply elem_of_map_to_list].
Qed.
End rebuild.

(** ** A concrete file system *)

(** Documents in the order they were last put in; every one is a result. *)
#[export, refine] Instance list_engine : Bm25Engine := {|
  engine := list (string * string);
  engine_new := [];
  engine_upsert id text e := List.filter (fun x => negb (str_eqb x.1 id)) e ++ [(id, text)];
  engine_remove id e := List.filter (fun x => negb (str_eqb x.1 id)) e;
  engine_search q n e := (fun x => (x.1, f32_of_Z 1)) <$> take n e;
  engine_ids e := e.*1;
|}.
Proof.
  - intros id text e i. rewrite fmap_app, elem_of_app. cbn. rewrite list_elem_of_singleton, !list_elem_of_fmap.
    setoid_rewrite elem_of_lfilter. unfold str_eqb. setoid_rewrite negb_true_iff. setoid_rewrite bool_decide_eq_false.
    destruct (decide (i = id)); naive_solver.
  - intros id e i. rewrite !list_elem_of_fmap. setoid_rewrite elem_of_lfilter. unfold str_eqb. setoid_rewrite negb_true_iff.
    setoid_rewrite bool_decide_eq_false. naive_solver.
  - intros q n e x Hx. apply list_elem_of_fmap in Hx as (y & -> & Hy). apply elem_of_take in Hy as (i & Hi & _).
    apply list_elem_of_lookup_2 in Hi. cbn. by apply list_elem_of_fmap_2.
Defined.

Section example.
#[local] Existing Instances plain_platform plain_objects plain_log.

Definition no_vectors : index_state.
Proof. exists ∅. intros cid e. by rewrite lookup_empty. Defined.

Definition some_fs : SemanticFS := mkFS (cas_open 0 ∅ ∅ None None) ∅ ∅ [] no_vectors engine_new (Some graph_new) None None None None.
(** The provider is down. *)
Definition some_env (now : Z) : FsEnv :=
  mkFsEnv now plain_io (mkAccessIo now id None) (fun _ => None) (mkGraphEnv now true (fun _ => true))
    (fun _ => Err (ServerUnavailable "down")) (fun _ => Err (ServerUnavailable "down")) 0 "stub" false (mkPermissionIo true true true).
Definition no_bin (m : gmap string RecycleEntry) : option string := None.
Definition no_tags (m : gmap string (list string)) : option string := None.

Definition run_ops (ops : list FsOp) : option SemanticFS := snd <$> fs_exec no_bin no_tags ops empty_catalogue some_fs.
Definition make (now : Z) (content : string) (tags : list string) : FsOp :=
  Fs_Create (some_env now) content tags "alice" None ObjectScope_Private.
Definition some_ops : list FsOp :=
  [make 1 "beef" ["a"; "b"]; Fs_Update (some_env 2) "beef00" "cafe" None "alice"; Fs_Delete (some_env 3) "cafe00" "alice";
   Fs_Restore (some_env 4) "cafe00" "alice"].

Lemma tags_find_live_objects_witness : exists S fs' objects fs'',
  fs_exec no_bin no_tags some_ops empty_catalogue some_fs = Some (S, fs') /\
  fs_read (some_env 5) (ByTags ["b"; "a"]) fs' = (Ok objects, fs'') /\ NoDup (ob_cid <$> objects).
Proof.
  destruct (tags_find_live_objects no_bin no_tags plain_read_back some_ops some_fs (some_env 5) ["b"; "a"])
    as (S & fs' & objects & fs'' & Hx & Hr & Hn & _); [done | | done |].
  - cbn. repeat (apply NoDup_cons; split; [set_solver|]). constructor.
  - exact (ex_intro _ S (ex_intro _ fs' (ex_intro _ objects (ex_intro _ fs'' (conj Hx (conj Hr Hn)))))).
Defined.

(** Content stored again under other tags, then deleted, is still found under them. *)
Lemma stored_again_outlives_deletion :
  match run_ops [make 1 "beef" ["a"]; make 2 "beef" ["b"]; Fs_Delete (some_env 3) "beef00" "alice"] with
  | Some fs => is_Some (fs_recycle_bin fs !! "beef00") /\ ob_cid <$> (read_tags (some_env 4) ["b"] fs).1 = ["beef00"]
  | None => False
  end.
Proof. vm_compute. eauto. Qed.

Definition replaced : option SemanticFS := run_ops [make 1 "beef" ["a"]; Fs_Update (some_env 2) "beef00" "cafe" None "alice"].

Definition rebuilt_tags (fs : SemanticFS) (tag : string) : list string :=
  tagged (rebuild_tag_index (some_env 3) true (fs_cas fs) (fs_recycle_bin fs)) tag.

(** The replaced version is no longer under its tag, and is there again after
    a rebuild. *)
Lemma replaced_comes_back :
  match replaced with
  | Some fs => tagged (fs_tag_index fs) "a" = ["cafe00"] /\ str_mem "beef00" (rebuilt_tags fs "a") = true
  | None => False
  end.
Proof. by vm_compute. Qed.

(** Keywords find the replaced version at once: an update leaves it in the index. *)
Lemma replaced_keeps_keywords :
  match replaced with Some fs => engine_ids (fs_bm25_index fs) = ["beef00"; "cafe00"] | None => False end.
Proof. by vm_compute. Qed.

(** A deletion is forgotten after thirty days, and a rebuild brings the object back. *)
Lemma expired_deletion_comes_back :
  match run_ops [make 1 "beef" ["a"]; Fs_Delete (some_env 1) "beef00" "alice"; make 2 "cafe" ["c"];
                 Fs_Delete (some_env (1 + RECYCLE_BIN_TTL_MS)) "cafe00" "alice"] with
  | Some fs => tagged (fs_tag_index fs) "a" = [] /\ str_mem "beef00" (rebuilt_tags fs "a") = true
  | None => False
  end.
Proof. by vm_compute. Qed.
End example.
