(* ===== verification/KernelFS.v ===== *)
(** * The kernel's object operations ([src/src/kernel/ops/fs.rs])

    Creation, reading, update, deletion, restoring and rollback of objects:
    the permission, namespace and ownership checks around the semantic file
    system, the events they emit and what they hand to the background workers. *)

From stdpp Require Import base gmap strings list sorting.
From S2P Require Import Prelude CircuitBreaker Text Float32 MemoryModel LedgerModel Wire ObjectStorage Permission CostLedger EventBus ApiRequest GraphModel Graph GraphStore SearchIndex SemanticFS.

Record WriteEvent := mkWriteEvent {
  we_cid : string;
  we_text : string;
  we_agent_id : string;
  we_created_at : Z;
  we_tags : list string;
}.

Inductive ObjectError : Type :=
  | Object_Denied (e : PermissionDenied)
  | Object_Io (e : IoError)
  | Object_EmptyContent
  (** [ErrorKind::Interrupted]: the deletion did not take effect. *)
  | Object_ContractViolated
  | Object_NoPrevious
  | Object_PreviousUnreadable (cid : string)
  | Object_RollbackFailed (e : ObjectError).

Definition SEARCH_PERSIST_EVERY_N : Z := 50.

Section kernel.
Context `{Platform} `{!Serde AIObject} `{!Serde (gmap string AccessEntry)}.
Context `{HashIter} `{GraphCodec} `{SemanticSearch} `{Bm25Engine} `{Broadcast}.
Variable bin_to_vec : gmap string RecycleEntry -> option string.
Variable event_to_string : SequencedEvent -> option string.

Record FsKernel := mkFsKernel {
  kf_permissions : PermissionGuard;
  kf_fs : SemanticFS;
  kf_bus : EventBus;
  kf_disk : EventDisk;
  (** The queue of the graph builder, when there is one. *)
  kf_kg_builder : option (list WriteEvent);
  kf_search_op_count : Z;
  (** Saves of the search index that have been started. *)
  kf_index_saves : nat;
}.

(** What a call draws: the clock of its checks, what its reading of the object
    for the checks and its work on the file system draw, what its event draws,
    and whether the graph builder's queue has room. *)
Record KernelFsEnv := mkKernelFsEnv {
  kfe_now : Z;
  kfe_check : FsEnv;
  kfe_work : FsEnv;
  kfe_event : EmitPlan;
  kfe_notify : bool;
}.

Definition with_fs (fs : SemanticFS) (k : FsKernel) : FsKernel :=
  mkFsKernel (kf_permissions k) fs (kf_bus k) (kf_disk k) (kf_kg_builder k) (kf_search_op_count k) (kf_index_saves k).
Definition object_emit (plan : EmitPlan) (event : KernelEvent) (k : FsKernel) : FsKernel :=
  let '(bus, disk) := emit event_to_string plan (kf_bus k) (kf_disk k) event in
  mkFsKernel (kf_permissions k) (kf_fs k) bus disk (kf_kg_builder k) (kf_search_op_count k) (kf_index_saves k).
(** [tx.try_send(event)] *)
Definition notify (room : bool) (event : WriteEvent) (k : FsKernel) : FsKernel :=
  mkFsKernel (kf_permissions k) (kf_fs k) (kf_bus k) (kf_disk k)
    ((fun queue => if room then queue ++ [event] else queue) <$> kf_kg_builder k) (kf_search_op_count k) (kf_index_saves k).
(** Every fiftieth time the index and the tags are saved in the background. *)
Definition maybe_persist_search_index (k : FsKernel) : FsKernel :=
  let count := u64_add (kf_search_op_count k) 1 in
  mkFsKernel (kf_permissions k) (kf_fs k) (kf_bus k) (kf_disk k) (kf_kg_builder k) count
    (if (count mod SEARCH_PERSIST_EVERY_N =? 0)%Z then S (kf_index_saves k) else kf_index_saves k).

Definition allow (env : KernelFsEnv) (k : FsKernel) (ctx : PermissionContext) (action : PermissionAction) : result ObjectError unit :=
  map_err Object_Denied (check (kfe_now env) (kf_permissions k) ctx action).
(** The namespace first, then the owner. *)
Definition allow_object (env : KernelFsEnv) (k : FsKernel) (ctx : PermissionContext) (obj : AIObject) : result ObjectError unit :=
  map_err Object_Denied (check_namespace_access ctx (om_tenant_id (ob_meta obj))) ?>>
  map_err Object_Denied (check_ownership (kfe_now env) (kf_permissions k) ctx (om_created_by (ob_meta obj))).

(** ** Storing *)

Definition store_object (env : KernelFsEnv) (data : string) (meta : AIObjectMeta) (agent_id : string) (k : FsKernel)
    : result ObjectError string * FsKernel :=
  match allow env k (context_new agent_id DEFAULT_TENANT) Action_Write with
  | Err e => (Err e, k)
  | Ok _ =>
      let '(r, cas) := put (fs_cas (kf_fs k)) (fe_put (kfe_work env)) (object_new data meta) in
      (map_err Object_Io r, with_fs (with_cas cas (kf_fs k)) k)
  end.

(** [None] is a panic. *)
Definition semantic_create (env : KernelFsEnv) (content : string) (tags : list string) (agent_id : string)
    (intent : option string) (scope : ObjectScope) (k : FsKernel) : option (result ObjectError string * FsKernel) :=
  match allow env k (context_new agent_id DEFAULT_TENANT) Action_Write with
  | Err e => Some (Err e, k)
  | Ok _ =>
      match content with
      | EmptyString => Some (Err Object_EmptyContent, k)
      | _ =>
          '(r, fs) ← create (kfe_work env) content tags agent_id intent scope (kf_fs k);
          let k := with_fs fs k in
          match r with
          | Err e => Some (Err (Object_Io e), k)
          | Ok cid =>
              let k := notify (kfe_notify env) (mkWriteEvent cid (from_utf8_lossy content) agent_id (kfe_now env) tags) k in
              Some (Ok cid, object_emit (kfe_event env) (ObjectStored cid agent_id tags) k)
          end
      end
  end.

(** ** Reading *)

Definition readable_by (env : KernelFsEnv) (k : FsKernel) (agent_id tenant_id : string) (obj : AIObject) : bool :=
  str_eqb (om_tenant_id (ob_meta obj)) tenant_id &&
  (can_read_any (kfe_now env) (kf_permissions k) agent_id || str_eqb (om_created_by (ob_meta obj)) agent_id).

Definition semantic_read (env : KernelFsEnv) (query : Query) (agent_id tenant_id : string) (k : FsKernel)
    : result ObjectError (list AIObject) * FsKernel :=
  match allow env k (context_new agent_id tenant_id) Action_Read with
  | Err e => (Err e, k)
  | Ok _ =>
      let '(r, fs) := fs_read (kfe_work env) query (kf_fs k) in
      (match r with
       | Err e => Err (Object_Io e)
       | Ok objects => Ok (List.filter (readable_by env k agent_id tenant_id) objects)
       end, with_fs fs k)
  end.

(** ** Updating *)

(** The check is made on the object if it can be read. *)
Definition semantic_update (env : KernelFsEnv) (cid new_content : string) (new_tags : option (list string))
    (agent_id tenant_id : string) (k : FsKernel) : option (result ObjectError string * FsKernel) :=
  let ctx := context_new agent_id tenant_id in
  match allow env k ctx Action_Write with
  | Err e => Some (Err e, k)
  | Ok _ =>
      let '(r, fs) := fs_read (kfe_check env) (ByCid cid) (kf_fs k) in
      let k := with_fs fs k in
      match (match r with Ok (existing :: _) => allow_object env k ctx existing | _ => Ok tt end) with
      | Err e => Some (Err e, k)
      | Ok _ =>
          '(r, fs) ← update (kfe_work env) cid new_content new_tags agent_id (kf_fs k);
          let k := with_fs fs k in
          match r with
          | Err e => Some (Err (Object_Io e), k)
          | Ok new_cid => Some (Ok new_cid, object_emit (kfe_event env) (KnowledgeSuperseded cid new_cid agent_id) k)
          end
      end
  end.

(** ** Deleting and restoring *)

Definition semantic_delete (env : KernelFsEnv) (cid agent_id tenant_id : string) (k : FsKernel)
    : result ObjectError unit * FsKernel :=
  let '(r, fs) := fs_read (kfe_check env) (ByCid cid) (kf_fs k) in
  let k := with_fs fs k in
  match r with
  | Err _ | Ok [] => (Err (Object_Io IoNotFound), k)
  | Ok (existing :: _) =>
      let ctx := context_new agent_id tenant_id in
      match (allow env k ctx Action_Delete ?>> allow_object env k ctx existing) with
      | Err e => (Err e, k)
      | Ok _ =>
          let '(r, fs) := fs_delete bin_to_vec (kfe_work env) cid agent_id (kf_fs k) in
          let k := with_fs fs k in
          match r with
          | Err e => (Err (Object_Io e), k)
          | Ok _ =>
              if existsb (fun e => str_eqb (re_cid e) cid) (list_deleted (kf_fs k)) then (Ok tt, k)
              else (Err Object_ContractViolated, k)
          end
      end
  end.

Definition kernel_list_deleted (agent_id : string) (k : FsKernel) : list RecycleEntry := list_deleted (kf_fs k).

Definition restore_deleted (env : KernelFsEnv) (cid agent_id : string) (k : FsKernel)
    : option (result ObjectError unit * FsKernel) :=
  match allow env k (context_new agent_id DEFAULT_TENANT) Action_Write with
  | Err e => Some (Err e, k)
  | Ok _ =>
      '(r, fs) ← fs_restore bin_to_vec (kfe_work env) cid agent_id (kf_fs k);
      Some (map_err Object_Io r, with_fs fs k)
  end.

(** ** Versions *)

Definition previous_version (kg : PetgraphBackend) (current : string) : option string :=
  match get_neighbors kg current (Some Edge_Supersedes) 1 with
  | Err _ => None
  | Ok neighbors =>
      (fun ne => kn_id ne.1) <$>
        List.find (fun ne => bool_decide (ke_edge_type ne.2 = Edge_Supersedes) && str_eqb (ke_src ne.2) current) neighbors
  end.
Fixpoint versions_from (depth : nat) (kg : PetgraphBackend) (current : string) : list string :=
  match depth with
  | O => []
  | S depth =>
      match previous_version kg current with
      | Some next => next :: versions_from depth kg next
      | None => []
      end
  end.
Definition version_history (env : KernelFsEnv) (cid agent_id : string) (k : FsKernel) : list string :=
  match allow env k (context_new agent_id DEFAULT_TENANT) Action_Read with
  | Err _ => []
  | Ok _ =>
      match fs_knowledge_graph (kf_fs k) with
      | None => [cid]
      | Some kg => cid :: versions_from 50 kg cid
      end
  end.

Definition rollback (env : KernelFsEnv) (cid agent_id : string) (k : FsKernel) : option (result ObjectError string * FsKernel) :=
  match allow env k (context_new agent_id DEFAULT_TENANT) Action_Write with
  | Err e => Some (Err e, k)
  | Ok _ =>
      match version_history env cid agent_id k with
      | _ :: previous_cid :: _ =>
          let '(r, fs) := fs_read (kfe_check env) (ByCid previous_cid) (kf_fs k) in
          let k := with_fs fs k in
          match r with
          | Err _ | Ok [] => Some (Err (Object_PreviousUnreadable previous_cid), k)
          | Ok (previous :: _) =>
              '(r, k) ← semantic_update env cid (ob_data previous) (Some (om_tags (ob_meta previous))) agent_id "default" k;
              match r with
              | Err e => Some (Err (Object_RollbackFailed e), k)
              | Ok new_cid => Some (Ok new_cid, maybe_persist_search_index k)
              end
          end
      | _ => Some (Err Object_NoPrevious, k)
      end
  end.

(** ** Usage *)

Record ObjectUsageResult := mkUsage {
  ou_created_at : Z;
  ou_last_accessed_at : Z;
  ou_access_count : Z;
  ou_referenced_by_kg : bool;
  ou_referenced_by_memory : bool;
}.
Definition get_object_usage (read : option IoError) (cid : string) (k : FsKernel) : ObjectUsageResult :=
  let access := ObjectStorage.object_usage (fs_cas (kf_fs k)) cid in
  let created_at := match get_raw (fs_cas (kf_fs k)) read cid with Ok obj => om_created_at (ob_meta obj) | Err _ => 0%Z end in
  mkUsage created_at (default 0%Z (last_accessed_at <$> access)) (default 0%Z (access_count <$> access)) false false.

Record StorageStatsResult := mkStats { st_total_objects : nat; st_total_bytes : Z }.
(** The counts by tier and the expiring ones are constant zeros. *)
Definition get_storage_stats (k : FsKernel) : StorageStatsResult :=
  mkStats (count_objects (kf_fs k)) (total_bytes (fs_cas (kf_fs k))).
End kernel.
