(* ===== verification/KernelFSProps.v ===== *)
(** * Who may change and see objects

    Updates and deletions of the kernel change what is stored only for the
    owner of the object in its namespace, or for an agent that may read
    everything; reads return only what the agent may see; a deletion that
    succeeds is in the recycle bin. *)

From stdpp Require Import base gmap strings list sorting.
From S2P Require Import Prelude CircuitBreaker Text Float32 MemoryModel LedgerModel Wire ObjectStorage Permission CostLedger EventBus EventBusProps ApiRequest GraphModel Graph GraphStore GraphSync SearchIndex SemanticFS SemanticFSProps KernelFS.

(** The agent owns the object, or is trusted, or holds a grant to read all. *)
Definition answers_for (now : Z) (guard : PermissionGuard) (agent_id : string) (o : AIObject) : Prop :=
  om_created_by (ob_meta o) = agent_id \/ is_trusted guard agent_id = true \/
  exists grants g, guard_grants guard !! agent_id = Some grants /\ g ∈ grants /\
    (covers now g Action_ReadAny = true \/ covers now g Action_All = true).

Lemma reads_any_grant now grants : reads_any now grants = true ->
  exists g, g ∈ grants /\ (covers now g Action_ReadAny = true \/ covers now g Action_All = true).
Proof.
  unfold reads_any. intros (g & Hin%list_elem_of_In & Hg)%existsb_exists. exists g. split; [done|]. by apply orb_true_iff in Hg.
Qed.

Lemma ownership_answers now guard agent tenant o :
  check_ownership now guard (context_new agent tenant) (om_created_by (ob_meta o)) = Ok tt -> answers_for now guard agent o.
Proof.
  unfold check_ownership, answers_for. cbn [context_new pc_agent_id]. unfold str_eqb.
  destruct (bool_decide_reflect (agent = om_created_by (ob_meta o))) as [-> |_]; [by left|].
  destruct (is_trusted guard agent); [by right; left|].
  destruct (guard_grants guard !! agent) as [grants|]; [|done].
  destruct (reads_any now grants) eqn:Hr; [|done]. intros _. right; right. apply reads_any_grant in Hr as (g & ? & ?). eauto.
Qed.

Lemma can_read_any_answers now guard agent o : can_read_any now guard agent = true -> answers_for now guard agent o.
Proof.
  unfold can_read_any, answers_for. destruct (is_trusted guard agent); [by right; left|].
  destruct (guard_grants guard !! agent) as [grants|]; [|done]. intros Hr. right; right. apply reads_any_grant in Hr as (g & ? & ?). eauto.
Qed.

Section props.
Context `{Platform} `{!Serde AIObject} `{!Serde (gmap string AccessEntry)}.
Context `{HashIter} `{GraphCodec} `{SemanticSearch} `{Bm25Engine} `{Broadcast}.
Variable bin_to_vec : gmap string RecycleEntry -> option string.
Variable event_to_string : SequencedEvent -> option string.
Implicit Types (k : FsKernel) (env : KernelFsEnv) (fe : FsEnv).

(** The agent may change the stored object under [cid]. *)
Definition may_change env k (cid agent_id tenant_id : string) : Prop :=
  exists o, object_at (kf_fs k) cid = Some o /\ om_tenant_id (ob_meta o) = tenant_id /\
    answers_for (kfe_now env) (kf_permissions k) agent_id o.

Lemma allow_object_may env k agent tenant o :
  allow_object env k (context_new agent tenant) o = Ok tt ->
  om_tenant_id (ob_meta o) = tenant /\ answers_for (kfe_now env) (kf_permissions k) agent o.
Proof.
  unfold allow_object, check_namespace_access. cbn [context_new pc_tenant_id]. unfold str_eqb.
  destruct (bool_decide_reflect (tenant = om_tenant_id (ob_meta o))) as [-> |_]; cbn; [|done].
  destruct (check_ownership _ _ _ _) as [[]|] eqn:Hc; cbn; [|done]. intros _. split; [done|]. by apply ownership_answers in Hc.
Qed.

Lemma read_cid_object fe cid fs :
  let '(r, fs') := fs_read fe (ByCid cid) fs in
  core fs' = core fs /\
  match r with Ok [o] => object_at fs cid = Some o | Ok _ => False | Err _ => fe_read fe cid = None -> object_at fs cid = None end.
Proof.
  cbn [fs_read]. pose proof (cas_get_core fe cid fs) as Hc. pose proof (cas_get_object fe cid fs) as Ho.
  destruct (cas_get fe cid fs) as [[o|e] fs']; by split.
Qed.

Lemma delete_may env k cid agent tenant :
  core (kf_fs (semantic_delete bin_to_vec env cid agent tenant k).2) = core (kf_fs k) \/ may_change env k cid agent tenant.
Proof.
  unfold semantic_delete. pose proof (read_cid_object (kfe_check env) cid (kf_fs k)) as Hr.
  destruct (fs_read (kfe_check env) (ByCid cid) (kf_fs k)) as [[[|o [|? ?]]|e] fs1]; destruct Hr as [Hc Hr]; try done; [|by left].
  destruct (allow env (with_fs fs1 k) (context_new agent tenant) Action_Delete) as [[]|e]; [|by left].
  destruct (allow_object env (with_fs fs1 k) (context_new agent tenant) o) as [[]|e] eqn:Ha; [|by left].
  right. apply allow_object_may in Ha as [? ?]. by exists o.
Qed.

Lemma update_missing fe cid content tags agent fs : object_at fs cid = None ->
  exists e fs', update fe cid content tags agent fs = Some (Err e, fs') /\ core fs' = core fs.
Proof.
  intros Hn. unfold update. pose proof (cas_get_core fe cid fs) as Hc. pose proof (cas_get_object fe cid fs) as Ho.
  destruct (cas_get fe cid fs) as [[o|e] fs']; cbn [fst snd] in Ho, Hc; [congruence|]. eauto.
Qed.

Lemma emit_fs plan e k : kf_fs (object_emit event_to_string plan e k) = kf_fs k.
Proof. unfold object_emit. by destruct (emit _ _ _ _ _). Qed.

Lemma update_may env k cid content tags agent tenant r k' :
  fe_read (kfe_check env) cid = None ->
  semantic_update event_to_string env cid content tags agent tenant k = Some (r, k') ->
  core (kf_fs k') = core (kf_fs k) \/ may_change env k cid agent tenant.
Proof.
  intros Hread. unfold semantic_update. destruct (allow env k _ _) as [[]|e]; [|intros [= _ <-]; by left].
  pose proof (read_cid_object (kfe_check env) cid (kf_fs k)) as Hr.
  destruct (fs_read (kfe_check env) (ByCid cid) (kf_fs k)) as [[[|o [|? ?]]|e] fs1]; destruct Hr as [Hc Hr]; try done.
  - destruct (allow_object env (with_fs fs1 k) (context_new agent tenant) o) as [[]|e] eqn:Ha; [|intros [= _ <-]; by left].
    intros _. right. apply allow_object_may in Ha as [? ?]. by exists o.
  - cbn [with_fs kf_fs]. destruct (update_missing (kfe_work env) cid content tags agent fs1) as (e' & fs2 & Hu & Hc2).
    { rewrite (object_at_core (kf_fs k)); [by apply Hr|]. by injection Hc. }
    rewrite Hu. cbn [mbind option_bind]. intros [= _ <-]. left. cbn. congruence.
Qed.

(** C27: Only those who answer for an object change it: when a deletion, or an
    update whose check could read the object, leaves the stored objects, the
    tag index or the recycle bin different, the object exists in the namespace
    of the request and the agent owns it, is trusted, or holds a grant to read
    everything. *)
Theorem objects_change_for_owners env k cid agent tenant content tags :
  fe_read (kfe_check env) cid = None ->
  (core (kf_fs (semantic_delete bin_to_vec env cid agent tenant k).2) = core (kf_fs k) \/ may_change env k cid agent tenant) /\
  (forall r k', semantic_update event_to_string env cid content tags agent tenant k = Some (r, k') ->
     core (kf_fs k') = core (kf_fs k) \/ may_change env k cid agent tenant).
Proof. intros Hr. split; [apply delete_may|]. intros r k'. by apply update_may. Qed.

(** Every object a read returns is one the agent may see. *)
Lemma reads_are_visible env query agent tenant k objects k' :
  semantic_read env query agent tenant k = (Ok objects, k') ->
  Forall (fun o => om_tenant_id (ob_meta o) = tenant /\ answers_for (kfe_now env) (kf_permissions k) agent o) objects.
Proof.
  unfold semantic_read. destruct (allow env k _ _) as [[]|e]; [|done]. destruct (fs_read _ _ _) as [[objs|e] fs]; [|done].
  intros [= <- _]. apply Forall_forall. intros o [_ Ho]%elem_of_lfilter. unfold readable_by, str_eqb in Ho.
  apply andb_true_iff in Ho as [Hn Ho]. apply bool_decide_eq_true in Hn. split; [done|].
  apply orb_true_iff in Ho as [Ho|Ho]; [by apply can_read_any_answers|]. apply bool_decide_eq_true in Ho. by left.
Qed.

(** ** The effect of a deletion *)

Lemma fs_delete_bin fe cid agent fs :
  let '(r, fs') := fs_delete bin_to_vec fe cid agent fs in
  is_ok r = true -> exists e, fs_recycle_bin fs' !! cid = Some e /\ re_cid e = cid.
Proof.
  unfold fs_delete. destruct (cas_get fe cid fs) as [[obj|e] fs1]; [|done]. intros _.
  match goal with |- context [persist_recycle_bin bin_to_vec fe ?f] => pose proof (persist_bin_core bin_to_vec fe f) as Hp; set (fs2 := f) in * end.
  injection Hp as _ _ Hb. rewrite Hb. exists (mkRecycle cid (fe_now fe) (ob_meta obj)). split; [|done].
  apply map_lookup_filter_Some. split.
  - unfold fs2. match goal with |- context [kg_remove fe cid ?f] => pose proof (kg_remove_core fe cid f) as Hk end.
    injection Hk as _ _ Hk. cbn. rewrite Hk. cbn. apply lookup_insert_eq.
  - cbn. unfold u64_saturating_sub, RECYCLE_BIN_TTL_MS. lia.
Qed.

(** A deletion that succeeds has taken effect: the check that the object is
    in the recycle bin never fails. *)
Lemma delete_contract_holds env cid agent tenant k :
  let '(r, k') := semantic_delete bin_to_vec env cid agent tenant k in
  r <> Err Object_ContractViolated /\ (r = Ok tt -> is_Some (fs_recycle_bin (kf_fs k') !! cid)).
Proof.
  unfold semantic_delete. destruct (fs_read (kfe_check env) (ByCid cid) (kf_fs k)) as [[[|o l]|e] fs1]; [done| |done].
  destruct (allow env _ _ _) as [[]|e] eqn:Ha.
  2: { unfold allow in Ha. destruct (check _ _ _ _); [done|]. cbn in Ha. injection Ha as <-. done. }
  destruct (allow_object env (with_fs fs1 k) _ o) as [[]|e] eqn:Hao.
  2: { revert Hao. unfold allow_object. destruct (check_namespace_access _ _); cbn; [|by intros [= <-]].
       destruct (check_ownership _ _ _ _); cbn; [done | by intros [= <-]]. }
  pose proof (fs_delete_bin (kfe_work env) cid agent (kf_fs (with_fs fs1 k))) as Hd.
  destruct (fs_delete bin_to_vec (kfe_work env) cid agent (kf_fs (with_fs fs1 k))) as [[[]|e] fs2]; [|done].
  destruct (Hd eq_refl) as (e & He & Hc). cbn [with_fs kf_fs]. destruct (existsb _ _) eqn:Hx; [split; [done|]; intros _; by exists e|].
  exfalso. apply not_true_iff_false in Hx. apply Hx, existsb_exists. exists e. split.
  - apply list_elem_of_In. unfold list_deleted. rewrite stable_sort_perm. apply elem_of_values. by exists cid.
  - apply bool_decide_eq_true. done.
Qed.
End props.

(** ** At a concrete kernel *)

Section example.
#[local] Existing Instances plain_platform plain_objects plain_log.

Definition some_kernel : FsKernel :=
  mkFsKernel guard_new some_fs (with_rotation true 0 4 0) (mkDisk None ∅) None 0 0.
Definition some_kenv (now : Z) : KernelFsEnv :=
  mkKernelFsEnv now (some_env now) (some_env now) (mkEmit now now now Rotate_Done Append_Done) true.
(** Alice's object. *)
Definition alices : option FsKernel :=
  snd <$> semantic_create toy_print (some_kenv 1) "beef" ["a"] "alice" None ObjectScope_Private some_kernel.

Lemma objects_change_for_owners_witness :
  core (kf_fs (semantic_delete no_bin (some_kenv 2) "beef00" "bob" "default" some_kernel).2) = core (kf_fs some_kernel) \/
  may_change (some_kenv 2) some_kernel "beef00" "bob" "default".
Proof. apply (objects_change_for_owners no_bin toy_print (some_kenv 2) some_kernel "beef00" "bob" "default" "" None). done. Defined.

(** An update whose check cannot read the object goes on without it: when only
    the first of the two reads fails, Bob replaces Alice's object. *)
Lemma update_check_skipped :
  let env := mkKernelFsEnv 2 (mkFsEnv 2 plain_io (mkAccessIo 2 id None) (fun _ => Some IoOther) (mkGraphEnv 2 true (fun _ => true))
    (fun _ => Err (ServerUnavailable "down")) (fun _ => Err (ServerUnavailable "down")) 0 "stub" false (mkPermissionIo true true true))
    (some_env 2) (mkEmit 2 2 2 Rotate_Done Append_Done) true in
  (k ← alices; '(r, _) ← semantic_update toy_print env "beef00" "cafe" None "bob" "default" k; Some r) = Some (Ok "cafe00") /\
  (k ← alices; '(r, _) ← semantic_update toy_print (some_kenv 2) "beef00" "cafe" None "bob" "default" k; Some r)
    = Some (Err (Object_Denied (NotOwner "bob" "alice"))).
Proof. by vm_compute. Qed.

(** Bob restores the object Alice deleted. *)
Lemma anyone_restores :
  (k ← alices;
   let '(r1, k) := semantic_delete no_bin (some_kenv 2) "beef00" "kernel" "default" k in
   '(r2, _) ← restore_deleted no_bin (some_kenv 3) "beef00" "bob" k; Some (r1, r2)) = Some (Ok tt, Ok tt).
Proof. by vm_compute. Qed.

(** Bob creates the same content: he gets an identifier he may not read. *)
Lemma second_creator_reads_nothing :
  (k ← alices;
   '(r1, k) ← semantic_create toy_print (some_kenv 2) "beef" ["b"] "bob" None ObjectScope_Private k;
   Some (r1, (semantic_read (some_kenv 3) (ByCid "beef00") "bob" "default" k).1)) = Some (Ok "beef00", Ok []).
Proof. by vm_compute. Qed.

(** A rollback returns to the identifier of the previous version, which then
    both replaces and is replaced by the one rolled back: the history goes in a
    circle. *)
Lemma rollback_history_circles :
  (k ← alices;
   '(r1, k) ← semantic_update toy_print (some_kenv 2) "beef00" "cafe" None "alice" "default" k;
   '(r2, k) ← rollback toy_print (some_kenv 3) "cafe00" "alice" k;
   Some (r1, r2, take 4 (version_history (some_kenv 4) "beef00" "alice" k), length (version_history (some_kenv 4) "beef00" "alice" k)))
  = Some (Ok "cafe00", Ok "beef00", ["beef00"; "cafe00"; "beef00"; "cafe00"], 51%nat).
Proof. by vm_compute. Qed.
End example.
