(* ===== verification/IntentPlans.v ===== *)
(** * Intent declarations and plans ([src/src/kernel/ops/intent.rs])

    What an agent declares, the plan of steps it is decomposed into, and the two
    orders in which a plan is executed: by dependencies, and by dependencies and
    expected duration. *)

From stdpp Require Import base gmap strings list sorting relations.
From S2P Require Import Prelude MemoryModel Text.

Record IntentDeclaration := mkDeclaration {
  dc_keywords : list string;
  dc_related_cids : list string;
  dc_budget_tokens : Z;
  dc_expected_outcome : string;
  dc_agent_id : string;
  dc_session_id : string;
  dc_intent_text : string;
  dc_declared_at_ms : Z;
}.

Definition declaration_new (now : Z) (keywords related_cids : list string) (budget_tokens : Z)
    (expected_outcome agent_id session_id intent_text : string) : IntentDeclaration :=
  mkDeclaration keywords related_cids budget_tokens expected_outcome agent_id session_id intent_text now.

Inductive IntentValidationError : Type := EmptyIntent | ZeroBudget.

Definition declaration_validate (d : IntentDeclaration) : result IntentValidationError unit :=
  reject (match dc_keywords d with [] => true | _ => false end) && blank (dc_intent_text d) with EmptyIntent;
  reject (dc_budget_tokens d =? 0)%Z with ZeroBudget;
  Ok tt.

Inductive IntentOperation : Type :=
  | Op_Read (cid : string)
  | Op_Search (query : string) (tags : list string)
  | Op_Call (tool : string) (params : Json)
  | Op_Create (content : string) (tags : list string)
  | Op_ReadBatch (cids : list string).

Inductive IntentStepState : Type := Step_Pending | Step_Running | Step_Completed | Step_Failed | Step_Blocked.

Record IntentStep := mkStep {
  step_id : string;
  step_operation : IntentOperation;
  step_dependencies : list string;
  step_estimated_tokens : Z;
  step_state : IntentStepState;
}.

Definition step_new (id : string) (operation : IntentOperation) (estimated_tokens : Z) : IntentStep :=
  mkStep id operation [] estimated_tokens Step_Pending.
Definition with_dependency (dep : string) (s : IntentStep) : IntentStep :=
  mkStep (step_id s) (step_operation s) (step_dependencies s ++ [dep]) (step_estimated_tokens s) (step_state s).

Record IntentPlan := mkPlan {
  plan_intent_id : string;
  plan_steps : list IntentStep;
  plan_total_estimated_tokens : Z;
  plan_created_at_ms : Z;
}.

Definition plan_new (now : Z) (intent_id : string) : IntentPlan := mkPlan intent_id [] 0 now.
Definition add_step (step : IntentStep) (p : IntentPlan) : IntentPlan :=
  mkPlan (plan_intent_id p) (plan_steps p ++ [step])
    (u64_add (plan_total_estimated_tokens p) (step_estimated_tokens step)) (plan_created_at_ms p).

Inductive PlanError : Type :=
  | MissingDependency (step dep : string)
  | CircularDependency (step : string).

(** ** The order by dependencies *)

(** [iter().enumerate().map(|(i, s)| (&s.step_id, i)).collect()]: of two steps
    with one name the later is found. *)
Definition step_index (steps : list IntentStep) : gmap string nat :=
  fst <$> index_by (fun x => step_id x.2) (imap pair steps).

Definition check_dependencies (steps : list IntentStep) : result PlanError unit :=
  try_for (fun _ _ step =>
    try_for (fun _ _ dep =>
      reject negb (opt_is_some (step_index steps !! dep)) with MissingDependency (step_id step) dep;
      Ok tt) 0 tt (step_dependencies step)) 0 tt steps.

Record Visit := mkVisit { vs_visited : list bool; vs_in_progress : list bool; vs_sorted : list nat }.

(** A loop of visits that ends at the first error. *)
Fixpoint visit_each (go : nat -> Visit -> option (result PlanError Visit)) (indices : list nat) (st : Visit)
    : option (result PlanError Visit) :=
  match indices with
  | [] => Some (Ok st)
  | i :: indices =>
      r ← go i st;
      match r with Err e => Some (Err e) | Ok st => visit_each go indices st end
  end.

(** [None] is a panic of an index, or the end of the fuel. *)
Fixpoint visit (fuel : nat) (steps : list IntentStep) (idx : nat) (st : Visit) : option (result PlanError Visit) :=
  match fuel with
  | O => None
  | S fuel =>
      visited ← vs_visited st !! idx;
      if visited : bool then Some (Ok st) else
      busy ← vs_in_progress st !! idx;
      step ← steps !! idx;
      if busy : bool then Some (Err (CircularDependency (step_id step))) else
      let st := mkVisit (vs_visited st) (<[idx := true]> (vs_in_progress st)) (vs_sorted st) in
      r ← visit_each (visit fuel steps) (omap (fun dep => step_index steps !! dep) (step_dependencies step)) st;
      match r with
      | Err e => Some (Err e)
      | Ok st =>
          Some (Ok (mkVisit (<[idx := true]> (vs_visited st)) (<[idx := false]> (vs_in_progress st)) (vs_sorted st ++ [idx])))
      end
  end.

(** Every nested visit is of another step, and one more finds the cycle. *)
Definition topological_sort (p : IntentPlan) : option (result PlanError (list nat)) :=
  let steps := plan_steps p in
  let n := length steps in
  match check_dependencies steps with
  | Err e => Some (Err e)
  | Ok _ =>
      r ← visit_each (fun i st =>
            visited ← vs_visited st !! i;
            if visited : bool then Some (Ok st) else visit (S n) steps i st)
          (seq 0 n) (mkVisit (replicate n false) (replicate n false) []);
      Some (match r with Err e => Err e | Ok st => Ok (vs_sorted st) end)
  end.

(** ** The order by expected duration *)

Definition op_type (operation : IntentOperation) : string :=
  match operation with
  | Op_Read _ => "read"
  | Op_Search _ _ => "search"
  | Op_Call _ _ => "call"
  | Op_Create _ _ => "create"
  | Op_ReadBatch _ => "read_batch"
  end.

Definition get_duration (avg_times : gmap string Z) (step : IntentStep) : Z :=
  default (step_estimated_tokens step) (avg_times !! op_type (step_operation step)).

(** [result.iter().position(|&r| r == d)] *)
Definition position_of (d : nat) (placed : list nat) : option nat := fst <$> list_find (fun r => r = d) placed.

(** After the last dependency that has been placed. *)
Definition earliest_dep_pos (steps : list IntentStep) (step : IntentStep) (placed : list nat) : nat :=
  match omap (fun d => position_of d placed) (omap (fun dep => step_index steps !! dep) (step_dependencies step)) with
  | [] => O
  | positions => S (max_list positions)
  end.

(** The first position from [pos] whose step names [id] as a dependency, or the end. *)
Fixpoint scan_dependents (steps : list IntentStep) (id : string) (pos : nat) (rest : list nat) : nat :=
  match rest with
  | [] => pos
  | r :: rest =>
      if from_option (fun s => str_mem id (step_dependencies s)) false (steps !! r) then pos
      else scan_dependents steps id (S pos) rest
  end.

Definition insert_pos (steps : list IntentStep) (step : IntentStep) (placed : list nat) : nat :=
  let e := earliest_dep_pos steps step placed in scan_dependents steps (step_id step) e (drop e placed).

(** [result.insert(insert_pos, step_idx)] *)
Definition place (steps : list IntentStep) (placed : list nat) (step_idx : nat) : list nat :=
  match steps !! step_idx with
  | None => placed
  | Some step =>
      let pos := insert_pos steps step placed in take pos placed ++ step_idx :: drop pos placed
  end.

(** A stable sort by [Reverse] of the duration. *)
Definition by_duration (avg_times : gmap string Z) (steps : list IntentStep) (sorted : list nat) : list nat :=
  snd <$> stable_sort (fun y x => x.1 <? y.1)%Z
    ((fun idx => (from_option (get_duration avg_times) 0%Z (steps !! idx), idx)) <$> sorted).

Definition optimized_sort (avg_times : gmap string Z) (p : IntentPlan) : option (result PlanError (list nat)) :=
  r ← topological_sort p;
  match r with
  | Err e => Some (Err e)
  | Ok sorted =>
      if (length sorted <=? 1)%nat then Some (Ok sorted)
      else Some (Ok (foldl (place (plan_steps p)) [] (by_duration avg_times (plan_steps p) sorted)))
  end.

(** ** Reading a plan *)

Definition sorted_steps (p : IntentPlan) : option (result PlanError (list IntentStep)) :=
  r ← topological_sort p;
  match r with
  | Err e => Some (Err e)
  | Ok indices => Some (Ok (omap (M := list) (fun i => plan_steps p !! i) indices))
  end.
Definition entry_steps (p : IntentPlan) : list IntentStep :=
  List.filter (fun s => match step_dependencies s with [] => true | _ => false end) (plan_steps p).
Definition get_step (p : IntentPlan) (id : string) : option IntentStep :=
  List.find (fun s => str_eqb (step_id s) id) (plan_steps p).

(** * Orders of a plan

    The sort by dependencies ends on every plan and finds an order exactly when
    there is one; the sort by duration keeps it for plans without chains and
    breaks it for a chain of three steps. *)

(** Step [i] waits for step [j]. *)
Definition depends (steps : list IntentStep) (i j : nat) : Prop :=
  exists s dep, steps !! i = Some s /\ dep ∈ step_dependencies s /\ step_index steps !! dep = Some j.

(** [l] runs every step after the ones it waits for. *)
Definition dependencies_first (steps : list IntentStep) (l : list nat) : Prop :=
  prefix_ok (fun before i => forall j, depends steps i j -> j ∈ before) l.

(** Every dependency is a step of the plan. *)
Definition dependencies_exist (steps : list IntentStep) : Prop :=
  forall s dep, s ∈ steps -> dep ∈ step_dependencies s -> exists t, t ∈ steps /\ step_id t = dep.

Section plan.
Variable steps : list IntentStep.
Local Notation n := (length steps).
Local Notation dep_of := (depends steps).

Lemma elem_of_imap_pair {A} (l : list A) i x : (i, x) ∈ imap pair l <-> l !! i = Some x.
Proof.
  rewrite list_elem_of_lookup. split.
  - intros (k & Hk). rewrite list_lookup_imap in Hk. destruct (l !! k) eqn:E; by simplify_eq/=.
  - intros Hi. exists i. by rewrite list_lookup_imap, Hi.
Qed.

Lemma step_index_Some dep j :
  step_index steps !! dep = Some j -> exists s, steps !! j = Some s /\ step_id s = dep.
Proof.
  unfold step_index. rewrite lookup_fmap. destruct (index_by _ _ !! dep) as [[k s]|] eqn:E; [|done].
  intros [= <-]. apply index_by_lookup_Some in E as [Hin Hk]. exists s. split; [by apply elem_of_imap_pair | done].
Qed.

Lemma step_index_is_Some dep :
  is_Some (step_index steps !! dep) <-> exists t, t ∈ steps /\ step_id t = dep.
Proof.
  unfold step_index. rewrite lookup_fmap, fmap_is_Some, index_by_is_Some. split.
  - intros ([k s] & -> & Hin)%list_elem_of_fmap. apply elem_of_imap_pair in Hin.
    exists s. split; [by eapply list_elem_of_lookup_2 | done].
  - intros (t & Ht & <-). apply list_elem_of_lookup in Ht as [k Hk]. apply list_elem_of_fmap.
    exists (k, t). split; [done | by apply elem_of_imap_pair].
Qed.

Lemma depends_in_range i j : dep_of i j -> i < n /\ j < n.
Proof.
  intros (s & dep & Hs & _ & Hj). apply step_index_Some in Hj as (t & Ht & _).
  split; by eapply lookup_lt_Some.
Qed.

Lemma depends_of_step i s j :
  steps !! i = Some s -> j ∈ omap (fun dep => step_index steps !! dep) (step_dependencies s) <-> dep_of i j.
Proof.
  intros Hs. rewrite list_elem_of_omap. split.
  - intros (dep & Hd & Hj). by exists s, dep.
  - intros (s' & dep & Hs' & Hd & Hj). simplify_eq. by exists dep.
Qed.

(** ** One visit *)

Record good (st : Visit) : Prop := {
  good_visited : length (vs_visited st) = n;
  good_progress : length (vs_in_progress st) = n;
  good_nodup : NoDup (vs_sorted st);
  good_sorted : forall i, i ∈ vs_sorted st <-> vs_visited st !! i = Some true;
  good_order : dependencies_first steps (vs_sorted st);
}.

(** A visit leaves the steps under way alone and only adds visited ones. *)
Record framed (st st' : Visit) : Prop := {
  framed_progress : vs_in_progress st' = vs_in_progress st;
  framed_grows : forall j, vs_visited st !! j = Some true -> vs_visited st' !! j = Some true;
  framed_busy : forall j, vs_in_progress st !! j = Some true -> vs_visited st' !! j = vs_visited st !! j;
}.

Lemma framed_refl st : framed st st.
Proof. by split. Qed.
Lemma framed_trans st1 st2 st3 : framed st1 st2 -> framed st2 st3 -> framed st1 st3.
Proof.
  intros [P1 G1 B1] [P2 G2 B2]. split; [congruence | auto |].
  intros j Hj. rewrite B2 by congruence. by apply B1.
Qed.

Definition cycle_found (e : PlanError) : Prop :=
  exists i s, steps !! i = Some s /\ e = CircularDependency (step_id s) /\ tc dep_of i i.

Definition visit_post (st : Visit) (indices : list nat) (r : result PlanError Visit) : Prop :=
  match r with
  | Err e => cycle_found e
  | Ok st' => good st' /\ framed st st' /\ forall i, i ∈ indices -> vs_visited st' !! i = Some true
  end.

Lemma visit_each_spec go progress indices st :
  (forall i st, i ∈ indices -> good st -> vs_in_progress st = progress ->
     exists r, go i st = Some r /\ visit_post st [i] r) ->
  good st -> vs_in_progress st = progress ->
  exists r, visit_each go indices st = Some r /\ visit_post st indices r.
Proof.
  revert st. induction indices as [|i indices IH]; intros st Hgo Hst Hp; cbn [visit_each].
  { eexists. split; [done|]. split; [done|]. split; [apply framed_refl | by intros i ?%not_elem_of_nil]. }
  destruct (Hgo i st) as (r & -> & Hr); [by left | done | done |]. cbn [mbind option_bind].
  destruct r as [st1|e]; [|by exists (Err e)]. destruct Hr as (Hst1 & Hf1 & Hi).
  destruct (IH st1) as (r & -> & Hr); [by intros; apply Hgo; [right|..] | done | by rewrite (framed_progress _ _ Hf1) |].
  exists r. split; [done|]. destruct r as [st2|e]; [|done]. destruct Hr as (Hst2 & Hf2 & Hrest).
  split; [done|]. split; [by eapply framed_trans|]. intros j [-> |Hj]%elem_of_cons; [|by apply Hrest].
  apply (framed_grows _ _ Hf2), Hi. by left.
Qed.

(** Steps that are not under way. *)
Definition idle (progress : list bool) : nat := length (filter (fun b => b = false) progress).

Lemma idle_insert progress i :
  progress !! i = Some false -> idle progress = S (idle (<[i := true]> progress)).
Proof.
  unfold idle. intros Hi. rewrite <-(take_drop_middle _ _ _ Hi) at 1.
  rewrite insert_take_drop by (by eapply lookup_lt_Some).
  rewrite !filter_app, !length_app, filter_cons_True, filter_cons_False by done. cbn [length]. lia.
Qed.

Lemma finish_visit idx st st' :
  vs_visited st !! idx = Some false -> vs_in_progress st !! idx = Some false ->
  good st' -> framed (mkVisit (vs_visited st) (<[idx := true]> (vs_in_progress st)) (vs_sorted st)) st' ->
  (forall j, dep_of idx j -> vs_visited st' !! j = Some true) ->
  visit_post st [idx] (Ok (mkVisit (<[idx := true]> (vs_visited st')) (<[idx := false]> (vs_in_progress st'))
    (vs_sorted st' ++ [idx]))).
Proof.
  intros Hv Hb Hg [Hp Hgrow Hbusy] Hdeps. cbn [vs_visited vs_in_progress] in *.
  assert (Hlt : idx < length (vs_in_progress st)) by (by eapply lookup_lt_Some).
  assert (Hv' : vs_visited st' !! idx = Some false) by (rewrite Hbusy, Hv; [done | by apply list_lookup_insert_eq]).
  assert (Hlt' : idx < length (vs_visited st')) by (by eapply lookup_lt_Some).
  split_and!.
  - destruct Hg as [G1 G2 G3 G4 G5]. split; cbn [vs_visited vs_in_progress vs_sorted].
    + by rewrite length_insert.
    + by rewrite length_insert.
    + apply NoDup_app. split; [done|]. split; [|by apply NoDup_singleton].
      intros i Hi ->%list_elem_of_singleton. apply G4 in Hi. congruence.
    + intros i. rewrite elem_of_app, list_elem_of_singleton, G4. destruct (decide (i = idx)) as [-> |Hne].
      * rewrite list_lookup_insert_eq by done. naive_solver.
      * rewrite list_lookup_insert_ne by done. naive_solver.
    + apply prefix_ok_snoc. split; [done|]. intros j Hj. by apply G4, Hdeps.
  - split; cbn [vs_visited vs_in_progress].
    + rewrite Hp, list_insert_insert_eq. by apply list_insert_id.
    + intros j Hj. destruct (decide (j = idx)) as [-> |Hne]; [congruence|].
      rewrite list_lookup_insert_ne by done. by apply Hgrow.
    + intros j Hj. destruct (decide (j = idx)) as [-> |Hne]; [congruence|].
      rewrite list_lookup_insert_ne by done. apply Hbusy. by rewrite list_lookup_insert_ne.
  - intros i ->%list_elem_of_singleton. by apply list_lookup_insert_eq.
Qed.

Lemma good_with_progress st progress :
  length progress = n -> good st -> good (mkVisit (vs_visited st) progress (vs_sorted st)).
Proof. intros Hl [G1 G2 G3 G4 G5]. by split. Qed.

(** Fuel beyond the number of idle steps is enough: a visit from steps under
    way that all lead to [idx] visits it, or finds a cycle. *)
Lemma visit_spec fuel idx st :
  idle (vs_in_progress st) < fuel -> good st -> idx < n ->
  (forall j, vs_in_progress st !! j = Some true -> tc dep_of j idx) ->
  exists r, visit fuel steps idx st = Some r /\ visit_post st [idx] r.
Proof.
  revert idx st. induction fuel as [|fuel IH]; intros idx st Hfuel Hst Hlt Hbusy; [lia|]. cbn [visit].
  destruct (lookup_lt_is_Some_2 (vs_visited st) idx) as [v Hv]; [by rewrite good_visited|].
  destruct (lookup_lt_is_Some_2 (vs_in_progress st) idx) as [b Hb]; [by rewrite good_progress|].
  destruct (lookup_lt_is_Some_2 steps idx) as [s Hs]; [done|].
  rewrite Hv, Hb, Hs. cbn [mbind option_bind]. destruct v.
  { eexists. split; [done|]. split; [done|]. split; [apply framed_refl | by intros i ->%list_elem_of_singleton]. }
  destruct b.
  { eexists. split; [done|]. exists idx, s. auto. }
  set (st1 := mkVisit _ _ _).
  destruct (visit_each_spec (visit fuel steps) (vs_in_progress st1)
    (omap (fun dep => step_index steps !! dep) (step_dependencies s)) st1) as (r & -> & Hr).
  - intros i st2 Hi Hst2 Hp2. apply (depends_of_step idx s i Hs) in Hi. apply IH.
    + rewrite Hp2. change (idle (<[idx := true]> (vs_in_progress st)) < fuel).
      pose proof (idle_insert _ _ Hb). lia.
    + done.
    + by apply depends_in_range in Hi as [_ ?].
    + rewrite Hp2. cbn [st1 vs_in_progress]. intros j Hj. destruct (decide (j = idx)) as [-> |Hne]; [by apply tc_once|].
      rewrite list_lookup_insert_ne in Hj by done. eapply tc_r; [by apply Hbusy | done].
  - apply good_with_progress; [|done]. by rewrite length_insert, good_progress.
  - done.
  - cbn [mbind option_bind]. destruct r as [st2|e]; [|by exists (Err e)]. destruct Hr as (Hst2 & Hf & Hdeps).
    eexists. split; [done|]. apply finish_visit; [done..|]. intros j Hj. by apply Hdeps, (depends_of_step idx s j Hs).
Qed.

(** ** The whole sort *)

Lemma try_for_unit_Err {E A} (f : nat -> unit -> A -> result E unit) i l e :
  try_for f i tt l = Err e -> exists m x, x ∈ l /\ f m tt x = Err e.
Proof.
  revert i. induction l as [|x l IH]; intros i; cbn [try_for]; [done|].
  destruct (f i tt x) as [[]|e'] eqn:Ef.
  - intros (m & y & Hy & Hf)%IH. exists m, y. split; [by right | done].
  - intros [= ->]. exists i, x. split; [by left | done].
Qed.

Definition missing_found (step dep : string) : Prop :=
  exists s, s ∈ steps /\ step_id s = step /\ dep ∈ step_dependencies s /\ ~ exists t, t ∈ steps /\ step_id t = dep.

Lemma check_dependencies_spec :
  match check_dependencies steps with
  | Ok _ => dependencies_exist steps
  | Err e => exists step dep, e = MissingDependency step dep /\ missing_found step dep
  end.
Proof.
  destruct (check_dependencies steps) as [[]|e] eqn:Hc; unfold check_dependencies in Hc.
  - intros s dep Hs Hd. destruct (try_for_each _ _ _ s Hc Hs) as [m Hm].
    destruct (try_for_each _ _ _ dep Hm Hd) as [k Hk]. apply step_index_is_Some.
    by destruct (step_index steps !! dep).
  - apply try_for_unit_Err in Hc as (m & s & Hs & Hm). apply try_for_unit_Err in Hm as (k & dep & Hd & Hk).
    destruct (step_index steps !! dep) eqn:E; [done|]. injection Hk as <-.
    exists (step_id s), dep. split; [done|]. exists s. split_and!; [done..|].
    rewrite <-step_index_is_Some, E. by intros [].
Qed.

(** In an order of the steps nothing waits for itself. *)
Lemma dependencies_first_tc l i j :
  dependencies_first steps l -> tc dep_of i j -> forall pre post, l = pre ++ i :: post -> j ∈ pre.
Proof.
  intros Hl. induction 1 as [i j Hij|i k j Hik _ IH]; intros pre post Heq; [by apply (Hl pre i post Heq)|].
  assert (Hk : k ∈ pre) by (by apply (Hl pre i post Heq)).
  apply list_elem_of_split in Hk as (pre1 & pre2 & ->).
  specialize (IH pre1 (pre2 ++ i :: post)). rewrite <-app_assoc in Heq. specialize (IH Heq). set_solver.
Qed.

Lemma ordered_acyclic l : l ≡ₚ seq 0 n -> dependencies_first steps l -> forall i, ~ tc dep_of i i.
Proof.
  intros Hp Hl i Hi. assert (Hlt : i < n).
  { inversion Hi as [? ? Hd|? ? ? Hd _]; subst; by apply depends_in_range in Hd as [? _]. }
  assert (Hin : i ∈ l) by (rewrite Hp; apply elem_of_seq; lia).
  apply list_elem_of_split in Hin as (pre & post & ->).
  pose proof (dependencies_first_tc _ i i Hl Hi pre post eq_refl) as Hpre.
  assert (Hnd : NoDup (pre ++ i :: post)) by (rewrite Hp; apply NoDup_seq).
  apply NoDup_app in Hnd as (_ & Hd & _). apply (Hd i Hpre). by left.
Qed.

(** What an answer says of the plan. *)
Definition plan_verdict (r : result PlanError (list nat)) : Prop :=
  match r with
  | Ok order => dependencies_exist steps /\ order ≡ₚ seq 0 n /\ dependencies_first steps order
  | Err (MissingDependency step dep) => missing_found step dep
  | Err (CircularDependency step) =>
      dependencies_exist steps /\ exists i s, steps !! i = Some s /\ step_id s = step /\ tc dep_of i i
  end.

Definition executable_plan : Prop := dependencies_exist steps /\ forall i, ~ tc dep_of i i.

Lemma plan_verdict_exact r : plan_verdict r -> (exists order, r = Ok order) <-> executable_plan.
Proof.
  intros Hr. split.
  - intros [order ->]. destruct Hr as (Hd & Hp & Hf). split; [done | by apply (ordered_acyclic order)].
  - intros [Hd Ha]. destruct r as [order|[step dep|step]]; [by exists order |..].
    + destruct Hr as (s & Hs & _ & Hdep & Hno). destruct Hno. by apply (Hd s).
    + destruct Hr as (_ & i & s & _ & _ & Hi). by destruct (Ha i).
Qed.

Lemma good_start : good (mkVisit (replicate n false) (replicate n false) []).
Proof.
  split; cbn [vs_visited vs_in_progress vs_sorted]; [by rewrite length_replicate | by rewrite length_replicate | apply NoDup_nil_2 | | apply prefix_ok_nil].
  intros i. split; [by intros ?%not_elem_of_nil|]. intros [? _]%lookup_replicate_1. done.
Qed.

Lemma idle_all : idle (replicate n false) <= n.
Proof. unfold idle. rewrite length_filter. by rewrite length_replicate. Qed.

Lemma good_complete st :
  good st -> (forall i, i ∈ seq 0 n -> vs_visited st !! i = Some true) -> vs_sorted st ≡ₚ seq 0 n.
Proof.
  intros Hg Hall. apply NoDup_Permutation; [by apply good_nodup | apply NoDup_seq |].
  intros i. rewrite good_sorted by done. split; [|apply Hall]. intros Hi%lookup_lt_Some.
  rewrite good_visited in Hi by done. apply elem_of_seq. lia.
Qed.
End plan.

Lemma topological_sort_verdict p : exists r, topological_sort p = Some r /\ plan_verdict (plan_steps p) r.
Proof.
  unfold topological_sort. set (steps := plan_steps p). pose proof (check_dependencies_spec steps) as Hc.
  destruct (check_dependencies steps) as [[]|e]; [|by destruct Hc as (step & dep & -> & Hm); eexists].
  edestruct (visit_each_spec steps (fun i st => visited ← vs_visited st !! i;
      if visited : bool then Some (Ok st) else visit (S (length steps)) steps i st)
    (replicate (length steps) false) (seq 0 (length steps))) as (r & -> & Hr); [|apply good_start|done|].
  - intros i st Hi%elem_of_seq Hst Hp.
    destruct (visit_spec steps (S (length steps)) i st) as (r & Hr & Hpost).
    + rewrite Hp. pose proof (idle_all steps). lia.
    + done.
    + lia.
    + rewrite Hp. by intros j [? _]%lookup_replicate_1.
    + destruct (lookup_lt_is_Some_2 (vs_visited st) i) as [v Hv]; [rewrite (good_visited steps) by done; lia|].
      exists r. split; [|done]. rewrite Hv. cbn [mbind option_bind]. rewrite <-Hr. cbn [visit]. rewrite Hv.
      cbn [mbind option_bind]. by destruct v.
  - cbn [mbind option_bind]. eexists. split; [done|]. destruct r as [st|e]; cbn [plan_verdict].
    + destruct Hr as (Hst & _ & Hall). split_and!; [done | by apply good_complete | by apply good_order].
    + destruct Hr as (i & s & Hs & -> & Hi). split; [done|]. by exists i, s.
Qed.

Lemma sort_decides p :
  exists r, topological_sort p = Some r /\ ((exists order, r = Ok order) <-> executable_plan (plan_steps p)).
Proof.
  destruct (topological_sort_verdict p) as (r & Hr & Hv). exists r. split; [done | by apply plan_verdict_exact].
Qed.

(** C33: Sorting a plan by dependencies always ends, with an order or an
    error, without a panic.  It answers with an order exactly when every
    dependency is a step of the plan and no step waits for itself directly or
    through others; the order then runs every step once, after all the steps it
    waits for.  A missing dependency is one a step names and no step has; a
    circular one is reported at a step that waits for itself. *)
Theorem topological_sort_exact p :
  exists r, topological_sort p = Some r /\ plan_verdict (plan_steps p) r /\
    ((exists order, r = Ok order) <-> executable_plan (plan_steps p)).
Proof.
  destruct (topological_sort_verdict p) as (r & Hr & Hv). exists r. split_and!; [done..|].
  by apply plan_verdict_exact.
Qed.

(** ** The sort by duration *)

Section duration.
Variable steps : list IntentStep.
Local Notation n := (length steps).

Lemma place_perm placed i : i < n -> place steps placed i ≡ₚ i :: placed.
Proof.
  intros [s Hs]%lookup_lt_is_Some_2. unfold place. rewrite Hs. cbn.
  by rewrite <-Permutation_middle, take_drop.
Qed.

Lemma place_all_perm l placed :
  (forall i, i ∈ l -> i < n) -> foldl (place steps) placed l ≡ₚ l ++ placed.
Proof.
  revert placed. induction l as [|i l IH]; intros placed Hl; [done|]. cbn [foldl].
  rewrite IH by (intros; apply Hl; by right). rewrite place_perm by (apply Hl; by left).
  by rewrite <-Permutation_middle.
Qed.

Lemma by_duration_perm avg_times sorted : by_duration avg_times steps sorted ≡ₚ sorted.
Proof. unfold by_duration. rewrite stable_sort_perm, <-list_fmap_compose. by rewrite list_fmap_id. Qed.

(** No step that waits for others is waited for. *)
Definition flat_plan : Prop :=
  forall s t, s ∈ steps -> t ∈ steps -> step_id s ∈ step_dependencies t -> step_dependencies s = [].

Definition names (id : string) (r : nat) : bool :=
  from_option (fun s => str_mem id (step_dependencies s)) false (steps !! r).

Lemma depends_names i j s : steps !! j = Some s -> depends steps i j -> names (step_id s) i = true.
Proof.
  intros Hs (t & dep & Ht & Hd & Hj). apply step_index_Some in Hj as (s' & Hs' & <-). simplify_eq.
  unfold names. rewrite Ht. cbn. by apply bool_decide_eq_true.
Qed.

Lemma scan_dependents_skips id pos rest :
  exists k, scan_dependents steps id pos rest = pos + k /\ k <= length rest /\
    (forall r, r ∈ take k rest -> names id r = false) /\
    ((forall r, r ∈ rest -> names id r = false) -> k = length rest).
Proof.
  revert pos. induction rest as [|r rest IH]; intros pos; cbn [scan_dependents].
  { exists 0. split_and!; [lia | done | by intros r ?%not_elem_of_nil | done]. }
  fold (names id r). destruct (names id r) eqn:Hr.
  - exists 0. split_and!; [lia | cbn; lia | by intros r' ?%not_elem_of_nil |]. intros Hall.
    rewrite (Hall r) in Hr by left. done.
  - destruct (IH (S pos)) as (k & -> & Hk & Htake & Hall). exists (S k). split_and!; [lia | cbn; lia | |].
    + intros r' [-> |Hr']%elem_of_cons; [done | by apply Htake].
    + intros Hnone. cbn. f_equal. apply Hall. intros r' Hr'. apply Hnone. by right.
Qed.

(** Nothing that has been placed waits for a later step. *)
Definition placed_in_order (l : list nat) : Prop := StronglySorted (fun i j => ~ depends steps i j) l.

Lemma place_in_order placed i :
  flat_plan -> (forall r, r ∈ placed -> r < n) -> i < n ->
  placed_in_order placed -> placed_in_order (place steps placed i).
Proof.
  intros Hflat Hpl [s Hs]%lookup_lt_is_Some_2 Hord. unfold place. rewrite Hs. cbn zeta. unfold insert_pos.
  set (e := earliest_dep_pos steps s placed).
  destruct (scan_dependents_skips (step_id s) e (drop e placed)) as (k & -> & _ & Htake & Hall).
  unfold placed_in_order in *. rewrite <-(take_drop (e + k) placed), StronglySorted_app in Hord.
  destruct Hord as (Hcross & H1 & H2).
  destruct (step_dependencies s) as [|d ds] eqn:Hd.
  - apply StronglySorted_app. assert (He : e = 0) by (unfold e, earliest_dep_pos; by rewrite Hd).
    rewrite He in *. cbn [Nat.add drop] in *.
    assert (Hno : forall j, ~ depends steps i j).
    { intros j (s' & dep & Hs' & Hdep & _). simplify_eq. rewrite Hd in Hdep. by apply not_elem_of_nil in Hdep. }
    split_and!; [|done|constructor; [done | by apply Forall_forall; intros j _; apply Hno]].
    intros a b Ha [-> |Hb]%elem_of_cons; [|by apply Hcross].
    intros Hdep%(depends_names _ _ s); [|done]. rewrite (Htake a) in Hdep; [done|done].
  - assert (Hnone : forall r, r ∈ placed -> names (step_id s) r = false).
    { intros r Hr. unfold names. destruct (steps !! r) as [t|] eqn:Ht; [|done]. cbn.
      apply bool_decide_eq_false. intros Hin. apply list_elem_of_lookup_2 in Hs, Ht.
      by rewrite (Hflat s t Hs Ht Hin) in Hd. }
    assert (Hk : length placed <= e + k).
    { rewrite Hall, length_drop; [lia|]. intros r Hr. apply Hnone.
      rewrite <-(take_drop e placed). apply elem_of_app. by right. }
    rewrite take_ge, drop_ge in * by done. apply StronglySorted_app. split_and!; [|done|by repeat constructor].
    intros a b Ha ->%list_elem_of_singleton Hdep%(depends_names _ _ s); [|done]. by rewrite Hnone in Hdep.
Qed.

Lemma place_all_in_order l placed :
  flat_plan -> (forall r, r ∈ placed -> r < n) -> (forall i, i ∈ l -> i < n) ->
  placed_in_order placed -> placed_in_order (foldl (place steps) placed l).
Proof.
  intros Hflat. revert placed. induction l as [|i l IH]; intros placed Hpl Hl Hord; [done|]. cbn [foldl].
  assert (Hi : i < n) by (apply Hl; by left).
  apply IH; [|intros; apply Hl; by right | by apply place_in_order].
  intros r. rewrite place_perm by done. intros [-> |Hr]%elem_of_cons; [done | by apply Hpl].
Qed.

Lemma placed_dependencies_first l :
  flat_plan -> l ≡ₚ seq 0 n -> placed_in_order l -> dependencies_first steps l.
Proof.
  intros Hflat Hp Hord pre i post -> j Hj. apply StronglySorted_app in Hord as (_ & _ & Hord).
  assert (Hin : j ∈ pre ++ i :: post).
  { rewrite Hp. apply elem_of_seq. apply depends_in_range in Hj. lia. }
  apply elem_of_app in Hin as [?|[-> |Hpost]%elem_of_cons]; [done|exfalso..].
  - destruct Hj as (s & dep & Hs & Hd & Hj). apply step_index_Some in Hj as (s' & Hs' & <-). simplify_eq.
    apply list_elem_of_lookup_2 in Hs. rewrite (Hflat s s Hs Hs Hd) in Hd. by apply not_elem_of_nil in Hd.
  - inversion Hord as [|? ? _ Hall]; subst. rewrite Forall_forall in Hall. by apply (Hall j Hpost).
Qed.
End duration.

(** The sort by duration fails exactly where the sort by dependencies does, and
    otherwise runs every step once; in a flat plan every step comes after the
    ones it waits for. *)
Lemma optimized_sort_spec avg_times p :
  exists r, topological_sort p = Some r /\
  match r with
  | Err e => optimized_sort avg_times p = Some (Err e)
  | Ok _ => exists order, optimized_sort avg_times p = Some (Ok order) /\ order ≡ₚ seq 0 (length (plan_steps p)) /\
      (flat_plan (plan_steps p) -> dependencies_first (plan_steps p) order)
  end.
Proof.
  destruct (topological_sort_verdict p) as (r & Hr & Hv). exists r. split; [done|].
  unfold optimized_sort. rewrite Hr. cbn [mbind option_bind]. destruct r as [sorted|e]; [|done].
  destruct Hv as (_ & Hp & Hfirst). destruct (length sorted <=? 1)%nat; [by eexists|].
  assert (Hb : by_duration avg_times (plan_steps p) sorted ≡ₚ seq 0 (length (plan_steps p)))
    by (by rewrite by_duration_perm).
  assert (Hlt : forall i, i ∈ by_duration avg_times (plan_steps p) sorted -> i < length (plan_steps p))
    by (intros i; rewrite Hb, elem_of_seq; lia).
  eexists. split; [done|].
  assert (Hperm : foldl (place (plan_steps p)) [] (by_duration avg_times (plan_steps p) sorted)
    ≡ₚ seq 0 (length (plan_steps p))) by (rewrite place_all_perm, app_nil_r; done).
  split; [done|]. intros Hflat. apply placed_dependencies_first; [done..|].
  apply place_all_in_order; [done | by intros r ?%not_elem_of_nil | done | constructor].
Qed.

(** A chain: [report] waits for [index], which waits for [fetch]. *)
Definition chain_plan : IntentPlan :=
  foldl (fun p s => add_step s p) (plan_new 0 "intent")
    [step_new "fetch" (Op_Read "a") 2;
     with_dependency "fetch" (step_new "index" (Op_Read "b") 1);
     with_dependency "index" (step_new "report" (Op_Read "c") 3)].

(** With its last step the longest, the sort by duration puts it first: only
    direct dependents are looked at when the steps before it are inserted. *)
Lemma optimized_sort_breaks_chain :
  topological_sort chain_plan = Some (Ok [0; 1; 2]) /\
  optimized_sort ∅ chain_plan = Some (Ok [2; 0; 1]) /\
  ~ dependencies_first (plan_steps chain_plan) [2; 0; 1].
Proof.
  split_and!; [by vm_compute | by vm_compute |]. intros Hf.
  assert (Hd : depends (plan_steps chain_plan) 2 1).
  { exists (with_dependency "index" (step_new "report" (Op_Read "c") 3)), "index".
    split_and!; [done | by left | by vm_compute]. }
  by apply (Hf [] 2 [0; 1] eq_refl), not_elem_of_nil in Hd.
Qed.
