(* ===== verification/IntentTree.v ===== *)
(** * Shared plans ([IntentTree] of [src/src/kernel/ops/intent.rs])

    Several agents work on one plan: each claims steps, reports their results,
    and asks which steps are free or ready.  A claim looks under a read lock and
    enters under a write lock of its own, so the two halves of concurrent claims
    interleave. *)

From stdpp Require Import base gmap strings list.
From S2P Require Import Prelude MemoryModel Text Float32 IntentPlans.

Record StepResult := mkStepResult {
  sr_step_id : string;
  sr_success : bool;
  sr_output_cids : list string;
  sr_tokens_used : Z;
  sr_error : option string;
}.

Inductive ConflictType : Type := DoubleClaim | AlreadyClaimed | ResultMismatch.
Record ConflictRecord := mkConflict {
  cf_step_id : string;
  cf_agent_id : string;
  cf_conflict_type : ConflictType;
  cf_detected_at_ms : Z;
}.

Inductive TreeError : Type :=
  | StepNotFound (step : string)
  | StepAlreadyAssigned (step : string)
  | UnauthorizedAgent (step agent : string)
  | ResultNotFound (step : string).

Record IntentTree := mkTree {
  tree_root_intent_id : string;
  tree_plan : IntentPlan;
  tree_assigned : gmap string (list string);
  tree_results : gmap string StepResult;
  tree_conflicts : list ConflictRecord;
}.

Definition tree_new (root_intent_id : string) (plan : IntentPlan) : IntentTree := mkTree root_intent_id plan ∅ ∅ [].

(** [any(|s| s.step_id == step_id)] *)
Definition has_step (t : IntentTree) (step : string) : bool :=
  existsb (fun s => str_eqb (step_id s) step) (plan_steps (tree_plan t)).
(** Whether some agent's list has the step. *)
Definition is_assigned (t : IntentTree) (step : string) : bool :=
  existsb (fun steps => str_mem step steps) (values (tree_assigned t)).

(** The first half of [assign_step]: existence and the scan of the claims. *)
Definition assign_check (step : string) (t : IntentTree) : result TreeError unit :=
  reject negb (has_step t step) with StepNotFound step;
  reject is_assigned t step with StepAlreadyAssigned step;
  Ok tt.
(** The second half: the entry under the write lock. *)
Definition assign_enter (step agent : string) (t : IntentTree) : IntentTree :=
  mkTree (tree_root_intent_id t) (tree_plan t)
    (<[agent := default [] (tree_assigned t !! agent) ++ [step]]> (tree_assigned t)) (tree_results t) (tree_conflicts t).
Definition assign_step (step agent : string) (t : IntentTree) : result TreeError unit * IntentTree :=
  match assign_check step t with
  | Err e => (Err e, t)
  | Ok _ => (Ok tt, assign_enter step agent t)
  end.

Definition get_agent_steps (t : IntentTree) (agent : string) : list string := default [] (tree_assigned t !! agent).

Definition record_result (step agent : string) (r : StepResult) (t : IntentTree) : result TreeError unit * IntentTree :=
  match tree_assigned t !! agent with
  | Some steps =>
      if str_mem step steps
      then (Ok tt, mkTree (tree_root_intent_id t) (tree_plan t) (tree_assigned t) (<[step := r]> (tree_results t)) (tree_conflicts t))
      else (Err (UnauthorizedAgent step agent), t)
  | None => (Err (UnauthorizedAgent step agent), t)
  end.

Definition get_result (t : IntentTree) (step : string) : option StepResult := tree_results t !! step.
Definition detect_conflicts (t : IntentTree) : list ConflictRecord := tree_conflicts t.

Definition claimed_steps (t : IntentTree) : gset string := list_to_set (concat (values (tree_assigned t))).
Definition unclaimed_steps (t : IntentTree) : list string :=
  step_id <$> List.filter (fun s => negb (bool_decide (step_id s ∈ claimed_steps t))) (plan_steps (tree_plan t)).

Definition succeeded (t : IntentTree) (step : string) : bool := from_option sr_success false (tree_results t !! step).
Definition ready_steps (t : IntentTree) : list string :=
  step_id <$> List.filter (fun s =>
    negb (opt_is_some (tree_results t !! step_id s)) && forallb (succeeded t) (step_dependencies s)) (plan_steps (tree_plan t)).

Definition is_complete (t : IntentTree) : bool :=
  forallb (fun s => opt_is_some (tree_results t !! step_id s)) (plan_steps (tree_plan t)) &&
  forallb sr_success (values (tree_results t)).

Record AggregatedResults := mkAggregated {
  ag_total_tokens : Z;
  ag_output_cids : list string;
  ag_failed_steps : list string;
  ag_success : bool;
}.
Definition aggregate_one (a : AggregatedResults) (x : string * StepResult) : AggregatedResults :=
  let total := u64_add (ag_total_tokens a) (sr_tokens_used x.2) in
  if sr_success x.2
  then mkAggregated total (ag_output_cids a ++ sr_output_cids x.2) (ag_failed_steps a) (ag_success a)
  else mkAggregated total (ag_output_cids a) (ag_failed_steps a ++ [x.1]) (ag_success a).
Definition aggregate_results `{HashIter} (t : IntentTree) : AggregatedResults :=
  let a := foldl aggregate_one (mkAggregated 0 [] [] true) (hash_iter (tree_results t)) in
  mkAggregated (ag_total_tokens a) (ag_output_cids a) (ag_failed_steps a)
    (match ag_failed_steps a with [] => true | _ => false end).

(** ** Reachable trees *)

(** One call after the other. *)
Inductive tree_reachable (id : string) (plan : IntentPlan) : IntentTree -> Prop :=
  | tree_start : tree_reachable id plan (tree_new id plan)
  | tree_claim step agent t :
      tree_reachable id plan t -> tree_reachable id plan (assign_step step agent t).2
  | tree_report step agent r t :
      tree_reachable id plan t -> tree_reachable id plan (record_result step agent r t).2.

(** Claims that overlap: [pending] are the claims between their halves. *)
Inductive claims_interleaved (id : string) (plan : IntentPlan) : list (string * string) -> IntentTree -> Prop :=
  | claims_start : claims_interleaved id plan [] (tree_new id plan)
  | claims_look step agent pending t :
      claims_interleaved id plan pending t -> assign_check step t = Ok tt ->
      claims_interleaved id plan ((step, agent) :: pending) t
  | claims_enter step agent before after t :
      claims_interleaved id plan (before ++ (step, agent) :: after) t ->
      claims_interleaved id plan (before ++ after) (assign_enter step agent t).

(** ** What a tree promises *)

(** [agent] has claimed [step]. *)
Definition owns (t : IntentTree) (agent step : string) : Prop := step ∈ get_agent_steps t agent.

Lemma is_assigned_owned t step : is_assigned t step = true <-> exists agent, owns t agent step.
Proof.
  unfold is_assigned, owns, get_agent_steps. rewrite existsb_exists. split.
  - intros (steps & Hin & Hmem). apply list_elem_of_In, elem_of_values in Hin as [agent Ha]. breflect.
    exists agent. by rewrite Ha.
  - intros [agent Ha]. destruct (tree_assigned t !! agent) as [steps|] eqn:E; [|by apply not_elem_of_nil in Ha].
    exists steps. split; [apply list_elem_of_In, elem_of_values; by exists agent | by apply bool_decide_eq_true].
Qed.

Lemma owns_enter t agent step a s :
  owns (assign_enter step agent t) a s <-> owns t a s \/ (a = agent /\ s = step).
Proof.
  unfold owns, get_agent_steps, assign_enter. cbn [tree_assigned]. destruct (decide (a = agent)) as [-> |Hne].
  - rewrite lookup_insert_eq. cbn [default from_option id]. rewrite elem_of_app, list_elem_of_singleton. naive_solver.
  - rewrite lookup_insert_ne by done. naive_solver.
Qed.

Lemma has_step_spec t step : has_step t step = true <-> step ∈ step_id <$> plan_steps (tree_plan t).
Proof.
  unfold has_step. rewrite existsb_exists, list_elem_of_fmap. split.
  - intros (s & Hs & He). breflect. exists s. split; [done | by apply list_elem_of_In].
  - intros (s & -> & Hs). exists s. split; [by apply list_elem_of_In | by apply bool_decide_eq_true].
Qed.

Record tree_ok (t : IntentTree) : Prop := {
  (** A step has one owner, and is listed once. *)
  tree_exclusive : forall a b s, owns t a s -> owns t b s -> a = b;
  tree_once : forall a, NoDup (get_agent_steps t a);
  tree_known : forall a s, owns t a s -> s ∈ step_id <$> plan_steps (tree_plan t);
  (** Results are of claimed steps. *)
  tree_reported : forall s, is_Some (tree_results t !! s) -> exists a, owns t a s;
  tree_quiet : tree_conflicts t = [];
}.

Lemma assign_step_ok t step agent : tree_ok t -> tree_ok (assign_step step agent t).2.
Proof.
  intros Hok. unfold assign_step, assign_check. destruct (has_step t step) eqn:Hs; cbn [negb]; [|done].
  destruct (is_assigned t step) eqn:Ha; [done|]. cbn [snd].
  assert (Hfree : forall a, ~ owns t a step).
  { intros a Ho. assert (is_assigned t step = true) by (apply is_assigned_owned; eauto). congruence. }
  destruct Hok as [Hex Ho Hk Hr Hq]. split.
  - intros a b s. rewrite !owns_enter. intros [H1|[-> ->]] [H2|[-> H2]]; subst; [by eapply Hex|..|done].
    + by destruct (Hfree a).
    + by destruct (Hfree b).
  - intros a. unfold get_agent_steps, assign_enter. cbn [tree_assigned].
    destruct (decide (a = agent)) as [-> |Hne]; [|rewrite lookup_insert_ne by done; apply Ho].
    rewrite lookup_insert_eq. cbn [default from_option id]. apply NoDup_app. split; [apply Ho|].
    split; [|apply NoDup_singleton]. intros s Hin ->%list_elem_of_singleton. by apply (Hfree agent).
  - intros a s [Hs'|[-> ->]]%owns_enter; [by apply (Hk a) | by apply has_step_spec].
  - intros s Hsome. destruct (Hr s Hsome) as [a Ha']. exists a. apply owns_enter. by left.
  - done.
Qed.

Lemma record_result_ok t step agent r : tree_ok t -> tree_ok (record_result step agent r t).2.
Proof.
  intros Hok. unfold record_result. destruct (tree_assigned t !! agent) as [steps|] eqn:E; [|done].
  destruct (str_mem step steps) eqn:Hm; [|done]. breflect. destruct Hok as [Hex Ho Hk Hr Hq].
  split; cbn [snd tree_results tree_conflicts]; [done..| |done].
  intros s. destruct (decide (s = step)) as [-> |Hne].
  - intros _. exists agent. unfold owns, get_agent_steps. cbn [tree_assigned]. by rewrite E.
  - rewrite lookup_insert_ne by done. apply Hr.
Qed.

Lemma tree_reachable_ok id plan t : tree_reachable id plan t -> tree_ok t /\ tree_plan t = plan.
Proof.
  induction 1 as [|step agent t _ [IH Hp]|step agent r t _ [IH Hp]].
  - split; [|done]. split; try done; cbn.
    + intros a b s Ha. by apply not_elem_of_nil in Ha.
    + intros a. apply NoDup_nil_2.
    + intros a s Ha. by apply not_elem_of_nil in Ha.
    + intros s. rewrite lookup_empty. by intros [].
  - split; [by apply assign_step_ok|]. unfold assign_step. by destruct (assign_check step t).
  - split; [by apply record_result_ok|]. unfold record_result.
    destruct (tree_assigned t !! agent) as [steps|]; [by destruct (str_mem step steps) | done].
Qed.

Lemma elem_of_unclaimed t step :
  step ∈ unclaimed_steps t <-> step ∈ step_id <$> plan_steps (tree_plan t) /\ forall agent, ~ owns t agent step.
Proof.
  assert (Hc : step ∈ claimed_steps t <-> exists agent, owns t agent step).
  { unfold claimed_steps. rewrite elem_of_list_to_set, <-is_assigned_owned, list_elem_of_In, in_concat.
    unfold is_assigned. rewrite existsb_exists. split; intros (steps & Hs & Hin); exists steps; (split; [done|]).
    - apply bool_decide_eq_true. by apply list_elem_of_In.
    - breflect. by apply list_elem_of_In. }
  unfold unclaimed_steps. rewrite !list_elem_of_fmap. split.
  - intros (s & -> & [Hs Hn]%elem_of_lfilter). breflect. split; [by exists s|]. rewrite Hc in Hn. naive_solver.
  - intros [(s & -> & Hs) Hn]. exists s. split; [done|]. apply elem_of_lfilter. split; [done|].
    apply negb_true_iff, bool_decide_eq_false. rewrite Hc. naive_solver.
Qed.

Lemma elem_of_ready t step :
  step ∈ ready_steps t <-> exists s, s ∈ plan_steps (tree_plan t) /\ step_id s = step /\
    tree_results t !! step = None /\ forall dep, dep ∈ step_dependencies s -> succeeded t dep = true.
Proof.
  unfold ready_steps. rewrite list_elem_of_fmap. split.
  - intros (s & -> & [Hs Hr]%elem_of_lfilter). breflect. exists s. split_and!; [done..| |].
    + by destruct (tree_results t !! step_id s).
    + intros dep Hd. by eapply forallb_forall, list_elem_of_In.
  - intros (s & Hs & <- & Hn & Hd). exists s. split; [done|]. apply elem_of_lfilter. split; [done|].
    rewrite Hn. cbn. apply forallb_forall. intros dep Hdep%list_elem_of_In. by apply Hd.
Qed.

(** With one call after the other a step has one owner at most; the unclaimed
    steps are those without an owner, and once the plan is complete every step
    is claimed and none is ready. *)
Lemma tree_claims_exclusive id plan t :
  tree_reachable id plan t ->
  (forall a b s, owns t a s -> owns t b s -> a = b) /\
  (forall s, s ∈ unclaimed_steps t <-> s ∈ step_id <$> plan_steps plan /\ forall a, ~ owns t a s) /\
  (is_complete t = true -> unclaimed_steps t = [] /\ ready_steps t = []).
Proof.
  intros [Hok <-]%tree_reachable_ok. split_and!; [apply (tree_exclusive _ Hok) | apply elem_of_unclaimed |].
  unfold is_complete. intros [Hall _]%andb_true_iff. rewrite forallb_forall in Hall.
  assert (Hdone : forall s, s ∈ plan_steps (tree_plan t) -> is_Some (tree_results t !! step_id s)).
  { intros s Hs. specialize (Hall s (proj1 (list_elem_of_In _ _) Hs)). by destruct (tree_results t !! step_id s). }
  split; apply elem_of_nil_inv.
  - intros s [(x & -> & Hx)%list_elem_of_fmap Hno]%elem_of_unclaimed.
    destruct (tree_reported _ Hok _ (Hdone x Hx)) as [a Ha]. by apply (Hno a).
  - intros s (x & Hx & <- & Hn & _)%elem_of_ready. destruct (Hdone x Hx). congruence.
Qed.

(** A result is recorded exactly for the owner of the step. *)
Lemma record_result_owner step agent r t :
  ((record_result step agent r t).1 = Ok tt <-> owns t agent step) /\
  ((record_result step agent r t).1 <> Ok tt -> (record_result step agent r t).2 = t).
Proof.
  unfold record_result, owns, get_agent_steps. destruct (tree_assigned t !! agent) as [steps|] eqn:E; cbn.
  - unfold str_mem. case_bool_decide; cbn; naive_solver.
  - split; [|done]. split; [done|]. by intros ?%not_elem_of_nil.
Qed.

(** The total and the verdict of the aggregation do not depend on the order of
    the hash map. *)
Lemma aggregate_total l a :
  (ag_total_tokens (foldl aggregate_one a l) mod u64_modulus =
    (ag_total_tokens a + foldr (fun x n => sr_tokens_used x.2 + n) 0 l) mod u64_modulus)%Z.
Proof.
  revert a. induction l as [|x l IH]; intros a; cbn [foldl foldr]; [by rewrite Z.add_0_r|].
  rewrite IH. assert (ag_total_tokens (aggregate_one a x) = u64_add (ag_total_tokens a) (sr_tokens_used x.2)) as ->
    by (unfold aggregate_one; by destruct (sr_success x.2)).
  unfold u64_add. rewrite Zplus_mod_idemp_l. f_equal. lia.
Qed.

Lemma aggregate_failed l a :
  ag_failed_steps (foldl aggregate_one a l) = ag_failed_steps a ++ (fst <$> List.filter (fun x => negb (sr_success x.2)) l).
Proof.
  revert a. induction l as [|x l IH]; intros a; cbn [foldl List.filter]; [by rewrite app_nil_r|].
  rewrite IH. unfold aggregate_one. destruct (sr_success x.2); cbn; [done|]. by rewrite <-app_assoc.
Qed.

Lemma aggregate_success `{HashIter} t :
  ag_success (aggregate_results t) = true <-> forall s r, tree_results t !! s = Some r -> sr_success r = true.
Proof.
  unfold aggregate_results. cbn [ag_success]. rewrite aggregate_failed. cbn [ag_failed_steps app].
  assert (Hin : forall s r, (s, r) ∈ hash_iter (tree_results t) <-> tree_results t !! s = Some r)
    by (intros s r; by rewrite hash_iter_perm, elem_of_map_to_list).
  destruct (List.filter _ _) as [|[s r] rest] eqn:E; cbn.
  - split; [|done]. intros _ s r Hs%Hin. destruct (sr_success r) eqn:Hr; [done|].
    assert (Hf : (s, r) ∈ List.filter (fun x => negb (sr_success x.2)) (hash_iter (tree_results t)))
      by (apply elem_of_lfilter; cbn; by rewrite Hr).
    rewrite E in Hf. by apply not_elem_of_nil in Hf.
  - split; [done|]. intros Hall. assert (Hf : (s, r) ∈ List.filter (fun x => negb (sr_success x.2)) (hash_iter (tree_results t)))
      by (rewrite E; by left).
    apply elem_of_lfilter in Hf as [Hs Hr]. apply Hin, Hall in Hs. cbn in Hr. by rewrite Hs in Hr.
Qed.

(** Overlapping claims of one step both succeed, and no conflict is recorded. *)
Definition one_step_plan : IntentPlan := add_step (step_new "fetch" (Op_Read "a") 1) (plan_new 0 "intent").

Lemma overlapping_claims_both_succeed :
  exists t, claims_interleaved "intent" one_step_plan [] t /\
    owns t "alice" "fetch" /\ owns t "bob" "fetch" /\ detect_conflicts t = [].
Proof.
  exists (assign_enter "fetch" "bob" (assign_enter "fetch" "alice" (tree_new "intent" one_step_plan))).
  split_and!; [|by vm_compute; left|by vm_compute; left|done].
  apply (claims_enter _ _ "fetch" "bob" [] []), (claims_enter _ _ "fetch" "alice" [] [("fetch", "bob")]).
  apply claims_look; [apply claims_look; [constructor|]|]; by vm_compute.
Qed.

(** * Progress of intents ([IntentTracker] of [src/src/kernel/ops/intent.rs])

    The declared intents with their state and counters, and the history of the
    ones that ended. *)

Inductive IntentExecutionState : Type :=
  | Intent_Declared
  | Intent_Planned
  | Intent_Executing
  | Intent_Completed
  | Intent_Failed (reason : string)
  | Intent_Cancelled.

Record IntentProgress := mkProgress {
  ip_intent_id : string;
  ip_state : IntentExecutionState;
  ip_steps_total : Z;
  ip_steps_completed : Z;
  ip_tokens_used : Z;
  ip_budget_tokens : Z;
  ip_started_at_ms : option Z;
  ip_completed_at_ms : option Z;
}.

Definition completion_ratio (p : IntentProgress) : f32 :=
  if (ip_steps_total p =? 0)%Z then f32_zero else f32_div (f32_of_Z (ip_steps_completed p)) (f32_of_Z (ip_steps_total p)).
Definition token_ratio (p : IntentProgress) : f32 :=
  if (ip_budget_tokens p =? 0)%Z then f32_zero else f32_div (f32_of_Z (ip_tokens_used p)) (f32_of_Z (ip_budget_tokens p)).

Record ActiveIntent := mkActive {
  ai_declaration : IntentDeclaration;
  ai_state : IntentExecutionState;
  ai_steps_completed : Z;
  ai_steps_total : Z;
  ai_tokens_used : Z;
  ai_started_at_ms : option Z;
}.

Inductive IntentError : Type := IntentNotFound (id : string) | ValidationFailed (e : IntentValidationError).

Record IntentTracker := mkTracker { tk_intents : gmap string ActiveIntent; tk_history : gmap string IntentProgress }.
Definition tracker_new : IntentTracker := mkTracker ∅ ∅.

Definition declare (id : string) (d : IntentDeclaration) (t : IntentTracker) : result IntentError unit * IntentTracker :=
  match declaration_validate d with
  | Err e => (Err (ValidationFailed e), t)
  | Ok _ => (Ok tt, mkTracker (<[id := mkActive d Intent_Declared 0 0 0 None]> (tk_intents t)) (tk_history t))
  end.

(** [if let Some(intent) = intents.get_mut(intent_id)] *)
Definition on_active (id : string) (change : ActiveIntent -> ActiveIntent) (t : IntentTracker)
    : result IntentError unit * IntentTracker :=
  match tk_intents t !! id with
  | Some intent => (Ok tt, mkTracker (<[id := change intent]> (tk_intents t)) (tk_history t))
  | None => (Err (IntentNotFound id), t)
  end.

Definition tracker_plan (id : string) (steps_total : Z) : IntentTracker -> result IntentError unit * IntentTracker :=
  on_active id (fun i => mkActive (ai_declaration i) Intent_Planned (ai_steps_completed i) steps_total (ai_tokens_used i) (ai_started_at_ms i)).
Definition tracker_start (now : Z) (id : string) : IntentTracker -> result IntentError unit * IntentTracker :=
  on_active id (fun i => mkActive (ai_declaration i) Intent_Executing (ai_steps_completed i) (ai_steps_total i) (ai_tokens_used i) (Some now)).
Definition complete_step (id : string) (tokens : Z) : IntentTracker -> result IntentError unit * IntentTracker :=
  on_active id (fun i => mkActive (ai_declaration i) (ai_state i) (u64_add (ai_steps_completed i) 1) (ai_steps_total i)
    (u64_add (ai_tokens_used i) tokens) (ai_started_at_ms i)).

Definition progress_of (id : string) (state : IntentExecutionState) (completed_at : option Z) (i : ActiveIntent) : IntentProgress :=
  mkProgress id state (ai_steps_total i) (ai_steps_completed i) (ai_tokens_used i) (dc_budget_tokens (ai_declaration i))
    (ai_started_at_ms i) completed_at.

(** The common body of [complete], [fail] and [cancel]. *)
Definition close_intent (now : Z) (id : string) (state : IntentExecutionState) (t : IntentTracker)
    : result IntentError unit * IntentTracker :=
  match tk_intents t !! id with
  | Some intent =>
      (Ok tt, mkTracker (delete id (tk_intents t)) (<[id := progress_of id state (Some now) intent]> (tk_history t)))
  | None => (Err (IntentNotFound id), t)
  end.
Definition tracker_complete (now : Z) (id : string) : IntentTracker -> result IntentError unit * IntentTracker :=
  close_intent now id Intent_Completed.
Definition tracker_fail (now : Z) (id reason : string) : IntentTracker -> result IntentError unit * IntentTracker :=
  close_intent now id (Intent_Failed reason).
Definition tracker_cancel (now : Z) (id : string) : IntentTracker -> result IntentError unit * IntentTracker :=
  close_intent now id Intent_Cancelled.

Definition get_progress (t : IntentTracker) (id : string) : option IntentProgress :=
  match tk_intents t !! id with
  | Some i => Some (progress_of id (ai_state i) None i)
  | None => tk_history t !! id
  end.

(** The identifier of a listed intent is its first keyword. *)
Definition list_active `{HashIter} (t : IntentTracker) (agent : string) : list IntentProgress :=
  (fun x => progress_of (default EmptyString (head (dc_keywords (ai_declaration x.2)))) (ai_state x.2) None x.2) <$>
    List.filter (fun x => str_eqb (dc_agent_id (ai_declaration x.2)) agent) (hash_iter (tk_intents t)).
Definition active_count (t : IntentTracker) : nat := size (tk_intents t).

(** ** Sequences of calls *)

Inductive TrackerCall : Type :=
  | Call_Declare (id : string) (d : IntentDeclaration)
  | Call_Plan (id : string) (steps_total : Z)
  | Call_Start (now : Z) (id : string)
  | Call_Step (id : string) (tokens : Z)
  | Call_Complete (now : Z) (id : string)
  | Call_Fail (now : Z) (id reason : string)
  | Call_Cancel (now : Z) (id : string).

Definition call_id (c : TrackerCall) : string :=
  match c with
  | Call_Declare id _ | Call_Plan id _ | Call_Start _ id | Call_Step id _
  | Call_Complete _ id | Call_Fail _ id _ | Call_Cancel _ id => id
  end.
Definition call (c : TrackerCall) (t : IntentTracker) : result IntentError unit * IntentTracker :=
  match c with
  | Call_Declare id d => declare id d t
  | Call_Plan id n => tracker_plan id n t
  | Call_Start now id => tracker_start now id t
  | Call_Step id tokens => complete_step id tokens t
  | Call_Complete now id => tracker_complete now id t
  | Call_Fail now id reason => tracker_fail now id reason t
  | Call_Cancel now id => tracker_cancel now id t
  end.
Definition calls (cs : list TrackerCall) (t : IntentTracker) : IntentTracker := foldl (fun t c => (call c t).2) t cs.

(** ** Intents do not disturb each other *)

(** Two trackers look the same to a caller of [id]. *)
Definition same_intent (id : string) (t u : IntentTracker) : Prop :=
  tk_intents t !! id = tk_intents u !! id /\ tk_history t !! id = tk_history u !! id.
#[export] Instance same_intent_equivalence id : Equivalence (same_intent id).
Proof.
  split.
  - by intros t.
  - intros t u [Hi Hh]. by split.
  - intros t u v [Hi Hh] [Hi' Hh']. split; congruence.
Qed.

(** A call on [id] turns its entries into a function of its entries. *)
Lemma call_own c t u :
  same_intent (call_id c) t u ->
  (call c t).1 = (call c u).1 /\ same_intent (call_id c) (call c t).2 (call c u).2.
Proof.
  unfold same_intent. intros [Hi Hh].
  destruct c as [id d|id n|now id|id k|now id|now id r|now id]; cbn [call_id call] in *;
    unfold declare, tracker_plan, tracker_start, complete_step, tracker_complete, tracker_fail, tracker_cancel, on_active, close_intent;
    rewrite ?Hi; try destruct (declaration_validate d); try destruct (tk_intents u !! id) eqn:E;
    cbn [fst snd tk_intents tk_history]; rewrite ?lookup_insert_eq, ?lookup_delete_eq; split_and!; congruence.
Qed.

Lemma call_other c t id : call_id c <> id -> same_intent id (call c t).2 t.
Proof.
  intros Hne. destruct c as [id' d|id' n|now id'|id' k|now id'|now id' r|now id']; cbn [call_id call] in *;
    unfold declare, tracker_plan, tracker_start, complete_step, tracker_complete, tracker_fail, tracker_cancel, on_active, close_intent, same_intent;
    try destruct (declaration_validate d); try destruct (tk_intents t !! id');
    cbn [fst snd tk_intents tk_history]; rewrite ?lookup_insert_ne, ?lookup_delete_ne by done; done.
Qed.

(** The progress of an intent is what the calls on it alone make of it. *)
Lemma intents_independent id cs t :
  get_progress (calls cs t) id = get_progress (calls (List.filter (fun c => str_eqb (call_id c) id) cs) t) id.
Proof.
  enough (Hs : forall u, same_intent id t u ->
    same_intent id (calls cs t) (calls (List.filter (fun c => str_eqb (call_id c) id) cs) u)).
  { destruct (Hs t) as [Hi Hh]; [done|]. unfold get_progress. by rewrite Hi, Hh. }
  revert t. induction cs as [|c cs IH]; intros t u Htu; cbn [calls foldl List.filter]; [done|].
  destruct (str_eqb (call_id c) id) eqn:Hc; breflect.
  - cbn [foldl]. apply IH. subst id. by apply call_own.
  - apply IH. etransitivity; [by apply call_other | done].
Qed.

(** ** What the counters say *)

Definition is_step (id : string) (c : TrackerCall) : bool :=
  match c with Call_Step id' _ => str_eqb id' id | _ => false end.
Definition step_tokens (c : TrackerCall) : Z := match c with Call_Step _ k => k | _ => 0%Z end.
(** A call that neither declares nor ends [id]. *)
Definition keeps (id : string) (c : TrackerCall) : bool :=
  match c with Call_Plan _ _ | Call_Start _ _ | Call_Step _ _ => true | _ => negb (str_eqb (call_id c) id) end.

Definition counted (id : string) (cs : list TrackerCall) : Z := Z.of_nat (length (List.filter (is_step id) cs)).
Definition spent (id : string) (cs : list TrackerCall) : Z :=
  foldr (fun c n => step_tokens c + n)%Z 0%Z (List.filter (is_step id) cs).

Lemma kept_counts id cs : forall t i,
  forallb (keeps id) cs = true -> tk_intents t !! id = Some i ->
  exists i', tk_intents (calls cs t) !! id = Some i' /\ ai_declaration i' = ai_declaration i /\
    (ai_steps_completed i' mod u64_modulus = (ai_steps_completed i + counted id cs) mod u64_modulus)%Z /\
    (ai_tokens_used i' mod u64_modulus = (ai_tokens_used i + spent id cs) mod u64_modulus)%Z.
Proof.
  induction cs as [|c cs IH]; intros t i Hk Hi; cbn [calls foldl].
  { exists i. unfold counted, spent. cbn. rewrite !Z.add_0_r. done. }
  cbn [forallb] in Hk. apply andb_true_iff in Hk as [Hc Hcs]. fold (calls cs (call c t).2).
  destruct (decide (call_id c = id)) as [Heq|Hne].
  - destruct c as [id' d|id' n|now id'|id' k|now id'|now id' r|now id']; cbn [keeps call_id] in *; subst id';
      try (breflect; done);
      unfold call, tracker_plan, tracker_start, complete_step, on_active; rewrite Hi; cbn [snd];
      (edestruct (fun j => IH (mkTracker (<[id := j]> (tk_intents t)) (tk_history t)) j Hcs) as (i' & Hi' & Hd & Hn & Ht);
        [cbn [tk_intents]; apply lookup_insert_eq|]); exists i'; (split_and!; [done | done |..]);
      unfold counted, spent in *; cbn [List.filter is_step ai_steps_completed ai_tokens_used] in *; try done.
    + rewrite Hn. unfold str_eqb. rewrite bool_decide_true by done. cbn [length]. unfold u64_add.
      rewrite Zplus_mod_idemp_l. f_equal. lia.
    + rewrite Ht. unfold str_eqb. rewrite bool_decide_true by done. cbn [foldr step_tokens]. unfold u64_add.
      rewrite Zplus_mod_idemp_l. f_equal. lia.
  - destruct (call_other c t id Hne) as [Hsame _]. destruct (IH (call c t).2 i Hcs) as (i' & Hi' & Hd & Hn & Ht).
    { by rewrite Hsame. }
    exists i'. split_and!; [done | done |..].
    all: assert (Hstep : is_step id c = false) by (destruct c; try done; by apply bool_decide_eq_false).
    all: unfold counted, spent in *; cbn [List.filter]; by rewrite Hstep.
Qed.

(** An intent that was declared and completed is kept with the steps and the
    tokens reported for it in between, whatever happened to the others, and
    until it is declared again every further call on it is refused. *)
Lemma completed_intent_recorded id d cs now t :
  declaration_validate d = Ok tt -> forallb (keeps id) cs = true ->
  let t' := (tracker_complete now id (calls cs (declare id d t).2)).2 in
  (exists p, get_progress t' id = Some p /\ ip_state p = Intent_Completed /\ ip_completed_at_ms p = Some now /\
     ip_budget_tokens p = dc_budget_tokens d /\
     (ip_steps_completed p mod u64_modulus = counted id cs mod u64_modulus)%Z /\
     (ip_tokens_used p mod u64_modulus = spent id cs mod u64_modulus)%Z) /\
  (forall c, call_id c = id -> (forall d, c <> Call_Declare id d) -> call c t' = (Err (IntentNotFound id), t')).
Proof.
  intros Hv Hk. cbv zeta. unfold declare. rewrite Hv. cbn [snd].
  destruct (kept_counts id cs (mkTracker (<[id := mkActive d Intent_Declared 0 0 0 None]> (tk_intents t)) (tk_history t))
    (mkActive d Intent_Declared 0 0 0 None) Hk) as (i & Hi & Hd & Hn & Ht); [apply lookup_insert_eq|].
  unfold tracker_complete, close_intent. rewrite Hi. cbn [snd]. split.
  - unfold get_progress. cbn [tk_intents tk_history]. rewrite lookup_delete_eq, lookup_insert_eq.
    eexists. split; [done|]. cbn [progress_of ip_state ip_completed_at_ms ip_budget_tokens ip_steps_completed ip_tokens_used].
    split_and!; [done | done | by rewrite Hd | done | done].
  - intros c <- Hc. destruct c as [id d'|id n|? id|id k|? id|? id r|? id]; cbn [call_id call] in *; [by destruct (Hc d')|..];
      unfold tracker_plan, tracker_start, complete_step, tracker_complete, tracker_fail, tracker_cancel, on_active, close_intent;
      cbn [tk_intents]; by rewrite lookup_delete_eq.
Qed.

(** A listed intent is not named by the identifier it was declared under. *)
Lemma list_active_names_keyword :
  let d := declaration_new 0 ["auth"] [] 10 "done" "alice" "s" "fix" in
  let t := (declare "intent-1" d tracker_new).2 in
  (ip_intent_id <$> list_active t "alice") = ["auth"] /\ get_progress t "auth" = None.
Proof. by vm_compute. Qed.
