(* ===== verification/Prefetch.v ===== *)
(** * The intent prefetcher ([src/src/kernel/ops/prefetch.rs])

    An agent declares an intent; a background thread recalls candidates by
    meaning, by the graph and from recent events, fuses the rankings, assembles
    them within the budget and publishes the result, which the agent fetches.
    The threads that have been started and not ended are part of the state, so a
    declaration, the end of a thread, the update of its handle, a cancellation, a
    fetch and an eviction interleave in any order. *)

From stdpp Require Import base gmap strings list.
From S2P Require Import Prelude CircuitBreaker Wire MemoryModel LedgerModel Text Float32 ObjectStorage Permission ContextLoader IntentCache CostLedger EventBus GraphModel Graph GraphStore GraphSearch SearchIndex Profiles.

Definition RRF_K : f32 := f32_of_Z 60.
Definition PATH_LIMIT : nat := 20.
Definition DEFAULT_MAX_FEEDBACK_ENTRIES : nat := N.to_nat 1000.

Definition ratio (n d : Z) : f32 := f32_div (f32_of_Z n) (f32_of_Z d).

(** ** Recall *)

(** [sort_by(|a, b| b.partial_cmp(a).unwrap_or(Equal))], for scores that are numbers. *)
Definition by_score (l : list (string * f32)) : list (string * f32) := stable_sort (fun y x => f32_gt y.2 x.2) l.
Definition by_relevance (l : list ContextCandidate) : list ContextCandidate :=
  stable_sort (fun y x => f32_gt (cc_relevance y) (cc_relevance x)) l.

Section recall.
Context `{HashIter} `{SemanticSearch} `{Broadcast}.
Variable to_lowercase : string -> string.
(** [format!("{:?}", event)] *)
Variable debug_event : KernelEvent -> string.

Definition recall_semantic (intent_emb : list f32) (index : index_state) : list (string * f32) :=
  (fun hit => (hit_cid hit, hit_score hit)) <$> index_search intent_emb PATH_LIMIT default_filter index.

Definition intent_keywords (intent : string) : list string :=
  List.filter (fun w => (2 <? String.length w)%nat) (split_whitespace intent).
Definition keyword_matches (keywords : list string) (text : string) : nat :=
  length (List.filter (fun kw => opt_is_some (String.index 0 (to_lowercase kw) text)) keywords).

Definition neighbor_score (keywords : list string) (ne : KGNode * KGEdge) : f32 :=
  let depth_bonus := if (0 <? ke_created_at ne.2)%Z then ratio 1 10 else f32_zero in
  let keyword_bonus := f32_mul (f32_of_Z (Z.of_nat (keyword_matches keywords (to_lowercase (kn_label ne.1))))) (ratio 5 100) in
  f32_add (f32_add (ke_weight ne.2) depth_bonus) keyword_bonus.
(** [entry(id).and_modify(|s| (s + score) / 2).or_insert(score)] *)
Definition blend (keywords : list string) (m : gmap string f32) (ne : KGNode * KGEdge) : gmap string f32 :=
  let score := neighbor_score keywords ne in
  <[kn_id ne.1 := match m !! kn_id ne.1 with Some s => f32_div (f32_add s score) (f32_of_Z 2) | None => score end]> m.
Definition recall_kg (kg : option PetgraphBackend) (related_cids : list string) (intent : string) : list (string * f32) :=
  match kg with
  | None => []
  | Some kg =>
      let results := foldl (fun m cid =>
        match get_neighbors kg cid None 2 with Ok neighbors => foldl (blend (intent_keywords intent)) m neighbors | Err _ => m end)
        ∅ related_cids in
      take PATH_LIMIT (by_score (hash_iter results))
  end.

(** A recalled event is named by its debug text. *)
Definition recall_events (bus : EventBus) (intent : string) : list (string * f32) :=
  let keywords := intent_keywords intent in
  take PATH_LIMIT (by_score (omap (fun ev =>
    let label := debug_event (se_event ev) in
    let matches := keyword_matches keywords (to_lowercase label) in
    if (0 <? matches)%nat
    then Some (label, f32_div (f32_of_Z (Z.of_nat matches)) (f32_of_Z (Z.max (Z.of_nat (length keywords)) 1)))
    else None) (take (PATH_LIMIT * 2) (reverse (snapshot_events bus))))).

(** ** Fusion *)

(** One ranking, from rank [i]: [1 / (60 + i) + relevance * weight] added to the score and the paths counted. *)
Fixpoint add_path (weight : f32) (i : nat) (path : list (string * f32)) (scores : gmap string (f32 * nat))
    : gmap string (f32 * nat) :=
  match path with
  | [] => scores
  | (cid, relevance) :: path =>
      let gain := f32_add (f32_div (f32_of_Z 1) (f32_add RRF_K (f32_of_Z (Z.of_nat i)))) (f32_mul relevance weight) in
      add_path weight (S i) path
        (<[cid := match scores !! cid with Some (s, c) => (f32_add s gain, S c) | None => (gain, 1%nat) end]> scores)
  end.
Definition fused_candidate (x : string * (f32 * nat)) : ContextCandidate :=
  let '(cid, (score, paths)) := x in
  let path_bonus := f32_mul (f32_sub (f32_of_Z (Z.of_nat paths)) (f32_of_Z 1)) (ratio 5 100) in
  mkCandidate cid (f32_min (f32_add score path_bonus) (f32_of_Z 1)).
Definition rrf_fuse (path_a path_b path_c path_d : list (string * f32)) : list ContextCandidate :=
  let scores := add_path (ratio 1 2) 0 path_a ∅ in
  let scores := add_path (ratio 4 10) 0 path_b scores in
  let scores := add_path (ratio 3 10) 0 path_c scores in
  let scores := add_path (ratio 3 10) 0 path_d scores in
  by_relevance (fused_candidate <$> hash_iter scores).

Inductive RecallError : Type := Recall_EmbedPanicked | Recall_EmbedFailed (e : EmbedError).

(** How the embedding ends, and which paths end in time. *)
Record RecallEnv := mkRecallEnv {
  rc_embed : result RecallError (list f32);
  rc_semantic_in_time : bool;
  rc_kg_in_time : bool;
  rc_events_in_time : bool;
}.
(** What the paths look at. *)
Record RecallSources := mkSources { so_search : index_state; so_kg : option PetgraphBackend; so_events : EventBus }.

Definition multi_path_recall (env : RecallEnv) (src : RecallSources) (intent : string) (related_cids : list string)
    : result RecallError (list ContextCandidate) :=
  emb <-? rc_embed env;
  let path_a := if rc_semantic_in_time env then recall_semantic emb (so_search src) else [] in
  let path_b := if rc_kg_in_time env then recall_kg (so_kg src) related_cids intent else [] in
  let path_c := if rc_events_in_time env then recall_events (so_events src) intent else [] in
  Ok (rrf_fuse path_a path_b [] path_c).
End recall.

(** ** Assemblies *)

Inductive AssemblyState : Type :=
  | Asm_Pending
  | Asm_Ready (allocation : BudgetAllocation)
  | Asm_Failed (e : RecallError)
  | Asm_Used
  | Asm_Unused
  | Asm_Cancelled.

Record Assembly := mkAssembly {
  as_assembly_id : string;
  as_agent_id : string;
  as_intent : string;
  as_budget_tokens : Z;
  as_state : AssemblyState;
  as_created_at_ms : Z;
}.
Definition with_state (state : AssemblyState) (a : Assembly) : Assembly :=
  mkAssembly (as_assembly_id a) (as_agent_id a) (as_intent a) (as_budget_tokens a) state (as_created_at_ms a).

Definition STATE_PENDING : Z := 1.
Definition STATE_READY : Z := 2.
Definition STATE_FAILED : Z := 3.
Definition STATE_USED : Z := 4.
Definition STATE_UNUSED : Z := 5.
Definition STATE_CANCELLED : Z := 6.

Record PrefetchHandle := mkHandle { ph_assembly_id : string; ph_state : Z; ph_result : option BudgetAllocation }.
Definition is_done (h : PrefetchHandle) : bool := ((4 <=? ph_state h) && (ph_state h <=? 6))%Z.
(** One round of [await_result]: [None] is another wait. *)
Definition await_round (h : PrefetchHandle) : option (option BudgetAllocation) :=
  if (ph_state h =? STATE_PENDING)%Z then None
  else if (ph_state h =? STATE_READY)%Z then Some (ph_result h)
  else Some None.

(** A background thread with what it captured. *)
Record PrefetchTask := mkTask {
  tk_assembly_id : string;
  tk_intent : string;
  tk_related_cids : list string;
  tk_budget_tokens : Z;
  tk_feedback_boost : gmap string f32;
  tk_has_handle : bool;
}.

Record IntentPrefetcher := mkPrefetcher {
  pf_assemblies : gmap string Assembly;
  pf_allocation_cache : gmap string BudgetAllocation;
  pf_intent_cache : IntentAssemblyCache;
  pf_profile_store : AgentProfileStore;
  pf_feedback_history : list IntentFeedbackEntry;
  pf_total_lookups : Z;
  pf_cache_hits : Z;
  pf_cost_ledger : option TokenCostLedger;
  pf_current_session_id : option string;
  pf_handles : gmap string PrefetchHandle;
  pf_tasks : list PrefetchTask;
  (** Threads that have released the registry and have not looked at it for their handle. *)
  pf_finishing : list PrefetchTask;
}.
Definition MAX_AGE_MS : Z := 3600000.
Definition prefetcher_new : IntentPrefetcher :=
  mkPrefetcher ∅ ∅ intent_cache_default (profile_store_new default_strategy) [] 0 0 None None ∅ [] [].

Definition with_assemblies (m : gmap string Assembly) (p : IntentPrefetcher) : IntentPrefetcher :=
  mkPrefetcher m (pf_allocation_cache p) (pf_intent_cache p) (pf_profile_store p) (pf_feedback_history p)
    (pf_total_lookups p) (pf_cache_hits p) (pf_cost_ledger p) (pf_current_session_id p) (pf_handles p) (pf_tasks p) (pf_finishing p).
Definition with_allocations (m : gmap string BudgetAllocation) (p : IntentPrefetcher) : IntentPrefetcher :=
  mkPrefetcher (pf_assemblies p) m (pf_intent_cache p) (pf_profile_store p) (pf_feedback_history p)
    (pf_total_lookups p) (pf_cache_hits p) (pf_cost_ledger p) (pf_current_session_id p) (pf_handles p) (pf_tasks p) (pf_finishing p).
Definition with_cache (c : IntentAssemblyCache) (p : IntentPrefetcher) : IntentPrefetcher :=
  mkPrefetcher (pf_assemblies p) (pf_allocation_cache p) c (pf_profile_store p) (pf_feedback_history p)
    (pf_total_lookups p) (pf_cache_hits p) (pf_cost_ledger p) (pf_current_session_id p) (pf_handles p) (pf_tasks p) (pf_finishing p).
Definition with_profiles (s : AgentProfileStore) (p : IntentPrefetcher) : IntentPrefetcher :=
  mkPrefetcher (pf_assemblies p) (pf_allocation_cache p) (pf_intent_cache p) s (pf_feedback_history p)
    (pf_total_lookups p) (pf_cache_hits p) (pf_cost_ledger p) (pf_current_session_id p) (pf_handles p) (pf_tasks p) (pf_finishing p).
Definition with_history (l : list IntentFeedbackEntry) (p : IntentPrefetcher) : IntentPrefetcher :=
  mkPrefetcher (pf_assemblies p) (pf_allocation_cache p) (pf_intent_cache p) (pf_profile_store p) l
    (pf_total_lookups p) (pf_cache_hits p) (pf_cost_ledger p) (pf_current_session_id p) (pf_handles p) (pf_tasks p) (pf_finishing p).
Definition with_rates (lookups hits : Z) (p : IntentPrefetcher) : IntentPrefetcher :=
  mkPrefetcher (pf_assemblies p) (pf_allocation_cache p) (pf_intent_cache p) (pf_profile_store p) (pf_feedback_history p)
    lookups hits (pf_cost_ledger p) (pf_current_session_id p) (pf_handles p) (pf_tasks p) (pf_finishing p).
Definition with_costs (l : option TokenCostLedger) (session : option string) (p : IntentPrefetcher) : IntentPrefetcher :=
  mkPrefetcher (pf_assemblies p) (pf_allocation_cache p) (pf_intent_cache p) (pf_profile_store p) (pf_feedback_history p)
    (pf_total_lookups p) (pf_cache_hits p) l session (pf_handles p) (pf_tasks p) (pf_finishing p).
Definition with_threads (handles : gmap string PrefetchHandle) (tasks : list PrefetchTask) (p : IntentPrefetcher) : IntentPrefetcher :=
  mkPrefetcher (pf_assemblies p) (pf_allocation_cache p) (pf_intent_cache p) (pf_profile_store p) (pf_feedback_history p)
    (pf_total_lookups p) (pf_cache_hits p) (pf_cost_ledger p) (pf_current_session_id p) handles tasks (pf_finishing p).
Definition with_finishing (tasks : list PrefetchTask) (p : IntentPrefetcher) : IntentPrefetcher :=
  mkPrefetcher (pf_assemblies p) (pf_allocation_cache p) (pf_intent_cache p) (pf_profile_store p) (pf_feedback_history p)
    (pf_total_lookups p) (pf_cache_hits p) (pf_cost_ledger p) (pf_current_session_id p) (pf_handles p) (pf_tasks p) tasks.

(** ** Costs *)

Definition set_cost_ledger (l : TokenCostLedger) (p : IntentPrefetcher) : IntentPrefetcher :=
  with_costs (Some l) (pf_current_session_id p) p.
Definition set_session_id (session : option string) (p : IntentPrefetcher) : IntentPrefetcher :=
  with_costs (pf_cost_ledger p) session p.
Definition record_embedding_cost (now : Z) (text model_id : string) (p : IntentPrefetcher) : IntentPrefetcher :=
  with_costs ((fun l => record_embedding now l text model_id (default EmptyString (pf_current_session_id p)) "unknown") <$> pf_cost_ledger p)
    (pf_current_session_id p) p.
Definition record_embedding_cost_with_tokens (now : Z) (model_id : string) (tokens : Z) (p : IntentPrefetcher) : IntentPrefetcher :=
  with_costs ((fun l => record_embedding_with_tokens now l tokens model_id (default EmptyString (pf_current_session_id p)) "unknown") <$> pf_cost_ledger p)
    (pf_current_session_id p) p.
(** The sums are cut to 32 bits. *)
Definition get_session_cost (p : IntentPrefetcher) (session_id : string) : Z * Z :=
  match pf_cost_ledger p with
  | Some l =>
      match session_summary l session_id with
      | Some s => ((cs_total_input_tokens s mod u32_modulus)%Z, (cs_total_output_tokens s mod u32_modulus)%Z)
      | None => (0, 0)%Z
      end
  | None => (0, 0)%Z
  end.

Section prefetcher.
Context `{HashIter} `{SemanticSearch} `{Broadcast} `{Platform} `{!Serde AIObject} `{!Serde (gmap string AccessEntry)}.
Variable to_lowercase : string -> string.
Variable debug_event : KernelEvent -> string.

(** ** Feedback *)

Definition normalize_intent (intent : string) : string := str_trim (to_lowercase intent).

(** [while history.len() > max { history.remove(0) }] *)
Definition record_feedback (now : Z) (intent : string) (used_cids unused_cids : list string) (p : IntentPrefetcher) : IntentPrefetcher :=
  with_history (last_n DEFAULT_MAX_FEEDBACK_ENTRIES
    (pf_feedback_history p ++ [mkFeedback (normalize_intent intent) used_cids unused_cids now])) p.
Definition get_similar_feedback (p : IntentPrefetcher) (intent : string) : option (list string * list string) :=
  (fun e => (fb_used_cids e, fb_unused_cids e)) <$>
    List.find (fun e => str_eqb (fb_normalized_intent e) (normalize_intent intent)) (reverse (pf_feedback_history p)).
Definition feedback_count (p : IntentPrefetcher) : nat := length (pf_feedback_history p).
Definition feedback_boost (p : IntentPrefetcher) (intent : string) : gmap string f32 :=
  match get_similar_feedback p intent with
  | Some (used, unused) =>
      foldl (fun m cid => <[cid := f32_0_3]> m) (foldl (fun m cid => <[cid := ratio 3 2]> m) ∅ used) unused
  | None => ∅
  end.
(** The last ten entries, the newest first. *)
Definition apply_feedback_from_history (now : Z) (agent_id : string) (p : IntentPrefetcher) : nat * IntentPrefetcher :=
  let recent := take 10 (reverse (pf_feedback_history p)) in
  (length recent, with_profiles (foldl (fun s e => apply_feedback now agent_id e s) (pf_profile_store p) recent) p).

(** ** Declaring *)

(** A fresh identifier, the clock, and the provider's answer with its tokens. *)
Record DeclareEnv := mkDeclareEnv {
  de_id : string;
  de_now : Z;
  de_embed : result EmbedError (list f32 * Z);
  de_model_name : string;
}.

(** The embedding, its cost, and the lookup in the cache of intents. *)
Definition embed_and_lookup (env : DeclareEnv) (intent : string) (p : IntentPrefetcher) : option BudgetAllocation * IntentPrefetcher :=
  let embedding := match de_embed env with Ok (v, _) => Some v | Err _ => None end in
  let tokens := match de_embed env with Ok (_, n) => n | Err _ => 0%Z end in
  let p := record_embedding_cost_with_tokens (de_now env) (de_model_name env) tokens p in
  let '(found, cache) := IntentCache.lookup (de_now env) (pf_intent_cache p) intent embedding in
  (found, with_cache cache p).
Definition insert_assembly (env : DeclareEnv) (agent_id intent : string) (budget_tokens : Z) (state : AssemblyState)
    (p : IntentPrefetcher) : IntentPrefetcher :=
  with_assemblies (<[de_id env := mkAssembly (de_id env) agent_id intent budget_tokens state (de_now env)]> (pf_assemblies p)) p.
Definition publish_cached (env : DeclareEnv) (agent_id intent : string) (budget_tokens : Z) (a : BudgetAllocation)
    (p : IntentPrefetcher) : IntentPrefetcher :=
  insert_assembly env agent_id intent budget_tokens (Asm_Ready a)
    (with_allocations (<[de_id env := a]> (pf_allocation_cache p)) p).
Definition spawn (task : PrefetchTask) (p : IntentPrefetcher) : IntentPrefetcher :=
  with_threads (pf_handles p) (pf_tasks p ++ [task]) p.

Definition declare_intent (env : DeclareEnv) (agent_id intent : string) (related_cids : list string) (budget_tokens : Z)
    (p : IntentPrefetcher) : string * IntentPrefetcher :=
  let '(found, p) := embed_and_lookup env intent p in
  (de_id env,
   match found with
   | Some a => publish_cached env agent_id intent budget_tokens a p
   | None =>
       let p := insert_assembly env agent_id intent budget_tokens Asm_Pending p in
       spawn (mkTask (de_id env) intent related_cids budget_tokens (feedback_boost p intent) false) p
   end).

Definition prefetch_async (env : DeclareEnv) (agent_id intent : string) (related_cids : list string) (budget_tokens : Z)
    (p : IntentPrefetcher) : PrefetchHandle * IntentPrefetcher :=
  let p := with_rates (u64_add (pf_total_lookups p) 1) (pf_cache_hits p) p in
  let '(found, p) := embed_and_lookup env intent p in
  match found with
  | Some a =>
      let p := with_rates (pf_total_lookups p) (u64_add (pf_cache_hits p) 1) p in
      let handle := mkHandle (de_id env) STATE_READY (Some a) in
      let p := publish_cached env agent_id intent budget_tokens a p in
      (handle, with_threads (<[de_id env := handle]> (pf_handles p)) (pf_tasks p) p)
  | None =>
      let handle := mkHandle (de_id env) STATE_PENDING None in
      let p := insert_assembly env agent_id intent budget_tokens Asm_Pending p in
      let p := with_threads (<[de_id env := handle]> (pf_handles p)) (pf_tasks p) p in
      (handle, spawn (mkTask (de_id env) intent related_cids budget_tokens (feedback_boost p intent) true) p)
  end.

(** ** The background thread *)

(** [(relevance * factor).min(1.0)] for the boosted identifiers, then sorted. *)
Definition boost_candidates (boost : gmap string f32) (candidates : list ContextCandidate) : list ContextCandidate :=
  if bool_decide (boost = ∅) then candidates
  else by_relevance ((fun c => match boost !! cc_cid c with
                               | Some factor => mkCandidate (cc_cid c) (f32_min (f32_mul (cc_relevance c) factor) (f32_of_Z 1))
                               | None => c
                               end) <$> candidates).

(** What a thread draws: what the cognitive loop recommends, the recall, the
    loads of the assembly, the second embedding and the clock. *)
Record TaskEnv := mkTaskEnv {
  te_recommended : list string;
  te_recall : RecallEnv;
  te_loads : nat -> ContextLoader.LoadEnv;
  te_embed_again : option (list f32);
  te_now : Z;
}.

(** The components the threads share with the rest of the kernel. *)
Record World := mkWorld { wo_sources : RecallSources; wo_loader : LoaderState }.

Definition merge_recommended (recommended related_cids : list string) : list string :=
  foldl (fun cids cid => if str_mem cid cids then cids else cids ++ [cid]) related_cids recommended.

Definition update_assembly (id : string) (state : AssemblyState) (now : Z) (a : Assembly) : Assembly :=
  mkAssembly (as_assembly_id a) (as_agent_id a) (as_intent a) (as_budget_tokens a) state now.

(** The registry is locked from here to the end; a panic poisons it and is [None]. *)
Definition run_prefetch (env : TaskEnv) (task : PrefetchTask) (w : World) (p : IntentPrefetcher) : option (World * IntentPrefetcher) :=
  let related_cids := if tk_has_handle task then tk_related_cids task
                      else merge_recommended (te_recommended env) (tk_related_cids task) in
  let recalled := multi_path_recall to_lowercase debug_event (te_recall env) (wo_sources w) (tk_intent task) related_cids in
  let id := tk_assembly_id task in
  match recalled, pf_assemblies p !! id with
  | Ok candidates, Some a =>
      '(allocation, loader) ← assemble (te_loads env) (boost_candidates (tk_feedback_boost task) candidates) (tk_budget_tokens task) (wo_loader w);
      let cache := cache_store (te_now env) (te_now env) (pf_intent_cache p) (tk_intent task) (te_embed_again env) allocation related_cids in
      let p := with_allocations (<[id := allocation]> (pf_allocation_cache p)) (with_cache cache p) in
      Some (mkWorld (wo_sources w) loader, with_assemblies (<[id := update_assembly id (Asm_Ready allocation) (te_now env) a]> (pf_assemblies p)) p)
  | Err e, Some a => Some (w, with_assemblies (<[id := update_assembly id (Asm_Failed e) (te_now env) a]> (pf_assemblies p)) p)
  | _, None => Some (w, p)
  end.

(** The handle of an asynchronous thread follows the assembly, as it is when the
    thread looks at it; the state and the result are stored as one. *)
Definition update_handle (task : PrefetchTask) (p : IntentPrefetcher) : IntentPrefetcher :=
  let id := tk_assembly_id task in
  match pf_assemblies p !! id with
  | Some a =>
      match as_state a with
      | Asm_Ready allocation => with_threads (<[id := mkHandle id STATE_READY (Some allocation)]> (pf_handles p)) (pf_tasks p) p
      | Asm_Failed _ => with_threads (alter (fun h => mkHandle id STATE_FAILED (ph_result h)) id (pf_handles p)) (pf_tasks p) p
      | _ => p
      end
  | None => p
  end.

(** A thread gets through [run_prefetch]; one with a handle has it still to
    update.  [None] is a panic with the registry locked. *)
Definition end_task (env : TaskEnv) (i : nat) (w : World) (p : IntentPrefetcher) : option (World * IntentPrefetcher) :=
  task ← pf_tasks p !! i;
  '(w, p) ← run_prefetch env task w (with_threads (pf_handles p) (delete i (pf_tasks p)) p);
  Some (w, if tk_has_handle task then with_finishing (pf_finishing p ++ [task]) p else p).
(** It takes the registry again, for its handle. *)
Definition finish_task (i : nat) (p : IntentPrefetcher) : IntentPrefetcher :=
  match pf_finishing p !! i with
  | Some task => update_handle task (with_finishing (delete i (pf_finishing p)) p)
  | None => p
  end.
(** A thread that panics before it takes the registry (its runtime is not built,
    the cognitive loop panics) is gone and has changed nothing. *)
Definition thread_dies (i : nat) (p : IntentPrefetcher) : IntentPrefetcher :=
  with_threads (pf_handles p) (delete i (pf_tasks p)) p.

(** ** Fetching, cancelling, evicting *)

Definition cancel (assembly_id : string) (p : IntentPrefetcher) : bool * IntentPrefetcher :=
  match pf_assemblies p !! assembly_id with
  | Some a =>
      match as_state a with
      | Asm_Pending => (true, with_assemblies (<[assembly_id := with_state Asm_Cancelled a]> (pf_assemblies p)) p)
      | _ => (false, p)
      end
  | None => (false, p)
  end.

Inductive FetchError : Type := Fetch_InProgress | Fetch_Failed (e : RecallError).

(** The cache of allocations is asked first, and does not know the agent. *)
Definition fetch_assembled_context (agent_id assembly_id : string) (p : IntentPrefetcher)
    : option (result FetchError BudgetAllocation) * IntentPrefetcher :=
  let set_used a := with_assemblies (<[assembly_id := with_state Asm_Used a]> (pf_assemblies p)) p in
  match pf_allocation_cache p !! assembly_id with
  | Some allocation =>
      (Some (Ok allocation),
       match pf_assemblies p !! assembly_id with
       | Some a => match as_state a with Asm_Ready _ => set_used a | _ => p end
       | None => p
       end)
  | None =>
      match pf_assemblies p !! assembly_id with
      | None => (None, p)
      | Some a =>
          if negb (str_eqb (as_agent_id a) agent_id) then (None, p) else
          match as_state a with
          | Asm_Pending => (Some (Err Fetch_InProgress), p)
          | Asm_Ready allocation => (Some (Ok allocation), set_used a)
          | Asm_Failed e => (Some (Err (Fetch_Failed e)), p)
          | Asm_Used | Asm_Unused | Asm_Cancelled => (None, p)
          end
      end
  end.

(** [now - a.created_at_ms] wraps. *)
Definition evict_stale (now : Z) (p : IntentPrefetcher) : IntentPrefetcher :=
  with_assemblies (filter (fun x => (u64_sub now (as_created_at_ms x.2) < MAX_AGE_MS)%Z) (pf_assemblies p)) p.

Definition invalidate_intent_cache_by_cids (modified_cids : list string) (p : IntentPrefetcher) : IntentPrefetcher :=
  with_cache (invalidate_by_cids (pf_intent_cache p) modified_cids) p.
Definition clear_intent_cache (p : IntentPrefetcher) : IntentPrefetcher := with_cache (cache_clear (pf_intent_cache p)) p.
Definition intent_cache_stats (p : IntentPrefetcher) : IntentCacheStats := cache_stats (pf_intent_cache p).

(** ** Completion of an intent *)

Definition trigger_cognitive_prefetch (env : DeclareEnv) (agent_id predicted_tag_key : string) (p : IntentPrefetcher)
    : option string * IntentPrefetcher :=
  if strategy_is_disabled (ps_strategy (pf_profile_store p)) then (None, p) else
  let predicted_intent := ("next: " +:+ predicted_tag_key) in
  let embedding := match de_embed env with Ok (v, _) => Some v | Err _ => None end in
  let p := record_embedding_cost (de_now env) predicted_intent (de_model_name env) p in
  let '(found, cache) := IntentCache.lookup (de_now env) (pf_intent_cache p) predicted_intent embedding in
  let p := with_cache cache p in
  match found with
  | Some _ => (None, p)
  | None => let '(id, p) := declare_intent env agent_id predicted_intent [] 1024 p in (Some id, p)
  end.

(** What completing an intent does to the profiles; the result is the predicted key. *)
Definition note_intent_complete (now : Z) (agent_id intent : string) (next_intent : option string) (known_tags : list string)
    (st : AgentProfileStore) : option string * AgentProfileStore :=
  let current := extract_tag_key to_lowercase (ps_strategy st) intent known_tags in
  let next := next_intent ≫= fun n => extract_tag_key to_lowercase (ps_strategy st) n known_tags in
  record_intent_complete now agent_id current next st.
Definition on_intent_complete (env : DeclareEnv) (agent_id intent : string) (next_intent : option string) (known_tags : list string)
    (p : IntentPrefetcher) : option string * IntentPrefetcher :=
  let '(predicted, st) := note_intent_complete (de_now env) agent_id intent next_intent known_tags (pf_profile_store p) in
  let p := with_profiles st p in
  match predicted with
  | Some key => (predicted, (trigger_cognitive_prefetch env agent_id key p).2)
  | None => (predicted, p)
  end.

Definition get_agent_profile (now : Z) (agent_id : string) (p : IntentPrefetcher) : AgentProfile * IntentPrefetcher :=
  let '(profile, st) := get_or_create now agent_id (pf_profile_store p) in (profile, with_profiles st p).
Definition get_hot_objects (now : Z) (agent_id : string) (p : IntentPrefetcher) : list string * IntentPrefetcher :=
  let '(profile, p) := get_agent_profile now agent_id p in (fst <$> ap_hot_objects profile, p).
(** No assembler: only hot objects are warmed. *)
Definition warm_cache_for_agent (now : Z) (agent_id : string) (p : IntentPrefetcher) : nat * IntentPrefetcher :=
  let '(profile, p) := get_agent_profile now agent_id p in
  let '(warmed, cache) := warm_from_profile now
    (mkProfileView (hash_iter (ap_intent_transitions profile)) (ap_hot_objects profile)) (fun _ => None) (pf_intent_cache p) in
  (warmed, with_cache cache p).
End prefetcher.

(** ** Files *)

Section files.
Context `{HashIter}.
(** [serde_json] at the entries of the cache, the profiles, the feedback and the session totals. *)
Variable entries_to_string : list CachedAssembly -> option string.
Variable entries_from_str : string -> option (list CachedAssembly).
Variable profiles_to_string : gmap string AgentProfile -> option string.
Variable profiles_from_str : string -> option (gmap string AgentProfile).
Variable feedback_to_string : list IntentFeedbackEntry -> option string.
Variable feedback_from_str : string -> option (list IntentFeedbackEntry).
Variable totals_to_string : gmap string SessionCostSummary -> option string.
Variable totals_from_str : string -> option (gmap string SessionCostSummary).

(** The four files of [root/prefetch]; [None] is a missing one. *)
Record PrefetchFiles := mkPrefetchFiles {
  pff_cache : option string;
  pff_profiles : option string;
  pff_feedback : option string;
  pff_costs : option string;
}.
(** How the directory and the four writes end. *)
Record PersistIo := mkPersistIo {
  pio_dir : bool;
  pio_cache : option IoError;
  pio_profiles : PermissionIo;
  pio_feedback : PermissionIo;
  pio_costs : PermissionIo;
}.

Definition persist_feedback (io : PermissionIo) (p : IntentPrefetcher) (file : option string) : bool * option string :=
  match feedback_to_string (pf_feedback_history p) with
  | None => (false, file)
  | Some json => atomic_write_bytes io file json
  end.

(** The first write that fails ends it; a failure of the ledger is only logged. *)
Definition prefetch_persist (io : PersistIo) (p : IntentPrefetcher) (files : PrefetchFiles) : bool * PrefetchFiles :=
  if negb (pio_dir io) then (false, files) else
  match persist_to_dir entries_to_string (pio_cache io) (pf_intent_cache p) (pff_cache files) with
  | (Err _, cache) => (false, mkPrefetchFiles cache (pff_profiles files) (pff_feedback files) (pff_costs files))
  | (Ok _, cache) =>
      match profiles_persist_to_dir profiles_to_string (pio_profiles io) (pff_profiles files) (pf_profile_store p) with
      | (false, profiles) => (false, mkPrefetchFiles cache profiles (pff_feedback files) (pff_costs files))
      | (true, profiles) =>
          match persist_feedback (pio_feedback io) p (pff_feedback files) with
          | (false, feedback) => (false, mkPrefetchFiles cache profiles feedback (pff_costs files))
          | (true, feedback) =>
              let costs := match pf_cost_ledger p with
                           | Some l => (cost_persist totals_to_string (pio_costs io) l (pff_costs files)).2
                           | None => pff_costs files
                           end in
              (true, mkPrefetchFiles cache profiles feedback costs)
          end
      end
  end.

(** Which files can be read. *)
Record RestoreIo := mkRestoreIo {
  rio_dir : bool;
  rio_cache : option IoError;
  rio_profiles : bool;
  rio_feedback : bool;
  rio_costs : bool;
}.

Definition restore_costs (io : RestoreIo) (files : PrefetchFiles) (p : IntentPrefetcher) : IntentPrefetcher :=
  with_costs ((fun l => (cost_restore totals_from_str (rio_costs io) (pff_costs files) l).2) <$> pf_cost_ledger p)
    (pf_current_session_id p) p.

(** Missing files are no error; [false] is an error, with what was restored before it. *)
Definition prefetch_restore (now : Z) (io : RestoreIo) (files : PrefetchFiles) (p : IntentPrefetcher) : bool * IntentPrefetcher :=
  if negb (rio_dir io) then (true, p) else
  match restore_from_dir entries_from_str now (rio_cache io) (pff_cache files) (pf_intent_cache p) with
  | (Err _, cache) => (false, with_cache cache p)
  | (Ok _, cache) =>
      let p := with_cache cache p in
      match profiles_restore_from_dir profiles_from_str (rio_profiles io) (pff_profiles files) (pf_profile_store p) with
      | (None, st) => (false, with_profiles st p)
      | (Some _, st) =>
          let p := with_profiles st p in
          match pff_feedback files with
          | None => (true, restore_costs io files p)
          | Some json =>
              match (if rio_feedback io then feedback_from_str json else None) with
              | None => (false, p)
              | Some loaded => (true, restore_costs io files (with_history (last_n DEFAULT_MAX_FEEDBACK_ENTRIES loaded) p))
              end
          end
      end
  end.
End files.
