(* ===== verification/PrefetchProps.v ===== *)
(** * What the prefetcher guarantees

    Over every interleaving of declarations, background threads, cancellations,
    fetches and evictions: what is published is what is fetched, every assembly
    that waits has a running thread with what was declared, unless that thread has
    died, and who fetches makes no difference once a result exists.  A thread that
    panics while it holds the registry poisons its lock; what the calls do after
    that (they panic, except for a fetch of what is published) is not followed. *)

From stdpp Require Import base gmap strings list.
From S2P Require Import Prelude CircuitBreaker Wire MemoryModel LedgerModel Text Float32 ObjectStorage Permission ContextLoader ContextProps IntentCache CostLedger EventBus EventBusProps GraphModel Graph GraphStore GraphSearch SearchIndex Profiles Prefetch.

Section props.
Context `{HashIter} `{SemanticSearch} `{Broadcast} `{Platform} `{!Serde AIObject} `{!Serde (gmap string AccessEntry)}.
Variable to_lowercase : string -> string.
Variable debug_event : KernelEvent -> string.

Definition task_ids (p : IntentPrefetcher) : list string := tk_assembly_id <$> pf_tasks p.

(** An identifier the prefetcher has not seen. *)
Definition fresh_id (id : string) (p : IntentPrefetcher) : Prop :=
  pf_assemblies p !! id = None /\ pf_allocation_cache p !! id = None /\ pf_handles p !! id = None /\ id ∉ task_ids p.

(** *** What was declared

    Beside the prefetcher, each declaration is written down as it was made, and so
    are the threads that died. *)
Record Declaration := mkDeclaration {
  dc_agent : string;
  dc_intent : string;
  dc_related_cids : list string;
  dc_budget_tokens : Z;
  (** What the feedback says of the intent at that time. *)
  dc_feedback_boost : gmap string f32;
  dc_has_handle : bool;
}.
Definition declared_now (agent intent : string) (cids : list string) (budget : Z) (has_handle : bool) (p : IntentPrefetcher) : Declaration :=
  mkDeclaration agent intent cids budget (feedback_boost to_lowercase p intent) has_handle.
(** The thread a declaration asks for. *)
Definition thread_of (d : Declaration) (id : string) : PrefetchTask :=
  mkTask id (dc_intent d) (dc_related_cids d) (dc_budget_tokens d) (dc_feedback_boost d) (dc_has_handle d).
(** The assembly is the one of the declaration. *)
Definition registered (a : Assembly) (d : Declaration) : Prop :=
  as_agent_id a = dc_agent d /\ as_intent a = dc_intent d /\ as_budget_tokens a = dc_budget_tokens d.

(** What the completion of an intent declares, if it does. *)
Definition next_declared (env : DeclareEnv) (agent intent : string) (next : option string) (tags : list string) (p : IntentPrefetcher)
    : option Declaration :=
  let '(predicted, st) := note_intent_complete to_lowercase (de_now env) agent intent next tags (pf_profile_store p) in
  key ← predicted;
  _ ← (trigger_cognitive_prefetch to_lowercase env agent key (with_profiles st p)).1;
  Some (declared_now agent ("next: " +:+ key) [] 1024 false p).

Record PrefetchRun := mkRun {
  run_world : World;
  run_prefetcher : IntentPrefetcher;
  run_declared : gmap string Declaration;
  run_dead : list string;
}.

(** One step; the rest of the kernel changes the world between the steps.  A
    thread that panics with the registry locked ([end_task] is [None]) poisons the
    lock, and there is no step after it. *)
Inductive prefetch_step : PrefetchRun -> PrefetchRun -> Prop :=
  | step_declare env agent intent cids budget w p ds dead :
      fresh_id (de_id env) p -> ds !! de_id env = None ->
      prefetch_step (mkRun w p ds dead)
        (mkRun w (declare_intent to_lowercase env agent intent cids budget p).2
           (<[de_id env := declared_now agent intent cids budget false p]> ds) dead)
  | step_async env agent intent cids budget w p ds dead :
      fresh_id (de_id env) p -> ds !! de_id env = None ->
      prefetch_step (mkRun w p ds dead)
        (mkRun w (prefetch_async to_lowercase env agent intent cids budget p).2
           (<[de_id env := declared_now agent intent cids budget true p]> ds) dead)
  | step_complete env agent intent next tags w p ds dead :
      fresh_id (de_id env) p -> ds !! de_id env = None ->
      prefetch_step (mkRun w p ds dead)
        (mkRun w (on_intent_complete to_lowercase env agent intent next tags p).2
           (match next_declared env agent intent next tags p with Some d => <[de_id env := d]> ds | None => ds end) dead)
  | step_end env i w p w' p' ds dead :
      end_task to_lowercase debug_event env i w p = Some (w', p') -> prefetch_step (mkRun w p ds dead) (mkRun w' p' ds dead)
  | step_finish i w p ds dead : prefetch_step (mkRun w p ds dead) (mkRun w (finish_task i p) ds dead)
  | step_dies i task w p ds dead :
      pf_tasks p !! i = Some task ->
      prefetch_step (mkRun w p ds dead) (mkRun w (thread_dies i p) ds (tk_assembly_id task :: dead))
  | step_cancel id w p ds dead : prefetch_step (mkRun w p ds dead) (mkRun w (cancel id p).2 ds dead)
  | step_fetch agent id w p ds dead :
      prefetch_step (mkRun w p ds dead) (mkRun w (fetch_assembled_context agent id p).2 ds dead)
  | step_evict now w p ds dead : prefetch_step (mkRun w p ds dead) (mkRun w (evict_stale now p) ds dead)
  | step_feedback now intent used unused w p ds dead :
      prefetch_step (mkRun w p ds dead) (mkRun w (record_feedback to_lowercase now intent used unused p) ds dead)
  | step_invalidate cids w p ds dead :
      prefetch_step (mkRun w p ds dead) (mkRun w (invalidate_intent_cache_by_cids cids p) ds dead)
  | step_warm now agent w p ds dead :
      prefetch_step (mkRun w p ds dead) (mkRun w (warm_cache_for_agent now agent p).2 ds dead)
  | step_world w w' p ds dead : prefetch_step (mkRun w p ds dead) (mkRun w' p ds dead).

Definition prefetch_reachable (r : PrefetchRun) : Prop :=
  exists w0, rtc prefetch_step (mkRun w0 prefetcher_new ∅ []) r.

(** ** The invariant *)

Definition handle_ok (h : PrefetchHandle) (published : option BudgetAllocation) : Prop :=
  ph_state h = STATE_PENDING \/ (ph_state h = STATE_READY /\ is_Some (ph_result h) /\ ph_result h = published) \/
  ph_state h = STATE_FAILED.

Record registry_ok (assemblies : gmap string Assembly) (allocations : gmap string BudgetAllocation)
    (handles : gmap string PrefetchHandle) (tasks : list PrefetchTask) (dead : list string) : Prop := {
  (** A ready assembly is in the cache of allocations. *)
  ok_ready : forall id a x, assemblies !! id = Some a -> as_state a = Asm_Ready x -> allocations !! id = Some x;
  (** One that waits has a thread, or had one that died. *)
  ok_pending : forall id a, assemblies !! id = Some a -> as_state a = Asm_Pending -> id ∈ (tk_assembly_id <$> tasks) ++ dead;
  ok_tasks : NoDup (tk_assembly_id <$> tasks);
  (** A thread that runs has published nothing, and its assembly waits or was cancelled. *)
  ok_unpublished : forall id, id ∈ tk_assembly_id <$> tasks -> allocations !! id = None;
  ok_waiting : forall id a, id ∈ tk_assembly_id <$> tasks -> assemblies !! id = Some a ->
    as_state a = Asm_Pending \/ as_state a = Asm_Cancelled;
  (** Handles are pending, ready with the published allocation, or failed. *)
  ok_handles : forall id h, handles !! id = Some h -> handle_ok h (allocations !! id);
}.
Definition prefetch_ok (dead : list string) (p : IntentPrefetcher) : Prop :=
  registry_ok (pf_assemblies p) (pf_allocation_cache p) (pf_handles p) (pf_tasks p) dead.

(** The same registry, allocations, handles and threads. *)
Definition same_registry (p q : IntentPrefetcher) : Prop :=
  pf_assemblies p = pf_assemblies q /\ pf_allocation_cache p = pf_allocation_cache q /\
  pf_handles p = pf_handles q /\ pf_tasks p = pf_tasks q.

(** The prefetcher before the thread is set aside for its handle. *)
Ltac strip_finishing H := match goal with |- context [if _ then with_finishing _ ?q else _] => apply (H q) end.

(** *** Every step keeps it, whatever threads have died *)

Section kept.
Variable dead : list string.

Lemma same_registry_ok p q : same_registry p q -> prefetch_ok dead q -> prefetch_ok dead p.
Proof. unfold prefetch_ok. by intros (-> & -> & -> & ->). Qed.
Lemma same_registry_fresh p q id : same_registry p q -> fresh_id id q -> fresh_id id p.
Proof. unfold fresh_id, task_ids. by intros (-> & -> & -> & ->). Qed.
Lemma same_registry_trans p q r : same_registry p q -> same_registry q r -> same_registry p r.
Proof. unfold same_registry. naive_solver congruence. Qed.

Lemma embed_and_lookup_registry env intent p : same_registry (embed_and_lookup env intent p).2 p.
Proof. unfold embed_and_lookup. by destruct (IntentCache.lookup _ _ _ _). Qed.

Lemma publish_ok env agent intent budget a p :
  fresh_id (de_id env) p -> prefetch_ok dead p -> prefetch_ok dead (publish_cached env agent intent budget a p).
Proof.
  intros (Ha & Hc & Hh & Ht) [R P N U W L].
  split; cbn [publish_cached insert_assembly with_assemblies with_allocations pf_assemblies pf_allocation_cache pf_handles pf_tasks]; [..|done| | |].
  - intros id b x. destruct (decide (id = de_id env)) as [-> |Hne].
    + rewrite !lookup_insert_eq. by intros [= <-] [= <-].
    + rewrite !lookup_insert_ne by done. apply R.
  - intros id b. destruct (decide (id = de_id env)) as [-> |Hne].
    + rewrite lookup_insert_eq. by intros [= <-] [=].
    + rewrite lookup_insert_ne by done. apply P.
  - intros id Hid. rewrite lookup_insert_ne by (intros <-; by apply Ht). by apply U.
  - intros id b Hid. rewrite lookup_insert_ne by (intros <-; by apply Ht). by apply W.
  - intros id h Hid. rewrite lookup_insert_ne by (intros <-; congruence). by apply L.
Qed.

Lemma start_ok env agent intent budget task p :
  fresh_id (de_id env) p -> tk_assembly_id task = de_id env -> prefetch_ok dead p ->
  prefetch_ok dead (spawn task (insert_assembly env agent intent budget Asm_Pending p)).
Proof.
  intros (Ha & Hc & Hh & Ht) Hid [R P N U W L]. unfold task_ids in Ht.
  split; cbn [spawn insert_assembly with_assemblies with_threads pf_assemblies pf_allocation_cache pf_handles pf_tasks];
    rewrite ?fmap_app, ?Hid; cbn [fmap list_fmap]; rewrite ?Hid.
  - intros id b x. destruct (decide (id = de_id env)) as [-> |Hne].
    + rewrite lookup_insert_eq. by intros [= <-] [=].
    + rewrite lookup_insert_ne by done. apply R.
  - intros id b. destruct (decide (id = de_id env)) as [-> |Hne]; [set_solver|].
    rewrite lookup_insert_ne by done. intros Hb Hs. pose proof (P id b Hb Hs). set_solver.
  - apply NoDup_app. split; [done|]. split; [|apply NoDup_singleton]. by intros id Hi ->%list_elem_of_singleton.
  - intros id [Hi| ->%list_elem_of_singleton]%elem_of_app; [by apply U | done].
  - intros id b [Hi| ->%list_elem_of_singleton]%elem_of_app.
    + rewrite lookup_insert_ne by (intros <-; by apply Ht). by apply W.
    + rewrite lookup_insert_eq. intros [= <-]. by left.
  - done.
Qed.

(** Adding the handle of a fresh identifier. *)
Lemma add_handle_ok id h p :
  handle_ok h (pf_allocation_cache p !! id) -> prefetch_ok dead p -> prefetch_ok dead (with_threads (<[id := h]> (pf_handles p)) (pf_tasks p) p).
Proof.
  intros Hh [R P N U W L]. split; cbn [with_threads pf_assemblies pf_allocation_cache pf_handles pf_tasks]; [done..|].
  intros id' h'. destruct (decide (id' = id)) as [-> |Hne].
  - rewrite lookup_insert_eq. by intros [= <-].
  - rewrite lookup_insert_ne by done. apply L.
Qed.

Lemma declare_ok env agent intent cids budget p :
  fresh_id (de_id env) p -> prefetch_ok dead p -> prefetch_ok dead (declare_intent to_lowercase env agent intent cids budget p).2.
Proof.
  intros Hf Hok. unfold declare_intent. pose proof (embed_and_lookup_registry env intent p) as Hs.
  destruct (embed_and_lookup env intent p) as [found q]. cbn [snd] in *.
  pose proof (same_registry_fresh _ _ _ Hs Hf). pose proof (same_registry_ok _ _ Hs Hok).
  destruct found as [a|]; [by apply publish_ok | by apply start_ok].
Qed.

Lemma async_ok env agent intent cids budget p :
  fresh_id (de_id env) p -> prefetch_ok dead p -> prefetch_ok dead (prefetch_async to_lowercase env agent intent cids budget p).2.
Proof.
  intros Hf Hok. unfold prefetch_async. set (p0 := with_rates _ _ p).
  assert (Hp0 : same_registry p0 p) by done.
  pose proof (same_registry_trans _ _ _ (embed_and_lookup_registry env intent p0) Hp0) as Hs.
  destruct (embed_and_lookup env intent p0) as [found q]. cbn [snd] in *.
  pose proof (same_registry_fresh _ _ _ Hs Hf) as Hfq. pose proof (same_registry_ok _ _ Hs Hok) as Hokq.
  destruct found as [a|]; cbn [snd].
  - apply add_handle_ok; [right; left|by apply publish_ok]. split; [done|]. split; [by eexists|].
    cbn. by rewrite lookup_insert_eq.
  - set (q1 := insert_assembly _ _ _ _ _ _). set (q2 := with_threads _ _ q1).
    match goal with |- prefetch_ok dead (spawn ?t q2) =>
      change (prefetch_ok dead (with_threads (<[de_id env := mkHandle (de_id env) STATE_PENDING None]>
        (pf_handles (spawn t q1))) (pf_tasks (spawn t q1)) (spawn t q1))) end.
    apply add_handle_ok; [by left | by apply start_ok].
Qed.

Lemma complete_ok env agent intent next tags p :
  fresh_id (de_id env) p -> prefetch_ok dead p -> prefetch_ok dead (on_intent_complete to_lowercase env agent intent next tags p).2.
Proof.
  intros Hf Hok. unfold on_intent_complete. destruct (note_intent_complete _ _ _ _ _ _ _) as [[key|] st]; [|done].
  unfold trigger_cognitive_prefetch. cbn [snd]. destruct (strategy_is_disabled _); [done|].
  destruct (IntentCache.lookup _ _ _ _) as [[a|] cache]; [done|]. cbn zeta.
  set (q := with_cache cache _). pose proof (declare_ok env agent ("next: " +:+ key) [] 1024 q Hf Hok) as Hq.
  by destruct (declare_intent _ _ _ _ _ _ q).
Qed.

Lemma ended_ids (tasks : list PrefetchTask) i task :
  tasks !! i = Some task -> NoDup (tk_assembly_id <$> tasks) ->
  NoDup (tk_assembly_id <$> delete i tasks) /\
  forall id, id ∈ tk_assembly_id <$> delete i tasks <-> id ∈ tk_assembly_id <$> tasks /\ id <> tk_assembly_id task.
Proof.
  intros Hi. pose proof (delete_Permutation _ _ _ Hi) as Hp. apply (fmap_Permutation tk_assembly_id) in Hp.
  rewrite fmap_cons in Hp. setoid_rewrite Hp. rewrite NoDup_cons. intros [Hn Hd]. split; [done|]. intros id.
  rewrite elem_of_cons. split; [intros Hid; split; [by right | by intros ->] | naive_solver].
Qed.

(** A thread ends and leaves its assembly as [b]. *)
Lemma ended_ok assemblies allocations handles (tasks : list PrefetchTask) i task b allocations' handles' :
  tasks !! i = Some task -> registry_ok assemblies allocations handles tasks dead ->
  let id := tk_assembly_id task in
  (forall j, j <> id -> allocations' !! j = allocations !! j) ->
  (forall j, j <> id -> handles' !! j = handles !! j) ->
  (forall x, as_state b = Asm_Ready x -> allocations' !! id = Some x) -> as_state b <> Asm_Pending ->
  (forall h, handles' !! id = Some h -> handle_ok h (allocations' !! id)) ->
  registry_ok (<[id := b]> assemblies) allocations' handles' (delete i tasks) dead.
Proof.
  intros Hi [R P N U W L] id Hal Hha Hb Hnp Hh. destruct (ended_ids tasks i task Hi N) as [Hnd Hids].
  split; [..|done| | |].
  - intros j c x. destruct (decide (j = id)) as [-> |Hne].
    + rewrite lookup_insert_eq. intros [= <-]. apply Hb.
    + rewrite lookup_insert_ne, Hal by done. apply R.
  - intros j c. destruct (decide (j = id)) as [-> |Hne].
    + rewrite lookup_insert_eq. by intros [= <-].
    + rewrite lookup_insert_ne by done. intros Hj Hs. pose proof (P j c Hj Hs). set_solver.
  - intros j [Hj Hne]%Hids. rewrite Hal by done. by apply U.
  - intros j c [Hj Hne]%Hids. rewrite lookup_insert_ne by done. by apply W.
  - intros j h. destruct (decide (j = id)) as [-> |Hne]; [apply Hh|]. rewrite Hha, Hal by done. apply L.
Qed.

(** A thread whose assembly was evicted leaves the registry as it is. *)
Lemma dropped_ok assemblies allocations handles (tasks : list PrefetchTask) i task :
  tasks !! i = Some task -> registry_ok assemblies allocations handles tasks dead ->
  assemblies !! tk_assembly_id task = None -> registry_ok assemblies allocations handles (delete i tasks) dead.
Proof.
  intros Hi [R P N U W L] Hnone. destruct (ended_ids tasks i task Hi N) as [Hnd Hids]. split; [done | |done| | |done].
  - intros j c Hj Hs. pose proof (P j c Hj Hs). assert (j <> tk_assembly_id task) by congruence. set_solver.
  - intros j [Hj _]%Hids. by apply U.
  - intros j c [Hj _]%Hids. by apply W.
Qed.

Lemma end_task_ok env i w p w' p' :
  end_task to_lowercase debug_event env i w p = Some (w', p') -> prefetch_ok dead p -> prefetch_ok dead p'.
Proof.
  unfold end_task. destruct (pf_tasks p !! i) as [task|] eqn:Hi; [|done]. cbn [mbind option_bind].
  unfold run_prefetch. cbn [with_threads pf_assemblies pf_allocation_cache pf_intent_cache].
  set (id := tk_assembly_id task). set (recalled := multi_path_recall _ _ _ _ _ _). intros Hend Hok.
  assert (Hun : pf_allocation_cache p !! id = None)
    by (apply (ok_unpublished _ _ _ _ _ Hok), list_elem_of_fmap_2; by eapply list_elem_of_lookup_2).
  assert (Hold : forall h o, pf_handles p !! id = Some h -> handle_ok h o).
  { intros h o Hh. destruct (ok_handles _ _ _ _ _ Hok id h Hh) as [?|[(_ & [x Hx] & Heq)|?]]; [by left|congruence|by right; right]. }
  assert (Hfin : forall q, prefetch_ok dead q -> prefetch_ok dead (if tk_has_handle task then with_finishing (pf_finishing q ++ [task]) q else q))
    by (intros q Hq; by destruct (tk_has_handle task)).
  destruct (pf_assemblies p !! id) as [a|] eqn:Ha; [destruct recalled as [candidates|e]|].
  - destruct (assemble _ _ _ _) as [[allocation loader]|]; [|done]. cbn [mbind option_bind] in Hend.
    injection Hend as _ <-. strip_finishing Hfin. unfold prefetch_ok.
    cbn [with_assemblies with_allocations with_cache with_threads pf_assemblies pf_allocation_cache pf_handles pf_tasks].
    eapply (ended_ok _ _ (pf_handles p) (pf_tasks p) i task); [done | exact Hok | | done | | done |]; fold id.
    + intros j Hj. by rewrite lookup_insert_ne.
    + intros x [= <-]. by rewrite lookup_insert_eq.
    + intros h Hh. by apply Hold.
  - cbn [mbind option_bind] in Hend. injection Hend as _ <-. strip_finishing Hfin. unfold prefetch_ok.
    cbn [with_assemblies with_threads pf_assemblies pf_allocation_cache pf_handles pf_tasks].
    eapply (ended_ok _ _ (pf_handles p) (pf_tasks p) i task); [done | exact Hok | done | done | done | done |]; fold id.
    intros h Hh. by apply Hold.
  - assert (Hgoal : prefetch_ok dead (with_threads (pf_handles p) (delete i (pf_tasks p)) p)) by (by eapply dropped_ok).
    apply Hfin in Hgoal. destruct recalled; cbn [mbind option_bind] in Hend; injection Hend as _ <-; exact Hgoal.
Qed.

(** The handle is updated from the assembly. *)
Lemma finish_ok i p : prefetch_ok dead p -> prefetch_ok dead (finish_task i p).
Proof.
  intros Hok. unfold finish_task. destruct (pf_finishing p !! i) as [task|]; [|done].
  set (q := with_finishing _ p). assert (Hq : prefetch_ok dead q) by done. unfold update_handle.
  destruct (pf_assemblies q !! tk_assembly_id task) as [a|] eqn:Ha; [|done].
  destruct (as_state a) as [|x|e| | |] eqn:Hs; try done.
  - apply add_handle_ok; [|done]. right; left. split; [done|]. split; [by eexists|].
    symmetry. by eapply (ok_ready _ _ _ _ _ Hq).
  - destruct Hq as [R P N U W L]. split; cbn [with_threads pf_assemblies pf_allocation_cache pf_handles pf_tasks]; try done.
    intros id h. rewrite lookup_alter. case_decide as Hd; [|apply L].
    destruct (pf_handles q !! _); [|done]. cbn. intros [= <-]. by right; right.
Qed.

(** Changing the state of a registered assembly to one that neither waits nor is ready. *)
Lemma set_state_ok id a state p :
  pf_assemblies p !! id = Some a -> prefetch_ok dead p ->
  (state = Asm_Used /\ id ∉ task_ids p) \/ (state = Asm_Cancelled /\ as_state a = Asm_Pending) ->
  prefetch_ok dead (with_assemblies (<[id := with_state state a]> (pf_assemblies p)) p).
Proof.
  intros Ha [R P N U W L] Hstate. split; cbn [with_assemblies pf_assemblies pf_allocation_cache pf_handles pf_tasks]; [..|done|done| |done].
  - intros j c x. destruct (decide (j = id)) as [-> |Hne].
    + rewrite lookup_insert_eq. intros [= <-]. cbn. by destruct Hstate as [[-> _]|[-> _]].
    + rewrite lookup_insert_ne by done. apply R.
  - intros j c. destruct (decide (j = id)) as [-> |Hne].
    + rewrite lookup_insert_eq. intros [= <-]. cbn. by destruct Hstate as [[-> _]|[-> _]].
    + rewrite lookup_insert_ne by done. apply P.
  - intros j c Hj. destruct (decide (j = id)) as [-> |Hne].
    + rewrite lookup_insert_eq. intros [= <-]. cbn. destruct Hstate as [[_ ?]|[-> _]]; [done | by right].
    + rewrite lookup_insert_ne by done. by apply W.
Qed.

Lemma cancel_ok id p : prefetch_ok dead p -> prefetch_ok dead (cancel id p).2.
Proof.
  intros Hok. unfold cancel. destruct (pf_assemblies p !! id) as [a|] eqn:Ha; [|done].
  destruct (as_state a) eqn:Hs; try done. apply set_state_ok; auto.
Qed.

Lemma published_not_running id x p : prefetch_ok dead p -> pf_allocation_cache p !! id = Some x -> id ∉ task_ids p.
Proof. intros Hok Hx Hin. by rewrite (ok_unpublished _ _ _ _ _ Hok id Hin) in Hx. Qed.

Lemma fetch_ok agent id p : prefetch_ok dead p -> prefetch_ok dead (fetch_assembled_context agent id p).2.
Proof.
  intros Hok. unfold fetch_assembled_context. destruct (pf_allocation_cache p !! id) as [x|] eqn:Hx; cbn [snd].
  - destruct (pf_assemblies p !! id) as [a|] eqn:Ha; [|done]. destruct (as_state a); try done.
    apply set_state_ok; [done..|]. left. split; [done | by eapply published_not_running].
  - destruct (pf_assemblies p !! id) as [a|] eqn:Ha; [|done]. destruct (negb _); [done|].
    destruct (as_state a) as [|x| | | |] eqn:Hs; try done. cbn [snd].
    pose proof (ok_ready _ _ _ _ _ Hok id a x Ha Hs). congruence.
Qed.

Lemma evict_ok now p : prefetch_ok dead p -> prefetch_ok dead (evict_stale now p).
Proof.
  intros [R P N U W L].
  split; cbn [evict_stale with_assemblies pf_assemblies pf_allocation_cache pf_handles pf_tasks]; [..|done|done| |done].
  - intros id a x [Ha _]%map_lookup_filter_Some. by apply R.
  - intros id a [Ha _]%map_lookup_filter_Some. by apply P.
  - intros id a Hid [Ha _]%map_lookup_filter_Some. by apply (W id).
Qed.

Lemma warm_registry now agent p : same_registry (warm_cache_for_agent now agent p).2 p.
Proof. unfold warm_cache_for_agent, get_agent_profile, get_or_create. by destruct (warm_from_profile _ _ _ _). Qed.

End kept.

(** A thread that dies leaves its assembly waiting. *)
Lemma dies_ok dead i task p :
  pf_tasks p !! i = Some task -> prefetch_ok dead p -> prefetch_ok (tk_assembly_id task :: dead) (thread_dies i p).
Proof.
  intros Hi [R P N U W L]. destruct (ended_ids _ i task Hi N) as [Hnd Hids].
  split; cbn [thread_dies with_threads pf_assemblies pf_allocation_cache pf_handles pf_tasks]; [done | |done| | |done].
  - intros j c Hj Hs. pose proof (P j c Hj Hs). destruct (decide (j = tk_assembly_id task)); set_solver.
  - intros j [Hj _]%Hids. by apply U.
  - intros j c [Hj _]%Hids. by apply W.
Qed.

(** *** What runs is what was declared *)

Definition declared_ok (p : IntentPrefetcher) (ds : gmap string Declaration) : Prop :=
  (forall id a, pf_assemblies p !! id = Some a -> exists d, ds !! id = Some d /\ registered a d) /\
  (forall task, task ∈ pf_tasks p -> exists d, ds !! tk_assembly_id task = Some d /\ task = thread_of d (tk_assembly_id task)).

(** Nothing new is registered or started, and the assemblies are still the same agents', intents and budgets. *)
Definition nothing_new (p q : IntentPrefetcher) : Prop :=
  (forall id a, pf_assemblies q !! id = Some a ->
     exists b, pf_assemblies p !! id = Some b /\ forall d, registered b d -> registered a d) /\
  pf_tasks q ⊆ pf_tasks p.

Lemma nothing_new_declared p q ds : nothing_new p q -> declared_ok p ds -> declared_ok q ds.
Proof.
  intros [Ha Ht] [Hr Hs]. split; [|intros task Hin; by apply Hs, Ht].
  intros id a Hid. destruct (Ha id a Hid) as (b & Hb & Hab). destruct (Hr id b Hb) as (d & Hd & Hbd). eauto.
Qed.

Lemma nothing_new_same p q : same_registry q p -> nothing_new p q.
Proof. intros (Ha & _ & _ & Ht). split; [rewrite Ha; eauto | by rewrite Ht]. Qed.

Lemma changed_nothing_new p q id a b :
  pf_assemblies p !! id = Some a -> (forall d, registered a d -> registered b d) ->
  pf_assemblies q = <[id := b]> (pf_assemblies p) -> pf_tasks q ⊆ pf_tasks p -> nothing_new p q.
Proof.
  intros Ha Hab Hq Ht. split; [|done]. intros j c. rewrite Hq. destruct (decide (j = id)) as [-> |Hne].
  - rewrite lookup_insert_eq. intros [= <-]. eauto.
  - rewrite lookup_insert_ne by done. eauto.
Qed.

Lemma delete_subset {A} (l : list A) i : delete i l ⊆ l.
Proof. intros x Hx. apply (sublist_subseteq (delete i l)); [apply sublist_delete | done]. Qed.

Lemma end_nothing_new env i w p w' p' :
  end_task to_lowercase debug_event env i w p = Some (w', p') -> nothing_new p p'.
Proof.
  unfold end_task. destruct (pf_tasks p !! i) as [task|] eqn:Hi; [|done]. cbn [mbind option_bind].
  unfold run_prefetch. cbn [with_threads pf_assemblies]. set (recalled := multi_path_recall _ _ _ _ _ _). intros Hend.
  assert (Hfin : forall q, nothing_new p q -> nothing_new p (if tk_has_handle task then with_finishing (pf_finishing q ++ [task]) q else q))
    by (intros q Hq; by destruct (tk_has_handle task)).
  destruct (pf_assemblies p !! tk_assembly_id task) as [a|] eqn:Ha; [destruct recalled as [candidates|e]|].
  - destruct (assemble _ _ _ _) as [[allocation loader]|]; [|done]. cbn [mbind option_bind] in Hend.
    injection Hend as _ <-. strip_finishing Hfin. eapply changed_nothing_new; [done| |done|apply delete_subset]. by intros d.
  - cbn [mbind option_bind] in Hend. injection Hend as _ <-.
    strip_finishing Hfin. eapply changed_nothing_new; [done| |done|apply delete_subset]. by intros d.
  - destruct recalled; cbn [mbind option_bind] in Hend; injection Hend as _ <-; strip_finishing Hfin;
      (split; [eauto | apply delete_subset]).
Qed.

Lemma finish_nothing_new i p : nothing_new p (finish_task i p).
Proof.
  unfold finish_task. destruct (pf_finishing p !! i) as [task|]; [|split; [eauto | done]].
  unfold update_handle. cbn [with_finishing pf_assemblies].
  destruct (pf_assemblies p !! tk_assembly_id task) as [a|]; [|split; [eauto | done]].
  destruct (as_state a); (split; [eauto | done]).
Qed.

Lemma set_state_nothing_new id a state p :
  pf_assemblies p !! id = Some a -> nothing_new p (with_assemblies (<[id := with_state state a]> (pf_assemblies p)) p).
Proof. intros Ha. eapply changed_nothing_new; [done| |done|done]. by intros d. Qed.

Lemma cancel_nothing_new id p : nothing_new p (cancel id p).2.
Proof.
  unfold cancel. destruct (pf_assemblies p !! id) as [a|] eqn:Ha; [|by apply nothing_new_same].
  destruct (as_state a); try (by apply nothing_new_same). by apply set_state_nothing_new.
Qed.

Lemma fetch_nothing_new agent id p : nothing_new p (fetch_assembled_context agent id p).2.
Proof.
  unfold fetch_assembled_context.
  destruct (pf_allocation_cache p !! id); destruct (pf_assemblies p !! id) as [a|] eqn:Ha;
    try destruct (negb _); try (by apply nothing_new_same);
    destruct (as_state a); try (by apply nothing_new_same); by apply set_state_nothing_new.
Qed.

Lemma evict_nothing_new now p : nothing_new p (evict_stale now p).
Proof. split; [|done]. intros id a [Ha _]%map_lookup_filter_Some. eauto. Qed.

(** Registering a declaration, and starting its thread if it is not answered yet. *)
Lemma registered_declared env agent intent budget state tasks d p q ds :
  declared_ok p ds -> fresh_id (de_id env) p -> ds !! de_id env = None ->
  dc_agent d = agent -> dc_intent d = intent -> dc_budget_tokens d = budget ->
  pf_assemblies q = <[de_id env := mkAssembly (de_id env) agent intent budget state (de_now env)]> (pf_assemblies p) ->
  pf_tasks q = pf_tasks p ++ tasks -> tasks ⊆ [thread_of d (de_id env)] ->
  declared_ok q (<[de_id env := d]> ds).
Proof.
  intros [Hr Hs] (_ & _ & _ & Ht) Hd Hagent Hintent Hbudget Ha Htasks Hsub. split.
  - intros id a. rewrite Ha. destruct (decide (id = de_id env)) as [-> |Hne].
    + rewrite !lookup_insert_eq. intros [= <-]. by exists d.
    + rewrite !lookup_insert_ne by done. apply Hr.
  - intros task. rewrite Htasks, elem_of_app. intros [Hin|Hin].
    + rewrite lookup_insert_ne; [by apply Hs|]. intros Heq. apply Ht. rewrite Heq. by apply list_elem_of_fmap_2.
    + apply Hsub, list_elem_of_singleton in Hin as ->. exists d. split; [apply lookup_insert_eq | done].
Qed.

Lemma embed_and_lookup_history env intent p : pf_feedback_history (embed_and_lookup env intent p).2 = pf_feedback_history p.
Proof. unfold embed_and_lookup. by destruct (IntentCache.lookup _ _ _ _). Qed.

Lemma feedback_boost_history p q intent :
  pf_feedback_history p = pf_feedback_history q -> feedback_boost to_lowercase p intent = feedback_boost to_lowercase q intent.
Proof. intros Hh. unfold feedback_boost, get_similar_feedback. by rewrite Hh. Qed.

Lemma declare_declared env agent intent cids budget p p0 ds :
  declared_ok p ds -> fresh_id (de_id env) p -> ds !! de_id env = None -> pf_feedback_history p = pf_feedback_history p0 ->
  declared_ok (declare_intent to_lowercase env agent intent cids budget p).2
    (<[de_id env := declared_now agent intent cids budget false p0]> ds).
Proof.
  intros Hok Hf Hd Hh. unfold declare_intent. pose proof (embed_and_lookup_registry env intent p) as (Ha & _ & _ & Ht).
  pose proof (embed_and_lookup_history env intent p) as Hq.
  destruct (embed_and_lookup env intent p) as [[x|] q]; cbn [snd] in *.
  - eapply (registered_declared _ _ _ _ _ []); [exact Hok|done..| | |set_solver]; cbn; by rewrite ?Ha, ?Ht, ?app_nil_r.
  - eapply (registered_declared _ _ _ _ _ [_]); [exact Hok|done..| | |]; cbn [spawn insert_assembly with_threads with_assemblies pf_assemblies pf_tasks];
      [by rewrite Ha | by rewrite Ht |].
    unfold thread_of, declared_now. cbn. rewrite (feedback_boost_history _ p0 intent); [done|]. cbn. congruence.
Qed.

Lemma async_declared env agent intent cids budget p ds :
  declared_ok p ds -> fresh_id (de_id env) p -> ds !! de_id env = None ->
  declared_ok (prefetch_async to_lowercase env agent intent cids budget p).2
    (<[de_id env := declared_now agent intent cids budget true p]> ds).
Proof.
  intros Hok Hf Hd. unfold prefetch_async. set (p0 := with_rates _ _ p).
  pose proof (embed_and_lookup_registry env intent p0) as (Ha & _ & _ & Ht).
  pose proof (embed_and_lookup_history env intent p0) as Hq.
  destruct (embed_and_lookup env intent p0) as [[x|] q]; cbn [snd] in *.
  - eapply (registered_declared _ _ _ _ _ []); [exact Hok|done..| | |set_solver]; cbn; by rewrite ?Ha, ?Ht, ?app_nil_r.
  - eapply (registered_declared _ _ _ _ _ [_]); [exact Hok|done..| | |]; cbn [spawn insert_assembly with_threads with_assemblies pf_assemblies pf_tasks];
      [by rewrite Ha | by rewrite Ht |].
    unfold thread_of, declared_now. cbn. rewrite (feedback_boost_history _ p intent); [done|]. cbn. by rewrite Hq.
Qed.

Lemma complete_declared env agent intent next tags p ds :
  declared_ok p ds -> fresh_id (de_id env) p -> ds !! de_id env = None ->
  declared_ok (on_intent_complete to_lowercase env agent intent next tags p).2
    (match next_declared env agent intent next tags p with Some d => <[de_id env := d]> ds | None => ds end).
Proof.
  intros Hok Hf Hd. unfold on_intent_complete, next_declared.
  destruct (note_intent_complete _ _ _ _ _ _ _) as [[key|] st]; [|done]. cbn [mbind option_bind].
  unfold trigger_cognitive_prefetch. destruct (strategy_is_disabled _); [done|].
  destruct (IntentCache.lookup _ _ _ _) as [[a|] cache]; [done|]. cbn zeta.
  set (q := with_cache cache _).
  pose proof (declare_declared env agent ("next: " +:+ key) [] 1024 q p ds Hok Hf Hd eq_refl) as Hq.
  by destruct (declare_intent _ _ _ _ _ _ q).
Qed.

(** *** Reachable prefetchers *)

Definition run_ok (r : PrefetchRun) : Prop :=
  prefetch_ok (run_dead r) (run_prefetcher r) /\ declared_ok (run_prefetcher r) (run_declared r).

Lemma prefetch_step_ok x y : prefetch_step x y -> run_ok x -> run_ok y.
Proof.
  destruct 1; intros [Hok Hd]; cbn [run_dead run_prefetcher run_declared] in *; split; cbn [run_dead run_prefetcher run_declared].
  - by apply declare_ok.
  - by apply declare_declared.
  - by apply async_ok.
  - by apply async_declared.
  - by apply complete_ok.
  - by apply complete_declared.
  - by eapply end_task_ok.
  - eapply nothing_new_declared; [by eapply end_nothing_new | done].
  - by apply finish_ok.
  - eapply nothing_new_declared; [apply finish_nothing_new | done].
  - by apply dies_ok.
  - eapply nothing_new_declared; [|done]. split; [eauto | apply delete_subset].
  - by apply cancel_ok.
  - eapply nothing_new_declared; [apply cancel_nothing_new | done].
  - by apply fetch_ok.
  - eapply nothing_new_declared; [apply fetch_nothing_new | done].
  - by apply evict_ok.
  - eapply nothing_new_declared; [apply evict_nothing_new | done].
  - done.
  - done.
  - done.
  - done.
  - by eapply same_registry_ok; [apply warm_registry|].
  - eapply nothing_new_declared; [by apply nothing_new_same, warm_registry | done].
  - done.
  - done.
Qed.

Lemma prefetcher_new_ok : prefetch_ok [] prefetcher_new.
Proof.
  split; cbn [prefetcher_new pf_assemblies pf_allocation_cache pf_handles pf_tasks fmap list_fmap].
  - intros id a x. by rewrite lookup_empty.
  - intros id a. by rewrite lookup_empty.
  - apply NoDup_nil_2.
  - by intros id ?%not_elem_of_nil.
  - by intros id a ?%not_elem_of_nil.
  - intros id h. by rewrite lookup_empty.
Qed.

Lemma prefetch_reachable_ok r : prefetch_reachable r -> run_ok r.
Proof.
  intros (w0 & Hr). apply (rtc_ind_r (R := prefetch_step) run_ok (mkRun w0 prefetcher_new ∅ [])); [ | | done].
  - split; [apply prefetcher_new_ok|]. split; cbn [run_prefetcher prefetcher_new pf_assemblies pf_tasks].
    + intros id a. by rewrite lookup_empty.
    + by intros task ?%not_elem_of_nil.
  - intros y z _ Hyz IH. by eapply prefetch_step_ok.
Qed.

(** ** What a fetch answers *)

(** The answer as a function of what is published and of the owner's assembly. *)
Definition fetch_answer (p : IntentPrefetcher) (agent id : string) : option (result FetchError BudgetAllocation) :=
  match pf_allocation_cache p !! id with
  | Some x => Some (Ok x)
  | None =>
      a ← pf_assemblies p !! id;
      if str_eqb (as_agent_id a) agent then
        match as_state a with
        | Asm_Pending => Some (Err Fetch_InProgress)
        | Asm_Failed e => Some (Err (Fetch_Failed e))
        | _ => None
        end
      else None
  end.

Lemma fetch_answers r agent id :
  prefetch_reachable r -> (fetch_assembled_context agent id (run_prefetcher r)).1 = fetch_answer (run_prefetcher r) agent id.
Proof.
  intros [Hok _]%prefetch_reachable_ok. set (p := run_prefetcher r) in *. unfold fetch_assembled_context, fetch_answer.
  destruct (pf_allocation_cache p !! id) as [x|] eqn:Hx; [done|].
  destruct (pf_assemblies p !! id) as [a|] eqn:Ha; [|done]. cbn [mbind option_bind].
  destruct (str_eqb (as_agent_id a) agent); [|done]. cbn [negb]. destruct (as_state a) as [|x| | | |] eqn:Hs; try done.
  pose proof (ok_ready _ _ _ _ _ Hok id a x Ha Hs). congruence.
Qed.

(** ** Delivery *)

Lemma assemble_fits env candidates budget s :
  (0 <= budget <= u64_max)%Z -> (forall c, c ∈ candidates -> loadable (stored s) (cc_cid c)) ->
  exists x s', assemble env candidates budget s = Some (x, s') /\
    lc_cid <$> ba_items x `sublist_of` cc_cid <$> candidates /\ (0 <= ba_total_tokens x <= budget)%Z.
Proof.
  intros Hb Hl. destruct (assemble_loop_ok env candidates budget [] s) as (items & s' & He & Hsub & Hall & Hsum); [lia|done|].
  unfold assemble. rewrite He. eexists _, _. split; [done|]. cbn [ba_items ba_total_tokens app].
  rewrite total_tokens_sum by (done || lia). pose proof (sum_nonneg _ Hall). split; [done | lia].
Qed.

(** What a declaration recalls: its own identifiers, with a handle, and else those the cognitive loop adds. *)
Definition declared_cids (env : TaskEnv) (d : Declaration) : list string :=
  if dc_has_handle d then dc_related_cids d else merge_recommended (te_recommended env) (dc_related_cids d).
Definition declared_recall (env : TaskEnv) (d : Declaration) (w : World) : result RecallError (list ContextCandidate) :=
  multi_path_recall to_lowercase debug_event (te_recall env) (wo_sources w) (dc_intent d) (declared_cids env d).
Definition declared_candidates (d : Declaration) (candidates : list ContextCandidate) : list ContextCandidate :=
  boost_candidates (dc_feedback_boost d) candidates.

Lemma finishing_fetch agent id (b : bool) l p :
  fetch_assembled_context agent id (if b then with_finishing l p else p) =
  let x := fetch_assembled_context agent id p in (x.1, if b then with_finishing l x.2 else x.2).
Proof.
  destruct b; [|by destruct (fetch_assembled_context _ _ _)]. unfold fetch_assembled_context. cbn [with_finishing pf_allocation_cache pf_assemblies].
  destruct (pf_allocation_cache p !! id); destruct (pf_assemblies p !! id) as [a|]; try done; [by destruct (as_state a)|].
  destruct (negb _); [done|]. by destruct (as_state a).
Qed.

(** The thread of a declaration ends in the registry [p], where its assembly is. *)
Lemma declared_ends env i w p id d a :
  pf_tasks p !! i = Some (thread_of d id) -> pf_assemblies p !! id = Some a -> pf_allocation_cache p !! id = None ->
  (forall candidates x loader, declared_recall env d w = Ok candidates ->
     assemble (te_loads env) (declared_candidates d candidates) (dc_budget_tokens d) (wo_loader w) = Some (x, loader) ->
     exists w' p', end_task to_lowercase debug_event env i w p = Some (w', p') /\
       forall agent, (fetch_assembled_context agent id p').1 = Some (Ok x)) /\
  (forall e, declared_recall env d w = Err e ->
     exists w' p', end_task to_lowercase debug_event env i w p = Some (w', p') /\
       (fetch_assembled_context (as_agent_id a) id p').1 = Some (Err (Fetch_Failed e))).
Proof.
  intros Hi Ha Hun. unfold end_task. rewrite Hi. cbn [mbind option_bind]. unfold run_prefetch.
  cbn [thread_of tk_has_handle tk_assembly_id tk_intent tk_related_cids tk_budget_tokens tk_feedback_boost with_threads pf_assemblies].
  fold (declared_cids env d). fold (declared_recall env d w). rewrite Ha. split.
  - intros candidates x loader -> Hx. unfold declared_candidates in Hx. rewrite Hx. cbn [mbind option_bind]. eexists _, _. split; [done|].
    intros agent. rewrite finishing_fetch. cbn [fst]. unfold fetch_assembled_context.
    cbn [with_assemblies with_allocations pf_allocation_cache]. by rewrite lookup_insert_eq.
  - intros e ->. cbn [mbind option_bind]. eexists _, _. split; [done|]. rewrite finishing_fetch. cbn [fst].
    unfold fetch_assembled_context. cbn [with_assemblies with_threads pf_allocation_cache pf_assemblies].
    rewrite Hun, lookup_insert_eq. cbn. unfold str_eqb. by rewrite bool_decide_true.
Qed.

(** C35: an assembly is the one of a declaration that was made: of its agent,
    intent and budget.  As long as it waits, a thread runs for it with the intent,
    the related identifiers, the budget and the feedback of that declaration,
    unless its thread died before it could take the registry; nothing is
    published yet.  When that thread ends, in whatever state the rest of the kernel
    is then, and the recall of the declared intent succeeds on candidates that load
    without a panic, the declaring agent fetches items of the recalled candidates,
    in their order, whose tokens are within the declared budget; when the recall
    fails, it is told the failure.  (A registry whose lock a panic has poisoned is
    not reachable here.) *)
Theorem declared_intents_are_delivered r id a :
  prefetch_reachable r -> pf_assemblies (run_prefetcher r) !! id = Some a ->
  let p := run_prefetcher r in
  exists d, run_declared r !! id = Some d /\ registered a d /\
    (as_state a = Asm_Pending -> id ∉ run_dead r -> pf_allocation_cache p !! id = None /\
       exists i, pf_tasks p !! i = Some (thread_of d id) /\
       forall env w,
         (forall candidates, declared_recall env d w = Ok candidates -> (0 <= dc_budget_tokens d <= u64_max)%Z ->
            (forall c, c ∈ declared_candidates d candidates -> loadable (stored (wo_loader w)) (cc_cid c)) ->
            exists w' q x, end_task to_lowercase debug_event env i w p = Some (w', q) /\
              (fetch_assembled_context (dc_agent d) id q).1 = Some (Ok x) /\
              lc_cid <$> ba_items x `sublist_of` cc_cid <$> declared_candidates d candidates /\
              (0 <= ba_total_tokens x <= dc_budget_tokens d)%Z) /\
         (forall e, declared_recall env d w = Err e ->
            exists w' q, end_task to_lowercase debug_event env i w p = Some (w', q) /\
              (fetch_assembled_context (dc_agent d) id q).1 = Some (Err (Fetch_Failed e)))).
Proof.
  intros [Hok [Hr Ht]]%prefetch_reachable_ok Ha p. fold p in Hok, Hr, Ht, Ha. destruct (Hr id a Ha) as (d & Hd & Hreg).
  exists d. split_and!; [done..|]. intros Hs Hdead.
  pose proof (ok_pending _ _ _ _ _ Hok id a Ha Hs) as [Hin|?]%elem_of_app; [|done].
  pose proof (ok_unpublished _ _ _ _ _ Hok id Hin) as Hun. split; [done|]. apply list_elem_of_fmap in Hin as (task & -> & Hin).
  destruct (Ht task Hin) as (d' & Hd' & Htask). assert (d' = d) as -> by congruence.
  apply list_elem_of_lookup in Hin as [i Hi]. exists i. set (id := tk_assembly_id task) in *. rewrite Htask in Hi. split; [done|].
  intros env w. destruct (declared_ends env i w p id d a Hi Ha Hun) as [Hgood Hbad]. destruct Hreg as [Hagent _]. split.
  - intros candidates Hrec Hb Hl. destruct (assemble_fits (te_loads env) _ _ (wo_loader w) Hb Hl) as (x & loader & Hx & Hsub & Htot).
    destruct (Hgood candidates x loader Hrec Hx) as (w' & q & He & Hf). exists w', q, x. done.
  - intros e Hrec. destruct (Hbad e Hrec) as (w' & q & He & Hf). exists w', q. by rewrite <-Hagent.
Qed.

(** A declaration that is not answered from the cache waits, with its own assembly. *)
Lemma declaration_is_registered env agent intent cids budget p :
  exists state, pf_assemblies (declare_intent to_lowercase env agent intent cids budget p).2 !! de_id env =
    Some (mkAssembly (de_id env) agent intent budget state (de_now env)) /\
    match (embed_and_lookup env intent p).1 with Some x => state = Asm_Ready x | None => state = Asm_Pending end.
Proof.
  unfold declare_intent. destruct (embed_and_lookup env intent p) as [[x|] q]; cbn [fst snd]; eexists;
    (split; [apply lookup_insert_eq | done]).
Qed.

(** A cancelled prefetch is delivered all the same: its thread publishes what it
    assembled, and every agent can fetch it. *)
Lemma cancelled_is_delivered env i w p id d a candidates x loader :
  pf_tasks p !! i = Some (thread_of d id) -> pf_assemblies p !! id = Some a -> as_state a = Asm_Pending ->
  pf_allocation_cache p !! id = None -> declared_recall env d w = Ok candidates ->
  assemble (te_loads env) (declared_candidates d candidates) (dc_budget_tokens d) (wo_loader w) = Some (x, loader) ->
  (cancel id p).1 = true /\
  exists w' q, end_task to_lowercase debug_event env i w (cancel id p).2 = Some (w', q) /\
    forall agent, (fetch_assembled_context agent id q).1 = Some (Ok x).
Proof.
  intros Hi Ha Hs Hun Hrec Hx. unfold cancel. rewrite Ha, Hs. split; [done|].
  cbn [snd]. set (q := with_assemblies _ p).
  destruct (declared_ends env i w q id d (with_state Asm_Cancelled a)) as [Hgood _]; [done | apply lookup_insert_eq | done | by eapply Hgood].
Qed.

(** ** Who fetches, what a handle says *)

(** Once a result is published, every agent gets it, again and again. *)
Lemma fetch_ignores_owner agent other id p x :
  pf_allocation_cache p !! id = Some x ->
  (fetch_assembled_context agent id p).1 = Some (Ok x) /\
  (fetch_assembled_context other id (fetch_assembled_context agent id p).2).1 = Some (Ok x).
Proof.
  intros Hx. assert (Hf : forall a q, pf_allocation_cache q !! id = Some x -> (fetch_assembled_context a id q).1 = Some (Ok x))
    by (intros a q Hq; unfold fetch_assembled_context; by rewrite Hq).
  split; [by apply Hf|]. apply Hf. unfold fetch_assembled_context. rewrite Hx. cbn [snd].
  destruct (pf_assemblies p !! id) as [a|]; [|done]. by destruct (as_state a).
Qed.

(** Eviction does not remove published results. *)
Lemma evict_keeps_allocations now p : pf_allocation_cache (evict_stale now p) = pf_allocation_cache p.
Proof. done. Qed.

(** A handle never counts as done. *)
Lemma handles_never_done r id h :
  prefetch_reachable r -> pf_handles (run_prefetcher r) !! id = Some h -> is_done h = false.
Proof.
  intros [Hok _]%prefetch_reachable_ok Hh. unfold is_done.
  destruct (ok_handles _ _ _ _ _ Hok id h Hh) as [-> |[(-> & _)| ->]]; done.
Qed.

(** The handle stays as it is when its thread finds the assembly evicted: who
    awaits it waits for ever. *)
Lemma evicted_handle_waits i p task :
  pf_finishing p !! i = Some task -> pf_assemblies p !! tk_assembly_id task = None ->
  pf_handles (finish_task i p) = pf_handles p.
Proof. intros Hi Hnone. unfold finish_task, update_handle. rewrite Hi. cbn [with_finishing pf_assemblies]. by rewrite Hnone. Qed.

(** And when somebody fetched what the thread published before it looked. *)
Lemma fetched_handle_waits i p task agent x a :
  pf_finishing p !! i = Some task -> pf_assemblies p !! tk_assembly_id task = Some a -> as_state a = Asm_Ready x ->
  pf_allocation_cache p !! tk_assembly_id task = Some x ->
  pf_handles (finish_task i (fetch_assembled_context agent (tk_assembly_id task) p).2) = pf_handles p.
Proof.
  intros Hi Ha Hs Hx. unfold fetch_assembled_context. rewrite Hx, Ha, Hs. cbn [snd].
  unfold finish_task, update_handle. cbn [with_assemblies pf_finishing]. rewrite Hi. cbn [with_finishing with_assemblies pf_assemblies].
  by rewrite lookup_insert_eq.
Qed.
End props.

(** ** Files *)

Section files.
Context `{HashIter}.
Variables (entries_to : list CachedAssembly -> option string) (entries_from : string -> option (list CachedAssembly)).
Variables (profiles_to : gmap string AgentProfile -> option string) (profiles_from : string -> option (gmap string AgentProfile)).
Variables (feedback_to : list IntentFeedbackEntry -> option string) (feedback_from : string -> option (list IntentFeedbackEntry)).
Variables (totals_to : gmap string SessionCostSummary -> option string) (totals_from : string -> option (gmap string SessionCostSummary)).
Hypothesis entries_read_back : forall l json, entries_to l = Some json -> entries_from json = Some l.
Hypothesis profiles_read_back : forall l json, profiles_to l = Some json -> profiles_from json = Some l.
Hypothesis feedback_read_back : forall l json, feedback_to l = Some json -> feedback_from json = Some l.

(** A saved state that is restored into a new prefetcher has the profiles, the
    last feedback and the cached assemblies that have not expired. *)
Lemma saved_state_restored io p files files' now :
  prefetch_persist entries_to profiles_to feedback_to totals_to io p files = (true, files') ->
  let r := prefetch_restore entries_from profiles_from feedback_from totals_from now
             (mkRestoreIo true None true true true) files' prefetcher_new in
  r.1 = true /\ ps_profiles (pf_profile_store r.2) = ps_profiles (pf_profile_store p) /\
  pf_feedback_history r.2 = last_n DEFAULT_MAX_FEEDBACK_ENTRIES (pf_feedback_history p) /\
  ic_entries (pf_intent_cache r.2) =
    List.filter (fun e => negb (is_expired now DEFAULT_CACHE_TTL_MS e)) (ic_entries (pf_intent_cache p)).
Proof.
  unfold prefetch_persist, persist_to_dir, profiles_persist_to_dir, persist_feedback, atomic_write_bytes.
  destruct (pio_dir io); [|done]. cbn [negb].
  destruct (entries_to (ic_entries (pf_intent_cache p))) as [j1|] eqn:E1; [|done]. destruct (pio_cache io); [done|].
  destruct (profiles_to (ps_profiles (pf_profile_store p))) as [j2|] eqn:E2; [|done].
  destruct (io_write (pio_profiles io) && io_rename (pio_profiles io)); [|done].
  destruct (feedback_to (pf_feedback_history p)) as [j3|] eqn:E3; [|done].
  destruct (io_write (pio_feedback io) && io_rename (pio_feedback io)); [|done].
  intros [= <-]. cbv zeta. unfold prefetch_restore, restore_from_dir, profiles_restore_from_dir.
  cbn [rio_dir rio_cache rio_profiles rio_feedback pff_cache pff_profiles pff_feedback negb].
  rewrite (entries_read_back _ _ E1), (profiles_read_back _ _ E2), (feedback_read_back _ _ E3).
  cbn [fst snd restore_costs with_costs with_history with_profiles with_cache pf_profile_store pf_feedback_history pf_intent_cache ps_profiles].
  split_and!; [done | | done | done]. cbn [prefetcher_new pf_profile_store profile_store_new ps_profiles]. by rewrite map_union_empty.
Qed.
End files.

(** ** At a concrete prefetcher *)

Section example.
#[local] Existing Instances plain_platform plain_objects plain_log.

Definition empty_index : index_state.
Proof. exists ∅. intros cid e. by rewrite lookup_empty. Defined.
Definition some_world : World :=
  mkWorld (mkSources empty_index None (event_bus_new 0)) (mkLoaderState (mkLoader "root" ∅ false (cas_run 0 []) ∅) 0).
Definition some_declare : DeclareEnv := mkDeclareEnv "id-1" 1 (Err (ServerUnavailable "down")) "stub".
Definition some_load : ContextLoader.LoadEnv := ContextLoader.mkLoadEnv (mkAccessIo 2 id None) None true (fun _ _ => Err "down") None true.
Definition some_task_env : TaskEnv := mkTaskEnv [] (mkRecallEnv (Ok []) true true true) (fun _ => some_load) None 2.
(** Alice declared an intent. *)
Definition some_prefetcher : IntentPrefetcher := (declare_intent to_lowercase some_declare "alice" "fix tests" [] 100 prefetcher_new).2.

Definition some_declared : Declaration := mkDeclaration "alice" "fix tests" [] 100 ∅ false.
Definition some_run : PrefetchRun := mkRun some_world some_prefetcher {["id-1" := some_declared]} [].

Lemma some_run_reachable : prefetch_reachable to_lowercase (fun _ => "event") some_run.
Proof.
  exists some_world. apply rtc_once.
  apply (step_declare to_lowercase (fun _ => "event") some_declare "alice" "fix tests" [] 100 some_world prefetcher_new ∅ []); [|apply lookup_empty].
  split_and!; try apply lookup_empty. by intros ?%not_elem_of_nil.
Qed.

Lemma declared_intents_are_delivered_witness :
  exists i w' q x,
    end_task to_lowercase (fun _ => "event") some_task_env i some_world some_prefetcher = Some (w', q) /\
    (fetch_assembled_context "alice" "id-1" q).1 = Some (Ok x) /\ (ba_total_tokens x <= 100)%Z.
Proof.
  destruct (declared_intents_are_delivered to_lowercase (fun _ => "event") some_run "id-1"
    (mkAssembly "id-1" "alice" "fix tests" 100 Asm_Pending 1) some_run_reachable) as (d & Hd & _ & Hp); [by vm_compute|].
  injection Hd as <-. destruct Hp as (_ & i & _ & Hend); [done | by intros ?%not_elem_of_nil|].
  destruct (Hend some_task_env some_world) as [Hgood _].
  destruct (Hgood []) as (w' & q & x & He & Hf & _ & _ & Hx); [by vm_compute | by vm_compute | by intros c ?%not_elem_of_nil|].
  exists i, w', q, x. done.
Defined.

(** Bob fetches what was assembled for Alice. *)
Lemma other_agent_fetches :
  (r ← end_task to_lowercase (fun _ => "event") some_task_env 0 some_world some_prefetcher;
   Some (opt_is_some ((fetch_assembled_context "bob" "id-1" r.2).1))) = Some true /\
  (fetch_assembled_context "bob" "id-1" some_prefetcher).1 = None.
Proof. by vm_compute. Qed.
End example.
