(* ===== verification/IntentExecutor.v ===== *)
(** * Execution of plans ([src/src/kernel/ops/intent_executor.rs])

    The executor runs the steps of a plan in the order of [optimized_sort],
    skips a step whose dependencies did not succeed, learns the time of each kind
    of step and what the agent used, and asks for a prefetch of the predicted
    next intent.  The loop is written for any way of running a step; the
    executor's own is [execute_step], which works on the kernel's objects. *)

From stdpp Require Import base gmap strings list sorting.
From S2P Require Import Prelude Wire MemoryModel LedgerModel CircuitBreaker EventBus Permission Text Float32 ObjectStorage ContextLoader ContextProps ApiRequest GraphModel Graph GraphStore CostLedger Profiles SearchIndex SemanticFS KernelFS IntentPlans Prefetch.

(** ** Statistics *)

Record ExecutionStats := mkExecStats {
  xs_avg_times : gmap string Z;
  xs_counts : gmap string Z;
  xs_total_times : gmap string Z;
}.
Definition stats_new : ExecutionStats := mkExecStats ∅ ∅ ∅.

(** The count is 32 bits wide and wraps; [None] is the panic of the division by zero. *)
Definition stats_record (operation_type : string) (duration_ms : Z) (s : ExecutionStats) : option ExecutionStats :=
  let count := u32_add (default 0%Z (xs_counts s !! operation_type)) 1 in
  let total := u64_add (default 0%Z (xs_total_times s !! operation_type)) duration_ms in
  if (count =? 0)%Z then None
  else Some (mkExecStats (<[operation_type := (total / count)%Z]> (xs_avg_times s))
               (<[operation_type := count]> (xs_counts s)) (<[operation_type := total]> (xs_total_times s))).
Definition get_avg_time (s : ExecutionStats) (operation_type : string) : option Z := xs_avg_times s !! operation_type.
Definition operation_types (s : ExecutionStats) : list string := keys (xs_avg_times s).
Definition get_avg_times_map (s : ExecutionStats) : gmap string Z := xs_avg_times s.

(** ** Results *)

(** The text of an error names its cause. *)
Inductive StepFailure : Type :=
  | Failure_Object (e : ObjectError)
  | Failure_Read (e : FsError)
  | Failure_Join
  | Failure_CallNotImplemented
  | Failure_Blocked.

Record ExecStepResult := mkExecResult {
  er_step_id : string;
  er_success : bool;
  er_output_cids : list string;
  er_tokens_used : Z;
  er_error : option StepFailure;
  er_duration_ms : option Z;
}.
Definition failed_result (id : string) (e : StepFailure) : ExecStepResult := mkExecResult id false [] 0 (Some e) None.
Definition with_duration (d : Z) (r : ExecStepResult) : ExecStepResult :=
  mkExecResult (er_step_id r) (er_success r) (er_output_cids r) (er_tokens_used r) (er_error r) (Some d).

Record IntentExecutionResult := mkExecution {
  ix_intent_id : string;
  ix_success : bool;
  ix_steps_completed : nat;
  ix_steps_failed : nat;
  ix_tokens_used : Z;
  ix_results : gmap string ExecStepResult;
}.

Definition can_execute_step (step : IntentStep) (completed : gset string) : bool :=
  forallb (fun dep => bool_decide (dep ∈ completed)) (step_dependencies step).

(** ** The loop *)

Section executor.
Context {E K : Type}.
Variable run_step : E -> IntentStep -> K -> ExecStepResult * K.

(** What one round draws: what running the step draws, the clock of the profile
    and the time that passed. *)
Record RoundEnv := mkRound { xe_step : E; xe_now : Z; xe_duration : Z }.

(** The counts are at most the number of steps and are kept as [nat]. *)
Record ExecState := mkExec {
  ex_results : gmap string ExecStepResult;
  ex_completed : gset string;
  ex_tokens_used : Z;
  ex_steps_completed : nat;
  ex_steps_failed : nat;
  ex_stats : ExecutionStats;
  ex_profiles : AgentProfileStore;
  ex_kernel : K;
}.
Definition exec_start (stats : ExecutionStats) (profiles : AgentProfileStore) (k : K) : ExecState :=
  mkExec ∅ ∅ 0 0 0 stats profiles k.

Definition block_step (step : IntentStep) (s : ExecState) : ExecState :=
  mkExec (<[step_id step := mkExecResult (step_id step) false [] 0 (Some Failure_Blocked) (Some 0%Z)]> (ex_results s))
    (ex_completed s) (ex_tokens_used s) (ex_steps_completed s) (S (ex_steps_failed s)) (ex_stats s) (ex_profiles s) (ex_kernel s).

Definition execute_one (env : RoundEnv) (agent_id : string) (step : IntentStep) (s : ExecState) : option ExecState :=
  if negb (can_execute_step step (ex_completed s)) then Some (block_step step s) else
  let '(r, k) := run_step (xe_step env) step (ex_kernel s) in
  let profiles := if er_success r && negb (match er_output_cids r with [] => true | _ => false end)
                  then store_record_cid_usage (xe_now env) agent_id (er_output_cids r) (ex_profiles s) else ex_profiles s in
  stats ← stats_record (op_type (step_operation step)) (xe_duration env) (ex_stats s);
  Some (mkExec (<[step_id step := with_duration (xe_duration env) r]> (ex_results s))
          (if er_success r then {[step_id step]} ∪ ex_completed s else ex_completed s)
          (u64_add (ex_tokens_used s) (er_tokens_used r))
          (if er_success r then S (ex_steps_completed s) else ex_steps_completed s)
          (if er_success r then ex_steps_failed s else S (ex_steps_failed s))
          stats profiles k).

(** [for &step_idx in &sorted_indices] with [plan.steps[step_idx]]; the round [i] draws [env i]. *)
Fixpoint execute_steps (env : nat -> RoundEnv) (agent_id : string) (i : nat) (steps : list IntentStep) (s : ExecState)
    : option ExecState :=
  match steps with
  | [] => Some s
  | step :: steps => s ← execute_one (env i) agent_id step s; execute_steps env agent_id (S i) steps s
  end.

(** [s.split(':').next()] *)
Fixpoint before_colon (s : string) : string :=
  match s with
  | EmptyString => EmptyString
  | String c s => if (byte_of c =? 58)%N then EmptyString else String c (before_colon s)
  end.

Context `{HashIter}.
Variable to_lowercase : string -> string.

(** The last result is the prefetch that the completion of the intent triggers. *)
Definition trigger_predictive_prefetch (now : Z) (intent_id agent_id : string) (st : AgentProfileStore)
    : AgentProfileStore * option (string * string) :=
  let current_tag := before_colon intent_id in
  let '(profile, st) := get_or_create now agent_id st in
  match predict_next profile current_tag with
  | Some next_tag =>
      let '(predicted, st) := note_intent_complete to_lowercase now agent_id current_tag (Some next_tag) [] st in
      (st, (fun key => (agent_id, key)) <$> predicted)
  | None => (st, None)
  end.

Record AutonomousExecutor := mkExecutor { au_kernel : K; au_profiles : AgentProfileStore; au_stats : ExecutionStats }.

(** The last component is the prefetch that was triggered. *)
Definition execute_plan (env : nat -> RoundEnv) (now : Z) (p : IntentPlan) (agent_id : string) (x : AutonomousExecutor)
    : option (IntentExecutionResult * AutonomousExecutor * option (string * string)) :=
  order ← optimized_sort (get_avg_times_map (au_stats x)) p;
  match order with
  | Err _ => Some (mkExecution (plan_intent_id p) false 0 0 0 ∅, x, None)
  | Ok indices =>
      s ← execute_steps env agent_id 0 (omap (M := list) (fun i => plan_steps p !! i) indices)
            (exec_start (au_stats x) (au_profiles x) (au_kernel x));
      let profiles := if bool_decide (ex_results s = ∅) then ex_profiles s
        else (record_intent_complete now agent_id (Some (before_colon (plan_intent_id p))) None (ex_profiles s)).2 in
      let result := mkExecution (plan_intent_id p) (ex_steps_failed s =? 0)%nat (ex_steps_completed s) (ex_steps_failed s)
        (ex_tokens_used s) (ex_results s) in
      let '(profiles, request) := trigger_predictive_prefetch now (plan_intent_id p) agent_id profiles in
      Some (result, mkExecutor (ex_kernel s) profiles (ex_stats s), request)
  end.
End executor.
Arguments mkRound {_}.

(** ** Running a step on the kernel *)

Section kernel.
Context `{Platform} `{!Serde AIObject} `{!Serde (gmap string AccessEntry)}.
Context `{HashIter} `{GraphCodec} `{SemanticSearch} `{Bm25Engine} `{Broadcast}.
Variable event_to_string : SequencedEvent -> option string.
(** The ranked search of the file system. *)
Variable search_with_filter : FsEnv -> string -> nat -> SearchFilter -> SemanticFS -> list SearchResult * SemanticFS.

(** What a step draws: its kernel calls (a batch makes several), and what a
    panicking task leaves of the kernel. *)
Record StepEnv := mkStepEnv {
  xv_call : KernelFsEnv;
  xv_calls : nat -> KernelFsEnv;
  xv_after_panic : FsKernel -> FsKernel;
}.

Definition kernel_get_object (env : KernelFsEnv) (cid agent_id tenant_id : string) (k : FsKernel)
    : result FsError AIObject * FsKernel :=
  let '(r, cas) := get_object (kfe_now env) (fe_access (kfe_work env)) (fe_read (kfe_work env) cid)
                     (kf_permissions k) (fs_cas (kf_fs k)) cid agent_id tenant_id in
  (r, with_fs (with_cas cas (kf_fs k)) k).

Definition semantic_search_with_time (env : KernelFsEnv) (query agent_id tenant_id : string) (limit : nat)
    (require_tags exclude_tags : list string) (since until : option Z) (k : FsKernel)
    : result ObjectError (list SearchResult) * FsKernel :=
  match allow env k (context_new agent_id tenant_id) Action_Read with
  | Err e => (Err e, k)
  | Ok _ =>
      let filter := with_access agent_id tenant_id (can_read_any (kfe_now env) (kf_permissions k) agent_id)
                      (mkFilter require_tags exclude_tags None since until None None) in
      let '(results, fs) := search_with_filter (kfe_work env) query limit filter (kf_fs k) in
      (Ok results, with_fs fs k)
  end.
Definition kernel_semantic_search (env : KernelFsEnv) (query agent_id tenant_id : string) (limit : nat)
    (require_tags exclude_tags : list string) (k : FsKernel) : result ObjectError (list SearchResult) * FsKernel :=
  semantic_search_with_time env query agent_id tenant_id limit require_tags exclude_tags None None k.

Definition execute_read (env : StepEnv) (cid id : string) (k : FsKernel) : ExecStepResult * FsKernel :=
  let '(r, k) := kernel_get_object (xv_call env) cid "system" "default" k in
  (match r with
   | Ok obj => mkExecResult id true [cid] (Z.of_nat (String.length (ob_data obj))) None None
   | Err e => failed_result id (Failure_Read e)
   end, k).

Definition execute_search (env : StepEnv) (query : string) (tags : list string) (id : string) (k : FsKernel)
    : ExecStepResult * FsKernel :=
  let '(r, k) := kernel_semantic_search (xv_call env) query "system" "default" 10 tags [] k in
  (match r with
   | Ok results => mkExecResult id true (rs_cid <$> results) 0 None None
   | Err e => failed_result id (Failure_Object e)
   end, k).

Definition execute_call (tool : string) (params : Json) (id : string) (k : FsKernel) : ExecStepResult * FsKernel :=
  (failed_result id Failure_CallNotImplemented, k).

(** A panic of the blocking task is a join error. *)
Definition execute_create (env : StepEnv) (content : string) (tags : list string) (id : string) (k : FsKernel)
    : ExecStepResult * FsKernel :=
  match semantic_create event_to_string (xv_call env) content tags "system" None ObjectScope_Shared k with
  | None => (failed_result id Failure_Join, xv_after_panic env k)
  | Some (Ok cid, k) => (mkExecResult id true [cid] (Z.of_nat (String.length content)) None None, k)
  | Some (Err e, k) => (failed_result id (Failure_Object e), k)
  end.

Fixpoint read_each (env : nat -> KernelFsEnv) (i : nat) (cids : list string) (oks : list string) (used : Z) (k : FsKernel)
    : list string * Z * FsKernel :=
  match cids with
  | [] => (oks, used, k)
  | cid :: cids =>
      match kernel_get_object (env i) cid "system" "default" k with
      | (Ok obj, k) => read_each env (S i) cids (oks ++ [cid]) (u64_add used (Z.of_nat (String.length (ob_data obj)))) k
      | (Err _, k) => read_each env (S i) cids oks used k
      end
  end.
Definition execute_read_batch (env : StepEnv) (cids : list string) (id : string) (k : FsKernel) : ExecStepResult * FsKernel :=
  let '(oks, tokens, k) := read_each (xv_calls env) 0 cids [] 0 k in
  (mkExecResult id (negb (match oks with [] => true | _ => false end)) oks tokens None None, k).

Definition execute_step (env : StepEnv) (step : IntentStep) (k : FsKernel) : ExecStepResult * FsKernel :=
  match step_operation step with
  | Op_Read cid => execute_read env cid (step_id step) k
  | Op_Search query tags => execute_search env query tags (step_id step) k
  | Op_Call tool params => execute_call tool params (step_id step) k
  | Op_Create content tags => execute_create env content tags (step_id step) k
  | Op_ReadBatch cids => execute_read_batch env cids (step_id step) k
  end.
End kernel.

(** * What the executor guarantees

    A plan is run to its end: every step at most once and only after all its
    dependencies succeeded, with counts that add up.  When the order puts
    dependencies first, a step is blocked exactly by a dependency that did not
    succeed; an order that does not makes a plan fail whose steps all succeed.
    The predicted next intent is never prefetched, and steps read with the
    kernel's own authority. *)

Section loop.
Context {E K : Type}.
Variable run_step : E -> IntentStep -> K -> ExecStepResult * K.

(** A runner that also writes down what it ran and how it ended. *)
Definition traced (env : E) (step : IntentStep) (k : K * list (IntentStep * bool))
    : ExecStepResult * (K * list (IntentStep * bool)) :=
  let '(r, k') := run_step env step k.1 in (r, (k', k.2 ++ [(step, er_success r)])).

Definition untraced (s : ExecState (K := K * list (IntentStep * bool))) : ExecState (K := K) :=
  mkExec (ex_results s) (ex_completed s) (ex_tokens_used s) (ex_steps_completed s) (ex_steps_failed s)
    (ex_stats s) (ex_profiles s) (ex_kernel s).1.
Definition ran (s : ExecState (K := K * list (IntentStep * bool))) : list (IntentStep * bool) := (ex_kernel s).2.

Lemma execute_one_untraced env agent step s :
  untraced <$> execute_one traced env agent step s = execute_one run_step env agent step (untraced s).
Proof.
  unfold execute_one, traced. cbn [untraced ex_completed ex_kernel ex_stats]. destruct (negb _); [done|].
  destruct (run_step (xe_step env) step (ex_kernel s).1) as [r k]. by destruct (stats_record _ _ _).
Qed.

Lemma execute_steps_untraced env agent i steps s :
  untraced <$> execute_steps traced env agent i steps s = execute_steps run_step env agent i steps (untraced s).
Proof.
  revert i s. induction steps as [|step steps IH]; intros i s; cbn [execute_steps]; [done|].
  rewrite <-execute_one_untraced. destruct (execute_one traced (env i) agent step s) as [s1|]; [|done].
  cbn [mbind option_bind fmap option_fmap option_map]. apply IH.
Qed.

(** Every run comes after successful runs of its dependencies. *)
Definition runs_ok (log : list (IntentStep * bool)) : Prop :=
  prefix_ok (fun before x => forall dep, dep ∈ step_dependencies x.1 ->
    exists y, y ∈ before /\ step_id y.1 = dep /\ y.2 = true) log.

Record exec_ok (steps : list IntentStep) (s : ExecState (K := K * list (IntentStep * bool))) : Prop := {
  exec_runs : runs_ok (ran s);
  exec_once : (ran s).*1 `sublist_of` steps;
  exec_completed : forall id, id ∈ ex_completed s <-> exists y, y ∈ ran s /\ step_id y.1 = id /\ y.2 = true;
  exec_counts : ex_steps_completed s + ex_steps_failed s = length steps;
  exec_succeeded : ex_steps_completed s = length (List.filter snd (ran s));
}.

Lemma can_execute_spec step (completed : gset string) :
  can_execute_step step completed = true <-> forall dep, dep ∈ step_dependencies step -> dep ∈ completed.
Proof.
  unfold can_execute_step. rewrite forallb_forall. split.
  - intros Hf dep Hd%list_elem_of_In. apply Hf in Hd. by apply bool_decide_eq_true in Hd.
  - intros Hf dep Hd%list_elem_of_In. by apply bool_decide_eq_true, Hf.
Qed.

Lemma execute_one_ok env agent done step s s' :
  exec_ok done s -> execute_one traced env agent step s = Some s' -> exec_ok (done ++ [step]) s'.
Proof.
  intros [Hr Ho Hc Hn Hs]. unfold execute_one. destruct (can_execute_step step (ex_completed s)) eqn:Hcan; cbn [negb].
  - unfold traced. destruct (run_step (xe_step env) step (ex_kernel s).1) as [r k].
    destruct (stats_record _ _ _) as [stats|]; [|done]. cbn [mbind option_bind]. intros [= <-].
    assert (Hin : forall y, y ∈ ran s ++ [(step, er_success r)] <-> y ∈ ran s \/ y = (step, er_success r))
      by (intros y; by rewrite elem_of_app, list_elem_of_singleton).
    split; unfold ran in *; cbn [ex_kernel snd ex_completed ex_steps_completed ex_steps_failed].
    + apply prefix_ok_snoc. split; [done|]. intros dep Hd. by apply Hc, (proj1 (can_execute_spec _ _) Hcan).
    + rewrite fmap_app. cbn. by apply sublist_app.
    + intros id. setoid_rewrite Hin. destruct (er_success r); [rewrite elem_of_union, elem_of_singleton|]; rewrite Hc; naive_solver.
    + rewrite length_app. cbn. destruct (er_success r); lia.
    + rewrite List.filter_app, length_app, <-Hs. cbn. destruct (er_success r); cbn; lia.
  - intros [= <-]. split; unfold ran in *; cbn [block_step ex_kernel ex_completed ex_steps_completed ex_steps_failed];
      [done | | done | rewrite length_app; cbn; lia | done].
    etransitivity; [exact Ho | apply sublist_inserts_r, reflexivity].
Qed.

Lemma execute_steps_ok env agent steps : forall i done s s',
  exec_ok done s -> execute_steps traced env agent i steps s = Some s' -> exec_ok (done ++ steps) s'.
Proof.
  induction steps as [|step steps IH]; intros i done s s' Hok; cbn [execute_steps].
  - intros [= <-]. by rewrite app_nil_r.
  - destruct (execute_one traced (env i) agent step s) as [s1|] eqn:E1; [|done]. cbn [mbind option_bind].
    intros Hs. rewrite cons_middle, app_assoc. by eapply IH, Hs; eapply execute_one_ok.
Qed.

Lemma exec_start_ok stats profiles k : exec_ok [] (exec_start stats profiles (k, [])).
Proof.
  split; unfold ran; cbn; [apply prefix_ok_nil | done | | done | done].
  intros id. split; [set_solver|]. by intros (y & ?%not_elem_of_nil & _).
Qed.

(** ** No panic *)

(** [n] more executions do not wrap a count. *)
Definition counts_fit (n : nat) (s : ExecutionStats) : Prop :=
  forall op, (0 <= default 0 (xs_counts s !! op))%Z /\ (default 0 (xs_counts s !! op) + Z.of_nat n < u32_modulus)%Z.

Lemma counts_fit_weaken n m s : m <= n -> counts_fit n s -> counts_fit m s.
Proof. intros Hle Hf op. destruct (Hf op). split; [done | lia]. Qed.

Lemma stats_record_fits n op d s :
  counts_fit (S n) s -> exists s', stats_record op d s = Some s' /\ counts_fit n s'.
Proof.
  intros Hf. unfold stats_record. destruct (Hf op) as [H1 H2].
  assert (Hadd : u32_add (default 0%Z (xs_counts s !! op)) 1 = (default 0 (xs_counts s !! op) + 1)%Z)
    by (apply Z.mod_small; lia).
  rewrite Hadd. destruct (Z.eqb_spec (default 0%Z (xs_counts s !! op) + 1) 0); [lia|].
  eexists. split; [done|]. intros op'. cbn [xs_counts]. destruct (decide (op' = op)) as [-> |Hne].
  - rewrite lookup_insert_eq. cbn [default from_option id]. lia.
  - rewrite lookup_insert_ne by done. destruct (Hf op'). lia.
Qed.

Lemma execute_one_total env agent step n s :
  counts_fit (S n) (ex_stats s) ->
  exists s', execute_one run_step env agent step s = Some s' /\ counts_fit n (ex_stats s').
Proof.
  intros Hf. unfold execute_one. destruct (negb _).
  - eexists. split; [done|]. by eapply counts_fit_weaken; [|exact Hf]; lia.
  - destruct (run_step _ _ _) as [r k]. destruct (stats_record_fits n (op_type (step_operation step)) (xe_duration env) _ Hf)
      as (stats & -> & Hs). cbn [mbind option_bind]. by eexists.
Qed.

Lemma execute_steps_total env agent steps : forall i s,
  counts_fit (length steps) (ex_stats s) -> exists s', execute_steps run_step env agent i steps s = Some s'.
Proof.
  induction steps as [|step steps IH]; intros i s Hf; cbn [execute_steps]; [by eexists|].
  destruct (execute_one_total (env i) agent step (length steps) s Hf) as (s1 & -> & Hf1).
  cbn [mbind option_bind]. by apply IH.
Qed.
End loop.

(** ** A whole plan *)

Lemma omap_lookup_seq {A} (l : list A) : omap (fun i => l !! i) (seq 0 (length l)) = l.
Proof.
  induction l as [|x l IH] using rev_ind; [done|].
  rewrite length_app, Nat.add_1_r, seq_S, omap_app. cbn [omap list_omap Nat.add].
  rewrite list_lookup_middle by done. f_equal. rewrite <-IH at 2. apply list_omap_ext, Forall_Forall2_diag, Forall_forall.
  intros i Hi%elem_of_seq. by rewrite lookup_app_l by lia.
Qed.

Lemma omap_lookup_perm {A} (l : list A) order :
  order ≡ₚ seq 0 (length l) -> omap (fun i => l !! i) order ≡ₚ l.
Proof. intros Hp. etransitivity; [by apply omap_Permutation | by rewrite omap_lookup_seq]. Qed.

Section plan.
Context {E K : Type} `{HashIter}.
Variable run_step : E -> IntentStep -> K -> ExecStepResult * K.
Variable to_lowercase : string -> string.

Definition untraced_executor (x : AutonomousExecutor (K := K * list (IntentStep * bool))) : AutonomousExecutor (K := K) :=
  mkExecutor (au_kernel x).1 (au_profiles x) (au_stats x).

(** What a plan's result and its log say. *)
Record plan_run (p : IntentPlan) (res : IntentExecutionResult) (log : list (IntentStep * bool)) : Prop := {
  run_after_dependencies : runs_ok log;
  run_once : log.*1 ⊆+ plan_steps p;
  run_counted : ix_steps_completed res = length (List.filter snd log);
  run_executable : executable_plan (plan_steps p) ->
    ix_steps_completed res + ix_steps_failed res = length (plan_steps p) /\
    (ix_success res = true <-> ix_steps_completed res = length (plan_steps p));
  run_refused : ~ executable_plan (plan_steps p) -> log = [] /\ ix_success res = false;
}.

(** C34: Executing a plan ends, whatever running its steps does, as long as
    the 32-bit counts of the statistics do not wrap.  Every step runs at most
    once, and only after successful runs of all the steps it names as
    dependencies.  The steps reported as completed are the successful runs; in a
    plan that can be ordered every step is reported as completed or failed and
    the plan succeeds exactly when all are completed; in one that cannot, nothing
    runs. *)
Theorem steps_run_once_after_dependencies env now p agent k profiles stats :
  counts_fit (length (plan_steps p)) stats ->
  exists res x request,
    execute_plan (traced run_step) to_lowercase env now p agent (mkExecutor (k, []) profiles stats) = Some (res, x, request) /\
    execute_plan run_step to_lowercase env now p agent (mkExecutor k profiles stats) = Some (res, untraced_executor x, request) /\
    plan_run p res (au_kernel x).2.
Proof.
  intros Hfit. destruct (sort_decides p) as (r & Hr & Hexact).
  destruct (optimized_sort_spec (get_avg_times_map stats) p) as (r' & Hr' & Hopt). rewrite Hr in Hr'. injection Hr' as <-.
  unfold execute_plan. cbn [au_stats au_profiles au_kernel]. destruct r as [sorted|e].
  - destruct Hopt as (order & -> & Hperm & _). cbn [mbind option_bind].
    pose proof (omap_lookup_perm _ _ Hperm) as Hsteps. set (steps := omap _ order) in *.
    destruct (execute_steps_total (traced run_step) env agent steps 0 (exec_start stats profiles (k, []))) as [s Hs].
    { cbn [ex_stats exec_start]. by rewrite Hsteps. }
    pose proof (execute_steps_ok run_step env agent steps 0 [] _ s (exec_start_ok _ _ _) Hs) as [Hruns Honce _ Hcount Hsucc].
    pose proof (execute_steps_untraced run_step env agent 0 steps (exec_start stats profiles (k, []))) as Hproj.
    change (untraced (exec_start stats profiles (k, []))) with (exec_start stats profiles k) in Hproj.
    rewrite Hs in Hproj. cbn [fmap option_fmap option_map] in Hproj. rewrite Hs, <-Hproj.
    cbn [mbind option_bind untraced ex_results ex_profiles ex_steps_completed ex_steps_failed ex_tokens_used ex_stats ex_kernel].
    destruct (trigger_predictive_prefetch _ _ _ _ _) as [pf request]. do 3 eexists. split_and!; [done..|].
    cbn [au_kernel]. change (ex_kernel s).2 with (ran s). rewrite app_nil_l, Hsteps in *.
    split; cbn [ix_steps_completed ix_steps_failed ix_success]; [done | | done | |].
    + rewrite <-Hsteps. by apply sublist_submseteq.
    + intros _. split; [done|]. rewrite Nat.eqb_eq. lia.
    + intros Hn. destruct Hn. apply Hexact. by eexists.
  - rewrite Hopt. cbn [mbind option_bind]. do 3 eexists. split_and!; [done..|].
    split; cbn; [apply prefix_ok_nil | apply submseteq_nil_l | done | | done].
    intros [order [=]]%Hexact.
Qed.
End plan.

Definition always_succeeds (env : unit) (step : IntentStep) (k : unit) : ExecStepResult * unit :=
  (mkExecResult (step_id step) true [] 1 None None, k).
Definition no_time : nat -> RoundEnv (E := unit) := fun _ => mkRound tt 0 0.
Definition fresh_executor : AutonomousExecutor (K := unit) := mkExecutor tt (profile_store_new TagExtraction) stats_new.

Lemma fresh_counts_fit : counts_fit 3 stats_new.
Proof. intros op. unfold stats_new. cbn [xs_counts]. rewrite lookup_empty. cbn. split; [lia | done]. Qed.

Lemma steps_run_once_after_dependencies_witness :
  exists res x request,
    execute_plan (traced always_succeeds) to_lowercase no_time 0 chain_plan "alice"
      (mkExecutor (tt, []) (profile_store_new TagExtraction) stats_new) = Some (res, x, request) /\
    execute_plan always_succeeds to_lowercase no_time 0 chain_plan "alice" fresh_executor
      = Some (res, untraced_executor x, request) /\
    plan_run chain_plan res (au_kernel x).2.
Proof.
  exact (steps_run_once_after_dependencies always_succeeds to_lowercase no_time 0 chain_plan "alice" tt
    (profile_store_new TagExtraction) stats_new fresh_counts_fit).
Defined.

(** ** Blocked steps *)

(** Every step names as dependencies only steps before it. *)
Definition names_first (steps : list IntentStep) : Prop :=
  prefix_ok (fun before s => forall dep, dep ∈ step_dependencies s -> dep ∈ step_id <$> before) steps.

Section blocked.
Context {E K : Type}.
Variable run_step : E -> IntentStep -> K -> ExecStepResult * K.

Lemma execute_steps_app env agent l1 l2 : forall i s,
  execute_steps run_step env agent i (l1 ++ l2) s =
  (execute_steps run_step env agent i l1 s ≫= execute_steps run_step env agent (i + length l1) l2).
Proof.
  induction l1 as [|step l1 IH]; intros i s; cbn [execute_steps app length].
  - by rewrite Nat.add_0_r.
  - destruct (execute_one run_step (env i) agent step s) as [s1|]; [|done]. cbn [mbind option_bind].
    rewrite IH. by rewrite Nat.add_succ_r.
Qed.

(** A round only completes its own step. *)
Lemma execute_one_completed env agent step s s' :
  execute_one run_step env agent step s = Some s' ->
  ex_completed s ⊆ ex_completed s' /\ ex_completed s' ⊆ {[step_id step]} ∪ ex_completed s.
Proof.
  unfold execute_one. destruct (negb _); [by intros [= <-]; cbn; set_solver|].
  destruct (run_step _ _ _) as [r k]. destruct (stats_record _ _ _); [|done]. cbn [mbind option_bind]. intros [= <-].
  cbn [ex_completed]. destruct (er_success r); set_solver.
Qed.

Lemma execute_steps_completed env agent steps : forall i s s',
  execute_steps run_step env agent i steps s = Some s' ->
  ex_completed s ⊆ ex_completed s' /\ forall id, id ∈ ex_completed s' -> id ∈ ex_completed s \/ id ∈ step_id <$> steps.
Proof.
  induction steps as [|step steps IH]; intros i s s'; cbn [execute_steps]; [intros [= <-]; naive_solver|].
  destruct (execute_one run_step (env i) agent step s) as [s1|] eqn:E1; [|done]. cbn [mbind option_bind]. intros E2.
  apply execute_one_completed in E1 as [H1 H2]. apply IH in E2 as [H3 H4]. split; [set_solver|].
  intros id Hid. rewrite fmap_cons, elem_of_cons. destruct (H4 id Hid) as [Hid'|?]; [|auto].
  apply H2 in Hid'. set_solver.
Qed.

(** When dependencies come first and names are unique, the steps that may run
    are exactly those whose dependencies all succeed in the end. *)
Lemma blocked_exactly_by_dependencies env agent pre step post s0 s1 s' :
  ex_completed s0 = ∅ -> NoDup (step_id <$> pre ++ step :: post) -> names_first (pre ++ step :: post) ->
  execute_steps run_step env agent 0 pre s0 = Some s1 ->
  execute_steps run_step env agent 0 (pre ++ step :: post) s0 = Some s' ->
  can_execute_step step (ex_completed s1) = true <->
    forall dep, dep ∈ step_dependencies step -> dep ∈ ex_completed s'.
Proof.
  intros H0 Hnd Hfirst E1 E'. rewrite execute_steps_app, E1 in E'. cbn [mbind option_bind] in E'.
  apply execute_steps_completed in E' as [Hsub Hnew]. rewrite can_execute_spec. split; [set_solver|].
  intros Hall dep Hd. destruct (Hnew dep (Hall dep Hd)) as [?|Hlater]; [done|]. exfalso.
  rewrite fmap_app in Hnd. apply NoDup_app in Hnd as (_ & Hdisj & _).
  by apply (Hdisj dep); [apply (Hfirst pre step post eq_refl)|].
Qed.
End blocked.

(** ** What goes wrong *)

(** All steps of the chain succeed when they run, yet the plan fails: its last
    step is run first, and blocked. *)
Lemma chain_fails :
  (r ← execute_plan always_succeeds to_lowercase no_time 0 chain_plan "alice" fresh_executor;
   Some (ix_success r.1.1, ix_steps_completed r.1.1, ix_steps_failed r.1.1)) = Some (false, 2, 1) /\
  (s ← execute_steps always_succeeds no_time "alice" 0 (plan_steps chain_plan) (exec_start stats_new (profile_store_new TagExtraction) tt);
   Some (ex_steps_completed s, ex_steps_failed s)) = Some (3, 0).
Proof. by vm_compute. Qed.

(** Without known tags no key is found, so no prefetch is ever triggered. *)
Lemma no_predictive_prefetch `{HashIter} lower now intent_id agent st :
  (trigger_predictive_prefetch lower now intent_id agent st).2 = None.
Proof.
  unfold trigger_predictive_prefetch, get_or_create. destruct (predict_next _ _) as [next|]; [|done].
  unfold note_intent_complete. cbn [ps_strategy put_profile mbind option_bind].
  assert (Hn : forall s t, extract_tag_key lower s t [] = None) by (by intros []).
  by rewrite !Hn.
Qed.

Section authority.
Context `{Platform} `{!Serde AIObject} `{!Serde (gmap string AccessEntry)}.
Context `{HashIter} `{GraphCodec} `{SemanticSearch} `{Bm25Engine} `{Broadcast}.

(** A step reads any object of the namespace, whoever owns it and whoever asked
    for the plan. *)
Lemma steps_read_as_system env cid id k o :
  is_trusted (kf_permissions k) "system" = true ->
  get_raw (fs_cas (kf_fs k)) (fe_read (kfe_work (xv_call env)) cid) cid = Ok o ->
  om_tenant_id (ob_meta o) = DEFAULT_TENANT ->
  let r := (execute_read env cid id k).1 in
  er_success r = true /\ er_output_cids r = [cid].
Proof.
  intros Ht Ho Hns. cbv zeta. unfold execute_read, kernel_get_object, get_object, get. rewrite read_allowed, Ho.
  unfold check_namespace_access, check_ownership. cbn [pc_tenant_id pc_agent_id context_new].
  rewrite Hns, Ht. unfold str_eqb. cbn [map_err]. by rewrite (bool_decide_true ("default" = DEFAULT_TENANT)); [case_bool_decide|].
Qed.
End authority.
