(* ===== verification/Relevance.v ===== *)
(** * Relevance of memories ([src/src/memory/relevance.rs])

    Scores of entries by recency, frequency and importance, on IEEE floats, and
    the selection of the best entries within a budget of tokens. *)

From stdpp Require Import base gmap strings list.
From S2P Require Import Prelude Wire MemoryModel LedgerModel LedgerStore LedgerQueries LayeredMemory Float32.

(** The nearest single and double to a quotient. *)
Definition f32_ratio (a b : Z) : f32 := f32_div (f32_of_Z a) (f32_of_Z b).
Definition f64_ratio (a b : Z) : f64 := f64_div (f64_of_Z a) (f64_of_Z b).

Definition W_RECENCY : f32 := f32_ratio 4 10.
Definition W_FREQUENCY : f32 := f32_ratio 3 10.
Definition W_IMPORTANCE : f32 := f32_ratio 3 10.
Definition W_RECENCY_SEM : f32 := f32_ratio 25 100.
Definition W_FREQUENCY_SEM : f32 := f32_ratio 15 100.
Definition W_IMPORTANCE_SEM : f32 := f32_ratio 20 100.
Definition W_SEMANTIC : f32 := f32_ratio 40 100.

Definition DECAY_LAMBDA : f64 :=
  f64_div (f64_ratio 693 1000) (f64_mul (f64_mul (f64_of_Z 24) (f64_of_Z 3600)) (f64_of_Z 1000)).
Definition DECAY_LAMBDA_LONG_TERM : f64 :=
  f64_div (f64_ratio 693 1000)
    (f64_mul (f64_mul (f64_mul (f64_of_Z 30) (f64_of_Z 24)) (f64_of_Z 3600)) (f64_of_Z 1000)).
Definition DECAY_LAMBDA_WORKING : f64 :=
  f64_div (f64_ratio 693 1000)
    (f64_mul (f64_mul (f64_mul (f64_of_Z 7) (f64_of_Z 24)) (f64_of_Z 3600)) (f64_of_Z 1000)).

Record RelevanceScore := mkRelevance {
  rs_recency : f32;
  rs_frequency : f32;
  rs_importance : f32;
  rs_combined : f32;
}.

Definition decay_lambda_for_tier (t : MemoryTier) : f64 :=
  match t with
  | Tier_Ephemeral => DECAY_LAMBDA
  | Tier_Working => DECAY_LAMBDA_WORKING
  | Tier_LongTerm => DECAY_LAMBDA_LONG_TERM
  | Tier_Procedural => f64_zero
  end.

Definition entry_is_expired (e : MemoryEntry) (now_ms : Z) : bool :=
  match e_ttl_ms e with
  | Some ttl => (u64_saturating_add (e_created_at e) ttl <? now_ms)%Z
  | None => false
  end.

Section relevance.
(** [f64::exp], whose precision the language leaves open, and
    [serde_json::to_string]. *)
Variable exp : f64 -> f64.
Variable json_to_string : Json -> option string.

Definition content_display (c : MemoryContent) : string :=
  match c with
  | Text s => s
  | ObjectRef cid => ("[ObjectRef: " +:+ cid +:+ "]")
  | Structured v => default EmptyString (json_to_string v)
  | ProcedureContent p => proc_description p
  | Knowledge k => k_statement k
  end.

Definition score_entry (e : MemoryEntry) (now_ms max_access : Z) : RelevanceScore :=
  let age_ms := f64_of_Z (u64_saturating_sub now_ms (e_last_accessed e)) in
  let lambda := decay_lambda_for_tier (e_tier e) in
  let recency := if f64_eqb lambda f64_zero then f32_of_Z 1
                 else f64_to_f32 (exp (f64_mul (f64_opp lambda) age_ms)) in
  let frequency := f32_div (f32_of_Z (e_access_count e)) (f32_of_Z (Z.max max_access 1)) in
  let importance := f32_div (f32_of_Z (e_importance e)) (f32_of_Z 100) in
  mkRelevance recency frequency importance
    (f32_add (f32_add (f32_mul W_RECENCY recency) (f32_mul W_FREQUENCY frequency)) (f32_mul W_IMPORTANCE importance)).

Definition score_entry_with_semantic (e : MemoryEntry) (now_ms max_access : Z) (semantic_score : option f32) : RelevanceScore :=
  let base := score_entry e now_ms max_access in
  match semantic_score with
  | Some sem =>
      mkRelevance (rs_recency base) (rs_frequency base) (rs_importance base)
        (f32_add (f32_add (f32_add (f32_mul W_RECENCY_SEM (rs_recency base)) (f32_mul W_FREQUENCY_SEM (rs_frequency base)))
                    (f32_mul W_IMPORTANCE_SEM (rs_importance base)))
           (f32_mul W_SEMANTIC sem))
  | None => base
  end.

Definition estimate_entry_tokens (e : MemoryEntry) : Z :=
  Z.max (Z.of_nat (String.length (content_display (e_content e))) / 4) 1.

(** The loop over the sorted entries; [started] tells that the result is not empty. *)
Fixpoint take_budget (budget used : Z) (started : bool) (scored : list (MemoryEntry * RelevanceScore))
    : list (MemoryEntry * RelevanceScore) :=
  match scored with
  | [] => []
  | (e, s) :: scored' =>
      let used' := u64_add used (estimate_entry_tokens e) in
      if (budget <? used')%Z && started then [] else (e, s) :: take_budget budget used' true scored'
  end.

Definition by_combined (scored : list (MemoryEntry * RelevanceScore)) : list (MemoryEntry * RelevanceScore) :=
  stable_sort (fun y x => f32_gt (rs_combined y.2) (rs_combined x.2)) scored.

(** [entries.iter().map(|e| e.access_count).max().unwrap_or(1)] *)
Definition max_access_of (entries : list MemoryEntry) : Z :=
  match entries with
  | [] => 1
  | e :: entries => foldl (fun n x => Z.max n (e_access_count x)) (e_access_count e) entries
  end.

Definition select_within_budget (entries : list MemoryEntry) (budget_tokens now_ms : Z) : list (MemoryEntry * RelevanceScore) :=
  match entries with
  | [] => []
  | _ => take_budget budget_tokens 0 false
           (by_combined ((fun e => (e, score_entry e now_ms (max_access_of entries))) <$> entries))
  end.

Definition select_within_budget_semantic (entries : list MemoryEntry) (budget_tokens now_ms : Z)
    (semantic_scores : gmap string f32) : list (MemoryEntry * RelevanceScore) :=
  match entries with
  | [] => []
  | _ => take_budget budget_tokens 0 false
           (by_combined ((fun e => (e, score_entry_with_semantic e now_ms (max_access_of entries)
                                         (semantic_scores !! e_id e))) <$> entries))
  end.

(** ** What the selection keeps *)

Definition tokens_of (l : list (MemoryEntry * RelevanceScore)) : Z := foldr (fun x n => (estimate_entry_tokens x.1 + n)%Z) 0%Z l.

Lemma tokens_pos e : (1 <= estimate_entry_tokens e)%Z.
Proof. unfold estimate_entry_tokens. lia. Qed.

Lemma tokens_of_cons x l : tokens_of (x :: l) = (estimate_entry_tokens x.1 + tokens_of l)%Z.
Proof. done. Qed.

Lemma tokens_of_nonneg l : (0 <= tokens_of l)%Z.
Proof. induction l as [|x l IH]; [done|]. rewrite tokens_of_cons. pose proof (tokens_pos x.1). lia. Qed.

(** The loop keeps a prefix that fits the budget, its first entry apart, and
    cannot be longer. *)
Lemma take_budget_spec budget used started l :
  (0 <= used)%Z -> (used + tokens_of l <= u64_max)%Z ->
  let kept := take_budget budget used started l in
  exists rest, l = kept ++ rest /\
    ((started = false -> l <> [] -> kept <> []) /\
     (forall x kept', kept = kept' ++ [x] -> started = true \/ kept' <> [] -> (used + tokens_of kept <= budget)%Z) /\
     (forall x rest', rest = x :: rest' -> (budget < used + tokens_of kept + estimate_entry_tokens x.1)%Z)).
Proof.
  revert used started. induction l as [|[e s] l IH]; intros used started Hu Hl; cbn zeta.
  - exists []. split_and!; [done|done| |done]. by intros x [] Hx.
  - rewrite tokens_of_cons in Hl. cbn [take_budget fst] in *. pose proof (tokens_pos e) as He.
    pose proof (tokens_of_nonneg l) as Hn.
    assert (u64_add used (estimate_entry_tokens e) = (used + estimate_entry_tokens e)%Z) as Ha
      by (unfold u64_add, u64_max in *; apply Z.mod_small; lia).
    rewrite Ha. destruct (_ && _) eqn:Hb.
    + apply andb_true_iff in Hb as [Hb ->]. apply Z.ltb_lt in Hb. exists ((e, s) :: l). split_and!; [done|done| |].
      * by intros x [] Hx.
      * intros x rest [= <- <-]. change (tokens_of []) with 0%Z. cbn [fst]. lia.
    + destruct (IH (used + estimate_entry_tokens e)%Z true) as (rest & Hl' & _ & Hfit & Hmax); [lia..|].
      exists rest. split_and!; [by rewrite Hl' at 1|done| |].
      * intros x kept' Hk Hs. destruct kept' as [|y kept'].
        -- destruct Hs as [-> |[]]; [|done]. injection Hk as _ ->. rewrite tokens_of_cons. change (tokens_of []) with 0%Z.
           cbn [fst]. rewrite andb_true_r in Hb. apply Z.ltb_ge in Hb. lia.
        -- injection Hk as _ Hk. specialize (Hfit x kept' Hk ltac:(by left)). rewrite tokens_of_cons. cbn [fst]. lia.
      * intros x rest' Hr. specialize (Hmax x rest' Hr). rewrite tokens_of_cons. cbn [fst]. lia.
Qed.

(** Entries are never left out for a worse one: what is kept is the beginning of
    the ranking, it fits the budget unless it is a single entry, and the next
    entry would not fit. *)
Lemma select_spec entries budget now :
  entries <> [] ->
  let ranking := by_combined ((fun e => (e, score_entry e now (max_access_of entries))) <$> entries) in
  (tokens_of ranking <= u64_max)%Z ->
  let kept := select_within_budget entries budget now in
  fst <$> ranking ≡ₚ entries /\
  exists rest, ranking = kept ++ rest /\ kept <> [] /\
    ((tokens_of kept <= budget)%Z \/ length kept = 1) /\
    (forall x rest', rest = x :: rest' -> (budget < tokens_of kept + estimate_entry_tokens x.1)%Z).
Proof.
  intros Hne ranking Htok kept.
  assert (fst <$> ranking ≡ₚ entries) as Hperm.
  { unfold ranking, by_combined. rewrite stable_sort_perm, <-list_fmap_compose. by rewrite list_fmap_id. }
  split; [done|]. assert (kept = take_budget budget 0 false ranking) as Hk by (unfold kept, select_within_budget; by destruct entries).
  destruct (take_budget_spec budget 0 false ranking ltac:(done) Htok) as (rest & Hr & Hsome & Hfit & Hmax).
  rewrite <-Hk in *. clearbody kept.
  assert (kept <> []) as Hkept.
  { apply Hsome; [done|]. intros Hn. rewrite Hn in Hperm. apply Hne. symmetry. by apply Permutation_nil_l. }
  exists rest. split_and!; [done|done| |intros x rest' Hx; specialize (Hmax x rest' Hx); lia].
  destruct kept as [|x k _] using rev_ind; [done|].
  destruct k as [|y k]; [by right|left]. by apply (Hfit x (y :: k)); [|right].
Qed.
End relevance.
