(* ===== verification/EdgeCache.v ===== *)
(** * The edge caches ([src/src/kernel/ops/cache.rs])

    Caches of embeddings, graph queries and searches with least-recently-used
    eviction.  The crate [lru] is the class [Lru] with its documented laws; a
    list instance meets them. *)

From stdpp Require Import base gmap strings list pretty.
From S2P Require Import Prelude Wire Text Float32.

(** ** The map of the crate [lru] *)

Section assoc.
Context {K V : Type} `{EqDecision K}.

(** The first value of a key, and the list without the key. *)
Definition assoc_get (k : K) (l : list (K * V)) : option V := snd <$> List.find (fun kv => bool_decide (kv.1 = k)) l.
Definition assoc_drop (k : K) (l : list (K * V)) : list (K * V) := List.filter (fun kv => negb (bool_decide (kv.1 = k))) l.
End assoc.

(** [lru_entries] lists the entries from the most to the least recently used. *)
Class Lru := {
  lru : forall (K V : Type) `{EqDecision K}, Type;
  lru_entries : forall {K V} `{EqDecision K}, lru K V -> list (K * V);
  lru_cap : forall {K V} `{EqDecision K}, lru K V -> nat;
  lru_new : forall {K V} `{EqDecision K}, nat -> lru K V;
  (** [get_mut(k)] with what is done to the value *)
  lru_get_mut : forall {K V} `{EqDecision K}, K -> (V -> V) -> lru K V -> option V * lru K V;
  lru_put : forall {K V} `{EqDecision K}, K -> V -> lru K V -> lru K V;
  lru_pop : forall {K V} `{EqDecision K}, K -> lru K V -> option V * lru K V;
  lru_clear : forall {K V} `{EqDecision K}, lru K V -> lru K V;
  lru_new_spec : forall {K V} `{EqDecision K} n, lru_entries (lru_new (K := K) (V := V) n) = [] /\ lru_cap (lru_new (K := K) (V := V) n) = n;
  lru_get_spec : forall {K V} `{EqDecision K} (k : K) (f : V -> V) c,
    (lru_get_mut k f c).1 = assoc_get k (lru_entries c) /\ lru_cap (lru_get_mut k f c).2 = lru_cap c /\
    lru_entries (lru_get_mut k f c).2 =
      match assoc_get k (lru_entries c) with Some v => (k, f v) :: assoc_drop k (lru_entries c) | None => lru_entries c end;
  lru_put_spec : forall {K V} `{EqDecision K} (k : K) (v : V) c,
    lru_cap (lru_put k v c) = lru_cap c /\
    lru_entries (lru_put k v c) = take (lru_cap c) ((k, v) :: assoc_drop k (lru_entries c));
  lru_pop_spec : forall {K V} `{EqDecision K} (k : K) (c : lru K V),
    (lru_pop k c).1 = assoc_get k (lru_entries c) /\ lru_cap (lru_pop k c).2 = lru_cap c /\
    lru_entries (lru_pop k c).2 = assoc_drop k (lru_entries c);
  lru_clear_spec : forall {K V} `{EqDecision K} (c : lru K V), lru_entries (lru_clear c) = [] /\ lru_cap (lru_clear c) = lru_cap c;
}.

Definition lru_len `{Lru} {K V} `{EqDecision K} (c : lru K V) : nat := length (lru_entries c).

(** [NonZeroUsize::new(n).unwrap_or(NonZeroUsize::MIN)] *)
Definition nonzero (n : nat) : nat := Nat.max n 1.

(** ** Entries and statistics *)

Record CacheStats := mkCacheStats {
  st_hits : Z;
  st_misses : Z;
  st_evictions : Z;
  st_invalidations : Z;
  st_current_size : nat;
  st_current_entries : nat;
}.
Definition stats_default : CacheStats := mkCacheStats 0 0 0 0 0 0.
Definition stats_hit (s : CacheStats) : CacheStats :=
  mkCacheStats (u64_add (st_hits s) 1) (st_misses s) (st_evictions s) (st_invalidations s) (st_current_size s) (st_current_entries s).
Definition stats_miss (s : CacheStats) : CacheStats :=
  mkCacheStats (st_hits s) (u64_add (st_misses s) 1) (st_evictions s) (st_invalidations s) (st_current_size s) (st_current_entries s).
(** What [put] does to the statistics: [full] before it, [n] entries after it. *)
Definition stats_stored (full : bool) (n : nat) (s : CacheStats) : CacheStats :=
  mkCacheStats (st_hits s) (st_misses s) (if full then u64_add (st_evictions s) 1 else st_evictions s) (st_invalidations s)
    (st_current_size s) n.
Definition stats_invalidated (removed : nat) (n : nat) (s : CacheStats) : CacheStats :=
  mkCacheStats (st_hits s) (st_misses s) (st_evictions s) (u64_add (st_invalidations s) (Z.of_nat removed)) (st_current_size s) n.
(** What [stats] stores before it answers. *)
Definition stats_sized (n : nat) (s : CacheStats) : CacheStats :=
  mkCacheStats (st_hits s) (st_misses s) (st_evictions s) (st_invalidations s) n n.

Inductive EmbeddingInputOperation : Type := Generic | Query | Document.
#[export] Instance operation_eq : EqDecision EmbeddingInputOperation.
Proof. solve_decision. Defined.

Definition EMBEDDING_CACHE_INPUT_DOMAIN : string := "plico.embedding.cache-input.v1" +:+ nul.

Section caches.
Context `{Platform} `{Lru}.

(** [TextHash::from_text], the digest as its hexadecimal text. *)
Definition from_text (text : string) : string := sha256_hex (EMBEDDING_CACHE_INPUT_DOMAIN +:+ text).

(** ** Embeddings *)

Section embedding.
(** [EmbeddingBuilderIdentity] *)
Context {Identity : Type} `{EqDecision Identity}.

Record EmbeddingCacheKey := mkKey {
  key_text_hash : string;
  key_builder_identity : Identity;
  key_operation : EmbeddingInputOperation;
}.
#[export] Instance key_eq : EqDecision EmbeddingCacheKey.
Proof. solve_decision. Defined.

Record EmbeddingCacheEntry := mkEmbeddingEntry {
  ece_embedding : list f32;
  ece_created_at : Z;
  ece_access_count : Z;
}.

Record EmbeddingCache := mkEmbeddingCache {
  ec_cache : lru EmbeddingCacheKey EmbeddingCacheEntry;
  ec_max_entries : nat;
  ec_stats : CacheStats;
}.

Definition embedding_cache_new (max_entries : nat) : EmbeddingCache :=
  mkEmbeddingCache (lru_new (nonzero max_entries)) max_entries stats_default.

Definition embedding_get (text : string) (identity : Identity) (operation : EmbeddingInputOperation) (c : EmbeddingCache)
    : option (list f32) * EmbeddingCache :=
  let key := mkKey (from_text text) identity operation in
  let access e := mkEmbeddingEntry (ece_embedding e) (ece_created_at e) (u64_add (ece_access_count e) 1) in
  match lru_get_mut key access (ec_cache c) with
  | (Some e, m) => (Some (ece_embedding e), mkEmbeddingCache m (ec_max_entries c) (stats_hit (ec_stats c)))
  | (None, m) => (None, mkEmbeddingCache m (ec_max_entries c) (stats_miss (ec_stats c)))
  end.

Definition embedding_put (now : Z) (text : string) (identity : Identity) (operation : EmbeddingInputOperation)
    (embedding : list f32) (c : EmbeddingCache) : EmbeddingCache :=
  let key := mkKey (from_text text) identity operation in
  let full := (ec_max_entries c <=? lru_len (ec_cache c))%nat in
  let m := lru_put key (mkEmbeddingEntry embedding now 0) (ec_cache c) in
  mkEmbeddingCache m (ec_max_entries c) (stats_stored full (lru_len m) (ec_stats c)).

Definition embedding_invalidate (text : string) (c : EmbeddingCache) : EmbeddingCache :=
  let hash := from_text text in
  let keys := List.filter (fun k => str_eqb (key_text_hash k) hash) (lru_entries (ec_cache c)).*1 in
  let m := foldl (fun m k => (lru_pop k m).2) (ec_cache c) keys in
  mkEmbeddingCache m (ec_max_entries c)
    (match keys with [] => ec_stats c | _ => stats_invalidated (length keys) (lru_len m) (ec_stats c) end).

Definition embedding_invalidate_all (c : EmbeddingCache) : EmbeddingCache :=
  mkEmbeddingCache (lru_clear (ec_cache c)) (ec_max_entries c) (stats_invalidated (lru_len (ec_cache c)) 0 (ec_stats c)).

Definition embedding_stats (c : EmbeddingCache) : CacheStats * EmbeddingCache :=
  let s := stats_sized (lru_len (ec_cache c)) (ec_stats c) in (s, mkEmbeddingCache (ec_cache c) (ec_max_entries c) s).
End embedding.

(** ** Graph queries *)

Record KgQueryCacheEntry := mkKgQueryEntry {
  kqe_result_json : string;
  kqe_node_count : nat;
  kqe_edge_count : nat;
  kqe_created_at : Z;
  kqe_access_count : Z;
}.

Record KgQueryCache := mkKgQueryCache {
  kq_cache : lru string KgQueryCacheEntry;
  kq_max_entries : nat;
  kq_stats : CacheStats;
}.

Definition kg_query_cache_new (max_entries : nat) : KgQueryCache :=
  mkKgQueryCache (lru_new (nonzero max_entries)) max_entries stats_default.

Definition kg_query_access (e : KgQueryCacheEntry) : KgQueryCacheEntry :=
  mkKgQueryEntry (kqe_result_json e) (kqe_node_count e) (kqe_edge_count e) (kqe_created_at e) (u64_add (kqe_access_count e) 1).

(** The answer is a copy made after the access. *)
Definition kg_query_get (query_key : string) (c : KgQueryCache) : option KgQueryCacheEntry * KgQueryCache :=
  match lru_get_mut query_key kg_query_access (kq_cache c) with
  | (Some e, m) => (Some (kg_query_access e), mkKgQueryCache m (kq_max_entries c) (stats_hit (kq_stats c)))
  | (None, m) => (None, mkKgQueryCache m (kq_max_entries c) (stats_miss (kq_stats c)))
  end.

Definition kg_query_put (query_key : string) (entry : KgQueryCacheEntry) (c : KgQueryCache) : KgQueryCache :=
  let full := (kq_max_entries c <=? lru_len (kq_cache c))%nat in
  let m := lru_put query_key entry (kq_cache c) in
  mkKgQueryCache m (kq_max_entries c) (stats_stored full (lru_len m) (kq_stats c)).

Definition kg_query_invalidate_pattern (pattern : string) (c : KgQueryCache) : KgQueryCache :=
  let keys := List.filter (fun k => opt_is_some (String.index 0 pattern k)) (lru_entries (kq_cache c)).*1 in
  let '(m, removed) := foldl (fun '(m, n) k => let '(v, m) := lru_pop k m in (m, if opt_is_some v then S n else n)) (kq_cache c, 0) keys in
  mkKgQueryCache m (kq_max_entries c) (stats_invalidated removed (lru_len m) (kq_stats c)).

Definition kg_query_invalidate_all (c : KgQueryCache) : KgQueryCache :=
  mkKgQueryCache (lru_clear (kq_cache c)) (kq_max_entries c) (stats_invalidated (lru_len (kq_cache c)) 0 (kq_stats c)).

Definition kg_query_stats (c : KgQueryCache) : CacheStats * KgQueryCache :=
  let s := stats_sized (lru_len (kq_cache c)) (kq_stats c) in (s, mkKgQueryCache (kq_cache c) (kq_max_entries c) s).

(** ** Searches *)

Record SearchCacheEntry := mkSearchEntry {
  sce_results_json : string;
  sce_top_k : N;
  sce_created_at : Z;
  sce_access_count : Z;
}.

(** Times and the time to live are in nanoseconds. *)
Record SearchCache := mkSearchCache {
  sc_cache : lru string SearchCacheEntry;
  sc_max_entries : nat;
  sc_ttl : Z;
  sc_stats : CacheStats;
}.

Definition search_cache_new (max_entries : nat) (ttl_seconds : Z) : SearchCache :=
  mkSearchCache (lru_new (nonzero max_entries)) max_entries (ttl_seconds * 1000000000) stats_default.

Definition make_key (query : string) (top_k : N) (agent_id : string) : string :=
  query +:+ ":" +:+ pretty top_k +:+ ":" +:+ agent_id.

Definition search_access (e : SearchCacheEntry) : SearchCacheEntry :=
  mkSearchEntry (sce_results_json e) (sce_top_k e) (sce_created_at e) (u64_add (sce_access_count e) 1).

(** [created_at.elapsed()] is zero when the clock shows an earlier time. *)
Definition search_fresh (now ttl : Z) (e : SearchCacheEntry) : bool := (Z.max 0 (now - sce_created_at e) <? ttl)%Z.

Definition search_get (now : Z) (query : string) (top_k : N) (agent_id : string) (c : SearchCache)
    : option SearchCacheEntry * SearchCache :=
  let key := make_key query top_k agent_id in
  let access e := if search_fresh now (sc_ttl c) e then search_access e else e in
  match lru_get_mut key access (sc_cache c) with
  | (Some e, m) =>
      if search_fresh now (sc_ttl c) e
      then (Some (search_access e), mkSearchCache m (sc_max_entries c) (sc_ttl c) (stats_hit (sc_stats c)))
      else (None, mkSearchCache (lru_pop key m).2 (sc_max_entries c) (sc_ttl c) (stats_miss (sc_stats c)))
  | (None, m) => (None, mkSearchCache m (sc_max_entries c) (sc_ttl c) (stats_miss (sc_stats c)))
  end.

Definition search_put (query : string) (top_k : N) (agent_id : string) (entry : SearchCacheEntry) (c : SearchCache) : SearchCache :=
  let full := (sc_max_entries c <=? lru_len (sc_cache c))%nat in
  let m := lru_put (make_key query top_k agent_id) entry (sc_cache c) in
  mkSearchCache m (sc_max_entries c) (sc_ttl c) (stats_stored full (lru_len m) (sc_stats c)).

Definition search_invalidate_all (c : SearchCache) : SearchCache :=
  mkSearchCache (lru_clear (sc_cache c)) (sc_max_entries c) (sc_ttl c) (stats_invalidated (lru_len (sc_cache c)) 0 (sc_stats c)).

Definition search_stats (c : SearchCache) : CacheStats * SearchCache :=
  let s := stats_sized (lru_len (sc_cache c)) (sc_stats c) in (s, mkSearchCache (sc_cache c) (sc_max_entries c) (sc_ttl c) s).

(** ** All of them *)

Context {Identity : Type} `{EqDecision Identity}.

Record EdgeCache := mkEdgeCache {
  edge_embedding : EmbeddingCache (Identity := Identity);
  edge_kg_query : KgQueryCache;
  edge_search : SearchCache;
}.

Definition edge_cache_new (embedding_max_entries kg_max_entries search_max_entries : nat) (search_ttl_seconds : Z) : EdgeCache :=
  mkEdgeCache (embedding_cache_new embedding_max_entries) (kg_query_cache_new kg_max_entries)
    (search_cache_new search_max_entries search_ttl_seconds).
Definition edge_cache_default : EdgeCache := edge_cache_new 1024 512 256 300.

Definition edge_invalidate_all (c : EdgeCache) : EdgeCache :=
  mkEdgeCache (embedding_invalidate_all (edge_embedding c)) (kg_query_invalidate_all (edge_kg_query c))
    (search_invalidate_all (edge_search c)).

Definition edge_stats (c : EdgeCache) : CacheStats * CacheStats * CacheStats * EdgeCache :=
  let '(e, ec) := embedding_stats (edge_embedding c) in
  let '(k, kc) := kg_query_stats (edge_kg_query c) in
  let '(s, sc) := search_stats (edge_search c) in
  (e, k, s, mkEdgeCache ec kc sc).
End caches.

(** ** Lists of entries *)

Section entries.
Context {K V : Type} `{EqDecision K}.
Implicit Types (l : list (K * V)).

Lemma elem_of_drop k l x : x ∈ assoc_drop k l <-> x ∈ l /\ x.1 <> k.
Proof. unfold assoc_drop. rewrite elem_of_lfilter, negb_true_iff, bool_decide_eq_false. done. Qed.

Lemma assoc_get_elem k l v : assoc_get k l = Some v -> (k, v) ∈ l.
Proof.
  unfold assoc_get. destruct (List.find _ l) as [[k' v']|] eqn:Hf; [|done]. cbn. intros [= ->].
  apply find_some in Hf as [Hin Hk]. apply bool_decide_eq_true in Hk. cbn in Hk. subst k'. by apply list_elem_of_In.
Qed.

Lemma drop_keys k l : (assoc_drop k l).*1 = List.filter (fun j => negb (bool_decide (j = k))) l.*1.
Proof. unfold assoc_drop. induction l as [|[j v] l IH]; [done|]. cbn. destruct (negb _); cbn; by rewrite IH. Qed.

Lemma drop_NoDup k l : NoDup l.*1 -> NoDup (assoc_drop k l).*1 /\ k ∉ (assoc_drop k l).*1.
Proof.
  intros Hnd. split.
  - rewrite drop_keys. induction l.*1 as [|j ks IH]; [done|]. apply NoDup_cons in Hnd as [Hj Hnd]. cbn.
    destruct (negb _); [|auto]. apply NoDup_cons. split; [|auto]. intros [Hin _]%elem_of_lfilter. done.
  - intros (x & -> & Hx)%list_elem_of_fmap. apply elem_of_drop in Hx as [_ Hx]. done.
Qed.

Lemma take_keys_NoDup n l : NoDup l.*1 -> NoDup (take n l).*1.
Proof. intros Hnd. rewrite fmap_take. eapply sublist_NoDup; [exact Hnd|apply sublist_take]. Qed.

(** The keys used more recently than [k]. *)
Fixpoint fresher (k : K) (l : list (K * V)) : list K :=
  match l with
  | [] => []
  | (j, _) :: l => if decide (j = k) then [] else j :: fresher k l
  end.

Lemma fresher_drop k j l : j <> k -> k ∈ l.*1 -> fresher k (assoc_drop j l) ⊆ fresher k l /\ k ∈ (assoc_drop j l).*1.
Proof.
  intros Hne. induction l as [|[i v] l IH]; intros Hin; [by apply not_elem_of_nil in Hin|].
  cbn in Hin. unfold assoc_drop in *. cbn [List.filter fresher fst]. destruct (bool_decide (i = j)) eqn:Hij.
  - apply bool_decide_eq_true in Hij as ->. cbn [negb]. rewrite decide_False by done.
    apply elem_of_cons in Hin as [-> |Hin]; [done|]. destruct (IH Hin). set_solver.
  - cbn [negb fresher fst fmap list_fmap]. destruct (decide (i = k)) as [-> |Hik]; [set_solver|].
    apply elem_of_cons in Hin as [-> |Hin]; [done|]. destruct (IH Hin). set_solver.
Qed.

Lemma fresher_take k n l : length (fresher k l) < n -> k ∈ l.*1 ->
  k ∈ (take n l).*1 /\ fresher k (take n l) = fresher k l /\ assoc_get k (take n l) = assoc_get k l.
Proof.
  revert n. induction l as [|[i v] l IH]; intros n Hn Hin; [by apply not_elem_of_nil in Hin|].
  cbn [fresher] in *. destruct n as [|n]; [lia|]. cbn [take fresher fmap list_fmap fst]. unfold assoc_get in *. cbn [List.find fst].
  destruct (decide (i = k)) as [-> |Hik]; [rewrite bool_decide_true by done; set_solver|].
  rewrite bool_decide_false by done. cbn in Hn, Hin. apply elem_of_cons in Hin as [-> |Hin]; [done|].
  destruct (IH n) as (Hk & Hnew & Hget); [lia|done|]. rewrite Hnew, Hget. set_solver.
Qed.

Lemma get_drop_other k j l : j <> k -> assoc_get k (assoc_drop j l) = assoc_get k l.
Proof.
  intros Hne. unfold assoc_get, assoc_drop. f_equal. induction l as [|[i v] l IH]; [done|]. cbn.
  destruct (bool_decide (i = j)) eqn:Hij; cbn; [|by rewrite IH].
  apply bool_decide_eq_true in Hij as ->. by rewrite (bool_decide_false (j = k)), IH.
Qed.

Lemma fresher_subset k l : fresher k l ⊆ l.*1.
Proof. induction l as [|[i v] l IH]; [done|]. cbn. case_decide; set_solver. Qed.

Lemma fresher_NoDup k l : NoDup l.*1 -> NoDup (fresher k l).
Proof.
  induction l as [|[i v] l IH]; [done|]. cbn. intros [Hi Hnd]%NoDup_cons. case_decide; [constructor|].
  apply NoDup_cons. split; [|auto]. intros Hin. by apply Hi, (fresher_subset k l).
Qed.

(** An entry stays while fewer other keys than the capacity are used after it. *)
Lemma use_keeps k j v l used n :
  j <> k -> NoDup l.*1 -> k ∈ l.*1 -> fresher k l ⊆ used -> j ∈ used -> length used < n ->
  k ∈ (take n ((j, v) :: assoc_drop j l)).*1 /\ fresher k (take n ((j, v) :: assoc_drop j l)) ⊆ used /\
  assoc_get k (take n ((j, v) :: assoc_drop j l)) = assoc_get k l.
Proof.
  intros Hne Hnd Hk Hnew Hj Hn. destruct (fresher_drop k j l Hne Hk) as [Hd Hkd].
  destruct (drop_NoDup j l Hnd) as [Hnd' Hjd].
  assert (fresher k ((j, v) :: assoc_drop j l) = j :: fresher k (assoc_drop j l)) as Heq by (cbn; by rewrite decide_False).
  assert (length (fresher k ((j, v) :: assoc_drop j l)) < n) as Hlen.
  { rewrite Heq. apply Nat.le_lt_trans with (length used); [|done]. apply submseteq_length, NoDup_submseteq.
    - apply NoDup_cons. split; [|by apply fresher_NoDup]. intros Hin. by apply Hjd, (fresher_subset k).
    - intros x [-> |Hx]%elem_of_cons; [done|]. by apply Hnew, Hd. }
  destruct (fresher_take k n ((j, v) :: assoc_drop j l) Hlen) as (H1' & H2' & H3'); [cbn; set_solver|].
  rewrite H2', H3', Heq. split_and!; [done|set_solver|]. rewrite <-(get_drop_other k j l) by done.
  unfold assoc_get. cbn. by rewrite bool_decide_false.
Qed.
End entries.

(** ** Embeddings stay while they are used *)

Section retention.
Context `{Platform} `{Lru} {Identity : Type} `{EqDecision Identity}.
Implicit Types (c : EmbeddingCache (Identity := Identity)) (k : EmbeddingCacheKey (Identity := Identity)).

Inductive EmbeddingOp : Type :=
  | Op_get (text : string) (identity : Identity) (operation : EmbeddingInputOperation)
  | Op_put (now : Z) (text : string) (identity : Identity) (operation : EmbeddingInputOperation) (embedding : list f32)
  | Op_invalidate (text : string)
  | Op_stats.

Definition embedding_step c (op : EmbeddingOp) : EmbeddingCache :=
  match op with
  | Op_get text identity o => (embedding_get text identity o c).2
  | Op_put now text identity o v => embedding_put now text identity o v c
  | Op_invalidate text => embedding_invalidate text c
  | Op_stats => (embedding_stats c).2
  end.

(** The key an operation uses, and whether it ends what is stored under [k]. *)
Definition used_key (op : EmbeddingOp) : option EmbeddingCacheKey :=
  match op with
  | Op_get text identity o | Op_put _ text identity o _ => Some (mkKey (from_text text) identity o)
  | _ => None
  end.
Definition ends k (op : EmbeddingOp) : bool :=
  match op with
  | Op_put _ text identity o _ => bool_decide (mkKey (from_text text) identity o = k)
  | Op_invalidate text => str_eqb (key_text_hash k) (from_text text)
  | _ => false
  end.

(** The keys of the cache are distinct and at most its capacity. *)
Record cache_ok c : Prop := {
  ck_distinct : NoDup (lru_entries (ec_cache c)).*1;
  ck_capacity : lru_cap (ec_cache c) = nonzero (ec_max_entries c);
}.

(** The embedding under [k] is [v], and only [used] keys are newer. *)
Record holds k (v : list f32) (used : list EmbeddingCacheKey) (l : list (EmbeddingCacheKey * EmbeddingCacheEntry)) : Prop := {
  ho_distinct : NoDup l.*1;
  ho_in : k ∈ l.*1;
  ho_newer : fresher k l ⊆ used;
  ho_value : exists e, assoc_get k l = Some e /\ ece_embedding e = v;
}.

Lemma holds_front k e used (l : list (EmbeddingCacheKey * EmbeddingCacheEntry)) n :
  NoDup l.*1 -> 0 < n -> holds k (ece_embedding e) used (take n ((k, e) :: assoc_drop k l)).
Proof.
  intros Hnd Hn. destruct (drop_NoDup k l Hnd) as [Hd Hk]. destruct n as [|n]; [lia|]. cbn [take].
  assert (NoDup ((take n (assoc_drop k l)).*1)) as Ht by (by apply take_keys_NoDup).
  constructor; cbn.
  - apply NoDup_cons. split; [|done]. rewrite fmap_take. intros (i & Hi & _)%elem_of_take. by apply Hk, (list_elem_of_lookup_2 _ i).
  - set_solver.
  - rewrite decide_True by done. set_solver.
  - exists e. unfold assoc_get. cbn. by rewrite bool_decide_true.
Qed.

Lemma holds_other k j e v used (l : list (EmbeddingCacheKey * EmbeddingCacheEntry)) n :
  holds k v used l -> j <> k -> j ∈ used -> length used < n -> holds k v used (take n ((j, e) :: assoc_drop j l)).
Proof.
  intros [Hnd Hin Hnew Hv] Hne Hj Hn. destruct (use_keeps k j e l used n Hne Hnd Hin Hnew Hj Hn) as (H1' & H2' & H3').
  destruct (drop_NoDup j l Hnd) as [Hd Hjd]. constructor; [|done|done|by rewrite H3'].
  apply take_keys_NoDup. cbn. by apply NoDup_cons.
Qed.

Lemma holds_drop k j v used (l : list (EmbeddingCacheKey * EmbeddingCacheEntry)) : holds k v used l -> j <> k -> holds k v used (assoc_drop j l).
Proof.
  intros [Hnd Hin Hnew Hv] Hne. destruct (fresher_drop k j l Hne Hin). destruct (drop_NoDup j l Hnd).
  constructor; [done|done|by transitivity (fresher k l)|by rewrite get_drop_other].
Qed.

Lemma pops_hold k v used (m : lru EmbeddingCacheKey EmbeddingCacheEntry) keys :
  holds k v used (lru_entries m) -> k ∉ keys ->
  holds k v used (lru_entries (foldl (fun m j => (lru_pop j m).2) m keys)) /\
  lru_cap (foldl (fun m j => (lru_pop j m).2) m keys) = lru_cap m.
Proof.
  revert m. induction keys as [|j keys IH]; intros m Hm Hk; [done|]. cbn [foldl].
  destruct (lru_pop_spec j m) as (_ & Hcap & He). destruct (IH (lru_pop j m).2) as [Hh Hc]; [|set_solver|].
  - rewrite He. apply holds_drop; [done|set_solver].
  - by rewrite Hc.
Qed.

Lemma step_holds k v used c op :
  holds k v used (lru_entries (ec_cache c)) -> lru_cap (ec_cache c) = nonzero (ec_max_entries c) ->
  ends k op = false -> (forall j, used_key op = Some j -> j <> k -> j ∈ used) -> length used < nonzero (ec_max_entries c) ->
  holds k v used (lru_entries (ec_cache (embedding_step c op))) /\
  lru_cap (ec_cache (embedding_step c op)) = nonzero (ec_max_entries c) /\ ec_max_entries (embedding_step c op) = ec_max_entries c.
Proof.
  intros Hh Hcap Hend Hused Hlen. destruct op as [text identity o|now text identity o e|text|]; cbn [embedding_step].
  - unfold embedding_get. set (j := mkKey _ _ _). set (f := fun e => _).
    destruct (lru_get_spec j f (ec_cache c)) as (Hg & Hc & He). destruct (lru_get_mut _ _ _) as [r m]. cbn [fst snd] in *.
    assert (holds k v used (lru_entries m)) as Hm; [|destruct r; cbn; by rewrite Hc].
    rewrite He. destruct (assoc_get j _) as [e|] eqn:Hj; [|done].
    set (n := S (length used + length (assoc_drop j (lru_entries (ec_cache c))))).
    rewrite <-(take_ge ((j, f e) :: assoc_drop j (lru_entries (ec_cache c))) n) by (cbn; lia).
    destruct (decide (j = k)) as [Hjk|Hne]; [|apply holds_other; [done|done|by apply (Hused j)|lia]].
    destruct Hh as [Hnd _ _ (e' & He' & <-)]. rewrite Hjk in *. assert (e' = e) as -> by congruence.
    change (ece_embedding e) with (ece_embedding (f e)). apply holds_front; [done|lia].
  - unfold embedding_put. set (j := mkKey _ _ _). cbn [ec_cache ec_max_entries].
    destruct (lru_put_spec j (mkEmbeddingEntry e now 0) (ec_cache c)) as [Hc ->]. rewrite Hc, Hcap. split_and!; [|done|done].
    apply bool_decide_eq_false in Hend. apply holds_other; [done|done|by apply (Hused j)|done].
  - unfold embedding_invalidate. cbn [ec_cache ec_max_entries ends] in *.
    destruct (pops_hold k v used (ec_cache c) (List.filter (fun j => str_eqb (key_text_hash j) (from_text text)) (lru_entries (ec_cache c)).*1) Hh)
      as [Hp Hc]; [|by rewrite Hc]. intros [_ Hk]%elem_of_lfilter. congruence.
  - done.
Qed.

(** An embedding that was stored or found is found again, unless it is replaced,
    invalidated, or as many other keys as the cache holds are used after it. *)
Lemma recent_embeddings_stay now text identity o v c ops used :
  cache_ok c -> let k := mkKey (from_text text) identity o in
  Forall (fun op => ends k op = false /\ forall j, used_key op = Some j -> j <> k -> j ∈ used) ops ->
  length used < nonzero (ec_max_entries c) ->
  (embedding_get text identity o (foldl embedding_step (embedding_put now text identity o v c) ops)).1 = Some v.
Proof.
  intros [Hnd Hcap] k Hops Hlen.
  assert (forall c', holds k v used (lru_entries (ec_cache c')) -> lru_cap (ec_cache c') = nonzero (ec_max_entries c') ->
    ec_max_entries c' = ec_max_entries c -> (embedding_get text identity o (foldl embedding_step c' ops)).1 = Some v) as Hrun.
  { clear -Hops Hlen. induction Hops as [|op ops [Hend Hused] _ IH]; intros c' Hh Hc Hmax; cbn [foldl].
    - unfold embedding_get. fold k. set (f := fun e => _). destruct (lru_get_spec k f (ec_cache c')) as (Hg & _ & _).
      destruct (lru_get_mut _ _ _) as [r m]. cbn [fst] in Hg. destruct Hh as [_ _ _ (e & He & <-)].
      rewrite He in Hg. by rewrite Hg.
    - destruct (step_holds k v used c' op Hh Hc Hend Hused) as (Hh' & Hc' & Hmax'); [by rewrite Hmax|].
      apply IH; [done|by rewrite Hmax'|by rewrite Hmax']. }
  apply Hrun; unfold embedding_put; fold k; cbn [ec_cache ec_max_entries].
  - destruct (lru_put_spec k (mkEmbeddingEntry v now 0) (ec_cache c)) as [_ ->].
    apply (holds_front k (mkEmbeddingEntry v now 0)); [done|]. rewrite Hcap. unfold nonzero. lia.
  - destruct (lru_put_spec k (mkEmbeddingEntry v now 0) (ec_cache c)) as [-> _]. done.
  - done.
Qed.
End retention.

(** ** A list that meets the laws *)

#[export, refine] Instance list_lru : Lru := {
  lru K V _ := (nat * list (K * V))%type;
  lru_entries K V _ c := c.2;
  lru_cap K V _ c := c.1;
  lru_new K V _ n := (n, []);
  lru_get_mut K V _ k f c :=
    (assoc_get k c.2, (c.1, match assoc_get k c.2 with Some v => (k, f v) :: assoc_drop k c.2 | None => c.2 end));
  lru_put K V _ k v c := (c.1, take c.1 ((k, v) :: assoc_drop k c.2));
  lru_pop K V _ k c := (assoc_get k c.2, (c.1, assoc_drop k c.2));
  lru_clear K V _ c := (c.1, []);
}.
Proof. all: done. Defined.

(** ** What the caches confuse *)

(** A search of one agent answers another agent's: the parts of a key are not
    kept apart. *)
Lemma search_key_ambiguous `{Platform} `{Lru} now entry max ttl :
  (0 < ttl)%Z -> (sce_created_at entry <= now)%Z -> (now - sce_created_at entry < ttl * 1000000000)%Z ->
  (search_get now "x:1" 2 "y" (search_put "x" 1 "2:y" entry (search_cache_new max ttl))).1 = Some (search_access entry).
Proof.
  intros Httl Hpast Hfresh. unfold search_get, search_put, search_cache_new. cbn [sc_cache sc_ttl sc_max_entries].
  change (make_key "x:1" 2 "y") with (make_key "x" 1 "2:y"). set (key := make_key "x" 1 "2:y"). set (f := fun e => _).
  assert (search_fresh now (ttl * 1000000000) entry = true) as Hf by (unfold search_fresh; apply Z.ltb_lt; lia).
  assert (assoc_get key (lru_entries (lru_put key entry (lru_new (nonzero max)))) = Some entry) as Hg.
  { destruct (lru_put_spec key entry (lru_new (nonzero max))) as [_ ->]. destruct (lru_new_spec (K := string) (V := SearchCacheEntry) (nonzero max)) as [He Hc].
    rewrite He, Hc. unfold nonzero. destruct max as [|max]; cbn [Nat.max take]; unfold assoc_get; cbn [List.find fst];
      by rewrite bool_decide_true. }
  destruct (lru_get_spec key f (lru_put key entry (lru_new (nonzero max)))) as (Hr & _ & _).
  destruct (lru_get_mut _ _ _) as [r m]. cbn [fst] in Hr. rewrite Hg in Hr. subst r. by rewrite Hf.
Qed.

(** Storing a key again counts an eviction although nothing is evicted. *)
Lemma replacing_counts_eviction :
  let c := kg_query_put "q" (mkKgQueryEntry "1" 0 0 0 0) (kg_query_cache_new 1) in
  let c' := kg_query_put "q" (mkKgQueryEntry "2" 0 0 0 0) c in
  lru_len (kq_cache c) = 1 /\ lru_len (kq_cache c') = 1 /\ st_evictions (kq_stats c') = 1%Z.
Proof. by vm_compute. Qed.
