(* ===== verification/Embeddings.v ===== *)
(** * Embedding providers ([src/src/fs/embedding/types.rs], [adaptive.rs],
      [mod.rs], [stub.rs])

    The identity of the builder of an embedding, the wrapper that adds prefixes
    and truncates, and the wrapper that caches.  A provider behind a wrapper is
    known by what its methods answer at each call, which may change at any time. *)

From stdpp Require Import base gmap strings list.
From S2P Require Import Prelude Wire Text Float32 MemoryModel CircuitBreaker ProjectionView GraphSearch EdgeCache.

(** ** Types *)

Inductive EmbeddingProviderFamily : Type := Family_Ollama.
Definition family_as_str (f : EmbeddingProviderFamily) : string := match f with Family_Ollama => "ollama" end.

Inductive ProviderInputContract : Type := MemoryTextUtf8V1.
Inductive ProviderNormalization : Type := ProviderNative | L2AfterMatryoshkaTruncationV1.
Inductive EmbeddingTransformContract : Type := ProviderNativeInputV1 | Qwen3WebSearchV1.

Definition transform_as_str (t : EmbeddingTransformContract) : string :=
  match t with
  | ProviderNativeInputV1 => "provider-native-input-v1"
  | Qwen3WebSearchV1 => "qwen3-web-search-query-document-native-v1"
  end.

Definition normalization_contract_id (n : ProviderNormalization) : string :=
  match n with
  | ProviderNative => "provider-native-document-v1"
  | L2AfterMatryoshkaTruncationV1 => "plico-matryoshka-truncate-l2-v1"
  end.

Inductive EmbeddingIdentityError : Type :=
  | UnpinnedRemoteModel | LocalEvidenceIncomplete | StubProvider | ProviderProbeFailed | ProviderChanged
  | InvalidIdentityEvidence | UnregisteredInputContract.

Definition identity_error_category (e : EmbeddingIdentityError) : string :=
  match e with
  | UnpinnedRemoteModel => "unpinned_remote_model"
  | LocalEvidenceIncomplete => "local_evidence_incomplete"
  | StubProvider => "stub_provider"
  | ProviderProbeFailed => "provider_probe_failed"
  | ProviderChanged => "provider_changed"
  | InvalidIdentityEvidence => "invalid_identity_evidence"
  | UnregisteredInputContract => "unregistered_input_contract"
  end.

Definition embed_error_category (e : EmbedError) : string :=
  match e with
  | Http => "http"
  | Ollama _ => "ollama_api"
  | Api _ => "provider_api"
  | ModelNotFound _ => "model_not_found"
  | ServerUnavailable _ => "server_unavailable"
  | Runtime => "runtime_io"
  | Subprocess _ => "subprocess"
  | SubprocessUnavailable => "subprocess_unavailable"
  | InputTooLarge _ => "input_too_large"
  end.

Record EmbeddingBuilderIdentity := mkIdentity {
  bi_provider_family : EmbeddingProviderFamily;
  bi_provider_compatibility_id : string;
  bi_model_id : string;
  bi_raw_dimension : Z;
  bi_effective_dimension : Z;
  bi_input_contract : ProviderInputContract;
  bi_normalization : ProviderNormalization;
}.
#[export] Instance family_eq : EqDecision EmbeddingProviderFamily.
Proof. solve_decision. Defined.
#[export] Instance input_contract_eq : EqDecision ProviderInputContract.
Proof. solve_decision. Defined.
#[export] Instance normalization_eq : EqDecision ProviderNormalization.
Proof. solve_decision. Defined.
#[export] Instance builder_identity_eq : EqDecision EmbeddingBuilderIdentity.
Proof. solve_decision. Defined.

Record OllamaIdentityEvidence := mkOllamaEvidence {
  oe_schema : string;
  oe_model_tag : string;
  oe_model_digest : string;
  oe_server_version : string;
  oe_api_contract : string;
  oe_raw_dimension : Z;
}.

Record AdaptiveEvidence := mkAdaptiveEvidence {
  ae_schema : string;
  ae_inner_provider_compatibility_id : string;
  ae_prefix_contract_id : string;
  ae_requested_target_dimension : option Z;
  ae_effective_dimension : Z;
  ae_normalization : ProviderNormalization;
}.

Record EmbedResult := mkEmbedResult {
  er_embedding : list f32;
  er_input_tokens : Z;
}.

Definition PROVIDER_COMPATIBILITY_DOMAIN : string := "plico.embedding.provider-compatibility.v1" +:+ nul.
Definition PROVIDER_MAX_EMBEDDING_DIMENSION : Z := 65536.

Definition canonical_lower_hash (value : string) (length : nat) : bool :=
  Nat.eqb (String.length value) length && all_bytes lower_hex_byte value.


Definition safe_identity_label (value : string) : bool :=
  negb (str_eqb value "") && Nat.leb (String.length value) 256 && negb (str_contains "://" value) && all_bytes safe_byte value.

(** ** Identities *)

Section identity.
Context `{Platform} `{!Serde OllamaIdentityEvidence} `{!Serde AdaptiveEvidence}.

Definition from_verified_evidence {T} `{!Serde T} (provider_family : EmbeddingProviderFamily) (model_id : string)
    (raw_dimension effective_dimension : Z) (input_contract : ProviderInputContract) (normalization : ProviderNormalization)
    (evidence : T) : result EmbeddingIdentityError EmbeddingBuilderIdentity :=
  reject (negb (safe_identity_label model_id) || (PROVIDER_MAX_EMBEDDING_DIMENSION <? raw_dimension)%Z || (raw_dimension <? effective_dimension)%Z)
    with InvalidIdentityEvidence;
  reject (raw_dimension =? 0)%Z with InvalidIdentityEvidence;
  reject (effective_dimension =? 0)%Z with InvalidIdentityEvidence;
  reject (match normalization with
          | ProviderNative => negb (raw_dimension =? effective_dimension)%Z
          | L2AfterMatryoshkaTruncationV1 => (raw_dimension <=? effective_dimension)%Z
          end) with InvalidIdentityEvidence;
  canonical <-? ok_or (to_vec evidence) InvalidIdentityEvidence;
  Ok (mkIdentity provider_family (sha256_hex (PROVIDER_COMPATIBILITY_DOMAIN +:+ octets canonical)) model_id raw_dimension
        effective_dimension input_contract normalization).

Definition from_ollama_evidence (evidence : OllamaIdentityEvidence) : result EmbeddingIdentityError EmbeddingBuilderIdentity :=
  reject (negb (str_eqb (oe_schema evidence) "plico.embedding.ollama-evidence/v1")
          || negb (canonical_lower_hash (oe_model_digest evidence) 64)
          || str_eqb (oe_server_version evidence) ""
          || Nat.ltb 128 (String.length (oe_server_version evidence))
          || negb (str_eqb (oe_api_contract evidence) "ollama-api-embed-truncate-false/v1"))
    with InvalidIdentityEvidence;
  from_verified_evidence Family_Ollama (oe_model_tag evidence) (oe_raw_dimension evidence) (oe_raw_dimension evidence)
    MemoryTextUtf8V1 ProviderNative evidence.

(** The evidence [with_adaptive_contract] hashes. *)
Definition adaptive_evidence (inner : EmbeddingBuilderIdentity) (transform_contract : EmbeddingTransformContract)
    (target_dimension : option Z) : AdaptiveEvidence :=
  let effective_dimension := default (bi_effective_dimension inner) target_dimension in
  mkAdaptiveEvidence "plico.embedding.adaptive-contract/v1" (bi_provider_compatibility_id inner)
    (transform_as_str transform_contract) target_dimension effective_dimension
    (if (effective_dimension <? bi_raw_dimension inner)%Z then L2AfterMatryoshkaTruncationV1 else ProviderNative).

Definition with_adaptive_contract (inner : EmbeddingBuilderIdentity) (transform_contract : EmbeddingTransformContract)
    (target_dimension : option Z) : result EmbeddingIdentityError EmbeddingBuilderIdentity :=
  reject (match target_dimension with
          | Some d => (d =? 0)%Z || (bi_effective_dimension inner <? d)%Z
          | None => false
          end) with InvalidIdentityEvidence;
  let evidence := adaptive_evidence inner transform_contract target_dimension in
  from_verified_evidence (bi_provider_family inner) (bi_model_id inner) (bi_raw_dimension inner)
    (ae_effective_dimension evidence) (bi_input_contract inner) (ae_normalization evidence) evidence.

(** ** The adaptive wrapper *)

Inductive PrefixContract : Type := Prefix_Identity | Prefix_Qwen3WebSearchV1 | Prefix_CustomUnsupported.

Definition registered_contract (p : PrefixContract) : result EmbeddingIdentityError EmbeddingTransformContract :=
  match p with
  | Prefix_Identity => Ok ProviderNativeInputV1
  | Prefix_Qwen3WebSearchV1 => Ok Qwen3WebSearchV1
  | Prefix_CustomUnsupported => Err UnregisteredInputContract
  end.

Definition newline : string := String (Ascii.ascii_of_N 10) "".
Definition QWEN3_QUERY_PREFIX : string :=
  "Instruct: Given a web search query, retrieve relevant passages that answer the query" +:+ newline +:+ "Query: ".

(** The wrapper without the provider it wraps. *)
Record AdaptiveEmbeddingProvider := mkAdaptive {
  ap_query_prefix : string;
  ap_document_prefix : string;
  ap_target_dim : option Z;
  ap_prefix_contract : PrefixContract;
}.

Definition adaptive_new (inner_has_transform : bool) (inner_dimension : Z) (query_prefix document_prefix : string)
    (target_dim : option Z) : result EmbeddingIdentityError AdaptiveEmbeddingProvider :=
  reject inner_has_transform with InvalidIdentityEvidence;
  reject (match target_dim with
          | Some d => (d =? 0)%Z || (inner_dimension =? 0)%Z || (inner_dimension <? d)%Z
          | None => false
          end) with InvalidIdentityEvidence;
  Ok (mkAdaptive query_prefix document_prefix target_dim
        (if str_eqb query_prefix "" && str_eqb document_prefix "" then Prefix_Identity
         else if str_eqb query_prefix QWEN3_QUERY_PREFIX && str_eqb document_prefix "" then Prefix_Qwen3WebSearchV1
         else Prefix_CustomUnsupported)).

(** [s.replace("\\n", "\n")] *)
Fixpoint unescape_newlines (s : string) : string :=
  match s with
  | String a (String b rest as tail) =>
      if (byte_of a =? 92)%N && (byte_of b =? 110)%N then newline +:+ unescape_newlines rest
      else String a (unescape_newlines tail)
  | s => s
  end.

Definition digit_byte (n : N) : bool := ((48 <=? n) && (n <=? 57))%N.
Fixpoint digits_value (acc : Z) (s : string) : Z :=
  match s with EmptyString => acc | String c s => digits_value (10 * acc + Z.of_N (byte_of c - 48)) s end.
(** [value.parse::<usize>().ok()] *)
Definition parse_usize (s : string) : option Z :=
  let digits := match s with String c rest => if (byte_of c =? 43)%N then rest else s | EmptyString => s end in
  if negb (str_eqb digits "") && all_bytes digit_byte digits && (digits_value 0 digits <=? u64_max)%Z
  then Some (digits_value 0 digits) else None.

(** A variable of the environment: absent, or with a text unless it is not UTF-8. *)
Definition parse_target_dimension (value : option (option string)) : result EmbeddingIdentityError (option Z) :=
  match value with
  | None => Ok None
  | Some text => n <-? ok_or (s ← text; parse_usize s) InvalidIdentityEvidence; Ok (Some n)
  end.

(** [str::to_lowercase] *)
Variable to_lowercase : string -> string.

Definition adaptive_from_env (inner_has_transform : bool) (inner_dimension : Z) (query_prefix document_prefix : option string)
    (embedding_dim : option (option string)) : result EmbeddingIdentityError AdaptiveEmbeddingProvider :=
  target_dim <-? parse_target_dimension embedding_dim;
  adaptive_new inner_has_transform inner_dimension (default EmptyString query_prefix) (default EmptyString document_prefix) target_dim.

Definition adaptive_from_config (inner_has_transform : bool) (inner_dimension : Z) (model_name : string)
    (query_prefix document_prefix : option string) (config_target_dim : option Z) (embedding_dim : option (option string))
    : result EmbeddingIdentityError AdaptiveEmbeddingProvider :=
  env_dim <-? parse_target_dimension embedding_dim;
  let target_dim := match env_dim with Some d => Some d | None => config_target_dim end in
  let query := default EmptyString query_prefix in
  let model := to_lowercase model_name in
  let query := if str_eqb query "" && str_contains "qwen3" model && str_contains "embed" model then QWEN3_QUERY_PREFIX else query in
  adaptive_new inner_has_transform inner_dimension (unescape_newlines query)
    (unescape_newlines (default EmptyString document_prefix)) target_dim.

Definition is_passthrough (a : AdaptiveEmbeddingProvider) : bool :=
  str_eqb (ap_query_prefix a) "" && str_eqb (ap_document_prefix a) "" && negb (opt_is_some (ap_target_dim a)).

Definition effective_dim (a : AdaptiveEmbeddingProvider) (inner_dimension : Z) : Z := default inner_dimension (ap_target_dim a).

Definition f32_finite (x : f32) : bool :=
  match x with SpecFloat.S754_zero _ | SpecFloat.S754_finite _ _ _ => true | _ => false end.
Definition f32_le (x y : f32) : bool := SpecFloat.SFleb x y.
(** Some component is not finite, or all are zero. *)
Definition degenerate (v : list f32) : bool :=
  existsb (fun x => negb (f32_finite x)) v || forallb (fun x => f32_eqb x f32_zero) v.

Definition norm (v : list f32) : f32 := f32_sqrt (foldl f32_add f32_neg_zero ((fun x => f32_mul x x) <$> v)).

(** The normalized vector, or nothing when the test fails. *)
Definition l2_normalize (v : list f32) : option (list f32) :=
  let n := norm v in
  if negb (f32_finite n) || f32_le n f32_1e_10 then None else
  let v := (fun x => f32_div x n) <$> v in
  let n := norm v in
  if f32_finite n && f32_le (f32_abs (f32_sub n (f32_of_Z 1))) (f32_div (f32_of_Z 1) (f32_of_Z 10000)) then Some v else None.

Definition postprocess (a : AdaptiveEmbeddingProvider) (inner_dimension : Z) (r : EmbedResult) : result EmbedError EmbedResult :=
  reject negb (Z.of_nat (length (er_embedding r)) =? inner_dimension)%Z with Api "provider returned unexpected embedding dimension";
  reject degenerate (er_embedding r) with Api "provider returned invalid embedding values";
  match ap_target_dim a with
  | Some td =>
      if (td <? Z.of_nat (length (er_embedding r)))%Z then
        v <-? ok_or (l2_normalize (take (Z.to_nat td) (er_embedding r))) (Api "embedding normalization failed");
        Ok (mkEmbedResult v (er_input_tokens r))
      else Ok r
  | None => Ok r
  end.

Definition prefixed (prefix text : string) : string := if str_eqb prefix "" then text else prefix +:+ text.

(** The text handed to the wrapped provider. *)
Definition adaptive_text (a : AdaptiveEmbeddingProvider) (op : EmbeddingInputOperation) (text : string) : string :=
  match op with
  | Generic => text
  | Query => prefixed (ap_query_prefix a) text
  | Document => prefixed (ap_document_prefix a) text
  end.

(** [embed], [embed_query] and [embed_document], given the answer to the text. *)
Definition adaptive_embed (a : AdaptiveEmbeddingProvider) (inner_dimension : Z) (outcome : result EmbedError EmbedResult)
    : result EmbedError EmbedResult := r <-? outcome; postprocess a inner_dimension r.

Definition adaptive_embed_batch (a : AdaptiveEmbeddingProvider) (inner_dimension : Z) (outcome : result EmbedError (list EmbedResult))
    : result EmbedError (list EmbedResult) := rs <-? outcome; try_map (postprocess a inner_dimension) rs.

Definition adaptive_identity (a : AdaptiveEmbeddingProvider) (inner : result EmbeddingIdentityError EmbeddingBuilderIdentity)
    : result EmbeddingIdentityError EmbeddingBuilderIdentity :=
  inner <-? inner;
  contract <-? registered_contract (ap_prefix_contract a);
  reject (match ap_target_dim a with Some d => (u32_max <? d)%Z | None => false end) with InvalidIdentityEvidence;
  with_adaptive_contract inner contract (ap_target_dim a).

(** ** The caching wrapper *)

Context `{Lru}.

(** What the wrapped provider says of itself when it is asked. *)
Record SelfDescription := mkSelf {
  sd_identity : result EmbeddingIdentityError EmbeddingBuilderIdentity;
  sd_raw_dimension : Z;
  sd_dimension : Z;
}.

Definition identity_unavailable : EmbedError := ServerUnavailable "embedding provider identity unavailable".
Definition identity_changed : EmbedError := ServerUnavailable "embedding provider identity changed".
Definition embed_timed_out : EmbedError := ServerUnavailable "embedding call timed out after 40s (possible reqwest/tokio deadlock)".

(** The checks both paths make after they have a vector. *)
Definition check_current (identity : EmbeddingBuilderIdentity) (self : SelfDescription) (v : list f32) : result EmbedError unit :=
  after <-? map_err (fun _ => identity_unavailable) (sd_identity self);
  reject (negb (bool_decide (after = identity))
          || negb (sd_raw_dimension self =? bi_raw_dimension identity)%Z
          || negb (sd_dimension self =? bi_effective_dimension identity)%Z
          || negb (Z.of_nat (length v) =? bi_effective_dimension identity)%Z
          || degenerate v) with identity_changed;
  Ok tt.

(** Up to the answer, or to the call of the wrapped provider, with the identity
    when there is one. *)
Definition cached_start (text : string) (op : EmbeddingInputOperation)
    (identity : result EmbeddingIdentityError EmbeddingBuilderIdentity) (self : SelfDescription)
    (c : EmbeddingCache (Identity := EmbeddingBuilderIdentity))
    : (result EmbedError EmbedResult + option EmbeddingBuilderIdentity) * EmbeddingCache (Identity := EmbeddingBuilderIdentity) :=
  match identity with
  | Err _ => (inr None, c)
  | Ok identity =>
      match embedding_get text identity op c with
      | (Some v, c) => (inl (_ <-? check_current identity self v; Ok (mkEmbedResult v 0)), c)
      | (None, c) => (inr (Some identity), c)
      end
  end.

(** After the call returned or timed out. *)
Definition cached_finish (now : Z) (text : string) (op : EmbeddingInputOperation) (identity : option EmbeddingBuilderIdentity)
    (outcome : result EmbedError EmbedResult) (self : SelfDescription) (c : EmbeddingCache (Identity := EmbeddingBuilderIdentity))
    : result EmbedError EmbedResult * EmbeddingCache (Identity := EmbeddingBuilderIdentity) :=
  match identity with
  | None => (outcome, c)
  | Some identity =>
      match (r <-? outcome; _ <-? check_current identity self (er_embedding r); Ok r) with
      | Err e => (Err e, c)
      | Ok r => (Ok r, embedding_put now text identity op (er_embedding r) c)
      end
  end.

Definition embed_with_timeout (timed_out : bool) (outcome : result EmbedError EmbedResult) : result EmbedError EmbedResult :=
  if timed_out then Err embed_timed_out else outcome.

Definition embed_cached (now : Z) (text : string) (op : EmbeddingInputOperation)
    (identity : result EmbeddingIdentityError EmbeddingBuilderIdentity) (timed_out : bool) (outcome : result EmbedError EmbedResult)
    (self : SelfDescription) (c : EmbeddingCache (Identity := EmbeddingBuilderIdentity))
    : result EmbedError EmbedResult * EmbeddingCache (Identity := EmbeddingBuilderIdentity) :=
  match cached_start text op identity self c with
  | (inl answer, c) => (answer, c)
  | (inr identity, c) => cached_finish now text op identity (embed_with_timeout timed_out outcome) self c
  end.

(** ** The provider that answers nothing *)

Definition stub_outcome : result EmbedError EmbedResult := Err (ServerUnavailable "No embedding backend available").
Definition stub_self : SelfDescription := mkSelf (Err StubProvider) 384 384.

(** ** Verified snapshots *)

Definition snapshot_verify (self : SelfDescription) : result EmbeddingIdentityError EmbeddingBuilderIdentity :=
  identity <-? sd_identity self;
  reject (negb (sd_raw_dimension self =? bi_raw_dimension identity)%Z || negb (sd_dimension self =? bi_effective_dimension identity)%Z)
    with ProviderChanged;
  Ok identity.

Definition snapshot_verify_exact (self : SelfDescription) (expected : EmbeddingBuilderIdentity)
    : result EmbeddingIdentityError EmbeddingBuilderIdentity :=
  identity <-? snapshot_verify self;
  reject negb (bool_decide (identity = expected)) with ProviderChanged;
  Ok identity.

Definition snapshot_revalidate (identity : EmbeddingBuilderIdentity) (self : SelfDescription) : result EmbeddingIdentityError unit :=
  snapshot_verify_exact self identity ?>> Ok tt.
End identity.

(** ** Providers that share a cache

    Any number of threads ask wrapped providers that share one cache.  A call is
    two steps, up to the call of the wrapped provider and from its answer on;
    the steps of different calls and invalidations come in any order, and what
    the provider says of itself may differ each time it is asked. *)

Section sharing.
Context `{Platform} `{!Serde OllamaIdentityEvidence} `{!Serde AdaptiveEvidence} `{Lru}.
Notation Cache := (EmbeddingCache (Identity := EmbeddingBuilderIdentity)).

Definition adaptive_self (a : AdaptiveEmbeddingProvider) (inner : SelfDescription) : SelfDescription :=
  mkSelf (adaptive_identity a (sd_identity inner)) (sd_raw_dimension inner) (effective_dim a (sd_dimension inner)).

(** A call under way: who asks what, and what the wrapped provider was at the start. *)
Record ProviderCall := mkCall {
  ca_adaptive : AdaptiveEmbeddingProvider;
  ca_text : string;
  ca_op : EmbeddingInputOperation;
  ca_inner : SelfDescription;
}.
Definition ca_identity (c : ProviderCall) : result EmbeddingIdentityError EmbeddingBuilderIdentity :=
  adaptive_identity (ca_adaptive c) (sd_identity (ca_inner c)).

(** An answer, with the dimension and the answer of the wrapped provider unless it
    comes from the cache. *)
Record Answer := mkAnswer {
  an_call : ProviderCall;
  an_result : result EmbedError EmbedResult;
  an_source : option (Z * result EmbedError EmbedResult);
}.

Inductive SharedEvent : Type :=
  | Ask (thread : nat) (call : ProviderCall) (after : SelfDescription)
  | Return (thread : nat) (now : Z) (timed_out : bool) (dimension : Z) (raw : result EmbedError EmbedResult) (after : SelfDescription)
  | Invalidate (text : string)
  | InvalidateAll.

Record Shared := mkShared {
  sh_cache : Cache;
  sh_calls : gmap nat ProviderCall;
  sh_answers : list Answer;
}.

Definition shared_step (s : Shared) (ev : SharedEvent) : Shared :=
  match ev with
  | Ask t call after =>
      match cached_start (ca_text call) (ca_op call) (ca_identity call) (adaptive_self (ca_adaptive call) after) (sh_cache s) with
      | (inl r, c) => mkShared c (sh_calls s) (sh_answers s ++ [mkAnswer call r None])
      | (inr _, c) => mkShared c (<[t := call]> (sh_calls s)) (sh_answers s)
      end
  | Return t now timed_out dimension raw after =>
      match sh_calls s !! t with
      | None => s
      | Some call =>
          let identity := match ca_identity call with Ok i => Some i | Err _ => None end in
          let outcome := embed_with_timeout timed_out (adaptive_embed (ca_adaptive call) dimension raw) in
          let '(r, c) := cached_finish now (ca_text call) (ca_op call) identity outcome (adaptive_self (ca_adaptive call) after) (sh_cache s) in
          mkShared c (delete t (sh_calls s)) (sh_answers s ++ [mkAnswer call r (Some (dimension, raw))])
      end
  | Invalidate text => mkShared (embedding_invalidate text (sh_cache s)) (sh_calls s) (sh_answers s)
  | InvalidateAll => mkShared (embedding_invalidate_all (sh_cache s)) (sh_calls s) (sh_answers s)
  end.

Definition shared_new (max_entries : nat) : Shared := mkShared (embedding_cache_new max_entries) ∅ [].

(** The two steps of a call, with nothing between them, are [embed_cached]. *)
Lemma embed_cached_steps s t call now timed_out dimension raw after :
  let s' := shared_step (shared_step s (Ask t call after)) (Return t now timed_out dimension raw after) in
  sh_calls s !! t = None ->
  let '(r, c) := embed_cached now (ca_text call) (ca_op call) (ca_identity call) timed_out
                   (adaptive_embed (ca_adaptive call) dimension raw) (adaptive_self (ca_adaptive call) after) (sh_cache s) in
  sh_cache s' = c /\ exists src, sh_answers s' = sh_answers s ++ [mkAnswer call r src].
Proof.
  intros s' Ht. unfold s', embed_cached. cbn [shared_step].
  assert (forall o c, cached_start (ca_text call) (ca_op call) (ca_identity call) (adaptive_self (ca_adaptive call) after) (sh_cache s) = (inr o, c) ->
    o = match ca_identity call with Ok i => Some i | Err _ => None end) as Hid.
  { intros o c. unfold cached_start. destruct (ca_identity call) as [i|]; [|by intros [= <- _]].
    destruct (embedding_get _ _ _ _) as [[v|] c']; [done|]. by intros [= <- _]. }
  destruct (cached_start _ _ _ _ _) as [[r|o] c] eqn:Hs; cbn [sh_calls sh_cache sh_answers].
  - rewrite Ht. split; [done|]. by exists None.
  - rewrite lookup_insert_eq, (Hid o c eq_refl). cbn [sh_cache sh_answers].
    destruct (cached_finish _ _ _ _ _ _ _) as [r c']. split; [done|]. by eexists.
Qed.

(** *** What is in the cache *)

(** [x] is an answer a provider gave for the key, and [v] its vector. *)
Record gave (x : Answer) (k : EmbeddingCacheKey (Identity := EmbeddingBuilderIdentity)) (v : list f32) : Prop := {
  gv_text : key_text_hash k = from_text (ca_text (an_call x));
  gv_op : key_operation k = ca_op (an_call x);
  gv_identity : ca_identity (an_call x) = Ok (key_builder_identity k);
  gv_source : exists dimension raw r, an_source x = Some (dimension, raw) /\ an_result x = Ok r /\ er_embedding r = v /\
    adaptive_embed (ca_adaptive (an_call x)) dimension raw = Ok r;
}.

Definition provided (answers : list Answer) (c : Cache) : Prop :=
  forall k e, (k, e) ∈ lru_entries (ec_cache c) -> exists x, x ∈ answers /\ gave x k (ece_embedding e).

Lemma provided_more answers x c : provided answers c -> provided (answers ++ [x]) c.
Proof. intros Hp k e He. destruct (Hp k e He) as (y & Hy & Hg). exists y. split; [set_solver|done]. Qed.

Lemma provided_sub answers c c' :
  provided answers c -> (forall k e, (k, e) ∈ lru_entries (ec_cache c') -> exists e', (k, e') ∈ lru_entries (ec_cache c) /\ ece_embedding e' = ece_embedding e) ->
  provided answers c'.
Proof. intros Hp Hsub k e He. destruct (Hsub k e He) as (e' & He' & <-). by apply Hp. Qed.

Lemma get_entries text identity op (c : Cache) k e :
  (k, e) ∈ lru_entries (ec_cache (embedding_get text identity op c).2) ->
  exists e', (k, e') ∈ lru_entries (ec_cache c) /\ ece_embedding e' = ece_embedding e.
Proof.
  unfold embedding_get. set (j := mkKey _ _ _). set (f := fun e => _).
  destruct (lru_get_spec j f (ec_cache c)) as (_ & _ & Hm). destruct (lru_get_mut _ _ _) as [r m]. cbn [snd] in Hm.
  assert ((k, e) ∈ lru_entries m -> exists e', (k, e') ∈ lru_entries (ec_cache c) /\ ece_embedding e' = ece_embedding e) as Hgoal.
  { rewrite Hm. destruct (assoc_get j _) as [e0|] eqn:Hj; [|eauto]. intros [[= -> ->]|He]%elem_of_cons.
    - exists e0. split; [by apply assoc_get_elem|done].
    - apply elem_of_drop in He as [He _]. eauto. }
  destruct r; cbn; exact Hgoal.
Qed.

Lemma get_found text identity op (c : Cache) v :
  (embedding_get text identity op c).1 = Some v ->
  exists e, (mkKey (from_text text) identity op, e) ∈ lru_entries (ec_cache c) /\ ece_embedding e = v.
Proof.
  unfold embedding_get. set (j := mkKey _ _ _). set (f := fun e => _).
  destruct (lru_get_spec j f (ec_cache c)) as (Hg & _ & _). destruct (lru_get_mut _ _ _) as [r m]. cbn [fst] in Hg.
  destruct r as [e|]; cbn; [|done]. intros [= <-]. exists e. split; [|done]. symmetry in Hg. by apply assoc_get_elem.
Qed.

Lemma put_entries now text identity op v (c : Cache) k e :
  (k, e) ∈ lru_entries (ec_cache (embedding_put now text identity op v c)) ->
  (k = mkKey (from_text text) identity op /\ ece_embedding e = v) \/ (k, e) ∈ lru_entries (ec_cache c).
Proof.
  unfold embedding_put. cbn [ec_cache]. set (j := mkKey _ _ _).
  destruct (lru_put_spec j (mkEmbeddingEntry v now 0) (ec_cache c)) as [_ ->].
  intros (i & Hi & _)%elem_of_take. apply list_elem_of_lookup_2 in Hi. apply elem_of_cons in Hi as [[= -> ->]|Hi]; [by left|].
  apply elem_of_drop in Hi as [Hi _]. by right.
Qed.

Lemma pops_entries (m : lru (EmbeddingCacheKey (Identity := EmbeddingBuilderIdentity)) EmbeddingCacheEntry) keys x :
  x ∈ lru_entries (foldl (fun m j => (lru_pop j m).2) m keys) -> x ∈ lru_entries m.
Proof.
  revert m. induction keys as [|j keys IH]; intros m Hx; [done|]. cbn in Hx. apply IH in Hx.
  destruct (lru_pop_spec j m) as (_ & _ & He). rewrite He in Hx. by apply elem_of_drop in Hx as [Hx _].
Qed.

Lemma finish_provided answers now call dimension raw timed_out after (c : Cache) :
  provided answers c ->
  let identity := match ca_identity call with Ok i => Some i | Err _ => None end in
  let '(r, c') := cached_finish now (ca_text call) (ca_op call) identity
                    (embed_with_timeout timed_out (adaptive_embed (ca_adaptive call) dimension raw)) after c in
  provided (answers ++ [mkAnswer call r (Some (dimension, raw))]) c'.
Proof.
  intros Hp identity. unfold cached_finish, identity. destruct (ca_identity call) as [i|] eqn:Hi; [|by apply provided_more].
  unfold embed_with_timeout. destruct timed_out; [by apply provided_more|].
  destruct (adaptive_embed _ _ _) as [r|] eqn:Hr; [|by apply provided_more].
  destruct (check_current i after (er_embedding r)); [|by apply provided_more].
  intros k e [[-> He]|He]%put_entries; [|by apply (provided_more answers _ c Hp)].
  eexists. split; [apply elem_of_app; right; left|]. constructor; [done|done|done|]. cbn. eauto 10.
Qed.

Lemma step_provided s ev :
  provided (sh_answers s) (sh_cache s) -> provided (sh_answers (shared_step s ev)) (sh_cache (shared_step s ev)).
Proof.
  intros Hp. destruct ev as [t call after|t now timed_out dimension raw after|text|]; cbn [shared_step].
  - assert (provided (sh_answers s) (cached_start (ca_text call) (ca_op call) (ca_identity call)
      (adaptive_self (ca_adaptive call) after) (sh_cache s)).2) as Hc.
    { unfold cached_start. destruct (ca_identity call) as [i|]; [|done].
      pose proof (get_entries (ca_text call) i (ca_op call) (sh_cache s)) as Hg.
      destruct (embedding_get _ _ _ _) as [[v|] c]; by apply (provided_sub _ (sh_cache s)). }
    destruct (cached_start _ _ _ _ _) as [[r|o] c]; [by apply provided_more|done].
  - destruct (sh_calls s !! t) as [call|]; [|done]. cbv zeta.
    pose proof (finish_provided (sh_answers s) now call dimension raw timed_out (adaptive_self (ca_adaptive call) after) (sh_cache s) Hp) as Hf.
    cbv zeta in Hf. by destruct (cached_finish _ _ _ _ _ _ _) as [r c].
  - intros k e He. apply Hp. by apply pops_entries in He.
  - intros k e He. cbn in He. destruct (lru_clear_spec (ec_cache (sh_cache s))) as [Hn _]. rewrite Hn in He. by apply not_elem_of_nil in He.
Qed.

(** *** The identity binds the transformation *)

(** Made by the constructor. *)
Definition adaptive_made (a : AdaptiveEmbeddingProvider) : Prop :=
  exists has dim q d target, adaptive_new has dim q d target = Ok a.

Definition collision : Prop := exists s1 s2, s1 <> s2 /\ sha256_hex s1 = sha256_hex s2.

Lemma registered_prefixes a t :
  adaptive_made a -> registered_contract (ap_prefix_contract a) = Ok t ->
  ap_query_prefix a = (match t with ProviderNativeInputV1 => EmptyString | Qwen3WebSearchV1 => QWEN3_QUERY_PREFIX end) /\
  ap_document_prefix a = EmptyString.
Proof.
  intros (has & dim & q & d & target & Ha). unfold adaptive_new in Ha. destruct has; [done|].
  destruct (match target with Some _ => _ | None => _ end); [done|]. apply Ok_inj in Ha as <-. cbn.
  destruct (str_eqb q "" && str_eqb d "") eqn:E1; [|destruct (str_eqb q QWEN3_QUERY_PREFIX && str_eqb d "") eqn:E2]; cbn; try done.
  - intros [= <-]. apply andb_true_iff in E1 as [E1 E3]. by breflect.
  - intros [= <-]. apply andb_true_iff in E2 as [E2 E3]. by breflect.
Qed.

Lemma hash_equal (domain s1 s2 : string) : sha256_hex (domain +:+ s1) = sha256_hex (domain +:+ s2) -> s1 = s2 \/ collision.
Proof.
  intros Hh. destruct (decide (domain +:+ s1 = domain +:+ s2)) as [He|Hne]; [|right; by exists (domain +:+ s1), (domain +:+ s2)].
  left. induction domain as [|c domain IH]; [done|]. cbn in He. injection He as He. apply IH; [|done]. by rewrite He.
Qed.

Lemma contract_evidence i t target id :
  with_adaptive_contract i t target = Ok id ->
  exists b, to_vec (adaptive_evidence i t target) = Some b /\
    bi_provider_compatibility_id id = sha256_hex (PROVIDER_COMPATIBILITY_DOMAIN +:+ octets b).
Proof.
  unfold with_adaptive_contract, from_verified_evidence. intros Hid. cbv zeta in Hid.
  repeat match type of Hid with context [if ?b then _ else _] => destruct b; [done|] end.
  destruct (to_vec _) as [b|]; [|done]. cbn in Hid. apply Ok_inj in Hid as <-. by exists b.
Qed.

(** The canonical form of the evidence determines it. *)
Definition evidence_read_back : Prop := forall (e1 e2 : AdaptiveEvidence) b1 b2,
  to_vec e1 = Some b1 -> to_vec e2 = Some b2 -> octets b1 = octets b2 -> e1 = e2.

Lemma identity_binds_transform a1 a2 i1 i2 id :
  evidence_read_back -> adaptive_made a1 -> adaptive_made a2 ->
  adaptive_identity a1 (Ok i1) = Ok id -> adaptive_identity a2 (Ok i2) = Ok id ->
  (a1 = a2 /\ bi_provider_compatibility_id i1 = bi_provider_compatibility_id i2) \/ collision.
Proof.
  intros Hcodec Hm1 Hm2 H1' H2'. unfold adaptive_identity in H1', H2'.
  destruct (registered_contract (ap_prefix_contract a1)) as [t1|] eqn:Ht1; [|done].
  destruct (registered_contract (ap_prefix_contract a2)) as [t2|] eqn:Ht2; [|done]. cbn in H1', H2'.
  destruct (match ap_target_dim a1 with Some _ => _ | None => _ end); [done|].
  destruct (match ap_target_dim a2 with Some _ => _ | None => _ end); [done|].
  apply contract_evidence in H1' as (b1 & Hb1 & Hc1). apply contract_evidence in H2' as (b2 & Hb2 & Hc2).
  rewrite Hc1 in Hc2. apply hash_equal in Hc2 as [Ho|]; [left|by right].
  pose proof (Hcodec _ _ _ _ Hb1 Hb2 Ho) as He. unfold adaptive_evidence in He. cbv zeta in He. injection He as Hi Ht Htd _ _.
  assert (t1 = t2) as <- by (by destruct t1, t2). split; [|done].
  destruct (registered_prefixes a1 t1 Hm1 Ht1) as [Hq1 Hd1]. destruct (registered_prefixes a2 t1 Hm2 Ht2) as [Hq2 Hd2].
  destruct a1 as [q1 d1 td1 c1], a2 as [q2 d2 td2 c2]. cbn in *. subst. f_equal. by destruct t1, c1, c2.
Qed.

(** *** Answers from the cache *)

(** [x] comes from the cache and repeats an answer among [before], for the same
    text and operation, of a provider of the same identity that still has it. *)
Record repeats (before : list Answer) (x : Answer) (r : EmbedResult) (y : Answer) : Prop := {
  rp_in : y ∈ before;
  rp_identity : exists id, ca_identity (an_call x) = Ok id /\
    gave y (mkKey (from_text (ca_text (an_call x))) id (ca_op (an_call x))) (er_embedding r) /\
    Z.of_nat (length (er_embedding r)) = bi_effective_dimension id /\ degenerate (er_embedding r) = false;
}.

Definition from_cache_ok (before : list Answer) (x : Answer) : Prop :=
  forall r, an_source x = None -> an_result x = Ok r -> exists y, repeats before x r y.

Lemma start_answer s call after r c :
  provided (sh_answers s) (sh_cache s) ->
  cached_start (ca_text call) (ca_op call) (ca_identity call) after (sh_cache s) = (inl (Ok r), c) ->
  exists y, repeats (sh_answers s) (mkAnswer call (Ok r) None) r y.
Proof.
  intros Hp Hs. unfold cached_start in Hs. destruct (ca_identity call) as [id|] eqn:Hid; [|done].
  pose proof (get_found (ca_text call) id (ca_op call) (sh_cache s)) as Hg.
  destruct (embedding_get _ _ _ _) as [[v|] c']; [|done]. cbn [fst] in Hg. destruct (Hg v eq_refl) as (e & He & Hv).
  injection Hs as Hs _. destruct (check_current id after v) as [[]|] eqn:Hc; [|done]. apply Ok_inj in Hs as <-.
  unfold check_current in Hc. destruct (map_err _ _) as [after_id|]; [|done]. cbn in Hc.
  destruct (_ || degenerate v) eqn:Hb in Hc; [done|]. apply orb_false_iff in Hb as [Hb Hdeg]. apply orb_false_iff in Hb as [_ Hlen].
  apply negb_false_iff, Z.eqb_eq in Hlen. destruct (Hp _ _ He) as (y & Hy & Hgave). exists y.
  constructor; [done|]. exists id. cbn. rewrite Hv in Hgave. done.
Qed.

Lemma shared_answers s ev :
  provided (sh_answers s) (sh_cache s) -> prefix_ok from_cache_ok (sh_answers s) -> prefix_ok from_cache_ok (sh_answers (shared_step s ev)).
Proof.
  intros Hp Hok. destruct ev as [t call after|t now timed_out dimension raw after|text|]; cbn [shared_step]; [| |done..].
  - destruct (cached_start _ _ _ _ _) as [[r|o] c] eqn:Hs; [|done]. apply prefix_ok_snoc. split; [done|].
    intros r' _ Hr. cbn in Hr. subst r. by eapply start_answer.
  - destruct (sh_calls s !! t) as [call|]; [|done]. cbv zeta. destruct (cached_finish _ _ _ _ _ _ _) as [r c].
    apply prefix_ok_snoc. by split.
Qed.

Lemma shared_calls (W : ProviderCall -> Prop) events s :
  (forall t call after, Ask t call after ∈ events -> W call) ->
  map_Forall (fun _ => W) (sh_calls s) -> Forall (fun x => W (an_call x)) (sh_answers s) ->
  Forall (fun x => W (an_call x)) (sh_answers (foldl shared_step s events)).
Proof.
  revert s. induction events as [|ev events IH]; intros s Hev Hc Ha; [done|]. cbn [foldl].
  assert (map_Forall (fun _ => W) (sh_calls (shared_step s ev)) /\ Forall (fun x => W (an_call x)) (sh_answers (shared_step s ev))) as [Hc' Ha'].
  { destruct ev as [t call after|t now timed_out dimension raw after|text|]; cbn [shared_step]; [| |done..].
    - assert (W call) as Hw by (eapply Hev; left). destruct (cached_start _ _ _ _ _) as [[r|o] c]; cbn [sh_calls sh_answers].
      + split; [done|]. apply Forall_app. by repeat constructor.
      + split; [by apply map_Forall_insert_2|done].
    - destruct (sh_calls s !! t) as [call|] eqn:Ht; [|done]. cbv zeta. destruct (cached_finish _ _ _ _ _ _ _) as [r c].
      cbn [sh_calls sh_answers]. split; [by apply map_Forall_delete|]. apply Forall_app. split; [done|].
      constructor; [by eapply (map_Forall_lookup_1 _ _ _ _ Hc)|done]. }
  apply IH; [|done..]. intros t call after Hin. eapply Hev. by right.
Qed.

Lemma shared_run_ok max_entries events :
  let s := foldl shared_step (shared_new max_entries) events in
  provided (sh_answers s) (sh_cache s) /\ prefix_ok from_cache_ok (sh_answers s).
Proof.
  cbv zeta. induction events as [|ev events [Hp Hok]] using rev_ind.
  - split; [|apply prefix_ok_nil]. intros k e He. cbn in He.
    destruct (lru_new_spec (K := EmbeddingCacheKey (Identity := EmbeddingBuilderIdentity)) (V := EmbeddingCacheEntry) (nonzero max_entries)) as [Hn _].
    rewrite Hn in He. by apply not_elem_of_nil in He.
  - rewrite foldl_app. cbn [foldl]. split; [by apply step_provided|by apply shared_answers].
Qed.

(** C36: cached embeddings are the asking provider's own.  Whatever providers
    share the cache and however their calls, changes of identity and
    invalidations interleave, an embedding answered from the cache is of the
    dimension the asking provider announces, not degenerate, and the one a
    provider with the same prefixes and truncation over a wrapped provider of the
    same identity had computed earlier from the answer to exactly the same text;
    otherwise two different texts with the same SHA-256 have been found. *)
Theorem cached_embeddings_are_own max_entries events before x after r :
  evidence_read_back ->
  (forall t call self, Ask t call self ∈ events -> adaptive_made (ca_adaptive call)) ->
  sh_answers (foldl shared_step (shared_new max_entries) events) = before ++ x :: after ->
  an_source x = None -> an_result x = Ok r ->
  (exists id, ca_identity (an_call x) = Ok id /\ Z.of_nat (length (er_embedding r)) = bi_effective_dimension id /\
     degenerate (er_embedding r) = false) /\
  ((exists y dimension raw ry i1 i2, y ∈ before /\ an_source y = Some (dimension, raw) /\
      ca_op (an_call y) = ca_op (an_call x) /\ ca_text (an_call y) = ca_text (an_call x) /\
      adaptive_text (ca_adaptive (an_call y)) (ca_op (an_call x)) (ca_text (an_call x)) =
        adaptive_text (ca_adaptive (an_call x)) (ca_op (an_call x)) (ca_text (an_call x)) /\
      adaptive_embed (ca_adaptive (an_call x)) dimension raw = Ok ry /\ er_embedding ry = er_embedding r /\
      sd_identity (ca_inner (an_call y)) = Ok i1 /\ sd_identity (ca_inner (an_call x)) = Ok i2 /\
      bi_provider_compatibility_id i1 = bi_provider_compatibility_id i2) \/
   collision).
Proof.
  intros Hcodec Hmade Hans Hsrc Hres. destruct (shared_run_ok max_entries events) as [_ Hok].
  pose proof (shared_calls (fun call => adaptive_made (ca_adaptive call)) events (shared_new max_entries) Hmade
    (map_Forall_empty _) (Forall_nil_2 _)) as Hall. rewrite Hans in Hok, Hall.
  destruct (Hok before x after eq_refl r Hsrc Hres) as (y & Hy & id & Hid & [Htext Hop Hyid (dimension & raw & ry & Hys & Hyr & Hv & Hye)] & Hlen & Hdeg).
  split; [by exists id|]. cbn in Htext, Hop, Hyid.
  apply Forall_app in Hall as [Hbefore [Hx _]%Forall_cons]. rewrite Forall_forall in Hbefore. specialize (Hbefore y Hy). cbn in Hbefore, Hx.
  apply hash_equal in Htext as [Htext|]; [|by right].
  unfold ca_identity in Hid, Hyid.
  destruct (sd_identity (ca_inner (an_call x))) as [i2|] eqn:Hi2; [|done].
  destruct (sd_identity (ca_inner (an_call y))) as [i1|] eqn:Hi1; [|done].
  destruct (identity_binds_transform _ _ i1 i2 id Hcodec Hbefore Hx Hyid Hid) as [[Ha Hi]|]; [left|by right].
  exists y, dimension, raw, ry, i1, i2. rewrite Ha in *. by split_and!.
Qed.
End sharing.

(** ** Two calls *)

Section two_calls.
#[local] Existing Instance echo_platform.

Definition evidence_tuple (e : AdaptiveEvidence) : string * string * string * option Z * Z * bool :=
  (ae_schema e, ae_inner_provider_compatibility_id e, ae_prefix_contract_id e, ae_requested_target_dimension e,
   ae_effective_dimension e, bool_decide (ae_normalization e = ProviderNative)).
#[local] Instance plain_evidence : Serde AdaptiveEvidence := {|
  to_vec e := Some (text_encode (evidence_tuple e)); from_slice _ := None |}.

Lemma plain_evidence_read_back : evidence_read_back.
Proof.
  intros e1 e2 b1 b2 [= <-] [= <-] He. cbn in He.
  apply (f_equal (text_decode (A := string * string * string * option Z * Z * bool))) in He.
  rewrite !text_decode_encode in He. injection He as H1 H2 H3 H4 H5 H6. destruct e1 as [a1 b1 c1 d1 f1 n1], e2 as [a2 b2 c2 d2 f2 n2].
  cbn in *. subst. f_equal. by destruct n1, n2.
Qed.

Definition plain_inner : SelfDescription :=
  mkSelf (Ok (mkIdentity Family_Ollama "inner" "model" 2 2 MemoryTextUtf8V1 ProviderNative)) 2 2.
Definition plain_adaptive : AdaptiveEmbeddingProvider := mkAdaptive "" "" None Prefix_Identity.
Definition plain_call : ProviderCall := mkCall plain_adaptive "text" Document plain_inner.
Definition plain_vector : list f32 := [f32_of_Z 1; f32_of_Z 2].
Definition plain_events : list SharedEvent :=
  [Ask 0 plain_call plain_inner; Return 0 5 false 2 (Ok (mkEmbedResult plain_vector 3)) plain_inner; Ask 1 plain_call plain_inner].

Definition plain_answers : list Answer := sh_answers (foldl shared_step (shared_new 4) plain_events).
Definition plain_first : Answer := mkAnswer plain_call (Ok (mkEmbedResult plain_vector 3)) (Some (2%Z, Ok (mkEmbedResult plain_vector 3))).
Definition plain_second : Answer := mkAnswer plain_call (Ok (mkEmbedResult plain_vector 0)) None.

Lemma plain_made : adaptive_made plain_adaptive.
Proof. by exists false, 2%Z, EmptyString, EmptyString, None. Qed.

Lemma cached_embeddings_are_own_witness :
  plain_answers = [plain_first] ++ plain_second :: [] /\ degenerate plain_vector = false.
Proof.
  assert (plain_answers = [plain_first] ++ plain_second :: []) as Hrun by (vm_compute; reflexivity).
  split; [exact Hrun|].
  destruct (cached_embeddings_are_own 4 plain_events [plain_first] plain_second [] (mkEmbedResult plain_vector 0)
    plain_evidence_read_back) as [(id & _ & _ & Hd) _]; [|exact Hrun|reflexivity|reflexivity|exact Hd].
  intros t call self Hin. unfold plain_events in Hin.
  apply elem_of_cons in Hin as [Hin|Hin]; [injection Hin as _ Hin _; rewrite Hin; exact plain_made|].
  apply elem_of_cons in Hin as [Hin|Hin]; [discriminate Hin|].
  apply list_elem_of_singleton in Hin. injection Hin as _ Hin _. rewrite Hin. exact plain_made.
Defined.
End two_calls.
