(* ===== verification/ProjectionController.v ===== *)
(** * The projection controller ([src/src/memory/projection/coordinator_core.rs],
      [src/src/kernel/ops/projection_controller/mod.rs])

    The coordinator core opens the manifest store, selects what an owner may
    rebuild and answers status questions; the controller combines it with the
    canonical ledger and one verified provider into claims, builds and their
    publication.  The files under the store answer as they like
    ([ProjectionFiles]); the ledger and the provider may be different each time
    they are looked at. *)

From stdpp Require Import base gmap strings list.
From S2P Require Import Prelude Wire Text Float32 MemoryModel LedgerModel LedgerStorage ProjectionModel LedgerStore LedgerQueries CircuitBreaker ProjectionView ProjectionLifecycle ProjectionPlan ProjectionPlanProps EdgeCache Embeddings.

(** ** Types *)

Inductive ProjectionPairResetReason : Type :=
  | ManifestIncomplete | ManifestIntegrityInvalid | StorageLayoutInvalid | CanonicalLineageInvalid.

Inductive ProjectionStoreUnavailable : Type :=
  | Store_VaultLocked | Store_PermissionDenied | Store_StorageIo | Store_ResourceExhausted.

Inductive ProjectionStoreInspection : Type :=
  | Found_Absent
  | Found_GenesisOnly
  | Found_Valid (event_watermark : Z)
  | Found_RepairRequired (count : nat)
  | Found_ResetRequired (reason : ProjectionPairResetReason)
  | Found_UnsupportedFormat
  | Found_Unavailable (category : ProjectionStoreUnavailable)
  | Found_ResetPending
  | Found_MaintenanceRequired
  | Found_ManualIntervention.

Inductive ProjectionCoreUnavailable : Type :=
  | Core_VaultLocked | Core_PermissionDenied | Core_StorageIo | Core_ResourceExhausted.

Inductive ProjectionCoreInspection : Type :=
  | Core_Absent
  | Core_GenesisOnly
  | Core_Existing (repair_count : nat)
  | Core_Exact (repair_count : nat)
  | Core_BuilderMismatch
  | Core_ResetRequired (reason : ProjectionPairResetReason)
  | Core_UnsupportedFormat
  | Core_Unavailable (category : ProjectionCoreUnavailable)
  | Core_ResetPending
  | Core_MaintenanceRequired
  | Core_ManualIntervention.

Inductive ProjectionCoreOpenError : Type :=
  | Open_NotInitialized
  | Open_BuilderChangeRequiresOwner
  | Open_ResetRequired
  | Open_UnsupportedFormat
  | Open_Unavailable
  | Open_ResetPending
  | Open_MaintenanceRequired
  | Open_ManualIntervention
  | Open_Projection (e : ProjectionError).

Inductive ProjectionRebuildSelector : Type :=
  | CurrentRevision (revision_id : MemoryRevisionId)
  | AllEligible.

Inductive ProjectionRebuildError : Type :=
  | Rebuild_NotFound
  | Rebuild_NotEligible
  | Rebuild_NothingToRebuild
  | Rebuild_Projection (e : ProjectionError).

(** The receipts of a rebuild and of a cutover have the same fields. *)
Record ProjectionDurableReceipt := mkDurableReceipt {
  dr_selected_count : Z;
  dr_manifest_generation : Z;
  dr_event_watermark : Z;
  dr_reconciled_source : CanonicalWatermark;
}.

Inductive ProjectionStatusState : Type :=
  | Status_AbsentByPolicy (reason : AbsentReason)
  | Status_Queued (reason : QueueReason)
  | Status_Building
  | Status_Ready
  | Status_Failed (attempt : Z) (failure_category : FailureCategory) (retryable : bool) (retry_not_before : option Z)
  | Status_Stale (reason : StaleReason).

Inductive ProjectionStatusObservation : Type :=
  | Observed (revision_id : MemoryRevisionId) (content_hash : CanonicalContentHash) (state : ProjectionStatusState)
      (event_watermark : Z) (reconciled_source : CanonicalWatermark)
  | Unreconciled (revision_id : MemoryRevisionId) (content_hash : CanonicalContentHash)
      (event_watermark : Z) (reconciled_source : CanonicalWatermark).

(** The store behind an [Arc]: its state and the identifier of the reset it came from. *)
Record ProjectionManifestStore := mkManifestStore {
  pm_state : ProjectionStoreState;
  pm_reset_operation_id : option string;
}.

(** How the files answer while one call opens or changes the store, and when. *)
Record ProjectionFiles := mkFiles {
  pf_inspect : CanonicalProjectionSnapshot -> result ProjectionError ProjectionStoreInspection;
  pf_builder_match : CanonicalProjectionSnapshot -> string -> result ProjectionError unit;
  pf_bootstrap : CanonicalProjectionSnapshot -> result ProjectionError ProjectionManifestStore;
  pf_open_genesis : CanonicalProjectionSnapshot -> result ProjectionError ProjectionManifestStore;
  pf_open_initialized : CanonicalProjectionSnapshot -> result ProjectionError ProjectionManifestStore;
  pf_open_matching : CanonicalProjectionSnapshot -> string -> result ProjectionError ProjectionManifestStore;
  pf_reset : CanonicalProjectionSnapshot -> result ProjectionError ProjectionManifestStore;
  pf_recover : CanonicalProjectionSnapshot -> result ProjectionError ProjectionManifestStore;
  (** [inspect_ready_artifacts] *)
  pf_artifact_issues : ProjectionCurrentView -> result ProjectionError (list ArtifactIssue);
  pf_activate : StoreOutcome * Z;
  (** Of a reconciliation: its outcome, when it plans and when it commits. *)
  pf_reconcile : StoreOutcome * Z * Z;
  pf_rebuild : StoreOutcome * Z;
}.

Definition map_unavailable (c : ProjectionStoreUnavailable) : ProjectionCoreUnavailable :=
  match c with
  | Store_VaultLocked => Core_VaultLocked
  | Store_PermissionDenied => Core_PermissionDenied
  | Store_StorageIo => Core_StorageIo
  | Store_ResourceExhausted => Core_ResourceExhausted
  end.

(** ** What an owner may rebuild *)

Definition require_all_eligible_selector (selector : ProjectionRebuildSelector) : result ProjectionError unit :=
  match selector with AllEligible => Ok tt | CurrentRevision _ => Err P_AllEligibleRequired end.

Definition revision_is_eligible (r : CanonicalRevision) : bool :=
  negb (opt_is_some (r_deleted_at r))
  && (bool_decide (r_cognitive_tier r = Tier_Working) || bool_decide (r_cognitive_tier r = Tier_LongTerm))
  && match r_content r with Text text => negb (blank text) | _ => false end.

Definition has_child (revisions : list CanonicalRevision) (id : MemoryRevisionId) : bool :=
  existsb (fun c => bool_decide (r_parent_revision_id c = Some id)) revisions.

Definition current_revision (canonical : CanonicalProjectionSnapshot) (id : MemoryRevisionId) : option CanonicalRevision :=
  revision ← List.find (fun r => str_eqb (r_revision_id r) id) (cps_revisions canonical);
  if has_child (cps_revisions canonical) id then None else Some revision.

Definition select_rebuild_targets (selector : ProjectionRebuildSelector) (canonical : CanonicalProjectionSnapshot)
    : result ProjectionRebuildError (list MemoryRevisionId) :=
  match selector with
  | CurrentRevision id =>
      revision <-? ok_or (current_revision canonical id) Rebuild_NotFound;
      reject opt_is_some (r_deleted_at revision) with Rebuild_NotFound;
      reject negb (revision_is_eligible revision) with Rebuild_NotEligible;
      Ok [r_revision_id revision]
  | AllEligible =>
      let children : gset string := list_to_set (omap r_parent_revision_id (cps_revisions canonical)) in
      let selected := r_revision_id <$>
        List.filter revision_is_eligible
          (List.filter (fun r => negb (bool_decide (r_revision_id r ∈ children))) (cps_revisions canonical)) in
      match selected with [] => Err Rebuild_NothingToRebuild | _ => Ok selected end
  end.

(** [u64::try_from(selected.len())] *)
Definition selected_len (l : list MemoryRevisionId) : option Z :=
  if (Z.of_nat (length l) <? u64_modulus)%Z then Some (Z.of_nat (length l)) else None.

Definition cutover_selected_count (selector : ProjectionRebuildSelector) (canonical : CanonicalProjectionSnapshot)
    : result ProjectionError Z :=
  selected <-? match select_rebuild_targets selector canonical with
               | Ok selected => Ok selected
               | Err Rebuild_NothingToRebuild => Ok []
               | Err _ => Err (invalid "invalid_projection_cutover_selector")
               end;
  ok_or (selected_len selected) (invalid "projection_cutover_count_overflow").

Definition status_state (s : ProjectionState) : ProjectionStatusState :=
  match s with
  | AbsentByPolicy reason => Status_AbsentByPolicy reason
  | Queued reason => Status_Queued reason
  | Building _ _ _ => Status_Building
  | Ready _ _ _ => Status_Ready
  | Failed attempt _ category retryable retry_not_before => Status_Failed attempt category retryable retry_not_before
  | Stale reason _ => Status_Stale reason
  end.

(** ** A worker's vector *)

Definition validate_embedding_output (builder : BuilderSpec) (vector : list f32) : result ProjectionError unit :=
  reject negb (Z.of_nat (length vector) =? bs_dimension builder)%Z
         || existsb (fun x => negb (float_is_finite x)) vector
         || forallb (fun x => f32_eqb x f32_zero) vector
    with invalid "invalid_embedding_output";
  match bs_normalization builder with
  | ProjectionModel.L2AfterMatryoshkaTruncationV1 =>
      let norm := f64_sqrt (foldl (fun sum x => f64_add sum (f64_mul (f64_of_f32 x) (f64_of_f32 x))) f64_zero vector) in
      reject negb (float_is_finite norm) || f64_gt (f64_abs (f64_sub norm (f64_of_Z 1))) f64_1e_4
        with invalid "artifact_normalization_mismatch";
      Ok tt
  | ProjectionModel.ProviderNative => Ok tt
  end.

Section controller.
Context `{LedgerCodec} `{!Serde BuilderSpec} `{!Serde EmbeddingArtifact}.

(** ** The coordinator core *)

Definition worker_output_is_valid (s : ProjectionStoreState) (guard : ProjectionBuildGuard) (vector : list f32)
    : result ProjectionError bool :=
  x <-? current_guarded_builder s guard;
  Ok (match validate_embedding_output (ab_builder_spec (snd x)) vector with Ok _ => true | Err _ => false end).

Definition status_view (files : ProjectionFiles) (s : ProjectionStoreState) : result ProjectionError ProjectionCurrentView :=
  view <-? current_view s;
  issues <-? pf_artifact_issues files view;
  match issues with [] => Ok view | _ => Err (P_ArtifactRepairRequired (length issues)) end.

Definition with_store_state (s : ProjectionStoreState) (store : ProjectionManifestStore) : ProjectionManifestStore :=
  mkManifestStore s (pm_reset_operation_id store).

Definition repair_count (health : ProjectionStoreInspection) : nat :=
  match health with Found_RepairRequired count => count | _ => 0 end.

Definition inspect_existing (files : ProjectionFiles) (canonical : CanonicalProjectionSnapshot)
    (expected_builder_spec_hash : option string) : result ProjectionError ProjectionCoreInspection :=
  health <-? pf_inspect files canonical;
  match health with
  | Found_Absent => Ok Core_Absent
  | Found_GenesisOnly => Ok Core_GenesisOnly
  | Found_ResetRequired reason => Ok (Core_ResetRequired reason)
  | Found_UnsupportedFormat => Ok Core_UnsupportedFormat
  | Found_Unavailable category => Ok (Core_Unavailable (map_unavailable category))
  | Found_ResetPending => Ok Core_ResetPending
  | Found_MaintenanceRequired => Ok Core_MaintenanceRequired
  | Found_ManualIntervention => Ok Core_ManualIntervention
  | Found_Valid _ | Found_RepairRequired _ =>
      match expected_builder_spec_hash with
      | None => Ok (Core_Existing (repair_count health))
      | Some expected =>
          match pf_builder_match files canonical expected with
          | Ok _ => Ok (Core_Exact (repair_count health))
          | Err (P_Invalid category) =>
              if str_eqb category "builder_change_requires_owner" || str_eqb category "projection_not_initialized"
              then Ok Core_BuilderMismatch else Ok (Core_ResetRequired ManifestIntegrityInvalid)
          | Err P_Serialization => Ok (Core_ResetRequired ManifestIntegrityInvalid)
          | Err e => Err e
          end
      end
  end.

(** The end of every cutover: activate the builder, reconcile, acknowledge.  The
    store keeps what was committed before a failure. *)
Definition cut_over (files : ProjectionFiles) (store : ProjectionManifestStore) (builder : BuilderSpec)
    (canonical : CanonicalProjectionSnapshot) (selected_count : Z)
    : result ProjectionError ProjectionDurableReceipt * ProjectionManifestStore :=
  match activate_builder (fst (pf_activate files)) (snd (pf_activate files)) (pm_state store) builder canonical with
  | (Err e, s) => (Err e, with_store_state s store)
  | (Ok _, s) =>
      let '(out, plan_now, now) := pf_reconcile files in
      match reconcile_with_receipt out plan_now now s canonical with
      | (Err e, s) => (Err e, with_store_state s store)
      | (Ok (_, durable), s) =>
          (Ok (mkDurableReceipt selected_count (rr_manifest_generation durable) (rr_event_watermark durable)
                 (rr_reconciled_source durable)), with_store_state s store)
      end
  end.

(** A cutover of a store that is dropped when it fails. *)
Definition cut_over_new (files : ProjectionFiles) (store : ProjectionManifestStore) (builder : BuilderSpec)
    (canonical : CanonicalProjectionSnapshot) (selected_count : Z)
    : result ProjectionError (ProjectionManifestStore * ProjectionDurableReceipt) :=
  let '(r, store) := cut_over files store builder canonical selected_count in
  receipt <-? r; Ok (store, receipt).

Definition bootstrap_authorized (files : ProjectionFiles) (builder : BuilderSpec) (selector : ProjectionRebuildSelector)
    (canonical : CanonicalProjectionSnapshot) : result ProjectionError (ProjectionManifestStore * ProjectionDurableReceipt) :=
  require_all_eligible_selector selector ?>>
  (selected_count <-? cutover_selected_count selector canonical;
   found <-? inspect_existing files canonical None;
   match found with
   | Core_Absent =>
       store <-? pf_bootstrap files canonical;
       cut_over_new files store builder canonical selected_count
   | _ => Err (invalid "projection_bootstrap_requires_absent")
   end).

Definition resume_genesis_authorized (files : ProjectionFiles) (builder : BuilderSpec) (selector : ProjectionRebuildSelector)
    (canonical : CanonicalProjectionSnapshot) : result ProjectionError (ProjectionManifestStore * ProjectionDurableReceipt) :=
  require_all_eligible_selector selector ?>>
  (selected_count <-? cutover_selected_count selector canonical;
   found <-? inspect_existing files canonical None;
   match found with
   | Core_GenesisOnly =>
       store <-? pf_open_genesis files canonical;
       cut_over_new files store builder canonical selected_count
   | Core_Unavailable Core_VaultLocked => Err (invalid "projection_namespace_already_claimed")
   | _ => Err (invalid "projection_resume_requires_genesis_only")
   end).

Definition change_builder_authorized (files : ProjectionFiles) (builder : BuilderSpec) (selector : ProjectionRebuildSelector)
    (canonical : CanonicalProjectionSnapshot) : result ProjectionError (ProjectionManifestStore * ProjectionDurableReceipt) :=
  require_all_eligible_selector selector ?>>
  (selected_count <-? cutover_selected_count selector canonical;
   found <-? inspect_existing files canonical None;
   match found with
   | Core_Existing _ =>
       store <-? pf_open_initialized files canonical;
       cut_over_new files store builder canonical selected_count
   | _ => Err (invalid "projection_builder_change_requires_initialized")
   end).

Definition reset_authorized (files : ProjectionFiles) (builder : BuilderSpec) (selector : ProjectionRebuildSelector)
    (canonical : CanonicalProjectionSnapshot) : result ProjectionError (ProjectionManifestStore * ProjectionDurableReceipt) :=
  require_all_eligible_selector selector ?>>
  (selected_count <-? cutover_selected_count selector canonical;
   hashed <-? builder_spec_bytes_and_hash builder;
   validate_builder_hash builder (snd hashed) ?>>
   (store <-? pf_reset files canonical;
    _ <-? ok_or (pm_reset_operation_id store) (invalid "projection_reset_operation_id_missing");
    cut_over_new files store builder canonical selected_count)).

Definition recover_reset_authorized (files : ProjectionFiles) (canonical : CanonicalProjectionSnapshot)
    : result ProjectionError ProjectionManifestStore :=
  store <-? pf_recover files canonical;
  _ <-? ok_or (pm_reset_operation_id store) (invalid "projection_reset_operation_id_missing");
  Ok store.

(** [ProjectionRecoveredGenesis::resume_authorized]: unlike a cutover it has no
    case for a ledger with nothing to rebuild. *)
Definition resume_authorized (files : ProjectionFiles) (recovered : ProjectionManifestStore) (builder : BuilderSpec)
    (selector : ProjectionRebuildSelector) (canonical : CanonicalProjectionSnapshot)
    : result ProjectionError ProjectionDurableReceipt * ProjectionManifestStore :=
  match
    require_all_eligible_selector selector ?>>
    (selected <-? map_err (fun _ => invalid "invalid_projection_cutover_selector") (select_rebuild_targets selector canonical);
     selected_count <-? ok_or (selected_len selected) (invalid "projection_cutover_count_overflow");
     _ <-? ok_or (pm_reset_operation_id recovered) (invalid "projection_reset_operation_id_missing");
     Ok selected_count)
  with
  | Err e => (Err e, recovered)
  | Ok selected_count => cut_over files recovered builder canonical selected_count
  end.

Definition core_open_existing (files : ProjectionFiles) (canonical : CanonicalProjectionSnapshot) (expected : string)
    : result ProjectionCoreOpenError ProjectionManifestStore :=
  found <-? map_err Open_Projection (inspect_existing files canonical (Some expected));
  _ <-? match found with
        | Core_Absent | Core_GenesisOnly => Err Open_NotInitialized
        | Core_BuilderMismatch => Err Open_BuilderChangeRequiresOwner
        | Core_ResetRequired _ => Err Open_ResetRequired
        | Core_UnsupportedFormat => Err Open_UnsupportedFormat
        | Core_Unavailable _ => Err Open_Unavailable
        | Core_ResetPending => Err Open_ResetPending
        | Core_MaintenanceRequired => Err Open_MaintenanceRequired
        | Core_ManualIntervention => Err Open_ManualIntervention
        | Core_Existing _ => Err Open_ResetRequired
        | Core_Exact _ => Ok tt
        end;
  store <-? map_err (fun e => match e with
              | P_Invalid category =>
                  if str_eqb category "builder_change_requires_owner" then Open_BuilderChangeRequiresOwner
                  else if str_eqb category "projection_not_initialized" then Open_NotInitialized
                  else Open_Projection e
              | e => Open_Projection e
              end) (pf_open_matching files canonical expected);
  let '(out, plan_now, now) := pf_reconcile files in
  let '(r, s) := reconcile out plan_now now (pm_state store) canonical in
  _ <-? map_err Open_Projection r;
  Ok (with_store_state s store).

Definition core_status (files : ProjectionFiles) (s : ProjectionStoreState) (proof : AuthorizedCurrentRevisionProof)
    : result ProjectionError ProjectionStatusObservation :=
  let source := acr_source proof in
  view <-? status_view files s;
  reject negb (reconciled_source_is_ancestor proof (pv_reconciled_source view))
    with invalid "projection_status_source_not_canonical_ancestor";
  match List.find (fun e => bool_decide (pe_source e = source)) (pv_entries view) with
  | Some entry =>
      Ok (Observed (src_revision_id source) (src_content_hash source) (status_state (pe_state entry))
            (pv_event_watermark view) (pv_reconciled_source view))
  | None =>
      reject (src_revision_sequence source <=? wm_revision_watermark (pv_reconciled_source view))%Z
        with invalid "projection_status_covered_revision_missing";
      Ok (Unreconciled (src_revision_id source) (src_content_hash source)
            (pv_event_watermark view) (pv_reconciled_source view))
  end.

Definition core_owner_rebuild (files : ProjectionFiles) (s : ProjectionStoreState) (selector : ProjectionRebuildSelector)
    (canonical : CanonicalProjectionSnapshot) : result ProjectionRebuildError ProjectionDurableReceipt * ProjectionStoreState :=
  match
    selected <-? select_rebuild_targets selector canonical;
    selected_count <-? ok_or (selected_len selected) (Rebuild_Projection (invalid "projection_rebuild_count_overflow"));
    Ok (selected, selected_count)
  with
  | Err e => (Err e, s)
  | Ok (selected, selected_count) =>
      let '(out, plan_now, now) := pf_reconcile files in
      match reconcile out plan_now now s canonical with
      | (Err e, s) => (Err (Rebuild_Projection e), s)
      | (Ok _, s) =>
          match owner_rebuild (fst (pf_rebuild files)) (snd (pf_rebuild files)) s selected canonical with
          | (Err e, s) => (Err (Rebuild_Projection e), s)
          | (Ok receipt, s) =>
              (Ok (mkDurableReceipt selected_count (rr_manifest_generation receipt) (rr_event_watermark receipt)
                     (rr_reconciled_source receipt)), s)
          end
      end
  end.

(** ** The controller *)

(** The canonical ledger at one moment. *)
Record Canonical := mkCanonical { cn_storage : ImmutableLedgerStorage; cn_state : LedgerState }.

Inductive ProjectionControllerError : Type :=
  | Controller_Canonical (category : string)
  | Controller_Projection (e : ProjectionError)
  | Controller_NotInitialized
  | Controller_BuilderChangeRequiresOwner
  | Controller_ProjectionUnavailable
  | Controller_RebuildNotFound
  | Controller_RebuildNotEligible
  | Controller_NothingToRebuild
  | Controller_ProviderIdentityChanged.

Definition BUILDER_ID : string := "plico.memory-embedding".
Definition BUILDER_VERSION : string := "p3a-controller-v1".
Definition WAKE_CAPACITY : nat := 1.

Definition builder_spec (identity : EmbeddingBuilderIdentity) : BuilderSpec := {|
  bs_schema := BUILDER_SPEC_SCHEMA;
  bs_projection_kind := MemoryEmbedding;
  bs_builder_id := BUILDER_ID;
  bs_builder_version := BUILDER_VERSION;
  bs_provider_family := family_as_str (bi_provider_family identity);
  bs_provider_compatibility_id := bi_provider_compatibility_id identity;
  bs_model_id := bi_model_id identity;
  bs_raw_dimension := bi_raw_dimension identity;
  bs_dimension := bi_effective_dimension identity;
  bs_input_contract := match bi_input_contract identity with
                       | Embeddings.MemoryTextUtf8V1 => ProjectionModel.MemoryTextUtf8V1
                       end;
  bs_operation_contract := DocumentV1;
  bs_normalization := match bi_normalization identity with
                      | Embeddings.ProviderNative => ProjectionModel.ProviderNative
                      | Embeddings.L2AfterMatryoshkaTruncationV1 => ProjectionModel.L2AfterMatryoshkaTruncationV1
                      end;
  bs_transform_contract_id := normalization_contract_id (bi_normalization identity);
  bs_artifact_schema := EMBEDDING_ARTIFACT_SCHEMA |}.

Definition map_canonical_error_category (e : LedgerError) : string :=
  match e with
  | WriterPoisoned | CommitIndeterminate => "canonical_restart_required"
  | VaultLocked => "canonical_vault_locked"
  | _ => "canonical_unavailable"
  end.
Definition map_canonical_error (e : LedgerError) : ProjectionControllerError :=
  Controller_Canonical (map_canonical_error_category e).

Definition snapshot_of (cn : Canonical) : option (result ProjectionControllerError CanonicalProjectionSnapshot) :=
  map_err map_canonical_error <$> projection_snapshot (cn_storage cn) (cn_state cn).

Record ProjectionWake := mkWake {
  pw_run_id : string;
  pw_request_id : option string;
  pw_memory_id : MemoryId;
  pw_revision_id : MemoryRevisionId;
  pw_content_hash : CanonicalContentHash;
  pw_expected_spec_hash : string;
  pw_canonical_watermark : CanonicalWatermark;
}.

(** The provider snapshot is the identity it was verified with. *)
Record ProjectionCoordinator := mkCoordinator {
  pc_store : ProjectionManifestStore;
  pc_provider : EmbeddingBuilderIdentity;
  pc_builder_spec_hash : string;
  pc_wakes : list ProjectionWake;
}.
Definition coordinator_new (core : ProjectionManifestStore) (provider : EmbeddingBuilderIdentity) (builder_spec_hash : string)
    : ProjectionCoordinator := mkCoordinator core provider builder_spec_hash [].
Definition with_pc_state (s : ProjectionStoreState) (c : ProjectionCoordinator) : ProjectionCoordinator :=
  mkCoordinator (with_store_state s (pc_store c)) (pc_provider c) (pc_builder_spec_hash c) (pc_wakes c).

Definition provider_unchanged (provider : EmbeddingBuilderIdentity) (self : SelfDescription)
    : result ProjectionControllerError unit :=
  map_err (fun _ => Controller_ProviderIdentityChanged) (snapshot_revalidate provider self).

(** [with_owner_projection_maintenance] as every call of it goes on. *)
Definition for_owner {R} (cn : Canonical) (maintain : CanonicalProjectionSnapshot -> R)
    : option (result ProjectionControllerError R) :=
  (fun r => granted <-? map_err map_canonical_error r; ok_or granted Controller_ProjectionUnavailable)
    <$> with_owner_projection_maintenance (cn_storage cn) (cn_state cn) PERSONAL_OWNER_ROLE_ID maintain.

Definition inspect_verified (files : ProjectionFiles) (cn : Canonical) (provider : EmbeddingBuilderIdentity)
    : option (result ProjectionControllerError ProjectionCoreInspection) :=
  (fun r => snapshot <-? r;
     map_err Controller_Projection
       (hashed <-? builder_spec_bytes_and_hash (builder_spec provider);
        inspect_existing files snapshot (Some (snd hashed)))) <$> snapshot_of cn.

Definition inspect_identity_unavailable (files : ProjectionFiles) (cn : Canonical) (e : EmbeddingIdentityError)
    : option (result ProjectionControllerError (ProjectionCoreInspection * string)) :=
  (fun r => snapshot <-? r;
     found <-? map_err Controller_Projection (inspect_existing files snapshot None);
     Ok (found, identity_error_category e)) <$> snapshot_of cn.

(** What the four operations of the owner that open a store have in common. *)
Definition open_for_owner (self : SelfDescription) (cn : Canonical) (provider : EmbeddingBuilderIdentity)
    (open : BuilderSpec -> ProjectionRebuildSelector -> CanonicalProjectionSnapshot ->
            result ProjectionError (ProjectionManifestStore * ProjectionDurableReceipt))
    : option (result ProjectionControllerError (ProjectionCoordinator * ProjectionDurableReceipt)) :=
  match
    provider_unchanged provider self ?>>
    (hashed <-? map_err Controller_Projection (builder_spec_bytes_and_hash (builder_spec provider)); Ok (snd hashed))
  with
  | Err e => Some (Err e)
  | Ok spec_hash =>
      (fun r => opened <-? r;
         x <-? map_err Controller_Projection opened;
         Ok (coordinator_new (fst x) provider spec_hash, snd x))
        <$> for_owner cn (open (builder_spec provider) AllEligible)
  end.

Definition bootstrap_for_owner (files : ProjectionFiles) (self : SelfDescription) (cn : Canonical) (provider : EmbeddingBuilderIdentity)
    : option (result ProjectionControllerError (ProjectionCoordinator * ProjectionDurableReceipt)) :=
  open_for_owner self cn provider (bootstrap_authorized files).
Definition resume_genesis_for_owner (files : ProjectionFiles) (self : SelfDescription) (cn : Canonical) (provider : EmbeddingBuilderIdentity)
    : option (result ProjectionControllerError (ProjectionCoordinator * ProjectionDurableReceipt)) :=
  open_for_owner self cn provider (resume_genesis_authorized files).
Definition change_builder_for_owner (files : ProjectionFiles) (self : SelfDescription) (cn : Canonical) (provider : EmbeddingBuilderIdentity)
    : option (result ProjectionControllerError (ProjectionCoordinator * ProjectionDurableReceipt)) :=
  open_for_owner self cn provider (change_builder_authorized files).
Definition reset_for_owner (files : ProjectionFiles) (self : SelfDescription) (cn : Canonical) (provider : EmbeddingBuilderIdentity)
    : option (result ProjectionControllerError (ProjectionCoordinator * ProjectionDurableReceipt)) :=
  open_for_owner self cn provider (reset_authorized files).

Definition open_error (e : ProjectionCoreOpenError) : ProjectionControllerError :=
  match e with
  | Open_NotInitialized => Controller_NotInitialized
  | Open_BuilderChangeRequiresOwner => Controller_BuilderChangeRequiresOwner
  | Open_Projection e => Controller_Projection e
  | _ => Controller_ProjectionUnavailable
  end.

Definition controller_open_existing (files : ProjectionFiles) (self : SelfDescription) (cn : Canonical) (provider : EmbeddingBuilderIdentity)
    : option (result ProjectionControllerError ProjectionCoordinator) :=
  match provider_unchanged provider self with
  | Err e => Some (Err e)
  | Ok _ =>
      (fun r => snapshot <-? r;
         hashed <-? map_err Controller_Projection (builder_spec_bytes_and_hash (builder_spec provider));
         core <-? map_err open_error (core_open_existing files snapshot (snd hashed));
         Ok (coordinator_new core provider (snd hashed))) <$> snapshot_of cn
  end.

Definition recover_reset_for_owner (files : ProjectionFiles) (cn : Canonical)
    : option (result ProjectionControllerError ProjectionManifestStore) :=
  (fun r => recovered <-? r; map_err Controller_Projection recovered) <$> for_owner cn (recover_reset_authorized files).

(** A failure hands the recovered store back. *)
Definition resume_recovered_for_owner (files : ProjectionFiles) (self : SelfDescription) (cn : Canonical)
    (recovered : ProjectionManifestStore) (provider : EmbeddingBuilderIdentity)
    : option (result (ProjectionManifestStore * ProjectionControllerError) (ProjectionCoordinator * ProjectionDurableReceipt)) :=
  match
    provider_unchanged provider self ?>>
    (hashed <-? map_err Controller_Projection (builder_spec_bytes_and_hash (builder_spec provider)); Ok (snd hashed))
  with
  | Err e => Some (Err (recovered, e))
  | Ok spec_hash =>
      resumed ← for_owner cn (resume_authorized files recovered (builder_spec provider) AllEligible);
      Some (match resumed with
            | Err e => Err (recovered, e)
            | Ok (Err e, recovered) => Err (recovered, Controller_Projection e)
            | Ok (Ok receipt, store) => Ok (coordinator_new store provider spec_hash, receipt)
            end)
  end.

Definition controller_status (files : ProjectionFiles) (cn : Canonical) (c : ProjectionCoordinator) (trusted_role : string)
    (revision_id : MemoryRevisionId) : option (result ProjectionControllerError (option ProjectionStatusObservation)) :=
  (fun r => observed <-? map_err map_canonical_error r;
     match observed with
     | None => Ok None
     | Some r => status <-? map_err Controller_Projection r; Ok (Some status)
     end)
    <$> with_authorized_current_revision (cn_storage cn) (cn_state cn) trusted_role revision_id
          (core_status files (pm_state (pc_store c))).

Definition rebuild_error (e : ProjectionRebuildError) : ProjectionControllerError :=
  match e with
  | Rebuild_NotFound => Controller_RebuildNotFound
  | Rebuild_NotEligible => Controller_RebuildNotEligible
  | Rebuild_NothingToRebuild => Controller_NothingToRebuild
  | Rebuild_Projection e => Controller_Projection e
  end.

Definition controller_owner_rebuild (files : ProjectionFiles) (cn : Canonical) (selector : ProjectionRebuildSelector)
    (c : ProjectionCoordinator) : option (result ProjectionControllerError ProjectionDurableReceipt * ProjectionCoordinator) :=
  r ← for_owner cn (core_owner_rebuild files (pm_state (pc_store c)) selector);
  Some (match r with
        | Err e => (Err e, c)
        | Ok (r, s) => (map_err rebuild_error r, with_pc_state s c)
        end).

(** ** Wakes and claims *)

Definition wake_for_current (cn : Canonical) (run_id : string) (c : ProjectionCoordinator) (entry : MemoryEntry)
    (request_id : option string) : option (result ProjectionControllerError ProjectionWake) :=
  (fun r => snapshot <-? r;
     Ok (mkWake run_id request_id (e_memory_id entry) (e_id entry) (e_canonical_content_hash entry)
           (pc_builder_spec_hash c) (watermark (cps_root_hash snapshot) (cps_root snapshot)))) <$> snapshot_of cn.

Inductive WakeDisposition : Type := Wake_Queued | Wake_Full.

(** The controller holds the receiver itself, so the channel is never closed. *)
Definition controller_notify (wake : ProjectionWake) (c : ProjectionCoordinator) : WakeDisposition * ProjectionCoordinator :=
  if (length (pc_wakes c) <? WAKE_CAPACITY)%nat
  then (Wake_Queued, mkCoordinator (pc_store c) (pc_provider c) (pc_builder_spec_hash c) (pc_wakes c ++ [wake]))
  else (Wake_Full, c).

Definition reconcile_once (files : ProjectionFiles) (cn : Canonical) (s : ProjectionStoreState)
    : option (result ProjectionControllerError unit * ProjectionStoreState) :=
  r ← snapshot_of cn;
  Some (match r with
        | Err e => (Err e, s)
        | Ok snapshot =>
            let '(out, plan_now, now) := pf_reconcile files in
            let '(r, s) := reconcile out plan_now now s snapshot in
            (_ <-? map_err Controller_Projection r; Ok tt, s)
        end).

Definition reconcile_startup (files : ProjectionFiles) (cn : Canonical) (c : ProjectionCoordinator)
    : option (result ProjectionControllerError unit * ProjectionCoordinator) :=
  '(r, s) ← reconcile_once files cn (pm_state (pc_store c)); Some (r, with_pc_state s c).

Record ProjectionBuildJob := mkJob {
  pj_claim : ProjectionBuildGuard;
  pj_provider : EmbeddingBuilderIdentity;
  pj_run_id : string;
  pj_request_id : option string;
  pj_claim_manifest_watermark : Z;
  pj_claim_canonical_watermark : CanonicalWatermark;
}.

(** What taking up a job draws: the ledger at the reconciliation and at the
    claim, what the files do, and fresh identifiers. *)
Record TurnEnv := mkTurnEnv {
  te_files : ProjectionFiles;
  te_reconcile : Canonical;
  te_claim : Canonical;
  te_commit : StoreOutcome * Z * Z;
  te_attempt_id : N;
  te_run_id : string;
}.

Definition take_wake (c : ProjectionCoordinator) : option ProjectionWake * ProjectionCoordinator :=
  match pc_wakes c with
  | [] => (None, c)
  | wake :: wakes => (Some wake, mkCoordinator (pc_store c) (pc_provider c) (pc_builder_spec_hash c) wakes)
  end.

Definition wake_is_for (wake : ProjectionWake) (claim : ProjectionBuildGuard) : bool :=
  let source := pe_source (g_entry claim) in
  str_eqb (pw_memory_id wake) (src_memory_id source)
  && str_eqb (pw_revision_id wake) (src_revision_id source)
  && str_eqb (pw_content_hash wake) (src_content_hash source)
  && str_eqb (pw_expected_spec_hash wake) (pe_desired_builder_spec_hash (g_entry claim))
  && bool_decide (pw_canonical_watermark wake = g_canonical_watermark claim).

Definition claim_one_in_turn (env : TurnEnv) (wake : option ProjectionWake) (c : ProjectionCoordinator)
    : option (result ProjectionControllerError (option ProjectionBuildJob) * ProjectionCoordinator) :=
  r ← snapshot_of (te_claim env);
  Some (match r with
        | Err e => (Err e, c)
        | Ok snapshot =>
            let '(out, plan_now, now) := te_commit env in
            let '(r, s) := claim_next out plan_now now (te_attempt_id env) (pm_state (pc_store c)) snapshot in
            (match r with
             | Err e => Err (Controller_Projection e)
             | Ok None => Ok None
             | Ok (Some claim) =>
                 let '(run_id, request_id) :=
                   match wake with
                   | Some wake => if wake_is_for wake claim then (pw_run_id wake, pw_request_id wake) else (te_run_id env, None)
                   | None => (te_run_id env, None)
                   end in
                 Ok (Some (mkJob claim (pc_provider c) run_id request_id (g_claim_event_watermark claim) (g_canonical_watermark claim)))
             end, with_pc_state s c)
        end).

Definition reconcile_and_claim_one (env : TurnEnv) (c : ProjectionCoordinator)
    : option (result ProjectionControllerError (option ProjectionBuildJob) * ProjectionCoordinator) :=
  let '(wake, c) := take_wake c in
  '(r, s) ← reconcile_once (te_files env) (te_reconcile env) (pm_state (pc_store c));
  let c := with_pc_state s c in
  match r with
  | Err e => Some (Err e, c)
  | Ok _ => claim_one_in_turn env wake c
  end.

(** ** Builds *)

Inductive ProjectionBuildOutcome : Type :=
  | Build_Ready
  | Build_Failed (category : FailureCategory)
  | Build_Discarded.

(** What a build meets: when it is cancelled, the ledger when the document is
    read, when a vector or a failure is published and when it reconciles, the provider
    before and after its call, what it answers, how the commits end, and what
    the other users of the store did before each access. *)
Record BuildEnv := mkBuildEnv {
  bv_cancelled : nat -> bool;
  bv_document : Canonical;
  bv_precheck : SelfDescription;
  bv_embed : string -> result EmbedError EmbedResult;
  bv_postcheck : SelfDescription;
  bv_publish : Canonical;
  bv_failure : Canonical;
  bv_reconcile : Canonical;
  bv_files : ProjectionFiles;
  bv_ready : StoreOutcome * Z;
  bv_failed : StoreOutcome * Z * Z;
  bv_others : nat -> ProjectionStoreState -> ProjectionStoreState;
}.

Definition reconcile_after_discard (env : BuildEnv) (s : ProjectionStoreState)
    : option (result ProjectionControllerError ProjectionBuildOutcome * ProjectionStoreState) :=
  '(r, s) ← reconcile_once (bv_files env) (bv_reconcile env) s;
  Some (_ <-? r; Ok Build_Discarded, s).

(** How a build ends after the guarded completion. *)
Definition after_completion (env : BuildEnv) (outcome : ProjectionBuildOutcome)
    (recover : ProjectionError -> ProjectionStoreState ->
               option (result ProjectionControllerError ProjectionBuildOutcome * ProjectionStoreState))
    (s : ProjectionStoreState)
    (completed : option (result LedgerError (option (result ProjectionError string * ProjectionStoreState))))
    : option (result ProjectionControllerError ProjectionBuildOutcome * ProjectionStoreState) :=
  completed ← completed;
  match completed with
  | Err e => Some (Err (map_canonical_error e), s)
  | Ok None => reconcile_after_discard env s
  | Ok (Some (Ok _, s)) => Some (Ok outcome, s)
  | Ok (Some (Err P_HeadConflict, s)) => reconcile_after_discard env s
  | Ok (Some (Err e, s)) => recover e s
  end.

Definition complete_failure (env : BuildEnv) (claim : ProjectionBuildGuard) (category : FailureCategory) (s : ProjectionStoreState)
    : option (result ProjectionControllerError ProjectionBuildOutcome * ProjectionStoreState) :=
  let s := bv_others env 3 s in
  let '(out, plan_now, now) := bv_failed env in
  after_completion env (Build_Failed category) (fun e s => Some (Err (Controller_Projection e), s)) s
    (with_current_projection_source (cn_storage (bv_failure env)) (cn_state (bv_failure env)) (pe_source (g_entry claim))
       (complete_failed out plan_now now s claim category)).

(** The guarded publication of a valid vector. *)
Definition publish_ready (env : BuildEnv) (claim : ProjectionBuildGuard) (vector : list f32) (s : ProjectionStoreState)
    : option (result ProjectionControllerError ProjectionBuildOutcome * ProjectionStoreState) :=
  let s := bv_others env 2 s in
  after_completion env Build_Ready
    (fun e s => match e with
                | P_ArtifactStoreUnavailable => complete_failure env claim Failure_ArtifactStoreUnavailable s
                | e => Some (Err (Controller_Projection e), s)
                end) s
    (with_current_projection_source (cn_storage (bv_publish env)) (cn_state (bv_publish env)) (pe_source (g_entry claim))
       (complete_ready (fst (bv_ready env)) (snd (bv_ready env)) s claim (f32_to_bits <$> vector))).

Definition complete_one_interruptible (env : BuildEnv) (job : ProjectionBuildJob) (s : ProjectionStoreState)
    : option (result ProjectionControllerError ProjectionBuildOutcome * ProjectionStoreState) :=
  let claim := pj_claim job in
  let cancelled := bv_cancelled env in
  let s := bv_others env 0 s in
  match guard_is_current s claim with
  | Err e => Some (Err (Controller_Projection e), s)
  | Ok false => Some (Ok Build_Discarded, s)
  | Ok true =>
      match guarded_projection_document (cn_state (bv_document env)) (pe_source (g_entry claim)) with
      | Err e => Some (Err (map_canonical_error e), s)
      | Ok None => reconcile_after_discard env s
      | Ok (Some document) =>
          if cancelled 0 then Some (Ok Build_Discarded, s) else
          match snapshot_revalidate (pj_provider job) (bv_precheck env) with
          | Err _ => if cancelled 1 then Some (Ok Build_Discarded, s)
                     else complete_failure env claim Failure_ProviderIdentityChanged s
          | Ok _ =>
              if cancelled 2 then Some (Ok Build_Discarded, s) else
              match bv_embed env document with
              | Err _ => if cancelled 3 then Some (Ok Build_Discarded, s)
                         else complete_failure env claim Failure_ProviderUnavailable s
              | Ok embedded =>
                  if cancelled 4 then Some (Ok Build_Discarded, s) else
                  match snapshot_revalidate (pj_provider job) (bv_postcheck env) with
                  | Err _ => if cancelled 5 then Some (Ok Build_Discarded, s)
                             else complete_failure env claim Failure_ProviderIdentityChanged s
                  | Ok _ =>
                      if cancelled 6 then Some (Ok Build_Discarded, s) else
                      let s := bv_others env 1 s in
                      match worker_output_is_valid s claim (er_embedding embedded) with
                      | Ok false => complete_failure env claim Failure_InvalidProjection s
                      | Err P_HeadConflict => Some (Ok Build_Discarded, s)
                      | Err e => Some (Err (Controller_Projection e), s)
                      | Ok true =>
                          if cancelled 7 then Some (Ok Build_Discarded, s)
                          else publish_ready env claim (er_embedding embedded) s
                      end
                  end
              end
          end
      end
  end.

(** ** What builds publish *)

Lemma find_prefix {A} (f : A -> bool) l k x : List.find f l = Some x -> List.find f (l ++ k) = Some x.
Proof. induction l as [|a l IH]; [done|]. cbn. by destruct (f a). Qed.

(** The descriptor of the vector a worker hands in. *)
Definition describes (claim : ProjectionBuildGuard) (vector : list f32) (artifact : ArtifactDescriptor) : Prop :=
  ad_source_revision_id artifact = src_revision_id (pe_source (g_entry claim)) /\
  ad_source_content_hash artifact = src_content_hash (pe_source (g_entry claim)) /\
  ad_builder_spec_hash artifact = pe_desired_builder_spec_hash (g_entry claim) /\
  exists stored b, artifact_bytes_and_hash stored = Ok (b, ad_artifact_hash artifact) /\
    ea_vector stored = f32_to_bits <$> vector /\ ea_dimension stored = ad_dimension artifact /\
    ea_source_revision_id stored = src_revision_id (pe_source (g_entry claim)).

Lemma ready_entry out now s claim vector source snapshot h s' :
  store_ok s -> complete_ready out now s claim (f32_to_bits <$> vector) source snapshot = (Ok h, s') ->
  exists entry artifact, find_entry (ps_view s') (pe_projection_id (g_entry claim)) = Some entry /\
    pe_source entry = pe_source (g_entry claim) /\
    pe_state entry = Ready (g_attempt claim) (g_attempt_id claim) artifact /\ describes claim vector artifact.
Proof.
  intros Hok. unfold complete_ready. destruct (negb _); [done|].
  destruct (current_guarded_builder s claim) as [[root active]|]; [|done].
  destruct (ready_event _ _ _) as [ev|] eqn:Hev; [|done]. cbn [fst snd]. intros Hc. unfold ready_event in Hev.
  destruct (artifact_bytes_and_hash _) as [[b hash]|] eqn:Hb; [|done]. apply transition_event_inv in Hev as ->.
  apply commit_cases in Hc. destruct (committed_transition _ _ _ _ _ _ _ _ _ _ _ _ _ Hok Hc) as [n He].
  eexists _, _. split_and!; [exact He|done|done|]. unfold describes. cbn. split_and!; [done..|].
  eexists _, b. by split_and!.
Qed.

Lemma failed_entry out plan_now now s claim category source snapshot h s' :
  store_ok s -> complete_failed out plan_now now s claim category source snapshot = (Ok h, s') ->
  exists entry retry, find_entry (ps_view s') (pe_projection_id (g_entry claim)) = Some entry /\
    pe_source entry = pe_source (g_entry claim) /\
    pe_state entry = Failed (g_attempt claim) (g_attempt_id claim) category (retryable category) retry.
Proof.
  intros Hok. unfold complete_failed. destruct (negb _); [done|].
  destruct (current_guarded_builder s claim) as [[root active]|]; [|done].
  destruct (failed_event _ _ _ _) as [ev|] eqn:Hev; [|done]. cbn [fst snd]. intros Hc. unfold failed_event in Hev.
  destruct (if retryable category then _ else _) as [retry|]; [|done]. apply transition_event_inv in Hev as ->.
  apply commit_cases in Hc. destruct (committed_transition _ _ _ _ _ _ _ _ _ _ _ _ _ Hok Hc) as [n He].
  eexists _, _. by split_and!; [exact He|..].
Qed.

Lemma after_completion_inv env outcome recover s completed o s' :
  after_completion env outcome recover s completed = Some (Ok o, s') ->
  o = Build_Discarded \/
  (exists h, completed = Some (Ok (Some (Ok h, s'))) /\ o = outcome) \/
  (exists e s1, completed = Some (Ok (Some (Err e, s1))) /\ recover e s1 = Some (Ok o, s')).
Proof.
  assert (forall s1, reconcile_after_discard env s1 = Some (Ok o, s') -> o = Build_Discarded) as Hd.
  { unfold reconcile_after_discard. intros s1. destruct (reconcile_once _ _ _) as [[[]]|]; cbn; [|done..]. congruence. }
  unfold after_completion. destruct completed as [[[[[h|e] s1]|]|e]|]; cbn; try done.
  - intros ?. simplify_eq. eauto.
  - intros Hr. destruct e; try (left; by eapply Hd); eauto 10.
  - intros Hr. left. by eapply Hd.
Qed.

Lemma current_source_inv {R} st S source (f : _ -> _ -> R) y :
  with_current_projection_source st S source f = Some (Ok (Some y)) ->
  exists revision snapshot, current_projection_revision S source = Some revision /\ f source snapshot = y.
Proof.
  unfold with_current_projection_source. destruct (ls_poisoned S); [done|].
  destruct (current_projection_revision S source) as [r|]; [|done].
  destruct (projection_snapshot_from_state _ _) as [[snap|]|]; [|done..]. cbn. intros ?. simplify_eq. eauto.
Qed.

Lemma current_source_revision S source r :
  current_projection_revision S source = Some r ->
  find_revision S (src_revision_id source) = Some r /\ r_content_hash r = src_content_hash source.
Proof.
  unfold current_projection_revision. destruct (find_revision S _) as [a|]; [|done]. cbn.
  destruct (negb _ || _ || _) eqn:Hn; [done|]. destruct (find_stream S _) as [st|]; [|done]. cbn.
  destruct (_ || _ || _ || _); [done|]. destruct (negb (policy_reads _ _ _ _)); [done|]. destruct (nonblank_text _); [|done].
  intros ?. simplify_eq. by breflect.
Qed.

(** The ledger only grows: a source that is current earlier and later has the
    same revision. *)
Lemma current_source_stays S S' source r r' :
  ls_revisions S `prefix_of` ls_revisions S' ->
  current_projection_revision S source = Some r -> current_projection_revision S' source = Some r' -> r' = r.
Proof.
  intros [k Hk] [Hr _]%current_source_revision [Hr' _]%current_source_revision. revert Hr'.
  unfold find_revision in *. rewrite Hk. rewrite (find_prefix _ _ _ _ Hr). congruence.
Qed.

(** Why a build reports a failure of a category. *)
Definition failure_reason (env : BuildEnv) (job : ProjectionBuildJob) (category : FailureCategory) : Prop :=
  match category with
  | Failure_ProviderIdentityChanged =>
      snapshot_revalidate (pj_provider job) (bv_precheck env) <> Ok tt \/
      snapshot_revalidate (pj_provider job) (bv_postcheck env) <> Ok tt
  | Failure_ProviderUnavailable => exists text e, bv_embed env text = Err e
  | Failure_InvalidProjection => exists text embedded spec, bv_embed env text = Ok embedded /\
      validate_embedding_output spec (er_embedding embedded) <> Ok tt
  | Failure_ArtifactStoreUnavailable => exists s vector source snapshot,
      fst (complete_ready (fst (bv_ready env)) (snd (bv_ready env)) s (pj_claim job) vector source snapshot)
      = Err P_ArtifactStoreUnavailable
  end.

(** What the outcome of a build says. *)
Definition reported (env : BuildEnv) (job : ProjectionBuildJob) (s' : ProjectionStoreState)
    (outcome : ProjectionBuildOutcome) : Prop :=
  let claim := pj_claim job in
  let source := pe_source (g_entry claim) in
  match outcome with
  | Build_Discarded => True
  | Build_Failed category =>
      failure_reason env job category /\
      (exists revision, current_projection_revision (cn_state (bv_failure env)) source = Some revision) /\
      exists entry retry, find_entry (ps_view s') (pe_projection_id (g_entry claim)) = Some entry /\ pe_source entry = source /\
        pe_state entry = Failed (g_attempt claim) (g_attempt_id claim) category (retryable category) retry
  | Build_Ready => exists text embedded,
      snapshot_revalidate (pj_provider job) (bv_precheck env) = Ok tt /\
      bv_embed env text = Ok embedded /\
      snapshot_revalidate (pj_provider job) (bv_postcheck env) = Ok tt /\
      (exists active, ab_builder_spec_hash active = pe_desired_builder_spec_hash (g_entry claim) /\
         validate_embedding_output (ab_builder_spec active) (er_embedding embedded) = Ok tt) /\
      (exists revision, current_projection_revision (cn_state (bv_publish env)) source = Some revision /\
         r_content revision = Text text /\ r_content_hash revision = src_content_hash source) /\
      (exists entry artifact, find_entry (ps_view s') (pe_projection_id (g_entry claim)) = Some entry /\ pe_source entry = source /\
         pe_state entry = Ready (g_attempt claim) (g_attempt_id claim) artifact /\
         describes claim (er_embedding embedded) artifact) /\
      Forall (fun k => bv_cancelled env k = false) [0; 2; 4; 6; 7]
  end.

Section build.
Context (env : BuildEnv) (job : ProjectionBuildJob).
(** The other users of the store make steps of the writer. *)
Context (Hothers : forall k s, rtc writer_step s (bv_others env k s)).

Lemma others_ok k s : store_ok s -> store_ok (bv_others env k s).
Proof. intros Hok. by destruct (steps_preserve _ _ Hok (Hothers k s)). Qed.

Lemma failure_reported category s o s' :
  store_ok s -> failure_reason env job category ->
  complete_failure env (pj_claim job) category s = Some (Ok o, s') -> reported env job s' o.
Proof.
  intros Hok Hwhy. unfold complete_failure. destruct (bv_failed env) as [[out plan_now] now].
  intros [-> |[(h & Hc & ->)|(e & s1 & _ & Hr)]]%after_completion_inv; [done| |done].
  apply current_source_inv in Hc as (revision & snapshot & Hcur & Hc). split_and!; [done|by eexists|].
  by apply failed_entry in Hc; [|apply others_ok].
Qed.

Lemma ready_reported s text embedded active o s' :
  store_ok s -> guarded_projection_document (cn_state (bv_document env)) (pe_source (g_entry (pj_claim job))) = Ok (Some text) ->
  ls_revisions (cn_state (bv_document env)) `prefix_of` ls_revisions (cn_state (bv_publish env)) ->
  snapshot_revalidate (pj_provider job) (bv_precheck env) = Ok tt -> bv_embed env text = Ok embedded ->
  snapshot_revalidate (pj_provider job) (bv_postcheck env) = Ok tt ->
  ab_builder_spec_hash active = pe_desired_builder_spec_hash (g_entry (pj_claim job)) ->
  validate_embedding_output (ab_builder_spec active) (er_embedding embedded) = Ok tt ->
  Forall (fun k => bv_cancelled env k = false) [0; 2; 4; 6; 7] ->
  publish_ready env (pj_claim job) (er_embedding embedded) s = Some (Ok o, s') -> reported env job s' o.
Proof.
  intros Hok Hdoc Hgrow Hpre Hemb Hpost Hact Hval Hcan. unfold publish_ready.
  intros [-> |[(h & Hc & ->)|(e & s1 & Hc & Hr)]]%after_completion_inv; [done| |].
  - apply current_source_inv in Hc as (revision & snapshot & Hcur & Hc). cbn.
    exists text, embedded. split_and!; [done..|by exists active| | |done].
    + exists revision. split; [done|]. split; [|by apply current_source_revision in Hcur as [_ ?]].
      unfold guarded_projection_document in Hdoc. destruct (ls_poisoned _); [done|]. apply Ok_inj in Hdoc.
      destruct (current_projection_revision _ _) as [r|] eqn:Hr in Hdoc; [|done]. cbn in Hdoc.
      rewrite (current_source_stays _ _ _ _ _ Hgrow Hr Hcur). unfold nonblank_text in Hdoc.
      destruct (r_content r); try done. destruct (blank _); congruence.
    + by apply ready_entry in Hc; [|apply others_ok].
  - apply current_source_inv in Hc as (revision & snapshot & Hcur & Hc). destruct e; try done.
    apply failure_reported in Hr; [done| |].
    + destruct (run_preserves (Do_ready (pj_claim job) (f32_to_bits <$> er_embedding embedded) (pe_source (g_entry (pj_claim job))))
        (mkEnv (fst (bv_ready env)) 0 (snd (bv_ready env)) snapshot) (bv_others env 2 s) (others_ok 2 s Hok)) as [Hs _].
      cbn in Hs. by rewrite Hc in Hs.
    + eexists _, _, _, _. by rewrite Hc.
Qed.
End build.

(** C37: what the outcome of a build reports is so, whatever other users do to the
    store meanwhile.  A build that ends ready was not cancelled, its provider was
    the verified one before and after it answered, it embedded exactly the text
    that is the current content of the claimed source when it is published, under
    a builder whose checks the vector passes, and the manifest now shows the
    projection of that source ready with the hash of that vector; a build that
    ends failed has recorded a failure whose category says what went wrong, for
    a source still current then. *)
Theorem builds_report_what_happened env job s outcome s' :
  store_ok s -> (forall k s, rtc writer_step s (bv_others env k s)) ->
  ls_revisions (cn_state (bv_document env)) `prefix_of` ls_revisions (cn_state (bv_publish env)) ->
  complete_one_interruptible env job s = Some (Ok outcome, s') -> reported env job s' outcome.
Proof.
  intros Hok Hothers Hgrow. pose proof (others_ok env Hothers) as Hso. unfold complete_one_interruptible.
  set (s0 := bv_others env 0 s). assert (store_ok s0) as Hok0 by by apply Hso.
  assert (forall s1, Some (Ok (E := ProjectionControllerError) Build_Discarded, s1) = Some (Ok outcome, s') -> reported env job s' outcome) as Hd by (intros; by simplify_eq).
  destruct (guard_is_current s0 _) as [[]|]; [|by apply Hd|done].
  destruct (guarded_projection_document _ _) as [[text|]|] eqn:Hdoc; [| |done].
  2:{ unfold reconcile_after_discard. destruct (reconcile_once _ _ _) as [[[] s1]|]; [|done..]. by apply Hd. }
  destruct (bv_cancelled env 0) eqn:H0'; [by apply Hd|].
  destruct (snapshot_revalidate _ (bv_precheck env)) as [[]|] eqn:Hpre.
  2:{ destruct (bv_cancelled env 1); [by apply Hd|]. apply failure_reported; [done..|left; by rewrite Hpre]. }
  destruct (bv_cancelled env 2) eqn:H2'; [by apply Hd|].
  destruct (bv_embed env text) as [embedded|e] eqn:Hemb.
  2:{ destruct (bv_cancelled env 3); [by apply Hd|]. apply failure_reported; [done..|by exists text, e]. }
  destruct (bv_cancelled env 4) eqn:H4'; [by apply Hd|].
  destruct (snapshot_revalidate _ (bv_postcheck env)) as [[]|] eqn:Hpost.
  2:{ destruct (bv_cancelled env 5); [by apply Hd|]. apply failure_reported; [done..|right; by rewrite Hpost]. }
  destruct (bv_cancelled env 6) eqn:H6'; [by apply Hd|].
  pose proof (Hso 1 s0 Hok0) as Hok1. destruct (worker_output_is_valid _ _ _) as [[]|e] eqn:Hw.
  - destruct (bv_cancelled env 7) eqn:H7'; [by apply Hd|]. unfold worker_output_is_valid in Hw.
    destruct (current_guarded_builder _ _) as [[root active]|] eqn:Hb; [|done]. cbn in Hw.
    destruct (validate_embedding_output _ _) as [[]|] eqn:Hv; [|done].
    apply ready_reported with (text := text) (active := active); try done; [|by repeat constructor].
    unfold current_guarded_builder, ok_or in Hb. destruct (ps_poisoned _); [done|]. destruct (find_entry _ _); [|done].
    destruct (negb _); [done|]. destruct (embedding_builder _); [|done]. destruct (str_eqb _ _) eqn:Hs; [|done].
    apply Ok_inj in Hb. simplify_eq. by breflect.
  - apply failure_reported; [done..|]. unfold worker_output_is_valid in Hw.
    destruct (current_guarded_builder _ _) as [[root active]|]; [|done]. cbn in Hw.
    destruct (validate_embedding_output _ _) as [|] eqn:Hv; [done|]. exists text, embedded, (ab_builder_spec active). by rewrite Hv.
  - by destruct e; try done; apply Hd.
Qed.
End controller.

(** ** What may be rebuilt *)

(** A revision is selected exactly when reconciliation queues it: neither
    superseded nor deleted nor of another tier nor without text. *)
Lemma rebuilds_what_is_queued canonical selected r :
  NoDup (r_revision_id <$> cps_revisions canonical) -> r ∈ cps_revisions canonical ->
  select_rebuild_targets AllEligible canonical = Ok selected ->
  r_revision_id r ∈ selected <-> expected_absent_reason r (cps_revisions canonical) = None.
Proof.
  intros Hnd Hr Hsel. unfold select_rebuild_targets in Hsel.
  assert (r_revision_id r ∈ selected <-> has_child (cps_revisions canonical) (r_revision_id r) = false /\ revision_is_eligible r = true) as ->.
  { set (l := List.filter _ _) in Hsel. assert (selected = r_revision_id <$> l) as -> by (destruct l; [done|]; by apply Ok_inj in Hsel).
    unfold l. rewrite list_elem_of_fmap. setoid_rewrite elem_of_lfilter. setoid_rewrite elem_of_lfilter.
    assert (forall id, id ∈ (list_to_set (omap r_parent_revision_id (cps_revisions canonical)) : gset string)
      <-> has_child (cps_revisions canonical) id = true) as Hc.
    { intros id. rewrite elem_of_list_to_set, list_elem_of_omap. unfold has_child. rewrite existsb_exists.
      split; intros (x & Hx & Hp); exists x; [rewrite bool_decide_eq_true|rewrite bool_decide_eq_true in Hp]; by rewrite <-list_elem_of_In in *. }
    split.
    - intros (r' & Hid & (Hin & Hch) & Helig).
      assert (Some r = Some r') as [= ->]
        by (rewrite <-(find_unique r_revision_id _ r Hnd Hr), Hid; by apply find_unique).
      breflect. rewrite Hc in Hch. split; [|done]. by apply not_true_is_false.
    - intros [Hch Helig]. exists r. split_and!; try done. rewrite negb_true_iff, bool_decide_eq_false, Hc. by rewrite Hch. }
  unfold expected_absent_reason. fold (has_child (cps_revisions canonical) (r_revision_id r)).
  unfold revision_is_eligible. destruct (has_child _ _); [naive_solver|].
  destruct (r_deleted_at r); cbn; [naive_solver|].
  destruct (bool_decide _ || bool_decide _); cbn; [|naive_solver].
  destruct (r_content r); try naive_solver. destruct (blank _); naive_solver.
Qed.

(** A recovered reset is refused as long as the ledger has nothing to rebuild,
    which is no obstacle for the other cutovers. *)
Lemma empty_recovery_is_refused `{LedgerCodec} `{!Serde BuilderSpec} `{!Serde EmbeddingArtifact} files recovered builder canonical :
  select_rebuild_targets AllEligible canonical = Err Rebuild_NothingToRebuild ->
  resume_authorized files recovered builder AllEligible canonical = (Err (invalid "invalid_projection_cutover_selector"), recovered) /\
  cutover_selected_count AllEligible canonical = Ok 0%Z.
Proof. unfold resume_authorized, cutover_selected_count. intros ->. done. Qed.

(** ** A concrete build

    The first revision of [plan_two] has been claimed; its text is embedded and
    published. *)

#[local] Existing Instances plan_platform plan_specs plan_artifacts.
#[local] Instance no_serde {A} : Serde A | 100 := {| to_vec := fun _ => None; from_slice := fun _ => None |}.
#[local] Instance no_codec : LedgerCodec := {| lc_json := no_serde |}.

Definition build_ledger : Canonical := {|
  cn_storage := mkStorage ∅ [] (Slots_Both None None);
  cn_state := {|
    ls_poisoned := false; ls_root_hash := Some a_hash; ls_root := Some (plan_root 2);
    ls_view := Some {| v_schema := CURRENT_VIEW_SCHEMA; v_generation := 2; v_revision_watermark := 2; v_policy_watermark := 1;
                       v_relation_watermark := 0; v_streams := [mkStream "m" "q" false "p"] |};
    ls_revisions := plan_two;
    ls_policies := [{| p_schema := POLICY_SCHEMA; p_sequence := 1; p_policy_id := "p"; p_memory_id := "m";
                       p_effective_from_revision_id := "q"; p_origin_role_id := "alice"; p_mode := Mode_Private;
                       p_reader_roles := ["alice"; PERSONAL_OWNER_ROLE_ID]; p_writer_roles := ["alice"];
                       p_committed_at := 1; p_committed_by_role := "alice" |}];
    ls_relations := [] |} |}.

Definition build_identity : EmbeddingBuilderIdentity :=
  mkIdentity Family_Ollama "c" "m" 4 4 Embeddings.MemoryTextUtf8V1 Embeddings.ProviderNative.
Definition build_self : SelfDescription := mkSelf (Ok build_identity) 4 4.
Definition build_vector : list f32 := replicate 4 (f32_of_Z 1).
Definition build_published : StoreOutcome := Store_Published a_hash a_hash a_hash.

Definition no_files : ProjectionFiles := {|
  pf_inspect := fun _ => Ok Found_Absent; pf_builder_match := fun _ _ => Ok tt;
  pf_bootstrap := fun _ => Err P_Serialization; pf_open_genesis := fun _ => Err P_Serialization;
  pf_open_initialized := fun _ => Err P_Serialization; pf_open_matching := fun _ _ => Err P_Serialization;
  pf_reset := fun _ => Err P_Serialization; pf_recover := fun _ => Err P_Serialization;
  pf_artifact_issues := fun _ => Ok []; pf_activate := (build_published, 40%Z);
  pf_reconcile := (build_published, 40%Z, 40%Z); pf_rebuild := (build_published, 40%Z) |}.

Definition build_env : BuildEnv := {|
  bv_cancelled := fun _ => false; bv_document := build_ledger; bv_precheck := build_self;
  bv_embed := fun _ => Ok (mkEmbedResult build_vector 1); bv_postcheck := build_self;
  bv_publish := build_ledger; bv_failure := build_ledger; bv_reconcile := build_ledger; bv_files := no_files;
  bv_ready := (build_published, 40%Z); bv_failed := (build_published, 40%Z, 40%Z); bv_others := fun _ s => s |}.

Definition build_job : ProjectionBuildJob :=
  mkJob plan_guard build_identity "run" None 5 (g_canonical_watermark plan_guard).

Lemma plan_claimed_ok : store_ok plan_claimed.
Proof.
  pose proof (claim_cases (Store_Published a_hash a_hash a_hash) 30 30 7 _ (plan_snapshot plan_two) plan_reconciled_ok) as Hc.
  fold plan_claim in Hc. rewrite plan_claim_ok in Hc. by destruct Hc as (_ & ? & ? & ? & ?).
Qed.

Lemma builds_report_what_happened_witness :
  exists s', complete_one_interruptible build_env build_job plan_claimed = Some (Ok Build_Ready, s') /\
    reported build_env build_job s' Build_Ready.
Proof.
  assert (exists s', complete_one_interruptible build_env build_job plan_claimed = Some (Ok Build_Ready, s')) as [s' Hs].
  { assert (fst <$> complete_one_interruptible build_env build_job plan_claimed = Some (Ok Build_Ready)) as Hb by (vm_compute; reflexivity).
    destruct (complete_one_interruptible _ _ _) as [[r s']|]; [|done]. exists s'. by injection Hb as ->. }
  exists s'. split; [done|].
  apply (builds_report_what_happened build_env build_job plan_claimed); [apply plan_claimed_ok| |done|done].
  intros k s. apply rtc_refl.
Defined.
