(* ===== verification/ProjectionRuntime.v ===== *)
(** * The projection runtime ([src/src/kernel/ops/projection_runtime.rs])

    The one owner of a projection controller in a process: what it finds at
    startup, how the owner brings a projection into service, and the worker that
    builds.  The owner and the worker are threads; their critical sections under
    the state lock are the steps of the model, and what happens between them is
    any interleaving. *)

From stdpp Require Import base gmap strings list.
From S2P Require Import Prelude Wire Text Float32 MemoryModel LedgerModel LedgerStorage ProjectionModel LedgerStore LedgerQueries ProjectionView ProjectionLifecycle ProjectionPlan ProjectionPlanProps EdgeCache Embeddings ProjectionController.

Inductive ProjectionUnavailableReason : Type :=
  | Why_ProjectionNotInitialized
  | Why_OwnerResumeRequired
  | Why_BuilderChangeRequired
  | Why_ResetRequired (reason : ProjectionPairResetReason)
  | Why_UnsupportedFormat
  | Why_VaultLocked
  | Why_PermissionDenied
  | Why_StorageIo
  | Why_ResourceExhausted
  | Why_ResetPending
  | Why_MaintenanceRequired
  | Why_ManualIntervention
  | Why_IdentityUnavailable (category : string)
  | Why_WorkerRestartRequired
  | Why_RuntimeShuttingDown
  | Why_RuntimeStateUnavailable.

Definition reason_category (r : ProjectionUnavailableReason) : string :=
  match r with
  | Why_ProjectionNotInitialized => "projection_not_initialized"
  | Why_OwnerResumeRequired => "projection_owner_resume_required"
  | Why_BuilderChangeRequired => "projection_builder_change_required"
  | Why_ResetRequired _ => "projection_reset_required"
  | Why_UnsupportedFormat => "projection_unsupported_format"
  | Why_VaultLocked => "projection_vault_locked"
  | Why_PermissionDenied => "projection_permission_denied"
  | Why_StorageIo => "projection_storage_io"
  | Why_ResourceExhausted => "projection_resource_exhausted"
  | Why_ResetPending => "projection_reset_pending"
  | Why_MaintenanceRequired => "projection_maintenance_required"
  | Why_ManualIntervention => "projection_manual_intervention_required"
  | Why_IdentityUnavailable category => category
  | Why_WorkerRestartRequired => "projection_worker_restart_required"
  | Why_RuntimeShuttingDown => "projection_runtime_shutting_down"
  | Why_RuntimeStateUnavailable => "projection_runtime_state_unavailable"
  end.

Inductive ProjectionRuntimeStatus : Type :=
  | Status_Projection (o : ProjectionStatusObservation)
  | Status_Unavailable (revision_id : MemoryRevisionId) (content_hash : CanonicalContentHash) (reason : ProjectionUnavailableReason).

Record ProjectionRuntimeReadinessSnapshot := mkReadinessSnapshot {
  rs_control_plane_ready : bool;
  rs_worker_ready : bool;
  rs_control_plane_reason : option ProjectionUnavailableReason;
  rs_worker_reason : option ProjectionUnavailableReason;
  rs_identity : result string string;
  rs_shutting_down : bool;
}.

Inductive ProjectionRuntimeError : Type :=
  | Runtime_AllEligibleRequired
  | Runtime_NotFound
  | Runtime_NotEligible
  | Runtime_NothingToRebuild
  | Runtime_Unavailable (category : string).

Definition MAX_JOBS_PER_TURN : nat := 16.

(** ** Errors *)

Definition inspection_reason (i : ProjectionCoreInspection) : ProjectionUnavailableReason :=
  match i with
  | Core_Absent => Why_ProjectionNotInitialized
  | Core_GenesisOnly => Why_OwnerResumeRequired
  | Core_Existing _ => Why_BuilderChangeRequired
  | Core_Exact _ => Why_RuntimeStateUnavailable
  | Core_BuilderMismatch => Why_BuilderChangeRequired
  | Core_ResetRequired reason => Why_ResetRequired reason
  | Core_UnsupportedFormat => Why_UnsupportedFormat
  | Core_Unavailable Core_VaultLocked => Why_VaultLocked
  | Core_Unavailable Core_PermissionDenied => Why_PermissionDenied
  | Core_Unavailable Core_StorageIo => Why_StorageIo
  | Core_Unavailable Core_ResourceExhausted => Why_ResourceExhausted
  | Core_ResetPending => Why_ResetPending
  | Core_MaintenanceRequired => Why_MaintenanceRequired
  | Core_ManualIntervention => Why_ManualIntervention
  end.

Definition projection_unavailable_reason (e : ProjectionError) : ProjectionUnavailableReason :=
  match e with
  | P_UnsupportedFormat _ => Why_UnsupportedFormat
  | P_ManualInterventionRequired => Why_ManualIntervention
  | P_ProjectionMaintenanceRequired | P_ArtifactMaintenanceRequired => Why_MaintenanceRequired
  | P_ResetPending => Why_ResetPending
  | P_Io true => Why_PermissionDenied
  | _ => Why_StorageIo
  end.

Definition controller_unavailable_reason (e : ProjectionControllerError) : ProjectionUnavailableReason :=
  match e with
  | Controller_Canonical category =>
      if str_eqb category "canonical_vault_locked" then Why_VaultLocked else Why_StorageIo
  | Controller_NotInitialized => Why_ProjectionNotInitialized
  | Controller_BuilderChangeRequiresOwner => Why_BuilderChangeRequired
  | Controller_ProviderIdentityChanged => Why_IdentityUnavailable "provider_changed_restart_required"
  | Controller_Projection e => projection_unavailable_reason e
  | _ => Why_StorageIo
  end.

Definition map_controller_error (e : ProjectionControllerError) : ProjectionRuntimeError :=
  match e with
  | Controller_RebuildNotFound => Runtime_NotFound
  | Controller_RebuildNotEligible => Runtime_NotEligible
  | Controller_NothingToRebuild => Runtime_NothingToRebuild
  | Controller_NotInitialized | Controller_BuilderChangeRequiresOwner => Runtime_AllEligibleRequired
  | Controller_Canonical category => Runtime_Unavailable category
  | Controller_ProjectionUnavailable => Runtime_Unavailable "projection_unavailable"
  | Controller_Projection e => Runtime_Unavailable (reason_category (projection_unavailable_reason e))
  | Controller_ProviderIdentityChanged => Runtime_Unavailable "provider_changed_restart_required"
  end.

(** ** The state *)

(** An [Arc] of a controller is its address. *)
Inductive ProjectionRuntimeState : Type :=
  | Run_Ready (address : nat) (controller : ProjectionCoordinator)
  | Run_Faulted (address : nat) (controller : ProjectionCoordinator) (reason : ProjectionUnavailableReason)
  | Run_RecoveredGenesis (recovered : ProjectionManifestStore)
  | Run_Unavailable (reason : ProjectionUnavailableReason).

(** [rt_wake]: the channel of capacity one is full.  [rt_poisoned]: a thread
    panicked in a critical section of the state lock. *)
Record ProjectionRuntime := mkRuntime {
  rt_state : ProjectionRuntimeState;
  rt_poisoned : bool;
  rt_identity : result string string;
  rt_wake : bool;
  rt_receiver : bool;
  rt_worker_started : bool;
  rt_state_epoch : Z;
  rt_stopping : bool;
  rt_owner_pending : bool;
  rt_next_address : nat;
}.

Definition set_identity (i : result string string) (rt : ProjectionRuntime) : ProjectionRuntime :=
  mkRuntime (rt_state rt) (rt_poisoned rt) i (rt_wake rt) (rt_receiver rt) (rt_worker_started rt) (rt_state_epoch rt)
    (rt_stopping rt) (rt_owner_pending rt) (rt_next_address rt).
Definition set_runtime_state (s : ProjectionRuntimeState) (rt : ProjectionRuntime) : ProjectionRuntime :=
  mkRuntime s (rt_poisoned rt) (rt_identity rt) (rt_wake rt) (rt_receiver rt) (rt_worker_started rt) (rt_state_epoch rt)
    (rt_stopping rt) (rt_owner_pending rt) (rt_next_address rt).
Definition set_pending (b : bool) (rt : ProjectionRuntime) : ProjectionRuntime :=
  mkRuntime (rt_state rt) (rt_poisoned rt) (rt_identity rt) (rt_wake rt) (rt_receiver rt) (rt_worker_started rt) (rt_state_epoch rt)
    (rt_stopping rt) b (rt_next_address rt).
Definition set_wake (b : bool) (rt : ProjectionRuntime) : ProjectionRuntime :=
  mkRuntime (rt_state rt) (rt_poisoned rt) (rt_identity rt) b (rt_receiver rt) (rt_worker_started rt) (rt_state_epoch rt)
    (rt_stopping rt) (rt_owner_pending rt) (rt_next_address rt).
Definition set_worker (receiver started : bool) (rt : ProjectionRuntime) : ProjectionRuntime :=
  mkRuntime (rt_state rt) (rt_poisoned rt) (rt_identity rt) (rt_wake rt) receiver started (rt_state_epoch rt)
    (rt_stopping rt) (rt_owner_pending rt) (rt_next_address rt).
(** [state_epoch.fetch_add(1)], then the wake. *)
Definition bump_epoch (rt : ProjectionRuntime) : ProjectionRuntime :=
  mkRuntime (rt_state rt) (rt_poisoned rt) (rt_identity rt) true (rt_receiver rt) (rt_worker_started rt)
    (u64_add (rt_state_epoch rt) 1) (rt_stopping rt) (rt_owner_pending rt) (rt_next_address rt).
(** [*state = Ready(Arc::new(controller))], then the epoch and the wake. *)
Definition install (c : ProjectionCoordinator) (rt : ProjectionRuntime) : ProjectionRuntime :=
  bump_epoch (mkRuntime (Run_Ready (rt_next_address rt) c) (rt_poisoned rt) (rt_identity rt) (rt_wake rt) (rt_receiver rt)
    (rt_worker_started rt) (rt_state_epoch rt) (rt_stopping rt) (rt_owner_pending rt) (S (rt_next_address rt))).

(** ** Readiness *)

Definition not_ready (reason : ProjectionUnavailableReason) (rt : ProjectionRuntime) : ProjectionRuntimeReadinessSnapshot :=
  mkReadinessSnapshot false false (Some reason) (Some reason) (rt_identity rt) (rt_stopping rt).

Definition readiness_snapshot (rt : ProjectionRuntime) : ProjectionRuntimeReadinessSnapshot :=
  if rt_poisoned rt
  then mkReadinessSnapshot false false (Some Why_RuntimeStateUnavailable) (Some Why_RuntimeStateUnavailable)
         (Err "projection_runtime_state_unavailable") (rt_stopping rt)
  else match rt_state rt with
  | Run_Ready _ _ =>
      let worker (ready : bool) (reason : option ProjectionUnavailableReason) :=
        mkReadinessSnapshot true ready None reason (rt_identity rt) (rt_stopping rt) in
      if rt_stopping rt then worker false (Some Why_RuntimeShuttingDown)
      else match rt_identity rt with
      | Ok _ => if rt_worker_started rt then worker true None else worker false (Some Why_RuntimeStateUnavailable)
      | Err category => worker false (Some (Why_IdentityUnavailable category))
      end
  | Run_RecoveredGenesis _ => not_ready Why_OwnerResumeRequired rt
  | Run_Faulted _ _ reason | Run_Unavailable reason => not_ready reason rt
  end.

Section runtime.
Context `{LedgerCodec} `{!Serde BuilderSpec} `{!Serde EmbeddingArtifact}.

(** The answer for a revision the role may read while there is no controller. *)
Definition unavailable_status (cn : Canonical) (trusted_role : string) (revision_id : MemoryRevisionId)
    (reason : ProjectionUnavailableReason) : option (result ProjectionRuntimeError (option ProjectionRuntimeStatus)) :=
  r ← with_authorized_current_revision (cn_storage cn) (cn_state cn) trusted_role revision_id
        (fun proof => Status_Unavailable (src_revision_id (acr_source proof)) (src_content_hash (acr_source proof)) reason);
  Some (map_err (fun _ => Runtime_Unavailable "canonical_unavailable") r).

Definition runtime_status (files : ProjectionFiles) (cn : Canonical) (rt : ProjectionRuntime) (trusted_role : string)
    (revision_id : MemoryRevisionId) : option (result ProjectionRuntimeError (option ProjectionRuntimeStatus)) :=
  if rt_poisoned rt then Some (Err (Runtime_Unavailable "projection_runtime_state_unavailable")) else
  match rt_state rt with
  | Run_Ready _ c =>
      r ← controller_status files cn c trusted_role revision_id;
      Some (observation <-? map_err map_controller_error r; Ok (option_map Status_Projection observation))
  | Run_RecoveredGenesis _ => unavailable_status cn trusted_role revision_id Why_OwnerResumeRequired
  | Run_Unavailable reason | Run_Faulted _ _ reason => unavailable_status cn trusted_role revision_id reason
  end.

(** ** Startup *)

Definition exact_genesis_snapshot (snapshot : CanonicalProjectionSnapshot) : bool :=
  let root := cps_root snapshot in
  str_eqb (cps_root_hash snapshot) (cps_genesis_root_hash snapshot)
  && bool_decide (length (cps_root_chain snapshot) = 1)
  && (root_generation root =? 0)%Z
  && negb (opt_is_some (root_previous_root_hash root))
  && negb (opt_is_some (root_revision_head root))
  && (root_revision_watermark root =? 0)%Z
  && negb (opt_is_some (root_policy_head root))
  && (root_policy_watermark root =? 0)%Z
  && negb (opt_is_some (root_relation_head root))
  && (root_relation_watermark root =? 0)%Z
  && negb (opt_is_some (root_migration_manifest_hash root))
  && bool_decide (length (cps_revisions snapshot) = 0).

Definition canonical_is_exact_genesis (cn : Canonical) : option bool :=
  (fun r => match r with Ok snapshot => exact_genesis_snapshot snapshot | Err _ => false end)
    <$> projection_snapshot (cn_storage cn) (cn_state cn).

(** What startup draws: the files at each step, the provider's word on itself
    at each question, the identity the wrapper took from it, and whether the
    vault is new. *)
Record StartEnv := mkStartEnv {
  sv_files : ProjectionFiles;
  sv_canonical : Canonical;
  sv_slot : result EmbeddingIdentityError EmbeddingBuilderIdentity;
  sv_verify : SelfDescription;
  sv_open : SelfDescription;
  sv_created_this_open : bool;
}.

(** [HotSwapEmbeddingProvider::verified_document_snapshot] *)
Definition verified_document_snapshot (slot : result EmbeddingIdentityError EmbeddingBuilderIdentity) (self : SelfDescription)
    : result EmbeddingIdentityError EmbeddingBuilderIdentity :=
  expected <-? slot; snapshot_verify_exact self expected.

Definition startup_state (env : StartEnv) : option (ProjectionRuntimeState * result string string) :=
  let files := sv_files env in
  let cn := sv_canonical env in
  match verified_document_snapshot (sv_slot env) (sv_verify env) with
  | Ok provider =>
      let identity := Ok (bi_model_id provider) in
      inspected ← inspect_verified files cn provider;
      match inspected with
      | Err e => Some (Run_Unavailable (controller_unavailable_reason e), identity)
      | Ok (Core_Exact _) =>
          opened ← controller_open_existing files (sv_open env) cn provider;
          match opened with
          | Err e => Some (Run_Unavailable (controller_unavailable_reason e), identity)
          | Ok c =>
              '(r, c) ← reconcile_startup files cn c;
              Some (match r with
                    | Ok _ => Run_Ready 0 c
                    | Err _ => Run_Faulted 0 c Why_WorkerRestartRequired
                    end, identity)
          end
      | Ok Core_Absent =>
          genesis ← (if sv_created_this_open env then canonical_is_exact_genesis cn else Some false);
          if (genesis : bool) then
            booted ← bootstrap_for_owner files (sv_open env) cn provider;
            Some (match booted with
                  | Ok (c, _) => Run_Ready 0 c
                  | Err e => Run_Unavailable (controller_unavailable_reason e)
                  end, identity)
          else Some (Run_Unavailable (inspection_reason Core_Absent), identity)
      | Ok other => Some (Run_Unavailable (inspection_reason other), identity)
      end
  | Err identity_error =>
      inspected ← inspect_identity_unavailable files cn identity_error;
      Some (Run_Unavailable (match inspected with
              | Ok (Core_Existing _, category) | Ok (Core_Exact _, category) => Why_IdentityUnavailable category
              | Ok (other, _) => inspection_reason other
              | Err e => controller_unavailable_reason e
              end), Err (identity_error_category identity_error))
  end.

Definition runtime_initialize (env : StartEnv) : option ProjectionRuntime :=
  '(state, identity) ← startup_state env;
  Some (mkRuntime state false identity false true false 0 false false 1).

(** ** Hints *)

(** A hint after a canonical commit, with the reason it could not be given.
    [stopping_later] is the flag when it is read again. *)
Definition runtime_notify_current (cn : Canonical) (run_id : string) (stopping_later : bool) (entry : MemoryEntry)
    (request_id : option string) (rt : ProjectionRuntime) : option (option string * ProjectionRuntime) :=
  if rt_stopping rt then Some (Some "projection_runtime_shutting_down", rt)
  else if rt_poisoned rt then Some (Some "projection_runtime_state_unavailable", rt)
  else match rt_state rt with
  | Run_RecoveredGenesis _ => Some (Some "projection_owner_resume_required", rt)
  | Run_Faulted _ _ reason | Run_Unavailable reason => Some (Some (reason_category reason), rt)
  | Run_Ready address c =>
      match rt_identity rt with
      | Err reason => Some (Some reason, rt)
      | Ok _ =>
          if negb (rt_worker_started rt) then Some (Some "projection_worker_unavailable", rt) else
          wake ← wake_for_current cn run_id c entry request_id;
          Some (match wake with
                | Err e => (Some (reason_category (controller_unavailable_reason e)), rt)
                | Ok wake =>
                    if stopping_later then (Some "projection_runtime_shutting_down", rt)
                    else (None, set_wake true (set_runtime_state (Run_Ready address (snd (controller_notify wake c))) rt))
                end)
      end
  end.

(** ** The owner *)

(** What a rebuild draws: the files and the ledger in each critical section, and
    the provider at each question. *)
Record OwnerEnv := mkOwnerEnv {
  ov_files : ProjectionFiles;
  ov_canonical : Canonical;
  ov_files' : ProjectionFiles;
  ov_canonical' : Canonical;
  ov_slot : result EmbeddingIdentityError EmbeddingBuilderIdentity;
  ov_ready : SelfDescription;
  ov_verify : SelfDescription;
  ov_ready' : SelfDescription;
  ov_revalidate : SelfDescription;
  ov_open : SelfDescription;
}.

Definition shutting_down : ProjectionRuntimeError := Runtime_Unavailable "projection_runtime_shutting_down".
Definition state_unavailable : ProjectionRuntimeError := Runtime_Unavailable "projection_runtime_state_unavailable".

(** Before the gate of the owner, and behind it. *)
Definition owner_admit (trusted_role : string) (rt : ProjectionRuntime) : result ProjectionRuntimeError unit :=
  reject rt_stopping rt with shutting_down;
  reject negb (str_eqb trusted_role PERSONAL_OWNER_ROLE_ID) with Runtime_Unavailable "projection_owner_required";
  Ok tt.
Definition owner_begin (rt : ProjectionRuntime) : result ProjectionRuntimeError ProjectionRuntime :=
  reject rt_stopping rt with shutting_down;
  Ok (set_pending true rt).

Notation Receipt := (result ProjectionRuntimeError ProjectionDurableReceipt).

(** The rebuild through a controller that is in service. *)
Definition rebuild_ready (files : ProjectionFiles) (cn : Canonical) (self : SelfDescription) (selector : ProjectionRebuildSelector)
    (address : nat) (c : ProjectionCoordinator) (rt : ProjectionRuntime) : option (Receipt * ProjectionRuntime) :=
  match provider_unchanged (pc_provider c) self with
  | Err e => Some (Err (map_controller_error e), set_identity (Err "provider_changed_restart_required") rt)
  | Ok _ =>
      '(r, c) ← controller_owner_rebuild files cn selector c;
      let rt := set_runtime_state (Run_Ready address c) rt in
      Some (match r with
            | Err e => (Err (map_controller_error e), rt)
            | Ok receipt => (Ok receipt, bump_epoch rt)
            end)
  end.

(** The first critical section; without an answer the owner goes on. *)
Definition owner_first (env : OwnerEnv) (selector : ProjectionRebuildSelector) (rt : ProjectionRuntime)
    : option (option Receipt * ProjectionRuntime) :=
  if rt_poisoned rt then Some (Some (Err state_unavailable), rt) else
  match rt_state rt with
  | Run_Ready address c =>
      '(r, rt) ← rebuild_ready (ov_files env) (ov_canonical env) (ov_ready env) selector address c rt; Some (Some r, rt)
  | Run_Faulted _ _ reason => Some (Some (Err (Runtime_Unavailable (reason_category reason))), rt)
  | Run_RecoveredGenesis _ | Run_Unavailable _ =>
      Some (match selector with
            | CurrentRevision _ => (Some (Err Runtime_AllEligibleRequired), rt)
            | AllEligible => (None, rt)
            end)
  end.

(** Outside the state lock. *)
Definition owner_provider (env : OwnerEnv) (rt : ProjectionRuntime)
    : result ProjectionRuntimeError EmbeddingBuilderIdentity * ProjectionRuntime :=
  match verified_document_snapshot (ov_slot env) (ov_verify env) with
  | Err e => (Err (Runtime_Unavailable (identity_error_category e)), set_identity (Err (identity_error_category e)) rt)
  | Ok provider => (Ok provider, rt)
  end.

(** The continuation of a recovered reset, by a new recovery or an earlier one. *)
Definition owner_resume (env : OwnerEnv) (recovered : ProjectionManifestStore) (provider : EmbeddingBuilderIdentity)
    (rt : ProjectionRuntime) : option (Receipt * ProjectionRuntime) :=
  resumed ← resume_recovered_for_owner (ov_files' env) (ov_open env) (ov_canonical' env) recovered provider;
  Some (match resumed with
        | Ok (c, receipt) => (Ok receipt, install c rt)
        | Err (recovered, e) => (Err (map_controller_error e), set_runtime_state (Run_RecoveredGenesis recovered) rt)
        end).

Definition owner_install (opened : option (result ProjectionControllerError (ProjectionCoordinator * ProjectionDurableReceipt)))
    (rt : ProjectionRuntime) : option (Receipt * ProjectionRuntime) :=
  opened ← opened;
  Some (match opened with
        | Ok (c, receipt) => (Ok receipt, install c rt)
        | Err e => (Err (map_controller_error e), rt)
        end).

(** The second critical section. *)
Definition owner_second (env : OwnerEnv) (selector : ProjectionRebuildSelector) (provider : EmbeddingBuilderIdentity)
    (rt : ProjectionRuntime) : option (Receipt * ProjectionRuntime) :=
  let files := ov_files' env in
  let cn := ov_canonical' env in
  let self := ov_open env in
  if rt_poisoned rt then Some (Err state_unavailable, rt) else
  match rt_state rt with
  | Run_Ready address c => rebuild_ready files cn (ov_ready' env) selector address c rt
  | Run_Faulted _ _ reason => Some (Err (Runtime_Unavailable (reason_category reason)), rt)
  | Run_RecoveredGenesis _ | Run_Unavailable _ =>
      match snapshot_revalidate provider (ov_revalidate env) with
      | Err e => Some (Err (Runtime_Unavailable (identity_error_category e)), rt)
      | Ok _ =>
          let rt := set_identity (Ok (bi_model_id provider)) rt in
          match rt_state rt with
          | Run_RecoveredGenesis recovered => owner_resume env recovered provider rt
          | _ =>
              inspected ← inspect_verified files cn provider;
              match inspected with
              | Err e => Some (Err (map_controller_error e), rt)
              | Ok (Core_Exact _) =>
                  opened ← controller_open_existing files self cn provider;
                  match opened with
                  | Err e => Some (Err (map_controller_error e), rt)
                  | Ok c =>
                      '(r, c) ← controller_owner_rebuild files cn AllEligible c;
                      Some (match r with
                            | Err e => (Err (map_controller_error e), rt)
                            | Ok receipt => (Ok receipt, install c rt)
                            end)
                  end
              | Ok Core_Absent => owner_install (bootstrap_for_owner files self cn provider) rt
              | Ok Core_GenesisOnly => owner_install (resume_genesis_for_owner files self cn provider) rt
              | Ok Core_BuilderMismatch => owner_install (change_builder_for_owner files self cn provider) rt
              | Ok (Core_ResetRequired _) => owner_install (reset_for_owner files self cn provider) rt
              | Ok Core_ResetPending | Ok Core_MaintenanceRequired =>
                  recovered ← recover_reset_for_owner files cn;
                  match recovered with
                  | Err e => Some (Err (map_controller_error e), rt)
                  | Ok recovered => owner_resume env recovered provider rt
                  end
              | Ok other => Some (Err (Runtime_Unavailable (reason_category (inspection_reason other))), rt)
              end
          end
      end
  end.

(** The whole rebuild; [others] is what other threads do before each of its
    steps. *)
Definition runtime_owner_rebuild (env : OwnerEnv) (others : nat -> ProjectionRuntime -> ProjectionRuntime)
    (trusted_role : string) (selector : ProjectionRebuildSelector) (rt : ProjectionRuntime) : option (Receipt * ProjectionRuntime) :=
  match owner_admit trusted_role rt with
  | Err e => Some (Err e, rt)
  | Ok _ =>
      let rt := others 0 rt in
      match owner_begin rt with
      | Err e => Some (Err e, rt)
      | Ok rt =>
          '(answer, rt) ← owner_first env selector (others 1 rt);
          match answer with
          | Some r => Some (r, set_pending false rt)
          | None =>
              match owner_provider env (others 2 rt) with
              | (Err e, rt) => Some (Err e, set_pending false rt)
              | (Ok provider, rt) =>
                  '(r, rt) ← owner_second env selector provider (others 3 rt);
                  Some (r, set_pending false rt)
              end
          end
      end
  end.

(** ** The worker *)

(** [start_worker]: [spawned] is whether the thread could be created. *)
Definition start_worker (spawned : bool) (rt : ProjectionRuntime) : bool * ProjectionRuntime :=
  if rt_stopping rt || rt_worker_started rt then (false, rt)
  else if negb (rt_receiver rt) then (false, rt)
  else if spawned then (true, set_wake true (set_worker false true rt))
  else (false, set_worker false false rt).

Definition worker_may_go (stop : bool) (rt : ProjectionRuntime) : bool :=
  negb (stop || rt_stopping rt || rt_owner_pending rt).

(** How the part of an iteration under the state lock ends. *)
Inductive JobResult : Type := Job_Return | Job_Fault (address : nat) | Job_Done.

Definition worker_job (turn : TurnEnv) (build : BuildEnv) (rt : ProjectionRuntime) : option (JobResult * ProjectionRuntime) :=
  if rt_poisoned rt then Some (Job_Return, rt) else
  match rt_state rt, rt_identity rt with
  | Run_Ready address c, Ok _ =>
      '(r, c) ← reconcile_and_claim_one turn c;
      let ready c := set_runtime_state (Run_Ready address c) rt in
      match r with
      | Err _ => Some (Job_Fault address, ready c)
      | Ok None => Some (Job_Return, ready c)
      | Ok (Some job) =>
          '(outcome, s) ← complete_one_interruptible build job (pm_state (pc_store c));
          let rt := ready (with_pc_state s c) in
          Some (match outcome with
                | Ok (Build_Failed Failure_ProviderIdentityChanged) => (Job_Done, set_identity (Err "provider_changed_restart_required") rt)
                | Ok _ => (Job_Done, rt)
                | Err _ => (Job_Fault address, rt)
                end)
      end
  | _, _ => Some (Job_Return, rt)
  end.

Definition publish_worker_fault (address : nat) (turn_epoch : Z) (rt : ProjectionRuntime) : ProjectionRuntime :=
  if rt_poisoned rt then rt else
  match rt_state rt with
  | Run_Ready current c =>
      if (rt_state_epoch rt =? turn_epoch)%Z && (current =? address)%nat
      then set_runtime_state (Run_Faulted current c Why_WorkerRestartRequired) rt else rt
  | _ => rt
  end.

(** What an iteration draws, with what others do before the epoch is read, before
    the critical section and before a fault is published. *)
Record IterationEnv := mkIterationEnv {
  it_stop : bool;
  it_turn : TurnEnv;
  it_build : BuildEnv;
  it_others : nat -> ProjectionRuntime -> ProjectionRuntime;
}.

Fixpoint worker_loop (jobs : nat) (envs : nat -> IterationEnv) (completed : nat) (rt : ProjectionRuntime) : option ProjectionRuntime :=
  match jobs with
  | O => Some (if (completed =? MAX_JOBS_PER_TURN)%nat then set_wake true rt else rt)
  | S jobs =>
      let env := envs completed in
      let rt := it_others env 0 rt in
      if negb (worker_may_go (it_stop env) rt) then Some rt else
      let turn_epoch := rt_state_epoch rt in
      '(r, rt) ← worker_job (it_turn env) (it_build env) (it_others env 1 rt);
      match r with
      | Job_Return => Some rt
      | Job_Fault address => Some (publish_worker_fault address turn_epoch (it_others env 2 rt))
      | Job_Done => worker_loop jobs envs (S completed) rt
      end
  end.

Definition run_worker_turn (stop : bool) (envs : nat -> IterationEnv) (rt : ProjectionRuntime) : option ProjectionRuntime :=
  if stop || rt_stopping rt then Some rt else worker_loop MAX_JOBS_PER_TURN envs 0 rt.

Definition begin_shutdown (rt : ProjectionRuntime) : ProjectionRuntime :=
  mkRuntime (rt_state rt) (rt_poisoned rt) (rt_identity rt) true (rt_receiver rt) (rt_worker_started rt) (rt_state_epoch rt)
    true (rt_owner_pending rt) (rt_next_address rt).
(** The end of the thread. *)
Definition worker_ended (rt : ProjectionRuntime) : ProjectionRuntime := set_worker (rt_receiver rt) false rt.

(** ** The threads *)

Inductive OwnerPc : Type :=
  | Owner_Out
  | Owner_Gated (selector : ProjectionRebuildSelector)
  | Owner_Between (selector : ProjectionRebuildSelector)
  | Owner_Verified (selector : ProjectionRebuildSelector) (provider : EmbeddingBuilderIdentity).

Inductive WorkerPc : Type :=
  | Worker_Absent
  | Worker_Idle
  | Worker_Loop (completed : nat)
  | Worker_Epoch (completed : nat) (epoch : Z)
  | Worker_Fault (address : nat) (epoch : Z).

Record Threads := mkThreads { th_runtime : ProjectionRuntime; th_owner : OwnerPc; th_worker : WorkerPc }.

(** The files hand out stores whose view is the replay of their records. *)
Definition files_ok (files : ProjectionFiles) : Prop :=
  forall canonical hash store,
    pf_bootstrap files canonical = Ok store \/ pf_open_genesis files canonical = Ok store \/
    pf_open_initialized files canonical = Ok store \/ pf_open_matching files canonical hash = Ok store \/
    pf_reset files canonical = Ok store \/ pf_recover files canonical = Ok store -> store_ok (pm_state store).
(** A build under the state lock is alone with the store. *)
Definition alone (build : BuildEnv) : Prop := forall k s, bv_others build k s = s.

Inductive thread_step : Threads -> Threads -> Prop :=
  | step_hint cn run_id stopping entry request_id answer rt rt' o w :
      runtime_notify_current cn run_id stopping entry request_id rt = Some (answer, rt') ->
      thread_step (mkThreads rt o w) (mkThreads rt' o w)
  | step_shutdown rt o w : thread_step (mkThreads rt o w) (mkThreads (begin_shutdown rt) o w)
  | step_start spawned rt rt' o :
      start_worker spawned rt = (true, rt') -> thread_step (mkThreads rt o Worker_Absent) (mkThreads rt' o Worker_Idle)
  | step_no_start spawned rt rt' o w :
      start_worker spawned rt = (false, rt') -> thread_step (mkThreads rt o w) (mkThreads rt' o w)
  (** The owner was admitted when the runtime was [earlier], perhaps before it waited. *)
  | step_owner_begin earlier role selector rt rt' w :
      owner_admit role earlier = Ok tt -> owner_begin rt = Ok rt' ->
      thread_step (mkThreads rt Owner_Out w) (mkThreads rt' (Owner_Gated selector) w)
  | step_owner_answered env selector r rt rt' w :
      files_ok (ov_files env) -> owner_first env selector rt = Some (Some r, rt') ->
      thread_step (mkThreads rt (Owner_Gated selector) w) (mkThreads (set_pending false rt') Owner_Out w)
  | step_owner_goes_on env selector rt rt' w :
      files_ok (ov_files env) -> owner_first env selector rt = Some (None, rt') ->
      thread_step (mkThreads rt (Owner_Gated selector) w) (mkThreads rt' (Owner_Between selector) w)
  | step_owner_unverified env selector e rt rt' w :
      owner_provider env rt = (Err e, rt') ->
      thread_step (mkThreads rt (Owner_Between selector) w) (mkThreads (set_pending false rt') Owner_Out w)
  | step_owner_verified env selector provider rt rt' w :
      owner_provider env rt = (Ok provider, rt') ->
      thread_step (mkThreads rt (Owner_Between selector) w) (mkThreads rt' (Owner_Verified selector provider) w)
  | step_owner_second env selector provider r rt rt' w :
      files_ok (ov_files' env) -> owner_second env selector provider rt = Some (r, rt') ->
      thread_step (mkThreads rt (Owner_Verified selector provider) w) (mkThreads (set_pending false rt') Owner_Out w)
  | step_worker_turn rt o :
      rt_stopping rt = false -> thread_step (mkThreads rt o Worker_Idle) (mkThreads (set_wake false rt) o (Worker_Loop 0))
  | step_worker_rest stop n rt o :
      (n = MAX_JOBS_PER_TURN \/ worker_may_go stop rt = false) ->
      thread_step (mkThreads rt o (Worker_Loop n))
        (mkThreads (if (n =? MAX_JOBS_PER_TURN)%nat then set_wake true rt else rt) o Worker_Idle)
  | step_worker_go stop n rt o :
      (n < MAX_JOBS_PER_TURN)%nat -> worker_may_go stop rt = true ->
      thread_step (mkThreads rt o (Worker_Loop n)) (mkThreads rt o (Worker_Epoch n (rt_state_epoch rt)))
  | step_worker_job turn build n epoch r rt rt' o :
      alone build -> worker_job turn build rt = Some (r, rt') ->
      thread_step (mkThreads rt o (Worker_Epoch n epoch))
        (mkThreads rt' o match r with
                         | Job_Return => Worker_Idle
                         | Job_Fault address => Worker_Fault address epoch
                         | Job_Done => Worker_Loop (S n)
                         end)
  | step_worker_fault address epoch rt o :
      thread_step (mkThreads rt o (Worker_Fault address epoch)) (mkThreads (publish_worker_fault address epoch rt) o Worker_Idle)
  | step_worker_end rt o : thread_step (mkThreads rt o Worker_Idle) (mkThreads (worker_ended rt) o Worker_Absent).

(** ** What the threads keep *)

Definition state_of (c : ProjectionCoordinator) : ProjectionStoreState := pm_state (pc_store c).

(** Stores are replays. *)
Definition runtime_ok (rt : ProjectionRuntime) : Prop :=
  match rt_state rt with
  | Run_Ready _ c | Run_Faulted _ c _ => store_ok (state_of c)
  | Run_RecoveredGenesis store => store_ok (pm_state store)
  | Run_Unavailable _ => True
  end.

Definition errs_stay (rt rt' : ProjectionRuntime) : Prop :=
  forall e, rt_identity rt = Err e -> exists e', rt_identity rt' = Err e'.

(** What one runtime has of an earlier one. *)
Definition kept (rt rt' : ProjectionRuntime) : Prop :=
  match rt_state rt with
  | Run_Ready address c => exists c',
      (rt_state rt' = Run_Ready address c' \/ rt_state rt' = Run_Faulted address c' Why_WorkerRestartRequired) /\
      pc_provider c' = pc_provider c /\ rtc writer_step (state_of c) (state_of c') /\
      errs_stay rt rt'
  | Run_Faulted address c reason => rt_state rt' = Run_Faulted address c reason /\ errs_stay rt rt'
  | Run_RecoveredGenesis _ => forall reason, rt_state rt' <> Run_Unavailable reason
  | Run_Unavailable _ => True
  end.

Lemma kept_same rt rt' : rt_state rt' = rt_state rt -> rt_identity rt' = rt_identity rt -> kept rt rt'.
Proof.
  unfold kept, errs_stay. intros -> ->. destruct (rt_state rt) as [a c|a c r|store|r]; [|naive_solver..].
  exists c. split_and!; [by left|done..|naive_solver].
Qed.

Lemma errs_stay_trans rt1 rt2 rt3 : errs_stay rt1 rt2 -> errs_stay rt2 rt3 -> errs_stay rt1 rt3.
Proof. unfold errs_stay. naive_solver. Qed.

Lemma kept_trans rt1 rt2 rt3 : kept rt1 rt2 -> kept rt2 rt3 -> kept rt1 rt3.
Proof.
  unfold kept. pose proof (errs_stay_trans rt1 rt2 rt3) as He.
  destruct (rt_state rt1) as [a c|a c r|store|r]; [| |destruct (rt_state rt2) as [| | |r2]|done].
  - intros (c2 & [Hs|Hs] & Hp & Hr & Hi); rewrite Hs.
    + intros (c3 & Hs3 & Hp3 & Hr3 & Hi3). exists c3. split_and!; [done|congruence|by etrans|auto].
    + intros [Hs3 Hi3]. exists c2. split_and!; [by right|done..|auto].
  - intros [Hs Hi]. rewrite Hs. intros [Hs3 Hi3]. auto.
  - intros _ (c3 & [-> | ->] & _) ?; done.
  - intros _ [-> _] ?; done.
  - by intros _.
  - intros Hn. by destruct (Hn r2).
Qed.

(** ** The store moves by steps of the writer *)

Lemma reconcile_moves out plan_now now s canonical r s' :
  reconcile out plan_now now s canonical = (r, s') -> rtc writer_step s s'.
Proof. intros Hr. apply rtc_once. exists Do_reconcile, (mkEnv out plan_now now canonical). cbn. by rewrite Hr. Qed.

Lemma reconcile_receipt_moves out plan_now now s canonical r s' :
  reconcile_with_receipt out plan_now now s canonical = (r, s') -> rtc writer_step s s'.
Proof.
  intros Hr. destruct (reconcile out plan_now now s canonical) as [r1 s1] eqn:Hc.
  enough (s' = s1) as -> by by eapply reconcile_moves. unfold reconcile in Hc. rewrite Hr in Hc.
  destruct r as [[]|]; by simplify_eq.
Qed.

Lemma reconcile_once_moves files cn s r s' : reconcile_once files cn s = Some (r, s') -> rtc writer_step s s'.
Proof.
  unfold reconcile_once. destruct (snapshot_of cn) as [[snapshot|]|]; [| |done]; cbn; [|intros ?; by simplify_eq].
  destruct (pf_reconcile files) as [[out plan_now] now]. destruct (reconcile _ _ _ _ _) as [r1 s1] eqn:Hr.
  intros ?. simplify_eq. by eapply reconcile_moves.
Qed.

Lemma claim_moves turn c r c' :
  reconcile_and_claim_one turn c = Some (r, c') ->
  rtc writer_step (state_of c) (state_of c') /\ pc_provider c' = pc_provider c.
Proof.
  unfold reconcile_and_claim_one. destruct (take_wake c) as [wake c1] eqn:Hw.
  assert (state_of c1 = state_of c /\ pc_provider c1 = pc_provider c) as [Hs Hp]
    by (unfold take_wake in Hw; destruct (pc_wakes c); by simplify_eq).
  unfold state_of in *. rewrite <-Hs, <-Hp. clear Hw. destruct (reconcile_once _ _ _) as [[r1 s1]|] eqn:Hr; [|done]. cbn.
  apply reconcile_once_moves in Hr. destruct r1 as [[]|]; [|intros [= <- <-]; by split].
  unfold claim_one_in_turn. destruct (snapshot_of _) as [[snapshot|]|]; [| |done]; cbn; [|intros [= <- <-]; by split].
  destruct (te_commit turn) as [[out plan_now] now].
  destruct (claim_next _ _ _ _ _ _) as [r2 s2] eqn:Hc. intros ?. simplify_eq. cbn. split; [|done].
  etrans; [exact Hr|]. apply rtc_once. exists (Do_claim (te_attempt_id turn)), (mkEnv out plan_now now snapshot).
  cbn in Hc |- *. by rewrite Hc.
Qed.

Lemma completion_moves build outcome recover s completed r s' :
  after_completion build outcome recover s completed = Some (r, s') ->
  (forall x s1, completed = Some (Ok (Some (x, s1))) -> rtc writer_step s s1) ->
  (forall e s1, recover e s1 = Some (r, s') -> rtc writer_step s1 s') -> rtc writer_step s s'.
Proof.
  intros Ha Hc Hr.
  assert (forall s1, reconcile_after_discard build s1 = Some (r, s') -> rtc writer_step s1 s') as Hd.
  { unfold reconcile_after_discard. intros s1. destruct (reconcile_once _ _ _) as [[r1 s2]|] eqn:H1; [|done]. cbn.
    intros ?. simplify_eq. by eapply reconcile_once_moves. }
  unfold after_completion in Ha. destruct completed as [[[[[h|e] s1]|]|e]|]; cbn in Ha; try done.
  - simplify_eq. by eapply Hc.
  - specialize (Hc _ _ eq_refl). etrans; [exact Hc|]. destruct e; by eauto.
  - by apply Hd.
  - by simplify_eq.
Qed.

Lemma failure_moves build claim category s r s' :
  alone build -> complete_failure build claim category s = Some (r, s') -> rtc writer_step s s'.
Proof.
  unfold complete_failure. intros Hal. rewrite (Hal 3). destruct (bv_failed build) as [[out plan_now] now].
  intros Hc. apply completion_moves in Hc; [done| |].
  - intros x s1 (revision & snapshot & _ & Hx)%current_source_inv. apply rtc_once.
    exists (Do_failed claim category (pe_source (g_entry claim))), (mkEnv out plan_now now snapshot). cbn. by rewrite Hx.
  - intros e s1 ?. by simplify_eq.
Qed.

Lemma build_moves build job s r s' :
  alone build -> complete_one_interruptible build job s = Some (r, s') -> rtc writer_step s s'.
Proof.
  unfold complete_one_interruptible. intros Hal. rewrite (Hal 0), (Hal 1).
  assert (forall category, complete_failure build (pj_claim job) category s = Some (r, s') -> rtc writer_step s s') as Hf
    by (intros; by eapply failure_moves).
  assert (forall r1, Some (r1, s) = Some (r, s') -> rtc writer_step s s') as Hs by (intros; by simplify_eq).
  destruct (guard_is_current s _) as [[]|]; [|by apply Hs..].
  destruct (guarded_projection_document _ _) as [[text|]|]; [| |by apply Hs].
  2:{ unfold reconcile_after_discard. destruct (reconcile_once _ _ _) as [[r1 s1]|] eqn:H1; [|done]. cbn.
      intros ?. simplify_eq. by eapply reconcile_once_moves. }
  destruct (bv_cancelled build 0); [by apply Hs|].
  destruct (snapshot_revalidate _ (bv_precheck build)) as [[]|]; [|destruct (bv_cancelled build 1); [by apply Hs|by apply Hf]].
  destruct (bv_cancelled build 2); [by apply Hs|].
  destruct (bv_embed build text) as [embedded|]; [|destruct (bv_cancelled build 3); [by apply Hs|by apply Hf]].
  destruct (bv_cancelled build 4); [by apply Hs|].
  destruct (snapshot_revalidate _ (bv_postcheck build)) as [[]|]; [|destruct (bv_cancelled build 5); [by apply Hs|by apply Hf]].
  destruct (bv_cancelled build 6); [by apply Hs|].
  destruct (worker_output_is_valid _ _ _) as [[]|e]; [|by apply Hf|destruct e; by apply Hs].
  destruct (bv_cancelled build 7); [by apply Hs|]. unfold publish_ready. rewrite (Hal 2).
  intros Hc. apply completion_moves in Hc; [done| |].
  - intros x s1 (revision & snapshot & _ & Hx)%current_source_inv. apply rtc_once.
    exists (Do_ready (pj_claim job) (f32_to_bits <$> er_embedding embedded) (pe_source (g_entry (pj_claim job)))),
      (mkEnv (fst (bv_ready build)) 0 (snd (bv_ready build)) snapshot). cbn. by rewrite Hx.
  - intros e s1 He. destruct e; try (by simplify_eq). by eapply failure_moves.
Qed.

Lemma core_rebuild_moves files s selector canonical r s' :
  core_owner_rebuild files s selector canonical = (r, s') -> rtc writer_step s s'.
Proof.
  unfold core_owner_rebuild. destruct (select_rebuild_targets _ _) as [selected|]; [|intros ?; by simplify_eq].
  destruct (ok_or _ _); [|intros ?; by simplify_eq]. cbn. destruct (pf_reconcile files) as [[out plan_now] now].
  destruct (reconcile _ _ _ _ _) as [r1 s1] eqn:Hr. apply reconcile_moves in Hr.
  destruct r1; [|intros ?; by simplify_eq]. destruct (owner_rebuild _ _ _ _ _) as [r2 s2] eqn:Ho.
  assert (rtc writer_step s1 s2) as Hm.
  { apply rtc_once. exists (Do_rebuild selected), (mkEnv (fst (pf_rebuild files)) 0 (snd (pf_rebuild files)) canonical).
    cbn. by rewrite Ho. }
  destruct r2; intros ?; simplify_eq; by etrans.
Qed.

Lemma for_owner_inv {R} cn (f : CanonicalProjectionSnapshot -> R) y :
  for_owner cn f = Some (Ok y) -> exists canonical, f canonical = y.
Proof.
  unfold for_owner, with_owner_projection_maintenance, ok_or. destruct (negb _); [done|]. destruct (ls_poisoned _); [done|].
  destruct (projection_snapshot_from_state _ _) as [[canonical|]|]; [|done..]. cbn. intros ?. simplify_eq. eauto.
Qed.

Lemma rebuild_moves files cn selector c r c' :
  controller_owner_rebuild files cn selector c = Some (r, c') ->
  rtc writer_step (state_of c) (state_of c') /\ pc_provider c' = pc_provider c.
Proof.
  unfold controller_owner_rebuild. destruct (for_owner _ _) as [[[r1 s1]|e]|] eqn:Hf; [| |done]; cbn; intros ?; simplify_eq; [|done].
  apply for_owner_inv in Hf as [canonical Hf]. split; [|done]. cbn. by eapply core_rebuild_moves.
Qed.

Lemma cut_over_moves files store builder canonical count r store' :
  cut_over files store builder canonical count = (r, store') -> rtc writer_step (pm_state store) (pm_state store').
Proof.
  unfold cut_over. destruct (activate_builder _ _ _ _ _) as [r1 s1] eqn:Ha.
  assert (rtc writer_step (pm_state store) s1) as Hm.
  { apply rtc_once. exists (Do_activate builder), (mkEnv (fst (pf_activate files)) 0 (snd (pf_activate files)) canonical).
    cbn. by rewrite Ha. }
  destruct r1; [|intros ?; by simplify_eq]. destruct (pf_reconcile files) as [[out plan_now] now].
  destruct (reconcile_with_receipt _ _ _ _ _) as [r2 s2] eqn:Hr. apply reconcile_receipt_moves in Hr.
  destruct r2 as [[]|]; intros ?; simplify_eq; cbn; by etrans.
Qed.

Lemma moved_ok s s' : store_ok s -> rtc writer_step s s' -> store_ok s'.
Proof. intros Hok Hs. by destruct (steps_preserve _ _ Hok Hs). Qed.

(** ** What is opened is a replay *)

Section opened.
Context (files : ProjectionFiles) (Hfiles : files_ok files).

Lemma cut_over_new_ok store builder canonical count x :
  store_ok (pm_state store) -> cut_over_new files store builder canonical count = Ok x -> store_ok (pm_state (fst x)).
Proof.
  intros Hok. unfold cut_over_new. destruct (cut_over _ _ _ _ _) as [r store'] eqn:Hc. apply cut_over_moves in Hc.
  destruct r; [|done]. intros <-%Ok_inj. by eapply moved_ok.
Qed.

Lemma bootstrap_ok builder selector canonical x :
  bootstrap_authorized files builder selector canonical = Ok x -> store_ok (pm_state (fst x)).
Proof.
  unfold bootstrap_authorized. destruct (require_all_eligible_selector _); [|done]. destruct (cutover_selected_count _ _); [|done].
  destruct (inspect_existing _ _ _) as [[]|]; try done. destruct (pf_bootstrap files canonical) as [store|] eqn:Hs; [|done].
  cbn. apply cut_over_new_ok. apply (Hfiles canonical ""). by left.
Qed.

Lemma resume_genesis_ok builder selector canonical x :
  resume_genesis_authorized files builder selector canonical = Ok x -> store_ok (pm_state (fst x)).
Proof.
  unfold resume_genesis_authorized. destruct (require_all_eligible_selector _); [|done]. destruct (cutover_selected_count _ _); [|done].
  destruct (inspect_existing _ _ _) as [[| | | | | | |[]| | |]|]; try done.
  destruct (pf_open_genesis files canonical) as [store|] eqn:Hs; [|done].
  cbn. apply cut_over_new_ok. apply (Hfiles canonical ""). naive_solver.
Qed.

Lemma change_builder_ok builder selector canonical x :
  change_builder_authorized files builder selector canonical = Ok x -> store_ok (pm_state (fst x)).
Proof.
  unfold change_builder_authorized. destruct (require_all_eligible_selector _); [|done]. destruct (cutover_selected_count _ _); [|done].
  destruct (inspect_existing _ _ _) as [[]|]; try done. destruct (pf_open_initialized files canonical) as [store|] eqn:Hs; [|done].
  cbn. apply cut_over_new_ok. apply (Hfiles canonical ""). naive_solver.
Qed.

Lemma reset_ok builder selector canonical x :
  reset_authorized files builder selector canonical = Ok x -> store_ok (pm_state (fst x)).
Proof.
  unfold reset_authorized. destruct (require_all_eligible_selector _); [|done]. destruct (cutover_selected_count _ _); [|done].
  destruct (builder_spec_bytes_and_hash _); [|done]. cbn. destruct (validate_builder_hash _ _); [|done].
  destruct (pf_reset files canonical) as [store|] eqn:Hs; [|done]. cbn. destruct (ok_or _ _); [|done].
  cbn. apply cut_over_new_ok. apply (Hfiles canonical ""). naive_solver.
Qed.

Lemma open_for_owner_ok self cn provider open c receipt :
  (forall builder selector canonical x, open builder selector canonical = Ok x -> store_ok (pm_state (fst x))) ->
  open_for_owner self cn provider open = Some (Ok (c, receipt)) -> store_ok (state_of c).
Proof.
  intros Ho. unfold open_for_owner. destruct (provider_unchanged _ _); [|done].
  destruct (builder_spec_bytes_and_hash _) as [hashed|]; [|done]. cbn.
  destruct (for_owner _ _) as [[[x|]|]|] eqn:Hf; [|done..]. cbn. intros ?. simplify_eq.
  apply for_owner_inv in Hf as [canonical Hf]. by eapply Ho.
Qed.

Lemma open_existing_ok self cn provider c :
  controller_open_existing files self cn provider = Some (Ok c) -> store_ok (state_of c).
Proof.
  unfold controller_open_existing. destruct (provider_unchanged _ _); [|done].
  destruct (snapshot_of cn) as [[canonical|]|]; [|done..]. cbn. destruct (builder_spec_bytes_and_hash _) as [hashed|]; [|done]. cbn.
  destruct (core_open_existing files canonical (snd hashed)) as [core|] eqn:Hc; [|done]. cbn. intros ?. simplify_eq.
  unfold core_open_existing in Hc. destruct (inspect_existing _ _ _) as [[]|]; try done. cbn in Hc.
  destruct (pf_open_matching files canonical _) as [store|] eqn:Hs; [|done]. cbn in Hc.
  destruct (pf_reconcile files) as [[out plan_now] now]. destruct (reconcile _ _ _ _ _) as [r s] eqn:Hr.
  destruct r; [|done]. apply Ok_inj in Hc as <-. cbn. eapply moved_ok; [|by eapply reconcile_moves].
  apply (Hfiles canonical (snd hashed)). naive_solver.
Qed.

Lemma recover_ok cn store : recover_reset_for_owner files cn = Some (Ok store) -> store_ok (pm_state store).
Proof.
  unfold recover_reset_for_owner. destruct (for_owner _ _) as [[[x|]|]|] eqn:Hf; [|done..]. cbn. intros ?. simplify_eq.
  apply for_owner_inv in Hf as [canonical Hf]. unfold recover_reset_authorized in Hf.
  destruct (pf_recover files canonical) as [store'|] eqn:Hs; [|done]. cbn in Hf. destruct (ok_or _ _); [|done].
  apply Ok_inj in Hf as <-. apply (Hfiles canonical ""). naive_solver.
Qed.

Lemma resume_ok self cn recovered provider r :
  store_ok (pm_state recovered) -> resume_recovered_for_owner files self cn recovered provider = Some r ->
  match r with Ok (c, _) => store_ok (state_of c) | Err (store, _) => store_ok (pm_state store) end.
Proof.
  intros Hok. unfold resume_recovered_for_owner. destruct (provider_unchanged _ _); [|intros ?; by simplify_eq].
  destruct (builder_spec_bytes_and_hash _) as [hashed|]; cbn; [|intros ?; by simplify_eq].
  destruct (for_owner _ _) as [[[x store]|e]|] eqn:Hf; [| |done]; cbn; [|intros ?; by simplify_eq].
  apply for_owner_inv in Hf as [canonical Hf].
  assert (store_ok (pm_state store)) as Hs.
  { unfold resume_authorized in Hf. cbn [require_all_eligible_selector] in Hf.
    match type of Hf with match ?p with _ => _ end = _ => destruct p end; [|by simplify_eq].
    eapply moved_ok; [done|]. by eapply cut_over_moves. }
  destruct x; intros ?; by simplify_eq.
Qed.
End opened.

(** ** The steps *)

Definition goes (rt rt' : ProjectionRuntime) : Prop := kept rt rt' /\ (runtime_ok rt -> runtime_ok rt').

Lemma goes_trans rt1 rt2 rt3 : goes rt1 rt2 -> goes rt2 rt3 -> goes rt1 rt3.
Proof. intros [H1 H1'] [H2 H2']. split; [by eapply kept_trans|auto]. Qed.

(** The state stays; the identity stays or is lost. *)
Lemma goes_same rt rt' : rt_state rt' = rt_state rt -> errs_stay rt rt' -> goes rt rt'.
Proof.
  intros Hs He. split; [|unfold runtime_ok; by rewrite Hs]. unfold kept. rewrite Hs.
  destruct (rt_state rt) as [a c|a c r|store|r]; try done. exists c. split_and!; [by left|done..].
Qed.

Lemma goes_identical rt rt' : rt_state rt' = rt_state rt -> rt_identity rt' = rt_identity rt -> goes rt rt'.
Proof. intros Hs Hi. apply goes_same; [done|]. unfold errs_stay. rewrite Hi. eauto. Qed.

Lemma goes_refl rt : goes rt rt.
Proof. by apply goes_identical. Qed.

(** The controller in service moves its store. *)
Lemma goes_ready rt rt' address c c' :
  rt_state rt = Run_Ready address c -> rt_state rt' = Run_Ready address c' -> pc_provider c' = pc_provider c ->
  rtc writer_step (state_of c) (state_of c') -> errs_stay rt rt' -> goes rt rt'.
Proof.
  intros Hs Hs' Hp Hm He. unfold goes, kept, runtime_ok. rewrite Hs, Hs'. split; [|intros; by eapply moved_ok].
  exists c'. split_and!; [by left|done..].
Qed.

(** A controller is installed where there is none. *)
Lemma goes_install rt c :
  (forall address c, rt_state rt <> Run_Ready address c) -> (forall address c reason, rt_state rt <> Run_Faulted address c reason) ->
  store_ok (state_of c) -> goes rt (install c rt).
Proof.
  intros Hr Hf Hok. split; [|done]. unfold kept. destruct (rt_state rt) as [a c'|a c' r|store|r] eqn:Hs; try done.
  - by destruct (Hr a c').
  - by destruct (Hf a c' r).
Qed.

Lemma errs_stay_identity rt rt' : rt_identity rt' = rt_identity rt -> errs_stay rt rt'.
Proof. unfold errs_stay. intros ->. eauto. Qed.
Lemma errs_stay_err rt rt' e : rt_identity rt' = Err e -> errs_stay rt rt'.
Proof. unfold errs_stay. intros ->. eauto. Qed.
Hint Resolve errs_stay_identity errs_stay_err goes_refl goes_identical goes_same : runtime.

Lemma hint_goes cn run_id stopping entry request_id answer rt rt' :
  runtime_notify_current cn run_id stopping entry request_id rt = Some (answer, rt') -> goes rt rt'.
Proof.
  unfold runtime_notify_current. destruct (rt_stopping rt); [intros ?; simplify_eq; auto with runtime|].
  destruct (rt_poisoned rt); [intros ?; simplify_eq; auto with runtime|].
  destruct (rt_state rt) as [a c|a c r|store|r] eqn:Hs; try (intros ?; simplify_eq; by auto with runtime).
  destruct (rt_identity rt) eqn:Hi; [|intros ?; simplify_eq; auto with runtime].
  destruct (negb _); [intros ?; simplify_eq; auto with runtime|].
  destruct (wake_for_current _ _ _ _ _) as [[wake|]|]; [| |done]; cbn; [|intros ?; simplify_eq; auto with runtime].
  destruct stopping; intros ?; simplify_eq; [auto with runtime|].
  eapply (goes_ready _ _ a c); [done|done|..]; unfold controller_notify; destruct (_ <? _)%nat; cbn; auto with runtime; try done.
Qed.

Lemma rebuild_ready_goes files cn self selector address c r rt rt' :
  rt_state rt = Run_Ready address c -> rebuild_ready files cn self selector address c rt = Some (r, rt') -> goes rt rt'.
Proof.
  intros Hs. unfold rebuild_ready. destruct (provider_unchanged _ _); [|intros ?; simplify_eq; eauto with runtime].
  destruct (controller_owner_rebuild _ _ _ _) as [[r1 c1]|] eqn:Hr; [|done]. cbn. apply rebuild_moves in Hr as [Hm Hp].
  destruct r1; intros ?; simplify_eq; eapply (goes_ready _ _ address c); eauto with runtime.
Qed.

Lemma owner_first_goes env selector answer rt rt' : owner_first env selector rt = Some (answer, rt') -> goes rt rt'.
Proof.
  unfold owner_first. destruct (rt_poisoned rt); [intros ?; simplify_eq; auto with runtime|].
  destruct (rt_state rt) as [a c|a c r|store|r] eqn:Hs.
  - destruct (rebuild_ready _ _ _ _ _ _ _) as [[r rt1]|] eqn:Hr; [|done]. cbn. intros ?. simplify_eq. by eapply rebuild_ready_goes.
  - intros ?. simplify_eq. auto with runtime.
  - destruct selector; intros ?; simplify_eq; auto with runtime.
  - destruct selector; intros ?; simplify_eq; auto with runtime.
Qed.

Lemma owner_provider_goes env x rt rt' : owner_provider env rt = (x, rt') -> goes rt rt'.
Proof.
  unfold owner_provider. destruct (verified_document_snapshot _ _); intros ?; simplify_eq; [auto with runtime|].
  apply goes_same; [done|]. by eapply errs_stay_err.
Qed.

(** ** The second critical section *)

Section second.
Context (env : OwnerEnv) (Hfiles : files_ok (ov_files' env)) (rt : ProjectionRuntime).
Context (Hready : forall address c, rt_state rt <> Run_Ready address c).
Context (Hfaulted : forall address c reason, rt_state rt <> Run_Faulted address c reason).

Lemma owner_resume_goes recovered provider r rt' :
  store_ok (pm_state recovered) -> owner_resume env recovered provider rt = Some (r, rt') -> goes rt rt'.
Proof.
  intros Hok. unfold owner_resume. destruct (resume_recovered_for_owner _ _ _ _ _) as [x|] eqn:Hx; [|done]. cbn.
  apply resume_ok in Hx; [|done]. destruct x as [[c receipt]|[store e]]; intros ?; simplify_eq; [by apply goes_install|].
  split; [|done]. unfold kept. destruct (rt_state rt) as [a c|a c w|s|w] eqn:Hs; try done; [by destruct (Hready a c)|by destruct (Hfaulted a c w)].
Qed.

Lemma owner_install_goes opened r rt' :
  (forall c receipt, opened = Some (Ok (c, receipt)) -> store_ok (state_of c)) ->
  owner_install opened rt = Some (r, rt') -> goes rt rt'.
Proof.
  intros Ho. unfold owner_install. destruct opened as [[[c receipt]|e]|]; [| |done]; cbn; intros ?; simplify_eq; [|auto with runtime].
  apply goes_install; eauto.
Qed.
End second.

(** Opening a store while none is open. *)
Lemma goes_unserved rt rt' :
  (forall address c, rt_state rt <> Run_Ready address c) -> (forall address c reason, rt_state rt <> Run_Faulted address c reason) ->
  rt_state rt' = rt_state rt -> goes rt rt'.
Proof.
  intros Hr Hf Hs. split; [|unfold runtime_ok; by rewrite Hs]. unfold kept. rewrite Hs.
  destruct (rt_state rt) as [a c|a c w|s|w]; [by destruct (Hr a c)|by destruct (Hf a c w)|done..].
Qed.

Lemma owner_second_goes env selector provider r rt rt' :
  files_ok (ov_files' env) -> runtime_ok rt -> owner_second env selector provider rt = Some (r, rt') -> goes rt rt'.
Proof.
  intros Hfiles Hok. unfold owner_second. destruct (rt_poisoned rt); [intros ?; simplify_eq; auto with runtime|].
  set (rt1 := set_identity (Ok (bi_model_id provider)) rt).
  destruct (rt_state rt) as [a c|a c w|store|w] eqn:Hs; [by apply rebuild_ready_goes|intros ?; simplify_eq; auto with runtime|..];
    (destruct (snapshot_revalidate _ _); [|intros ?; simplify_eq; auto with runtime]);
    change (rt_state rt1) with (rt_state rt); rewrite Hs;
    assert (forall address c, rt_state rt1 <> Run_Ready address c) as Hn1 by (cbn; by rewrite Hs);
    assert (forall address c reason, rt_state rt1 <> Run_Faulted address c reason) as Hn2 by (cbn; by rewrite Hs);
    assert (goes rt rt1) as Hg by (apply goes_unserved; [done..|reflexivity]);
    intros Hr; (eapply goes_trans; [exact Hg|]); revert Hr.
  - apply owner_resume_goes; [done..|]. unfold runtime_ok in Hok. by rewrite Hs in Hok.
  - assert (forall x, Some (x, rt1) = Some (r, rt') -> goes rt1 rt') as Hd by (intros; simplify_eq; auto with runtime).
    assert (forall opened, (forall c receipt, opened = Some (Ok (c, receipt)) -> store_ok (state_of c)) ->
      owner_install opened rt1 = Some (r, rt') -> goes rt1 rt') as Hi by (intros; by eapply owner_install_goes).
    assert (forall recovered, store_ok (pm_state recovered) ->
      owner_resume env recovered provider rt1 = Some (r, rt') -> goes rt1 rt') as Hm by (intros; by eapply owner_resume_goes).
    assert ((recovered ← recover_reset_for_owner (ov_files' env) (ov_canonical' env);
      match recovered with
      | Err e => Some (Err (map_controller_error e), rt1)
      | Ok recovered => owner_resume env recovered provider rt1
      end) = Some (r, rt') -> goes rt1 rt') as Hrec.
    { destruct (recover_reset_for_owner _ _) as [[store|]|] eqn:Hrec; [|by apply Hd|done]. apply Hm. by eapply recover_ok. }
    destruct (inspect_verified _ _ _) as [[[]|]|]; try done; cbn [mbind option_bind]; try (by apply Hd); try exact Hrec;
      try (apply Hi; intros c receipt; apply open_for_owner_ok;
           by eauto using bootstrap_ok, resume_genesis_ok, change_builder_ok, reset_ok).
    destruct (controller_open_existing _ _ _ _) as [[c|]|] eqn:Ho; [|by apply Hd|done]. cbn [mbind option_bind].
    destruct (controller_owner_rebuild _ _ _ _) as [[x c1]|] eqn:Hb; [|done]. cbn [mbind option_bind].
    apply rebuild_moves in Hb as [Hb _]. destruct x; intros ?; simplify_eq; [|auto with runtime].
    apply goes_install; [done..|]. eapply moved_ok; [|exact Hb]. by eapply open_existing_ok.
Qed.

Lemma worker_job_goes turn build r rt rt' : alone build -> worker_job turn build rt = Some (r, rt') -> goes rt rt'.
Proof.
  intros Hal. unfold worker_job. destruct (rt_poisoned rt); [intros ?; simplify_eq; auto with runtime|].
  destruct (rt_state rt) as [a c|a c w|store|w] eqn:Hs; try (intros ?; simplify_eq; by auto with runtime).
  destruct (rt_identity rt); [|intros ?; simplify_eq; auto with runtime].
  destruct (reconcile_and_claim_one turn c) as [[x c1]|] eqn:Hc; [|done]. apply claim_moves in Hc as [Hm Hp].
  cbn [mbind option_bind]. destruct x as [[job|]|]; cycle 1;
    [intros ?; simplify_eq; eapply (goes_ready _ _ a c); eauto with runtime..|].
  destruct (complete_one_interruptible build job _) as [[o s]|] eqn:Hb; [|done]. cbn [mbind option_bind].
  assert (rtc writer_step (state_of c) (state_of (with_pc_state s c1))) as Hm2.
  { etrans; [exact Hm|]. cbn. by eapply build_moves. }
  destruct o as [[|[]|]|]; intros ?; simplify_eq; (eapply (goes_ready _ _ a c); [done|reflexivity|done|done|]); eauto with runtime.
Qed.

Lemma publish_goes address epoch rt : goes rt (publish_worker_fault address epoch rt).
Proof.
  unfold publish_worker_fault. destruct (rt_poisoned rt); [auto with runtime|].
  destruct (rt_state rt) as [a c|a c w|store|w] eqn:Hs; try by auto with runtime.
  destruct (_ && _); [|auto with runtime]. unfold goes, kept, runtime_ok. rewrite Hs. cbn. split; [|done].
  exists c. split_and!; [by right|done..|]. by apply errs_stay_identity.
Qed.

Lemma thread_goes th th' : runtime_ok (th_runtime th) -> thread_step th th' -> goes (th_runtime th) (th_runtime th').
Proof.
  intros Hok Hs. destruct Hs; cbn in *.
  - by eapply hint_goes.
  - auto with runtime.
  - unfold start_worker in *. repeat case_match; simplify_eq; auto with runtime.
  - unfold start_worker in *. repeat case_match; simplify_eq; auto with runtime.
  - unfold owner_begin in *. destruct (rt_stopping rt); [done|]. match goal with H : Ok _ = Ok _ |- _ => apply Ok_inj in H as <- end. auto with runtime.
  - eapply goes_trans; [by eapply owner_first_goes|]. auto with runtime.
  - by eapply owner_first_goes.
  - eapply goes_trans; [by eapply owner_provider_goes|]. auto with runtime.
  - by eapply owner_provider_goes.
  - eapply goes_trans; [by eapply owner_second_goes|]. auto with runtime.
  - auto with runtime.
  - destruct (n =? _)%nat; auto with runtime.
  - auto with runtime.
  - by eapply worker_job_goes.
  - apply publish_goes.
  - auto with runtime.
Qed.

Lemma threads_go th th' : runtime_ok (th_runtime th) -> rtc thread_step th th' -> goes (th_runtime th) (th_runtime th').
Proof.
  intros Hok Hs. induction Hs as [|th th1 th' Hs _ IH]; [auto with runtime|].
  pose proof (thread_goes _ _ Hok Hs) as Hg. eapply goes_trans; [exact Hg|]. apply IH. by apply Hg.
Qed.

Lemma startup_ok env rt : files_ok (sv_files env) -> runtime_initialize env = Some rt -> runtime_ok rt.
Proof.
  intros Hfiles. unfold runtime_initialize. destruct (startup_state env) as [[state identity]|] eqn:Hs; [|done]. cbn.
  intros ?. simplify_eq. unfold runtime_ok. cbn. unfold startup_state in Hs.
  destruct (verified_document_snapshot _ _) as [provider|]; cycle 1.
  { destruct (inspect_identity_unavailable _ _ _) as [x|]; [|done]. cbn in Hs. by simplify_eq. }
  destruct (inspect_verified _ _ _) as [[[]|]|]; cbn [mbind option_bind] in Hs; try done; simplify_eq; try done.
  - destruct (if sv_created_this_open env then _ else _) as [[]|]; cbn [mbind option_bind] in Hs; [| |done]; [|by simplify_eq].
    destruct (bootstrap_for_owner _ _ _ _) as [[[c receipt]|]|] eqn:Hb; cbn in Hs; [| |done]; simplify_eq; [|done].
    eapply open_for_owner_ok; [|exact Hb]. by apply bootstrap_ok.
  - destruct (controller_open_existing _ _ _ _) as [[c|]|] eqn:Ho; cbn [mbind option_bind] in Hs; [| |done]; [|by simplify_eq].
    apply open_existing_ok in Ho; [|done]. unfold reconcile_startup in Hs.
    destruct (reconcile_once _ _ _) as [[x s]|] eqn:Hr; [|done]. cbn in Hs. apply reconcile_once_moves in Hr.
    destruct x; simplify_eq; cbn; by eapply moved_ok.
Qed.

(** C38: from startup on, whatever the owner, the worker, hints and a shutdown do
    in any interleaving: a controller in service is never replaced, it stays in
    service with its provider or is faulted for good, its manifest only grows and
    stays the replay of its records, and a lost provider identity stays lost; a
    fault found at startup lasts too, and a recovered reset is not lost again. *)
Theorem one_controller_serves env rt0 th th' :
  files_ok (sv_files env) -> runtime_initialize env = Some rt0 ->
  rtc thread_step (mkThreads rt0 Owner_Out Worker_Absent) th -> rtc thread_step th th' ->
  match rt_state (th_runtime th) with
  | Run_Ready address c => exists c',
      (rt_state (th_runtime th') = Run_Ready address c' \/
       rt_state (th_runtime th') = Run_Faulted address c' Why_WorkerRestartRequired) /\
      pc_provider c' = pc_provider c /\ store_ok (state_of c') /\
      ps_records (state_of c) `prefix_of` ps_records (state_of c') /\
      errs_stay (th_runtime th) (th_runtime th')
  | Run_Faulted address c reason =>
      rt_state (th_runtime th') = Run_Faulted address c reason /\ errs_stay (th_runtime th) (th_runtime th')
  | Run_RecoveredGenesis _ => forall reason, rt_state (th_runtime th') <> Run_Unavailable reason
  | Run_Unavailable _ => True
  end.
Proof.
  intros Hfiles Hinit Hth Hth'. pose proof (startup_ok _ _ Hfiles Hinit) as Hok0.
  destruct (threads_go (mkThreads rt0 Owner_Out Worker_Absent) th Hok0 Hth) as [_ Hok]. specialize (Hok Hok0). destruct (threads_go _ _ Hok Hth') as [Hk _].
  unfold kept in Hk. unfold runtime_ok in Hok. destruct (rt_state (th_runtime th)) as [a c|a c w|store|w]; try done.
  destruct Hk as (c' & Hs & Hp & Hm & He). exists c'. destruct (steps_preserve _ _ Hok Hm) as (Hok' & Hpre & _). by split_and!.
Qed.

(** ** Whole operations *)

Section whole.
Context (others : nat -> ProjectionRuntime -> ProjectionRuntime).
Context (Hothers : forall k rt, runtime_ok rt -> goes rt (others k rt)).

(** A rebuild, with other threads between its steps, keeps what the steps keep;
    only the owner gets beyond the gate. *)
Lemma owner_rebuild_goes env role selector r rt rt' :
  files_ok (ov_files env) -> files_ok (ov_files' env) -> runtime_ok rt ->
  runtime_owner_rebuild env others role selector rt = Some (r, rt') ->
  goes rt rt' /\ (role <> PERSONAL_OWNER_ROLE_ID -> rt' = rt /\ exists e, r = Err e).
Proof.
  intros Hf Hf' Hok. unfold runtime_owner_rebuild. destruct (owner_admit role rt) as [[]|e] eqn:Ha.
  2:{ intros ?. simplify_eq. split; [auto with runtime|eauto]. }
  assert (role = PERSONAL_OWNER_ROLE_ID) as Hrole.
  { unfold owner_admit in Ha. destruct (rt_stopping rt); [done|]. destruct (negb _) eqn:Hn; [done|]. by breflect. }
  intros Hr. split; [|done]. clear Ha Hrole. revert Hr.
  assert (forall k rt1 rt2, goes rt rt1 -> goes (others k rt1) rt2 -> goes rt rt2) as Hstep.
  { intros k rt1 rt2 H1 H2. eapply goes_trans; [exact H1|]. eapply goes_trans; [|exact H2]. apply Hothers. by apply H1. }
  assert (goes rt (others 0 rt)) as H0' by (apply Hothers, Hok). unfold owner_begin.
  destruct (rt_stopping (others 0 rt)); [intros ?; by simplify_eq|]. set (rt1 := set_pending true (others 0 rt)).
  assert (goes rt rt1) as H1' by (eapply goes_trans; [exact H0'|auto with runtime]).
  destruct (owner_first env selector (others 1 rt1)) as [[answer rt2]|] eqn:H1; [|done]. cbn [mbind option_bind].
  assert (goes rt rt2) as H2' by (eapply Hstep; [exact H1'|by eapply owner_first_goes]).
  destruct answer; [intros ?; simplify_eq; eapply goes_trans; [exact H2'|auto with runtime]|].
  destruct (owner_provider env (others 2 rt2)) as [x rt3] eqn:H2.
  assert (goes rt rt3) as H3' by (eapply Hstep; [exact H2'|by eapply owner_provider_goes]).
  destruct x; [|intros ?; simplify_eq; eapply goes_trans; [exact H3'|auto with runtime]].
  destruct (owner_second env selector _ (others 3 rt3)) as [[x rt4]|] eqn:H3; [|done]. cbn [mbind option_bind].
  intros ?. simplify_eq. apply goes_trans with rt4; [|by apply goes_identical]. eapply Hstep; [exact H3'|].
  eapply owner_second_goes; [exact Hf'| |exact H3]. destruct H3' as [_ H3']. specialize (H3' Hok). by apply Hothers.
Qed.
End whole.

(** A turn of the worker ends after at most [MAX_JOBS_PER_TURN] jobs by its
    definition, and keeps what its steps keep. *)
Lemma worker_turn_goes stop envs rt rt' :
  (forall n, alone (it_build (envs n)) /\ forall k rt, runtime_ok rt -> goes rt (it_others (envs n) k rt)) ->
  runtime_ok rt -> run_worker_turn stop envs rt = Some rt' -> goes rt rt'.
Proof.
  intros Henvs Hok. unfold run_worker_turn. destruct (_ || _); [intros ?; simplify_eq; auto with runtime|].
  generalize 0 at 1 as n. generalize MAX_JOBS_PER_TURN as jobs. intros jobs. revert rt Hok.
  induction jobs as [|jobs IH]; intros rt Hok n; cbn.
  { intros [= <-]. destruct n; [auto with runtime|]. destruct (_ =? _)%nat; auto with runtime. }
  destruct (Henvs n) as [Hal Hot]. pose proof (Hot 0 rt Hok) as Hg0. set (rt0 := it_others (envs n) 0 rt) in *.
  destruct (negb _); [intros ?; by simplify_eq|]. assert (runtime_ok rt0) as Hok0 by by apply Hg0.
  destruct (worker_job _ _ _) as [[x rt1]|] eqn:Hj; [|done]. cbn [mbind option_bind].
  assert (goes rt rt1) as Hg1.
  { eapply goes_trans; [exact Hg0|]. eapply goes_trans; [apply (Hot 1 rt0 Hok0)|]. by eapply worker_job_goes. }
  assert (runtime_ok rt1) as Hok1 by by apply Hg1. destruct x; [intros ?; by simplify_eq| |].
  - intros [= <-]. eapply goes_trans; [exact Hg1|]. eapply goes_trans; [by apply (Hot 2)|]. apply publish_goes.
  - intros Hl. eapply goes_trans; [exact Hg1|]. by eapply IH.
Qed.

(** ** Further facts *)

(** A worker reported ready has a controller, a verified identity and a thread. *)
Lemma ready_worker_is_ready rt :
  rs_worker_ready (readiness_snapshot rt) = true ->
  rt_stopping rt = false /\ rt_worker_started rt = true /\ (exists model, rt_identity rt = Ok model) /\
  exists address c, rt_state rt = Run_Ready address c.
Proof.
  unfold readiness_snapshot. destruct (rt_poisoned rt); [done|]. destruct (rt_state rt) as [a c|a c w|store|w]; try done.
  destruct (rt_stopping rt); [done|]. destruct (rt_identity rt); [|done]. destruct (rt_worker_started rt); [|done]. eauto 10.
Qed.

(** An owner who continues a recovered reset on a ledger with nothing to rebuild
    is refused and finds the runtime as before, each time. *)
Lemma empty_recovery_stays env selector provider r rt rt' recovered :
  rt_state rt = Run_RecoveredGenesis recovered ->
  (forall canonical, projection_snapshot_from_state (cn_storage (ov_canonical' env)) (cn_state (ov_canonical' env)) = Some (Ok canonical) ->
     select_rebuild_targets AllEligible canonical = Err Rebuild_NothingToRebuild) ->
  owner_second env selector provider rt = Some (r, rt') ->
  (exists e, r = Err e) /\ rt_state rt' = Run_RecoveredGenesis recovered.
Proof.
  intros Hs Hempty. unfold owner_second. rewrite Hs. destruct (rt_poisoned rt); [intros ?; simplify_eq; by eauto|].
  destruct (snapshot_revalidate _ _); [|intros ?; simplify_eq; by eauto].
  change (rt_state (set_identity _ rt)) with (rt_state rt). rewrite Hs. unfold owner_resume, resume_recovered_for_owner.
  destruct (provider_unchanged _ _); cbn; [|intros ?; simplify_eq; by eauto].
  destruct (builder_spec_bytes_and_hash _) as [hashed|]; cbn; [|intros ?; simplify_eq; by eauto].
  unfold for_owner, with_owner_projection_maintenance. destruct (negb _); [cbn; intros ?; simplify_eq; by eauto|].
  destruct (ls_poisoned _); [cbn; intros ?; simplify_eq; by eauto|].
  destruct (projection_snapshot_from_state _ _) as [[canonical|]|] eqn:Hsnap; [| |done]; cbn; [|intros ?; simplify_eq; by eauto].
  rewrite (proj1 (empty_recovery_is_refused _ _ _ _ (Hempty _ eq_refl))). intros ?. simplify_eq. by eauto.
Qed.
End runtime.

(** ** A concrete runtime

    The projection of [plan_reconciled] is found at startup; the worker starts,
    begins a turn, and the process shuts down. *)

#[local] Existing Instances plan_platform plan_specs plan_artifacts no_codec.

Definition found_files : ProjectionFiles := {|
  pf_inspect := fun _ => Ok (Found_Valid 4); pf_builder_match := fun _ _ => Ok tt;
  pf_bootstrap := fun _ => Err P_Serialization; pf_open_genesis := fun _ => Err P_Serialization;
  pf_open_initialized := fun _ => Err P_Serialization; pf_open_matching := fun _ _ => Ok (mkManifestStore plan_reconciled None);
  pf_reset := fun _ => Err P_Serialization; pf_recover := fun _ => Err P_Serialization;
  pf_artifact_issues := fun _ => Ok []; pf_activate := (build_published, 40%Z);
  pf_reconcile := (build_published, 40%Z, 40%Z); pf_rebuild := (build_published, 40%Z) |}.

Definition some_start : StartEnv := mkStartEnv found_files build_ledger (Ok build_identity) build_self build_self false.

Lemma found_files_ok : files_ok found_files.
Proof.
  intros canonical hash store [Hf|[Hf|[Hf|[Hf|[Hf|Hf]]]]]; try discriminate Hf.
  apply Ok_inj in Hf. rewrite <-Hf. apply plan_reconciled_ok.
Qed.

Lemma some_steps rt0 :
  rt_stopping rt0 = false -> rt_worker_started rt0 = false -> rt_receiver rt0 = true ->
  rtc thread_step (mkThreads rt0 Owner_Out Worker_Absent)
    (mkThreads (begin_shutdown (set_wake false (snd (start_worker true rt0)))) Owner_Out (Worker_Loop 0)).
Proof.
  intros Hst Hw Hrec. assert (start_worker true rt0 = (true, set_wake true (set_worker false true rt0))) as Hstart
    by (unfold start_worker; by rewrite Hst, Hw, Hrec).
  rewrite Hstart. eapply rtc_l; [by apply (step_start true)|]. eapply rtc_l; [by apply step_worker_turn|].
  apply rtc_once, step_shutdown.
Qed.

Lemma one_controller_serves_witness :
  exists rt0 address c c', runtime_initialize some_start = Some rt0 /\ rt_state rt0 = Run_Ready address c /\
    (rt_state (begin_shutdown (set_wake false (snd (start_worker true rt0)))) = Run_Ready address c' \/
     rt_state (begin_shutdown (set_wake false (snd (start_worker true rt0)))) = Run_Faulted address c' Why_WorkerRestartRequired) /\
    ps_records (state_of c) `prefix_of` ps_records (state_of c').
Proof.
  assert ((fun rt => (rt_stopping rt, rt_worker_started rt, rt_receiver rt, match rt_state rt with Run_Ready _ _ => true | _ => false end))
    <$> runtime_initialize some_start = Some (false, false, true, true)) as Hv by (vm_compute; reflexivity).
  destruct (runtime_initialize some_start) as [rt0|] eqn:Hrt; [|done]. cbn in Hv.
  destruct (rt_state rt0) as [address c|a c w|store|w] eqn:Hs; [|done..]. injection Hv as Hst Hw Hrec.
  pose proof (one_controller_serves some_start rt0 (mkThreads rt0 Owner_Out Worker_Absent)
    (mkThreads (begin_shutdown (set_wake false (snd (start_worker true rt0)))) Owner_Out (Worker_Loop 0))) as Ht.
  cbn [th_runtime] in Ht. rewrite Hs in Ht. destruct Ht as (c' & Hs' & _ & _ & Hp & _).
  - exact found_files_ok.
  - exact Hrt.
  - apply rtc_refl.
  - exact (some_steps rt0 Hst Hw Hrec).
  - exists rt0, address, c, c'. exact (conj eq_refl (conj Hs (conj Hs' Hp))).
Defined.
