(* ===== verification/KernelMemory.v ===== *)
(** * The kernel's memory operations ([src/src/kernel/ops/memory.rs])

    Remembering, recalling, updating and deleting memories: the permission check,
    the quota of the agent, the tiers, the event and the notification of the
    projection that follow.  The ledger under the tiers is the interface
    [CanonicalLedger]. *)

From stdpp Require Import base gmap strings list.
From S2P Require Import Prelude Wire MemoryModel LedgerModel LedgerStore LedgerQueries LayeredMemory Scheduler EventBus Permission Float32 Relevance.

Record ProceduralEntry := mkProceduralEntry {
  pe_name : string;
  pe_description : string;
  pe_steps : list ProcedureStep;
  pe_learned_from : string;
  pe_tags : list string;
}.

Inductive KernelMemoryError : Type :=
  | KM_Denied (e : PermissionDenied)
  | KM_Memory (e : MemoryError)
  | KM_Durable (e : DurableMemoryMutationError).

(** An entry as the operations fill it in; identity and hash are sealed later. *)
Definition kernel_entry (now : Z) (id agent_id tenant_id : string) (tier : MemoryTier) (content : MemoryContent)
    (importance : Z) (tags : list string) (ty : MemoryType) : MemoryEntry := {|
  e_id := id; e_memory_id := ""; e_parent_revision_id := None; e_canonical_content_hash := "";
  e_agent_id := agent_id; e_tenant_id := tenant_id; e_tier := tier; e_content := content;
  e_importance := importance; e_access_count := 0; e_last_accessed := now; e_created_at := now;
  e_tags := tags; e_ttl_ms := None; e_original_ttl_ms := None; e_scope := Scope_Private;
  e_memory_type := ty; e_causal_parent := None; e_supersedes := None; e_superseded_by := None; e_deleted_at := None |}.

Definition tier_name (t : MemoryTier) : string :=
  match t with
  | Tier_Ephemeral => "ephemeral"
  | Tier_Working => "working"
  | Tier_LongTerm => "long_term"
  | Tier_Procedural => "procedural"
  end.

Section kernel.
Context `{Platform} `{!Serde Json} `{!CanonicalLedger} `{Broadcast}.
Variable event_to_string : SequencedEvent -> option string.
(** [serde_json::to_string] and [f64::exp] *)
Variable json_to_string : Json -> option string.
Variable exp : f64 -> f64.

Record MemoryKernel := mkMemoryKernel {
  km_permissions : PermissionGuard;
  km_agents : gmap AgentId Agent;
  km_memory : LayeredMemory;
  km_bus : EventBus;
  km_disk : EventDisk;
  (** The entries the projection has been told of, with the request. *)
  km_notified : list (MemoryEntry * option string);
}.

(** What a call draws: the ledger's input, the clock, fresh identifiers and what its events draw. *)
Record MemoryEnv := mkMemoryEnv {
  me_ledger : LedgerInput;
  me_now : Z;
  me_ids : nat -> string;
  me_events : nat -> EmitPlan;
}.

Definition with_memory (m : LayeredMemory) (k : MemoryKernel) : MemoryKernel :=
  mkMemoryKernel (km_permissions k) (km_agents k) m (km_bus k) (km_disk k) (km_notified k).
Definition memory_emit (plan : EmitPlan) (event : KernelEvent) (k : MemoryKernel) : MemoryKernel :=
  let '(bus, disk) := emit event_to_string plan (km_bus k) (km_disk k) event in
  mkMemoryKernel (km_permissions k) (km_agents k) (km_memory k) bus disk (km_notified k).
Definition notify_current (e : MemoryEntry) (request_id : option string) (k : MemoryKernel) : MemoryKernel :=
  mkMemoryKernel (km_permissions k) (km_agents k) (km_memory k) (km_bus k) (km_disk k) (km_notified k ++ [(e, request_id)]).

(** An unknown agent has quota 0, which is no limit. *)
Definition agent_memory_quota (k : MemoryKernel) (agent_id : string) : Z :=
  default 0%Z ((fun a => memory_quota (a_resources a)) <$> km_agents k !! agent_id).

Definition allow_memory (env : MemoryEnv) (k : MemoryKernel) (agent_id tenant_id : string) (action : PermissionAction)
    : result PermissionDenied unit := check (me_now env) (km_permissions k) (context_new agent_id tenant_id) action.

(** ** Remembering *)

Definition remember (env : MemoryEnv) (agent_id tenant_id content : string) (k : MemoryKernel)
    : result KernelMemoryError string * MemoryKernel :=
  match allow_memory env k agent_id tenant_id Action_Write with
  | Err e => (Err (KM_Denied e), k)
  | Ok _ =>
      let id := me_ids env 0 in
      let entry := kernel_entry (me_now env) id agent_id tenant_id Tier_Ephemeral (Text content) 50 [] Type_Untyped in
      let '(r, m) := store_checked (km_memory k) entry (agent_memory_quota k agent_id) in
      (match r with Err e => Err (KM_Memory e) | Ok _ => Ok id end, with_memory m k)
  end.

Definition remember_working_with_request_id (env : MemoryEnv) (agent_id tenant_id content : string) (tags : list string)
    (request_id : option string) (k : MemoryKernel) : result DurableMemoryMutationError MemoryEntry * MemoryKernel :=
  match allow_memory env k agent_id tenant_id Action_Write with
  | Err _ => (Err D_PermissionDenied, k)
  | Ok _ =>
      let entry := kernel_entry (me_now env) (me_ids env 0) agent_id tenant_id Tier_Working (Text content) 50 tags Type_Untyped in
      match create_working_durable (me_ledger env) (km_memory k) entry (agent_memory_quota k agent_id) with
      | (Err e, m) => (Err e, with_memory m k)
      | (Ok entry, m) =>
          (Ok entry, notify_current entry request_id (memory_emit (me_events env 0) (MemoryStored agent_id "working") (with_memory m k)))
      end
  end.
Definition remember_working (env : MemoryEnv) (agent_id tenant_id content : string) (tags : list string) (k : MemoryKernel)
    : result DurableMemoryMutationError MemoryEntry * MemoryKernel :=
  remember_working_with_request_id env agent_id tenant_id content tags None k.

Definition remember_long_term_private (env : MemoryEnv) (agent_id tenant_id content : string) (tags : list string) (importance : Z)
    (k : MemoryKernel) : result KernelMemoryError string * MemoryKernel :=
  match allow_memory env k agent_id tenant_id Action_Write with
  | Err e => (Err (KM_Denied e), k)
  | Ok _ =>
      let id := me_ids env 0 in
      let entry := kernel_entry (me_now env) id agent_id tenant_id Tier_LongTerm (Text content) importance tags Type_Untyped in
      match create_durable (me_ledger env) (km_memory k) entry (agent_memory_quota k agent_id) with
      | (Err e, m) => (Err (KM_Durable e), with_memory m k)
      | (Ok stored, m) =>
          (Ok id, notify_current stored None (memory_emit (me_events env 0) (MemoryStored agent_id "long_term") (with_memory m k)))
      end
  end.
Definition remember_long_term (env : MemoryEnv) (agent_id tenant_id content : string) (tags : list string) (importance : Z)
    (k : MemoryKernel) : result KernelMemoryError string * MemoryKernel :=
  remember_long_term_private env agent_id tenant_id content tags importance k.
Definition remember_action (env : MemoryEnv) (agent_id tenant_id content : string) (tags : list string) (k : MemoryKernel)
    : result KernelMemoryError string * MemoryKernel :=
  remember_long_term_private env agent_id tenant_id content tags 50 k.

(** One event and one notification for each stored entry. *)
Fixpoint announce_stored (env : MemoryEnv) (agent_id : string) (i : nat) (stored : list MemoryEntry) (k : MemoryKernel) : MemoryKernel :=
  match stored with
  | [] => k
  | e :: stored =>
      announce_stored env agent_id (S i) stored
        (notify_current e None (memory_emit (me_events env i) (MemoryStored agent_id "long_term") k))
  end.

Definition batch_entries (env : MemoryEnv) (agent_id tenant_id : string) (items : list (string * list string * Z)) : list MemoryEntry :=
  imap (fun i item =>
    kernel_entry (me_now env) (me_ids env i) agent_id tenant_id Tier_LongTerm (Text item.1.1) item.2 item.1.2 Type_Untyped) items.

Definition remember_long_term_batch (env : MemoryEnv) (agent_id tenant_id : string) (items : list (string * list string * Z))
    (k : MemoryKernel) : result KernelMemoryError (list string) * MemoryKernel :=
  match items with
  | [] => (Ok [], k)
  | _ =>
      match allow_memory env k agent_id tenant_id Action_Write with
      | Err e => (Err (KM_Denied e), k)
      | Ok _ =>
          let entries := batch_entries env agent_id tenant_id items in
          match create_batch_durable (me_ledger env) (km_memory k) entries (agent_memory_quota k agent_id) with
          | (Err e, m) => (Err (KM_Durable e), with_memory m k)
          | (Ok stored, m) => (Ok (e_id <$> entries), announce_stored env agent_id 0 stored (with_memory m k))
          end
      end
  end.

Definition remember_procedural (env : MemoryEnv) (agent_id tenant_id : string) (p : ProceduralEntry) (k : MemoryKernel)
    : result KernelMemoryError string * MemoryKernel :=
  match allow_memory env k agent_id tenant_id Action_Write with
  | Err e => (Err (KM_Denied e), k)
  | Ok _ =>
      let id := me_ids env 0 in
      let procedure := mkProcedure (pe_name p) (pe_description p) (pe_steps p) (pe_learned_from p) in
      let entry := kernel_entry (me_now env) id agent_id tenant_id Tier_Procedural (ProcedureContent procedure) 100 (pe_tags p) Type_Procedural in
      match create_durable (me_ledger env) (km_memory k) entry (agent_memory_quota k agent_id) with
      | (Err e, m) => (Err (KM_Durable e), with_memory m k)
      | (Ok stored, m) =>
          (Ok id, memory_emit (me_events env 0) (MemoryStored agent_id "procedural") (notify_current stored None (with_memory m k)))
      end
  end.

(** ** Recalling *)

Definition recall (env : MemoryEnv) (agent_id tenant_id : string) (k : MemoryKernel) : list MemoryEntry :=
  match allow_memory env k agent_id tenant_id Action_Read with
  | Err _ => []
  | Ok _ => List.filter (fun e => str_eqb (e_tenant_id e) tenant_id) (get_active (km_memory k) agent_id)
  end.

(** [LayeredMemory::recall_relevant]: every revision of the agent is tracked and ranked. *)
Definition layered_recall_relevant (now : Z) (m : LayeredMemory) (agent_id : string) (budget_tokens : Z)
    : list MemoryEntry * LayeredMemory :=
  let '(all, m) := recall_with_tracking now m agent_id in
  (fst <$> select_within_budget exp json_to_string all budget_tokens now, m).

Definition recall_relevant (env : MemoryEnv) (agent_id tenant_id : string) (budget_tokens : Z) (k : MemoryKernel)
    : list MemoryEntry * MemoryKernel :=
  let '(entries, m) := layered_recall_relevant (me_now env) (km_memory k) agent_id budget_tokens in
  (List.filter (fun e => str_eqb (e_tenant_id e) tenant_id) entries, with_memory m k).

(** All revisions of the tier, not only the active ones. *)
Definition recall_procedural (env : MemoryEnv) (agent_id tenant_id : string) (name_filter : option string) (k : MemoryKernel)
    : list MemoryEntry :=
  match allow_memory env k agent_id tenant_id Action_Read with
  | Err _ => []
  | Ok _ =>
      List.filter (fun e => str_eqb (e_tenant_id e) tenant_id &&
        match name_filter with
        | None => true
        | Some name => match e_content e with ProcedureContent p => str_eqb (proc_name p) name | _ => false end
        end) (get_tier (km_memory k) agent_id Tier_Procedural)
  end.

Definition forget_ephemeral (agent_id : string) (k : MemoryKernel) : MemoryKernel :=
  with_memory (evict_ephemeral (km_memory k) agent_id).2 k.

(** ** Changing *)

Definition memory_delete_with_request_id (env : MemoryEnv) (role_id namespace entry_id : string) (request_id : option string)
    (k : MemoryKernel) : result DurableMemoryMutationError MemoryEntry * MemoryKernel :=
  match delete_working_durable (me_ledger env) (me_now env) (me_ids env 0) (km_memory k) role_id namespace entry_id with
  | (Err e, m) => (Err e, with_memory m k)
  | (Ok entry, m) => (Ok entry, notify_current entry request_id (with_memory m k))
  end.
Definition kernel_memory_delete (env : MemoryEnv) (role_id namespace entry_id : string) (k : MemoryKernel)
    : result DurableMemoryMutationError MemoryEntry * MemoryKernel :=
  memory_delete_with_request_id env role_id namespace entry_id None k.

Definition memory_update_with_request_id (env : MemoryEnv) (role_id namespace entry_id new_content : string) (request_id : option string)
    (k : MemoryKernel) : result DurableMemoryMutationError MemoryEntry * MemoryKernel :=
  match update_working_durable (me_ledger env) (me_now env) (me_ids env 0) (km_memory k) role_id namespace entry_id new_content with
  | (Err e, m) => (Err e, with_memory m k)
  | (Ok entry, m) => (Ok entry, notify_current entry request_id (with_memory m k))
  end.
Definition memory_update (env : MemoryEnv) (role_id namespace entry_id new_content : string) (k : MemoryKernel)
    : result DurableMemoryMutationError MemoryEntry * MemoryKernel :=
  memory_update_with_request_id env role_id namespace entry_id new_content None k.

(** ** Statistics *)

Record MemoryStatsResult := mkMemoryStats {
  ms_agent_id : string;
  ms_tier : string;
  ms_total_entries : nat;
  ms_total_bytes : Z;
  ms_oldest_entry_age_ms : Z;
  ms_avg_access_count : f32;
  ms_never_accessed_count : nat;
  ms_about_to_expire_count : nat;
}.

Definition about_to_expire (now : Z) (e : MemoryEntry) : bool :=
  match e_ttl_ms e with
  | Some ttl =>
      let remaining := u64_saturating_sub (u64_saturating_add (e_created_at e) ttl) now in
      ((0 <? ttl) && (remaining <? ttl / 10))%Z
  | None => false
  end.

Definition memory_stats (now : Z) (agent_id : string) (tier : option MemoryTier) (k : MemoryKernel) : MemoryStatsResult :=
  let tiers := match tier with Some t => [t] | None => ALL_TIERS end in
  let entries := tiers ≫= get_tier (km_memory k) agent_id in
  let accesses := foldl (fun n e => u64_add n (e_access_count e)) 0%Z entries in
  mkMemoryStats agent_id (from_option tier_name EmptyString tier) (length entries)
    (foldl (fun n e => u64_add n (Z.of_nat (String.length (content_display json_to_string (e_content e))))) 0%Z entries)
    (foldl (fun n e => Z.max n (u64_saturating_sub now (e_created_at e))) 0%Z entries)
    (if (0 <? length entries)%nat then f32_div (f32_of_Z accesses) (f32_of_Z (Z.of_nat (length entries))) else f32_zero)
    (length (List.filter (fun e => (e_access_count e =? 0)%Z) entries))
    (length (List.filter (about_to_expire now) entries)).
End kernel.
