(* ===== verification/LedgerReload.v ===== *)
(** * Restarting on the directory of the ledger

    What a client relies on when the ledger is dropped from memory and opened
    again on its directory, as a class beside [CanonicalLedgerLaws]: after an
    undisturbed commit the directory loads to the ledger in memory; after a commit
    that is in doubt ([CommitIndeterminate]) the writer is poisoned and the
    directory loads to the ledger the same commit leaves when it succeeds.  The
    store of the canonical ledger satisfies the class.

    A creation, a batch and a mutation of the memory ask the ledger for at most
    one commit, which does not depend on the input of the ledger; the ledger they
    leave and the error they report are those of that commit. *)

From stdpp Require Import base gmap strings list sorting.
From S2P Require Import Prelude Wire MemoryModel LedgerModel LedgerValidate LedgerView LedgerStorage.
From S2P Require Import LedgerStore LedgerQueries LedgerChains LedgerDurability LedgerCommits.
From S2P Require Import LedgerGuarantees LayeredMemory LayeredProps LedgerInstance DocPlatform.

(** ** The interface *)

Class LedgerReload `{CanonicalLedger} := {
  (** The ledger of a new process on the same directory. *)
  lg_reload : LedgerInput -> Ledger -> result LedgerError Ledger;
  lg_poisoned : Ledger -> bool;
  (** The directory of the first ledger loads to the second. *)
  lg_loads : Ledger -> Ledger -> Prop;
  (** No counter of the ledger is above the bound. *)
  lg_within : Ledger -> Z -> Prop;
  lg_input_exact : LedgerInput -> Prop;
}.

(** How a commit of [n] revisions, as a function of its input, leaves a ledger
    that is not poisoned and that its directory loads to. *)
Definition commit_leaves `{LedgerReload} {T} (run : LedgerInput -> result LedgerError T * Ledger) (l : Ledger)
    (bound n : Z) (x : result LedgerError T) (l' : Ledger) : Prop :=
  match x with
  | Ok _ => lg_poisoned l' = false /\ lg_loads l' l' /\ lg_within l' (bound + n)
  | Err CommitIndeterminate =>
      lg_poisoned l' = true /\ lg_within l' bound /\
      exists i c l1, run i = (Ok c, l1) /\ lg_loads l' l1 /\ lg_within l1 (bound + n)
  | Err _ => lg_poisoned l' = false /\ lg_loads l' l' /\ lg_within l' bound
  end.

(** And a poisoned one: it refuses, and its directory stays. *)
Definition commit_refused `{LedgerReload} {T} (l : Ledger) (bound : Z) (x : result LedgerError T) (l' : Ledger) : Prop :=
  (exists e, x = Err e /\ e <> CommitIndeterminate) /\ lg_poisoned l' = true /\ lg_within l' bound /\
  forall l0, lg_loads l l0 -> lg_loads l' l0.

Class LedgerReloadLaws `{CanonicalLedger} `{!LedgerReload} `{!LedgerContract} : Prop := {
  rl_commit i l bound role tier exp r x l' :
    lg_loads l l -> lg_poisoned l = false -> lg_within l bound -> lg_input_exact i ->
    content_exact (r_content r) -> (bound + 1 < MAX_JCS_SAFE_INTEGER)%Z ->
    lg_commit_expected i l role tier exp r = (x, l') ->
    commit_leaves (fun i => lg_commit_expected i l role tier exp r) l bound 1 x l';
  rl_roots i l bound role tier rs x l' :
    lg_loads l l -> lg_poisoned l = false -> lg_within l bound -> lg_input_exact i ->
    Forall (fun r => content_exact (r_content r)) rs -> (bound + Z.of_nat (length rs) < MAX_JCS_SAFE_INTEGER)%Z ->
    lg_commit_roots i l role tier rs = (x, l') ->
    commit_leaves (fun i => lg_commit_roots i l role tier rs) l bound (Z.of_nat (length rs)) x l';
  rl_commit_refused i l bound role tier exp r x l' :
    lg_poisoned l = true -> lg_within l bound -> lg_commit_expected i l role tier exp r = (x, l') ->
    commit_refused l bound x l';
  rl_roots_refused i l bound role tier rs x l' :
    lg_poisoned l = true -> lg_within l bound -> lg_commit_roots i l role tier rs = (x, l') ->
    commit_refused l bound x l';
  rl_reload i l l0 bound : lg_loads l l0 -> lg_ok l0 -> lg_within l0 bound ->
    exists l1, lg_reload i l = Ok l1 /\ lg_keeps l0 l1 /\ lg_poisoned l1 = false /\ lg_loads l1 l1 /\ lg_within l1 bound;
  rl_more l bound bound' : lg_within l bound -> (bound <= bound')%Z -> lg_within l bound';
  rl_origin l role id write : lg_origin_for_revision l role id write <> Err CommitIndeterminate;
}.

(** ** Errors that leave no doubt *)

Definition definite {T} (x : result LedgerError T) : Prop := x <> Err CommitIndeterminate.

Create HintDb definite.

Lemma definite_try_for {S A} (f : nat -> S -> A -> result LedgerError S) i s l :
  (forall i s x, definite (f i s x)) -> definite (try_for f i s l).
Proof.
  intros Hf. revert i s. induction l as [|x l IH]; intros i s; cbn [try_for]; [done|].
  pose proof (Hf i s x) as Hx. destruct (f i s x) as [s'|e]; [apply IH|].
  intros [= ->]. by apply Hx.
Qed.
Lemma definite_try_map {A B} (f : A -> result LedgerError B) l :
  (forall x, definite (f x)) -> definite (try_map f l).
Proof.
  intros Hf. induction l as [|x l IH]; cbn [try_map]; [done|]. pose proof (Hf x) as Hx. revert IH.
  destruct (f x) as [y|e], (try_map f l); cbn; congruence.
Qed.

(** A computation is definite when its steps are. *)
Ltac definite :=
  repeat match goal with
  | |- definite (try_for _ _ _ _) => apply definite_try_for; intros
  | |- definite (try_map _ _) => apply definite_try_map; intros
  | |- definite (Ok _) => discriminate
  | |- definite (Err (Invalid _)) => discriminate
  | |- definite (Err (UnsupportedPolicy _)) => discriminate
  | |- definite (Err (HeadConflict _ _ _)) => discriminate
  | |- definite (Err WriterPoisoned) => discriminate
  | |- definite (match ?x with _ => _ end) =>
      lazymatch type of x with
      | result LedgerError _ =>
          let H := fresh in assert (definite x) as H; [|destruct x; [clear H | exact H || (intros [= ->]; by apply H)]]
      | _ => destruct x
      end
  | |- definite (ok_or _ _) => unfold ok_or
  | |- definite (map_err _ _) => unfold map_err
  end; auto with definite.

Section definite.
Context `{LedgerCodec}.

Lemma definite_jcs {T} `{!Serde T} (v : T) : definite (jcs v).
Proof. unfold jcs. definite. Qed.
#[local] Hint Resolve definite_jcs : definite.
Lemma definite_hash {T} `{!Serde T} domain (v : T) : definite (canonical_bytes_and_hash domain v).
Proof. unfold canonical_bytes_and_hash. definite. Qed.
#[local] Hint Resolve definite_hash : definite.
Lemma definite_revisions rs : definite (validate_revisions rs).
Proof.
  unfold validate_revisions. definite; unfold validate_revision_step, tombstone_payload_changed; definite;
    unfold content_hash_of; definite.
Qed.
Lemma definite_policies ps rs : definite (validate_policies ps rs).
Proof.
  unfold validate_policies. definite; unfold validate_policy_step, policy_history_step, validate_policy_audience; definite.
Qed.
Lemma definite_view g rs ps w : definite (rebuild_current_view g rs ps w).
Proof. unfold rebuild_current_view, streams_of_entries. definite. unfold current_stream. definite. Qed.
#[local] Hint Resolve definite_revisions definite_policies definite_view : definite.

Lemma prepare_definite now v4 S role tier revs exps : definite (prepare_commit now v4 S role tier revs exps).
Proof.
  unfold prepare_commit, segment_bytes_and_hash, view_bytes_and_hash, root_bytes_and_hash, policy_object_of, segment_bytes_and_hash.
  definite; unfold check_expected_step, check_writer_step; definite.
Qed.
End definite.

(** ** The store of the canonical ledger *)

#[export] Instance cas_reload `{LedgerCodec} : LedgerReload := {|
  lg_reload i l :=
    match ledger_new (ci_io i) (snd l) with (Ok state, st) => Ok (state, st) | (Err e, _) => Err e end;
  lg_poisoned l := ls_poisoned (fst l);
  lg_loads l l0 := load_state (snd l) = Ok (fst l0);
  lg_within l bound :=
    (forall root, ls_root (fst l) = Some root -> (0 <= root_generation root <= bound)%Z) /\
    (Z.of_nat (length (ls_revisions (fst l))) <= bound)%Z /\
    (Z.of_nat (length (ls_policies (fst l))) <= bound)%Z /\
    (Z.of_nat (length (ls_relations (fst l))) <= bound)%Z;
  lg_input_exact i := safe_int (ci_now i)
|}.

Section reload.
Context `{LedgerCodecLaws}.
Implicit Types (S : LedgerState).

(** A commit in doubt, and the same commit when the directory is synced. *)
Lemma doubt_twin io now v4 st S role tier revs exps S' st' :
  commit_records io now v4 st S role tier revs exps = (Err CommitIndeterminate, S', st') ->
  S' = poison S /\ exists c, prepare_commit now v4 S role tier revs exps = Ok c /\
    commit_records (mkIoPlan (put_outcomes io) Publish_Done (open_outcome io)) now v4 st S role tier revs exps =
      (Ok (receipts c now), committed_state S c, st').
Proof.
  unfold commit_records. cbn [put_outcomes publish_outcome].
  pose proof (prepare_definite now v4 S role tier revs exps) as Hd. unfold definite in Hd.
  destruct (prepare_commit _ _ _ _ _ _ _) as [c|e] eqn:Hp; [|intros [= -> _ _]; done].
  destruct (put_all _ _ _) as [[[]|e] st1]; [|done].
  assert (definite (cd_pointer c)) as Hc.
  { apply prepare_commit_inv in Hp as (stamped & news & x & vs & rt & po & view' & _ & ->). apply definite_jcs. }
  destruct (cd_pointer c) as [b|e]; [|intros [= -> _ _]; by destruct Hc].
  unfold publish_active. destruct (slots st1) as [|? |a o]; [done..|].
  destruct (publish_outcome io); try done. intros [= <- <-]. split; [done|]. by exists c.
Qed.

(** A poisoned writer refuses, and writes nothing. *)
Lemma poisoned_refuses io now v4 st S role tier revs exps :
  ls_poisoned S = true ->
  exists e, commit_records io now v4 st S role tier revs exps = (Err e, S, st) /\ e <> CommitIndeterminate.
Proof.
  intros Hp. unfold commit_records. pose proof (prepare_definite now v4 S role tier revs exps) as Hd.
  destruct (prepare_commit _ _ _ _ _ _ _) as [c|e] eqn:Hc.
  - apply prepare_commit_inv in Hc as (stamped & news & x & vs & rt & po & view' & Hprep & _).
    by rewrite (pr_writable Hprep) in Hp.
  - exists e. split; [done|]. intros ->. by apply Hd.
Qed.

Lemma within_exact now S st revs bound :
  lg_within (S, st) bound -> safe_int now -> Forall (fun r => content_exact (r_content r)) revs ->
  revs <> [] -> (bound + Z.of_nat (length revs) < MAX_JCS_SAFE_INTEGER)%Z -> commit_exact now S revs.
Proof.
  intros (Hg & Hr & Hp & Hl) Hn Hc Hne Hb. cbn in Hg, Hr, Hp, Hl.
  assert (0 < length revs) by (destruct revs; [done|cbn; lia]).
  constructor; [done| |lia|lia|lia|done]. intros root Hroot. specialize (Hg root Hroot). lia.
Qed.

Lemma committed_within now v4 S st st' role tier revs exps c bound :
  prepare_commit now v4 S role tier revs exps = Ok c ->
  lg_within (S, st) bound -> (bound + Z.of_nat (length revs) < MAX_JCS_SAFE_INTEGER)%Z ->
  lg_within (committed_state S c, st') (bound + Z.of_nat (length revs)).
Proof.
  intros Hp (Hg & Hr & Hpo & Hl) Hb. cbn in Hg, Hr, Hpo, Hl.
  apply prepare_commit_inv in Hp as (stamped & news & x & vs & rt & po & view' & Hprep & ->).
  assert (0 < length revs) as Hn by (destruct revs; [by destruct (pr_nonempty Hprep)|cbn; lia]).
  assert (length stamped = length revs) as Hs by (rewrite (pr_stamped Hprep); apply stamp_length).
  assert (length news <= length revs) as Hm.
  { rewrite (pr_policies Hprep). etrans; [apply new_policies_length|]. rewrite length_zip. lia. }
  cbn. rewrite !length_app. split_and!; [|lia..]. intros root [= <-]. cbn. unfold next_generation.
  destruct (ls_root S) as [root|]; [|lia]. specialize (Hg root eq_refl).
  unfold u64_add, MAX_JCS_SAFE_INTEGER in *. rewrite Z.mod_small; [lia|]. unfold u64_modulus. lia.
Qed.

Lemma records_leave io now v4 st S role tier revs exps bound x S' st' :
  load_state st = Ok S -> ls_poisoned S = false -> lg_within (S, st) bound -> safe_int now ->
  Forall (fun r => content_exact (r_content r)) revs -> (bound + Z.of_nat (length revs) < MAX_JCS_SAFE_INTEGER)%Z ->
  commit_records io now v4 st S role tier revs exps = (x, S', st') ->
  match x with
  | Ok cs => ls_poisoned S' = false /\ load_state st' = Ok S' /\ lg_within (S', st') (bound + Z.of_nat (length revs))
  | Err CommitIndeterminate => S' = poison S /\ exists c, prepare_commit now v4 S role tier revs exps = Ok c /\
      commit_records (mkIoPlan (put_outcomes io) Publish_Done (open_outcome io)) now v4 st S role tier revs exps =
        (Ok (receipts c now), committed_state S c, st') /\ load_state st' = Ok (committed_state S c)
  | Err _ => S' = S /\ load_state st' = Ok S
  end.
Proof.
  intros Hl Hpo Hw Hn Hcs Hb Hc.
  assert (forall c, prepare_commit now v4 S role tier revs exps = Ok c -> commit_exact now S revs) as Hex.
  { intros c Hp. eapply within_exact; [done..| |done].
    apply prepare_commit_inv in Hp as (stamped & news & y & vs & rt & po & view' & Hprep & _). apply (pr_nonempty Hprep). }
  pose proof Hc as Hcase. apply commit_records_cases in Hcase as
    [([e ->] & -> & Hg & Ha)|(c & b & Hp & Hcb & Hg & Ha & Hst & Hr)].
  - assert (load_state st' = Ok S) as Hl' by (by eapply load_state_grows).
    destruct e; try done. apply doubt_twin in Hc as [Hs _]. exfalso. revert Hpo. by rewrite Hs.
  - assert (load_state st' = Ok (committed_state S c)) as Hl' by (eapply published_loads; eauto).
    destruct Hr as [[-> ->]|[-> ->]].
    + split_and!; [done|done|by eapply committed_within].
    + split; [done|]. apply doubt_twin in Hc as [_ (c' & Hp' & Ht)]. assert (c' = c) as -> by congruence. eauto.
Qed.

Lemma receipt_of_one {T} (cs : list T) e : length cs = 1 -> exists c, cs = [c] /\ ok_or (last cs) e = Ok c (E := LedgerError).
Proof. destruct cs as [|c [|]]; naive_solver. Qed.

#[export] Instance cas_reload_laws : LedgerReloadLaws.
Proof.
  split; cbn -[commit_records origin_for_revision lg_within ledger_new].
  - intros i [S st] bound role tier exp r x l' Hl Hpo Hw Hn Hc Hb. cbn [fst snd] in *. unfold commit_expected.
    destruct (commit_records _ _ _ _ _ _ _ _ _) as [[res S'] st'] eqn:Hcr. intros [= <- <-].
    pose proof (records_leave _ _ _ _ _ _ _ [r] _ bound _ _ _ Hl Hpo Hw Hn ltac:(by constructor) Hb Hcr) as Hr.
    destruct res as [cs|e].
    + destruct (receipt_of_one cs (Invalid "missing_commit_receipt")) as (c & -> & Hok); [by eapply commit_receipts in Hcr|].
      rewrite Hok. exact Hr.
    + destruct e; try (destruct Hr as [-> Hr]; exact (conj Hpo (conj Hr Hw))).
      destruct Hr as [-> (c & Hp & Ht & Hl')]. split_and!; [done|exact Hw|].
      destruct (receipt_of_one (receipts c (ci_now i)) (Invalid "missing_commit_receipt")) as (rc & _ & Hok); [by eapply commit_receipts in Ht|].
      exists (mkCasInput (mkIoPlan (put_outcomes (ci_io i)) Publish_Done (open_outcome (ci_io i))) (ci_now i) (ci_new_v4 i) (ci_flush i)), rc,
        (committed_state S c, st').
      cbn [ci_io ci_now ci_new_v4]. rewrite Ht, Hok. split_and!; [done|exact Hl'|by eapply (committed_within _ _ _ _ _ _ _ [r])].
  - intros i [S st] bound role tier rs x l' Hl Hpo Hw Hn Hc Hb. cbn [fst snd] in *. unfold commit_roots.
    destruct (commit_records _ _ _ _ _ _ _ _ _) as [[res S'] st'] eqn:Hcr. intros [= <- <-].
    pose proof (records_leave _ _ _ _ _ _ _ rs _ bound _ _ _ Hl Hpo Hw Hn Hc Hb Hcr) as Hr.
    destruct res as [cs|e]; [exact Hr|].
    destruct e; try (destruct Hr as [-> Hr]; exact (conj Hpo (conj Hr Hw))).
    destruct Hr as [-> (c & Hp & Ht & Hl')]. split_and!; [done|exact Hw|].
    exists (mkCasInput (mkIoPlan (put_outcomes (ci_io i)) Publish_Done (open_outcome (ci_io i))) (ci_now i) (ci_new_v4 i) (ci_flush i)),
      (receipts c (ci_now i)), (committed_state S c, st').
    cbn [ci_io ci_now ci_new_v4]. rewrite Ht. split_and!; [done|exact Hl'|by eapply committed_within].
  - intros i [S st] bound role tier exp r x l' Hpo Hw. cbn [fst snd] in *. unfold commit_expected.
    destruct (poisoned_refuses (ci_io i) (ci_now i) (ci_new_v4 i) st S role tier [r] [exp] Hpo) as (e & -> & He).
    intros [= <- <-]. split_and!; [by exists e|done|exact Hw|done].
  - intros i [S st] bound role tier rs x l' Hpo Hw. cbn [fst snd] in *. unfold commit_roots.
    destruct (poisoned_refuses (ci_io i) (ci_now i) (ci_new_v4 i) st S role tier rs (replicate (length rs) Absent) Hpo) as (e & -> & He).
    intros [= <- <-]. split_and!; [by exists e|done|exact Hw|done].
  - intros i [S st] [S0 st0] bound Hl Hok Hw. cbn [fst snd] in *. rewrite (restart_loads _ _ _ Hl).
    exists (S0, st). split_and!; [done|by split| |exact Hl|exact Hw].
    apply load_state_inv in Hl as (h & root & view & revs & pols & rels & _ & ->). done.
  - intros [S st] b b' (Hg & Hr & Hp & Hl) Hb. cbn in *. split_and!; [|lia..]. intros root Hroot. specialize (Hg root Hroot). lia.
  - intros [S st] role id write. unfold origin_for_revision. change (definite (T := option string)
      (origin_for_revision S role id write)). unfold origin_for_revision. definite.
Qed.
End reload.

(** ** What a durable change asks of the ledger *)

Section attempts.
Context `{Platform} `{!Serde Json} `{CanonicalLedger} `{!LedgerContract} `{!CanonicalLedgerLaws} `{!LedgerReload} `{!LedgerReloadLaws}.
Implicit Types (m : LayeredMemory) (l : Ledger).

Inductive Attempt : Type :=
  | No_commit
  | Commit_one (role : string) (tier : MemoryTier) (exp : ExpectedHead) (r : CanonicalRevision)
  | Commit_roots (role : string) (tier : MemoryTier) (rs : list CanonicalRevision).

Definition attempt_records (a : Attempt) : list CanonicalRevision :=
  match a with No_commit => [] | Commit_one _ _ _ r => [r] | Commit_roots _ _ rs => rs end.

Definition as_unit {A} (x : result LedgerError A * Ledger) : result LedgerError unit * Ledger :=
  (match x.1 with Ok _ => Ok tt | Err e => Err e end, x.2).

Definition attempt_run (i : LedgerInput) l (a : Attempt) : result LedgerError unit * Ledger :=
  match a with
  | No_commit => (Ok tt, l)
  | Commit_one role tier exp r => as_unit (lg_commit_expected i l role tier exp r)
  | Commit_roots role tier rs => as_unit (lg_commit_roots i l role tier rs)
  end.

(** A commit on an expected revision is asked for by a role that may write it. *)
Definition grounded l (a : Attempt) : Prop :=
  match a with
  | Commit_one role _ (ExpectedRevision id) _ => exists origin, lg_origin_for_revision l role id true = Ok (Some origin)
  | _ => True
  end.

(** The answer of the change, given that of its commit. *)
Definition reports {A} (a : Attempt) (o : result LedgerError unit) (x : result DurableMemoryMutationError A) : Prop :=
  match a, o with
  | No_commit, _ => x <> Err (D_Ledger CommitIndeterminate)
  | _, Ok _ => is_ok x = true
  | _, Err e => x = Err (D_Ledger e)
  end.

(** The change [op], as a function of the input of the ledger, asks for [a]. *)
Definition asks {A} (op : LedgerInput -> result DurableMemoryMutationError A * LayeredMemory) l (a : Attempt) : Prop :=
  forall i, lm_ledger (op i).2 = Some (attempt_run i l a).2 /\ reports a (attempt_run i l a).1 (op i).1.

Lemma asks_nothing {A} (x : result DurableMemoryMutationError A) m l :
  lm_ledger m = Some l -> x <> Err (D_Ledger CommitIndeterminate) -> asks (fun _ => (x, m)) l No_commit.
Proof. by intros Hl Hx i. Qed.

(** A change that asks for no commit. *)
Ltac no_commit :=
  exists No_commit; split_and!; [by apply asks_nothing; rewrite ?touch_working_ledger; congruence|done|cbn; lia|constructor].

Lemma from_entry_definite e : from_entry e <> Err (D_Ledger CommitIndeterminate).
Proof.
  unfold from_entry, entry_to_revision, map_err.
  repeat match goal with |- context [if ?b then _ else _] => destruct b; [done|] end. done.
Qed.
Lemma from_entry_content e r : from_entry e = Ok r -> r_revision_id r = e_id e /\ r_content r = e_content e.
Proof.
  intros He. split; [by apply from_entry_id|]. revert He. unfold from_entry, entry_to_revision, map_err. intros He.
  repeat match type of He with context [if ?b then _ else _] => destruct b; [done|] end.
  by apply Ok_inj in He as <-.
Qed.

Lemma sealed_content e x : sealed e = Ok x -> e_id x = e_id e /\ e_content x = e_content e.
Proof.
  unfold sealed, seal_root_identity, map_err. intros Hs.
  destruct (if str_eqb (e_canonical_content_hash e) "" then _ else _); [|done].
  by apply Ok_inj in Hs as <-.
Qed.
Lemma sealed_definite e : sealed e <> Err (D_Ledger CommitIndeterminate).
Proof. unfold sealed, map_err. by destruct (seal_root_identity e). Qed.

(** One commit, whose answer is wrapped. *)
Lemma asks_one {A} (op : LedgerInput -> result DurableMemoryMutationError A * LayeredMemory) l role tier exp r
    (ok : LedgerCommit -> Ledger -> A * LayeredMemory) m :
  (forall c l', lm_ledger (ok c l').2 = Some l') ->
  (forall i, op i = match lg_commit_expected i l role tier exp r with
                    | (Err err, l') => (Err (D_Ledger err), with_ledger (Some l') m)
                    | (Ok c, l') => (Ok (ok c l').1, (ok c l').2)
                    end) ->
  asks op l (Commit_one role tier exp r).
Proof.
  intros Hok Hop i. rewrite Hop. cbn [attempt_run as_unit]. destruct (lg_commit_expected _ _ _ _ _ _) as [[c|e] l']; cbn; by rewrite ?Hok.
Qed.

Lemma create_asks m e quota l :
  lm_ledger m = Some l ->
  exists a, asks (fun i => create_durable i m e quota) l a /\ grounded l a /\ length (attempt_records a) <= 1 /\
    Forall (fun r => r_revision_id r = e_id e /\ r_content r = e_content e) (attempt_records a).
Proof.
  intros Hl. unfold create_durable. destruct (bool_decide (e_tier e = Tier_Working)).
  - unfold create_working_durable. pose proof (sealed_definite e) as Hd.
    destruct (sealed e) as [x|err] eqn:Hs; [|no_commit].
    rewrite Hl. cbn zeta. destruct (_ && _); [no_commit|].
    pose proof (from_entry_definite x) as Hfd.
    destruct (from_entry x) as [r|err] eqn:Hr;
      [|no_commit].
    destruct (from_entry_content x r Hr), (sealed_content e x Hs).
    exists (Commit_one (e_agent_id x) Tier_Working Absent r). split_and!; [|done|done|constructor; [split; congruence|constructor]].
    apply (asks_one _ _ _ _ _ _ (fun c l' => let y := published_at (c_committed_at c) x in
      (y, put_tier (with_ledger (Some l') (touch_working m (e_agent_id x))) Tier_Working (e_agent_id x)
            (get_tier (touch_working m (e_agent_id x)) (e_agent_id x) Tier_Working ++ [y]))) (touch_working m (e_agent_id x)));
      [intros c l'; apply put_tier_ledger|done].
  - destruct (bool_decide (e_tier e = Tier_Ephemeral)); [no_commit|].
    pose proof (sealed_definite e) as Hd.
    destruct (sealed e) as [x|err] eqn:Hs; [|no_commit].
    rewrite Hl. cbn zeta. destruct (_ && _); [no_commit|].
    pose proof (from_entry_definite x) as Hfd.
    destruct (from_entry x) as [r|err] eqn:Hr; [|no_commit].
    destruct (from_entry_content x r Hr), (sealed_content e x Hs).
    exists (Commit_one (e_agent_id x) (e_tier x) Absent r). split_and!; [|done|done|constructor; [split; congruence|constructor]].
    apply (asks_one _ _ _ _ _ _ (fun c l' => let y := published_at (c_committed_at c) x in
      (y, store_inner (with_ledger (Some l') m) y)) m); [|done].
    intros c l'. apply put_tier_ledger.
Qed.

Lemma seal_batch_content category a t es ys :
  seal_batch category a t es = Ok ys -> Forall2 (fun e y => e_id y = e_id e /\ e_content y = e_content e) es ys.
Proof.
  unfold seal_batch. intros Hs%try_map_Ok_Forall2. eapply Forall2_impl; [exact Hs|].
  intros e y He. cbn beta in He. destruct (_ || _); [done|]. by apply sealed_content.
Qed.

Lemma try_map_definite {A B} (f : A -> result DurableMemoryMutationError B) (l : list A) :
  (forall x, f x <> Err (D_Ledger CommitIndeterminate)) -> try_map f l <> Err (D_Ledger CommitIndeterminate).
Proof.
  intros Hf. induction l as [|x l IH]; cbn [try_map]; [done|]. pose proof (Hf x) as Hx. revert IH.
  destruct (f x) as [y|e], (try_map f l); cbn; congruence.
Qed.

Lemma batch_asks m es quota l :
  lm_ledger m = Some l ->
  exists a, asks (fun i => create_batch_durable i m es quota) l a /\ grounded l a /\
    length (attempt_records a) <= length es /\
    Forall (fun r => exists e, e ∈ es /\ r_revision_id r = e_id e /\ r_content r = e_content e) (attempt_records a).
Proof.
  intros Hl. unfold create_batch_durable. destruct es as [|e0 es']; [no_commit|].
  set (es := e0 :: es'). cbn zeta.
  destruct (bool_decide _); [no_commit|].
  assert (forall c a t, seal_batch c a t es <> Err (D_Ledger CommitIndeterminate)) as Hd.
  { intros c a t. apply try_map_definite. intros x. destruct (_ || _); [done|apply sealed_definite]. }
  specialize (Hd "invalid_batch_boundary" (e_agent_id e0) (e_tier e0)).
  destruct (seal_batch _ _ _ _) as [ys|err] eqn:Hs;
    [|no_commit].
  destruct (over_quota _ _ _); [no_commit|]. rewrite Hl.
  pose proof (try_map_definite from_entry ys from_entry_definite) as Hfd.
  destruct (try_map from_entry ys) as [rs|err] eqn:Hrs;
    [|no_commit].
  apply seal_batch_content in Hs. apply try_map_Ok_Forall2 in Hrs.
  exists (Commit_roots (e_agent_id e0) (e_tier e0) rs). split_and!.
  - intros i. cbn [attempt_run as_unit]. destruct (lg_commit_roots _ _ _ _ _) as [[cs|e] l']; cbn; by rewrite ?put_tier_ledger.
  - done.
  - cbn [attempt_records]. apply Forall2_length in Hs, Hrs. lia.
  - cbn [attempt_records]. apply Forall_forall. intros r Hr.
    apply list_elem_of_lookup_1 in Hr as [i Hr]. destruct (Forall2_lookup_r _ _ _ _ _ Hrs Hr) as (y & Hy & Hyr).
    destruct (Forall2_lookup_r _ _ _ _ _ Hs Hy) as (e & He & Hid & Hco). destruct (from_entry_content y r Hyr).
    exists e. split; [by eapply list_elem_of_lookup_2|]. split; congruence.
Qed.

Lemma mutation_asks m role entry_id mutate next l :
  lm_ledger m = Some l -> appending mutate next entry_id ->
  (forall live, mutate live <> Err (D_Ledger CommitIndeterminate)) ->
  exists a, asks (fun i => commit_working_mutation i m role entry_id mutate) l a /\ grounded l a /\
    length (attempt_records a) <= 1 /\
    Forall (fun r => exists origin p, p ∈ get_tier m origin Tier_Working /\
      r_revision_id r = e_id (next p) /\ r_content r = e_content (next p)) (attempt_records a).
Proof.
  intros Hl Happ Hmd. unfold commit_working_mutation. rewrite Hl.
  assert (forall x, x <> Err (D_Ledger CommitIndeterminate) ->
    exists a, asks (A := MemoryEntry) (fun _ => (x, m)) l a /\ grounded l a /\ length (attempt_records a) <= 1 /\
      Forall (fun r => exists origin p, p ∈ get_tier m origin Tier_Working /\
        r_revision_id r = e_id (next p) /\ r_content r = e_content (next p)) (attempt_records a)) as Hno.
  { intros x Hx. no_commit. }
  pose proof (rl_origin l role entry_id true) as Ho. unfold map_err.
  destruct (lg_origin_for_revision l role entry_id true) as [[origin|]|err] eqn:Horigin; [|by apply Hno..|by apply Hno; congruence].
  destruct (lm_working m !! origin) as [live|] eqn:Hlive; [|by apply Hno].
  assert (get_tier m origin Tier_Working = live) as Hg by (unfold get_tier; cbn; by rewrite Hlive).
  specialize (Hmd live). destruct (mutate live) as [[e|c]|err] eqn:Hm; [by apply Hno| |by apply Hno; congruence].
  apply Happ in Hm as (p & Hin & Hid & -> & Hag & Hd). rewrite last_snoc. cbn [mbind option_bind].
  destruct (str_eqb _ _); [by apply Hno|]. pose proof (from_entry_definite (next p)) as Hfd.
  destruct (from_entry (next p)) as [r|err] eqn:Hr; [|by apply Hno; congruence].
  exists (Commit_one role Tier_Working (ExpectedRevision entry_id) r). split_and!.
  - apply (asks_one _ _ _ _ _ _ (fun c l' => let y := published_at (c_committed_at c) (next p) in
      (y, put_tier (with_ledger (Some l') m) Tier_Working origin (removelast (live ++ [next p]) ++ [y]))) m);
      [intros c l'; apply put_tier_ledger|done].
  - by exists origin.
  - done.
  - constructor; [|constructor]. exists origin, p. rewrite Hg. split; [done|]. by apply from_entry_content.
Qed.

Lemma update_asks m now id role ns entry_id text l :
  lm_ledger m = Some l ->
  exists a, asks (fun i => update_working_durable i now id m role ns entry_id text) l a /\ grounded l a /\
    length (attempt_records a) <= 1 /\ Forall (fun r => r_revision_id r = id /\ r_content r = Text text) (attempt_records a).
Proof.
  intros Hl. unfold update_working_durable. destruct (blank text); [no_commit|].
  destruct (mutation_asks m role entry_id _ _ l Hl (update_appends now id ns entry_id text)) as (a & Ha & Hg & Hn & Hr).
  - intros live. unfold update_mutation, ok_or, map_err. repeat case_match; simplify_eq; done.
  - exists a. split_and!; [done..|]. eapply Forall_impl; [exact Hr|]. intros r (origin & p & _ & Hid & Hc). done.
Qed.

Lemma delete_asks m now id role ns entry_id l :
  lm_ledger m = Some l ->
  exists a, asks (fun i => delete_working_durable i now id m role ns entry_id) l a /\ grounded l a /\
    length (attempt_records a) <= 1 /\
    Forall (fun r => r_revision_id r = id /\ exists origin p, p ∈ get_tier m origin Tier_Working /\ r_content r = e_content p)
      (attempt_records a).
Proof.
  intros Hl. unfold delete_working_durable.
  destruct (mutation_asks m role entry_id _ _ l Hl (delete_appends now id ns entry_id)) as (a & Ha & Hg & Hn & Hr).
  - intros live. unfold delete_mutation, ok_or. repeat case_match; simplify_eq; done.
  - exists a. split_and!; [done..|]. eapply Forall_impl; [exact Hr|]. intros r (origin & p & Hp & Hid & Hc).
    split; [done|]. by exists origin, p.
Qed.
End attempts.
