(* ===== verification/KernelMemoryProps.v ===== *)
(** * What the kernel remembers is what it acknowledged

    A store of facts is kept from the calls and their answers alone: creations
    add facts, an update revises one, a deletion drops one, a restart drops the
    ephemeral ones.  A call may also be answered in doubt, when its commit was
    published and the directory could not be synced: then the facts are as they
    were, until a restart, which finds the commit.  The active entries of the
    tiers, and the recall of the kernel, are exactly these facts, whatever failed
    in between; a restart reads the directory of the ledger again, and the ledger
    is known only by the laws [CanonicalLedgerLaws] and [LedgerReloadLaws]. *)

From stdpp Require Import base gmap strings list.
From S2P Require Import Prelude Wire MemoryModel LedgerModel LedgerStore LedgerQueries LayeredMemory LayeredProps.
From S2P Require Import Scheduler EventBus Permission ContextProps Float32 Relevance KernelMemory.
From S2P Require Import LedgerStorage LedgerValidate LedgerCommits LedgerDurability DocPlatform LedgerInstance EventBusProps.
From S2P Require Import LedgerReload.

(** ** Facts *)

Record Fact := mkFact {
  fa_agent : string;
  fa_namespace : string;
  fa_id : string;
  fa_tier : MemoryTier;
  fa_content : MemoryContent;
  fa_tags : list string;
  fa_type : MemoryType;
}.

Definition fact (e : MemoryEntry) : Fact :=
  mkFact (e_agent_id e) (e_tenant_id e) (e_id e) (e_tier e) (e_content e) (e_tags e) (e_memory_type e).

Definition of_tier (role : string) (t : MemoryTier) (f : Fact) : bool :=
  str_eqb (fa_agent f) role && bool_decide (fa_tier f = t).
Definition facts_in (s : list Fact) (role : string) (t : MemoryTier) : list Fact := List.filter (of_tier role t) s.

(** The working memory an update or a deletion is about. *)
Definition is_memory (entry_id : string) (f : Fact) : bool :=
  bool_decide (fa_tier f = Tier_Working) && str_eqb (fa_id f) entry_id.
Definition revise (id text : string) (f : Fact) : Fact :=
  mkFact (fa_agent f) (fa_namespace f) id (fa_tier f) (Text text) (fa_tags f) (fa_type f).

(** ** Calls and what their answers mean *)

Inductive MemoryCall : Type :=
  | Remember (agent ns content : string)
  | RememberWorking (agent ns content : string) (tags : list string)
  | RememberLongTerm (agent ns content : string) (tags : list string) (importance : Z)
  | RememberBatch (agent ns : string) (items : list (string * list string * Z))
  | RememberProcedural (agent ns : string) (p : ProceduralEntry)
  | Forget (agent : string)
  | RecallRelevant (agent ns : string) (budget : Z)
  | Update (role ns entry_id content : string)
  | Delete (role ns entry_id : string)
  | Reopen.

(** An acknowledgement names the identifiers of what it acknowledges; a refusal
    changes nothing; in doubt, the commit was published and may not last. *)
Inductive Answer : Type :=
  | Acknowledged (ids : list string)
  | Refused
  | InDoubt.

(** The facts after an acknowledgement. *)
Definition acknowledged (c : MemoryCall) (ids : list string) (s : list Fact) : list Fact :=
  match c, ids with
  | Remember a ns text, [id] => s ++ [mkFact a ns id Tier_Ephemeral (Text text) [] Type_Untyped]
  | RememberWorking a ns text tags, [id] => s ++ [mkFact a ns id Tier_Working (Text text) tags Type_Untyped]
  | RememberLongTerm a ns text tags _, [id] => s ++ [mkFact a ns id Tier_LongTerm (Text text) tags Type_Untyped]
  | RememberBatch a ns items, ids =>
      s ++ zip_with (fun id item => mkFact a ns id Tier_LongTerm (Text item.1.1) item.1.2 Type_Untyped) ids items
  | RememberProcedural a ns p, [id] =>
      s ++ [mkFact a ns id Tier_Procedural
              (ProcedureContent (mkProcedure (pe_name p) (pe_description p) (pe_steps p) (pe_learned_from p)))
              (pe_tags p) Type_Procedural]
  | Forget a, _ => List.filter (fun f => negb (of_tier a Tier_Ephemeral f)) s
  | Update _ _ entry_id text, [id] =>
      List.filter (fun f => negb (is_memory entry_id f)) s ++ (revise id text <$> List.filter (is_memory entry_id) s)
  | Delete _ _ entry_id, _ => List.filter (fun f => negb (is_memory entry_id f)) s
  | _, _ => s
  end.

(** The identifiers a call draws. *)
Definition drawn `{CanonicalLedger} (env : MemoryEnv) (c : MemoryCall) : list string :=
  match c with
  | RememberBatch _ _ items => imap (fun i _ => me_ids env i) items
  | Forget _ | RecallRelevant _ _ _ | Reopen => []
  | _ => [me_ids env 0]
  end.

Definition durable_part (s : list Fact) : list Fact :=
  List.filter (fun f => negb (bool_decide (fa_tier f = Tier_Ephemeral))) s.

(** What a client knows: the facts now, and those a restart finds when a commit is in doubt. *)
Record Known := mkKnown { kw_facts : list Fact; kw_doubt : option (list Fact) }.

Definition spec_step `{CanonicalLedger} (env : MemoryEnv) (c : MemoryCall) (answer : Answer) (x : Known) : Known :=
  match answer with
  | Refused => x
  | InDoubt => mkKnown (kw_facts x) (Some (durable_part (acknowledged c (drawn env c) (kw_facts x))))
  | Acknowledged ids =>
      match c with
      | Reopen => mkKnown (default (durable_part (kw_facts x)) (kw_doubt x)) None
      | _ => mkKnown (acknowledged c ids (kw_facts x)) (kw_doubt x)
      end
  end.

Section calls.
Context `{Platform} `{!Serde Json} `{CanonicalLedger} `{!LedgerContract} `{!CanonicalLedgerLaws}.
Context `{!LedgerReload} `{!LedgerReloadLaws} `{Broadcast}.
Variable event_to_string : SequencedEvent -> option string.
Variable json_to_string : Json -> option string.
Variable exp64 : f64 -> f64.
Implicit Types (k : MemoryKernel) (m : LayeredMemory) (s : list Fact).

Definition doubtful (e : DurableMemoryMutationError) : bool :=
  match e with D_Ledger CommitIndeterminate => true | _ => false end.
Definition kernel_doubtful (e : KernelMemoryError) : bool := match e with KM_Durable e => doubtful e | _ => false end.
Definition answered {E A} (doubt : E -> bool) (f : A -> list string) (x : result E A * MemoryKernel) : Answer * MemoryKernel :=
  (match x.1 with Ok a => Acknowledged (f a) | Err e => if doubt e then InDoubt else Refused end, x.2).

(** The ledger is opened again on its directory and the tiers are restored from
    it; the rest of the kernel is as it was. *)
Definition reopen (env : MemoryEnv) k : Answer * MemoryKernel :=
  match lm_ledger (km_memory k) with
  | None => (Refused, k)
  | Some l =>
      match lg_reload (me_ledger env) l with
      | Err _ => (Refused, k)
      | Ok l =>
          match restore_memories l (set_ledger layered_new l) with
          | (Err _, _) => (Refused, k)
          | (Ok _, m) => (Acknowledged [], with_memory m k)
          end
      end
  end.

Definition call_run (env : MemoryEnv) (c : MemoryCall) k : Answer * MemoryKernel :=
  match c with
  | Remember a ns text => answered kernel_doubtful (fun id => [id]) (remember env a ns text k)
  | RememberWorking a ns text tags => answered doubtful (fun e => [e_id e]) (remember_working event_to_string env a ns text tags k)
  | RememberLongTerm a ns text tags imp =>
      answered kernel_doubtful (fun id => [id]) (remember_long_term event_to_string env a ns text tags imp k)
  | RememberBatch a ns items => answered kernel_doubtful id (remember_long_term_batch event_to_string env a ns items k)
  | RememberProcedural a ns p => answered kernel_doubtful (fun id => [id]) (remember_procedural event_to_string env a ns p k)
  | Forget a => (Acknowledged [], forget_ephemeral a k)
  | RecallRelevant a ns budget => (Acknowledged [], (recall_relevant json_to_string exp64 env a ns budget k).2)
  | Update role ns entry_id text => answered doubtful (fun e => [e_id e]) (memory_update env role ns entry_id text k)
  | Delete role ns entry_id => answered doubtful (fun e => [e_id e]) (kernel_memory_delete env role ns entry_id k)
  | Reopen => reopen env k
  end.

(** A run of calls beside what its answers stand for. *)
Fixpoint calls_run (calls : list (MemoryEnv * MemoryCall)) k (x : Known) : MemoryKernel * Known :=
  match calls with
  | [] => (k, x)
  | (env, c) :: calls => let '(answer, k') := call_run env c k in calls_run calls k' (spec_step env c answer x)
  end.

(** ** The relation between the tiers and the facts *)

Definition tier_ids m (role : string) (t : MemoryTier) : list string := e_id <$> get_tier m role t.
Definition tier_parents m (role : string) (t : MemoryTier) : list string := omap e_parent_revision_id (get_tier m role t).

(** An entry that is no revision of another and is not retired. *)
Definition rootlike (e : MemoryEntry) : Prop :=
  e_parent_revision_id e = None /\ e_deleted_at e = None /\ e_superseded_by e = None.

Record follows s m : Prop := {
  fo_ledger : is_Some (lm_ledger m);
  fo_coherent : coherent m;
  fo_ids : forall role role' t t' id, t <> Tier_Ephemeral -> t' <> Tier_Ephemeral ->
    id ∈ tier_ids m role t -> id ∈ tier_ids m role' t' -> role = role' /\ t = t';
  fo_distinct : forall role t, t <> Tier_Ephemeral -> NoDup (tier_ids m role t);
  fo_parents : forall role t, t <> Tier_Ephemeral -> tier_parents m role t ⊆ tier_ids m role t;
  fo_ephemeral : forall role, Forall rootlike (get_tier m role Tier_Ephemeral);
  fo_facts : forall role t, fact <$> get_active_tier m role t = facts_in s role t;
}.

(** *** Lists of entries *)

Lemma active_roots live es :
  Forall rootlike es -> (forall e, e ∈ es -> e_id e ∉ omap e_parent_revision_id live) ->
  active_revisions (live ++ es) = active_revisions live ++ es.
Proof.
  intros Hes Hfresh. unfold active_revisions. rewrite omap_app.
  assert (omap e_parent_revision_id es = []) as ->.
  { clear Hfresh. induction Hes as [|e es [Hp _] _ IH]; [done|]. cbn. by rewrite Hp. }
  rewrite app_nil_r, List.filter_app. f_equal. apply lfilter_all. intros e He.
  rewrite Forall_forall in Hes. destruct (Hes e He) as (_ & -> & ->).
  unfold str_mem. rewrite bool_decide_false by (by apply Hfresh). done.
Qed.

Lemma active_all es : Forall rootlike es -> active_revisions es = es.
Proof. intros Hes. apply (active_roots [] es Hes). intros e _. apply not_elem_of_nil. Qed.

Lemma durable_parents (es : list MemoryEntry) :
  omap e_parent_revision_id (durable <$> es) = omap e_parent_revision_id es.
Proof. induction es as [|e es IH]; [done|]. cbn. by rewrite IH. Qed.

Lemma durable_active es : durable <$> active_revisions es = active_revisions (durable <$> es).
Proof.
  unfold active_revisions. rewrite durable_parents. generalize (omap e_parent_revision_id es). intros ps. induction es as [|e es IH]; [done|]. cbn.
  assert (opt_is_some ((fun _ => 0%Z) <$> e_deleted_at e) = opt_is_some (e_deleted_at e)) as -> by (by destruct (e_deleted_at e)).
  destruct (_ && _); cbn; by rewrite IH.
Qed.

Lemma durable_facts es es' : durable <$> es = durable <$> es' ->
  fact <$> active_revisions es = fact <$> active_revisions es' /\ e_id <$> es = e_id <$> es' /\
  omap e_parent_revision_id es = omap e_parent_revision_id es'.
Proof.
  intros Heq.
  assert (forall l, fact <$> l = fact <$> (durable <$> l)) as Hf by (intros l; by rewrite <-list_fmap_compose).
  assert (forall l, e_id <$> l = e_id <$> (durable <$> l)) as Hi by (intros l; by rewrite <-list_fmap_compose).
  rewrite (Hf (active_revisions es)), (Hf (active_revisions es')), !durable_active, (Hi es), (Hi es'), <-(durable_parents es), <-(durable_parents es').
  by rewrite Heq.
Qed.

(** *** Changes *)

(** The tiers are the same. *)
Lemma follows_quiet s m m' :
  follows s m -> coherent m' -> is_Some (lm_ledger m') ->
  (forall role t, get_tier m' role t = get_tier m role t) -> follows s m'.
Proof.
  intros [Hl Hco Hids Hnd Hpar Heph Hf] Hco' Hl' Hg.
  constructor; unfold tier_ids, tier_parents, get_active_tier in *; try done; intros; rewrite ?Hg in *; eauto.
Qed.

(** Entries are appended under one origin. *)
Definition grown m m' l' (origin : string) (t : MemoryTier) (es : list MemoryEntry) : Prop :=
  lm_ledger m' = Some l' /\
  forall role t', get_tier m' role t' = get_tier m role t' ++ if decide (role = origin /\ t' = t) then es else [].

(** The identifiers of a commit are new to the tiers. *)
Lemma commit_fresh s m l l' origin t rs cs :
  follows s m -> lm_ledger m = Some l -> lg_appends l l' origin t rs cs ->
  forall id role t', id ∈ r_revision_id <$> rs -> t' <> Tier_Ephemeral ->
    id ∉ tier_ids m role t' /\ id ∉ tier_parents m role t'.
Proof.
  intros Hfo Hl Ha id role t' Hid Ht'. apply list_elem_of_fmap in Hid as (r & -> & Hr).
  assert (forall e, e ∈ get_tier m role t' -> e_id e <> r_revision_id r /\ e_parent_revision_id e <> Some (r_revision_id r)) as Hall.
  { intros e He. destruct (coherent_agent m l role t' e (fo_coherent _ _ Hfo) Hl Ht' He) as [_ (r0 & Hr0 & Hd)].
    destruct (la_fresh _ _ _ _ _ _ Ha r r0 role t' Hr Hr0) as [Hi Hp].
    pose proof (f_equal e_id Hd) as Hd1. pose proof (f_equal e_parent_revision_id Hd) as Hd2. cbn in Hd1, Hd2.
    split; congruence. }
  split; [intros (e & Hi & He)%list_elem_of_fmap|intros (e & He & Hi)%list_elem_of_omap]; by destruct (Hall e He).
Qed.

Lemma follows_grown s s' m m' l l' origin t rs cs es :
  follows s m -> lm_ledger m = Some l -> lg_appends l l' origin t rs cs -> coherent m' ->
  e_id <$> es = r_revision_id <$> rs -> omap e_parent_revision_id es ⊆ tier_ids m origin t ->
  grown m m' l' origin t es ->
  fact <$> active_revisions (get_tier m origin t ++ es) = facts_in s' origin t ->
  (forall role t', ~ (role = origin /\ t' = t) -> facts_in s' role t' = facts_in s role t') ->
  follows s' m'.
Proof.
  intros Hfo Hl Ha Hco' Hes Hpar [Hl' Hg] Hact Hrest.
  pose proof (commit_fresh s m l l' origin t rs cs Hfo Hl Ha) as Hfresh. rewrite <-Hes in Hfresh.
  pose proof (la_durable _ _ _ _ _ _ Ha) as Hdur. pose proof (la_distinct _ _ _ _ _ _ Ha) as Hdis. rewrite <-Hes in Hdis.
  destruct Hfo as [_ _ Hids Hnd Hps Heph Hf].
  assert (forall role t' id, id ∈ tier_ids m' role t' ->
    id ∈ tier_ids m role t' \/ role = origin /\ t' = t /\ id ∈ e_id <$> es) as Hsplit.
  { intros role t' id. unfold tier_ids. rewrite Hg, fmap_app, elem_of_app. case_decide; [naive_solver|set_solver]. }
  constructor; [done|done| | | | |].
  - intros role role' t1 t2 id H1' H2' [Hi|(-> & -> & Hi)]%Hsplit [Hj|(-> & -> & Hj)]%Hsplit; [by eapply Hids|..|done].
    + by destruct (Hfresh id role t1 Hj H1').
    + by destruct (Hfresh id role' t2 Hi H2').
  - intros role t' Ht'. unfold tier_ids. rewrite Hg, fmap_app. apply NoDup_app. split_and!; [by apply Hnd| |].
    + intros id Hi Hj. case_decide; [|by apply not_elem_of_nil in Hj]. by destruct (Hfresh id role t' Hj Ht').
    + case_decide; [done|constructor].
  - intros role t' Ht' id. unfold tier_parents, tier_ids. rewrite Hg, omap_app, fmap_app, !elem_of_app.
    intros [Hi|Hi]; left; [by apply (Hps role t' Ht')|]. case_decide as Hd; [|by apply not_elem_of_nil in Hi].
    destruct Hd as [-> ->]. by apply Hpar.
  - intros role. rewrite Hg, decide_False, app_nil_r by naive_solver. apply Heph.
  - intros role t'. unfold get_active_tier. rewrite Hg. case_decide as Hd; [by destruct Hd as [-> ->]|].
    rewrite app_nil_r, Hrest by done. apply Hf.
Qed.

(** *** Creations *)

Lemma sealed_fact e x : sealed e = Ok x -> fact x = fact e /\ (rootlike e -> rootlike x).
Proof.
  unfold sealed, seal_root_identity, map_err. intros Hs.
  destruct (if str_eqb (e_canonical_content_hash e) "" then _ else _); [|done].
  by apply Ok_inj in Hs as <-.
Qed.

Lemma facts_in_app s s' role t : facts_in (s ++ s') role t = facts_in s role t ++ facts_in s' role t.
Proof. apply List.filter_app. Qed.

Lemma of_tier_true role t f : of_tier role t f = true <-> fa_agent f = role /\ fa_tier f = t.
Proof. unfold of_tier, str_eqb. rewrite andb_true_iff, !bool_decide_eq_true. done. Qed.

Lemma facts_in_all s role t : Forall (fun f => fa_agent f = role /\ fa_tier f = t) s -> facts_in s role t = s.
Proof. intros Hs. apply lfilter_all. intros f Hf. rewrite Forall_forall in Hs. by apply of_tier_true, Hs. Qed.

Lemma facts_in_other s role t role' t' :
  Forall (fun f => fa_agent f = role /\ fa_tier f = t) s -> ~ (role' = role /\ t' = t) -> facts_in s role' t' = [].
Proof.
  intros Hs Hne. apply lfilter_none. intros f Hf. rewrite Forall_forall in Hs. destruct (Hs f Hf) as [<- <-].
  apply not_true_iff_false. rewrite of_tier_true. naive_solver.
Qed.

(** Roots committed together. *)
Lemma follows_roots s m m' l l' origin t rs cs es :
  follows s m -> lm_ledger m = Some l -> lg_appends l l' origin t rs cs -> coherent m' ->
  e_id <$> es = r_revision_id <$> rs -> Forall rootlike es ->
  Forall (fun f => fa_agent f = origin /\ fa_tier f = t) (fact <$> es) ->
  grown m m' l' origin t es -> follows (s ++ (fact <$> es)) m'.
Proof.
  intros Hfo Hl Ha Hco Hids Hroots Hown Hg.
  assert (omap e_parent_revision_id es = []) as Hnone.
  { clear -Hroots. induction Hroots as [|e es [Hp _] _ IH]; [done|]. cbn. by rewrite Hp. }
  eapply follows_grown; [done..| |done| |].
  - rewrite Hnone. set_solver.
  - rewrite active_roots; [|done|].
    + rewrite fmap_app, facts_in_app, (facts_in_all (fact <$> es)) by done. f_equal. apply (fo_facts _ _ Hfo).
    + intros e He. eapply commit_fresh; [done..| |apply (la_durable _ _ _ _ _ _ Ha)].
      rewrite <-Hids. by apply list_elem_of_fmap_2.
  - intros role t' Hne. by rewrite facts_in_app, (facts_in_other (fact <$> es) origin t), app_nil_r.
Qed.

Lemma grown_put m m1 l' a t es :
  (forall role t', get_tier m1 role t' = get_tier m role t') ->
  grown m (put_tier (with_ledger (Some l') m1) t a (get_tier m1 a t ++ es)) l' a t es.
Proof.
  intros Hsame. split; [apply put_tier_ledger|]. intros role t'. rewrite get_tier_put, get_tier_ledger, !Hsame.
  case_decide as Hd; [by destruct Hd as [-> ->]|by rewrite app_nil_r].
Qed.

(** What a creation does. *)
Definition untouched m m' : Prop := is_Some (lm_ledger m') /\ forall role t, get_tier m' role t = get_tier m role t.

Lemma untouched_touch m a : is_Some (lm_ledger m) -> untouched m (touch_working m a).
Proof. intros Hl. split; [by rewrite touch_working_ledger|apply touch_working_same]. Qed.

Definition created i m e (x : result DurableMemoryMutationError MemoryEntry * LayeredMemory) : Prop :=
  match x with
  | (Err _, m') => untouched m m'
  | (Ok e', m') => exists l l' y r c, lm_ledger m = Some l /\ sealed e = Ok y /\ from_entry y = Ok r /\
      lg_commit_expected i l (e_agent_id e) (e_tier e) Absent r = (Ok c, l') /\
      e' = published_at (c_committed_at c) y /\ grown m m' l' (e_agent_id e) (e_tier e) [e']
  end.

Lemma create_working_created i m e quota :
  is_Some (lm_ledger m) -> e_tier e = Tier_Working -> created i m e (create_working_durable i m e quota).
Proof.
  intros Hl Ht. unfold create_working_durable, created. destruct (sealed e) as [y|] eqn:Hs; [|by split].
  apply sealed_agent in Hs as Hag. destruct Hag as [Hag Hty]. destruct (lm_ledger m) as [l|] eqn:Hlm; [|by destruct Hl].
  rewrite <-Hlm in Hl. cbn zeta. destruct (_ && _); [by apply untouched_touch|].
  destruct (from_entry y) as [r|] eqn:Hr; [|by apply untouched_touch].
  rewrite Hag. destruct (lg_commit_expected _ _ _ _ _ _) as [[c|] l'] eqn:Hc; [|split; [done|apply touch_working_same]].
  exists l, l', y, r, c. rewrite Ht. split_and!; [done..|]. apply grown_put, touch_working_same.
Qed.

Lemma create_created i m e quota :
  is_Some (lm_ledger m) -> created i m e (create_durable i m e quota).
Proof.
  intros Hl. unfold create_durable. destruct (bool_decide _) eqn:Ht; [breflect; by apply create_working_created|].
  assert (untouched m m) as Hm by done.
  unfold created. destruct (bool_decide (e_tier e = Tier_Ephemeral)); [done|]. destruct (sealed e) as [y|] eqn:Hs; [|done].
  apply sealed_agent in Hs as Hag. destruct Hag as [Hag Hty]. destruct (lm_ledger m) as [l|] eqn:Hlm; [|by destruct Hl].
  destruct (_ && _); [done|]. destruct (from_entry y) as [r|] eqn:Hr; [|done].
  rewrite Hag, Hty. destruct (lg_commit_expected _ _ _ _ _ _) as [[c|] l'] eqn:Hc; [|done].
  exists l, l', y, r, c. split_and!; [done..|]. unfold store_inner. cbn [published_at e_tier e_agent_id].
  rewrite get_tier_ledger, Hag, Hty. by apply grown_put.
Qed.

Lemma created_follows s i m e x :
  follows s m -> rootlike e -> coherent x.2 -> created i m e x ->
  follows (match x.1 with Ok _ => s ++ [fact e] | Err _ => s end) x.2 /\
  forall e', x.1 = Ok e' -> e_id e' = e_id e.
Proof.
  intros Hfo Hroot Hco Hx. destruct x as [[e'|] m']; cbn [created fst snd] in *.
  - destruct Hx as (l & l' & y & r & c & Hl & Hs & Hr & Hc & -> & Hg).
    destruct (sealed_fact e y Hs) as [Hf Hry]. split; [|intros e' [= <-]; exact (f_equal fa_id Hf)].
    destruct (fo_coherent _ _ Hfo l Hl) as [Hok _].
    pose proof (follows_roots s m m' l l' (e_agent_id e) (e_tier e) [r] [c] [published_at (c_committed_at c) y] Hfo Hl
      (lg_root _ _ _ _ _ _ _ Hok Hc) Hco) as Hroots.
    change (fact <$> [published_at (c_committed_at c) y]) with [fact y] in Hroots. rewrite Hf in Hroots.
    apply Hroots; [|by constructor; [apply Hry|]|by repeat constructor|done].
    cbn. by rewrite (from_entry_id _ _ Hr).
  - split; [|done]. destruct Hx as [Hl Hg]. by eapply follows_quiet.
Qed.

(** *** Batches *)

Lemma publish_batch_fact es cs :
  fact <$> publish_batch es cs = fact <$> es /\ e_id <$> publish_batch es cs = e_id <$> es /\
  (Forall rootlike es -> Forall rootlike (publish_batch es cs)).
Proof.
  revert cs. induction es as [|e es IH]; intros [|c cs]; [done..|]. destruct (IH cs) as (Hf & Hi & Hr).
  cbn. rewrite Hf, Hi. split_and!; [done..|]. intros [He Hes]%Forall_cons. constructor; [done|auto].
Qed.

Lemma try_map_fmap {A B C E} (f : A -> result E B) (g : B -> C) (h : A -> C) (xs : list A) ys :
  (forall a b, f a = Ok b -> g b = h a) -> try_map f xs = Ok ys -> g <$> ys = h <$> xs.
Proof.
  intros Hf Hx%try_map_Ok_Forall2. induction Hx as [|a b xs ys Hab _ IH]; [done|]. cbn. by rewrite (Hf a b Hab), IH.
Qed.

Lemma seal_batch_fact category a t es ys :
  seal_batch category a t es = Ok ys -> fact <$> ys = fact <$> es /\ (Forall rootlike es -> Forall rootlike ys).
Proof.
  unfold seal_batch. intros Hs. split.
  - apply (try_map_fmap _ fact fact _ _) in Hs; [done|]. intros e y He. destruct (_ || _); [done|]. by apply sealed_fact.
  - apply try_map_Ok_Forall2 in Hs. induction Hs as [|e y es ys He _ IH]; [done|].
    intros [Hr Hes]%Forall_cons. constructor; [|auto]. destruct (_ || _); [done|]. by apply (sealed_fact e y).
Qed.

Lemma batch_follows s i m es quota a t :
  follows s m -> Forall rootlike es -> Forall (fun f => fa_agent f = a /\ fa_tier f = t) (fact <$> es) ->
  follows (match (create_batch_durable i m es quota).1 with Ok _ => s ++ (fact <$> es) | Err _ => s end)
    (create_batch_durable i m es quota).2.
Proof.
  intros Hfo Hroots Hown. pose proof (create_batch_coherent i m es quota (fo_coherent _ _ Hfo)) as Hco. revert Hco.
  unfold create_batch_durable. destruct es as [|e0 es]; [by cbn; rewrite app_nil_r|]. cbn zeta.
  assert (e_agent_id e0 = a /\ e_tier e0 = t) as [-> ->] by (by apply Forall_cons in Hown as [? _]).
  destruct (fo_ledger _ _ Hfo) as [l Hl]. rewrite Hl.
  destruct (bool_decide _); [done|]. destruct (seal_batch _ _ _ _) as [ys|] eqn:Hs; [|done].
  destruct (over_quota _ _ _); [done|]. destruct (try_map from_entry ys) as [rs|] eqn:Hrs; [|done].
  destruct (lg_commit_roots _ _ _ _ _) as [[cs|] l'] eqn:Hc; cbn [fst snd]; intros Hco;
    [|by apply (follows_quiet s m)].
  destruct (fo_coherent _ _ Hfo l Hl) as [Hok _]. destruct (seal_batch_fact _ _ _ _ _ Hs) as [Hf Hr].
  destruct (publish_batch_fact ys cs) as (Hpf & Hpi & Hpr). rewrite <-Hf, <-Hpf.
  eapply follows_roots; [done|done|by eapply lg_roots|done| |by auto|by rewrite Hpf, Hf|by apply grown_put].
  rewrite Hpi. symmetry. by apply (try_map_fmap from_entry r_revision_id e_id); [apply from_entry_id|].
Qed.

(** *** Mutations *)

(** A fact is that of an active entry. *)
Lemma fact_entry s m f : follows s m -> f ∈ s -> exists e, e ∈ get_active_tier m (fa_agent f) (fa_tier f) /\ f = fact e.
Proof.
  intros Hfo Hf. assert (f ∈ facts_in s (fa_agent f) (fa_tier f)) as Hin by (apply elem_of_lfilter; split; [done|by apply of_tier_true]).
  rewrite <-(fo_facts _ _ Hfo) in Hin. apply list_elem_of_fmap in Hin as (e & -> & He). eauto.
Qed.

Lemma active_subset es e : e ∈ active_revisions es -> e ∈ es.
Proof. unfold active_revisions. intros He%elem_of_lfilter. tauto. Qed.

(** The working memories with an identifier lie where an entry with it lies. *)
Lemma memory_origin s m origin id f :
  follows s m -> id ∈ tier_ids m origin Tier_Working -> f ∈ s -> is_memory id f = true -> fa_agent f = origin.
Proof.
  intros Hfo Hid Hf Hm. unfold is_memory in Hm. apply andb_true_iff in Hm as [Ht Hi]. breflect.
  destruct (fact_entry s m f Hfo Hf) as (e & He & ->). cbn in *. subst id. rewrite Ht in He.
  apply active_subset in He.
  destruct (fo_ids _ _ Hfo (e_agent_id e) origin Tier_Working Tier_Working (e_id e)); try done. by apply list_elem_of_fmap_2.
Qed.

Lemma lfilter_swap {A} (p q : A -> bool) (l : list A) : List.filter p (List.filter q l) = List.filter q (List.filter p l).
Proof. induction l as [|x l IH]; [done|]. cbn. destruct (p x) eqn:Hp, (q x) eqn:Hq; cbn; rewrite ?Hp, ?Hq, IH; done. Qed.

Lemma lfilter_fmap {A B} (f : A -> B) (p : B -> bool) (l : list A) :
  List.filter p (f <$> l) = f <$> List.filter (fun x => p (f x)) l.
Proof. induction l as [|x l IH]; [done|]. cbn. destruct (p (f x)); cbn; by rewrite IH. Qed.

(** The facts of a tier without those an identifier names. *)
Lemma facts_without s role id :
  facts_in (List.filter (fun f => negb (is_memory id f)) s) role Tier_Working =
  List.filter (fun f => negb (str_eqb (fa_id f) id)) (facts_in s role Tier_Working).
Proof.
  unfold facts_in. rewrite lfilter_swap. apply filter_ext_in. intros f Hf%filter_In. destruct Hf as [_ Hf].
  apply of_tier_true in Hf as [_ Hf]. unfold is_memory. rewrite bool_decide_true by done. done.
Qed.

Lemma facts_without_other s m origin id role t :
  follows s m -> id ∈ tier_ids m origin Tier_Working -> ~ (role = origin /\ t = Tier_Working) ->
  facts_in (List.filter (fun f => negb (is_memory id f)) s) role t = facts_in s role t /\
  facts_in (List.filter (is_memory id) s) role t = [].
Proof.
  intros Hfo Hid Hne.
  assert (forall f, f ∈ s -> of_tier role t f = true -> is_memory id f = false) as Hno.
  { intros f Hf [Ha Ht]%of_tier_true. apply not_true_iff_false. intros Hm. apply Hne.
    split; [rewrite <-Ha; by eapply memory_origin|]. unfold is_memory in Hm. apply andb_true_iff in Hm as [Hm _]. breflect. congruence. }
  unfold facts_in. split.
  - rewrite lfilter_swap. apply lfilter_all. intros f [Hf Hof]%elem_of_lfilter. by rewrite Hno.
  - apply lfilter_none. intros f [Hf Hm]%elem_of_lfilter. apply not_true_iff_false. intros Hof. by rewrite Hno in Hm.
Qed.

Lemma facts_ids es id : List.filter (fun f => negb (str_eqb (fa_id f) id)) (fact <$> es) =
  fact <$> List.filter (fun x => negb (str_eqb (e_id x) id)) es.
Proof. apply (lfilter_fmap fact). Qed.

(** What is known when a mutation of [p] has been committed. *)
Record mutated s m m' (origin entry_id : string) (p e : MemoryEntry) : Prop := {
  mu_in : p ∈ get_tier m origin Tier_Working;
  mu_id : e_id p = entry_id;
  mu_live : e_deleted_at p = None /\ e_superseded_by p = None;
  mu_head : entry_id ∉ tier_parents m origin Tier_Working;
  mu_active : active_revisions (get_tier m origin Tier_Working ++ [e]) =
    List.filter (fun x => negb (str_eqb (e_id x) entry_id)) (get_active_tier m origin Tier_Working)
    ++ (if opt_is_some (e_deleted_at e) then [] else [e]);
  mu_follows s' : fact <$> active_revisions (get_tier m origin Tier_Working ++ [e]) = facts_in s' origin Tier_Working ->
    (forall role t', ~ (role = origin /\ t' = Tier_Working) -> facts_in s' role t' = facts_in s role t') -> follows s' m';
}.

Lemma mutation_follows s i m role entry_id mutate next :
  follows s m -> appending mutate next entry_id ->
  (forall p, e_parent_revision_id (next p) = Some (e_id p)) -> (forall p, e_superseded_by (next p) = None) ->
  match commit_working_mutation i m role entry_id mutate with
  | (Err _, m') => follows s m'
  | (Ok e, m') => (m' = m /\ exists origin, mutate (get_tier m origin Tier_Working) = Ok (inl e)) \/
      exists origin p t, e = published_at t (next p) /\ mutated s m m' origin entry_id p e
  end.
Proof.
  intros Hfo Happ Hpar Hsup. destruct (fo_ledger _ _ Hfo) as [l Hl]. destruct (fo_coherent _ _ Hfo l Hl) as [Hok _].
  pose proof (mutation_coherent i m role entry_id mutate next Happ (fo_coherent _ _ Hfo)) as Hco.
  pose proof (mutation_cases i m role entry_id mutate next l Hl Happ) as Hm.
  destruct (commit_working_mutation i m role entry_id mutate) as [[e|] m']; cbn [snd] in Hco.
  - destruct Hm as [Hm|(origin & p & r & c & l' & Ho & Hp & Hid & Hag & Hdel & Hr & Hc & -> & ->)]; [by left|right].
    pose proof (lg_revision _ _ _ _ _ _ _ _ _ Hok Ho Hc) as Ha.
    destruct (appended_fresh m l l' origin r c p (next p) (fo_coherent _ _ Hfo) Hl Ha Hp (from_entry_id _ _ Hr)) as [Hne Hfr].
    exists origin, p, (c_committed_at c). split; [done|]. constructor; [done|done| | | |].
    + destruct (coherent_agent m l origin Tier_Working p (fo_coherent _ _ Hfo) Hl ltac:(done) Hp) as [_ (r0 & _ & Hd)].
      split; [by destruct (e_deleted_at p)|exact (f_equal e_superseded_by Hd)].
    + intros (x & Hx & Hxp)%list_elem_of_omap.
      destruct (coherent_agent m l origin Tier_Working x (fo_coherent _ _ Hfo) Hl ltac:(done) Hx) as [_ (r0 & Hr0 & Hd)].
      apply (lg_head _ _ _ _ _ _ _ _ Hok Hc r0 origin Tier_Working Hr0). rewrite <-Hxp.
      symmetry. exact (f_equal e_parent_revision_id Hd).
    + rewrite (active_snoc _ _ entry_id); cbn [published_at e_parent_revision_id e_id e_deleted_at e_superseded_by];
        [|by rewrite Hpar, Hid|congruence|done]. by rewrite Hsup, orb_false_r.
    + intros s' Hact Hrest. eapply (follows_grown s s' m _ l l' origin Tier_Working [r] [c]); [done..| | | |done|done].
      * cbn. by rewrite (from_entry_id _ _ Hr).
      * cbn. rewrite Hpar. intros x Hx%list_elem_of_singleton. subst x. by apply list_elem_of_fmap_2.
      * by apply (grown_put m m l' origin Tier_Working [published_at (c_committed_at c) (next p)]).
  - destruct Hm as [-> |(exp & r & e & l' & Hc & ->)]; [done|]. by apply (follows_quiet s m).
Qed.

Lemma delete_follows s i now id m role ns entry_id :
  follows s m ->
  follows (match (delete_working_durable i now id m role ns entry_id).1 with
           | Ok _ => List.filter (fun f => negb (is_memory entry_id f)) s | Err _ => s end)
    (delete_working_durable i now id m role ns entry_id).2.
Proof.
  intros Hfo. unfold delete_working_durable.
  pose proof (mutation_follows s i m role entry_id _ _ Hfo (delete_appends now id ns entry_id) ltac:(done) ltac:(done)) as Hm.
  destruct (commit_working_mutation _ _ _ _ _) as [[e|] m']; cbn [fst snd]; [|done].
  destruct Hm as [[-> [origin Hex]]|(origin & p & t & -> & [Hin Hid Hlive Hhead Hact Hnext])].
  - rewrite lfilter_all; [done|]. intros f Hf. apply negb_true_iff, not_true_iff_false. intros Hmem.
    unfold delete_mutation, ok_or in Hex.
    destruct (List.find (fun e => str_eqb (e_id e) entry_id) _) as [p|] eqn:Hp; [|done]. apply find_entry_id in Hp as [Hp Hpid].
    destruct (negb _); [done|]. destruct (opt_is_some (e_deleted_at p)); [done|].
    destruct (List.find _ _) as [child|] eqn:Hc; [|done]. apply find_some in Hc as [Hcin Hcp]. breflect.
    assert (fa_agent f = origin) as Hag.
    { eapply memory_origin; [done| |done..]. rewrite <-Hpid. by apply list_elem_of_fmap_2. }
    unfold is_memory in Hmem. apply andb_true_iff in Hmem as [Ht Hi]. breflect.
    destruct (fact_entry s m f Hfo Hf) as (x & Hx & ->). cbn in *. rewrite Ht, Hag in Hx.
    unfold get_active_tier, active_revisions in Hx. apply elem_of_lfilter in Hx as [_ Hx].
    apply andb_true_iff in Hx as [Hx _]. apply andb_true_iff in Hx as [Hx _]. breflect. apply Hx.
    apply list_elem_of_omap. exists child. rewrite <-list_elem_of_In in Hcin. split; [done|congruence].
  - apply Hnext.
    + rewrite Hact. cbn [published_at tombstone_entry e_deleted_at opt_is_some]. rewrite app_nil_r, facts_without, <-(fo_facts _ _ Hfo).
      symmetry. apply facts_ids.
    + intros role' t' Hne. eapply facts_without_other; [done| |done]. rewrite <-Hid. by apply list_elem_of_fmap_2.
Qed.

Lemma lfilter_unique {A} (f : A -> string) (b : A -> bool) (l : list A) x :
  NoDup (f <$> l) -> x ∈ l -> (forall y, y ∈ l -> b y = true <-> f y = f x) -> List.filter b l = [x].
Proof.
  induction l as [|y l IH]; intros Hnd Hx Hb; [by apply not_elem_of_nil in Hx|].
  cbn in Hnd. apply NoDup_cons in Hnd as [Hy Hnd]. cbn. apply elem_of_cons in Hx as [-> |Hx].
  - rewrite (proj2 (Hb y ltac:(left)) eq_refl). f_equal. apply lfilter_none. intros z Hz. apply not_true_iff_false.
    intros Hbz%Hb; [|by right]. apply Hy. rewrite <-Hbz. by apply list_elem_of_fmap_2.
  - destruct (b y) eqn:Hby; [|by apply IH; [..|intros z Hz; apply Hb; right]].
    apply Hb in Hby; [|left]. destruct Hy. rewrite Hby. by apply list_elem_of_fmap_2.
Qed.

Lemma lfilter_NoDup {A} (f : A -> string) (b : A -> bool) (l : list A) : NoDup (f <$> l) -> NoDup (f <$> List.filter b l).
Proof.
  induction l as [|y l IH]; [done|]. cbn. intros [Hy Hnd]%NoDup_cons. destruct (b y); [|auto]. cbn.
  apply NoDup_cons. split; [|auto]. intros (z & Hz & [Hzl _]%elem_of_lfilter)%list_elem_of_fmap. apply Hy. rewrite Hz. by apply list_elem_of_fmap_2.
Qed.

(** The fact a mutation is about is that of the entry it found. *)
Lemma mutated_fact s m m' origin entry_id p e :
  follows s m -> mutated s m m' origin entry_id p e -> List.filter (is_memory entry_id) s = [fact p].
Proof.
  intros Hfo [Hin Hid [Hdel Hsup] Hhead _ _].
  assert (entry_id ∈ tier_ids m origin Tier_Working) as Hids by (rewrite <-Hid; by apply list_elem_of_fmap_2).
  rewrite <-(facts_in_all (List.filter (is_memory entry_id) s) origin Tier_Working).
  2:{ apply Forall_forall. intros f [Hf Hm]%elem_of_lfilter. split; [by eapply memory_origin|].
      unfold is_memory in Hm. apply andb_true_iff in Hm as [Ht _]. by breflect. }
  unfold facts_in. rewrite lfilter_swap. change (List.filter (of_tier origin Tier_Working) s) with (facts_in s origin Tier_Working).
  rewrite <-(fo_facts _ _ Hfo), lfilter_fmap. change [fact p] with (fact <$> [p]). f_equal.
  apply (lfilter_unique e_id).
  - apply lfilter_NoDup. by apply (fo_distinct _ _ Hfo).
  - unfold get_active_tier, active_revisions. apply elem_of_lfilter. split; [done|]. rewrite Hdel, Hsup, Hid.
    unfold str_mem. by rewrite bool_decide_false.
  - intros y Hy. assert (fact y ∈ facts_in s origin Tier_Working) as Hf
      by (rewrite <-(fo_facts _ _ Hfo); by apply list_elem_of_fmap_2).
    apply elem_of_lfilter in Hf as [_ [_ Ht]%of_tier_true]. unfold is_memory, str_eqb.
    rewrite andb_true_iff, !bool_decide_eq_true, Hid. cbn in *. tauto.
Qed.

Lemma update_follows s i now id m role ns entry_id text :
  follows s m ->
  match update_working_durable i now id m role ns entry_id text with
  | (Ok e, m') => e_id e = id /\ follows (List.filter (fun f => negb (is_memory entry_id f)) s ++
                    (revise id text <$> List.filter (is_memory entry_id) s)) m'
  | (Err _, m') => follows s m'
  end.
Proof.
  intros Hfo. unfold update_working_durable. destruct (blank text); [done|].
  pose proof (mutation_follows s i m role entry_id _ _ Hfo (update_appends now id ns entry_id text) ltac:(done) ltac:(done)) as Hm.
  destruct (commit_working_mutation _ _ _ _ _) as [[e|] m']; [|done].
  destruct Hm as [[_ [origin Hex]]|(origin & p & t & -> & Hmut)].
  - unfold update_mutation, ok_or, map_err in Hex. by ok_inv Hex.
  - split; [done|]. rewrite (mutated_fact _ _ _ _ _ _ _ Hfo Hmut).
    pose proof (mutated_fact _ _ _ _ _ _ _ Hfo Hmut) as Hs. destruct Hmut as [Hin Hid Hlive Hhead Hact Hnext].
    assert (fact p ∈ s /\ is_memory entry_id (fact p) = true) as [Hfp Hmem].
    { apply elem_of_lfilter. rewrite Hs. left. }
    assert (entry_id ∈ tier_ids m origin Tier_Working) as Hids by (rewrite <-Hid; by apply list_elem_of_fmap_2).
    pose proof (memory_origin s m origin entry_id _ Hfo Hids Hfp Hmem) as Hag.
    unfold is_memory in Hmem. apply andb_true_iff in Hmem as [Ht _]. breflect. cbn in Ht, Hag.
    assert (Forall (fun f => fa_agent f = origin /\ fa_tier f = Tier_Working) (revise id text <$> [fact p])) as Hone
      by (by repeat constructor).
    apply Hnext.
    + rewrite Hact, facts_in_app, facts_without, <-(fo_facts _ _ Hfo), facts_in_all by done.
      cbn [published_at updated_entry e_deleted_at opt_is_some]. rewrite fmap_app, facts_ids. f_equal.
      cbn. f_equal. unfold fact, revise. cbn. by rewrite Ht.
    + intros role' t' Hne. rewrite facts_in_app, (facts_in_other (revise id text <$> [fact p]) origin Tier_Working), app_nil_r by done.
      by eapply facts_without_other.
Qed.

(** *** The ephemeral tier and restarts *)

Lemma follows_ephemeral s s' m m' :
  follows s m -> coherent m' -> is_Some (lm_ledger m') ->
  (forall role t, t <> Tier_Ephemeral -> durable <$> get_tier m' role t = durable <$> get_tier m role t) ->
  (forall role, Forall rootlike (get_tier m' role Tier_Ephemeral)) ->
  (forall role, fact <$> get_tier m' role Tier_Ephemeral = facts_in s' role Tier_Ephemeral) ->
  (forall role t, t <> Tier_Ephemeral -> facts_in s' role t = facts_in s role t) -> follows s' m'.
Proof.
  intros [Hl Hco Hids Hnd Hpar Heph Hf] Hco' Hl' Hg Hroot Hfe Hfd.
  assert (forall role t, t <> Tier_Ephemeral -> tier_ids m' role t = tier_ids m role t /\
    tier_parents m' role t = tier_parents m role t) as Hsame
    by (intros role t Ht; by destruct (durable_facts _ _ (Hg role t Ht)) as (_ & ? & ?)).
  constructor; try done.
  - intros role role' t t' id Ht Ht'. rewrite (proj1 (Hsame role t Ht)), (proj1 (Hsame role' t' Ht')). by apply Hids.
  - intros role t Ht. rewrite (proj1 (Hsame role t Ht)). by apply Hnd.
  - intros role t Ht. rewrite (proj1 (Hsame role t Ht)), (proj2 (Hsame role t Ht)). by apply Hpar.
  - intros role t. unfold get_active_tier. destruct (decide (t = Tier_Ephemeral)) as [-> |Ht].
    + by rewrite active_all.
    + rewrite (proj1 (durable_facts _ _ (Hg role t Ht))), Hfd by done. apply Hf.
Qed.

Lemma ephemeral_facts s m role : follows s m -> fact <$> get_tier m role Tier_Ephemeral = facts_in s role Tier_Ephemeral.
Proof.
  intros Hfo. rewrite <-(fo_facts _ _ Hfo). unfold get_active_tier.
  by rewrite active_all by apply (fo_ephemeral _ _ Hfo).
Qed.

Lemma store_follows s m e quota :
  follows s m -> rootlike e ->
  follows (match (store_checked m e quota).1 with Ok _ => s ++ [fact e] | Err _ => s end) (store_checked m e quota).2.
Proof.
  intros Hfo Hroot. pose proof (store_coherent m e (fo_coherent _ _ Hfo)) as Hco. revert Hco.
  unfold store_checked. destruct (_ && _); [done|]. unfold store, map_err.
  destruct (seal_root_identity e) as [x|] eqn:Hs; [|done].
  assert (sealed e = Ok x) as Hx by (unfold sealed; by rewrite Hs). destruct (sealed_fact e x Hx) as [Hf Hr].
  destruct (negb _) eqn:Ht; [done|]. cbn [fst snd]. breflect. intros Hco.
  assert (forall role t, get_tier (snd (tick m)) role t = get_tier m role t /\ lm_ledger (snd (tick m)) = lm_ledger m) as Htick
    by (intros role t; unfold tick; destruct (_ <=? _)%Z; by destruct t).
  assert (forall role t, get_tier (store_inner (snd (tick m)) x) role t =
    get_tier m role t ++ if decide (role = e_agent_id x /\ t = Tier_Ephemeral) then [x] else []) as Hg.
  { intros role t. unfold store_inner. rewrite get_tier_put, Ht, (proj1 (Htick _ _)), (proj1 (Htick role t)).
    case_decide as Hd; [by destruct Hd as [-> ->]|by rewrite app_nil_r]. }
  assert (Forall (fun f => fa_agent f = e_agent_id x /\ fa_tier f = Tier_Ephemeral) [fact e]) as Hone
    by (rewrite <-Hf; by repeat constructor).
  apply (follows_ephemeral s _ m); [done|done| | | | |].
  - unfold store_inner. rewrite put_tier_ledger, (proj2 (Htick "" Tier_Ephemeral)). apply (fo_ledger _ _ Hfo).
  - intros role t Ht'. by rewrite Hg, decide_False, app_nil_r by naive_solver.
  - intros role. rewrite Hg. apply Forall_app. split; [apply (fo_ephemeral _ _ Hfo)|]. case_decide; [|done].
    constructor; [by apply Hr|done].
  - intros role. rewrite Hg, fmap_app, facts_in_app, (ephemeral_facts s m role Hfo). f_equal. case_decide as Hd.
    + destruct Hd as [-> _]. rewrite facts_in_all by done. cbn. by rewrite Hf.
    + by rewrite (facts_in_other [fact e] (e_agent_id x) Tier_Ephemeral).
  - intros role t Ht'. rewrite facts_in_app, (facts_in_other [fact e] (e_agent_id x) Tier_Ephemeral), app_nil_r by naive_solver. done.
Qed.

Lemma forget_follows s m a :
  follows s m -> follows (List.filter (fun f => negb (of_tier a Tier_Ephemeral f)) s) (evict_ephemeral m a).2.
Proof.
  intros Hfo. cbn [evict_ephemeral snd].
  assert (forall role t, get_tier (set_tier_map Tier_Ephemeral (delete a (lm_ephemeral m)) m) role t =
    if decide (role = a /\ t = Tier_Ephemeral) then [] else get_tier m role t) as Hg.
  { intros role t. unfold get_tier. destruct t; cbn; [|by rewrite decide_False by naive_solver..].
    destruct (decide (role = a)) as [-> |Hne]; [by rewrite lookup_delete_eq, decide_True|].
    by rewrite lookup_delete_ne, decide_False by naive_solver. }
  assert (forall role t, ~ (role = a /\ t = Tier_Ephemeral) ->
    facts_in (List.filter (fun f => negb (of_tier a Tier_Ephemeral f)) s) role t = facts_in s role t) as Hkeep.
  { intros role t Hne. unfold facts_in. rewrite lfilter_swap. apply lfilter_all. intros f [_ [<- <-]%of_tier_true]%elem_of_lfilter.
    apply negb_true_iff, not_true_iff_false. rewrite of_tier_true. naive_solver. }
  apply (follows_ephemeral s _ m); [done|by apply drop_ephemeral_coherent, (fo_coherent _ _ Hfo)|apply (fo_ledger _ _ Hfo)| | | |].
  - intros role t Ht. by rewrite Hg, decide_False by naive_solver.
  - intros role. rewrite Hg. case_decide; [done|apply (fo_ephemeral _ _ Hfo)].
  - intros role. rewrite Hg. case_decide as Hd; [|rewrite Hkeep by done; by apply ephemeral_facts].
    destruct Hd as [-> _]. symmetry. apply lfilter_none. intros f [_ Hf]%elem_of_lfilter. by apply negb_true_iff in Hf.
  - intros role t Ht. apply Hkeep. naive_solver.
Qed.

Lemma durable_part_facts s role t : t <> Tier_Ephemeral -> facts_in (durable_part s) role t = facts_in s role t.
Proof.
  intros Ht. unfold facts_in, durable_part. rewrite lfilter_swap. apply lfilter_all.
  intros f [_ [_ <-]%of_tier_true]%elem_of_lfilter. by apply negb_true_iff, bool_decide_eq_false.
Qed.
Lemma durable_part_ephemeral s role : facts_in (durable_part s) role Tier_Ephemeral = [].
Proof.
  apply lfilter_none. intros f [_ Hf]%elem_of_lfilter.
  apply negb_true_iff in Hf. breflect. apply not_true_iff_false. rewrite of_tier_true. naive_solver.
Qed.

(** Restoring the tiers from a ledger with the same records. *)
Lemma restart_follows s m l l1 :
  follows s m -> lm_ledger m = Some l -> lg_keeps l l1 ->
  exists m', restore_memories l1 (set_ledger layered_new l1) = (Ok tt, m') /\ lm_ledger m' = Some l1 /\
    follows (durable_part s) m'.
Proof.
  intros Hfo Hl [Hok1 Hkeep]. destruct (fo_coherent _ _ Hfo l Hl) as [_ Hc].
  destruct (restore_memories_spec l1 Hok1) as (m' & Hm' & Hco' & Hl'). exists m'. split_and!; [done..|].
  assert (forall role, get_tier m' role Tier_Ephemeral = []) as He by (intros role; by apply (restore_memories_ephemeral l1)).
  destruct (Hco' l1 Hl') as [_ Hc'].
  apply (follows_ephemeral s _ m); [done|done|done| | | |].
  - intros role t Ht. by rewrite Hc, Hc', Hkeep.
  - intros role. by rewrite He.
  - intros role. by rewrite He, durable_part_ephemeral.
  - intros role t Ht. by apply durable_part_facts.
Qed.

(** Tracking changes counters and times only. *)
Lemma tracked_tier now m a role t :
  get_tier (recall_with_tracking now m a).2 role t =
  if decide (role = a) then on_memory_access now <$> get_tier m role t else get_tier m role t.
Proof.
  assert (forall x t0, get_tier (map_tier (on_memory_access now) a t0 x) role t =
    if decide (role = a /\ t = t0) then on_memory_access now <$> get_tier x role t else get_tier x role t) as Hmap.
  { intros x t0. unfold map_tier. destruct (tier_map x t0 !! a) as [es|] eqn:He.
    - rewrite get_tier_put. case_decide as Hd; [|done]. destruct Hd as [-> ->]. unfold get_tier. by rewrite He.
    - case_decide as Hd; [|done]. destruct Hd as [-> ->]. unfold get_tier. by rewrite He. }
  cbn [recall_with_tracking snd]. unfold ALL_TIERS. cbn [foldl]. rewrite !Hmap.
  destruct (decide (role = a)) as [-> |Hne]; [|by rewrite !decide_False by naive_solver].
  destruct t; repeat case_decide; naive_solver.
Qed.

Lemma tracked_follows s m a now : follows s m -> follows s (recall_with_tracking now m a).2.
Proof.
  intros Hfo. assert (forall es, Forall rootlike es -> Forall rootlike (on_memory_access now <$> es)) as Hroot.
  { intros es Hes. apply Forall_fmap. eapply Forall_impl; [exact Hes|]. intros e He. exact He. }
  assert (forall es, fact <$> (on_memory_access now <$> es) = fact <$> es) as Hfact
    by (intros es; by rewrite <-list_fmap_compose).
  assert (lm_ledger (recall_with_tracking now m a).2 = lm_ledger m) as Hl.
  { cbn [recall_with_tracking snd]. unfold ALL_TIERS. cbn [foldl]. unfold map_tier. by repeat case_match; rewrite ?put_tier_ledger. }
  apply (follows_ephemeral s s m); [done| |by rewrite Hl; apply (fo_ledger _ _ Hfo)| | | |done].
  - apply recall_coherent, (fo_coherent _ _ Hfo).
  - intros role t Ht. rewrite tracked_tier. case_decide; [|done]. rewrite <-list_fmap_compose. apply list_fmap_ext.
    intros i e Hi. destruct (fo_ledger _ _ Hfo) as [l Hlm].
    destruct (coherent_agent m l role t e (fo_coherent _ _ Hfo) Hlm Ht) as [_ (r & _ & Hr)]; [by eapply list_elem_of_lookup_2|].
    apply on_access_durable. exact (f_equal e_original_ttl_ms Hr).
  - intros role. rewrite tracked_tier. case_decide; [apply Hroot|]; apply (fo_ephemeral _ _ Hfo).
  - intros role. rewrite tracked_tier. case_decide; rewrite ?Hfact; by apply ephemeral_facts.
Qed.

(** *** The calls of the kernel *)

Lemma emit_memory plan event k : km_memory (memory_emit event_to_string plan event k) = km_memory k.
Proof. unfold memory_emit. by destruct (emit _ _ _ _ _). Qed.

Lemma announce_memory env a i stored k : km_memory (announce_stored event_to_string env a i stored k) = km_memory k.
Proof. revert i k. induction stored as [|e stored IH]; intros i k; [done|]. cbn [announce_stored]. by rewrite IH; cbn; rewrite emit_memory. Qed.

Lemma kernel_entry_root now id a ns t c imp tags ty : rootlike (kernel_entry now id a ns t c imp tags ty).
Proof. done. Qed.

Lemma batch_facts env a ns items :
  fact <$> batch_entries env a ns items =
  zip_with (fun id item => mkFact a ns id Tier_LongTerm (Text item.1.1) item.1.2 Type_Untyped)
    (e_id <$> batch_entries env a ns items) items.
Proof.
  unfold batch_entries. generalize (me_ids env). revert items.
  induction items as [|[[text tags] imp] items IH]; intros ids; [done|]. cbn. f_equal. apply (IH (ids ∘ S)).
Qed.

Lemma batch_shape env a ns items :
  Forall rootlike (batch_entries env a ns items) /\
  Forall (fun f => fa_agent f = a /\ fa_tier f = Tier_LongTerm) (fact <$> batch_entries env a ns items).
Proof.
  unfold batch_entries. generalize (me_ids env). induction items as [|item items IH]; intros ids; [done|].
  cbn. destruct (IH (ids ∘ S)) as [Hr Hf]. split; by constructor.
Qed.

Lemma created_call s i k e x :
  follows s (km_memory k) -> rootlike e -> x = create_durable i (km_memory k) e (agent_memory_quota k (e_agent_id e)) ->
  follows (match x.1 with Ok _ => s ++ [fact e] | Err _ => s end) x.2 /\ forall e', x.1 = Ok e' -> e_id e' = e_id e.
Proof.
  intros Hfo Hroot ->. eapply created_follows; [done..| |].
  - apply create_coherent, (fo_coherent _ _ Hfo).
  - apply create_created, (fo_ledger _ _ Hfo).
Qed.

(** The facts now, after an answer. *)
Definition facts_after (c : MemoryCall) (answer : Answer) s : list Fact :=
  match answer with Acknowledged ids => acknowledged c ids s | _ => s end.
Lemma facts_after_refused c (b : bool) s : facts_after c (if b then InDoubt else Refused) s = s.
Proof. by destruct b. Qed.

Ltac refused := cbn; rewrite ?facts_after_refused; done.

Lemma call_follows env c s k :
  c <> Reopen -> follows s (km_memory k) ->
  follows (facts_after c (call_run env c k).1 s) (km_memory (call_run env c k).2).
Proof.
  intros Hc Hfo. destruct c; cbn [call_run]; [..|done].
  - unfold remember, answered. destruct (allow_memory _ _ _ _ _); [|refused].
    set (e := kernel_entry _ _ _ _ _ _ _ _ _).
    pose proof (store_follows s (km_memory k) e (agent_memory_quota k agent) Hfo ltac:(done)) as Hs.
    destruct (store_checked _ _ _) as [[[]|] m]; [done|refused].
  - unfold remember_working, remember_working_with_request_id, answered. destruct (allow_memory _ _ _ _ _); [|refused].
    set (e := kernel_entry _ _ _ _ _ _ _ _ _).
    destruct (created_call s (me_ledger env) k e _ Hfo ltac:(done) eq_refl) as [Hs Hid]. revert Hs Hid.
    change (create_durable (me_ledger env) (km_memory k) e (agent_memory_quota k (e_agent_id e)))
      with (create_working_durable (me_ledger env) (km_memory k) e (agent_memory_quota k agent)).
    destruct (create_working_durable _ _ _ _) as [[e'|] m]; [|intros; refused]. cbn. intros Hs Hid. by rewrite emit_memory, (Hid e').
  - unfold remember_long_term, remember_long_term_private, answered. destruct (allow_memory _ _ _ _ _); [|refused].
    set (e := kernel_entry _ _ _ _ _ _ _ _ _).
    destruct (created_call s (me_ledger env) k e _ Hfo ltac:(done) eq_refl) as [Hs _]. revert Hs.
    change (e_agent_id e) with agent. destruct (create_durable _ _ _ _) as [[e'|] m]; [|refused]. cbn. by rewrite emit_memory.
  - unfold remember_long_term_batch, answered. destruct items as [|item items]; [by cbn; rewrite app_nil_r|].
    destruct (allow_memory _ _ _ _ _); [|refused]. cbv zeta. destruct (batch_shape env agent ns (item :: items)) as [Hr Hf].
    pose proof (batch_follows s (me_ledger env) (km_memory k) _ (agent_memory_quota k agent) _ _ Hfo Hr Hf) as Hs.
    rewrite batch_facts in Hs. destruct (create_batch_durable _ _ _ _) as [[es|] m]; [|refused].
    cbn [fst snd facts_after acknowledged id]. by rewrite announce_memory.
  - unfold remember_procedural, answered. destruct (allow_memory _ _ _ _ _); [|refused].
    set (e := kernel_entry _ _ _ _ _ _ _ _ _).
    destruct (created_call s (me_ledger env) k e _ Hfo ltac:(done) eq_refl) as [Hs _]. revert Hs.
    change (e_agent_id e) with agent. destruct (create_durable _ _ _ _) as [[e'|] m]; [|refused]. cbn. by rewrite emit_memory.
  - by apply forget_follows.
  - unfold recall_relevant, layered_recall_relevant. pose proof (tracked_follows s _ agent (me_now env) Hfo) as Hs.
    by destruct (recall_with_tracking _ _ _) as [all m].
  - unfold memory_update, memory_update_with_request_id, answered.
    pose proof (update_follows s (me_ledger env) (me_now env) (me_ids env 0) _ role ns entry_id content Hfo) as Hs.
    destruct (update_working_durable _ _ _ _ _ _ _ _) as [[e|] m]; [|refused]. cbn. destruct Hs as [-> Hs]. done.
  - unfold kernel_memory_delete, memory_delete_with_request_id, answered.
    pose proof (delete_follows s (me_ledger env) (me_now env) (me_ids env 0) _ role ns entry_id Hfo) as Hs.
    destruct (delete_working_durable _ _ _ _ _ _ _) as [[e|] m]; [done|refused].
Qed.

(** The identifiers of an acknowledgement are those the call has drawn. *)
Lemma batch_ids env a ns items : e_id <$> batch_entries env a ns items = imap (fun i _ => me_ids env i) items.
Proof.
  unfold batch_entries. generalize (me_ids env). induction items as [|item items IH]; intros ids; [done|].
  cbn. f_equal. apply (IH (ids ∘ S)).
Qed.

Lemma acknowledged_drawn env c s k ids :
  follows s (km_memory k) -> (call_run env c k).1 = Acknowledged ids -> acknowledged c ids s = acknowledged c (drawn env c) s.
Proof.
  intros Hfo. destruct c; cbn [call_run drawn]; try done.
  - unfold remember, answered. destruct (allow_memory _ _ _ _ _); [|done].
    destruct (store_checked _ _ _) as [[[]|] m]; [|done]. by intros [= <-].
  - unfold remember_working, remember_working_with_request_id, answered. destruct (allow_memory _ _ _ _ _); [|done].
    set (e := kernel_entry _ _ _ _ _ _ _ _ _).
    destruct (created_call s (me_ledger env) k e _ Hfo ltac:(done) eq_refl) as [_ Hid]. revert Hid.
    change (create_durable (me_ledger env) (km_memory k) e (agent_memory_quota k (e_agent_id e)))
      with (create_working_durable (me_ledger env) (km_memory k) e (agent_memory_quota k agent)).
    destruct (create_working_durable _ _ _ _) as [[e'|x] m]; [|intros _; cbn; by destruct (doubtful x)].
    intros Hid [= <-]. by rewrite (Hid e').
  - unfold remember_long_term, remember_long_term_private, answered. destruct (allow_memory _ _ _ _ _); [|done].
    destruct (create_durable _ _ _ _) as [[e'|x] m]; [by intros [= <-]|cbn; by destruct (doubtful x)].
  - unfold remember_long_term_batch, answered. destruct items as [|item items]; [by intros [= <-]|].
    destruct (allow_memory _ _ _ _ _); [|done]. cbv zeta.
    destruct (create_batch_durable _ _ _ _) as [[es|x] m]; [|cbn -[batch_entries]; by destruct (doubtful x)].
    intros Hids. assert (ids = e_id <$> batch_entries env agent ns (item :: items)) as -> by (by injection Hids). by rewrite batch_ids.
  - unfold remember_procedural, answered. destruct (allow_memory _ _ _ _ _); [|done].
    destruct (create_durable _ _ _ _) as [[e'|x] m]; [by intros [= <-]|cbn; by destruct (doubtful x)].
  - unfold memory_update, memory_update_with_request_id, answered.
    pose proof (update_follows s (me_ledger env) (me_now env) (me_ids env 0) _ role ns entry_id content Hfo) as Hs.
    destruct (update_working_durable _ _ _ _ _ _ _ _) as [[e|x] m]; [|cbn; by destruct (doubtful x)].
    destruct Hs as [Hid _]. intros [= <-]. cbn. by rewrite Hid.
Qed.

(** *** What a call asks of the ledger *)

Definition set_input (i : LedgerInput) (env : MemoryEnv) : MemoryEnv := mkMemoryEnv i (me_now env) (me_ids env) (me_events env).

(** The answer of a call, given that of its commit. *)
Definition tells (a : Attempt) (o : result LedgerError unit) (answer : Answer) : Prop :=
  match a, o with
  | No_commit, _ => answer <> InDoubt
  | _, Ok _ => exists ids, answer = Acknowledged ids
  | _, Err CommitIndeterminate => answer = InDoubt
  | _, Err _ => answer = Refused
  end.

Definition call_asks env c k l (a : Attempt) : Prop :=
  forall i, let x := call_run (set_input i env) c k in
    lm_ledger (km_memory x.2) = Some (attempt_run i l a).2 /\ tells a (attempt_run i l a).1 x.1.

Lemma call_asks_nothing env c k l :
  lm_ledger (km_memory k) = Some l ->
  (forall i, let x := call_run (set_input i env) c k in
     lm_ledger (km_memory x.2) = lm_ledger (km_memory k) /\ x.1 <> InDoubt) -> call_asks env c k l No_commit.
Proof. intros Hl Hx i. destruct (Hx i) as [Hm Ha]. split; [cbn; congruence|done]. Qed.

Lemma call_asks_op {A} env c k l a (op : LedgerInput -> result DurableMemoryMutationError A * LayeredMemory) :
  asks op l a ->
  (forall i, let x := call_run (set_input i env) c k in
     lm_ledger (km_memory x.2) = lm_ledger (op i).2 /\
     match (op i).1 with
     | Ok _ => exists ids, x.1 = Acknowledged ids
     | Err e => x.1 = if doubtful e then InDoubt else Refused
     end) -> call_asks env c k l a.
Proof.
  intros Ha Hx i. destruct (Ha i) as [Hl Hr], (Hx i) as [Hm Hans]. split; [congruence|]. revert Hr Hans.
  unfold reports, tells. destruct a; destruct (op i).1 as [y|e]; try destruct (attempt_run i l _).1 as [[]|e']; cbn; try done.
  all: try (intros Hne [ids ->]; done).
  all: try (intros Hne ->; destruct (doubtful e) eqn:Hd; [|done]; destruct e as [| | | | | | | |e]; try done; by destruct e).
  all: try (intros [= ->] ->; by destruct e').
Qed.

(** The revisions of a commit a call asks for. *)
Definition exact_call (c : MemoryCall) : Prop :=
  match c with RememberProcedural _ _ p => Forall (fun x => safe_int (step_number x)) (pe_steps p) | _ => True end.
Definition weight (c : MemoryCall) : Z :=
  match c with RememberBatch _ _ items => Z.of_nat (length items) | Forget _ | RecallRelevant _ _ _ | Reopen | Remember _ _ _ => 0 | _ => 1 end.

Definition drawn_records env c (rs : list CanonicalRevision) : Prop :=
  (Z.of_nat (length rs) <= weight c)%Z /\
  Forall (fun r => r_revision_id r ∈ drawn env c /\ content_exact (r_content r)) rs.

Lemma drawn_one env c e (rs : list CanonicalRevision) :
  length rs <= 1 -> (1 <= weight c)%Z -> e_id e ∈ drawn env c -> content_exact (e_content e) ->
  Forall (fun r => r_revision_id r = e_id e /\ r_content r = e_content e) rs -> drawn_records env c rs.
Proof.
  intros Hn Hw He Hc Hr. split; [lia|]. eapply Forall_impl; [exact Hr|]. intros r [-> ->]. done.
Qed.

(** What is known of the commit a call asks for. *)
Definition attempts env c k l : Prop :=
  exists a, call_asks env c k l a /\ grounded l a /\ drawn_records env c (attempt_records a) /\
    (weight c = 0%Z -> a = No_commit).

Lemma attempts_nothing env c k l :
  (0 <= weight c)%Z -> lm_ledger (km_memory k) = Some l ->
  (forall i, let x := call_run (set_input i env) c k in
     lm_ledger (km_memory x.2) = lm_ledger (km_memory k) /\ x.1 <> InDoubt) -> attempts env c k l.
Proof.
  intros Hw Hl Hx. exists No_commit. split_and!; [by apply call_asks_nothing|done|split; [done|constructor]|done].
Qed.

Lemma attempts_created env c k l e q :
  lm_ledger (km_memory k) = Some l -> weight c = 1%Z -> e_id e ∈ drawn env c -> content_exact (e_content e) ->
  (forall i, let op := create_durable i (km_memory k) e q in let x := call_run (set_input i env) c k in
     lm_ledger (km_memory x.2) = lm_ledger op.2 /\
     match op.1 with Ok _ => exists ids, x.1 = Acknowledged ids | Err e => x.1 = if doubtful e then InDoubt else Refused end) ->
  attempts env c k l.
Proof.
  intros Hl Hw Hid Hc Hx. destruct (create_asks (km_memory k) e q l Hl) as (a & Ha & Hg & Hn & Hr).
  exists a. split_and!; [by eapply call_asks_op|done|eapply drawn_one; [done|lia|done..]|lia].
Qed.

(** The guard does not look at the input of the ledger. *)
Lemma allow_input i env k agent ns action : allow_memory (set_input i env) k agent ns action = allow_memory env k agent ns action.
Proof. done. Qed.

Lemma store_ledger m e q : lm_ledger (store_checked m e q).2 = lm_ledger m.
Proof.
  unfold store_checked. destruct (_ && _); [done|]. unfold store, map_err.
  destruct (seal_root_identity e); [|done]. destruct (negb _); [done|]. cbn. unfold store_inner. rewrite put_tier_ledger.
  unfold tick. by destruct (_ <=? _)%Z.
Qed.

Lemma remember_attempts env k l agent ns text :
  lm_ledger (km_memory k) = Some l -> attempts env (Remember agent ns text) k l.
Proof.
  intros Hl. apply attempts_nothing; [done..|]. intros i. cbn [call_run]. unfold remember, answered. rewrite allow_input.
  destruct (allow_memory _ _ _ _ _); [|done]. cbn [set_input me_now me_ids].
  pose proof (store_ledger (km_memory k) (kernel_entry (me_now env) (me_ids env 0) agent ns Tier_Ephemeral (Text text) 50 [] Type_Untyped)
    (agent_memory_quota k agent)) as Hl'. by destruct (store_checked _ _ _) as [[[]|] m].
Qed.

Lemma working_attempts env k l agent ns text tags :
  lm_ledger (km_memory k) = Some l -> attempts env (RememberWorking agent ns text tags) k l.
Proof.
  intros Hl. destruct (allow_memory env k agent ns Action_Write) as [u|err] eqn:Hallow.
  - set (e := kernel_entry (me_now env) (me_ids env 0) agent ns Tier_Working (Text text) 50 tags Type_Untyped).
    apply (attempts_created _ _ _ _ e (agent_memory_quota k agent)); [done|done|by apply list_elem_of_singleton|done|].
    intros i. cbn [call_run]. unfold remember_working, remember_working_with_request_id, answered. rewrite allow_input, Hallow.
    cbn [set_input me_now me_ids me_ledger me_events]. fold e.
    change (create_durable i (km_memory k) e (agent_memory_quota k agent)) with (create_working_durable i (km_memory k) e (agent_memory_quota k agent)).
    destruct (create_working_durable _ _ _ _) as [[e'|x] m]; cbn; rewrite ?emit_memory; eauto.
  - apply attempts_nothing; [done..|]. intros i. cbn [call_run].
    unfold remember_working, remember_working_with_request_id, answered. by rewrite allow_input, Hallow.
Qed.

Lemma long_term_attempts env k l agent ns text tags imp :
  lm_ledger (km_memory k) = Some l -> attempts env (RememberLongTerm agent ns text tags imp) k l.
Proof.
  intros Hl. destruct (allow_memory env k agent ns Action_Write) as [u|err] eqn:Hallow.
  - set (e := kernel_entry (me_now env) (me_ids env 0) agent ns Tier_LongTerm (Text text) imp tags Type_Untyped).
    apply (attempts_created _ _ _ _ e (agent_memory_quota k agent)); [done|done|by apply list_elem_of_singleton|done|].
    intros i. cbn [call_run]. unfold remember_long_term, remember_long_term_private, answered. rewrite allow_input, Hallow.
    cbn [set_input me_now me_ids me_ledger me_events]. fold e.
    destruct (create_durable _ _ _ _) as [[e'|x] m]; cbn; rewrite ?emit_memory; eauto.
  - apply attempts_nothing; [done..|]. intros i. cbn [call_run].
    unfold remember_long_term, remember_long_term_private, answered. by rewrite allow_input, Hallow.
Qed.

Lemma procedural_attempts env k l agent ns p :
  exact_call (RememberProcedural agent ns p) -> lm_ledger (km_memory k) = Some l ->
  attempts env (RememberProcedural agent ns p) k l.
Proof.
  intros Hex Hl. destruct (allow_memory env k agent ns Action_Write) as [u|err] eqn:Hallow.
  - set (e := kernel_entry (me_now env) (me_ids env 0) agent ns Tier_Procedural
      (ProcedureContent (mkProcedure (pe_name p) (pe_description p) (pe_steps p) (pe_learned_from p))) 100 (pe_tags p) Type_Procedural).
    apply (attempts_created _ _ _ _ e (agent_memory_quota k agent)); [done|done|by apply list_elem_of_singleton|done|].
    intros i. cbn [call_run]. unfold remember_procedural, answered. rewrite allow_input, Hallow.
    cbn [set_input me_now me_ids me_ledger me_events]. cbv zeta. fold e.
    destruct (create_durable _ _ _ _) as [[e'|x] m]; cbn; rewrite ?emit_memory; eauto.
  - apply attempts_nothing; [done..|]. intros i. cbn [call_run]. unfold remember_procedural, answered. by rewrite allow_input, Hallow.
Qed.

Lemma batch_attempts env k l agent ns items :
  lm_ledger (km_memory k) = Some l -> attempts env (RememberBatch agent ns items) k l.
Proof.
  intros Hl. destruct items as [|item items]; [by apply attempts_nothing|].
  destruct (allow_memory env k agent ns Action_Write) as [u|err] eqn:Hallow.
  - set (es := batch_entries env agent ns (item :: items)).
    destruct (batch_asks (km_memory k) es (agent_memory_quota k agent) l Hl) as (a & Ha & Hg & Hn & Hr).
    exists a. split_and!; [|done| |cbn; lia].
    + eapply call_asks_op; [exact Ha|]. intros i. cbn [call_run]. unfold remember_long_term_batch, answered. rewrite allow_input, Hallow.
      cbv zeta. change (batch_entries (set_input i env) agent ns (item :: items)) with es. cbn [set_input me_ledger].
      destruct (create_batch_durable _ _ _ _) as [[e'|x] m]; cbn -[batch_entries]; rewrite ?announce_memory; eauto.
    + assert (length es = length (item :: items)) as Hlen by apply length_imap. split; [cbn; cbn in Hn, Hlen; lia|].
      eapply Forall_impl; [exact Hr|]. intros r (e & He & -> & ->). split.
      * cbn [drawn]. rewrite <-(batch_ids env agent ns). by apply list_elem_of_fmap_2.
      * apply elem_of_lookup_imap_1 in He as (j & it & -> & _). done.
  - apply attempts_nothing; [cbn; lia|done|]. intros i. cbn [call_run].
    unfold remember_long_term_batch, answered. by rewrite allow_input, Hallow.
Qed.

Lemma recall_attempts env k l agent ns budget :
  lm_ledger (km_memory k) = Some l -> attempts env (RecallRelevant agent ns budget) k l.
Proof.
  intros Hl. apply attempts_nothing; [done..|]. intros i. cbn [call_run snd fst]. unfold recall_relevant, layered_recall_relevant.
  cbn [recall_with_tracking]. split; [|done]. cbn. unfold map_tier. by repeat case_match; rewrite ?put_tier_ledger.
Qed.

Lemma update_attempts env k l role ns entry_id text :
  lm_ledger (km_memory k) = Some l -> attempts env (Update role ns entry_id text) k l.
Proof.
  intros Hl. destruct (update_asks (km_memory k) (me_now env) (me_ids env 0) role ns entry_id text l Hl) as (a & Ha & Hg & Hn & Hr).
  exists a. split_and!; [|done| |done].
  - eapply call_asks_op; [exact Ha|]. intros i. cbn [call_run]. unfold memory_update, memory_update_with_request_id, answered.
    cbn [set_input me_ledger me_now me_ids]. destruct (update_working_durable _ _ _ _ _ _ _ _) as [[e|x] m]; cbn; eauto.
  - split; [cbn; lia|]. eapply Forall_impl; [exact Hr|]. intros r [-> ->]. split; [by apply list_elem_of_singleton|done].
Qed.

Lemma delete_attempts env k l role ns entry_id :
  lm_ledger (km_memory k) = Some l ->
  (forall origin p, p ∈ get_tier (km_memory k) origin Tier_Working -> content_exact (e_content p)) ->
  attempts env (Delete role ns entry_id) k l.
Proof.
  intros Hl Hw. destruct (delete_asks (km_memory k) (me_now env) (me_ids env 0) role ns entry_id l Hl) as (a & Ha & Hg & Hn & Hr).
  exists a. split_and!; [|done| |done].
  - eapply call_asks_op; [exact Ha|]. intros i. cbn [call_run]. unfold kernel_memory_delete, memory_delete_with_request_id, answered.
    cbn [set_input me_ledger me_now me_ids]. destruct (delete_working_durable _ _ _ _ _ _ _) as [[e|x] m]; cbn; eauto.
  - split; [cbn; lia|]. eapply Forall_impl; [exact Hr|]. intros r (-> & origin & p & Hp & ->).
    split; [by apply list_elem_of_singleton|by eapply Hw].
Qed.

Lemma call_attempts env c k l :
  c <> Reopen -> exact_call c -> lm_ledger (km_memory k) = Some l ->
  (forall origin p, p ∈ get_tier (km_memory k) origin Tier_Working -> content_exact (e_content p)) ->
  attempts env c k l.
Proof.
  intros Hc Hex Hl Hw. destruct c; [by apply remember_attempts|by apply working_attempts|by apply long_term_attempts|
    by apply batch_attempts|by apply procedural_attempts|by apply attempts_nothing|by apply recall_attempts|
    by apply update_attempts|by apply delete_attempts|done].
Qed.

(** *** Ledgers whose revisions were drawn *)

Record ledger_known (used : list string) (bound : Z) l : Prop := {
  lk_ok : lg_ok l;
  lk_within : lg_within l bound;
  lk_records : forall role t r, r ∈ lg_records l role t -> r_revision_id r ∈ used /\ content_exact (r_content r);
}.

Lemma ledger_known_more used used' bound bound' l :
  ledger_known used bound l -> used ⊆ used' -> (bound <= bound')%Z -> ledger_known used' bound' l.
Proof.
  intros [Hok Hw Hr] Hu Hb. constructor; [done|by eapply rl_more|]. intros role t r Hin. destruct (Hr role t r Hin). split; [by apply Hu|done].
Qed.

Lemma ledger_known_keeps used bound bound' l l' :
  ledger_known used bound l -> lg_keeps l l' -> lg_within l' bound' -> ledger_known used bound' l'.
Proof. intros [_ _ Hr] [Hok Hk] Hw. constructor; [done|done|]. intros role t r. rewrite Hk. apply Hr. Qed.

Lemma attempt_keeps i l a e l' : lg_ok l -> attempt_run i l a = (Err e, l') -> lg_keeps l l'.
Proof.
  intros Hok. destruct a as [|role tier exp r|role tier rs]; cbn [attempt_run]; unfold as_unit; [done|..].
  - destruct (lg_commit_expected _ _ _ _ _ _) as [[c|x] l1] eqn:Hc; [done|]. cbn. intros [= -> ->]. by eapply lg_failed.
  - destruct (lg_commit_roots _ _ _ _ _) as [[c|x] l1] eqn:Hc; [done|]. cbn. intros [= -> ->]. by eapply lg_roots_failed.
Qed.

(** A commit appends what it was given. *)
Lemma attempt_appends i l a l' :
  lg_ok l -> grounded l a -> a <> No_commit -> attempt_run i l a = (Ok tt, l') ->
  exists origin t cs, lg_appends l l' origin t (attempt_records a) cs.
Proof.
  intros Hok Hg Hne. destruct a as [|role tier exp r|role tier rs]; [done|..]; cbn [attempt_run as_unit attempt_records].
  - destruct (lg_commit_expected _ _ _ _ _ _) as [[c|x] l1] eqn:Hc; [|done]. cbn. intros [= ->]. destruct exp as [|id].
    + eexists _, _, _. by eapply lg_root.
    + destruct Hg as [origin Ho]. eexists _, _, _. by eapply lg_revision.
  - destruct (lg_commit_roots _ _ _ _ _) as [[cs|x] l1] eqn:Hc; [|done]. cbn. intros [= ->]. eexists _, _, _. by eapply lg_roots.
Qed.

(** The records of the second ledger are those of the first, or drawn by the call. *)
Definition extends env c l l' : Prop :=
  forall role t r, r ∈ lg_records l' role t ->
    r ∈ lg_records l role t \/ (r_revision_id r ∈ drawn env c /\ content_exact (r_content r)).

Lemma keeps_extends env c l l' : lg_keeps l l' -> extends env c l l'.
Proof. intros [_ Hk] role t r. rewrite Hk. by left. Qed.

Lemma attempt_extends env c i l a l' :
  lg_ok l -> grounded l a -> a <> No_commit -> drawn_records env c (attempt_records a) ->
  attempt_run i l a = (Ok tt, l') -> lg_ok l' /\ extends env c l l'.
Proof.
  intros Hok Hg Hne [_ Hd] Ha. destruct (attempt_appends i l a l' Hok Hg Hne Ha) as (origin & t & cs & Happ).
  split; [apply (la_ok _ _ _ _ _ _ Happ)|]. destruct (la_records _ _ _ _ _ _ Happ) as (rs' & Hrec & Heq).
  intros role t' r. rewrite Heq, elem_of_app. intros [Hin|Hin]; [by left|right].
  case_decide; [|by apply not_elem_of_nil in Hin]. apply list_elem_of_lookup_1 in Hin as [j Hj].
  destruct (Forall3_lookup_r _ _ _ _ _ _ Hrec Hj) as (r0 & rc & Hr0 & _ & Hrr). rewrite Forall_forall in Hd.
  destruct (Hd r0 (list_elem_of_lookup_2 _ _ _ Hr0)) as [Hid Hc]. by rewrite (rec_id _ _ _ Hrr), (rec_content _ _ _ Hrr).
Qed.

Lemma extends_known env c used bound bound' l l' :
  ledger_known used bound l -> lg_ok l' -> extends env c l l' -> lg_within l' bound' ->
  ledger_known (used ++ drawn env c) bound' l'.
Proof.
  intros [_ _ Hr] Hok He Hw. constructor; [done|done|]. intros role t r [Hin|[Hid Hc]]%He.
  - destruct (Hr role t r Hin). split; [set_solver|done].
  - split; [set_solver|done].
Qed.

Lemma as_unit_leaves {T} (run : LedgerInput -> result LedgerError T * Ledger) l bound n x l' :
  commit_leaves run l bound n x l' -> commit_leaves (fun i => as_unit (run i)) l bound n (as_unit (x, l')).1 l'.
Proof.
  destruct x as [c|e]; [done|]. destruct e; try done. intros (Hp & Hw & i & c & l1 & Hr & Hl). cbn. split_and!; [done..|].
  exists i, tt, l1. by rewrite Hr.
Qed.

Lemma attempt_leaves env c i l bound a o l' :
  a <> No_commit -> lg_loads l l -> lg_poisoned l = false -> lg_within l bound -> lg_input_exact i ->
  drawn_records env c (attempt_records a) -> weight c <> 0%Z -> (bound + weight c < MAX_JCS_SAFE_INTEGER)%Z ->
  attempt_run i l a = (o, l') ->
  exists n, (n <= weight c)%Z /\ commit_leaves (fun i => attempt_run i l a) l bound n o l'.
Proof.
  intros Hne Hl Hp Hw Hi [Hn Hd] Hz Hb Ha.
  assert (Hd' : Forall (fun r => content_exact (r_content r)) (attempt_records a)) by (eapply Forall_impl; [exact Hd|]; by intros r [_ ?]).
  destruct a as [|role tier exp r|role tier rs]; [done|..]; cbn [attempt_records attempt_run] in *.
  - exists 1%Z. cbn in Hn. split; [lia|]. destruct (lg_commit_expected i l role tier exp r) as [x l1] eqn:Hc.
    unfold as_unit in Ha. cbn in Ha. injection Ha as <- <-. apply (as_unit_leaves (fun i => lg_commit_expected i l role tier exp r)).
    apply Forall_cons in Hd' as [Hd' _]. eapply rl_commit; [done..|lia|done].
  - exists (Z.of_nat (length rs)). split; [done|]. destruct (lg_commit_roots i l role tier rs) as [x l1] eqn:Hc.
    unfold as_unit in Ha. cbn in Ha. injection Ha as <- <-. apply (as_unit_leaves (fun i => lg_commit_roots i l role tier rs)).
    eapply rl_roots; [done..|lia|done].
Qed.

Lemma attempt_refused i l bound a o l' :
  a <> No_commit -> lg_poisoned l = true -> lg_within l bound -> attempt_run i l a = (o, l') -> commit_refused l bound o l'.
Proof.
  intros Hne Hp Hw Ha. destruct a as [|role tier exp r|role tier rs]; [done|..]; cbn [attempt_run] in Ha; unfold as_unit in Ha.
  - destruct (lg_commit_expected i l role tier exp r) as [x l1] eqn:Hc. cbn in Ha. injection Ha as <- <-.
    destruct (rl_commit_refused _ _ _ _ _ _ _ _ _ Hp Hw Hc) as ((e & -> & He) & Hrest). split; [by exists e|done].
  - destruct (lg_commit_roots i l role tier rs) as [x l1] eqn:Hc. cbn in Ha. injection Ha as <- <-.
    destruct (rl_roots_refused _ _ _ _ _ _ _ _ Hp Hw Hc) as ((e & -> & He) & Hrest). split; [by exists e|done].
Qed.

(** ** Runs *)

(** The directory of the ledger: it loads to the ledger in memory, or, in
    doubt, to one whose facts are those a restart finds. *)
Definition on_disk (used : list string) (bound : Z) (doubt : option (list Fact)) l : Prop :=
  match doubt with
  | None => lg_poisoned l = false /\ lg_loads l l
  | Some d => lg_poisoned l = true /\ exists s0 m0 l0,
      follows s0 m0 /\ lm_ledger m0 = Some l0 /\ lg_loads l l0 /\ ledger_known used bound l0 /\ d = durable_part s0
  end.

Record tracked (used : list string) (bound : Z) (x : Known) m l : Prop := {
  tr_follows : follows (kw_facts x) m;
  tr_ledger : lm_ledger m = Some l;
  tr_known : ledger_known used bound l;
  tr_ephemeral : forall f, f ∈ kw_facts x -> fa_tier f = Tier_Ephemeral ->
    fa_id f ∈ used /\ forall role t r, r ∈ lg_records l role t -> r_revision_id r <> fa_id f;
  tr_disk : on_disk used bound (kw_doubt x) l;
}.

Lemma on_disk_more used used' bound bound' doubt l :
  used ⊆ used' -> (bound <= bound')%Z -> on_disk used bound doubt l -> on_disk used' bound' doubt l.
Proof.
  intros Hu Hb. destruct doubt as [d|]; [|done]. intros (Hp & s0 & m0 & l0 & Hf & Hl & Hlo & Hk & ->). split; [done|].
  exists s0, m0, l0. split_and!; [done..|by eapply ledger_known_more|done].
Qed.

(** Only the first kind of call adds an ephemeral fact. *)
Lemma acknowledged_ephemeral env c s f :
  f ∈ acknowledged c (drawn env c) s -> fa_tier f = Tier_Ephemeral ->
  f ∈ s \/ (fa_id f ∈ drawn env c /\ weight c = 0%Z).
Proof.
  intros Hf Ht. destruct c; cbn [acknowledged drawn weight] in *; try (by left).
  all: try (apply elem_of_app in Hf as [Hf|Hf]; [by left|apply list_elem_of_singleton in Hf as ->; cbn in Ht |- *; first [done|right; split; [by left|done]]]).
  - apply elem_of_app in Hf as [Hf|Hf]; [by left|]. apply elem_of_lookup_zip_with in Hf as (j & id & it & -> & _). done.
  - apply elem_of_lfilter in Hf as [Hf _]. by left.
  - apply elem_of_app in Hf as [Hf|Hf]; [by apply elem_of_lfilter in Hf as [Hf _]; left|].
    apply list_elem_of_fmap in Hf as (g & -> & [_ Hg]%elem_of_lfilter). unfold is_memory in Hg. apply andb_true_iff in Hg as [Hg _].
    breflect. cbn in Ht. congruence.
  - apply elem_of_lfilter in Hf as [Hf _]. by left.
Qed.

Lemma working_exact used bound x m l origin p :
  tracked used bound x m l -> p ∈ get_tier m origin Tier_Working -> content_exact (e_content p).
Proof.
  intros Ht Hp. destruct (coherent_agent m l origin Tier_Working p (fo_coherent _ _ (tr_follows _ _ _ _ _ Ht)) (tr_ledger _ _ _ _ _ Ht) ltac:(done) Hp)
    as [_ (r & Hr & Hd)]. pose proof (f_equal e_content Hd) as Hc. cbn in Hc. rewrite Hc. by apply (lk_records _ _ _ (tr_known _ _ _ _ _ Ht)) in Hr as [_ ?].
Qed.

Lemma tracked_ephemeral_after env c used bound x k l l' :
  tracked used bound x (km_memory k) l -> (forall id, id ∈ drawn env c -> id ∉ used) ->
  extends env c l l' -> (weight c = 0%Z -> l' = l) ->
  forall f, f ∈ facts_after c (call_run env c k).1 (kw_facts x) -> fa_tier f = Tier_Ephemeral ->
    fa_id f ∈ used ++ drawn env c /\ forall role t r, r ∈ lg_records l' role t -> r_revision_id r <> fa_id f.
Proof.
  intros Ht Hfresh Hext Hz f Hf Heph.
  assert (f ∈ kw_facts x \/ (fa_id f ∈ drawn env c /\ weight c = 0%Z)) as [Hold|[Hid Hw]].
  { unfold facts_after in Hf. destruct (call_run env c k).1 as [ids| |] eqn:Hans; [|by left..].
    rewrite (acknowledged_drawn env c _ k ids) in Hf by (done || apply (tr_follows _ _ _ _ _ Ht)). by apply acknowledged_ephemeral. }
  - destruct (tr_ephemeral _ _ _ _ _ Ht f Hold Heph) as [Hu Hn]. split; [set_solver|].
    intros role t r [Hin|[Hid _]]%Hext; [by eapply Hn|]. intros Heq. apply (Hfresh (fa_id f)); [by rewrite <-Heq|done].
  - split; [set_solver|]. rewrite (Hz Hw). intros role t r Hin Heq. apply (Hfresh (fa_id f)); [done|]. rewrite <-Heq.
    by apply (lk_records _ _ _ (tr_known _ _ _ _ _ Ht)) in Hin as [? _].
Qed.

Lemma spec_step_facts env c answer x :
  c <> Reopen -> answer <> InDoubt -> spec_step env c answer x = mkKnown (facts_after c answer (kw_facts x)) (kw_doubt x).
Proof. intros Hc Ha. destruct answer; [by destruct c|by destruct x|done]. Qed.

Lemma set_input_self env : set_input (me_ledger env) env = env.
Proof. by destruct env. Qed.

Lemma weight_nonneg c : (0 <= weight c)%Z.
Proof. destruct c; cbn; lia. Qed.

Section step.
Variables (env : MemoryEnv) (c : MemoryCall) (used : list string) (bound : Z) (x : Known) (k : MemoryKernel) (l : Ledger).
Hypothesis Htracked : tracked used bound x (km_memory k) l.
Hypothesis Hcall : c <> Reopen.
Hypothesis Hfresh : forall id, id ∈ drawn env c -> id ∉ used.
Hypothesis Hbound : (bound + weight c < MAX_JCS_SAFE_INTEGER)%Z.
Let answer := (call_run env c k).1.
Let k' := (call_run env c k).2.

(** The facts are those of the answer, and the ledger is [l']. *)
Lemma tracked_step l' doubt :
  lm_ledger (km_memory k') = Some l' -> lg_ok l' -> lg_within l' (bound + weight c) -> extends env c l l' -> (weight c = 0%Z -> l' = l) ->
  on_disk (used ++ drawn env c) (bound + weight c) doubt l' ->
  tracked (used ++ drawn env c) (bound + weight c) (mkKnown (facts_after c answer (kw_facts x)) doubt) (km_memory k') l'.
Proof.
  intros Hl Hok Hw Hext Hz Hd. constructor; [|done| | |done].
  - apply call_follows; [done|apply (tr_follows _ _ _ _ _ Htracked)].
  - eapply extends_known; [apply (tr_known _ _ _ _ _ Htracked)|done..].
  - by eapply tracked_ephemeral_after.
Qed.

(** A commit in doubt: a restart finds what the same call leaves when it succeeds. *)
Lemma doubt_on_disk a i l1 l' :
  call_asks env c k l a -> grounded l a -> a <> No_commit -> drawn_records env c (attempt_records a) ->
  attempt_run i l a = (Ok tt, l1) -> lg_loads l' l1 -> lg_poisoned l' = true -> lg_within l1 (bound + weight c) ->
  on_disk (used ++ drawn env c) (bound + weight c) (Some (durable_part (acknowledged c (drawn env c) (kw_facts x)))) l'.
Proof.
  intros Ha Hg Hne Hd Hrun Hl Hp Hw. split; [done|]. destruct (Ha i) as [Hm Ht]. rewrite Hrun in Hm, Ht. cbn [fst snd] in Hm, Ht.
  assert (exists ids, (call_run (set_input i env) c k).1 = Acknowledged ids) as [ids Hans] by (by destruct a).
  pose proof (tr_follows _ _ _ _ _ Htracked) as Hfo.
  pose proof (call_follows (set_input i env) c _ k Hcall Hfo) as Hfo'. rewrite Hans in Hfo'. cbn [facts_after] in Hfo'.
  rewrite (acknowledged_drawn _ _ _ _ _ Hfo Hans) in Hfo'.
  assert (drawn (set_input i env) c = drawn env c) as Hdr by (by destruct c). rewrite Hdr in Hfo'.
  pose proof (tr_known _ _ _ _ _ Htracked) as Hk.
  destruct (attempt_extends env c i l a l1 (lk_ok _ _ _ Hk) Hg Hne Hd Hrun) as [Hok1 Hext].
  eexists _, _, l1. split_and!; [exact Hfo'|done|done|by eapply extends_known|done].
Qed.

(** A call whose commit failed: the facts are as they were. *)
Lemma failed_tracked a e l' doubt :
  a <> No_commit -> (weight c = 0%Z -> a = No_commit) -> attempt_run (me_ledger env) l a = (Err e, l') ->
  lm_ledger (km_memory k') = Some l' -> facts_after c answer (kw_facts x) = kw_facts x -> lg_within l' bound ->
  on_disk (used ++ drawn env c) (bound + weight c) doubt l' ->
  tracked (used ++ drawn env c) (bound + weight c) (mkKnown (kw_facts x) doubt) (km_memory k') l'.
Proof.
  intros Hne Hz Hrun Hl' Hf Hw Hd. pose proof (weight_nonneg c) as Hw0.
  pose proof (attempt_keeps _ _ _ _ _ (lk_ok _ _ _ (tr_known _ _ _ _ _ Htracked)) Hrun) as Hkeep. rewrite <-Hf at 1.
  apply tracked_step; [done|by destruct Hkeep|eapply rl_more; [done|lia]|by apply keeps_extends|tauto|done].
Qed.

Lemma committed_tracked a o l' :
  lg_input_exact (me_ledger env) -> a <> No_commit ->
  call_asks env c k l a -> grounded l a -> drawn_records env c (attempt_records a) -> (weight c = 0%Z -> a = No_commit) ->
  attempt_run (me_ledger env) l a = (o, l') -> lm_ledger (km_memory k') = Some l' -> tells a o answer ->
  tracked (used ++ drawn env c) (bound + weight c) (spec_step env c answer x) (km_memory k') l'.
Proof.
  intros Hin Hne Ha Hg Hd Hz Hrun Hl' Htell. pose proof (tr_known _ _ _ _ _ Htracked) as Hk.
  pose proof (lk_ok _ _ _ Hk) as Hok. pose proof (lk_within _ _ _ Hk) as Hwl.
  assert (weight c <> 0%Z) as Hnz by tauto. pose proof (weight_nonneg c) as Hw0.
  pose proof (tr_disk _ _ _ _ _ Htracked) as Hdisk. destruct (kw_doubt x) as [d|] eqn:Hdoubt.
  - destruct (attempt_refused _ _ bound _ _ _ Hne (proj1 Hdisk) Hwl Hrun) as ((e & -> & He) & Hp & Hw & Hld).
    assert (answer = Refused) as Hans by (destruct a; [done|destruct e; done..]).
    rewrite Hans. cbn [spec_step]. replace x with (mkKnown (kw_facts x) (kw_doubt x)) by (by destruct x).
    eapply failed_tracked; [done..|by rewrite Hans|done|]. rewrite Hdoubt.
    destruct Hdisk as [_ (s0 & m0 & l0 & Hf0 & Hl0 & Hlo & Hk0 & ->)]. split; [done|]. exists s0, m0, l0.
    split_and!; [done|done|by apply Hld|eapply ledger_known_more; [done|set_solver|lia]|done].
  - destruct Hdisk as [Hp Hl]. destruct (attempt_leaves env c _ l bound a o l' Hne Hl Hp Hwl Hin Hd Hnz Hbound Hrun) as (n & Hn & Hleave).
    destruct o as [[]|e].
    + destruct Hleave as (Hp' & Hl2 & Hw'). assert (exists ids, answer = Acknowledged ids) as [ids Hans] by (by destruct a).
      rewrite spec_step_facts, Hdoubt by (done || by rewrite Hans).
      destruct (attempt_extends env c _ l a l' Hok Hg Hne Hd Hrun) as [Hok' Hext].
      apply tracked_step; [done|done|eapply rl_more; [done|lia]|done|tauto|done].
    + assert (e = CommitIndeterminate \/ e <> CommitIndeterminate) as [-> |He] by (by destruct e; (by left) || (by right)).
      * destruct Hleave as (Hp' & Hw' & i & [] & l1 & Hrun1 & Hlo & Hw1). assert (answer = InDoubt) as Hans by (by destruct a).
        rewrite Hans. cbn [spec_step]. eapply failed_tracked; [done..|by rewrite Hans|done|].
        eapply doubt_on_disk; [done..|]. eapply rl_more; [done|lia].
      * assert (answer = Refused) as Hans by (destruct a; [done|destruct e; done..]).
        assert (lg_poisoned l' = false /\ lg_loads l' l' /\ lg_within l' bound) as (Hp' & Hl2 & Hw') by (by destruct e).
        rewrite Hans. cbn [spec_step]. replace x with (mkKnown (kw_facts x) (kw_doubt x)) by (by destruct x).
        eapply failed_tracked; [done..|by rewrite Hans|done|]. by rewrite Hdoubt.
Qed.

Lemma call_tracked :
  exact_call c -> lg_input_exact (me_ledger env) ->
  exists l', tracked (used ++ drawn env c) (bound + weight c) (spec_step env c answer x) (km_memory k') l'.
Proof.
  intros Hex Hin. pose proof (weight_nonneg c) as Hw0. pose proof (tr_known _ _ _ _ _ Htracked) as Hk.
  destruct (call_attempts env c k l Hcall Hex (tr_ledger _ _ _ _ _ Htracked)) as (a & Ha & Hg & Hd & Hz);
    [intros origin p; by eapply working_exact|].
  destruct (Ha (me_ledger env)) as [Hl' Htell]. rewrite set_input_self in Hl', Htell. cbv zeta in Hl', Htell. fold answer in Htell. fold k' in Hl'.
  destruct (attempt_run (me_ledger env) l a) as [o l'] eqn:Hrun. cbn [fst snd] in Hl', Htell. exists l'.
  assert (a = No_commit \/ a <> No_commit) as [-> |Hne] by (destruct a; [by left|by right..]); [|by eapply committed_tracked].
  injection Hrun as <- <-. rewrite spec_step_facts by done.
  apply tracked_step; [done|apply (lk_ok _ _ _ Hk)|eapply rl_more; [apply (lk_within _ _ _ Hk)|lia]|by intros role t r; left|done|].
  eapply on_disk_more, (tr_disk _ _ _ _ _ Htracked); [set_solver|lia].
Qed.
End step.

(** *** Restarts *)

Lemma restarted_tracked used bound s m l l1 :
  follows s m -> lm_ledger m = Some l -> ledger_known used bound l ->
  lg_keeps l l1 -> lg_poisoned l1 = false -> lg_loads l1 l1 -> lg_within l1 bound ->
  exists m', restore_memories l1 (set_ledger layered_new l1) = (Ok tt, m') /\ tracked used bound (mkKnown (durable_part s) None) m' l1.
Proof.
  intros Hfo Hl Hk Hkeep Hp Hlo Hw. destruct (restart_follows s m l l1 Hfo Hl Hkeep) as (m' & Hm' & Hl' & Hfo').
  exists m'. split; [done|]. constructor; [done|done|by eapply ledger_known_keeps| |done].
  intros f Hf Heph. apply elem_of_lfilter in Hf as [_ Hf]. by rewrite Heph in Hf.
Qed.

Lemma durable_part_twice s : durable_part (durable_part s) = durable_part s.
Proof. apply lfilter_all. by intros f [_ Hf]%elem_of_lfilter. Qed.

Lemma reopen_tracked env used bound x k l :
  tracked used bound x (km_memory k) l ->
  (call_run env Reopen k).1 = Acknowledged [] /\
  exists l', tracked used bound (mkKnown (default (durable_part (kw_facts x)) (kw_doubt x)) None) (km_memory (call_run env Reopen k).2) l'.
Proof.
  intros [Hfo Hl Hk _ Hdisk]. cbn [call_run]. unfold reopen. rewrite Hl. destruct (kw_doubt x) as [d|]; cbn [default].
  - destruct Hdisk as [_ (s0 & m0 & l0 & Hf0 & Hl0 & Hlo & Hk0 & ->)].
    destruct (rl_reload (me_ledger env) l l0 bound Hlo (lk_ok _ _ _ Hk0) (lk_within _ _ _ Hk0)) as (l1 & Hr & Hkeep & Hp & Hlo1 & Hw1).
    destruct (restarted_tracked used bound s0 m0 l0 l1 Hf0 Hl0 Hk0 Hkeep Hp Hlo1 Hw1) as (m' & Hm' & Ht).
    rewrite Hr, Hm'. cbn [fst snd]. split; [done|]. by exists l1.
  - destruct Hdisk as [_ Hlo].
    destruct (rl_reload (me_ledger env) l l bound Hlo (lk_ok _ _ _ Hk) (lk_within _ _ _ Hk)) as (l1 & Hr & Hkeep & Hp & Hlo1 & Hw1).
    destruct (restarted_tracked used bound (kw_facts x) (km_memory k) l l1 Hfo Hl Hk Hkeep Hp Hlo1 Hw1) as (m' & Hm' & Ht).
    rewrite Hr, Hm'. cbn [fst snd]. split; [done|]. by exists l1.
Qed.

(** *** Whole runs *)

Definition call_exact (x : MemoryEnv * MemoryCall) : Prop := exact_call x.2 /\ lg_input_exact (me_ledger x.1).
Definition all_drawn (calls : list (MemoryEnv * MemoryCall)) : list string := concat ((fun x => drawn x.1 x.2) <$> calls).
Definition total_weight (calls : list (MemoryEnv * MemoryCall)) : Z := foldr (fun x n => (weight x.2 + n)%Z) 0%Z calls.

Lemma calls_tracked calls used bound x k l :
  tracked used bound x (km_memory k) l -> Forall call_exact calls -> NoDup (all_drawn calls) ->
  (forall id, id ∈ all_drawn calls -> id ∉ used) -> (bound + total_weight calls < MAX_JCS_SAFE_INTEGER)%Z ->
  exists used' bound' l', tracked used' bound' (calls_run calls k x).2 (km_memory (calls_run calls k x).1) l'.
Proof.
  revert used bound x k l. induction calls as [|[env c] calls IH]; intros used bound x k l Ht Hex Hnd Hfresh Hb; [by exists used, bound, l|].
  apply Forall_cons in Hex as [[Hc Hi] Hex]. unfold all_drawn in Hnd, Hfresh. cbn [fmap list_fmap concat fst snd] in Hnd, Hfresh.
  apply NoDup_app in Hnd as (_ & Hdis & Hnd). fold (all_drawn calls) in Hdis, Hnd, Hfresh. cbn [total_weight foldr fst snd] in Hb, Hc, Hi.
  fold (total_weight calls) in Hb. cbn [calls_run].
  assert (0 <= total_weight calls)%Z as Hn by (clear; induction calls as [|[e c] calls IH]; [done|]; cbn; fold (total_weight calls); pose proof (weight_nonneg c); lia).
  assert (c = Reopen \/ c <> Reopen) as [-> |Hne] by (destruct c; (by left) || (by right)).
  - destruct (reopen_tracked env used bound x k l Ht) as (Hans & l' & Ht'). destruct (call_run env Reopen k) as [answer k'].
    cbn [fst snd] in Hans, Ht'. subst answer. cbn [spec_step]. apply (IH used bound _ _ l'); [done|done|done|set_solver|cbn in Hb; lia].
  - destruct (call_tracked env c used bound x k l Ht Hne ltac:(set_solver) ltac:(lia) Hc Hi) as [l' Ht'].
    destruct (call_run env c k) as [answer k']. cbn [fst snd] in Ht'.
    apply (IH (used ++ drawn env c) (bound + weight c)%Z _ _ l'); [done|done|done|set_solver|lia].
Qed.

(** A kernel opened on an empty ledger. *)
Lemma opened_follows l m :
  lg_ok l -> (forall role t, lg_records l role t = []) ->
  restore_memories l (set_ledger layered_new l) = (Ok tt, m) -> follows [] m.
Proof.
  intros Hok Hempty Hm. destruct (restore_memories_spec l Hok) as (m' & Hm' & Hco & Hl).
  assert (m' = m) as -> by congruence. destruct (Hco l Hl) as [_ Hc].
  assert (forall role t, get_tier m role t = []) as Hg.
  { intros role t. destruct (decide (t = Tier_Ephemeral)) as [-> |Ht]; [by apply (restore_memories_ephemeral l)|].
    specialize (Hc role t Ht). rewrite Hempty in Hc. by apply fmap_nil_inv in Hc. }
  constructor; unfold tier_ids, tier_parents, get_active_tier; [done|done|..]; intros; rewrite ?Hg in *; [|constructor|set_solver|done|done].
  by match goal with Hi : _ ∈ _ |- _ => apply not_elem_of_nil in Hi end.
Qed.

(** *** Recalling *)

Lemma get_all_app m a : get_all m a =
  get_tier m a Tier_Ephemeral ++ get_tier m a Tier_Working ++ get_tier m a Tier_LongTerm ++ get_tier m a Tier_Procedural.
Proof. unfold get_all, ALL_TIERS. cbn. by rewrite app_nil_r. Qed.

Lemma elem_of_all m a e : e ∈ get_all m a <-> exists t, e ∈ get_tier m a t.
Proof.
  rewrite get_all_app, !elem_of_app. split; [naive_solver|]. intros [[] He]; tauto.
Qed.

(** The identifier of an ephemeral entry is that of no parent. *)
Lemma ephemeral_no_parent used bound x m l a t e :
  tracked used bound x m l -> t <> Tier_Ephemeral -> e ∈ get_tier m a Tier_Ephemeral -> e_id e ∉ tier_parents m a t.
Proof.
  intros Ht Htier He Hp. pose proof (tr_follows _ _ _ _ _ Ht) as Hfo. apply (fo_parents _ _ Hfo a t Htier) in Hp.
  apply list_elem_of_fmap in Hp as (y & Hy & Hin).
  destruct (coherent_agent m l a t y (fo_coherent _ _ Hfo) (tr_ledger _ _ _ _ _ Ht) Htier Hin) as [_ (r & Hr & Hd)].
  assert (fact e ∈ facts_in (kw_facts x) a Tier_Ephemeral) as Hf
    by (rewrite <-(ephemeral_facts _ m a Hfo); by apply list_elem_of_fmap_2).
  apply elem_of_lfilter in Hf as [Hf [_ Heph]%of_tier_true].
  destruct (tr_ephemeral _ _ _ _ _ Ht (fact e) Hf Heph) as [_ Hne]. apply (Hne a t r Hr). cbn. rewrite Hy.
  symmetry. exact (f_equal e_id Hd).
Qed.

(** Parents across the tiers of an agent are parents in their own tier. *)
Lemma active_across used bound x m l a t :
  tracked used bound x m l ->
  List.filter (fun e => negb (str_mem (e_id e) (omap e_parent_revision_id (get_all m a))) && negb (opt_is_some (e_deleted_at e))
                        && negb (opt_is_some (e_superseded_by e))) (get_tier m a t) = get_active_tier m a t.
Proof.
  intros Ht. pose proof (tr_follows _ _ _ _ _ Ht) as Hfo.
  unfold get_active_tier, active_revisions. apply filter_ext_in. intros e He. rewrite <-list_elem_of_In in He.
  do 3 f_equal. apply bool_decide_ext. split.
  - intros (y & Hy & Hp)%list_elem_of_omap. apply elem_of_all in Hy as [t' Hy].
    destruct (decide (t' = Tier_Ephemeral)) as [-> |Ht'].
    { pose proof (fo_ephemeral _ _ Hfo a) as Hr. rewrite Forall_forall in Hr. destruct (Hr y Hy) as [Hn _]. congruence. }
    assert (e_id e ∈ tier_parents m a t') as Hin by (apply list_elem_of_omap; eauto).
    destruct (decide (t = Tier_Ephemeral)) as [-> |Htier]; [by destruct (ephemeral_no_parent used bound x m l a t' e)|].
    apply (fo_parents _ _ Hfo a t' Ht') in Hin.
    destruct (fo_ids _ _ Hfo a a t t' (e_id e) Htier Ht') as [_ ->]; [by apply list_elem_of_fmap_2|done|].
    apply list_elem_of_omap; eauto.
  - intros (y & Hy & Hp)%list_elem_of_omap. apply list_elem_of_omap. exists y. split; [|done].
    apply elem_of_all. eauto.
Qed.

Lemma active_tiers used bound x m l a : tracked used bound x m l -> get_active m a = concat (get_active_tier m a <$> ALL_TIERS).
Proof.
  intros Ht. unfold get_active, active_revisions. cbv zeta. pose proof (fun t => active_across used bound x m l a t Ht) as Hf.
  set (ps := omap e_parent_revision_id (get_all m a)) in *. rewrite get_all_app, !List.filter_app, !Hf.
  unfold ALL_TIERS. cbn [fmap list_fmap concat]. by rewrite app_nil_r.
Qed.

(** What a namespace holds of an agent, tier after tier. *)
Definition recalled (s : list Fact) (agent ns : string) : list Fact :=
  List.filter (fun f => str_eqb (fa_namespace f) ns) (concat (facts_in s agent <$> ALL_TIERS)).

Lemma recall_facts used bound x env a ns k l :
  tracked used bound x (km_memory k) l -> fact <$> recall env a ns k = recalled (kw_facts x) a ns.
Proof.
  intros Ht. unfold recall, allow_memory, recalled. rewrite read_allowed, (active_tiers used bound x _ l) by done.
  unfold ALL_TIERS. cbn [fmap list_fmap concat]. rewrite <-!(fo_facts _ _ (tr_follows _ _ _ _ _ Ht)), !app_nil_r, <-!fmap_app.
  symmetry. apply (lfilter_fmap fact).
Qed.

(** C6: the memories of the kernel are the acknowledged ones.  From an empty
    ledger, after any calls with fresh identifiers, any failures and restarts in
    between, the active entries of every tier of every agent are, in order,
    exactly the facts the answers stand for: those acknowledged, revised by
    acknowledged updates, less those deleted, forgotten or ephemeral before a
    restart; and a recall returns exactly those of the agent and namespace asked
    for, of every tier.  A restart, which reads the directory of the ledger again,
    always succeeds and finds the durable ones of these facts; if a commit was
    answered in doubt since the last one, it finds those that commit would have
    left instead, although it was never acknowledged. *)
Theorem memories_follow_acknowledgements l m0 k0 bound calls :
  lg_ok l -> (forall role t, lg_records l role t = []) -> lg_poisoned l = false -> lg_loads l l -> lg_within l bound ->
  restore_memories l (set_ledger layered_new l) = (Ok tt, m0) -> km_memory k0 = m0 ->
  Forall call_exact calls -> NoDup (all_drawn calls) -> (bound + total_weight calls < MAX_JCS_SAFE_INTEGER)%Z ->
  let '(k, x) := calls_run calls k0 (mkKnown [] None) in
  (forall agent t, fact <$> get_active_tier (km_memory k) agent t = facts_in (kw_facts x) agent t) /\
  (forall env agent ns, fact <$> recall env agent ns k = recalled (kw_facts x) agent ns) /\
  (forall env, let '(answer, k') := call_run env Reopen k in
     let found := default (durable_part (kw_facts x)) (kw_doubt x) in
     answer = Acknowledged [] /\
     (forall agent t, fact <$> get_active_tier (km_memory k') agent t = facts_in found agent t) /\
     (forall env' agent ns, fact <$> recall env' agent ns k' = recalled found agent ns)).
Proof.
  intros Hok Hempty Hp Hlo Hw Hm Hk Hex Hnd Hb. pose proof (opened_follows l m0 Hok Hempty Hm) as Hfo. rewrite <-Hk in Hfo.
  assert (lm_ledger m0 = Some l) as Hl by (destruct (restore_memories_spec l Hok) as (m' & Hm' & _ & Hl'); congruence).
  assert (tracked [] bound (mkKnown [] None) (km_memory k0) l) as Ht.
  { constructor; [done|by rewrite Hk| |by intros f ?%not_elem_of_nil|done]. constructor; [done|done|].
    intros role t r. rewrite Hempty. by intros ?%not_elem_of_nil. }
  destruct (calls_tracked calls [] bound _ k0 l Ht Hex Hnd ltac:(set_solver) Hb) as (used' & bound' & l' & Ht').
  destruct (calls_run calls k0 (mkKnown [] None)) as [k x]. cbn [fst snd] in Ht'. split_and!.
  - apply (fo_facts _ _ (tr_follows _ _ _ _ _ Ht')).
  - intros env agent ns. by eapply recall_facts.
  - intros env. destruct (reopen_tracked env used' bound' x k l' Ht') as (Ha & l1 & Hr).
    destruct (call_run env Reopen k) as [answer k']. cbn [fst snd] in Ha, Hr. split_and!; [done|apply (fo_facts _ _ (tr_follows _ _ _ _ _ Hr))|].
    intros env' agent ns. by eapply (recall_facts _ _ _ _ _ _ _ _ Hr).
Qed.
End calls.

(** ** A kernel on the empty ledger *)

Definition doc_ledger0 : Ledger := (doc_state0, doc_store0).
Definition doc_opened := restore_memories doc_ledger0 (set_ledger layered_new doc_ledger0).
Definition doc_kernel : MemoryKernel :=
  mkMemoryKernel guard_new ∅ doc_opened.2 (event_bus_new 0) (mkDisk None ∅) [].
Definition doc_env_io (io : IoPlan) (id : string) : MemoryEnv :=
  mkMemoryEnv (mkCasInput io 9 (fun _ => "policy-" +:+ id) None) 9 (fun _ => id)
    (fun _ => mkEmit 0 0 0 Rotate_Done Append_Done).
Definition doc_env : string -> MemoryEnv := doc_env_io doc_io.
(** The update is published and the directory is not synced. *)
Definition doc_calls : list (MemoryEnv * MemoryCall) :=
  [(doc_env "w", RememberWorking "alice" DEFAULT_TENANT "draft" ["note"]);
   (doc_env "e", Remember "alice" DEFAULT_TENANT "passing");
   (doc_env_io doc_io_unsynced "w2", Update "alice" DEFAULT_TENANT "w" "final");
   (doc_env "w3", RememberLongTerm "alice" DEFAULT_TENANT "refused" [] 50)].
Definition doc_run := calls_run (fun _ => None) (fun _ => None) id doc_calls doc_kernel (mkKnown [] None).
Definition doc_restarted := (call_run (fun _ => None) (fun _ => None) id (doc_env "x") Reopen doc_run.1).2.

Lemma doc_ok0 : state_ok doc_state0.
Proof.
  apply (load_state_ok doc_store0); [exact doc_load0| |vm_compute; congruence..].
  intros root Hroot. assert (root_generation root = 0%Z) as -> by (vm_compute in Hroot; by injection Hroot as <-).
  unfold safe_int, MAX_JCS_SAFE_INTEGER. lia.
Qed.

Lemma doc_within0 : lg_within doc_ledger0 0.
Proof.
  split_and!; [|vm_compute; congruence..]. intros root Hroot.
  assert (root_generation root = 0%Z) as -> by (vm_compute in Hroot; by injection Hroot as <-). lia.
Qed.

Lemma doc_calls_exact : Forall call_exact doc_calls.
Proof. repeat constructor; vm_compute; congruence. Qed.

Lemma doc_calls_fresh : NoDup (all_drawn doc_calls).
Proof. apply (bool_decide_unpack _). vm_compute. exact I. Qed.

Definition doc_draft_fact : Fact := mkFact "alice" DEFAULT_TENANT "w" Tier_Working (Text "draft") ["note"] Type_Untyped.
Definition doc_final_fact : Fact := mkFact "alice" DEFAULT_TENANT "w2" Tier_Working (Text "final") ["note"] Type_Untyped.

Lemma doc_known : facts_in (kw_facts doc_run.2) "alice" Tier_Working = [doc_draft_fact] /\
  facts_in (default (durable_part (kw_facts doc_run.2)) (kw_doubt doc_run.2)) "alice" Tier_Working = [doc_final_fact].
Proof. split; vm_compute; reflexivity. Qed.

(** Alice's update is in doubt: she reads the draft, and after a restart the final text. *)
Lemma memories_follow_acknowledgements_witness :
  fact <$> get_active_tier (km_memory doc_run.1) "alice" Tier_Working = [doc_draft_fact] /\
  fact <$> get_active_tier (km_memory doc_restarted) "alice" Tier_Working = [doc_final_fact].
Proof.
  pose proof (memories_follow_acknowledgements (fun _ => None) (fun _ => None) id doc_ledger0 (snd doc_opened) doc_kernel 0 doc_calls
    doc_ok0 (fun role t => eq_refl) eq_refl doc_load0 doc_within0 (ok_unit doc_opened ltac:(vm_compute; reflexivity)) eq_refl
    doc_calls_exact doc_calls_fresh ltac:(vm_compute; reflexivity)) as Hs.
  pose proof doc_known as [Hf Hd]. revert Hs Hf Hd. unfold doc_restarted, doc_run.
  destruct (calls_run (fun _ => None) (fun _ => None) id doc_calls doc_kernel (mkKnown [] None)) as [k x]. cbn [fst snd].
  intros (Ht & _ & Hr) Hf Hd. specialize (Hr (doc_env "x")).
  destruct (call_run (fun _ => None) (fun _ => None) id (doc_env "x") Reopen k) as [answer k']. destruct Hr as (_ & Hr & _).
  exact (conj (eq_trans (Ht "alice" Tier_Working) Hf) (eq_trans (Hr "alice" Tier_Working) Hd)).
Defined.

(** ** What the answers do not say *)

Definition doc_after (calls : list (MemoryEnv * MemoryCall)) : MemoryKernel :=
  (calls_run (fun _ => None) (fun _ => None) id calls doc_kernel (mkKnown [] None)).1.

Definition doc_create : MemoryEnv * MemoryCall := (doc_env "w", RememberWorking "alice" DEFAULT_TENANT "draft" ["note"]).
Definition doc_delete : MemoryEnv * MemoryCall := (doc_env "t", Delete "alice" DEFAULT_TENANT "w").

(** A deleted memory is gone from recall, but the relevant ones still contain its
    text, both in the deleted revision and in its tombstone. *)
Lemma relevant_returns_deleted :
  recall (doc_env "x") "alice" DEFAULT_TENANT (doc_after [doc_create; doc_delete]) = [] /\
  e_content <$> (recall_relevant (fun _ => None) id (doc_env "x") "alice" DEFAULT_TENANT 100 (doc_after [doc_create; doc_delete])).1 =
    [Text "draft"; Text "draft"].
Proof. split; by vm_compute. Qed.

(** The statistics count superseded revisions and tombstones as entries. *)
Lemma stats_count_deleted :
  ms_total_entries (memory_stats (fun _ => None) 9 "alice" None (doc_after [doc_create; doc_delete])) = 2.
Proof. by vm_compute. Qed.

(** A restart forgets the importance a memory was stored with. *)
Lemma importance_lost :
  let store := (doc_env "i", RememberLongTerm "alice" DEFAULT_TENANT "rule" [] 90) in
  e_importance <$> recall (doc_env "x") "alice" DEFAULT_TENANT (doc_after [store]) = [90%Z] /\
  e_importance <$> recall (doc_env "x") "alice" DEFAULT_TENANT (doc_after [store; (doc_env "x", Reopen)]) = [50%Z].
Proof. split; by vm_compute. Qed.
