(* ===== verification/PublicService.v ===== *)
(** * The public service ([src/src/api/public/mod.rs], [input.rs], [output.rs],
      [src/src/kernel/public_service.rs], [src/src/kernel/ops/readiness.rs])

    The protocol [plico.personal.v2]: requests with their limits, their dispatch
    to objects, memories, the projection and sessions, and the answers and errors
    that go back. *)

From stdpp Require Import base gmap strings pretty list.
From S2P Require Import Prelude CircuitBreaker Wire MemoryModel LedgerModel LedgerValidate LedgerView LedgerStorage ProjectionModel ProjectionView LedgerStore LedgerQueries LedgerChains LedgerDurability LedgerCommits DocPlatform LedgerAccess LayeredMemory LedgerInstance Scheduler EventBus EventBusProps Permission Text Float32 ObjectStorage ContextLoader ApiRequest GraphModel Graph GraphStore GraphDisk GraphSync CostLedger Delta Sessions SearchIndex SemanticFS SemanticFSProps KernelFS KernelFSProps IntentExecutor Embeddings ProjectionController ProjectionRuntime Relevance KernelMemory KernelMemoryProps CognitivePipeline.

(** A UUID is its 128-bit value. *)
Definition Uuid : Type := N.

(** ** Limits *)

Definition PERSONAL_PROTOCOL : string := "plico.personal.v2".
Definition PUBLIC_OPERATIONS : list string := [
  "capabilities.describe"; "runtime.readiness"; "object.put"; "object.get"; "object.search"; "memory.create"; "memory.get";
  "memory.recall"; "projection.status"; "projection.rebuild"; "memory.update"; "memory.delete"; "session.start"; "session.end" ].
Definition MAX_TEXT_BYTES : Z := 256 * 1024.
Definition MAX_OBJECT_BYTES : Z := 10 * 1024 * 1024.
Definition MAX_QUERY_BYTES : Z := 8 * 1024.
Definition MAX_AUTH_BYTES : Z := 4 * 1024.
Definition MAX_TAGS : Z := 32.
Definition MAX_TAG_BYTES : Z := 64.
Definition DEFAULT_LIMIT : Z := 20.
Definition MAX_LIMIT : Z := 100.

(** A [ValidationError] is its message. *)
Definition str_len (s : string) : Z := Z.of_nat (String.length s).

Definition validate_non_empty_bounded (value : string) (maximum : Z) (field : string) : result string unit :=
  reject (str_len value =? 0)%Z || (maximum <? str_len value)%Z
    with field +:+ " must contain 1..=" +:+ pretty maximum +:+ " UTF-8 bytes";
  Ok tt.

Definition validate_tags (tags : list string) : result string unit :=
  reject (MAX_TAGS <? Z.of_nat (length tags))%Z with "tags must contain at most " +:+ pretty MAX_TAGS +:+ " items";
  try_for (fun _ _ tag => validate_non_empty_bounded tag MAX_TAG_BYTES "tag") 0 tt tags.

Definition validate_limit (limit : Z) : result string unit :=
  reject negb ((1 <=? limit)%Z && (limit <=? MAX_LIMIT)%Z) with "limit must be in 1..=" +:+ pretty MAX_LIMIT;
  Ok tt.

Definition validate_uuid (value : Uuid) (field : string) : result string unit :=
  reject (value =? 0)%N with field +:+ " must not be a nil UUID";
  Ok tt.

Definition hex_lower (c : Ascii.ascii) : bool := byte_in 48 57 c || byte_in 97 102 c.
Definition validate_public_cid (value : string) : result string unit :=
  reject negb (str_len value =? 64)%Z || negb (forallb hex_lower (String.list_ascii_of_string value))
    with "cid must be a 64-character lowercase SHA-256 hex value";
  Ok tt.

(** ** Requests *)

Inductive ObjectEncoding : Type := Encoding_Utf8 | Encoding_Base64.
Inductive ProjectionKindInput : Type := Kind_MemoryEmbedding.

Record ObjectPutInput := mkObjectPut { op_content : string; op_encoding : ObjectEncoding; op_tags : list string }.
Record ObjectSearchInput := mkObjectSearch {
  os_query : string; os_limit : Z; os_require_tags : list string; os_exclude_tags : list string }.
Record MemoryCreateInput := mkMemoryCreate { mc_content : string; mc_tags : list string }.
Record MemoryRecallInput := mkMemoryRecall { mr_query : string; mr_limit : Z }.
Record MemoryUpdateInput := mkMemoryUpdate { mu_entry_id : Uuid; mu_content : string }.
Record ProjectionStatusInput := mkProjectionStatus { psi_kind : ProjectionKindInput; psi_revision_id : Uuid }.
Inductive ProjectionRebuildSelectorInput : Type := Select_CurrentRevision (revision_id : Uuid) | Select_AllEligible.
Record ProjectionRebuildInput := mkProjectionRebuild { pri_kind : ProjectionKindInput; pri_selector : ProjectionRebuildSelectorInput }.

Inductive PublicCommand : Type :=
  | Cmd_CapabilitiesDescribe
  | Cmd_RuntimeReadiness
  | Cmd_ObjectPut (input : ObjectPutInput)
  | Cmd_ObjectGet (cid : string)
  | Cmd_ObjectSearch (input : ObjectSearchInput)
  | Cmd_MemoryCreate (input : MemoryCreateInput)
  | Cmd_MemoryGet (entry_id : Uuid)
  | Cmd_MemoryRecall (input : MemoryRecallInput)
  | Cmd_MemoryUpdate (input : MemoryUpdateInput)
  | Cmd_MemoryDelete (entry_id : Uuid)
  | Cmd_ProjectionStatus (input : ProjectionStatusInput)
  | Cmd_ProjectionRebuild (input : ProjectionRebuildInput)
  | Cmd_SessionStart (last_seen_seq : option Z)
  | Cmd_SessionEnd (session_id : Uuid).

Definition command_operation (c : PublicCommand) : string :=
  match c with
  | Cmd_CapabilitiesDescribe => "capabilities.describe"
  | Cmd_RuntimeReadiness => "runtime.readiness"
  | Cmd_ObjectPut _ => "object.put"
  | Cmd_ObjectGet _ => "object.get"
  | Cmd_ObjectSearch _ => "object.search"
  | Cmd_MemoryCreate _ => "memory.create"
  | Cmd_MemoryGet _ => "memory.get"
  | Cmd_MemoryRecall _ => "memory.recall"
  | Cmd_MemoryUpdate _ => "memory.update"
  | Cmd_MemoryDelete _ => "memory.delete"
  | Cmd_ProjectionStatus _ => "projection.status"
  | Cmd_ProjectionRebuild _ => "projection.rebuild"
  | Cmd_SessionStart _ => "session.start"
  | Cmd_SessionEnd _ => "session.end"
  end.

(** [auth] is the bearer. *)
Record PublicRequest := mkPublicRequest {
  prq_protocol : string;
  prq_request_id : Uuid;
  prq_auth : option string;
  prq_command : PublicCommand;
}.
Definition public_request_new (request_id : Uuid) (auth : option string) (command : PublicCommand) : PublicRequest :=
  mkPublicRequest PERSONAL_PROTOCOL request_id auth command.

(** The head of a request that could not be decoded. *)
Record PublicRequestHead := mkRequestHead {
  prh_protocol : string;
  prh_request_id : Uuid;
  prh_auth : option string;
  prh_operation : string;
}.

Definition validate_protocol (protocol : string) : result string unit :=
  reject negb (str_eqb protocol PERSONAL_PROTOCOL) with "protocol must be exactly '" +:+ PERSONAL_PROTOCOL +:+ "'";
  Ok tt.
Definition validate_auth (auth : option string) : result string unit :=
  match auth with Some bearer => validate_non_empty_bounded bearer MAX_AUTH_BYTES "auth.bearer" | None => Ok tt end.

Definition validate_metadata (h : PublicRequestHead) : result string unit :=
  validate_protocol (prh_protocol h) ?>>
  validate_uuid (prh_request_id h) "request_id" ?>>
  validate_non_empty_bounded (prh_operation h) 128 "operation" ?>>
  validate_auth (prh_auth h).
Definition operation_supported (h : PublicRequestHead) : bool := str_mem (prh_operation h) PUBLIC_OPERATIONS.

Section validation.
(** [base64::engine::general_purpose::STANDARD.decode] *)
Variable base64_decode : string -> option string.

Definition validate_object_put (i : ObjectPutInput) : result string unit :=
  match op_encoding i with
  | Encoding_Utf8 => validate_non_empty_bounded (op_content i) MAX_OBJECT_BYTES "content"
  | Encoding_Base64 =>
      decoded <-? ok_or (base64_decode (op_content i)) "content must be valid standard base64";
      reject (str_len decoded =? 0)%Z || (MAX_OBJECT_BYTES <? str_len decoded)%Z
        with "decoded content must contain 1..=" +:+ pretty MAX_OBJECT_BYTES +:+ " bytes";
      Ok tt
  end ?>>
  validate_tags (op_tags i).

Definition validate_object_search (i : ObjectSearchInput) : result string unit :=
  validate_non_empty_bounded (os_query i) MAX_QUERY_BYTES "query" ?>>
  validate_limit (os_limit i) ?>>
  validate_tags (os_require_tags i) ?>>
  validate_tags (os_exclude_tags i).

Definition validate_memory_create (i : MemoryCreateInput) : result string unit :=
  validate_non_empty_bounded (mc_content i) MAX_TEXT_BYTES "content" ?>> validate_tags (mc_tags i).
Definition validate_memory_recall (i : MemoryRecallInput) : result string unit :=
  validate_non_empty_bounded (mr_query i) MAX_QUERY_BYTES "query" ?>> validate_limit (mr_limit i).
Definition validate_memory_update (i : MemoryUpdateInput) : result string unit :=
  validate_uuid (mu_entry_id i) "entry_id" ?>> validate_non_empty_bounded (mu_content i) MAX_TEXT_BYTES "content".
Definition validate_projection_rebuild (i : ProjectionRebuildInput) : result string unit :=
  match pri_selector i with
  | Select_CurrentRevision revision_id => validate_uuid revision_id "selector.revision_id"
  | Select_AllEligible => Ok tt
  end.

Definition validate_command (c : PublicCommand) : result string unit :=
  match c with
  | Cmd_CapabilitiesDescribe | Cmd_RuntimeReadiness | Cmd_SessionStart _ => Ok tt
  | Cmd_ObjectPut input => validate_object_put input
  | Cmd_ObjectGet cid => validate_public_cid cid
  | Cmd_ObjectSearch input => validate_object_search input
  | Cmd_MemoryCreate input => validate_memory_create input
  | Cmd_MemoryGet entry_id | Cmd_MemoryDelete entry_id => validate_uuid entry_id "entry_id"
  | Cmd_MemoryRecall input => validate_memory_recall input
  | Cmd_MemoryUpdate input => validate_memory_update input
  | Cmd_ProjectionStatus input => validate_uuid (psi_revision_id input) "revision_id"
  | Cmd_ProjectionRebuild input => validate_projection_rebuild input
  | Cmd_SessionEnd session_id => validate_uuid session_id "session_id"
  end.

Definition validate_request (r : PublicRequest) : result string unit :=
  validate_protocol (prq_protocol r) ?>>
  validate_uuid (prq_request_id r) "request_id" ?>>
  validate_auth (prq_auth r) ?>>
  validate_command (prq_command r).
End validation.

(** ** Answers *)

Inductive PublicErrorCode : Type :=
  | Code_InvalidArgument | Code_Unauthenticated | Code_PermissionDenied | Code_NotFound | Code_Conflict | Code_LimitExceeded
  | Code_Busy | Code_ProviderUnavailable | Code_DependencyUnavailable | Code_UnsupportedCapability | Code_Internal.

Record PublicError := mkPublicError {
  per_code : PublicErrorCode;
  per_message : string;
  per_retryable : bool;
  per_details : option Json;
}.

Inductive CapabilitySupport : Type := Supported | Unsupported.
Record ProjectionCapabilities := mkProjectionCapabilities {
  pca_control_plane : CapabilitySupport;
  pca_retrieval : CapabilitySupport;
  pca_memory_vector_recall : CapabilitySupport;
  pca_memory_hybrid_recall : CapabilitySupport;
}.
Record PublicLimits := mkLimits {
  pl_max_text_bytes : Z; pl_max_object_bytes : Z; pl_max_query_bytes : Z; pl_max_tags : Z; pl_max_tag_bytes : Z; pl_max_results : Z }.
Definition default_limits : PublicLimits :=
  mkLimits MAX_TEXT_BYTES MAX_OBJECT_BYTES MAX_QUERY_BYTES MAX_TAGS MAX_TAG_BYTES MAX_LIMIT.
Record CapabilityCatalog := mkCatalog {
  cc_protocol : string;
  cc_operations : list string;
  cc_limits : PublicLimits;
  cc_projections : ProjectionCapabilities;
  cc_consistency : list string;
  cc_unsupported : list string;
}.
Definition default_catalog : CapabilityCatalog := {|
  cc_protocol := PERSONAL_PROTOCOL;
  cc_operations := PUBLIC_OPERATIONS;
  cc_limits := default_limits;
  cc_projections := mkProjectionCapabilities Supported Unsupported Unsupported Unsupported;
  cc_consistency := ["object CID reads are content-verified";
    "memory writes acknowledge canonical persistence before projection work";
    "memory lexical recall is immediately visible after commit"];
  cc_unsupported := ["memory BM25 or hybrid recall"; "thermal or deep recall"; "evidence projection";
    "human document projection"; "session checkpoint"] |}.

Inductive ComponentState : Type := State_Ready | State_Degraded | State_Unavailable.

Inductive ProjectionUnavailableCategory : Type :=
  | Unavailable_ProjectionNotInitialized | Unavailable_OwnerResumeRequired | Unavailable_BuilderChangeRequired
  | Unavailable_ResetRequired | Unavailable_UnsupportedFormat | Unavailable_VaultLocked | Unavailable_PermissionDenied
  | Unavailable_StorageIo | Unavailable_ResourceExhausted | Unavailable_ResetPending | Unavailable_MaintenanceRequired
  | Unavailable_ManualIntervention | Unavailable_IdentityUnavailable | Unavailable_ProviderChangedRestartRequired
  | Unavailable_WorkerRestartRequired | Unavailable_RuntimeShuttingDown | Unavailable_RuntimeStateUnavailable.

Record ProjectionReadinessView := mkProjectionReadiness {
  prv_control_plane : ComponentState;
  prv_worker : ComponentState;
  prv_control_plane_reason : option ProjectionUnavailableCategory;
  prv_worker_reason : option ProjectionUnavailableCategory;
}.

Record CognitivePipelineProgressView := mkProgress {
  cp_accepted : Z;
  cp_completed : Z;
  cp_in_flight : Z;
  cp_document_vector_succeeded_attempts : Z;
  cp_document_lexical_degraded_attempts : Z;
  cp_task_failed_attempts : Z;
  cp_other_succeeded_attempts : Z;
  cp_inline_document_attempts : Z;
}.

Record ReadinessView := mkReadiness {
  rv_ready : bool;
  rv_canonical_store : ComponentState;
  rv_canonical_memory_persistence : ComponentState;
  rv_projection : ProjectionReadinessView;
  rv_cognitive_worker : ComponentState;
  rv_cognitive_progress : option CognitivePipelineProgressView;
  rv_embedding_provider : ComponentState;
  rv_configured_embedding_backend : string;
  rv_active_embedding_provider : string;
}.

Record ObjectView := mkObjectView {
  ov_cid : string; ov_content_base64 : string; ov_content_type : string; ov_tags : list string; ov_created_at : Z }.
Record ObjectSearchHit := mkSearchHit {
  sh_cid : string; sh_score : f32; sh_snippet : string; sh_tags : list string; sh_content_type : string; sh_created_at : Z }.

(** [RetrievalPath] repeats [SearchPath]. *)
Inductive RetrievalPath : Type :=
  | Retrieval_Bm25 | Retrieval_Vector | Retrieval_TagFallback | Retrieval_KnowledgeGraphTemporal | Retrieval_KnowledgeGraphPpr
  | Retrieval_KnowledgeGraphPathDiscovery | Retrieval_KnowledgeGraphCausal | Retrieval_Reranker.
Inductive RetrievalDegradation : Type := Retrieval_ExecutionFailed.
Record RetrievalExecution := mkRetrieval {
  ret_path : RetrievalPath; ret_candidates : nat; ret_accepted : nat; ret_degradation : option RetrievalDegradation }.
Record DiagnosedSearch := mkDiagnosed { ds_results : list SearchResult; ds_execution : SearchExecution }.
Inductive EmbeddingQueryStatus : Type := Embedding_NotProbed | Embedding_Succeeded | Embedding_Degraded.
Inductive EmbeddingQueryDegradation : Type :=
  | Embedding_ProviderUnavailable | Embedding_ModelUnavailable | Embedding_InputRejected | Embedding_ExecutionFailed.
Record EmbeddingQueryView := mkEmbeddingQuery { eq_state : EmbeddingQueryStatus; eq_degradation : option EmbeddingQueryDegradation }.
Record ObjectSearchResult := mkSearchAnswer {
  osr_hits : list ObjectSearchHit; osr_retrieval : list RetrievalExecution; osr_embedding_query : EmbeddingQueryView }.

Record MemoryEntryView := mkEntryView { mv_entry_id : Uuid; mv_content : string; mv_tags : list string; mv_created_at : Z }.
Record MemoryRecallHit := mkRecallHit { mh_entry : MemoryEntryView; mh_score : f32 }.

Record CanonicalWatermarkView := mkWatermarkView {
  cw_generation : Z; cw_revision_watermark : Z; cw_policy_watermark : Z; cw_relation_watermark : Z }.
Inductive ProjectionAbsentReason : Type :=
  | VAbsent_Superseded | VAbsent_Deleted | VAbsent_UnsupportedTier | VAbsent_UnsupportedContent | VAbsent_BlankText.
Inductive ProjectionQueueReason : Type :=
  | VQueue_CanonicalCommit | VQueue_Reconciliation | VQueue_Retry | VQueue_OwnerRebuild | VQueue_BuilderChanged | VQueue_LeaseExpired.
Inductive ProjectionFailureCategory : Type :=
  | VFailure_ProviderUnavailable | VFailure_ProviderIdentityChanged | VFailure_InvalidProjection | VFailure_ArtifactStoreUnavailable.
Inductive ProjectionStaleReason : Type :=
  | VStale_BuilderSpecChanged | VStale_ArtifactMissing | VStale_ArtifactHashMismatch | VStale_ArtifactInvalid | VStale_OwnerRebuild.
Inductive ProjectionStateView : Type :=
  | State_AbsentByPolicy (reason : ProjectionAbsentReason)
  | State_Queued (reason : ProjectionQueueReason)
  | State_Building
  | State_Built
  | State_Failed (attempt : Z) (failure_category : ProjectionFailureCategory) (retryable : bool) (retry_not_before : option Z)
  | State_Stale (reason : ProjectionStaleReason).
Inductive ProjectionObservationView : Type :=
  | View_Observed (revision_id : Uuid) (content_hash : string) (state : ProjectionStateView) (event_watermark : Z)
      (reconciled_source : CanonicalWatermarkView)
  | View_Unreconciled (revision_id : Uuid) (content_hash : string) (event_watermark : Z) (reconciled_source : CanonicalWatermarkView)
  | View_Unavailable (revision_id : Uuid) (content_hash : string) (reason : ProjectionUnavailableCategory).
Record ProjectionRebuildResult := mkRebuildResult {
  prr_kind : ProjectionKindInput;
  prr_selected_count : Z;
  prr_manifest_generation : Z;
  prr_event_watermark : Z;
  prr_reconciled_source : CanonicalWatermarkView;
}.
Record SessionChangeView := mkChangeView { sc_seq : Z; sc_change_type : string; sc_object_id : string; sc_changed_at_ms : Z }.

(** [CommitState] and [MemoryMatchPath] have one value each and are left out. *)
Inductive PublicData : Type :=
  | Data_CapabilitiesDescribe (catalog : CapabilityCatalog)
  | Data_RuntimeReadiness (view : ReadinessView)
  | Data_ObjectPut (cid : string)
  | Data_ObjectGet (view : ObjectView)
  | Data_ObjectSearch (result : ObjectSearchResult)
  | Data_MemoryCreate (entry : MemoryEntryView)
  | Data_MemoryGet (entry : MemoryEntryView)
  | Data_MemoryRecall (hits : list MemoryRecallHit)
  | Data_MemoryUpdate (previous_entry_id : Uuid) (entry : MemoryEntryView)
  | Data_MemoryDelete (entry_id : Uuid) (deleted_at : Z)
  | Data_ProjectionStatus (kind : ProjectionKindInput) (status : ProjectionObservationView)
  | Data_ProjectionRebuild (result : ProjectionRebuildResult)
  | Data_SessionStart (session_id : Uuid) (watermark : Z) (changes : list SessionChangeView)
  | Data_SessionEnd (session_id : Uuid) (last_seq : Z).

Definition data_operation (d : PublicData) : string :=
  match d with
  | Data_CapabilitiesDescribe _ => "capabilities.describe"
  | Data_RuntimeReadiness _ => "runtime.readiness"
  | Data_ObjectPut _ => "object.put"
  | Data_ObjectGet _ => "object.get"
  | Data_ObjectSearch _ => "object.search"
  | Data_MemoryCreate _ => "memory.create"
  | Data_MemoryGet _ => "memory.get"
  | Data_MemoryRecall _ => "memory.recall"
  | Data_MemoryUpdate _ _ => "memory.update"
  | Data_MemoryDelete _ _ => "memory.delete"
  | Data_ProjectionStatus _ _ => "projection.status"
  | Data_ProjectionRebuild _ => "projection.rebuild"
  | Data_SessionStart _ _ _ => "session.start"
  | Data_SessionEnd _ _ => "session.end"
  end.

Record PublicResponse := mkPublicResponse {
  prs_protocol : string;
  prs_request_id : Uuid;
  prs_ok : bool;
  prs_data : option PublicData;
  prs_error : option PublicError;
}.
Definition response_success (request_id : Uuid) (data : PublicData) : PublicResponse :=
  mkPublicResponse PERSONAL_PROTOCOL request_id true (Some data) None.
Definition response_failure (request_id : Uuid) (error : PublicError) : PublicResponse :=
  mkPublicResponse PERSONAL_PROTOCOL request_id false None (Some error).

Definition validate_response (r : PublicResponse) : result string unit :=
  validate_protocol (prs_protocol r) ?>>
  validate_uuid (prs_request_id r) "request_id" ?>>
  match prs_ok r, opt_is_some (prs_data r), opt_is_some (prs_error r) with
  | true, true, false | false, false, true => Ok tt
  | _, _, _ => Err "response must contain exactly one of data or error matching ok"
  end.

Definition validate_for (r : PublicResponse) (request : PublicRequest) : result string unit :=
  validate_response r ?>>
  (reject negb (prs_request_id r =? prq_request_id request)%N with "response request_id does not match request";
   match prs_data r with
   | Some data =>
       reject negb (str_eqb (data_operation data) (command_operation (prq_command request)))
         with "response operation does not match request operation";
       Ok tt
   | None => Ok tt
   end).

(** ** Callers *)

Inductive PublicTransport : Type := Transport_Tcp | Transport_Uds | Transport_Embedded | Transport_Mcp.
Inductive PublicAccess : Type := Access_LocalOwner | Access_AuthenticatedRole (role_id : string).
Record PublicRequestContext := mkPublicContext { px_access : PublicAccess; px_transport : PublicTransport }.
#[export] Instance PublicTransport_eq_dec : EqDecision PublicTransport.
Proof. solve_decision. Defined.
#[export] Instance PublicAccess_eq_dec : EqDecision PublicAccess.
Proof. solve_decision. Defined.

Definition local_owner (transport : PublicTransport) : PublicRequestContext := mkPublicContext Access_LocalOwner transport.
Definition authenticated_role (role_id : string) (transport : PublicTransport) : PublicRequestContext :=
  mkPublicContext (if str_eqb role_id PERSONAL_OWNER_ROLE_ID then Access_LocalOwner else Access_AuthenticatedRole role_id) transport.
Definition context_role (ctx : PublicRequestContext) : string :=
  match px_access ctx with Access_LocalOwner => PERSONAL_OWNER_ROLE_ID | Access_AuthenticatedRole role_id => role_id end.

(** ** Errors *)

Definition public_error (code : PublicErrorCode) (message : string) (retryable : bool) (category : string) : PublicError :=
  mkPublicError code message retryable (Some (JObject [("category", JString category)])).
Definition invalid_argument (message : string) : PublicError := public_error Code_InvalidArgument message false "invalid_argument".
Definition public_not_found (category : string) : PublicError := public_error Code_NotFound "resource not found" false category.
Definition dependency_unavailable (category : string) : PublicError :=
  public_error Code_DependencyUnavailable "required durable dependency is unavailable" true category.
Definition internal (category : string) : PublicError := public_error Code_Internal "internal invariant failed" false category.
Definition permission_denied (message : string) : PublicError := public_error Code_PermissionDenied message false "permission_denied".
Definition not_permitted : PublicError := permission_denied "operation is not permitted for this local role".

Definition map_projection_runtime_error (e : ProjectionRuntimeError) : PublicError :=
  match e with
  | Runtime_NotFound => public_not_found "projection_revision"
  | Runtime_NotEligible => invalid_argument "projection revision is not eligible"
  | Runtime_NothingToRebuild =>
      public_error Code_Conflict "no eligible projection revision exists" false "projection_nothing_to_rebuild"
  | Runtime_AllEligibleRequired =>
      public_error Code_Conflict "this projection operation requires selector all_eligible" false "projection_all_eligible_required"
  | Runtime_Unavailable category => public_error Code_DependencyUnavailable "projection is unavailable" false category
  end.

Definition map_memory_error (e : DurableMemoryMutationError) : PublicError :=
  match e with
  | D_NotFound _ | D_NamespaceMismatch _ => public_not_found "memory_entry"
  | D_Inactive _ => public_error Code_Conflict "memory entry is no longer active" false "inactive"
  | D_EmptyContent => invalid_argument "memory content must not be empty"
  | D_InvalidCanonicalContent _ => invalid_argument "memory content cannot be represented canonically"
  | D_QuotaExceeded _ _ => public_error Code_LimitExceeded "memory quota exceeded" false "quota_exceeded"
  | D_PermissionDenied => not_permitted
  | D_PersistenceUnavailable => dependency_unavailable "memory_persistence"
  | D_Ledger (HeadConflict _ _ _) => public_error Code_Conflict "memory head changed; refresh and retry" false "head_conflict"
  | D_Ledger (UnsupportedPolicy category) =>
      if str_eqb category "role_not_policy_writer" then not_permitted else invalid_argument "memory policy is unsupported"
  | D_Ledger (Invalid _) => public_error Code_Internal "canonical memory validation failed" false "memory_integrity"
  | D_Ledger CommitIndeterminate =>
      public_error Code_DependencyUnavailable "memory commit outcome is uncertain; restart and reconcile before writing" false
        "commit_indeterminate"
  | D_Ledger WriterPoisoned =>
      public_error Code_DependencyUnavailable "memory writer requires restart and reconciliation" false "writer_poisoned"
  | D_Ledger (Io _) | D_Ledger Serialization | D_Ledger (Cas _) | D_Ledger VaultLocked => dependency_unavailable "memory_persistence"
  end.

Definition map_session_error (e : SessionError) : PublicError :=
  match e with
  | Session_NotFound _ | Session_Ownership _ _ => public_not_found "session"
  | Session_Persistence _ => dependency_unavailable "session_persistence"
  end.

(** The kind of a [std::io::Error]; a refused permission is [PermissionDenied]. *)
Inductive IoKind : Type := Kind_NotFound | Kind_Invalid | Kind_PermissionDenied | Kind_Other.
Definition io_kind (e : IoError) : IoKind :=
  match e with IoNotFound => Kind_NotFound | IoInvalidInput | IoInvalidData => Kind_Invalid | IoOther => Kind_Other end.
Definition fs_error_kind (e : FsError) : IoKind := match e with Fs_Denied _ => Kind_PermissionDenied | Fs_Io e => io_kind e end.
(** The last three are texts of a rollback, which is not called here. *)
Definition object_error_kind (e : ObjectError) : IoKind :=
  match e with
  | Object_Denied _ => Kind_PermissionDenied
  | Object_Io e => io_kind e
  | Object_EmptyContent => Kind_Invalid
  | Object_ContractViolated => Kind_Other
  | Object_NoPrevious | Object_PreviousUnreadable _ | Object_RollbackFailed _ => Kind_Other
  end.
Definition map_io_error (kind : IoKind) : PublicError :=
  match kind with
  | Kind_NotFound => public_not_found "object"
  | Kind_Invalid => invalid_argument "invalid object request"
  | Kind_PermissionDenied => permission_denied "access denied"
  | Kind_Other => dependency_unavailable "canonical_storage"
  end.

(** ** Views *)

Definition component (available : bool) : ComponentState := if available then State_Ready else State_Unavailable.

Definition map_projection_unavailable (reason : ProjectionUnavailableReason) : ProjectionUnavailableCategory :=
  match reason with
  | Why_ProjectionNotInitialized => Unavailable_ProjectionNotInitialized
  | Why_OwnerResumeRequired => Unavailable_OwnerResumeRequired
  | Why_BuilderChangeRequired => Unavailable_BuilderChangeRequired
  | Why_ResetRequired _ => Unavailable_ResetRequired
  | Why_UnsupportedFormat => Unavailable_UnsupportedFormat
  | Why_VaultLocked => Unavailable_VaultLocked
  | Why_PermissionDenied => Unavailable_PermissionDenied
  | Why_StorageIo => Unavailable_StorageIo
  | Why_ResourceExhausted => Unavailable_ResourceExhausted
  | Why_ResetPending => Unavailable_ResetPending
  | Why_MaintenanceRequired => Unavailable_MaintenanceRequired
  | Why_ManualIntervention => Unavailable_ManualIntervention
  | Why_IdentityUnavailable category =>
      if str_eqb category "provider_changed_restart_required" then Unavailable_ProviderChangedRestartRequired
      else Unavailable_IdentityUnavailable
  | Why_WorkerRestartRequired => Unavailable_WorkerRestartRequired
  | Why_RuntimeShuttingDown => Unavailable_RuntimeShuttingDown
  | Why_RuntimeStateUnavailable => Unavailable_RuntimeStateUnavailable
  end.

Definition projection_readiness (s : ProjectionRuntimeReadinessSnapshot) : ProjectionReadinessView :=
  mkProjectionReadiness (if rs_control_plane_ready s then State_Ready else State_Degraded)
    (if rs_worker_ready s then State_Ready else State_Unavailable)
    (map_projection_unavailable <$> rs_control_plane_reason s) (map_projection_unavailable <$> rs_worker_reason s).

Definition map_absent (r : AbsentReason) : ProjectionAbsentReason :=
  match r with
  | Absent_Superseded => VAbsent_Superseded
  | Absent_Deleted => VAbsent_Deleted
  | Absent_UnsupportedTier => VAbsent_UnsupportedTier
  | Absent_UnsupportedContent => VAbsent_UnsupportedContent
  | Absent_BlankText => VAbsent_BlankText
  end.
Definition map_projection_state (s : ProjectionStatusState) : ProjectionStateView :=
  match s with
  | Status_AbsentByPolicy reason => State_AbsentByPolicy (map_absent reason)
  | Status_Queued reason => State_Queued
      match reason with
      | Queue_CanonicalCommit => VQueue_CanonicalCommit
      | Queue_Reconciliation => VQueue_Reconciliation
      | Queue_Retry => VQueue_Retry
      | Queue_OwnerRebuild => VQueue_OwnerRebuild
      | Queue_BuilderChanged => VQueue_BuilderChanged
      | Queue_LeaseExpired => VQueue_LeaseExpired
      end
  | Status_Building => State_Building
  | Status_Ready => State_Built
  | Status_Failed attempt category retryable retry_not_before => State_Failed attempt
      match category with
      | Failure_ProviderUnavailable => VFailure_ProviderUnavailable
      | Failure_ProviderIdentityChanged => VFailure_ProviderIdentityChanged
      | Failure_InvalidProjection => VFailure_InvalidProjection
      | Failure_ArtifactStoreUnavailable => VFailure_ArtifactStoreUnavailable
      end retryable retry_not_before
  | Status_Stale reason => State_Stale
      match reason with
      | Stale_BuilderSpecChanged => VStale_BuilderSpecChanged
      | Stale_ArtifactMissing => VStale_ArtifactMissing
      | Stale_ArtifactHashMismatch => VStale_ArtifactHashMismatch
      | Stale_ArtifactInvalid => VStale_ArtifactInvalid
      | Stale_OwnerRebuild => VStale_OwnerRebuild
      end
  end.
Definition map_watermark (w : CanonicalWatermark) : CanonicalWatermarkView :=
  mkWatermarkView (wm_generation w) (wm_revision_watermark w) (wm_policy_watermark w) (wm_relation_watermark w).

Definition map_search_path (p : SearchPath) : RetrievalPath :=
  match p with
  | Path_Bm25 => Retrieval_Bm25
  | Path_Vector => Retrieval_Vector
  | Path_TagFallback => Retrieval_TagFallback
  | Path_KnowledgeGraphTemporal => Retrieval_KnowledgeGraphTemporal
  | Path_KnowledgeGraphPpr => Retrieval_KnowledgeGraphPpr
  | Path_KnowledgeGraphPathDiscovery => Retrieval_KnowledgeGraphPathDiscovery
  | Path_KnowledgeGraphCausal => Retrieval_KnowledgeGraphCausal
  | Path_Reranker => Retrieval_Reranker
  end.
Definition map_stage_degradation (d : SearchStageDegradation) : RetrievalDegradation := Retrieval_ExecutionFailed.
Definition map_embedding_query (s : EmbeddingQueryState) : EmbeddingQueryView :=
  match s with
  | Query_NotProbed _ => mkEmbeddingQuery Embedding_NotProbed None
  | Query_Succeeded _ => mkEmbeddingQuery Embedding_Succeeded None
  | Query_Degraded _ reason => mkEmbeddingQuery Embedding_Degraded (Some
      match reason with
      | Degraded_ProviderUnavailable => Embedding_ProviderUnavailable
      | Degraded_ModelUnavailable => Embedding_ModelUnavailable
      | Degraded_InputRejected => Embedding_InputRejected
      | Degraded_EmbeddingFailed => Embedding_ExecutionFailed
      end)
  end.
Definition search_hit_view (hit : SearchResult) : ObjectSearchHit :=
  mkSearchHit (rs_cid hit) (rs_relevance hit) (rs_snippet hit) (om_tags (rs_meta hit))
    (content_type_name (om_content_type (rs_meta hit))) (om_created_at (rs_meta hit)).
Definition retrieval_view (p : SearchPathExecution) : RetrievalExecution :=
  mkRetrieval (map_search_path (pe_path p)) (pe_candidates p) (pe_accepted p) (map_stage_degradation <$> pe_degradation p).
Definition search_view (d : DiagnosedSearch) : ObjectSearchResult :=
  mkSearchAnswer (search_hit_view <$> ds_results d) (retrieval_view <$> se_paths (ds_execution d)) (map_embedding_query (se_embedding (ds_execution d))).

(** ** Words of a text *)

(** [text.chars()]: a character begins at a byte that continues none. *)
Fixpoint split_chars (s : string) : string * list string :=
  match s with
  | EmptyString => (EmptyString, [])
  | String c s' =>
      let '(rest, chars) := split_chars s' in
      if is_continuation c then (String c rest, chars) else (EmptyString, String c rest :: chars)
  end.
Definition chars (s : string) : list string := snd (split_chars s).
(** The scalar value: the payload of the first byte, then six bits of each other. *)
Definition first_payload (c : Ascii.ascii) : Z :=
  let b := Z.of_N (Ascii.N_of_ascii c) in
  if (b <? 128)%Z then b else if (b <? 224)%Z then Z.land b 31 else if (b <? 240)%Z then Z.land b 15 else Z.land b 7.
Definition char_value (c : string) : Z :=
  match String.list_ascii_of_string c with
  | [] => 0%Z
  | b :: bs => foldl (fun v b => v * 64 + Z.land (Z.of_N (Ascii.N_of_ascii b)) 63)%Z (first_payload b) bs
  end.

Definition is_cjk (c : string) : bool :=
  let v := char_value c in
  ((13312 <=? v) && (v <=? 19903) || (19968 <=? v) && (v <=? 40959) || (63744 <=? v) && (v <=? 64255))%Z.

Definition flush_term_word (word : string) (terms : gset string) : gset string :=
  match word with EmptyString => terms | _ => {[word]} ∪ terms end.
Fixpoint windows2 (cjk : list string) : list string :=
  match cjk with
  | a :: (b :: _) as rest => (a +:+ b) :: windows2 rest
  | _ => []
  end.
Definition flush_cjk (cjk : list string) (terms : gset string) : gset string :=
  match cjk with
  | [] => terms
  | [c] => {[c]} ∪ terms
  | _ => list_to_set (windows2 cjk) ∪ terms
  end.

Section words.
(** [char::is_alphanumeric], a table of Unicode. *)
Variable is_alphanumeric : Z -> bool.
Fixpoint terms_from (word : string) (cjk : list string) (text : list string) (terms : gset string) : gset string :=
  match text with
  | [] => flush_cjk cjk (flush_term_word word terms)
  | c :: text =>
      if is_cjk c then terms_from EmptyString (cjk ++ [c]) text (flush_term_word word terms)
      else if is_alphanumeric (char_value c) then terms_from (word +:+ c) [] text (flush_cjk cjk terms)
      else terms_from EmptyString [] text (flush_cjk cjk (flush_term_word word terms))
  end.
Definition lexical_terms (text : string) : gset string := terms_from EmptyString [] (chars text) ∅.
End words.

Definition f32_one : f32 := f32_of_Z 1.
Definition f32_quarter : f32 := f32_div f32_one (f32_of_Z 4).

Section recall.
Context `{LedgerCodec} `{HashIter}.
(** [str::to_lowercase] *)
Variable lowercase : string -> string.
Variable is_alphanumeric : Z -> bool.

Definition lexical_score (query_lower : string) (e : MemoryEntry) (text : string) : f32 :=
  let query_terms := lexical_terms is_alphanumeric query_lower in
  let text_lower := lowercase text in
  let text_terms := lexical_terms is_alphanumeric text_lower in
  let tag_terms := lexical_terms is_alphanumeric (lowercase (String.concat " " (e_tags e))) in
  let overlap := f32_of_Z (Z.of_nat (size (query_terms ∩ (text_terms ∪ tag_terms)))) in
  let phrase_bonus := if negb (str_eqb query_lower "") && str_contains query_lower text_lower then f32_of_Z 2 else f32_zero in
  let term_score := if bool_decide (query_terms = ∅) then f32_zero else f32_div overlap (f32_of_Z (Z.of_nat (size query_terms))) in
  f32_min (f32_add term_score (f32_mul phrase_bonus f32_quarter)) f32_one.

Definition lexical_hit (query_lower : string) (e : MemoryEntry) : option (MemoryEntry * f32) :=
  match e_content e with
  | Text text =>
      let score := lexical_score query_lower e text in
      if f32_gt score f32_zero then Some (e, score) else None
  | _ => None
  end.

(** Higher scores first, then later entries, then smaller identifiers. *)
Definition hit_before (x y : MemoryEntry * f32) : bool :=
  f32_gt x.2 y.2 ||
  negb (f32_gt y.2 x.2) &&
  ((e_created_at y.1 <? e_created_at x.1)%Z ||
   (e_created_at x.1 =? e_created_at y.1)%Z && String.ltb (e_id x.1) (e_id y.1)).

Definition recall_candidates (m : LayeredMemory) (readable_ids : list string) (namespace : string) : list MemoryEntry :=
  List.filter (fun e => str_mem (e_id e) readable_ids && str_eqb (e_tenant_id e) namespace)
    (values (lm_working m) ≫= active_revisions).

Definition recall_working_lexical_authorized (m : LayeredMemory) (role_id namespace query : string) (k : nat)
    : result LedgerError (list (MemoryEntry * f32)) :=
  ledger <-? ok_or (lm_ledger m) (Invalid "canonical_ledger_unavailable");
  readable_ids <-? lg_readable_active_revision_ids ledger role_id;
  Ok (take k (stable_sort hit_before (omap (lexical_hit (lowercase query)) (recall_candidates m readable_ids namespace)))).
End recall.

(** ** The service *)

Section service.
Context `{LedgerCodec} `{!Serde BuilderSpec} `{!Serde EmbeddingArtifact} `{!Serde AIObject} `{!Serde (gmap string AccessEntry)}.
Context `{HashIter} `{GraphCodec} `{SemanticSearch} `{Bm25Engine} `{Broadcast}.
Variable event_to_string : SequencedEvent -> option string.
Variable sessions_to_vec : gmap string ActiveSession -> option string.
Variable base64_decode : string -> option string.
Variable base64_encode : string -> string.
Variable lowercase : string -> string.
Variable is_alphanumeric : Z -> bool.
(** [search_with_filter_internal], the ranked search; the last argument allows its cache. *)
Variable search_with_filter_internal : FsEnv -> string -> nat -> SearchFilter -> bool -> SemanticFS -> DiagnosedSearch * SemanticFS.

(** The parts of [AIKernel] the service reaches. *)
Record PublicKernel := mkPublicKernel {
  pk_fs : FsKernel;
  pk_agents : gmap AgentId Agent;
  pk_memory : LayeredMemory;
  pk_projection : ProjectionRuntime;
  pk_sessions : SessionStore;
  pk_session_files : SessionFiles;
  (** The snapshot of the cognitive pipeline, when there is one. *)
  pk_cognitive : option CognitivePipelineSnapshot;
  pk_embedding_backend : string;
}.

(** What a request draws. *)
Record PublicEnv := mkPublicEnv {
  pv_now : Z;
  pv_object : KernelFsEnv;
  pv_memory : MemoryEnv;
  (** The identifier of a wake, and whether a shutdown overtakes it. *)
  pv_run_id : string;
  pv_stopping : bool;
  pv_files : ProjectionFiles;
  pv_owner : OwnerEnv;
  pv_others : nat -> ProjectionRuntime -> ProjectionRuntime;
  pv_session_id : string;
  pv_session_io : PermissionIo;
}.

Notation Answer := (result PublicError PublicData).
Implicit Types (k : PublicKernel) (env : PublicEnv).

Definition with_objects (fs : FsKernel) k : PublicKernel :=
  mkPublicKernel fs (pk_agents k) (pk_memory k) (pk_projection k) (pk_sessions k) (pk_session_files k) (pk_cognitive k)
    (pk_embedding_backend k).
Definition with_projection (rt : ProjectionRuntime) k : PublicKernel :=
  mkPublicKernel (pk_fs k) (pk_agents k) (pk_memory k) rt (pk_sessions k) (pk_session_files k) (pk_cognitive k)
    (pk_embedding_backend k).
Definition with_session_store (st : SessionStore) (files : SessionFiles) k : PublicKernel :=
  mkPublicKernel (pk_fs k) (pk_agents k) (pk_memory k) (pk_projection k) st files (pk_cognitive k) (pk_embedding_backend k).

(** *** Memories: the parts they use, and the wakes they cause *)

Definition memory_kernel k : MemoryKernel :=
  mkMemoryKernel (kf_permissions (pk_fs k)) (pk_agents k) (pk_memory k) (kf_bus (pk_fs k)) (kf_disk (pk_fs k)) [].
Definition from_memory_kernel (mk : MemoryKernel) k : PublicKernel :=
  let fs := pk_fs k in
  mkPublicKernel
    (mkFsKernel (kf_permissions fs) (kf_fs fs) (km_bus mk) (km_disk mk) (kf_kg_builder fs) (kf_search_op_count fs) (kf_index_saves fs))
    (pk_agents k) (km_memory mk) (pk_projection k) (pk_sessions k) (pk_session_files k) (pk_cognitive k) (pk_embedding_backend k).

(** The ledger the projection reads is the one under the memories. *)
Definition canonical k : option Canonical := (fun l : LedgerState * ImmutableLedgerStorage => mkCanonical (snd l) (fst l)) <$> lm_ledger (pk_memory k).

Fixpoint deliver_wakes env (cn : Canonical) (wakes : list (MemoryEntry * option string)) (rt : ProjectionRuntime) : option ProjectionRuntime :=
  match wakes with
  | [] => Some rt
  | (e, request_id) :: wakes =>
      '(_, rt) ← runtime_notify_current cn (pv_run_id env) (pv_stopping env) e request_id rt;
      deliver_wakes env cn wakes rt
  end.

Definition run_memory env {A} (op : MemoryKernel -> A * MemoryKernel) k : option (A * PublicKernel) :=
  let '(r, mk) := op (memory_kernel k) in
  let k := from_memory_kernel mk k in
  match canonical k with
  | None => Some (r, k)
  | Some cn => rt ← deliver_wakes env cn (km_notified mk) (pk_projection k); Some (r, with_projection rt k)
  end.

(** *** Readiness *)

Inductive ProviderProbeState : Type := Probe_Verified | Probe_Unavailable.
Record RuntimeReadiness := mkRuntimeReadiness {
  rr_ready : bool;
  rr_canonical_initialized : bool;
  rr_canonical_memory_ledger_present : bool;
  rr_cognitive_progress : option CognitivePipelineSnapshot;
  rr_configured_backend : string;
  rr_active_provider : string;
  rr_probe_state : ProviderProbeState;
  rr_projection : ProjectionRuntimeReadinessSnapshot;
}.
Definition runtime_readiness k : RuntimeReadiness :=
  let projection := readiness_snapshot (pk_projection k) in
  mkRuntimeReadiness (negb (rs_shutting_down projection)) true true (pk_cognitive k) (pk_embedding_backend k)
    (match rs_identity projection with Ok identity => identity | Err _ => "unavailable" end)
    (match rs_identity projection with Ok _ => Probe_Verified | Err _ => Probe_Unavailable end)
    projection.
Definition progress_view (s : CognitivePipelineSnapshot) : CognitivePipelineProgressView :=
  mkProgress (cn_accepted s) (cn_completed s) (cn_in_flight s) (cn_document_vector_succeeded_attempts s)
    (cn_document_lexical_degraded_attempts s) (cn_task_failed_attempts s) (cn_other_succeeded_attempts s) (cn_inline_document_attempts s).
Definition readiness_view (r : RuntimeReadiness) : ReadinessView := {|
  rv_ready := rr_ready r;
  rv_canonical_store := component (rr_canonical_initialized r);
  rv_canonical_memory_persistence := component (rr_canonical_memory_ledger_present r);
  rv_projection := projection_readiness (rr_projection r);
  rv_cognitive_worker := component (opt_is_some (rr_cognitive_progress r));
  rv_cognitive_progress := progress_view <$> rr_cognitive_progress r;
  rv_embedding_provider := match rr_probe_state r with Probe_Verified => State_Ready | Probe_Unavailable => State_Unavailable end;
  rv_configured_embedding_backend := rr_configured_backend r;
  rv_active_embedding_provider := rr_active_provider r |}.

(** *** Parts of the dispatch *)

(** [uuid.to_string()] *)
Definition id_text (id : Uuid) : string := uuid_hyphenated id.
Definition parse_internal_uuid (value category : string) : result PublicError Uuid := ok_or (uuid_parse value) (internal category).

Definition memory_view (e : MemoryEntry) : result PublicError MemoryEntryView :=
  entry_id <-? parse_internal_uuid (e_id e) "memory_entry_id";
  match e_content e with
  | Text content => Ok (mkEntryView entry_id content (e_tags e) (e_created_at e))
  | _ => Err (internal "memory_content_not_text")
  end.

Definition map_projection_status (s : ProjectionRuntimeStatus) : result PublicError ProjectionObservationView :=
  match s with
  | Status_Projection (Observed revision_id content_hash state event_watermark reconciled_source) =>
      revision_id <-? parse_internal_uuid revision_id "projection_revision_id";
      Ok (View_Observed revision_id content_hash (map_projection_state state) event_watermark (map_watermark reconciled_source))
  | Status_Projection (Unreconciled revision_id content_hash event_watermark reconciled_source) =>
      revision_id <-? parse_internal_uuid revision_id "projection_revision_id";
      Ok (View_Unreconciled revision_id content_hash event_watermark (map_watermark reconciled_source))
  | Status_Unavailable revision_id content_hash reason =>
      revision_id <-? parse_internal_uuid revision_id "projection_revision_id";
      Ok (View_Unavailable revision_id content_hash (map_projection_unavailable reason))
  end.

Definition check_public_permission env (ctx : PublicRequestContext) (action : PermissionAction) k : result PublicError unit :=
  if bool_decide (px_access ctx = Access_LocalOwner) then Ok tt
  else map_err (fun _ => not_permitted) (check (pv_now env) (kf_permissions (pk_fs k)) (context_new (context_role ctx) DEFAULT_TENANT) action).

Definition public_working_entry (role : string) (entry_id : Uuid) k : result PublicError MemoryEntry :=
  found <-? map_err (fun e => map_memory_error (D_Ledger e)) (find_active_authorized (pk_memory k) role Tier_Working (id_text entry_id));
  match found with
  | Some e => if str_eqb (e_tenant_id e) DEFAULT_TENANT then Ok e else Err (public_not_found "memory_entry")
  | None => Err (public_not_found "memory_entry")
  end.

Definition semantic_search_diagnosed (env : KernelFsEnv) (query role : string) (limit : nat) (require_tags exclude_tags : list string)
    (fs : FsKernel) : result ObjectError DiagnosedSearch * FsKernel :=
  match allow env fs (context_new role DEFAULT_TENANT) Action_Read with
  | Err e => (Err e, fs)
  | Ok _ =>
      let filter := with_access role DEFAULT_TENANT (can_read_any (kfe_now env) (kf_permissions fs) role)
                      (mkFilter require_tags exclude_tags None None None None None) in
      let '(diagnosed, files) := search_with_filter_internal (kfe_work env) query limit filter false (kf_fs fs) in
      (Ok diagnosed, with_fs files fs)
  end.

Definition put_content (i : ObjectPutInput) : result PublicError string :=
  match op_encoding i with
  | Encoding_Utf8 => Ok (op_content i)
  | Encoding_Base64 => ok_or (base64_decode (op_content i)) (invalid_argument "content must be valid standard base64")
  end.

Fixpoint recall_hits (hits : list (MemoryEntry * f32)) : result PublicError (list MemoryRecallHit) :=
  match hits with
  | [] => Ok []
  | (e, score) :: hits =>
      entry <-? memory_view e;
      hits <-? recall_hits hits;
      Ok (mkRecallHit entry score :: hits)
  end.

Definition change_view (c : ChangeEntry) : SessionChangeView :=
  mkChangeView (ch_seq c) (ch_change_type c) (ch_cid c) (ch_changed_at_ms c).

(** *** Dispatch: [None] is a panic, or a wait without end *)

Definition object_put env (role : string) (input : ObjectPutInput) k : option (Answer * PublicKernel) :=
  match put_content input with
  | Err e => Some (Err e, k)
  | Ok content =>
      '(r, fs) ← semantic_create event_to_string (pv_object env) content (op_tags input) role None ObjectScope_Private (pk_fs k);
      Some (match r with Ok cid => Ok (Data_ObjectPut cid) | Err e => Err (map_io_error (object_error_kind e)) end, with_objects fs k)
  end.
Definition object_get env (role cid : string) k : Answer * PublicKernel :=
  let '(r, fs) := kernel_get_object (pv_object env) cid role DEFAULT_TENANT (pk_fs k) in
  (match r with
   | Ok o => Ok (Data_ObjectGet (mkObjectView (ob_cid o) (base64_encode (ob_data o))
               (content_type_name (om_content_type (ob_meta o))) (om_tags (ob_meta o)) (om_created_at (ob_meta o))))
   | Err e => Err (map_io_error (fs_error_kind e))
   end, with_objects fs k).
Definition object_search env (role : string) (input : ObjectSearchInput) k : Answer * PublicKernel :=
  let '(r, fs) := semantic_search_diagnosed (pv_object env) (os_query input) role (Z.to_nat (os_limit input))
                    (os_require_tags input) (os_exclude_tags input) (pk_fs k) in
  (match r with
   | Ok d => Ok (Data_ObjectSearch (search_view d))
   | Err e => Err (map_io_error (object_error_kind e))
   end, with_objects fs k).

Definition created_view (r : result DurableMemoryMutationError MemoryEntry) : Answer :=
  entry <-? map_err map_memory_error r;
  view <-? memory_view entry;
  Ok (Data_MemoryCreate view).
Definition updated_view (previous : Uuid) (r : result DurableMemoryMutationError MemoryEntry) : Answer :=
  entry <-? map_err map_memory_error r;
  view <-? memory_view entry;
  Ok (Data_MemoryUpdate previous view).
Definition deleted_view (entry_id : Uuid) (r : result DurableMemoryMutationError MemoryEntry) : Answer :=
  entry <-? map_err map_memory_error r;
  deleted_at <-? ok_or (e_deleted_at entry) (internal "deleted_at_missing");
  Ok (Data_MemoryDelete entry_id deleted_at).

Definition public_create env (role : string) (request_id : Uuid) (input : MemoryCreateInput) k : option (Answer * PublicKernel) :=
  '(r, k) ← run_memory env (remember_working_with_request_id event_to_string (pv_memory env) role DEFAULT_TENANT
                              (mc_content input) (mc_tags input) (Some (id_text request_id))) k;
  Some (created_view r, k).
Definition public_get env (ctx : PublicRequestContext) (entry_id : Uuid) k : Answer :=
  check_public_permission env ctx Action_Read k ?>>
  (entry <-? public_working_entry (context_role ctx) entry_id k;
   view <-? memory_view entry;
   Ok (Data_MemoryGet view)).
Definition public_recall env (ctx : PublicRequestContext) (input : MemoryRecallInput) k : Answer :=
  check_public_permission env ctx Action_Read k ?>>
  (hits <-? map_err (fun e => map_memory_error (D_Ledger e))
     (recall_working_lexical_authorized lowercase is_alphanumeric (pk_memory k) (context_role ctx) DEFAULT_TENANT (mr_query input)
        (Z.to_nat (mr_limit input)));
   hits <-? recall_hits hits;
   Ok (Data_MemoryRecall hits)).
Definition public_update env (ctx : PublicRequestContext) (request_id : Uuid) (input : MemoryUpdateInput) k
    : option (Answer * PublicKernel) :=
  match check_public_permission env ctx Action_Write k with
  | Err e => Some (Err e, k)
  | Ok _ =>
      '(r, k) ← run_memory env (memory_update_with_request_id (pv_memory env) (context_role ctx) DEFAULT_TENANT
                                  (id_text (mu_entry_id input)) (mu_content input) (Some (id_text request_id))) k;
      Some (updated_view (mu_entry_id input) r, k)
  end.
Definition public_delete env (ctx : PublicRequestContext) (request_id entry_id : Uuid) k : option (Answer * PublicKernel) :=
  match check_public_permission env ctx Action_Delete k with
  | Err e => Some (Err e, k)
  | Ok _ =>
      '(r, k) ← run_memory env (memory_delete_with_request_id (pv_memory env) (context_role ctx) DEFAULT_TENANT
                                  (id_text entry_id) (Some (id_text request_id))) k;
      Some (deleted_view entry_id r, k)
  end.

Definition status_answer (kind : ProjectionKindInput) (r : result ProjectionRuntimeError (option ProjectionRuntimeStatus)) : Answer :=
  found <-? map_err map_projection_runtime_error r;
  status <-? ok_or found (public_not_found "projection_revision");
  view <-? map_projection_status status;
  Ok (Data_ProjectionStatus kind view).
Definition owner_required : PublicError :=
  public_error Code_PermissionDenied "projection rebuild requires the personal owner" false "projection_owner_required".
Definition rebuild_selector (s : ProjectionRebuildSelectorInput) : ProjectionRebuildSelector :=
  match s with
  | Select_CurrentRevision revision_id => CurrentRevision (id_text revision_id)
  | Select_AllEligible => AllEligible
  end.
Definition rebuild_answer (kind : ProjectionKindInput) (r : result ProjectionRuntimeError ProjectionDurableReceipt) : Answer :=
  receipt <-? map_err map_projection_runtime_error r;
  Ok (Data_ProjectionRebuild (mkRebuildResult kind (dr_selected_count receipt) (dr_manifest_generation receipt)
        (dr_event_watermark receipt) (map_watermark (dr_reconciled_source receipt)))).

(** The kernel is built with a ledger; without one the runtime has no canonical source. *)
Definition projection_status env (role : string) (input : ProjectionStatusInput) k : option (Answer * PublicKernel) :=
  cn ← canonical k;
  r ← runtime_status (pv_files env) cn (pk_projection k) role (id_text (psi_revision_id input));
  Some (status_answer (psi_kind input) r, k).
Definition projection_rebuild env (ctx : PublicRequestContext) (input : ProjectionRebuildInput) k : option (Answer * PublicKernel) :=
  if bool_decide (px_access ctx <> Access_LocalOwner) then Some (Err owner_required, k) else
  '(r, rt) ← runtime_owner_rebuild (pv_owner env) (pv_others env) (context_role ctx) (rebuild_selector (pri_selector input)) (pk_projection k);
  Some (rebuild_answer (pri_kind input) r, with_projection rt k).

Definition started_answer (r : result SessionError StartSessionResult) : Answer :=
  started <-? map_err map_session_error r;
  session_id <-? parse_internal_uuid (sr_session_id started) "session_id";
  Ok (Data_SessionStart session_id (sr_watermark started) (change_view <$> sr_changes_since_last started)).
Definition ended_answer (session_id : Uuid) (r : result SessionError Z) : Answer :=
  last_seq <-? map_err map_session_error r;
  Ok (Data_SessionEnd session_id last_seq).

Definition session_start env (role : string) (last_seen_seq : option Z) k : option (Answer * PublicKernel) :=
  let '(r, st, files) := start_session sessions_to_vec (pv_now env) (pv_session_io env) (pv_session_id env) role last_seen_seq
                           (kf_bus (pk_fs k)) (pk_sessions k) (pk_session_files k) in
  r ← r; Some (started_answer r, with_session_store st files k).
Definition session_end env (role : string) (session_id : Uuid) k : Answer * PublicKernel :=
  let '(r, st, files) := end_session sessions_to_vec (pv_session_io env) role (id_text session_id)
                           (kf_bus (pk_fs k)) (pk_sessions k) (pk_session_files k) in
  (ended_answer session_id r, with_session_store st files k).

Definition dispatch_public env (ctx : PublicRequestContext) (request_id : Uuid) (c : PublicCommand) k : option (Answer * PublicKernel) :=
  let role := context_role ctx in
  match c with
  | Cmd_CapabilitiesDescribe => Some (Ok (Data_CapabilitiesDescribe default_catalog), k)
  | Cmd_RuntimeReadiness => Some (Ok (Data_RuntimeReadiness (readiness_view (runtime_readiness k))), k)
  | Cmd_ObjectPut input => object_put env role input k
  | Cmd_ObjectGet cid => Some (object_get env role cid k)
  | Cmd_ObjectSearch input => Some (object_search env role input k)
  | Cmd_MemoryCreate input => public_create env role request_id input k
  | Cmd_MemoryGet entry_id => Some (public_get env ctx entry_id k, k)
  | Cmd_MemoryRecall input => Some (public_recall env ctx input k, k)
  | Cmd_MemoryUpdate input => public_update env ctx request_id input k
  | Cmd_MemoryDelete entry_id => public_delete env ctx request_id entry_id k
  | Cmd_ProjectionStatus input => projection_status env role input k
  | Cmd_ProjectionRebuild input => projection_rebuild env ctx input k
  | Cmd_SessionStart last_seen_seq => session_start env role last_seen_seq k
  | Cmd_SessionEnd session_id => Some (session_end env role session_id k)
  end.

(** The first reason to refuse a request before it is dispatched. *)
Definition refusal (ctx : PublicRequestContext) (r : PublicRequest) : option PublicError :=
  if bool_decide (px_transport ctx <> Transport_Tcp) && opt_is_some (prq_auth r)
  then Some (invalid_argument "auth is accepted only by the tcp transport")
  else match validate_request base64_decode r with
       | Err message => Some (invalid_argument message)
       | Ok _ => None
       end.

Definition handle_public_request env (ctx : PublicRequestContext) (r : PublicRequest) k : option (PublicResponse * PublicKernel) :=
  match refusal ctx r with
  | Some e => Some (response_failure (prq_request_id r) e, k)
  | None =>
      '(answer, k) ← dispatch_public env ctx (prq_request_id r) (prq_command r) k;
      Some (match answer with
            | Ok data => response_success (prq_request_id r) data
            | Err e => response_failure (prq_request_id r) e
            end, k)
  end.

(** ** What a request can do *)

(** The current policy of the memory lets the role read the revision. *)
Definition may_read (S : LedgerState) (role id : string) : Prop :=
  exists r p, r ∈ ls_revisions S /\ r_revision_id r = id /\
    last (policies_of (r_memory_id r) (ls_policies S)) = Some p /\ role ∈ p_reader_roles p.

(** A view of an active working memory of the local namespace that the role may read. *)
Definition shown (S : LedgerState) k (role : string) (v : MemoryEntryView) : Prop :=
  exists origin e, e ∈ get_active_tier (pk_memory k) origin Tier_Working /\ e_tenant_id e = DEFAULT_TENANT /\
    memory_view e = Ok v /\ may_read S role (e_id e).

(** The memories an answer to a read shows. *)
Definition read_views (resp : PublicResponse) : list MemoryEntryView :=
  match prs_data resp with
  | Some (Data_MemoryGet v) => [v]
  | Some (Data_MemoryRecall hits) => mh_entry <$> hits
  | _ => []
  end.

(** The permission a memory operation checks: creation in
    [remember_working_with_request_id], the others before they begin. *)
Definition needs (c : PublicCommand) : option PermissionAction :=
  match c with
  | Cmd_MemoryGet _ | Cmd_MemoryRecall _ => Some Action_Read
  | Cmd_MemoryCreate _ | Cmd_MemoryUpdate _ => Some Action_Write
  | Cmd_MemoryDelete _ => Some Action_Delete
  | _ => None
  end.
Definition lacks env (ctx : PublicRequestContext) (action : PermissionAction) k : Prop :=
  px_access ctx <> Access_LocalOwner /\
  exists denied, check (pv_now env) (kf_permissions (pk_fs k)) (context_new (context_role ctx) DEFAULT_TENANT) action = Err denied.

Lemma lacks_denied env ctx action k : lacks env ctx action k -> check_public_permission env ctx action k = Err not_permitted.
Proof. intros [Ha [d Hd]]. unfold check_public_permission. rewrite bool_decide_false by done. by rewrite Hd. Qed.

Lemma ok_bind {E A B} (r : result E A) (f : A -> result E B) b : (x <-? r; f x) = Ok b -> exists a, r = Ok a /\ f a = Ok b.
Proof. destruct r; [by eauto|done]. Qed.
Lemma ok_then {E A B} (r : result E A) (s : result E B) b : (r ?>> s) = Ok b -> s = Ok b.
Proof. by destruct r. Qed.

Lemma get_shown (l : LedgerState * ImmutableLedgerStorage) env ctx id k v : lm_ledger (pk_memory k) = Some l -> state_ok (fst l) ->
  public_get env ctx id k = Ok (Data_MemoryGet v) -> shown (fst l) k (context_role ctx) v.
Proof.
  intros Hl Hok. unfold public_get. intros Hg%ok_then. apply ok_bind in Hg as (e & He & Hg).
  apply ok_bind in Hg as (v' & Hv & [= <-]). unfold public_working_entry, find_active_authorized in He.
  apply ok_bind in He as (found & Hf & He). rewrite Hl in Hf. cbn [ok_or lg_origin_for_revision cas_ledger] in Hf.
  destruct (origin_for_revision (fst l) (context_role ctx) (id_text id) false) as [o|] eqn:Ho; [|done]. cbn in Hf. injection Hf as <-.
  destruct o as [o|]; [|done]. cbn in He. destruct (find_active_entry _ _ _ _) as [e'|] eqn:Hfe; [|done].
  destruct (str_eqb _ _) eqn:Ht; [|done]. injection He as ->. breflect.
  apply find_some in Hfe as [Hin Hid]. breflect. exists o, e. rewrite list_elem_of_In. split_and!; try done.
  apply origin_for_revision_exact in Ho as (r & p & Hr & Hid' & Hp & Hrole & _); [|done].
  exists r, p. by rewrite Hid.
Qed.

Lemma recall_hits_views hits views : recall_hits hits = Ok views ->
  Forall2 (fun h v => memory_view h.1 = Ok (mh_entry v)) hits views.
Proof.
  revert views. induction hits as [|[e sc] hits IH]; intros views; cbn; [by intros [= <-]|]. intros Hr.
  apply ok_bind in Hr as (v & Hv & Hr). apply ok_bind in Hr as (vs & Hvs & [= <-]). constructor; [done|by apply IH].
Qed.

Lemma recalled_readable (l : LedgerState * ImmutableLedgerStorage) m role ns q n hits e sc : lm_ledger m = Some l -> state_ok (fst l) ->
  recall_working_lexical_authorized lowercase is_alphanumeric m role ns q n = Ok hits -> (e, sc) ∈ hits ->
  (exists origin, e ∈ get_active_tier m origin Tier_Working) /\ e_tenant_id e = ns /\ may_read (fst l) role (e_id e).
Proof.
  intros Hl Hok. unfold recall_working_lexical_authorized. rewrite Hl. cbn [ok_or]. intros Hr Hin.
  apply ok_bind in Hr as (ids & Hids & [= <-]). change (readable_active_revision_ids (fst l) role = Ok ids) in Hids.
  apply elem_of_take in Hin as (i & Hin & _). apply list_elem_of_lookup_2 in Hin. rewrite stable_sort_perm in Hin.
  apply list_elem_of_omap in Hin as (e' & Hin & Hhit).
  assert (e' = e) as -> by (unfold lexical_hit in Hhit; destruct (e_content e'); try done; cbn in Hhit; destruct (f32_gt _ _); by simplify_eq).
  apply elem_of_lfilter in Hin as [Hin [Hmem Hns]%andb_prop].
  unfold str_mem in Hmem. unfold str_eqb in Hns. apply bool_decide_eq_true in Hmem, Hns. apply list_elem_of_bind in Hin as (es & He & Hes).
  apply elem_of_values in Hes as (origin & Ho). split_and!; [|done|].
  - exists origin. unfold get_active_tier, get_tier. cbn [tier_map]. by rewrite Ho.
  - apply (readable_ids_exact _ _ _ _ Hok Hids) in Hmem as (r & p & [Hh _ Hp] & Hid & Hrole).
    exists r, p. split; [by apply last_stream_elem in Hh as [? _]|done].
Qed.

Lemma answer_operation env ctx id c k data k' : dispatch_public env ctx id c k = Some (Ok data, k') -> data_operation data = command_operation c.
Proof.
  destruct c; cbn [dispatch_public]; intros Hd.
  - by injection Hd as <- _.
  - by injection Hd as <- _.
  - unfold object_put in Hd. destruct (put_content _); [|done]. destruct (semantic_create _ _ _ _ _ _ _) as [[[cid|] fs]|]; [| |done];
      cbn in Hd; by simplify_eq.
  - unfold object_get in Hd. destruct (kernel_get_object _ _ _ _ _) as [[o|] fs]; by simplify_eq.
  - unfold object_search in Hd. destruct (semantic_search_diagnosed _ _ _ _ _ _ _) as [[d|] fs]; by simplify_eq.
  - unfold public_create in Hd. destruct (run_memory _ _ _) as [[r k1]|]; [|done]. cbn in Hd. injection Hd as Hd _.
    apply ok_bind in Hd as (e & _ & Hd). by apply ok_bind in Hd as (v & _ & [= <-]).
  - injection Hd as Hd _. apply ok_then, ok_bind in Hd as (e & _ & Hd). by apply ok_bind in Hd as (v & _ & [= <-]).
  - injection Hd as Hd _. apply ok_then, ok_bind in Hd as (hits & _ & Hd). by apply ok_bind in Hd as (v & _ & [= <-]).
  - unfold public_update in Hd. destruct (check_public_permission _ _ _ _); [|done]. destruct (run_memory _ _ _) as [[r k1]|]; [|done].
    cbn in Hd. injection Hd as Hd _. apply ok_bind in Hd as (e & _ & Hd). by apply ok_bind in Hd as (v & _ & [= <-]).
  - unfold public_delete in Hd. destruct (check_public_permission _ _ _ _); [|done]. destruct (run_memory _ _ _) as [[r k1]|]; [|done].
    cbn in Hd. injection Hd as Hd _. apply ok_bind in Hd as (e & _ & Hd). by apply ok_bind in Hd as (v & _ & [= <-]).
  - unfold projection_status in Hd. destruct (canonical k); [|done]. cbn in Hd. destruct (runtime_status _ _ _ _ _) as [r|]; [|done].
    cbn in Hd. injection Hd as Hd _. apply ok_bind in Hd as (f & _ & Hd). apply ok_bind in Hd as (st & _ & Hd).
    by apply ok_bind in Hd as (v & _ & [= <-]).
  - unfold projection_rebuild in Hd. case_bool_decide; [done|]. destruct (runtime_owner_rebuild _ _ _ _ _) as [[r rt]|]; [|done].
    cbn in Hd. injection Hd as Hd _. by apply ok_bind in Hd as (f & _ & [= <-]).
  - unfold session_start in Hd. destruct (start_session _ _ _ _ _ _ _ _ _) as [[[r|] st] files]; [|done].
    cbn in Hd. injection Hd as Hd _. apply ok_bind in Hd as (f & _ & Hd). by apply ok_bind in Hd as (v & _ & [= <-]).
  - unfold session_end in Hd. destruct (end_session _ _ _ _ _ _ _) as [[r st] files].
    cbn in Hd. injection Hd as Hd _. by apply ok_bind in Hd as (f & _ & [= <-]).
Qed.

Lemma validate_for_ok id (data : PublicData) r : prq_request_id r = id -> id <> 0%N ->
  data_operation data = command_operation (prq_command r) -> validate_for (response_success id data) r = Ok tt.
Proof.
  intros <- Hid Hop. apply N.eqb_neq in Hid. unfold validate_for, validate_response, validate_uuid. cbn [prs_request_id prs_data response_success].
  rewrite Hid, N.eqb_refl, Hop. unfold str_eqb. by rewrite (bool_decide_true (command_operation _ = _)).
Qed.
Lemma validate_for_error r e : prq_request_id r <> 0%N -> validate_for (response_failure (prq_request_id r) e) r = Ok tt.
Proof.
  intros Hid. apply N.eqb_neq in Hid. unfold validate_for, validate_response, validate_uuid. cbn [prs_request_id prs_data response_failure].
  by rewrite Hid, N.eqb_refl.
Qed.

Lemma reads_dispatch env ctx r k resp k' : handle_public_request env ctx r k = Some (resp, k') -> refusal ctx r = None ->
  (forall id, prq_command r = Cmd_MemoryGet id -> k' = k /\
     resp = match public_get env ctx id k with Ok d => response_success (prq_request_id r) d | Err e => response_failure (prq_request_id r) e end) /\
  (forall input, prq_command r = Cmd_MemoryRecall input -> k' = k /\
     resp = match public_recall env ctx input k with Ok d => response_success (prq_request_id r) d | Err e => response_failure (prq_request_id r) e end).
Proof.
  unfold handle_public_request. intros Hh Href. rewrite Href in Hh.
  split; intros x Hc; rewrite Hc in Hh; cbn in Hh; by injection Hh as <- <-.
Qed.

(** The default policy grants reading and writing to every role. *)
Lemma lacks_delete env ctx action c k : needs c = Some action -> lacks env ctx action k -> action = Action_Delete.
Proof.
  intros Hn [_ [d Hd]]. unfold check in Hd. destruct (is_trusted _ _); [done|]. destruct (has_permission _ _ _); [done|].
  destruct (match guard_grants _ !! _ with Some _ => _ | None => _ end); [done|]. by destruct c; simplify_eq/=.
Qed.

(** A request without an identifier is refused, by an answer that has none. *)
Lemma nil_request ctx r e : prq_request_id r = 0%N ->
  refusal ctx r <> None /\ is_ok (validate_for (response_failure (prq_request_id r) e) r) = false.
Proof.
  intros Hid. split.
  - unfold refusal. destruct (_ && _); [done|]. unfold validate_request, validate_uuid. rewrite Hid.
    by destruct (validate_protocol _).
  - unfold validate_for, validate_response, validate_uuid. cbn [prs_request_id response_failure]. rewrite Hid.
    by destruct (validate_protocol _).
Qed.

Lemma read_permitted env ctx k : check_public_permission env ctx Action_Read k = Ok tt.
Proof.
  unfold check_public_permission, check. case_bool_decide; [done|]. destruct (is_trusted _ _); [done|].
  destruct (has_permission _ _ _); [done|]. by destruct (match guard_grants _ !! _ with Some _ => _ | None => _ end).
Qed.

Lemma unreadable_origin S role id : state_ok S -> ~ may_read S role id -> origin_for_revision S role id false = Ok None.
Proof.
  intros Hok Hno. destruct (origin_for_revision S role id false) as [[o|]|e] eqn:Ho; [|done|].
  - apply origin_for_revision_exact in Ho as (r & p & Hr & Hid & Hp & Hrole & _); [|done]. destruct Hno. by exists r, p.
  - unfold origin_for_revision in Ho. destruct (find_revision S id) as [r|] eqn:Hr; [|done].
    rewrite find_stream_ok in Ho by done. destruct (stream_spec _ _ _) as [s|] eqn:Hs; [|done].
    apply stream_policy in Hs as (h & p & _ & _ & _ & Hf); [|done]. by rewrite (proj2 (Hf p) eq_refl) in Ho.
Qed.

(** An entry that is not there and one the role may not read get the same answer. *)
Lemma unreadable_is_missing (l : LedgerState * ImmutableLedgerStorage) env ctx id k : lm_ledger (pk_memory k) = Some l -> state_ok (fst l) ->
  ~ may_read (fst l) (context_role ctx) (id_text id) -> public_get env ctx id k = Err (public_not_found "memory_entry").
Proof.
  intros Hl Hok Hno. unfold public_get, public_working_entry, find_active_authorized. rewrite read_permitted, Hl.
  cbn [ok_or lg_origin_for_revision cas_ledger]. by rewrite unreadable_origin.
Qed.

Lemma recall_shown (l : LedgerState * ImmutableLedgerStorage) env ctx input k hits : lm_ledger (pk_memory k) = Some l -> state_ok (fst l) ->
  public_recall env ctx input k = Ok (Data_MemoryRecall hits) ->
  Forall (shown (fst l) k (context_role ctx)) (mh_entry <$> hits) /\ length hits <= Z.to_nat (mr_limit input).
Proof.
  intros Hl Hok. unfold public_recall. intros Hr%ok_then. apply ok_bind in Hr as (found & Hf & Hr).
  apply ok_bind in Hr as (hits' & Hv & [= <-]). apply recall_hits_views in Hv as Hvs.
  destruct (recall_working_lexical_authorized _ _ _ _ _ _ _) as [found'|] eqn:Hrec; [|done]. injection Hf as ->. split.
  - apply Forall_fmap, Forall_lookup. intros i h Hh. destruct (Forall2_lookup_r _ _ _ _ _ Hvs Hh) as ([e sc] & He & Hview).
    apply list_elem_of_lookup_2 in He. destruct (recalled_readable l _ _ _ _ _ _ _ _ Hl Hok Hrec He) as ((o & Ho) & Hns & Hmay).
    by exists o, e.
  - rewrite <-(Forall2_length _ _ _ Hvs). unfold recall_working_lexical_authorized in Hrec. rewrite Hl in Hrec. cbn [ok_or] in Hrec.
    apply ok_bind in Hrec as (ids & _ & [= <-]). rewrite length_take. lia.
Qed.

Lemma recall_limit ctx r input : refusal ctx r = None -> prq_command r = Cmd_MemoryRecall input -> Z.to_nat (mr_limit input) <= Z.to_nat MAX_LIMIT.
Proof.
  unfold refusal. destruct (_ && _); [done|]. destruct (validate_request _ _) as [u|] eqn:Hv; [|done]. intros _ Hc.
  unfold validate_request in Hv. rewrite Hc in Hv. apply ok_then, ok_then, ok_then, ok_then in Hv. cbn in Hv.
  unfold validate_limit in Hv. destruct (negb _) eqn:Hn; [done|]. apply negb_false_iff, andb_prop in Hn as [_ Hn%Z.leb_le]. lia.
Qed.

Lemma read_views_shown (l : LedgerState * ImmutableLedgerStorage) env ctx r k resp k' :
  lm_ledger (pk_memory k) = Some l -> state_ok (fst l) -> handle_public_request env ctx r k = Some (resp, k') -> refusal ctx r = None ->
  Forall (shown (fst l) k (context_role ctx)) (read_views resp) /\ length (read_views resp) <= Z.to_nat MAX_LIMIT /\
  (forall input, prq_command r = Cmd_MemoryRecall input -> length (read_views resp) <= Z.to_nat (mr_limit input)).
Proof.
  intros Hl Hok Hh Href. assert (length (A := MemoryEntryView) [] <= Z.to_nat MAX_LIMIT) as H0l by (cbn; lia).
  unfold handle_public_request in Hh. rewrite Href in Hh.
  destruct (dispatch_public _ _ _ _ _) as [[[d|e] k1]|] eqn:Hd; [| |done]; cbn in Hh; injection Hh as <- <-; [|split_and!; [constructor|done|intros; cbn; lia]].
  pose proof (answer_operation _ _ _ _ _ _ _ Hd) as Hop. cbn [read_views response_success prs_data].
  destruct (prq_command r) eqn:Hc; destruct d; try done; cbn [dispatch_public] in Hd; injection Hd as Hd _.
  - split_and!; [|unfold MAX_LIMIT; cbn; lia|done]. apply Forall_singleton. by eapply get_shown.
  - destruct (recall_shown l _ _ _ _ _ Hl Hok Hd) as [Hs Hlen]. rewrite length_fmap.
    pose proof (recall_limit _ _ _ Href Hc). split_and!; [done|lia|]. by intros ? [= <-].
Qed.

(** C39: what a request can do is what its caller may do.  Every answer to a
    request with an identifier answers that request; one without is refused, by an
    answer that is itself not valid.  A refused request, an operation on memories
    the role lacks the permission for, creation included, and a rebuild asked by
    anyone but the owner change nothing and are answered so; of these permissions
    only the one to delete can be lacking, as reading and writing are granted to
    every role.  A read changes nothing and shows, within the limit of the request
    and of the protocol, only active working memories of the local namespace that
    the ledger's current policy lets the role read; a memory it may not read is
    answered like one that does not exist. *)
Theorem public_requests_contained (l : LedgerState * ImmutableLedgerStorage) env ctx r k resp k' :
  lm_ledger (pk_memory k) = Some l -> state_ok (fst l) -> handle_public_request env ctx r k = Some (resp, k') ->
  let fails e := k' = k /\ resp = response_failure (prq_request_id r) e in
  (prq_request_id r <> 0%N -> validate_for resp r = Ok tt) /\
  (prq_request_id r = 0%N -> refusal ctx r <> None /\ is_ok (validate_for resp r) = false) /\
  (forall e, refusal ctx r = Some e -> fails e /\ per_code e = Code_InvalidArgument) /\
  (refusal ctx r = None ->
     (forall action, needs (prq_command r) = Some action -> lacks env ctx action k ->
        fails not_permitted /\ action = Action_Delete) /\
     (forall input, prq_command r = Cmd_ProjectionRebuild input -> px_access ctx <> Access_LocalOwner -> fails owner_required) /\
     (needs (prq_command r) = Some Action_Read -> k' = k) /\
     (forall id, prq_command r = Cmd_MemoryGet id -> ~ may_read (fst l) (context_role ctx) (id_text id) -> fails (public_not_found "memory_entry"))) /\
  Forall (shown (fst l) k (context_role ctx)) (read_views resp) /\ length (read_views resp) <= Z.to_nat MAX_LIMIT /\
  (forall input, prq_command r = Cmd_MemoryRecall input -> length (read_views resp) <= Z.to_nat (mr_limit input)).
Proof.
  intros Hl Hok Hh fails. unfold fails. destruct (refusal ctx r) as [e|] eqn:Href.
  { unfold handle_public_request in Hh. rewrite Href in Hh. injection Hh as <- <-. cbn [read_views response_failure prs_data]. split_and!.
    - apply validate_for_error.
    - intros Hid. split; [done|]. by apply nil_request.
    - intros e' [= <-]. split; [done|]. unfold refusal in Href. destruct (_ && _); [by injection Href as <-|].
      destruct (validate_request _ _); [done|]. by injection Href as <-.
    - done.
    - constructor.
    - cbn. lia.
    - intros. cbn. lia. }
  destruct (reads_dispatch _ _ _ _ _ _ Hh Href) as [Hget Hrec]. split_and!.
  - intros Hid. unfold handle_public_request in Hh. rewrite Href in Hh.
    destruct (dispatch_public _ _ _ _ _) as [[[d|e] k1]|] eqn:Hd; [| |done]; cbn in Hh; injection Hh as <- <-.
    + apply validate_for_ok; [done|done|]. by eapply answer_operation.
    + by apply validate_for_error.
  - intros Hid. by destruct (nil_request ctx r not_permitted Hid).
  - done.
  - intros _. split_and!.
    + intros action Hneed Hl0. pose proof (lacks_delete _ _ _ _ _ Hneed Hl0) as ->. split; [|done].
      apply lacks_denied in Hl0 as Hlack. unfold handle_public_request in Hh. rewrite Href in Hh.
      destruct (prq_command r); try done. cbn [dispatch_public] in Hh.
      unfold public_delete in Hh. rewrite Hlack in Hh. cbn in Hh. by injection Hh as <- <-.
    + intros input Hc Ha. unfold handle_public_request in Hh. rewrite Href, Hc in Hh. cbn [dispatch_public] in Hh.
      unfold projection_rebuild in Hh. rewrite bool_decide_true in Hh by done. cbn in Hh. by injection Hh as <- <-.
    + intros Hneed. destruct (prq_command r); try done; [by eapply Hget | by eapply Hrec].
    + intros id Hc Hno. destruct (Hget id Hc) as [Hk Hr]. by rewrite (unreadable_is_missing l) in Hr.
  - by eapply read_views_shown.
  - by eapply read_views_shown.
  - by eapply read_views_shown.
Qed.
End service.

(** ** At a concrete kernel: a role without grants asks for a deletion *)

#[local] Instance unread {A} : Serde A | 100 := {| to_vec := fun _ => None; from_slice := fun _ => None |}.
#[local] Existing Instances list_iter bit_codec in_memory list_engine short_channel.

Definition quiet_log (event : SequencedEvent) : option string := None.
Definition no_sessions (m : gmap string ActiveSession) : option string := None.
Definition no_base64 (s : string) : option string := None.
Definition no_search (env : FsEnv) (query : string) (limit : nat) (filter : SearchFilter) (cache : bool) (fs : SemanticFS)
    : DiagnosedSearch * SemanticFS := (mkDiagnosed [] (execution_new "stub"), fs).

Definition empty_fs : SemanticFS := mkFS (cas_open 0 ∅ ∅ None None) ∅ ∅ [] no_vectors engine_new (Some graph_new) None None None None.
Definition public_kernel : PublicKernel := {|
  pk_fs := mkFsKernel guard_new empty_fs (with_rotation true 0 4 0) (mkDisk None ∅) None 0 0;
  pk_agents := ∅;
  pk_memory := set_ledger layered_new doc_ledger0;
  pk_projection := mkRuntime (Run_Unavailable Why_ProjectionNotInitialized) false (Err "unverified") false true false 0 false false 0;
  pk_sessions := session_store_new;
  pk_session_files := mkSessionFiles None None;
  pk_cognitive := None;
  pk_embedding_backend := "stub" |}.

Definition quiet_fs_env : FsEnv :=
  mkFsEnv 9 plain_io (mkAccessIo 9 id None) (fun _ => None) (mkGraphEnv 9 true (fun _ => true))
    (fun _ => Err (ServerUnavailable "down")) (fun _ => Err (ServerUnavailable "down")) 0 "stub" false (mkPermissionIo true true true).
Definition public_ledger : Canonical := mkCanonical (snd doc_ledger0) (fst doc_ledger0).
Definition quiet_env : PublicEnv := {|
  pv_now := 9;
  pv_object := mkKernelFsEnv 9 quiet_fs_env quiet_fs_env (mkEmit 9 9 9 Rotate_Done Append_Done) true;
  pv_memory := doc_env "x";
  pv_run_id := "run";
  pv_stopping := false;
  pv_files := found_files;
  pv_owner := mkOwnerEnv found_files public_ledger found_files public_ledger (Ok build_identity) build_self build_self build_self build_self build_self;
  pv_others := fun _ rt => rt;
  pv_session_id := "s";
  pv_session_io := mkPermissionIo true true true |}.

Definition bob : PublicRequestContext := authenticated_role "bob" Transport_Tcp.
Definition delete_request : PublicRequest := public_request_new 1%N (Some "bearer") (Cmd_MemoryDelete 5%N).
Definition handle_quietly (ctx : PublicRequestContext) (r : PublicRequest) (k : PublicKernel) : option (PublicResponse * PublicKernel) :=
  handle_public_request quiet_log no_sessions no_base64 id id (fun _ => true) no_search quiet_env ctx r k.

Lemma delete_handled : handle_quietly bob delete_request public_kernel = Some (response_failure 1%N not_permitted, public_kernel).
Proof. reflexivity. Qed.
Lemma delete_admitted : refusal no_base64 bob delete_request = None.
Proof. reflexivity. Qed.

Lemma public_requests_contained_witness :
  validate_for (response_failure 1%N not_permitted) delete_request = Ok tt /\ lacks quiet_env bob Action_Delete public_kernel.
Proof.
  assert (lacks quiet_env bob Action_Delete public_kernel) as Hlacks
    by (split; [discriminate|exists (Lacks "bob" Action_Delete); reflexivity]).
  destruct (public_requests_contained quiet_log no_sessions no_base64 id id (fun _ => true) no_search doc_ledger0 quiet_env bob
    delete_request public_kernel (response_failure 1%N not_permitted) public_kernel eq_refl doc_ok0 delete_handled)
    as (Hv & _ & _ & Hp & _).
  destruct (Hp delete_admitted) as (Hn & _). destruct (Hn Action_Delete eq_refl Hlacks) as [_ _].
  split; [by apply Hv|exact Hlacks].
Defined.
