(* ===== verification/Hooks.v ===== *)
(** * Hooks on tool calls ([src/src/kernel/hook.rs])

    Handlers registered at a point with a priority; the first one that blocks,
    in the order of priority and then of registration, decides.  The handlers a
    request can register are those of [src/src/kernel/handlers/tools.rs]. *)

From stdpp Require Import base strings list.
From S2P Require Import Prelude MemoryModel ApiRequest.

Local Open Scope Z_scope.

Inductive HookPoint : Type :=
  | PreToolCall | PostToolCall | PreSessionStart | PreWrite | PostWrite | PreDelete.

#[export] Instance HookPoint_eq_dec : EqDecision HookPoint.
Proof. solve_decision. Defined.

Inductive HookResult : Type := Hook_Continue | Hook_Block (reason : string).

Record HookContext := mkHookContext {
  hc_agent_id : string;
  hc_tool_name : string;
  hc_params : Json;
  hc_timestamp_ms : Z;
}.

(** The trait [HookHandler] has one method. *)
Definition HookHandler : Type := HookPoint -> HookContext -> HookResult.

Record HookEntry := mkHook {
  hk_point : HookPoint;
  hk_priority : Z;
  hk_handler : HookHandler;
}.

Definition HookRegistry : Type := list HookEntry.

Definition hook_register (hooks : HookRegistry) (point : HookPoint) (priority : Z)
    (handler : HookHandler) : HookRegistry := hooks ++ [mkHook point priority handler].

(** [sort_by_key] is stable: an element goes before the first of higher
    priority number, those of equal number stay in their order. *)
Fixpoint insert_by_priority (h : HookEntry) (l : list HookEntry) : list HookEntry :=
  match l with
  | [] => [h]
  | x :: l' => if hk_priority x <? hk_priority h then x :: insert_by_priority h l' else h :: l
  end.

Fixpoint sort_by_priority (l : list HookEntry) : list HookEntry :=
  match l with
  | [] => []
  | x :: l' => insert_by_priority x (sort_by_priority l')
  end.

Fixpoint run_in_order (point : HookPoint) (context : HookContext) (l : list HookEntry) : HookResult :=
  match l with
  | [] => Hook_Continue
  | h :: l' =>
      match hk_handler h point context with
      | Hook_Block reason => Hook_Block reason
      | Hook_Continue => run_in_order point context l'
      end
  end.

Definition run_hooks (hooks : HookRegistry) (point : HookPoint) (context : HookContext) : HookResult :=
  run_in_order point context
    (sort_by_priority (List.filter (fun h => bool_decide (hk_point h = point)) hooks)).

Definition point_debug (p : HookPoint) : string :=
  match p with
  | PreToolCall => "PreToolCall" | PostToolCall => "PostToolCall"
  | PreSessionStart => "PreSessionStart" | PreWrite => "PreWrite" | PostWrite => "PostWrite"
  | PreDelete => "PreDelete"
  end.

Definition list_hooks (hooks : HookRegistry) : list (string * Z) :=
  (fun h => (point_debug (hk_point h), hk_priority h)) <$> hooks.

(** ** The handlers a request registers *)

(** [name.contains(pattern)] *)
Definition name_contains (name pattern : string) : bool := opt_is_some (String.index 0 pattern name).

Definition pattern_applies (tool_pattern : option string) (context : HookContext) : bool :=
  match tool_pattern with
  | Some pattern => name_contains (hc_tool_name context) pattern
  | None => true
  end.

Definition api_block_hook (tool_pattern : option string) (reason : string) : HookHandler :=
  fun _ context => if pattern_applies tool_pattern context then Hook_Block reason else Hook_Continue.

(** It only writes to the log. *)
Definition api_log_hook (tool_pattern : option string) : HookHandler := fun _ _ => Hook_Continue.

Definition parse_hook_point (point : string) : option HookPoint :=
  let p := to_lowercase point in
  if str_mem p ["pretoolcall"; "pre-tool-call"; "pre"] then Some PreToolCall
  else if str_mem p ["posttoolcall"; "post-tool-call"; "post"] then Some PostToolCall
  else if str_mem p ["prewrite"; "pre-write"] then Some PreWrite
  else if str_mem p ["predelete"; "pre-delete"] then Some PreDelete
  else if str_mem p ["presessionstart"; "pre-session"] then Some PreSessionStart
  else None.

Inductive HookError : Type := Hook_unknown_point (point : string) | Hook_unknown_action (action : string).

Definition handle_hook_register (hooks : HookRegistry) (point action : string)
    (tool_pattern reason : option string) (priority : option Z)
    : result HookError unit * HookRegistry :=
  match parse_hook_point point with
  | None => (Err (Hook_unknown_point point), hooks)
  | Some hook_point =>
      let prio := default 50 priority in
      let a := to_lowercase action in
      let reason := default "blocked by API hook" reason in
      if str_eqb a "block" then
        (Ok tt, hook_register hooks hook_point prio (api_block_hook tool_pattern reason))
      else if str_mem a ["log"; "continue"] then
        (Ok tt, hook_register hooks hook_point prio (api_log_hook tool_pattern))
      else (Err (Hook_unknown_action action), hooks)
  end.

(** ** The first block wins *)

(** Entry [i] blocks at the point. *)
Definition blocks_at (hooks : HookRegistry) (point : HookPoint) (context : HookContext)
    (i : nat) (priority : Z) (reason : string) : Prop :=
  exists h, hooks !! i = Some h /\ hk_point h = point /\ hk_priority h = priority /\
    hk_handler h point context = Hook_Block reason.

(** The block that decides: the least priority number, then the earliest. *)
Definition first_block (hooks : HookRegistry) (point : HookPoint) (context : HookContext)
    (reason : string) : Prop :=
  exists i priority, blocks_at hooks point context i priority reason /\
    forall j p r, blocks_at hooks point context j p r -> priority < p \/ (priority = p /\ (i <= j)%nat).

Section decide.
Variables (point : HookPoint) (context : HookContext).

Notation run := (run_in_order point context).
Notation answer h := (hk_handler h point context).

(** What [run] returns on a sorted list with one more element. *)
Definition first_of (h : HookEntry) (rest : option (Z * string)) : option (Z * string) :=
  match answer h with
  | Hook_Continue => rest
  | Hook_Block r =>
      match rest with
      | Some (p, r') => if hk_priority h <=? p then Some (hk_priority h, r) else Some (p, r')
      | None => Some (hk_priority h, r)
      end
  end.

(** The deciding block of a list by priority and position. *)
Fixpoint decisive (l : list HookEntry) : option (Z * string) :=
  match l with
  | [] => None
  | h :: l' => first_of h (decisive l')
  end.

Inductive ascending : list HookEntry -> Prop :=
  | asc_nil : ascending []
  | asc_cons x l : Forall (fun y => hk_priority x <= hk_priority y) l -> ascending l -> ascending (x :: l).

Lemma insert_elem h l y : y ∈ insert_by_priority h l -> y = h \/ y ∈ l.
Proof.
  induction l as [|x l IH]; cbn; [rewrite list_elem_of_singleton; auto|].
  destruct (_ <? _); rewrite !elem_of_cons; naive_solver.
Qed.

Lemma insert_ascending h l : ascending l -> ascending (insert_by_priority h l).
Proof.
  induction 1 as [|x l F A IH]; cbn; [by repeat constructor|].
  destruct (Z.ltb_spec (hk_priority x) (hk_priority h)).
  - constructor; [|done]. apply Forall_forall. intros y [-> |M]%insert_elem; [lia|].
    by apply (proj1 (Forall_forall _ _) F).
  - constructor; [|by constructor]. constructor; [lia|].
    apply (Forall_impl _ _ _ F). intros y ?. lia.
Qed.

Lemma sort_ascending l : ascending (sort_by_priority l).
Proof. induction l as [|x l IH]; cbn; [constructor|by apply insert_ascending]. Qed.

Definition outcome (d : option (Z * string)) : HookResult :=
  match d with Some (_, r) => Hook_Block r | None => Hook_Continue end.

Lemma decisive_low l p r :
  ascending l -> decisive l = Some (p, r) -> forall q, Forall (fun y => q <= hk_priority y) l -> q <= p.
Proof.
  intros A. revert p r. induction A as [|x l F A IH]; intros p r D q Q; [done|]. cbn in D.
  inversion Q as [|? ? Qx Ql]; subst. unfold first_of in D. destruct (answer x); [by apply (IH _ _ D)|].
  destruct (decisive l) as [[p' r']|]; [|by simplify_eq].
  destruct (_ <=? _); simplify_eq; [done|by apply (IH _ _ eq_refl)].
Qed.

(** On a sorted list running in order finds the deciding block. *)
Lemma run_ascending l : ascending l -> run l = outcome (decisive l).
Proof.
  induction 1 as [|x l F A IH]; [done|]. cbn. unfold first_of. destruct (answer x) as [|r]; [done|].
  destruct (decisive l) as [[p r']|] eqn:D; [|done].
  pose proof (decisive_low l p r' A D (hk_priority x) F) as L.
  by destruct (Z.leb_spec (hk_priority x) p); [|lia].
Qed.

(** Inserting does not change which block decides. *)
Lemma decisive_insert h l : ascending l -> decisive (insert_by_priority h l) = first_of h (decisive l).
Proof.
  induction 1 as [|x l F A IH]; [done|]. cbn. destruct (Z.ltb_spec (hk_priority x) (hk_priority h)); [|done].
  cbn. rewrite IH. unfold first_of. destruct (answer x) as [|rx], (answer h) as [|rh]; try done.
  destruct (decisive l) as [[p r]|] eqn:D; cbn;
    repeat case_match; simplify_eq; try done; lia.
Qed.

Lemma decisive_sort l : decisive (sort_by_priority l) = decisive l.
Proof.
  induction l as [|x l IH]; [done|]. cbn. by rewrite (decisive_insert x _ (sort_ascending l)), IH.
Qed.

Lemma blocks_shift x (l : list HookEntry) i p r :
  blocks_at (x :: l) point context (S i) p r <-> blocks_at l point context i p r.
Proof. done. Qed.

(** The deciding block among the hooks of the point. *)
Lemma decisive_spec (l : list HookEntry) :
  match decisive (List.filter (fun h => bool_decide (hk_point h = point)) l) with
  | Some (p, r) =>
      exists i, blocks_at l point context i p r /\
        forall j q r', blocks_at l point context j q r' -> p < q \/ (p = q /\ (i <= j)%nat)
  | None => forall j q r', ~ blocks_at l point context j q r'
  end.
Proof.
  induction l as [|x l IH]; [intros j q r' (h & G & _); by destruct j|].
  assert (N : ~ (exists p r, blocks_at (x :: l) point context 0 p r) ->
    match decisive (List.filter (fun h => bool_decide (hk_point h = point)) l) with
    | Some (p, r) => exists i, blocks_at (x :: l) point context i p r /\
        forall j q r', blocks_at (x :: l) point context j q r' -> p < q \/ (p = q /\ (i <= j)%nat)
    | None => forall j q r', ~ blocks_at (x :: l) point context j q r'
    end).
  { intros N0. destruct (decisive _) as [[p r]|].
    - destruct IH as (i & B & M). exists (S i). split; [done|]. intros [|j] q r' Bj; [naive_solver|].
      destruct (M j q r' Bj); lia.
    - intros [|j] q r' Bj; [naive_solver|by apply (IH j q r')]. }
  cbn. case_bool_decide as P; [|apply N; intros (? & ? & h & [= <-] & ? & _); done].
  cbn. unfold first_of. destruct (hk_handler x point context) as [|rx] eqn:A.
  { apply N. intros (? & ? & h & [= <-] & _ & _ & ?). congruence. }
  assert (B0 : blocks_at (x :: l) point context 0 (hk_priority x) rx) by by exists x.
  assert (U : forall q r', blocks_at (x :: l) point context 0 q r' -> q = hk_priority x).
  { by intros q r' (h & [= <-] & _ & <- & _). }
  clear N. destruct (decisive _) as [[p r]|].
  - destruct IH as (i & B & M). destruct (Z.leb_spec (hk_priority x) p).
    + exists 0%nat. split; [done|]. intros [|j] q r' Bj; [apply U in Bj; lia|].
      destruct (M j q r' Bj); lia.
    + exists (S i). split; [done|]. intros [|j] q r' Bj; [apply U in Bj; lia|].
      destruct (M j q r' Bj); lia.
  - exists 0%nat. split; [done|]. intros [|j] q r' Bj; [apply U in Bj; lia|].
    by apply (IH j q r') in Bj.
Qed.
End decide.

(** The first block wins.  Running the hooks of a point blocks with a reason
    exactly when a hook registered at that point blocks with it that precedes
    every other blocking hook of the point, by its priority number and, among
    equal numbers, by registration; and continues exactly when none blocks. *)
Lemma first_block_wins (hooks : HookRegistry) point context :
  match run_hooks hooks point context with
  | Hook_Block reason => first_block hooks point context reason
  | Hook_Continue => forall i p r, ~ blocks_at hooks point context i p r
  end.
Proof.
  unfold run_hooks. rewrite (run_ascending _ _ _ (sort_ascending _)), decisive_sort.
  pose proof (decisive_spec point context hooks) as D.
  destruct (decisive _ _ _) as [[p r]|]; cbn; [|exact D].
  destruct D as (i & B & M). by exists i, p.
Qed.
